(* ===== verification/_CoqProject ===== *)
-Q . S2P
Prelude.v
Blocks.v
FreeQueue.v
Request.v
BlockHash.v
Metrics.v
HashMap.v
BlockPool.v
PoolInv.v
PoolProps.v
KVCacheSpec.v
KVCachePlan.v
PlanProps.v
PlanGroups.v
PlanMemory.v
PlanShape.v
PlanWorkers.v
PlanExamples.v
CacheHit.v
HitProps.v
HitExamples.v
SingleTypeManager.v
ManagerInv.v
Coordinator.v
CoordinatorProps.v
KVCacheManager.v
EncoderCache.v
HeapQueue.v
RequestQueue.v
SchedUtils.v
Scheduler.v
Schedule.v
SchedUpdate.v
EncoderSched.v
OutputProps.v
SchedLaws.v
SchedWF.v
Preemption.v
RunningLoop.v
WaitingLoop.v
StepProps.v
StepOutput.v
Admission.v
Generation.v
Abort.v
EngineCore.v
GroupInv.v
KVManagerProps.v
Contracts.v
Serving.v
ServingExamples.v
RoundExamples.v
PairProtocol.v
PairInv.v
PairSteps.v
PairSafe.v
PairFence.v
PairRun.v
PairGate.v
PairInspect.v
Ngram.v
OffloadPolicy.v
Offload.v
OffloadProps.v
OffloadSafe.v
Transfers.v
Connector.v
ConnectorLaws.v
ConnectorWorld.v
ConnectorInv.v
ConnectorData.v
ConnectorWorker.v
ConnectorCollect.v
ConnectorSched.v
ConnectorAdmit.v
ConnectorStore.v
ConnectorMeta.v
ConnectorOps.v
ConnectorRun.v
ConnectorSafe.v
