(* ===== verification/Prelude.v ===== *)
(** * Verification of the scheduling core of vLLM v1 and of the pair scheduler

    ** The program

    The repository holds vLLM (src/vllm) with a scheduler for pairs of instances
    (src/scheduler), hardware plug-ins and deployment scripts.  This library models
    the part that decides which requests run in a step and which memory blocks of the
    KV cache they use (src/vllm/vllm/v1/core, with data types from
    src/vllm/vllm/v1/request.py and src/vllm/vllm/v1/kv_cache_interface.py), the
    n-gram proposer of draft tokens (src/vllm/vllm/v1/spec_decode), the offloading of
    KV-cache blocks to host memory (src/vllm/vllm/v1/kv_offload and the connector in
    src/vllm/vllm/distributed/kv_transfer/kv_connector/v1/offloading), and the protocol
    by which two instances on one host take turns (src/scheduler/src/vllm_pair_scheduler).

    At start-up the planning of kv_cache_utils.py groups the layers of the model and
    divides the memory of every worker into blocks.  In each step the [Scheduler]
    goes through the running and the waiting requests, asks the [KVCacheManager] for
    cache hits and slots, preempts when there are none, and later takes in the
    sampled tokens.  The manager delegates to a coordinator with one manager per
    KV-cache group; the managers share one [BlockPool], a doubly linked free list, a
    prefix-cache index from block hashes to blocks and an optional metrics collector.
    Block hashes are chained digests of tokens and of extra keys (multi-modal inputs,
    LoRA, cache salt, prompt embeddings).  Beside them stand the encoder cache for
    multi-modal inputs and the queues of waiting requests.  The offloading connector has
    a side in the scheduler, which asks a manager of host slots what to load and to store
    for each request, and a side in the worker, which submits the copies as jobs and
    reports the requests whose jobs have ended.  In a pair of instances
    every worker's [execute_model] and [sample_tokens] are wrapped by a gate
    (gate.py), which enters and leaves rounds of a shared-memory protocol
    (native/pair_sched.c) with a coordinator thread.

    ** Files (in order of dependency)

    - Prelude: exceptions as an error monad ([res], with [pyexn]), Python integers,
      slices and indices, ceiling division, loops that may raise, tactics.
    - Blocks: [KVCacheBlock] objects in a shared store (kv_cache_utils.py).
    - FreeQueue: [FreeKVCacheBlockQueue], pointer operations on the store;
      [free_queue_refines_list] shows that every run simulates a plain list.
    - Request: [Request], statuses, sampling parameters (request.py).
    - BlockHash: group keys, extra keys, the request block hasher and the coarser
      views of a hash list (kv_cache_utils.py); the hash functions are parameters.
    - Metrics: the block metrics collector (kv_cache_metrics.py).
    - HashMap: [BlockHashToBlockMap] (block_pool.py), refined to a multimap.
    - BlockPool, PoolInv, PoolProps: [BlockPool] (block_pool.py), its invariant
      [PoolInv R own p fl] (reserved blocks, references of the clients, free list
      in order), a contract per operation, and safety of all legal runs.
    - KVCacheSpec: layer specs, page sizes, memory bounds and merging
      (kv_cache_interface.py).
    - KVCachePlan: the planning of kv_cache_utils.py from [get_kv_cache_configs]
      down; PlanProps (needs grow with the length, the search), PlanGroups (hybrid
      grouping), PlanMemory (tensors), PlanShape (grouping and projection),
      PlanWorkers (the whole plan), PlanExamples (concrete plans, deviations).
    - CacheHit: [find_longest_cache_hit] of every manager class
      (single_type_kv_cache_manager.py); HitProps proves what each returns,
      HitExamples evaluates them.
    - SingleTypeManager: the managers of one attention type; ManagerInv accounts
      for the blocks they hold against [PoolInv] and proves their contracts.
    - Coordinator: the three coordinators (kv_cache_coordinator.py);
      CoordinatorProps proves the hybrid search and the grouping of specs.
    - KVCacheManager: the scheduler's interface (kv_cache_manager.py).
    - EncoderCache: both encoder cache managers (encoder_cache_manager.py).
    - HeapQueue, RequestQueue: heapq and the request queues
      (sched/request_queue.py) behind a type class with laws.
    - SchedUtils: repetition check, list removal, stop check (sched/utils.py).
    - Scheduler: the state of [Scheduler] and [AsyncScheduler] and the interfaces of
      the managers, queues and connectors (sched/scheduler.py, sched/output.py);
      Schedule: [schedule] with its running and waiting loops and preemption;
      SchedUpdate: [update_from_output], adding and finishing requests, streaming
      sessions, invalid blocks, resets.
    - EncoderSched, OutputProps: encoder inputs of a step, aligned splitting,
      sampled tokens and streaming updates.
    - SchedLaws (laws of the KV-cache and queue interfaces as classes), SchedWF (the
      invariant between steps), Preemption, RunningLoop, WaitingLoop, StepProps,
      StepOutput: a step returns and keeps the invariant; Admission: adding
      requests; Generation: [update_from_output] on the answers of a model; Abort:
      [finish_requests].
    - EngineCore: requests as they arrive, aborts and the step of [EngineCore]
      (engine/core.py); the executor of the model is a parameter.
    - GroupInv, KVManagerProps: the KV-cache manager over one group satisfies the laws
      of a step; Contracts: with requests that carry their block hashes it satisfies the
      laws of generation too; Serving: a scheduler as its constructor builds it and
      an engine core in service ([service]: arrivals, aborts, pauses and steps in any
      order); ServingExamples, RoundExamples: concrete runs.
    - PairProtocol: pair_sched.c as threads that interleave at every atomic access,
      with the step relation [step] and [reachable]; PairInv: the invariant of a
      worker and of a group and the changes other threads may make; PairSteps: steps
      of workers; PairSafe: steps of the coordinator, the invariant of the system,
      exclusion and barrier; PairFence: callers that follow the rules meet no
      consistency error; PairRun: executable schedules, witnesses, deviations.
    - PairGate: config.py, the gate and the wrapped worker; PairInspect: the snapshot
      of pair_sched.c and its reader inspect.py.
    - Ngram: [NgramProposer] (spec_decode/ngram_proposer.py), its search and the
      quadratic reference it agrees with.
    - OffloadPolicy: the interface [CachePolicy] with LRU and ARC
      (kv_offload/cpu/policies) and the laws both obey; Offload: the manager
      (kv_offload/cpu/manager.py) and the reuse filter (kv_offload/reuse_manager.py);
      OffloadProps: the manager with its transfers and the invariant; OffloadSafe:
      safety of all legal runs, examples, a deviation, the filter.
    - Transfers: specs, job queues and copies (kv_offload/mediums.py,
      kv_offload/worker), with lemmas on sub-blocks, the copies of a job and progress.
    - Connector: [OffloadingConnectorScheduler] and [OffloadingConnectorWorker]
      (kv_connector/v1/offloading) over the interface [OffloadingManager];
      ConnectorLaws: the laws of a manager, which the CPU manager obeys under every
      lawful policy, with or without the filter.
    - ConnectorWorld: both sides with the copies and the memories as one system, its
      operations [cop] and what scheduler and engine keep to ([clegal]); ConnectorInv:
      the invariant; ConnectorData, ConnectorWorker, ConnectorCollect (worker side),
      ConnectorSched, ConnectorAdmit, ConnectorStore, ConnectorMeta (scheduler side),
      ConnectorOps, ConnectorRun (every operation keeps it); ConnectorSafe: the theorems
      about all legal runs and a concrete run.

    ** How the code is modelled

    An operation takes the object's record and returns its new record in the
    error monad; the order of effects is the order of the source, and an assertion
    or [raise] is an [Err] with its exception.  Objects that the source shares
    through references (blocks, linked in the free list and held by requests and
    by the index; requests, held by the scheduler and its queues) live in one store,
    a function from references to field records, so aliasing is explicit.  A dict is
    a [gmap], or an association list where the source relies on its order.  Python
    integers are unbounded; the words of the shared memory are converted at their
    widths.  The manager classes differ by the constructor of their spec, so an
    overridden method is a match on the spec.  A thread of pair_sched.c is a program
    counter with the values it has loaded, and one step performs one atomic access.

    ** What the theorems show

    - Memory safety of the pool: no operation of a legal client raises, blocks are
      neither lost nor duplicated, a freshly allocated block carries no stale hash,
      the free list is evicted in least-recently-freed order.
    - Soundness of prefix sharing: for requests as the code builds and extends them
      ([hashed_request]), equal block hashes mean equal prefixes and different salts
      different hashes, under a collision-free hash (hypothesis [collision_free], with a
      concrete injective instance in the witnesses); incremental hashing equals hashing
      from scratch while only the last multi-modal input is open.
    - Cache hits: each lookup returns the longest aligned hit whose needed blocks
      (prefix, window, chunk or state) are cached, and the hybrid search, without EAGLE
      and for the specs of [hybrid_spec_ok], the longest length all groups cover; both
      terminate and never raise.
    - Capacity: a positive capacity check means that allocation succeeds and gives
      every token a block; [allocate_slots] over one group, with or without a hit,
      refuses only when blocks are missing.
    - Planning, with a layer on every worker and no override of the number of blocks:
      exceptions of merging and grouping the specs are passed on; otherwise it succeeds
      exactly when the longest request fits every worker, gives all workers the same
      number of blocks within their memory and every layer one tensor; automatic fitting
      finds the largest length that fits.
    - Scheduling: a step returns, stays within its budgets, gives every scheduled
      token a slot, loses no request and cleans up after preemption; a scheduler as
      built by its constructor serves its first step; an engine core serves for ever:
      after any mix of arrivals, aborts, pauses and steps no call raises, each request
      gets exactly the tokens sampled for it, and those that end give back their slots.
    - Encoder cache: no legal call raises, and its counters and eviction queue are
      consistent in every state reached; the outputs that the model runner gathers are
      there.
    - Queues: both serve as the list of their requests in the order of the policy does,
      whatever sequence of calls they get.  Repetition check, stop check: exact
      functional specifications, the latter when the minimal output fits the limits.
    - Pair protocol: the two instances never run the model at the same time, a round
      runs only when all workers have joined it, callers that follow the rules are
      never failed by a consistency check, the wrapped worker follows the rules, and
      the inspection reads what the library wrote.
    - Draft tokens: the linear search drafts what the reference finds.
    - Offloading: whatever the transfers write and in whichever order they finish, a
      load finds its block; slots in use are not handed out; the events tell which
      blocks can be loaded; this holds for every policy that obeys the laws.
    - Offloading connector: no operation raises, each load brings the blocks that its
      request expects, also when requests are preempted while they are being stored and
      slots are reused; blocks are held until their stores are collected, and every
      request is reported once its transfers have ended.
    - Deviations of the code from its intent are theorems too:
      [incremental_hash_drops_image], [lora_name_and_salt_confused],
      [sliding_eagle_realign_uncovered], [encdec_free_slots_exceed_size],
      [remove_all_duplicates], [session_keeps_stale_hash],
      [eagle_chunk_misses_next_input], [minimum_beyond_length_starves],
      [merge_ignores_value_heads], [uniform_test_raises], [padded_page_not_unified],
      [empty_stage_fails], [draining_wait_hangs], [arc_refuses_idle_blocks],
      [budget_refuses_despite_capacity], [session_ignores_max_tokens].

    ** Bounds and fuel

    A loop without a structural measure has fuel, and running out is the error
    [OutOfFuel], which the theorems exclude: the alignment loop pops one block per
    turn (fuel: the number of blocks), the hybrid search shortens the hit on every
    repetition (fuel: the maximal hit length plus one), the walk of the free list is
    bounded by the number of blocks, the eviction loop of the encoder cache by the
    number of evictable entries, the heap loops by the size of the heap, the
    preempting allocation loop by the number of running requests plus one, the
    running and waiting loops by the requests they can look at, the search for the
    longest model by its upper end plus one, and the n-gram search by twice the number
    of tokens (every turn moves the position or shortens the match).

    ** Assumptions

    Block sizes are positive (a zero block size raises ZeroDivisionError in the
    source).  [get_usage] and the concurrency that is logged are exact fractions
    instead of floats.  Time stamps are integers.  Sets of small integers are iterated
    in increasing order.  SHA-256, the serialising hash function and the sizes of
    torch dtypes are parameters.  The float target of ARC is rounded to 53 bits; the
    reference counts of offloaded blocks have 32 bits, so fewer than 2^31 loads are
    under way at a time.  A copy moves the identity of a block's data; the copies of one
    direction end in the order of submission and may leave anything in their
    destinations before that.  For the connector the engine runs one step after the
    other, the forward pass has computed the blocks to be stored when they are saved, the
    blocks of a request have distinct hashes and an id is not used again while stores of
    its request are under way.  Positions of multi-modal inputs are ordered and
    disjoint ([mm_wf]).  The theorems about whole steps are for text requests, no
    connectors and one KV-cache group.  The group ([kv_state], [one_group]) is of full,
    sliding-window or chunked attention, prefix caching is on only with full attention
    and then the hash block is the block scaled by the context parallelism; the served
    configurations have no LoRA and no metrics collector.  The theorems about many steps
    are also without speculative decoding, under a collision-free hash ([ideal_hash],
    with an injective instance in RoundExamples), for prompts that with their minimal
    output fit the model and for ids that are not in use.  The executor answers a step with
    one row for each request scheduled in it, which has a token exactly when the request
    has computed all of its tokens ([model_answers]).  In the pair protocol each rank is opened once
    per file and its threads start; memory is sequentially consistent, also where the
    source uses relaxed or acquire and release atomics; the clock is read and stored in
    one step by heartbeats and publications; sequence numbers, grants and nanosecond
    clocks do not overflow; a snapshot takes all its loads at one instant.  The gate
    relies on the laws [Library] of PairGate: a granted round is held until it is left,
    an error code or a close inside a round means that the pair has failed, and a failed
    pair stays failed.

    ** Not modelled

    Of the scheduler: routed experts, event publishing, grammar bitmasks, shutdown;
    connectors are parameters.  Of the pair scheduler: [ps_close] with its stopping
    flag, the clean-up of a failed [ps_open], the futex words (a wait returns to the head
    of its loop at any time), the generation files, tracing, ages in milliseconds,
    diagnostics.  Of offloading: the tensors, streams and events behind a copy, the registration of KV caches, statistics
    and the construction from the configuration.  Of the engine core: steps with a
    batch queue, data parallelism, utility calls.  Further: engine processes, workers,
    models and kernels, network front ends, plug-ins, scripts and tests.  Of the managers,
    the operations of Mamba in align mode and of cross attention are defined, but the
    capacity theorems do not cover them; those about [allocate_slots] as a whole are for
    the one group above and without external tokens. *)

From stdpp Require Export base tactics option numbers strings gmap gmultiset list.

#[export] Set Default Goal Selector "!".

Declare Scope py_scope.
Delimit Scope py_scope with py.
#[global] Open Scope Z_scope.

(** ** Exceptions and the error monad

    A Python call either returns or raises.  [OutOfFuel] is not a Python
    exception: it marks a bounded loop whose bound was too small, and every
    theorem about such a loop proves that it does not occur. *)

Inductive pyexn :=
  | AssertionError
  | ValueError
  | RuntimeError
  | KeyError
  | IndexError
  | OverflowError
  | AttributeError
  | NotImplementedError
  | ZeroDivisionError
  | StopIteration
  | OutOfFuel.

#[export] Instance pyexn_eq_dec : EqDecision pyexn.
Proof. solve_decision. Defined.

Inductive res (A : Type) :=
  | Ok (a : A)
  | Err (e : pyexn).
Arguments Ok {A} a.
Arguments Err {A} e.

#[export] Instance res_ret : MRet res := λ A a, Ok a.
#[export] Instance res_bind : MBind res := λ A B f m,
  match m with Ok a => f a | Err e => Err e end.
#[export] Instance res_fmap : FMap res := λ A B f m,
  match m with Ok a => Ok (f a) | Err e => Err e end.

(** [assert b] of the source, followed by the rest of the body. *)
Notation "'ASSERT' b ';' k" := (if b then k else Err AssertionError)
  (at level 10, b at level 100, k at level 200,
   format "'ASSERT'  b ';' '//' k") : py_scope.
(** [if b: raise e], followed by the rest of the body. *)
Notation "'RAISE' e 'IF' b ';' k" := (if b then Err e else k)
  (at level 10, e at level 0, b at level 100, k at level 200,
   format "'RAISE'  e  'IF'  b ';' '//' k") : py_scope.
#[global] Open Scope py_scope.

(** A [for] loop whose body may raise. *)
Fixpoint rfold {S A : Type} (f : S → A → res S) (s : S) (l : list A) : res S :=
  match l with
  | [] => Ok s
  | x :: l => s' ← f s x; rfold f s' l
  end.

(** A list comprehension whose element expression may raise. *)
Fixpoint rmap {A B : Type} (f : A → res B) (l : list A) : res (list B) :=
  match l with
  | [] => Ok []
  | x :: l => y ← f x; ys ← rmap f l; Ok (y :: ys)
  end.

Lemma bind_Ok {A B} (m : res A) (f : A → res B) b :
  m ≫= f = Ok b ↔ ∃ a, m = Ok a ∧ f a = Ok b.
Proof. destruct m; cbn; naive_solver. Qed.

Lemma fmap_Ok {A B} (m : res A) (f : A → B) b :
  f <$> m = Ok b ↔ ∃ a, m = Ok a ∧ b = f a.
Proof. destruct m; cbn; naive_solver. Qed.

Lemma bind_Ok_l {A B} (m : res A) (f : A → res B) a :
  m = Ok a → m ≫= f = f a.
Proof. by intros ->. Qed.

Lemma rfold_app {S A} (f : S → A → res S) s l1 l2 :
  rfold f s (l1 ++ l2) = (s' ← rfold f s l1; rfold f s' l2).
Proof.
  revert s. induction l1 as [|x l1 IH]; intros s; cbn; [done|].
  destruct (f s x); cbn; [apply IH|done].
Qed.

(** An invariant indexed by the elements already processed. *)
Lemma rfold_inv {S A} (P : list A → S → Prop) (f : S → A → res S) l s s' :
  P [] s →
  (∀ done x rest s1 s2, l = done ++ x :: rest → P done s1 → f s1 x = Ok s2 →
     P (done ++ [x]) s2) →
  rfold f s l = Ok s' → P l s'.
Proof.
  intros H0 Hstep.
  cut (∀ done rest s1, l = done ++ rest → P done s1 →
         rfold f s1 rest = Ok s' → P l s').
  { intros Hc Hr. by apply (Hc [] l s). }
  intros done rest. revert done. induction rest as [|x rest IH]; intros done s1.
  - intros -> HP [= <-]. by rewrite app_nil_r.
  - intros -> HP Hr. cbn in Hr. apply bind_Ok in Hr as (s2 & Hf & Hr).
    eapply (IH (done ++ [x])); [|by eapply Hstep|done].
    by rewrite <- app_assoc.
Qed.

(** The total-correctness counterpart: each step succeeds under the invariant. *)
Lemma rfold_total {S A} (P : list A → S → Prop) (f : S → A → res S) l s :
  P [] s →
  (∀ done x rest s1, l = done ++ x :: rest → P done s1 →
     ∃ s2, f s1 x = Ok s2 ∧ P (done ++ [x]) s2) →
  ∃ s', rfold f s l = Ok s' ∧ P l s'.
Proof.
  intros H0 Hstep.
  cut (∀ rest done s1, l = done ++ rest → P done s1 →
         ∃ s', rfold f s1 rest = Ok s' ∧ P l s').
  { intros Hc. by apply (Hc l [] s). }
  induction rest as [|x rest IH]; intros done s1.
  - intros -> HP. exists s1. by rewrite app_nil_r.
  - intros -> HP. destruct (Hstep done x rest s1) as (s2 & Hf & HP2); [done..|].
    cbn. rewrite Hf. cbn. apply (IH (done ++ [x])); [|done].
    by rewrite <- app_assoc.
Qed.

(** ** Tactics *)

Create HintDb py.
Create Rewrite HintDb py.

(** Inverts a chain of binds, assertions and raises that ended in [Ok]. *)
Ltac inv_ok :=
  repeat match goal with
  | H : Ok _ = Ok _ |- _ => injection H as H; try subst
  | H : Err _ = Ok _ |- _ => discriminate H
  | H : Ok _ = Err _ |- _ => discriminate H
  | H : _ ≫= _ = Ok _ |- _ =>
      apply bind_Ok in H;
      let a := fresh "a" in let H1 := fresh "Hb" in
      destruct H as (a & H1 & H)
  | H : mret _ = Ok _ |- _ => unfold mret, res_ret in H
  | H : (_, _) = (_, _) |- _ => injection H as H; try subst
  | H : (if ?b then _ else Err _) = Ok _ |- _ =>
      let E := fresh "Ea" in destruct b eqn:E; [|discriminate H]
  | H : (if ?b then Err _ else _) = Ok _ |- _ =>
      let E := fresh "Ea" in destruct b eqn:E; [discriminate H|]
  end.

(** Boolean tests of the code to propositions, as far as they go. *)
Ltac to_prop :=
  repeat match goal with
  | H : bool_decide _ = true |- _ => apply bool_decide_eq_true_1 in H
  | H : bool_decide _ = false |- _ => apply bool_decide_eq_false_1 in H
  | H : _ && _ = true |- _ => apply andb_true_iff in H; destruct H
  | H : _ || _ = false |- _ => apply orb_false_iff in H; destruct H
  | H : negb _ = true |- _ => apply negb_true_iff in H
  | H : negb _ = false |- _ => apply negb_false_iff in H
  | H : (_ <? _) = true |- _ => apply Z.ltb_lt in H
  | H : (_ <? _) = false |- _ => apply Z.ltb_ge in H
  | H : (_ <=? _) = true |- _ => apply Z.leb_le in H
  | H : (_ <=? _) = false |- _ => apply Z.leb_gt in H
  | H : (_ =? _) = true |- _ => apply Z.eqb_eq in H
  | H : (_ =? _) = false |- _ => apply Z.eqb_neq in H
  end.

(** Membership goals over explicit lists; quantified hypotheses are ignored,
    which keeps it fast in large contexts. *)
Ltac mem_norm :=
  repeat match goal with
  | H : ∀ _, _ |- _ => clear H
  end;
  repeat match goal with
  | H : NoDup (_ :: _) |- _ => rewrite NoDup_cons in H; destruct H
  | H : context [_ ∈ _ :: _] |- _ => rewrite elem_of_cons in H
  | H : context [_ ∈ _ ++ _] |- _ => rewrite elem_of_app in H
  | H : context [_ ∈ []] |- _ => rewrite elem_of_nil in H
  | H : context [_ ∈ reverse _] |- _ => rewrite elem_of_reverse in H
  | |- context [_ ∈ _ :: _] => rewrite elem_of_cons
  | |- context [_ ∈ _ ++ _] => rewrite elem_of_app
  | |- context [_ ∈ []] => rewrite elem_of_nil
  | |- context [_ ∈ reverse _] => rewrite elem_of_reverse
  end.
Ltac mem_solve := mem_norm; subst; simplify_eq; try tauto; firstorder congruence.

(** ** Python integers and lists *)

(** A byte string: a list of byte values. *)
Abbreviation bytes := (list Z).

Definition zlen {A} (l : list A) : Z := Z.of_nat (length l).

(** vllm/utils/math_utils.py: [-(a // -b)]. *)
Definition cdiv (a b : Z) : Z := - (a / - b).

(** Normalisation of a slice bound against a length. *)
Definition py_clamp (n i : Z) : Z := if i <? 0 then Z.max 0 (n + i) else Z.min i n.

(** [l[a:]] *)
Definition py_from {A} (l : list A) (a : Z) : list A :=
  drop (Z.to_nat (py_clamp (zlen l) a)) l.
(** [l[:b]] *)
Definition py_upto {A} (l : list A) (b : Z) : list A :=
  take (Z.to_nat (py_clamp (zlen l) b)) l.
(** [l[a:b]] *)
Definition py_slice {A} (l : list A) (a b : Z) : list A :=
  take (Z.to_nat (py_clamp (zlen l) b - py_clamp (zlen l) a))
    (drop (Z.to_nat (py_clamp (zlen l) a)) l).

(** [l[i]], negative indices counting from the end. *)
Definition py_index {A} (l : list A) (i : Z) : res A :=
  let j := if i <? 0 then zlen l + i else i in
  if (0 <=? j) && (j <? zlen l) then
    match l !! Z.to_nat j with Some x => Ok x | None => Err IndexError end
  else Err IndexError.

(** [a // b] and [a % b] *)
Definition py_div (a b : Z) : res Z := RAISE ZeroDivisionError IF b =? 0; Ok (a / b).
Definition py_mod (a b : Z) : res Z := RAISE ZeroDivisionError IF b =? 0; Ok (a `mod` b).

(** [l[i] = x], negative indices counting from the end. *)
Definition py_set {A} (l : list A) (i : Z) (x : A) : res (list A) :=
  let j := if i <? 0 then zlen l + i else i in
  if (0 <=? j) && (j <? zlen l) then Ok (<[Z.to_nat j := x]> l) else Err IndexError.

(** [range(a, b)] *)
Definition zrange (a b : Z) : list Z := (λ i, a + Z.of_nat i) <$> seq 0 (Z.to_nat (b - a)).

(** [[x] * n] *)
Definition zreplicate {A} (n : Z) (x : A) : list A := replicate (Z.to_nat n) x.

Lemma zlen_nonneg {A} (l : list A) : 0 ≤ zlen l.
Proof. unfold zlen. lia. Qed.
Lemma zlen_nil {A} : zlen (@nil A) = 0.
Proof. done. Qed.
Lemma zlen_cons {A} (x : A) l : zlen (x :: l) = zlen l + 1.
Proof. unfold zlen. cbn [length]. lia. Qed.
Lemma zlen_app {A} (l k : list A) : zlen (l ++ k) = zlen l + zlen k.
Proof. unfold zlen. rewrite length_app. lia. Qed.
Lemma zlen_0 {A} (l : list A) : zlen l = 0 ↔ l = [].
Proof. unfold zlen. destruct l; cbn; split; intros; try lia; congruence. Qed.
Lemma zlen_replicate {A} n (x : A) : zlen (zreplicate n x) = Z.max 0 n.
Proof. unfold zlen, zreplicate. rewrite length_replicate. lia. Qed.
Lemma zlen_reverse {A} (l : list A) : zlen (reverse l) = zlen l.
Proof. unfold zlen. by rewrite length_reverse. Qed.
#[export] Hint Resolve zlen_nonneg : py.
#[export] Hint Rewrite @zlen_nil @zlen_cons @zlen_app @zlen_replicate @zlen_reverse : py.

Lemma Z2Nat_mono a b : a ≤ b → (Z.to_nat a ≤ Z.to_nat b)%nat.
Proof. lia. Qed.

Lemma py_from_nonneg {A} (l : list A) a :
  0 ≤ a → py_from l a = drop (Z.to_nat a) l.
Proof.
  intros. unfold py_from, py_clamp, zlen. rewrite (proj2 (Z.ltb_ge _ _)) by lia.
  destruct (decide (a ≤ Z.of_nat (length l))).
  - by rewrite Z.min_l by lia.
  - rewrite Z.min_r by lia. rewrite !drop_ge by lia. done.
Qed.

Lemma py_upto_nonneg {A} (l : list A) b :
  0 ≤ b → py_upto l b = take (Z.to_nat b) l.
Proof.
  intros. unfold py_upto, py_clamp, zlen. rewrite (proj2 (Z.ltb_ge _ _)) by lia.
  destruct (decide (b ≤ Z.of_nat (length l))).
  - by rewrite Z.min_l by lia.
  - rewrite Z.min_r by lia. rewrite !take_ge by lia. done.
Qed.

Lemma py_slice_nonneg {A} (l : list A) a b :
  0 ≤ a → 0 ≤ b → py_slice l a b = take (Z.to_nat (b - a)) (drop (Z.to_nat a) l).
Proof.
  intros. unfold py_slice, py_clamp, zlen. rewrite !(proj2 (Z.ltb_ge _ _)) by lia.
  destruct (decide (a ≤ Z.of_nat (length l))).
  - rewrite (Z.min_l a) by lia.
    destruct (decide (b ≤ Z.of_nat (length l))).
    + by rewrite Z.min_l by lia.
    + rewrite Z.min_r by lia. rewrite !take_ge; [done| |]; rewrite length_drop; lia.
  - rewrite (Z.min_r a) by lia. rewrite !(drop_ge l) by lia. by rewrite !take_nil.
Qed.

Lemma py_index_nonneg {A} (l : list A) i x :
  0 ≤ i → py_index l i = Ok x ↔ l !! Z.to_nat i = Some x.
Proof.
  intros. unfold py_index. rewrite (proj2 (Z.ltb_ge _ _)) by lia.
  unfold zlen. destruct (l !! Z.to_nat i) eqn:E.
  - apply lookup_lt_Some in E as ?.
    rewrite (proj2 (Z.leb_le _ _)), (proj2 (Z.ltb_lt _ _)) by lia. cbn. naive_solver.
  - destruct (_ && _); naive_solver.
Qed.

Lemma length_zrange a b : length (zrange a b) = Z.to_nat (b - a).
Proof. unfold zrange. by rewrite length_fmap, length_seq. Qed.

Lemma elem_of_zrange a b i : i ∈ zrange a b ↔ a ≤ i < b.
Proof.
  unfold zrange. rewrite list_elem_of_fmap. setoid_rewrite elem_of_seq. split.
  - intros (j & -> & ?). lia.
  - intros. exists (Z.to_nat (i - a)). lia.
Qed.

Lemma zrange_lookup a b i :
  (i < Z.to_nat (b - a))%nat → zrange a b !! i = Some (a + Z.of_nat i).
Proof.
  intros. unfold zrange. rewrite list_lookup_fmap, lookup_seq_lt by lia. done.
Qed.

Lemma zrange_nil a b : b ≤ a → zrange a b = [].
Proof. intros. unfold zrange. by replace (Z.to_nat (b - a)) with 0%nat by lia. Qed.

Lemma zrange_cons a b : a < b → zrange a b = a :: zrange (a + 1) b.
Proof.
  intros. unfold zrange. replace (Z.to_nat (b - a)) with (S (Z.to_nat (b - (a + 1)))) by lia.
  cbn [seq]. rewrite fmap_cons, <- fmap_S_seq. f_equal; [lia|].
  rewrite <- list_fmap_compose. apply list_fmap_ext. intros ? x _. cbn. lia.
Qed.

Lemma rmap_Ok {A B} (f : A → res B) (g : A → B) l :
  (∀ x, x ∈ l → f x = Ok (g x)) → rmap f l = Ok (g <$> l).
Proof.
  induction l as [|x l IH]; intros H; [done|]. cbn. rewrite H by (by left). cbn.
  rewrite IH; [done|]. intros y Hy. apply H. by right.
Qed.

Lemma list_filter_all {A} (P : A → Prop) `{∀ x, Decision (P x)} l :
  Forall P l → filter P l = l.
Proof. induction 1; [done|]. rewrite filter_cons_True by done. by f_equal. Qed.

(** Two tests that agree on the elements select the same sublist. *)
Lemma list_filter_iff' {A} (P Q : A → Prop) `{∀ x, Decision (P x), ∀ x, Decision (Q x)} (l : list A) :
  (∀ x, x ∈ l → P x ↔ Q x) → filter P l = filter Q l.
Proof.
  induction l as [|x l IH]; intros E; [done|]. rewrite !filter_cons.
  rewrite IH by (intros y Hy; apply E; by right). pose proof (E x ltac:(by left)).
  repeat case_decide; (done || tauto).
Qed.

Lemma list_filter_none {A} (P : A → Prop) `{∀ x, Decision (P x)} l :
  Forall (λ x, ¬ P x) l → filter P l = [].
Proof. induction 1; [done|]. by rewrite filter_cons_False. Qed.

Lemma elem_of_take_1 {A} n (l : list A) x : x ∈ take n l → x ∈ l.
Proof. rewrite <- (take_drop n l) at 2. rewrite elem_of_app. by left. Qed.
Lemma elem_of_drop_1 {A} n (l : list A) x : x ∈ drop n l → x ∈ l.
Proof. rewrite <- (take_drop n l) at 2. rewrite elem_of_app. by right. Qed.
Lemma NoDup_take_drop {A} n (l : list A) x : NoDup l → x ∈ take n l → x ∉ drop n l.
Proof. rewrite <- (take_drop n l) at 1. rewrite NoDup_app. naive_solver. Qed.
Lemma NoDup_take {A} n (l : list A) : NoDup l → NoDup (take n l).
Proof. rewrite <- (take_drop n l) at 1. rewrite NoDup_app. naive_solver. Qed.
Lemma NoDup_drop {A} n (l : list A) : NoDup l → NoDup (drop n l).
Proof. rewrite <- (take_drop n l) at 1. rewrite NoDup_app. naive_solver. Qed.
#[export] Hint Resolve elem_of_take_1 elem_of_drop_1 NoDup_take NoDup_drop : py.

(** ** Ceiling division *)

Lemma cdiv_eq a b : 0 < b → cdiv a b = (a + b - 1) / b.
Proof.
  intros. unfold cdiv. rewrite <- Z.div_opp_opp, Z.opp_involutive by lia.
  replace (a + b - 1) with (- (- a) + (b - 1)) by lia.
  pose proof (Z.div_mod (- a) b ltac:(lia)).
  pose proof (Z.mod_pos_bound (- a) b ltac:(lia)).
  set (q := - a / b) in *. set (r := (- a) `mod` b) in *.
  apply (Z.div_unique _ _ _ (b - 1 - r)); lia.
Qed.

Lemma cdiv_bounds a b : 0 < b → a ≤ cdiv a b * b < a + b.
Proof.
  intros. rewrite cdiv_eq by lia.
  pose proof (Z.div_mod (a + b - 1) b ltac:(lia)).
  pose proof (Z.mod_pos_bound (a + b - 1) b ltac:(lia)). lia.
Qed.

Lemma cdiv_le a b n : 0 < b → cdiv a b ≤ n ↔ a ≤ n * b.
Proof. intros. pose proof (cdiv_bounds a b). split; intros; nia. Qed.

Lemma cdiv_mono a a' b : 0 < b → a ≤ a' → cdiv a b ≤ cdiv a' b.
Proof. intros. apply cdiv_le; [lia|]. pose proof (cdiv_bounds a' b). lia. Qed.

Lemma cdiv_nonneg a b : 0 < b → 0 ≤ a → 0 ≤ cdiv a b.
Proof. intros. pose proof (cdiv_bounds a b). nia. Qed.

Lemma cdiv_mul n b : 0 < b → cdiv (n * b) b = n.
Proof. intros. pose proof (cdiv_bounds (n * b) b). nia. Qed.

Lemma div_le_cdiv a b : 0 < b → a / b ≤ cdiv a b.
Proof.
  intros. pose proof (cdiv_bounds a b).
  pose proof (Z.mul_div_le a b). nia.
Qed.
#[export] Hint Resolve cdiv_nonneg : py.

(** ** Dictionaries with an order *)

Section ordered_dict.
Context {K V : Type} `{EqDecision K}.

(** [d.pop(k)] *)
Fixpoint od_pop (d : list (K * V)) (k : K) : res (V * list (K * V)) :=
  match d with
  | [] => Err KeyError
  | (k', v) :: d =>
      if decide (k' = k) then Ok (v, d) else '(x, d') ← od_pop d k; Ok (x, (k', v) :: d')
  end.

(** [d[k] = v]: a present key keeps its position. *)
Fixpoint od_set (d : list (K * V)) (k : K) (v : V) : list (K * V) :=
  match d with
  | [] => [(k, v)]
  | (k', v') :: d => if decide (k' = k) then (k', v) :: d else (k', v') :: od_set d k v
  end.

(** [d.get(k)] *)
Fixpoint od_get (d : list (K * V)) (k : K) : option V :=
  match d with [] => None | (k', v) :: d => if decide (k' = k) then Some v else od_get d k end.

(** [d[k]] *)
Definition od_index (d : list (K * V)) (k : K) : res V :=
  match od_get d k with Some v => Ok v | None => Err KeyError end.

(** [d.pop(k, None)] *)
Definition od_discard (d : list (K * V)) (k : K) : option V * list (K * V) :=
  match od_pop d k with Ok (v, d') => (Some v, d') | Err _ => (None, d) end.

Implicit Types (d : list (K * V)).

Lemma od_pop_split d1 k v d2 : k ∉ d1.*1 → od_pop (d1 ++ (k, v) :: d2) k = Ok (v, d1 ++ d2).
Proof.
  induction d1 as [|[x w] d1 IH]; cbn; [by rewrite decide_True|].
  intros [Hx Hl]%not_elem_of_cons. rewrite decide_False by congruence. by rewrite IH.
Qed.

Lemma od_set_fresh d k v : k ∉ d.*1 → od_set d k v = d ++ [(k, v)].
Proof.
  induction d as [|[x w] d IH]; cbn; [done|]. intros [Hx Hl]%not_elem_of_cons.
  rewrite decide_False by congruence. by rewrite IH.
Qed.

Lemma od_get_elem d k v : od_get d k = Some v → (k, v) ∈ d.
Proof.
  induction d as [|[x w] d IH]; cbn; [done|]. case_decide; [intros [= <-]; subst; left|intros; right; auto].
Qed.

Lemma od_get_nodup d k v : NoDup d.*1 → (k, v) ∈ d → od_get d k = Some v.
Proof.
  induction d as [|[x w] d IH]; [by intros _ ?%elem_of_nil|]. cbn. intros [Hx Hnd]%NoDup_cons Hin.
  case_decide as E.
  - apply elem_of_cons in Hin as [[= -> ->]|Hin]; [done|]. destruct Hx. subst.
    apply list_elem_of_fmap. by exists (k, v).
  - apply IH; [done|]. apply elem_of_cons in Hin as [[= -> ->]|?]; done.
Qed.

Lemma od_get_set_eq d k v : od_get (od_set d k v) k = Some v.
Proof. induction d as [|[x w] d IH]; cbn; repeat (case_decide; cbn); congruence || done. Qed.

Lemma od_get_set_ne d k v k' : k' ≠ k → od_get (od_set d k v) k' = od_get d k'.
Proof.
  intros Hne. induction d as [|[x w] d IH]; cbn.
  - by rewrite decide_False.
  - case_decide; cbn; case_decide; congruence.
Qed.

Lemma od_index_nodup d k v : NoDup d.*1 → (k, v) ∈ d → od_index d k = Ok v.
Proof. intros Hnd Hin. unfold od_index. by rewrite (od_get_nodup d k v). Qed.

Lemma od_get_None d k : od_get d k = None ↔ k ∉ d.*1.
Proof.
  induction d as [|[x w] d IH]; cbn; [split; [intros _; apply not_elem_of_nil|done]|].
  rewrite not_elem_of_cons. case_decide; naive_solver.
Qed.

(** A present key splits the dictionary. *)
Lemma od_split d k v :
  od_get d k = Some v → ∃ d1 d2, d = d1 ++ (k, v) :: d2 ∧ (k ∉ d1.*1) ∧ od_pop d k = Ok (v, d1 ++ d2)
    ∧ ∀ w, od_set d k w = d1 ++ (k, w) :: d2.
Proof.
  induction d as [|[x w] d IH]; cbn; [done|]. case_decide as E.
  - intros [= ->]. exists [], d. subst. split_and!; [done|apply not_elem_of_nil|done|done].
  - intros (d1 & d2 & -> & Hk & Hp & Hs)%IH. exists ((x, w) :: d1), d2. split_and!; [done| | |].
    + cbn. apply not_elem_of_cons. by split; [apply not_eq_sym|].
    + rewrite Hp. done.
    + intros w'. by rewrite Hs.
Qed.

Lemma od_pop_perm d k v : od_get d k = Some v → ∃ d', od_pop d k = Ok (v, d') ∧ d ≡ₚ (k, v) :: d'.
Proof. intros (d1 & d2 & -> & _ & Hp & _)%od_split. eexists. split; [done|]. by rewrite Permutation_middle. Qed.

Lemma od_get_app d1 d2 k : od_get (d1 ++ d2) k = match od_get d1 k with Some v => Some v | None => od_get d2 k end.
Proof. induction d1 as [|[x w] d1 IH]; cbn; [done|]. by case_decide. Qed.

(** Lookups do not depend on the order. *)
Lemma od_get_perm d d' k : NoDup d.*1 → d ≡ₚ d' → od_get d k = od_get d' k.
Proof.
  intros Hnd Hp. assert (NoDup d'.*1) as Hnd' by (by rewrite <- Hp). destruct (od_get d k) as [v|] eqn:E.
  - symmetry. apply od_get_nodup; [done|]. rewrite <- Hp. by apply od_get_elem.
  - symmetry. apply od_get_None. rewrite <- Hp. by apply od_get_None.
Qed.

Lemma od_pop_get d k v :
  od_get d k = Some v → ∃ d', od_pop d k = Ok (v, d') ∧ d ≡ₚ (k, v) :: d' ∧ ∀ x, x ≠ k → od_get d' x = od_get d x.
Proof.
  intros (d1 & d2 & -> & _ & Hp & _)%od_split. eexists. split; [done|]. split; [by rewrite Permutation_middle|].
  intros x Hx. rewrite !od_get_app. cbn. by rewrite decide_False.
Qed.
End ordered_dict.

(** ** Multisets of list elements *)

Section multiset_lists.
Context `{Countable A}.
Abbreviation mset l := (list_to_set_disj l : gmultiset A).

Lemma not_in_multiplicity_0 (l : list A) x : x ∉ l → multiplicity x (mset l) = 0%nat.
Proof. intros Hx. apply not_elem_of_multiplicity. by rewrite elem_of_list_to_set_disj. Qed.

Lemma NoDup_multiplicity_1 (l : list A) x : NoDup l → x ∈ l → multiplicity x (mset l) = 1%nat.
Proof.
  induction l as [|y l IH]; [by intros _ ?%elem_of_nil|]. intros [Hy Hnd]%NoDup_cons Hx.
  rewrite list_to_set_disj_cons, multiplicity_disj_union.
  apply elem_of_cons in Hx as [->|Hx].
  - by rewrite multiplicity_singleton_eq, not_in_multiplicity_0.
  - rewrite multiplicity_singleton_ne by (intros ->; done). by rewrite IH.
Qed.

(** An element that passes a test occurs once when the passing sublist has no
    duplicates. *)
Lemma NoDup_filter_multiplicity (P : A → Prop) `{∀ x, Decision (P x)} (l : list A) x :
  NoDup (filter P l) → P x → x ∈ l → multiplicity x (mset l) = 1%nat.
Proof.
  intros Hnd HP Hx.
  assert (mset l = mset (filter P l ++ filter (λ x, ¬ P x) l)) as ->
    by (by rewrite filter_app_complement).
  rewrite list_to_set_disj_app, multiplicity_disj_union.
  rewrite NoDup_multiplicity_1, not_in_multiplicity_0; [done| |done|].
  - intros [? _]%list_elem_of_filter. done.
  - by apply list_elem_of_filter.
Qed.
End multiset_lists.
