(* ===== verification/Blocks.v ===== *)
(** * KV-cache blocks and the object store

    [KVCacheBlock] of vllm/v1/core/kv_cache_utils.py.  Python passes block
    objects by reference and every component mutates the same objects, so the
    model keeps one store of blocks; a [ref] names an object.  The two fake
    blocks that delimit the free list are distinct objects with the same
    [block_id] -1, hence references and not block ids identify objects. *)

From S2P Require Import Prelude.

Inductive ref :=
  | RHead
  | RTail
  | RBlk (i : nat).

#[export] Instance ref_eq_dec : EqDecision ref.
Proof. solve_decision. Defined.

Definition ref_to_nat (r : ref) : nat :=
  match r with RHead => 0 | RTail => 1 | RBlk i => S (S i) end%nat.
Definition ref_of_nat (n : nat) : ref :=
  match n with 0 => RHead | 1 => RTail | S (S i) => RBlk i end%nat.

#[export] Instance ref_countable : Countable ref.
Proof. by apply (inj_countable' ref_to_nat ref_of_nat); intros []. Defined.

Record KVCacheBlock := mkBlock {
  block_id : Z;
  ref_cnt : Z;
  block_hash : option bytes;
  prev_free_block : option ref;
  next_free_block : option ref;
  is_null : bool;
}.

(** [KVCacheBlock(block_id)]: every other field has its default. *)
Definition new_block (id : Z) : KVCacheBlock := mkBlock id 0 None None None false.

(** The objects, by reference. *)
Abbreviation store := (ref → KVCacheBlock).

Definition upd (st : store) (r : ref) (f : KVCacheBlock → KVCacheBlock) : store :=
  λ x, if decide (x = r) then f (st x) else st x.

Definition set_prev (st : store) (r : ref) (v : option ref) : store :=
  upd st r (λ b, mkBlock (block_id b) (ref_cnt b) (block_hash b) v (next_free_block b) (is_null b)).
Definition set_next (st : store) (r : ref) (v : option ref) : store :=
  upd st r (λ b, mkBlock (block_id b) (ref_cnt b) (block_hash b) (prev_free_block b) v (is_null b)).
Definition add_ref (st : store) (r : ref) (d : Z) : store :=
  upd st r (λ b, mkBlock (block_id b) (ref_cnt b + d) (block_hash b) (prev_free_block b) (next_free_block b) (is_null b)).
Definition put_hash (st : store) (r : ref) (h : option bytes) : store :=
  upd st r (λ b, mkBlock (block_id b) (ref_cnt b) h (prev_free_block b) (next_free_block b) (is_null b)).
Definition put_null (st : store) (r : ref) (v : bool) : store :=
  upd st r (λ b, mkBlock (block_id b) (ref_cnt b) (block_hash b) (prev_free_block b) (next_free_block b) v).

(** The [block_hash] setter: a block that already has a hash is refused. *)
Definition set_block_hash (st : store) (r : ref) (h : bytes) : res store :=
  ASSERT bool_decide (block_hash (st r) = None);
  Ok (put_hash st r (Some h)).

(** [reset_hash] *)
Definition reset_hash (st : store) (r : ref) : store := put_hash st r None.

(** ** Reading back an updated field *)

Section fields.
Context (st : store) (r x : ref).

Lemma next_set_next v :
  next_free_block (set_next st r v x) = if decide (x = r) then v else next_free_block (st x).
Proof. unfold set_next, upd. by case_decide. Qed.
Lemma prev_set_prev v :
  prev_free_block (set_prev st r v x) = if decide (x = r) then v else prev_free_block (st x).
Proof. unfold set_prev, upd. by case_decide. Qed.
Lemma next_set_prev v : next_free_block (set_prev st r v x) = next_free_block (st x).
Proof. unfold set_prev, upd. by case_decide. Qed.
Lemma prev_set_next v : prev_free_block (set_next st r v x) = prev_free_block (st x).
Proof. unfold set_next, upd. by case_decide. Qed.
Lemma next_add_ref d : next_free_block (add_ref st r d x) = next_free_block (st x).
Proof. unfold add_ref, upd. by case_decide. Qed.
Lemma prev_add_ref d : prev_free_block (add_ref st r d x) = prev_free_block (st x).
Proof. unfold add_ref, upd. by case_decide. Qed.
Lemma next_put_hash h : next_free_block (put_hash st r h x) = next_free_block (st x).
Proof. unfold put_hash, upd. by case_decide. Qed.
Lemma prev_put_hash h : prev_free_block (put_hash st r h x) = prev_free_block (st x).
Proof. unfold put_hash, upd. by case_decide. Qed.
Lemma next_put_null v : next_free_block (put_null st r v x) = next_free_block (st x).
Proof. unfold put_null, upd. by case_decide. Qed.
Lemma prev_put_null v : prev_free_block (put_null st r v x) = prev_free_block (st x).
Proof. unfold put_null, upd. by case_decide. Qed.

Lemma ref_add_ref d :
  ref_cnt (add_ref st r d x) = if decide (x = r) then ref_cnt (st x) + d else ref_cnt (st x).
Proof. unfold add_ref, upd. by case_decide. Qed.
Lemma ref_set_next v : ref_cnt (set_next st r v x) = ref_cnt (st x).
Proof. unfold set_next, upd. by case_decide. Qed.
Lemma ref_set_prev v : ref_cnt (set_prev st r v x) = ref_cnt (st x).
Proof. unfold set_prev, upd. by case_decide. Qed.
Lemma ref_put_hash h : ref_cnt (put_hash st r h x) = ref_cnt (st x).
Proof. unfold put_hash, upd. by case_decide. Qed.
Lemma ref_put_null v : ref_cnt (put_null st r v x) = ref_cnt (st x).
Proof. unfold put_null, upd. by case_decide. Qed.

Lemma hash_put_hash h :
  block_hash (put_hash st r h x) = if decide (x = r) then h else block_hash (st x).
Proof. unfold put_hash, upd. by case_decide. Qed.
Lemma hash_set_next v : block_hash (set_next st r v x) = block_hash (st x).
Proof. unfold set_next, upd. by case_decide. Qed.
Lemma hash_set_prev v : block_hash (set_prev st r v x) = block_hash (st x).
Proof. unfold set_prev, upd. by case_decide. Qed.
Lemma hash_add_ref d : block_hash (add_ref st r d x) = block_hash (st x).
Proof. unfold add_ref, upd. by case_decide. Qed.
Lemma hash_put_null v : block_hash (put_null st r v x) = block_hash (st x).
Proof. unfold put_null, upd. by case_decide. Qed.

Lemma null_put_null v :
  is_null (put_null st r v x) = if decide (x = r) then v else is_null (st x).
Proof. unfold put_null, upd. by case_decide. Qed.
Lemma null_set_next v : is_null (set_next st r v x) = is_null (st x).
Proof. unfold set_next, upd. by case_decide. Qed.
Lemma null_set_prev v : is_null (set_prev st r v x) = is_null (st x).
Proof. unfold set_prev, upd. by case_decide. Qed.
Lemma null_add_ref d : is_null (add_ref st r d x) = is_null (st x).
Proof. unfold add_ref, upd. by case_decide. Qed.
Lemma null_put_hash h : is_null (put_hash st r h x) = is_null (st x).
Proof. unfold put_hash, upd. by case_decide. Qed.

Lemma id_set_next v : block_id (set_next st r v x) = block_id (st x).
Proof. unfold set_next, upd. by case_decide. Qed.
Lemma id_set_prev v : block_id (set_prev st r v x) = block_id (st x).
Proof. unfold set_prev, upd. by case_decide. Qed.
Lemma id_add_ref d : block_id (add_ref st r d x) = block_id (st x).
Proof. unfold add_ref, upd. by case_decide. Qed.
Lemma id_put_hash h : block_id (put_hash st r h x) = block_id (st x).
Proof. unfold put_hash, upd. by case_decide. Qed.
Lemma id_put_null v : block_id (put_null st r v x) = block_id (st x).
Proof. unfold put_null, upd. by case_decide. Qed.
End fields.

Create Rewrite HintDb store.
#[export] Hint Rewrite next_set_next prev_set_prev next_set_prev prev_set_next
  next_add_ref prev_add_ref next_put_hash prev_put_hash next_put_null prev_put_null
  ref_add_ref ref_set_next ref_set_prev ref_put_hash ref_put_null
  hash_put_hash hash_set_next hash_set_prev hash_add_ref hash_put_null
  null_put_null null_set_next null_set_prev null_add_ref null_put_hash
  id_set_next id_set_prev id_add_ref id_put_hash id_put_null : store.

(** Evaluates field reads of updated stores and splits on reference equality. *)
Ltac store_simpl :=
  autorewrite with store in *;
  repeat case_decide; simplify_eq; autorewrite with store in *; try done.

(** Two stores that agree on everything but the free-list links. *)
Definition same_data (st st' : store) : Prop :=
  ∀ x, block_id (st' x) = block_id (st x) ∧ ref_cnt (st' x) = ref_cnt (st x)
     ∧ block_hash (st' x) = block_hash (st x) ∧ is_null (st' x) = is_null (st x).

#[export] Instance same_data_equiv : Equivalence same_data.
Proof.
  split.
  - by intros st x.
  - intros st st' H x. destruct (H x) as (?&?&?&?). by repeat split.
  - intros s1 s2 s3 H1 H2 x. destruct (H1 x) as (?&?&?&?), (H2 x) as (?&?&?&?).
    repeat split; congruence.
Qed.

Lemma same_data_set_next st r v : same_data st (set_next st r v).
Proof. intros x. by autorewrite with store. Qed.
Lemma same_data_set_prev st r v : same_data st (set_prev st r v).
Proof. intros x. by autorewrite with store. Qed.
#[export] Hint Resolve same_data_set_next same_data_set_prev : py.
