(* ===== verification/FreeQueue.v ===== *)
(** * The free-block queue

    [FreeKVCacheBlockQueue] of vllm/v1/core/kv_cache_utils.py: a doubly linked
    list threaded through the block objects between a fake head and a fake
    tail.  The abstract value of the queue is the list of its blocks, front
    (next to be evicted) first; [free_rep] relates the two, and each operation
    is proved to implement the list operation it stands for. *)

From S2P Require Import Prelude Blocks.

Module FreeKVCacheBlockQueue.

(** The queue's counter together with the shared store; the fake head and tail
    are the objects [RHead] and [RTail]. *)
Record queue := mkQueue {
  q_store : store;
  num_free_blocks : Z;
}.

(** ** Operations *)

(** The loop of [__init__] that links consecutive blocks. *)
Definition link_step (blocks : list ref) (n : nat) (st : store) (i : nat) : store :=
  let st1 :=
    if (0 <? i)%nat then
      match blocks !! i, blocks !! (i - 1)%nat with
      | Some b, Some p => set_prev st b (Some p)
      | _, _ => st
      end
    else st in
  if (i <? n - 1)%nat then
    match blocks !! i, blocks !! (i + 1)%nat with
    | Some b, Some nx => set_next st1 b (Some nx)
    | _, _ => st1
    end
  else st1.

Definition init_links (blocks : list ref) (st : store) : store :=
  fold_left (link_step blocks (length blocks)) (seq 0 (length blocks)) st.

Definition init (blocks : list ref) (st : store) : queue :=
  let st1 := init_links blocks st in
  let st2 := upd st1 RHead (λ _, new_block (-1)) in
  let st3 := upd st2 RTail (λ _, new_block (-1)) in
  let st4 :=
    match blocks !! 0%nat, last blocks with
    | Some b0, Some bl =>
        let s := set_next st3 RHead (Some b0) in
        let s := set_prev s b0 (Some RHead) in
        let s := set_prev s RTail (Some bl) in
        set_next s bl (Some RTail)
    | _, _ =>
        let s := set_next st3 RHead (Some RTail) in
        set_prev s RTail (Some RHead)
    end in
  mkQueue st4 (zlen blocks).

Definition popleft (q : queue) : res (ref * queue) :=
  let st := q_store q in
  match next_free_block (st RHead) with
  | None | Some RTail =>
      ASSERT num_free_blocks q =? 0;
      Err ValueError
  | Some first_block =>
      match next_free_block (st first_block) with
      | None => Err RuntimeError
      | Some nx =>
          let st := set_next st RHead (Some nx) in
          match next_free_block (st first_block) with
          | None => Err AttributeError
          | Some nx =>
              let st := set_prev st nx (Some RHead) in
              let st := set_prev st first_block None in
              let st := set_next st first_block None in
              Ok (first_block, mkQueue st (num_free_blocks q - 1))
          end
      end
  end.

(** The [for _ in range(n)] loop of [popleft_n]. *)
Fixpoint popleft_loop (n : nat) (st : store) (curr_block : option ref) (ret : list ref)
    : res (store * option ref * list ref) :=
  match n with
  | O => Ok (st, curr_block, ret)
  | S n =>
      match curr_block with
      | None => Err AssertionError
      | Some last_block =>
          let curr := next_free_block (st last_block) in
          let st := set_prev st last_block None in
          let st := set_next st last_block None in
          popleft_loop n st curr (ret ++ [last_block])
      end
  end.

Definition popleft_n (q : queue) (n : Z) : res (list ref * queue) :=
  if n =? 0 then Ok ([], q) else
  ASSERT n <=? num_free_blocks q;
  '(st, curr_block, ret) ← popleft_loop (Z.to_nat n) (q_store q)
                             (next_free_block (q_store q RHead)) [];
  let st :=
    match curr_block with
    | None => st
    | Some c =>
        let st := set_next st RHead (Some c) in
        set_prev st c (Some RHead)
    end in
  Ok (ret, mkQueue st (num_free_blocks q - n)).

Definition remove (q : queue) (block : ref) : res queue :=
  let st := q_store q in
  match prev_free_block (st block), next_free_block (st block) with
  | Some p, Some nx =>
      let st := set_next st p (Some nx) in
      match next_free_block (st block), prev_free_block (st block) with
      | Some nx', p' =>
          let st := set_prev st nx' p' in
          let st := set_prev st block None in
          let st := set_next st block None in
          Ok (mkQueue st (num_free_blocks q - 1))
      | None, _ => Err AttributeError
      end
  | _, _ => Err RuntimeError
  end.

Definition append (q : queue) (block : ref) : res queue :=
  let st := q_store q in
  match prev_free_block (st RTail) with
  | None => Err RuntimeError
  | Some last_block =>
      let st := set_next st last_block (Some block) in
      let st := set_prev st block (Some last_block) in
      let st := set_next st block (Some RTail) in
      let st := set_prev st RTail (Some block) in
      Ok (mkQueue st (num_free_blocks q + 1))
  end.

(** The loop of [append_n]; returns the last linked block. *)
Fixpoint append_loop (st : store) (last_block : ref) (blocks : list ref) : store * ref :=
  match blocks with
  | [] => (st, last_block)
  | block :: blocks =>
      let st := set_prev st block (Some last_block) in
      let st := set_next st last_block (Some block) in
      append_loop st block blocks
  end.

Definition append_n (q : queue) (blocks : list ref) : res queue :=
  match blocks with
  | [] => Ok q
  | _ :: _ =>
      match prev_free_block (q_store q RTail) with
      | None => Err AssertionError
      | Some last_block =>
          let '(st, last_block) := append_loop (q_store q) last_block blocks in
          let st := set_next st last_block (Some RTail) in
          let st := set_prev st RTail (Some last_block) in
          Ok (mkQueue st (num_free_blocks q + zlen blocks))
      end
  end.

(** The traversal of [get_all_free_blocks], bounded by [fuel]. *)
Fixpoint walk (fuel : nat) (st : store) (curr_block : ref) (ret : list ref) : res (list ref) :=
  match fuel with
  | O => Err OutOfFuel
  | S fuel =>
      match next_free_block (st curr_block) with
      | None => Ok ret
      | Some nx => walk fuel st nx (ret ++ [curr_block])
      end
  end.

Definition get_all_free_blocks (fuel : nat) (q : queue) : res (list ref) :=
  match next_free_block (q_store q RHead) with
  | None => Err RuntimeError
  | Some curr => walk fuel (q_store q) curr []
  end.

(** ** Linked segments

    [linked st a l b]: from [a], following [next_free_block], one meets the
    blocks [l] and then [b]; [prev_free_block] leads back the same way. *)

Fixpoint linked (st : store) (a : ref) (l : list ref) (b : ref) : Prop :=
  match l with
  | [] => next_free_block (st a) = Some b ∧ prev_free_block (st b) = Some a
  | x :: l => next_free_block (st a) = Some x ∧ prev_free_block (st x) = Some a ∧ linked st x l b
  end.

Lemma linked_cons st a x l b :
  linked st a (x :: l) b ↔ linked st a [] x ∧ linked st x l b.
Proof. cbn. naive_solver. Qed.

Lemma linked_app st a l x k b :
  linked st a (l ++ x :: k) b ↔ linked st a l x ∧ linked st x k b.
Proof. revert a. induction l as [|y l IH]; intros a; cbn; [|rewrite IH]; naive_solver. Qed.

(** Only the forward links of [a :: l] and the backward links of [l ++ [b]] matter. *)
Lemma linked_frame st st' a l b :
  (∀ x, x ∈ a :: l → next_free_block (st' x) = next_free_block (st x)) →
  (∀ x, x ∈ l ++ [b] → prev_free_block (st' x) = prev_free_block (st x)) →
  linked st a l b → linked st' a l b.
Proof.
  revert a. induction l as [|y l IH]; intros a Hn Hp; cbn.
  - rewrite Hn, Hp by set_solver. done.
  - rewrite Hn, Hp by set_solver. intros (?&?&?). repeat split; [done..|].
    apply IH; [| |done]; intros; [apply Hn|apply Hp]; set_solver.
Qed.

Lemma linked_first st a l b : linked st a l b → next_free_block (st a) = head (l ++ [b]).
Proof. destruct l; cbn; naive_solver. Qed.

Lemma linked_last st a l b : linked st a l b → prev_free_block (st b) = last (a :: l).
Proof.
  revert a. induction l as [|x l IH]; intros a; cbn [linked].
  - naive_solver.
  - intros (_&_&Hl). rewrite (IH _ Hl). done.
Qed.

(** Each block of a segment has both links. *)
Lemma linked_inner st a l b x :
  linked st a l b → x ∈ l →
  is_Some (prev_free_block (st x)) ∧ is_Some (next_free_block (st x)).
Proof.
  intros Hl (l1 & l2 & ->)%list_elem_of_split.
  apply linked_app in Hl as [Hl1 Hl2].
  rewrite (linked_last _ _ _ _ Hl1), (linked_first _ _ _ _ Hl2). split.
  - apply last_is_Some. done.
  - destruct l2; cbn; eauto.
Qed.

(** ** The representation invariant *)

(** A real block, as opposed to the fake ends. *)
Definition is_blk (r : ref) : Prop :=
  match r with RBlk _ => True | _ => False end.

Record free_rep (q : queue) (l : list ref) : Prop := {
  fr_linked : linked (q_store q) RHead l RTail;
  fr_nodup : NoDup l;
  fr_blk : Forall is_blk l;
  fr_num : num_free_blocks q = zlen l;
  fr_tail : next_free_block (q_store q RTail) = None;
  fr_out : ∀ r, is_blk r → r ∉ l →
    prev_free_block (q_store q r) = None ∧ next_free_block (q_store q r) = None;
}.

Lemma blk_not_fake l : Forall is_blk l → (RHead ∉ l) ∧ (RTail ∉ l).
Proof. rewrite Forall_forall. intros H. split; (intros Hin; by apply H in Hin). Qed.


Lemma is_blk_ne r : is_blk r → r ≠ RHead ∧ r ≠ RTail.
Proof. by destruct r. Qed.

(** The facts about a represented list that every refinement proof uses. *)
Lemma free_rep_fake q l : free_rep q l → (RHead ∉ l) ∧ (RTail ∉ l).
Proof. intros H. apply blk_not_fake, H. Qed.

Lemma free_rep_unlinked q l r :
  free_rep q l → is_blk r →
  r ∉ l ↔ prev_free_block (q_store q r) = None ∧ next_free_block (q_store q r) = None.
Proof.
  intros H Hb. split; [by apply H|]. intros [Hp _] Hin.
  destruct (linked_inner _ _ _ _ _ (fr_linked _ _ H) Hin) as [[? E] _]. congruence.
Qed.

(** A representation survives any update that leaves the links alone. *)
Lemma free_rep_frame q q' l :
  free_rep q l →
  num_free_blocks q' = num_free_blocks q →
  (∀ x, next_free_block (q_store q' x) = next_free_block (q_store q x) ∧
        prev_free_block (q_store q' x) = prev_free_block (q_store q x)) →
  free_rep q' l.
Proof.
  intros [Hl Hnd Hb Hn Ht Ho] En E. split.
  - eapply linked_frame; [..|exact Hl]; intros; apply E.
  - done.
  - done.
  - by rewrite En.
  - rewrite (proj1 (E _)). done.
  - intros r Hr Hin. rewrite (proj1 (E r)), (proj2 (E r)). by apply Ho.
Qed.

(** Discharges the side conditions of [linked_frame] after the field reads of
    the updated store have been evaluated. *)
Ltac link_solve :=
  intros; autorewrite with store; repeat case_decide; simplify_eq; try done;
  try (exfalso; mem_solve).

(** ** [popleft] *)

Lemma popleft_rep q x l :
  free_rep q (x :: l) →
  ∃ q', popleft q = Ok (x, q') ∧ free_rep q' l ∧ same_data (q_store q) (q_store q').
Proof.
  intros [Hl Hnd Hb Hn Ht Ho].
  destruct (proj1 (NoDup_cons _ _) Hnd) as [Hx Hnd'].
  apply Forall_cons in Hb as [Hbx Hb]. destruct (blk_not_fake _ Hb) as [HH HT].
  destruct (is_blk_ne _ Hbx) as [HxH HxT].
  apply linked_cons in Hl as [[E1 E2] Hl].
  pose proof (linked_first _ _ _ _ Hl) as E3.
  assert (∃ nx, head (l ++ [RTail]) = Some nx) as [nx Enx] by (destruct l; cbn; eauto).
  rewrite Enx in E3.
  unfold popleft. rewrite E1. destruct x; [done|done|].
  rewrite E3. rewrite next_set_next, decide_False by done. rewrite E3.
  eexists. split; [reflexivity|]. split; [|by intros y; cbn; autorewrite with store].
  split; cbn.
  - destruct l as [|y l]; cbn in Enx, Hl; simplify_eq; cbn.
    + split; link_solve.
    + destruct Hl as (_&_&Hl). split_and!; [link_solve..|].
      eapply linked_frame; [..|exact Hl]; link_solve.
  - done.
  - done.
  - rewrite zlen_cons in Hn. lia.
  - link_solve.
  - intros r Hr Hin. assert (r ≠ nx) by (intros ->; destruct l; cbn in Enx; simplify_eq; mem_solve).
    destruct (decide (r = RBlk i)); [split; link_solve|].
    destruct (Ho r); [done|mem_solve|]. split; link_solve.
Qed.

Lemma popleft_empty q : free_rep q [] → popleft q = Err ValueError.
Proof.
  intros [Hl _ _ Hn _ _]. unfold popleft. destruct Hl as [-> _].
  by rewrite Hn.
Qed.

(** ** [popleft_n] *)

(** The forward links of a suffix of the list. *)
Fixpoint fwd (st : store) (l : list ref) : Prop :=
  match l with
  | [] => True
  | x :: l => next_free_block (st x) = head (l ++ [RTail]) ∧ fwd st l
  end.

Lemma linked_fwd st a l : linked st a l RTail → fwd st l.
Proof.
  revert a. induction l as [|x l IH]; intros a; cbn; [done|].
  intros (_&_&Hl). split; [by apply linked_first in Hl|by eapply IH].
Qed.

Lemma fwd_frame st st' l :
  (∀ x, x ∈ l → next_free_block (st' x) = next_free_block (st x)) → fwd st l → fwd st' l.
Proof.
  induction l as [|x l IH]; cbn; [done|]. intros H [E Hf]. split.
  - by rewrite H by constructor.
  - apply IH; [|done]. intros. apply H. by constructor.
Qed.

(** The loop detaches the first [n] blocks and touches nothing else. *)
Lemma popleft_loop_spec n l st ret :
  NoDup l → fwd st l → (n ≤ length l)%nat →
  ∃ st', popleft_loop n st (head (l ++ [RTail])) ret
           = Ok (st', head (drop n l ++ [RTail]), ret ++ take n l)
    ∧ same_data st st'
    ∧ (∀ x, x ∉ take n l → next_free_block (st' x) = next_free_block (st x)
                         ∧ prev_free_block (st' x) = prev_free_block (st x))
    ∧ (∀ x, x ∈ take n l → next_free_block (st' x) = None ∧ prev_free_block (st' x) = None).
Proof.
  revert l st ret. induction n as [|n IH]; intros l st ret Hnd Hf Hn.
  - exists st. rewrite take_0, drop_0, app_nil_r. split_and!; [done..|].
    intros x Hx. by apply elem_of_nil in Hx.
  - destruct l as [|x l]; [cbn in Hn; lia|]. cbn in Hn, Hf. destruct Hf as [E Hf].
    apply NoDup_cons in Hnd as [Hx Hnd]. cbn.
    rewrite E.
    set (st1 := set_next (set_prev st x None) x None).
    destruct (IH l st1 (ret ++ [x])) as (st' & -> & Hd & Hout & Hin); [done| |lia|].
    { eapply fwd_frame; [|exact Hf]. intros y Hy. subst st1. link_solve. }
    exists st'. split; [by rewrite <- app_assoc|]. split_and!.
    + etrans; [|exact Hd]. subst st1. intros y. by autorewrite with store.
    + intros y Hy. destruct (Hout y) as [-> ->]; [mem_solve|].
      subst st1. split; link_solve.
    + intros y [->|Hy]%elem_of_cons; [|by apply Hin].
      destruct (decide (x ∈ take n l)) as [Hy|Hy]; [by apply Hin|].
      destruct (Hout x Hy) as [-> ->]. subst st1. split; link_solve.
Qed.

(** Linking the head to what is left after a prefix was detached. *)
Lemma linked_relink st st' l d c :
  linked st RHead (l ++ d) RTail → NoDup d → RHead ∉ d → RTail ∉ d →
  head (d ++ [RTail]) = Some c →
  (∀ x, x ∈ d → next_free_block (st' x) = next_free_block (st x)) →
  (∀ x, x ∈ d ++ [RTail] → prev_free_block (st' x) = prev_free_block (st x)) →
  linked (set_prev (set_next st' RHead (Some c)) c (Some RHead)) RHead d RTail.
Proof.
  intros Hl Hnd HH HT Hc En Ep. destruct d as [|y d]; cbn in Hc; injection Hc as <-.
  - cbn. split; link_solve.
  - apply linked_app in Hl as [_ Hl]. apply linked_cons. split; [split; link_solve|].
    eapply linked_frame; [..|exact Hl].
    + intros x Hx. rewrite <- En by done. link_solve.
    + intros x Hx. rewrite <- Ep by (by right). link_solve.
Qed.

Lemma popleft_n_rep q l n :
  free_rep q l → 0 ≤ n ≤ zlen l →
  ∃ q', popleft_n q n = Ok (take (Z.to_nat n) l, q')
    ∧ free_rep q' (drop (Z.to_nat n) l) ∧ same_data (q_store q) (q_store q').
Proof.
  intros Hrep Hn. destruct (free_rep_fake _ _ Hrep) as [HH HT]. unfold popleft_n.
  destruct (Z.eqb_spec n 0) as [->|Hn0].
  { exists q. rewrite take_0, drop_0. by split_and!. }
  destruct Hrep as [Hl Hnd Hb Hnum Ht Ho].
  rewrite (proj2 (Z.leb_le _ _)) by lia. rewrite (linked_first _ _ _ _ Hl).
  destruct (popleft_loop_spec (Z.to_nat n) l (q_store q) []) as (st' & -> & Hd & Hout & Hin);
    [done|by eapply linked_fwd|unfold zlen in Hn; lia|].
  cbn. set (k := Z.to_nat n) in *.
  assert (Hdt : ∀ x, x ∈ drop k l → x ∉ take k l).
  { intros x Hx Hx'. by eapply NoDup_take_drop. }
  assert (∃ c, head (drop k l ++ [RTail]) = Some c) as [c Ec] by (destruct (drop k l); cbn; eauto).
  assert (Hc : c ∈ drop k l ++ [RTail]) by (destruct (drop k l); cbn in *; simplify_eq; left).
  rewrite Ec. eexists. split; [reflexivity|]. split.
  2: { cbn. etrans; [exact Hd|]. intros y. by autorewrite with store. }
  split; cbn; [| |by apply Forall_drop| | |]; eauto with py.
  - eapply (linked_relink (q_store q) st' (take k l)); [by rewrite take_drop|..];
      eauto with py.
    + intros x Hx. by apply Hout, Hdt.
    + intros x [Hx| ->%list_elem_of_singleton]%elem_of_app; apply Hout; eauto with py.
  - unfold zlen in *. rewrite length_drop. lia.
  - autorewrite with store. destruct (Hout RTail) as [-> _]; eauto with py.
  - intros r Hr Hnin.
    destruct (is_blk_ne _ Hr) as [? ?].
    assert (r ≠ c) by (intros ->; apply elem_of_app in Hc as [?| ->%list_elem_of_singleton]; done).
    autorewrite with store. rewrite !decide_False by done.
    destruct (decide (r ∈ take k l)) as [Hx|Hx]; [by destruct (Hin r Hx)|].
    destruct (Hout r Hx) as [-> ->]. apply Ho; [done|].
    rewrite <- (take_drop k l), elem_of_app. tauto.
Qed.

Lemma popleft_n_short q n :
  n ≠ 0 → num_free_blocks q < n → popleft_n q n = Err AssertionError.
Proof.
  intros. unfold popleft_n. rewrite (proj2 (Z.eqb_neq _ _)) by lia.
  by rewrite (proj2 (Z.leb_gt _ _)).
Qed.

(** ** [remove] *)

(** The store after [x] was cut out from between [p] and [nx]. *)
Definition bypass (st : store) (p x nx : ref) : store :=
  set_next (set_prev (set_prev (set_next st p (Some nx)) nx (Some p)) x None) x None.

Lemma linked_bypass st a l1 x l2 b p nx :
  linked st a (l1 ++ x :: l2) b → NoDup (a :: l1 ++ x :: l2) → b ∉ a :: l1 ++ x :: l2 →
  last (a :: l1) = Some p → head (l2 ++ [b]) = Some nx →
  linked (bypass st p x nx) a (l1 ++ l2) b.
Proof.
  intros Hl Hnd Hb Hp Hnx. apply linked_app in Hl as [Hl1 Hl2].
  assert (Hfr : ∀ l c y, linked st c l y → x ∉ c :: l → y ≠ x → y ≠ nx →
            p ∉ c :: l → nx ∉ l → linked (bypass st p x nx) c l y).
  { intros l c y Hl' ? ? ? ? ?. eapply linked_frame; [..|exact Hl']; unfold bypass; link_solve. }
  apply NoDup_cons in Hnd as [Ha Hnd]. apply NoDup_app in Hnd as (Hnd1 & Hdis & Hnd2).
  apply NoDup_cons in Hnd2 as [Hx Hnd2].
  assert (Hx1 : x ∉ l1) by (intros Hx1; apply (Hdis x Hx1); by left).
  assert (Hdis2 : ∀ y, y ∈ l1 → y ∉ l2) by (intros y Hy Hy2; apply (Hdis y Hy); by right).
  destruct l2 as [|z l2]; cbn in Hnx; injection Hnx as <-.
  - rewrite app_nil_r. destruct l1 as [|u l1 _] using rev_ind.
    + cbn in Hp. injection Hp as <-. cbn. unfold bypass. split; link_solve.
    + rewrite last_cons, last_snoc in Hp. injection Hp as <-.
      apply linked_app in Hl1 as [Hl1 _]. apply linked_app.
      apply NoDup_app in Hnd1 as (Hnd1 & Hu & _).
      assert (u ∉ l1) by (intros Hy; apply (Hu u Hy); by left).
      split; [|unfold bypass; split; link_solve].
      apply Hfr; [done|mem_solve..].
  - destruct l1 as [|u l1 _] using rev_ind.
    + cbn in Hp. injection Hp as <-. cbn [app]. apply linked_cons in Hl2 as [_ Hl2].
      apply linked_cons. split; [unfold bypass; split; link_solve|].
      apply Hfr; [done|mem_solve..].
    + rewrite last_cons, last_snoc in Hp. injection Hp as <-.
      apply linked_app in Hl1 as [Hl1 _]. apply linked_cons in Hl2 as [_ Hl2].
      apply NoDup_app in Hnd1 as (Hnd1 & Hu & _).
      pose proof (Hdis2 u) as Hu2. pose proof (λ y, Hdis2 y) as Hz.
      assert (z ∉ l1 ++ [u]) by (intros Hy; apply (Hdis2 z Hy); by left).
      assert (u ∉ l1) by (intros Hy; apply (Hu u Hy); by left).
      assert (u ∉ z :: l2) by (apply Hu2; mem_solve).
      rewrite <- app_assoc. apply linked_app. split; [|apply linked_cons; split].
      * apply Hfr; [done|mem_solve..].
      * unfold bypass; split; link_solve.
      * apply Hfr; [done|mem_solve..].
Qed.

Lemma remove_rep q l1 x l2 :
  free_rep q (l1 ++ x :: l2) →
  ∃ q', remove q x = Ok q' ∧ free_rep q' (l1 ++ l2) ∧ same_data (q_store q) (q_store q').
Proof.
  intros Hrep. destruct (free_rep_fake _ _ Hrep) as [HH HT].
  destruct Hrep as [Hl Hnd Hb Hnum Ht Ho].
  pose proof (proj1 (linked_app _ _ _ _ _ _) Hl) as [Hl1 Hl2].
  assert (∃ p, last (RHead :: l1) = Some p) as [p Ep] by (apply last_is_Some; done).
  assert (∃ nx, head (l2 ++ [RTail]) = Some nx) as [nx Enx] by (destruct l2; cbn; eauto).
  assert (Hpin : p ∈ RHead :: l1) by (by apply last_Some_elem_of).
  assert (Hnxin : nx ∈ l2 ++ [RTail]) by (by apply head_Some_elem_of).
  pose proof (linked_last _ _ _ _ Hl1) as E1. pose proof (linked_first _ _ _ _ Hl2) as E2.
  rewrite Ep in E1. rewrite Enx in E2.
  apply NoDup_app in Hnd as Hnd'. destruct Hnd' as (Hnd1 & Hdis & Hnd2).
  assert (Hxp : x ≠ p).
  { intros ->. apply elem_of_cons in Hpin as [->|Hpin]; [mem_solve|].
    apply (Hdis p Hpin). by left. }
  unfold remove. rewrite E1, E2, next_set_next, decide_False by done.
  rewrite E2, prev_set_next, E1.
  fold (bypass (q_store q) p x nx).
  eexists. split; [reflexivity|]. split.
  2: { intros y. unfold bypass. cbn. by autorewrite with store. }
  split; cbn.
  - eapply linked_bypass; [done| |mem_solve|done..]. apply NoDup_cons. split; [mem_solve|done].
  - apply NoDup_app in Hnd as (?&Hd&[? ?]%NoDup_cons). apply NoDup_app. split_and!; [done| |done].
    intros y Hy. specialize (Hd y Hy). mem_solve.
  - apply Forall_app in Hb as [? [??]%Forall_cons]. by apply Forall_app.
  - revert Hnum. autorewrite with py. lia.
  - unfold bypass. apply elem_of_cons in Hpin as [->|?]; link_solve.
  - intros r Hr Hnin. destruct (is_blk_ne _ Hr) as [? ?].
    destruct (decide (r = x)) as [->|]; [unfold bypass; split; link_solve|].
    destruct (Ho r) as [E3 E4]; [done|mem_solve|].
    assert (r ≠ p) by (intros ->; apply elem_of_cons in Hpin as [->|?]; mem_solve).
    assert (r ≠ nx) by (intros ->; mem_solve).
    unfold bypass. split; link_solve.
Qed.

(** A block that is not in the free list is refused. *)
Lemma remove_invalid q l x :
  free_rep q l → is_blk x → x ∉ l → remove q x = Err RuntimeError.
Proof.
  intros Hrep Hb Hx. unfold remove. destruct (fr_out _ _ Hrep x Hb Hx) as [-> _]. done.
Qed.

(** ** [append] and [append_n] *)

(** A segment without its end: [a] followed by [l]. *)
Fixpoint chained (st : store) (a : ref) (l : list ref) : Prop :=
  match l with
  | [] => True
  | x :: l => next_free_block (st a) = Some x ∧ prev_free_block (st x) = Some a ∧ chained st x l
  end.

Definition end_of (a : ref) (l : list ref) : ref := default a (last l).

Lemma end_of_cons a x l : end_of a (x :: l) = end_of x l.
Proof. unfold end_of. rewrite last_cons. by destruct (last l). Qed.

Lemma end_of_in a l : end_of a l ∈ a :: l.
Proof.
  revert a. induction l as [|x l IH]; intros a; [by left|].
  rewrite end_of_cons. right. apply IH.
Qed.

Lemma last_end_of a l : last (a :: l) = Some (end_of a l).
Proof. unfold end_of. rewrite last_cons. by destruct (last l). Qed.

Lemma chained_app st a l k : chained st a (l ++ k) ↔ chained st a l ∧ chained st (end_of a l) k.
Proof.
  revert a. induction l as [|x l IH]; intros a; cbn [app chained].
  - naive_solver.
  - rewrite IH, end_of_cons. naive_solver.
Qed.

Lemma linked_chained st a l b :
  linked st a l b ↔ chained st a l ∧ next_free_block (st (end_of a l)) = Some b
                  ∧ prev_free_block (st b) = Some (end_of a l).
Proof.
  revert a. induction l as [|x l IH]; intros a; cbn [linked chained]; [naive_solver|].
  rewrite IH, end_of_cons. naive_solver.
Qed.

Lemma chained_frame st st' a l :
  (∀ x, x ∈ a :: l → x ≠ end_of a l → next_free_block (st' x) = next_free_block (st x)) →
  (∀ x, x ∈ l → prev_free_block (st' x) = prev_free_block (st x)) →
  NoDup (a :: l) → chained st a l → chained st' a l.
Proof.
  revert a. induction l as [|x l IH]; intros a Hn Hp Hnd; cbn [chained]; [done|].
  apply NoDup_cons in Hnd as [Ha Hnd]. intros (E1 & E2 & Hc).
  rewrite Hn, Hp; [|by left|by left|].
  - split_and!; [done..|]. apply IH; [| |done..].
    + intros y Hy Hne. apply Hn; [by right|by rewrite end_of_cons].
    + intros y Hy. apply Hp. by right.
  - rewrite end_of_cons. intros ->. apply Ha, end_of_in.
Qed.

Lemma append_loop_spec bs st p :
  NoDup (p :: bs) →
  ∃ st', append_loop st p bs = (st', end_of p bs) ∧ chained st' p bs ∧ same_data st st'
    ∧ (∀ x, x ∉ p :: bs → next_free_block (st' x) = next_free_block (st x))
    ∧ (∀ x, x ∉ bs → prev_free_block (st' x) = prev_free_block (st x)).
Proof.
  revert st p. induction bs as [|b bs IH]; intros st p Hnd; cbn [append_loop chained].
  { by exists st. }
  set (st1 := set_next (set_prev st b (Some p)) p (Some b)).
  apply NoDup_cons in Hnd as [Hp Hnd].
  destruct (IH st1 b Hnd) as (st' & -> & Hc & Hd & Hn & Hpv).
  exists st'. rewrite end_of_cons. split; [done|].
  assert (b ∉ bs) by mem_solve.
  split_and!.
  - rewrite Hn by done. subst st1. link_solve.
  - rewrite Hpv by done. subst st1. link_solve.
  - done.
  - etrans; [|exact Hd]. intros y. subst st1. by autorewrite with store.
  - intros x Hx. rewrite Hn by mem_solve. subst st1. link_solve.
  - intros x Hx. rewrite Hpv by mem_solve. subst st1. link_solve.
Qed.

Lemma append_n_rep q l bs :
  free_rep q l → NoDup bs → Forall is_blk bs → (∀ x, x ∈ bs → x ∉ l) →
  ∃ q', append_n q bs = Ok q' ∧ free_rep q' (l ++ bs) ∧ same_data (q_store q) (q_store q').
Proof.
  intros Hrep Hndb Hbb Hdis. destruct (decide (bs = [])) as [->|Hne].
  { exists q. rewrite app_nil_r. by split_and!. }
  destruct (free_rep_fake _ _ Hrep) as [HH HT]. destruct (blk_not_fake _ Hbb) as [HHb HTb].
  destruct Hrep as [Hl Hnd Hb Hnum Ht Ho].
  apply linked_chained in Hl as (Hc & E1 & E2). pose proof (end_of_in RHead l) as Hein.
  set (p := end_of RHead l) in *.
  assert (Hpb : p ∉ bs).
  { apply elem_of_cons in Hein as [->|Hein]; [done|]. intros Hx. by apply (Hdis p). }
  destruct (append_loop_spec bs (q_store q) p) as (st' & Ea & Hc' & Hd & Hn & Hpv);
    [by apply NoDup_cons|].
  unfold append_n. rewrite E2, Ea. destruct bs as [|b0 bs0] eqn:Ebs; [done|]. rewrite <- Ebs in *.
  pose proof (end_of_in p bs) as He2. set (e := end_of p bs) in *.
  assert (He : e ∈ bs) by (subst e bs; rewrite end_of_cons; apply end_of_in).
  clear Ebs. eexists. split; [reflexivity|]. split.
  2: { cbn. etrans; [exact Hd|]. intros y. by autorewrite with store. }
  split; cbn; [| | by apply Forall_app| | |].
  - apply linked_chained.
    assert (end_of RHead (l ++ bs) = e) as ->.
    { unfold e, p, end_of. rewrite last_app. destruct (last bs) eqn:El; [done|].
      by apply last_None in El. }
    split; [|split; link_solve].
    assert (Hnd2 : NoDup (RHead :: l)) by (by apply NoDup_cons).
    apply chained_app. fold p. split.
    + eapply chained_frame; [..|exact Hc]; [| |done]; fold p.
      * intros x Hx Hxp. rewrite next_set_prev, next_set_next, decide_False.
        -- apply Hn. apply not_elem_of_cons. split; [done|].
           apply elem_of_cons in Hx as [->|Hx]; [done|]. intros Hx'. by apply (Hdis x).
        -- intros ->. apply elem_of_cons in Hx as [Hx|Hx]; [congruence|by apply (Hdis e)].
      * intros x Hx. rewrite prev_set_prev, decide_False by mem_solve. rewrite prev_set_next.
        apply Hpv. intros Hx'. by apply (Hdis x).
    + eapply chained_frame; [..|exact Hc'].
      * intros x Hx Hxp. rewrite next_set_prev, next_set_next, decide_False by done. done.
      * intros x Hx. rewrite prev_set_prev, decide_False by mem_solve. by rewrite prev_set_next.
      * by apply NoDup_cons.
  - apply NoDup_app. split_and!; [done| |done]. intros x Hx Hx'. by apply (Hdis x).
  - autorewrite with py. lia.
  - rewrite next_set_prev, next_set_next, decide_False by mem_solve. rewrite Hn; [done|].
    apply not_elem_of_cons. split; [|done]. apply elem_of_cons in Hein as [->|Hein]; [done|].
    intros <-. done.
  - intros r Hr Hx. destruct (is_blk_ne _ Hr) as [? ?].
    assert (r ≠ e) by (intros ->; mem_solve).
    assert (r ∉ p :: bs).
    { apply not_elem_of_cons. split; [|mem_solve]. intros ->.
      apply elem_of_cons in Hein as [?|?]; mem_solve. }
    rewrite next_set_prev, next_set_next, prev_set_prev, prev_set_next, !decide_False by done.
    rewrite Hn, Hpv by mem_solve. apply Ho; [done|mem_solve].
Qed.

(** [append] is [append_n] of one block, up to the order of the writes. *)
Lemma append_eq_append_n q b p :
  prev_free_block (q_store q RTail) = Some p → b ≠ p → b ≠ RTail → p ≠ RTail →
  ∃ q1 q2, append q b = Ok q1 ∧ append_n q [b] = Ok q2 ∧
    num_free_blocks q1 = num_free_blocks q2 ∧ ∀ x, q_store q1 x = q_store q2 x.
Proof.
  intros E ? ? ?. unfold append, append_n. rewrite E. do 2 eexists.
  split; [reflexivity|]. split; [reflexivity|]. split; [done|].
  intros x. cbn. unfold set_next, set_prev, upd. repeat case_decide; simplify_eq; done.
Qed.

Lemma append_rep q l b :
  free_rep q l → is_blk b → b ∉ l →
  ∃ q', append q b = Ok q' ∧ free_rep q' (l ++ [b]) ∧ same_data (q_store q) (q_store q').
Proof.
  intros Hrep Hb Hin. destruct (free_rep_fake _ _ Hrep) as [HH HT].
  pose proof (linked_last _ _ _ _ (fr_linked _ _ Hrep)) as E.
  rewrite last_end_of in E. pose proof (end_of_in RHead l) as Hein.
  destruct (is_blk_ne _ Hb) as [? ?].
  assert (end_of RHead l ≠ b ∧ end_of RHead l ≠ RTail) as [? ?].
  { apply elem_of_cons in Hein as [->|Hein]; [done|]. split; intros Ee; by rewrite Ee in Hein. }
  destruct (append_eq_append_n q b _ E) as (q1 & q2 & -> & E2 & En & Es); [done..|].
  destruct (append_n_rep q l [b]) as (q2' & E2' & Hrep' & Hd); [done|apply NoDup_singleton| | |].
  { by apply Forall_singleton. }
  { by intros x ->%list_elem_of_singleton. }
  rewrite E2 in E2'. injection E2' as <-. exists q1. split; [done|]. split.
  - eapply free_rep_frame; [exact Hrep'|done|]. intros x. by rewrite Es.
  - etrans; [exact Hd|]. intros x. by rewrite Es.
Qed.

(** ** [get_all_free_blocks] *)

Lemma walk_spec fuel l st a ret :
  linked st a l RTail → next_free_block (st RTail) = None → (length l < fuel)%nat →
  walk fuel st (default RTail (head (l ++ [RTail]))) ret = Ok (ret ++ l).
Proof.
  revert fuel a ret. induction l as [|x l IH]; intros fuel a ret Hl Ht Hf;
    destruct fuel as [|fuel]; cbn in Hf |- *; try lia.
  - by rewrite Ht, app_nil_r.
  - apply linked_cons in Hl as [_ Hl]. rewrite (linked_first _ _ _ _ Hl).
    assert (∃ c, head (l ++ [RTail]) = Some c) as [c Ec] by (destruct l; cbn; eauto).
    rewrite Ec. specialize (IH fuel x (ret ++ [x]) Hl Ht).
    rewrite Ec in IH. cbn in IH. rewrite IH by lia. by rewrite <- app_assoc.
Qed.

Lemma get_all_free_blocks_rep fuel q l :
  free_rep q l → (length l < fuel)%nat → get_all_free_blocks fuel q = Ok l.
Proof.
  intros [Hl _ _ _ Ht _] Hf. unfold get_all_free_blocks.
  pose proof (walk_spec fuel l _ _ [] Hl Ht Hf) as Hw.
  rewrite (linked_first _ _ _ _ Hl).
  destruct (head (l ++ [RTail])) eqn:E; [exact Hw|]. by destruct l.
Qed.

(** ** Construction *)

Lemma chained_pointwise st a l :
  (∀ i x y, (a :: l) !! i = Some x → l !! i = Some y →
     next_free_block (st x) = Some y ∧ prev_free_block (st y) = Some x) →
  chained st a l.
Proof.
  revert a. induction l as [|b l IH]; intros a H; cbn; [done|].
  destruct (H 0%nat a b) as [? ?]; [done..|]. split_and!; [done..|].
  apply IH. intros i x y Hx Hy. by apply (H (S i) x y).
Qed.

Section link_step.
Context (blocks : list ref) (st : store) (k : nat) (b : ref).
Hypothesis Hb : blocks !! k = Some b.

Lemma link_step_next x :
  next_free_block (link_step blocks (length blocks) st k x) =
    if decide (x = b ∧ (k < length blocks - 1)%nat) then blocks !! S k
    else next_free_block (st x).
Proof.
  unfold link_step. rewrite Hb, Nat.add_1_r.
  destruct (Nat.ltb_spec k (length blocks - 1)) as [Hk|Hk].
  - destruct (lookup_lt_is_Some_2 blocks (S k)) as [y Ey]; [lia|]. rewrite Ey.
    rewrite next_set_next. destruct (0 <? k)%nat, (blocks !! (k - 1)%nat);
      autorewrite with store; repeat case_decide; naive_solver.
  - rewrite decide_False by lia.
    destruct (0 <? k)%nat, (blocks !! (k - 1)%nat); by autorewrite with store.
Qed.

Lemma link_step_prev x :
  prev_free_block (link_step blocks (length blocks) st k x) =
    if decide (x = b ∧ (0 < k)%nat) then blocks !! (k - 1)%nat
    else prev_free_block (st x).
Proof.
  unfold link_step. rewrite Hb, Nat.add_1_r.
  destruct (Nat.ltb_spec 0 k) as [Hk|Hk].
  - destruct (lookup_lt_is_Some_2 blocks (k - 1)%nat) as [y Ey].
    { apply lookup_lt_Some in Hb. lia. }
    rewrite Ey. destruct (k <? length blocks - 1)%nat, (blocks !! S k);
      autorewrite with store; repeat case_decide; naive_solver.
  - rewrite decide_False by lia.
    destruct (k <? length blocks - 1)%nat, (blocks !! S k); by autorewrite with store.
Qed.

Lemma link_step_data n : same_data st (link_step blocks n st k).
Proof.
  unfold link_step. rewrite Hb. intros x.
  destruct (0 <? k)%nat, (k <? n - 1)%nat, (blocks !! (k - 1)%nat), (blocks !! (k + 1)%nat);
    by autorewrite with store.
Qed.
End link_step.

(** What the linking loop has done after [k] iterations. *)
Record links_done (blocks : list ref) (st st' : store) (k : nat) : Prop := {
  ld_next : ∀ i x y, (i < k)%nat → blocks !! i = Some x → blocks !! S i = Some y →
    next_free_block (st' x) = Some y;
  ld_prev : ∀ i x y, (S i < k)%nat → blocks !! i = Some x → blocks !! S i = Some y →
    prev_free_block (st' y) = Some x;
  ld_out : ∀ x, x ∉ take k blocks →
    next_free_block (st' x) = next_free_block (st x) ∧
    prev_free_block (st' x) = prev_free_block (st x);
  ld_data : same_data st st';
}.

Lemma links_done_step blocks st st1 k :
  NoDup blocks → (k < length blocks)%nat →
  links_done blocks st st1 k → links_done blocks st (link_step blocks (length blocks) st1 k) (S k).
Proof.
  intros Hnd Hk [Hn Hp Ho Hd].
  destruct (lookup_lt_is_Some_2 blocks k Hk) as [b Eb].
  assert (Hinj : ∀ i, blocks !! i = Some b → i = k) by (intros i Ei; by eapply NoDup_lookup).
  split.
  - intros i x y Hi Ex Ey. rewrite (link_step_next _ _ _ _ Eb). case_decide as Hc.
    + destruct Hc as [-> _]. by rewrite <- (Hinj i Ex).
    + apply (Hn i); [|done..]. assert (i ≠ k); [|lia]. intros ->. apply Hc.
      apply lookup_lt_Some in Ey. split; [congruence|lia].
  - intros i x y Hi Ex Ey. rewrite (link_step_prev _ _ _ _ Eb). case_decide as Hc.
    + destruct Hc as [-> _]. rewrite <- (Hinj (S i) Ey). by rewrite Nat.sub_1_r.
    + apply (Hp i x y); [|done..]. assert (S i ≠ k); [|lia]. intros <-. apply Hc.
      split; [congruence|lia].
  - intros x Hx. rewrite (take_S_r _ _ _ Eb) in Hx.
    assert (x ≠ b) by (intros ->; mem_solve).
    rewrite (link_step_next _ _ _ _ Eb), (link_step_prev _ _ _ _ Eb), !decide_False by tauto.
    apply Ho. mem_solve.
  - etrans; [exact Hd|]. by eapply link_step_data.
Qed.

Lemma init_links_done blocks st :
  NoDup blocks → links_done blocks st (init_links blocks st) (length blocks).
Proof.
  intros Hnd. unfold init_links.
  cut (∀ k, (k ≤ length blocks)%nat →
    links_done blocks st (fold_left (link_step blocks (length blocks)) (seq 0 k) st) k).
  { intros H. by apply H. }
  induction k as [|k IH]; intros Hk.
  - split; [lia..|done|done].
  - rewrite seq_S, fold_left_app. cbn. apply links_done_step; [done|lia|apply IH; lia].
Qed.

(** [__init__] builds the queue of the given blocks, in their order. *)
Lemma init_rep blocks st :
  NoDup blocks → Forall is_blk blocks →
  (∀ r, is_blk r → prev_free_block (st r) = None ∧ next_free_block (st r) = None) →
  free_rep (init blocks st) blocks.
Proof.
  intros Hnd Hb Hfresh. destruct (blk_not_fake _ Hb) as [HH HT].
  destruct (init_links_done blocks st Hnd) as [Hn Hp Ho _].
  unfold init. set (st1 := init_links blocks st) in *.
  set (st3 := upd (upd st1 RHead _) RTail _).
  assert (Hst3 : ∀ x, is_blk x → st3 x = st1 x).
  { intros x Hx. destruct (is_blk_ne _ Hx). unfold st3, upd. by rewrite !decide_False. }
  destruct (decide (blocks = [])) as [->|Hne].
  { cbn. split; cbn; [by split; link_solve|apply NoDup_nil_2|done..| |].
    - link_solve.
    - intros r Hr _. destruct (is_blk_ne _ Hr). autorewrite with store.
      rewrite !decide_False, Hst3 by done. by apply Hfresh. }
  assert (∃ b0, blocks !! 0%nat = Some b0) as [b0 E0] by (destruct blocks; [done|by eexists]).
  assert (∃ e, last blocks = Some e) as [e Ee] by (by apply last_is_Some).
  assert (Eei : blocks !! (length blocks - 1)%nat = Some e)
    by (rewrite Nat.sub_1_r, <- last_lookup; done).
  assert (Hall : ∀ i x, blocks !! i = Some x → x ≠ RHead ∧ x ≠ RTail ∧ st3 x = st1 x).
  { intros i x Hx. apply (Forall_lookup_1 _ _ _ _ Hb) in Hx. split_and!; [by apply is_blk_ne..|].
    by apply Hst3. }
  destruct (Hall _ _ E0) as (? & ? & _), (Hall _ _ Eei) as (? & ? & _).
  cbv zeta. rewrite E0, Ee. split; cbn; [|done..| |].
  - apply linked_chained.
    assert (end_of RHead blocks = e) as -> by (unfold end_of; by rewrite Ee).
    split; [|split; link_solve].
    apply chained_pointwise. intros [|i] x y Hx Hy.
    + cbn in Hx. simplify_eq. split; link_solve.
    + cbn in Hx. destruct (Hall _ _ Hx) as (?&?&Ex), (Hall _ _ Hy) as (?&?&Ey).
      apply lookup_lt_Some in Hy as Hlt.
      assert (x ≠ e).
      { intros ->. enough (i = length blocks - 1)%nat by lia. by eapply NoDup_lookup. }
      assert (y ≠ b0).
      { intros ->. enough (S i = 0)%nat by lia. by eapply NoDup_lookup. }
      autorewrite with store. rewrite !decide_False by done. rewrite Ex, Ey.
      split; [apply (Hn i x y)|apply (Hp i x y)]; (lia || done).
  - autorewrite with store. rewrite !decide_False by done. unfold st3, upd.
    by rewrite decide_True.
  - intros r Hr Hx. destruct (is_blk_ne _ Hr).
    assert (r ≠ b0 ∧ r ≠ e) as [? ?].
    { split; intros ->; apply Hx; by eapply list_elem_of_lookup_2. }
    autorewrite with store. rewrite !decide_False, Hst3 by done.
    destruct (Ho r) as [-> ->]; [by eauto with py|]. by apply Hfresh.
Qed.

Lemma init_data blocks st r :
  NoDup blocks → is_blk r →
  let b := q_store (init blocks st) r in
  block_id b = block_id (st r) ∧ ref_cnt b = ref_cnt (st r) ∧
  block_hash b = block_hash (st r) ∧ is_null b = is_null (st r).
Proof.
  intros Hnd Hr. destruct (ld_data _ _ _ _ (init_links_done blocks st Hnd) r) as (?&?&?&?).
  destruct (is_blk_ne _ Hr). unfold init.
  destruct (blocks !! 0%nat), (last blocks); cbn; autorewrite with store;
    unfold upd; rewrite !decide_False by done; done.
Qed.

(** ** Refinement

    The queue as clients see it: a list of blocks.  [fq_spec] gives each
    operation its meaning on lists, errors included; the linked list simulates
    it on every run that appends only fresh blocks. *)

Inductive fq_op :=
  | PopLeft
  | PopLeftN (n : Z)
  | Remove (b : ref)
  | Append (b : ref)
  | AppendN (bs : list ref)
  | GetAll.

Definition fq_exec (q : queue) (o : fq_op) : res (list ref * queue) :=
  match o with
  | PopLeft => '(b, q) ← popleft q; Ok ([b], q)
  | PopLeftN n => popleft_n q n
  | Remove b => q ← remove q b; Ok ([], q)
  | Append b => q ← append q b; Ok ([], q)
  | AppendN bs => q ← append_n q bs; Ok ([], q)
  | GetAll => l ← get_all_free_blocks (S (Z.to_nat (num_free_blocks q))) q; Ok (l, q)
  end.

Definition fq_spec (l : list ref) (o : fq_op) : res (list ref * list ref) :=
  match o with
  | PopLeft => match l with [] => Err ValueError | b :: l => Ok ([b], l) end
  | PopLeftN n =>
      if n <=? zlen l then Ok (take (Z.to_nat n) l, drop (Z.to_nat n) l) else Err AssertionError
  | Remove b => if decide (b ∈ l) then Ok ([], filter (λ x, x ≠ b) l) else Err RuntimeError
  | Append b => Ok ([], l ++ [b])
  | AppendN bs => Ok ([], l ++ bs)
  | GetAll => Ok (l, l)
  end.

(** What the clients of the queue respect. *)
Definition fq_legal (l : list ref) (o : fq_op) : Prop :=
  match o with
  | PopLeft | GetAll => True
  | PopLeftN n => 0 ≤ n
  | Remove b => is_blk b
  | Append b => is_blk b ∧ b ∉ l
  | AppendN bs => NoDup bs ∧ Forall is_blk bs ∧ ∀ x, x ∈ bs → x ∉ l
  end.

Lemma filter_ne_split l1 b l2 :
  NoDup (l1 ++ b :: l2) → filter (λ x : ref, x ≠ b) (l1 ++ b :: l2) = l1 ++ l2.
Proof.
  rewrite NoDup_app, NoDup_cons. intros (_ & H1 & H2 & _).
  rewrite filter_app, filter_cons_False by naive_solver.
  rewrite !list_filter_all; [done|..].
  - apply Forall_forall. intros x Hx ->. done.
  - apply Forall_forall. intros x Hx ->. apply (H1 b Hx). by left.
Qed.

Lemma fq_step_sim q l o :
  free_rep q l → fq_legal l o →
  match fq_spec l o with
  | Ok (out, l') => ∃ q', fq_exec q o = Ok (out, q') ∧ free_rep q' l'
                      ∧ same_data (q_store q) (q_store q')
  | Err e => fq_exec q o = Err e
  end.
Proof.
  intros H Hl. destruct o; cbn in *.
  - destruct l as [|b l]; [by rewrite popleft_empty|].
    destruct (popleft_rep _ _ _ H) as (q' & -> & ? & ?). by exists q'.
  - destruct (Z.leb_spec n (zlen l)) as [Hn|Hn]; [by apply popleft_n_rep|].
    pose proof (zlen_nonneg l). apply popleft_n_short; [lia|]. by rewrite (fr_num _ _ H).
  - case_decide as Hin.
    + apply list_elem_of_split in Hin as (l1 & l2 & ->). rewrite filter_ne_split by apply H.
      destruct (remove_rep _ _ _ _ H) as (q' & -> & ? & ?). by exists q'.
    + by erewrite remove_invalid.
  - destruct Hl as [? ?]. destruct (append_rep q l b) as (q' & -> & ? & ?); [done..|]. by exists q'.
  - destruct Hl as (? & ? & ?).
    destruct (append_n_rep q l bs) as (q' & -> & ? & ?); [done..|]. by exists q'.
  - erewrite get_all_free_blocks_rep; [by exists q|done|].
    rewrite (fr_num _ _ H). unfold zlen. lia.
Qed.

(** Runs: the outputs so far, and the final state or the exception. *)
Fixpoint run {S} (exec : S → fq_op → res (list ref * S)) (s : S) (ops : list fq_op)
    : list (list ref) * res S :=
  match ops with
  | [] => ([], Ok s)
  | o :: ops =>
      match exec s o with
      | Err e => ([], Err e)
      | Ok (out, s') => let '(outs, r) := run exec s' ops in (out :: outs, r)
      end
  end.

Fixpoint fq_legal_run (l : list ref) (ops : list fq_op) : Prop :=
  match ops with
  | [] => True
  | o :: ops => fq_legal l o ∧ ∀ out l', fq_spec l o = Ok (out, l') → fq_legal_run l' ops
  end.

(** C3: The free-block queue refines a list: built from any distinct blocks, every
    run of its operations that appends only fresh blocks returns the same blocks
    and raises the same exceptions, in the same places, as the run on plain
    lists, and ends in a queue that represents the final list with the
    identities, counters and hashes of all blocks untouched. *)
Theorem free_queue_refines_list blks st ops :
  NoDup blks → Forall is_blk blks →
  (∀ r, is_blk r → prev_free_block (st r) = None ∧ next_free_block (st r) = None) →
  fq_legal_run blks ops →
  (run fq_exec (init blks st) ops).1 = (run fq_spec blks ops).1 ∧
  match (run fq_spec blks ops).2 with
  | Ok l' => ∃ q', (run fq_exec (init blks st) ops).2 = Ok q' ∧ free_rep q' l'
      ∧ same_data (q_store (init blks st)) (q_store q')
  | Err e => (run fq_exec (init blks st) ops).2 = Err e
  end.
Proof.
  intros Hnd Hb Hst. assert (H : free_rep (init blks st) blks) by (by apply init_rep).
  revert H. clear Hnd Hb Hst. generalize (init blks st) as q. revert blks.
  induction ops as [|o ops IH]; intros l q H Hl; cbn [run]; [by split; [|exists q]|].
  destruct Hl as [Hl Hrun]. pose proof (fq_step_sim q l o H Hl) as Hs.
  destruct (fq_spec l o) as [[out l']|e]; [|by rewrite Hs].
  destruct Hs as (q' & -> & H' & Hd). destruct (IH l' q' H' (Hrun _ _ eq_refl)) as [IH1 IH2].
  destruct (run fq_exec q' ops) as [outs r], (run fq_spec l' ops) as [outs' r']. cbn in *.
  split; [by f_equal|]. destruct r' as [l2|e]; [|done].
  destruct IH2 as (q2 & -> & ? & ?). exists q2. split_and!; [done..|by etrans].
Qed.

Definition fresh_store : store :=
  λ r, match r with RBlk i => new_block (Z.of_nat i) | _ => new_block (-1) end.

Lemma free_queue_refines_list_witness :
  (run fq_exec (init [RBlk 1; RBlk 2; RBlk 3] fresh_store)
     [Remove (RBlk 2); AppendN [RBlk 2; RBlk 5]; PopLeftN 2; GetAll; Remove (RBlk 1)]).1
  = [[]; []; [RBlk 1; RBlk 3]; [RBlk 2; RBlk 5]].
Proof.
  eapply eq_trans.
  - apply (free_queue_refines_list [RBlk 1; RBlk 2; RBlk 3] fresh_store).
    + eapply bool_decide_eq_true_1. vm_compute. reflexivity.
    + repeat constructor.
    + intros []; cbn; intros H; try destruct H. split; reflexivity.
    + cbn. split; [exact I|]. intros out l' E; simplify_eq/=. split.
      { split; [eapply bool_decide_eq_true_1; vm_compute; reflexivity|].
        split; [repeat constructor|]. intros x Hx Hx'. set_solver. }
      intros out l' E; simplify_eq/=. split; [lia|]. intros out l' E; simplify_eq/=. split; [exact I|].
      intros out l' E; simplify_eq/=. split; [exact I|]. intros out l' E. exact I.
  - vm_compute. reflexivity.
Defined.

End FreeKVCacheBlockQueue.
