(* ===== verification/Request.v ===== *)
(** * Requests

    [Request], [RequestStatus] and the stopping rules: vllm/v1/request.py and
    vllm/v1/core/sched/utils.py.  A request is a record of its attributes; the
    block hasher, which the source stores as a closure on the object, is an
    argument of the operations that call it. *)

From Stdlib Require Import String.
From S2P Require Import Prelude.

Inductive RequestStatus :=
  | WAITING
  | WAITING_FOR_STRUCTURED_OUTPUT_GRAMMAR
  | WAITING_FOR_REMOTE_KVS
  | WAITING_FOR_STREAMING_REQ
  | RUNNING
  | PREEMPTED
  | FINISHED_STOPPED
  | FINISHED_LENGTH_CAPPED
  | FINISHED_ABORTED
  | FINISHED_IGNORED
  | FINISHED_ERROR
  | FINISHED_REPETITION.

#[export] Instance RequestStatus_eq_dec : EqDecision RequestStatus.
Proof. solve_decision. Defined.

(** The value [enum.auto()] gives each member. *)
Definition status_value (s : RequestStatus) : Z :=
  match s with
  | WAITING => 1
  | WAITING_FOR_STRUCTURED_OUTPUT_GRAMMAR => 2
  | WAITING_FOR_REMOTE_KVS => 3
  | WAITING_FOR_STREAMING_REQ => 4
  | RUNNING => 5
  | PREEMPTED => 6
  | FINISHED_STOPPED => 7
  | FINISHED_LENGTH_CAPPED => 8
  | FINISHED_ABORTED => 9
  | FINISHED_IGNORED => 10
  | FINISHED_ERROR => 11
  | FINISHED_REPETITION => 12
  end.

Inductive FinishReason := STOP | LENGTH | ABORT | ERROR | REPETITION.

#[export] Instance FinishReason_eq_dec : EqDecision FinishReason.
Proof. solve_decision. Defined.

(** [RequestStatus.is_finished]: [status > RequestStatus.PREEMPTED]. *)
Definition status_is_finished (s : RequestStatus) : bool :=
  status_value PREEMPTED <? status_value s.

(** [_FINISHED_REASON_MAP.get(status)] *)
Definition get_finished_reason (s : RequestStatus) : option FinishReason :=
  match s with
  | FINISHED_STOPPED => Some STOP
  | FINISHED_LENGTH_CAPPED => Some LENGTH
  | FINISHED_ABORTED => Some ABORT
  | FINISHED_IGNORED => Some LENGTH
  | FINISHED_ERROR => Some ERROR
  | WAITING_FOR_STREAMING_REQ => Some STOP
  | FINISHED_REPETITION => Some REPETITION
  | _ => None
  end.

Record RepetitionDetectionParams := mkRepetition {
  max_pattern_size : Z;
  min_pattern_size : Z;
  min_count : Z;
}.

(** The attributes of [SamplingParams] the core reads; [sp_structured] says
    whether [StructuredOutputRequest.from_sampling_params] is not [None]. *)
Record SamplingParams := mkSampling {
  sp_max_tokens : option Z;
  sp_min_tokens : Z;
  eos_token_id : option Z;
  stop_token_ids : option (list Z);
  repetition_detection : option RepetitionDetectionParams;
  sp_skip_reading_prefix_cache : option bool;
  sp_structured : bool;
}.

Record PoolingParams := mkPooling {
  pp_skip_reading_prefix_cache : option bool;
}.

Record LoRARequest := mkLoRA {
  lora_name : string;
  lora_int_id : Z;
}.

(** [PlaceholderRange]; [is_embed] is its optional boolean mask. *)
Record PlaceholderRange := mkRange {
  pr_offset : Z;
  pr_length : Z;
  is_embed : option (list bool);
}.

Record MultiModalFeatureSpec := mkFeature {
  identifier : option string;
  mm_position : PlaceholderRange;
}.

Inductive StopReason :=
  | StopToken (t : Z)
  | StopString (s : string).

(** [EngineCoreEventType] of vllm/v1/engine/__init__.py; an event is a type with
    its time stamp. *)
Inductive EngineCoreEventType := QUEUED | SCHEDULED | EVENT_PREEMPTED.

Record StreamingUpdate := mkUpdate {
  su_mm_features : option (list MultiModalFeatureSpec);
  su_prompt_token_ids : option (list Z);
  su_max_tokens : Z;
  su_arrival_time : Z;
  su_sampling_params : option SamplingParams;
}.

(** [object_id] is [id(self)], the identity of the object.  [prompt_embeds] is a
    tensor, kept as the raw bytes of each row.  [arrival_time] is a time stamp;
    only its order is used. *)
Record Request := mkRequest {
  request_id : string;
  client_index : Z;
  priority : Z;
  object_id : Z;
  sampling_params : option SamplingParams;
  pooling_params : option PoolingParams;
  lora_request : option LoRARequest;
  structured_output_request : bool;
  arrival_time : Z;
  status : RequestStatus;
  stop_reason : option StopReason;
  max_tokens : Z;
  prompt_token_ids : option (list Z);
  prompt_embeds : option (list bytes);
  prompt_embeds_per_block_hashes : gmap (Z * Z) bytes;
  num_prompt_tokens : Z;
  output_token_ids : list Z;
  all_token_ids : list Z;
  num_output_placeholders : Z;
  spec_token_ids : list Z;
  num_computed_tokens : Z;
  cache_salt : option string;
  mm_features : list MultiModalFeatureSpec;
  num_cached_tokens : Z;
  num_preemptions : Z;
  num_external_computed_tokens : Z;
  block_hashes : list bytes;
  skip_reading_prefix_cache : bool;
  resumable : bool;
  events : list (EngineCoreEventType * Z);
  num_nans_in_logits : Z;
  is_prefill_chunk : bool;
  discard_latest_async_tokens : bool;
  streaming_queue : option (list (option StreamingUpdate));
}.

Definition with_status (r : Request) (v0 : RequestStatus) : Request :=
  mkRequest
    (request_id r) (client_index r) (priority r) (object_id r) (sampling_params r)
    (pooling_params r) (lora_request r) (structured_output_request r) (arrival_time r)
    v0 (stop_reason r) (max_tokens r) (prompt_token_ids r) (prompt_embeds r)
    (prompt_embeds_per_block_hashes r) (num_prompt_tokens r) (output_token_ids r)
    (all_token_ids r) (num_output_placeholders r) (spec_token_ids r)
    (num_computed_tokens r) (cache_salt r) (mm_features r) (num_cached_tokens r)
    (num_preemptions r) (num_external_computed_tokens r) (block_hashes r)
    (skip_reading_prefix_cache r) (resumable r) (events r) (num_nans_in_logits r)
    (is_prefill_chunk r) (discard_latest_async_tokens r) (streaming_queue r).
Definition with_stop_reason (r : Request) (v0 : option StopReason) : Request :=
  mkRequest
    (request_id r) (client_index r) (priority r) (object_id r) (sampling_params r)
    (pooling_params r) (lora_request r) (structured_output_request r) (arrival_time r)
    (status r) v0 (max_tokens r) (prompt_token_ids r) (prompt_embeds r)
    (prompt_embeds_per_block_hashes r) (num_prompt_tokens r) (output_token_ids r)
    (all_token_ids r) (num_output_placeholders r) (spec_token_ids r)
    (num_computed_tokens r) (cache_salt r) (mm_features r) (num_cached_tokens r)
    (num_preemptions r) (num_external_computed_tokens r) (block_hashes r)
    (skip_reading_prefix_cache r) (resumable r) (events r) (num_nans_in_logits r)
    (is_prefill_chunk r) (discard_latest_async_tokens r) (streaming_queue r).
Definition with_tokens (r : Request) (v0 : list Z) (v1 : list Z) : Request :=
  mkRequest
    (request_id r) (client_index r) (priority r) (object_id r) (sampling_params r)
    (pooling_params r) (lora_request r) (structured_output_request r) (arrival_time r)
    (status r) (stop_reason r) (max_tokens r) (prompt_token_ids r) (prompt_embeds r)
    (prompt_embeds_per_block_hashes r) (num_prompt_tokens r) v0 v1
    (num_output_placeholders r) (spec_token_ids r) (num_computed_tokens r)
    (cache_salt r) (mm_features r) (num_cached_tokens r) (num_preemptions r)
    (num_external_computed_tokens r) (block_hashes r) (skip_reading_prefix_cache r)
    (resumable r) (events r) (num_nans_in_logits r) (is_prefill_chunk r)
    (discard_latest_async_tokens r) (streaming_queue r).
Definition with_block_hashes (r : Request) (v0 : list bytes) : Request :=
  mkRequest
    (request_id r) (client_index r) (priority r) (object_id r) (sampling_params r)
    (pooling_params r) (lora_request r) (structured_output_request r) (arrival_time r)
    (status r) (stop_reason r) (max_tokens r) (prompt_token_ids r) (prompt_embeds r)
    (prompt_embeds_per_block_hashes r) (num_prompt_tokens r) (output_token_ids r)
    (all_token_ids r) (num_output_placeholders r) (spec_token_ids r)
    (num_computed_tokens r) (cache_salt r) (mm_features r) (num_cached_tokens r)
    (num_preemptions r) (num_external_computed_tokens r) v0
    (skip_reading_prefix_cache r) (resumable r) (events r) (num_nans_in_logits r)
    (is_prefill_chunk r) (discard_latest_async_tokens r) (streaming_queue r).
Definition with_embed_hashes (r : Request) (v0 : gmap (Z * Z) bytes) : Request :=
  mkRequest
    (request_id r) (client_index r) (priority r) (object_id r) (sampling_params r)
    (pooling_params r) (lora_request r) (structured_output_request r) (arrival_time r)
    (status r) (stop_reason r) (max_tokens r) (prompt_token_ids r) (prompt_embeds r) v0
    (num_prompt_tokens r) (output_token_ids r) (all_token_ids r)
    (num_output_placeholders r) (spec_token_ids r) (num_computed_tokens r)
    (cache_salt r) (mm_features r) (num_cached_tokens r) (num_preemptions r)
    (num_external_computed_tokens r) (block_hashes r) (skip_reading_prefix_cache r)
    (resumable r) (events r) (num_nans_in_logits r) (is_prefill_chunk r)
    (discard_latest_async_tokens r) (streaming_queue r).
Definition with_num_computed_tokens (r : Request) (v0 : Z) : Request :=
  mkRequest
    (request_id r) (client_index r) (priority r) (object_id r) (sampling_params r)
    (pooling_params r) (lora_request r) (structured_output_request r) (arrival_time r)
    (status r) (stop_reason r) (max_tokens r) (prompt_token_ids r) (prompt_embeds r)
    (prompt_embeds_per_block_hashes r) (num_prompt_tokens r) (output_token_ids r)
    (all_token_ids r) (num_output_placeholders r) (spec_token_ids r) v0 (cache_salt r)
    (mm_features r) (num_cached_tokens r) (num_preemptions r)
    (num_external_computed_tokens r) (block_hashes r) (skip_reading_prefix_cache r)
    (resumable r) (events r) (num_nans_in_logits r) (is_prefill_chunk r)
    (discard_latest_async_tokens r) (streaming_queue r).
Definition with_spec_token_ids (r : Request) (v0 : list Z) : Request :=
  mkRequest
    (request_id r) (client_index r) (priority r) (object_id r) (sampling_params r)
    (pooling_params r) (lora_request r) (structured_output_request r) (arrival_time r)
    (status r) (stop_reason r) (max_tokens r) (prompt_token_ids r) (prompt_embeds r)
    (prompt_embeds_per_block_hashes r) (num_prompt_tokens r) (output_token_ids r)
    (all_token_ids r) (num_output_placeholders r) v0 (num_computed_tokens r)
    (cache_salt r) (mm_features r) (num_cached_tokens r) (num_preemptions r)
    (num_external_computed_tokens r) (block_hashes r) (skip_reading_prefix_cache r)
    (resumable r) (events r) (num_nans_in_logits r) (is_prefill_chunk r)
    (discard_latest_async_tokens r) (streaming_queue r).
Definition with_num_preemptions (r : Request) (v0 : Z) : Request :=
  mkRequest
    (request_id r) (client_index r) (priority r) (object_id r) (sampling_params r)
    (pooling_params r) (lora_request r) (structured_output_request r) (arrival_time r)
    (status r) (stop_reason r) (max_tokens r) (prompt_token_ids r) (prompt_embeds r)
    (prompt_embeds_per_block_hashes r) (num_prompt_tokens r) (output_token_ids r)
    (all_token_ids r) (num_output_placeholders r) (spec_token_ids r)
    (num_computed_tokens r) (cache_salt r) (mm_features r) (num_cached_tokens r) v0
    (num_external_computed_tokens r) (block_hashes r) (skip_reading_prefix_cache r)
    (resumable r) (events r) (num_nans_in_logits r) (is_prefill_chunk r)
    (discard_latest_async_tokens r) (streaming_queue r).
Definition with_events (r : Request) (v0 : list (EngineCoreEventType * Z)) : Request :=
  mkRequest
    (request_id r) (client_index r) (priority r) (object_id r) (sampling_params r)
    (pooling_params r) (lora_request r) (structured_output_request r) (arrival_time r)
    (status r) (stop_reason r) (max_tokens r) (prompt_token_ids r) (prompt_embeds r)
    (prompt_embeds_per_block_hashes r) (num_prompt_tokens r) (output_token_ids r)
    (all_token_ids r) (num_output_placeholders r) (spec_token_ids r)
    (num_computed_tokens r) (cache_salt r) (mm_features r) (num_cached_tokens r)
    (num_preemptions r) (num_external_computed_tokens r) (block_hashes r)
    (skip_reading_prefix_cache r) (resumable r) v0 (num_nans_in_logits r)
    (is_prefill_chunk r) (discard_latest_async_tokens r) (streaming_queue r).
Definition with_num_cached_tokens (r : Request) (v0 : Z) : Request :=
  mkRequest
    (request_id r) (client_index r) (priority r) (object_id r) (sampling_params r)
    (pooling_params r) (lora_request r) (structured_output_request r) (arrival_time r)
    (status r) (stop_reason r) (max_tokens r) (prompt_token_ids r) (prompt_embeds r)
    (prompt_embeds_per_block_hashes r) (num_prompt_tokens r) (output_token_ids r)
    (all_token_ids r) (num_output_placeholders r) (spec_token_ids r)
    (num_computed_tokens r) (cache_salt r) (mm_features r) v0 (num_preemptions r)
    (num_external_computed_tokens r) (block_hashes r) (skip_reading_prefix_cache r)
    (resumable r) (events r) (num_nans_in_logits r) (is_prefill_chunk r)
    (discard_latest_async_tokens r) (streaming_queue r).
Definition with_num_external_computed_tokens (r : Request) (v0 : Z) : Request :=
  mkRequest
    (request_id r) (client_index r) (priority r) (object_id r) (sampling_params r)
    (pooling_params r) (lora_request r) (structured_output_request r) (arrival_time r)
    (status r) (stop_reason r) (max_tokens r) (prompt_token_ids r) (prompt_embeds r)
    (prompt_embeds_per_block_hashes r) (num_prompt_tokens r) (output_token_ids r)
    (all_token_ids r) (num_output_placeholders r) (spec_token_ids r)
    (num_computed_tokens r) (cache_salt r) (mm_features r) (num_cached_tokens r)
    (num_preemptions r) v0 (block_hashes r) (skip_reading_prefix_cache r) (resumable r)
    (events r) (num_nans_in_logits r) (is_prefill_chunk r)
    (discard_latest_async_tokens r) (streaming_queue r).
Definition with_num_output_placeholders (r : Request) (v0 : Z) : Request :=
  mkRequest
    (request_id r) (client_index r) (priority r) (object_id r) (sampling_params r)
    (pooling_params r) (lora_request r) (structured_output_request r) (arrival_time r)
    (status r) (stop_reason r) (max_tokens r) (prompt_token_ids r) (prompt_embeds r)
    (prompt_embeds_per_block_hashes r) (num_prompt_tokens r) (output_token_ids r)
    (all_token_ids r) v0 (spec_token_ids r) (num_computed_tokens r) (cache_salt r)
    (mm_features r) (num_cached_tokens r) (num_preemptions r)
    (num_external_computed_tokens r) (block_hashes r) (skip_reading_prefix_cache r)
    (resumable r) (events r) (num_nans_in_logits r) (is_prefill_chunk r)
    (discard_latest_async_tokens r) (streaming_queue r).
Definition with_is_prefill_chunk (r : Request) (v0 : bool) : Request :=
  mkRequest
    (request_id r) (client_index r) (priority r) (object_id r) (sampling_params r)
    (pooling_params r) (lora_request r) (structured_output_request r) (arrival_time r)
    (status r) (stop_reason r) (max_tokens r) (prompt_token_ids r) (prompt_embeds r)
    (prompt_embeds_per_block_hashes r) (num_prompt_tokens r) (output_token_ids r)
    (all_token_ids r) (num_output_placeholders r) (spec_token_ids r)
    (num_computed_tokens r) (cache_salt r) (mm_features r) (num_cached_tokens r)
    (num_preemptions r) (num_external_computed_tokens r) (block_hashes r)
    (skip_reading_prefix_cache r) (resumable r) (events r) (num_nans_in_logits r) v0
    (discard_latest_async_tokens r) (streaming_queue r).
Definition with_num_nans_in_logits (r : Request) (v0 : Z) : Request :=
  mkRequest
    (request_id r) (client_index r) (priority r) (object_id r) (sampling_params r)
    (pooling_params r) (lora_request r) (structured_output_request r) (arrival_time r)
    (status r) (stop_reason r) (max_tokens r) (prompt_token_ids r) (prompt_embeds r)
    (prompt_embeds_per_block_hashes r) (num_prompt_tokens r) (output_token_ids r)
    (all_token_ids r) (num_output_placeholders r) (spec_token_ids r)
    (num_computed_tokens r) (cache_salt r) (mm_features r) (num_cached_tokens r)
    (num_preemptions r) (num_external_computed_tokens r) (block_hashes r)
    (skip_reading_prefix_cache r) (resumable r) (events r) v0 (is_prefill_chunk r)
    (discard_latest_async_tokens r) (streaming_queue r).
Definition with_discard_latest_async_tokens (r : Request) (v0 : bool) : Request :=
  mkRequest
    (request_id r) (client_index r) (priority r) (object_id r) (sampling_params r)
    (pooling_params r) (lora_request r) (structured_output_request r) (arrival_time r)
    (status r) (stop_reason r) (max_tokens r) (prompt_token_ids r) (prompt_embeds r)
    (prompt_embeds_per_block_hashes r) (num_prompt_tokens r) (output_token_ids r)
    (all_token_ids r) (num_output_placeholders r) (spec_token_ids r)
    (num_computed_tokens r) (cache_salt r) (mm_features r) (num_cached_tokens r)
    (num_preemptions r) (num_external_computed_tokens r) (block_hashes r)
    (skip_reading_prefix_cache r) (resumable r) (events r) (num_nans_in_logits r)
    (is_prefill_chunk r) v0 (streaming_queue r).
Definition with_streaming_queue (r : Request) (v0 : option (list (option StreamingUpdate))) : Request :=
  mkRequest
    (request_id r) (client_index r) (priority r) (object_id r) (sampling_params r)
    (pooling_params r) (lora_request r) (structured_output_request r) (arrival_time r)
    (status r) (stop_reason r) (max_tokens r) (prompt_token_ids r) (prompt_embeds r)
    (prompt_embeds_per_block_hashes r) (num_prompt_tokens r) (output_token_ids r)
    (all_token_ids r) (num_output_placeholders r) (spec_token_ids r)
    (num_computed_tokens r) (cache_salt r) (mm_features r) (num_cached_tokens r)
    (num_preemptions r) (num_external_computed_tokens r) (block_hashes r)
    (skip_reading_prefix_cache r) (resumable r) (events r) (num_nans_in_logits r)
    (is_prefill_chunk r) (discard_latest_async_tokens r) v0.
Definition with_mm_features (r : Request) (v0 : list MultiModalFeatureSpec) : Request :=
  mkRequest
    (request_id r) (client_index r) (priority r) (object_id r) (sampling_params r)
    (pooling_params r) (lora_request r) (structured_output_request r) (arrival_time r)
    (status r) (stop_reason r) (max_tokens r) (prompt_token_ids r) (prompt_embeds r)
    (prompt_embeds_per_block_hashes r) (num_prompt_tokens r) (output_token_ids r)
    (all_token_ids r) (num_output_placeholders r) (spec_token_ids r)
    (num_computed_tokens r) (cache_salt r) v0 (num_cached_tokens r) (num_preemptions r)
    (num_external_computed_tokens r) (block_hashes r) (skip_reading_prefix_cache r)
    (resumable r) (events r) (num_nans_in_logits r) (is_prefill_chunk r)
    (discard_latest_async_tokens r) (streaming_queue r).
Definition with_prompt (r : Request) (v0 : option (list Z)) (v1 : Z) : Request :=
  mkRequest
    (request_id r) (client_index r) (priority r) (object_id r) (sampling_params r)
    (pooling_params r) (lora_request r) (structured_output_request r) (arrival_time r)
    (status r) (stop_reason r) (max_tokens r) v0 (prompt_embeds r)
    (prompt_embeds_per_block_hashes r) v1 (output_token_ids r) (all_token_ids r)
    (num_output_placeholders r) (spec_token_ids r) (num_computed_tokens r)
    (cache_salt r) (mm_features r) (num_cached_tokens r) (num_preemptions r)
    (num_external_computed_tokens r) (block_hashes r) (skip_reading_prefix_cache r)
    (resumable r) (events r) (num_nans_in_logits r) (is_prefill_chunk r)
    (discard_latest_async_tokens r) (streaming_queue r).
Definition with_arrival (r : Request) (v0 : Z) (v1 : option SamplingParams) : Request :=
  mkRequest
    (request_id r) (client_index r) (priority r) (object_id r) v1 (pooling_params r)
    (lora_request r) (structured_output_request r) v0 (status r) (stop_reason r)
    (max_tokens r) (prompt_token_ids r) (prompt_embeds r)
    (prompt_embeds_per_block_hashes r) (num_prompt_tokens r) (output_token_ids r)
    (all_token_ids r) (num_output_placeholders r) (spec_token_ids r)
    (num_computed_tokens r) (cache_salt r) (mm_features r) (num_cached_tokens r)
    (num_preemptions r) (num_external_computed_tokens r) (block_hashes r)
    (skip_reading_prefix_cache r) (resumable r) (events r) (num_nans_in_logits r)
    (is_prefill_chunk r) (discard_latest_async_tokens r) (streaming_queue r).

#[export] Instance LoRARequest_eq_dec : EqDecision LoRARequest.
Proof. solve_decision. Defined.

Definition num_tokens (r : Request) : Z := zlen (all_token_ids r).
Definition num_tokens_with_spec (r : Request) : Z :=
  zlen (all_token_ids r) + zlen (spec_token_ids r).
Definition num_output_tokens (r : Request) : Z := zlen (output_token_ids r).
Definition num_encoder_inputs (r : Request) : Z := zlen (mm_features r).
Definition has_encoder_inputs (r : Request) : bool := 0 <? num_encoder_inputs r.
Definition is_finished (r : Request) : bool := status_is_finished (status r).

(** [PlaceholderRange.get_num_embeds]: the last entry of the mask's running sum. *)
Definition get_num_embeds (p : PlaceholderRange) : res Z :=
  match is_embed p with
  | None => Ok (pr_length p)
  | Some [] => Err IndexError
  | Some m => Ok (zlen (filter (λ b : bool, b = true) m))
  end.

Definition get_num_encoder_embeds (r : Request) (input_id : Z) : res Z :=
  ASSERT input_id <? zlen (mm_features r);
  f ← py_index (mm_features r) input_id;
  get_num_embeds (mm_position f).

Definition get_skip_reading_prefix_cache
    (sp : option SamplingParams) (pp : option PoolingParams) : bool :=
  match sp ≫= sp_skip_reading_prefix_cache with
  | Some b => b
  | None => default false (pp ≫= pp_skip_reading_prefix_cache)
  end.

Definition length_from_prompt_token_ids_or_embeds
    (ids : option (list Z)) (embeds : option (list bytes)) : res Z :=
  match ids, embeds with
  | None, None => Err ValueError
  | None, Some e => Ok (zlen e)
  | Some t, Some e => RAISE ValueError IF negb (zlen e =? zlen t); Ok (zlen t)
  | Some t, None => Ok (zlen t)
  end.

(** A block hasher: the hashes of the new full blocks; it may also fill the
    request's cache of prompt-embedding hashes. *)
Abbreviation block_hasher := (Request → res (list bytes * Request)).

Definition update_block_hashes (hasher : option block_hasher) (r : Request) : res Request :=
  match hasher with
  | None => Ok r
  | Some h => '(new, r) ← h r; Ok (with_block_hashes r (block_hashes r ++ new))
  end.

(** [append_output_token_ids]; a single token is the one-element list. *)
Definition append_output_token_ids (hasher : option block_hasher) (r : Request)
    (token_ids : list Z) : res Request :=
  let r := with_tokens r (output_token_ids r ++ token_ids) (all_token_ids r ++ token_ids) in
  update_block_hashes hasher r.

(** [Request.__init__], up to the call of [update_block_hashes]. *)
Definition request_fields (id : string) (oid : Z) (ids : option (list Z))
    (sp : option SamplingParams) (pp : option PoolingParams) (client arrival prio : Z)
    (embeds : option (list bytes)) (mm : option (list MultiModalFeatureSpec))
    (lora : option LoRARequest) (salt : option string) (resum : bool) : res Request :=
  let structured := default false (sp_structured <$> sp) in
  '(max_tok, st) ←
    match pp, sp with
    | Some _, _ => Ok (1, WAITING)
    | None, Some sp =>
        match sp_max_tokens sp with
        | None => Err AssertionError
        | Some m => Ok (m, if structured then WAITING_FOR_STRUCTURED_OUTPUT_GRAMMAR else WAITING)
        end
    | None, None => Err ValueError
    end;
  n ← length_from_prompt_token_ids_or_embeds ids embeds;
  Ok (mkRequest id client prio oid sp pp lora structured arrival st None max_tok ids embeds
        ∅ n [] (match ids with Some t => t | None => zreplicate n 0 end) 0 [] 0 salt
        (default [] mm) (-1) 0 0 [] (get_skip_reading_prefix_cache sp pp) resum [] 0 false false None).

Definition new_request (hasher : option block_hasher) (id : string) (oid : Z)
    (ids : option (list Z)) (sp : option SamplingParams) (pp : option PoolingParams)
    (client arrival prio : Z) (embeds : option (list bytes))
    (mm : option (list MultiModalFeatureSpec)) (lora : option LoRARequest)
    (salt : option string) (resum : bool) : res Request :=
  r ← request_fields id oid ids sp pp client arrival prio embeds mm lora salt resum;
  update_block_hashes hasher r.

(** [Request.__lt__] *)
Definition request_lt (a b : Request) : bool :=
  if negb (priority a =? priority b) then priority a <? priority b
  else if negb (arrival_time a =? arrival_time b) then arrival_time a <? arrival_time b
  else if negb (String.eqb (request_id a) (request_id b)) then
    String.ltb (request_id a) (request_id b)
  else object_id a <? object_id b.

(** ** Events and streaming *)

Definition record_event (r : Request) (t : EngineCoreEventType) (timestamp : Z) : Request :=
  with_events r (events r ++ [(t, timestamp)]).

Definition take_request_events (r : Request) : option (list (EngineCoreEventType * Z)) * Request :=
  match events r with
  | [] => (None, r)
  | l => (Some l, with_events r [])
  end.

Definition use_structured_output (r : Request) : bool := structured_output_request r.

(** [StreamingUpdate.from_request] *)
Definition update_from_request (r : Request) : option StreamingUpdate :=
  if negb (resumable r) then None
  else Some (mkUpdate (Some (mm_features r)) (prompt_token_ids r) (max_tokens r) (arrival_time r)
               (sampling_params r)).
