(* ===== verification/BlockHash.v ===== *)
(** * Block hashes

    The prefix-cache keys of vllm/v1/core/kv_cache_utils.py: packing a block
    hash with its group id, the extra keys of a block, the hash chain of a
    request and the view of a hash list at a coarser block size. *)

From stdpp Require Import sorting.
From S2P Require Import Prelude Request.

(** ** Group-tagged keys *)

(** [int.to_bytes(n, "big", signed=False)] *)
Fixpoint be_encode (n : nat) (v : Z) : bytes :=
  match n with
  | O => []
  | S n => be_encode n (v / 256) ++ [v `mod` 256]
  end.
Definition to_bytes (n : nat) (v : Z) : res bytes :=
  RAISE OverflowError IF (v <? 0) || (256 ^ Z.of_nat n <=? v);
  Ok (be_encode n v).

(** [int.from_bytes(b, "big", signed=False)] *)
Definition from_bytes (b : bytes) : Z := fold_left (λ acc x, acc * 256 + x) b 0.

Definition make_block_hash_with_group_id (block_hash : bytes) (group_id : Z) : res bytes :=
  g ← to_bytes 4 group_id;
  Ok (block_hash ++ g).

Definition get_block_hash (key : bytes) : bytes := py_upto key (-4).
Definition get_group_id (key : bytes) : Z := from_bytes (py_from key (-4)).

Inductive ExternalBlockHash :=
  | HashBytes (b : bytes)
  | HashInt (n : Z).

(** [use_int] is [envs.VLLM_KV_EVENTS_USE_INT_BLOCK_HASHES]. *)
Definition maybe_convert_block_hash (use_int : bool) (hash_bytes : bytes) : ExternalBlockHash :=
  if negb use_int then HashBytes hash_bytes
  else HashInt (Z.land (from_bytes hash_bytes) (Z.shiftl 1 64 - 1)).

(** ** Extra keys *)

(** The members of the extra-key tuple: a LoRA name or a cache salt, an
    identifier with its offset in the block, a digest of prompt embeddings. *)
Inductive ExtraKey :=
  | KStr (s : string)
  | KMM (identifier : string) (off : Z)
  | KBytes (b : bytes).

#[export] Instance ExtraKey_eq_dec : EqDecision ExtraKey.
Proof. solve_decision. Defined.

(** What is hashed for a block: parent hash, tokens, extra keys. *)
Definition hash_input : Type := bytes * list Z * option (list ExtraKey).

Definition need_extra_keys (r : Request) : bool :=
  negb (bool_decide (mm_features r = [])) || bool_decide (is_Some (lora_request r))
  || bool_decide (is_Some (cache_salt r)).

Definition feat_start (f : MultiModalFeatureSpec) : Z := pr_offset (mm_position f).
Definition feat_end (f : MultiModalFeatureSpec) : Z :=
  pr_offset (mm_position f) + pr_length (mm_position f).

(** The loop of [_gen_mm_extra_hash_keys], over the features from the current
    index on. *)
Fixpoint mm_loop (start_token_idx end_token_idx : Z) (feats : list MultiModalFeatureSpec)
    (curr_mm_idx : Z) (extra_keys : list ExtraKey) : res (list ExtraKey * Z) :=
  match feats with
  | [] => Ok (extra_keys, curr_mm_idx)
  | f :: feats =>
      match identifier f with
      | None => Err AssertionError
      | Some ident =>
          if feat_start f <? end_token_idx then
            if feat_end f <=? start_token_idx then
              mm_loop start_token_idx end_token_idx feats (curr_mm_idx + 1) extra_keys
            else
              let extra_keys := extra_keys ++ [KMM ident (feat_start f - start_token_idx)] in
              if feat_end f <=? end_token_idx then
                mm_loop start_token_idx end_token_idx feats (curr_mm_idx + 1) extra_keys
              else Ok (extra_keys, curr_mm_idx)
          else Ok (extra_keys, curr_mm_idx)
      end
  end.

Definition gen_mm_extra_hash_keys (r : Request) (start_token_idx end_token_idx start_mm_idx : Z)
    : res (list ExtraKey * Z) :=
  match last (mm_features r) with
  | None => Ok ([], start_mm_idx)
  | Some last_f =>
      if feat_end last_f <=? start_token_idx then Ok ([], start_mm_idx) else
      idx ← (if start_mm_idx <? 0 then
               ASSERT - start_mm_idx <=? zlen (mm_features r);
               Ok (zlen (mm_features r) + start_mm_idx)
             else Ok start_mm_idx);
      mm_loop start_token_idx end_token_idx (drop (Z.to_nat idx) (mm_features r)) idx []
  end.

Definition gen_lora_extra_hash_keys (r : Request) : list ExtraKey :=
  match lora_request r with None => [] | Some l => [KStr (lora_name l)] end.

(** [if start_token_idx == 0 and request.cache_salt]: an empty salt adds no key. *)
Definition cache_salt_keys (r : Request) (start_token_idx : Z) : list ExtraKey :=
  match cache_salt r with
  | Some s => if (start_token_idx =? 0) && negb (String.eqb s "") then [KStr s] else []
  | None => []
  end.

Section hashing.
(** [sha256] is [hashlib.sha256(...).digest()]; [hash_fn] the configured
    [caching_hash_fn]; [NONE_HASH] the seed chosen by [init_none_hash]. *)
Context (sha256 : bytes → bytes) (hash_fn : hash_input → bytes) (NONE_HASH : bytes).

(** The digest of the bytes of the rows [start:end]. *)
Definition embeds_digest (embeds : list bytes) (start_token_idx end_token_idx : Z) : bytes :=
  sha256 (concat (py_slice embeds start_token_idx end_token_idx)).

(** Fills the request's per-block cache of digests. *)
Definition gen_prompt_embeds_extra_hash_keys (r : Request) (start_token_idx end_token_idx : Z)
    : list ExtraKey * Request :=
  match prompt_embeds r with
  | None => ([], r)
  | Some embeds =>
      match prompt_embeds_per_block_hashes r !! (start_token_idx, end_token_idx) with
      | Some h => ([KBytes h], r)
      | None =>
          let h := embeds_digest embeds start_token_idx end_token_idx in
          ([KBytes h],
           with_embed_hashes r
             (<[(start_token_idx, end_token_idx) := h]> (prompt_embeds_per_block_hashes r)))
      end
  end.

Definition generate_block_hash_extra_keys (r : Request)
    (start_token_idx end_token_idx start_mm_idx : Z)
    : res (option (list ExtraKey) * Z * Request) :=
  '(mm_keys, new_start_mm_idx) ←
    gen_mm_extra_hash_keys r start_token_idx end_token_idx start_mm_idx;
  let lora_keys := gen_lora_extra_hash_keys r in
  let salt_keys := cache_salt_keys r start_token_idx in
  let '(embeds_keys, r) :=
    gen_prompt_embeds_extra_hash_keys r start_token_idx end_token_idx in
  let extra_keys := lora_keys ++ mm_keys ++ salt_keys ++ embeds_keys in
  match extra_keys with
  | [] => Ok (None, new_start_mm_idx, r)
  | _ => Ok (Some extra_keys, new_start_mm_idx, r)
  end.

(** [if not parent_block_hash]: [None] and the empty byte string. *)
Definition parent_or_none (parent_block_hash : option bytes) : bytes :=
  match parent_block_hash with
  | None | Some [] => NONE_HASH
  | Some h => h
  end.

Definition hash_block_tokens (parent_block_hash : option bytes) (curr_block_token_ids : list Z)
    (extra_keys : option (list ExtraKey)) : bytes :=
  hash_fn (parent_or_none parent_block_hash, curr_block_token_ids, extra_keys).

(** The [while True] loop of [request_block_hasher], at most [fuel] turns. *)
Fixpoint hasher_loop (fuel : nat) (block_size num_tokens : Z) (r : Request)
    (start_token_idx curr_mm_idx : Z) (prev : option bytes) (new : list bytes)
    : res (list bytes * Request) :=
  match fuel with
  | O => Err OutOfFuel
  | S fuel =>
      let end_token_idx := start_token_idx + block_size in
      if num_tokens <? end_token_idx then Ok (new, r) else
      '(extra_keys, curr_mm_idx, r) ←
        generate_block_hash_extra_keys r start_token_idx end_token_idx curr_mm_idx;
      let block_tokens := py_slice (all_token_ids r) start_token_idx end_token_idx in
      let block_hash := hash_block_tokens prev block_tokens extra_keys in
      hasher_loop fuel block_size num_tokens r end_token_idx curr_mm_idx
        (Some block_hash) (new ++ [block_hash])
  end.

(** The closure [get_request_block_hasher] returns.  Each turn of the loop
    consumes a block of tokens, so the number of tokens bounds the turns. *)
Definition request_block_hasher (block_size : Z) (r : Request) : res (list bytes * Request) :=
  let start_token_idx := zlen (block_hashes r) * block_size in
  let num_tokens := num_tokens r in
  if num_tokens <? start_token_idx + block_size then Ok ([], r) else
  let curr_mm_idx := if 0 <? start_token_idx then -1 else 0 in
  hasher_loop (S (Z.to_nat num_tokens)) block_size num_tokens r start_token_idx curr_mm_idx
    (last (block_hashes r)) [].
End hashing.

(** ** Coarser block sizes *)

Record BlockHashListWithBlockSize := mkHashList {
  bh_list : list bytes;
  scale_factor : Z;
}.

Definition hash_list_init (hashes : list bytes) (hash_block_size target_block_size : Z)
    : res BlockHashListWithBlockSize :=
  RAISE ZeroDivisionError IF hash_block_size =? 0;
  ASSERT target_block_size `mod` hash_block_size =? 0;
  Ok (mkHashList hashes (target_block_size / hash_block_size)).

Definition hash_list_len (l : BlockHashListWithBlockSize) : res Z :=
  RAISE ZeroDivisionError IF scale_factor l =? 0;
  Ok (zlen (bh_list l) / scale_factor l).

(** [_get_value_at]: the concatenation of [scale_factor] consecutive hashes. *)
Definition get_value_at (l : BlockHashListWithBlockSize) (idx : Z) : res bytes :=
  let base := idx * scale_factor l in
  let end_ := base + scale_factor l in
  merged ← py_index (bh_list l) base;
  rfold (λ acc i, h ← py_index (bh_list l) i; Ok (acc ++ h)) merged (zrange (base + 1) end_).

(** [__iter__] run to its end. *)
Definition hash_list_iter (l : BlockHashListWithBlockSize) : res (list bytes) :=
  n ← hash_list_len l;
  rmap (get_value_at l) (zrange 0 n).

(** [__getitem__] on a slice [a:b] of step 1; the bounds are normalised by
    [slice.indices]. *)
Definition hash_list_slice (l : BlockHashListWithBlockSize) (a b : Z) : res (list bytes) :=
  n ← hash_list_len l;
  rmap (get_value_at l) (zrange (py_clamp n a) (py_clamp n b)).

(** [BlockHashList]: a plain list or a coarser view of one. *)
Inductive BlockHashList :=
  | PlainHashes (l : list bytes)
  | ScaledHashes (l : BlockHashListWithBlockSize).

Definition bhl_len (l : BlockHashList) : res Z :=
  match l with PlainHashes l => Ok (zlen l) | ScaledHashes l => hash_list_len l end.
Definition bhl_get (l : BlockHashList) (i : Z) : res bytes :=
  match l with PlainHashes l => py_index l i | ScaledHashes l => get_value_at l i end.
(** [l[a:]] *)
Definition bhl_from (l : BlockHashList) (a : Z) : res (list bytes) :=
  match l with
  | PlainHashes l => Ok (py_from l a)
  | ScaledHashes l => n ← hash_list_len l; hash_list_slice l a n
  end.
(** Iteration over the whole list. *)
Definition bhl_iter (l : BlockHashList) : res (list bytes) :=
  match l with PlainHashes l => Ok l | ScaledHashes l => hash_list_iter l end.

(** ** Packing and unpacking *)

Lemma length_be_encode n v : length (be_encode n v) = n.
Proof. revert v. induction n; intros v; cbn; [done|]. rewrite length_app, IHn. cbn. lia. Qed.

Lemma from_bytes_snoc b x : from_bytes (b ++ [x]) = from_bytes b * 256 + x.
Proof. unfold from_bytes. by rewrite fold_left_app. Qed.

Lemma from_be_encode n v : 0 ≤ v < 256 ^ Z.of_nat n → from_bytes (be_encode n v) = v.
Proof.
  revert v. induction n as [|n IH]; intros v Hv.
  - cbn in Hv |- *. lia.
  - cbn [be_encode]. rewrite from_bytes_snoc, IH.
    + pose proof (Z.div_mod v 256). lia.
    + rewrite Nat2Z.inj_succ, Z.pow_succ_r in Hv by lia. split.
      * apply Z.div_pos; lia.
      * apply Z.div_lt_upper_bound; lia.
Qed.

Lemma to_bytes_Ok n v b : to_bytes n v = Ok b ↔ 0 ≤ v < 256 ^ Z.of_nat n ∧ b = be_encode n v.
Proof.
  unfold to_bytes. destruct ((_ <? _) || _) eqn:E.
  - apply orb_true_iff in E as [E|E]; to_prop; split; [done|lia|done|lia].
  - to_prop. naive_solver lia.
Qed.

Lemma py_upto_app {A} (l k : list A) n :
  n = - zlen k → n < 0 → py_upto (l ++ k) n = l ∧ py_from (l ++ k) n = k.
Proof.
  intros -> Hn. pose proof (zlen_nonneg l). unfold py_upto, py_from, py_clamp.
  rewrite (proj2 (Z.ltb_lt _ _)), zlen_app by lia.
  replace (Z.max 0 (zlen l + zlen k + - zlen k)) with (zlen l) by lia.
  unfold zlen. rewrite Nat2Z.id. by rewrite take_app_length, drop_app_length.
Qed.

Lemma make_key_inv h g k :
  make_block_hash_with_group_id h g = Ok k ↔ 0 ≤ g < 2 ^ 32 ∧ k = h ++ be_encode 4 g.
Proof.
  unfold make_block_hash_with_group_id. rewrite bind_Ok. setoid_rewrite to_bytes_Ok.
  change (256 ^ Z.of_nat 4) with (2 ^ 32). naive_solver.
Qed.

Lemma make_key_total h g :
  0 ≤ g < 2 ^ 32 → make_block_hash_with_group_id h g = Ok (h ++ be_encode 4 g).
Proof. intros. by apply make_key_inv. Qed.

Lemma unpack_key h g :
  0 ≤ g < 2 ^ 32 →
  get_block_hash (h ++ be_encode 4 g) = h ∧ get_group_id (h ++ be_encode 4 g) = g.
Proof.
  intros Hg. unfold get_block_hash, get_group_id.
  destruct (py_upto_app h (be_encode 4 g) (-4)) as [-> ->].
  - unfold zlen. by rewrite length_be_encode.
  - lia.
  - split; [done|]. by apply from_be_encode.
Qed.

(** Packing a block hash with a group id and unpacking the key gives both
    back, and packing raises [OverflowError] exactly when the group id does not
    fit in four unsigned bytes. *)
Theorem pack_unpack (h : bytes) (g : Z) :
  match make_block_hash_with_group_id h g with
  | Ok k => 0 ≤ g < 2 ^ 32 ∧ get_block_hash k = h ∧ get_group_id k = g ∧ zlen k = zlen h + 4
  | Err e => e = OverflowError ∧ ¬ (0 ≤ g < 2 ^ 32)
  end.
Proof.
  destruct (make_block_hash_with_group_id h g) as [k|e] eqn:E.
  - apply make_key_inv in E as [Hg ->]. destruct (unpack_key h g Hg) as [-> ->].
    split_and!; [lia..|done|done|]. rewrite zlen_app. unfold zlen. by rewrite length_be_encode.
  - unfold make_block_hash_with_group_id, to_bytes in E.
    destruct ((_ <? _) || _) eqn:Eb; [|done]. cbn in E. injection E as <-. split; [done|].
    change (2 ^ 32) with (256 ^ Z.of_nat 4).
    apply orb_true_iff in Eb as [Eb|Eb]; to_prop; lia.
Qed.

(** Keys of different groups or hashes never coincide. *)
Lemma make_key_inj h1 g1 h2 g2 k :
  make_block_hash_with_group_id h1 g1 = Ok k →
  make_block_hash_with_group_id h2 g2 = Ok k → h1 = h2 ∧ g1 = g2.
Proof.
  intros [Hg1 ->]%make_key_inv [Hg2 E]%make_key_inv.
  destruct (unpack_key h1 g1 Hg1), (unpack_key h2 g2 Hg2). split; congruence.
Qed.

(** ** Coarser block sizes *)

Lemma merge_fold hs n a acc :
  0 ≤ a → a + Z.of_nat n ≤ zlen hs →
  rfold (λ (acc : bytes) i, h ← py_index hs i; Ok (acc ++ h)) acc (zrange a (a + Z.of_nat n))
    = Ok (acc ++ concat (take n (drop (Z.to_nat a) hs))).
Proof.
  revert a acc. induction n as [|n IH]; intros a acc Ha Hlen.
  { rewrite zrange_nil by lia. cbn. by rewrite app_nil_r. }
  rewrite zrange_cons by lia. cbn [rfold].
  destruct (lookup_lt_is_Some_2 hs (Z.to_nat a)) as [h Eh]; [unfold zlen in Hlen; lia|].
  rewrite (bind_Ok_l _ _ (acc ++ h)).
  2: { rewrite (proj2 (py_index_nonneg _ _ h Ha) Eh). done. }
  replace (a + Z.of_nat (S n)) with (a + 1 + Z.of_nat n) by lia. rewrite IH by lia.
  rewrite (drop_S _ _ _ Eh). cbn. replace (Z.to_nat (a + 1)) with (S (Z.to_nat a)) by lia.
  by rewrite <- app_assoc.
Qed.

Lemma get_value_at_spec hs (n : nat) idx :
  (0 < n)%nat → 0 ≤ idx → (idx + 1) * Z.of_nat n ≤ zlen hs →
  get_value_at (mkHashList hs (Z.of_nat n)) idx
    = Ok (concat (take n (drop (Z.to_nat (idx * Z.of_nat n)) hs))).
Proof.
  intros Hn Hi Hlen. unfold get_value_at. cbn. set (base := idx * Z.of_nat n).
  destruct (lookup_lt_is_Some_2 hs (Z.to_nat base)) as [h Eh]; [unfold zlen, base in *; nia|].
  rewrite (bind_Ok_l _ _ h) by (apply py_index_nonneg; [nia|done]).
  replace (base + Z.of_nat n) with (base + 1 + Z.of_nat (n - 1)) by lia.
  rewrite merge_fold by nia. rewrite (drop_S _ _ _ Eh). destruct n as [|n]; [lia|]. cbn.
  rewrite Nat.sub_0_r. by replace (Z.to_nat (base + 1)) with (S (Z.to_nat base)) by nia.
Qed.

(** The reference view: whole groups of [n] consecutive hashes, concatenated. *)
Definition merged_hashes (n : nat) (hs : list bytes) : list bytes :=
  (λ i, concat (take n (drop (i * n) hs))) <$> seq 0 (length hs / n).

Lemma hash_list_iter_spec hs (n : nat) :
  (0 < n)%nat → hash_list_iter (mkHashList hs (Z.of_nat n)) = Ok (merged_hashes n hs).
Proof.
  intros Hn. unfold hash_list_iter, hash_list_len. cbn.
  rewrite (proj2 (Z.eqb_neq _ _)) by lia. cbn. unfold zlen. rewrite <- Nat2Z.inj_div.
  rewrite (rmap_Ok _ (λ i, concat (take n (drop (Z.to_nat (i * Z.of_nat n)) hs)))).
  - f_equal. unfold merged_hashes, zrange. rewrite Z.sub_0_r, Nat2Z.id, <- list_fmap_compose.
    apply list_fmap_ext. intros ? i _. cbn. by replace (Z.to_nat _) with (i * n)%nat by lia.
  - intros i Hi%elem_of_zrange. apply get_value_at_spec; [done|lia|].
    pose proof (Nat.Div0.mul_div_le (length hs) n). unfold zlen. nia.
Qed.

(** What a client may assume of a hash list that stands for the hashes [L]. *)
Record bhl_views (v : BlockHashList) (L : list bytes) : Prop := {
  bv_len : bhl_len v = Ok (zlen L);
  bv_get : ∀ (i : nat) h, L !! i = Some h → bhl_get v (Z.of_nat i) = Ok h;
  bv_from : ∀ a, 0 ≤ a → bhl_from v a = Ok (drop (Z.to_nat a) L);
  bv_iter : bhl_iter v = Ok L;
}.

Lemma plain_views L : bhl_views (PlainHashes L) L.
Proof.
  split; cbn; [done| | |done].
  - intros i h Hi. apply py_index_nonneg; [lia|]. by rewrite Nat2Z.id.
  - intros a Ha. by rewrite py_from_nonneg.
Qed.

Lemma length_merged n hs : length (merged_hashes n hs) = (length hs / n)%nat.
Proof. unfold merged_hashes. by rewrite length_fmap, length_seq. Qed.

Lemma scaled_len hs (n : nat) :
  (0 < n)%nat → hash_list_len (mkHashList hs (Z.of_nat n)) = Ok (zlen (merged_hashes n hs)).
Proof.
  intros. unfold hash_list_len. cbn. rewrite (proj2 (Z.eqb_neq _ _)) by lia.
  unfold zlen. by rewrite length_merged, Nat2Z.inj_div.
Qed.

Lemma scaled_get hs (n i : nat) h :
  (0 < n)%nat → merged_hashes n hs !! i = Some h →
  get_value_at (mkHashList hs (Z.of_nat n)) (Z.of_nat i) = Ok h.
Proof.
  intros Hn Hi. apply list_lookup_fmap_Some in Hi as (j & -> & [-> Hj]%lookup_seq).
  pose proof (Nat.Div0.mul_div_le (length hs) n).
  rewrite get_value_at_spec; [|done|lia|unfold zlen; nia].
  by replace (Z.to_nat (Z.of_nat i * Z.of_nat n)) with ((0 + i) * n)%nat by lia.
Qed.

(** Reading consecutive entries through an indexed reader gives the sublist. *)
Lemma rmap_zrange_lookup {A} (f : Z → res A) (L : list A) a :
  (∀ (i : nat) x, L !! i = Some x → f (Z.of_nat i) = Ok x) → 0 ≤ a →
  rmap f (zrange a (zlen L)) = Ok (drop (Z.to_nat a) L).
Proof.
  intros Hf Ha. remember (Z.to_nat (zlen L - a)) as k eqn:Ek. revert a Ha Ek.
  induction k as [|k IH]; intros a Ha Ek.
  - rewrite zrange_nil by lia. rewrite drop_ge by (unfold zlen in Ek; lia). done.
  - rewrite zrange_cons by lia. cbn [rmap].
    destruct (lookup_lt_is_Some_2 L (Z.to_nat a)) as [x Ex]; [unfold zlen in Ek; lia|].
    rewrite <- (Z2Nat.id a) at 1 by lia. rewrite (Hf _ _ Ex). cbn.
    rewrite IH by lia. cbn. rewrite (drop_S _ _ _ Ex).
    by replace (Z.to_nat (a + 1)) with (S (Z.to_nat a)) by lia.
Qed.

Lemma scaled_views hs (n : nat) :
  (0 < n)%nat → bhl_views (ScaledHashes (mkHashList hs (Z.of_nat n))) (merged_hashes n hs).
Proof.
  intros Hn. split; cbn.
  - by apply scaled_len.
  - intros i h. by apply scaled_get.
  - intros a Ha. unfold hash_list_slice. rewrite scaled_len by done. cbn.
    set (L := merged_hashes n hs). pose proof (zlen_nonneg L).
    assert (py_clamp (zlen L) (zlen L) = zlen L) as ->
      by (unfold py_clamp; destruct (Z.ltb_spec (zlen L) 0); lia).
    rewrite rmap_zrange_lookup.
    + unfold py_clamp. rewrite (proj2 (Z.ltb_ge _ _)) by lia. f_equal.
      destruct (decide (a ≤ zlen L)); [by rewrite Z.min_l by lia|].
      rewrite Z.min_r by lia. unfold zlen in *. rewrite !drop_ge by lia. done.
    + intros i h. by apply scaled_get.
    + unfold py_clamp. rewrite (proj2 (Z.ltb_ge _ _)) by lia. lia.
  - by apply hash_list_iter_spec.
Qed.

(** The coarser view of a hash list is the list of its whole groups of
    [target_block_size / hash_block_size] consecutive hashes, concatenated: the
    iterator yields them all, its length is their number and indexing agrees
    with it; a target size that is not a multiple is refused. *)
Theorem hash_list_with_block_size hs hash_bs target_bs :
  0 < hash_bs → 0 < target_bs →
  match hash_list_init hs hash_bs target_bs with
  | Ok l =>
      let n := Z.to_nat (target_bs / hash_bs) in
      hash_list_iter l = Ok (merged_hashes n hs)
      ∧ hash_list_len l = Ok (zlen (merged_hashes n hs))
      ∧ ∀ i h, merged_hashes n hs !! i = Some h → get_value_at l (Z.of_nat i) = Ok h
  | Err e => e = AssertionError ∧ target_bs `mod` hash_bs ≠ 0
  end.
Proof.
  intros Hh Ht. unfold hash_list_init. rewrite (proj2 (Z.eqb_neq _ _)) by lia.
  destruct (Z.eqb_spec (target_bs `mod` hash_bs) 0) as [Hm|Hm]; [|done].
  apply Z.div_exact in Hm; [|lia]. set (q := target_bs / hash_bs) in *.
  assert (0 < q) by nia. rewrite <- (Z2Nat.id q) by lia. rewrite Nat2Z.id.
  set (n := Z.to_nat q). assert (0 < n)%nat by lia. cbv zeta. split_and!.
  - by apply hash_list_iter_spec.
  - by apply scaled_len.
  - intros i h. by apply scaled_get.
Qed.

Lemma hash_list_with_block_size_witness :
  hash_list_iter (mkHashList [[1]; [2]; [3]; [4]; [5]] 2) = Ok [[1; 2]; [3; 4]].
Proof.
  exact (proj1 (hash_list_with_block_size [[1]; [2]; [3]; [4]; [5]] 16 32
    ltac:(reflexivity) ltac:(reflexivity))).
Defined.

(** ** The hash chain

    The reference: block [i] of a request is hashed from the hash of block
    [i - 1], its tokens and the keys of everything that affects its content. *)

Abbreviation content := (list Z * option (list ExtraKey))%type.

(** The multi-modal inputs that overlap the tokens [s, e). *)
Definition mm_keys (feats : list MultiModalFeatureSpec) (s e : Z) : list ExtraKey :=
  (λ f, KMM (default EmptyString (identifier f)) (feat_start f - s)) <$>
    filter (λ f, feat_start f < e ∧ s < feat_end f) feats.

(** The features are disjoint and ordered by position, and have identifiers. *)
Record mm_wf (feats : list MultiModalFeatureSpec) : Prop := {
  mm_order : StronglySorted (λ f g, feat_end f ≤ feat_start g) feats;
  mm_len : Forall (λ f, feat_start f ≤ feat_end f) feats;
  mm_ids : Forall (λ f, is_Some (identifier f)) feats;
}.

Lemma mm_wf_cons f feats : mm_wf (f :: feats) →
  mm_wf feats ∧ Forall (λ g, feat_end f ≤ feat_start g) feats ∧ feat_start f ≤ feat_end f
  ∧ is_Some (identifier f).
Proof.
  intros [Ho Hl Hi]. apply StronglySorted_inv in Ho as [Ho Hf].
  apply Forall_cons in Hl as [? Hl]. apply Forall_cons in Hi as [? Hi]. by repeat split.
Qed.

Lemma mm_wf_drop k feats : mm_wf feats → mm_wf (drop k feats).
Proof.
  revert k. induction feats as [|f feats IH]; intros [|k] H; cbn; [done..|].
  by apply IH, (mm_wf_cons f).
Qed.

Lemma mm_keys_none feats s e :
  Forall (λ f, e ≤ feat_start f ∨ feat_end f ≤ s) feats → mm_keys feats s e = [].
Proof.
  unfold mm_keys. induction 1 as [|f feats Hf _ IH]; [done|].
  rewrite filter_cons_False by lia. done.
Qed.

Lemma mm_keys_cons f feats s e :
  mm_keys (f :: feats) s e =
    (if decide (feat_start f < e ∧ s < feat_end f)
     then [KMM (default EmptyString (identifier f)) (feat_start f - s)] else [])
    ++ mm_keys feats s e.
Proof. unfold mm_keys. rewrite filter_cons. by case_decide. Qed.

Lemma mm_keys_app l k s e : mm_keys (l ++ k) s e = mm_keys l s e ++ mm_keys k s e.
Proof. unfold mm_keys. by rewrite filter_app, fmap_app. Qed.

(** The loop collects the overlapping inputs and stops at an index before which
    every input has ended. *)
Lemma mm_loop_spec s e feats idx acc :
  mm_wf feats →
  ∃ k, mm_loop s e feats idx acc = Ok (acc ++ mm_keys feats s e, idx + Z.of_nat k)
    ∧ Forall (λ f, feat_end f ≤ Z.max s e) (take k feats).
Proof.
  revert idx acc. induction feats as [|f feats IH]; intros idx acc Hwf.
  { exists 0%nat. cbn. rewrite app_nil_r, Z.add_0_r. by split. }
  apply mm_wf_cons in Hwf as (Hwf & Hafter & Hlen & [ident Eid]).
  cbn [mm_loop]. rewrite Eid, mm_keys_cons, Eid. cbn [default from_option].
  destruct (Z.ltb_spec (feat_start f) e) as [Hs|Hs].
  2: { exists 0%nat. rewrite decide_False by lia. rewrite mm_keys_none; cbn.
       - rewrite app_nil_r, Z.add_0_r. by split.
       - eapply Forall_impl; [exact Hafter|]. cbn. intros. lia. }
  destruct (Z.leb_spec (feat_end f) s) as [He|He].
  { rewrite decide_False by lia. destruct (IH (idx + 1) acc Hwf) as (k & -> & Hk).
    exists (S k). cbn. split; [do 2 f_equal; lia|]. constructor; [lia|done]. }
  rewrite decide_True by lia. destruct (Z.leb_spec (feat_end f) e) as [Hee|Hee].
  - destruct (IH (idx + 1) (acc ++ [KMM ident (feat_start f - s)]) Hwf) as (k & -> & Hk).
    exists (S k). rewrite <- app_assoc. split; [do 2 f_equal; lia|].
    cbn. constructor; [lia|done].
  - exists 0%nat. rewrite mm_keys_none; cbn; [rewrite Z.add_0_r; by split|].
    eapply Forall_impl; [exact Hafter|]. cbn. intros. lia.
Qed.

(** The features before the (possibly negative) index have ended by [s]. *)
Definition mm_ready (feats : list MultiModalFeatureSpec) (s idx : Z) : Prop :=
  feats = [] ∨
  (- zlen feats ≤ idx ∧
   Forall (λ f, feat_end f ≤ s)
     (take (Z.to_nat (if idx <? 0 then zlen feats + idx else idx)) feats)).

Lemma mm_sorted_last feats f g :
  mm_wf feats → last feats = Some f → g ∈ feats → feat_end g ≤ feat_end f.
Proof.
  intros Hwf. induction feats as [|x feats IH]; [done|].
  apply mm_wf_cons in Hwf as (Hwf & Hafter & Hlen & _).
  destruct feats as [|y feats].
  - cbn. intros [= ->] ->%list_elem_of_singleton. done.
  - intros Hl [->|Hg]%elem_of_cons; [|by apply IH].
    rewrite last_cons_cons in Hl. apply last_Some_elem_of in Hl.
    rewrite Forall_forall in Hafter. apply Hafter in Hl as ?.
    destruct Hwf as [_ Hle _]. rewrite Forall_forall in Hle. apply Hle in Hl. lia.
Qed.

Lemma gen_mm_spec r s e idx :
  mm_wf (mm_features r) → mm_ready (mm_features r) s idx → s ≤ e →
  ∃ idx', gen_mm_extra_hash_keys r s e idx = Ok (mm_keys (mm_features r) s e, idx')
    ∧ mm_ready (mm_features r) e idx'.
Proof.
  intros Hwf Hr Hse. unfold gen_mm_extra_hash_keys.
  destruct (last (mm_features r)) as [lf|] eqn:El.
  2: { apply last_None in El. rewrite El. exists idx. split; [done|by left]. }
  destruct Hr as [Hr|[Hidx Hr]]; [by rewrite Hr in El|].
  destruct (Z.leb_spec (feat_end lf) s) as [He|He].
  { exists idx. rewrite mm_keys_none.
    - split; [done|]. right. split; [done|]. eapply Forall_impl; [exact Hr|]. cbn. lia.
    - apply Forall_forall. intros f Hf. right.
      pose proof (mm_sorted_last _ _ _ Hwf El Hf). lia. }
  set (j := if idx <? 0 then zlen (mm_features r) + idx else idx) in *.
  assert (0 ≤ j) by (unfold j; destruct (Z.ltb_spec idx 0); lia).
  replace (if idx <? 0 then _ else _) with (Ok j).
  2: { unfold j. destruct (Z.ltb_spec idx 0) as [Hi|Hi]; [|done].
       rewrite (proj2 (Z.leb_le _ _)) by lia. done. }
  cbn. destruct (mm_loop_spec s e (drop (Z.to_nat j) (mm_features r)) j [])
    as (k & -> & Hk); [by apply mm_wf_drop|].
  eexists. split.
  { rewrite <- (take_drop (Z.to_nat j) (mm_features r)) at 2. rewrite mm_keys_app.
    rewrite (mm_keys_none (take _ _)); [done|].
    eapply Forall_impl; [exact Hr|]. cbn. lia. }
  clearbody j. pose proof (zlen_nonneg (mm_features r)).
  right. split; [lia|]. rewrite (proj2 (Z.ltb_ge _ _)) by lia.
  rewrite Z2Nat.inj_add, Nat2Z.id by lia. rewrite <- take_take_drop, Forall_app. split.
  - eapply Forall_impl; [exact Hr|]. cbn. lia.
  - eapply Forall_impl; [exact Hk|]. cbn. lia.
Qed.

Section chain.
Context (sha256 : bytes → bytes) (hash_fn : hash_input → bytes) (NONE_HASH : bytes).
Local Abbreviation hash_block := (hash_block_tokens hash_fn NONE_HASH).

Definition embeds_keys (r : Request) (s e : Z) : list ExtraKey :=
  match prompt_embeds r with
  | None => []
  | Some embeds => [KBytes (embeds_digest sha256 embeds s e)]
  end.

Definition extra_keys (r : Request) (s e : Z) : list ExtraKey :=
  gen_lora_extra_hash_keys r ++ mm_keys (mm_features r) s e ++ cache_salt_keys r s
    ++ embeds_keys r s e.

Definition keys_or_none (l : list ExtraKey) : option (list ExtraKey) :=
  match l with [] => None | _ => Some l end.

(** The tokens and keys of block [i]. *)
Definition block_content (bs : Z) (r : Request) (i : nat) : content :=
  let s := Z.of_nat i * bs in
  (take (Z.to_nat bs) (drop (Z.to_nat s) (all_token_ids r)),
   keys_or_none (extra_keys r s (s + bs))).

Definition num_full_blocks (bs : Z) (r : Request) : nat := Z.to_nat (num_tokens r / bs).

Definition contents (bs : Z) (r : Request) : list content :=
  block_content bs r <$> seq 0 (num_full_blocks bs r).

Fixpoint chain (prev : option bytes) (l : list content) : list bytes :=
  match l with
  | [] => []
  | (t, k) :: l => hash_block prev t k :: chain (Some (hash_block prev t k)) l
  end.

(** The hashes a request ought to have: one per full block. *)
Definition ref_hashes (bs : Z) (r : Request) : list bytes := chain None (contents bs r).

(** The cached digests are those of the slices they are filed under. *)
Definition embed_cache_ok (r : Request) : Prop :=
  ∀ s e h, prompt_embeds_per_block_hashes r !! (s, e) = Some h →
    ∃ embeds, prompt_embeds r = Some embeds ∧ h = embeds_digest sha256 embeds s e.

(** [r'] is [r] up to the cache of digests. *)
Definition same_request (r r' : Request) : Prop :=
  r' = with_embed_hashes r (prompt_embeds_per_block_hashes r').

#[export] Instance same_request_preorder : PreOrder same_request.
Proof.
  split.
  - intros []. done.
  - intros r1 r2 r3 H1 H2. unfold same_request in *. rewrite H2, H1. done.
Qed.

Lemma same_request_content bs r r' i :
  same_request r r' → block_content bs r' i = block_content bs r i.
Proof. by intros ->. Qed.

Lemma gen_embeds_spec r s e :
  embed_cache_ok r →
  ∃ r', gen_prompt_embeds_extra_hash_keys sha256 r s e = (embeds_keys r s e, r')
    ∧ same_request r r' ∧ embed_cache_ok r'.
Proof.
  intros Hc. unfold gen_prompt_embeds_extra_hash_keys, embeds_keys.
  destruct (prompt_embeds r) as [em|] eqn:Ee; [|by exists r].
  destruct (_ !! _) as [h|] eqn:El.
  - destruct (Hc _ _ _ El) as (em' & Ee' & ->). simplify_eq. by exists r.
  - eexists. split; [done|]. split; [done|].
    intros s' e' h. cbn. rewrite lookup_insert. case_decide as Hd.
    + intros [= <-]. exists em. naive_solver.
    + apply Hc.
Qed.

Lemma generate_spec r s e idx :
  mm_wf (mm_features r) → embed_cache_ok r → mm_ready (mm_features r) s idx → s ≤ e →
  ∃ idx' r', generate_block_hash_extra_keys sha256 r s e idx
               = Ok (keys_or_none (extra_keys r s e), idx', r')
    ∧ same_request r r' ∧ embed_cache_ok r' ∧ mm_ready (mm_features r) e idx'.
Proof.
  intros Hwf Hc Hr Hse. unfold generate_block_hash_extra_keys.
  destruct (gen_mm_spec r s e idx) as (idx' & -> & Hr'); [done..|].
  destruct (gen_embeds_spec r s e Hc) as (r' & Eg & Hs & Hc'). cbn. rewrite Eg.
  exists idx', r'. split; [|done]. unfold extra_keys.
  by destruct (_ ++ _ ++ _ ++ _).
Qed.

Lemma full_blocks_lt bs r i :
  0 < bs → (i < num_full_blocks bs r)%nat ↔ (Z.of_nat i + 1) * bs ≤ num_tokens r.
Proof.
  intros Hbs. unfold num_full_blocks, num_tokens. pose proof (zlen_nonneg (all_token_ids r)).
  pose proof (Z.div_pos (zlen (all_token_ids r)) bs).
  pose proof (Z.mul_div_le (zlen (all_token_ids r)) bs).
  pose proof (Z.mul_succ_div_gt (zlen (all_token_ids r)) bs). split; intros; nia.
Qed.

Lemma hasher_loop_spec bs fuel i r idx prev new :
  0 < bs → mm_wf (mm_features r) → embed_cache_ok r →
  mm_ready (mm_features r) (Z.of_nat i * bs) idx →
  (num_full_blocks bs r - i < fuel)%nat →
  ∃ r', hasher_loop sha256 hash_fn NONE_HASH fuel bs (num_tokens r) r (Z.of_nat i * bs)
          idx prev new
        = Ok (new ++ chain prev (block_content bs r <$> seq i (num_full_blocks bs r - i)), r')
    ∧ same_request r r' ∧ embed_cache_ok r'.
Proof.
  intros Hbs. revert i r idx prev new.
  induction fuel as [|fuel IH]; intros i r idx prev new Hwf Hc Hr Hf; [lia|].
  cbn [hasher_loop]. pose proof (full_blocks_lt bs r i Hbs) as Hlt.
  destruct (Z.ltb_spec (num_tokens r) (Z.of_nat i * bs + bs)) as [Hend|Hend].
  { exists r. replace (num_full_blocks bs r - i)%nat with 0%nat by lia.
    cbn. by rewrite app_nil_r. }
  assert (Hi : (i < num_full_blocks bs r)%nat) by lia.
  destruct (generate_spec r (Z.of_nat i * bs) (Z.of_nat i * bs + bs) idx)
    as (idx' & r1 & -> & Hs1 & Hc1 & Hr1); [done..|lia|]. cbn [mbind res_bind].
  replace (num_full_blocks bs r - i)%nat with (S (num_full_blocks bs r - S i)) by lia.
  cbn [seq fmap list_fmap chain]. unfold block_content at 1.
  assert (Et : all_token_ids r1 = all_token_ids r) by (by rewrite Hs1).
  rewrite Et, py_slice_nonneg by lia.
  replace (Z.of_nat i * bs + bs - Z.of_nat i * bs) with bs by lia.
  set (h := hash_block _ _ _). cbn [chain].
  replace (Z.of_nat i * bs + bs) with (Z.of_nat (S i) * bs) in * by lia.
  assert (En : num_tokens r1 = num_tokens r) by (by rewrite Hs1).
  assert (Ef : num_full_blocks bs r1 = num_full_blocks bs r) by (by rewrite Hs1).
  assert (Em : mm_features r1 = mm_features r) by (by rewrite Hs1).
  rewrite <- En, <- Ef.
  destruct (IH (S i) r1 idx' (Some h) (new ++ [h])) as (r2 & -> & Hs2 & Hc2);
    [by rewrite Em|done|by rewrite Em|lia|].
  exists r2. split; [|split; [by etrans|done]].
  rewrite <- app_assoc. cbn. do 5 f_equal.
  apply list_fmap_ext. intros j x _. by apply same_request_content.
Qed.

Lemma length_chain prev l : length (chain prev l) = length l.
Proof. revert prev. induction l as [|[t k] l IH]; intros prev; cbn; [done|]. by rewrite IH. Qed.

Lemma chain_app prev l k :
  chain prev (l ++ k) =
    chain prev l ++ chain (if decide (l = []) then prev else last (chain prev l)) k.
Proof.
  revert prev. induction l as [|[t x] l IH]; intros prev; cbn [app chain]; [done|].
  rewrite IH. cbn. do 3 f_equal. case_decide; [by subst|].
  destruct (chain (Some (hash_block prev t x)) l) eqn:E; [|done].
  apply (f_equal length) in E. rewrite length_chain in E. by destruct l.
Qed.

Lemma length_ref_hashes bs r : length (ref_hashes bs r) = num_full_blocks bs r.
Proof. unfold ref_hashes, contents. by rewrite length_chain, length_fmap, length_seq. Qed.

(** The hashes from block [k] on, continued from the first [k]. *)
Lemma ref_hashes_split bs r k :
  (k ≤ num_full_blocks bs r)%nat →
  ref_hashes bs r = take k (ref_hashes bs r) ++
    chain (last (take k (ref_hashes bs r)))
      (block_content bs r <$> seq k (num_full_blocks bs r - k)).
Proof.
  intros Hk. unfold ref_hashes, contents.
  replace (num_full_blocks bs r) with (k + (num_full_blocks bs r - k))%nat at 1 2 3 by lia.
  rewrite seq_app, fmap_app, Nat.add_0_l, chain_app.
  rewrite take_app_length' by (by rewrite length_chain, length_fmap, length_seq).
  f_equal. f_equal. case_decide as Hd; [|done]. by rewrite Hd.
Qed.

(** Every multi-modal input but the last has ended by token [s]. *)
Definition only_last_open (feats : list MultiModalFeatureSpec) (s : Z) : Prop :=
  Forall (λ f, feat_end f ≤ s) (take (length feats - 1) feats).

Lemma hasher_spec bs r k :
  0 < bs → mm_wf (mm_features r) → embed_cache_ok r →
  length (block_hashes r) = k → (k ≤ num_full_blocks bs r)%nat →
  block_hashes r = take k (ref_hashes bs r) →
  (0 < k → only_last_open (mm_features r) (Z.of_nat k * bs))%nat →
  ∃ r', request_block_hasher sha256 hash_fn NONE_HASH bs r = Ok (drop k (ref_hashes bs r), r')
    ∧ same_request r r' ∧ embed_cache_ok r'.
Proof.
  intros Hbs Hwf Hc Hk Hle Hpre Hopen. unfold request_block_hasher.
  replace (zlen (block_hashes r)) with (Z.of_nat k) by (by rewrite <- Hk).
  pose proof (full_blocks_lt bs r k Hbs) as Hlt.
  assert (Hdrop : drop k (ref_hashes bs r) =
    chain (last (take k (ref_hashes bs r)))
      (block_content bs r <$> seq k (num_full_blocks bs r - k))).
  { rewrite (ref_hashes_split bs r k Hle) at 1. apply drop_app_length'.
    rewrite length_take, length_ref_hashes. lia. }
  destruct (Z.ltb_spec (num_tokens r) (Z.of_nat k * bs + bs)) as [He|He].
  { exists r. rewrite drop_ge by (rewrite length_ref_hashes; lia). done. }
  rewrite Hdrop, <- Hpre.
  destruct (hasher_loop_spec bs (S (Z.to_nat (num_tokens r))) k r
    (if 0 <? Z.of_nat k * bs then -1 else 0) (last (block_hashes r)) [])
    as (r' & -> & Hr'); [done..| | |by exists r'].
  - destruct (Z.ltb_spec 0 (Z.of_nat k * bs)) as [Hpos|Hpos].
    + destruct (decide (mm_features r = [])) as [?|Hne]; [by left|]. right.
      assert (0 < length (mm_features r))%nat by (destruct (mm_features r); cbn; [done|lia]).
      unfold zlen. split; [lia|]. cbn [Z.ltb Z.compare].
      replace (Z.to_nat _) with (length (mm_features r) - 1)%nat by lia. apply Hopen. lia.
    + right. pose proof (zlen_nonneg (mm_features r)). split; [lia|]. cbn. constructor.
  - unfold num_full_blocks. unfold num_tokens. pose proof (zlen_nonneg (all_token_ids r)).
    pose proof (Z.div_le_upper_bound (zlen (all_token_ids r)) bs (zlen (all_token_ids r))).
    assert (zlen (all_token_ids r) ≤ bs * zlen (all_token_ids r)) by nia. lia.
Qed.

Lemma update_hashes_spec bs r k :
  0 < bs → mm_wf (mm_features r) → embed_cache_ok r →
  length (block_hashes r) = k → (k ≤ num_full_blocks bs r)%nat →
  block_hashes r = take k (ref_hashes bs r) →
  (0 < k → only_last_open (mm_features r) (Z.of_nat k * bs))%nat →
  ∃ r', update_block_hashes (Some (request_block_hasher sha256 hash_fn NONE_HASH bs)) r = Ok r'
    ∧ block_hashes r' = ref_hashes bs r' ∧ all_token_ids r' = all_token_ids r
    ∧ mm_features r' = mm_features r ∧ embed_cache_ok r'.
Proof.
  intros Hbs Hwf Hc Hk Hle Hpre Hopen.
  destruct (hasher_spec bs r k) as (r' & Eh & Hs & Hc'); [done..|].
  unfold update_block_hashes. rewrite Eh. cbn. eexists. split; [done|]. cbn.
  rewrite Hs. cbn. split; [|split_and!; [done..|]].
  - rewrite Hpre at 1. by rewrite take_drop.
  - intros s e h Hl. destruct (Hc' s e h Hl) as (em & Ee & ->). rewrite Hs in Ee. by exists em.
Qed.

(** Generated tokens leave the contents of the full blocks as they were. *)
Lemma block_content_extend bs r out toks i :
  0 < bs → (i < num_full_blocks bs r)%nat →
  block_content bs (with_tokens r out (all_token_ids r ++ toks)) i = block_content bs r i.
Proof.
  intros Hbs Hi. apply full_blocks_lt in Hi; [|done]. unfold num_tokens, zlen in Hi.
  unfold block_content. cbn. f_equal. rewrite drop_app_le by lia.
  rewrite take_app_le; [done|]. rewrite length_drop. lia.
Qed.

Lemma ref_hashes_extend bs r out toks :
  0 < bs →
  ref_hashes bs r = take (num_full_blocks bs r)
    (ref_hashes bs (with_tokens r out (all_token_ids r ++ toks))).
Proof.
  intros Hbs. set (r' := with_tokens _ _ _).
  assert (Hle : (num_full_blocks bs r ≤ num_full_blocks bs r')%nat).
  { unfold num_full_blocks, num_tokens, r'. cbn. rewrite zlen_app.
    pose proof (zlen_nonneg toks). apply Z2Nat_mono. apply Z.div_le_mono; lia. }
  unfold ref_hashes, contents.
  replace (num_full_blocks bs r') with
    (num_full_blocks bs r + (num_full_blocks bs r' - num_full_blocks bs r))%nat by lia.
  rewrite seq_app, fmap_app, chain_app, take_app_length'.
  - f_equal. apply list_fmap_ext. intros j x Hx. apply lookup_seq in Hx as [-> ?].
    symmetry. by apply block_content_extend.
  - by rewrite length_chain, length_fmap, length_seq.
Qed.

Lemma new_hashes_spec bs id oid ids sp pp client arrival prio embeds mm lora salt resum r0 :
  0 < bs → mm_wf (default [] mm) →
  request_fields id oid ids sp pp client arrival prio embeds mm lora salt resum = Ok r0 →
  ∃ r, new_request (Some (request_block_hasher sha256 hash_fn NONE_HASH bs))
         id oid ids sp pp client arrival prio embeds mm lora salt resum = Ok r
    ∧ block_hashes r = ref_hashes bs r ∧ all_token_ids r = all_token_ids r0
    ∧ length (block_hashes r) = num_full_blocks bs r ∧ embed_cache_ok r.
Proof.
  intros Hbs Hwf Hf. unfold new_request. rewrite Hf. cbn [mbind res_bind].
  assert (mm_features r0 = default [] mm ∧ block_hashes r0 = [] ∧
    prompt_embeds_per_block_hashes r0 = ∅) as (Em & Eh & Ec).
  { unfold request_fields in Hf. apply bind_Ok in Hf as ([m st] & _ & Hf).
    apply bind_Ok in Hf as (n & _ & Hf). by injection Hf as <-. }
  destruct (update_hashes_spec bs r0 0) as (r & -> & Er & Et & _ & Hc); [done|..].
  - by rewrite Em.
  - intros s e h. by rewrite Ec, lookup_empty.
  - by rewrite Eh.
  - lia.
  - done.
  - lia.
  - exists r. split_and!; [done..| |done]. by rewrite Er, length_ref_hashes.
Qed.

(** C23: A request created with a block hasher carries one hash per full block
    of its tokens, each computed from the previous hash, the block's tokens
    and the keys of its LoRA, of exactly the multi-modal inputs overlapping
    the block, of the cache salt and of the prompt embeddings. *)
Theorem new_request_hashes bs id oid ids sp pp client arrival prio embeds mm lora salt resum r0 :
  0 < bs → mm_wf (default [] mm) →
  request_fields id oid ids sp pp client arrival prio embeds mm lora salt resum = Ok r0 →
  ∃ r, new_request (Some (request_block_hasher sha256 hash_fn NONE_HASH bs))
         id oid ids sp pp client arrival prio embeds mm lora salt resum = Ok r
    ∧ block_hashes r = ref_hashes bs r ∧ all_token_ids r = all_token_ids r0
    ∧ length (block_hashes r) = num_full_blocks bs r.
Proof. intros Hb Hw Hf. destruct (new_hashes_spec bs id oid ids sp pp client arrival prio embeds mm lora salt resum r0 Hb Hw Hf) as (r & ?). exists r. naive_solver. Qed.

Lemma append_hashes_spec bs r toks :
  0 < bs → mm_wf (mm_features r) → embed_cache_ok r →
  block_hashes r = ref_hashes bs r →
  (block_hashes r ≠ [] → only_last_open (mm_features r) (zlen (block_hashes r) * bs)) →
  ∃ r', append_output_token_ids (Some (request_block_hasher sha256 hash_fn NONE_HASH bs)) r toks
          = Ok r'
    ∧ all_token_ids r' = all_token_ids r ++ toks
    ∧ block_hashes r' = ref_hashes bs r' ∧ embed_cache_ok r'.
Proof.
  intros Hbs Hwf Hc Hh Hopen. unfold append_output_token_ids. cbv zeta.
  set (r1 := with_tokens _ _ _).
  pose proof (ref_hashes_extend bs r (output_token_ids r ++ toks) toks Hbs) as Hpre.
  fold r1 in Hpre. assert (Hlen : length (block_hashes r) = num_full_blocks bs r)
    by (by rewrite Hh, length_ref_hashes).
  destruct (update_hashes_spec bs r1 (num_full_blocks bs r)) as (r' & -> & ? & ? & _ & ?);
    [..|by exists r'].
  all: try done.
  - apply (f_equal length) in Hpre. rewrite length_take, !length_ref_hashes in Hpre.
    lia.
  - by rewrite <- Hpre.
  - intros Hpos. unfold zlen in Hopen. rewrite Hlen in Hopen. apply Hopen.
    intros E. rewrite E in Hlen. cbn in Hlen. lia.
Qed.

(** C22: Appending generated tokens keeps the hash list complete and equal to the
    one computed from scratch, provided every multi-modal input but the last
    ended within the blocks already hashed. *)
Theorem append_output_hashes bs r toks :
  0 < bs → mm_wf (mm_features r) → embed_cache_ok r →
  block_hashes r = ref_hashes bs r →
  (block_hashes r ≠ [] → only_last_open (mm_features r) (zlen (block_hashes r) * bs)) →
  ∃ r', append_output_token_ids (Some (request_block_hasher sha256 hash_fn NONE_HASH bs)) r toks
          = Ok r'
    ∧ all_token_ids r' = all_token_ids r ++ toks
    ∧ block_hashes r' = ref_hashes bs r' ∧ embed_cache_ok r'.
Proof. apply append_hashes_spec. Qed.

(** ** What equal hashes say *)

Fixpoint chain_inputs (prev : option bytes) (l : list content) : list hash_input :=
  match l with
  | [] => []
  | (t, k) :: l =>
      (parent_or_none NONE_HASH prev, t, k) :: chain_inputs (Some (hash_block prev t k)) l
  end.

Lemma chain_hash prev l : chain prev l = hash_fn <$> chain_inputs prev l.
Proof. revert prev. induction l as [|[t k] l IH]; intros prev; cbn; [done|]. by rewrite IH. Qed.

Lemma chain_inputs_lookup prev l i x :
  chain_inputs prev l !! i = Some x →
  ∃ t k, l !! i = Some (t, k) ∧
    x = (parent_or_none NONE_HASH
           (match i with O => prev | S i => chain prev l !! i end), t, k).
Proof.
  revert prev i. induction l as [|[t k] l IH]; intros prev [|i]; cbn; [done|done| |].
  - intros [= <-]. eauto.
  - intros Hx. apply IH in Hx as (t' & k' & El & ->). exists t', k'. split; [done|].
    by destruct i.
Qed.

Lemma chain_lookup prev l i h :
  chain prev l !! i = Some h → ∃ x, chain_inputs prev l !! i = Some x ∧ h = hash_fn x.
Proof. rewrite chain_hash, list_lookup_fmap_Some. naive_solver. Qed.

(** The inputs hashed for two block sequences do not collide with one another
    nor with the seed, and hashes are not empty. *)
Record collision_free (X Y : list hash_input) : Prop := {
  cf_inj : ∀ x y, x ∈ X → y ∈ Y → hash_fn x = hash_fn y → x = y;
  cf_seed : ∀ x, x ∈ X ++ Y → hash_fn x ≠ NONE_HASH;
  cf_nonempty : ∀ x, x ∈ X ++ Y → hash_fn x ≠ [];
}.

Lemma parent_or_none_hash h : h ≠ [] → parent_or_none NONE_HASH (Some h) = h.
Proof. by destruct h. Qed.

Lemma chain_sound la lb i j h :
  collision_free (chain_inputs None la) (chain_inputs None lb) →
  chain None la !! i = Some h → chain None lb !! j = Some h →
  i = j ∧ ∀ m, (m ≤ i)%nat → la !! m = lb !! m.
Proof.
  intros Hcf. destruct (Hcf) as [Hinj Hseed Hne]. revert j h.
  induction i as [|i IH]; intros j h
    (x & Ex & ->)%chain_lookup (y & Ey & Eh)%chain_lookup.
  all: assert (x = y) as -> by (eapply Hinj; eauto using list_elem_of_lookup_2).
  all: apply chain_inputs_lookup in Ex as (t & k & El & ->).
  all: apply chain_inputs_lookup in Ey as (t' & k' & El' & E).
  all: injection E as Ep <- <-.
  all: destruct j as [|j].
  - split; [done|]. intros m Hm. assert (m = 0%nat) as -> by lia. congruence.
  - exfalso. destruct (chain None lb !! j) as [hj|] eqn:Ej.
    2: { apply lookup_ge_None in Ej. rewrite length_chain in Ej.
         apply lookup_lt_Some in El'. lia. }
    apply chain_lookup in Ej as (z & Ez & ->). apply list_elem_of_lookup_2 in Ez.
    rewrite parent_or_none_hash in Ep by (apply Hne; set_solver).
    apply (Hseed z); [set_solver|]. done.
  - exfalso. destruct (chain None la !! i) as [hi|] eqn:Ei.
    2: { apply lookup_ge_None in Ei. rewrite length_chain in Ei.
         apply lookup_lt_Some in El. lia. }
    apply chain_lookup in Ei as (z & Ez & ->). apply list_elem_of_lookup_2 in Ez.
    rewrite parent_or_none_hash in Ep by (apply Hne; set_solver).
    apply (Hseed z); [set_solver|]. done.
  - assert (∃ hi, chain None la !! i = Some hi) as [hi Ei].
    { apply lookup_lt_is_Some. rewrite length_chain. apply lookup_lt_Some in El. lia. }
    assert (∃ hj, chain None lb !! j = Some hj) as [hj Ej].
    { apply lookup_lt_is_Some. rewrite length_chain. apply lookup_lt_Some in El'. lia. }
    rewrite Ei, Ej in Ep.
    destruct (chain_lookup _ _ _ _ Ei) as (zi & Ezi & Ehi).
    destruct (chain_lookup _ _ _ _ Ej) as (zj & Ezj & Ehj).
    apply list_elem_of_lookup_2 in Ezi, Ezj.
    rewrite !parent_or_none_hash in Ep by (subst; apply Hne; set_solver).
    rewrite Ep in Ei. destruct (IH j hj Ei Ej) as [-> Hm]. split; [done|].
    intros m Hle. destruct (decide (m = S j)) as [->|]; [congruence|apply Hm; lia].
Qed.

Lemma keys_or_none_inj l k : keys_or_none l = keys_or_none k → l = k.
Proof. destruct l, k; cbn; congruence. Qed.

Lemma contents_lookup bs r i c :
  contents bs r !! i = Some c ↔ (i < num_full_blocks bs r)%nat ∧ c = block_content bs r i.
Proof.
  unfold contents. rewrite list_lookup_fmap_Some. setoid_rewrite lookup_seq. naive_solver lia.
Qed.

(** Equal blocks up to [n] make up equal token prefixes. *)
Lemma equal_blocks_prefix bs a b n :
  0 < bs →
  (∀ m, (m < n)%nat → block_content bs a m = block_content bs b m) →
  take (n * Z.to_nat bs) (all_token_ids a) = take (n * Z.to_nat bs) (all_token_ids b).
Proof.
  intros Hbs. induction n as [|n IH]; intros H; [done|].
  replace (S n * Z.to_nat bs)%nat with (n * Z.to_nat bs + Z.to_nat bs)%nat by lia.
  rewrite <- !take_take_drop. f_equal; [by apply IH; eauto with lia|].
  specialize (H n ltac:(lia)). injection H as Ht _.
  by replace (Z.to_nat (Z.of_nat n * bs)) with (n * Z.to_nat bs)%nat in Ht by lia.
Qed.

(** The common core of the soundness results. *)
Lemma shared_hash bs a b i j h :
  0 < bs → block_hashes a = ref_hashes bs a → block_hashes b = ref_hashes bs b →
  collision_free (chain_inputs None (contents bs a)) (chain_inputs None (contents bs b)) →
  block_hashes a !! i = Some h → block_hashes b !! j = Some h →
  i = j ∧ ∀ m, (m ≤ i)%nat → block_content bs a m = block_content bs b m.
Proof.
  intros Hbs Ha Hb Hcf Hi Hj. rewrite Ha in Hi. rewrite Hb in Hj.
  destruct (chain_sound _ _ _ _ _ Hcf Hi Hj) as [-> Hm]. split; [done|].
  intros m Hle. specialize (Hm m Hle). apply lookup_lt_Some in Hi, Hj.
  rewrite length_ref_hashes in Hi, Hj.
  assert (contents bs a !! m = Some (block_content bs a m)) as Ea
    by (apply contents_lookup; split; [lia|done]).
  assert (contents bs b !! m = Some (block_content bs b m)) as Eb
    by (apply contents_lookup; split; [lia|done]).
  congruence.
Qed.

(** ** The hasher leaves the request alone *)

Lemma same_request_embed r m : same_request r (with_embed_hashes r m).
Proof. by destruct r. Qed.

Lemma generate_same r s e idx x :
  generate_block_hash_extra_keys sha256 r s e idx = Ok x → same_request r x.2.
Proof.
  unfold generate_block_hash_extra_keys, gen_prompt_embeds_extra_hash_keys. intros H. inv_ok.
  destruct a as [mm idx']. destruct (prompt_embeds r) as [em|].
  - destruct (prompt_embeds_per_block_hashes r !! _); destruct (_ ++ _); inv_ok; cbn;
      (reflexivity || apply same_request_embed).
  - destruct (_ ++ _); inv_ok; reflexivity.
Qed.

Lemma hasher_loop_same fuel bs n r s idx prev new x :
  hasher_loop sha256 hash_fn NONE_HASH fuel bs n r s idx prev new = Ok x → same_request r x.2.
Proof.
  revert r s idx prev new. induction fuel as [|fuel IH]; intros r s idx prev new; cbn [hasher_loop]; [done|].
  destruct (_ <? _); intros H; inv_ok; [reflexivity|]. destruct a as [[keys idx'] r1].
  apply generate_same in Hb. apply IH in H. cbn in *. by etrans.
Qed.

Lemma update_hashes_frame bs r r' :
  update_block_hashes (Some (request_block_hasher sha256 hash_fn NONE_HASH bs)) r = Ok r' →
  r' = with_block_hashes (with_embed_hashes r (prompt_embeds_per_block_hashes r')) (block_hashes r').
Proof.
  unfold update_block_hashes, request_block_hasher. intros H. inv_ok. destruct a as [l r1]. inv_ok.
  assert (same_request r r1) as Hs.
  { destruct (_ <? _); inv_ok; [reflexivity|]. by apply hasher_loop_same in Hb. }
  unfold same_request in Hs. cbn. by rewrite Hs at 1.
Qed.
(** ** Requests as the code hashes them *)

(** A request created with the block hasher and extended by generated tokens.  Its
    multi-modal inputs are ordered and disjoint, and when tokens are appended every
    input but the last has ended within the blocks already hashed. *)
Inductive hashed_request (bs : Z) : Request → Prop :=
  | hashed_new id oid ids sp pp client arrival prio embeds mm lora salt resum r :
      mm_wf (default [] mm) →
      new_request (Some (request_block_hasher sha256 hash_fn NONE_HASH bs))
        id oid ids sp pp client arrival prio embeds mm lora salt resum = Ok r →
      hashed_request bs r
  | hashed_append r toks r' :
      hashed_request bs r →
      (block_hashes r ≠ [] → only_last_open (mm_features r) (zlen (block_hashes r) * bs)) →
      append_output_token_ids (Some (request_block_hasher sha256 hash_fn NONE_HASH bs)) r toks = Ok r' →
      hashed_request bs r'.

Lemma hashed_request_spec bs r :
  0 < bs → hashed_request bs r →
  block_hashes r = ref_hashes bs r ∧ mm_wf (mm_features r) ∧ embed_cache_ok r.
Proof.
  intros Hb. induction 1 as [id oid ids sp pp client arrival prio embeds mm lora salt resum r Hw E
                            |r toks r' _ (Hh & Hw & Hc) Hopen E].
  - destruct (request_fields id oid ids sp pp client arrival prio embeds mm lora salt resum) as [r0|e] eqn:Ef;
      [|unfold new_request in E; by rewrite Ef in E].
    destruct (new_hashes_spec bs id oid ids sp pp client arrival prio embeds mm lora salt resum r0 Hb Hw Ef)
      as (r1 & E1 & Hh & _ & _ & Hc). rewrite E in E1. injection E1 as <-. split; [done|]. split; [|done].
    assert (mm_features r0 = default [] mm) as Em.
    { unfold request_fields in Ef. apply bind_Ok in Ef as ([m st] & _ & Ef).
      apply bind_Ok in Ef as (n & _ & Ef). by injection Ef as <-. }
    unfold new_request in E. rewrite Ef in E. cbn [mbind res_bind] in E. apply update_hashes_frame in E.
    rewrite E. cbn. by rewrite Em.
  - destruct (append_hashes_spec bs r toks Hb Hw Hc Hh Hopen) as (r1 & E1 & _ & Hh' & Hc').
    rewrite E in E1. injection E1 as <-. split; [done|]. split; [|done].
    unfold append_output_token_ids in E. apply update_hashes_frame in E. rewrite E. done.
Qed.

(** C4: When two requests as the code builds and extends them share a block hash, it is at
    the same block index, their tokens agree up to the end of that block and each
    block up to there has the same LoRA, multi-modal, salt and embedding keys; so a
    prefix-cache hit is a hit on the same prefix.  The hash function must not collide on
    the blocks of the two, and tokens are appended only when every multi-modal input but
    the last has ended within the hashed blocks ([hashed_request]). *)
Theorem shared_hash_same_prefix bs a b i j h :
  0 < bs → hashed_request bs a → hashed_request bs b →
  collision_free (chain_inputs None (contents bs a)) (chain_inputs None (contents bs b)) →
  block_hashes a !! i = Some h → block_hashes b !! j = Some h →
  i = j ∧
  take (S i * Z.to_nat bs) (all_token_ids a) = take (S i * Z.to_nat bs) (all_token_ids b) ∧
  ∀ m, (m ≤ i)%nat →
    extra_keys a (Z.of_nat m * bs) (Z.of_nat m * bs + bs) =
    extra_keys b (Z.of_nat m * bs) (Z.of_nat m * bs + bs).
Proof.
  intros Hbs [Ha _]%hashed_request_spec [Hb _]%hashed_request_spec Hcf Hi Hj; try done.
  destruct (shared_hash bs a b i j h) as [-> Hm]; [done..|]. split; [done|]. split.
  - apply equal_blocks_prefix; [done|]. intros m ?. apply Hm. lia.
  - intros m Hle. specialize (Hm m Hle). injection Hm as _ Hk. by apply keys_or_none_inj.
Qed.

(** The strings among the keys of the first block of a request without LoRA. *)
Definition key_strings (l : list ExtraKey) : list string :=
  omap (λ k, match k with KStr s => Some s | _ => None end) l.

Lemma key_strings_app l k : key_strings (l ++ k) = key_strings l ++ key_strings k.
Proof. apply omap_app. Qed.

Lemma key_strings_mm feats s e : key_strings (mm_keys feats s e) = [].
Proof. unfold mm_keys. induction (filter _ feats) as [|f l IH]; cbn; done. Qed.

Lemma key_strings_first r bs s :
  lora_request r = None → cache_salt r = Some s → s ≠ EmptyString →
  key_strings (extra_keys r 0 bs) = [s].
Proof.
  intros Hl Hs Hne. unfold extra_keys, gen_lora_extra_hash_keys, cache_salt_keys, embeds_keys.
  rewrite !key_strings_app, key_strings_mm, Hl, Hs. cbn.
  rewrite (proj2 (String.eqb_neq _ _)) by done. cbn. by destruct (prompt_embeds r).
Qed.

(** C24: Requests as the code builds and extends them, without LoRA and with different
    non-empty cache salts, have no block hash in common, whatever their tokens, when the
    hash function does not collide on their blocks. *)
Theorem cache_salt_isolation bs a b sa sb :
  0 < bs → hashed_request bs a → hashed_request bs b →
  collision_free (chain_inputs None (contents bs a)) (chain_inputs None (contents bs b)) →
  lora_request a = None → lora_request b = None →
  cache_salt a = Some sa → cache_salt b = Some sb →
  sa ≠ EmptyString → sb ≠ EmptyString → sa ≠ sb →
  ∀ h, h ∈ block_hashes a → h ∉ block_hashes b.
Proof.
  intros Hbs [Ha _]%hashed_request_spec [Hb _]%hashed_request_spec Hcf Hla Hlb Hsa Hsb Hna Hnb Hne h
    [i Hi]%list_elem_of_lookup_1 [j Hj]%list_elem_of_lookup_1.
  2, 3: done. destruct (shared_hash bs a b i j h) as [_ Hm]; [done..|].
  specialize (Hm 0%nat ltac:(lia)). injection Hm as _ Hk. apply keys_or_none_inj in Hk.
  apply (f_equal key_strings) in Hk.
  rewrite (key_strings_first a _ sa), (key_strings_first b _ sb) in Hk by done. congruence.
Qed.
End chain.

#[export] Instance collision_free_dec hash_fn NONE_HASH X Y :
  Decision (collision_free hash_fn NONE_HASH X Y).
Proof.
  destruct (decide (Forall (λ x, Forall (λ y, hash_fn x = hash_fn y → x = y) Y) X)) as [Hi|Hi];
    [destruct (decide (Forall (λ x, hash_fn x ≠ NONE_HASH ∧ hash_fn x ≠ []) (X ++ Y)))
       as [Hs|Hs]; [left|right]|right].
  - abstract (rewrite !Forall_forall in *; split; [|naive_solver..];
      intros x y Hx Hy; specialize (Hi x Hx); rewrite Forall_forall in Hi; auto).
  - abstract (intros [? ? ?]; apply Hs, Forall_forall; auto).
  - abstract (intros [? ? ?]; apply Hi, Forall_forall; intros; apply Forall_forall; auto).
Defined.

(** ** Examples

    A concrete injective hash and small requests, at which the theorems above
    apply. *)

Definition encode_key (k : ExtraKey) : bytes :=
  match k with
  | KStr s => 1 :: Z.of_nat (String.length s)
      :: ((λ a, Z.of_nat (Ascii.nat_of_ascii a)) <$> String.list_ascii_of_string s)
  | KMM s o => 2 :: o :: Z.of_nat (String.length s)
      :: ((λ a, Z.of_nat (Ascii.nat_of_ascii a)) <$> String.list_ascii_of_string s)
  | KBytes b => 3 :: zlen b :: b
  end.

Definition example_hash (x : hash_input) : bytes :=
  let '(p, t, k) := x in
  1 :: zlen p :: p ++ zlen t :: t ++
  match k with None => [0] | Some l => 1 :: concat (encode_key <$> l) end.

Definition example_sampling : SamplingParams := mkSampling (Some 16) 0 None None None None false.

Definition feature (id : string) (o n : Z) : MultiModalFeatureSpec :=
  mkFeature (Some id) (mkRange o n None).

Definition example_request (hasher : block_hasher) (toks : list Z)
    (mm : list MultiModalFeatureSpec) (lora : option LoRARequest) (salt : option string)
    : res Request :=
  new_request (Some hasher) "r" 0 (Some toks) (Some example_sampling) None 0 0 0 None
    (Some mm) lora salt false.

Definition get_ok {A} (d : A) (m : res A) : A := match m with Ok a => a | Err _ => d end.

Definition blank_request : Request :=
  mkRequest "" 0 0 0 None None None false 0 WAITING None 0 None None ∅ 0 [] [] 0 [] 0 None []
    (-1) 0 0 [] false false [] 0 false false None.

Definition example_hasher : block_hasher := request_block_hasher (λ b, b) example_hash [] 2.

Definition request_a : Request :=
  get_ok blank_request
    (example_request example_hasher [5; 6; 7; 8; 9] [feature "img" 1 2] None (Some "alice")).
Definition request_b : Request :=
  get_ok blank_request
    (example_request example_hasher [5; 6; 7; 8; 3] [feature "img" 1 2] None (Some "alice")).
Definition request_c : Request :=
  get_ok blank_request
    (example_request example_hasher [5; 6; 7; 8; 9] [feature "img" 1 2] None (Some "bob")).

Lemma mm_wf_single id o n : 0 ≤ n → mm_wf [feature id o n].
Proof.
  intros. split.
  - repeat constructor.
  - constructor; [unfold feat_start, feat_end; cbn; lia|done].
  - constructor; [by eexists|done].
Qed.

Lemma request_hashed toks mm salt :
  mm_wf mm → match example_request example_hasher toks mm None salt with Ok _ => true | Err _ => false end = true →
  hashed_request (λ b, b) example_hash [] 2 (get_ok blank_request (example_request example_hasher toks mm None salt)).
Proof.
  intros Hw He. destruct (example_request example_hasher toks mm None salt) as [r|] eqn:E; [|done].
  by eapply (hashed_new _ _ _ 2 _ _ _ _ _ _ _ _ _ (Some mm)).
Qed.

(** [request_a] after two generated tokens. *)
Definition request_a2 : Request :=
  get_ok blank_request (append_output_token_ids (Some example_hasher) request_a [4; 4]).

Lemma request_a2_hashed : hashed_request (λ b, b) example_hash [] 2 request_a2.
Proof.
  apply (hashed_append _ _ _ 2 request_a [4; 4]).
  - apply request_hashed; [by apply mm_wf_single|reflexivity].
  - intros _. constructor.
  - vm_compute. reflexivity.
Qed.

Lemma new_request_hashes_witness :
  mm_wf [feature "img" 1 2] ∧
  ∃ r, example_request example_hasher [5; 6; 7; 8; 9] [feature "img" 1 2] None (Some "alice")
         = Ok r
    ∧ block_hashes r = ref_hashes (λ b, b) example_hash [] 2 r ∧ length (block_hashes r) = 2%nat.
Proof.
  split; [by apply mm_wf_single|].
  edestruct (new_request_hashes (λ b, b) example_hash [] 2 "r" 0 (Some [5; 6; 7; 8; 9])
    (Some example_sampling) None 0 0 0 None (Some [feature "img" 1 2]) None (Some "alice") false)
    as (r & Hr & Hh & Ht & Hl); [lia|by apply mm_wf_single|reflexivity|].
  exists r. split; [exact Hr|]. split; [exact Hh|].
  unfold num_full_blocks, num_tokens in Hl. rewrite Ht in Hl. exact Hl.
Defined.

Lemma append_output_hashes_witness :
  block_hashes request_a ≠ [] ∧
  ∃ r', append_output_token_ids (Some example_hasher) request_a [4; 4] = Ok r'
    ∧ all_token_ids r' = [5; 6; 7; 8; 9; 4; 4]
    ∧ block_hashes r' = ref_hashes (λ b, b) example_hash [] 2 r'.
Proof.
  split; [by vm_compute|].
  destruct (append_output_hashes (λ b, b) example_hash [] 2 request_a [4; 4])
    as (r' & E & Et & Eh & _).
  - lia.
  - by apply mm_wf_single.
  - intros s e h Hl. vm_compute in Hl. discriminate Hl.
  - vm_compute. reflexivity.
  - intros _. constructor.
  - exists r'. split; [exact E|]. split; [exact Et|exact Eh].
Defined.

Lemma shared_hash_same_prefix_witness :
  ∃ h, block_hashes request_a2 !! 1%nat = Some h ∧ block_hashes request_b !! 1%nat = Some h ∧
    take 4 (all_token_ids request_a2) = take 4 (all_token_ids request_b) ∧
    length (block_hashes request_a2) = 3%nat.
Proof.
  eexists. split; [vm_compute; reflexivity|]. split; [vm_compute; reflexivity|].
  split; [|by vm_compute].
  edestruct (shared_hash_same_prefix (λ b, b) example_hash [] 2 request_a2 request_b 1 1)
    as (_ & H & _).
  - lia.
  - exact request_a2_hashed.
  - apply request_hashed; [by apply mm_wf_single|reflexivity].
  - eapply bool_decide_eq_true_1. vm_compute. reflexivity.
  - vm_compute. reflexivity.
  - vm_compute. reflexivity.
  - exact H.
Defined.

Lemma cache_salt_isolation_witness :
  take 5 (all_token_ids request_a2) = all_token_ids request_c ∧
  ∀ h, h ∈ block_hashes request_a2 → h ∉ block_hashes request_c.
Proof.
  split; [vm_compute; reflexivity|].
  apply (cache_salt_isolation (λ b, b) example_hash [] 2 request_a2 request_c "alice" "bob").
  - lia.
  - exact request_a2_hashed.
  - apply request_hashed; [by apply mm_wf_single|reflexivity].
  - eapply bool_decide_eq_true_1. vm_compute. reflexivity.
  - reflexivity.
  - reflexivity.
  - reflexivity.
  - reflexivity.
  - discriminate.
  - discriminate.
  - discriminate.
Defined.

(** ** Two limits of the keys *)

(** The incremental hasher resumes at the last multi-modal input only: two
    prompts that end in a partial block holding two images get the same block
    hash once generated tokens fill the block, although their first images
    differ and the block's keys should tell them apart. *)
Theorem incremental_hash_drops_image sha256 hash_fn NONE_HASH :
  let hasher := request_block_hasher sha256 hash_fn NONE_HASH 4 in
  let prompt img := example_request hasher [1; 2; 3; 4; 5; 6]
                      [feature img 4 1; feature "last" 5 1] None None in
  ∃ a b a' b',
    prompt "cat"%string = Ok a ∧ prompt "dog"%string = Ok b
    ∧ append_output_token_ids (Some hasher) a [7; 8] = Ok a'
    ∧ append_output_token_ids (Some hasher) b [7; 8] = Ok b'
    ∧ length (block_hashes a') = 2%nat
    ∧ block_hashes a' = block_hashes b'
    ∧ extra_keys sha256 a' 4 8 ≠ extra_keys sha256 b' 4 8.
Proof.
  do 4 eexists. split_and!; [reflexivity..|]. vm_compute. discriminate.
Qed.

(** A LoRA name and a cache salt are the same kind of key: the first block of a
    request for adapter [name] and the first block of a base-model request
    with salt [name] get the same hash. *)
Theorem lora_name_and_salt_confused sha256 hash_fn NONE_HASH name :
  name ≠ EmptyString →
  let hasher := request_block_hasher sha256 hash_fn NONE_HASH 4 in
  ∃ a b,
    example_request hasher [1; 2; 3; 4] [] (Some (mkLoRA name 1)) None = Ok a
    ∧ example_request hasher [1; 2; 3; 4] [] None (Some name) = Ok b
    ∧ lora_request a ≠ lora_request b
    ∧ block_hashes a = block_hashes b ∧ length (block_hashes a) = 1%nat.
Proof.
  intros Hne. destruct name as [|c s]; [done|].
  do 2 eexists. split_and!; [reflexivity|reflexivity|discriminate|reflexivity|reflexivity].
Qed.

Lemma lora_name_and_salt_confused_witness :
  ∃ a b : Request, lora_request a ≠ lora_request b
    ∧ block_hashes a = block_hashes b ∧ length (block_hashes a) = 1%nat.
Proof.
  destruct (lora_name_and_salt_confused (λ b, b) example_hash [] "x"%string) as (a & b & _ & _ & H).
  - discriminate.
  - exists a, b. exact H.
Defined.
