(* ===== verification/Metrics.v ===== *)
(** * Block residency metrics

    vllm/v1/core/kv_cache_metrics.py.  The clock and the random generator are
    streams read one value per call ([time.monotonic_ns], [random.random]); the
    collector counts how far it has read.  Durations stay in nanoseconds. *)

From Stdlib Require Import QArith.
From S2P Require Import Prelude.
#[local] Open Scope Z_scope.

Record BlockMetricsState := mkMetrics {
  birth_time_ns : Z;
  last_access_ns : Z;
  access_history : list Z;
}.

Record KVCacheEvictionEvent := mkEviction {
  lifetime_ns : Z;
  idle_ns : Z;
  reuse_gaps_ns : list Z;
}.

Record KVCacheMetricsCollector := mkCollector {
  clock : nat → Z;
  draws : nat → Q;
  sample_rate : Q;
  ticks_read : nat;
  draws_read : nat;
  block_metrics : gmap Z BlockMetricsState;
  eviction_events : list KVCacheEvictionEvent;
}.

Definition collector_init (clock : nat → Z) (draws : nat → Q) (sample_rate : Q)
    : res KVCacheMetricsCollector :=
  ASSERT negb (Qle_bool sample_rate 0) && Qle_bool sample_rate 1;
  Ok (mkCollector clock draws sample_rate 0 0 ∅ []).

(** [time.monotonic_ns()] *)
Definition now_ns (c : KVCacheMetricsCollector) : Z * KVCacheMetricsCollector :=
  (clock c (ticks_read c),
   mkCollector (clock c) (draws c) (sample_rate c) (S (ticks_read c)) (draws_read c)
     (block_metrics c) (eviction_events c)).

(** [random.random() < self.sample_rate] *)
Definition should_sample_block (c : KVCacheMetricsCollector) : bool * KVCacheMetricsCollector :=
  (negb (Qle_bool (sample_rate c) (draws c (draws_read c))),
   mkCollector (clock c) (draws c) (sample_rate c) (ticks_read c) (S (draws_read c))
     (block_metrics c) (eviction_events c)).

Definition with_metrics (c : KVCacheMetricsCollector) (m : gmap Z BlockMetricsState)
    (ev : list KVCacheEvictionEvent) : KVCacheMetricsCollector :=
  mkCollector (clock c) (draws c) (sample_rate c) (ticks_read c) (draws_read c) m ev.

(** [deque(maxlen=4).append] *)
Definition history_append (h : list Z) (t : Z) : list Z :=
  let h := h ++ [t] in drop (length h - 4) h.

Definition record_access (m : BlockMetricsState) (now : Z) : BlockMetricsState :=
  mkMetrics (birth_time_ns m) now (history_append (access_history m) now).

Fixpoint reuse_gaps (h : list Z) : list Z :=
  match h with
  | a :: (b :: _) as t => (b - a) :: reuse_gaps t
  | _ => []
  end.

Definition on_block_allocated (c : KVCacheMetricsCollector) (id : Z) : KVCacheMetricsCollector :=
  let '(sample, c) := should_sample_block c in
  if sample then
    let '(now, c) := now_ns c in
    with_metrics c (<[id := mkMetrics now now []]> (block_metrics c)) (eviction_events c)
  else c.

Definition on_block_accessed (c : KVCacheMetricsCollector) (id : Z) : KVCacheMetricsCollector :=
  match block_metrics c !! id with
  | None => c
  | Some m =>
      let '(now, c) := now_ns c in
      with_metrics c (<[id := record_access m now]> (block_metrics c)) (eviction_events c)
  end.

Definition on_block_evicted (c : KVCacheMetricsCollector) (id : Z) : KVCacheMetricsCollector :=
  match block_metrics c !! id with
  | None => c
  | Some m =>
      let c := with_metrics c (delete id (block_metrics c)) (eviction_events c) in
      let '(t1, c) := now_ns c in
      let '(t2, c) := now_ns c in
      with_metrics c (block_metrics c)
        (eviction_events c ++
           [mkEviction (t1 - birth_time_ns m) (t2 - last_access_ns m)
              (reuse_gaps (access_history m))])
  end.

Definition reset (c : KVCacheMetricsCollector) : KVCacheMetricsCollector := with_metrics c ∅ [].

Definition drain_events (c : KVCacheMetricsCollector)
    : list KVCacheEvictionEvent * KVCacheMetricsCollector :=
  (eviction_events c, with_metrics c (block_metrics c) []).

(** ** Residency times are meaningful

    With a monotonic clock every reported duration is non-negative and the
    access history of a tracked block stays sorted and within its four slots. *)

Definition nondecreasing (l : list Z) : Prop := ∀ i x y, l !! i = Some x → l !! S i = Some y → x ≤ y.

Record state_ok (now : Z) (m : BlockMetricsState) : Prop := {
  so_birth : birth_time_ns m ≤ last_access_ns m;
  so_last : last_access_ns m ≤ now;
  so_hist : nondecreasing (access_history m);
  so_hist_last : ∀ t, t ∈ access_history m → t ≤ last_access_ns m;
  so_len : (length (access_history m) ≤ 4)%nat;
}.

Definition event_ok (e : KVCacheEvictionEvent) : Prop :=
  0 ≤ lifetime_ns e ∧ 0 ≤ idle_ns e ∧ Forall (λ g, 0 ≤ g) (reuse_gaps_ns e)
  ∧ (length (reuse_gaps_ns e) ≤ 3)%nat.

Record collector_ok (c : KVCacheMetricsCollector) : Prop := {
  co_clock : ∀ i j, (i ≤ j)%nat → clock c i ≤ clock c j;
  co_states : ∀ id m, block_metrics c !! id = Some m →
    (0 < ticks_read c)%nat ∧ state_ok (clock c (ticks_read c - 1)) m;
  co_events : Forall event_ok (eviction_events c);
}.

Lemma nondecreasing_drop n l : nondecreasing l → nondecreasing (drop n l).
Proof. intros H i x y. rewrite !lookup_drop, Nat.add_succ_r. apply H. Qed.

Lemma nondecreasing_snoc l t :
  nondecreasing l → (∀ x, x ∈ l → x ≤ t) → nondecreasing (l ++ [t]).
Proof.
  intros H Ht i x y Hx Hy. apply lookup_app_Some in Hy as [Hy|[Hge Hy]].
  - rewrite lookup_app_l in Hx by (apply lookup_lt_Some in Hy; lia). by apply (H i).
  - apply list_lookup_singleton_Some in Hy as [E <-].
    rewrite lookup_app_l in Hx by lia. apply Ht. by eapply list_elem_of_lookup_2.
Qed.

Lemma reuse_gaps_ok h :
  nondecreasing h →
  Forall (λ g, 0 ≤ g) (reuse_gaps h) ∧ length (reuse_gaps h) = (length h - 1)%nat.
Proof.
  induction h as [|a [|b h] IH]; intros H; [done|done|].
  destruct IH as [IH1 IH2]; [intros i x y; apply (H (S i))|].
  pose proof (H 0%nat a b eq_refl eq_refl). cbn [reuse_gaps length] in *. split.
  - constructor; [lia|done].
  - rewrite IH2. lia.
Qed.

Lemma record_access_ok prev now m :
  state_ok prev m → prev ≤ now → state_ok now (record_access m now).
Proof.
  intros [Hb Hl Hh Hhl Hn] Hp. unfold record_access, history_append. split; cbn.
  - lia.
  - lia.
  - apply nondecreasing_drop, nondecreasing_snoc; [done|]. intros x Hx. specialize (Hhl x Hx). lia.
  - intros t Ht%elem_of_drop_1. apply elem_of_app in Ht as [Ht|Ht%list_elem_of_singleton]; [|subst; lia].
    specialize (Hhl t Ht). lia.
  - rewrite length_drop, length_app. cbn. lia.
Qed.

Lemma state_ok_later now now' m : state_ok now m → now ≤ now' → state_ok now' m.
Proof. intros [] ?. split; try done. lia. Qed.

Section steps.
Context (c : KVCacheMetricsCollector) (Hc : collector_ok c).

(** Reading the clock once more keeps the tracked states sound. *)
Lemma states_later n id m :
  (ticks_read c ≤ n)%nat → block_metrics c !! id = Some m → state_ok (clock c n) m.
Proof.
  intros Hn Hm. destruct (co_states c Hc _ _ Hm) as [Hpos Hs].
  eapply state_ok_later; [exact Hs|]. apply Hc. lia.
Qed.

Lemma on_block_allocated_ok id : collector_ok (on_block_allocated c id).
Proof.
  unfold on_block_allocated, should_sample_block. destruct (negb _); split; cbn;
    try apply Hc. intros id' m Hm. rewrite Nat.sub_0_r. split; [lia|].
  apply lookup_insert_Some in Hm as [[_ <-]|[_ Hm]].
  - split; cbn; [lia..|by intros i x y H|by intros t H%elem_of_nil|lia].
  - by eapply states_later.
Qed.

Lemma on_block_accessed_ok id : collector_ok (on_block_accessed c id).
Proof.
  unfold on_block_accessed. destruct (block_metrics c !! id) as [m|] eqn:E; [|done].
  split; cbn; try apply Hc. intros id' m' Hm. rewrite Nat.sub_0_r. split; [lia|].
  apply lookup_insert_Some in Hm as [[_ <-]|[_ Hm]]; [|by eapply states_later].
  destruct (co_states c Hc _ _ E) as [? Hs]. eapply record_access_ok; [exact Hs|].
  apply Hc. lia.
Qed.

Lemma on_block_evicted_ok id : collector_ok (on_block_evicted c id).
Proof.
  unfold on_block_evicted. destruct (block_metrics c !! id) as [m|] eqn:E; [|done].
  destruct (co_states c Hc _ _ E) as [Hpos [Hb Hl Hh _ Hn]].
  split; cbn; [apply Hc| |].
  - intros id' m' [_ Hm]%lookup_delete_Some. split; [lia|].
    eapply states_later; [|exact Hm]. lia.
  - apply Forall_app. split; [apply Hc|]. apply Forall_singleton.
    destruct (reuse_gaps_ok _ Hh) as [Hg Hgl].
    pose proof (co_clock c Hc (ticks_read c - 1) (ticks_read c) ltac:(lia)).
    pose proof (co_clock c Hc (ticks_read c) (S (ticks_read c)) ltac:(lia)).
    split_and!; cbn; [lia|lia|done|lia].
Qed.

Lemma reset_ok : collector_ok (reset c).
Proof. split; cbn; [apply Hc|by intros id m H|done]. Qed.

Lemma drain_events_ok : collector_ok (drain_events c).2 ∧ Forall event_ok (drain_events c).1.
Proof. split; [|apply Hc]. split; cbn; [apply Hc|apply Hc|done]. Qed.
End steps.

(** The calls a collector receives. *)
Inductive metrics_call :=
  | Allocated (id : Z)
  | Accessed (id : Z)
  | Evicted (id : Z)
  | Reset
  | Drain.

Definition metrics_step (c : KVCacheMetricsCollector) (k : metrics_call)
    : KVCacheMetricsCollector :=
  match k with
  | Allocated id => on_block_allocated c id
  | Accessed id => on_block_accessed c id
  | Evicted id => on_block_evicted c id
  | Reset => reset c
  | Drain => (drain_events c).2
  end.

Lemma metrics_step_ok c k : collector_ok c → collector_ok (metrics_step c k).
Proof.
  intros Hc. destruct k; cbn.
  - by apply on_block_allocated_ok.
  - by apply on_block_accessed_ok.
  - by apply on_block_evicted_ok.
  - by apply reset_ok.
  - by apply drain_events_ok.
Qed.

(** Whatever calls a collector has received, with a monotonic clock every
    eviction event it hands out reports a non-negative lifetime and idle time
    and at most three reuse gaps, all non-negative. *)
Theorem metrics_events_sound clock draws rate c0 calls :
  (∀ i j, (i ≤ j)%nat → clock i ≤ clock j) →
  collector_init clock draws rate = Ok c0 →
  Forall event_ok (drain_events (foldl metrics_step c0 calls)).1.
Proof.
  intros Hclock Hinit. apply drain_events_ok.
  assert (collector_ok c0) as H0.
  { unfold collector_init in Hinit. inv_ok. split; cbn; [done|by intros|done]. }
  clear Hinit. revert c0 H0. induction calls as [|k calls IH]; intros c0 H0; cbn; [done|].
  apply IH. by apply metrics_step_ok.
Qed.

Definition example_calls : list metrics_call :=
  [Allocated 3; Accessed 3; Accessed 3; Evicted 3].
Definition example_collector : KVCacheMetricsCollector :=
  mkCollector (λ n, Z.of_nat n * 5) (λ _, 0%Q) 1%Q 0 0 ∅ [].

Lemma metrics_events_sound_witness :
  (drain_events (foldl metrics_step example_collector example_calls)).1 = [mkEviction 15 10 [5]] ∧
  Forall event_ok (drain_events (foldl metrics_step example_collector example_calls)).1.
Proof.
  split; [reflexivity|].
  apply (metrics_events_sound (λ n, Z.of_nat n * 5) (λ _, 0%Q) 1%Q); [|reflexivity].
  intros. lia.
Defined.
