(* ===== verification/HashMap.v ===== *)
(** * The prefix-cache index

    [BlockHashToBlockMap] of vllm/v1/core/block_pool.py: a dict from group-tagged
    hashes to a block, or, once two blocks carry the same hash, to a dict from
    block id to block.  Python dicts keep insertion order, and [get_one_block]
    returns the first entry, so an inner dict is an association list. *)

From S2P Require Import Prelude Blocks.

(** ** Insertion-ordered dicts *)

Section pydict.
Context {K V : Type} `{EqDecision K}.

Fixpoint dict_get (d : list (K * V)) (k : K) : option V :=
  match d with
  | [] => None
  | (k', v) :: d => if decide (k' = k) then Some v else dict_get d k
  end.

(** [d[k] = v]: an existing key keeps its place. *)
Fixpoint dict_set (d : list (K * V)) (k : K) (v : V) : list (K * V) :=
  match d with
  | [] => [(k, v)]
  | (k', v') :: d => if decide (k' = k) then (k, v) :: d else (k', v') :: dict_set d k v
  end.

Fixpoint dict_del (d : list (K * V)) (k : K) : list (K * V) :=
  match d with
  | [] => []
  | (k', v') :: d => if decide (k' = k) then d else (k', v') :: dict_del d k
  end.

Lemma dict_get_None d k : dict_get d k = None ↔ k ∉ d.*1.
Proof.
  induction d as [|[k' v'] d IH]; cbn; [split; [intros _; apply not_elem_of_nil|done]|].
  rewrite not_elem_of_cons, <- IH. case_decide; naive_solver.
Qed.

Lemma dict_get_Some d k v : NoDup d.*1 → dict_get d k = Some v ↔ (k, v) ∈ d.
Proof.
  induction d as [|[k' v'] d IH]; cbn; [intros _; split; [done|by intros ?%elem_of_nil]|].
  intros [Hk Hnd]%NoDup_cons. rewrite elem_of_cons. case_decide as E.
  - subst. split; [naive_solver|]. intros [?|Hin]; [naive_solver|].
    destruct Hk. apply list_elem_of_fmap. by exists (k, v).
  - rewrite IH by done. naive_solver.
Qed.

Lemma dict_set_new d k v : k ∉ d.*1 → dict_set d k v = d ++ [(k, v)].
Proof.
  induction d as [|[k' v'] d IH]; cbn; [done|]. intros [? ?]%not_elem_of_cons.
  rewrite decide_False by done. by rewrite IH.
Qed.

Lemma elem_of_dict_del d k x v :
  NoDup d.*1 → (x, v) ∈ dict_del d k ↔ (x, v) ∈ d ∧ x ≠ k.
Proof.
  induction d as [|[k' v'] d IH]; cbn; [intros _; set_solver|].
  intros [Hk Hnd]%NoDup_cons. case_decide as E.
  - subst. rewrite elem_of_cons. split.
    + intros Hin. split; [by right|]. intros ->. destruct Hk.
      apply list_elem_of_fmap. by exists (k, v).
    + intros [[?|?] ?]; naive_solver.
  - rewrite !elem_of_cons, IH by done. naive_solver.
Qed.

Lemma NoDup_dict_del d k : NoDup d.*1 → NoDup (dict_del d k).*1.
Proof.
  induction d as [|[k' v'] d IH]; cbn; [done|]. intros [Hk Hnd]%NoDup_cons.
  case_decide; [done|]. cbn. apply NoDup_cons. split; [|by apply IH].
  intros ([x v] & -> & Hin)%list_elem_of_fmap. apply elem_of_dict_del in Hin as [Hin _]; [|done].
  apply Hk, list_elem_of_fmap. by exists (x, v).
Qed.
End pydict.

Module BlockHashToBlockMap.

Inductive entry :=
  | One (block : ref)
  | Many (blocks : list (Z * ref)).

Abbreviation cache := (gmap bytes entry).

Section ops.
(** Block ids are read from the objects. *)
Context (st : store).

Definition get_one_block (c : cache) (key : bytes) : res (option ref) :=
  match c !! key with
  | None => Ok None
  | Some (One b) => Ok (Some b)
  | Some (Many []) => Err StopIteration
  | Some (Many ((_, b) :: _)) => Ok (Some b)
  end.

Definition insert (c : cache) (key : bytes) (block : ref) : cache :=
  match c !! key with
  | None => <[key := One block]> c
  | Some (One b) =>
      <[key := Many (dict_set [(block_id (st b), b)] (block_id (st block)) block)]> c
  | Some (Many d) => <[key := Many (dict_set d (block_id (st block)) block)]> c
  end.

Definition pop (c : cache) (key : bytes) (id : Z) : option ref * cache :=
  match c !! key with
  | None => (None, c)
  | Some (One b) =>
      if block_id (st b) =? id then (Some b, delete key c)
      else (None, <[key := One b]> (delete key c))
  | Some (Many d) =>
      let block := dict_get d id in
      let d := dict_del d id in
      if 0 <? zlen d then (block, <[key := Many d]> (delete key c))
      else (block, delete key c)
  end.

Definition size (c : cache) : Z := Z.of_nat (base.size c).
End ops.

(** ** Abstract view: a multimap

    The blocks filed under a key, in insertion order. *)

Definition entry_dict (st : store) (e : entry) : list (Z * ref) :=
  match e with One b => [(block_id (st b), b)] | Many d => d end.

Definition blocks_of (st : store) (c : cache) (key : bytes) : list (Z * ref) :=
  from_option (entry_dict st) [] (c !! key).

(** Inner dicts are non-empty, have each id once and file a block under its id. *)
Record map_wf (st : store) (c : cache) : Prop := {
  mw_nonempty : ∀ key d, c !! key = Some (Many d) → d ≠ [];
  mw_nodup : ∀ key, NoDup (blocks_of st c key).*1;
  mw_id : ∀ key id b, (id, b) ∈ blocks_of st c key → block_id (st b) = id;
}.

Lemma blocks_of_insert st c key e key' :
  blocks_of st (<[key := e]> c) key' =
    if decide (key = key') then entry_dict st e else blocks_of st c key'.
Proof. unfold blocks_of. rewrite lookup_insert. by case_decide. Qed.

Lemma blocks_of_delete st c key key' :
  blocks_of st (delete key c) key' =
    if decide (key = key') then [] else blocks_of st c key'.
Proof. unfold blocks_of. rewrite lookup_delete. by case_decide. Qed.

Lemma map_wf_empty st : map_wf st ∅.
Proof.
  split; unfold blocks_of; intros key; setoid_rewrite lookup_empty; cbn.
  - done.
  - apply NoDup_nil_2.
  - by intros ? ? ?%elem_of_nil.
Qed.

Lemma map_wf_frame st st' c :
  (∀ x, block_id (st' x) = block_id (st x)) → map_wf st c → map_wf st' c.
Proof.
  intros E [Hn Hd Hi].
  assert (Eb : ∀ key, blocks_of st' c key = blocks_of st c key).
  { intros key. unfold blocks_of. destruct (c !! key) as [[]|]; cbn; by rewrite ?E. }
  split.
  - exact Hn.
  - intros key. rewrite Eb. apply Hd.
  - intros key id b. rewrite Eb, E. apply Hi.
Qed.

Lemma blocks_of_frame st st' c key :
  (∀ x, block_id (st' x) = block_id (st x)) → blocks_of st' c key = blocks_of st c key.
Proof. intros E. unfold blocks_of. destruct (c !! key) as [[]|]; cbn; by rewrite ?E. Qed.

(** A lookup returns the block filed first under the key. *)
Lemma get_one_block_spec st c key :
  map_wf st c → get_one_block c key = Ok (head (blocks_of st c key).*2).
Proof.
  intros [Hn _ _]. unfold get_one_block, blocks_of.
  destruct (c !! key) as [[b|[|[id b] d]]|] eqn:E; cbn; [done| |done|done].
  by apply Hn in E.
Qed.

(** An insertion files the block last, if it is not filed there yet. *)
Lemma insert_spec st c key b :
  map_wf st c → block_id (st b) ∉ (blocks_of st c key).*1 →
  map_wf st (insert st c key b) ∧
  ∀ key', blocks_of st (insert st c key b) key' =
    if decide (key = key') then blocks_of st c key ++ [(block_id (st b), b)]
    else blocks_of st c key'.
Proof.
  intros [Hn Hd Hi] Hnew.
  assert (H : ∀ key', blocks_of st (insert st c key b) key' =
    if decide (key = key') then blocks_of st c key ++ [(block_id (st b), b)]
    else blocks_of st c key').
  { intros key'. unfold insert. unfold blocks_of at 2.
    unfold blocks_of in Hnew.
    destruct (c !! key) as [[b'|d]|] eqn:E; rewrite blocks_of_insert; case_decide; try done;
      cbn [entry_dict from_option] in *; by rewrite dict_set_new. }
  split; [|exact H]. split.
  - intros key' d. unfold insert.
    destruct (c !! key) as [[b'|d']|] eqn:E; intros [[_ Ed]|[_ ?]]%lookup_insert_Some;
      try done; try (by eapply Hn); injection Ed as <-.
    + cbn. by case_decide.
    + destruct d' as [|[k v] d']; cbn; [done|]. by case_decide.
  - intros key'. rewrite H. case_decide; [|apply Hd]. rewrite fmap_app. cbn.
    apply NoDup_app. split_and!; [apply Hd| |apply NoDup_singleton].
    by intros x Hx ->%list_elem_of_singleton.
  - intros key' id b'. rewrite H. case_decide; [|apply Hi].
    intros [?|E%list_elem_of_singleton]%elem_of_app; [by eapply Hi|]. by injection E as -> ->.
Qed.

(** A removal takes out the entry with the given id and nothing else. *)
Lemma pop_spec st c key id :
  map_wf st c →
  (pop st c key id).1 = dict_get (blocks_of st c key) id ∧
  map_wf st (pop st c key id).2 ∧
  ∀ key', blocks_of st (pop st c key id).2 key' =
    if decide (key = key') then dict_del (blocks_of st c key) id else blocks_of st c key'.
Proof.
  intros [Hn Hd Hi].
  assert (H : (pop st c key id).1 = dict_get (blocks_of st c key) id ∧
    ∀ key', blocks_of st (pop st c key id).2 key' =
      if decide (key = key') then dict_del (blocks_of st c key) id else blocks_of st c key').
  { unfold pop. destruct (c !! key) as [[b|d]|] eqn:E.
    - assert (blocks_of st c key = [(block_id (st b), b)]) as -> by (unfold blocks_of; by rewrite E).
      cbn. destruct (Z.eqb_spec (block_id (st b)) id) as [Hid|Hid]; cbn.
      + rewrite !decide_True by done. split; [done|]. apply blocks_of_delete.
      + rewrite !decide_False by done. split; [done|]. intros key'.
        rewrite blocks_of_insert, blocks_of_delete. by case_decide.
    - assert (blocks_of st c key = d) as -> by (unfold blocks_of; by rewrite E).
      destruct (Z.ltb_spec 0 (zlen (dict_del d id))) as [Hl|Hl]; cbn; (split; [done|]).
      + intros key'. rewrite blocks_of_insert, blocks_of_delete. by case_decide.
      + intros key'. rewrite blocks_of_delete. case_decide; [|done].
        pose proof (zlen_nonneg (dict_del d id)). symmetry. apply zlen_0. lia.
    - assert (blocks_of st c key = []) as -> by (unfold blocks_of; by rewrite E).
      cbn. split; [done|]. intros key'. case_decide; [|done]. subst. unfold blocks_of. by rewrite E. }
  destruct H as [H1 H]. split; [exact H1|]. split; [|exact H]. split.
  - intros key' d. unfold pop. destruct (c !! key) as [[b|d']|] eqn:E.
    + destruct (_ =? _); cbn; [by intros [_ ?]%lookup_delete_Some; eauto|].
      intros [[_ ?]|[_ [_ ?]%lookup_delete_Some]]%lookup_insert_Some; [done|by eauto].
    + destruct (Z.ltb_spec 0 (zlen (dict_del d' id))) as [Hl|Hl]; cbn.
      * intros [[_ [= <-]]|[_ [_ ?]%lookup_delete_Some]]%lookup_insert_Some; [|by eauto].
        intros Ed. by rewrite Ed in Hl.
      * intros [_ ?]%lookup_delete_Some. by eauto.
    + cbn. apply Hn.
  - intros key'. rewrite H. case_decide; [|apply Hd]. apply NoDup_dict_del, Hd.
  - intros key' id' b. rewrite H. case_decide; [|apply Hi].
    intros [Hin _]%elem_of_dict_del; [|apply Hd]. by eapply Hi.
Qed.

(** C25: The prefix-cache index implements a multimap from keys to ordered blocks:
    a lookup gives the block filed first, an insertion of a new block files it
    last, a removal deletes exactly the named block, and no operation touches
    another key or breaks the well-formedness of the inner dicts. *)
Theorem index_is_multimap st c key b id :
  map_wf st c → block_id (st b) ∉ (blocks_of st c key).*1 →
  get_one_block c key = Ok (head (blocks_of st c key).*2)
  ∧ (∀ key', blocks_of st (insert st c key b) key' =
       if decide (key = key') then blocks_of st c key ++ [(block_id (st b), b)]
       else blocks_of st c key')
  ∧ (pop st c key id).1 = dict_get (blocks_of st c key) id
  ∧ (∀ key', blocks_of st (pop st c key id).2 key' =
       if decide (key = key') then dict_del (blocks_of st c key) id else blocks_of st c key')
  ∧ map_wf st (insert st c key b) ∧ map_wf st (pop st c key id).2.
Proof.
  intros Hwf Hnew. destruct (insert_spec st c key b Hwf Hnew), (pop_spec st c key id Hwf) as (?&?&?).
  split_and!; try done. by apply get_one_block_spec.
Qed.

Definition example_store : store :=
  λ r, match r with RBlk i => new_block (Z.of_nat i) | _ => new_block (-1) end.

Lemma index_is_multimap_witness :
  let c := insert example_store (insert example_store ∅ [7] (RBlk 4)) [7] (RBlk 2) in
  get_one_block c [7] = Ok (Some (RBlk 4)) ∧
  (pop example_store c [7] 4).1 = Some (RBlk 4) ∧
  get_one_block (pop example_store c [7] 4).2 [7] = Ok (Some (RBlk 2)).
Proof.
  set (c1 := insert example_store ∅ [7] (RBlk 4)).
  assert (H1 : map_wf example_store c1).
  { apply (index_is_multimap example_store ∅ [7] (RBlk 4) 0); [apply map_wf_empty|].
    vm_compute. apply not_elem_of_nil. }
  destruct (index_is_multimap example_store c1 [7] (RBlk 2) 4 H1) as (_ & Ei & _ & _ & H2 & _).
  { eapply bool_decide_eq_true_1. vm_compute. reflexivity. }
  destruct (index_is_multimap example_store _ [7] (RBlk 3) 4 H2) as (Eg & _ & Ep & Eb & _ & H3).
  { rewrite Ei. eapply bool_decide_eq_true_1. vm_compute. reflexivity. }
  cbv zeta. split; [|split].
  - rewrite Eg, Ei. vm_compute. reflexivity.
  - rewrite Ep, Ei. vm_compute. reflexivity.
  - rewrite (get_one_block_spec example_store) by exact H3. rewrite Eb, Ei.
    vm_compute. reflexivity.
Defined.

End BlockHashToBlockMap.
