(* ===== verification/BlockPool.v ===== *)
(** * The block pool

    [BlockPool] of vllm/v1/core/block_pool.py: allocation, reference counting,
    prefix-cache registration and eviction of KV-cache blocks. *)

From Stdlib Require Import QArith.
From S2P Require Import Prelude Blocks FreeQueue Request BlockHash Metrics HashMap.
#[local] Open Scope Z_scope.
Import FreeKVCacheBlockQueue.
Module Idx := BlockHashToBlockMap.

(** The KV-cache events of vllm/distributed/kv_events.py; the medium is always
    [MEDIUM_GPU]. *)
Inductive KVCacheEvent :=
  | BlockStored (block_hashes : list ExternalBlockHash)
      (parent_block_hash : option ExternalBlockHash) (token_ids : list Z) (block_size : Z)
      (lora_id : option Z) (lora_name : option string)
      (extra_keys : option (list (option (list ExtraKey))))
  | BlockRemoved (block_hashes : list ExternalBlockHash)
  | AllBlocksCleared.

(** The free queue's store is the store of all block objects. *)
Record BlockPool := mkPool {
  num_gpu_blocks : Z;
  enable_caching : bool;
  hash_block_size : Z;
  blocks : list ref;
  free_block_queue : queue;
  cached_block_hash_to_block : Idx.cache;
  null_block : ref;
  enable_kv_cache_events : bool;
  kv_event_queue : list KVCacheEvent;
  metrics_collector : option KVCacheMetricsCollector;
}.

Definition p_store (p : BlockPool) : store := q_store (free_block_queue p).

Definition with_queue (p : BlockPool) (q : queue) : BlockPool :=
  mkPool (num_gpu_blocks p) (enable_caching p) (hash_block_size p) (blocks p) q
    (cached_block_hash_to_block p) (null_block p) (enable_kv_cache_events p)
    (kv_event_queue p) (metrics_collector p).
Definition with_store (p : BlockPool) (st : store) : BlockPool :=
  with_queue p (mkQueue st (num_free_blocks (free_block_queue p))).
Definition with_cache (p : BlockPool) (c : Idx.cache) : BlockPool :=
  mkPool (num_gpu_blocks p) (enable_caching p) (hash_block_size p) (blocks p)
    (free_block_queue p) c (null_block p) (enable_kv_cache_events p)
    (kv_event_queue p) (metrics_collector p).
Definition with_events (p : BlockPool) (ev : list KVCacheEvent) : BlockPool :=
  mkPool (num_gpu_blocks p) (enable_caching p) (hash_block_size p) (blocks p)
    (free_block_queue p) (cached_block_hash_to_block p) (null_block p)
    (enable_kv_cache_events p) ev (metrics_collector p).
Definition with_collector (p : BlockPool) (c : option KVCacheMetricsCollector) : BlockPool :=
  mkPool (num_gpu_blocks p) (enable_caching p) (hash_block_size p) (blocks p)
    (free_block_queue p) (cached_block_hash_to_block p) (null_block p)
    (enable_kv_cache_events p) (kv_event_queue p) c.

(** [if self.metrics_collector: self.metrics_collector.on_...(block)] *)
Definition collect (f : KVCacheMetricsCollector → Z → KVCacheMetricsCollector)
    (p : BlockPool) (b : ref) : BlockPool :=
  with_collector p ((λ c, f c (block_id (p_store p b))) <$> metrics_collector p).

(** ** Operations *)

(** The objects before the pool is built: [KVCacheBlock(idx)] for each index. *)
Definition initial_store : store :=
  λ r, match r with RBlk i => new_block (Z.of_nat i) | _ => new_block (-1) end.

Definition pool_init (n : Z) (caching : bool) (hash_bs : Z) (events : bool)
    (collector : option KVCacheMetricsCollector) : res BlockPool :=
  ASSERT 0 <? n;
  let blks := RBlk <$> seq 0 (Z.to_nat n) in
  '(null, q) ← popleft (init blks initial_store);
  let q := mkQueue (put_null (q_store q) null true) (num_free_blocks q) in
  Ok (mkPool n caching hash_bs blks q ∅ null events [] collector).

Definition get_num_free_blocks (p : BlockPool) : Z := num_free_blocks (free_block_queue p).

(** [None] on a miss for any group. *)
Fixpoint get_cached_block (p : BlockPool) (block_hash : bytes) (kv_cache_group_ids : list Z)
    : res (option (list ref)) :=
  match kv_cache_group_ids with
  | [] => Ok (Some [])
  | group_id :: rest =>
      key ← make_block_hash_with_group_id block_hash group_id;
      block ← Idx.get_one_block (cached_block_hash_to_block p) key;
      match block with
      | None => Ok None
      | Some b =>
          others ← get_cached_block p block_hash rest;
          Ok (match others with Some l => Some (b :: l) | None => None end)
      end
  end.

Section pool.
(** [envs.VLLM_KV_EVENTS_USE_INT_BLOCK_HASHES] and [hashlib.sha256]. *)
Context (use_int : bool) (sha256 : bytes → bytes).

Definition maybe_evict_cached_block (p : BlockPool) (block : ref) : bool * BlockPool :=
  let p := collect on_block_evicted p block in
  match block_hash (p_store p block) with
  | None => (false, p)
  | Some h =>
      let '(popped, c) :=
        Idx.pop (p_store p) (cached_block_hash_to_block p) h (block_id (p_store p block)) in
      let p := with_cache p c in
      match popped with
      | None => (false, p)
      | Some _ =>
          let p := with_store p (reset_hash (p_store p) block) in
          let p :=
            if enable_kv_cache_events p then
              with_events p (kv_event_queue p ++
                [BlockRemoved [maybe_convert_block_hash use_int (get_block_hash h)]])
            else p in
          (true, p)
      end
  end.

(** The body of the loops of [get_new_blocks]. *)
Definition take_block (p : BlockPool) (block : ref) : res BlockPool :=
  let p := if enable_caching p then (maybe_evict_cached_block p block).2 else p in
  ASSERT ref_cnt (p_store p block) =? 0;
  let p := with_store p (add_ref (p_store p) block 1) in
  Ok (collect on_block_allocated p block).

Definition get_new_blocks (p : BlockPool) (num_blocks : Z) : res (list ref * BlockPool) :=
  RAISE ValueError IF get_num_free_blocks p <? num_blocks;
  '(ret, q) ← popleft_n (free_block_queue p) num_blocks;
  p ← rfold take_block (with_queue p q) ret;
  Ok (ret, p).

Definition touch_one (p : BlockPool) (block : ref) : res BlockPool :=
  p ← (if (ref_cnt (p_store p block) =? 0) && negb (is_null (p_store p block)) then
         q ← remove (free_block_queue p) block; Ok (with_queue p q)
       else Ok p);
  let p := with_store p (add_ref (p_store p) block 1) in
  Ok (collect on_block_accessed p block).

Definition touch (p : BlockPool) (blks : list ref) : res BlockPool := rfold touch_one p blks.

Definition free_blocks (p : BlockPool) (ordered_blocks : list ref) : res BlockPool :=
  let st := fold_left (λ st b, add_ref st b (-1)) ordered_blocks (p_store p) in
  let p := with_store p st in
  q ← append_n (free_block_queue p)
        (filter (λ b, ref_cnt (st b) = 0 ∧ is_null (st b) = false) ordered_blocks);
  Ok (with_queue p q).

(** [block_ids] in the iteration order of the set. *)
Definition evict_blocks (p : BlockPool) (block_ids : list Z) : res BlockPool :=
  rfold (λ p id,
    ASSERT id <? zlen (blocks p);
    block ← py_index (blocks p) id;
    Ok (maybe_evict_cached_block p block).2) p block_ids.

Definition reset_prefix_cache (p : BlockPool) : bool * BlockPool :=
  let num_used_blocks := num_gpu_blocks p - get_num_free_blocks p in
  if negb (num_used_blocks =? 1) then (false, p) else
  let p := with_cache p ∅ in
  let p := with_store p (fold_left reset_hash (blocks p) (p_store p)) in
  let p := with_collector p (Metrics.reset <$> metrics_collector p) in
  let p :=
    if enable_kv_cache_events p then with_events p (kv_event_queue p ++ [AllBlocksCleared])
    else p in
  (true, p).

(** [get_usage], as an exact fraction. *)
Definition get_usage (p : BlockPool) : Q :=
  let total_gpu_blocks := num_gpu_blocks p - 1 in
  if total_gpu_blocks =? 0 then 0%Q
  else (1 - inject_Z (get_num_free_blocks p) / inject_Z total_gpu_blocks)%Q.

Definition take_events (p : BlockPool) : list KVCacheEvent * BlockPool :=
  if negb (enable_kv_cache_events p) then ([], p)
  else (kv_event_queue p, with_events p []).

(** [block_hashes] of [cache_full_blocks]: the request's hashes at the
    granularity of [block_size]. *)
Definition hashes_at (p : BlockPool) (hashes : list bytes) (block_size : Z) : res BlockHashList :=
  if block_size =? hash_block_size p then Ok (PlainHashes hashes)
  else
    RAISE ZeroDivisionError IF hash_block_size p =? 0;
    ASSERT block_size `mod` hash_block_size p =? 0;
    ScaledHashes <$> hash_list_init hashes (hash_block_size p) block_size.

(** The body of the loop that registers block [i] of [new_full_blocks]. *)
Definition cache_one (new_block_hashes : list bytes) (kv_cache_group_id : Z)
    (s : BlockPool * list ExternalBlockHash) (ib : Z * ref)
    : res (BlockPool * list ExternalBlockHash) :=
  let '(p, new_hashes) := s in
  let '(i, blk) := ib in
  if is_null (p_store p blk) then Ok s else
  ASSERT bool_decide (block_hash (p_store p blk) = None);
  block_hash ← py_index new_block_hashes i;
  key ← make_block_hash_with_group_id block_hash kv_cache_group_id;
  st ← set_block_hash (p_store p) blk key;
  let p := with_store p st in
  let p := with_cache p (Idx.insert (p_store p) (cached_block_hash_to_block p) key blk) in
  Ok (p, if enable_kv_cache_events p
         then new_hashes ++ [maybe_convert_block_hash use_int block_hash] else new_hashes).

(** The loop that collects the extra keys of the stored blocks for the event. *)
Definition event_keys_step (p : BlockPool) (blks : list ref) (block_size : Z)
    (s : list (option (list ExtraKey)) * Z * Request) (i : Z)
    : res (list (option (list ExtraKey)) * Z * Request) :=
  let '(keys, curr_mm_idx, r) := s in
  b ← py_index blks i;
  if is_null (p_store p b) then Ok s else
  '(k, curr_mm_idx, r) ←
    generate_block_hash_extra_keys sha256 r (i * block_size) (i * block_size + block_size)
      curr_mm_idx;
  Ok (keys ++ [k], curr_mm_idx, r).

Definition stored_event (p : BlockPool) (r : Request) (blks : list ref)
    (view : BlockHashList) (new_hashes : list ExternalBlockHash)
    (num_cached_blocks num_full_blocks block_size : Z) : res (KVCacheEvent * Request) :=
  parent ← (if num_cached_blocks =? 0 then Ok None
            else h ← bhl_get view (num_cached_blocks - 1);
                 Ok (Some (maybe_convert_block_hash use_int h)));
  '(keys, _, r) ← rfold (event_keys_step p blks block_size) ([], 0, r)
                    (zrange num_cached_blocks num_full_blocks);
  Ok (BlockStored new_hashes parent
        (py_slice (all_token_ids r) (num_cached_blocks * block_size)
           (num_full_blocks * block_size))
        block_size (lora_int_id <$> lora_request r) (lora_name <$> lora_request r)
        (match keys with [] => None | _ => Some keys end), r).

(** The request is returned because the event's extra keys may fill its cache
    of prompt-embedding digests. *)
Definition cache_full_blocks (p : BlockPool) (r : Request) (blks : list ref)
    (num_cached_blocks num_full_blocks block_size kv_cache_group_id : Z)
    : res (BlockPool * Request) :=
  if num_full_blocks <=? num_cached_blocks then Ok (p, r) else
  let new_full_blocks := py_slice blks num_cached_blocks num_full_blocks in
  ASSERT num_full_blocks <=? zlen (block_hashes r);
  view ← hashes_at p (block_hashes r) block_size;
  new_block_hashes ← bhl_from view num_cached_blocks;
  '(p, new_hashes) ←
    rfold (cache_one new_block_hashes kv_cache_group_id) (p, [])
      (zip (zrange 0 (zlen new_full_blocks)) new_full_blocks);
  if enable_kv_cache_events p then
    '(ev, r) ← stored_event p r blks view new_hashes num_cached_blocks num_full_blocks block_size;
    Ok (with_events p (kv_event_queue p ++ [ev]), r)
  else Ok (p, r).
End pool.
