(* ===== verification/PoolInv.v ===== *)
(** * The block-pool invariant

    The abstract state of the pool is the list [fl] of free blocks in eviction
    order, the multiset [own] of references the clients hold, and the set [R]
    of blocks withdrawn from circulation without a reference (the sink blocks;
    inside an allocation, the blocks popped but not yet counted).  [PoolInv]
    ties them to the objects: a block is free exactly when nobody holds it, its
    counter is the number of references held, and the prefix-cache index lists
    exactly the blocks that carry a hash.  Each operation is specified by its
    effect on [R], [own] and [fl]. *)

From S2P Require Import Prelude Blocks FreeQueue Request BlockHash Metrics HashMap BlockPool.
Import FreeKVCacheBlockQueue.

(** ** The invariant *)

Record PoolData (R : gset ref) (own : gmultiset ref) (p : BlockPool) : Prop := {
  pd_pos : 0 < num_gpu_blocks p;
  pd_blocks : blocks p = RBlk <$> seq 0 (Z.to_nat (num_gpu_blocks p));
  pd_id : ∀ i, RBlk i ∈ blocks p → block_id (p_store p (RBlk i)) = Z.of_nat i;
  pd_null : null_block p = RBlk 0;
  pd_is_null : ∀ r, r ∈ blocks p → (is_null (p_store p r) = true) ↔ r = null_block p;
  pd_null_hash : block_hash (p_store p (null_block p)) = None;
  pd_R : ∀ r, r ∈ R → r ∈ blocks p ∧ r ≠ null_block p;
  pd_own : ∀ r, r ∈ own → r ∈ blocks p ∧ r ∉ R;
  pd_cnt : ∀ r, r ∈ blocks p → r ≠ null_block p →
    ref_cnt (p_store p r) = Z.of_nat (multiplicity r own);
  pd_map : Idx.map_wf (p_store p) (cached_block_hash_to_block p);
  pd_cache : ∀ key r,
    (r ∈ (Idx.blocks_of (p_store p) (cached_block_hash_to_block p) key).*2) ↔
    r ∈ blocks p ∧ block_hash (p_store p r) = Some key;
}.

Record PoolInv (R : gset ref) (own : gmultiset ref) (p : BlockPool) (fl : list ref) : Prop := {
  pi_rep : free_rep (free_block_queue p) fl;
  pi_free : ∀ r, r ∈ fl ↔
    (r ∈ blocks p) ∧ r ≠ null_block p ∧ (r ∉ R) ∧ ref_cnt (p_store p r) = 0;
  pi_data : PoolData R own p;
}.

(** The parts of the pool no operation changes. *)
Record same_pool (p p' : BlockPool) : Prop := {
  sp_num : num_gpu_blocks p' = num_gpu_blocks p;
  sp_caching : enable_caching p' = enable_caching p;
  sp_hash_bs : hash_block_size p' = hash_block_size p;
  sp_blocks : blocks p' = blocks p;
  sp_null : null_block p' = null_block p;
  sp_events : enable_kv_cache_events p' = enable_kv_cache_events p;
  sp_id : ∀ r, block_id (p_store p' r) = block_id (p_store p r);
  sp_is_null : ∀ r, is_null (p_store p' r) = is_null (p_store p r);
}.

#[export] Instance same_pool_preorder : PreOrder same_pool.
Proof.
  split.
  - done.
  - intros p1 p2 p3 [] []. split; intros; congruence.
Qed.

Lemma elem_of_blocks R own p i :
  PoolData R own p → RBlk i ∈ blocks p ↔ (i < Z.to_nat (num_gpu_blocks p))%nat.
Proof.
  intros H. rewrite (pd_blocks _ _ _ H), list_elem_of_fmap. setoid_rewrite elem_of_seq.
  naive_solver lia.
Qed.

Lemma blocks_blk R own p r : PoolData R own p → r ∈ blocks p → is_blk r.
Proof.
  intros H. rewrite (pd_blocks _ _ _ H). by intros (i & -> & _)%list_elem_of_fmap.
Qed.

Lemma blocks_nodup R own p : PoolData R own p → NoDup (blocks p).
Proof. intros H. rewrite (pd_blocks _ _ _ H). apply NoDup_fmap_2; [by intros ? ? [=]|apply NoDup_seq]. Qed.

Lemma null_in_blocks R own p : PoolData R own p → null_block p ∈ blocks p.
Proof.
  intros H. rewrite (pd_null _ _ _ H). eapply elem_of_blocks; [done|].
  pose proof (pd_pos _ _ _ H). lia.
Qed.

(** Block ids identify the blocks of the pool. *)
Lemma block_id_inj R own p r1 r2 :
  PoolData R own p → r1 ∈ blocks p → r2 ∈ blocks p →
  block_id (p_store p r1) = block_id (p_store p r2) → r1 = r2.
Proof.
  intros H H1 H2. pose proof (blocks_blk _ _ _ _ H H1). pose proof (blocks_blk _ _ _ _ H H2).
  destruct r1 as [| |i1], r2 as [| |i2]; try done. rewrite !(pd_id _ _ _ H) by done. intros ?. f_equal. lia.
Qed.

(** ** Framing *)

(** Data facts survive any change of the free-list links. *)
Lemma PoolData_queue R own p q :
  same_data (p_store p) (q_store q) → PoolData R own p → PoolData R own (with_queue p q).
Proof.
  intros Hd H. assert (Hid : ∀ x, block_id (q_store q x) = block_id (p_store p x)) by apply Hd.
  destruct H as [? ? Hi ? Hn Hnh ? ? Hc Hm Hk]. split; cbn; try done.
  - intros i Hin. unfold p_store. cbn. rewrite Hid. by apply Hi.
  - intros r Hr. unfold p_store. cbn. destruct (Hd r) as (_&_&_&->). by apply Hn.
  - unfold p_store. cbn. destruct (Hd (null_block p)) as (_&_&->&_). done.
  - intros r Hr Hnr. unfold p_store. cbn. destruct (Hd r) as (_&->&_&_). by apply Hc.
  - eapply Idx.map_wf_frame; [|exact Hm]. exact Hid.
  - intros key r. unfold p_store. cbn. rewrite (Idx.blocks_of_frame (p_store p)) by exact Hid.
    rewrite Hk. destruct (Hd r) as (_&_&->&_). done.
Qed.

Lemma same_pool_queue p q :
  same_data (p_store p) (q_store q) → same_pool p (with_queue p q).
Proof. intros Hd. split; try done; intros r; apply Hd. Qed.

Lemma PoolInv_with_collector R own p fl c :
  PoolInv R own p fl → PoolInv R own (with_collector p c) fl.
Proof. intros [Hr Hf []]. by split; [..|split]. Qed.
Lemma PoolInv_with_events R own p fl ev :
  PoolInv R own p fl → PoolInv R own (with_events p ev) fl.
Proof. intros [Hr Hf []]. by split; [..|split]. Qed.
#[export] Hint Resolve PoolInv_with_collector PoolInv_with_events : py.

Lemma PoolInv_collect R own p fl f b :
  PoolInv R own p fl → PoolInv R own (collect f p b) fl.
Proof. unfold collect. eauto with py. Qed.
#[export] Hint Resolve PoolInv_collect : py.

(** A change of reference counters that keeps the links, hashes and ids. *)
Lemma PoolData_counts R own R' own' p st :
  PoolData R own p →
  (∀ x, block_id (st x) = block_id (p_store p x) ∧ block_hash (st x) = block_hash (p_store p x)
      ∧ is_null (st x) = is_null (p_store p x)) →
  (∀ r, r ∈ R' → r ∈ blocks p ∧ r ≠ null_block p) →
  (∀ r, r ∈ own' → r ∈ blocks p ∧ r ∉ R') →
  (∀ r, r ∈ blocks p → r ≠ null_block p → ref_cnt (st r) = Z.of_nat (multiplicity r own')) →
  PoolData R' own' (with_store p st).
Proof.
  intros [? ? Hi ? Hn Hnh _ _ _ Hm Hk] Hd HR Ho Hc.
  assert (Hid : ∀ x, block_id (st x) = block_id (p_store p x)) by apply Hd.
  split; cbn; try done.
  - intros i Hin. unfold p_store. cbn. rewrite Hid. by apply Hi.
  - intros r Hr. unfold p_store. cbn. destruct (Hd r) as (_&_&->). by apply Hn.
  - unfold p_store. cbn. destruct (Hd (null_block p)) as (_&->&_). done.
  - eapply Idx.map_wf_frame; [|exact Hm]. exact Hid.
  - intros key r. unfold p_store. cbn. rewrite (Idx.blocks_of_frame (p_store p)) by exact Hid.
    rewrite Hk. destruct (Hd r) as (_&->&_). done.
Qed.

Lemma free_rep_store p st l :
  free_rep (free_block_queue p) l →
  (∀ x, next_free_block (st x) = next_free_block (p_store p x) ∧
        prev_free_block (st x) = prev_free_block (p_store p x)) →
  free_rep (free_block_queue (with_store p st)) l.
Proof. intros H E. eapply free_rep_frame; [exact H|done|exact E]. Qed.

(** ** Eviction from the prefix cache *)

Lemma filed_block R own p b h :
  PoolData R own p → b ∈ blocks p → block_hash (p_store p b) = Some h →
  (block_id (p_store p b), b) ∈ Idx.blocks_of (p_store p) (cached_block_hash_to_block p) h.
Proof.
  intros H Hb Hh. pose proof (proj2 (pd_cache _ _ _ H h b) (conj Hb Hh)) as Hin.
  apply list_elem_of_fmap in Hin as ([id b'] & -> & Hin). cbn in *.
  by rewrite (Idx.mw_id _ _ (pd_map _ _ _ H) _ _ _ Hin).
Qed.

Lemma PoolData_drop_hash R own p b h c :
  PoolData R own p → b ∈ blocks p → block_hash (p_store p b) = Some h →
  Idx.map_wf (p_store p) c →
  (∀ key, Idx.blocks_of (p_store p) c key =
     if decide (h = key)
     then dict_del (Idx.blocks_of (p_store p) (cached_block_hash_to_block p) h)
            (block_id (p_store p b))
     else Idx.blocks_of (p_store p) (cached_block_hash_to_block p) key) →
  PoolData R own (with_store (with_cache p c) (reset_hash (p_store p) b)).
Proof.
  intros H Hb Hh Hm Hc. pose proof (filed_block _ _ _ _ _ H Hb Hh) as Hfiled.
  pose proof (block_id_inj R own p) as Hinj.
  destruct (H) as [? ? Hi ? Hn Hnh ? ? Hcnt Hm0 Hk].
  assert (Hid : ∀ x, block_id (reset_hash (p_store p) b x) = block_id (p_store p x))
    by (intros; unfold reset_hash; by autorewrite with store).
  split; cbn; try done; unfold p_store; cbn; unfold reset_hash; fold (p_store p).
  - intros i Hin. autorewrite with store. by apply Hi.
  - intros r Hr. autorewrite with store. by apply Hn.
  - autorewrite with store. by case_decide.
  - intros r Hr Hnr. autorewrite with store. by apply Hcnt.
  - eapply Idx.map_wf_frame; [|exact Hm]. exact Hid.
  - intros key r. rewrite (Idx.blocks_of_frame (p_store p)) by exact Hid.
    rewrite Hc, hash_put_hash. destruct (decide (h = key)) as [->|Hne].
    + rewrite list_elem_of_fmap. split.
      * intros ([id r'] & -> & [Hin Hne]%elem_of_dict_del); [|apply Hm0]. cbn.
        apply (Idx.mw_id _ _ Hm0) in Hin as Eid.
        rewrite decide_False by congruence. apply Hk, list_elem_of_fmap. by exists (id, r').
      * intros [Hr Hh']. case_decide; [done|].
        exists (block_id (p_store p r), r). split; [done|]. apply elem_of_dict_del; [apply Hm0|].
        split; [by eapply filed_block|]. intros E. by apply Hinj in E.
    + rewrite Hk. case_decide as Hd; [|done]. subst. rewrite Hh. naive_solver.
Qed.

Section eviction.
Context (use_int : bool).

(** The block loses its hash; nothing else about the pool's state changes. *)
Lemma maybe_evict_spec R own p fl b p' ev :
  PoolInv R own p fl → b ∈ blocks p → maybe_evict_cached_block use_int p b = (ev, p') →
  PoolInv R own p' fl ∧ same_pool p p' ∧ block_hash (p_store p' b) = None
  ∧ ev = bool_decide (is_Some (block_hash (p_store p b)))
  ∧ (∀ r, ref_cnt (p_store p' r) = ref_cnt (p_store p r))
  ∧ (∀ r, r ≠ b → block_hash (p_store p' r) = block_hash (p_store p r)).
Proof.
  intros H Hb. unfold maybe_evict_cached_block.
  set (p1 := collect on_block_evicted p b). assert (H1 : PoolInv R own p1 fl) by eauto with py.
  assert (E1 : p_store p1 = p_store p) by done. assert (Hb1 : b ∈ blocks p1) by done.
  rewrite E1. destruct (block_hash (p_store p b)) as [h|] eqn:Eh.
  2: { intros [= <- <-]. rewrite E1. by split_and!. }
  destruct H1 as [Hr Hf H1].
  destruct (Idx.pop_spec (p_store p) (cached_block_hash_to_block p1) h
    (block_id (p_store p b)) (pd_map _ _ _ H1)) as (Ep & Hm & Hc).
  destruct (Idx.pop _ _ _ _) as [popped c]. cbn in Ep, Hm, Hc.
  assert (popped = Some b) as ->.
  { rewrite Ep. apply dict_get_Some; [apply (pd_map _ _ _ H1)|]. by apply (filed_block R own p1). }
  set (p2 := with_store (with_cache p1 c) _).
  assert (H2 : PoolInv R own p2 fl).
  { split.
    - eapply (free_rep_store (with_cache p1 c)); [exact Hr|].
      intros x. unfold reset_hash. by autorewrite with store.
    - intros r. rewrite Hf. unfold p2, p_store. cbn. unfold reset_hash.
      by autorewrite with store.
    - by apply (PoolData_drop_hash R own p1 b h). }
  intros [= <- <-].
  assert (Hres : PoolInv R own p2 fl ∧ same_pool p p2 ∧ block_hash (p_store p2 b) = None
    ∧ true = bool_decide (is_Some (Some h))
    ∧ (∀ r, ref_cnt (p_store p2 r) = ref_cnt (p_store p r))
    ∧ (∀ r, r ≠ b → block_hash (p_store p2 r) = block_hash (p_store p r))).
  { split_and!; [done| |..].
    - split; try done; intros r; unfold p2, p_store; cbn; unfold reset_hash;
        by autorewrite with store.
    - unfold p2, p_store. cbn. unfold reset_hash. rewrite hash_put_hash. by case_decide.
    - done.
    - intros r. unfold p2, p_store. cbn. unfold reset_hash. by autorewrite with store.
    - intros r Hne. unfold p2, p_store. cbn. unfold reset_hash. rewrite hash_put_hash.
      by case_decide. }
  destruct (enable_kv_cache_events p); [|exact Hres].
  destruct Hres as (Ha & [] & Hrest). split_and!; try apply Hrest; [eauto with py|by split|done..].
Qed.
End eviction.

(** ** Allocation *)

Lemma PoolInv_proper R R' own own' p fl :
  R ≡ R' → own = own' → PoolInv R own p fl → PoolInv R' own' p fl.
Proof.
  intros HR ->. by assert (R = R') as -> by set_solver.
Qed.

Lemma same_pool_add_ref p b d f :
  same_pool p (collect f (with_store p (add_ref (p_store p) b d)) b).
Proof. split; try done; intros r; unfold p_store; cbn; by autorewrite with store. Qed.

Section allocation.
Context (use_int : bool).

(** The effect on the store common to the operations that change one counter. *)
Lemma PoolInv_add_ref R R' own own' p fl b d :
  PoolInv R own p fl → b ∈ blocks p → b ≠ null_block p → b ∉ fl →
  ref_cnt (p_store p b) + d ≠ 0 →
  ref_cnt (p_store p b) + d = Z.of_nat (multiplicity b own') →
  (∀ r, r ≠ b → multiplicity r own' = multiplicity r own) →
  (b ∉ R') → (∀ r, r ≠ b → r ∈ R' ↔ r ∈ R) →
  PoolInv R' own' (with_store p (add_ref (p_store p) b d)) fl.
Proof.
  intros [Hr Hf Hd] Hb Hnb Hbf Hd0 Hcb Hco HbR HR. split.
  - eapply free_rep_store; [exact Hr|]. intros x. by autorewrite with store.
  - intros r. rewrite Hf. unfold p_store. cbn. rewrite ref_add_ref. fold (p_store p).
    case_decide as E; [subst r|rewrite (HR r) by done; done].
    split; [|naive_solver]. intros H. destruct Hbf. by apply Hf.
  - eapply PoolData_counts; [exact Hd|by intros; autorewrite with store|..].
    + intros r Hin. apply (pd_R _ _ _ Hd), HR; [|done]. by intros ->.
    + intros r Hin. destruct (decide (r = b)) as [->|Hne]; [done|].
      destruct (pd_own _ _ _ Hd r) as [? HnR].
      { rewrite elem_of_multiplicity in *. by rewrite <- Hco. }
      split; [done|]. by rewrite HR.
    + intros r Hrb Hrn. rewrite ref_add_ref. case_decide; [by subst|].
      rewrite Hco by done. by apply (pd_cnt _ _ _ Hd).
Qed.

Lemma take_block_spec R own p fl b :
  PoolInv R own p fl → b ∈ R →
  ∃ p', take_block use_int p b = Ok p' ∧ PoolInv (R ∖ {[b]}) (own ⊎ {[+ b +]}) p' fl
    ∧ same_pool p p' ∧ (enable_caching p = true → block_hash (p_store p' b) = None)
    ∧ (∀ r, r ≠ b → block_hash (p_store p' r) = block_hash (p_store p r)).
Proof.
  intros H HbR. destruct (pd_R _ _ _ (pi_data _ _ _ _ H) b HbR) as [Hb Hnb].
  assert (Hm : multiplicity b own = 0%nat).
  { destruct (decide (b ∈ own)) as [Hin|Hin].
    - by apply (pd_own _ _ _ (pi_data _ _ _ _ H)) in Hin as [_ ?].
    - rewrite elem_of_multiplicity in Hin. lia. }
  unfold take_block. set (p1 := if enable_caching p then _ else p).
  assert (H1 : PoolInv R own p1 fl ∧ same_pool p p1
    ∧ (enable_caching p = true → block_hash (p_store p1 b) = None)
    ∧ (∀ r, r ≠ b → block_hash (p_store p1 r) = block_hash (p_store p r))).
  { unfold p1. destruct (enable_caching p); [|done].
    destruct (maybe_evict_cached_block use_int p b) as [ev p'] eqn:E.
    destruct (maybe_evict_spec use_int R own p fl b p' ev) as (?&?&?&_&_&?); done. }
  clearbody p1. destruct H1 as (H1 & Hs & Hh & Hho).
  assert (Hb1 : b ∈ blocks p1) by (by rewrite (sp_blocks _ _ Hs)).
  assert (Hnb1 : b ≠ null_block p1) by (by rewrite (sp_null _ _ Hs)).
  assert (Hc : ref_cnt (p_store p1 b) = 0).
  { rewrite (pd_cnt _ _ _ (pi_data _ _ _ _ H1)) by done. by rewrite Hm. }
  cbv zeta. rewrite Hc. cbn [Z.eqb]. eexists. split; [done|].
  assert (Hbf : b ∉ fl) by (rewrite (pi_free _ _ _ _ H1); tauto).
  split_and!.
  - apply PoolInv_collect. eapply PoolInv_add_ref; [done..| | | | |].
    + lia.
    + rewrite multiplicity_disj_union, multiplicity_singleton_eq. lia.
    + intros r Hne. rewrite multiplicity_disj_union, multiplicity_singleton_ne by done. lia.
    + set_solver.
    + set_solver.
  - etrans; [exact Hs|]. by apply same_pool_add_ref.
  - intros Hcache. unfold p_store. cbn. autorewrite with store. by apply Hh.
  - intros r Hne. unfold p_store. cbn. autorewrite with store. by apply Hho.
Qed.

Lemma take_blocks_spec l R own p fl :
  NoDup l → (∀ x, x ∈ l → x ∉ R) → PoolInv (R ∪ list_to_set l) own p fl →
  ∃ p', rfold (take_block use_int) p l = Ok p' ∧ PoolInv R (own ⊎ list_to_set_disj l) p' fl
    ∧ same_pool p p'
    ∧ (enable_caching p = true → ∀ b, b ∈ l → block_hash (p_store p' b) = None)
    ∧ (∀ r, r ∉ l → block_hash (p_store p' r) = block_hash (p_store p r)).
Proof.
  revert own p. induction l as [|b l IH]; intros own p Hnd HR H; cbn [rfold].
  { exists p. split; [done|]. split; [|split_and!; [done| |done]].
    - eapply PoolInv_proper; [..|exact H]; [set_solver|multiset_solver].
    - by intros _ b ?%elem_of_nil. }
  apply NoDup_cons in Hnd as [Hbl Hnd].
  destruct (take_block_spec (R ∪ list_to_set (b :: l)) own p fl b) as (p1 & E1 & H1 & Hs1 & Hh1 & Ho1);
    [done|set_solver|]. rewrite E1. cbn [mbind res_bind].
  destruct (IH (own ⊎ {[+ b +]}) p1) as (p2 & E2 & H2 & Hs2 & Hh2 & Ho2); [done|set_solver| |].
  { eapply PoolInv_proper; [..|exact H1]; [|done].
    pose proof (HR b ltac:(by left)). set_solver. }
  exists p2. split; [done|]. split_and!.
  - eapply PoolInv_proper; [..|exact H2]; [done|]. rewrite list_to_set_disj_cons.
    multiset_solver.
  - by etrans.
  - intros Hc x [->|Hx]%elem_of_cons.
    + rewrite Ho2 by done. by apply Hh1.
    + apply Hh2; [|done]. by rewrite (sp_caching _ _ Hs1).
  - intros r [? ?]%not_elem_of_cons. rewrite Ho2 by done. by apply Ho1.
Qed.

Lemma pop_free R own p fl n q :
  PoolInv R own p fl → free_rep q (drop n fl) → same_data (p_store p) (q_store q) →
  PoolInv (R ∪ list_to_set (take n fl)) own (with_queue p q) (drop n fl).
Proof.
  intros [Hr Hf Hd] Hq Hs. pose proof (fr_nodup _ _ Hr) as Hnd. split.
  - done.
  - intros r. unfold p_store. cbn. destruct (Hs r) as (_&->&_&_).
    rewrite not_elem_of_union, elem_of_list_to_set. split.
    + intros Hin. assert (Hin' : r ∈ fl) by eauto with py.
      apply Hf in Hin' as (?&?&?&?). split_and!; try done.
      intros Ht. by apply (NoDup_take_drop _ _ _ Hnd) in Ht.
    + intros (?&?&[? Ht]&?). assert (Hin : r ∈ fl) by (by apply Hf).
      rewrite <- (take_drop n fl) in Hin. apply elem_of_app in Hin as [?|?]; done.
  - assert (PoolData R own (with_queue p q)) as Hd' by (by apply PoolData_queue).
    destruct Hd' as [? ? ? ? ? ? HR Ho Hc ? ?]. split; try done.
    + intros r [?|Hin%elem_of_list_to_set]%elem_of_union; [by apply HR|].
      apply elem_of_take_1, Hf in Hin. naive_solver.
    + intros r Hin. destruct (Ho r Hin). split; [done|].
      rewrite not_elem_of_union, elem_of_list_to_set. split; [done|].
      intros Ht%elem_of_take_1%Hf. destruct Ht as (Hb & Hn & _ & Hz).
      rewrite (pd_cnt _ _ _ Hd) in Hz by done.
      rewrite elem_of_multiplicity in Hin. lia.
Qed.

Lemma get_new_blocks_spec R own p fl n :
  PoolInv R own p fl → 0 ≤ n ≤ get_num_free_blocks p →
  ∃ p', get_new_blocks use_int p n = Ok (take (Z.to_nat n) fl, p')
    ∧ PoolInv R (own ⊎ list_to_set_disj (take (Z.to_nat n) fl)) p' (drop (Z.to_nat n) fl)
    ∧ same_pool p p'
    ∧ (enable_caching p = true →
         ∀ b, b ∈ take (Z.to_nat n) fl → block_hash (p_store p' b) = None)
    ∧ (∀ r, r ∉ take (Z.to_nat n) fl → block_hash (p_store p' r) = block_hash (p_store p r)).
Proof.
  intros H Hn. destruct (H) as [Hr Hf Hd]. unfold get_new_blocks, get_num_free_blocks in *.
  rewrite (proj2 (Z.ltb_ge _ _)) by lia.
  destruct (popleft_n_rep _ _ n Hr) as (q & -> & Hq & Hs); [rewrite <- (fr_num _ _ Hr); lia|].
  cbn [mbind res_bind].
  destruct (take_blocks_spec (take (Z.to_nat n) fl) R own (with_queue p q) (drop (Z.to_nat n) fl))
    as (p' & -> & H' & Hs' & Hh & Ho).
  - apply NoDup_take, Hr.
  - intros x Hx%elem_of_take_1. apply Hf in Hx. tauto.
  - by apply pop_free.
  - exists p'. cbn. split; [done|]. split; [done|]. split.
    { etrans; [|exact Hs']. by apply same_pool_queue. }
    split; [done|]. intros r Hr'. rewrite Ho by done. apply Hs.
Qed.

Lemma get_new_blocks_short p n :
  get_num_free_blocks p < n → get_new_blocks use_int p n = Err ValueError.
Proof. intros. unfold get_new_blocks. by rewrite (proj2 (Z.ltb_lt _ _)). Qed.
End allocation.

(** ** Touching cached blocks *)

(** The null block's counter is not maintained: any change of it is harmless. *)
Lemma PoolInv_add_ref_null R own own' p fl d :
  PoolInv R own p fl →
  (∀ r, r ≠ null_block p → multiplicity r own' = multiplicity r own) →
  (∀ r, r ∈ own' → r ∈ own ∨ r = null_block p) →
  PoolInv R own' (with_store p (add_ref (p_store p) (null_block p) d)) fl.
Proof.
  intros [Hr Hf Hd] Hm Ho. split.
  - eapply free_rep_store; [exact Hr|]. intros x. by autorewrite with store.
  - intros r. rewrite Hf. unfold p_store. cbn. rewrite ref_add_ref. fold (p_store p).
    case_decide; naive_solver.
  - eapply PoolData_counts; [exact Hd|by intros; autorewrite with store|apply Hd|..].
    + intros r [Hin| ->]%Ho; [by apply Hd|]. split; [by eapply null_in_blocks|].
      intros HR. by apply (pd_R _ _ _ Hd) in HR as [_ ?].
    + intros r Hb Hn. rewrite ref_add_ref, decide_False by done.
      rewrite Hm by done. by apply Hd.
Qed.

(** Taking a free block off the list without counting it yet. *)
Lemma remove_free R own p l1 b l2 q :
  PoolInv R own p (l1 ++ b :: l2) → free_rep q (l1 ++ l2) →
  same_data (p_store p) (q_store q) →
  PoolInv (R ∪ {[b]}) own (with_queue p q) (l1 ++ l2).
Proof.
  intros [Hr Hf Hd] Hq Hs. pose proof (fr_nodup _ _ Hr) as Hnd.
  assert (Hb : b ∈ l1 ++ b :: l2) by set_solver. split; [done| |].
  - intros r. unfold p_store. cbn. destruct (Hs r) as (_&->&_&_). fold (p_store p).
    specialize (Hf r). rewrite <- Permutation_middle, NoDup_cons in Hnd.
    rewrite <- Permutation_middle, elem_of_cons in Hf.
    rewrite not_elem_of_union, not_elem_of_singleton.
    destruct (decide (r = b)); naive_solver.
  - assert (PoolData R own (with_queue p q)) as Hd' by (by apply PoolData_queue).
    apply Hf in Hb as (Hbb & Hbn & HbR & Hbz).
    destruct Hd' as [? ? ? ? ? ? HR Ho Hc ? ?]. split; try done.
    + intros r [?|Hin%elem_of_singleton]%elem_of_union; [by apply HR|]. by subst.
    + intros r Hin. destruct (Ho r Hin). split; [done|].
      rewrite not_elem_of_union, not_elem_of_singleton. split; [done|]. intros ->.
      rewrite (pd_cnt _ _ _ Hd) in Hbz by done. rewrite elem_of_multiplicity in Hin. lia.
Qed.

Lemma filter_ne_id b (l : list ref) : b ∉ l → filter (λ x : ref, x ≠ b) l = l.
Proof. intros H. apply list_filter_all, Forall_forall. by intros x Hx ->. Qed.

Lemma touch_one_spec R own p fl b :
  PoolInv R own p fl → b ∈ blocks p → b ∉ R →
  ∃ p', touch_one p b = Ok p'
    ∧ PoolInv R (own ⊎ {[+ b +]}) p' (filter (λ x, x ≠ b) fl)
    ∧ same_pool p p' ∧ (∀ r, block_hash (p_store p' r) = block_hash (p_store p r)).
Proof.
  intros H Hb HbR. destruct (H) as [Hr Hf Hd]. unfold touch_one.
  destruct (decide (b = null_block p)) as [->|Hnb].
  { rewrite (proj2 (pd_is_null _ _ _ Hd _ Hb)) by done. rewrite andb_false_r. cbn.
    eexists. split; [done|]. rewrite filter_ne_id by (rewrite Hf; tauto).
    split; [|split; [apply same_pool_add_ref|by intros; unfold p_store; cbn; autorewrite with store]].
    apply PoolInv_collect. eapply PoolInv_add_ref_null; [done|..].
    - intros r Hne. rewrite multiplicity_disj_union, multiplicity_singleton_ne by done. lia.
    - intros r. multiset_solver. }
  assert (Hnn : is_null (p_store p b) = false).
  { apply not_true_iff_false. by rewrite (pd_is_null _ _ _ Hd). }
  rewrite Hnn, andb_true_r. pose proof (pd_cnt _ _ _ Hd b Hb Hnb) as Hc.
  destruct (Z.eqb_spec (ref_cnt (p_store p b)) 0) as [Hz|Hz].
  - assert (Hin : b ∈ fl) by (by apply Hf).
    apply list_elem_of_split in Hin as (l1 & l2 & ->).
    rewrite filter_ne_split by apply Hr.
    destruct (remove_rep _ _ _ _ Hr) as (q & -> & Hq & Hs). cbn.
    eexists. split; [done|]. split; [|split].
    + apply PoolInv_collect.
      assert (Hbn : b ∉ l1 ++ l2).
      { pose proof (fr_nodup _ _ Hr) as Hnd. rewrite <- Permutation_middle, NoDup_cons in Hnd. tauto. }
      eapply (PoolInv_add_ref (R ∪ {[b]}) R own); [by eapply remove_free|done..| | | | |].
      * unfold p_store. cbn. destruct (Hs b) as (_&->&_&_). fold (p_store p). lia.
      * unfold p_store. cbn. destruct (Hs b) as (_&->&_&_). fold (p_store p).
        rewrite multiplicity_disj_union, multiplicity_singleton_eq. lia.
      * intros r Hne. rewrite multiplicity_disj_union, multiplicity_singleton_ne by done. lia.
      * done.
      * set_solver.
    + etrans; [by apply same_pool_queue|apply same_pool_add_ref].
    + intros r. unfold p_store. cbn. autorewrite with store. apply Hs.
  - cbn. eexists. split; [done|].
    assert (b ∉ fl) by (rewrite Hf; tauto). rewrite filter_ne_id by done.
    split; [|split; [apply same_pool_add_ref|by intros; unfold p_store; cbn; autorewrite with store]].
    apply PoolInv_collect. eapply (PoolInv_add_ref R R own); [done..| | | | |].
    + lia.
    + rewrite multiplicity_disj_union, multiplicity_singleton_eq. lia.
    + intros r Hne. rewrite multiplicity_disj_union, multiplicity_singleton_ne by done. lia.
    + done.
    + done.
Qed.

Lemma filter_filter_not_in (b : ref) (l fl : list ref) :
  filter (λ x, x ∉ l) (filter (λ x, x ≠ b) fl) = filter (λ x, x ∉ b :: l) fl.
Proof.
  rewrite list_filter_filter. apply list_filter_iff. intros x. rewrite not_elem_of_cons. naive_solver.
Qed.

Lemma touch_spec l R own p fl :
  PoolInv R own p fl → (∀ b, b ∈ l → b ∈ blocks p ∧ b ∉ R) →
  ∃ p', touch p l = Ok p'
    ∧ PoolInv R (own ⊎ list_to_set_disj l) p' (filter (λ x, x ∉ l) fl)
    ∧ same_pool p p' ∧ (∀ r, block_hash (p_store p' r) = block_hash (p_store p r)).
Proof.
  unfold touch. revert own p fl. induction l as [|b l IH]; intros own p fl H Hl; cbn [rfold].
  { exists p. split; [done|]. split; [|done]. rewrite list_filter_all.
    - eapply PoolInv_proper; [done| |exact H]. multiset_solver.
    - apply Forall_forall. intros x _. apply not_elem_of_nil. }
  destruct (Hl b) as [Hb HbR]; [by left|].
  destruct (touch_one_spec R own p fl b) as (p1 & -> & H1 & Hs1 & Hh1); [done..|].
  cbn [mbind res_bind].
  destruct (IH _ p1 _ H1) as (p2 & -> & H2 & Hs2 & Hh2).
  { intros x Hx. rewrite (sp_blocks _ _ Hs1). apply Hl. by right. }
  exists p2. split; [done|]. split; [|split].
  - rewrite filter_filter_not_in in H2. eapply PoolInv_proper; [done| |exact H2].
    rewrite list_to_set_disj_cons. multiset_solver.
  - by etrans.
  - intros r. by rewrite Hh2.
Qed.

(** ** Freeing *)

Definition dec_refs (st : store) (l : list ref) : store :=
  fold_left (λ st b, add_ref st b (-1)) l st.

Lemma dec_refs_fields l st x :
  block_id (dec_refs st l x) = block_id (st x)
  ∧ block_hash (dec_refs st l x) = block_hash (st x)
  ∧ is_null (dec_refs st l x) = is_null (st x)
  ∧ next_free_block (dec_refs st l x) = next_free_block (st x)
  ∧ prev_free_block (dec_refs st l x) = prev_free_block (st x)
  ∧ ref_cnt (dec_refs st l x) =
      ref_cnt (st x) - Z.of_nat (multiplicity x (list_to_set_disj l : gmultiset ref)).
Proof.
  revert st. induction l as [|b l IH]; intros st; cbn [dec_refs fold_left].
  - rewrite list_to_set_disj_nil, multiplicity_empty. split_and!; try done. lia.
  - fold (dec_refs (add_ref st b (-1)) l). destruct (IH (add_ref st b (-1))) as (->&->&->&->&->&->).
    autorewrite with store. split_and!; try done.
    rewrite list_to_set_disj_cons, multiplicity_disj_union, multiplicity_singleton.
    repeat case_decide; lia.
Qed.

(** The blocks of [l] that become free: those whose last reference is in [l]. *)
Definition released (p : BlockPool) (own : gmultiset ref) (l : list ref) : list ref :=
  filter (λ b, b ≠ null_block p ∧
    multiplicity b own = multiplicity b (list_to_set_disj l : gmultiset ref)) l.

Section freeing.
Context (R : gset ref) (own : gmultiset ref) (p : BlockPool) (fl l : list ref).
Hypothesis H : PoolInv R own p fl.
Hypothesis Hsub : list_to_set_disj l ⊆ own.

Lemma freed_in_own b : b ∈ l → b ∈ own ∧ b ∈ blocks p ∧ b ∉ R.
Proof using H Hsub.
  intros Hb. assert (b ∈ own) as Ho.
  { apply elem_of_list_to_set_disj in Hb. rewrite elem_of_multiplicity in *.
    pose proof (Hsub b). lia. }
  split; [done|]. by apply (pd_own _ _ _ (pi_data _ _ _ _ H)).
Qed.

Lemma released_filter :
  filter (λ b, ref_cnt (dec_refs (p_store p) l b) = 0 ∧ is_null (dec_refs (p_store p) l b) = false) l
    = released p own l.
Proof using H Hsub.
  pose proof (pi_data _ _ _ _ H) as Hd. unfold released. apply list_filter_iff'.
  intros b Hb. destruct (freed_in_own b Hb) as (_ & Hbb & _).
  destruct (dec_refs_fields l (p_store p) b) as (_&_&->&_&_&->).
  pose proof (pd_is_null _ _ _ Hd b Hbb) as Hn. destruct (is_null (p_store p b)).
  - naive_solver.
  - assert (b ≠ null_block p) by naive_solver. rewrite (pd_cnt _ _ _ Hd) by done.
    naive_solver lia.
Qed.

Lemma free_blocks_spec :
  NoDup (filter (λ b, b ≠ null_block p) l) →
  ∃ p', free_blocks p l = Ok p'
    ∧ PoolInv R (own ∖ list_to_set_disj l) p' (fl ++ released p own l)
    ∧ same_pool p p' ∧ (∀ r, block_hash (p_store p' r) = block_hash (p_store p r)).
Proof using H Hsub.
  intros Hnd. destruct (H) as [Hr Hf Hd]. unfold free_blocks. cbv zeta.
  fold (dec_refs (p_store p) l). rewrite released_filter.
  set (st := dec_refs (p_store p) l). set (p1 := with_store p st).
  assert (Hin : ∀ b, b ∈ released p own l →
    b ≠ null_block p ∧ b ∈ own ∧ b ∈ blocks p ∧ (b ∉ R) ∧ b ∈ l).
  { intros b [[Hn _] Hb]%list_elem_of_filter. destruct (freed_in_own b Hb) as (?&?&?). done. }
  assert (Hpos : ∀ b, b ∈ own → (0 < multiplicity b own)%nat)
    by (intros b; by rewrite elem_of_multiplicity).
  destruct (append_n_rep (free_block_queue p1) fl (released p own l)) as (q & -> & Hq & Hs).
  { eapply free_rep_store; [exact Hr|]. intros x. by destruct (dec_refs_fields l (p_store p) x)
      as (_&_&_&?&?&_). }
  { eapply sublist_NoDup; [exact Hnd|]. unfold released.
    erewrite <- (list_filter_filter_l _ (λ b, b ≠ null_block p)); [apply sublist_filter|tauto]. }
  { apply Forall_forall. intros b (_&_&Hb&_)%Hin. by eapply blocks_blk. }
  { intros b (Hn & Ho & _ & _)%Hin Hb%Hf. destruct Hb as (Hb & _ & _ & Hz).
    rewrite (pd_cnt _ _ _ Hd) in Hz by done. specialize (Hpos b Ho). lia. }
  cbn. eexists. split; [done|].
  assert (Hc : ∀ r, r ∈ blocks p → r ≠ null_block p →
    ref_cnt (st r) = Z.of_nat (multiplicity r (own ∖ list_to_set_disj l))).
  { intros r Hb Hn. unfold st. destruct (dec_refs_fields l (p_store p) r) as (_&_&_&_&_&->).
    rewrite (pd_cnt _ _ _ Hd), multiplicity_difference by done. pose proof (Hsub r). lia. }
  assert (Hd1 : PoolData R (own ∖ list_to_set_disj l) p1).
  { eapply PoolData_counts; [exact Hd| |apply Hd| |exact Hc].
    - intros x. destruct (dec_refs_fields l (p_store p) x) as (?&?&?&_). done.
    - intros r Hr'. apply (pd_own _ _ _ Hd). multiset_solver. }
  split_and!.
  - split; [exact Hq| |by apply (PoolData_queue _ _ p1)].
    intros r. unfold p_store. cbn. destruct (Hs r) as (_&->&_&_).
    change (q_store (free_block_queue p1)) with st.
    rewrite elem_of_app, Hf. split.
    + intros [(Hb & Hn & HR & Hz)|Hrel].
      * split_and!; try done. rewrite Hc by done. rewrite (pd_cnt _ _ _ Hd) in Hz by done.
        rewrite multiplicity_difference. lia.
      * destruct (Hin r Hrel) as (?&?&?&?&_). split_and!; try done. rewrite Hc by done.
        apply list_elem_of_filter in Hrel as [[_ Em] _]. rewrite multiplicity_difference. lia.
    + intros (Hb & Hn & HR & Hz). rewrite Hc, multiplicity_difference in Hz by done.
      pose proof (Hsub r). destruct (decide (r ∈ l)) as [Hl|Hl].
      * right. apply list_elem_of_filter. split; [|done]. split; [done|]. lia.
      * left. split_and!; try done. rewrite (pd_cnt _ _ _ Hd) by done.
        rewrite <- (elem_of_list_to_set_disj (A:=ref)), not_elem_of_multiplicity in Hl. lia.
  - etrans; [|apply (same_pool_queue p1); exact Hs].
    split; try done; intros r; unfold p_store; cbn;
      by destruct (dec_refs_fields l (p_store p) r) as (?&?&?&?).
  - intros r. unfold p_store. cbn. destruct (Hs r) as (_&_&->&_).
    by destruct (dec_refs_fields l (p_store p) r) as (?&?&?&?).
Qed.
End freeing.

(** ** Registration in the prefix cache *)

(** The hashes [hs], computed every [hbs] tokens, at block size [bs]. *)
Definition group_hashes (hbs bs : Z) (hs : list bytes) : list bytes :=
  if bs =? hbs then hs else merged_hashes (Z.to_nat (bs / hbs)) hs.

Lemma hashes_at_views p hs bs :
  0 < hash_block_size p → 0 < bs → bs `mod` hash_block_size p = 0 →
  ∃ v, hashes_at p hs bs = Ok v ∧ bhl_views v (group_hashes (hash_block_size p) bs hs).
Proof.
  intros Hh Hbs Hm. unfold hashes_at, group_hashes.
  destruct (Z.eqb_spec bs (hash_block_size p)) as [E|E].
  { eexists. split; [done|]. apply plain_views. }
  rewrite (proj2 (Z.eqb_neq (hash_block_size p) 0)) by lia. unfold hash_list_init.
  rewrite (proj2 (Z.eqb_neq (hash_block_size p) 0)) by lia.
  rewrite (proj2 (Z.eqb_eq _ _) Hm). cbn. eexists. split; [done|].
  apply Z.div_exact in Hm; [|lia]. set (q := bs / hash_block_size p) in *.
  assert (0 < q) by nia. rewrite <- (Z2Nat.id q) at 1 by lia. apply scaled_views. lia.
Qed.

Section caching.
Context (use_int : bool).

Lemma PoolData_add_hash R own p b key :
  PoolData R own p → b ∈ blocks p → b ≠ null_block p → block_hash (p_store p b) = None →
  PoolData R own
    (with_cache (with_store p (put_hash (p_store p) b (Some key)))
       (Idx.insert (put_hash (p_store p) b (Some key)) (cached_block_hash_to_block p) key b)).
Proof.
  intros H Hb Hn Hh. pose proof (block_id_inj R own p) as Hinj.
  destruct (H) as [? ? Hi ? Hin Hnh ? ? Hcnt Hm Hk].
  set (st := put_hash (p_store p) b (Some key)).
  assert (Hid : ∀ x, block_id (st x) = block_id (p_store p x))
    by (intros; unfold st; by autorewrite with store).
  assert (Hm' : Idx.map_wf st (cached_block_hash_to_block p))
    by (eapply Idx.map_wf_frame; [|exact Hm]; exact Hid).
  destruct (Idx.insert_spec st (cached_block_hash_to_block p) key b Hm') as [Hm2 Hc].
  { rewrite (Idx.blocks_of_frame (p_store p)), Hid by exact Hid.
    intros ([id r] & E & Hr)%list_elem_of_fmap. cbn in E. subst id.
    apply (Idx.mw_id _ _ Hm) in Hr as E.
    assert (r ∈ blocks p ∧ block_hash (p_store p r) = Some key) as [Hrb Hrh].
    { apply Hk, list_elem_of_fmap. by eexists (_, r). }
    apply Hinj in E; [|done..]. congruence. }
  split; cbn; try done; unfold p_store; cbn; unfold st; fold (p_store p).
  - intros i Hr. autorewrite with store. by apply Hi.
  - intros r Hr. autorewrite with store. by apply Hin.
  - rewrite hash_put_hash. by case_decide.
  - intros r Hr Hnr. autorewrite with store. by apply Hcnt.
  - intros key' r. fold st. rewrite Hc. rewrite (Idx.blocks_of_frame (p_store p)) by exact Hid.
    unfold st. rewrite hash_put_hash. destruct (decide (key = key')) as [->|Hne].
    + rewrite fmap_app, elem_of_app, Hk. cbn. rewrite list_elem_of_singleton.
      case_decide; naive_solver.
    + rewrite (Idx.blocks_of_frame (p_store p)), Hk by exact Hid. case_decide; naive_solver.
Qed.

Lemma cache_one_spec R own p fl hs gid nh i b h :
  PoolInv R own p fl → 0 ≤ gid < 2 ^ 32 → b ∈ blocks p → b ≠ null_block p →
  block_hash (p_store p b) = None → 0 ≤ i → hs !! Z.to_nat i = Some h →
  ∃ p' nh', cache_one use_int hs gid (p, nh) (i, b) = Ok (p', nh')
    ∧ PoolInv R own p' fl ∧ same_pool p p'
    ∧ nh' = (if enable_kv_cache_events p then nh ++ [maybe_convert_block_hash use_int h] else nh)
    ∧ block_hash (p_store p' b) = Some (h ++ be_encode 4 gid)
    ∧ (∀ r, r ≠ b → block_hash (p_store p' r) = block_hash (p_store p r)).
Proof.
  intros H Hg Hb Hn Hh Hi Hl. destruct (H) as [Hr Hf Hd]. unfold cache_one.
  destruct (is_null (p_store p b)) eqn:En; [by apply (pd_is_null _ _ _ Hd) in En|].
  rewrite bool_decide_true by done.
  rewrite (proj2 (py_index_nonneg hs i h Hi) Hl). cbn [mbind res_bind].
  rewrite make_key_total by done. cbn [mbind res_bind]. unfold set_block_hash.
  rewrite bool_decide_true by done. cbn [mbind res_bind]. do 2 eexists. split; [done|].
  split; [|split; [|split; [done|split]]].
  - split.
    + eapply free_rep_frame; [exact Hr|done|]. intros x. cbn. by autorewrite with store.
    + intros r. rewrite Hf. unfold p_store. cbn. by autorewrite with store.
    + by apply (PoolData_add_hash R own p).
  - split; try done; intros r; unfold p_store; cbn; by autorewrite with store.
  - unfold p_store. cbn. rewrite hash_put_hash. by case_decide.
  - intros r Hne. unfold p_store. cbn. rewrite hash_put_hash. by case_decide.
Qed.

Lemma cache_one_null p hs gid nh i b :
  is_null (p_store p b) = true → cache_one use_int hs gid (p, nh) (i, b) = Ok (p, nh).
Proof. intros E. unfold cache_one. by rewrite E. Qed.

(** The blocks that [cache_full_blocks] may register under the hashes [hs],
    starting with hash number [k]. *)
Definition cacheable (p : BlockPool) (hs : list bytes) (k : nat) (l : list ref) : Prop :=
  NoDup (filter (λ b, b ≠ null_block p) l) ∧
  ∀ j b, l !! j = Some b → b ∈ blocks p ∧
    (b ≠ null_block p → block_hash (p_store p b) = None ∧ is_Some (hs !! (k + j)%nat)).

Definition count_real (p : BlockPool) (l : list ref) : Z :=
  zlen (filter (λ b, b ≠ null_block p) l).

(** After registration, block [j] of [l] carries hash [k + j] of [hs]. *)
Definition registered (p p' : BlockPool) (hs : list bytes) (k : nat) (gid : Z) (l : list ref)
    : Prop :=
  (∀ j b h, l !! j = Some b → b ≠ null_block p → hs !! (k + j)%nat = Some h →
     block_hash (p_store p' b) = Some (h ++ be_encode 4 gid)) ∧
  (∀ r, (r ∉ l) ∨ r = null_block p → block_hash (p_store p' r) = block_hash (p_store p r)).

Lemma cacheable_cons p hs k b l : cacheable p hs k (b :: l) → cacheable p hs (S k) l.
Proof.
  intros [Hnd Hl]. split.
  - rewrite filter_cons in Hnd. case_decide; [|done]. by apply NoDup_cons in Hnd as [_ ?].
  - intros j x Hj. specialize (Hl (S j) x Hj). by rewrite Nat.add_succ_r in Hl.
Qed.

Lemma cache_fold_spec l R own p fl hs gid nh k :
  PoolInv R own p fl → 0 ≤ gid < 2 ^ 32 → cacheable p hs k l →
  ∃ p' nh', rfold (cache_one use_int hs gid) (p, nh)
              (zip (zrange (Z.of_nat k) (Z.of_nat k + zlen l)) l) = Ok (p', nh')
    ∧ PoolInv R own p' fl ∧ same_pool p p' ∧ registered p p' hs k gid l
    ∧ (enable_kv_cache_events p = true → zlen nh' = zlen nh + count_real p l).
Proof.
  intros H Hg. revert p nh k H. induction l as [|b l IH]; intros p nh k H Hc.
  { rewrite zlen_nil, zrange_nil by lia. cbn. exists p, nh.
    split_and!; [done..| |intros _; unfold count_real; rewrite filter_nil, zlen_nil; lia]. by split. }
  pose proof (cacheable_cons _ _ _ _ _ Hc) as Hc'. destruct Hc as [Hnd Hl].
  rewrite zlen_cons, zrange_cons by (pose proof (zlen_nonneg l); lia). cbn [zip rfold].
  replace (Z.of_nat k + (zlen l + 1)) with (Z.of_nat (S k) + zlen l) by lia.
  replace (Z.of_nat k + 1) with (Z.of_nat (S k)) by lia.
  destruct (Hl 0%nat b) as [Hb Hbh]; [done|]. rewrite Nat.add_0_r in Hbh.
  destruct (decide (b = null_block p)) as [Hn|Hn].
  - rewrite cache_one_null by (by apply (pd_is_null _ _ _ (pi_data _ _ _ _ H))).
    cbn [mbind res_bind]. destruct (IH p nh (S k) H Hc') as (p' & nh' & -> & H' & Hs & [Hr Ho] & He).
    exists p', nh'. split_and!; [done..| |].
    + split.
      * intros [|j] x h Hj Hx Hh; cbn in Hj; [congruence|].
        apply (Hr j x h); [done..|]. by rewrite Nat.add_succ_r in Hh.
      * intros r [Hr'|Hr']; apply Ho; [left; set_solver|by right].
    + intros E. unfold count_real. rewrite filter_cons_False by tauto. by apply He.
  - destruct (Hbh Hn) as [Hh0 [h Eh]].
    destruct (cache_one_spec R own p fl hs gid nh (Z.of_nat k) b h)
      as (p1 & nh1 & -> & H1 & Hs1 & Enh & Ehb & Eho); [done..|lia|by rewrite Nat2Z.id|].
    cbn [mbind res_bind].
    assert (Hbl : b ∉ l).
    { rewrite filter_cons_True, NoDup_cons in Hnd by done. destruct Hnd as [Hnd _].
      intros Hin. apply Hnd. by apply list_elem_of_filter. }
    destruct (IH p1 nh1 (S k) H1) as (p' & nh' & -> & H' & Hs & [Hr Ho] & He).
    { destruct Hc' as [Hnd' Hl']. split; [by rewrite (sp_null _ _ Hs1)|].
      intros j x Hj. rewrite (sp_null _ _ Hs1), (sp_blocks _ _ Hs1), Eho; [by apply Hl'|].
      intros ->. apply Hbl. by eapply list_elem_of_lookup_2. }
    rewrite (sp_null _ _ Hs1) in Hr, Ho.
    exists p', nh'. split_and!; [done|done|by etrans| |].
    + split.
      * intros [|j] x h' Hj Hx Hh'; cbn in Hj.
        -- injection Hj as <-. rewrite Ho by (by left). rewrite Nat.add_0_r in Hh'. congruence.
        -- apply (Hr j x h'); [done..|]. by rewrite Nat.add_succ_r in Hh'.
      * intros r Hr'. rewrite Ho by (destruct Hr'; [left; set_solver|by right]).
        apply Eho. destruct Hr'; [set_solver|congruence].
    + intros E. unfold count_real in *. rewrite filter_cons_True, zlen_cons by done.
      rewrite (sp_events _ _ Hs1), (sp_null _ _ Hs1) in He.
      rewrite He by done. rewrite Enh, E, zlen_app, zlen_cons, zlen_nil. lia.
Qed.

Context (sha256 : bytes → bytes).

Lemma mm_ready_mono feats s s' idx : s ≤ s' → mm_ready feats s idx → mm_ready feats s' idx.
Proof.
  intros Hs [?|[? Hf]]; [by left|right]. split; [done|].
  eapply Forall_impl; [exact Hf|]. cbn. lia.
Qed.

Lemma event_keys_spec p blks bs n a keys idx r :
  0 < bs → mm_wf (mm_features r) → 0 ≤ a → a + Z.of_nat n ≤ zlen blks →
  embed_cache_ok sha256 r → mm_ready (mm_features r) (a * bs) idx →
  ∃ keys' idx' r', rfold (event_keys_step sha256 p blks bs) (keys, idx, r)
                     (zrange a (a + Z.of_nat n)) = Ok (keys', idx', r')
    ∧ same_request r r' ∧ embed_cache_ok sha256 r'
    ∧ zlen keys' = zlen keys +
        zlen (filter (λ b, is_null (p_store p b) = false) (take n (drop (Z.to_nat a) blks))).
Proof.
  intros Hbs. revert a keys idx r. induction n as [|n IH]; intros a keys idx r Hwf Ha Hn Hc Hr.
  { rewrite zrange_nil by lia. cbn. exists keys, idx, r. split_and!; try done.
    rewrite take_0, filter_nil, zlen_nil. lia. }
  rewrite zrange_cons by lia. cbn [rfold].
  destruct (lookup_lt_is_Some_2 blks (Z.to_nat a)) as [b Eb]; [unfold zlen in Hn; lia|].
  unfold event_keys_step at 2. rewrite (proj2 (py_index_nonneg blks a b Ha) Eb).
  cbn [mbind res_bind]. rewrite (drop_S _ _ _ Eb). cbn [take].
  replace (a + Z.of_nat (S n)) with (a + 1 + Z.of_nat n) by lia.
  replace (S (Z.to_nat a)) with (Z.to_nat (a + 1)) by lia.
  destruct (is_null (p_store p b)) eqn:En; cbn [mbind res_bind].
  - rewrite filter_cons_False by congruence. apply IH; try done; try lia.
    eapply mm_ready_mono; [|exact Hr]. lia.
  - destruct (generate_spec sha256 r (a * bs) (a * bs + bs) idx)
      as (idx' & r1 & -> & Hs1 & Hc1 & Hr1); [done..|lia|]. cbn [mbind res_bind].
    assert (Em : mm_features r1 = mm_features r) by (by rewrite Hs1).
    destruct (IH (a + 1) (keys ++ [keys_or_none (extra_keys sha256 r (a * bs) (a * bs + bs))]) idx' r1)
      as (k2 & i2 & r2 & -> & Hs2 & Hc2 & Hl); [by rewrite Em|lia|lia|done| |].
    { rewrite Em. by replace ((a + 1) * bs) with (a * bs + bs) by lia. }
    exists k2, i2, r2. split_and!; [done|by etrans|done|].
    rewrite Hl, filter_cons_True by done. rewrite zlen_app, !zlen_cons, zlen_nil. lia.
Qed.

(** The [BlockStored] event describes as many keys as hashes. *)
Definition stored_event_ok (ev : KVCacheEvent) (n : Z) : Prop :=
  match ev with
  | BlockStored hashes _ _ _ _ _ keys => zlen hashes = n ∧ zlen (default [] keys) = n
  | _ => False
  end.

Lemma stored_event_spec p r blks view L nh nc nf bs :
  0 < bs → mm_wf (mm_features r) → embed_cache_ok sha256 r →
  0 ≤ nc < nf → nf ≤ zlen blks → bhl_views view L → nc ≤ zlen L →
  ∃ ev r', stored_event use_int sha256 p r blks view nh nc nf bs = Ok (ev, r')
    ∧ same_request r r' ∧ embed_cache_ok sha256 r'
    ∧ (zlen nh = zlen (filter (λ b, is_null (p_store p b) = false)
                         (take (Z.to_nat (nf - nc)) (drop (Z.to_nat nc) blks))) →
       stored_event_ok ev (zlen nh)).
Proof.
  intros Hbs Hwf Hc Hnc Hnf Hv HL. unfold stored_event.
  assert (∃ par, (if nc =? 0 then Ok None
    else h ← bhl_get view (nc - 1); Ok (Some (maybe_convert_block_hash use_int h))) = Ok par)
    as [par ->].
  { destruct (Z.eqb_spec nc 0); [by eexists|].
    destruct (lookup_lt_is_Some_2 L (Z.to_nat (nc - 1))) as [h Eh]; [unfold zlen in HL; lia|].
    rewrite <- (Z2Nat.id (nc - 1)) by lia. rewrite (bv_get _ _ Hv _ _ Eh). by eexists. }
  cbn [mbind res_bind].
  destruct (event_keys_spec p blks bs (Z.to_nat (nf - nc)) nc [] 0 r)
    as (keys & idx & r' & E & Hs & Hc' & Hl); [done..|lia|lia|done| |].
  { right. pose proof (zlen_nonneg (mm_features r)). split; [lia|]. constructor. }
  replace (nc + Z.of_nat (Z.to_nat (nf - nc))) with nf in E by lia. rewrite E. cbn.
  do 2 eexists. split; [done|]. split_and!; [done..|]. cbn. intros Hnh.
  split; [done|]. rewrite Hnh. rewrite zlen_nil in Hl. destruct keys; cbn in *; lia.
Qed.

Lemma cache_full_blocks_noop p r blks nc nf bs gid :
  nf ≤ nc → cache_full_blocks use_int sha256 p r blks nc nf bs gid = Ok (p, r).
Proof. intros. unfold cache_full_blocks. by rewrite (proj2 (Z.leb_le _ _)). Qed.

Lemma cache_full_blocks_spec R own p fl r blks nc nf bs gid :
  PoolInv R own p fl → 0 < hash_block_size p → 0 < bs → bs `mod` hash_block_size p = 0 →
  0 ≤ gid < 2 ^ 32 → mm_wf (mm_features r) → embed_cache_ok sha256 r →
  0 ≤ nc < nf → nf ≤ zlen blks → nf ≤ zlen (block_hashes r) →
  let hs := group_hashes (hash_block_size p) bs (block_hashes r) in
  let l := take (Z.to_nat (nf - nc)) (drop (Z.to_nat nc) blks) in
  nf ≤ zlen hs → cacheable p hs (Z.to_nat nc) l →
  ∃ p' r', cache_full_blocks use_int sha256 p r blks nc nf bs gid = Ok (p', r')
    ∧ PoolInv R own p' fl ∧ same_pool p p' ∧ same_request r r' ∧ embed_cache_ok sha256 r'
    ∧ registered p p' hs (Z.to_nat nc) gid l
    ∧ (enable_kv_cache_events p = true →
         ∃ ev, last (kv_event_queue p') = Some ev ∧ stored_event_ok ev (count_real p l)).
Proof.
  intros H Hh Hbs Hmod Hg Hwf Hc Hnc Hnf Hlen hs l Hhs [Hnd Hcl].
  unfold cache_full_blocks. rewrite (proj2 (Z.leb_gt _ _)) by lia.
  rewrite py_slice_nonneg by lia. fold l. rewrite (proj2 (Z.leb_le _ _)) by lia.
  destruct (hashes_at_views p (block_hashes r) bs) as (v & -> & Hv); [done..|].
  fold hs in Hv. cbn [mbind res_bind]. rewrite (bv_from _ _ Hv) by lia. cbn [mbind res_bind].
  destruct (cache_fold_spec l R own p fl (drop (Z.to_nat nc) hs) gid [] 0)
    as (p1 & nh & E & H1 & Hs1 & [Hr Ho] & He); [done..| |].
  { split; [done|]. intros j b Hj. destruct (Hcl j b Hj) as [? Hb]. split; [done|].
    intros Hn. rewrite lookup_drop. by apply Hb. }
  change (Z.of_nat 0) with 0 in E. rewrite Z.add_0_l in E. rewrite E. cbn [mbind res_bind].
  assert (Hreg : ∀ q, p_store q = p_store p1 → registered p q hs (Z.to_nat nc) gid l).
  { intros q Eq. split.
    - intros j b h Hj Hn Hjh. rewrite Eq. apply (Hr j); [done..|]. by rewrite lookup_drop.
    - rewrite Eq. exact Ho. }
  rewrite (sp_events _ _ Hs1). destruct (enable_kv_cache_events p) eqn:Eev.
  - destruct (stored_event_spec p1 r blks v hs nh nc nf bs) as (ev & r' & -> & Hsr & Hc' & Hev);
      [done..|lia|]. cbn. do 2 eexists. split; [done|].
    split; [by apply PoolInv_with_events|]. split; [by destruct Hs1|]. split; [done|].
    split; [done|]. split; [by apply Hreg|]. intros _. exists ev. split; [apply last_snoc|].
    specialize (He eq_refl). rewrite zlen_nil in He. rewrite <- Z.add_0_l, <- He. apply Hev.
    rewrite He. unfold count_real. do 2 f_equal. fold l. rewrite Z.add_0_l. f_equal.
    apply list_filter_iff'. intros b Hb. apply list_elem_of_lookup_1 in Hb as [j Hj].
    destruct (Hcl j b Hj) as [Hb _]. rewrite (sp_is_null _ _ Hs1).
    rewrite <- (pd_is_null _ _ _ (pi_data _ _ _ _ H)) by done. by destruct (is_null _).
  - cbn. do 2 eexists. split; [done|]. split_and!; try done. by apply Hreg.
Qed.
End caching.

(** ** Explicit eviction and reset *)

Lemma blocks_lookup R own p i :
  PoolData R own p → 0 ≤ i < num_gpu_blocks p → py_index (blocks p) i = Ok (RBlk (Z.to_nat i)).
Proof.
  intros H Hi. apply py_index_nonneg; [lia|]. rewrite (pd_blocks _ _ _ H), list_lookup_fmap.
  by rewrite lookup_seq_lt by lia.
Qed.

Lemma zlen_blocks R own p : PoolData R own p → zlen (blocks p) = num_gpu_blocks p.
Proof.
  intros H. unfold zlen. rewrite (pd_blocks _ _ _ H), length_fmap, length_seq.
  pose proof (pd_pos _ _ _ H). lia.
Qed.

Lemma evict_blocks_spec use_int ids R own p fl :
  PoolInv R own p fl → Forall (λ i, 0 ≤ i < num_gpu_blocks p) ids →
  ∃ p', evict_blocks use_int p ids = Ok p' ∧ PoolInv R own p' fl ∧ same_pool p p'
    ∧ (∀ r, ref_cnt (p_store p' r) = ref_cnt (p_store p r))
    ∧ ∀ r, r ∈ blocks p → block_hash (p_store p' r) =
        if decide (block_id (p_store p r) ∈ ids) then None else block_hash (p_store p r).
Proof.
  unfold evict_blocks. revert p. induction ids as [|i ids IH]; intros p H Hi; cbn [rfold].
  { exists p. split_and!; try done. }
  apply Forall_cons in Hi as [Hi His]. pose proof (pi_data _ _ _ _ H) as Hd.
  rewrite (zlen_blocks _ _ _ Hd), (proj2 (Z.ltb_lt _ _)) by lia.
  rewrite (blocks_lookup _ _ _ _ Hd) by lia. cbn [mbind res_bind].
  set (b := RBlk (Z.to_nat i)).
  assert (Hb : b ∈ blocks p) by (eapply elem_of_blocks; [done|lia]).
  destruct (maybe_evict_cached_block use_int p b) as [ev p1] eqn:E.
  destruct (maybe_evict_spec use_int R own p fl b p1 ev) as (H1 & Hs1 & Hh1 & _ & Hc1 & Ho1);
    [done..|]. cbn.
  destruct (IH p1) as (p2 & -> & H2 & Hs2 & Hc2 & Hh2); [done|by rewrite (sp_num _ _ Hs1)|].
  exists p2. split; [done|]. split; [done|]. split; [by etrans|]. split; [intros; by rewrite Hc2|].
  intros r Hr. rewrite Hh2 by (by rewrite (sp_blocks _ _ Hs1)). rewrite (sp_id _ _ Hs1).
  assert (Hbi : block_id (p_store p b) = i) by (unfold b; rewrite (pd_id _ _ _ Hd) by done; lia).
  destruct (decide (r = b)) as [->|Hne].
  - rewrite Hbi. rewrite (decide_True (P := i ∈ i :: ids)) by (by left). case_decide; [done|].
    exact Hh1.
  - rewrite Ho1 by done.
    assert (block_id (p_store p r) ≠ i) by (rewrite <- Hbi; intros ?; by eapply Hne, block_id_inj).
    repeat case_decide; set_solver.
Qed.

(** Every block but the null block is free exactly when the free list is full. *)
Lemma all_free_iff own p fl :
  PoolInv ∅ own p fl →
  get_num_free_blocks p = num_gpu_blocks p - 1 ↔ ∀ r, r ∈ own → r = null_block p.
Proof.
  intros [Hr Hf Hd]. unfold get_num_free_blocks. rewrite (fr_num _ _ Hr).
  pose proof (pd_pos _ _ _ Hd) as Hpos. pose proof (fr_nodup _ _ Hr) as Hnd.
  set (k := RBlk <$> seq 1 (Z.to_nat (num_gpu_blocks p) - 1)).
  assert (Hk : ∀ r, r ∈ k ↔ r ∈ blocks p ∧ r ≠ null_block p).
  { intros r. unfold k. rewrite (pd_null _ _ _ Hd), (pd_blocks _ _ _ Hd).
    rewrite !list_elem_of_fmap. setoid_rewrite elem_of_seq. split.
    - intros (i & -> & ?). split; [exists i; split; [done|lia]|]. intros [= ->]. lia.
    - intros [(i & -> & ?) Hne]. exists i. split; [done|]. destruct i; [done|lia]. }
  assert (Hkn : NoDup k) by (apply NoDup_fmap_2; [by intros ? ? [=]|apply NoDup_seq]).
  assert (Hsub : fl ⊆+ k).
  { apply NoDup_submseteq; [done|]. intros r Hin. apply Hk. apply Hf in Hin. tauto. }
  assert (Hlk : length k = (Z.to_nat (num_gpu_blocks p) - 1)%nat)
    by (unfold k; by rewrite length_fmap, length_seq).
  unfold zlen. split.
  - intros Hlen r Hin. destruct (decide (r = null_block p)) as [|Hn]; [done|exfalso].
    apply (pd_own _ _ _ Hd) in Hin as Hb. destruct Hb as [Hb _].
    apply submseteq_length_Permutation in Hsub; [|lia].
    assert (r ∈ fl) as Hfl by (rewrite Hsub; by apply Hk). apply Hf in Hfl as (_&_&_&Hz).
    rewrite (pd_cnt _ _ _ Hd) in Hz by done. rewrite elem_of_multiplicity in Hin. lia.
  - intros Ho. enough (k ⊆+ fl) as Hsub2.
    { apply submseteq_length in Hsub, Hsub2. lia. }
    apply NoDup_submseteq; [done|]. intros r [Hb Hn]%Hk. apply Hf. split_and!; [done..|set_solver|].
    rewrite (pd_cnt _ _ _ Hd) by done. destruct (decide (r ∈ own)) as [Hin|Hin].
    + by apply Ho in Hin.
    + rewrite not_elem_of_multiplicity in Hin. lia.
Qed.

Lemma reset_hashes_fields l st x :
  let st' := fold_left reset_hash l st in
  block_id (st' x) = block_id (st x) ∧ ref_cnt (st' x) = ref_cnt (st x)
  ∧ is_null (st' x) = is_null (st x)
  ∧ next_free_block (st' x) = next_free_block (st x)
  ∧ prev_free_block (st' x) = prev_free_block (st x)
  ∧ block_hash (st' x) = if decide (x ∈ l) then None else block_hash (st x).
Proof.
  revert st. induction l as [|b l IH]; intros st; cbn.
  - rewrite decide_False by apply not_elem_of_nil. done.
  - destruct (IH (reset_hash st b)) as (->&->&->&->&->&->). unfold reset_hash.
    autorewrite with store. split_and!; try done. repeat case_decide; set_solver.
Qed.

Lemma reset_prefix_cache_spec own p fl :
  PoolInv ∅ own p fl →
  match reset_prefix_cache p with
  | (true, p') => (∀ r, r ∈ own → r = null_block p) ∧ PoolInv ∅ own p' fl ∧ same_pool p p'
      ∧ ∀ r, r ∈ blocks p → block_hash (p_store p' r) = None
  | (false, p') => p' = p ∧ ∃ r, r ∈ own ∧ r ≠ null_block p
  end.
Proof.
  intros H. pose proof (all_free_iff own p fl H) as Hall. destruct (H) as [Hr Hf Hd].
  unfold reset_prefix_cache.
  destruct (Z.eqb_spec (num_gpu_blocks p - get_num_free_blocks p) 1) as [E|E]; cbn [negb].
  2: { split; [done|]. destruct (decide (Exists (λ r, r ≠ null_block p) (elements own))) as [Hx|Hx].
       - apply Exists_exists in Hx as (r & Hin & ?). exists r.
         by rewrite gmultiset_elem_of_elements in Hin.
       - exfalso. apply E. cut (get_num_free_blocks p = num_gpu_blocks p - 1); [lia|].
         apply Hall. intros r Hin. destruct (decide (r = null_block p)); [done|].
         destruct Hx. apply Exists_exists. exists r. by rewrite gmultiset_elem_of_elements. }
  set (p3 := with_collector _ _).
  assert (Hst : ∀ x, p_store p3 x = fold_left reset_hash (blocks p) (p_store p) x) by done.
  pose proof (reset_hashes_fields (blocks p) (p_store p)) as Hfld.
  assert (H3 : PoolInv ∅ own p3 fl ∧ same_pool p p3 ∧
    ∀ r, r ∈ blocks p → block_hash (p_store p3 r) = None).
  { split_and!.
    - destruct Hd as [? ? Hi ? Hn Hnh ? ? Hcnt ? ?]. split; [..|split; try done].
      + eapply free_rep_frame; [exact Hr|done|]. intros x. by destruct (Hfld x) as (_&_&_&?&?&_).
      + intros r. rewrite Hf, Hst. destruct (Hfld r) as (_&->&_). done.
      + intros i Hin. rewrite Hst. destruct (Hfld (RBlk i)) as (->&_). by apply Hi.
      + intros r Hin. rewrite Hst. destruct (Hfld r) as (_&_&->&_). by apply Hn.
      + change (null_block p3) with (null_block p). rewrite Hst. destruct (Hfld (null_block p)) as (_&_&_&_&_&->). by case_decide.
      + intros r Hin Hne. rewrite Hst. destruct (Hfld r) as (_&->&_). by apply Hcnt.
      + apply Idx.map_wf_empty.
      + intros key r. change (cached_block_hash_to_block p3) with (∅ : Idx.cache). unfold Idx.blocks_of. rewrite lookup_empty. cbn. split; [by intros ?%elem_of_nil|].
        intros [Hin Hh]. destruct (Hfld r) as (_&_&_&_&_&E2). rewrite decide_True in E2 by done.
        change (block_hash (fold_left reset_hash (blocks p) (p_store p) r) = Some key) in Hh.
        congruence.
    - split; try done; intros r; rewrite Hst; by destruct (Hfld r) as (?&?&?&?).
    - intros r Hin. rewrite Hst. destruct (Hfld r) as (_&_&_&_&_&->). by rewrite decide_True. }
  assert (Hown : ∀ r, r ∈ own → r = null_block p) by (apply Hall; lia).
  destruct H3 as (H3 & Hs & Hh). destruct (enable_kv_cache_events p3); [|by split_and!].
  split; [done|]. split; [by apply PoolInv_with_events|]. split; [by destruct Hs|done].
Qed.

(** ** Construction *)

Lemma pool_init_spec n caching hbs events coll :
  0 < n →
  ∃ p, pool_init n caching hbs events coll = Ok p
    ∧ PoolInv ∅ ∅ p (RBlk <$> seq 1 (Z.to_nat n - 1))
    ∧ num_gpu_blocks p = n ∧ enable_caching p = caching ∧ hash_block_size p = hbs
    ∧ enable_kv_cache_events p = events.
Proof.
  intros Hn. unfold pool_init. rewrite (proj2 (Z.ltb_lt _ _)) by done. cbv zeta.
  set (l := RBlk <$> seq 0 (Z.to_nat n)).
  assert (El : l = RBlk 0 :: (RBlk <$> seq 1 (Z.to_nat n - 1))).
  { unfold l. destruct (Z.to_nat n) eqn:E; [lia|]. cbn. by rewrite Nat.sub_0_r. }
  assert (Hnd : NoDup l) by (apply NoDup_fmap_2; [by intros ? ? [=]|apply NoDup_seq]).
  assert (Hb : Forall is_blk l).
  { apply Forall_forall. by intros r (i & -> & _)%list_elem_of_fmap. }
  assert (Hrep : free_rep (init l initial_store) l).
  { apply init_rep; [done..|]. by intros []. }
  pose proof (init_data l initial_store) as Hdata. rewrite El in Hrep at 2.
  destruct (popleft_rep _ _ _ Hrep) as (q & -> & Hq & Hs). cbn [mbind res_bind].
  set (p := mkPool _ _ _ _ _ _ _ _ _ _). exists p. split; [done|]. split; [|done].
  assert (Hfld : ∀ i, let b := p_store p (RBlk i) in
    block_id b = Z.of_nat i ∧ ref_cnt b = 0 ∧ block_hash b = None ∧ is_null b = bool_decide (i = 0%nat)).
  { intros i. unfold p, p_store. cbn. autorewrite with store.
    destruct (Hs (RBlk i)) as (->&->&->&->). destruct (Hdata (RBlk i) Hnd I) as (->&->&->&->).
    cbn. split_and!; try done. case_decide; [by simplify_eq|]. rewrite bool_decide_false; [done|].
    intros ->. done. }
  assert (Hin : ∀ r, r ∈ l → ∃ i, r = RBlk i) by (intros r (i & -> & _)%list_elem_of_fmap; by exists i).
  split.
  - eapply free_rep_frame; [exact Hq|done|]. intros x. cbn. by autorewrite with store.
  - intros r. rewrite El in Hnd. apply NoDup_cons in Hnd as [H0 _].
    assert (r ∈ l ↔ r = RBlk 0 ∨ r ∈ RBlk <$> seq 1 (Z.to_nat n - 1)) as Hrl
      by (rewrite El; apply elem_of_cons).
    change (blocks p) with l. change (null_block p) with (RBlk 0). split.
    + intros Hr. destruct (Hin r) as [i ->]; [tauto|]. destruct (Hfld i) as (_&->&_).
      split_and!; [tauto| |set_solver|done]. intros E. by rewrite E in Hr.
    + tauto.
  - split; try done.
    + intros i _. apply Hfld.
    + intros r Hr. destruct (Hin r Hr) as [i ->]. destruct (Hfld i) as (_&_&_&->).
      change (null_block p) with (RBlk 0). rewrite bool_decide_eq_true. naive_solver.
    + apply (Hfld 0%nat).
    + intros r Hr. exfalso. multiset_solver.
    + intros r Hr _. destruct (Hin r Hr) as [i ->]. destruct (Hfld i) as (_&->&_).
      by rewrite multiplicity_empty.
    + apply Idx.map_wf_empty.
    + intros key r. change (cached_block_hash_to_block p) with (∅ : Idx.cache).
      unfold Idx.blocks_of. rewrite lookup_empty. cbn. split; [by intros ?%elem_of_nil|].
      intros [Hr Hh]. destruct (Hin r Hr) as [i ->]. destruct (Hfld i) as (_&_&Eh&_). by assert (None = Some key) by (rewrite <- Eh; exact Hh).
Qed.

(** ** Contracts of the operations *)

(** C21: Allocation returns the first [n] blocks of the free list in eviction order,
    each with one reference and, when caching is on, without a stale hash, and
    leaves the hashes of all other blocks alone; it raises [ValueError] exactly
    when fewer than [n] blocks are free. *)
Theorem get_new_blocks_contract use_int R own p fl n :
  PoolInv R own p fl → 0 ≤ n →
  match get_new_blocks use_int p n with
  | Ok (ret, p') =>
      n ≤ get_num_free_blocks p ∧ ret = take (Z.to_nat n) fl ∧ zlen ret = n ∧ NoDup ret
      ∧ PoolInv R (own ⊎ list_to_set_disj ret) p' (drop (Z.to_nat n) fl)
      ∧ (∀ b, b ∈ ret → ref_cnt (p_store p' b) = 1)
      ∧ (enable_caching p = true → ∀ b, b ∈ ret → block_hash (p_store p' b) = None)
      ∧ (∀ r, r ∉ ret → block_hash (p_store p' r) = block_hash (p_store p r))
  | Err e => e = ValueError ∧ get_num_free_blocks p < n
  end.
Proof.
  intros H Hn. destruct (decide (n ≤ get_num_free_blocks p)) as [Hle|Hgt].
  2: { rewrite get_new_blocks_short by lia. split; [done|lia]. }
  destruct (get_new_blocks_spec use_int R own p fl n) as (p' & -> & H' & Hs & Hc & Ho); [done..|].
  pose proof (pi_rep _ _ _ _ H) as Hr. unfold get_num_free_blocks in Hle.
  rewrite (fr_num _ _ Hr) in Hle.
  assert (Hnd : NoDup (take (Z.to_nat n) fl)) by (apply NoDup_take, Hr).
  split_and!; try done.
  - unfold get_num_free_blocks. by rewrite (fr_num _ _ Hr).
  - unfold zlen in *. rewrite length_take. lia.
  - intros b Hb. apply elem_of_take_1 in Hb as Hbf. apply (pi_free _ _ _ _ H) in Hbf as (Hbb&Hbn&_&Hz).
    rewrite (pd_cnt _ _ _ (pi_data _ _ _ _ H)) in Hz by done.
    rewrite (pd_cnt _ _ _ (pi_data _ _ _ _ H')).
    + rewrite multiplicity_disj_union, (NoDup_multiplicity_1 _ b) by done. lia.
    + by rewrite (sp_blocks _ _ Hs).
    + by rewrite (sp_null _ _ Hs).
Qed.

(** Touching blocks adds a reference to each; a block that was free leaves the
    free list and the others keep their order; no hash changes and no error is
    raised. *)
Theorem touch_contract l R own p fl :
  PoolInv R own p fl → (∀ b, b ∈ l → b ∈ blocks p ∧ b ∉ R) →
  ∃ p', touch p l = Ok p'
    ∧ PoolInv R (own ⊎ list_to_set_disj l) p' (filter (λ x, x ∉ l) fl)
    ∧ (∀ r, block_hash (p_store p' r) = block_hash (p_store p r)).
Proof.
  intros H Hl. destruct (touch_spec l R own p fl H Hl) as (p' & ? & ? & _ & ?). by exists p'.
Qed.

(** Freeing references that the caller holds appends the blocks whose last
    reference was given up to the tail of the free list, in the given order,
    skipping the null block; the freed blocks keep their hashes. *)
Theorem free_blocks_contract R own p fl l :
  PoolInv R own p fl → list_to_set_disj l ⊆ own → NoDup (filter (λ b, b ≠ null_block p) l) →
  ∃ p', free_blocks p l = Ok p'
    ∧ PoolInv R (own ∖ list_to_set_disj l) p'
        (fl ++ filter (λ b, b ≠ null_block p ∧ multiplicity b own = 1%nat) l)
    ∧ (∀ r, block_hash (p_store p' r) = block_hash (p_store p r)).
Proof.
  intros H Hsub Hnd. destruct (free_blocks_spec R own p fl l H Hsub Hnd) as (p' & ? & H' & _ & ?).
  exists p'. split; [done|]. split; [|done].
  replace (filter _ l) with (released p own l); [done|]. apply list_filter_iff'.
  intros b Hb. split; intros [Hn Hm]; (split; [done|]).
  - rewrite Hm. by eapply (NoDup_filter_multiplicity (λ b, b ≠ null_block p)).
  - rewrite Hm. symmetry. by eapply (NoDup_filter_multiplicity (λ b, b ≠ null_block p)).
Qed.

(** Caching full blocks files each non-null block [j] of the range under hash
    [j] of the request at the group's block size, tagged with the group id, and
    changes neither reference counts nor the free list; the [BlockStored] event
    lists one hash and one key entry per registered block. *)
Theorem cache_full_blocks_contract use_int sha256 R own p fl r blks nc nf bs gid :
  PoolInv R own p fl → 0 < hash_block_size p → 0 < bs → bs `mod` hash_block_size p = 0 →
  0 ≤ gid < 2 ^ 32 → mm_wf (mm_features r) → embed_cache_ok sha256 r →
  0 ≤ nc < nf → nf ≤ zlen blks → nf ≤ zlen (block_hashes r) →
  let hs := group_hashes (hash_block_size p) bs (block_hashes r) in
  let l := take (Z.to_nat (nf - nc)) (drop (Z.to_nat nc) blks) in
  nf ≤ zlen hs → cacheable p hs (Z.to_nat nc) l →
  ∃ p' r', cache_full_blocks use_int sha256 p r blks nc nf bs gid = Ok (p', r')
    ∧ PoolInv R own p' fl ∧ same_request r r'
    ∧ registered p p' hs (Z.to_nat nc) gid l
    ∧ (enable_kv_cache_events p = true →
         ∃ ev, last (kv_event_queue p') = Some ev ∧ stored_event_ok ev (count_real p l)).
Proof.
  intros H Hh Hbs Hmod Hg Hwf Hc Hnc Hnf Hlen hs l Hhs Hcl.
  destruct (cache_full_blocks_spec use_int sha256 R own p fl r blks nc nf bs gid)
    as (p' & r' & ? & ? & _ & ? & _ & ? & ?); [done..|]. by exists p', r'.
Qed.

(** Resetting the prefix cache succeeds exactly when no block but the null
    block is in use, and then no block has a hash any more; otherwise the pool
    is unchanged. *)
Theorem reset_prefix_cache_contract own p fl :
  PoolInv ∅ own p fl →
  match reset_prefix_cache p with
  | (true, p') => (∀ r, r ∈ own → r = null_block p) ∧ PoolInv ∅ own p' fl
      ∧ (∀ r, r ∈ blocks p → block_hash (p_store p' r) = None)
      ∧ ∀ h gs, gs ≠ [] → Forall (λ g, 0 ≤ g < 2 ^ 32) gs → get_cached_block p' h gs = Ok None
  | (false, p') => p' = p ∧ ∃ r, r ∈ own ∧ r ≠ null_block p
  end.
Proof.
  intros H. pose proof (reset_prefix_cache_spec own p fl H) as Hspec.
  destruct (reset_prefix_cache p) as [[|] p'] eqn:E; [|done].
  destruct Hspec as (Ho & H' & Hs & Hh). split; [done|]. split; [done|]. split; [done|].
  intros h [|g gs] Hne Hg; [done|]. apply Forall_cons in Hg as [Hg _]. cbn [get_cached_block].
  rewrite make_key_total by done. cbn [mbind res_bind].
  rewrite (Idx.get_one_block_spec (p_store p')) by apply (pi_data _ _ _ _ H').
  destruct (Idx.blocks_of _ _ _) as [|[id b] d] eqn:Eb; [done|exfalso].
  destruct (proj1 (pd_cache _ _ _ (pi_data _ _ _ _ H') (h ++ be_encode 4 g) b)) as [Hb Hbh].
  { rewrite Eb. by left. }
  rewrite Hh in Hbh by (by rewrite <- (sp_blocks _ _ Hs)). done.
Qed.
