(* ===== verification/PoolProps.v ===== *)
(** * Properties of the block pool

    The safety of every sequence of legal operations, and examples at which the
    contracts of PoolInv.v apply. *)

From stdpp Require Import fin_sets.
From S2P Require Import Prelude Blocks FreeQueue Request BlockHash Metrics HashMap BlockPool PoolInv.
Import FreeKVCacheBlockQueue.

(** ** Sequences of operations

    A client's view: the references it holds and the pool.  A call is legal
    when it asks for what the pool has, touches blocks of the pool, frees only
    references it holds and caches blocks that are not cached yet. *)

Inductive pool_op :=
  | OpAlloc (n : Z)
  | OpTouch (l : list ref)
  | OpFree (l : list ref)
  | OpCache (r : Request) (blks : list ref) (nc nf bs gid : Z)
  | OpEvict (ids : list Z)
  | OpReset.

Section runs.
Context (use_int : bool) (sha256 : bytes → bytes).
Abbreviation client := (gmultiset ref * BlockPool)%type.

Definition pool_exec (s : client) (o : pool_op) : res client :=
  let '(own, p) := s in
  match o with
  | OpAlloc n => '(ret, p') ← get_new_blocks use_int p n; Ok (own ⊎ list_to_set_disj ret, p')
  | OpTouch l => p' ← touch p l; Ok (own ⊎ list_to_set_disj l, p')
  | OpFree l => p' ← free_blocks p l; Ok (own ∖ list_to_set_disj l, p')
  | OpCache r blks nc nf bs gid =>
      '(p', _) ← cache_full_blocks use_int sha256 p r blks nc nf bs gid; Ok (own, p')
  | OpEvict ids => p' ← evict_blocks use_int p ids; Ok (own, p')
  | OpReset => Ok (own, (reset_prefix_cache p).2)
  end.

Definition legal (s : client) (o : pool_op) : Prop :=
  let '(own, p) := s in
  match o with
  | OpAlloc n => 0 ≤ n ≤ get_num_free_blocks p
  | OpTouch l => ∀ b, b ∈ l → b ∈ blocks p
  | OpFree l => list_to_set_disj l ⊆ own ∧ NoDup (filter (λ b, b ≠ null_block p) l)
  | OpCache r blks nc nf bs gid =>
      0 < hash_block_size p ∧ 0 < bs ∧ bs `mod` hash_block_size p = 0 ∧ 0 ≤ gid < 2 ^ 32
      ∧ mm_wf (mm_features r) ∧ embed_cache_ok sha256 r
      ∧ 0 ≤ nc < nf ∧ nf ≤ zlen blks ∧ nf ≤ zlen (block_hashes r)
      ∧ nf ≤ zlen (group_hashes (hash_block_size p) bs (block_hashes r))
      ∧ cacheable p (group_hashes (hash_block_size p) bs (block_hashes r)) (Z.to_nat nc)
          (take (Z.to_nat (nf - nc)) (drop (Z.to_nat nc) blks))
  | OpEvict ids => Forall (λ i, 0 ≤ i < num_gpu_blocks p) ids
  | OpReset => True
  end.

Definition client_inv (s : client) : Prop := ∃ fl, PoolInv ∅ s.1 s.2 fl.

Lemma pool_exec_safe s o :
  client_inv s → legal s o → ∃ s', pool_exec s o = Ok s' ∧ client_inv s' ∧ same_pool s.2 s'.2.
Proof.
  destruct s as [own p]. intros [fl H] Hl. destruct o; cbn in *.
  - destruct (get_new_blocks_spec use_int ∅ own p fl n) as (p' & -> & H' & Hs & _); [done..|].
    eexists. split; [done|]. split; [by eexists|done].
  - destruct (touch_spec l ∅ own p fl) as (p' & -> & H' & Hs & _); [done|set_solver|].
    eexists. split; [done|]. split; [by eexists|done].
  - destruct Hl as [Hsub Hnd].
    destruct (free_blocks_spec ∅ own p fl l H Hsub Hnd) as (p' & -> & H' & Hs & _).
    eexists. split; [done|]. split; [by eexists|done].
  - destruct Hl as (?&?&?&?&?&?&?&?&?&?&?).
    destruct (cache_full_blocks_spec use_int sha256 ∅ own p fl r blks nc nf bs gid)
      as (p' & r' & -> & H' & Hs & _); [done..|].
    eexists. split; [done|]. split; [by eexists|done].
  - destruct (evict_blocks_spec use_int ids ∅ own p fl H Hl) as (p' & -> & H' & Hs & _).
    eexists. split; [done|]. split; [by eexists|done].
  - pose proof (reset_prefix_cache_spec own p fl H) as Hr.
    destruct (reset_prefix_cache p) as [[|] p'].
    + destruct Hr as (_ & H' & Hs & _). eexists. split; [done|]. split; [by eexists|done].
    + destruct Hr as [-> _]. eexists. split; [done|]. split; [by eexists|done].
Qed.

Fixpoint legal_run (s : client) (ops : list pool_op) : Prop :=
  match ops with
  | [] => True
  | o :: ops => legal s o ∧ ∀ s', pool_exec s o = Ok s' → legal_run s' ops
  end.

(** The blocks in use: held by the client, the null block apart. *)
Definition in_use (s : client) : gset ref := dom s.1 ∖ {[null_block s.2]}.

Lemma pool_conservation s :
  client_inv s →
  get_num_free_blocks s.2 + Z.of_nat (size (in_use s)) + 1 = num_gpu_blocks s.2.
Proof.
  destruct s as [own p]. intros [fl H]. cbn in *. destruct (H) as [Hr Hf Hd].
  unfold get_num_free_blocks. rewrite (fr_num _ _ Hr), <- (zlen_blocks _ _ _ Hd).
  unfold zlen, in_use. cbn.
  rewrite <- (size_list_to_set (C := gset ref) (blocks p)) by (by eapply blocks_nodup).
  rewrite <- (size_list_to_set (C := gset ref) fl) by apply Hr.
  assert (list_to_set (blocks p) =
    (list_to_set fl ∪ (dom own ∖ {[null_block p]})) ∪ ({[null_block p]} : gset ref)) as ->.
  { apply set_eq. intros r.
    rewrite !elem_of_union, elem_of_difference, !elem_of_list_to_set, elem_of_singleton.
    rewrite gmultiset_elem_of_dom. split.
    - intros Hb. destruct (decide (r = null_block p)) as [|Hn]; [by right|left].
      destruct (decide (r ∈ own)); [by right|left]. apply Hf. split_and!; [done..|set_solver|].
      rewrite (pd_cnt _ _ _ Hd) by done. rewrite not_elem_of_multiplicity in *. lia.
    - intros [[Hfr|[Ho _]]| ->].
      + apply Hf in Hfr. tauto.
      + by apply (pd_own _ _ _ Hd) in Ho as [? _].
      + by eapply null_in_blocks. }
  rewrite (size_union (list_to_set fl ∪ _) {[null_block p]}).
  { rewrite (size_union (list_to_set fl) (dom own ∖ _)), size_singleton; [lia|].
    intros r Hfr%elem_of_list_to_set [Ho Hn]%elem_of_difference.
    apply Hf in Hfr as (Hb & Hnn & _ & Hz). rewrite (pd_cnt _ _ _ Hd) in Hz by done.
    rewrite gmultiset_elem_of_dom, elem_of_multiplicity in Ho. lia. }
  intros r Hr1 ->%elem_of_singleton. rewrite elem_of_union, elem_of_list_to_set in Hr1.
  destruct Hr1 as [Hfr|Hu]; [apply Hf in Hfr; tauto|set_solver].
Qed.

(** C2: From a fresh pool, every sequence of legal operations runs without an
    exception, keeps the pool invariant, and never loses or duplicates a
    block: free blocks, blocks in use and the null block always add up to the
    size of the pool. *)
Theorem pool_runs_safe n caching hbs events coll p0 ops :
  0 < n → pool_init n caching hbs events coll = Ok p0 → legal_run (∅, p0) ops →
  ∃ s, rfold pool_exec (∅, p0) ops = Ok s ∧ client_inv s
    ∧ get_num_free_blocks s.2 + Z.of_nat (size (in_use s)) + 1 = n.
Proof.
  intros Hn Hinit Hrun. destruct (pool_init_spec n caching hbs events coll Hn)
    as (p & E & H & En & _). rewrite Hinit in E. injection E as <-.
  assert (H0 : client_inv (∅, p0)) by (by eexists).
  assert (En0 : num_gpu_blocks (∅ : gmultiset ref, p0).2 = n) by done.
  clear Hinit H En. revert Hrun H0 En0. generalize (∅ : gmultiset ref, p0) as s.
  induction ops as [|o ops IH]; intros s Hrun H0 En0; cbn.
  { exists s. split_and!; try done. rewrite <- En0. by apply pool_conservation. }
  destruct Hrun as [Hl Hrun]. destruct (pool_exec_safe s o H0 Hl) as (s' & E & H' & Hs).
  rewrite E. cbn. apply IH; [by apply Hrun|done|]. by rewrite (sp_num _ _ Hs).
Qed.
End runs.

(** ** Examples *)

Definition blank_pool : BlockPool :=
  mkPool 0 false 0 [] (mkQueue initial_store 0) ∅ RHead false [] None.
(** Four blocks, caching and events on, hashes every two tokens. *)
Definition example_pool : BlockPool := get_ok blank_pool (pool_init 4 true 2 true None).

Lemma example_pool_inv : PoolInv ∅ ∅ example_pool [RBlk 1; RBlk 2; RBlk 3].
Proof.
  destruct (pool_init_spec 4 true 2 true None) as (p & E & H & _); [lia|].
  unfold example_pool. by rewrite E.
Qed.

Lemma example_pool_eq : pool_init 4 true 2 true None = Ok example_pool.
Proof.
  destruct (pool_init_spec 4 true 2 true None) as (p & E & _); [lia|].
  unfold example_pool. by rewrite E.
Qed.

(** The pool after a hit on block 2. *)
Definition touched_pool : BlockPool := get_ok blank_pool (touch example_pool [RBlk 2]).

Lemma touched_pool_inv : PoolInv ∅ {[+ RBlk 2 +]} touched_pool [RBlk 1; RBlk 3].
Proof.
  destruct (touch_spec [RBlk 2] ∅ ∅ example_pool [RBlk 1; RBlk 2; RBlk 3])
    as (p & E & H & _); [apply example_pool_inv| |].
  { intros b ->%list_elem_of_singleton. split; [|set_solver]. eapply bool_decide_eq_true_1.
    vm_compute. reflexivity. }
  unfold touched_pool. rewrite E. cbn. eapply PoolInv_proper; [done| |exact H]. multiset_solver.
Qed.

Lemma get_new_blocks_contract_witness :
  ∃ p', get_new_blocks false example_pool 2 = Ok ([RBlk 1; RBlk 2], p') ∧
    ref_cnt (p_store p' (RBlk 2)) = 1 ∧
    get_new_blocks false example_pool 4 = Err ValueError.
Proof.
  pose proof (get_new_blocks_contract false ∅ ∅ example_pool _ 2 example_pool_inv ltac:(lia)) as H.
  destruct (get_new_blocks false example_pool 2) as [[ret p']|e] eqn:E.
  - destruct H as (_ & -> & _ & _ & _ & H & _). exists p'. split; [reflexivity|].
    split; [|vm_compute; reflexivity]. apply H. by right; left.
  - exfalso. destruct H as [_ H]. vm_compute in H. discriminate H.
Defined.

Lemma touch_contract_witness :
  ∃ p', touch example_pool [RBlk 2] = Ok p' ∧
    PoolInv ∅ (∅ ⊎ list_to_set_disj [RBlk 2]) p' [RBlk 1; RBlk 3].
Proof.
  destruct (touch_contract [RBlk 2] ∅ ∅ example_pool _ example_pool_inv) as (p & E & H & _).
  - intros b ->%list_elem_of_singleton. split; [|set_solver]. eapply bool_decide_eq_true_1.
    vm_compute. reflexivity.
  - exists p. split; [exact E|exact H].
Defined.

Lemma free_blocks_contract_witness :
  ∃ p', free_blocks touched_pool [RBlk 2] = Ok p' ∧
    PoolInv ∅ ({[+ RBlk 2 +]} ∖ list_to_set_disj [RBlk 2]) p' [RBlk 1; RBlk 3; RBlk 2].
Proof.
  destruct (free_blocks_contract ∅ _ touched_pool _ [RBlk 2] touched_pool_inv) as (p & E & H & _).
  - multiset_solver.
  - eapply bool_decide_eq_true_1. vm_compute. reflexivity.
  - exists p. split; [exact E|exact H].
Defined.

Lemma cache_full_blocks_contract_witness :
  ∃ p' r' h, cache_full_blocks false (λ b, b) touched_pool request_a [RBlk 2] 0 1 2 7 = Ok (p', r')
    ∧ head (block_hashes request_a) = Some h
    ∧ block_hash (p_store p' (RBlk 2)) = Some (h ++ [0; 0; 0; 7]).
Proof.
  edestruct (cache_full_blocks_contract false (λ b, b) ∅ _ touched_pool _ request_a [RBlk 2] 0 1 2 7
    touched_pool_inv) as (p & r & E & _ & _ & [Hr _] & _).
  - vm_compute. reflexivity.
  - lia.
  - vm_compute. reflexivity.
  - lia.
  - by apply mm_wf_single.
  - intros s e h Hl. vm_compute in Hl. discriminate Hl.
  - lia.
  - vm_compute. discriminate.
  - vm_compute. discriminate.
  - vm_compute. discriminate.
  - split; [eapply bool_decide_eq_true_1; vm_compute; reflexivity|].
    intros [|j] b Hj; [|discriminate Hj]. injection Hj as <-.
    split; [eapply bool_decide_eq_true_1; vm_compute; reflexivity|].
    intros _. split; [vm_compute; reflexivity|]. eexists. vm_compute. reflexivity.
  - eexists p, r, _. split; [exact E|]. split; [vm_compute; reflexivity|].
    apply (Hr 0%nat (RBlk 2)); [reflexivity|discriminate|]. vm_compute. reflexivity.
Defined.

Lemma reset_prefix_cache_contract_witness :
  (reset_prefix_cache example_pool).1 = true ∧ (reset_prefix_cache touched_pool).1 = false ∧
  ∃ r, r ∈ ({[+ RBlk 2 +]} : gmultiset ref) ∧ r ≠ null_block touched_pool.
Proof.
  split; [vm_compute; reflexivity|].
  pose proof (reset_prefix_cache_contract _ touched_pool _ touched_pool_inv) as H.
  destruct (reset_prefix_cache touched_pool) as [[|] p'] eqn:E.
  - exfalso. apply (f_equal fst) in E. vm_compute in E. discriminate E.
  - split; [reflexivity|]. apply H.
Defined.

Definition example_ops : list pool_op := [OpAlloc 2; OpFree [RBlk 2; RBlk 1]].

Lemma example_ops_legal p :
  PoolInv ∅ ∅ p [RBlk 1; RBlk 2; RBlk 3] → legal_run false (λ b, b) (∅, p) example_ops.
Proof.
  intros H. assert (Hn : 0 ≤ 2 ≤ get_num_free_blocks p).
  { unfold get_num_free_blocks. by rewrite (fr_num _ _ (pi_rep _ _ _ _ H)). }
  split; [exact Hn|]. intros [own p1] E.
  destruct (get_new_blocks_spec false ∅ ∅ p _ 2 H Hn) as (p' & E' & _ & Hs & _).
  unfold pool_exec in E. rewrite E' in E. injection E as <- <-. split; [|done].
  split; [multiset_solver|]. rewrite (sp_null _ _ Hs), (pd_null _ _ _ (pi_data _ _ _ _ H)).
  eapply bool_decide_eq_true_1. vm_compute. reflexivity.
Qed.

Lemma pool_runs_safe_witness :
  ∃ s, rfold (pool_exec false (λ b, b)) (∅, example_pool) example_ops = Ok s
    ∧ get_num_free_blocks s.2 + Z.of_nat (size (in_use s)) + 1 = 4.
Proof.
  destruct (pool_runs_safe false (λ b, b) 4 true 2 true None example_pool example_ops)
    as (s & E & _ & H).
  - lia.
  - apply example_pool_eq.
  - apply example_ops_legal, example_pool_inv.
  - exists s. split; [exact E|exact H].
Defined.
