(* ===== verification/KVCacheSpec.v ===== *)
(** * KV-cache layer specifications

    vllm/v1/kv_cache_interface.py: the formats of the KV cache of a layer, their
    page sizes and worst-case memory, and how the layers of a group are merged.
    A [torch.dtype] is kept by name and its size in bytes, [get_dtype_size], is
    a parameter. *)

From S2P Require Import Prelude.

(** The fields of [AttentionSpec]. *)
Record AttentionSpec := mkAttention {
  a_block_size : Z;
  num_kv_heads : Z;
  head_size : Z;
  dtype : string;
  page_size_padded : option Z;
}.

#[export] Instance AttentionSpec_eq_dec : EqDecision AttentionSpec.
Proof. solve_decision. Defined.

(** The further fields of [FullAttentionSpec] and its subclasses. *)
Record FullFields := mkFull {
  head_size_v : Z;
  full_sliding_window : option Z;
  full_chunk_size : option Z;
}.

#[export] Instance FullFields_eq_dec : EqDecision FullFields.
Proof. solve_decision. Defined.

Record MambaFields := mkMamba {
  m_block_size : Z;
  shapes : list (list Z);
  dtypes : list string;
  m_page_size_padded : option Z;
  mamba_type : string;
  mamba_cache_mode : string;
  num_speculative_blocks : Z;
}.

#[export] Instance MambaFields_eq_dec : EqDecision MambaFields.
Proof. solve_decision. Defined.

(** The spec of one layer. *)
Inductive LayerSpec :=
  | FullAttentionSpec (a : AttentionSpec) (f : FullFields)
  | MLAAttentionSpec (a : AttentionSpec) (f : FullFields) (cache_dtype_str : option string)
  | SinkFullAttentionSpec (a : AttentionSpec) (f : FullFields) (sink_len : option Z)
  | ChunkedLocalAttentionSpec (a : AttentionSpec) (attention_chunk_size : Z)
  | SlidingWindowSpec (a : AttentionSpec) (sliding_window : Z)
  | EncoderOnlyAttentionSpec (a : AttentionSpec)
  | CrossAttentionSpec (a : AttentionSpec)
  | MambaSpec (m : MambaFields).

#[export] Instance LayerSpec_eq_dec : EqDecision LayerSpec.
Proof. solve_decision. Defined.

(** [UniformTypeKVCacheSpecs] groups the specs of several layers by name. *)
Inductive KVCacheSpec :=
  | Layer (s : LayerSpec)
  | UniformTypeKVCacheSpecs (u_block_size : Z) (kv_cache_specs : list (string * LayerSpec)).

(** [__post_init__]: [head_size_v] defaults to [head_size]. *)
Definition full_fields (a : AttentionSpec) (hv sw chunk : option Z) : FullFields :=
  mkFull (default (head_size a) hv) sw chunk.

(** The settings of [VllmConfig] the specs read. *)
Record VllmConfig := mkConfig {
  max_model_len : Z;
  decode_context_parallel_size : Z;
  prefill_context_parallel_size : Z;
  max_num_batched_tokens : Z;
  max_num_encoder_input_tokens : Z;
  cfg_mamba_cache_mode : string;
}.

Definition attention_of (s : LayerSpec) : option AttentionSpec :=
  match s with
  | FullAttentionSpec a _ | MLAAttentionSpec a _ _ | SinkFullAttentionSpec a _ _
  | ChunkedLocalAttentionSpec a _ | SlidingWindowSpec a _
  | EncoderOnlyAttentionSpec a | CrossAttentionSpec a => Some a
  | MambaSpec _ => None
  end.

Definition block_size (s : LayerSpec) : Z :=
  match s with
  | FullAttentionSpec a _ | MLAAttentionSpec a _ _ | SinkFullAttentionSpec a _ _
  | ChunkedLocalAttentionSpec a _ | SlidingWindowSpec a _
  | EncoderOnlyAttentionSpec a | CrossAttentionSpec a => a_block_size a
  | MambaSpec m => m_block_size m
  end.

(** [isinstance(spec, FullAttentionSpec)]: the class and its subclasses. *)
Definition full_of (s : LayerSpec) : option (AttentionSpec * FullFields) :=
  match s with
  | FullAttentionSpec a f | MLAAttentionSpec a f _ | SinkFullAttentionSpec a f _ => Some (a, f)
  | _ => None
  end.
Definition is_full (s : LayerSpec) : bool := bool_decide (is_Some (full_of s)).
Definition is_mla (s : LayerSpec) : bool :=
  match s with MLAAttentionSpec _ _ _ => true | _ => false end.

(** [math.prod] *)
Definition prod (l : list Z) : Z := foldr Z.mul 1 l.

Section sizes.
Context (get_dtype_size : string → Z).

Definition real_page_size_bytes (s : LayerSpec) : Z :=
  match s with
  | FullAttentionSpec a f | SinkFullAttentionSpec a f _ =>
      a_block_size a * num_kv_heads a * (head_size a + head_size_v f) * get_dtype_size (dtype a)
  | MLAAttentionSpec a _ cache_dtype_str =>
      if bool_decide (cache_dtype_str = Some "fp8_ds_mla"%string) then a_block_size a * 656
      else a_block_size a * num_kv_heads a * head_size a * get_dtype_size (dtype a)
  | ChunkedLocalAttentionSpec a _ | SlidingWindowSpec a _
  | EncoderOnlyAttentionSpec a | CrossAttentionSpec a =>
      2 * a_block_size a * num_kv_heads a * head_size a * get_dtype_size (dtype a)
  | MambaSpec m =>
      foldr Z.add 0 (zip_with (λ shape d, prod shape * get_dtype_size d) (shapes m) (dtypes m))
  end.

Definition padded_of (s : LayerSpec) : option Z :=
  match s with
  | MambaSpec m => m_page_size_padded m
  | _ => attention_of s ≫= page_size_padded
  end.

Definition page_size_bytes (s : LayerSpec) : res Z :=
  let real_page_size := real_page_size_bytes s in
  match padded_of s with
  | Some padded => ASSERT real_page_size <=? padded; Ok padded
  | None => Ok real_page_size
  end.

Definition max_memory_usage_bytes (cfg : VllmConfig) (s : LayerSpec) : res Z :=
  match s with
  | FullAttentionSpec a _ | MLAAttentionSpec a _ _ | SinkFullAttentionSpec a _ _ =>
      let world := decode_context_parallel_size cfg * prefill_context_parallel_size cfg in
      let len := if 1 <? world then cdiv (max_model_len cfg) world else max_model_len cfg in
      page ← page_size_bytes s;
      Ok (cdiv len (a_block_size a) * page)
  | ChunkedLocalAttentionSpec a chunk =>
      let num_tokens := Z.min (chunk + max_num_batched_tokens cfg) (max_model_len cfg) in
      page ← page_size_bytes s;
      Ok (cdiv num_tokens (a_block_size a) * page)
  | SlidingWindowSpec a sw =>
      ASSERT decode_context_parallel_size cfg =? 1;
      let num_tokens := Z.min (sw - 1 + max_num_batched_tokens cfg) (max_model_len cfg) in
      page ← page_size_bytes s;
      Ok ((cdiv num_tokens (a_block_size a) + 1) * page)
  | EncoderOnlyAttentionSpec _ => Ok 0
  | CrossAttentionSpec a =>
      page ← page_size_bytes s;
      Ok (cdiv (max_num_encoder_input_tokens cfg) (a_block_size a) * page)
  | MambaSpec m =>
      page ← page_size_bytes s;
      if String.eqb (cfg_mamba_cache_mode cfg) "all" then
        Ok (cdiv (max_model_len cfg) (m_block_size m) * page)
      else if String.eqb (cfg_mamba_cache_mode cfg) "align" then
        Ok (page * (2 + num_speculative_blocks m))
      else Ok (page * (1 + num_speculative_blocks m))
  end.

(** The sums and maxima over the layers of a uniform group; [max] of an empty
    group raises [ValueError]. *)
Definition uniform_page_size_bytes (specs : list (string * LayerSpec)) : res Z :=
  rfold (λ acc s, p ← page_size_bytes s.2; Ok (acc + p)) 0 specs.

Definition uniform_max_memory_usage_bytes (cfg : VllmConfig) (specs : list (string * LayerSpec))
    : res Z :=
  pages ← rmap (λ s, u ← max_memory_usage_bytes cfg s.2; p ← page_size_bytes s.2;
                     RAISE ZeroDivisionError IF p =? 0; Ok (cdiv u p)) specs;
  match pages with
  | [] => Err ValueError
  | n :: pages => page ← uniform_page_size_bytes specs; Ok (foldl Z.max n pages * page)
  end.
End sizes.

(** [dataclasses.replace(self, block_size=...)] *)
Definition copy_with_new_block_size (s : LayerSpec) (bs : Z) : LayerSpec :=
  let re a := mkAttention bs (num_kv_heads a) (head_size a) (dtype a) (page_size_padded a) in
  match s with
  | FullAttentionSpec a f => FullAttentionSpec (re a) f
  | MLAAttentionSpec a f c => MLAAttentionSpec (re a) f c
  | SinkFullAttentionSpec a f k => SinkFullAttentionSpec (re a) f k
  | ChunkedLocalAttentionSpec a c => ChunkedLocalAttentionSpec (re a) c
  | SlidingWindowSpec a w => SlidingWindowSpec (re a) w
  | EncoderOnlyAttentionSpec a => EncoderOnlyAttentionSpec (re a)
  | CrossAttentionSpec a => CrossAttentionSpec (re a)
  | MambaSpec m => MambaSpec (mkMamba bs (shapes m) (dtypes m) (m_page_size_padded m)
                                (mamba_type m) (mamba_cache_mode m) (num_speculative_blocks m))
  end.

(** ** Merging the layers of a group *)

(** [KVCacheSpec.merge]: all specs must be equal. *)
Definition base_merge (specs : list LayerSpec) : res LayerSpec :=
  match specs with
  | [] => Err IndexError
  | s :: rest => ASSERT bool_decide (Forall (λ x, x = s) rest); Ok s
  end.

(** [merge_window_sizes] of a set of sizes, given without repetition. *)
Definition merge_window_sizes (window_sizes : list Z) : res (option Z) :=
  match window_sizes with
  | [] => Ok None
  | [w] => Ok (Some w)
  | _ => Err ValueError
  end.

(** The set of the sizes that are not [None]. *)
Definition size_set (l : list (option Z)) : list Z := remove_dups (omap id l).

(** The common body of [FullAttentionSpec.merge] and
    [SinkFullAttentionSpec.merge], up to the class built. *)
Definition merge_full_with (build : AttentionSpec → FullFields → LayerSpec)
    (specs : list LayerSpec) : res LayerSpec :=
  ASSERT forallb is_full specs;
  ASSERT negb (existsb is_mla specs);
  let fulls := omap full_of specs in
  match fulls with
  | [] => Err IndexError
  | (a0, f0) :: _ =>
      sliding_window ← merge_window_sizes (size_set ((λ x, full_sliding_window x.2) <$> fulls));
      attention_chunk_size ← merge_window_sizes (size_set ((λ x, full_chunk_size x.2) <$> fulls));
      ASSERT bool_decide (Forall (λ x, x.1 = a0) fulls);
      ASSERT negb (bool_decide (is_Some sliding_window)
                   && bool_decide (is_Some attention_chunk_size));
      Ok (build a0 (mkFull (head_size_v f0) sliding_window attention_chunk_size))
  end.

Definition full_merge (specs : list LayerSpec) : res LayerSpec :=
  merge_full_with FullAttentionSpec specs.

(** The first spec must have the attribute [sink_len]. *)
Definition sink_merge (specs : list LayerSpec) : res LayerSpec :=
  match specs with
  | SinkFullAttentionSpec _ _ sink_len :: _ =>
      merge_full_with (λ a f, SinkFullAttentionSpec a f sink_len) specs
  | _ :: _ => ASSERT forallb is_full specs; ASSERT negb (existsb is_mla specs); Err AttributeError
  | [] => Err IndexError
  end.

Definition mla_merge (specs : list LayerSpec) : res LayerSpec :=
  ASSERT forallb is_mla specs;
  let cache_dtype_str_set :=
    remove_dups
      (omap (λ s, match s with MLAAttentionSpec _ _ c => Some c | _ => None end) specs) in
  ASSERT zlen cache_dtype_str_set =? 1;
  match specs, cache_dtype_str_set with
  | MLAAttentionSpec a _ _ :: _, c :: _ => Ok (MLAAttentionSpec a (full_fields a None None None) c)
  | _, _ => Err IndexError
  end.

(** [type(specs[0]).merge(specs)] *)
Definition merge (specs : list LayerSpec) : res LayerSpec :=
  match specs with
  | [] => Err IndexError
  | FullAttentionSpec _ _ :: _ => full_merge specs
  | MLAAttentionSpec _ _ _ :: _ => mla_merge specs
  | SinkFullAttentionSpec _ _ _ :: _ => sink_merge specs
  | _ => base_merge specs
  end.

(** [isinstance(spec, type(one_spec)) and ...]: the test of [is_uniform_type]
    for the class of [one_spec]. *)
Definition same_type (one_spec spec : LayerSpec) : bool :=
  match one_spec, spec with
  | (FullAttentionSpec _ _ | MLAAttentionSpec _ _ _ | SinkFullAttentionSpec _ _ _), _ => is_full spec
  | CrossAttentionSpec _, CrossAttentionSpec _ => true
  | SlidingWindowSpec _ w, SlidingWindowSpec _ w' => w' =? w
  | ChunkedLocalAttentionSpec _ c, ChunkedLocalAttentionSpec _ c' => c' =? c
  | MambaSpec m, MambaSpec m' => num_speculative_blocks m' =? num_speculative_blocks m
  | _, _ => false
  end.

Definition is_uniform_type (specs : list (string * LayerSpec)) : res bool :=
  if 1 <? zlen (remove_dups (block_size <$> specs.*2)) then Ok false else
  match specs.*2 with
  | [] => Err StopIteration
  | EncoderOnlyAttentionSpec _ :: _ => Err NotImplementedError
  | one_spec :: _ => Ok (forallb (same_type one_spec) specs.*2)
  end.

Definition from_specs (specs : list (string * LayerSpec)) : res (option KVCacheSpec) :=
  uniform ← is_uniform_type specs;
  match specs with
  | [] => Err StopIteration
  | (_, s) :: _ =>
      Ok (if uniform : bool then Some (UniformTypeKVCacheSpecs (block_size s) specs) else None)
  end.

(** ** The cache configuration *)

Record KVCacheTensor := mkTensor {
  t_size : Z;
  shared_by : list string;
}.

Record KVCacheGroupSpec := mkGroup {
  layer_names : list string;
  kv_cache_spec : LayerSpec;
}.

Record KVCacheConfig := mkKVCacheConfig {
  num_blocks : Z;
  kv_cache_tensors : list KVCacheTensor;
  kv_cache_groups : list KVCacheGroupSpec;
}.

Definition is_mamba (s : LayerSpec) : bool := match s with MambaSpec _ => true | _ => false end.
Definition has_mamba_layers (c : KVCacheConfig) : bool :=
  existsb (λ g, is_mamba (kv_cache_spec g)) (kv_cache_groups c).
Definition needs_kv_cache_zeroing (c : KVCacheConfig) : bool := has_mamba_layers c.

(** ** What merging guarantees *)

Lemma merge_window_sizes_Ok l w :
  merge_window_sizes (size_set l) = Ok w →
  (∀ x, Some x ∈ l → w = Some x) ∧ (∀ x, w = Some x → Some x ∈ l).
Proof.
  intros H.
  assert (Hin : ∀ x, x ∈ size_set l ↔ Some x ∈ l).
  { intros x. unfold size_set. rewrite elem_of_remove_dups, list_elem_of_omap. naive_solver. }
  destruct (size_set l) as [|y [|z k]]; [| |done]; injection H as <-.
  - split; [|done]. intros x Hx%Hin. by apply elem_of_nil in Hx.
  - split.
    + intros x Hx%Hin. apply list_elem_of_singleton in Hx. by subst.
    + intros x [= <-]. apply Hin. by left.
Qed.

Lemma forallb_full specs :
  forallb is_full specs = true → Forall2 (λ s x, full_of s = Some x) specs (omap full_of specs).
Proof.
  induction specs as [|s specs IH]; intros H; [constructor|].
  apply andb_true_iff in H as [Hs H]. apply bool_decide_eq_true_1 in Hs as [x Hx].
  cbn. rewrite Hx. constructor; [done|by apply IH].
Qed.

(** Everything the merged spec of a full-attention group promises its layers. *)
Record merged_full (specs : list LayerSpec) (a : AttentionSpec) (f : FullFields) : Prop := {
  mf_layers : ∀ s, s ∈ specs → ∃ f', full_of s = Some (a, f') ∧ is_mla s = false
    ∧ (∀ w, full_sliding_window f' = Some w → full_sliding_window f = Some w)
    ∧ (∀ c, full_chunk_size f' = Some c → full_chunk_size f = Some c);
  mf_one_kind : full_sliding_window f = None ∨ full_chunk_size f = None;
  mf_window : ∀ w, full_sliding_window f = Some w →
    ∃ s a' f', s ∈ specs ∧ full_of s = Some (a', f') ∧ full_sliding_window f' = Some w;
}.

Lemma merge_full_with_spec build specs r :
  merge_full_with build specs = Ok r → ∃ a f, r = build a f ∧ merged_full specs a f.
Proof.
  unfold merge_full_with. intros H. inv_ok. rename Ea into Hfull, Ea0 into Hmla.
  pose proof (forallb_full _ Hfull) as HF.
  destruct (omap full_of specs) as [|[a0 f0] rest] eqn:Ef; [done|]. rewrite <- Ef in *. clear Ef.
  inv_ok. rename a into sw, a1 into ck. to_prop.
  destruct (merge_window_sizes_Ok _ _ Hb) as [Hsw1 Hsw2].
  destruct (merge_window_sizes_Ok _ _ Hb0) as [Hck1 _].
  exists a0, (mkFull (head_size_v f0) sw ck). split; [done|].
  assert (Hlay : ∀ s, s ∈ specs → ∃ x, full_of s = Some x ∧ x ∈ omap full_of specs).
  { intros s [i Hi]%list_elem_of_lookup_1.
    destruct (Forall2_lookup_l _ _ _ _ _ HF Hi) as (x & Hx & E). exists x. split; [done|].
    by eapply list_elem_of_lookup_2. }
  split; cbn.
  - intros s Hs. destruct (Hlay s Hs) as ([a' f'] & E & Hin). exists f'.
    rewrite Forall_forall in Ea. pose proof (Ea _ Hin) as Ea'. cbn in Ea'. subst a'.
    split; [done|]. split.
    { destruct (is_mla s) eqn:Em; [|done]. exfalso.
      assert (existsb is_mla specs = true); [|congruence].
      apply existsb_exists. exists s. split; [by apply list_elem_of_In|done]. }
    split; intros w Hw; [apply Hsw1|apply Hck1]; apply list_elem_of_fmap; exists (a0, f'); done.
  - destruct sw, ck; cbn in *; try (by left); try (by right).
  - intros w Hw. apply Hsw2, list_elem_of_fmap in Hw as ([a' f'] & E & Hin). cbn in E.
    apply list_elem_of_omap in Hin as (s & Hs & Es). by exists s, a', f'.
Qed.

(** The window and chunk size a layer was declared with. *)
Definition window_of (s : LayerSpec) : option Z :=
  match s with
  | SlidingWindowSpec _ w => Some w
  | _ => x ← full_of s; full_sliding_window x.2
  end.
Definition chunk_of (s : LayerSpec) : option Z :=
  match s with
  | ChunkedLocalAttentionSpec _ c => Some c
  | _ => x ← full_of s; full_chunk_size x.2
  end.

(** What a layer [s] may rely on when its group is managed as [r]. *)
Record covers (r s : LayerSpec) : Prop := {
  cov_block_size : block_size s = block_size r;
  cov_attention : attention_of s = attention_of r;
  cov_window : ∀ w, window_of s = Some w → window_of r = Some w;
  cov_chunk : ∀ c, chunk_of s = Some c → chunk_of r = Some c;
}.

Lemma covers_refl s : covers s s.
Proof. done. Qed.

Lemma base_merge_covers specs r s : base_merge specs = Ok r → s ∈ specs → covers r s.
Proof.
  destruct specs as [|s0 rest]; [done|]. cbn. intros H Hs. inv_ok. to_prop.
  rewrite Forall_forall in Ea. apply elem_of_cons in Hs as [->|Hs]; [apply covers_refl|].
  rewrite (Ea s Hs). apply covers_refl.
Qed.

Lemma merge_full_covers build specs r s :
  (∀ a f, full_of (build a f) = Some (a, f)) →
  merge_full_with build specs = Ok r → s ∈ specs → covers r s.
Proof.
  intros Hb H Hs. destruct (merge_full_with_spec _ _ _ H) as (a & f & -> & Hm).
  destruct (mf_layers _ _ _ Hm s Hs) as (f' & E & _ & Hw & Hc).
  specialize (Hb a f). destruct (build a f), s; cbn in *; simplify_eq; split; cbn in *; done.
Qed.

(** A group merged into one spec that is not MLA is faithful to its layers:
    every layer has the block size and attention layout of the merged spec, and
    a layer's sliding window or chunk size is the merged spec's; a merged
    full-attention spec never has both. *)
Theorem merge_sound specs r :
  merge specs = Ok r → is_mla r = false →
  specs ≠ [] ∧ (∀ s, s ∈ specs → covers r s) ∧
  (is_full r = true → window_of r = None ∨ chunk_of r = None).
Proof.
  intros H Hm. split; [by intros ->|]. destruct specs as [|s0 rest]; [done|].
  destruct s0; cbn [merge] in H.
  - split; [by intros s; apply (merge_full_covers FullAttentionSpec)|intros _].
    destruct (merge_full_with_spec _ _ _ H) as (? & ? & -> & Hf). apply Hf.
  - unfold mla_merge in H. inv_ok. destruct (remove_dups _); [done|]. by inv_ok.
  - split; [by intros s; apply (merge_full_covers (λ a f, SinkFullAttentionSpec a f sink_len))|intros _].
    destruct (merge_full_with_spec _ _ _ H) as (? & ? & -> & Hf). apply Hf.
  - split; [by intros s; apply base_merge_covers|]. cbn in H. inv_ok. intros E. by cbn in E.
  - split; [by intros s; apply base_merge_covers|]. cbn in H. inv_ok. intros E. by cbn in E.
  - split; [by intros s; apply base_merge_covers|]. cbn in H. inv_ok. intros E. by cbn in E.
  - split; [by intros s; apply base_merge_covers|]. cbn in H. inv_ok. intros E. by cbn in E.
  - split; [by intros s; apply base_merge_covers|]. cbn in H. inv_ok. intros E. by cbn in E.
Qed.

Definition example_attention : AttentionSpec := mkAttention 16 8 128 "bfloat16" None.

Lemma merge_sound_witness :
  let plain := FullAttentionSpec example_attention (mkFull 128 None None) in
  let windowed := FullAttentionSpec example_attention (mkFull 128 (Some 1024) None) in
  merge [plain; windowed] = Ok windowed ∧ covers windowed plain.
Proof.
  split; [reflexivity|].
  destruct (merge_sound
    [FullAttentionSpec example_attention (mkFull 128 None None);
     FullAttentionSpec example_attention (mkFull 128 (Some 1024) None)]
    (FullAttentionSpec example_attention (mkFull 128 (Some 1024) None))) as (_ & H & _).
  - reflexivity.
  - reflexivity.
  - apply H. by left.
Defined.
