(* ===== verification/KVCachePlan.v ===== *)
(** * Planning the KV cache

    The second half of vllm/v1/core/kv_cache_utils.py: how the layers of a model
    are put into KV-cache groups, how much memory a request may need, and how many
    blocks of which size every worker allocates.  A dict of layers is an
    association list in its order of insertion. *)

From Stdlib Require Import String QArith.
From S2P Require Import Prelude KVCacheSpec.
#[local] Open Scope Z_scope.

(** [KVCacheGroupSpec] and [KVCacheConfig] before the scheduler's copy is made: the
    spec of a group may be a [UniformTypeKVCacheSpecs]. *)
Record PlanGroup := mkPlanGroup {
  pg_layer_names : list string;
  pg_spec : KVCacheSpec;
}.

Record PlanConfig := mkPlanConfig {
  pc_num_blocks : Z;
  pc_tensors : list KVCacheTensor;
  pc_groups : list PlanGroup;
}.

(** The settings that planning reads beside those of the specs. *)
Record PlanSettings := mkSettings {
  base_config : VllmConfig;
  num_gpu_blocks_override : option Z;
  disable_hybrid_kv_cache_manager : bool;
  original_max_model_len : Z;
}.

(** [vllm_config.model_config.max_model_len = n] *)
Definition with_max_model_len (c : PlanSettings) (n : Z) : PlanSettings :=
  let b := base_config c in
  mkSettings
    (mkConfig n (decode_context_parallel_size b) (prefill_context_parallel_size b)
       (max_num_batched_tokens b) (max_num_encoder_input_tokens b) (cfg_mamba_cache_mode b))
    (num_gpu_blocks_override c) (disable_hybrid_kv_cache_manager c) (original_max_model_len c).
Definition model_len (c : PlanSettings) : Z := max_model_len (base_config c).

Abbreviation layers := (list (string * LayerSpec)).

(** [min(l)] and [max(l)] *)
Definition py_min (l : list Z) : res Z :=
  match l with [] => Err ValueError | x :: l => Ok (foldl Z.min x l) end.
Definition py_max (l : list Z) : res Z :=
  match l with [] => Err ValueError | x :: l => Ok (foldl Z.max x l) end.

(** [sum(f(x) for x in l)] *)
Definition rsum {A} (f : A → res Z) (l : list A) : res Z :=
  rfold (λ acc x, v ← f x; Ok (acc + v)) 0 l.

Section plan.
Context (get_dtype_size : string → Z).

(** ** Sizes of group specs *)

Definition spec_block_size (s : KVCacheSpec) : Z :=
  match s with Layer s => block_size s | UniformTypeKVCacheSpecs bs _ => bs end.
Definition spec_page_size (s : KVCacheSpec) : res Z :=
  match s with
  | Layer s => page_size_bytes get_dtype_size s
  | UniformTypeKVCacheSpecs _ specs => uniform_page_size_bytes get_dtype_size specs
  end.
Definition spec_max_memory (c : PlanSettings) (s : KVCacheSpec) : res Z :=
  match s with
  | Layer s => max_memory_usage_bytes get_dtype_size (base_config c) s
  | UniformTypeKVCacheSpecs _ specs => uniform_max_memory_usage_bytes get_dtype_size (base_config c) specs
  end.

(** [max_memory_usage_bytes] of a collection of specs. *)
Definition sum_max_memory (c : PlanSettings) (specs : list KVCacheSpec) : res Z :=
  rsum (spec_max_memory c) specs.

(** ** The longest model that fits *)

(** The [while left <= right] loop of both estimates. *)
Fixpoint bisect (fuel : nat) (fits : Z → res bool) (left right result : Z) : res Z :=
  match fuel with
  | O => Err OutOfFuel
  | S fuel =>
      if left <=? right then
        let mid := (left + right) / 2 in
        b ← fits mid;
        if b : bool then bisect fuel fits (mid + 1) right mid
        else bisect fuel fits left (mid - 1) result
      else Ok result
  end.

(** The search of both estimates; the length in the configuration is set back
    before they return or raise, so the configuration is unchanged. *)
Definition longest_fit (fits : Z → res bool) (longest : Z) : res Z :=
  b ← fits 1;
  if negb b then Ok 0 else bisect (S (Z.to_nat longest)) fits 1 longest 1.

Definition estimate_max_model_len (c : PlanSettings) (specs : layers) (available_memory : Z) : res Z :=
  longest_fit (λ n, m ← sum_max_memory (with_max_model_len c n) (Layer <$> specs.*2);
                    Ok (m <=? available_memory)) (model_len c).

(** [get_needed_memory] and [estimate_max_model_len] are the callables; the
    estimate only goes into the message. *)
Definition _check_enough_kv_cache_memory (available_memory : Z) (get_needed_memory : res Z)
    (estimate : Z → res Z) : res unit :=
  RAISE ValueError IF available_memory <=? 0;
  needed_memory ← get_needed_memory;
  if available_memory <? needed_memory then _ ← estimate available_memory; Err ValueError
  else Ok tt.

Definition check_enough_kv_cache_memory (c : PlanSettings) (specs : layers) (available_memory : Z)
    : res unit :=
  match specs with
  | [] => Ok tt
  | _ => _check_enough_kv_cache_memory available_memory
           (sum_max_memory c (Layer <$> specs.*2)) (estimate_max_model_len c specs)
  end.

(** ** Groups of layers *)

Definition create_kv_cache_group_specs (specs : layers) (grouped_layer_names : list (list string))
    : res (list PlanGroup) :=
  rmap (λ names,
    layer_specs ← rmap (od_index specs) names;
    merged ← merge layer_specs;
    Ok (mkPlanGroup names (Layer merged))) grouped_layer_names.

(** Only an [AssertionError] of [merge] is caught. *)
Definition is_kv_cache_spec_uniform (specs : layers) : res bool :=
  match specs with
  | [] => Ok true
  | _ => match merge specs.*2 with
         | Ok _ => Ok true
         | Err AssertionError => Ok false
         | Err e => Err e
         end
  end.

Definition may_override_num_blocks (c : PlanSettings) (num_blocks : Z) : Z :=
  default num_blocks (num_gpu_blocks_override c).

Definition get_num_blocks (c : PlanSettings) (num_layers available_memory page_size : Z) : res Z :=
  q ← py_div available_memory page_size;
  num_blocks ← py_div q num_layers;
  Ok (may_override_num_blocks c (Z.max num_blocks 0)).

Definition get_uniform_page_size (specs : list KVCacheSpec) : res Z :=
  pages ← rmap spec_page_size specs;
  match remove_dups pages with
  | [p] => Ok p
  | _ => Err AssertionError
  end.

Definition _get_kv_cache_groups_uniform_spec (specs : layers) : res (list PlanGroup) :=
  create_kv_cache_group_specs specs [specs.*1].

Definition _get_kv_cache_groups_uniform_type (block_size : Z) (specs : layers) : list PlanGroup :=
  [mkPlanGroup specs.*1 (UniformTypeKVCacheSpecs block_size specs)].

Definition is_kv_cache_page_size_uniform (specs : layers) : res bool :=
  pages ← rmap (page_size_bytes get_dtype_size) specs.*2;
  Ok (zlen (remove_dups pages) =? 1).

(** One layer of the loop of [unify_kv_cache_spec_page_size]. *)
Definition unify_layer (max_page_size : Z) (l : string * LayerSpec) : res (string * LayerSpec) :=
  layer_page_size ← page_size_bytes get_dtype_size l.2;
  if layer_page_size =? max_page_size then Ok l else
  r ← py_mod max_page_size layer_page_size;
  RAISE NotImplementedError IF negb (r =? 0);
  let ratio := max_page_size / layer_page_size in
  let new_spec := copy_with_new_block_size l.2 (block_size l.2 * ratio) in
  new_page_size ← page_size_bytes get_dtype_size new_spec;
  ASSERT new_page_size =? max_page_size;
  Ok (l.1, new_spec).

Definition unify_kv_cache_spec_page_size (specs : layers) : res layers :=
  pages ← rmap (page_size_bytes get_dtype_size) specs.*2;
  if zlen (remove_dups pages) <=? 1 then Ok specs else
  max_page_size ← py_max pages;
  rmap (unify_layer max_page_size) specs.

Definition is_kv_cache_type_attention_free (specs : layers) : bool := bool_decide (specs = []).

(** [same_type_layers[layer_spec].append(layer_name)] *)
Fixpoint add_layer (d : list (LayerSpec * list string)) (s : LayerSpec) (name : string)
    : list (LayerSpec * list string) :=
  match d with
  | [] => [(s, [name])]
  | (s', names) :: d =>
      if decide (s' = s) then (s', names ++ [name]) :: d else (s', names) :: add_layer d s name
  end.
Definition same_type_layers (specs : layers) : list (LayerSpec * list string) :=
  foldl (λ d l, add_layer d l.2 l.1) [] specs.

(** [l[i::n]]: the elements at the positions [i], [i + n], ... *)
Definition py_stride {A} (l : list A) (i n : nat) : list A :=
  (filter (λ x, i ≤ x.1 ∧ (x.1 - i) `mod` n = 0)%nat (zip (seq 0 (length l)) l)).*2.

(** The number of layers in a group; [1.5] is compared exactly. *)
Definition choose_group_size (lens : list Z) : res Z :=
  min_num_layers ← py_min lens;
  max_num_layers ← py_max lens;
  Ok (if 2 * max_num_layers <? 3 * min_num_layers then max_num_layers else min_num_layers).

(** [for i in range(num_groups): grouped_layers.append(layers[i::num_groups])] *)
Definition split_layers (group_size : Z) (names : list string) : list (list string) :=
  let num_groups := Z.to_nat (cdiv (zlen names) group_size) in
  (λ i, py_stride names i num_groups) <$> seq 0 num_groups.

Definition _get_kv_cache_groups_uniform_page_size (specs : layers) : res (list PlanGroup) :=
  let types := same_type_layers specs in
  group_size ← choose_group_size ((λ t, zlen t.2) <$> types);
  create_kv_cache_group_specs specs (concat ((λ t, split_layers group_size t.2) <$> types)).

(** ** Hybrid models without the hybrid manager *)

Definition is_sliding (s : LayerSpec) : bool := match s with SlidingWindowSpec _ _ => true | _ => false end.
Definition is_chunked_local (s : LayerSpec) : bool :=
  match s with ChunkedLocalAttentionSpec _ _ => true | _ => false end.

Definition as_full (s : LayerSpec) : LayerSpec :=
  match s with
  | SlidingWindowSpec a w => FullAttentionSpec a (full_fields a None (Some w) None)
  | ChunkedLocalAttentionSpec a c => FullAttentionSpec a (full_fields a None None (Some c))
  | s => s
  end.

(** [is_kv_cache_spec_uniform(d) or UniformTypeKVCacheSpecs.is_uniform_type(d)] *)
Definition is_one_type (specs : layers) : res bool :=
  u ← is_kv_cache_spec_uniform specs;
  if u : bool then Ok true else is_uniform_type specs.

(** The dict is modified in place. *)
Definition unify_hybrid_kv_cache_specs (specs : layers) : res layers :=
  one ← is_one_type specs;
  if one : bool then Ok specs else
  let ss := specs.*2 in
  let specs :=
    if existsb is_full ss && (existsb is_sliding ss || existsb is_chunked_local ss)
    then (λ l, (l.1, as_full l.2)) <$> specs else specs in
  one ← is_one_type specs;
  RAISE ValueError IF negb one;
  Ok specs.

Definition get_kv_cache_groups (c : PlanSettings) (specs : layers) : res (list PlanGroup) :=
  specs ← (if disable_hybrid_kv_cache_manager c then unify_hybrid_kv_cache_specs specs else Ok specs);
  match specs with
  | [] => Ok []
  | _ =>
      uniform ← is_kv_cache_spec_uniform specs;
      if uniform : bool then _get_kv_cache_groups_uniform_spec specs else
      uniform_spec ← from_specs specs;
      match uniform_spec with
      | Some (UniformTypeKVCacheSpecs bs _) => Ok (_get_kv_cache_groups_uniform_type bs specs)
      | _ =>
          specs ← unify_kv_cache_spec_page_size specs;
          _get_kv_cache_groups_uniform_page_size specs
      end
  end.

(** ** The configuration of a worker *)

(** [isinstance(kv_cache_groups[0].kv_cache_spec, UniformTypeKVCacheSpecs)] for a
    single group. *)
Definition uniform_group (groups : list PlanGroup) : option (list string * layers) :=
  match groups with
  | [mkPlanGroup names (UniformTypeKVCacheSpecs _ specs)] => Some (names, specs)
  | _ => None
  end.

(** The layers that share tensor [i]. *)
Definition sharing (groups : list PlanGroup) (i : Z) : list string :=
  omap (λ g, pg_layer_names g !! Z.to_nat i) groups.

Definition get_kv_cache_config_from_groups (c : PlanSettings) (groups : list PlanGroup)
    (available_memory : Z) : res PlanConfig :=
  match groups with
  | [] => Ok (mkPlanConfig 1 [] [])
  | _ =>
      match uniform_group groups with
      | Some (names, specs) =>
          page ← uniform_page_size_bytes get_dtype_size specs;
          num_blocks ← py_div available_memory page;
          let num_blocks := may_override_num_blocks c num_blocks in
          tensors ← rmap (λ name,
            s ← od_index specs name;
            p ← page_size_bytes get_dtype_size s;
            Ok (mkTensor (p * num_blocks) [name])) names;
          Ok (mkPlanConfig num_blocks tensors groups)
      | None =>
          group_size ← py_max ((λ g, zlen (pg_layer_names g)) <$> groups);
          page_size ← get_uniform_page_size (pg_spec <$> groups);
          ASSERT 0 <? group_size;
          num_blocks ← get_num_blocks c group_size available_memory page_size;
          Ok (mkPlanConfig num_blocks
                ((λ i, mkTensor (page_size * num_blocks) (sharing groups i)) <$> zrange 0 group_size)
                groups)
      end
  end.

(** [next(iter(specs.values()))] for a uniform group. *)
Definition scheduler_group (g : PlanGroup) : res KVCacheGroupSpec :=
  match pg_spec g with
  | Layer s => Ok (mkGroup (pg_layer_names g) s)
  | UniformTypeKVCacheSpecs _ ((_, s) :: _) => Ok (mkGroup (pg_layer_names g) s)
  | UniformTypeKVCacheSpecs _ [] => Err StopIteration
  end.

Definition generate_scheduler_kv_cache_config (configs : list PlanConfig) : res KVCacheConfig :=
  match configs with
  | [] => Err IndexError
  | cfg :: _ =>
      ASSERT forallb (λ c, pc_num_blocks c =? pc_num_blocks cfg) configs;
      groups ← rmap scheduler_group (pc_groups cfg);
      Ok (mkKVCacheConfig (pc_num_blocks cfg) (pc_tensors cfg) groups)
  end.

(** ** The report *)

Definition get_max_concurrency_for_kv_cache_config (c : PlanSettings) (cfg : PlanConfig) : res Q :=
  num_layer_per_group ← py_max ((λ g, zlen (pg_layer_names g)) <$> pc_groups cfg);
  memory ← sum_max_memory c (pg_spec <$> pc_groups cfg);
  g ← py_index (pc_groups cfg) 0;
  page ← spec_page_size (pg_spec g);
  let memory_per_block := page * num_layer_per_group in
  RAISE ZeroDivisionError IF memory_per_block =? 0;
  let num_block_per_request := cdiv (num_layer_per_group * memory) memory_per_block in
  RAISE ZeroDivisionError IF num_block_per_request =? 0;
  Ok (inject_Z (pc_num_blocks cfg) / inject_Z num_block_per_request)%Q.

(** The number of tokens and the concurrency that are logged. *)
Definition _report_kv_cache_config (c : PlanSettings) (cfg : PlanConfig) : res (Z * Q) :=
  min_block_size ← py_min ((λ g, spec_block_size (pg_spec g)) <$> pc_groups cfg);
  q ← py_div (pc_num_blocks cfg) (zlen (pc_groups cfg));
  let cp := prefill_context_parallel_size (base_config c) * decode_context_parallel_size (base_config c) in
  let num_tokens := q * min_block_size * (if 1 <? cp then cp else 1) in
  concurrency ← get_max_concurrency_for_kv_cache_config c cfg;
  Ok (num_tokens, concurrency).

(** ** All workers *)

Definition _max_memory_usage_bytes_from_groups (c : PlanSettings) (groups : list PlanGroup) : res Z :=
  match groups with
  | [] => Ok 0
  | _ =>
      match uniform_group groups with
      | Some (_, specs) => rsum (λ l, max_memory_usage_bytes get_dtype_size (base_config c) l.2) specs
      | None =>
          group_size ← py_max ((λ g, zlen (pg_layer_names g)) <$> groups);
          page_size ← get_uniform_page_size (pg_spec <$> groups);
          blocks_needed ← rsum (λ g, u ← spec_max_memory c (pg_spec g);
                                     RAISE ZeroDivisionError IF page_size =? 0;
                                     Ok (cdiv u page_size)) groups;
          Ok (group_size * page_size * blocks_needed)
      end
  end.

Definition _estimate_max_model_len_from_groups (c : PlanSettings) (groups : list PlanGroup)
    (available_memory : Z) : res Z :=
  longest_fit (λ n, m ← _max_memory_usage_bytes_from_groups (with_max_model_len c n) groups;
                    Ok (m <=? available_memory)) (model_len c).

(** The new configuration. *)
Definition _auto_fit_max_model_len (c : PlanSettings) (projected : list (list PlanGroup))
    (available_memory : list Z) : res PlanSettings :=
  if forallb (λ gs, bool_decide (gs = [])) projected then Ok c else
  _ ← py_index available_memory 0;
  auto_fit_max ← rfold (λ acc x,
    match x.1 with
    | [] => Ok acc
    | groups =>
        worker_max ← _estimate_max_model_len_from_groups c groups x.2;
        Ok (if worker_max <? acc then worker_max else acc)
    end) (model_len c) (zip projected available_memory);
  RAISE ValueError IF auto_fit_max <=? 0;
  Ok (if model_len c <=? auto_fit_max then c else with_max_model_len c auto_fit_max).

Definition _project_kv_cache_groups_to_worker (groups : list PlanGroup) (worker_spec : layers)
    : res (list PlanGroup) :=
  rmap (λ g,
    let names := filter (λ n, n ∈ worker_spec.*1) (pg_layer_names g) in
    match names, pg_spec g with
    | _ :: _, UniformTypeKVCacheSpecs bs specs =>
        kept ← rmap (λ n, s ← od_index specs n; Ok (n, s)) names;
        Ok (mkPlanGroup names (UniformTypeKVCacheSpecs bs kept))
    | _, s => Ok (mkPlanGroup names s)
    end) groups.

(** The specs of all workers; equal names must have equal specs. *)
Definition merge_worker_specs (kv_cache_specs : list layers) : res layers :=
  rfold (λ d l,
    match od_get d l.1 with
    | None => Ok (od_set d l.1 l.2)
    | Some s => ASSERT bool_decide (s = l.2); Ok d
    end) [] (concat kv_cache_specs).

(** The check of every worker that has groups. *)
Definition check_workers (c : PlanSettings) (projected : list (list PlanGroup)) (available : list Z)
    : res unit :=
  rfold (λ _ x,
    match x.1 with
    | [] => Ok tt
    | groups => _check_enough_kv_cache_memory x.2 (_max_memory_usage_bytes_from_groups c groups)
                  (_estimate_max_model_len_from_groups c groups)
    end) tt (zip projected available).

Definition worker_config (c : PlanSettings) (x : list PlanGroup * layers * Z) : res PlanConfig :=
  let '(groups, specs, available_memory) := x in
  ASSERT foldr Z.add 0 ((λ g, zlen (pg_layer_names g)) <$> groups) =? zlen specs;
  get_kv_cache_config_from_groups c groups available_memory.

(** Shrinks the tensors of one worker to [min_num_blocks] and reports. *)
Definition shrink_config (c : PlanSettings) (min_num_blocks : Z) (cfg : PlanConfig) : res PlanConfig :=
  tensors ← rmap (λ t,
    r ← py_mod (t_size t) (pc_num_blocks cfg);
    ASSERT r =? 0;
    Ok (mkTensor (t_size t / pc_num_blocks cfg * min_num_blocks) (shared_by t))) (pc_tensors cfg);
  let cfg := mkPlanConfig min_num_blocks tensors (pc_groups cfg) in
  match pc_groups cfg with
  | [] => Ok cfg
  | _ => _ ← _report_kv_cache_config c cfg; Ok cfg
  end.

(** The configurations, with the settings that [_auto_fit_max_model_len] may have
    changed. *)
Definition get_kv_cache_configs (c : PlanSettings) (kv_cache_specs : list layers)
    (available_memory : list Z) : res (list PlanConfig * PlanSettings) :=
  merged ← merge_worker_specs kv_cache_specs;
  groups ← get_kv_cache_groups c merged;
  projected ← rmap (_project_kv_cache_groups_to_worker groups) kv_cache_specs;
  c ← (if original_max_model_len c =? -1 then _auto_fit_max_model_len c projected available_memory
       else Ok c);
  _ ← check_workers c projected available_memory;
  configs ← rmap (worker_config c) (zip (zip projected kv_cache_specs) available_memory);
  min_num_blocks ← py_min (pc_num_blocks <$> configs);
  configs ← rmap (shrink_config c min_num_blocks) configs;
  Ok (configs, c).
End plan.
