(* ===== verification/PlanProps.v ===== *)
(** * What the KV-cache plan guarantees

    Theorems about KVCachePlan.v: the search for the longest model that fits, the
    partition of the layers into groups, the memory the tensors take, and that an
    accepted plan has the blocks for a request of maximal length. *)

From Stdlib Require Import String QArith.
From S2P Require Import Prelude KVCacheSpec KVCachePlan.
#[local] Open Scope Z_scope.

(** ** Loops *)

Lemma py_max_spec l m : py_max l = Ok m → m ∈ l ∧ ∀ x, x ∈ l → x ≤ m.
Proof.
  destruct l as [|y l]; [done|]. intros [= <-]. revert y. induction l as [|z l IH]; intros y; cbn.
  - split; [left|]. intros x Hx. set_solver by lia.
  - destruct (IH (Z.max y z)) as [Hin Hle]. split.
    + apply elem_of_cons in Hin as [->|Hin]; [|by do 2 right].
      destruct (Z.max_dec y z) as [-> | ->]; [left|right; left].
    + intros x [->|[->|Hx]%elem_of_cons]%elem_of_cons; [| |apply Hle; by right].
      all: pose proof (Hle (Z.max y z) ltac:(left)); lia.
Qed.

Lemma py_min_spec l m : py_min l = Ok m → m ∈ l ∧ ∀ x, x ∈ l → m ≤ x.
Proof.
  destruct l as [|y l]; [done|]. intros [= <-]. revert y. induction l as [|z l IH]; intros y; cbn.
  - split; [left|]. intros x Hx. set_solver by lia.
  - destruct (IH (Z.min y z)) as [Hin Hle]. split.
    + apply elem_of_cons in Hin as [->|Hin]; [|by do 2 right].
      destruct (Z.min_dec y z) as [-> | ->]; [left|right; left].
    + intros x [->|[->|Hx]%elem_of_cons]%elem_of_cons; [| |apply Hle; by right].
      all: pose proof (Hle (Z.min y z) ltac:(left)); lia.
Qed.

(** Sums of functions that do not raise. *)
Definition sum_of {A} (f : A → Z) (l : list A) : Z := foldr (λ x acc, f x + acc) 0 l.

Lemma sum_of_cons {A} (f : A → Z) x l : sum_of f (x :: l) = f x + sum_of f l.
Proof. done. Qed.

Lemma rsum_Ok {A} (f : A → res Z) (g : A → Z) l :
  (∀ x, x ∈ l → f x = Ok (g x)) → rsum f l = Ok (sum_of g l).
Proof.
  unfold rsum. intros Hf.
  assert (∀ acc, rfold (λ acc x, v ← f x; Ok (acc + v)) acc l = Ok (acc + sum_of g l)) as Hgen;
    [|by rewrite Hgen].
  induction l as [|x l IH]; intros acc; cbn [rfold]; [by rewrite Z.add_0_r|].
  rewrite (Hf x) by left. cbn [mbind res_bind]. rewrite IH by (intros; apply Hf; by right).
  rewrite sum_of_cons. f_equal. lia.
Qed.

Lemma sum_of_mono {A} (f g : A → Z) l : (∀ x, x ∈ l → f x ≤ g x) → sum_of f l ≤ sum_of g l.
Proof.
  induction l as [|x l IH]; intros Hl; [done|]. rewrite !sum_of_cons.
  pose proof (Hl x ltac:(left)). assert (sum_of f l ≤ sum_of g l) by (apply IH; intros; apply Hl; by right). lia.
Qed.

Lemma sum_of_ext {A} (f g : A → Z) l : (∀ x, x ∈ l → f x = g x) → sum_of f l = sum_of g l.
Proof.
  induction l as [|x l IH]; intros Hl; [done|]. rewrite !sum_of_cons, Hl by left. f_equal. apply IH.
  intros; apply Hl; by right.
Qed.

Lemma sum_of_scale {A} (f : A → Z) n l : sum_of (λ x, n * f x) l = n * sum_of f l.
Proof. induction l as [|x l IH]; [cbn; lia|]. rewrite !sum_of_cons, IH. lia. Qed.

Lemma sum_of_nonneg {A} (f : A → Z) l : (∀ x, x ∈ l → 0 ≤ f x) → 0 ≤ sum_of f l.
Proof.
  intros Hl. etrans; [|apply (sum_of_mono (λ _, 0)); exact Hl]. clear. induction l; [done|by rewrite sum_of_cons].
Qed.

(** ** The longest model that fits *)

Section search.
Context (fits : Z → res bool) (f : Z → bool) (longest : Z).
Hypothesis Hfits : ∀ n, 1 ≤ n ≤ longest → fits n = Ok (f n).
Hypothesis Hanti : ∀ m n, 1 ≤ m ≤ n → n ≤ longest → f n = true → f m = true.

Lemma bisect_spec fuel left right result :
  1 ≤ left → right ≤ longest → 1 ≤ result ≤ longest → f result = true → left - 1 ≤ result →
  (∀ n, right < n → n ≤ longest → f n = false) → (Z.to_nat (right + 1 - left) < fuel)%nat →
  ∃ r, bisect fuel fits left right result = Ok r ∧ 1 ≤ r ≤ longest ∧ f r = true
    ∧ ∀ n, r < n → n ≤ longest → f n = false.
Proof using Hfits Hanti.
  revert left right result. induction fuel as [|fuel IH]; intros left right result H1 H2 H3 H4 H5 H6 H7; [lia|].
  cbn [bisect]. destruct (left <=? right) eqn:E; to_prop.
  - assert (left ≤ (left + right) / 2 ≤ right) as Hmid.
    { split; [apply Z.div_le_lower_bound|apply Z.div_le_upper_bound]; lia. }
    set (mid := (left + right) / 2) in *. rewrite Hfits by lia. cbn [mbind res_bind].
    destruct (f mid) eqn:Ef.
    + apply IH; try lia; done.
    + apply IH; try lia; try done. intros n Hn Hn'. destruct (f n) eqn:En; [|done].
      rewrite (Hanti mid n) in Ef by (lia || done). done.
  - exists result. split_and!; try done; try lia. intros n Hn. apply H6. lia.
Qed.

Lemma longest_fit_spec :
  1 ≤ longest →
  ∃ r, longest_fit fits longest = Ok r ∧ 0 ≤ r ≤ longest ∧ ∀ n, 1 ≤ n ≤ longest → f n = true ↔ n ≤ r.
Proof using Hfits Hanti.
  intros Hl. unfold longest_fit. rewrite Hfits by lia. cbn [mbind res_bind].
  destruct (f 1) eqn:E1; cbn [negb].
  - destruct (bisect_spec (S (Z.to_nat longest)) 1 longest 1) as (r & -> & Hr & Hfr & Hmax); try lia; try done.
    exists r. split; [done|]. split; [lia|]. intros n Hn. split.
    + intros Hf. destruct (decide (n ≤ r)); [done|]. rewrite Hmax in Hf by lia. done.
    + intros Hle. by apply (Hanti n r); [lia..|].
  - exists 0. split; [done|]. split; [lia|]. intros n Hn. split; [|lia].
    intros Hf. rewrite (Hanti 1 n) in E1 by (lia || done). done.
Qed.
End search.

(** ** What a request of maximal length needs *)

Section needs.
Context (get_dtype_size : string → Z).

(** The blocks of one layer for a request of maximal length. *)
Definition layer_blocks (b : VllmConfig) (s : LayerSpec) : Z :=
  match s with
  | FullAttentionSpec _ _ | MLAAttentionSpec _ _ _ | SinkFullAttentionSpec _ _ _ =>
      let world := decode_context_parallel_size b * prefill_context_parallel_size b in
      cdiv (if 1 <? world then cdiv (max_model_len b) world else max_model_len b) (block_size s)
  | ChunkedLocalAttentionSpec _ chunk =>
      cdiv (Z.min (chunk + max_num_batched_tokens b) (max_model_len b)) (block_size s)
  | SlidingWindowSpec _ sw =>
      cdiv (Z.min (sw - 1 + max_num_batched_tokens b) (max_model_len b)) (block_size s) + 1
  | EncoderOnlyAttentionSpec _ => 0
  | CrossAttentionSpec _ => cdiv (max_num_encoder_input_tokens b) (block_size s)
  | MambaSpec m =>
      if String.eqb (cfg_mamba_cache_mode b) "all" then cdiv (max_model_len b) (block_size s)
      else if String.eqb (cfg_mamba_cache_mode b) "align" then 2 + num_speculative_blocks m
      else 1 + num_speculative_blocks m
  end.

Definition page_of (s : LayerSpec) : Z :=
  match page_size_bytes get_dtype_size s with Ok p => p | Err _ => 0 end.

(** Positive sizes; sliding windows exclude context parallelism of the decoder. *)
Record spec_ok (b : VllmConfig) (s : LayerSpec) : Prop := {
  so_block : 0 < block_size s;
  so_page : page_size_bytes get_dtype_size s = Ok (page_of s);
  so_page_pos : 0 < page_of s;
  so_sliding : is_sliding s = true → decode_context_parallel_size b = 1;
}.

Lemma layer_memory b s :
  spec_ok b s → max_memory_usage_bytes get_dtype_size b s = Ok (layer_blocks b s * page_of s).
Proof.
  intros [Hb Hp _ Hs]. destruct s; cbn [max_memory_usage_bytes]; rewrite ?Hp; cbn [mbind res_bind]; try done.
  - rewrite (Hs eq_refl). done.
  - unfold layer_blocks. repeat case_match; f_equal; lia.
Qed.

Lemma layer_blocks_mono c s m n :
  0 < block_size s → m ≤ n →
  layer_blocks (base_config (with_max_model_len c m)) s ≤ layer_blocks (base_config (with_max_model_len c n)) s.
Proof.
  intros Hb Hmn. destruct s; cbn in *; try done; repeat case_match; to_prop; try (apply cdiv_mono; [lia|]);
    try lia; try (by apply cdiv_mono; lia).
  assert (cdiv (Z.min (sliding_window - 1 + max_num_batched_tokens (base_config c)) m) (a_block_size a)
    ≤ cdiv (Z.min (sliding_window - 1 + max_num_batched_tokens (base_config c)) n) (a_block_size a))
    by (apply cdiv_mono; lia). lia.
Qed.

Lemma spec_ok_len c n s : spec_ok (base_config c) s → spec_ok (base_config (with_max_model_len c n)) s.
Proof. by intros []. Qed.

(** The plans that arise: one group of layers of one type, or groups of layers
    with equal page sizes. *)
Inductive plan_ok (b : VllmConfig) : list PlanGroup → Prop :=
  | uniform_ok names bs specs :
      (∀ l, l ∈ specs → spec_ok b l.2) → plan_ok b [mkPlanGroup names (UniformTypeKVCacheSpecs bs specs)]
  | layers_ok groups page :
      groups ≠ [] → (∀ g, g ∈ groups → ∃ s, pg_spec g = Layer s ∧ spec_ok b s ∧ page_of s = page) →
      plan_ok b groups.

Definition group_layer (g : PlanGroup) : option LayerSpec :=
  match pg_spec g with Layer s => Some s | _ => None end.
Definition group_blocks (b : VllmConfig) (g : PlanGroup) : Z :=
  match group_layer g with Some s => layer_blocks b s | None => 0 end.

(** The number of layers of the largest group. *)
Definition group_width (groups : list PlanGroup) : Z :=
  match py_max ((λ g, zlen (pg_layer_names g)) <$> groups) with Ok n => n | Err _ => 0 end.

Lemma group_width_spec groups :
  groups ≠ [] → py_max ((λ g, zlen (pg_layer_names g)) <$> groups) = Ok (group_width groups)
    ∧ 0 ≤ group_width groups ∧ ∀ g, g ∈ groups → zlen (pg_layer_names g) ≤ group_width groups.
Proof.
  intros Hne. unfold group_width. destruct (py_max _) as [n|e] eqn:E; [|by destruct groups].
  destruct (py_max_spec _ _ E) as [Hin Hle]. split; [done|]. split.
  - apply list_elem_of_fmap in Hin as (g & -> & _). apply zlen_nonneg.
  - intros g Hg. apply Hle, list_elem_of_fmap. by exists g.
Qed.

Lemma remove_dups_const {A} `{EqDecision A} (l : list A) x :
  l ≠ [] → (∀ y, y ∈ l → y = x) → remove_dups l = [x].
Proof.
  intros Hne Hl. assert (x ∈ remove_dups l) as Hx.
  { apply elem_of_remove_dups. destruct l as [|y l]; [done|]. rewrite <- (Hl y ltac:(left)). left. }
  pose proof (NoDup_remove_dups l) as Hnd.
  assert (∀ y, y ∈ remove_dups l → y = x) as Hall by (intros y Hy; apply Hl; by rewrite elem_of_remove_dups in Hy).
  destruct (remove_dups l) as [|y [|z k]]; [by apply elem_of_nil in Hx| |].
  - by rewrite (Hall y ltac:(left)).
  - exfalso. apply NoDup_cons in Hnd as [Hy _]. apply Hy.
    rewrite (Hall y ltac:(left)), (Hall z ltac:(right; left)). left.
Qed.

Lemma rmap_const {A B} (f : A → res B) x l :
  (∀ a, a ∈ l → f a = Ok x) → rmap f l = Ok (replicate (length l) x).
Proof.
  induction l as [|a l IH]; intros Hf; [done|]. cbn. rewrite (Hf a) by left. cbn [mbind res_bind].
  rewrite IH; [done|]. intros; apply Hf; by right.
Qed.

Lemma rmap_fmap_Ok {A B C} (f : B → res C) (g : A → B) (h : A → C) l :
  (∀ x, x ∈ l → f (g x) = Ok (h x)) → rmap f (g <$> l) = Ok (h <$> l).
Proof.
  induction l as [|x l IH]; intros Hf; [done|]. rewrite !fmap_cons. cbn [rmap]. rewrite (Hf x) by left.
  cbn [mbind res_bind]. rewrite IH; [done|]. intros; apply Hf; by right.
Qed.

Lemma uniform_page groups b page :
  groups ≠ [] → (∀ g, g ∈ groups → ∃ s, pg_spec g = Layer s ∧ spec_ok b s ∧ page_of s = page) →
  get_uniform_page_size get_dtype_size (pg_spec <$> groups) = Ok page.
Proof.
  intros Hne Hg. unfold get_uniform_page_size. rewrite (rmap_const _ page).
  - cbn [mbind res_bind]. rewrite (remove_dups_const _ page); [done| |].
    + rewrite length_fmap. destruct groups; done.
    + intros y [-> _]%elem_of_replicate. done.
  - intros s (g & -> & Hin)%list_elem_of_fmap. destruct (Hg g Hin) as (s & -> & Hs & <-). apply Hs.
Qed.

(** The memory that [_max_memory_usage_bytes_from_groups] computes. *)
Definition plan_memory (b : VllmConfig) (groups : list PlanGroup) : Z :=
  match uniform_group groups with
  | Some (_, specs) => sum_of (λ l, layer_blocks b l.2 * page_of l.2) specs
  | None =>
      group_width groups * default 0 (page_of <$> (head groups ≫= group_layer)) * sum_of (group_blocks b) groups
  end.

Lemma plan_memory_spec c groups :
  plan_ok (base_config c) groups →
  _max_memory_usage_bytes_from_groups get_dtype_size c groups = Ok (plan_memory (base_config c) groups).
Proof.
  intros [names bs specs Hs|gs page Hne Hg]; unfold _max_memory_usage_bytes_from_groups, plan_memory.
  - cbn [uniform_group]. apply rsum_Ok. intros l Hl. by apply layer_memory, Hs.
  - assert (uniform_group gs = None) as ->.
    { destruct gs as [|[names s] gs]; [done|]. destruct (Hg _ ltac:(left)) as (s' & E & _). cbn in E. by subst. }
    destruct (group_width_spec gs Hne) as (-> & _). cbn [mbind res_bind].
    rewrite (uniform_page gs (base_config c) page) by done. cbn [mbind res_bind].
    rewrite (rsum_Ok _ (group_blocks (base_config c))).
    + destruct gs as [|g gs]; [done|]. cbn [mbind res_bind head].
      destruct (Hg g ltac:(left)) as (s & Es & _ & Ep). unfold group_layer at 1. cbn. by rewrite Es, <- Ep.
    + intros g Hin. destruct (Hg g Hin) as (s & Es & Hs & Ep). unfold spec_max_memory, group_blocks, group_layer.
      rewrite Es, layer_memory by done. cbn [mbind res_bind]. pose proof (so_page_pos _ _ Hs).
      rewrite (proj2 (Z.eqb_neq _ _)) by lia. rewrite <- Ep, cdiv_mul by lia. done.
Qed.

Lemma plan_ok_len c n groups :
  plan_ok (base_config c) groups → plan_ok (base_config (with_max_model_len c n)) groups.
Proof.
  intros [names bs specs Hs|gs page Hne Hg]; [constructor; auto using spec_ok_len|].
  apply (layers_ok _ _ page); [done|]. intros g Hin. destruct (Hg g Hin) as (s & ? & ? & ?).
  eauto using spec_ok_len.
Qed.

Lemma plan_memory_mono c groups m n :
  plan_ok (base_config c) groups → m ≤ n →
  plan_memory (base_config (with_max_model_len c m)) groups
    ≤ plan_memory (base_config (with_max_model_len c n)) groups.
Proof.
  intros Hp Hmn. unfold plan_memory. destruct (uniform_group groups) as [[names specs]|] eqn:E.
  - assert (∀ l, l ∈ specs → spec_ok (base_config c) l.2) as Hs.
    { destruct Hp as [names' bs specs' Hs|gs page Hne Hg]; [by injection E as <- <-|].
      destruct gs as [|[nm s] gs]; [done|]. destruct (Hg _ ltac:(left)) as (s' & Es & _). cbn in Es. by subst. }
    apply sum_of_mono. intros l [Hb _ Hpp _]%Hs. apply Z.mul_le_mono_nonneg_r; [lia|].
    by apply layer_blocks_mono.
  - destruct Hp as [|gs page Hne Hg]; [done|]. destruct (group_width_spec gs Hne) as (_ & Hw & _).
    destruct gs as [|g gs]; [done|]. destruct (Hg g ltac:(left)) as (s & Es & Hs & Ep).
    apply Z.mul_le_mono_nonneg_l.
    + apply Z.mul_nonneg_nonneg; [done|]. unfold group_layer. cbn. rewrite Es. cbn. pose proof (so_page_pos _ _ Hs). lia.
    + apply sum_of_mono. intros g' Hg'. destruct (Hg g' Hg') as (s' & Es' & Hs' & _).
      unfold group_blocks, group_layer. rewrite Es'. apply layer_blocks_mono; [apply Hs'|done].
Qed.

(** The binary search for the longest model is exact. *)
Lemma estimate_spec c groups available :
  plan_ok (base_config c) groups → 1 ≤ model_len c →
  ∃ r, _estimate_max_model_len_from_groups get_dtype_size c groups available = Ok r ∧ 0 ≤ r ≤ model_len c
    ∧ ∀ n, 1 ≤ n ≤ model_len c →
        n ≤ r ↔ plan_memory (base_config (with_max_model_len c n)) groups ≤ available.
Proof.
  intros Hp Hl. unfold _estimate_max_model_len_from_groups.
  destruct (longest_fit_spec
    (λ n, m ← _max_memory_usage_bytes_from_groups get_dtype_size (with_max_model_len c n) groups; Ok (m <=? available))
    (λ n, plan_memory (base_config (with_max_model_len c n)) groups <=? available) (model_len c))
    as (r & E & Hr & Hiff); [| |done|].
  - intros n _. by rewrite plan_memory_spec by (by apply plan_ok_len).
  - intros m n Hmn _ Hn%Z.leb_le. apply Z.leb_le. pose proof (plan_memory_mono c groups m n Hp). lia.
  - exists r. split; [done|]. split; [done|]. intros n Hn. by rewrite <- Hiff, Z.leb_le by done.
Qed.

End needs.
