(* ===== verification/PlanGroups.v ===== *)
(** * The groups of a hybrid model

    [_get_kv_cache_groups_uniform_page_size] of KVCachePlan.v puts every layer into
    exactly one group of layers with the same spec. *)

From Stdlib Require Import String.
From S2P Require Import Prelude KVCacheSpec KVCachePlan PlanProps.
#[local] Open Scope Z_scope.

(** ** Slices with a step *)

Lemma concat_fmap_map {A B C} (g : B → C) (f : A → list B) (l : list A) :
  concat ((λ x, g <$> f x) <$> l) = g <$> concat (f <$> l).
Proof. induction l as [|x l IH]; [done|]. cbn. by rewrite IH, fmap_app. Qed.

Lemma filter_below {A} (f : A → nat) (l : list A) n :
  filter (λ x, f x < n)%nat l ++ filter (λ x, f x = n) l ≡ₚ filter (λ x, f x < S n)%nat l.
Proof.
  induction l as [|x l IH]; [done|]. rewrite !filter_cons.
  repeat case_decide; try lia; cbn; rewrite <- ?Permutation_middle; by rewrite IH.
Qed.

(** Sorting a list into classes loses nothing. *)
Lemma classes_perm {A} (f : A → nat) (l : list A) n :
  concat ((λ i, filter (λ x, f x = i) l) <$> seq 0 n) ≡ₚ filter (λ x, f x < n)%nat l.
Proof.
  induction n as [|n IH].
  - cbn. rewrite list_filter_none; [done|]. apply Forall_forall. intros. lia.
  - rewrite seq_S, fmap_app, concat_app, IH. cbn. rewrite app_nil_r. apply filter_below.
Qed.

Lemma stride_class {A} (l : list A) i n :
  (i < n)%nat → py_stride l i n = (filter (λ x, x.1 `mod` n = i)%nat (zip (seq 0 (length l)) l)).*2.
Proof.
  intros Hi. unfold py_stride. f_equal. apply list_filter_iff'. intros [k x] _. cbn. split.
  - intros [Hle Hm]. apply Nat.Div0.div_exact in Hm. replace k with (i + n * ((k - i) / n))%nat by lia.
    rewrite Nat.mul_comm, Nat.Div0.mod_add. by apply Nat.mod_small.
  - intros <-. split; [apply Nat.Div0.mod_le|].
    pose proof (Nat.Div0.div_mod k n). replace (k - k `mod` n)%nat with ((k / n) * n)%nat by lia.
    apply Nat.Div0.mod_mul.
Qed.

Lemma zip_seq_snd {A} (l : list A) a : (zip (seq a (length l)) l).*2 = l.
Proof. revert a. induction l as [|x l IH]; intros a; cbn; [done|]. by rewrite IH. Qed.

Lemma zip_seq_fst {A} (l : list A) a : (zip (seq a (length l)) l).*1 = seq a (length l).
Proof. revert a. induction l as [|x l IH]; intros a; cbn; [done|]. by rewrite IH. Qed.

Lemma strides_perm {A} (l : list A) n :
  (0 < n)%nat → concat ((λ i, py_stride l i n) <$> seq 0 n) ≡ₚ l.
Proof.
  intros Hn. rewrite (list_fmap_ext _ (λ i, (filter (λ x, x.1 `mod` n = i)%nat (zip (seq 0 (length l)) l)).*2)).
  - rewrite concat_fmap_map, (classes_perm (λ x : nat * A, x.1 `mod` n)%nat), list_filter_all, zip_seq_snd; [done|].
    apply Forall_forall. intros x _. apply Nat.mod_upper_bound. lia.
  - intros i j Hj. apply lookup_seq in Hj as [-> ?]. apply stride_class. lia.
Qed.

(** A stride is as long as the number of turns. *)
Lemma stride_length {A} (l : list A) i n m :
  (i < n)%nat → (length l ≤ m * n)%nat → (length (py_stride l i n) ≤ m)%nat.
Proof.
  intros Hi Hl. rewrite stride_class by done. rewrite length_fmap.
  set (F := filter _ _).
  assert (NoDup ((λ x : nat * A, x.1 / n)%nat <$> F)) as Hnd.
  { change (NoDup (((λ k, k / n)%nat ∘ fst) <$> F)). rewrite list_fmap_compose. apply NoDup_fmap_2_strong.
    - intros k k' (x & -> & [Hx _]%list_elem_of_filter)%list_elem_of_fmap
        (y & -> & [Hy _]%list_elem_of_filter)%list_elem_of_fmap Hd.
      pose proof (Nat.Div0.div_mod x.1 n). pose proof (Nat.Div0.div_mod y.1 n). congruence.
    - apply (sublist_NoDup _ (seq 0 (length l))); [apply NoDup_seq|]. rewrite <- (zip_seq_fst l 0).
      apply fmap_sublist, sublist_filter. }
  rewrite <- (length_fmap (λ x : nat * A, x.1 / n)%nat F), <- (length_seq m 0).
  apply submseteq_length, NoDup_submseteq; [done|]. intros k (x & -> & [_ Hx]%list_elem_of_filter)%list_elem_of_fmap.
  apply elem_of_seq. split; [lia|]. apply (list_elem_of_fmap_2 fst) in Hx. rewrite zip_seq_fst, elem_of_seq in Hx.
  apply Nat.Div0.div_lt_upper_bound. lia.
Qed.

Lemma stride_nonempty {A} (l : list A) i n : (i < n)%nat → (i < length l)%nat → py_stride l i n ≠ [].
Proof.
  intros Hi Hl Hnil. rewrite stride_class in Hnil by done. apply fmap_nil_inv in Hnil.
  destruct (lookup_lt_is_Some_2 l i Hl) as [x Hx].
  assert ((i, x) ∈ zip (seq 0 (length l)) l) as Hin.
  { apply (list_elem_of_lookup_2 _ i). rewrite lookup_zip_with, lookup_seq_lt, Hx by done. done. }
  eapply elem_of_nil. rewrite <- Hnil. apply list_elem_of_filter. split; [|exact Hin]. cbn. by apply Nat.mod_small.
Qed.

(** ** Layers by spec *)

Lemma add_layer_names d s name : concat (add_layer d s name).*2 ≡ₚ name :: concat d.*2.
Proof.
  induction d as [|[s' names] d IH]; cbn; [done|]. case_decide; cbn.
  - rewrite <- app_assoc. cbn. by rewrite <- Permutation_middle.
  - by rewrite IH, <- Permutation_middle.
Qed.

Lemma add_layer_elem d s name t names :
  (t, names) ∈ add_layer d s name →
  (t, names) ∈ d ∨ t = s ∧ ∃ old, names = old ++ [name] ∧ (old = [] ∨ (s, old) ∈ d).
Proof.
  induction d as [|[s' ns] d IH]; cbn.
  - intros [= -> ->]%list_elem_of_singleton. right. split; [done|]. exists []. naive_solver.
  - case_decide as E; intros [[= -> ->]|Hin]%elem_of_cons.
    + right. split; [done|]. exists ns. split; [done|]. right. subst. left.
    + left. by right.
    + left. left.
    + destruct (IH Hin) as [?|(-> & old & -> & Ho)]; [left; by right|]. right. split; [done|]. exists old.
      split; [done|]. destruct Ho; [by left|]. right. by right.
Qed.

Lemma same_type_spec (specs : layers) :
  concat (same_type_layers specs).*2 ≡ₚ specs.*1
  ∧ ∀ s names, (s, names) ∈ same_type_layers specs → names ≠ [] ∧ ∀ n, n ∈ names → (n, s) ∈ specs.
Proof.
  unfold same_type_layers. induction specs as [|[n s] specs [IH1 IH2]] using rev_ind.
  { split; [done|]. by intros s names ?%elem_of_nil. }
  rewrite foldl_snoc. cbn. split.
  - rewrite add_layer_names, fmap_app, IH1. cbn. apply Permutation_cons_append.
  - intros t names [Hin|(-> & old & -> & Ho)]%add_layer_elem.
    + destruct (IH2 t names Hin) as [? Hn]. split; [done|]. intros m Hm. apply elem_of_app. left. auto.
    + split; [by destruct old|]. intros m [Hm|Hm]%elem_of_app; apply elem_of_app.
      * left. destruct Ho as [->|Ho]; [by apply elem_of_nil in Hm|]. by apply (proj2 (IH2 s old Ho)).
      * right. apply list_elem_of_singleton in Hm as ->. by left.
Qed.

Lemma split_layers_spec size names :
  0 < size → names ≠ [] →
  concat (split_layers size names) ≡ₚ names
  ∧ ∀ part, part ∈ split_layers size names → part ≠ [] ∧ zlen part ≤ size.
Proof.
  intros Hs Hne. unfold split_layers. pose proof (cdiv_bounds (zlen names) size Hs) as Hb.
  assert (0 < zlen names) as Hl by (unfold zlen; destruct names; [done|cbn; lia]).
  set (n := Z.to_nat (cdiv (zlen names) size)). assert (0 < cdiv (zlen names) size) as Hn by nia.
  split; [apply strides_perm; lia|].
  intros part (i & -> & Hi%elem_of_seq)%list_elem_of_fmap. unfold zlen in *. split.
  - apply stride_nonempty; [lia|]. nia.
  - pose proof (stride_length names i n (Z.to_nat size)). nia.
Qed.

(** ** Merging equal specs *)

Lemma size_set_const n w : size_set (replicate (S n) w) = size_set [w].
Proof.
  unfold size_set. destruct w as [x|].
  - assert (omap id (replicate (S n) (Some x)) = replicate (S n) x) as ->.
    { generalize (S n). intros k. induction k as [|k IH]; [done|]. cbn. by rewrite IH. }
    rewrite (remove_dups_const _ x); [done|done|]. by intros y [-> _]%elem_of_replicate.
  - assert (∀ k, omap id (replicate k (None : option Z)) = []) as E by (intros k; induction k; done).
    by rewrite E.
Qed.

Lemma merge_full_const build n s : is_full s = true →
  merge_full_with build (replicate (S n) s) = merge_full_with build [s].
Proof.
  intros Hf. unfold merge_full_with. apply bool_decide_eq_true_1 in Hf as [[a f] Ef].
  assert (∀ k, forallb is_full (replicate k s) = true) as E1.
  { intros k. induction k as [|k IH]; [done|]. cbn. rewrite IH. unfold is_full. by rewrite Ef. }
  assert (existsb is_mla (replicate (S n) s) = existsb is_mla [s]) as E2.
  { cbn [replicate existsb]. destruct (is_mla s) eqn:Em; [done|].
    clear -Em. induction n as [|n IH]; [done|]. cbn. by rewrite Em. }
  assert (∀ k, omap full_of (replicate k s) = replicate k (a, f)) as E3.
  { intros k. induction k as [|k IH]; [done|]. cbn. by rewrite Ef, IH. }
  rewrite E1, E2, E3. change [s] with (replicate 1 s). rewrite E1, E3. cbn [replicate].
  destruct (negb _); [|done]. change ((a, f) :: replicate n (a, f)) with (replicate (S n) (a, f)).
  rewrite !fmap_replicate, !size_set_const. cbn [replicate fmap list_fmap].
  rewrite (bool_decide_true (Forall (λ x, x.1 = a) (replicate (S n) (a, f)))) by (by apply Forall_replicate).
  by rewrite (bool_decide_true (Forall (λ x, x.1 = a) [(a, f)])) by (by repeat constructor).
Qed.

Lemma base_merge_const n s : base_merge (s :: replicate n s) = base_merge [s].
Proof.
  unfold base_merge. rewrite (bool_decide_true (Forall (λ x, x = s) (replicate n s))) by (by apply Forall_replicate).
  by rewrite (bool_decide_true (Forall (λ x, x = s) [])) by constructor.
Qed.

Lemma merge_const n s : merge (replicate (S n) s) = merge [s].
Proof.
  destruct s; cbn [replicate merge].
  - apply (merge_full_const FullAttentionSpec n). done.
  - unfold mla_merge. assert (∀ k, forallb is_mla (replicate k (MLAAttentionSpec a f cache_dtype_str)) = true) as E1.
    { intros k. by induction k. }
    change (MLAAttentionSpec a f cache_dtype_str :: replicate n _) with (replicate (S n) (MLAAttentionSpec a f cache_dtype_str)).
    change [MLAAttentionSpec a f cache_dtype_str] with (replicate 1 (MLAAttentionSpec a f cache_dtype_str)).
    rewrite !E1. assert (∀ k, omap (λ s, match s with MLAAttentionSpec _ _ c => Some c | _ => None end)
      (replicate k (MLAAttentionSpec a f cache_dtype_str)) = replicate k cache_dtype_str) as E2.
    { intros k. induction k as [|k IH]; [done|]. cbn. by rewrite IH. }
    rewrite !E2. rewrite (remove_dups_const (replicate (S n) cache_dtype_str) cache_dtype_str); [done|done|].
    by intros y [-> _]%elem_of_replicate.
  - apply (merge_full_const (λ a f, SinkFullAttentionSpec a f sink_len) n (SinkFullAttentionSpec a f sink_len)). done.
  - apply base_merge_const.
  - apply base_merge_const.
  - apply base_merge_const.
  - apply base_merge_const.
  - apply base_merge_const.
Qed.

Lemma merge_same l s : l ≠ [] → (∀ x, x ∈ l → x = s) → merge l = merge [s].
Proof.
  intros Hne Hl. assert (l = replicate (length l) s) as ->.
  { clear Hne. induction l as [|x l IH]; [done|]. cbn. rewrite (Hl x) by left. f_equal. apply IH.
    intros; apply Hl; by right. }
  destruct l; [done|]. apply merge_const.
Qed.

(** ** The partition *)

Lemma elem_of_concat_iff {A} (x : A) ls : x ∈ concat ls ↔ ∃ l, x ∈ l ∧ l ∈ ls.
Proof.
  induction ls as [|l ls IH]; cbn; [|rewrite elem_of_app, IH]; set_solver.
Qed.

(** A group of layers with one spec. *)
Definition planned (specs : layers) (size : Z) (g : PlanGroup) : Prop :=
  pg_layer_names g ≠ [] ∧ zlen (pg_layer_names g) ≤ size
  ∧ ∃ s r, merge [s] = Ok r ∧ pg_spec g = Layer r ∧ ∀ n, n ∈ pg_layer_names g → (n, s) ∈ specs.

Lemma create_groups_spec (specs : layers) size parts :
  NoDup specs.*1 →
  (∀ part, part ∈ parts → part ≠ [] ∧ zlen part ≤ size
     ∧ ∃ s r, merge [s] = Ok r ∧ ∀ n, n ∈ part → (n, s) ∈ specs) →
  ∃ groups, create_kv_cache_group_specs specs parts = Ok groups
    ∧ pg_layer_names <$> groups = parts ∧ ∀ g, g ∈ groups → planned specs size g.
Proof.
  intros Hnd. unfold create_kv_cache_group_specs. induction parts as [|part parts IH]; intros Hp.
  { exists []. split_and!; try done. by intros g ?%elem_of_nil. }
  destruct IH as (groups & E & En & Hg); [intros; apply Hp; by right|].
  destruct (Hp part ltac:(left)) as (Hne & Hlen & s & r & Em & Hs).
  exists (mkPlanGroup part (Layer r) :: groups). cbn [rmap].
  rewrite (rmap_const _ s) by (intros n Hn; apply od_index_nodup; auto). cbn [mbind res_bind].
  rewrite (merge_same _ s), Em; [| |by intros x [-> _]%elem_of_replicate].
  2: { destruct part; done. }
  cbn [mbind res_bind]. rewrite E. split; [done|]. split; [by rewrite <- En|].
  intros g [->|Hin]%elem_of_cons; [|auto]. split; [done|]. split; [done|]. by exists s, r.
Qed.

Lemma choose_size_spec lens :
  lens ≠ [] → (∀ x, x ∈ lens → 0 < x) →
  ∃ size, choose_group_size lens = Ok size ∧ size ∈ lens ∧ 0 < size.
Proof.
  intros Hne Hpos. unfold choose_group_size.
  destruct (py_min lens) as [lo|] eqn:E1; [|by destruct lens].
  destruct (py_max lens) as [hi|] eqn:E2; [|by destruct lens].
  apply py_min_spec in E1 as [Hlo _]. apply py_max_spec in E2 as [Hhi _]. cbn [mbind res_bind].
  eexists. split; [done|]. case_match; auto.
Qed.

Lemma concat_split size (types : list (LayerSpec * list string)) :
  0 < size → (∀ t, t ∈ types → t.2 ≠ []) →
  concat (concat ((λ t, split_layers size t.2) <$> types)) ≡ₚ concat types.*2.
Proof.
  intros Hs. induction types as [|t types IH]; intros Ht; [done|]. cbn. rewrite concat_app.
  rewrite (proj1 (split_layers_spec size t.2 Hs (Ht t ltac:(left)))), IH; [done|]. intros; apply Ht; by right.
Qed.

(** C20: the groups of a hybrid model partition its layers.  For layers with
    distinct names whose specs can be merged with themselves the grouping
    succeeds; every layer is in exactly one group, every group is non-empty, its
    layers share one spec, which is that of the group, and no group is larger than
    the number of layers of some spec. *)
Theorem hybrid_groups_partition (specs : layers) :
  specs ≠ [] → NoDup specs.*1 → (∀ l, l ∈ specs → ∃ r, merge [l.2] = Ok r) →
  ∃ groups size, _get_kv_cache_groups_uniform_page_size specs = Ok groups
    ∧ concat (pg_layer_names <$> groups) ≡ₚ specs.*1
    ∧ size ∈ (λ t, zlen t.2) <$> same_type_layers specs
    ∧ ∀ g, g ∈ groups → planned specs size g.
Proof.
  intros Hne Hnd Hm. unfold _get_kv_cache_groups_uniform_page_size.
  destruct (same_type_spec specs) as [Hperm Htypes]. set (types := same_type_layers specs) in *.
  assert (types ≠ []) as Htn.
  { intros E. rewrite E in Hperm. apply Permutation_nil_l in Hperm. by destruct specs. }
  destruct (choose_size_spec ((λ t, zlen t.2) <$> types)) as (size & -> & Hin & Hs).
  { by destruct types. }
  { intros x ([s names] & -> & Ht)%list_elem_of_fmap. destruct (Htypes s names Ht) as [Hn _].
    unfold zlen. destruct names; [done|cbn; lia]. }
  cbn [mbind res_bind].
  destruct (create_groups_spec specs size (concat ((λ t, split_layers size t.2) <$> types)) Hnd)
    as (groups & -> & En & Hg).
  { intros part (parts & Hpart & ([s names] & -> & Ht)%list_elem_of_fmap)%elem_of_concat_iff.
    destruct (Htypes s names Ht) as [Hn Hspec]. destruct (split_layers_spec size names Hs Hn) as [Hp Hparts].
    destruct (Hparts part Hpart) as [Hne' Hlen]. split; [done|]. split; [done|].
    assert (∀ n, n ∈ part → (n, s) ∈ specs) as Hps.
    { intros n Hnp. apply Hspec. rewrite <- Hp. apply elem_of_concat_iff. by exists part. }
    destruct part as [|n part]; [done|]. destruct (Hm (n, s)) as [r Hr]; [apply Hps; left|].
    by exists s, r. }
  exists groups, size. split; [done|]. split; [|done]. rewrite En, concat_split; [done|done|].
  intros [s names] Ht. by apply (Htypes s names).
Qed.
