(* ===== verification/PlanMemory.v ===== *)
(** * The memory of a plan

    [get_kv_cache_config_from_groups] of KVCachePlan.v: the tensors of a worker fit
    in its memory, every layer has one, and the number of blocks is enough for a
    request of maximal length when the memory check has passed. *)

From Stdlib Require Import String.
From S2P Require Import Prelude KVCacheSpec KVCachePlan PlanProps PlanGroups.
#[local] Open Scope Z_scope.

(** ** The layers that share a tensor *)

Lemma concat_zip_perm {A B} (a b : A → list B) l :
  concat ((λ i, a i ++ b i) <$> l) ≡ₚ concat (a <$> l) ++ concat (b <$> l).
Proof.
  induction l as [|i l IH]; [done|]. cbn. rewrite IH, <- !app_assoc. apply Permutation_app_head.
  rewrite !app_assoc. apply Permutation_app_tail, Permutation_app_comm.
Qed.

Lemma concat_lookups {A} (l : list A) n :
  (length l ≤ n)%nat → concat ((λ i, option_list (l !! i)) <$> seq 0 n) = l.
Proof.
  revert n. induction l as [|x l IH]; intros n Hn.
  - assert (∀ a k, concat ((λ i, option_list ((@nil A) !! i)) <$> seq a k) = []) as E; [|apply E].
    intros a k. revert a. induction k as [|k IH']; intros a; [done|]. cbn. apply IH'.
  - destruct n as [|n]; [cbn in Hn; lia|]. cbn. f_equal. rewrite <- seq_shift, <- list_fmap_compose.
    apply IH. cbn in Hn. lia.
Qed.

Lemma sharing_perm groups w :
  (∀ g, g ∈ groups → zlen (pg_layer_names g) ≤ w) →
  concat (sharing groups <$> zrange 0 w) ≡ₚ concat (pg_layer_names <$> groups).
Proof.
  intros Hw. assert (concat (sharing groups <$> zrange 0 w)
    = concat ((λ i, omap (λ g, pg_layer_names g !! i) groups) <$> seq 0 (Z.to_nat w))) as ->.
  { unfold zrange. rewrite <- list_fmap_compose, Z.sub_0_r. f_equal. apply list_fmap_ext. intros _ i _.
    unfold sharing, compose. by rewrite Z.add_0_l, Nat2Z.id. }
  induction groups as [|g groups IH].
  - cbn. generalize 0%nat. induction (Z.to_nat w) as [|k IH]; intros a; [done|]. cbn. apply IH.
  - rewrite (list_fmap_ext _ (λ i, option_list (pg_layer_names g !! i) ++ omap (λ g, pg_layer_names g !! i) groups)).
    2: { intros _ i _. cbn. by destruct (pg_layer_names g !! i). }
    rewrite concat_zip_perm, concat_lookups, IH; [done|intros; apply Hw; by right|].
    pose proof (Hw g ltac:(left)). unfold zlen in *. lia.
Qed.

Lemma sum_of_fmap {A B} (f : B → Z) (g : A → B) l : sum_of f (g <$> l) = sum_of (f ∘ g) l.
Proof. induction l as [|x l IH]; [done|]. rewrite fmap_cons, !sum_of_cons, IH. done. Qed.

Lemma sum_of_const {A} n (l : list A) : sum_of (λ _, n) l = zlen l * n.
Proof. induction l as [|x l IH]; [done|]. rewrite sum_of_cons, IH, zlen_cons. lia. Qed.

(** ** The configuration of a worker *)

Section memory.
Context (get_dtype_size : string → Z).
Abbreviation plan_ok := (plan_ok get_dtype_size).
Abbreviation plan_memory := (plan_memory get_dtype_size).

(** A uniform group names its layers, or none of them, and they need equally many
    blocks; otherwise some group has a layer. *)
Definition plan_wf (b : VllmConfig) (groups : list PlanGroup) : Prop :=
  match uniform_group groups with
  | Some (names, specs) => (names = specs.*1 ∨ names = []) ∧ NoDup specs.*1 ∧ specs ≠ []
      ∧ ∃ n, ∀ l, l ∈ specs → layer_blocks b l.2 = n
  | None => 0 < group_width groups
  end.

(** The blocks of a request of maximal length. *)
Definition plan_blocks (b : VllmConfig) (groups : list PlanGroup) : Z :=
  match uniform_group groups with
  | Some (_, specs) => default 0 ((λ l, layer_blocks b l.2) <$> head specs)
  | None => sum_of (group_blocks b) groups
  end.

(** What a configuration promises a worker. *)
Record config_ok (b : VllmConfig) (groups : list PlanGroup) (available : Z) (cfg : PlanConfig) : Prop := {
  cf_groups : pc_groups cfg = groups;
  cf_memory : sum_of t_size (pc_tensors cfg) ≤ available;
  cf_layers : concat (shared_by <$> pc_tensors cfg) ≡ₚ concat (pg_layer_names <$> groups);
  cf_divides : ∀ t, t ∈ pc_tensors cfg → ∃ p, 0 < p ∧ t_size t = p * pc_num_blocks cfg;
  cf_blocks : plan_memory b groups ≤ available → plan_blocks b groups ≤ pc_num_blocks cfg;
  cf_nonneg : 0 ≤ pc_num_blocks cfg;
}.

Lemma layers_config c groups page available :
  groups ≠ [] →
  (∀ g, g ∈ groups → ∃ s, pg_spec g = Layer s ∧ spec_ok get_dtype_size (base_config c) s
     ∧ page_of get_dtype_size s = page) →
  0 < group_width groups → num_gpu_blocks_override c = None → 0 ≤ available →
  ∃ cfg, get_kv_cache_config_from_groups get_dtype_size c groups available = Ok cfg
    ∧ config_ok (base_config c) groups available cfg.
Proof.
  intros Hne Hg Hw Ho Ha. unfold get_kv_cache_config_from_groups.
  assert (uniform_group groups = None) as Eu.
  { destruct groups as [|[names s] gs]; [done|]. destruct (Hg _ ltac:(left)) as (s' & E & _). cbn in E. by subst. }
  rewrite Eu. destruct (group_width_spec groups Hne) as (-> & _ & Hle). cbn [mbind res_bind].
  rewrite (uniform_page get_dtype_size groups (base_config c) page) by done. cbn [mbind res_bind].
  rewrite (proj2 (Z.ltb_lt _ _)) by done.
  assert (0 < page) as Hp.
  { destruct groups as [|g gs]; [done|]. destruct (Hg g ltac:(left)) as (s & _ & Hs & <-). apply Hs. }
  unfold get_num_blocks, py_div, may_override_num_blocks. rewrite Ho.
  rewrite !(proj2 (Z.eqb_neq _ 0)) by lia. cbn [mbind res_bind default].
  assert (0 ≤ available / page / group_width groups) as Hn by (repeat apply Z.div_pos; lia).
  rewrite Z.max_l by lia. set (w := group_width groups) in *. rewrite Z.div_div in * by lia.
  set (n := available / (page * w)) in *.
  destruct groups as [|g gs] eqn:Egs; [done|]. rewrite <- Egs in *. eexists. split; [done|].
  split; cbn [pc_groups pc_tensors pc_num_blocks].
  - done.
  - rewrite sum_of_fmap. change (t_size ∘ _) with (λ _ : Z, page * n). rewrite sum_of_const.
    assert (zlen (zrange 0 w) = w) as -> by (unfold zlen; rewrite length_zrange; lia).
    pose proof (Z.mul_div_le available (page * w)). unfold n. nia.
  - rewrite <- list_fmap_compose. by apply sharing_perm.
  - intros t (i & -> & _)%list_elem_of_fmap. by exists page.
  - unfold PlanProps.plan_memory, plan_blocks. rewrite Eu. intros Hm. unfold n. apply Z.div_le_lower_bound; [nia|].
    destruct (Hg g) as (s & Es & _ & Ep); [rewrite Egs; left|]. rewrite Egs in Hm at 2.
    assert (head (g :: gs) ≫= group_layer = Some s) as Eh by (unfold group_layer; cbn; by rewrite Es).
    rewrite Eh in Hm. cbn [fmap option_fmap option_map default] in Hm. rewrite Ep in Hm.
    assert (group_width groups = w) as Ew by (unfold w; by rewrite Egs). rewrite Ew in Hm.
    change (id page) with page in Hm. lia.
  - done.
Qed.

Lemma uniform_page_sum b (specs : layers) :
  (∀ l, l ∈ specs → spec_ok get_dtype_size b l.2) →
  uniform_page_size_bytes get_dtype_size specs = Ok (sum_of (λ l, page_of get_dtype_size l.2) specs).
Proof.
  intros Hs. unfold uniform_page_size_bytes. apply (rsum_Ok (λ l : string * LayerSpec, page_size_bytes get_dtype_size l.2)).
  intros l Hl. by apply (Hs l).
Qed.

Lemma uniform_tensors b (specs : layers) n :
  NoDup specs.*1 → (∀ l, l ∈ specs → spec_ok get_dtype_size b l.2) →
  rmap (λ name, s ← od_index specs name; p ← page_size_bytes get_dtype_size s; Ok (mkTensor (p * n) [name])) specs.*1
  = Ok ((λ l, mkTensor (page_of get_dtype_size l.2 * n) [l.1]) <$> specs).
Proof.
  intros Hnd Hs. apply rmap_fmap_Ok. intros [k v] Hl. rewrite (od_index_nodup specs k v) by done.
  cbn [mbind res_bind]. pose proof (so_page _ _ _ (Hs _ Hl)) as Ep. cbn in Ep. by rewrite Ep.
Qed.

Lemma uniform_config c names bs (specs : layers) available n :
  (∀ l, l ∈ specs → spec_ok get_dtype_size (base_config c) l.2) →
  names = specs.*1 ∨ names = [] → NoDup specs.*1 → specs ≠ [] →
  (∀ l, l ∈ specs → layer_blocks (base_config c) l.2 = n) →
  num_gpu_blocks_override c = None → 0 ≤ available →
  let groups := [mkPlanGroup names (UniformTypeKVCacheSpecs bs specs)] in
  ∃ cfg, get_kv_cache_config_from_groups get_dtype_size c groups available = Ok cfg
    ∧ config_ok (base_config c) groups available cfg.
Proof.
  intros Hs Hnames Hnd Hne Hn Ho Ha groups. unfold get_kv_cache_config_from_groups, groups. cbn [uniform_group].
  rewrite (uniform_page_sum (base_config c)) by done. cbn [mbind res_bind].
  set (total := sum_of (λ l, page_of get_dtype_size l.2) specs).
  assert (0 < total) as Ht.
  { unfold total. destruct specs as [|l specs]; [done|]. rewrite sum_of_cons.
    pose proof (so_page_pos _ _ _ (Hs l ltac:(left))).
    assert (0 ≤ sum_of (λ l, page_of get_dtype_size l.2) specs); [|lia].
    apply sum_of_nonneg. intros l' Hl'. pose proof (so_page_pos _ _ _ (Hs l' ltac:(by right))). lia. }
  unfold py_div, may_override_num_blocks. rewrite (proj2 (Z.eqb_neq _ 0)), Ho by lia. cbn [mbind res_bind default].
  change (id (available / total)) with (available / total). set (k := available / total).
  assert (0 ≤ k) as Hk by (by apply Z.div_pos).
  assert (∃ used : layers, (used = specs ∨ used = []) ∧ names = used.*1
    ∧ rmap (λ name, s ← od_index specs name; p ← page_size_bytes get_dtype_size s; Ok (mkTensor (p * k) [name])) names
      = Ok ((λ l, mkTensor (page_of get_dtype_size l.2 * k) [l.1]) <$> used)) as (used & Hused & -> & ->).
  { destruct Hnames as [-> | ->]; [exists specs|exists []; naive_solver].
    split; [by left|]. split; [done|]. by apply (uniform_tensors (base_config c)). }
  cbn [mbind res_bind]. eexists. split; [done|]. split; cbn [pc_groups pc_tensors pc_num_blocks].
  - done.
  - rewrite sum_of_fmap. rewrite (sum_of_ext _ (λ l, k * page_of get_dtype_size l.2)) by (intros; cbn; lia).
    rewrite sum_of_scale. destruct Hused as [-> | ->]; [|cbn; lia].
    fold total. pose proof (Z.mul_div_le available total). unfold k. lia.
  - rewrite <- list_fmap_compose. cbn. rewrite app_nil_r. clear. induction used as [|l used IH]; [done|].
    cbn. by rewrite IH.
  - intros t (l & -> & Hl)%list_elem_of_fmap. exists (page_of get_dtype_size l.2). split; [|done].
    destruct Hused as [-> | ->]; [apply (Hs l Hl)|by apply elem_of_nil in Hl].
  - unfold PlanProps.plan_memory, plan_blocks. cbn [uniform_group].
    rewrite (sum_of_ext _ (λ l, n * page_of get_dtype_size l.2)) by (intros l Hl; by rewrite Hn).
    rewrite sum_of_scale. fold total. intros Hm. destruct specs as [|l specs]; [done|].
    cbn [head fmap option_fmap option_map default id]. rewrite (Hn l) by left.
    unfold k. apply Z.div_le_lower_bound; [done|lia].
  - done.
Qed.

Lemma config_spec c groups available :
  plan_ok (base_config c) groups → plan_wf (base_config c) groups →
  num_gpu_blocks_override c = None → 0 ≤ available →
  ∃ cfg, get_kv_cache_config_from_groups get_dtype_size c groups available = Ok cfg
    ∧ config_ok (base_config c) groups available cfg.
Proof.
  intros [names bs specs Hs|gs page Hne Hg] Hwf Ho Ha; unfold plan_wf in Hwf.
  - cbn [uniform_group] in Hwf. destruct Hwf as (Hnames & Hnd & Hnn & n & Hn). by eapply uniform_config.
  - assert (uniform_group gs = None) as Eu.
    { destruct gs as [|[names s] gs]; [done|]. destruct (Hg _ ltac:(left)) as (s' & E & _). cbn in E. by subst. }
    rewrite Eu in Hwf. by eapply layers_config.
Qed.

End memory.
