(* ===== verification/PlanShape.v ===== *)
(** * The groups that planning makes

    Which groups [get_kv_cache_groups] of KVCachePlan.v can return, and what is left
    of them when they are projected to the layers of one worker. *)

From Stdlib Require Import String.
From S2P Require Import Prelude KVCacheSpec KVCachePlan PlanProps PlanGroups PlanMemory.
#[local] Open Scope Z_scope.

Lemma rmap_Forall2 {A B} (f : A → res B) (P : A → B → Prop) l :
  (∀ x, x ∈ l → ∃ y, f x = Ok y ∧ P x y) → ∃ ys, rmap f l = Ok ys ∧ Forall2 P l ys.
Proof.
  induction l as [|x l IH]; intros Hl; [exists []; by split|].
  destruct (Hl x ltac:(left)) as (y & Ey & Hy). destruct IH as (ys & Eys & Hys); [intros; apply Hl; by right|].
  exists (y :: ys). cbn. rewrite Ey. cbn [mbind res_bind]. rewrite Eys. split; [done|by constructor].
Qed.

Lemma rmap_Ok_Forall2 {A B} (f : A → res B) l ys : rmap f l = Ok ys → Forall2 (λ x y, f x = Ok y) l ys.
Proof.
  revert ys. induction l as [|x l IH]; intros ys H; cbn in H; inv_ok; constructor; auto.
Qed.

Lemma Forall2_impl_in {A B} (P Q : A → B → Prop) l k :
  Forall2 P l k → (∀ x y, x ∈ l → y ∈ k → P x y → Q x y) → Forall2 Q l k.
Proof.
  induction 1 as [|x y l k Hxy _ IH]; intros H; constructor; [apply H; [left..|done]|].
  apply IH. intros; apply H; [by right..|done].
Qed.

(** ** The specs of all workers *)

Lemma merge_workers_spec kv_cache_specs merged :
  merge_worker_specs kv_cache_specs = Ok merged →
  NoDup merged.*1 ∧ ∀ l, l ∈ merged ↔ l ∈ concat kv_cache_specs.
Proof.
  unfold merge_worker_specs. intros H.
  assert (∀ flat d, rfold (λ d l, match od_get d l.1 with
      | None => Ok (od_set d l.1 l.2)
      | Some s => ASSERT bool_decide (s = l.2); Ok d end) d flat = Ok merged → NoDup d.*1 →
    NoDup merged.*1 ∧ ∀ l, l ∈ merged ↔ l ∈ d ∨ l ∈ flat) as Hgen.
  2: { destruct (Hgen _ _ H) as [? Hm]; [constructor|]. split; [done|]. intros l. rewrite Hm. set_solver. }
  clear H. intros flat. induction flat as [|[k s] flat IH]; intros d H Hnd; cbn in H.
  { inv_ok. split; [done|]. set_solver. }
  inv_ok. destruct (od_get d k) as [s'|] eqn:E; inv_ok.
  - apply IH in H as [Hm Hl]; [|done]. split; [done|]. intros l. rewrite Hl, elem_of_cons.
    apply od_get_elem in E. to_prop. naive_solver.
  - assert (k ∉ d.*1) as Hk.
    { intros ([k' s'] & -> & Hin)%list_elem_of_fmap. by rewrite (od_get_nodup d k' s') in E. }
    rewrite od_set_fresh in H by done. apply IH in H as [Hm Hl].
    + split; [done|]. intros l. rewrite Hl. set_solver.
    + rewrite fmap_app. apply NoDup_app. split; [done|]. split; [|repeat constructor; set_solver]. set_solver.
Qed.

(** ** The merged spec of a group *)

Section shape.
Context (get_dtype_size : string → Z).
Abbreviation spec_ok := (spec_ok get_dtype_size).
Abbreviation page_of := (page_of get_dtype_size).

(** [r] takes the place of [s] in the sums over memory. *)
Record stands_for (r s : LayerSpec) : Prop := {
  sf_block : block_size r = block_size s;
  sf_page : page_size_bytes get_dtype_size r = page_size_bytes get_dtype_size s;
  sf_sliding : is_sliding r = is_sliding s;
  sf_blocks b : layer_blocks b r = layer_blocks b s;
}.

Lemma stands_for_refl s : stands_for s s.
Proof. done. Qed.

Lemma stands_for_page r s : stands_for r s → page_of r = page_of s.
Proof. intros H. unfold PlanProps.page_of. by rewrite (sf_page _ _ H). Qed.

Lemma stands_for_ok b r s : stands_for r s → spec_ok b s → spec_ok b r.
Proof.
  intros H [H1 H2 H3 H4]. pose proof (stands_for_page _ _ H) as Hp. destruct H as [E1 E2 E3 _].
  split; [by rewrite E1|by rewrite E2, Hp|by rewrite Hp|by rewrite E3].
Qed.

Lemma merge_full_stands build specs r a f rest :
  merge_full_with build specs = Ok r → omap full_of specs = (a, f) :: rest →
  ∃ sw ck, r = build a (mkFull (head_size_v f) sw ck).
Proof. unfold merge_full_with. intros H E. rewrite E in H. inv_ok. eauto. Qed.

Lemma base_merge_stands s rest r : base_merge (s :: rest) = Ok r → stands_for r s.
Proof. cbn. intros H. inv_ok. apply stands_for_refl. Qed.

Lemma merge_stands s rest r : merge (s :: rest) = Ok r → stands_for r s.
Proof.
  intros H. destruct s; cbn [merge] in H; try (by apply base_merge_stands in H).
  - destruct (merge_full_stands _ _ _ _ _ _ H eq_refl) as (sw & ck & ->). done.
  - unfold mla_merge in H. inv_ok. destruct (remove_dups _) as [|c l] eqn:E; [done|]. inv_ok.
    assert (l = []) as ->.
    { to_prop. rewrite zlen_cons in Ea0. apply zlen_0. lia. }
    assert (c = cache_dtype_str) as ->; [|done]. symmetry. apply list_elem_of_singleton. rewrite <- E.
    apply elem_of_remove_dups. cbn. left.
  - destruct (merge_full_stands _ _ _ _ _ _ H eq_refl) as (sw & ck & ->). done.
Qed.

(** ** The specs before grouping *)

Lemma as_full_page s : page_size_bytes get_dtype_size (as_full s) = page_size_bytes get_dtype_size s.
Proof.
  assert (real_page_size_bytes get_dtype_size (as_full s) = real_page_size_bytes get_dtype_size s) as E
    by (destruct s; cbn; lia).
  unfold page_size_bytes. rewrite E. by destruct s.
Qed.

Lemma as_full_ok b s : spec_ok b s → spec_ok b (as_full s).
Proof.
  intros [H1 H2 H3 H4]. pose proof (as_full_page s) as E.
  assert (page_of (as_full s) = page_of s) as Ep by (unfold PlanProps.page_of; by rewrite E).
  split; [by destruct s|by rewrite E, Ep|by rewrite Ep|by destruct s].
Qed.

Abbreviation all_ok b specs := (∀ l : string * LayerSpec, l ∈ specs → spec_ok b l.2).

Lemma unify_hybrid_spec b specs specs' :
  unify_hybrid_kv_cache_specs specs = Ok specs' → all_ok b specs → specs'.*1 = specs.*1 ∧ all_ok b specs'.
Proof.
  unfold unify_hybrid_kv_cache_specs. intros H Hok. inv_ok. destruct a; inv_ok; [done|].
  destruct (_ && _); [|done]. split.
  - by rewrite <- list_fmap_compose.
  - intros l (l' & -> & Hl)%list_elem_of_fmap. by apply as_full_ok, Hok.
Qed.

Lemma copy_block_size s bs : block_size (copy_with_new_block_size s bs) = bs.
Proof. by destruct s. Qed.

Lemma unify_layer_spec b page l l' :
  unify_layer get_dtype_size page l = Ok l' → spec_ok b l.2 → page_of l.2 ≤ page →
  l'.1 = l.1 ∧ spec_ok b l'.2 ∧ page_of l'.2 = page.
Proof.
  intros H Hs Hle. pose proof Hs as [H1 H2 H3 H4]. unfold unify_layer in H. rewrite H2 in H. cbn [mbind res_bind] in H.
  destruct (page_of l.2 =? page) eqn:E; to_prop.
  { inv_ok. done. }
  unfold py_mod in H. rewrite (proj2 (Z.eqb_neq _ 0)) in H by lia. cbn [mbind res_bind] in H.
  destruct (negb _) eqn:Er; [done|]. apply negb_false_iff in Er. to_prop. inv_ok. to_prop. subst. cbn.
  assert (page_of (copy_with_new_block_size l.2 (block_size l.2 * (page / page_of l.2))) = page) as Ep
    by (unfold PlanProps.page_of at 1; by rewrite Hb).
  split; [done|]. split; [|done]. split.
  - rewrite copy_block_size. apply Z.mul_pos_pos; [done|]. apply Z.div_str_pos. lia.
  - by rewrite Ep, Hb.
  - rewrite Ep. lia.
  - by destruct (l.2).
Qed.

Lemma Forall2_keys (specs specs' : layers) (P : LayerSpec → Prop) :
  Forall2 (λ l l', l'.1 = l.1 ∧ P l'.2) specs specs' → specs'.*1 = specs.*1 ∧ ∀ l, l ∈ specs' → P l.2.
Proof.
  induction 1 as [|l l' specs specs' [E HP] _ [IH1 IH2]]; [split; [done|]; by intros l ?%elem_of_nil|].
  cbn. split; [by rewrite E, IH1|]. intros x [->|Hx]%elem_of_cons; auto.
Qed.

Lemma unify_page_spec b specs specs' :
  unify_kv_cache_spec_page_size get_dtype_size specs = Ok specs' → all_ok b specs → specs ≠ [] →
  specs'.*1 = specs.*1 ∧ ∃ page, ∀ l, l ∈ specs' → spec_ok b l.2 ∧ page_of l.2 = page.
Proof.
  intros H Hok Hne. unfold unify_kv_cache_spec_page_size in H.
  assert (rmap (page_size_bytes get_dtype_size) specs.*2 = Ok ((λ l, page_of l.2) <$> specs)) as E.
  { apply (rmap_fmap_Ok _ snd). intros l Hl. by apply Hok. }
  rewrite E in H. cbn [mbind res_bind] in H. destruct (zlen _ <=? 1) eqn:Ed.
  - inv_ok. split; [done|]. to_prop.
    assert (∀ l, l ∈ specs' → page_of l.2 ∈ remove_dups ((λ l, page_of l.2) <$> specs')) as Hin.
    { intros l Hl. apply elem_of_remove_dups, list_elem_of_fmap. by exists l. }
    destruct (remove_dups _) as [|p [|q k]].
    + exists 0. intros l Hl. by apply Hin, elem_of_nil in Hl.
    + exists p. intros l Hl. split; [by apply Hok|]. by apply list_elem_of_singleton, Hin.
    + rewrite !zlen_cons in Ed. pose proof (zlen_nonneg k). lia.
  - inv_ok. rename a into page. apply py_max_spec in Hb as [_ Hmax].
    apply rmap_Ok_Forall2 in H.
    destruct (Forall2_keys specs specs' (λ s, spec_ok b s ∧ page_of s = page)) as [Ek Hl]; [|by eauto].
    eapply Forall2_impl_in; [exact H|]. intros l l' Hl _ Hu. cbn.
    eapply unify_layer_spec; [done|by apply Hok|]. apply Hmax, list_elem_of_fmap. by exists l.
Qed.

(** ** The groups *)

(** One group of layers of one type, or groups with one page size. *)
Inductive shape (b : VllmConfig) : list PlanGroup → Prop :=
  | shape_uniform bs (specs : layers) n :
      all_ok b specs → NoDup specs.*1 → (∀ l, l ∈ specs → layer_blocks b l.2 = n) →
      shape b [mkPlanGroup specs.*1 (UniformTypeKVCacheSpecs bs specs)]
  | shape_layers groups page :
      groups ≠ [] → (∀ g, g ∈ groups → ∃ s, pg_spec g = Layer s ∧ spec_ok b s ∧ page_of s = page) →
      shape b groups.

Lemma same_type_blocks b s s' :
  same_type s s' = true → block_size s' = block_size s → layer_blocks b s' = layer_blocks b s.
Proof.
  intros Ht Hb. destruct s, s'; try discriminate Ht; cbn in Hb; unfold layer_blocks; cbn [block_size];
    rewrite ?Hb; try done; cbn in Ht; to_prop; by rewrite ?Ht.
Qed.

Lemma from_specs_blocks b (specs : layers) bs specs' :
  from_specs specs = Ok (Some (UniformTypeKVCacheSpecs bs specs')) →
  specs' = specs ∧ ∃ n, ∀ l, l ∈ specs → layer_blocks b l.2 = n.
Proof.
  intros H. unfold from_specs in H. inv_ok. destruct specs as [|[k s] specs]; [done|]. destruct a; [|done]. inv_ok.
  split; [done|]. exists (layer_blocks b s). unfold is_uniform_type in Hb.
  destruct (1 <? _) eqn:Ed; [done|]. to_prop. intros l Hl.
  assert (∀ l, l ∈ (k, s) :: specs → block_size l.2 = block_size s) as Hbs.
  { intros x Hx. assert (∀ x, x ∈ (k, s) :: specs → block_size x.2 ∈ remove_dups (block_size <$> ((k, s) :: specs).*2)) as Hin.
    { intros y Hy. apply elem_of_remove_dups. rewrite <- list_fmap_compose. apply list_elem_of_fmap. by exists y. }
    pose proof (Hin x Hx) as H1. pose proof (Hin (k, s) ltac:(left)) as H2.
    destruct (remove_dups _) as [|p [|q m]]; [by apply elem_of_nil in H1| |].
    - apply list_elem_of_singleton in H1, H2. cbn in H2. congruence.
    - rewrite !zlen_cons in Ed. pose proof (zlen_nonneg m). lia. }
  apply same_type_blocks; [|by apply Hbs].
  cbn [fmap list_fmap snd] in Hb. assert (forallb (same_type s) (s :: specs.*2) = true) as Hf.
  { by destruct s; [..|done| |]; injection Hb as Hb. }
  rewrite forallb_forall in Hf. apply Hf, list_elem_of_In.
  change (s :: specs.*2) with (((k, s) :: specs).*2). apply list_elem_of_fmap. by exists l.
Qed.

Lemma uniform_spec_shape b specs groups :
  _get_kv_cache_groups_uniform_spec specs = Ok groups → NoDup specs.*1 → all_ok b specs →
  shape b groups ∧ concat (pg_layer_names <$> groups) ≡ₚ specs.*1.
Proof.
  unfold _get_kv_cache_groups_uniform_spec, create_kv_cache_group_specs. intros H Hnd Hok. cbn [rmap] in H.
  rewrite (rmap_fmap_Ok _ fst snd) in H by (intros [k s] Hl; by apply od_index_nodup).
  cbn [mbind res_bind] in H. inv_ok. rename a0 into r.
  split; [|cbn; by rewrite app_nil_r]. destruct specs as [|[k s] specs]; [done|].
  apply merge_stands in Hb0. apply (shape_layers _ _ (page_of r)); [done|].
  intros g ->%list_elem_of_singleton. exists r. split; [done|]. split; [|done].
  apply (stands_for_ok _ _ s); [done|]. apply (Hok (k, s)). left.
Qed.

(** Every group made of some of the layers stands for one of them. *)
Lemma create_groups_inv (specs : layers) parts groups :
  create_kv_cache_group_specs specs parts = Ok groups →
  pg_layer_names <$> groups = parts
  ∧ ∀ g, g ∈ groups → ∃ k s r, (k, s) ∈ specs ∧ pg_spec g = Layer r ∧ stands_for r s.
Proof.
  intros H. apply rmap_Ok_Forall2 in H.
  induction H as [|names g parts groups H _ [IH1 IH2]]; [split; [done|]; by intros g ?%elem_of_nil|].
  inv_ok. rename a into ls, a0 into r. split; [done|].
  intros g [->|Hg]%elem_of_cons; [|by apply IH2]. apply rmap_Ok_Forall2 in Hb.
  destruct Hb as [|k s names ls Hk _]; [done|]. exists k, s, r. split_and!; [|done|].
  - unfold od_index in Hk. destruct (od_get specs k) eqn:E; [|done]. inv_ok. by apply od_get_elem.
  - by apply merge_stands in Hb0.
Qed.

Lemma hybrid_shape b (specs : layers) page groups :
  _get_kv_cache_groups_uniform_page_size specs = Ok groups → specs ≠ [] →
  (∀ l, l ∈ specs → spec_ok b l.2 ∧ page_of l.2 = page) →
  shape b groups ∧ concat (pg_layer_names <$> groups) ≡ₚ specs.*1.
Proof.
  intros H Hne Hok. unfold _get_kv_cache_groups_uniform_page_size in H.
  destruct (same_type_spec specs) as [Hperm Htypes]. set (types := same_type_layers specs) in *.
  destruct (choose_size_spec ((λ t, zlen t.2) <$> types)) as (size & E & _ & Hs).
  { intros E%fmap_nil_inv. rewrite E in Hperm. apply Permutation_nil_l in Hperm. by destruct specs. }
  { intros x ([s names] & -> & Ht)%list_elem_of_fmap. destruct (Htypes s names Ht) as [Hn _].
    unfold zlen. destruct names; [done|cbn; lia]. }
  rewrite E in H. cbn [mbind res_bind] in H. apply create_groups_inv in H as [En Hg].
  assert (concat (pg_layer_names <$> groups) ≡ₚ specs.*1) as Hp.
  { rewrite En, concat_split; [done|done|]. intros [s names] Ht. by apply (Htypes s names). }
  split; [|done]. apply (shape_layers _ _ page).
  - intros ->. apply Permutation_nil_l in Hp. by destruct specs.
  - intros g Hin. destruct (Hg g Hin) as (k & s & r & Hk & Es & Hr). destruct (Hok _ Hk) as [Hso Hpg].
    exists r. split; [done|]. split; [by apply (stands_for_ok _ _ s)|]. by rewrite (stands_for_page _ _ Hr).
Qed.

Lemma groups_shape b c (specs : layers) groups :
  get_kv_cache_groups get_dtype_size c specs = Ok groups → NoDup specs.*1 → all_ok b specs → specs ≠ [] →
  shape b groups ∧ concat (pg_layer_names <$> groups) ≡ₚ specs.*1.
Proof.
  intros H Hnd Hok Hne. unfold get_kv_cache_groups in H. inv_ok. rename a into specs'.
  assert (specs'.*1 = specs.*1 ∧ all_ok b specs') as [Ek Hok'].
  { destruct (disable_hybrid_kv_cache_manager c); [by eapply unify_hybrid_spec|by inv_ok]. }
  rewrite <- Ek in *. clear Hok Hb. assert (specs' ≠ []) as Hne' by (intros ->; by destruct specs).
  destruct specs' as [|l0 rest]; [done|]. set (specs' := l0 :: rest) in *. inv_ok.
  destruct a; [by apply uniform_spec_shape|]. inv_ok. destruct a as [[s|bs us]|].
  2: { inv_ok. destruct (from_specs_blocks b _ _ _ Hb0) as [-> [n Hn]].
       split; [by apply (shape_uniform _ _ _ n)|]. cbn. by rewrite app_nil_r. }
  all: inv_ok; rename a into u; destruct (unify_page_spec b specs' u) as [Eu [page Hu]]; [done..|];
    rewrite <- Eu; apply (hybrid_shape b u page); try done; intros ->; discriminate Eu.
Qed.

(** ** The groups of one worker *)

(** What planning for the layers [w] of one worker relies on. *)
Record worker_plan (b : VllmConfig) (groups : list PlanGroup) (w : layers) (gs : list PlanGroup) : Prop := {
  wp_ok : plan_ok get_dtype_size b gs;
  wp_wf : plan_wf b gs;
  wp_names : concat (pg_layer_names <$> gs) ≡ₚ w.*1;
  wp_blocks : plan_blocks b gs = plan_blocks b groups;
}.

Lemma concat_filter {A} (P : string → Prop) `{∀ x, Decision (P x)} (f : A → list string) l :
  concat ((λ x, filter P (f x)) <$> l) = filter P (concat (f <$> l)).
Proof. induction l as [|x l IH]; [done|]. cbn. by rewrite IH, filter_app. Qed.

Lemma filter_keys (P : string → Prop) `{∀ x, Decision (P x)} (specs : layers) :
  filter P specs.*1 = (filter (λ l : string * LayerSpec, P l.1) specs).*1.
Proof. induction specs as [|l specs IH]; [done|]. rewrite fmap_cons, !filter_cons. case_decide; cbn; by rewrite IH. Qed.

Lemma names_filter_perm names (w : layers) :
  NoDup names → NoDup w.*1 → (∀ n, n ∈ w.*1 → n ∈ names) → filter (λ n, n ∈ w.*1) names ≡ₚ w.*1.
Proof.
  intros Hn Hw Hsub. apply NoDup_Permutation; [by apply NoDup_filter|done|].
  intros x. rewrite list_elem_of_filter. naive_solver.
Qed.

Lemma width_pos gs : concat (pg_layer_names <$> gs) ≠ [] → 0 < group_width gs.
Proof.
  intros Hne. assert (gs ≠ []) as Hgs by (by intros ->).
  destruct (group_width_spec gs Hgs) as (_ & _ & Hle).
  destruct (concat _) as [|n rest] eqn:E; [done|].
  assert (n ∈ concat (pg_layer_names <$> gs)) as (names & Hn & (g & -> & Hg)%list_elem_of_fmap)%elem_of_concat_iff
    by (rewrite E; left).
  pose proof (Hle g Hg). destruct (pg_layer_names g); [by apply elem_of_nil in Hn|].
  rewrite zlen_cons in *. pose proof (zlen_nonneg l). lia.
Qed.

Lemma layers_no_uniform b gs page :
  (∀ g, g ∈ gs → ∃ s, pg_spec g = Layer s ∧ spec_ok b s ∧ page_of s = page) → uniform_group gs = None.
Proof.
  intros Hg. destruct gs as [|[names s] gs]; [done|]. destruct (Hg _ ltac:(left)) as (s' & E & _). cbn in E. by subst.
Qed.

Lemma project_layers b groups page w :
  groups ≠ [] → (∀ g, g ∈ groups → ∃ s, pg_spec g = Layer s ∧ spec_ok b s ∧ page_of s = page) →
  NoDup (concat (pg_layer_names <$> groups)) → w ≠ [] → NoDup w.*1 →
  (∀ n, n ∈ w.*1 → n ∈ concat (pg_layer_names <$> groups)) →
  ∃ gs, _project_kv_cache_groups_to_worker groups w = Ok gs ∧ worker_plan b groups w gs.
Proof.
  intros Hne Hg Hnd Hw Hwn Hsub. unfold _project_kv_cache_groups_to_worker.
  set (project g := mkPlanGroup (filter (λ n, n ∈ w.*1) (pg_layer_names g)) (pg_spec g)).
  exists (project <$> groups). split.
  { apply rmap_Ok. intros g Hin. destruct (Hg g Hin) as (s & Es & _). unfold project. rewrite Es. by case_match. }
  assert (concat (pg_layer_names <$> (project <$> groups)) ≡ₚ w.*1) as Hp.
  { rewrite <- list_fmap_compose. etrans; [|by apply (names_filter_perm _ w Hnd)].
    rewrite <- (concat_filter _ pg_layer_names). done. }
  assert (∀ g, g ∈ project <$> groups → ∃ s, pg_spec g = Layer s ∧ spec_ok b s ∧ page_of s = page) as Hg'.
  { intros g' (g & -> & Hin)%list_elem_of_fmap. apply (Hg g Hin). }
  split.
  - apply (layers_ok _ _ _ page); [by destruct groups|done].
  - unfold plan_wf. rewrite (layers_no_uniform b _ page) by done. apply width_pos.
    intros E. rewrite E in Hp. apply Permutation_nil_l in Hp. by destruct w.
  - done.
  - unfold plan_blocks. rewrite !(layers_no_uniform b _ page) by done. by rewrite sum_of_fmap.
Qed.

Lemma project_uniform b bs (specs : layers) n w :
  all_ok b specs → NoDup specs.*1 → (∀ l, l ∈ specs → layer_blocks b l.2 = n) →
  w ≠ [] → NoDup w.*1 → (∀ n, n ∈ w.*1 → n ∈ specs.*1) →
  let groups := [mkPlanGroup specs.*1 (UniformTypeKVCacheSpecs bs specs)] in
  ∃ gs, _project_kv_cache_groups_to_worker groups w = Ok gs ∧ worker_plan b groups w gs.
Proof.
  intros Hok Hnd Hn Hw Hwn Hsub groups. unfold _project_kv_cache_groups_to_worker, groups. cbn [rmap pg_layer_names pg_spec].
  set (kept := filter (λ l : string * LayerSpec, l.1 ∈ w.*1) specs).
  assert (filter (λ n, n ∈ w.*1) specs.*1 = kept.*1) as Ek.
  { apply filter_keys. }
  pose proof (names_filter_perm _ w Hnd Hwn Hsub) as Hp. rewrite Ek in Hp.
  assert (∀ l, l ∈ kept → l ∈ specs) as Hin by (by intros l [_ ?]%list_elem_of_filter).
  assert (rmap (λ k, s ← od_index specs k; Ok (k, s)) kept.*1 = Ok kept) as Em.
  { rewrite <- (list_fmap_id kept) at 2. apply rmap_fmap_Ok. intros [k s] Hl.
    by rewrite (od_index_nodup specs k s) by auto. }
  assert (NoDup kept.*1) as Hkn by (by rewrite Hp). assert (kept.*1 ≠ []) as Hkne.
  { intros E. rewrite E in Hp. apply Permutation_nil_l in Hp. by destruct w. }
  rewrite Ek. destruct kept.*1 as [|k0 rest] eqn:E0; [done|]. rewrite <- E0 in *. rewrite Em. cbn [mbind res_bind].
  eexists. split; [done|]. assert (kept ≠ []) as Hne by (by intros ->).
  split; cbn.
  - constructor. auto.
  - split_and!; [by left|done|done|]. exists n. auto.
  - by rewrite app_nil_r.
  - unfold plan_blocks. cbn. destruct kept as [|l kept']; [done|]. destruct specs as [|l' specs]; [done|]. cbn.
    rewrite (Hn l) by (apply Hin; left). by rewrite (Hn l') by left.
Qed.

Lemma project_spec b groups w :
  shape b groups → NoDup (concat (pg_layer_names <$> groups)) → w ≠ [] → NoDup w.*1 →
  (∀ n, n ∈ w.*1 → n ∈ concat (pg_layer_names <$> groups)) →
  ∃ gs, _project_kv_cache_groups_to_worker groups w = Ok gs ∧ worker_plan b groups w gs.
Proof.
  intros [bs specs n Hok Hnd Hn|gs page Hne Hg] Hnn Hw Hwn Hsub; [|by eapply project_layers].
  cbn in Hsub. rewrite app_nil_r in Hsub. by eapply project_uniform.
Qed.
End shape.
