(* ===== verification/PlanWorkers.v ===== *)
(** * Planning for all workers

    [get_kv_cache_configs] of KVCachePlan.v from end to end: it succeeds exactly
    when every worker has the memory for a request of maximal length, all workers
    get the same number of blocks, and automatic fitting finds the longest model. *)

From Stdlib Require Import String.
From S2P Require Import Prelude KVCacheSpec KVCachePlan PlanProps PlanGroups PlanMemory PlanShape.
#[local] Open Scope Z_scope.

Section workers.
Context (get_dtype_size : string → Z).
Abbreviation plan_ok := (plan_ok get_dtype_size).
Abbreviation plan_memory := (plan_memory get_dtype_size).
Abbreviation worker_plan := (worker_plan get_dtype_size).

(** ** The memory check *)

(** The check of one worker. *)
Definition enough (b : VllmConfig) (x : list PlanGroup * Z) : bool :=
  (0 <? x.2) && (plan_memory b x.1 <=? x.2).

Lemma memory_check_spec c groups available :
  plan_ok (base_config c) groups → 1 ≤ model_len c →
  _check_enough_kv_cache_memory available (_max_memory_usage_bytes_from_groups get_dtype_size c groups)
    (_estimate_max_model_len_from_groups get_dtype_size c groups)
  = if enough (base_config c) (groups, available) then Ok tt else Err ValueError.
Proof.
  intros Hp Hl. unfold _check_enough_kv_cache_memory, enough. cbn [fst snd].
  destruct (available <=? 0) eqn:E; to_prop.
  { by rewrite (proj2 (Z.ltb_ge 0 available)) by lia. }
  rewrite (proj2 (Z.ltb_lt 0 available)) by lia. rewrite plan_memory_spec by done. cbn [mbind res_bind andb].
  rewrite Z.ltb_antisym. destruct (_ <=? available); cbn [negb]; [done|].
  by destruct (estimate_spec get_dtype_size c groups available Hp Hl) as (r & -> & _).
Qed.

Lemma check_workers_spec c projected available :
  (∀ gs, gs ∈ projected → plan_ok (base_config c) gs) → 1 ≤ model_len c →
  check_workers get_dtype_size c projected available
  = if forallb (enough (base_config c)) (zip projected available) then Ok tt else Err ValueError.
Proof.
  intros Hp Hl. unfold check_workers. revert available.
  induction projected as [|gs projected IH]; intros available; [done|]. destruct available as [|a available]; [done|].
  assert (plan_ok (base_config c) gs) as Hgs by (apply Hp; left).
  assert (gs ≠ []) as Hne by (by destruct Hgs). cbn [zip_with rfold forallb fst snd].
  destruct gs as [|g gs]; [done|]. rewrite memory_check_spec by done. destruct (enough _ _); [|done]. cbn [mbind res_bind andb].
  apply IH. intros; apply Hp; by right.
Qed.

(** ** The report *)

Lemma index_head {A} (x : A) l : py_index (x :: l) 0 = Ok x.
Proof.
  apply py_index_nonneg; [done|]. done.
Qed.

Lemma rsum_fmap {A B} (f : B → res Z) (g : A → B) (h : A → Z) l :
  (∀ x, x ∈ l → f (g x) = Ok (h x)) → rsum f (g <$> l) = Ok (sum_of h l).
Proof.
  intros Hf. assert (∀ acc, rfold (λ acc x, v ← f x; Ok (acc + v)) acc (g <$> l) = Ok (acc + sum_of h l)) as Hgen;
    [|by unfold rsum; rewrite Hgen].
  induction l as [|x l IH]; intros acc; cbn [rfold fmap list_fmap]; [by rewrite Z.add_0_r|].
  rewrite (Hf x) by left. cbn [mbind res_bind]. rewrite IH by (intros; apply Hf; by right).
  rewrite sum_of_cons. f_equal. lia.
Qed.

(** The parts of the report that depend on the shape of the plan. *)
Lemma report_parts c groups :
  plan_ok (base_config c) groups → plan_wf (base_config c) groups → 0 < plan_blocks (base_config c) groups →
  ∃ memory g rest page, groups = g :: rest ∧ sum_max_memory get_dtype_size c (pg_spec <$> groups) = Ok memory
    ∧ spec_page_size get_dtype_size (pg_spec g) = Ok page ∧ 0 < memory ∧ 0 < page.
Proof.
  intros [names bs specs Hs|gs page Hne Hg] Hwf Hpos; unfold plan_wf, plan_blocks in *.
  - cbn [uniform_group] in *. destruct Hwf as (_ & _ & Hne & n & Hn).
    set (total := sum_of (λ l, page_of get_dtype_size l.2) specs).
    assert (0 < total) as Ht.
    { unfold total. destruct specs as [|l specs]; [done|]. rewrite sum_of_cons.
      pose proof (so_page_pos _ _ _ (Hs l ltac:(left))).
      assert (0 ≤ sum_of (λ l, page_of get_dtype_size l.2) specs); [|lia].
      apply sum_of_nonneg. intros l' Hl'. pose proof (so_page_pos _ _ _ (Hs l' ltac:(by right))). lia. }
    assert (0 < n) as Hnp.
    { destruct specs as [|l specs]; [done|]. cbn in Hpos. by rewrite <- (Hn l ltac:(left)). }
    exists (n * total), (mkPlanGroup names (UniformTypeKVCacheSpecs bs specs)), [], total. split; [done|].
    assert (uniform_max_memory_usage_bytes get_dtype_size (base_config c) specs = Ok (n * total)) as Em.
    { unfold uniform_max_memory_usage_bytes. rewrite (rmap_const _ n).
      - cbn [mbind res_bind]. rewrite (uniform_page_sum get_dtype_size (base_config c)) by done.
        destruct specs as [|l specs]; [done|]. cbn [length replicate mbind res_bind]. do 2 f_equal.
        induction (length specs) as [|k IH]; [done|]. cbn [replicate foldl]. by rewrite Z.max_id.
      - intros l Hl. pose proof (Hs l Hl) as Hso. rewrite layer_memory by done. rewrite (so_page _ _ _ Hso).
        cbn [mbind res_bind]. pose proof (so_page_pos _ _ _ Hso). rewrite (proj2 (Z.eqb_neq _ 0)) by lia.
        by rewrite cdiv_mul, Hn. }
    split_and!; [|by apply (uniform_page_sum get_dtype_size (base_config c))|nia|done].
    unfold sum_max_memory, rsum. cbn. rewrite Em. done.
  - rewrite (layers_no_uniform get_dtype_size (base_config c) gs page) in Hpos, Hwf by done.
    destruct gs as [|g rest] eqn:Egs; [done|]. destruct (Hg g ltac:(left)) as (s & Es & Hso & Ep).
    pose proof (so_page_pos _ _ _ Hso) as Hpp. rewrite Ep in Hpp.
    exists (page * sum_of (group_blocks (base_config c)) gs), g, rest, page. rewrite <- Egs in *.
    split; [done|]. split; [|split; [|split; [nia|done]]].
    + unfold sum_max_memory. rewrite (rsum_fmap _ _ (λ g, page * group_blocks (base_config c) g)).
      * by rewrite sum_of_scale.
      * intros g' Hg'. destruct (Hg g' Hg') as (s' & Es' & Hso' & Ep'). unfold spec_max_memory, group_blocks, group_layer.
        rewrite Es', layer_memory by done. rewrite Ep'. f_equal. lia.
    + rewrite Es. cbn. rewrite <- Ep. apply Hso.
Qed.

Lemma report_Ok c cfg :
  plan_ok (base_config c) (pc_groups cfg) → plan_wf (base_config c) (pc_groups cfg) →
  0 < plan_blocks (base_config c) (pc_groups cfg) → 0 < group_width (pc_groups cfg) →
  ∃ r, _report_kv_cache_config get_dtype_size c cfg = Ok r.
Proof.
  intros Hp Hwf Hpos Hw. unfold _report_kv_cache_config, get_max_concurrency_for_kv_cache_config.
  destruct (report_parts c _ Hp Hwf Hpos) as (memory & g & rest & page & Eg & Em & Epg & Hm & Hpg).
  rewrite Em. destruct (group_width_spec (pc_groups cfg)) as (-> & _); [by rewrite Eg|]. set (w := group_width _) in *.
  rewrite Eg. cbn [fmap list_fmap py_min mbind res_bind]. unfold py_div. rewrite (proj2 (Z.eqb_neq _ 0)).
  2: { rewrite zlen_cons. pose proof (zlen_nonneg rest). lia. }
  cbn [mbind res_bind]. rewrite index_head. cbn [mbind res_bind]. rewrite Epg. cbn [mbind res_bind].
  rewrite (proj2 (Z.eqb_neq _ 0)) by nia. cbn [mbind res_bind]. rewrite (proj2 (Z.eqb_neq _ 0)); [by eexists|].
  pose proof (cdiv_bounds (w * memory) (page * w)). nia.
Qed.

(** ** Shrinking to the smallest worker *)

Lemma shrink_spec c groups w gs available cfg m :
  worker_plan (base_config c) groups w gs → w ≠ [] → config_ok get_dtype_size (base_config c) gs available cfg →
  0 < plan_blocks (base_config c) groups → 0 < m ≤ pc_num_blocks cfg →
  ∃ cfg', shrink_config get_dtype_size c m cfg = Ok cfg' ∧ pc_num_blocks cfg' = m ∧ pc_groups cfg' = gs
    ∧ sum_of t_size (pc_tensors cfg') ≤ available ∧ concat (shared_by <$> pc_tensors cfg') ≡ₚ w.*1
    ∧ ∀ t, t ∈ pc_tensors cfg' → ∃ page, 0 < page ∧ t_size t = page * m.
Proof.
  intros [Hp Hwf Hn Hb] Hw [Eg Hmem Hlay Hdiv _ _] Hpos Hm. unfold shrink_config.
  set (N := pc_num_blocks cfg) in *. rewrite (rmap_Ok _ (λ t, mkTensor (t_size t / N * m) (shared_by t))).
  2: { intros t Ht. destruct (Hdiv t Ht) as (p & Hpp & Et). unfold py_mod.
       rewrite (proj2 (Z.eqb_neq _ 0)) by lia. cbn [mbind res_bind]. by rewrite Et, Z.mod_mul by lia. }
  cbn [mbind res_bind pc_groups]. rewrite Eg. set (cfg' := mkPlanConfig _ _ gs).
  destruct (report_Ok c cfg') as [r Er]; cbn [cfg' pc_groups]; [done|done|by rewrite Hb| |].
  { apply width_pos. intros E. rewrite E in Hn. apply Permutation_nil_l in Hn. by destruct w. }
  destruct gs as [|g gs]; [by inversion Hp|]. cbn [mbind res_bind]. rewrite Er. exists cfg'. split_and!; [done..| | |].
  - cbn [cfg' pc_tensors]. rewrite sum_of_fmap. etrans; [|exact Hmem]. apply sum_of_mono. intros t Ht. cbn.
    destruct (Hdiv t Ht) as (p & Hpp & ->). rewrite Z.div_mul by lia. nia.
  - cbn [cfg' pc_tensors]. rewrite <- list_fmap_compose. etrans; [exact Hlay|]. exact Hn.
  - intros t' (t & -> & Ht)%list_elem_of_fmap. destruct (Hdiv t Ht) as (p & Hpp & Et). exists p. cbn.
    by rewrite Et, Z.div_mul by lia.
Qed.

(** ** All workers *)

(** What a worker with the layers [x.1] and the memory [x.2] gets from planning:
    the common number of blocks, enough for a request of maximal length, tensors
    of that many pages each within its memory, and exactly one tensor for each of
    its layers. *)
Record served (b : VllmConfig) (m : Z) (x : layers * Z) (cfg : PlanConfig) : Prop := {
  sv_blocks : pc_num_blocks cfg = m;
  sv_request : plan_blocks b (pc_groups cfg) ≤ m;
  sv_memory : sum_of t_size (pc_tensors cfg) ≤ x.2;
  sv_layers : concat (shared_by <$> pc_tensors cfg) ≡ₚ x.1.*1;
  sv_pages : ∀ t, t ∈ pc_tensors cfg → ∃ page, 0 < page ∧ t_size t = page * m;
}.

Lemma names_total gs : foldr Z.add 0 ((λ g, zlen (pg_layer_names g)) <$> gs) = zlen (concat (pg_layer_names <$> gs)).
Proof. induction gs as [|g gs IH]; [done|]. cbn. by rewrite zlen_app, IH. Qed.

Lemma worker_config_spec c groups w gs available :
  worker_plan (base_config c) groups w gs → num_gpu_blocks_override c = None → 0 ≤ available →
  ∃ cfg, worker_config get_dtype_size c (gs, w, available) = Ok cfg
    ∧ config_ok get_dtype_size (base_config c) gs available cfg.
Proof.
  intros [Hp Hwf Hn Hb] Ho Ha. unfold worker_config. rewrite names_total.
  assert (zlen (concat (pg_layer_names <$> gs)) = zlen w) as -> by (unfold zlen; by rewrite Hn, length_fmap).
  rewrite Z.eqb_refl.
  by apply config_spec.
Qed.

Lemma configs_spec c groups (l : list (list PlanGroup * layers * Z)) :
  l ≠ [] → num_gpu_blocks_override c = None → 0 < plan_blocks (base_config c) groups →
  (∀ x, x ∈ l → worker_plan (base_config c) groups x.1.2 x.1.1 ∧ x.1.2 ≠ []
     ∧ enough (base_config c) (x.1.1, x.2) = true) →
  ∃ cfgs m cfgs', rmap (worker_config get_dtype_size c) l = Ok cfgs ∧ py_min (pc_num_blocks <$> cfgs) = Ok m
    ∧ rmap (shrink_config get_dtype_size c m) cfgs = Ok cfgs'
    ∧ Forall2 (λ x, served (base_config c) m (x.1.2, x.2)) l cfgs'.
Proof.
  intros Hne Ho Hpos Hl.
  destruct (rmap_Forall2 (worker_config get_dtype_size c) (λ x, config_ok get_dtype_size (base_config c) x.1.1 x.2) l)
    as (cfgs & E & HF).
  { intros [[gs w] a] Hx. destruct (Hl _ Hx) as (Hw & _ & He). unfold enough in He. cbn in *.
    apply andb_true_iff in He as [He%Z.ltb_lt _]. apply worker_config_spec with (groups := groups); [done|done|lia]. }
  assert (∀ cfg, cfg ∈ cfgs → plan_blocks (base_config c) groups ≤ pc_num_blocks cfg) as Hblk.
  { intros cfg [i Hi]%list_elem_of_lookup_1. destruct (Forall2_lookup_r _ _ _ _ _ HF Hi) as ([[gs w] a] & Hx & Hc).
    apply list_elem_of_lookup_2 in Hx. destruct (Hl _ Hx) as (Hw & _ & He). unfold enough in He. cbn in *.
    apply andb_true_iff in He as [_ He%Z.leb_le]. rewrite <- (wp_blocks _ _ _ _ _ Hw). by apply (cf_blocks _ _ _ _ _ Hc). }
  destruct (py_min (pc_num_blocks <$> cfgs)) as [m|] eqn:Em.
  2: { destruct cfgs; [by inversion HF; subst|done]. }
  destruct (py_min_spec _ _ Em) as [(cfg0 & Em0 & Hin)%list_elem_of_fmap Hmin].
  pose proof (Hblk cfg0 Hin) as Hm. rewrite <- Em0 in Hm.
  assert (∃ cfgs', rmap (shrink_config get_dtype_size c m) cfgs = Ok cfgs'
    ∧ Forall2 (λ x, served (base_config c) m (x.1.2, x.2)) l cfgs') as (cfgs' & E' & HF').
  { assert (∀ cfg, cfg ∈ cfgs → m ≤ pc_num_blocks cfg) as Hle by (intros; apply Hmin, list_elem_of_fmap; eauto).
    clear E Em Em0 Hin Hmin Hne Hblk.
    induction HF as [|[[gs w] a] cfg l cfgs Hc HF IH]; [exists []; by split|].
    destruct IH as (cfgs' & E' & HF'); [intros; apply Hl; by right|intros; apply Hle; by right|].
    destruct (Hl _ ltac:(left)) as (Hw & Hwn & _). cbn in *.
    destruct (shrink_spec c groups w gs a cfg m Hw Hwn Hc Hpos) as (cfg' & Es & E1 & E2 & E3 & E4 & E5).
    { split; [lia|]. apply Hle. left. }
    exists (cfg' :: cfgs'). rewrite Es. cbn [mbind res_bind]. rewrite E'. split; [done|]. constructor; [|done].
    split; try done. rewrite E2, (wp_blocks _ _ _ _ _ Hw). done. }
  by exists cfgs, m, cfgs'.
Qed.

(** The settings and the workers that the theorems below speak about: the specs of
    the workers agree and can be grouped, every worker has layers, all of positive
    sizes, and a request of any length needs some block. *)
Record planning (c : PlanSettings) (specs : list layers) (available : list Z) (groups : list PlanGroup) : Prop := {
  pl_groups : (merged ← merge_worker_specs specs; get_kv_cache_groups get_dtype_size c merged) = Ok groups;
  pl_some : specs ≠ [];
  pl_layers : ∀ w, w ∈ specs → w ≠ [] ∧ NoDup w.*1 ∧ ∀ l, l ∈ w → spec_ok get_dtype_size (base_config c) l.2;
  pl_memory : length available = length specs;
  pl_override : num_gpu_blocks_override c = None;
  pl_len : 1 ≤ model_len c;
  pl_blocks : 0 < plan_blocks (base_config (with_max_model_len c 1)) groups;
}.

(** A request of maximal length fits the memory of the worker. *)
Definition worker_fits (c : PlanSettings) (groups : list PlanGroup) (x : layers * Z) : Prop :=
  ∃ gs need, _project_kv_cache_groups_to_worker groups x.1 = Ok gs
    ∧ _max_memory_usage_bytes_from_groups get_dtype_size c gs = Ok need ∧ need ≤ x.2.

Lemma with_same_len c : with_max_model_len c (model_len c) = c.
Proof. by destruct c as [[]]. Qed.

Lemma plan_memory_pos b groups w gs :
  worker_plan b groups w gs → 0 < plan_blocks b groups → 0 < plan_memory b gs.
Proof.
  intros [Hp Hwf _ Hb] Hpos. rewrite <- Hb in Hpos. unfold PlanProps.plan_memory, plan_blocks, plan_wf in *.
  destruct (uniform_group gs) as [[names specs]|] eqn:E.
  - destruct Hwf as (_ & _ & Hne & n & Hn).
    assert (∀ l, l ∈ specs → 0 < page_of get_dtype_size l.2) as Hpg.
    { destruct Hp as [names' bs specs' Hs|gs page Hgne Hg]; [injection E as <- <-; intros l Hl; by apply (Hs l Hl)|].
      by rewrite (layers_no_uniform get_dtype_size b gs page) in E. }
    destruct specs as [|l specs]; [done|]. cbn in Hpos. rewrite sum_of_cons.
    pose proof (Hpg l ltac:(left)). assert (0 ≤ sum_of (λ l, layer_blocks b l.2 * page_of get_dtype_size l.2) specs); [|nia].
    apply sum_of_nonneg. intros l' Hl'. pose proof (Hpg l' ltac:(by right)).
    rewrite (Hn l') by (by right). rewrite (Hn l) in Hpos by left. nia.
  - destruct Hp as [|gs page Hne Hg]; [done|]. destruct gs as [|g gs]; [done|].
    destruct (Hg g ltac:(left)) as (s & Es & Hs & Ep). pose proof (so_page_pos _ _ _ Hs).
    assert (head (g :: gs) ≫= group_layer = Some s) as -> by (unfold group_layer; cbn; by rewrite Es).
    cbn [fmap option_fmap option_map default id]. nia.
Qed.

Lemma plan_blocks_mono c b groups w gs m n :
  worker_plan b groups w gs → m ≤ n →
  plan_blocks (base_config (with_max_model_len c m)) gs ≤ plan_blocks (base_config (with_max_model_len c n)) gs.
Proof.
  intros [Hp _ _ _] Hmn. unfold plan_blocks. destruct Hp as [names bs specs Hs|gs page Hne Hg].
  - cbn. destruct specs as [|l specs]; [done|]. cbn. apply layer_blocks_mono; [by apply (Hs l ltac:(left))|done].
  - rewrite (layers_no_uniform get_dtype_size b gs page) by done. apply sum_of_mono. intros g Hin.
    destruct (Hg g Hin) as (s & Es & Hs & _). unfold group_blocks, group_layer. rewrite Es.
    apply layer_blocks_mono; [apply Hs|done].
Qed.

Lemma list_elem_of_nonempty {A} (l : list A) : l ≠ [] → ∃ x, x ∈ l.
Proof. destruct l as [|x l]; [done|]. exists x. left. Qed.

Section planned.
Context (c : PlanSettings) (specs : list layers) (available : list Z) (groups : list PlanGroup).
Hypothesis Hplan : planning c specs available groups.
Abbreviation at_len n := (with_max_model_len c n).
Abbreviation projects := (λ w gs, w ≠ [] ∧ _project_kv_cache_groups_to_worker groups w = Ok gs
  ∧ ∀ n, worker_plan (base_config (at_len n)) groups w gs).

Lemma worker_projected w n :
  w ∈ specs → ∃ gs, _project_kv_cache_groups_to_worker groups w = Ok gs ∧ worker_plan (base_config (at_len n)) groups w gs.
Proof using Hplan.
  intros Hw. destruct Hplan as [Hg _ Hl _ _ _ _]. inv_ok. rename a into merged.
  destruct (merge_workers_spec _ _ Hb) as [Hnd Hm]. destruct (Hl w Hw) as (Hwne & Hwn & _).
  assert (∀ l, l ∈ w → l ∈ merged) as Hin by (intros l Hlw; apply Hm, elem_of_concat_iff; by exists w).
  assert (∀ l, l ∈ merged → spec_ok get_dtype_size (base_config (at_len n)) l.2) as Hok.
  { intros l (w' & Hlw & Hw')%Hm%elem_of_concat_iff. apply spec_ok_len. by apply (Hl w' Hw'). }
  destruct (groups_shape get_dtype_size (base_config (at_len n)) c merged groups) as [Hshape Hperm]; [done..| |].
  { destruct w as [|l w]; [done|]. intros ->. by pose proof (Hin l ltac:(left)) as ?%elem_of_nil. }
  apply project_spec; try done; [by rewrite Hperm|]. intros k Hk. rewrite Hperm.
  apply list_elem_of_fmap in Hk as (l & -> & Hlw). apply list_elem_of_fmap. eauto.
Qed.

Lemma projected_spec :
  ∃ projected, rmap (_project_kv_cache_groups_to_worker groups) specs = Ok projected
    ∧ Forall2 projects specs projected.
Proof using Hplan.
  apply rmap_Forall2. intros w Hw. destruct (worker_projected w 1 Hw) as (gs & E & _). exists gs.
  split; [done|]. split; [by apply (pl_layers _ _ _ _ Hplan)|]. split; [done|]. intros n.
  destruct (worker_projected w n Hw) as (gs' & E' & Hp). rewrite E in E'. by injection E' as <-.
Qed.

Lemma blocks_pos n : 1 ≤ n → 0 < plan_blocks (base_config (at_len n)) groups.
Proof using Hplan.
  intros Hn. pose proof (pl_blocks _ _ _ _ Hplan) as Hb.
  destruct (list_elem_of_nonempty specs (pl_some _ _ _ _ Hplan)) as [w Hw].
  destruct (worker_projected w n Hw) as (gs & Eg & Hp). destruct (worker_projected w 1 Hw) as (gs' & Eg' & Hp').
  rewrite Eg in Eg'. injection Eg' as <-. rewrite <- (wp_blocks _ _ _ _ _ Hp).
  rewrite <- (wp_blocks _ _ _ _ _ Hp') in Hb. pose proof (plan_blocks_mono c _ groups w gs 1 n Hp). lia.
Qed.

Lemma fits_iff projected n :
  1 ≤ n →
  Forall2 projects specs projected →
  (∀ x, x ∈ zip specs available → worker_fits (at_len n) groups x)
  ↔ forallb (enough (base_config (at_len n))) (zip projected available) = true.
Proof using Hplan.
  intros Hn HF. pose proof (blocks_pos n Hn) as Hpos. rewrite forallb_forall.
  clear Hplan. generalize available as avail. induction HF as [|w gs ws projected (Hw & Eg & Hp) _ IH]; intros avail.
  { split; intros _ x; [done|]. by intros ?%elem_of_nil. }
  destruct avail as [|a avail]; [split; intros _ x; [done|]; by intros ?%elem_of_nil|]. cbn [zip_with In].
  assert (worker_fits (at_len n) groups (w, a) ↔ enough (base_config (at_len n)) (gs, a) = true) as Hiff.
  { specialize (Hp n). pose proof (plan_memory_pos _ _ _ _ Hp Hpos). unfold enough, worker_fits. cbn [fst snd].
    rewrite Eg, andb_true_iff, Z.ltb_lt, Z.leb_le. split.
    - intros (gs' & need & [= <-] & En & Hle). rewrite plan_memory_spec in En by apply Hp.
      assert (need = plan_memory (base_config (at_len n)) gs) by congruence. lia.
    - intros [_ Hle]. exists gs, (plan_memory (base_config (at_len n)) gs). by rewrite plan_memory_spec by apply Hp. }
  split.
  - intros Hall x [<-|Hx]; [apply Hiff, Hall; left|]. apply (proj1 (IH avail)); [|done]. intros; apply Hall; by right.
  - intros Hall x [->|Hx]%elem_of_cons; [apply Hiff, Hall; by left|]. apply (proj2 (IH avail)); [|done]. intros; apply Hall; by right.
Qed.

Lemma zip_elem projected x :
  Forall2 projects specs projected →
  x ∈ zip (zip projected specs) available →
  (x.1.1, x.2) ∈ zip projected available ∧ x.1.2 ≠ [] ∧ ∀ n, worker_plan (base_config (at_len n)) groups x.1.2 x.1.1.
Proof using.
  clear Hplan. intros HF. generalize available as avail. induction HF as [|w gs ws projected (Hw & Eg & Hp) _ IH]; intros avail;
    [by intros ?%elem_of_nil|].
  destruct avail as [|a avail]; [by intros ?%elem_of_nil|]. cbn [zip_with].
  intros [->|Hx]%elem_of_cons; [split_and!; [left|done|done]|]. destruct (IH avail Hx) as (? & ? & ?).
  split_and!; [by right|done|done].
Qed.

Lemma zip_forget projected :
  length projected = length specs →
  (λ x : list PlanGroup * layers * Z, (x.1.2, x.2)) <$> zip (zip projected specs) available = zip specs available.
Proof using.
  clear Hplan. generalize available as avail, specs as ws. induction projected as [|gs projected IH]; intros avail [|w ws] H;
    try done. destruct avail as [|a avail]; [done|]. cbn. f_equal. apply IH. by injection H.
Qed.

(** The end of [get_kv_cache_configs], after the length is fixed. *)
Definition plan_rest (c' : PlanSettings) (projected : list (list PlanGroup)) : res (list PlanConfig * PlanSettings) :=
  _ ← check_workers get_dtype_size c' projected available;
  configs ← rmap (worker_config get_dtype_size c') (zip (zip projected specs) available);
  min_num_blocks ← py_min (pc_num_blocks <$> configs);
  configs ← rmap (shrink_config get_dtype_size c' min_num_blocks) configs;
  Ok (configs, c').

Lemma plan_rest_spec projected n :
  1 ≤ n →
  Forall2 projects specs projected →
  ((∀ x, x ∈ zip specs available → worker_fits (at_len n) groups x) →
     ∃ configs m, plan_rest (at_len n) projected = Ok (configs, at_len n)
       ∧ Forall2 (served (base_config (at_len n)) m) (zip specs available) configs)
  ∧ (¬ (∀ x, x ∈ zip specs available → worker_fits (at_len n) groups x) →
     plan_rest (at_len n) projected = Err ValueError).
Proof using Hplan.
  intros Hn HF. rewrite (fits_iff projected n Hn HF). unfold plan_rest. rewrite check_workers_spec.
  2: { intros gs [i Hi]%list_elem_of_lookup_1. by destruct (Forall2_lookup_r _ _ _ _ _ HF Hi) as (w & _ & _ & _ & Hp); apply Hp. }
  2: done.
  destruct (forallb _ _) eqn:E; [|split; [done|]; intros _; done]. split; [|done]. intros _. cbn [mbind res_bind].
  destruct (configs_spec (at_len n) groups (zip (zip projected specs) available)) as (cfgs & m & cfgs' & E1 & E2 & E3 & HS).
  - pose proof (pl_some _ _ _ _ Hplan). pose proof (pl_memory _ _ _ _ Hplan). apply Forall2_length in HF.
    intros El. apply (f_equal length) in El. rewrite !length_zip in El. destruct specs; [done|]. cbn in *. lia.
  - apply Hplan.
  - by apply blocks_pos.
  - intros x Hx. destruct (zip_elem _ _ HF Hx) as (Hin & Hne & Hp). split_and!; [done|done|].
    rewrite forallb_forall in E. by apply E, list_elem_of_In.
  - exists cfgs', m. rewrite E1. cbn [mbind res_bind]. rewrite E2. cbn [mbind res_bind]. rewrite E3. split; [done|].
    rewrite <- (zip_forget projected) by (by apply Forall2_length in HF). by apply Forall2_fmap_l.
Qed.

(** ** Fitting the length *)

Lemma fit_fold l acc :
  (∀ x, x ∈ l → plan_ok (base_config c) x.1) → 1 ≤ model_len c → 0 ≤ acc ≤ model_len c →
  ∃ r, rfold (λ acc x, match x.1 with
      | [] => Ok acc
      | gs => worker_max ← _estimate_max_model_len_from_groups get_dtype_size c gs x.2;
              Ok (if worker_max <? acc then worker_max else acc)
      end) acc l = Ok r ∧ 0 ≤ r ≤ acc
    ∧ ∀ k, 1 ≤ k ≤ model_len c →
        k ≤ r ↔ k ≤ acc ∧ ∀ x, x ∈ l → plan_memory (base_config (at_len k)) x.1 ≤ x.2.
Proof using.
  clear Hplan. intros Hp Hl. revert acc. induction l as [|[gs a] l IH]; intros acc Hacc.
  { exists acc. split; [done|]. split; [lia|]. intros k _. split; [|tauto]. intros Hk. split; [done|].
    by intros x ?%elem_of_nil. }
  assert (plan_ok (base_config c) gs) as Hgs by (apply (Hp (gs, a)); left).
  destruct (estimate_spec get_dtype_size c gs a Hgs Hl) as (r & E & Hr & Hiff).
  destruct (IH ltac:(intros; apply Hp; by right) (if r <? acc then r else acc)) as (r' & E' & Hr' & Hiff').
  { case_match; lia. }
  exists r'. cbn [rfold fst snd]. destruct gs as [|g gs]; [by inversion Hgs|]. rewrite E. cbn [mbind res_bind].
  split; [done|]. split; [destruct (r <? acc) eqn:Er; to_prop; lia|]. intros k Hk. rewrite Hiff' by done.
  assert (k ≤ (if r <? acc then r else acc) ↔ k ≤ acc ∧ k ≤ r) as -> by (destruct (r <? acc) eqn:Er; to_prop; lia).
  rewrite Hiff by done. split.
  - intros [[H1 H2] H3]. split; [done|]. intros x [->|Hx]%elem_of_cons; auto.
  - intros [H1 H2]. split_and!; [done|apply (H2 (g :: gs, a)); left|]. intros x Hx. apply H2. by right.
Qed.

Abbreviation all_fit n := (∀ x, x ∈ zip specs available → worker_fits (at_len n) groups x).

Lemma auto_fit_spec projected :
  Forall2 projects specs projected →
  (all_fit 1 → ∃ n, 1 ≤ n ≤ model_len c
     ∧ _auto_fit_max_model_len get_dtype_size c projected available = Ok (at_len n)
     ∧ ∀ k, 1 ≤ k ≤ model_len c → all_fit k ↔ k ≤ n)
  ∧ (¬ all_fit 1 → _auto_fit_max_model_len get_dtype_size c projected available = Err ValueError).
Proof using Hplan.
  intros HF. pose proof (pl_len _ _ _ _ Hplan) as Hlen.
  assert (∀ x, x ∈ zip projected available → ∃ w, ∀ n, worker_plan (base_config (at_len n)) groups w x.1) as Hx.
  { intros [gs a] Hin. apply elem_of_zip_l in Hin as [i Hi]%list_elem_of_lookup_1.
    destruct (Forall2_lookup_r _ _ _ _ _ HF Hi) as (w & _ & _ & _ & Hp). by exists w. }
  destruct (fit_fold (zip projected available) (model_len c)) as (r & E & Hr & Hiff); [|done|lia|].
  { intros x [w Hw]%Hx. rewrite <- (with_same_len c). apply Hw. }
  assert (∀ k, 1 ≤ k ≤ model_len c → all_fit k ↔ k ≤ r) as Hfit.
  { intros k Hk. rewrite (fits_iff projected k), Hiff, forallb_forall by (done || lia). split.
    - intros Hall. split; [lia|]. intros x Hin. specialize (Hall x). apply list_elem_of_In, Hall in Hin.
      unfold enough in Hin. apply andb_true_iff in Hin as [_ Hin%Z.leb_le]. done.
    - intros [_ Hall] x Hin%list_elem_of_In. destruct (Hx x Hin) as [w Hw]. specialize (Hall x Hin). specialize (Hw k).
      pose proof (plan_memory_pos _ _ _ _ Hw (blocks_pos k ltac:(lia))).
      unfold enough. rewrite andb_true_iff, Z.ltb_lt, Z.leb_le. lia. }
  assert (_auto_fit_max_model_len get_dtype_size c projected available
    = if r <=? 0 then Err ValueError else Ok (at_len r)) as ->.
  { unfold _auto_fit_max_model_len. pose proof (pl_memory _ _ _ _ Hplan) as Hm. pose proof (pl_some _ _ _ _ Hplan) as Hne.
    destruct HF as [|w gs ws projected (_ & _ & Hp) HF]; [done|]. destruct available as [|a avail]; [done|].
    assert (gs ≠ []) as Hgs by (destruct (Hp 1) as [[] _ _ _]; done).
    cbn [forallb]. rewrite bool_decide_eq_false_2 by done. cbn [andb]. rewrite index_head. cbn [mbind res_bind].
    rewrite E. cbn [mbind res_bind]. destruct (r <=? 0) eqn:Er; [done|].
    destruct (model_len c <=? r) eqn:Em; [|done]. to_prop. replace r with (model_len c) by lia. by rewrite with_same_len. }
  destruct (r <=? 0) eqn:Er; to_prop.
  - split; [|done]. intros H. apply Hfit in H; lia.
  - split; [|intros H; contradict H; apply Hfit; lia]. intros _. exists r. split_and!; [lia|lia|done|done].
Qed.
End planned.

Lemma configs_unfold c specs available groups projected c' :
  planning c specs available groups → rmap (_project_kv_cache_groups_to_worker groups) specs = Ok projected →
  (if original_max_model_len c =? -1 then _auto_fit_max_model_len get_dtype_size c projected available else Ok c) = c' →
  get_kv_cache_configs get_dtype_size c specs available
  = (c' ← c'; plan_rest specs available c' projected).
Proof.
  intros [Hg _ _ _ _ _ _] Hp <-. unfold get_kv_cache_configs, plan_rest. inv_ok. rewrite Hb. cbn [mbind res_bind].
  rewrite Hg. cbn [mbind res_bind]. by rewrite Hp.
Qed.

(** Workers the planning is exact for: at least one, each with a memory and at least one layer,
    all of positive sizes. *)
Definition workers_ok (c : PlanSettings) (specs : list layers) (available : list Z) : Prop :=
  specs ≠ [] ∧ length available = length specs
  ∧ ∀ w, w ∈ specs → w ≠ [] ∧ NoDup w.*1 ∧ ∀ l, l ∈ w → spec_ok get_dtype_size (base_config c) l.2.

(** The groups of the whole model, or the exception of merging or grouping the specs. *)
Definition model_groups (c : PlanSettings) (specs : list layers) : res (list PlanGroup) :=
  merged ← merge_worker_specs specs; get_kv_cache_groups get_dtype_size c merged.

Lemma configs_fail c specs available e :
  model_groups c specs = Err e → get_kv_cache_configs get_dtype_size c specs available = Err e.
Proof.
  unfold model_groups, get_kv_cache_configs. destruct (merge_worker_specs specs); cbn; [|by intros [= ->]].
  by intros ->.
Qed.

Lemma workers_planning c specs available groups :
  num_gpu_blocks_override c = None → 1 ≤ model_len c → workers_ok c specs available →
  model_groups c specs = Ok groups → 0 < plan_blocks (base_config (with_max_model_len c 1)) groups →
  planning c specs available groups.
Proof. intros Ho Hl (Hs & Ha & Hw) Hg Hb. by split. Qed.

(** C18: planning for a fixed model length, with a layer on every worker and no override of the
    number of blocks.  When merging or grouping the specs raises, so does
    [get_kv_cache_configs].  Otherwise, if a request needs any block at all, it succeeds exactly
    when the memory suffices: when a request of maximal length fits every worker, all
    workers get the same number of blocks, enough for such a request, the tensors of each
    are of that many pages and stay within its memory, and each of its layers uses exactly
    one tensor; when some worker is too small, it raises [ValueError]. *)
Theorem fixed_length_plan c specs available :
  original_max_model_len c ≠ -1 → num_gpu_blocks_override c = None → 1 ≤ model_len c →
  workers_ok c specs available →
  match model_groups c specs with
  | Err e => get_kv_cache_configs get_dtype_size c specs available = Err e
  | Ok groups =>
      0 < plan_blocks (base_config (with_max_model_len c 1)) groups →
      let all_fit := ∀ x, x ∈ zip specs available → worker_fits c groups x in
      (all_fit → ∃ configs m, get_kv_cache_configs get_dtype_size c specs available = Ok (configs, c)
         ∧ Forall2 (served (base_config c) m) (zip specs available) configs)
      ∧ (¬ all_fit → get_kv_cache_configs get_dtype_size c specs available = Err ValueError)
  end.
Proof.
  intros Ho Hov Hl Hw. destruct (model_groups c specs) as [groups|e] eqn:Eg; [|by apply configs_fail].
  intros Hb. pose proof (workers_planning c specs available groups Hov Hl Hw Eg Hb) as Hplan.
  destruct (projected_spec c specs available groups Hplan) as (projected & Ep & HF).
  rewrite (configs_unfold c specs available groups projected (Ok c) Hplan Ep) by (by rewrite (proj2 (Z.eqb_neq _ _))).
  cbn [mbind res_bind]. rewrite <- (with_same_len c). apply (plan_rest_spec _ _ _ _ Hplan); [apply Hplan|done].
Qed.

(** C19: automatic fitting, with a layer on every worker and no override of the number of
    blocks.  With [max_model_len] set to -1, when merging or grouping the specs raises, so
    does [get_kv_cache_configs].  Otherwise, if a request needs any block at all, when one token
    fits every worker it returns the configurations for the largest length, up to the derived
    one, that fits all workers, with the guarantees of the plan at that length; when not
    even one token fits, it raises [ValueError]. *)
Theorem auto_fit_plan c specs available :
  original_max_model_len c = -1 → num_gpu_blocks_override c = None → 1 ≤ model_len c →
  workers_ok c specs available →
  match model_groups c specs with
  | Err e => get_kv_cache_configs get_dtype_size c specs available = Err e
  | Ok groups =>
      0 < plan_blocks (base_config (with_max_model_len c 1)) groups →
      let all_fit n := ∀ x, x ∈ zip specs available → worker_fits (with_max_model_len c n) groups x in
      (all_fit 1 → ∃ n configs m, 1 ≤ n ≤ model_len c ∧ (∀ k, 1 ≤ k ≤ model_len c → all_fit k ↔ k ≤ n)
         ∧ get_kv_cache_configs get_dtype_size c specs available = Ok (configs, with_max_model_len c n)
         ∧ Forall2 (served (base_config (with_max_model_len c n)) m) (zip specs available) configs)
      ∧ (¬ all_fit 1 → get_kv_cache_configs get_dtype_size c specs available = Err ValueError)
  end.
Proof.
  intros Ho Hov Hl Hw. destruct (model_groups c specs) as [groups|e] eqn:Eg; [|by apply configs_fail].
  intros Hb all_fit. pose proof (workers_planning c specs available groups Hov Hl Hw Eg Hb) as Hplan.
  destruct (projected_spec c specs available groups Hplan) as (projected & Ep & HF).
  rewrite (configs_unfold c specs available groups projected _ Hplan Ep eq_refl), Ho. cbn [Z.eqb Pos.eqb].
  destruct (auto_fit_spec c specs available groups Hplan projected HF) as [Hyes Hno]. split.
  - intros H1. destruct (Hyes H1) as (n & Hn & -> & Hiff). cbn [mbind res_bind].
    destruct (plan_rest_spec c specs available groups Hplan projected n ltac:(lia) HF) as [Hok _].
    destruct Hok as (configs & m & E & HS); [apply Hiff; lia|]. by exists n, configs, m.
  - intros H1. by rewrite (Hno H1).
Qed.
End workers.
