(* ===== verification/PlanExamples.v ===== *)
(** * Plans of concrete models

    A model with full and sliding-window attention on two pipeline stages, and the
    corner cases in which planning departs from its documentation. *)

From Stdlib Require Import String.
From S2P Require Import Prelude KVCacheSpec KVCachePlan PlanProps PlanGroups PlanMemory PlanShape PlanWorkers.
#[local] Open Scope Z_scope.

Definition two_bytes (_ : string) : Z := 2.
Definition demo_attn : AttentionSpec := mkAttention 16 1 4 "bfloat16" None.
Definition demo_full : LayerSpec := FullAttentionSpec demo_attn (mkFull 4 None None).
Definition demo_sliding : LayerSpec := SlidingWindowSpec demo_attn 17.

Definition demo_settings (original : Z) : PlanSettings :=
  mkSettings (mkConfig 64 1 1 32 8 "none") None false original.

(** The layers of the two stages, and the groups they are put into. *)
Definition stage1 : layers := [("l0", demo_full); ("l1", demo_sliding)]%string.
Definition stage2 : layers := [("l2", demo_full); ("l3", demo_sliding)]%string.
Definition demo_stages : list layers := [stage1; stage2].
Definition demo_groups : list PlanGroup :=
  [mkPlanGroup ["l0"; "l2"] (Layer demo_full); mkPlanGroup ["l1"; "l3"] (Layer demo_sliding)]%string.

Lemma demo_ok b s :
  decode_context_parallel_size b = 1 → s = demo_full ∨ s = demo_sliding →
  spec_ok two_bytes b s ∧ page_of two_bytes s = 256.
Proof. intros Hb [-> | ->]; (split; [split|]); by cbn. Qed.

Lemma demo_stage w : w ∈ demo_stages → w = stage1 ∨ w = stage2.
Proof. by intros [->| ->%list_elem_of_singleton]%elem_of_cons; [left|right]. Qed.

Lemma demo_layers w l : w ∈ demo_stages → l ∈ w → l.2 = demo_full ∨ l.2 = demo_sliding.
Proof.
  intros [-> | ->]%demo_stage [->| ->%list_elem_of_singleton]%elem_of_cons; auto.
Qed.

Lemma demo_workers original available :
  length available = 2%nat → workers_ok two_bytes (demo_settings original) demo_stages available.
Proof.
  intros Ha. split; [done|]. split; [done|].
  intros w Hw. split_and!; [by destruct (demo_stage w Hw) as [-> | ->]| |].
  - destruct (demo_stage w Hw) as [-> | ->]; apply (bool_decide_unpack _); by vm_compute.
  - intros l Hl. by apply demo_ok, (demo_layers w).
Qed.

Lemma demo_model_groups original : model_groups two_bytes (demo_settings original) demo_stages = Ok demo_groups.
Proof. reflexivity. Qed.

Lemma demo_fits original n available x need :
  x ∈ zip demo_stages available → need ≤ x.2 →
  (∀ names, _max_memory_usage_bytes_from_groups two_bytes (with_max_model_len (demo_settings original) n)
     [mkPlanGroup [names.1] (Layer demo_full); mkPlanGroup [names.2] (Layer demo_sliding)] = Ok need) →
  worker_fits two_bytes (with_max_model_len (demo_settings original) n) demo_groups x.
Proof.
  intros Hx Hle Hneed. destruct x as [w a].
  assert (w ∈ demo_stages) as Hw by (by eapply elem_of_zip_l).
  assert (∃ names : string * string, _project_kv_cache_groups_to_worker demo_groups w
    = Ok [mkPlanGroup [names.1] (Layer demo_full); mkPlanGroup [names.2] (Layer demo_sliding)]) as [names E].
  { destruct (demo_stage w Hw) as [-> | ->]; [by exists ("l0", "l1")%string|by exists ("l2", "l3")%string]. }
  eexists _, need. split; [exact E|]. split; [apply Hneed|done].
Qed.

(** A request of 64 tokens needs eight blocks of 256 bytes; the smaller stage has ten. *)
Lemma fixed_length_plan_witness :
  ∃ configs, get_kv_cache_configs two_bytes (demo_settings 64) demo_stages [4096; 2560] = Ok (configs, demo_settings 64)
    ∧ pc_num_blocks <$> configs = [10; 10]
    ∧ get_kv_cache_configs two_bytes (demo_settings 64) demo_stages [4096; 2047] = Err ValueError.
Proof.
  pose proof (fixed_length_plan two_bytes (demo_settings 64) demo_stages [4096; 2560]) as H.
  rewrite demo_model_groups in H. destruct H as [H _]; [done|done|done|by apply demo_workers|done|].
  destruct H as (configs & m & E & HS).
  { intros x Hx. apply (demo_fits 64 64 [4096; 2560] x 2048); [done| |reflexivity].
    by apply elem_of_cons in Hx as [->| ->%list_elem_of_singleton]. }
  exists configs. split; [exact E|]. split.
  - assert (Ok (configs, demo_settings 64) = get_kv_cache_configs two_bytes (demo_settings 64) demo_stages [4096; 2560])
      as E' by (by rewrite E). vm_compute in E'. by injection E' as ->.
  - pose proof (fixed_length_plan two_bytes (demo_settings 64) demo_stages [4096; 2047]) as H2.
    rewrite demo_model_groups in H2. destruct H2 as [_ Hno]; [done|done|done|by apply demo_workers|done|]. apply Hno. intros Hall.
    destruct (Hall (stage2, 2047)) as (gs & need & Eg & En & Hle).
    { right. left. }
    vm_compute in Eg. injection Eg as <-. vm_compute in En. injection En as <-. cbn in Hle. lia.
Defined.

(** With room for four blocks the longest model has sixteen tokens. *)
Lemma auto_fit_plan_witness :
  ∃ configs, get_kv_cache_configs two_bytes (demo_settings (-1)) demo_stages [4096; 1024]
    = Ok (configs, with_max_model_len (demo_settings (-1)) 16).
Proof.
  pose proof (auto_fit_plan two_bytes (demo_settings (-1)) demo_stages [4096; 1024]) as H.
  rewrite demo_model_groups in H. destruct H as [H _]; [done|done|done|by apply demo_workers|done|].
  destruct H as (n & configs & m & Hn & Hall & E & _).
  { intros x Hx. apply (demo_fits (-1) 1 [4096; 1024] x 768); [done| |reflexivity].
    by apply elem_of_cons in Hx as [->| ->%list_elem_of_singleton]. }
  exists configs. assert (n = 16) as <-; [|exact E].
  assert (Ok (configs, with_max_model_len (demo_settings (-1)) n)
    = get_kv_cache_configs two_bytes (demo_settings (-1)) demo_stages [4096; 1024]) as E' by (by rewrite E).
  vm_compute in E'. congruence.
Defined.

Lemma hybrid_groups_partition_witness :
  ∃ groups size, _get_kv_cache_groups_uniform_page_size (stage1 ++ stage2) = Ok groups
    ∧ concat (pg_layer_names <$> groups) ≡ₚ (stage1 ++ stage2).*1
    ∧ ∀ g, g ∈ groups → planned (stage1 ++ stage2) size g.
Proof.
  destruct (hybrid_groups_partition (stage1 ++ stage2)) as (groups & size & E & Hp & _ & Hg).
  - done.
  - apply (bool_decide_unpack _). by vm_compute.
  - intros l [Hl|Hl]%elem_of_app.
    + destruct (demo_layers stage1 l ltac:(left) Hl) as [-> | ->]; by eexists.
    + destruct (demo_layers stage2 l ltac:(right; left) Hl) as [-> | ->]; by eexists.
  - by exists groups, size.
Defined.

(** ** Corner cases *)

(** [FullAttentionSpec.merge] does not compare [head_size_v]: a layer with larger
    values than the first is given pages that are too small. *)
Lemma merge_ignores_value_heads :
  let wide := FullAttentionSpec demo_attn (mkFull 8 None None) in
  merge [demo_full; wide] = Ok demo_full
  ∧ page_size_bytes two_bytes demo_full = Ok 256 ∧ page_size_bytes two_bytes wide = Ok 384.
Proof. by vm_compute. Qed.

(** Layers with two different windows make the test raise instead of answering. *)
Lemma uniform_test_raises :
  is_kv_cache_spec_uniform [("a", FullAttentionSpec demo_attn (mkFull 4 (Some 8) None));
    ("b", FullAttentionSpec demo_attn (mkFull 4 (Some 16) None))]%string = Err ValueError.
Proof. by vm_compute. Qed.

(** A padded page does not grow with the block size, so the pages cannot be
    unified and the assertion fails. *)
Lemma padded_page_not_unified :
  unify_kv_cache_spec_page_size two_bytes
    [("a", SlidingWindowSpec (mkAttention 16 1 4 "bfloat16" (Some 256)) 17);
     ("b", FullAttentionSpec (mkAttention 16 1 8 "bfloat16" None) (mkFull 8 None None))]%string = Err AssertionError.
Proof. by vm_compute. Qed.

(** A stage without KV-cache layers makes planning fail although the memory checks
    skip workers without groups. *)
Lemma empty_stage_fails :
  get_kv_cache_configs two_bytes (demo_settings 64) [stage1; []] [4096; 4096] = Err AssertionError.
Proof. by vm_compute. Qed.
