(* ===== verification/CacheHit.v ===== *)
(** * Prefix-cache lookups

    The [find_longest_cache_hit] class methods of
    vllm/v1/core/single_type_kv_cache_manager.py, one per attention type.  A
    result has one list of blocks per KV-cache group. *)

From S2P Require Import Prelude Blocks Request BlockHash HashMap BlockPool KVCacheSpec.

(** [computed.pop()] for every group. *)
Definition pop_all (computed : list (list ref)) : res (list (list ref)) :=
  rmap (λ l : list ref, match l with [] => Err IndexError | _ => Ok (removelast l) end) computed.

(** [computed_blocks[0]] *)
Definition first_group (computed : list (list ref)) : res (list ref) :=
  match computed with [] => Err IndexError | l :: _ => Ok l end.

(** [while block_size != alignment_tokens and
    len(computed_blocks[0]) * block_size % alignment_tokens != 0: pop].  Each
    turn shortens the lists, so their length bounds the turns. *)
Fixpoint align_loop (fuel : nat) (block_size alignment_tokens : Z) (computed : list (list ref))
    : res (list (list ref)) :=
  if block_size =? alignment_tokens then Ok computed else
  first ← first_group computed;
  m ← py_mod (zlen first * block_size) alignment_tokens;
  if m =? 0 then Ok computed else
  match fuel with
  | O => Err OutOfFuel
  | S fuel => computed ← pop_all computed; align_loop fuel block_size alignment_tokens computed
  end.

Definition align_computed (block_size alignment_tokens : Z) (computed : list (list ref))
    : res (list (list ref)) :=
  align_loop (length (default [] (head computed))) block_size alignment_tokens computed.

(** [if use_eagle and computed_blocks[0]: pop] *)
Definition eagle_pop (use_eagle : bool) (computed : list (list ref)) : res (list (list ref)) :=
  if negb use_eagle then Ok computed else
  first ← first_group computed;
  match first with [] => Ok computed | _ => pop_all computed end.

(** [for computed, cached in zip(computed_blocks, cached_block): computed.append(cached)] *)
Definition append_all (computed : list (list ref)) (cached : list ref) : list (list ref) :=
  zip_with (λ l b, l ++ [b]) computed cached.

Section lookups.
Context (hashes : BlockHashList) (max_length : Z) (kv_cache_group_ids : list Z) (p : BlockPool)
  (spec : LayerSpec) (use_eagle : bool) (alignment_tokens dcp_world_size pcp_world_size : Z).

(** A miss is [None] or an empty list. *)
Definition lookup_hash (h : bytes) : res (option (list ref)) :=
  c ← get_cached_block p h kv_cache_group_ids;
  Ok (match c with Some (_ :: _) => c | _ => None end).

(** [block_size], scaled by the context-parallel ranks. *)
Definition scaled_block_size : Z :=
  if 1 <? dcp_world_size * pcp_world_size
  then block_size spec * (dcp_world_size * pcp_world_size) else block_size spec.

(** ** Full attention *)

Fixpoint full_loop (hs : list bytes) (computed : list (list ref)) : res (list (list ref)) :=
  match hs with
  | [] => Ok computed
  | h :: hs =>
      c ← lookup_hash h;
      match c with
      | Some cached => full_loop hs (append_all computed cached)
      | None => Ok computed
      end
  end.

Definition is_chunked (s : LayerSpec) : bool :=
  match s with ChunkedLocalAttentionSpec _ _ => true | _ => false end.

Definition full_find_longest_cache_hit : res (list (list ref)) :=
  ASSERT is_full spec || is_chunked spec;
  let computed := replicate (length kv_cache_group_ids) [] in
  max_num_blocks ← py_div max_length scaled_block_size;
  RAISE ValueError IF max_num_blocks <? 0;
  hs ← bhl_iter hashes;
  computed ← full_loop (take (Z.to_nat max_num_blocks) hs) computed;
  computed ← eagle_pop use_eagle computed;
  align_computed scaled_block_size alignment_tokens computed.

(** ** Sliding window *)

(** [for i in range(max_num_blocks - 1, -1, -1)], from [i = k - 1] down; the
    result says whether a match was found. *)
Fixpoint sliding_loop (needed : Z) (k : nat) (computed : list (list ref))
    (num_contiguous_blocks : Z) : res (list (list ref) * Z * bool) :=
  match k with
  | O => Ok (computed, num_contiguous_blocks, false)
  | S k' =>
      let i := Z.of_nat k' in
      h ← bhl_get hashes i;
      c ← lookup_hash h;
      match c with
      | Some cached =>
          skip ← (if (num_contiguous_blocks =? 0) && negb (block_size spec =? alignment_tokens)
                  then m ← py_mod ((i + 1) * block_size spec) alignment_tokens; Ok (negb (m =? 0))
                  else Ok false);
          if skip : bool then sliding_loop needed k' computed num_contiguous_blocks else
          let computed := zip_with (λ l b, <[k' := b]> l) computed cached in
          let num_contiguous_blocks := num_contiguous_blocks + 1 in
          if needed <=? num_contiguous_blocks then
            Ok ((λ l, py_upto l (i + num_contiguous_blocks)) <$> computed,
                num_contiguous_blocks, true)
          else sliding_loop needed k' computed num_contiguous_blocks
      | None => sliding_loop needed k' computed 0
      end
  end.

Definition sliding_find_longest_cache_hit : res (list (list ref)) :=
  match spec with
  | SlidingWindowSpec a sliding_window =>
      ASSERT dcp_world_size =? 1;
      ASSERT pcp_world_size =? 1;
      RAISE ZeroDivisionError IF a_block_size a =? 0;
      let contiguous := cdiv (sliding_window - 1) (a_block_size a) in
      let needed := if use_eagle then contiguous + 1 else contiguous in
      let max_num_blocks := max_length / a_block_size a in
      let computed :=
        replicate (length kv_cache_group_ids) (zreplicate max_num_blocks (null_block p)) in
      '(computed, num_contiguous_blocks, match_found) ←
        sliding_loop needed (Z.to_nat max_num_blocks) computed 0;
      computed ← (if match_found : bool then Ok computed else
                  align_computed (a_block_size a) alignment_tokens
                    ((λ l, py_upto l num_contiguous_blocks) <$> computed));
      if negb use_eagle then Ok computed else
      first ← first_group computed;
      match first with
      | [] => Ok computed
      | _ => computed ← pop_all computed; align_computed (a_block_size a) alignment_tokens computed
      end
  | _ => Err AssertionError
  end.

(** ** Chunked local attention *)

(** [for i in range(start, max_num_blocks)], [n] turns from [i]. *)
Fixpoint chunked_loop (n : nat) (i : Z) (computed : list (list ref)) : res (list (list ref)) :=
  match n with
  | O => Ok computed
  | S n =>
      h ← bhl_get hashes i;
      c ← lookup_hash h;
      match c with
      | Some cached => chunked_loop n (i + 1) (append_all computed cached)
      | None => Ok computed
      end
  end.

Definition chunked_find_longest_cache_hit : res (list (list ref)) :=
  match spec with
  | ChunkedLocalAttentionSpec a chunk =>
      ASSERT negb use_eagle;
      ASSERT dcp_world_size =? 1;
      ASSERT pcp_world_size =? 1;
      ASSERT a_block_size a =? alignment_tokens;
      max_num_blocks ← py_div max_length (a_block_size a);
      start_idx ← (if 0 <? max_length then q ← py_div max_length chunk; Ok (q * chunk) else Ok 0);
      let start_block := start_idx / a_block_size a in
      let computed :=
        replicate (length kv_cache_group_ids) (zreplicate start_block (null_block p)) in
      chunked_loop (Z.to_nat (max_num_blocks - start_block)) start_block computed
  | _ => Err AssertionError
  end.

(** ** Mamba *)

Fixpoint mamba_loop (k : nat) : res (list (list ref)) :=
  match k with
  | O => Ok (replicate (length kv_cache_group_ids) [])
  | S k' =>
      let i := Z.of_nat k' in
      h ← bhl_get hashes i;
      c ← lookup_hash h;
      match c with
      | Some cached =>
          skip ← (if negb (block_size spec =? alignment_tokens)
                  then m ← py_mod ((i + 1) * block_size spec) alignment_tokens; Ok (negb (m =? 0))
                  else Ok false);
          if skip : bool then mamba_loop k'
          else Ok ((λ b, zreplicate i (null_block p) ++ [b]) <$> (cached : list ref))
      | None => mamba_loop k'
      end
  end.

Definition mamba_find_longest_cache_hit : res (list (list ref)) :=
  ASSERT is_mamba spec;
  ASSERT dcp_world_size =? 1;
  ASSERT pcp_world_size =? 1;
  max_num_blocks ← py_div max_length (block_size spec);
  mamba_loop (Z.to_nat max_num_blocks).

Definition cross_find_longest_cache_hit : res (list (list ref)) :=
  match spec with CrossAttentionSpec _ => Err NotImplementedError | _ => Err AssertionError end.

(** ** Dispatch on [spec_manager_map[type(spec)]] *)
Definition find_longest_cache_hit : res (list (list ref)) :=
  match spec with
  | FullAttentionSpec _ _ | MLAAttentionSpec _ _ _ | SinkFullAttentionSpec _ _ _ =>
      full_find_longest_cache_hit
  | SlidingWindowSpec _ _ => sliding_find_longest_cache_hit
  | ChunkedLocalAttentionSpec _ _ => chunked_find_longest_cache_hit
  | MambaSpec _ => mamba_find_longest_cache_hit
  | CrossAttentionSpec _ => cross_find_longest_cache_hit
  | EncoderOnlyAttentionSpec _ => Err KeyError
  end.
End lookups.
