(* ===== verification/HitProps.v ===== *)
(** * What the prefix-cache lookups return

    Specifications of CacheHit.v.  A lookup of one hash returns one block per
    KV-cache group, or misses; the lookups over a request are described by the
    list of these columns, which [per_group] turns into one list per group. *)

From S2P Require Import Prelude Blocks Request BlockHash HashMap BlockPool PoolInv PoolProps KVCacheSpec CacheHit.

(** ** One hash *)

(** The lookup of [h] in the pool, with exceptions read as a miss. *)
Definition hit_of (gids : list Z) (p : BlockPool) (h : bytes) : option (list ref) :=
  match lookup_hash gids p h with Ok o => o | Err _ => None end.

(** Valid, non-empty group ids. *)
Definition groups_ok (gids : list Z) : Prop := gids ≠ [] ∧ Forall (λ g, 0 ≤ g < 2 ^ 32) gids.

(** The blocks registered for [h], one per group. *)
Definition blocks_for (p : BlockPool) (h : bytes) : list Z → list ref → Prop :=
  Forall2 (λ g b, b ∈ blocks p ∧ block_hash (p_store p b) = Some (h ++ be_encode 4 g)).

(** A pool whose index lists exactly its hashed blocks. *)
Definition indexed (p : BlockPool) : Prop :=
  Idx.map_wf (p_store p) (cached_block_hash_to_block p)
  ∧ ∀ key r, (r ∈ (Idx.blocks_of (p_store p) (cached_block_hash_to_block p) key).*2) ↔
      r ∈ blocks p ∧ block_hash (p_store p r) = Some key.

Lemma PoolInv_indexed R own p fl : PoolInv R own p fl → indexed p.
Proof. intros [_ _ H]. split; apply H. Qed.

Lemma get_cached_block_spec p h gids :
  indexed p → Forall (λ g, 0 ≤ g < 2 ^ 32) gids →
  ∃ o, get_cached_block p h gids = Ok o ∧
    match o with
    | Some bs => blocks_for p h gids bs
    | None => ∃ g, g ∈ gids ∧
        ∀ b, b ∈ blocks p → block_hash (p_store p b) ≠ Some (h ++ be_encode 4 g)
    end.
Proof.
  intros [Hwf Hidx]. induction 1 as [|g gids Hg _ IH]; cbn [get_cached_block].
  { exists (Some []). split; [done|constructor]. }
  rewrite make_key_total by done. cbn [mbind res_bind].
  rewrite (Idx.get_one_block_spec (p_store p)) by done. cbn [mbind res_bind].
  specialize (Hidx (h ++ be_encode 4 g)).
  destruct (Idx.blocks_of _ _ _).*2 as [|b bs] eqn:E; cbn [head].
  - exists None. split; [done|]. exists g. split; [by left|]. intros b Hb Hh.
    eapply elem_of_nil, Hidx; eauto.
  - destruct IH as (o & -> & Ho). destruct o as [l|]; eexists; (split; [done|]).
    + constructor; [|done]. apply Hidx. by left.
    + destruct Ho as (g' & ? & ?). exists g'. split; [by right|done].
Qed.

(** A lookup never raises; a hit has one registered block per group and a miss
    means that some group has none. *)
Lemma lookup_hash_spec gids p h :
  indexed p → groups_ok gids →
  lookup_hash gids p h = Ok (hit_of gids p h) ∧
  match hit_of gids p h with
  | Some bs => blocks_for p h gids bs
  | None => ∃ g, g ∈ gids ∧
      ∀ b, b ∈ blocks p → block_hash (p_store p b) ≠ Some (h ++ be_encode 4 g)
  end.
Proof.
  intros Hp [Hne Hg]. unfold hit_of, lookup_hash.
  destruct (get_cached_block_spec p h gids Hp Hg) as (o & -> & Ho). cbn [mbind res_bind].
  split; [done|]. destruct o as [[|b l]|]; [|done|done].
  by apply Forall2_nil_inv_r in Ho.
Qed.

Lemma hit_length gids p h bs :
  indexed p → groups_ok gids → hit_of gids p h = Some bs → length bs = length gids.
Proof.
  intros Hp Hg E. destruct (lookup_hash_spec gids p h Hp Hg) as [_ H]. rewrite E in H.
  symmetry. by eapply Forall2_length.
Qed.

(** ** Columns to groups *)

(** Group [j] gets the [j]-th block of every column. *)
Definition per_group (k : nat) (cols : list (list ref)) : list (list ref) :=
  (λ j, omap (λ c : list ref, c !! j) cols) <$> seq 0 k.

Definition cols_ok (k : nat) (cols : list (list ref)) : Prop := Forall (λ c, length c = k) cols.

Lemma per_group_0 k : per_group k [] = replicate k [].
Proof.
  unfold per_group. cbn. generalize 0%nat. induction k as [|k IH]; intros n; cbn; [done|].
  f_equal. apply IH.
Qed.

Lemma length_per_group k cols : length (per_group k cols) = k.
Proof. unfold per_group. by rewrite length_fmap, length_seq. Qed.

Lemma omap_cols k j cols :
  cols_ok k cols → (j < k)%nat → ∀ i, omap (λ c : list ref, c !! j) cols !! i = cols !! i ≫= (λ c, c !! j).
Proof.
  intros H Hj. induction H as [|c cols Hc _ IH]; intros i; [by destruct i|].
  destruct (lookup_lt_is_Some_2 c j) as [x Hx]; [lia|]. cbn. rewrite Hx.
  destruct i; cbn; [done|apply IH].
Qed.

Lemma per_group_lookup k cols j :
  (j < k)%nat → per_group k cols !! j = Some (omap (λ c : list ref, c !! j) cols).
Proof. intros. unfold per_group. by rewrite list_lookup_fmap, lookup_seq_lt. Qed.

Lemma length_omap_cols k j cols :
  cols_ok k cols → (j < k)%nat → length (omap (λ c : list ref, c !! j) cols) = length cols.
Proof.
  intros H Hj. induction H as [|c cols Hc _ IH]; [done|].
  destruct (lookup_lt_is_Some_2 c j) as [x Hx]; [lia|]. cbn. rewrite Hx. cbn. by rewrite IH.
Qed.

(** Mapping the groups position-wise is a change of the columns. *)
Lemma per_group_map k (f : list ref → list ref) cols cols' :
  (∀ j, (j < k)%nat → f (omap (λ c : list ref, c !! j) cols) = omap (λ c : list ref, c !! j) cols') →
  f <$> per_group k cols = per_group k cols'.
Proof.
  intros H. unfold per_group. rewrite <- list_fmap_compose. apply list_fmap_ext.
  intros i j [-> ?]%lookup_seq. cbn. by apply H.
Qed.

Lemma per_group_zip k (f : list ref → ref → list ref) cols c cols' :
  length c = k →
  (∀ j b, (j < k)%nat → c !! j = Some b →
     f (omap (λ c : list ref, c !! j) cols) b = omap (λ c : list ref, c !! j) cols') →
  zip_with f (per_group k cols) c = per_group k cols'.
Proof.
  intros Hc H. apply list_eq_same_length with k.
  - by rewrite length_per_group.
  - rewrite length_zip_with, length_per_group. lia.
  - intros j x y Hj. rewrite lookup_zip_with, !per_group_lookup by done. cbn.
    destruct (c !! j) as [b|] eqn:E; [|done]. cbn. intros [= <-] [= <-]. by apply H.
Qed.

Lemma append_all_cols k cols c :
  length c = k → append_all (per_group k cols) c = per_group k (cols ++ [c]).
Proof.
  intros Hc. apply per_group_zip; [done|]. intros j b Hj Hb. rewrite omap_app. cbn. by rewrite Hb.
Qed.

Lemma set_cols k cols c i :
  cols_ok k cols → length c = k → (i < length cols)%nat →
  zip_with (λ l b, <[i := b]> l) (per_group k cols) c = per_group k (<[i := c]> cols).
Proof.
  intros Hk Hc Hi. apply per_group_zip; [done|]. intros j b Hj Hb. apply list_eq. intros i'.
  assert (cols_ok k (<[i := c]> cols)) by (by apply Forall_insert).
  rewrite (omap_cols k) by done. destruct (decide (i = i')) as [<-|Hne].
  - rewrite !list_lookup_insert_eq; [by cbn|done|]. by rewrite (length_omap_cols k).
  - rewrite !list_lookup_insert_ne by done. by rewrite (omap_cols k).
Qed.

Lemma upto_cols k cols n :
  cols_ok k cols → 0 ≤ n → (λ l, py_upto l n) <$> per_group k cols = per_group k (take (Z.to_nat n) cols).
Proof.
  intros Hk Hn. apply per_group_map. intros j Hj. rewrite py_upto_nonneg by done.
  assert (cols_ok k (take (Z.to_nat n) cols)) by (by apply Forall_take).
  apply list_eq. intros i. rewrite (omap_cols k) by done.
  destruct (decide (i < Z.to_nat n)%nat).
  - rewrite !lookup_take_lt by done. by apply omap_cols with k.
  - by rewrite !lookup_take_ge by lia.
Qed.

Lemma take_cols k n cols : cols_ok k cols → cols_ok k (take n cols).
Proof. apply Forall_take. Qed.
#[local] Hint Resolve take_cols : core.

Lemma first_cols k cols : (0 < k)%nat →
  first_group (per_group k cols) = Ok (omap (λ c : list ref, c !! 0%nat) cols).
Proof. intros. destruct k; [lia|done]. Qed.

Lemma first_cols_len k cols first :
  (0 < k)%nat → cols_ok k cols → first_group (per_group k cols) = Ok first → zlen first = zlen cols.
Proof.
  intros Hk Hc. rewrite first_cols by done. intros [= <-]. unfold zlen.
  by rewrite (length_omap_cols k).
Qed.

Lemma pop_cols k cols :
  cols_ok k cols → cols ≠ [] → pop_all (per_group k cols) = Ok (per_group k (take (length cols - 1) cols)).
Proof.
  intros Hk Hne. unfold pop_all. rewrite (rmap_Ok _ (λ l, take (length cols - 1) l)).
  - f_equal. replace (length cols - 1)%nat with (Z.to_nat (Z.of_nat (length cols - 1))) by lia.
    rewrite <- (upto_cols k) by (done || lia). apply list_fmap_ext. intros ? l _.
    by rewrite py_upto_nonneg by lia.
  - intros l (j & -> & Hj%elem_of_seq)%list_elem_of_fmap.
    pose proof (length_omap_cols k j cols Hk ltac:(lia)) as Hlen.
    destruct (omap _ cols) as [|b l] eqn:E.
    + destruct cols; [done|]. done.
    + rewrite <- Hlen, removelast_firstn_len. do 2 f_equal. lia.
Qed.

(** The alignment loop ends at the longest aligned prefix. *)
Lemma align_loop_cols k bs al fuel cols :
  (0 < k)%nat → 0 < al → cols_ok k cols → (length cols ≤ fuel)%nat →
  ∃ n, align_loop fuel bs al (per_group k cols) = Ok (per_group k (take n cols))
    ∧ (n ≤ length cols)%nat ∧ (al | Z.of_nat n * bs)
    ∧ ∀ m, (m ≤ length cols)%nat → (al | Z.of_nat m * bs) → (m ≤ n)%nat.
Proof.
  intros Hk Hal. revert cols. induction fuel as [|fuel IH]; intros cols Hc Hf;
    cbn [align_loop]; (case_match eqn:Eb; to_prop;
      [exists (length cols); subst; rewrite firstn_all;
       repeat split; auto; apply Z.divide_factor_r|]);
    destruct (first_group (per_group k cols)) as [first|] eqn:Ef;
      try (by rewrite first_cols in Ef by done);
    cbn [mbind res_bind]; rewrite (first_cols_len k cols) by done;
    unfold py_mod; rewrite (proj2 (Z.eqb_neq al 0)) by lia; cbn [mbind res_bind];
    (case_match eqn:Em; to_prop;
      [exists (length cols); rewrite firstn_all; repeat split; auto;
       apply Z.mod_divide; [lia|done]|]).
  - destruct cols; [|cbn in Hf; lia]. by destruct Em; unfold zlen; cbn [length]; rewrite Z.mul_0_l, Zmod_0_l.
  - assert (cols ≠ []) as Hne by (intros ->; by destruct Em; unfold zlen; cbn [length]; rewrite Z.mul_0_l, Zmod_0_l).
    assert (0 < length cols)%nat by (destruct cols; [done|cbn; lia]).
    rewrite pop_cols by done. cbn [mbind res_bind].
    destruct (IH (take (length cols - 1) cols)) as (n & Hr & Hn & Hd & Hm); [auto| |].
    { rewrite length_take. lia. }
    rewrite length_take in Hn, Hm. exists n. rewrite Hr, take_take. repeat split; [|lia|done|].
    + do 3 f_equal. lia.
    + intros m Hm1 Hm2. destruct (decide (m = length cols)) as [->|].
      * destruct Em. by apply Z.mod_divide; [lia|].
      * apply Hm; [lia|done].
Qed.

Lemma align_cols k bs al cols :
  (0 < k)%nat → 0 < al → cols_ok k cols →
  ∃ n, align_computed bs al (per_group k cols) = Ok (per_group k (take n cols))
    ∧ (n ≤ length cols)%nat ∧ (al | Z.of_nat n * bs)
    ∧ ∀ m, (m ≤ length cols)%nat → (al | Z.of_nat m * bs) → (m ≤ n)%nat.
Proof.
  intros Hk Hal Hc. apply align_loop_cols; [done..|].
  destruct k; [lia|]. cbn. by rewrite (length_omap_cols (S k)) by (done || lia).
Qed.

Lemma eagle_cols k use_eagle cols :
  (0 < k)%nat → cols_ok k cols →
  eagle_pop use_eagle (per_group k cols) =
    Ok (per_group k (take (length cols - (if use_eagle then 1 else 0)) cols)).
Proof.
  intros Hk Hc. unfold eagle_pop. destruct use_eagle; cbn [negb].
  2: { by rewrite Nat.sub_0_r, firstn_all. }
  rewrite first_cols by done. cbn [mbind res_bind].
  pose proof (length_omap_cols k 0 cols Hc Hk) as Hl.
  destruct (omap _ cols) eqn:E.
  - destruct cols; [done|done].
  - apply pop_cols; [done|]. by intros ->.
Qed.

(** ** Specification vocabulary *)

Section specs.
Context (gids : list Z) (p : BlockPool) (L : list bytes).

(** Block [i] of the request is cached in every group, as column [c]. *)
Definition cached_as (i : nat) (c : list ref) : Prop :=
  ∃ h, L !! i = Some h ∧ hit_of gids p h = Some c.
Definition cached (i : nat) : Prop := ∃ c, cached_as i c.

(** The columns [cols] hold the cached blocks at the positions [a ≤ i < b]. *)
Definition holds (cols : list (list ref)) (a b : nat) : Prop :=
  ∀ i, (a ≤ i < b)%nat → ∃ c, cols !! i = Some c ∧ cached_as i c.

Lemma holds_cached cols a b i : holds cols a b → (a ≤ i < b)%nat → cached i.
Proof. intros H Hi. destruct (H i Hi) as (c & _ & ?). by exists c. Qed.

Lemma holds_take cols a b n : (b ≤ n)%nat → holds cols a b → holds (take n cols) a b.
Proof. intros Hn H i Hi. rewrite lookup_take_lt by lia. by apply H. Qed.

Lemma holds_sub cols a b a' b' :
  (a ≤ a')%nat → (b' ≤ b)%nat → holds cols a b → holds cols a' b'.
Proof. intros ? ? H i Hi. apply H. lia. Qed.
End specs.

(** ** Full attention *)

Section full.
Context (gids : list Z) (p : BlockPool) (Hp : indexed p) (Hg : groups_ok gids).
Abbreviation k := (length gids).

Lemma groups_pos : (0 < k)%nat.
Proof. destruct Hg as [? _]. destruct gids; [done|cbn; lia]. Qed.

Lemma full_loop_spec hs L cols :
  cols_ok k cols → drop (length cols) L = hs → holds gids p L cols 0 (length cols) →
  ∃ cols', full_loop gids p hs (per_group k cols) = Ok (per_group k cols')
    ∧ cols_ok k cols' ∧ holds gids p L cols' 0 (length cols')
    ∧ (length cols' ≤ length cols + length hs)%nat ∧ (length cols ≤ length cols')%nat
    ∧ ((length cols' < length cols + length hs)%nat → ¬ cached gids p L (length cols')).
Proof.
  revert cols. induction hs as [|h hs IH]; intros cols Hc Hd Hh; cbn [full_loop].
  { exists cols. repeat split; [done|done|lia|lia|cbn; lia]. }
  assert (L !! length cols = Some h) as HL.
  { by rewrite <- (Nat.add_0_r (length cols)), <- lookup_drop, Hd. }
  destruct (lookup_hash_spec gids p h Hp Hg) as [-> _]. cbn [mbind res_bind].
  destruct (hit_of gids p h) as [c|] eqn:E.
  - pose proof (hit_length _ _ _ _ Hp Hg E) as Hlc. rewrite append_all_cols by done.
    destruct (IH (cols ++ [c])) as (cols' & Hr & H1 & H2 & H3 & H4 & H5).
    + apply Forall_app. split; [done|]. by constructor.
    + rewrite length_app. cbn. by rewrite <- drop_drop, Hd.
    + intros i Hi. rewrite length_app in Hi. cbn in Hi.
      destruct (decide (i = length cols)) as [->|].
      * exists c. rewrite list_lookup_middle by done. split; [done|by exists h].
      * rewrite lookup_app_l by lia. apply Hh. lia.
    + exists cols'. rewrite length_app in H3, H4, H5. cbn in *.
      repeat split; try done; try lia. intros ?. apply H5. lia.
  - exists cols. repeat split; try done; try lia. intros _ (c & h' & HL' & Hc'). congruence.
Qed.
End full.

Definition eagle_extra (use_eagle : bool) : nat := if use_eagle then 1 else 0.

Lemma full_hit_spec hashes max_length gids p spec use_eagle al dcp pcp L :
  indexed p → groups_ok gids → bhl_views hashes L →
  is_full spec || is_chunked spec = true →
  0 < scaled_block_size spec dcp pcp → 0 < al → 0 ≤ max_length →
  let bs := scaled_block_size spec dcp pcp in
  let e := eagle_extra use_eagle in
  ∃ cols,
    full_find_longest_cache_hit hashes max_length gids p spec use_eagle al dcp pcp
      = Ok (per_group (length gids) cols)
    ∧ cols_ok (length gids) cols
    ∧ holds gids p L cols 0 (length cols)
    ∧ (al | zlen cols * bs)
    ∧ zlen cols * bs ≤ max_length
    ∧ (cols ≠ [] → ∀ i, (i < length cols + e)%nat → cached gids p L i)
    ∧ ∀ m : nat, (al | Z.of_nat m * bs) → Z.of_nat (m + e) * bs ≤ max_length →
        (∀ i, (i < m + e)%nat → cached gids p L i) → (m ≤ length cols)%nat.
Proof.
  intros Hp Hg HL Hs Hbs Hal Hmax bs e. unfold full_find_longest_cache_hit. rewrite Hs.
  fold bs in Hbs. unfold py_div. fold bs. rewrite (proj2 (Z.eqb_neq bs 0)) by lia.
  cbn [mbind res_bind]. assert (0 ≤ max_length / bs) by (by apply Z.div_pos).
  rewrite (proj2 (Z.ltb_ge _ _)) by done. rewrite (bv_iter _ _ HL). cbn [mbind res_bind].
  rewrite <- per_group_0. pose proof (groups_pos gids Hg) as Hk.
  set (N := Z.to_nat (max_length / bs)).
  assert (Z.of_nat N * bs ≤ max_length) as HN.
  { unfold N. rewrite Z2Nat.id by done. rewrite Z.mul_comm. by apply Z.mul_div_le. }
  assert (∀ i, (i < N)%nat → cached gids p (take N L) i ↔ cached gids p L i) as Htake.
  { intros i Hi. unfold cached, cached_as. by setoid_rewrite (lookup_take_lt L N i Hi). }
  destruct (full_loop_spec gids p Hp Hg (take N L) (take N L) []) as (c0 & -> & H1 & H2 & H3 & _ & H5);
    [constructor|done|intros i Hi; cbn in Hi; lia|]. cbn [length] in H3, H5.
  cbn [mbind res_bind]. rewrite eagle_cols by done. fold e. cbn [mbind res_bind].
  change (if use_eagle then 1%nat else 0%nat) with e.
  destruct (align_cols (length gids) bs al (take (length c0 - e) c0)) as (n & -> & Hn & Hd & Hm);
    [done|done|by apply take_cols|]. rewrite length_take in Hn, Hm.
  rewrite take_take, Nat.min_l by lia. rewrite length_take in H3, H5.
  assert (length (take n c0) = n) as Hlen by (rewrite length_take; lia).
  exists (take n c0). unfold zlen. rewrite Hlen.
  assert (holds gids p L c0 0 (length c0)) as H2'.
  { intros i Hi. destruct (H2 i Hi) as (c & Hc & h & Hh & Hhit). exists c. split; [done|].
    exists h. split; [|done]. rewrite lookup_take_lt in Hh by lia. done. }
  split; [done|]. split; [by apply take_cols|]. split.
  { apply holds_take; [lia|]. by apply (holds_sub _ _ _ _ 0 (length c0)); [|lia|]. }
  split; [done|]. split; [nia|]. split.
  - intros Hne i Hi. apply (holds_cached _ _ _ _ _ _ i H2').
    destruct n; [done|]. lia.
  - intros m Hal' Hm1 Hm2. apply Hm; [|done].
    assert (m + e ≤ N)%nat by (unfold N in *; apply Nat2Z.inj_le; rewrite Z2Nat.id by done;
      apply Z.div_le_lower_bound; lia).
    destruct (decide (m + e ≤ length c0)%nat); [lia|]. exfalso.
    assert (cached gids p L (length c0)) as Hc0 by (apply Hm2; lia).
    assert (length c0 < length L)%nat.
    { destruct Hc0 as (? & ? & ?%lookup_lt_Some & _). done. }
    eapply H5; [|apply Htake; [lia|exact Hc0]]. lia.
Qed.

(** C28: the full-attention lookup never raises and returns, for every group, the
    blocks of the longest cached prefix: its length in tokens is aligned and at
    most the maximum, all its blocks are registered for the request's hashes in
    their group, and every aligned prefix that is cached together with the block
    EAGLE drops is no longer. *)
Theorem full_hit_is_longest hashes max_length gids p spec use_eagle al dcp pcp L :
  indexed p → groups_ok gids → bhl_views hashes L →
  is_full spec || is_chunked spec = true →
  0 < scaled_block_size spec dcp pcp → 0 < al → 0 ≤ max_length →
  let bs := scaled_block_size spec dcp pcp in
  let e := eagle_extra use_eagle in
  ∃ cols,
    full_find_longest_cache_hit hashes max_length gids p spec use_eagle al dcp pcp
      = Ok (per_group (length gids) cols)
    ∧ holds gids p L cols 0 (length cols)
    ∧ (al | zlen cols * bs)
    ∧ zlen cols * bs ≤ max_length
    ∧ (cols ≠ [] → ∀ i, (i < length cols + e)%nat → cached gids p L i)
    ∧ ∀ m : nat, (al | Z.of_nat m * bs) → Z.of_nat (m + e) * bs ≤ max_length →
        (∀ i, (i < m + e)%nat → cached gids p L i) → (m ≤ length cols)%nat.
Proof.
  intros. destruct (full_hit_spec hashes max_length gids p spec use_eagle al dcp pcp L) as (cols & ? & _ & ?); [done..|]. by exists cols.
Qed.

(** ** Sliding window *)

(** No hit can end at block [m]: one of the [w] blocks before it is not cached. *)
Definition refuted (gids : list Z) (p : BlockPool) (L : list bytes) (w m : nat) : Prop :=
  ∃ i, (m ≤ i + w ∧ i < m)%nat ∧ ¬ cached gids p L i.

Section sliding.
Context (gids : list Z) (p : BlockPool) (Hp : indexed p) (Hg : groups_ok gids).
Context (hashes : BlockHashList) (L : list bytes) (HL : bhl_views hashes L).
Context (spec : LayerSpec) (al : Z) (Hal : 0 < al).
Abbreviation bs := (block_size spec).
Abbreviation k := (length gids).
Abbreviation loop := (sliding_loop hashes gids p spec al).

(** The scan at block [n], with a run of [c] cached blocks to its right. *)
Record scan_inv (w N n c : nat) (cols : list (list ref)) : Prop := {
  si_cols : cols_ok k cols;
  si_len : length cols = N;
  si_end : (n + c ≤ N)%nat;
  si_run : holds gids p L cols n (n + c);
  si_aligned : c = 0%nat ∨ (al | Z.of_nat (n + c) * bs);
  si_refuted : ∀ m, (n + c < m ≤ N)%nat → (al | Z.of_nat m * bs) → refuted gids p L w m;
  si_short : (c < w)%nat;
}.

Lemma scan_skip w N n cols :
  scan_inv w N (S n) 0 cols → ¬ (al | Z.of_nat (S n) * bs) → scan_inv w N n 0 cols.
Proof.
  intros [] Hna. split; try done; try lia.
  - intros i Hi. lia.
  - intros m Hm Hd. destruct (decide (m = S n)) as [->|]; [done|]. apply si_refuted0; [lia|done].
Qed.

Lemma scan_miss w N n c cols :
  scan_inv w N (S n) c cols → ¬ cached gids p L n → scan_inv w N n 0 cols.
Proof.
  intros [] Hna. split; try done; try lia.
  - intros i Hi. lia.
  - intros m Hm Hd. destruct (decide (S n + c < m)%nat); [apply si_refuted0; [lia|done]|].
    exists n. split; [lia|done].
Qed.

Lemma holds_extend n c cols x :
  (n < length cols)%nat → holds gids p L cols (S n) (S n + c) → cached_as gids p L n x →
  holds gids p L (<[n := x]> cols) n (n + S c).
Proof.
  intros Hn H Hx i Hi. destruct (decide (i = n)) as [->|].
  - exists x. by rewrite list_lookup_insert_eq.
  - rewrite list_lookup_insert_ne by done. apply H. lia.
Qed.

Lemma scan_hit w N n c cols x :
  scan_inv w N (S n) c cols → cached_as gids p L n x → length x = k →
  (c = 0%nat → (al | Z.of_nat (S n) * bs)) → (S c < w)%nat →
  scan_inv w N n (S c) (<[n := x]> cols).
Proof.
  intros [] Hx Hk Ha Hw. split.
  - by apply Forall_insert.
  - by rewrite length_insert.
  - lia.
  - apply holds_extend; [lia|done..].
  - right. replace (n + S c)%nat with (S n + c)%nat by lia.
    destruct si_aligned0 as [->|]; [|done]. rewrite Nat.add_0_r. by apply Ha.
  - intros m Hm. apply si_refuted0. lia.
  - done.
Qed.

(** What the scan has established when it stops, for the end [e] of its hit. *)
Definition scan_done (w N e : nat) (cols : list (list ref)) (c : nat) (found : bool) : Prop :=
  cols_ok k cols ∧ (e ≤ N)%nat ∧ (al | Z.of_nat e * bs)
  ∧ (∀ m, (e < m ≤ N)%nat → (al | Z.of_nat m * bs) → refuted gids p L w m)
  ∧ if found then length cols = e ∧ c = w ∧ (w ≤ e)%nat ∧ holds gids p L cols (e - w) e
    else length cols = N ∧ c = e ∧ holds gids p L cols 0 e.

Lemma sliding_loop_spec w N n : ∀ c cols,
  (0 < w)%nat → (N ≤ length L)%nat → (n ≤ N)%nat → scan_inv w N n c cols →
  ∃ e cols' c' found,
    loop (Z.of_nat w) n (per_group k cols) (Z.of_nat c)
      = Ok (per_group k cols', Z.of_nat c', found)
    ∧ scan_done w N e cols' c' found.
Proof.
  induction n as [|n IH]; intros c cols Hw HN Hn Hi; cbn [sliding_loop].
  { exists c, cols, c, false. split; [done|]. destruct Hi. repeat split; try done.
    destruct si_aligned0 as [->|]; [apply Z.divide_0_r|done]. }
  destruct (lookup_lt_is_Some_2 L n) as [h Hh]; [lia|].
  rewrite (bv_get _ _ HL _ _ Hh). cbn [mbind res_bind].
  destruct (lookup_hash_spec gids p h Hp Hg) as [-> _]. cbn [mbind res_bind].
  destruct (hit_of gids p h) as [x|] eqn:E.
  2: { apply (IH 0%nat); [done|done|lia|]. apply (scan_miss w N n c); [done|].
       intros (x & h' & ? & ?). congruence. }
  assert (cached_as gids p L n x) as Hx by (by exists h).
  pose proof (hit_length _ _ _ _ Hp Hg E) as Hxk.
  assert (∃ skip : bool, (if (Z.of_nat c =? 0) && negb (bs =? al)
     then m ← py_mod ((Z.of_nat n + 1) * bs) al; Ok (negb (m =? 0)) else Ok false) = Ok skip
     ∧ (if skip then c = 0%nat ∧ ¬ (al | Z.of_nat (S n) * bs)
        else c = 0%nat → (al | Z.of_nat (S n) * bs))) as (skip & -> & Hskip).
  { destruct (_ && _) eqn:Eb; to_prop.
    - unfold py_mod. rewrite (proj2 (Z.eqb_neq al 0)) by lia. cbn [mbind res_bind].
      eexists. split; [done|]. replace (Z.of_nat (S n)) with (Z.of_nat n + 1) by lia.
      pose proof (Z.mod_divide ((Z.of_nat n + 1) * bs) al ltac:(lia)) as Hmd.
      destruct (_ =? 0) eqn:Em; cbn [negb]; to_prop; [by intros _; apply Hmd|].
      split; [lia|by rewrite <- Hmd].
    - exists false. split; [done|]. intros ->. apply negb_false_iff in Eb. to_prop.
      rewrite Eb. apply Z.divide_factor_r. }
  cbn [mbind res_bind]. destruct skip.
  { destruct Hskip as [-> Hna]. apply (IH 0%nat); [done|done|lia|]. by apply scan_skip. }
  rewrite set_cols; [|apply Hi|done|rewrite (si_len _ _ _ _ _ Hi); lia].
  replace (Z.of_nat c + 1) with (Z.of_nat (S c)) by lia.
  destruct (_ <=? _) eqn:Ew; to_prop.
  - rewrite upto_cols; [|apply Forall_insert; [apply Hi|done]|lia].
    assert (w = S c) as -> by (pose proof (si_short _ _ _ _ _ Hi); lia). destruct Hi.
    exists (S n + c)%nat. replace (Z.to_nat (Z.of_nat n + Z.of_nat (S c))) with (S n + c)%nat by lia.
    eexists _, (S c), true. split; [done|]. repeat split.
    + apply Forall_take. by apply Forall_insert.
    + lia.
    + destruct si_aligned0 as [->|]; [|done]. rewrite Nat.add_0_r. by apply Hskip.
    + intros m Hm. apply si_refuted0. lia.
    + rewrite length_take, length_insert. lia.
    + lia.
    + apply holds_take; [lia|]. replace (S n + c - S c)%nat with n by lia.
      replace (S n + c)%nat with (n + S c)%nat by lia. apply holds_extend; [lia|done..].
  - apply IH; [done|done|lia|]. apply scan_hit; [done|done|done|done|lia].
Qed.
End sliding.

(** Block [i] holds a token that the token after the first [n] blocks attends to
    in a window of [sw] tokens. *)
Definition in_window (bs sw : Z) (n i : nat) : Prop :=
  Z.of_nat n * bs - sw + 1 < (Z.of_nat i + 1) * bs.

Lemma in_window_blocks bs sw n i :
  0 < bs → 1 < sw → in_window bs sw n i ↔ (n ≤ i + Z.to_nat (cdiv (sw - 1) bs))%nat.
Proof.
  intros Hb Hs. unfold in_window. pose proof (cdiv_bounds (sw - 1) bs Hb).
  pose proof (cdiv_nonneg (sw - 1) bs Hb ltac:(lia)).
  set (w := cdiv (sw - 1) bs) in *. split; intros; [|nia].
  apply Nat2Z.inj_le. rewrite Nat2Z.inj_add, Z2Nat.id by done. nia.
Qed.

(** An already aligned prefix is left alone. *)
Lemma align_cols_id k bs al cols :
  (0 < k)%nat → 0 < al → cols_ok k cols → (al | zlen cols * bs) →
  align_computed bs al (per_group k cols) = Ok (per_group k cols).
Proof.
  intros Hk Hal Hc Hd. destruct (align_cols k bs al cols) as (n & -> & Hn & _ & Hm); [done..|].
  specialize (Hm (length cols) ltac:(lia) Hd). rewrite firstn_all2 by lia. done.
Qed.

Lemma scan_start gids p L spec al w N :
  (0 < w)%nat →
  scan_inv gids p L spec al w N N 0 (replicate N (replicate (length gids) (null_block p))).
Proof.
  intros Hw. split; try lia.
  - apply Forall_replicate. by rewrite length_replicate.
  - by rewrite length_replicate.
  - intros i Hi. lia.
Qed.

Lemma null_cols k n x : replicate k (replicate n x) = per_group k (replicate n (replicate k x)).
Proof.
  apply list_eq_same_length with k; [by rewrite length_per_group|by rewrite length_replicate|].
  intros j y z Hj. rewrite per_group_lookup, lookup_replicate_2 by done. intros [= <-] [= <-].
  apply list_eq. intros i.
  rewrite (omap_cols k) by (done || apply Forall_replicate; by rewrite length_replicate).
  destruct (decide (i < n)%nat).
  - by rewrite !lookup_replicate_2 by done; cbn; rewrite lookup_replicate_2.
  - by rewrite !lookup_ge_None_2 by (rewrite length_replicate; lia).
Qed.

(** The scan and the truncation that follows a failed one. *)
Lemma sliding_scan gids p hashes L a sw al w N :
  indexed p → groups_ok gids → bhl_views hashes L → 0 < al →
  (0 < w)%nat → (N ≤ length L)%nat →
  let spec := SlidingWindowSpec a sw in
  let bs := a_block_size a in
  ∃ cols, ('(computed, c, found) ← sliding_loop hashes gids p spec al (Z.of_nat w) N
             (replicate (length gids) (replicate N (null_block p))) 0;
           if found : bool then Ok computed else
           align_computed bs al ((λ l, py_upto l c) <$> computed)) = Ok (per_group (length gids) cols)
    ∧ cols_ok (length gids) cols ∧ (length cols ≤ N)%nat ∧ (al | zlen cols * bs)
    ∧ holds gids p L cols (length cols - w) (length cols)
    ∧ ∀ m, (length cols < m ≤ N)%nat → (al | Z.of_nat m * bs) → refuted gids p L w m.
Proof.
  intros Hp Hg HL Hal Hw HN spec bs. pose proof (groups_pos gids Hg) as Hk. rewrite null_cols.
  change 0 with (Z.of_nat 0) at 1.
  destruct (sliding_loop_spec gids p Hp Hg hashes L HL spec al Hal w N N 0 _
    Hw HN ltac:(lia) (scan_start gids p L spec al w N Hw))
    as (e & cols & c & found & -> & Hc & He & Ha & Hm & Hf).
  cbn [mbind res_bind]. change (block_size spec) with bs in *. destruct found.
  - destruct Hf as (Hl & -> & Hwe & Hh). exists cols. unfold zlen. rewrite Hl. by repeat split.
  - destruct Hf as (Hl & -> & Hh). rewrite upto_cols, Nat2Z.id by (done || lia).
    assert (length (take e cols) = e) as Ht by (rewrite length_take; lia).
    exists (take e cols). unfold zlen. rewrite Ht. split.
    { apply align_cols_id; [done|done|by apply take_cols|]. unfold zlen. by rewrite Ht. }
    split; [by apply take_cols|]. split; [done|]. split; [done|]. split; [|done].
    apply holds_take; [lia|]. by apply (holds_sub _ _ _ _ 0 e); [lia|lia|].
Qed.

Lemma sliding_hit_spec hashes max_length gids p a sw use_eagle al L :
  indexed p → groups_ok gids → bhl_views hashes L →
  0 < a_block_size a → 1 < sw → 0 < al → 0 ≤ max_length →
  max_length / a_block_size a ≤ zlen L →
  (use_eagle = true → al = a_block_size a) →
  let bs := a_block_size a in
  let e := eagle_extra use_eagle in
  ∃ cols,
    sliding_find_longest_cache_hit hashes max_length gids p (SlidingWindowSpec a sw) use_eagle al 1 1
      = Ok (per_group (length gids) cols)
    ∧ cols_ok (length gids) cols
    ∧ (al | zlen cols * bs)
    ∧ zlen cols * bs ≤ max_length
    ∧ (∀ i, (i < length cols)%nat → in_window bs sw (length cols) i →
         ∃ c, cols !! i = Some c ∧ cached_as gids p L i c)
    ∧ ∀ m : nat, (al | Z.of_nat m * bs) → Z.of_nat (m + e) * bs ≤ max_length →
        (∀ i, (i < m + e)%nat → in_window bs sw m i → cached gids p L i) →
        (m ≤ length cols)%nat.
Proof.
  intros Hp Hg HL Hb Hsw Hal Hmax HN Heagle bs e. pose proof (groups_pos gids Hg) as Hk.
  unfold sliding_find_longest_cache_hit. cbn [Z.eqb Pos.eqb negb].
  rewrite (proj2 (Z.eqb_neq _ 0)) by lia. fold bs in Hb, HN, Heagle |- *.
  pose proof (cdiv_bounds (sw - 1) bs Hb) as Hw.
  set (w := Z.to_nat (cdiv (sw - 1) bs)). set (N := Z.to_nat (max_length / bs)).
  assert (0 ≤ max_length / bs) by (by apply Z.div_pos).
  assert (Z.of_nat N * bs ≤ max_length) as HNb.
  { unfold N. rewrite Z2Nat.id by done. rewrite Z.mul_comm. by apply Z.mul_div_le. }
  assert ((if use_eagle then cdiv (sw - 1) bs + 1 else cdiv (sw - 1) bs) = Z.of_nat (w + e)) as ->.
  { unfold w, e, eagle_extra. destruct use_eagle; nia. }
  unfold zreplicate. fold N.
  destruct (sliding_scan gids p hashes L a sw al (w + e) N) as (cols & Hr & Hc & Hl & Ha & Hh & Hm);
    [done|done|done|done|unfold w; nia|unfold zlen in HN; lia|]. fold bs in Hr, Ha, Hm.
  destruct (sliding_loop _ _ _ _ _ _ _ _ _) as [[[cc c] f]|]; cbn [mbind res_bind] in Hr |- *; [|done].
  rewrite Hr. cbn [mbind res_bind].
  assert (∀ m : nat, (al | Z.of_nat m * bs) → Z.of_nat (m + e) * bs ≤ max_length →
    (al | Z.of_nat (m + e) * bs) →
    (∀ i, (i < m + e)%nat → in_window bs sw m i → cached gids p L i) → (m + e ≤ length cols)%nat) as Hmax'.
  { intros m _ Hm1 Hd' Hm2. destruct (decide (m + e ≤ length cols)%nat); [done|]. exfalso.
    assert (m + e ≤ N)%nat by (unfold N; apply Nat2Z.inj_le; rewrite Z2Nat.id by done;
      apply Z.div_le_lower_bound; lia).
    destruct (Hm (m + e)%nat) as (i & Hi & Hni); [lia|done|]. apply Hni, Hm2; [lia|].
    apply in_window_blocks; [done|done|]. fold w. lia. }
  destruct use_eagle; cbn [negb].
  2: { change e with 0%nat in *. setoid_rewrite Nat.add_0_r in Hmax'. setoid_rewrite Nat.add_0_r.
       exists cols. split; [done|]. split; [done|]. split; [done|]. split; [unfold zlen; nia|]. split; [|eauto].
       intros i Hi Hwin%in_window_blocks; [|done|done]. apply Hh. fold w in Hwin. lia. }
  change e with 1%nat in *. specialize (Heagle eq_refl). subst al.
  assert (eagle_pop true (per_group (length gids) cols)
    = Ok (per_group (length gids) (take (length cols - 1) cols))) as Hep by (by apply (eagle_cols _ true)).
  unfold eagle_pop in Hep. cbn [negb] in Hep. rewrite first_cols in Hep |- * by done.
  cbn [mbind res_bind] in Hep |- *.
  assert (length (take (length cols - 1) cols) = (length cols - 1)%nat) as Hlt by (rewrite length_take; lia).
  exists (take (length cols - 1) cols). unfold zlen. rewrite Hlt. split.
  { destruct (omap _ cols).
    - by rewrite Hep.
    - rewrite Hep. cbn [mbind res_bind]. apply align_cols_id; [done|done|by apply take_cols|].
      apply Z.divide_factor_r. }
  split; [by apply take_cols|]. split; [apply Z.divide_factor_r|]. split; [nia|]. split.
  - intros i Hi Hwin%in_window_blocks; [|done|done]. rewrite lookup_take_lt by lia. apply Hh.
    fold w in Hwin. lia.
  - intros m H1 H2 H3. specialize (Hmax' m H1 H2 ltac:(apply Z.divide_factor_r) H3). lia.
Qed.

(** C29: for a sliding window, without EAGLE or with equal block size and
    alignment, the lookup never raises; the blocks that the next token's window
    reaches are all cached and returned, the hit is aligned and within the
    maximum, and no longer aligned prefix has its window (and the block EAGLE
    drops) cached. *)
Theorem sliding_hit_is_longest hashes max_length gids p a sw use_eagle al L :
  indexed p → groups_ok gids → bhl_views hashes L →
  0 < a_block_size a → 1 < sw → 0 < al → 0 ≤ max_length →
  max_length / a_block_size a ≤ zlen L →
  (use_eagle = true → al = a_block_size a) →
  let bs := a_block_size a in
  let e := eagle_extra use_eagle in
  ∃ cols,
    sliding_find_longest_cache_hit hashes max_length gids p (SlidingWindowSpec a sw) use_eagle al 1 1
      = Ok (per_group (length gids) cols)
    ∧ (al | zlen cols * bs)
    ∧ zlen cols * bs ≤ max_length
    ∧ (∀ i, (i < length cols)%nat → in_window bs sw (length cols) i →
         ∃ c, cols !! i = Some c ∧ cached_as gids p L i c)
    ∧ ∀ m : nat, (al | Z.of_nat m * bs) → Z.of_nat (m + e) * bs ≤ max_length →
        (∀ i, (i < m + e)%nat → in_window bs sw m i → cached gids p L i) →
        (m ≤ length cols)%nat.
Proof.
  intros. destruct (sliding_hit_spec hashes max_length gids p a sw use_eagle al L) as (cols & ? & _ & ?); [done..|]. by exists cols.
Qed.

(** ** Chunked local attention *)

Section chunked.
Context (gids : list Z) (p : BlockPool) (Hp : indexed p) (Hg : groups_ok gids).
Context (hashes : BlockHashList) (L : list bytes) (HL : bhl_views hashes L).
Abbreviation k := (length gids).

Lemma chunked_loop_spec n s cols :
  cols_ok k cols → (s ≤ length cols)%nat → holds gids p L cols s (length cols) →
  (length cols + n ≤ length L)%nat →
  ∃ cols', chunked_loop hashes gids p n (Z.of_nat (length cols)) (per_group k cols)
      = Ok (per_group k cols')
    ∧ cols_ok k cols' ∧ holds gids p L cols' s (length cols')
    ∧ (length cols ≤ length cols' ≤ length cols + n)%nat
    ∧ ((length cols' < length cols + n)%nat → ¬ cached gids p L (length cols')).
Proof.
  revert cols. induction n as [|n IH]; intros cols Hc Hs Hh Hn; cbn [chunked_loop].
  { exists cols. split_and!; (done || lia). }
  destruct (lookup_lt_is_Some_2 L (length cols)) as [h HLh]; [lia|].
  rewrite (bv_get _ _ HL _ _ HLh). cbn [mbind res_bind].
  destruct (lookup_hash_spec gids p h Hp Hg) as [-> _]. cbn [mbind res_bind].
  destruct (hit_of gids p h) as [c|] eqn:E.
  - pose proof (hit_length _ _ _ _ Hp Hg E) as Hlc. rewrite append_all_cols by done.
    assert (length (cols ++ [c]) = S (length cols)) as Hl by (rewrite length_app; cbn; lia).
    replace (Z.of_nat (length cols) + 1) with (Z.of_nat (length (cols ++ [c]))) by lia.
    destruct (IH (cols ++ [c])) as (cols' & Hr & H0 & H1 & H2 & H3); rewrite ?Hl in *.
    + apply Forall_app. split; [done|]. by constructor.
    + lia.
    + intros i Hi. destruct (decide (i = length cols)) as [->|].
      * exists c. rewrite list_lookup_middle by done. split; [done|by exists h].
      * rewrite lookup_app_l by lia. apply Hh. lia.
    + lia.
    + exists cols'. split_and!; try (done || lia). intros ?. apply H3. lia.
  - exists cols. split_and!; try (done || lia). intros _ (c & h' & ? & ?). congruence.
Qed.
End chunked.

(** Block [i] holds a token of the attention chunk of the token after the first
    [n] blocks. *)
Definition in_chunk (bs chunk : Z) (n i : nat) : Prop :=
  Z.of_nat n * bs / chunk * chunk < (Z.of_nat i + 1) * bs.

Lemma chunked_hit_spec hashes max_length gids p a chunk L :
  indexed p → groups_ok gids → bhl_views hashes L →
  0 < a_block_size a → 0 < chunk → (a_block_size a | chunk) → 0 ≤ max_length →
  max_length / a_block_size a ≤ zlen L →
  let bs := a_block_size a in
  ∃ cols,
    chunked_find_longest_cache_hit hashes max_length gids p (ChunkedLocalAttentionSpec a chunk)
      false bs 1 1 = Ok (per_group (length gids) cols)
    ∧ cols_ok (length gids) cols
    ∧ zlen cols * bs ≤ max_length
    ∧ (∀ i, (i < length cols)%nat → in_chunk bs chunk (length cols) i →
         ∃ c, cols !! i = Some c ∧ cached_as gids p L i c)
    ∧ ∀ m : nat, Z.of_nat m * bs ≤ max_length →
        (∀ i, (i < m)%nat → in_chunk bs chunk m i → cached gids p L i) →
        (m ≤ length cols)%nat.
Proof.
  intros Hp Hg HL Hb Hch [q Hq] Hmax HN bs. fold bs in Hb, Hq, HN.
  unfold chunked_find_longest_cache_hit. cbn [Z.eqb Pos.eqb negb]. fold bs. rewrite Z.eqb_refl.
  unfold py_div. rewrite !(proj2 (Z.eqb_neq _ 0)) by lia. cbn [mbind res_bind].
  assert ((if 0 <? max_length then Ok (max_length / chunk * chunk) else Ok 0)
    = Ok (max_length / chunk * chunk)) as ->.
  { case_match eqn:E; [done|]. to_prop. replace max_length with 0 by lia. done. }
  cbn [mbind res_bind]. set (t := max_length / chunk).
  assert (0 ≤ t) by (by apply Z.div_pos).
  pose proof (Z.mul_div_le max_length chunk Hch) as Ht1. fold t in Ht1.
  pose proof (Z.mul_succ_div_gt max_length chunk Hch) as Ht2. fold t in Ht2.
  assert (t * chunk / bs = t * q) as -> by (rewrite Hq, Z.mul_assoc; apply Z.div_mul; lia).
  assert (0 < q) by nia. unfold zreplicate. rewrite null_cols.
  set (s := Z.to_nat (t * q)). set (N := max_length / bs) in *.
  pose proof (Z.mul_div_le max_length bs Hb) as HN1. fold N in HN1.
  assert (t * q ≤ N) as HsN by (apply Z.div_le_lower_bound; nia).
  pose proof (chunked_loop_spec gids p Hp Hg hashes L HL (Z.to_nat (N - t * q)) s
    (replicate s (replicate (length gids) (null_block p)))) as Hloop.
  rewrite length_replicate in Hloop.
  destruct Hloop as (cols & Hr & Hok & Hh & Hl & Hm).
  { apply Forall_replicate. by rewrite length_replicate. }
  { done. }
  { intros i Hi. lia. }
  { unfold s, zlen in *. nia. }
  replace (Z.of_nat s) with (t * q) in Hr by (unfold s; nia).
  assert (∀ m : nat, (s ≤ m)%nat → Z.of_nat m * bs ≤ max_length →
    ∀ i, in_chunk bs chunk m i ↔ (s ≤ i)%nat) as Hin.
  { intros m Hm1 Hm2 i. unfold in_chunk.
    assert (Z.of_nat m * bs / chunk = t) as ->.
    { symmetry. apply (Z.div_unique _ _ _ (Z.of_nat m * bs - chunk * t)); [|lia]. left.
      assert (t * q ≤ Z.of_nat m) by (unfold s in *; lia). nia. }
    unfold s. rewrite Hq. split; intros; [|nia]. apply Nat2Z.inj_le. rewrite Z2Nat.id by nia. nia. }
  assert (Z.of_nat (length cols) * bs ≤ max_length) as Hlm.
  { assert (Z.of_nat (length cols) ≤ N) by (unfold s in *; nia). nia. }
  exists cols. split; [exact Hr|]. split; [done|]. split; [done|]. split.
  - intros i Hi Hc%Hin; [|lia|done]. by apply Hh.
  - intros m Hm1 Hm2. destruct (decide (m ≤ length cols)%nat); [done|]. exfalso.
    assert (Z.of_nat m ≤ N) by (apply Z.div_le_lower_bound; lia).
    apply Hm; [unfold s in *; lia|]. apply Hm2; [lia|]. apply Hin; [lia|done|lia].
Qed.

(** For chunked local attention, with a chunk of whole blocks, the lookup
    never raises; the blocks of the next token's chunk are all cached and
    returned, the hit is within the maximum, and no longer prefix has the blocks
    of its chunk cached. *)
Theorem chunked_hit_is_longest hashes max_length gids p a chunk L :
  indexed p → groups_ok gids → bhl_views hashes L →
  0 < a_block_size a → 0 < chunk → (a_block_size a | chunk) → 0 ≤ max_length →
  max_length / a_block_size a ≤ zlen L →
  let bs := a_block_size a in
  ∃ cols,
    chunked_find_longest_cache_hit hashes max_length gids p (ChunkedLocalAttentionSpec a chunk)
      false bs 1 1 = Ok (per_group (length gids) cols)
    ∧ zlen cols * bs ≤ max_length
    ∧ (∀ i, (i < length cols)%nat → in_chunk bs chunk (length cols) i →
         ∃ c, cols !! i = Some c ∧ cached_as gids p L i c)
    ∧ ∀ m : nat, Z.of_nat m * bs ≤ max_length →
        (∀ i, (i < m)%nat → in_chunk bs chunk m i → cached gids p L i) →
        (m ≤ length cols)%nat.
Proof.
  intros. destruct (chunked_hit_spec hashes max_length gids p a chunk L) as (cols & ? & _ & ?); [done..|]. by exists cols.
Qed.

(** ** Mamba *)

Lemma mamba_hit_cols k i x cached :
  length cached = k →
  ((λ b : ref, zreplicate (Z.of_nat i) x ++ [b]) <$> cached)
    = per_group k (replicate i (replicate k x) ++ [cached]).
Proof.
  intros Hk. rewrite <- append_all_cols, <- null_cols by done. unfold append_all, zreplicate.
  rewrite Nat2Z.id. subst k. induction cached as [|b l IH]; cbn; [done|]. by rewrite <- IH.
Qed.

(** The search over the first [n] blocks returns [cols]. *)
Definition mamba_result (gids : list Z) (p : BlockPool) (L : list bytes) (bs al : Z) (n : nat)
    (cols : list (list ref)) : Prop :=
  cols_ok (length gids) cols ∧ (length cols ≤ n)%nat ∧ (al | zlen cols * bs)
  ∧ (cols = [] ∨ ∃ n c, cols = replicate n (replicate (length gids) (null_block p)) ++ [c]
                        ∧ cached_as gids p L n c)
  ∧ ∀ m : nat, (al | Z.of_nat (S m) * bs) → (S m ≤ n)%nat →
      cached gids p L m → (S m ≤ length cols)%nat.

Lemma mamba_skip gids p L bs al n cols :
  mamba_result gids p L bs al n cols → ¬ (al | Z.of_nat (S n) * bs) ∨ ¬ cached gids p L n →
  mamba_result gids p L bs al (S n) cols.
Proof.
  intros (Hok & Hl & Ha & Hc & Hm) Hno. split; [done|]. split; [lia|]. split; [done|]. split; [done|].
  intros m Hm1 Hm2 Hm3. destruct (decide (m = n)) as [->|]; [by destruct Hno|].
  apply Hm; [done|lia|done].
Qed.

Lemma mamba_loop_spec gids p hashes L f al n :
  indexed p → groups_ok gids → bhl_views hashes L → 0 < al → (n ≤ length L)%nat →
  ∃ cols, mamba_loop hashes gids p (MambaSpec f) al n = Ok (per_group (length gids) cols)
    ∧ mamba_result gids p L (m_block_size f) al n cols.
Proof.
  intros Hp Hg HL Hal. set (bs := m_block_size f).
  induction n as [|n IH]; intros Hn; cbn [mamba_loop].
  { exists []. rewrite per_group_0. split; [done|]. split; [constructor|]. split; [done|].
    split; [apply Z.divide_0_r|]. split; [by left|lia]. }
  destruct (lookup_lt_is_Some_2 L n) as [h Hh]; [lia|].
  rewrite (bv_get _ _ HL _ _ Hh). cbn [mbind res_bind].
  destruct (lookup_hash_spec gids p h Hp Hg) as [-> _]. cbn [mbind res_bind].
  destruct (IH ltac:(lia)) as (cols & Hr & Hres).
  assert (¬ (al | Z.of_nat (S n) * bs) ∨ ¬ cached gids p L n → ∃ cols,
    mamba_loop hashes gids p (MambaSpec f) al n = Ok (per_group (length gids) cols)
    ∧ mamba_result gids p L bs al (S n) cols) as Hskip.
  { intros Hno. exists cols. split; [done|]. by apply mamba_skip. }
  destruct (hit_of gids p h) as [c|] eqn:E.
  2: { apply Hskip. right. intros (c & h' & ? & ?). congruence. }
  cbn [block_size]. fold bs. unfold py_mod. rewrite (proj2 (Z.eqb_neq al 0)) by lia.
  cbn [mbind res_bind]. replace (Z.of_nat n + 1) with (Z.of_nat (S n)) by lia.
  assert ((al | Z.of_nat (S n) * bs) → ∃ cols, Ok ((λ b : ref,
      zreplicate (Z.of_nat n) (null_block p) ++ [b]) <$> c) = Ok (per_group (length gids) cols)
    ∧ mamba_result gids p L bs al (S n) cols) as Hhit.
  { intros Ha. rewrite (mamba_hit_cols (length gids)) by (by eapply hit_length).
    eexists. split; [done|]. unfold mamba_result, zlen. rewrite length_app, length_replicate.
    cbn [length]. replace (n + 1)%nat with (S n) by lia. split.
    { apply Forall_app. split; [apply Forall_replicate; by rewrite length_replicate|].
      constructor; [by eapply hit_length|constructor]. }
    split; [done|]. split; [done|]. split; [|lia]. right. exists n, c. split; [done|by exists h]. }
  destruct (bs =? al) eqn:Eb; cbn [negb mbind res_bind]; to_prop.
  { apply Hhit. rewrite Eb. apply Z.divide_factor_r. }
  destruct (_ =? 0) eqn:Em; cbn [negb]; to_prop.
  - apply Hhit. apply Z.mod_divide; [lia|done].
  - apply Hskip. left. by intros ?%Z.mod_divide; [|lia].
Qed.

Lemma mamba_hit_spec hashes max_length gids p f al L :
  indexed p → groups_ok gids → bhl_views hashes L →
  0 < m_block_size f → 0 < al → 0 ≤ max_length →
  max_length / m_block_size f ≤ zlen L →
  let bs := m_block_size f in
  ∃ cols,
    mamba_find_longest_cache_hit hashes max_length gids p (MambaSpec f) al 1 1
      = Ok (per_group (length gids) cols)
    ∧ cols_ok (length gids) cols
    ∧ (al | zlen cols * bs)
    ∧ zlen cols * bs ≤ max_length
    ∧ (cols = [] ∨ ∃ n c, cols = replicate n (replicate (length gids) (null_block p)) ++ [c]
                          ∧ cached_as gids p L n c)
    ∧ ∀ m : nat, (al | Z.of_nat (S m) * bs) → Z.of_nat (S m) * bs ≤ max_length →
        cached gids p L m → (S m ≤ length cols)%nat.
Proof.
  intros Hp Hg HL Hb Hal Hmax HN bs. fold bs in Hb, HN. unfold mamba_find_longest_cache_hit.
  cbn [Z.eqb Pos.eqb is_mamba]. unfold py_div. cbn [block_size]. fold bs.
  rewrite (proj2 (Z.eqb_neq bs 0)) by lia. cbn [mbind res_bind].
  set (N := max_length / bs) in *. assert (0 ≤ N) by (by apply Z.div_pos).
  pose proof (Z.mul_div_le max_length bs Hb) as HN1. fold N in HN1. unfold zlen in *.
  destruct (mamba_loop_spec gids p hashes L f al (Z.to_nat N))
    as (cols & -> & Hok & Hl & Ha & Hcols & Hm); [done..|lia|].
  exists cols. split; [done|]. split; [done|]. split; [done|]. split; [nia|]. split; [done|].
  intros m H1 H2. apply Hm; [done|]. apply Nat2Z.inj_le. rewrite Z2Nat.id by done.
  apply Z.div_le_lower_bound; lia.
Qed.

(** The Mamba lookup never raises and returns the state block of the longest
    aligned cached prefix within the maximum, with null blocks before it. *)
Theorem mamba_hit_is_longest hashes max_length gids p f al L :
  indexed p → groups_ok gids → bhl_views hashes L →
  0 < m_block_size f → 0 < al → 0 ≤ max_length →
  max_length / m_block_size f ≤ zlen L →
  let bs := m_block_size f in
  ∃ cols,
    mamba_find_longest_cache_hit hashes max_length gids p (MambaSpec f) al 1 1
      = Ok (per_group (length gids) cols)
    ∧ (al | zlen cols * bs)
    ∧ zlen cols * bs ≤ max_length
    ∧ (cols = [] ∨ ∃ n c, cols = replicate n (replicate (length gids) (null_block p)) ++ [c]
                          ∧ cached_as gids p L n c)
    ∧ ∀ m : nat, (al | Z.of_nat (S m) * bs) → Z.of_nat (S m) * bs ≤ max_length →
        cached gids p L m → (S m ≤ length cols)%nat.
Proof.
  intros. destruct (mamba_hit_spec hashes max_length gids p f al L) as (cols & ? & _ & ?); [done..|]. by exists cols.
Qed.
