(* ===== verification/HitExamples.v ===== *)
(** * Prefix-cache lookups on concrete pools

    A pool with the four blocks of one request registered, and the same pool
    after the first of them was evicted; the lookup theorems at these pools, and
    the window that re-alignment after the EAGLE pop leaves uncovered. *)

From S2P Require Import Prelude Blocks FreeQueue Request BlockHash HashMap BlockPool PoolInv PoolProps.
From S2P Require Import KVCacheSpec CacheHit HitProps.
Import FreeKVCacheBlockQueue.

(** Nine tokens: four full blocks of two. *)
Definition request_h : Request :=
  get_ok blank_request (example_request example_hasher [1; 2; 3; 4; 5; 6; 7; 8; 9] [] None None).

(** Five blocks, of which [request_h] holds 1 to 4. *)
Definition fresh_pool5 : BlockPool := get_ok blank_pool (pool_init 5 true 2 true None).
Definition owned_pool : BlockPool := (get_ok ([], blank_pool) (get_new_blocks false fresh_pool5 4)).2.
Definition held_list : list ref := [RBlk 1; RBlk 2; RBlk 3; RBlk 4].
Definition cached_pool : BlockPool :=
  (get_ok (blank_pool, blank_request)
     (cache_full_blocks false (λ b, b) owned_pool request_h held_list 0 4 2 0)).1.
(** Block 1, the first of the request, evicted. *)
Definition evicted_pool : BlockPool := get_ok blank_pool (evict_blocks false cached_pool [1]).

Lemma owned_pool_inv : PoolInv ∅ (list_to_set_disj held_list) owned_pool [].
Proof.
  destruct (pool_init_spec 5 true 2 true None) as (p & E & H & _); [lia|].
  assert (Hn : 0 ≤ 4 ≤ get_num_free_blocks p).
  { unfold get_num_free_blocks. by rewrite (fr_num _ _ (pi_rep _ _ _ _ H)). }
  destruct (get_new_blocks_spec false ∅ ∅ p _ 4 H Hn) as (p' & E' & H' & _).
  unfold owned_pool, fresh_pool5. rewrite E. cbn [get_ok]. rewrite E'. cbn [get_ok snd].
  eapply PoolInv_proper; [done| |exact H']. unfold held_list. multiset_solver.
Qed.

Lemma request_h_mm : mm_features request_h = [].
Proof. vm_compute. reflexivity. Qed.

Lemma cached_pool_inv : PoolInv ∅ (list_to_set_disj held_list) cached_pool [].
Proof.
  edestruct (cache_full_blocks_spec false (λ b, b) ∅ _ owned_pool _ request_h held_list 0 4 2 0
    owned_pool_inv) as (p & r & E & H & _).
  - vm_compute. reflexivity.
  - lia.
  - vm_compute. reflexivity.
  - lia.
  - rewrite request_h_mm. split; constructor.
  - intros s e h Hl. vm_compute in Hl. discriminate Hl.
  - lia.
  - vm_compute. discriminate.
  - vm_compute. discriminate.
  - vm_compute. discriminate.
  - split; [eapply bool_decide_eq_true_1; vm_compute; reflexivity|].
    intros j b Hj. do 4 (destruct j as [|j]; [injection Hj as <-;
      split; [eapply bool_decide_eq_true_1; vm_compute; reflexivity|];
      intros _; split; [vm_compute; reflexivity|]; eexists; vm_compute; reflexivity|]).
    discriminate Hj.
  - unfold cached_pool. rewrite E. exact H.
Qed.

Lemma evicted_pool_inv : PoolInv ∅ (list_to_set_disj held_list) evicted_pool [].
Proof.
  destruct (evict_blocks_spec false [1] ∅ _ cached_pool _ cached_pool_inv) as (p & E & H & _).
  - constructor; [|constructor]. assert (num_gpu_blocks cached_pool = 5) as -> by (vm_compute; reflexivity).
    lia.
  - unfold evicted_pool. rewrite E. exact H.
Qed.

Lemma groups_0 : groups_ok [0].
Proof. split; [done|]. constructor; [lia|constructor]. Qed.

Abbreviation hs := (block_hashes request_h).
Lemma zlen_hs : zlen hs = 4.
Proof. vm_compute. reflexivity. Qed.

Definition small_attention : AttentionSpec := mkAttention 2 1 1 "float16" None.
Definition full_spec : LayerSpec := FullAttentionSpec small_attention (full_fields small_attention None None None).
Definition window_spec (sw : Z) : LayerSpec := SlidingWindowSpec small_attention sw.
Definition mamba_fields : MambaFields := mkMamba 2 [[1]] ["float16"] None "mamba2" "none" 0.

Lemma full_hit_is_longest_witness :
  ∃ cols, full_find_longest_cache_hit (PlainHashes hs) 8 [0] cached_pool full_spec true 4 1 1
    = Ok (per_group 1 cols) ∧ (4 | zlen cols * 2).
Proof.
  destruct (full_hit_is_longest (PlainHashes hs) 8 [0] cached_pool full_spec true 4 1 1 hs)
    as (cols & E & _ & H & _).
  - eapply PoolInv_indexed, cached_pool_inv.
  - apply groups_0.
  - apply plain_views.
  - reflexivity.
  - vm_compute. reflexivity.
  - lia.
  - lia.
  - exists cols. split; [exact E|exact H].
Defined.

Lemma sliding_hit_is_longest_witness :
  ∃ cols, sliding_find_longest_cache_hit (PlainHashes hs) 8 [0] evicted_pool (window_spec 5) false 4 1 1
    = Ok (per_group 1 cols) ∧ zlen cols * 2 ≤ 8.
Proof.
  destruct (sliding_hit_is_longest (PlainHashes hs) 8 [0] evicted_pool small_attention 5 false 4 hs)
    as (cols & E & _ & H & _).
  - eapply PoolInv_indexed, evicted_pool_inv.
  - apply groups_0.
  - apply plain_views.
  - vm_compute. reflexivity.
  - lia.
  - lia.
  - lia.
  - rewrite zlen_hs. vm_compute. discriminate.
  - discriminate.
  - exists cols. split; [exact E|exact H].
Defined.

Lemma chunked_hit_is_longest_witness :
  ∃ cols, chunked_find_longest_cache_hit (PlainHashes hs) 7 [0] evicted_pool
    (ChunkedLocalAttentionSpec small_attention 4) false 2 1 1
    = Ok (per_group 1 cols) ∧ zlen cols * 2 ≤ 7.
Proof.
  destruct (chunked_hit_is_longest (PlainHashes hs) 7 [0] evicted_pool small_attention 4 hs)
    as (cols & E & H & _).
  - eapply PoolInv_indexed, evicted_pool_inv.
  - apply groups_0.
  - apply plain_views.
  - vm_compute. reflexivity.
  - lia.
  - exists 2. reflexivity.
  - lia.
  - rewrite zlen_hs. vm_compute. discriminate.
  - exists cols. split; [exact E|exact H].
Defined.

Lemma mamba_hit_is_longest_witness :
  ∃ cols, mamba_find_longest_cache_hit (PlainHashes hs) 8 [0] evicted_pool (MambaSpec mamba_fields) 4 1 1
    = Ok (per_group 1 cols) ∧ (4 | zlen cols * 2).
Proof.
  destruct (mamba_hit_is_longest (PlainHashes hs) 8 [0] evicted_pool mamba_fields 4 hs)
    as (cols & E & H & _).
  - eapply PoolInv_indexed, evicted_pool_inv.
  - apply groups_0.
  - apply plain_views.
  - vm_compute. reflexivity.
  - lia.
  - lia.
  - rewrite zlen_hs. vm_compute. discriminate.
  - exists cols. split; [exact E|exact H].
Defined.

(** The lookups on the example pools, evaluated. *)
Example lookups_evaluated :
  full_find_longest_cache_hit (PlainHashes hs) 8 [0] cached_pool full_spec false 4 1 1
    = Ok [[RBlk 1; RBlk 2; RBlk 3; RBlk 4]]
  ∧ sliding_find_longest_cache_hit (PlainHashes hs) 8 [0] evicted_pool (window_spec 5) false 4 1 1
    = Ok [[RBlk 0; RBlk 0; RBlk 3; RBlk 4]]
  ∧ chunked_find_longest_cache_hit (PlainHashes hs) 7 [0] evicted_pool
      (ChunkedLocalAttentionSpec small_attention 4) false 2 1 1 = Ok [[RBlk 0; RBlk 0; RBlk 3]]
  ∧ mamba_find_longest_cache_hit (PlainHashes hs) 8 [0] evicted_pool (MambaSpec mamba_fields) 4 1 1
    = Ok [[RBlk 0; RBlk 0; RBlk 0; RBlk 4]].
Proof. vm_compute. by repeat split. Qed.

(** With EAGLE and an alignment coarser than the block size, the
    sliding-window lookup can return a hit whose window is not cached: after the
    EAGLE pop the re-alignment removes further blocks, and the null block at
    position 0, not cached any more, is in the window of the next token. *)
Theorem sliding_eagle_realign_uncovered :
  sliding_find_longest_cache_hit (PlainHashes hs) 8 [0] evicted_pool (window_spec 5) true 4 1 1
    = Ok [[null_block evicted_pool; RBlk 2]]
  ∧ in_window 2 5 2 0
  ∧ ¬ cached [0] evicted_pool hs 0.
Proof.
  split; [vm_compute; reflexivity|]. split; [vm_compute; reflexivity|].
  intros (c & h & Hh & Hc). injection Hh as <-. vm_compute in Hc. discriminate Hc.
Qed.
