(* ===== verification/SingleTypeManager.v ===== *)
(** * Managers of one attention type

    [SingleTypeKVCacheManager] and its subclasses of
    vllm/v1/core/single_type_kv_cache_manager.py.  A manager is one record; the
    class is determined by the type of its spec ([spec_manager_map]), and every
    overridden method is a match on it.  The block pool, shared by all managers,
    is threaded through. *)

From S2P Require Import Prelude Blocks FreeQueue Request BlockHash HashMap BlockPool KVCacheSpec CacheHit.

Inductive manager_class :=
  | FullAttentionManager
  | SlidingWindowManager
  | ChunkedLocalAttentionManager
  | MambaManager
  | CrossAttentionManager
  | SinkFullAttentionManager.

#[export] Instance manager_class_eq_dec : EqDecision manager_class.
Proof. solve_decision. Defined.

(** [spec_manager_map] *)
Definition spec_manager_map (s : LayerSpec) : option manager_class :=
  match s with
  | FullAttentionSpec _ _ | MLAAttentionSpec _ _ _ => Some FullAttentionManager
  | SlidingWindowSpec _ _ => Some SlidingWindowManager
  | ChunkedLocalAttentionSpec _ _ => Some ChunkedLocalAttentionManager
  | MambaSpec _ => Some MambaManager
  | CrossAttentionSpec _ => Some CrossAttentionManager
  | SinkFullAttentionSpec _ _ _ => Some SinkFullAttentionManager
  | EncoderOnlyAttentionSpec _ => None
  end.

(** The last four fields are those of [MambaManager] and
    [SinkFullAttentionManager]; the other classes leave them empty. *)
Record Manager := mkManager {
  mgr_spec : LayerSpec;
  mgr_block_size : Z;
  mgr_enable_caching : bool;
  new_block_ids : list Z;
  req_to_blocks : gmap string (list ref);
  num_cached_block : gmap string Z;
  kv_cache_group_id : Z;
  mgr_null_block : ref;
  cached_blocks_this_step : gset bytes;
  last_state_block_idx : gmap string Z;
  allocated_block_reqs : gset string;
  sink_blocks : list ref;
}.

Definition with_new_ids (m : Manager) (v : list Z) : Manager :=
  mkManager (mgr_spec m) (mgr_block_size m) (mgr_enable_caching m) v (req_to_blocks m)
    (num_cached_block m) (kv_cache_group_id m) (mgr_null_block m) (cached_blocks_this_step m)
    (last_state_block_idx m) (allocated_block_reqs m) (sink_blocks m).
Definition with_blocks (m : Manager) (v : gmap string (list ref)) : Manager :=
  mkManager (mgr_spec m) (mgr_block_size m) (mgr_enable_caching m) (new_block_ids m) v
    (num_cached_block m) (kv_cache_group_id m) (mgr_null_block m) (cached_blocks_this_step m)
    (last_state_block_idx m) (allocated_block_reqs m) (sink_blocks m).
Definition with_cached (m : Manager) (v : gmap string Z) : Manager :=
  mkManager (mgr_spec m) (mgr_block_size m) (mgr_enable_caching m) (new_block_ids m)
    (req_to_blocks m) v (kv_cache_group_id m) (mgr_null_block m) (cached_blocks_this_step m)
    (last_state_block_idx m) (allocated_block_reqs m) (sink_blocks m).
Definition with_this_step (m : Manager) (v : gset bytes) : Manager :=
  mkManager (mgr_spec m) (mgr_block_size m) (mgr_enable_caching m) (new_block_ids m)
    (req_to_blocks m) (num_cached_block m) (kv_cache_group_id m) (mgr_null_block m) v
    (last_state_block_idx m) (allocated_block_reqs m) (sink_blocks m).
Definition with_align (m : Manager) (idx : gmap string Z) (reqs : gset string) : Manager :=
  mkManager (mgr_spec m) (mgr_block_size m) (mgr_enable_caching m) (new_block_ids m)
    (req_to_blocks m) (num_cached_block m) (kv_cache_group_id m) (mgr_null_block m)
    (cached_blocks_this_step m) idx reqs (sink_blocks m).

(** [self.req_to_blocks[request_id]] of a [defaultdict(list)]: a missing key is
    inserted. *)
Definition req_blocks (m : Manager) (rid : string) : list ref :=
  default [] (req_to_blocks m !! rid).
Definition set_blocks (m : Manager) (rid : string) (l : list ref) : Manager :=
  with_blocks m (<[rid := l]> (req_to_blocks m)).
Definition touch_key (m : Manager) (rid : string) : Manager := set_blocks m rid (req_blocks m rid).

(** [type(self.kv_cache_spec) is FullAttentionSpec] *)
Definition is_exact_full (s : LayerSpec) : bool :=
  match s with FullAttentionSpec _ _ => true | _ => false end.
(** [self.new_block_ids.extend(b.block_id for b in blocks)], for full attention. *)
Definition record_new_ids (m : Manager) (p : BlockPool) (blks : list ref) : Manager :=
  if is_exact_full (mgr_spec m)
  then with_new_ids m (new_block_ids m ++ ((λ b, block_id (p_store p b)) <$> blks)) else m.

(** [mamba_cache_mode == "align"] *)
Definition mamba_align (s : LayerSpec) : bool :=
  match s with MambaSpec f => String.eqb (mamba_cache_mode f) "align" | _ => false end.
Definition spec_blocks (s : LayerSpec) : Z :=
  match s with MambaSpec f => num_speculative_blocks f | _ => 0 end.

(** ** Construction *)

Definition manager_init (spec : LayerSpec) (p : BlockPool) (caching : bool) (gid dcp pcp : Z)
    : res (Manager * BlockPool) :=
  match spec_manager_map spec with
  | None => Err KeyError
  | Some cls =>
      let bs := if 1 <? dcp * pcp then block_size spec * (dcp * pcp) else block_size spec in
      let m := mkManager spec bs caching [] ∅ ∅ gid (null_block p) ∅ ∅ ∅ [] in
      match cls, spec with
      | SinkFullAttentionManager, SinkFullAttentionSpec _ _ sink_len =>
          match sink_len with
          | None => Err AssertionError
          | Some n =>
              ASSERT 0 <? n;
              r ← py_mod n bs;
              ASSERT r =? 0;
              '(sink, q) ← FreeKVCacheBlockQueue.popleft_n (free_block_queue p) (n / bs);
              Ok (mkManager spec bs caching [] ∅ ∅ gid (null_block p) ∅ ∅ ∅ sink, with_queue p q)
          end
      | _, _ => Ok (m, p)
      end
  end.

(** ** Skipped tokens *)

Definition get_num_skipped_tokens (m : Manager) (num_computed_tokens : Z) : Z :=
  match mgr_spec m with
  | SlidingWindowSpec _ sliding_window => Z.max 0 (num_computed_tokens - sliding_window + 1)
  | ChunkedLocalAttentionSpec _ chunk => (num_computed_tokens / chunk) * chunk
  | MambaSpec _ => num_computed_tokens - 1
  | _ => 0
  end.

(** ** Capacity *)

Definition evictable (p : BlockPool) (b : ref) : Prop :=
  ref_cnt (p_store p b) = 0 ∧ is_null (p_store p b) = false.
#[export] Instance evictable_dec p b : Decision (evictable p b) := _.
Definition get_num_evictable_blocks (p : BlockPool) (blks : list ref) : Z :=
  zlen (filter (evictable p) blks).

Definition base_num_blocks_to_allocate (m : Manager) (p : BlockPool) (rid : string)
    (num_tokens : Z) (new_computed_blocks : list ref) (total_computed_tokens : Z) : res Z :=
  let num_required_blocks := cdiv num_tokens (mgr_block_size m) in
  let num_req_blocks := zlen (req_blocks m rid) in
  match num_cached_block m !! rid with
  | Some _ =>
      ASSERT zlen new_computed_blocks =? 0;
      Ok (Z.max (num_required_blocks - num_req_blocks) 0)
  | None =>
      let num_skipped_tokens := get_num_skipped_tokens m total_computed_tokens in
      let num_local_computed_blocks := zlen new_computed_blocks + num_req_blocks in
      let num_skipped_blocks := num_skipped_tokens / mgr_block_size m in
      let num_new_blocks :=
        Z.max (num_required_blocks - Z.max num_skipped_blocks num_local_computed_blocks) 0 in
      let num_skipped_new_computed_blocks := Z.max 0 (num_skipped_blocks - num_req_blocks) in
      Ok (num_new_blocks +
          get_num_evictable_blocks p (py_from new_computed_blocks num_skipped_new_computed_blocks))
  end.

(** [MambaManager] in align mode; a missing request gets an entry. *)
Definition mamba_num_blocks_to_allocate (m : Manager) (p : BlockPool) (rid : string)
    (new_computed_blocks : list ref) (num_tokens_main_model : Z) : Z * Manager :=
  let num_required_blocks :=
    cdiv num_tokens_main_model (mgr_block_size m) + spec_blocks (mgr_spec m) in
  let num_new_blocks := num_required_blocks - zlen new_computed_blocks - zlen (req_blocks m rid) in
  let num_new_blocks :=
    if 0 <? num_new_blocks then
      if decide (rid ∈ allocated_block_reqs m) then 1 else 1 + spec_blocks (mgr_spec m)
    else num_new_blocks in
  (num_new_blocks + get_num_evictable_blocks p new_computed_blocks, touch_key m rid).

Definition get_num_blocks_to_allocate (m : Manager) (p : BlockPool) (rid : string)
    (num_tokens : Z) (new_computed_blocks : list ref)
    (total_computed_tokens num_tokens_main_model : Z) : res (Z * Manager) :=
  match mgr_spec m with
  | MambaSpec f =>
      let blocked :=
        match last new_computed_blocks with
        | Some b =>
            match block_hash (p_store p b) with
            | Some h => bool_decide (h ∈ cached_blocks_this_step m)
            | None => false
            end
        | None => false
        end in
      if blocked : bool then Ok (num_gpu_blocks p + 1, m) else
      if negb (mamba_align (mgr_spec m)) then
        let num_tokens :=
          if 0 <? num_speculative_blocks f
          then num_tokens + m_block_size f * num_speculative_blocks f else num_tokens in
        n ← base_num_blocks_to_allocate m p rid num_tokens new_computed_blocks total_computed_tokens;
        Ok (n, m)
      else Ok (mamba_num_blocks_to_allocate m p rid new_computed_blocks num_tokens_main_model)
  | _ =>
      n ← base_num_blocks_to_allocate m p rid num_tokens new_computed_blocks total_computed_tokens;
      Ok (n, m)
  end.

Section manager.
Context (use_int : bool) (sha256 : bytes → bytes).

(** ** Adding computed blocks *)

Definition base_allocate_new_computed_blocks (m : Manager) (p : BlockPool) (rid : string)
    (new_computed_blocks : list ref) (num_local_computed_tokens num_external_computed_tokens : Z)
    : res (Manager * BlockPool) :=
  match num_cached_block m !! rid with
  | Some _ => ASSERT zlen new_computed_blocks =? 0; Ok (m, p)
  | None =>
      ASSERT zlen (req_blocks m rid) =? 0;
      let num_total_computed_tokens := num_local_computed_tokens + num_external_computed_tokens in
      let num_skipped_tokens := get_num_skipped_tokens m num_total_computed_tokens in
      let num_skipped_blocks := num_skipped_tokens / mgr_block_size m in
      let '(new_computed_blocks, num_external_computed_tokens) :=
        if 0 <? num_skipped_blocks then
          (py_from new_computed_blocks num_skipped_blocks,
           Z.min (num_total_computed_tokens - num_skipped_tokens) num_external_computed_tokens)
        else (new_computed_blocks, num_external_computed_tokens) in
      p ← (if mgr_enable_caching m then touch p new_computed_blocks
           else ASSERT zlen new_computed_blocks =? 0; Ok p);
      let blks := req_blocks m rid ++ zreplicate num_skipped_blocks (mgr_null_block m)
                    ++ new_computed_blocks in
      let m := with_cached (set_blocks m rid blks) (<[rid := zlen blks]> (num_cached_block m)) in
      if 0 <? num_external_computed_tokens then
        '(allocated, p) ← get_new_blocks use_int p
          (cdiv num_total_computed_tokens (mgr_block_size m) - zlen blks);
        Ok (record_new_ids (set_blocks m rid (blks ++ allocated)) p allocated, p)
      else Ok (m, p)
  end.

Definition allocate_new_computed_blocks (m : Manager) (p : BlockPool) (rid : string)
    (new_computed_blocks : list ref) (num_local_computed_tokens num_external_computed_tokens : Z)
    : res (Manager * BlockPool) :=
  match mgr_spec m with
  | CrossAttentionSpec _ => ASSERT zlen new_computed_blocks =? 0; Ok (m, p)
  | _ => base_allocate_new_computed_blocks m p rid new_computed_blocks
           num_local_computed_tokens num_external_computed_tokens
  end.

(** ** Allocating new blocks *)

Definition base_allocate_new_blocks (m : Manager) (p : BlockPool) (rid : string) (num_tokens : Z)
    : res (list ref * Manager * BlockPool) :=
  let m := touch_key m rid in
  let num_new_blocks := cdiv num_tokens (mgr_block_size m) - zlen (req_blocks m rid) in
  if num_new_blocks <=? 0 then Ok ([], m, p) else
  '(new_blocks, p) ← get_new_blocks use_int p num_new_blocks;
  Ok (new_blocks, record_new_ids (set_blocks m rid (req_blocks m rid ++ new_blocks)) p new_blocks, p).

(** [for block_idx in range(prev - num_speculative_blocks, prev)]: moves the
    speculative blocks that fall into the skipped range to the end. *)
Fixpoint reuse_spec_blocks (null : ref) (num_skipped_blocks : Z) (idxs : list Z) (blks : list ref)
    : res (list ref) :=
  match idxs with
  | [] => Ok blks
  | i :: idxs =>
      if i <? num_skipped_blocks then
        b ← py_index blks i;
        blks ← py_set (blks ++ [b]) i null;
        reuse_spec_blocks null num_skipped_blocks idxs blks
      else Ok blks
  end.

Definition mamba_align_allocate (m : Manager) (p : BlockPool) (rid : string)
    (num_tokens_main_model : Z) : res (list ref * Manager * BlockPool) :=
  let m := touch_key m rid in
  let blks := req_blocks m rid in
  let nspec := spec_blocks (mgr_spec m) in
  let num_required_blocks := cdiv num_tokens_main_model (mgr_block_size m) + nspec in
  if num_required_blocks =? zlen blks then Ok ([], m, p) else
  ASSERT zlen blks <? num_required_blocks;
  let prev_block_len := zlen blks in
  let blocks_allocated := bool_decide (rid ∈ allocated_block_reqs m) in
  let idx :=
    if blocks_allocated then <[rid := prev_block_len - 1 - nspec]> (last_state_block_idx m)
    else if 0 <? prev_block_len then <[rid := prev_block_len - 1]> (last_state_block_idx m)
    else last_state_block_idx m in
  let num_skipped_blocks := num_required_blocks - nspec - 1 in
  let blks := blks ++ zreplicate (num_skipped_blocks - prev_block_len) (mgr_null_block m) in
  blks ← (if blocks_allocated then
            reuse_spec_blocks (mgr_null_block m) num_skipped_blocks
              (zrange (prev_block_len - nspec) prev_block_len) blks
          else Ok blks);
  let num_new_blocks := num_required_blocks - zlen blks in
  ASSERT (if blocks_allocated then num_new_blocks <=? 1 else num_new_blocks <=? nspec + 1);
  '(new_blocks, p) ← get_new_blocks use_int p num_new_blocks;
  let blks := blks ++ new_blocks in
  let m := with_align (set_blocks m rid blks) idx ({[rid]} ∪ allocated_block_reqs m) in
  Ok (py_from blks prev_block_len, m, p).

Definition allocate_new_blocks (m : Manager) (p : BlockPool) (rid : string)
    (num_tokens num_tokens_main_model : Z) : res (list ref * Manager * BlockPool) :=
  match mgr_spec m with
  | MambaSpec f =>
      if negb (mamba_align (mgr_spec m)) then
        let num_tokens :=
          if 0 <? num_speculative_blocks f
          then num_tokens + mgr_block_size m * num_speculative_blocks f else num_tokens in
        base_allocate_new_blocks m p rid num_tokens
      else mamba_align_allocate m p rid num_tokens_main_model
  | _ => base_allocate_new_blocks m p rid num_tokens
  end.

Definition take_new_block_ids (m : Manager) : list Z * Manager :=
  (new_block_ids m, with_new_ids m []).

(** ** Registering full blocks *)

Definition base_cache_blocks (m : Manager) (p : BlockPool) (r : Request) (num_tokens : Z)
    : res (Manager * BlockPool * Request) :=
  let rid := request_id r in
  let num_cached_blocks := default 0 (num_cached_block m !! rid) in
  num_full_blocks ← py_div num_tokens (mgr_block_size m);
  if num_full_blocks <=? num_cached_blocks then Ok (m, p, r) else
  let m := touch_key m rid in
  '(p, r) ← cache_full_blocks use_int sha256 p r (req_blocks m rid) num_cached_blocks
              num_full_blocks (mgr_block_size m) (kv_cache_group_id m);
  Ok (with_cached m (<[rid := num_full_blocks]> (num_cached_block m)), p, r).

(** Adds the hash of a newly cached Mamba block to this step's set. *)
Definition note_cached (p : BlockPool) (s : gset bytes) (b : ref) : res (gset bytes) :=
  if is_null (p_store p b) then Ok s else
  match block_hash (p_store p b) with
  | None => Err AssertionError
  | Some h => Ok ({[h]} ∪ s)
  end.

Definition cache_blocks (m : Manager) (p : BlockPool) (r : Request) (num_tokens : Z)
    : res (Manager * BlockPool * Request) :=
  match mgr_spec m with
  | CrossAttentionSpec _ => Err ValueError
  | MambaSpec _ =>
      let before := default 0 (num_cached_block m !! request_id r) in
      '(m, p, r) ← base_cache_blocks m p r num_tokens;
      let after := default 0 (num_cached_block m !! request_id r) in
      if before <? after then
        s ← rfold (note_cached p) (cached_blocks_this_step m)
              (py_slice (req_blocks m (request_id r)) before after);
        Ok (with_this_step m s, p, r)
      else Ok (m, p, r)
  | _ => base_cache_blocks m p r num_tokens
  end.

Definition new_step_starts (m : Manager) : Manager :=
  match mgr_spec m with MambaSpec _ => with_this_step m ∅ | _ => m end.

(** ** Freeing *)

Definition base_free (m : Manager) (p : BlockPool) (rid : string) : res (Manager * BlockPool) :=
  let blks := req_blocks m rid in
  let m := with_blocks m (delete rid (req_to_blocks m)) in
  p ← free_blocks p (reverse blks);
  Ok (with_cached m (delete rid (num_cached_block m)), p).

Definition free (m : Manager) (p : BlockPool) (rid : string) : res (Manager * BlockPool) :=
  let m :=
    if mamba_align (mgr_spec m) then
      with_align m (delete rid (last_state_block_idx m)) (allocated_block_reqs m ∖ {[rid]})
    else m in
  base_free m p rid.

(** [for i in range(n - 1, -1, -1)]: null out blocks until one already is. *)
Fixpoint skip_loop (null : ref) (n : nat) (blks : list ref) (removed : list ref)
    : list ref * list ref :=
  match n with
  | O => (blks, removed)
  | S i =>
      match blks !! i with
      | Some b =>
          if decide (b = null) then (blks, removed)
          else skip_loop null i (<[i := null]> blks) (removed ++ [b])
      | None => (blks, removed)
      end
  end.

Definition base_remove_skipped_blocks (m : Manager) (p : BlockPool) (rid : string)
    (total_computed_tokens : Z) : res (Manager * BlockPool) :=
  let num_skipped_tokens := get_num_skipped_tokens m total_computed_tokens in
  if num_skipped_tokens <=? 0 then Ok (m, p) else
  let m := touch_key m rid in
  let blks := req_blocks m rid in
  num_skipped_blocks ← py_div num_skipped_tokens (mgr_block_size m);
  let num_skipped_blocks := Z.min num_skipped_blocks (zlen blks) in
  let '(blks, removed) := skip_loop (mgr_null_block m) (Z.to_nat num_skipped_blocks) blks [] in
  p ← free_blocks p removed;
  Ok (set_blocks m rid blks, p).

Definition remove_skipped_blocks (m : Manager) (p : BlockPool) (rid : string)
    (total_computed_tokens : Z) : res (Manager * BlockPool) :=
  match mgr_spec m with
  | MambaSpec f =>
      let num_computed_tokens := Z.max 0 (total_computed_tokens - num_speculative_blocks f) in
      '(m, p) ← base_remove_skipped_blocks m p rid num_computed_tokens;
      if negb (mamba_align (mgr_spec m)) then Ok (m, p) else
      match last_state_block_idx m !! rid with
      | Some idx =>
          if idx <? cdiv num_computed_tokens (mgr_block_size m) - 1 then
            let m := touch_key m rid in
            b ← py_index (req_blocks m rid) idx;
            if decide (b = mgr_null_block m) then Ok (m, p) else
            p ← free_blocks p [b];
            blks ← py_set (req_blocks m rid) idx (mgr_null_block m);
            Ok (set_blocks m rid blks, p)
          else Ok (m, p)
      | None => Ok (m, p)
      end
  | _ => base_remove_skipped_blocks m p rid total_computed_tokens
  end.
End manager.

(** ** Common prefix *)

Fixpoint count_common (p : BlockPool) (n : Z) (blks : list ref) : Z :=
  match blks with
  | [] => 0
  | b :: blks => if ref_cnt (p_store p b) =? n then 1 + count_common p n blks else 0
  end.

(** A missing request gets an entry before the requests are counted. *)
Definition get_num_common_prefix_blocks (m : Manager) (p : BlockPool) (rid : string)
    : Z * Manager :=
  match mgr_spec m with
  | FullAttentionSpec _ _ | MLAAttentionSpec _ _ _ | SinkFullAttentionSpec _ _ _ =>
      let m := touch_key m rid in
      (count_common p (Z.of_nat (size (req_to_blocks m))) (req_blocks m rid), m)
  | _ => (0, m)
  end.
