(* ===== verification/ManagerInv.v ===== *)
(** * Block accounting of the single-type managers

    The blocks a manager holds for its requests, as a multiset, are part of the
    references the pool counts ([PoolInv]).  Every operation of
    SingleTypeManager.v is specified against this accounting; [rest] stands for
    the references of the other managers. *)

From S2P Require Import Prelude Blocks FreeQueue Request BlockHash Metrics HashMap BlockPool PoolInv.
From S2P Require Import PoolProps KVCacheSpec CacheHit HitProps HitExamples SingleTypeManager.
Import FreeKVCacheBlockQueue.

Abbreviation mset l := (list_to_set_disj l : gmultiset ref).

(** ** The blocks a manager holds *)

Definition held_by (M : gmap string (list ref)) : gmultiset ref :=
  map_fold (λ _ l acc, mset l ⊎ acc) ∅ M.
Definition held (m : Manager) : gmultiset ref := held_by (req_to_blocks m).

Lemma held_by_insert M rid l :
  M !! rid = None → held_by (<[rid := l]> M) = mset l ⊎ held_by M.
Proof.
  intros. unfold held_by. rewrite map_fold_insert_L; [done| |done].
  intros. multiset_solver.
Qed.

(** One request's blocks and those of the others. *)
Lemma held_by_split M rid :
  held_by M = mset (default [] (M !! rid)) ⊎ held_by (delete rid M).
Proof.
  destruct (M !! rid) as [l|] eqn:E; cbn [default].
  - rewrite <- (insert_delete_id M rid l E) at 1. rewrite held_by_insert; [done|].
    apply lookup_delete_eq.
  - rewrite delete_id by done. multiset_solver.
Qed.

Lemma held_set m rid l :
  held (set_blocks m rid l) = mset l ⊎ held_by (delete rid (req_to_blocks m)).
Proof.
  unfold held. cbn. rewrite (held_by_split _ rid), lookup_insert_eq. cbn [default].
  by rewrite delete_insert_eq.
Qed.

Lemma held_split m rid :
  held m = mset (req_blocks m rid) ⊎ held_by (delete rid (req_to_blocks m)).
Proof. apply held_by_split. Qed.

Lemma req_blocks_set m rid l : req_blocks (set_blocks m rid l) rid = l.
Proof. unfold req_blocks. cbn. by rewrite lookup_insert_eq. Qed.

Lemma req_blocks_set_ne m rid rid' l :
  rid' ≠ rid → req_blocks (set_blocks m rid l) rid' = req_blocks m rid'.
Proof. intros. unfold req_blocks. cbn. by rewrite lookup_insert_ne. Qed.

Lemma held_touch m rid : held (touch_key m rid) = held m.
Proof. unfold touch_key. rewrite held_set. symmetry. apply held_split. Qed.

Lemma req_blocks_touch m rid rid' : req_blocks (touch_key m rid) rid' = req_blocks m rid'.
Proof.
  destruct (decide (rid' = rid)) as [->|]; [apply req_blocks_set|by apply req_blocks_set_ne].
Qed.

Lemma set_touch m rid l : set_blocks (touch_key m rid) rid l = set_blocks m rid l.
Proof. unfold touch_key, set_blocks, with_blocks. cbn. by rewrite insert_insert_eq. Qed.

(** What stays of a manager when blocks of the request [rid] change. *)
Record same_mgr (rid : string) (m m' : Manager) : Prop := {
  sm_spec : mgr_spec m' = mgr_spec m;
  sm_bs : mgr_block_size m' = mgr_block_size m;
  sm_caching : mgr_enable_caching m' = mgr_enable_caching m;
  sm_gid : kv_cache_group_id m' = kv_cache_group_id m;
  sm_null : mgr_null_block m' = mgr_null_block m;
  sm_others : ∀ rid', rid' ≠ rid → req_blocks m' rid' = req_blocks m rid';
  sm_cached : ∀ rid', rid' ≠ rid → num_cached_block m' !! rid' = num_cached_block m !! rid';
}.

#[export] Instance same_mgr_preorder rid : PreOrder (same_mgr rid).
Proof.
  split.
  - done.
  - intros m1 m2 m3 [] []. split; try congruence.
    + intros. rewrite sm_others1 by done. by apply sm_others0.
    + intros. rewrite sm_cached1 by done. by apply sm_cached0.
Qed.

Lemma same_mgr_set m rid l : same_mgr rid m (set_blocks m rid l).
Proof. split; try done. intros. by apply req_blocks_set_ne. Qed.

Lemma record_new_ids_same rid m p l : same_mgr rid m (record_new_ids m p l).
Proof. unfold record_new_ids. by case_match. Qed.

Lemma record_new_ids_fields m p l :
  req_to_blocks (record_new_ids m p l) = req_to_blocks m
  ∧ num_cached_block (record_new_ids m p l) = num_cached_block m.
Proof. unfold record_new_ids. by case_match. Qed.

Lemma held_record m p l : held (record_new_ids m p l) = held m.
Proof. unfold held. by rewrite (proj1 (record_new_ids_fields m p l)). Qed.

Lemma req_blocks_record m p l rid : req_blocks (record_new_ids m p l) rid = req_blocks m rid.
Proof. unfold req_blocks. by rewrite (proj1 (record_new_ids_fields m p l)). Qed.

(** References to the null block are not counted. *)
Lemma PoolInv_null_refs R own own' p fl :
  PoolInv R own p fl →
  (∀ r, r ≠ null_block p → multiplicity r own' = multiplicity r own) →
  PoolInv R own' p fl.
Proof.
  intros [Hr Hf Hd] Hm. split; [done|done|]. pose proof (null_in_blocks _ _ _ Hd).
  destruct Hd. split; try done.
  - intros r Hin. destruct (decide (r = null_block p)) as [->|Hne].
    + split; [done|]. intros HR. by apply pd_R in HR as [_ ?].
    + apply pd_own. rewrite elem_of_multiplicity in *. by rewrite <- Hm.
  - intros r Hb Hn. rewrite Hm by done. by apply pd_cnt.
Qed.

Lemma free_count R own p fl : PoolInv R own p fl → get_num_free_blocks p = zlen fl.
Proof. intros H. apply (fr_num _ _ (pi_rep _ _ _ _ H)). Qed.

(** ** Allocating new blocks *)

Section ops.
Context (use_int : bool) (R : gset ref) (rest : gmultiset ref).

Lemma grow_request m p fl rid n :
  PoolInv R (held m ⊎ rest) p fl → 0 ≤ n ≤ zlen fl →
  ∃ p', get_new_blocks use_int p n = Ok (take (Z.to_nat n) fl, p')
    ∧ PoolInv R (held (set_blocks m rid (req_blocks m rid ++ take (Z.to_nat n) fl)) ⊎ rest) p'
        (drop (Z.to_nat n) fl)
    ∧ same_pool p p'
    ∧ (enable_caching p = true →
         ∀ b, b ∈ take (Z.to_nat n) fl → block_hash (p_store p' b) = None)
    ∧ (∀ r, r ∉ take (Z.to_nat n) fl → block_hash (p_store p' r) = block_hash (p_store p r)).
Proof.
  intros H Hn. rewrite <- (free_count _ _ _ _ H) in Hn.
  destruct (get_new_blocks_spec use_int R _ p fl n H Hn) as (p' & E & H' & Hs & Hh & Ho).
  exists p'. split; [done|]. split; [|done]. eapply PoolInv_proper; [done| |exact H'].
  rewrite held_set, (held_split m rid), list_to_set_disj_app. multiset_solver.
Qed.

(** The number of blocks [allocate_new_blocks] adds. *)
Definition missing_blocks (m : Manager) (rid : string) (num_tokens : Z) : Z :=
  Z.max 0 (cdiv num_tokens (mgr_block_size m) - zlen (req_blocks m rid)).

Lemma base_allocate_spec m p fl rid n :
  PoolInv R (held m ⊎ rest) p fl → missing_blocks m rid n ≤ zlen fl →
  let k := Z.to_nat (missing_blocks m rid n) in
  ∃ m' p', base_allocate_new_blocks use_int m p rid n = Ok (take k fl, m', p')
    ∧ PoolInv R (held m' ⊎ rest) p' (drop k fl) ∧ same_pool p p' ∧ same_mgr rid m m'
    ∧ req_blocks m' rid = req_blocks m rid ++ take k fl
    ∧ num_cached_block m' = num_cached_block m
    ∧ (enable_caching p = true → ∀ b, b ∈ take k fl → block_hash (p_store p' b) = None)
    ∧ (∀ r, r ∉ take k fl → block_hash (p_store p' r) = block_hash (p_store p r)).
Proof.
  intros H Hn k. unfold base_allocate_new_blocks. rewrite req_blocks_touch.
  change (mgr_block_size (touch_key m rid)) with (mgr_block_size m).
  unfold missing_blocks in *. destruct (_ <=? 0) eqn:E; to_prop.
  - assert (k = 0%nat) as -> by lia. exists (touch_key m rid), p. rewrite held_touch.
    split; [done|]. split; [done|]. split; [done|]. split; [apply same_mgr_set|].
    split; [by rewrite req_blocks_touch, app_nil_r|]. split; [done|]. split; [|done].
    by intros _ b ?%elem_of_nil.
  - destruct (grow_request m p fl rid (cdiv n (mgr_block_size m) - zlen (req_blocks m rid)) H)
      as (p' & -> & H' & Hs & Hh & Ho); [lia|]. cbn [mbind res_bind].
    replace (Z.to_nat (cdiv n (mgr_block_size m) - zlen (req_blocks m rid))) with k in * by lia.
    eexists _, p'. split; [done|]. rewrite held_record, req_blocks_record, set_touch.
    split; [done|]. split; [done|]. split.
    { etrans; [apply same_mgr_set|apply record_new_ids_same]. }
    split; [apply req_blocks_set|]. split; [|done].
    by rewrite (proj2 (record_new_ids_fields _ _ _)).
Qed.

Lemma base_allocate_short m p fl rid n :
  PoolInv R (held m ⊎ rest) p fl → zlen fl < missing_blocks m rid n →
  base_allocate_new_blocks use_int m p rid n = Err ValueError.
Proof.
  intros H Hn. unfold base_allocate_new_blocks, missing_blocks in *. rewrite req_blocks_touch.
  change (mgr_block_size (touch_key m rid)) with (mgr_block_size m).
  pose proof (zlen_nonneg fl). rewrite (proj2 (Z.leb_gt _ _)) by lia.
  rewrite get_new_blocks_short; [done|]. rewrite (free_count _ _ _ _ H). lia.
Qed.

(** ** Adding computed blocks *)

Definition num_skipped_blocks (m : Manager) (total : Z) : Z :=
  Z.max 0 (get_num_skipped_tokens m total / mgr_block_size m).

(** The blocks of a new request after a hit: null blocks for the skipped ones,
    then the rest of the hit. *)
Definition hit_blocks (m : Manager) (hits : list ref) (total : Z) : list ref :=
  zreplicate (num_skipped_blocks m total) (mgr_null_block m)
    ++ drop (Z.to_nat (num_skipped_blocks m total)) hits.

(** The blocks allocated at once for external tokens. *)
Definition external_blocks (m : Manager) (hits : list ref) (total ext : Z) : Z :=
  if 0 <? (if 0 <? num_skipped_blocks m total
           then Z.min (total - get_num_skipped_tokens m total) ext else ext)
  then cdiv total (mgr_block_size m) - zlen (hit_blocks m hits total) else 0.

Definition valid_hits (p : BlockPool) (hits : list ref) : Prop :=
  ∀ b, b ∈ hits → b ∈ blocks p ∧ b ∉ R.

Lemma pad_hits m (hits : list ref) total :
  (if 0 <? get_num_skipped_tokens m total / mgr_block_size m
   then py_from hits (get_num_skipped_tokens m total / mgr_block_size m) else hits)
  = drop (Z.to_nat (num_skipped_blocks m total)) hits.
Proof.
  unfold num_skipped_blocks. case_match eqn:E; to_prop.
  - rewrite py_from_nonneg by lia. f_equal. lia.
  - by rewrite Z.max_l by lia.
Qed.

Lemma mset_nulls n x (r : ref) : r ≠ x → multiplicity r (mset (zreplicate n x)) = 0%nat.
Proof.
  intros Hr. apply not_in_multiplicity_0. by intros [-> _]%elem_of_replicate.
Qed.

Lemma computed_spec m p fl rid hits local ext :
  PoolInv R (held m ⊎ rest) p fl → mgr_null_block m = null_block p →
  num_cached_block m !! rid = None → req_blocks m rid = [] →
  valid_hits p hits → (mgr_enable_caching m = false → hits = []) →
  let total := local + ext in
  let blks := hit_blocks m hits total in
  let fl1 := filter (λ x, x ∉ drop (Z.to_nat (num_skipped_blocks m total)) hits) fl in
  let k := external_blocks m hits total ext in
  0 ≤ k ≤ zlen fl1 →
  ∃ m' p', base_allocate_new_computed_blocks use_int m p rid hits local ext = Ok (m', p')
    ∧ PoolInv R (held m' ⊎ rest) p' (drop (Z.to_nat k) fl1) ∧ same_pool p p' ∧ same_mgr rid m m'
    ∧ req_blocks m' rid = blks ++ take (Z.to_nat k) fl1
    ∧ num_cached_block m' !! rid = Some (zlen blks)
    ∧ (enable_caching p = true →
         ∀ b, b ∈ take (Z.to_nat k) fl1 → block_hash (p_store p' b) = None)
    ∧ (∀ r, r ∉ take (Z.to_nat k) fl1 → block_hash (p_store p' r) = block_hash (p_store p r)).
Proof.
  intros H Hnull Hc Hreq Hv Hcaching total blks fl1 k Hk.
  unfold base_allocate_new_computed_blocks. rewrite Hc, Hreq. cbn [zlen length app Z.eqb]. fold total.
  assert ((if 0 <? get_num_skipped_tokens m total / mgr_block_size m
    then (py_from hits (get_num_skipped_tokens m total / mgr_block_size m),
          Z.min (total - get_num_skipped_tokens m total) ext) else (hits, ext))
    = (drop (Z.to_nat (num_skipped_blocks m total)) hits,
       if 0 <? num_skipped_blocks m total
       then Z.min (total - get_num_skipped_tokens m total) ext else ext)) as ->.
  { rewrite <- pad_hits. unfold num_skipped_blocks.
    destruct (0 <? get_num_skipped_tokens m total / _) eqn:E; to_prop.
    - by rewrite (proj2 (Z.ltb_lt _ _)) by lia.
    - by rewrite (proj2 (Z.ltb_ge _ _)) by lia. }
  set (s := num_skipped_blocks m total) in *. set (hits' := drop (Z.to_nat s) hits) in *.
  destruct (touch_spec hits' R _ p fl H) as (p1 & Et & H1 & Hs1 & Hh1).
  { intros b Hb%elem_of_drop_1. by apply Hv. }
  assert ((if mgr_enable_caching m then touch p hits'
           else ASSERT zlen hits' =? 0; Ok p) = Ok p1) as ->.
  { destruct (mgr_enable_caching m); [done|]. unfold hits' in *. rewrite Hcaching in * by done.
    rewrite drop_nil in *. cbn. by injection Et as <-. }
  cbn [mbind res_bind].
  assert (zreplicate (get_num_skipped_tokens m total / mgr_block_size m) (mgr_null_block m)
    = zreplicate s (mgr_null_block m)) as ->.
  { unfold zreplicate, s, num_skipped_blocks. f_equal. lia. }
  change (zreplicate s (mgr_null_block m) ++ hits') with blks.
  set (m1 := with_cached (set_blocks m rid blks) (<[rid:=zlen blks]> (num_cached_block m))).
  assert (same_mgr rid m m1) as Hm1.
  { split; try done; [by intros; apply (req_blocks_set_ne m)|]. intros. cbn. by rewrite lookup_insert_ne. }
  assert (PoolInv R (held m1 ⊎ rest) p1 fl1) as H1'.
  { eapply PoolInv_null_refs; [exact H1|]. intros r Hr. rewrite (sp_null _ _ Hs1) in Hr.
    change (held m1) with (held (set_blocks m rid blks)). rewrite held_set, (held_split m rid), Hreq.
    unfold blks, hit_blocks. fold s hits'. rewrite list_to_set_disj_app.
    rewrite !multiplicity_disj_union, mset_nulls by congruence.
    rewrite list_to_set_disj_nil, multiplicity_empty. lia. }
  assert (req_blocks m1 rid = blks) as Hb1 by apply (req_blocks_set m).
  assert (num_cached_block m1 !! rid = Some (zlen blks)) as Hc1 by apply lookup_insert_eq.
  destruct (0 <? _) eqn:Eext.
  - assert (k = cdiv total (mgr_block_size m) - zlen blks) as Ek.
    { unfold k, external_blocks. fold s. by rewrite Eext. }
    destruct (grow_request m1 p1 fl1 rid k H1' Hk) as (p2 & Eg & H2 & Hs2 & Hn2 & Hh2).
    rewrite Hb1 in H2. change (mgr_block_size m1) with (mgr_block_size m). rewrite <- Ek, Eg.
    cbn [mbind res_bind]. eexists _, p2. split; [done|].
    rewrite held_record, req_blocks_record, (proj2 (record_new_ids_fields _ _ _)).
    split; [done|]. split; [by etrans|]. split.
    { etrans; [exact Hm1|]. etrans; [apply same_mgr_set|apply record_new_ids_same]. }
    split; [apply req_blocks_set|]. split; [done|]. rewrite (sp_caching _ _ Hs1) in Hn2.
    split; [done|]. intros r Hr. rewrite Hh2 by done. apply Hh1.
  - assert (k = 0) as ->. { unfold k, external_blocks. fold s. by rewrite Eext. }
    exists m1, p1. split; [done|]. split; [done|]. split; [done|]. split; [done|].
    split; [by rewrite app_nil_r|]. split; [done|]. split; [|done].
    by intros _ b ?%elem_of_nil.
Qed.

(** A running request has no new hits. *)
Lemma computed_running m p rid c local ext :
  num_cached_block m !! rid = Some c →
  base_allocate_new_computed_blocks use_int m p rid [] local ext = Ok (m, p).
Proof. intros Hc. unfold base_allocate_new_computed_blocks. by rewrite Hc. Qed.

(** ** The capacity check *)

(** Touching takes at most the evictable hits off the free list. *)
Lemma evictable_bound own p fl l :
  PoolInv R own p fl →
  zlen fl - get_num_evictable_blocks p l ≤ zlen (filter (λ x, x ∉ l) fl).
Proof.
  intros [Hr Hf Hd]. unfold get_num_evictable_blocks, zlen.
  assert (length (filter (λ x, x ∈ l) fl) ≤ length (filter (evictable p) l))%nat as Hle.
  { apply NoDup_incl_length.
    - apply NoDup_ListNoDup, NoDup_filter, Hr.
    - intros x. rewrite <- !list_elem_of_In, !list_elem_of_filter.
      intros [Hx (Hb & Hn & _ & Hz)%Hf]. split; [|done]. split; [done|].
      destruct (is_null (p_store p x)) eqn:E; [|done].
      by apply (pd_is_null _ _ _ Hd x Hb) in E. }
  assert (length fl = length (filter (λ x, x ∈ l) fl) + length (filter (λ x, x ∉ l) fl))%nat.
  { rewrite <- length_app. by rewrite filter_app_complement. }
  lia.
Qed.

(** The window or chunk of the spec is meaningful. *)
Definition window_ok (s : LayerSpec) : Prop :=
  match s with
  | SlidingWindowSpec _ sw => 1 ≤ sw
  | ChunkedLocalAttentionSpec _ chunk => 0 < chunk
  | _ => True
  end.

Lemma skipped_le m t : window_ok (mgr_spec m) → 0 ≤ t → get_num_skipped_tokens m t ≤ t.
Proof.
  intros Hw Ht. unfold get_num_skipped_tokens. destruct (mgr_spec m); cbn in Hw; try lia.
  rewrite Z.mul_comm. by apply Z.mul_div_le.
Qed.

Lemma skipped_blocks_le m t :
  0 < mgr_block_size m → window_ok (mgr_spec m) → 0 ≤ t →
  num_skipped_blocks m t ≤ t / mgr_block_size m.
Proof.
  intros Hb Hw Ht. unfold num_skipped_blocks. pose proof (skipped_le m t Hw Ht).
  apply Z.max_lub; [by apply Z.div_pos|]. apply Z.div_le_mono; lia.
Qed.

Lemma zlen_hit_blocks m hits total :
  zlen (hit_blocks m hits total) = Z.max (num_skipped_blocks m total) (zlen hits).
Proof.
  unfold hit_blocks. rewrite zlen_app, zlen_replicate. unfold zlen. rewrite length_drop.
  unfold num_skipped_blocks. lia.
Qed.

(** The requests a manager tracks: a request without an entry in
    [num_cached_block] has no blocks yet. *)
Definition tracked (m : Manager) (rid : string) : Prop :=
  num_cached_block m !! rid = None → req_blocks m rid = [].

(** What a scheduler passes: hits only for new requests and only with caching,
    covered by the local tokens, and room for all computed tokens. *)
Record legal_hits (m : Manager) (p : BlockPool) (rid : string) (hits : list ref)
    (local ext num_tokens : Z) : Prop := {
  lh_valid : valid_hits p hits;
  lh_caching : mgr_enable_caching m = false → hits = [];
  lh_new : num_cached_block m !! rid ≠ None → hits = [];
  lh_local : zlen hits * mgr_block_size m ≤ local;
  lh_ext : 0 ≤ ext;
  lh_total : local + ext ≤ num_tokens;
}.

Lemma capacity_new m p rid num_tokens hits total :
  num_cached_block m !! rid = None → req_blocks m rid = [] →
  base_num_blocks_to_allocate m p rid num_tokens hits total
  = Ok (Z.max (cdiv num_tokens (mgr_block_size m) - zlen (hit_blocks m hits total)) 0
        + get_num_evictable_blocks p (drop (Z.to_nat (num_skipped_blocks m total)) hits)).
Proof.
  intros Hc Hr. unfold base_num_blocks_to_allocate. rewrite Hc, Hr, zlen_hit_blocks. cbn [zlen length].
  unfold num_skipped_blocks. rewrite py_from_nonneg by lia. pose proof (zlen_nonneg hits).
  rewrite Z.sub_0_r, Z.add_0_r. do 2 f_equal. lia.
Qed.

(** The blocks of the hit that the next tokens still attend to are in place. *)
Definition hits_in_place (m m' : Manager) (rid : string) (hits : list ref) (total : Z) : Prop :=
  num_cached_block m !! rid = None →
  ∀ i b, hits !! i = Some b → num_skipped_blocks m total ≤ Z.of_nat i →
    req_blocks m' rid !! i = Some b.

Lemma capacity_sound m p fl rid hits local ext num_tokens :
  PoolInv R (held m ⊎ rest) p fl → mgr_null_block m = null_block p →
  0 < mgr_block_size m → window_ok (mgr_spec m) → tracked m rid →
  legal_hits m p rid hits local ext num_tokens →
  ∃ n, base_num_blocks_to_allocate m p rid num_tokens hits (local + ext) = Ok n
    ∧ (n ≤ zlen fl →
       ∃ m1 p1 new m2 p2 fl2,
         base_allocate_new_computed_blocks use_int m p rid hits local ext = Ok (m1, p1)
         ∧ base_allocate_new_blocks use_int m1 p1 rid num_tokens = Ok (new, m2, p2)
         ∧ PoolInv R (held m2 ⊎ rest) p2 fl2 ∧ zlen fl - n ≤ zlen fl2
         ∧ same_pool p p2 ∧ same_mgr rid m m1 ∧ same_mgr rid m m2
         ∧ zlen (req_blocks m2 rid)
             = Z.max (zlen (req_blocks m rid)) (cdiv num_tokens (mgr_block_size m))
         ∧ hits_in_place m m2 rid hits (local + ext)).
Proof.
  intros H Hnull Hb Hw Ht [Hv Hca Hnew Hloc Hext Htot]. set (bs := mgr_block_size m) in *.
  destruct (num_cached_block m !! rid) as [c|] eqn:Ec.
  { rewrite (Hnew ltac:(done)) in *. unfold base_num_blocks_to_allocate. rewrite Ec.
    eexists. split; [done|]. fold bs. intros Hn. exists m, p.
    destruct (base_allocate_spec m p fl rid num_tokens H) as (m2 & p2 & E & H2 & Hs & Hm & Hbl & _).
    { unfold missing_blocks. fold bs. lia. }
    eexists _, m2, p2, _. split; [by eapply computed_running|]. split; [exact E|].
    split; [exact H2|]. split; [unfold missing_blocks, zlen in *; rewrite length_drop; fold bs; lia|].
    split; [done|]. split; [done|]. split; [done|]. split; [|by intros Hc; rewrite Ec in Hc].
    rewrite Hbl, zlen_app. unfold missing_blocks, zlen in *. rewrite length_take. fold bs. lia. }
  assert (req_blocks m rid = []) as Hr by (by apply Ht).
  pose proof (zlen_nonneg hits) as Hnn. assert (0 ≤ local) as Hlnn by nia.
  eexists. split; [by apply capacity_new|]. fold bs. intros Hn.
  set (total := local + ext) in *. set (blks := hit_blocks m hits total) in *.
  assert (zlen blks ≤ cdiv total bs) as Hbl.
  { unfold blks. rewrite zlen_hit_blocks. pose proof (skipped_blocks_le m total Hb Hw ltac:(lia)) as Hsk.
    fold bs in Hsk. pose proof (div_le_cdiv total bs Hb). apply Z.max_lub; [lia|].
    etrans; [|apply cdiv_mono with (a := zlen hits * bs); lia]. rewrite cdiv_mul; lia. }
  pose proof (cdiv_mono total num_tokens bs Hb Htot) as Hmono.
  pose proof (evictable_bound _ _ _ (drop (Z.to_nat (num_skipped_blocks m total)) hits) H) as Hev.
  pose proof (computed_spec m p fl rid hits local ext H Hnull Ec Hr Hv Hca) as Hcomp.
  cbv zeta in Hcomp. fold total blks in Hcomp.
  set (fl1 := filter _ fl) in *. set (k := external_blocks m hits total ext) in *.
  assert (0 ≤ k ≤ cdiv total bs - zlen blks) as Hk.
  { unfold k, external_blocks. fold blks bs. case_match; lia. }
  destruct Hcomp as (m1 & p1 & E1 & H1 & Hs1 & Hm1 & Hb1 & _); [lia|].
  assert (zlen (req_blocks m1 rid) = zlen blks + k) as Hl1.
  { rewrite Hb1, zlen_app. unfold zlen in *. rewrite length_take. lia. }
  assert (missing_blocks m1 rid num_tokens = cdiv num_tokens bs - zlen blks - k) as Hmiss.
  { unfold missing_blocks. rewrite (sm_bs _ _ _ Hm1), Hl1. fold bs. lia. }
  assert (zlen (drop (Z.to_nat k) fl1) = zlen fl1 - k) as Hl.
  { unfold zlen in *. rewrite length_drop. lia. }
  destruct (base_allocate_spec m1 p1 _ rid num_tokens H1) as (m2 & p2 & E2 & H2 & Hs2 & Hm2 & Hb2 & _).
  { lia. }
  eexists m1, p1, _, m2, p2, _. split; [exact E1|]. split; [exact E2|]. split; [exact H2|].
  split; [unfold zlen in *; rewrite length_drop; lia|]. split; [by etrans|]. split; [done|]. split; [by etrans|].
  rewrite Hb2, Hr. split.
  - rewrite zlen_app, Hl1. unfold zlen in *. rewrite length_take. cbn [length]. lia.
  - intros _ i b Hi Hs. rewrite Hb2, Hb1. unfold blks, hit_blocks. rewrite <- !app_assoc.
    assert (i < length hits)%nat by (by eapply lookup_lt_Some).
    unfold zreplicate. rewrite lookup_app_r by (rewrite length_replicate; lia).
    rewrite length_replicate. rewrite lookup_app_l by (rewrite length_drop; lia).
    rewrite lookup_drop. rewrite <- Hi. f_equal. lia.
Qed.

(** ** Freeing *)

Definition real_nodup (p : BlockPool) (l : list ref) : Prop := NoDup (filter (λ b, b ≠ null_block p) l).

Lemma mset_reverse (l : list ref) : mset (reverse l) = mset l.
Proof. apply list_to_set_disj_perm, reverse_Permutation. Qed.

Lemma real_nodup_reverse p l : real_nodup p l → real_nodup p (reverse l).
Proof. unfold real_nodup. by rewrite reverse_Permutation. Qed.

Lemma base_free_spec m p fl rid :
  PoolInv R (held m ⊎ rest) p fl → real_nodup p (req_blocks m rid) →
  ∃ m' p', base_free m p rid = Ok (m', p')
    ∧ PoolInv R (held m' ⊎ rest) p'
        (fl ++ released p (held m ⊎ rest) (reverse (req_blocks m rid)))
    ∧ same_pool p p' ∧ same_mgr rid m m'
    ∧ req_blocks m' rid = [] ∧ num_cached_block m' !! rid = None
    ∧ (∀ r, block_hash (p_store p' r) = block_hash (p_store p r)).
Proof.
  intros H Hnd. unfold base_free.
  destruct (free_blocks_spec R _ p fl (reverse (req_blocks m rid)) H) as (p' & E & H' & Hs & Hh).
  { rewrite mset_reverse, (held_split m rid). multiset_solver. }
  { by apply real_nodup_reverse. }
  rewrite E. cbn [mbind res_bind]. eexists _, p'. split; [done|]. split.
  { eapply PoolInv_proper; [done| |exact H']. rewrite mset_reverse, (held_split m rid).
    unfold held. cbn. multiset_solver. }
  split; [done|]. split.
  { split; try done; intros; cbn.
    - unfold req_blocks. cbn. by rewrite lookup_delete_ne.
    - by rewrite lookup_delete_ne. }
  split; [unfold req_blocks; cbn; by rewrite lookup_delete_eq|].
  split; [cbn; by rewrite lookup_delete_eq|done].
Qed.

(** ** Skipping blocks out of the window *)

(** Null blocks only as a prefix. *)
Definition null_prefix (null : ref) (l : list ref) : Prop :=
  ∃ k l', l = replicate k null ++ l' ∧ null ∉ l'.

Lemma skip_loop_run null k l tail removed :
  null ∉ l →
  skip_loop null (k + length l) (replicate k null ++ l ++ tail) removed
    = (replicate (k + length l) null ++ tail, removed ++ reverse l).
Proof.
  revert tail removed. induction l as [|b l IH] using rev_ind; intros tail removed Hl.
  - cbn. rewrite Nat.add_0_r, app_nil_r. destruct k as [|k]; [done|]. cbn [skip_loop].
    rewrite lookup_app_l, lookup_replicate_2 by (rewrite ?length_replicate; lia).
    by rewrite decide_True.
  - rewrite not_elem_of_app, not_elem_of_cons in Hl. destruct Hl as (Hl & Hb & _).
    rewrite length_app. cbn [length]. replace (k + (length l + 1))%nat with (S (k + length l)) by lia.
    cbn [skip_loop].
    assert ((replicate k null ++ (l ++ [b]) ++ tail) !! (k + length l)%nat = Some b) as ->.
    { rewrite lookup_app_r, length_replicate, <- app_assoc by (rewrite length_replicate; lia).
      replace (k + length l - k)%nat with (length l) by lia. by apply list_lookup_middle. }
    rewrite decide_False by done.
    assert (<[(k + length l)%nat := null]> (replicate k null ++ (l ++ [b]) ++ tail)
      = replicate k null ++ l ++ null :: tail) as ->.
    { rewrite insert_app_r_alt, length_replicate by (rewrite length_replicate; lia).
      replace (k + length l - k)%nat with (length l + 0)%nat by lia.
      by rewrite <- app_assoc, insert_app_r. }
    rewrite IH by done. rewrite reverse_app, <- app_assoc. cbn [reverse app].
    f_equal. replace (S (k + length l)) with (k + length l + 1)%nat by lia.
    by rewrite (replicate_add (k + length l) 1), <- app_assoc.
Qed.

Lemma skip_loop_spec null n l :
  null_prefix null l → (n ≤ length l)%nat →
  ∃ removed, skip_loop null n l [] = (replicate n null ++ drop n l, removed)
    ∧ (null ∉ removed) ∧ ∃ k, l ≡ₚ replicate k null ++ removed ++ drop n l ∧ (k ≤ n)%nat.
Proof.
  intros (k & l' & -> & Hl') Hn. rewrite length_app, length_replicate in Hn.
  destruct (decide (n ≤ k)%nat).
  - exists []. split.
    + destruct n as [|n]; [done|]. cbn [skip_loop].
      rewrite lookup_app_l, lookup_replicate_2 by (rewrite ?length_replicate; lia).
      rewrite decide_True by done. f_equal. rewrite drop_app_le by (rewrite length_replicate; lia).
      rewrite drop_replicate, app_assoc, <- replicate_add. do 2 f_equal. lia.
    + split; [apply not_elem_of_nil|]. exists n. split; [|done]. cbn [app].
      rewrite drop_app_le by (rewrite length_replicate; lia).
      rewrite drop_replicate, app_assoc, <- replicate_add.
      by replace (n + (k - n))%nat with k by lia.
  - pose proof (skip_loop_run null k (take (n - k) l') (drop (n - k) l') []) as E.
    rewrite take_drop, length_take, Nat.min_l in E by lia.
    replace (k + (n - k))%nat with n in E by lia.
    assert (drop n (replicate k null ++ l') = drop (n - k) l') as ->.
    { rewrite drop_app_ge by (rewrite length_replicate; lia). by rewrite length_replicate. }
    exists (reverse (take (n - k) l')). split.
    { apply E. intros ?%elem_of_take_1. done. }
    split; [rewrite elem_of_reverse; by intros ?%elem_of_take_1|].
    exists k. split; [|lia]. by rewrite reverse_Permutation, take_drop.
Qed.

Lemma base_skip_spec m p fl rid t :
  PoolInv R (held m ⊎ rest) p fl → mgr_null_block m = null_block p → 0 < mgr_block_size m →
  real_nodup p (req_blocks m rid) → null_prefix (mgr_null_block m) (req_blocks m rid) →
  let s := Z.to_nat (Z.min (num_skipped_blocks m t) (zlen (req_blocks m rid))) in
  ∃ m' p' fl', base_remove_skipped_blocks m p rid t = Ok (m', p')
    ∧ PoolInv R (held m' ⊎ rest) p' (fl ++ fl') ∧ same_pool p p' ∧ same_mgr rid m m'
    ∧ req_blocks m' rid = replicate s (null_block p) ++ drop s (req_blocks m rid)
    ∧ num_cached_block m' = num_cached_block m
    ∧ (∀ r, block_hash (p_store p' r) = block_hash (p_store p r)).
Proof.
  intros H Hnull Hb Hnd Hpre s. unfold base_remove_skipped_blocks. pose proof (zlen_nonneg (req_blocks m rid)).
  destruct (_ <=? 0) eqn:E; to_prop.
  { assert (s = 0%nat) as ->.
    { unfold s, num_skipped_blocks. assert (get_num_skipped_tokens m t / mgr_block_size m ≤ 0); [|lia].
      apply Z.div_le_upper_bound; lia. }
    exists m, p, []. rewrite app_nil_r. by split_and!. }
  change (mgr_block_size (touch_key m rid)) with (mgr_block_size m).
  change (mgr_null_block (touch_key m rid)) with (mgr_null_block m). rewrite req_blocks_touch.
  unfold py_div. rewrite (proj2 (Z.eqb_neq _ 0)) by lia. cbn [mbind res_bind].
  assert (0 ≤ get_num_skipped_tokens m t / mgr_block_size m) by (apply Z.div_pos; lia).
  replace (Z.to_nat (Z.min _ _)) with s by (unfold s, num_skipped_blocks; lia).
  destruct (skip_loop_spec (mgr_null_block m) s (req_blocks m rid) Hpre)
    as (removed & -> & Hrn & k & Hperm & Hk); [unfold s, zlen; lia|].
  assert (NoDup removed) as Hnd'.
  { unfold real_nodup in Hnd. rewrite Hperm, !filter_app in Hnd.
    apply NoDup_app in Hnd as (_ & _ & Hnd). apply NoDup_app in Hnd as (Hnd & _).
    rewrite list_filter_all in Hnd; [done|]. apply Forall_forall. intros x Hx ->. by rewrite <- Hnull in Hx. }
  destruct (free_blocks_spec R _ p fl removed H) as (p' & E' & H' & Hs & Hh).
  { rewrite (held_split m rid), (list_to_set_disj_perm _ _ Hperm), !list_to_set_disj_app. multiset_solver. }
  { by apply NoDup_filter. }
  rewrite E'. cbn [mbind res_bind]. eexists _, p', _. split; [done|]. split.
  { eapply PoolInv_null_refs; [exact H'|]. intros r Hr. rewrite (sp_null _ _ Hs), <- Hnull in Hr.
    rewrite set_touch, held_set, (held_split m rid), (list_to_set_disj_perm _ _ Hperm), !list_to_set_disj_app.
    rewrite multiplicity_difference, !multiplicity_disj_union.
    pose proof (mset_nulls (Z.of_nat k) _ r Hr) as Z1. pose proof (mset_nulls (Z.of_nat s) _ r Hr) as Z2.
    unfold zreplicate in Z1, Z2. rewrite Nat2Z.id in Z1, Z2. rewrite Z1, Z2. lia. }
  split; [done|]. rewrite set_touch. split; [apply same_mgr_set|].
  split; [by rewrite req_blocks_set, Hnull|]. done.
Qed.
End ops.

(** ** Contracts of the managers *)

(** For every manager but Mamba's, [allocate_new_blocks] gives the request
    exactly the blocks it lacks for [num_tokens] slots, taken from the front of
    the free list and, with caching on, without a hash; other requests keep
    theirs.  It raises ValueError exactly when the free blocks do not suffice. *)
Theorem allocate_new_blocks_contract use_int R rest m p fl rid n nm :
  PoolInv R (held m ⊎ rest) p fl → is_mamba (mgr_spec m) = false →
  let k := Z.to_nat (missing_blocks m rid n) in
  match allocate_new_blocks use_int m p rid n nm with
  | Ok (new, m', p') =>
      missing_blocks m rid n ≤ get_num_free_blocks p ∧ new = take k fl
      ∧ PoolInv R (held m' ⊎ rest) p' (drop k fl) ∧ same_mgr rid m m'
      ∧ req_blocks m' rid = req_blocks m rid ++ new
      ∧ zlen (req_blocks m' rid)
          = Z.max (zlen (req_blocks m rid)) (cdiv n (mgr_block_size m))
      ∧ (enable_caching p = true → ∀ b, b ∈ new → block_hash (p_store p' b) = None)
  | Err e => e = ValueError ∧ get_num_free_blocks p < missing_blocks m rid n
  end.
Proof.
  intros H Hm k. rewrite (free_count _ _ _ _ H).
  assert (allocate_new_blocks use_int m p rid n nm = base_allocate_new_blocks use_int m p rid n) as ->.
  { unfold allocate_new_blocks. by destruct (mgr_spec m). }
  destruct (decide (missing_blocks m rid n ≤ zlen fl)).
  - destruct (base_allocate_spec use_int R rest m p fl rid n H)
      as (m' & p' & -> & H' & _ & Hs & Hb & _ & Hh & _); [done|]. fold k in H', Hb, Hh |- *.
    split; [done|]. split; [done|]. split; [done|]. split; [done|]. split; [done|].
    split; [|done]. rewrite Hb, zlen_app. subst k. unfold missing_blocks, zlen in *.
    rewrite length_take. lia.
  - rewrite (base_allocate_short use_int R rest m p fl) by (done || lia). split; [done|lia].
Qed.

(** The tokens a request needs slots for: a Mamba manager adds the speculative blocks. *)
Definition slot_tokens (m : Manager) (num_tokens : Z) : Z :=
  match mgr_spec m with
  | MambaSpec f => if 0 <? num_speculative_blocks f
                   then num_tokens + mgr_block_size m * num_speculative_blocks f else num_tokens
  | _ => num_tokens
  end.

(** The managers the capacity check is exact for: all but that of cross attention and
    that of Mamba in align mode, whose blocks have the size of their spec. *)
Definition checked_manager (m : Manager) : Prop :=
  match mgr_spec m with
  | MambaSpec f => mamba_align (mgr_spec m) = false ∧ mgr_block_size m = m_block_size f
  | CrossAttentionSpec _ => False
  | _ => True
  end.

Lemma free_below_blocks R own p fl : PoolInv R own p fl → zlen fl ≤ num_gpu_blocks p.
Proof.
  intros H. rewrite <- (zlen_blocks R own p) by apply H. unfold zlen. apply inj_le, submseteq_length, NoDup_submseteq.
  - apply (fr_nodup _ _ (pi_rep _ _ _ _ H)).
  - intros r Hr. by apply H in Hr as [? _].
Qed.

Lemma legal_hits_more R m p rid hits local ext n n' :
  n ≤ n' → legal_hits R m p rid hits local ext n → legal_hits R m p rid hits local ext n'.
Proof. intros Hn []. split; try done. lia. Qed.

Lemma slot_tokens_le m n : 0 < mgr_block_size m → n ≤ slot_tokens m n.
Proof. intros Hb. unfold slot_tokens. destruct (mgr_spec m); try lia. case_match; to_prop; nia. Qed.

(** The dispatch of a checked manager: its answer is that of the base class for the slots
    needed, unless a Mamba manager refuses because the hit is written in this step. *)
Lemma checked_capacity m p rid num_tokens hits total nm n :
  checked_manager m → base_num_blocks_to_allocate m p rid (slot_tokens m num_tokens) hits total = Ok n →
  get_num_blocks_to_allocate m p rid num_tokens hits total nm = Ok (n, m)
  ∨ get_num_blocks_to_allocate m p rid num_tokens hits total nm = Ok (num_gpu_blocks p + 1, m).
Proof.
  unfold checked_manager, slot_tokens, get_num_blocks_to_allocate.
  destruct (mgr_spec m) eqn:Es; try (intros _ ->; by left).
  intros [Ha Hb] E. rewrite Ha, <- Hb. cbn [negb]. destruct (match last hits with Some _ => _ | None => _ end); [by right|].
  left. by rewrite E.
Qed.

Lemma checked_allocate use_int m p rid num_tokens nm :
  checked_manager m →
  allocate_new_blocks use_int m p rid num_tokens nm = base_allocate_new_blocks use_int m p rid (slot_tokens m num_tokens).
Proof.
  unfold checked_manager, slot_tokens, allocate_new_blocks. destruct (mgr_spec m); try done. intros [-> _]. done.
Qed.


(** Freeing a request succeeds, removes its blocks and its cache counter,
    returns to the free list, tail first, those nobody else references, and
    keeps all hashes. *)
Theorem free_contract R rest m p fl rid :
  PoolInv R (held m ⊎ rest) p fl → real_nodup p (req_blocks m rid) →
  ∃ m' p', free m p rid = Ok (m', p')
    ∧ PoolInv R (held m' ⊎ rest) p'
        (fl ++ released p (held m ⊎ rest) (reverse (req_blocks m rid)))
    ∧ same_mgr rid m m' ∧ req_blocks m' rid = [] ∧ num_cached_block m' !! rid = None
    ∧ (∀ r, block_hash (p_store p' r) = block_hash (p_store p r)).
Proof.
  intros H Hnd. unfold free. set (m1 := if mamba_align _ then _ else _).
  assert (same_mgr rid m m1 ∧ req_to_blocks m1 = req_to_blocks m) as [Hs Er]
    by (unfold m1; by case_match).
  assert (held m1 = held m) as Eh by (unfold held; by rewrite Er).
  assert (req_blocks m1 rid = req_blocks m rid) as Eb by (unfold req_blocks; by rewrite Er).
  rewrite <- Eh, <- Eb in *.
  destruct (base_free_spec R rest m1 p fl rid H Hnd) as (m' & p' & ? & ? & _ & ? & ? & ? & ?).
  exists m', p'. split_and!; try done. by etrans.
Qed.

(** For every manager but Mamba's, dropping the blocks that the attention
    window has left behind succeeds, replaces exactly the skipped blocks by the
    null block, keeps the others in place and returns to the pool the references
    of the dropped ones. *)
Theorem remove_skipped_contract R rest m p fl rid t :
  PoolInv R (held m ⊎ rest) p fl → mgr_null_block m = null_block p → 0 < mgr_block_size m →
  is_mamba (mgr_spec m) = false →
  real_nodup p (req_blocks m rid) → null_prefix (mgr_null_block m) (req_blocks m rid) →
  let s := Z.to_nat (Z.min (num_skipped_blocks m t) (zlen (req_blocks m rid))) in
  ∃ m' p' fl', remove_skipped_blocks m p rid t = Ok (m', p')
    ∧ PoolInv R (held m' ⊎ rest) p' (fl ++ fl') ∧ same_mgr rid m m'
    ∧ req_blocks m' rid = replicate s (null_block p) ++ drop s (req_blocks m rid).
Proof.
  intros H Hnull Hb Hm Hnd Hpre s.
  destruct (base_skip_spec R rest m p fl rid t H Hnull Hb Hnd Hpre)
    as (m' & p' & fl' & E & ? & _ & ? & ? & _).
  exists m', p', fl'. split; [|done]. unfold remove_skipped_blocks. by destruct (mgr_spec m).
Qed.

(** ** Examples *)

(** A full-attention manager without requests. *)
Definition empty_manager : Manager :=
  mkManager full_spec 2 true [] ∅ ∅ 0 (RBlk 0) ∅ ∅ ∅ [].
(** A sliding-window manager that holds the four blocks of one request. *)
Definition busy_manager : Manager :=
  mkManager (window_spec 3) 2 true [] {["r" := held_list]} {["r" := 4]} 0 (RBlk 0) ∅ ∅ ∅ [].

Lemma empty_manager_inv :
  PoolInv ∅ (held empty_manager ⊎ ∅) example_pool [RBlk 1; RBlk 2; RBlk 3].
Proof. eapply PoolInv_proper; [done| |exact example_pool_inv]. reflexivity. Qed.

Lemma busy_manager_inv : PoolInv ∅ (held busy_manager ⊎ ∅) cached_pool [].
Proof.
  eapply PoolInv_proper; [done| |exact cached_pool_inv].
  unfold held, held_by, busy_manager. cbn [req_to_blocks]. rewrite map_fold_singleton. multiset_solver.
Qed.

Lemma allocate_new_blocks_contract_witness :
  ∃ m' p', allocate_new_blocks false empty_manager example_pool "r" 3 3 = Ok ([RBlk 1; RBlk 2], m', p')
    ∧ req_blocks m' "r" = [RBlk 1; RBlk 2].
Proof.
  pose proof (allocate_new_blocks_contract false ∅ ∅ empty_manager example_pool _ "r" 3 3
    empty_manager_inv ltac:(reflexivity)) as H. cbv zeta in H.
  destruct (allocate_new_blocks _ _ _ _ _ _) as [[[new m'] p']|e] eqn:E.
  - exists m', p'. destruct H as (_ & -> & _ & _ & H & _). split; [reflexivity|exact H].
  - exfalso. destruct H as [_ H]. vm_compute in H. discriminate H.
Defined.


Lemma held_list_nodup : real_nodup cached_pool held_list.
Proof. eapply bool_decide_eq_true_1. vm_compute. reflexivity. Qed.

Lemma free_contract_witness :
  ∃ m' p', free busy_manager cached_pool "r" = Ok (m', p') ∧ req_blocks m' "r" = [].
Proof.
  destruct (free_contract ∅ ∅ busy_manager cached_pool _ "r" busy_manager_inv)
    as (m' & p' & E & _ & _ & H & _).
  - exact held_list_nodup.
  - exists m', p'. split; [exact E|exact H].
Defined.

Lemma remove_skipped_contract_witness :
  ∃ m' p', remove_skipped_blocks busy_manager cached_pool "r" 6 = Ok (m', p')
    ∧ req_blocks m' "r" = [null_block cached_pool; null_block cached_pool; RBlk 3; RBlk 4].
Proof.
  destruct (remove_skipped_contract ∅ ∅ busy_manager cached_pool _ "r" 6 busy_manager_inv)
    as (m' & p' & fl' & E & _ & _ & H).
  - vm_compute. reflexivity.
  - vm_compute. reflexivity.
  - reflexivity.
  - exact held_list_nodup.
  - exists 0%nat, held_list. split; [reflexivity|]. eapply bool_decide_eq_true_1. vm_compute. reflexivity.
  - exists m', p'. split; [exact E|exact H].
Defined.
