(* ===== verification/Coordinator.v ===== *)
(** * The KV-cache coordinator

    vllm/v1/core/kv_cache_coordinator.py: one manager per KV-cache group over a
    shared block pool.  The three subclasses differ in construction, in
    [find_longest_cache_hit] and in [get_num_common_prefix_blocks]. *)

From S2P Require Import Prelude Blocks FreeQueue Request BlockHash Metrics HashMap BlockPool.
From S2P Require Import KVCacheSpec CacheHit SingleTypeManager.

Inductive coordinator_kind :=
  | KVCacheCoordinatorNoPrefixCache
  | UnitaryKVCacheCoordinator
  | HybridKVCacheCoordinator.

(** [attention_groups] and [lcm_block_size] are those of the hybrid coordinator;
    the manager class of an attention group is determined by its spec. *)
Record Coordinator := mkCoordinator {
  co_kind : coordinator_kind;
  co_groups : list LayerSpec;
  co_enable_caching : bool;
  co_use_eagle : bool;
  co_dcp : Z;
  co_pcp : Z;
  co_hash_block_size : Z;
  co_block_size : Z;
  attention_groups : list (LayerSpec * list Z);
  lcm_block_size : Z;
  single_type_managers : list Manager;
  block_pool : BlockPool;
}.

Definition with_state (c : Coordinator) (ms : list Manager) (p : BlockPool) : Coordinator :=
  mkCoordinator (co_kind c) (co_groups c) (co_enable_caching c) (co_use_eagle c) (co_dcp c)
    (co_pcp c) (co_hash_block_size c) (co_block_size c) (attention_groups c) (lcm_block_size c)
    ms p.

(** ** Construction *)

(** [tuple(get_manager_for_kv_cache_spec(...) for i, group in enumerate(groups))] *)
Fixpoint init_managers (i : Z) (specs : list LayerSpec) (caching : bool) (dcp pcp : Z)
    (p : BlockPool) : res (list Manager * BlockPool) :=
  match specs with
  | [] => Ok ([], p)
  | s :: specs =>
      '(m, p) ← manager_init s p caching i dcp pcp;
      '(ms, p) ← init_managers (i + 1) specs caching dcp pcp p;
      Ok (m :: ms, p)
  end.

(** The loop of [verify_and_split_kv_cache_groups]: groups of equal specs. *)
Fixpoint add_to_groups (groups : list (LayerSpec * list Z)) (spec : LayerSpec) (i : Z)
    : list (LayerSpec * list Z) :=
  match groups with
  | [] => [(spec, [i])]
  | (s, ids) :: groups =>
      if decide (s = spec) then (s, ids ++ [i]) :: groups
      else (s, ids) :: add_to_groups groups spec i
  end.

Definition split_groups (specs : list LayerSpec) : list (LayerSpec * list Z) :=
  fold_left (λ gs x, add_to_groups gs x.2 x.1) (zip (zrange 0 (zlen specs)) specs) [].

(** [sorted(groups, key=lambda x: not isinstance(x[0], FullAttentionSpec))]: the
    sort is stable and the key a boolean. *)
Definition full_first (groups : list (LayerSpec * list Z)) : list (LayerSpec * list Z) :=
  filter (λ g, is_full g.1 = true) groups ++ filter (λ g, is_full g.1 = false) groups.

(** [math.lcm] *)
Definition lcm_all (l : list Z) : Z := foldr Z.lcm 1 l.

Definition coordinator_init (kind : coordinator_kind) (cfg : KVCacheConfig)
    (use_eagle caching events : bool) (dcp pcp hash_bs : Z)
    (collector : option KVCacheMetricsCollector) : res Coordinator :=
  let specs := kv_cache_spec <$> kv_cache_groups cfg in
  p ← pool_init (num_blocks cfg) caching hash_bs events collector;
  '(ms, p) ← init_managers 0 specs caching dcp pcp p;
  let c := mkCoordinator kind specs caching use_eagle dcp pcp hash_bs 0 [] 0 ms p in
  match kind with
  | KVCacheCoordinatorNoPrefixCache => Ok c
  | UnitaryKVCacheCoordinator =>
      match specs with
      | [] => Err IndexError
      | s :: _ =>
          let bs := block_size s in
          let bs := if 1 <? dcp then bs * dcp else bs in
          let bs := if 1 <? pcp then bs * pcp else bs in
          ASSERT negb caching || (hash_bs =? bs);
          ASSERT zlen specs =? 1;
          Ok (mkCoordinator kind specs caching use_eagle dcp pcp hash_bs bs [] 0 ms p)
      end
  | HybridKVCacheCoordinator =>
      RAISE ZeroDivisionError IF (hash_bs =? 0) && negb (bool_decide (specs = []));
      ASSERT forallb (λ s, block_size s `mod` hash_bs =? 0) specs;
      ASSERT dcp =? 1;
      ASSERT pcp =? 1;
      let groups := split_groups specs in
      ASSERT 1 <? zlen groups;
      Ok (mkCoordinator kind specs caching use_eagle dcp pcp hash_bs 0 (full_first groups)
            (lcm_all ((λ g, block_size g.1) <$> groups)) ms p)
  end.

Definition get_kv_cache_coordinator (cfg : KVCacheConfig) (use_eagle caching events : bool)
    (dcp pcp hash_bs : Z) (collector : option KVCacheMetricsCollector) : res Coordinator :=
  let kind :=
    if negb caching then KVCacheCoordinatorNoPrefixCache
    else if zlen (kv_cache_groups cfg) =? 1 then UnitaryKVCacheCoordinator
    else HybridKVCacheCoordinator in
  coordinator_init kind cfg use_eagle caching events dcp pcp hash_bs collector.

(** ** Operations over all managers *)

(** [for i, manager in enumerate(self.single_type_managers)], collecting the
    results. *)
Fixpoint each_manager {A} (f : Z → Manager → BlockPool → res (A * Manager * BlockPool))
    (i : Z) (ms : list Manager) (p : BlockPool) : res (list A * list Manager * BlockPool) :=
  match ms with
  | [] => Ok ([], [], p)
  | m :: ms =>
      '(a, m, p) ← f i m p;
      '(l, ms, p) ← each_manager f (i + 1) ms p;
      Ok (a :: l, m :: ms, p)
  end.

Definition run_managers {A} (f : Z → Manager → BlockPool → res (A * Manager * BlockPool))
    (c : Coordinator) : res (list A * Coordinator) :=
  '(l, ms, p) ← each_manager f 0 (single_type_managers c) (block_pool c);
  Ok (l, with_state c ms p).

Definition is_cross (m : Manager) : bool :=
  match mgr_spec m with CrossAttentionSpec _ => true | _ => false end.

Definition coord_num_blocks_to_allocate (c : Coordinator) (rid : string) (num_tokens : Z)
    (new_computed_blocks : list (list ref))
    (num_encoder_tokens total_computed_tokens num_tokens_main_model : Z) : res (Z * Coordinator) :=
  '(l, c) ← run_managers (λ i m p,
    '(n, m) ← (if is_cross m then
                 get_num_blocks_to_allocate m p rid num_encoder_tokens [] 0 num_encoder_tokens
               else
                 blks ← py_index new_computed_blocks i;
                 get_num_blocks_to_allocate m p rid num_tokens blks total_computed_tokens
                   num_tokens_main_model);
    Ok (n, m, p)) c;
  Ok (foldr Z.add 0 l, c).

Section coordinator.
Context (use_int : bool) (sha256 : bytes → bytes).

Definition coord_allocate_new_computed_blocks (c : Coordinator) (rid : string)
    (new_computed_blocks : list (list ref))
    (num_local_computed_tokens num_external_computed_tokens : Z) : res Coordinator :=
  '(_, c) ← run_managers (λ i m p,
    blks ← py_index new_computed_blocks i;
    '(m, p) ← allocate_new_computed_blocks use_int m p rid blks num_local_computed_tokens
                num_external_computed_tokens;
    Ok (tt, m, p)) c;
  Ok c.

Definition coord_allocate_new_blocks (c : Coordinator) (rid : string)
    (num_tokens num_tokens_main_model num_encoder_tokens : Z)
    : res (list (list ref) * Coordinator) :=
  run_managers (λ _ m p,
    allocate_new_blocks use_int m p rid (if is_cross m then num_encoder_tokens else num_tokens)
      num_tokens_main_model) c.

(** The request is threaded through because registering blocks may fill its
    cache of embedding digests. *)
Fixpoint each_cache (ms : list Manager) (p : BlockPool) (r : Request) (num_computed_tokens : Z)
    : res (list Manager * BlockPool * Request) :=
  match ms with
  | [] => Ok ([], p, r)
  | m :: ms =>
      '(m, p, r) ← cache_blocks use_int sha256 m p r num_computed_tokens;
      '(ms, p, r) ← each_cache ms p r num_computed_tokens;
      Ok (m :: ms, p, r)
  end.

Definition coord_cache_blocks (c : Coordinator) (r : Request) (num_computed_tokens : Z)
    : res (Coordinator * Request) :=
  '(ms, p, r) ← each_cache (single_type_managers c) (block_pool c) r num_computed_tokens;
  Ok (with_state c ms p, r).

Definition coord_free (c : Coordinator) (rid : string) : res Coordinator :=
  '(_, c) ← run_managers (λ _ m p, '(m, p) ← free m p rid; Ok (tt, m, p)) c;
  Ok c.

Definition coord_remove_skipped_blocks (c : Coordinator) (rid : string)
    (total_computed_tokens : Z) : res Coordinator :=
  '(_, c) ← run_managers (λ _ m p,
    '(m, p) ← remove_skipped_blocks m p rid total_computed_tokens; Ok (tt, m, p)) c;
  Ok c.
End coordinator.

(** [manager.req_to_blocks.get(request_id) or []] *)
Definition coord_get_blocks (c : Coordinator) (rid : string) : list (list ref) :=
  (λ m, req_blocks m rid) <$> single_type_managers c.

Definition coord_num_common_prefix_blocks (c : Coordinator) (rid : string)
    : res (list Z * Coordinator) :=
  match co_kind c with
  | KVCacheCoordinatorNoPrefixCache => Ok (replicate (length (single_type_managers c)) 0, c)
  | _ => run_managers (λ _ m p,
           let '(n, m) := get_num_common_prefix_blocks m p rid in Ok (n, m, p)) c
  end.

Definition coord_new_step_starts (c : Coordinator) : Coordinator :=
  with_state c (new_step_starts <$> single_type_managers c) (block_pool c).

(** ** Cache hits *)

(** [_get_block_hashes] *)
Definition hashes_for (hash_bs : Z) (hashes : list bytes) (spec : LayerSpec) : res BlockHashList :=
  if block_size spec =? hash_bs then Ok (PlainHashes hashes)
  else ScaledHashes <$> hash_list_init hashes hash_bs (block_size spec).

(** [for group_id, blocks in zip(group_ids, hit_blocks):
    hit_blocks_by_group[group_id] = blocks] *)
Fixpoint store_hits (by_group : list (option (list ref))) (ids : list Z) (hits : list (list ref))
    : res (list (option (list ref))) :=
  match ids, hits with
  | i :: ids, h :: hits =>
      by_group ← py_set by_group i (Some h);
      store_hits by_group ids hits
  | _, _ => Ok by_group
  end.

Section hybrid.
Context (c : Coordinator) (hashes : list bytes).

(** One attention group of the inner [for] loop. *)
Definition hybrid_step (s : Z * list (option (list ref))) (g : LayerSpec * list Z)
    : res (Z * list (option (list ref))) :=
  let '(curr_hit_length, by_group) := s in
  let '(spec, group_ids) := g in
  g0 ← py_index group_ids 0;
  cached_blocks ← py_index by_group g0;
  if is_full spec && bool_decide (is_Some cached_blocks) then
    num_blocks ← py_div curr_hit_length (block_size spec);
    Ok (num_blocks * block_size spec, by_group)
  else
    hs ← hashes_for (co_hash_block_size c) hashes spec;
    hits ← find_longest_cache_hit hs curr_hit_length group_ids (block_pool c) spec
             (co_use_eagle c) (lcm_block_size c) 1 1;
    first ← first_group hits;
    by_group ← store_hits by_group group_ids hits;
    Ok (zlen first * block_size spec, by_group).

(** The [while True] loop; the hit length decreases on every repetition. *)
Fixpoint hybrid_loop (fuel : nat) (is_simple_hybrid : bool) (hit_length : Z)
    (by_group : list (option (list ref))) : res (Z * list (option (list ref))) :=
  match fuel with
  | O => Err OutOfFuel
  | S fuel =>
      '(curr_hit_length, by_group) ← rfold hybrid_step (hit_length, by_group) (attention_groups c);
      if hit_length <=? curr_hit_length then Ok (hit_length, by_group)
      else if is_simple_hybrid then Ok (curr_hit_length, by_group)
      else hybrid_loop fuel is_simple_hybrid curr_hit_length by_group
  end.

(** [del blks[num_blocks:]] for the groups of the full-attention spec. *)
Definition truncate_full (num_blocks : Z) (by_group : list (option (list ref))) (i : Z)
    : res (list (option (list ref))) :=
  blks ← py_index by_group i;
  match blks with
  | None => Ok by_group
  | Some l => py_set by_group i (Some (py_upto l num_blocks))
  end.

(** Truncates the full-attention blocks to the final hit length. *)
Definition finish_hybrid (hit_length : Z) (by_group : list (option (list ref)))
    : res (list (list ref) * Z) :=
  match attention_groups c with
  | [] => Err IndexError
  | (spec, group_ids) :: _ =>
      bg ← (if is_full spec then
              num_blocks ← py_div hit_length (block_size spec);
              rfold (truncate_full num_blocks) by_group group_ids
            else Ok by_group);
      Ok ((λ o : option (list ref), default [] o) <$> (bg : list (option (list ref))), hit_length)
  end.

Definition hybrid_find_longest_cache_hit (max_cache_hit_length : Z)
    : res (list (list ref) * Z) :=
  let num_groups := length (co_groups c) in
  let is_simple_hybrid :=
    match attention_groups c with [(s, _); _] => is_full s | _ => false end in
  '(hit_length, by_group) ←
    hybrid_loop (S (Z.to_nat max_cache_hit_length)) is_simple_hybrid max_cache_hit_length
      (replicate num_groups None);
  finish_hybrid hit_length by_group.
End hybrid.

Definition coord_find_longest_cache_hit (c : Coordinator) (hashes : list bytes)
    (max_cache_hit_length : Z) : res (list (list ref) * Z) :=
  match co_kind c with
  | KVCacheCoordinatorNoPrefixCache => Ok (replicate (length (single_type_managers c)) [], 0)
  | UnitaryKVCacheCoordinator =>
      m ← py_index (single_type_managers c) 0;
      hits ← find_longest_cache_hit (PlainHashes hashes) max_cache_hit_length [0] (block_pool c)
               (mgr_spec m) (co_use_eagle c) (co_block_size c) (co_dcp c) (co_pcp c);
      first ← first_group hits;
      Ok (hits, zlen first * co_block_size c)
  | HybridKVCacheCoordinator => hybrid_find_longest_cache_hit c hashes max_cache_hit_length
  end.
