(* ===== verification/CoordinatorProps.v ===== *)
(** * Cache hits of the coordinator

    The fixed-point search of the hybrid coordinator terminates and, without
    EAGLE, finds the longest length that every attention group covers. *)

From S2P Require Import Prelude Blocks FreeQueue Request BlockHash Metrics HashMap BlockPool PoolInv PoolProps.
From S2P Require Import KVCacheSpec CacheHit HitProps HitExamples SingleTypeManager ManagerInv Coordinator.
Import FreeKVCacheBlockQueue.

(** ** What a group needs *)

(** Block [i] is needed when the first [n] blocks are computed. *)
Definition needed (spec : LayerSpec) (n i : nat) : Prop :=
  match spec with
  | SlidingWindowSpec a sw => in_window (a_block_size a) sw n i
  | ChunkedLocalAttentionSpec a chunk => in_chunk (a_block_size a) chunk n i
  | MambaSpec _ => S i = n
  | _ => True
  end.

(** Every block needed after [t] computed tokens is cached. *)
Definition covered (spec : LayerSpec) (gids : list Z) (p : BlockPool) (L : list bytes) (t : Z) : Prop :=
  let n := Z.to_nat (t / block_size spec) in
  ∀ i, (i < n)%nat → needed spec n i → cached gids p L i.

(** The columns hold the cached blocks where they are needed. *)
Definition provides (spec : LayerSpec) (gids : list Z) (p : BlockPool) (L : list bytes)
    (cols : list (list ref)) : Prop :=
  ∀ i, (i < length cols)%nat → needed spec (length cols) i →
    ∃ c, cols !! i = Some c ∧ cached_as gids p L i c.

(** The specs a hybrid model may combine under the alignment [al]. *)
Definition supported (al : Z) (spec : LayerSpec) : Prop :=
  0 < block_size spec ∧ (block_size spec | al) ∧
  match spec with
  | SlidingWindowSpec _ sw => 1 < sw
  | ChunkedLocalAttentionSpec a chunk => a_block_size a = al ∧ 0 < chunk ∧ (a_block_size a | chunk)
  | EncoderOnlyAttentionSpec _ | CrossAttentionSpec _ => False
  | _ => True
  end.

(** The lookup of one attention group is the longest aligned covered length. *)
Record group_hit (spec : LayerSpec) (gids : list Z) (p : BlockPool) (L : list bytes) (al max : Z)
    (cols : list (list ref)) : Prop := {
  gh_cols : cols_ok (length gids) cols;
  gh_aligned : (al | zlen cols * block_size spec);
  gh_max : zlen cols * block_size spec ≤ max;
  gh_provides : provides spec gids p L cols;
  gh_longest : ∀ t, 0 ≤ t ≤ max → (al | t) → covered spec gids p L t →
    t ≤ zlen cols * block_size spec;
}.

(** An aligned length is a whole number of blocks. *)
Lemma aligned_blocks bs al t :
  0 < bs → 0 ≤ t → (bs | al) → (al | t) → ∃ m : nat, t = Z.of_nat m * bs ∧ Z.to_nat (t / bs) = m.
Proof.
  intros Hb Ht [q Hq] [u Hu]. exists (Z.to_nat (u * q)).
  assert (t = u * q * bs) as E by nia. assert (0 ≤ u * q) by nia.
  rewrite Z2Nat.id by done. split; [done|]. rewrite E, Z.div_mul by lia. done.
Qed.

Lemma find_group_hit hashes max gids p spec al L :
  indexed p → groups_ok gids → bhl_views hashes L → 0 < al → supported al spec →
  0 ≤ max → max / block_size spec ≤ zlen L →
  ∃ cols, find_longest_cache_hit hashes max gids p spec false al 1 1 = Ok (per_group (length gids) cols)
    ∧ group_hit spec gids p L al max cols.
Proof.
  intros Hp Hg HL Hal (Hb & Hd & Hs) Hmax HN.
  assert (∀ cols, cols_ok (length gids) cols → (al | zlen cols * block_size spec) →
    zlen cols * block_size spec ≤ max → provides spec gids p L cols →
    (∀ m : nat, (al | Z.of_nat m * block_size spec) → Z.of_nat m * block_size spec ≤ max →
       (∀ i, (i < m)%nat → needed spec m i → cached gids p L i) → (m ≤ length cols)%nat) →
    group_hit spec gids p L al max cols) as Hmk.
  { intros cols H1 H2 H3 H4 H5. split; try done. intros t Ht Ha Hc.
    destruct (aligned_blocks _ _ _ Hb (proj1 Ht) Hd Ha) as (m & -> & Em).
    unfold covered in Hc. rewrite Em in Hc.
    specialize (H5 m Ha (proj2 Ht) Hc). unfold zlen. nia. }
  assert (∀ s, spec = s → is_full s = true →
    ∃ cols, full_find_longest_cache_hit hashes max gids p s false al 1 1
      = Ok (per_group (length gids) cols) ∧ group_hit s gids p L al max cols) as Hfull.
  { intros s <- Hf. destruct (full_hit_spec hashes max gids p spec false al 1 1 L)
      as (cols & E & H1 & H2 & H3 & H4 & _ & H5); [done..|by rewrite Hf|done|done|done|].
    exists cols. split; [done|]. apply Hmk; [done|done|done| |].
    - intros i Hi _. apply H2. lia.
    - intros m Hm1 Hm2 Hm3. apply H5; [done|by rewrite Nat.add_0_r|]. intros i Hi.
      apply Hm3; [cbn in Hi; lia|]. destruct spec; (done || by vm_compute in Hf). }
  unfold find_longest_cache_hit. destruct spec; cbn in Hs; try done.
  1-3: by apply Hfull.
  - destruct Hs as (<- & Hc & Hq).
    destruct (chunked_hit_spec hashes max gids p a attention_chunk_size L)
      as (cols & E & H1 & H3 & H4 & H5); [done..|].
    exists cols. split; [done|]. apply Hmk; [done|apply Z.divide_factor_r|done|done|]. intros m _ ? ?. by apply H5.
  - destruct (sliding_hit_spec hashes max gids p a sliding_window false al L)
      as (cols & E & H1 & H2 & H3 & H4 & H5); [done..|].
    exists cols. split; [done|]. apply Hmk; [done..|]. intros m ? ? Hm. apply H5; [done| |].
    + by rewrite Nat.add_0_r.
    + intros i Hi. apply Hm. cbn in Hi. lia.
  - destruct (mamba_hit_spec hashes max gids p m al L)
      as (cols & E & H1 & H2 & H3 & H4 & H5); [done..|].
    exists cols. split; [done|]. apply Hmk; [done|done|done| |].
    + intros i Hi Hn. cbn in Hn. destruct H4 as [->|(n & c & -> & Hc)]; [done|].
      rewrite length_app, length_replicate in Hn. cbn in Hn. assert (i = n) as -> by lia.
      exists c. split; [|done]. rewrite lookup_app_r by (rewrite length_replicate; lia).
      by rewrite length_replicate, Nat.sub_diag.
    + intros n ? ? Hn. destruct n as [|n]; [lia|]. apply H5; [done|done|]. apply Hn; [lia|done].
Qed.

Lemma provides_covered spec gids p L cols :
  0 < block_size spec → provides spec gids p L cols →
  covered spec gids p L (zlen cols * block_size spec).
Proof.
  intros Hb H. unfold covered. rewrite Z.div_mul by lia. unfold zlen. rewrite Nat2Z.id.
  intros i Hi Hn. destruct (H i Hi Hn) as (c & _ & ?). by exists c.
Qed.

(** ** The table of hits by group id *)

Lemma py_set_nonneg {A} (l : list A) i x :
  0 ≤ i < zlen l → py_set l i x = Ok (<[Z.to_nat i := x]> l).
Proof.
  intros [H0 H1]. unfold py_set. rewrite (proj2 (Z.ltb_ge i 0)) by lia.
  by rewrite (proj2 (Z.leb_le _ _)), (proj2 (Z.ltb_lt _ _)) by lia.
Qed.

Abbreviation table := (list (option (list ref))).

(** The lists of [cols] are in the table at the ids of their groups. *)
Definition stored (bg : table) (ids : list Z) (cols : list (list ref)) : Prop :=
  ∀ j i, ids !! j = Some i →
    ∃ l, per_group (length ids) cols !! j = Some l ∧ bg !! Z.to_nat i = Some (Some l).

Definition ids_ok (n : nat) (ids : list Z) : Prop := Forall (λ i, 0 ≤ i < Z.of_nat n) ids.

Lemma store_hits_spec bg ids hits :
  NoDup ids → ids_ok (length bg) ids → length hits = length ids →
  ∃ bg', store_hits bg ids hits = Ok bg' ∧ length bg' = length bg
    ∧ (∀ j i, ids !! j = Some i → bg' !! Z.to_nat i = Some (hits !! j))
    ∧ ∀ i, 0 ≤ i → i ∉ ids → bg' !! Z.to_nat i = bg !! Z.to_nat i.
Proof.
  revert bg hits. induction ids as [|i ids IH]; intros bg hits Hnd Hok Hl.
  { exists bg. destruct hits; [|done]. cbn. by repeat split. }
  destruct hits as [|h hits]; [done|]. cbn [store_hits].
  apply NoDup_cons in Hnd as [Hi Hnd]. apply Forall_cons in Hok as [Hi' Hok].
  rewrite py_set_nonneg by (unfold zlen; lia). cbn [mbind res_bind].
  destruct (IH (<[Z.to_nat i := Some h]> bg) hits) as (bg' & -> & H1 & H2 & H3);
    [done|by rewrite length_insert|by injection Hl|].
  rewrite length_insert in H1. exists bg'. split; [done|]. split; [done|]. split.
  - intros [|j] i' Hj; cbn in Hj |- *; [|by apply H2]. injection Hj as <-.
    rewrite H3 by (done || lia). apply list_lookup_insert_eq. lia.
  - intros i' Hi0 [Hne Hni]%not_elem_of_cons. rewrite H3 by done.
    apply list_lookup_insert_ne. lia.
Qed.

Lemma stored_frame bg bg' ids cols :
  (∀ i, i ∈ ids → bg' !! Z.to_nat i = bg !! Z.to_nat i) → stored bg ids cols → stored bg' ids cols.
Proof.
  intros He H j i Hj. destruct (H j i Hj) as (l & ? & ?). exists l. split; [done|].
  rewrite He; [done|]. by eapply list_elem_of_lookup_2.
Qed.

Lemma elem_of_concat {A} (x : A) (l : list A) ls : x ∈ l → l ∈ ls → x ∈ concat ls.
Proof.
  intros Hx. induction ls as [|k ls IH]; [by intros ?%elem_of_nil|].
  intros [->|Hl]%elem_of_cons; cbn; apply elem_of_app; [by left|right; auto].
Qed.

Lemma Permutation_concat {A} (ls ls' : list (list A)) : ls ≡ₚ ls' → concat ls ≡ₚ concat ls'.
Proof.
  induction 1; cbn; [done|by rewrite IHPermutation| |by etrans].
  by rewrite !app_assoc, (Permutation_app_comm y x).
Qed.

(** ** The fixed-point search *)

(** The attention groups of a hybrid coordinator partition its groups. *)
Record hybrid_wf (c : Coordinator) : Prop := {
  hw_pool : indexed (block_pool c);
  hw_eagle : co_use_eagle c = false;
  hw_hash : 0 < co_hash_block_size c;
  hw_lcm : 0 < lcm_block_size c;
  hw_nonempty : attention_groups c ≠ [];
  hw_specs : Forall (λ g, supported (lcm_block_size c) g.1
    ∧ block_size g.1 `mod` co_hash_block_size c = 0
    ∧ groups_ok g.2 ∧ ids_ok (length (co_groups c)) g.2) (attention_groups c);
  hw_disjoint : NoDup (concat (attention_groups c).*2);
}.

(** The hashes at the block size of a group. *)
Definition hashes_of (c : Coordinator) (hashes : list bytes) (g : LayerSpec * list Z) : list bytes :=
  group_hashes (co_hash_block_size c) (block_size g.1) hashes.

Lemma hashes_for_views hbs hashes spec :
  0 < hbs → 0 < block_size spec → block_size spec `mod` hbs = 0 →
  ∃ v, hashes_for hbs hashes spec = Ok v
    ∧ bhl_views v (group_hashes hbs (block_size spec) hashes).
Proof.
  intros Hh Hb Hm. unfold hashes_for, group_hashes.
  destruct (block_size spec =? hbs) eqn:E; [eexists; split; [done|]; apply plain_views|].
  unfold hash_list_init. rewrite (proj2 (Z.eqb_neq hbs 0)) by lia.
  rewrite Hm. cbn. eexists. split; [done|].
  apply Z.div_exact in Hm; [|lia]. set (q := block_size spec / hbs) in *.
  assert (0 < q) by nia. rewrite <- (Z2Nat.id q) at 1 by lia. apply scaled_views. lia.
Qed.

Lemma hashes_enough hbs bs hashes max :
  0 < hbs → 0 < bs → bs `mod` hbs = 0 → 0 ≤ max < (zlen hashes + 1) * hbs →
  max / bs ≤ zlen (group_hashes hbs bs hashes).
Proof.
  intros Hh Hb Hm Hmax. unfold group_hashes. destruct (bs =? hbs) eqn:E; to_prop.
  - subst. pose proof (Z.div_lt_upper_bound max hbs (zlen hashes + 1)). lia.
  - apply Z.div_exact in Hm; [|lia]. set (q := bs / hbs) in *. assert (0 < q) by nia.
    unfold zlen. rewrite length_merged, Nat2Z.inj_div, Z2Nat.id by lia. fold (zlen hashes).
    rewrite Hm, <- Z.div_div by lia. apply Z.div_le_mono; [done|].
    pose proof (Z.div_lt_upper_bound max hbs (zlen hashes + 1)). lia.
Qed.

Section hybrid.
Context (c : Coordinator) (hashes : list bytes) (max : Z) (Hwf : hybrid_wf c).
Context (Hmax : 0 ≤ max < (zlen hashes + 1) * co_hash_block_size c).
Abbreviation al := (lcm_block_size c).
Abbreviation p := (block_pool c).
Abbreviation groups := (attention_groups c).
Abbreviation L := (hashes_of c hashes).
Abbreviation bs g := (block_size (fst g)).

(** A usable hit for the group, in the table. *)
Record good (bg : table) (g : LayerSpec * list Z) (cols : list (list ref)) : Prop := {
  gd_stored : stored bg g.2 cols;
  gd_cols : cols_ok (length g.2) cols;
  gd_aligned : (al | zlen cols * bs g);
  gd_provides : provides g.1 g.2 p (L g) cols;
}.

(** All groups are covered after [t] tokens. *)
Definition all_covered (t : Z) : Prop := ∀ g, g ∈ groups → covered g.1 g.2 p (L g) t.

(** No hit has been looked up for the group yet. *)
Definition fresh (bg : table) (g : LayerSpec * list Z) : Prop :=
  ∃ i, head g.2 = Some i ∧ bg !! Z.to_nat i = Some None.

(** At the head of the [while] loop. *)
Record loop_inv (hit : Z) (bg : table) : Prop := {
  li_len : length bg = length (co_groups c);
  li_hit : 0 ≤ hit ≤ max;
  li_full : ∀ g, g ∈ groups → is_full g.1 = true →
    fresh bg g ∨ (al | hit) ∧ ∃ cols, good bg g cols ∧ hit ≤ zlen cols * bs g;
  li_longest : ∀ t, 0 ≤ t ≤ max → (al | t) → all_covered t → t ≤ hit;
}.

(** Inside the [for] loop, after the groups [done]. *)
Record pass_inv (hit : Z) (bg0 : table) (done : list (LayerSpec * list Z)) (s : Z * table) : Prop := {
  pa_len : length s.2 = length (co_groups c);
  pa_hit : 0 ≤ s.1 ≤ hit;
  pa_start : done = [] → s.1 = hit;
  pa_aligned : done ≠ [] → (al | s.1);
  pa_done : ∀ g, g ∈ done → ∃ cols, good s.2 g cols ∧ s.1 ≤ zlen cols * bs g
    ∧ (is_full g.1 = false → zlen cols * bs g ≤ hit);
  pa_last : ∀ d g, done = d ++ [g] → is_full g.1 = false ∨ fresh bg0 g →
    ∃ cols, good s.2 g cols ∧ s.1 = zlen cols * bs g;
  pa_rest : ∀ i, 0 ≤ i → i ∉ concat done.*2 → s.2 !! Z.to_nat i = bg0 !! Z.to_nat i;
  pa_longest : ∀ t, 0 ≤ t ≤ hit → (al | t) → all_covered t → t ≤ s.1;
}.

Lemma groups_spec g : g ∈ groups →
  supported al g.1 ∧ block_size g.1 `mod` co_hash_block_size c = 0
  ∧ groups_ok g.2 ∧ ids_ok (length (co_groups c)) g.2 ∧ NoDup g.2.
Proof.
  intros Hg. pose proof (proj1 (Forall_forall _ _) (hw_specs c Hwf) g Hg) as (?&?&?&?).
  split_and!; try done. pose proof (hw_disjoint c Hwf) as Hnd.
  apply list_elem_of_split in Hg as (l1 & l2 & E). rewrite E, fmap_app, concat_app in Hnd.
  cbn in Hnd. apply NoDup_app in Hnd as (_ & _ & Hnd). by apply NoDup_app in Hnd as (? & _).
Qed.

(** Ids of the groups already processed are not those of the next one. *)
Lemma next_ids done x rest i :
  groups = done ++ x :: rest → i ∈ x.2 → i ∉ concat done.*2.
Proof.
  intros E Hi Hd. pose proof (hw_disjoint c Hwf) as Hnd. rewrite E, fmap_app, concat_app in Hnd.
  apply NoDup_app in Hnd as (_ & Hnd & _). apply (Hnd i Hd). cbn. apply elem_of_app. by left.
Qed.

(** The lookup of one group. *)
Lemma lookup_group g curr :
  g ∈ groups → 0 ≤ curr ≤ max →
  ∃ hs cols, hashes_for (co_hash_block_size c) hashes g.1 = Ok hs
    ∧ find_longest_cache_hit hs curr g.2 p g.1 (co_use_eagle c) al 1 1 = Ok (per_group (length g.2) cols)
    ∧ group_hit g.1 g.2 p (L g) al curr cols.
Proof.
  intros Hg Hc. destruct (groups_spec g Hg) as (Hs & Hm & Hok & _). destruct (Hs) as (Hb & _).
  destruct (hashes_for_views _ hashes g.1 (hw_hash c Hwf) Hb Hm) as (v & Ev & Hv).
  destruct (find_group_hit v curr g.2 p g.1 al _ (hw_pool c Hwf) Hok Hv (hw_lcm c Hwf) Hs (proj1 Hc))
    as (cols & E & H).
  { apply hashes_enough; [apply Hwf|done|done|lia]. }
  exists v, cols. rewrite (hw_eagle c Hwf). by split_and!.
Qed.

(** A hit stored before a step for another group stays. *)
Lemma good_frame bg bg' g cols :
  (∀ i, i ∈ g.2 → bg' !! Z.to_nat i = bg !! Z.to_nat i) → good bg g cols → good bg' g cols.
Proof. intros He []. split; [by eapply stored_frame|done..]. Qed.

Lemma done_ids done x rest g i :
  groups = done ++ x :: rest → g ∈ done → i ∈ g.2 → i ∉ x.2.
Proof.
  intros E Hg Hi Hx. eapply next_ids; [exact E|exact Hx|].
  eapply elem_of_concat; [exact Hi|]. by apply list_elem_of_fmap_2.
Qed.

Lemma ids_nonneg g i : g ∈ groups → i ∈ g.2 → 0 ≤ i < Z.of_nat (length (co_groups c)).
Proof.
  intros Hg Hi. destruct (groups_spec g Hg) as (_ & _ & _ & Hok & _).
  by apply (proj1 (Forall_forall _ _) Hok).
Qed.

Lemma concat_snoc_ids (done : list (LayerSpec * list Z)) x i :
  (i ∉ concat (done ++ [x]).*2) ↔ (i ∉ concat done.*2) ∧ i ∉ x.2.
Proof. rewrite fmap_app, concat_app, not_elem_of_app. cbn. by rewrite app_nil_r. Qed.

Lemma step_store hit bg0 done x rest s cols bg' :
  groups = done ++ x :: rest → hit ≤ max → pass_inv hit bg0 done s →
  group_hit x.1 x.2 p (L x) al s.1 cols →
  length bg' = length s.2 →
  (∀ j i, x.2 !! j = Some i → bg' !! Z.to_nat i = Some (per_group (length x.2) cols !! j)) →
  (∀ i, 0 ≤ i → i ∉ x.2 → bg' !! Z.to_nat i = s.2 !! Z.to_nat i) →
  pass_inv hit bg0 (done ++ [x]) (zlen cols * bs x, bg').
Proof.
  intros E Hh [] [Hc1 Hc2 Hc3 Hc4 Hc5] Hl Hst Hfr.
  assert (x ∈ groups) as Hx by (rewrite E; set_solver).
  destruct (groups_spec x Hx) as ((Hb & _) & _). pose proof (zlen_nonneg cols).
  assert (good bg' x cols) as Hg.
  { split; [|done..]. intros j i Hj. rewrite (Hst j i Hj).
    exists (omap (λ c : list ref, c !! j) cols).
    rewrite per_group_lookup by (by eapply lookup_lt_Some). done. }
  split; cbn [fst snd].
  - congruence.
  - nia.
  - by destruct done.
  - done.
  - intros g [Hg'|Heq%list_elem_of_singleton]%elem_of_app.
    + destruct (pa_done0 g Hg') as (cols' & H1 & H2 & H3). exists cols'.
      split; [|split; [lia|done]]. eapply good_frame; [|exact H1]. intros i Hi. apply Hfr.
      * apply (ids_nonneg g); [|done]. rewrite E. set_solver.
      * by eapply done_ids.
    + subst g. exists cols. split; [done|]. split; [lia|]. intros _. lia.
  - intros d g [_ [= <-]]%app_inj_tail _. by exists cols.
  - intros i Hi [H1 H2]%concat_snoc_ids. rewrite Hfr by done. by apply pa_rest0.
  - intros t Ht Ha Hcov. apply Hc5; [|done|by apply Hcov]. split; [lia|]. by apply pa_longest0.
Qed.

Lemma step_reuse hit bg0 done x rest s :
  groups = done ++ x :: rest → loop_inv hit bg0 → pass_inv hit bg0 done s →
  is_full x.1 = true → ¬ fresh bg0 x →
  pass_inv hit bg0 (done ++ [x]) (s.1 / bs x * bs x, s.2).
Proof.
  intros E [] [] Hf Hnf. assert (x ∈ groups) as Hx by (rewrite E; set_solver).
  destruct (groups_spec x Hx) as ((Hb & Hd & _) & _).
  destruct (li_full0 x Hx Hf) as [?|(Ha & cols & Hg & Hc)]; [done|].
  assert (al | s.1) as Has.
  { destruct done as [|y d]; [|by apply pa_aligned0]. by rewrite pa_start0. }
  assert (s.1 / bs x * bs x = s.1) as ->.
  { destruct (aligned_blocks (bs x) al s.1) as (m & -> & _); [done|lia|done|done|].
    by rewrite Z.div_mul by lia. }
  split; cbn [fst snd]; try done.
  - by destruct done.
  - intros g [Hg'|Heq%list_elem_of_singleton]%elem_of_app; [by apply pa_done0|]. subst g.
    exists cols. split; [|split; [lia|by rewrite Hf]]. eapply good_frame; [|exact Hg]. intros i Hi.
    apply pa_rest0; [by eapply ids_nonneg|by eapply next_ids].
  - intros d g [_ [= <-]]%app_inj_tail [?|?]; [congruence|done].
  - intros i Hi [H1 H2]%concat_snoc_ids. by apply pa_rest0.
Qed.

Lemma hybrid_step_spec hit bg0 done x rest s :
  groups = done ++ x :: rest → loop_inv hit bg0 → pass_inv hit bg0 done s →
  ∃ s', hybrid_step c hashes s x = Ok s' ∧ pass_inv hit bg0 (done ++ [x]) s'.
Proof.
  intros E Hl Hp. assert (x ∈ groups) as Hx by (rewrite E; set_solver).
  destruct (groups_spec x Hx) as ((Hb & _) & _ & Hgo & Hio & Hnd).
  destruct s as [curr bg], x as [spec ids]. cbn [fst snd] in *. unfold hybrid_step.
  destruct ids as [|i0 ids']; [by destruct Hgo|]. set (ids := i0 :: ids') in *.
  assert (py_index ids 0 = Ok i0) as -> by (by apply py_index_nonneg). cbn [mbind res_bind].
  assert (0 ≤ i0 < Z.of_nat (length (co_groups c))) as Hi0 by (by apply Forall_cons in Hio as [? _]).
  assert (∃ o, bg !! Z.to_nat i0 = Some o) as (o & Ho).
  { apply lookup_lt_is_Some_2. pose proof (pa_len _ _ _ _ Hp). cbn in *. lia. }
  assert (py_index bg i0 = Ok o) as -> by (apply py_index_nonneg; [lia|done]). cbn [mbind res_bind].
  assert (bg0 !! Z.to_nat i0 = Some o) as Ho0.
  { rewrite <- Ho. symmetry. apply (pa_rest _ _ _ _ Hp); [lia|].
    eapply (next_ids _ (spec, ids)); [exact E|by left]. }
  destruct (is_full spec && bool_decide (is_Some o)) eqn:Er; to_prop.
  - unfold py_div. rewrite (proj2 (Z.eqb_neq _ 0)) by lia. cbn [mbind res_bind].
    eexists. split; [done|].
    apply (step_reuse hit bg0 done (spec, ids) rest (curr, bg)); [done..|].
    intros (i & [= <-] & Hn). rewrite Ho0 in Hn. injection Hn as ->. by destruct H0.
  - destruct (lookup_group (spec, ids) curr Hx) as (hs & cols & Eh & Ef & Hh).
    { pose proof (pa_hit _ _ _ _ Hp). pose proof (li_hit _ _ Hl). cbn in *. lia. }
    cbn [fst snd] in *. rewrite Eh. cbn [mbind res_bind]. rewrite Ef. cbn [mbind res_bind].
    assert (0 < length ids)%nat as Hk by (cbn; lia).
    rewrite first_cols by done. cbn [mbind res_bind].
    destruct (store_hits_spec bg ids (per_group (length ids) cols)) as (bg' & -> & H1 & H2 & H3);
      [done|by rewrite (pa_len _ _ _ _ Hp : length bg = _)|by rewrite length_per_group|].
    cbn [mbind res_bind]. eexists. split; [done|].
    replace (zlen (omap _ cols)) with (zlen cols)
      by (unfold zlen; by rewrite (length_omap_cols (length ids) 0 cols (gh_cols _ _ _ _ _ _ _ Hh))).
    apply (step_store hit bg0 done (spec, ids) rest (curr, bg)); try done.
    pose proof (li_hit _ _ Hl). lia.
Qed.

(** One pass over all groups. *)
Lemma hybrid_pass hit bg0 :
  loop_inv hit bg0 →
  ∃ s, rfold (hybrid_step c hashes) (hit, bg0) groups = Ok s ∧ pass_inv hit bg0 groups s.
Proof.
  intros Hl. apply (rfold_total (pass_inv hit bg0)).
  - split; cbn [fst snd]; try done; try apply Hl.
    + pose proof (li_hit _ _ Hl). lia.
    + by intros g ?%elem_of_nil.
    + by intros [] ? ?.
    + lia.
  - intros done x rest s E Hp. by eapply hybrid_step_spec.
Qed.

(** The search is over at [t] tokens. *)
Record search_done (t : Z) (bg : table) : Prop := {
  sd_len : length bg = length (co_groups c);
  sd_hit : 0 ≤ t ≤ max;
  sd_aligned : (al | t);
  sd_groups : ∀ g, g ∈ groups → ∃ cols, good bg g cols ∧ t ≤ zlen cols * bs g
    ∧ (is_full g.1 = false → zlen cols * bs g = t);
  sd_longest : ∀ t', 0 ≤ t' ≤ max → (al | t') → all_covered t' → t' ≤ t;
}.

Lemma pass_longest hit bg0 s t :
  loop_inv hit bg0 → pass_inv hit bg0 groups s →
  0 ≤ t ≤ max → (al | t) → all_covered t → t ≤ s.1.
Proof.
  intros Hl Hp Ht Ha Hc. apply (pa_longest _ _ _ _ Hp); [|done..]. split; [lia|].
  by apply (li_longest _ _ Hl).
Qed.

(** The loop ends after at most [hit + 1] passes. *)
Lemma hybrid_loop_spec fuel simple hit bg :
  loop_inv hit bg → (Z.to_nat hit < fuel)%nat →
  (simple = true → ∃ f x, groups = [f; x] ∧ is_full f.1 = true) →
  ∃ t bg', hybrid_loop c hashes fuel simple hit bg = Ok (t, bg') ∧ search_done t bg'.
Proof.
  intros Hl Hf Hs. revert hit bg Hl Hf. induction fuel as [|fuel IH]; intros hit bg Hl Hf; [lia|].
  cbn [hybrid_loop]. destruct (hybrid_pass hit bg Hl) as ([curr bg'] & -> & Hp).
  pose proof (λ t, pass_longest hit bg (curr, bg') t Hl Hp) as Hlong.
  destruct (Hp) as [H1 H2 _ H4 H5 H6 _ _]. pose proof (li_hit _ _ Hl). cbn [fst snd] in *.
  specialize (H4 (hw_nonempty c Hwf)). cbn [mbind res_bind]. destruct (_ <=? _) eqn:E; to_prop.
  - assert (curr = hit) as -> by lia. exists hit, bg'. split; [done|]. split; try done.
    intros g Hg. destruct (H5 g Hg) as (cols & ? & ? & Hc). exists cols. split_and!; try done.
    intros Hn. specialize (Hc Hn). lia.
  - destruct simple.
    + destruct Hs as (f & x & Eg & Hff); [done|]. exists curr, bg'. split; [done|].
      split; try done; [lia|]. intros g Hg. destruct (H5 g Hg) as (cols & ? & ? & _).
      destruct (is_full g.1) eqn:Efull; [by exists cols|].
      rewrite Eg in Hg. assert (g = x) as ->.
      { apply elem_of_cons in Hg as [->|Hg%list_elem_of_singleton]; [congruence|done]. }
      destruct (H6 [f] x Eg) as (cols' & ? & ->); [by left|]. exists cols'. by split_and!.
    + apply IH; [|lia]. split; try done; [lia|]. intros g Hg Hfull. right. split; [done|].
      destruct (H5 g Hg) as (cols & ? & ? & _). by exists cols.
Qed.

Lemma truncate_spec n (bg : table) ids :
  NoDup ids → ids_ok (length bg) ids → 0 ≤ n →
  (∀ i, i ∈ ids → ∃ l, bg !! Z.to_nat i = Some (Some l)) →
  ∃ bg', rfold (truncate_full n) bg ids = Ok bg' ∧ length bg' = length bg
    ∧ (∀ i l, i ∈ ids → bg !! Z.to_nat i = Some (Some l) →
         bg' !! Z.to_nat i = Some (Some (take (Z.to_nat n) l)))
    ∧ ∀ i, 0 ≤ i → i ∉ ids → bg' !! Z.to_nat i = bg !! Z.to_nat i.
Proof.
  intros Hnd Hok Hn. revert bg Hok. induction Hnd as [|i ids Hi Hnd IH]; intros bg Hok Hs.
  { exists bg. cbn. split_and!; try done. by intros i l ?%elem_of_nil. }
  apply Forall_cons in Hok as [Hi' Hok]. destruct (Hs i) as [l El]; [by left|].
  cbn [rfold].
  assert (truncate_full n bg i = Ok (<[Z.to_nat i := Some (take (Z.to_nat n) l)]> bg)) as ->.
  { unfold truncate_full.
    assert (py_index bg i = Ok (Some l)) as -> by (apply py_index_nonneg; [lia|done]).
    cbn [mbind res_bind]. by rewrite py_set_nonneg, py_upto_nonneg by (unfold zlen; lia). }
  cbn [mbind res_bind].
  assert (∀ i', i' ∈ ids → <[Z.to_nat i := Some (take (Z.to_nat n) l)]> bg !! Z.to_nat i'
    = bg !! Z.to_nat i') as Hne.
  { intros i' Hin. apply list_lookup_insert_ne.
    pose proof (proj1 (Forall_forall _ _) Hok i' Hin) as Hr. cbn in Hr. intros ?.
    assert (i = i') by lia. by subst. }
  destruct (IH (<[Z.to_nat i := Some (take (Z.to_nat n) l)]> bg)) as (bg' & -> & H1 & H2 & H3).
  { by rewrite length_insert. }
  { intros i' Hin. rewrite Hne by done. apply Hs. by right. }
  rewrite length_insert in H1. exists bg'. split_and!; try done.
  - intros i' l' Hin El'. apply elem_of_cons in Hin as [Heq|Hin].
    + subst i'. rewrite El in El'. injection El' as <-. rewrite H3 by (done || lia).
      apply list_lookup_insert_eq. lia.
    + apply H2; [done|]. by rewrite Hne.
  - intros i' H0 [Hn1 Hn2]%not_elem_of_cons. rewrite H3 by done. apply list_lookup_insert_ne. lia.
Qed.

Lemma provides_take_full g cols n :
  is_full g.1 = true → provides g.1 g.2 p (L g) cols → provides g.1 g.2 p (L g) (take n cols).
Proof.
  intros Hf H i Hi _. rewrite length_take in Hi. rewrite lookup_take_lt by lia.
  apply H; [lia|]. destruct (g.1); (done || by vm_compute in Hf).
Qed.

(** What the caller gets for a group. *)
Definition group_result (hits : list (list ref)) (t : Z) (g : LayerSpec * list Z) : Prop :=
  ∃ cols, (∀ j i, g.2 !! j = Some i → hits !! Z.to_nat i = per_group (length g.2) cols !! j)
    ∧ provides g.1 g.2 p (L g) cols
    ∧ t ≤ zlen cols * bs g
    ∧ (is_full g.1 = false ∨ head groups = Some g → zlen cols * bs g = t).

Lemma good_result (bg : table) g cols :
  good bg g cols → ∀ j i, g.2 !! j = Some i →
  ((λ o : option (list ref), default [] o) <$> bg) !! Z.to_nat i = per_group (length g.2) cols !! j.
Proof.
  intros Hg j i Hj. destruct (gd_stored _ _ _ Hg j i Hj) as (l & -> & Hb).
  by rewrite list_lookup_fmap, Hb.
Qed.

Lemma finish_hybrid_spec t bg :
  search_done t bg →
  ∃ hits, finish_hybrid c t bg = Ok (hits, t) ∧ length hits = length (co_groups c)
    ∧ ∀ g, g ∈ groups → group_result hits t g.
Proof.
  intros [H1 H2 H3 H4 _]. unfold finish_hybrid. destruct groups as [|[s0 ids0] gs] eqn:Eg;
    [by destruct (hw_nonempty c Hwf)|].
  assert ((s0, ids0) ∈ attention_groups c) as H0 by (rewrite Eg; by left).
  rewrite <- Eg in H4. destruct (groups_spec _ H0) as ((Hb & Hd & _) & _ & _ & Hok & Hnd). cbn in Hb, Hd, Hok, Hnd.
  destruct (is_full s0) eqn:Ef.
  2: { cbn [mbind res_bind]. eexists. split; [done|]. rewrite length_fmap. split; [done|].
       intros g Hg. rewrite <- Eg in Hg. destruct (H4 g Hg) as (cols & Hgood & Hle & Heq).
       exists cols. split; [by apply good_result|]. split; [apply Hgood|]. split; [done|].
       rewrite Eg. intros [?|[= <-]]; by apply Heq. }
  destruct (H4 _ H0) as (cols0 & Hg0 & Hle0 & _). cbn [fst] in Hle0.
  unfold py_div. rewrite (proj2 (Z.eqb_neq _ 0)) by lia. cbn [mbind res_bind].
  destruct (aligned_blocks (block_size s0) al t Hb (proj1 H2) Hd H3) as (n & -> & En).
  rewrite Z.div_mul by lia.
  destruct (truncate_spec (Z.of_nat n) bg ids0) as (bg' & -> & T1 & T2 & T3); [done|by rewrite H1|lia| |].
  { intros i (j & Hj)%list_elem_of_lookup. destruct (gd_stored _ _ _ Hg0 j i Hj) as (l & _ & ?). by exists l. }
  cbn [mbind res_bind]. rewrite Nat2Z.id in T2. eexists. split; [done|].
  rewrite length_fmap. split; [congruence|]. intros g Hg. rewrite <- Eg in Hg.
  assert (n ≤ length cols0)%nat as Hn by (unfold zlen in Hle0; nia).
  rewrite Eg in Hg. apply elem_of_cons in Hg as [->|Hg].
  - exists (take n cols0). unfold zlen. cbn [fst snd]. rewrite length_take, Nat.min_l by done.
    split; [|split; [by apply (provides_take_full (s0, ids0)); [|apply Hg0]|done]].
    intros j i Hj. destruct (gd_stored _ _ _ Hg0 j i Hj) as (l & Hl & Hbg). cbn [snd] in Hl, Hj.
    rewrite list_lookup_fmap, (T2 i l) by (done || by eapply list_elem_of_lookup_2). cbn.
    pose proof (upto_cols (length ids0) cols0 (Z.of_nat n) (gd_cols _ _ _ Hg0) ltac:(lia)) as Hu.
    rewrite Nat2Z.id in Hu. rewrite <- Hu, list_lookup_fmap, Hl. cbn.
    by rewrite py_upto_nonneg, Nat2Z.id by lia.
  - assert (g ∈ attention_groups c) as Hg' by (rewrite Eg; by right).
    destruct (H4 g Hg') as (cols & Hgood & Hle & Heq). exists cols.
    assert (∀ i, i ∈ g.2 → i ∉ ids0) as Hni.
    { intros i Hi H0i. apply list_elem_of_split in Hg as (l1 & l2 & ->).
      eapply (done_ids ((s0, ids0) :: l1) g l2 (s0, ids0)); [exact Eg|by left|exact H0i|exact Hi]. }
    split; [|split; [apply Hgood|split; [done|]]].
    + intros j i Hj. rewrite <- (good_result bg g cols Hgood j i Hj), !list_lookup_fmap. f_equal.
      assert (i ∈ g.2) as Hi by (by eapply list_elem_of_lookup_2).
      apply T3; [by eapply ids_nonneg|by apply Hni].
    + rewrite Eg. intros [?|[= <-]]; [by apply Heq|]. exfalso.
      destruct (groups_spec _ H0) as (_ & _ & [Hne _] & _). destruct ids0 as [|i0 ?]; [done|].
      by apply (Hni i0); left.
Qed.

Lemma search_start : loop_inv max (replicate (length (co_groups c)) None).
Proof.
  split; [by rewrite length_replicate|lia| |lia]. intros g Hg _. left.
  destruct (groups_spec g Hg) as (_ & _ & [Hne _] & Hok & _). destruct (g.2) as [|i ids] eqn:E; [done|].
  exists i. rewrite E. split; [done|]. apply lookup_replicate_2. apply Forall_cons in Hok as [? _]. lia.
Qed.

Lemma all_covered_done t bg : search_done t bg → all_covered t.
Proof.
  intros Hd g Hg. destruct (sd_groups _ _ Hd g Hg) as (cols & Hgood & Hle & Heq).
  destruct (groups_spec g Hg) as ((Hb & Hdiv & _) & _).
  destruct (is_full g.1) eqn:Ef.
  - destruct (aligned_blocks (bs g) al t Hb (proj1 (sd_hit _ _ Hd)) Hdiv (sd_aligned _ _ Hd)) as (n & -> & En).
    unfold covered. rewrite En. intros i Hi _.
    destruct (gd_provides _ _ _ Hgood i) as (x & _ & ?); [unfold zlen in Hle; nia| |by exists x].
    destruct (g.1); (done || by vm_compute in Ef).
  - rewrite <- Heq by done. apply provides_covered; [done|apply Hgood].
Qed.
End hybrid.

(** C26: without EAGLE, for groups of full attention, sliding windows of more than one token,
    Mamba, and chunked attention whose block size is the alignment ([supported]), the
    hybrid search always ends, raises nothing for a maximum within the hashed tokens, and
    returns the longest length up to it that is a multiple of the least common block
    size and that every attention group covers; each group gets the cached blocks it
    needs, exactly that many tokens of them for the groups without full attention and for
    the first group. *)
Theorem hybrid_hit_is_longest c hashes max :
  hybrid_wf c → 0 ≤ max < (zlen hashes + 1) * co_hash_block_size c →
  ∃ hits t, hybrid_find_longest_cache_hit c hashes max = Ok (hits, t)
    ∧ length hits = length (co_groups c)
    ∧ 0 ≤ t ≤ max ∧ (lcm_block_size c | t)
    ∧ all_covered c hashes t
    ∧ (∀ g, g ∈ attention_groups c → group_result c hashes hits t g)
    ∧ ∀ t', 0 ≤ t' ≤ max → (lcm_block_size c | t') → all_covered c hashes t' → t' ≤ t.
Proof.
  intros Hwf Hmax. unfold hybrid_find_longest_cache_hit.
  edestruct (hybrid_loop_spec c hashes max Hwf Hmax (S (Z.to_nat max))
    (match attention_groups c with [(s, _); _] => is_full s | _ => false end)
    max _ (search_start c hashes max Hwf Hmax)) as (t & bg & -> & Hd); [lia| |].
  { destruct (attention_groups c) as [|[s ids] [|x []]]; try done. intros Hf. by exists (s, ids), x. }
  cbn [mbind res_bind].
  destruct (finish_hybrid_spec c hashes max Hwf t bg Hd) as (hits & -> & Hl & Hg).
  exists hits, t. split; [done|]. split; [done|]. split; [apply Hd|]. split; [apply Hd|].
  split; [by eapply all_covered_done|]. split; [done|]. apply Hd.
Qed.

(** ** Construction of the attention groups *)

Section groups.
Context (specs : list LayerSpec).

(** Groups over the first [n] specs: every id once, under its spec, every spec
    once. *)
Record groups_inv (n : nat) (gs : list (LayerSpec * list Z)) : Prop := {
  gr_ids : concat gs.*2 ≡ₚ zrange 0 (Z.of_nat n);
  gr_nonempty : Forall (λ g, g.2 ≠ []) gs;
  gr_spec : ∀ s ids i, (s, ids) ∈ gs → i ∈ ids → specs !! Z.to_nat i = Some s;
  gr_specs : NoDup gs.*1;
}.

Lemma add_ids gs spec i : concat (add_to_groups gs spec i).*2 ≡ₚ concat gs.*2 ++ [i].
Proof.
  induction gs as [|[s ids] gs IH]; cbn; [done|]. case_decide; cbn.
  - rewrite <- !app_assoc. apply Permutation_app_head. by rewrite Permutation_app_comm.
  - by rewrite IH, app_assoc.
Qed.

Lemma add_nonempty gs spec i :
  Forall (λ g, g.2 ≠ []) gs → Forall (λ g, g.2 ≠ []) (add_to_groups gs spec i).
Proof.
  induction gs as [|[s ids] gs IH]; cbn; [by repeat constructor|]. intros [H1 H2]%Forall_cons.
  case_decide; constructor; auto. cbn. by destruct ids.
Qed.

Lemma add_elem gs spec i s ids j :
  (s, ids) ∈ add_to_groups gs spec i → j ∈ ids →
  (s = spec ∧ j = i) ∨ ∃ ids', (s, ids') ∈ gs ∧ j ∈ ids'.
Proof.
  induction gs as [|[s0 ids0] gs IH]; cbn.
  - intros [= -> ->]%list_elem_of_singleton ->%list_elem_of_singleton. by left.
  - case_decide as E.
    + intros [[= -> ->]|Hin]%elem_of_cons.
      * intros [Hj| ->%list_elem_of_singleton]%elem_of_app; [|by left].
        right. exists ids0. split; [by left|done].
      * intros Hj. right. exists ids. split; [by right|done].
    + intros [[= -> ->]|Hin]%elem_of_cons Hj.
      * right. exists ids0. split; [by left|done].
      * destruct (IH Hin Hj) as [?|(ids' & ? & ?)]; [by left|]. right. exists ids'. split; [by right|done].
Qed.

Lemma add_fst gs spec i s : s ∈ (add_to_groups gs spec i).*1 → s = spec ∨ s ∈ gs.*1.
Proof.
  induction gs as [|[s0 ids0] gs IH]; cbn.
  - intros ->%list_elem_of_singleton. by left.
  - case_decide; cbn; rewrite !elem_of_cons; naive_solver.
Qed.

Lemma add_specs gs spec i : NoDup gs.*1 → NoDup (add_to_groups gs spec i).*1.
Proof.
  induction gs as [|[s0 ids0] gs IH]; cbn; [by repeat constructor; apply not_elem_of_nil|].
  intros [H1 H2]%NoDup_cons. case_decide; cbn; apply NoDup_cons; split; auto.
  intros [?|?]%add_fst; done.
Qed.

Lemma zrange_snoc (n : nat) : zrange 0 (Z.of_nat (S n)) = zrange 0 (Z.of_nat n) ++ [Z.of_nat n].
Proof.
  unfold zrange. rewrite !Z.sub_0_r, !Nat2Z.id, seq_S, fmap_app. done.
Qed.

Lemma split_groups_inv : groups_inv (length specs) (split_groups specs).
Proof.
  unfold split_groups.
  cut (∀ n, (n ≤ length specs)%nat → groups_inv n
    (fold_left (λ gs x, add_to_groups gs x.2 x.1) (take n (zip (zrange 0 (zlen specs)) specs)) [])).
  { intros H. specialize (H (length specs) ltac:(lia)). rewrite firstn_all2 in H; [done|].
    rewrite length_zip_with, length_zrange. unfold zlen. lia. }
  induction n as [|n IH]; intros Hn.
  { cbn. split; [done|constructor|by intros ? ? ? ?%elem_of_nil|constructor]. }
  destruct (lookup_lt_is_Some_2 specs n) as [s Hs]; [lia|].
  assert (zip (zrange 0 (zlen specs)) specs !! n = Some (Z.of_nat n, s)) as Hz.
  { rewrite lookup_zip_with, zrange_lookup by (unfold zlen; lia). cbn. by rewrite Hs. }
  rewrite (take_S_r _ _ _ Hz), fold_left_app. cbn [fold_left fst snd].
  destruct (IH ltac:(lia)) as [I1 I2 I3 I4]. split.
  - by rewrite add_ids, zrange_snoc, I1.
  - by apply add_nonempty.
  - intros s' ids i Hin Hi. destruct (add_elem _ _ _ _ _ _ Hin Hi) as [[-> ->]|(ids' & ? & ?)].
    + by rewrite Nat2Z.id.
    + by eapply I3.
  - by apply add_specs.
Qed.

Lemma full_first_perm gs : full_first gs ≡ₚ gs.
Proof.
  unfold full_first. rewrite <- (filter_app_complement (λ g, is_full g.1 = true) gs) at 3.
  apply Permutation_app_head. rewrite (list_filter_iff' (λ g, is_full g.1 = false) (λ g, ¬ is_full g.1 = true)); [done|].
  intros g _. by rewrite not_true_iff_false.
Qed.

Lemma lcm_all_divide l x : x ∈ l → (x | lcm_all l).
Proof.
  induction l as [|y l IH]; [by intros ?%elem_of_nil|]. intros [->|H]%elem_of_cons; cbn.
  - apply Z.divide_lcm_l.
  - etrans; [by apply IH|apply Z.divide_lcm_r].
Qed.

Lemma lcm_all_pos l : Forall (λ x, 0 < x) l → 0 < lcm_all l.
Proof.
  induction 1 as [|x l Hx _ IH]; cbn; [lia|].
  pose proof (Z.lcm_nonneg x (lcm_all l)). assert (Z.lcm x (lcm_all l) ≠ 0); [|unfold lcm_all in *; lia].
  intros [?|?]%Z.lcm_eq_0; lia.
Qed.
End groups.

(** ** A fresh coordinator *)

(** A manager just built for a spec: no request, the pool's null block. *)
Record fresh_manager (p : BlockPool) (spec : LayerSpec) (gid : Z) (m : Manager) : Prop := {
  fm_spec : mgr_spec m = spec;
  fm_gid : kv_cache_group_id m = gid;
  fm_null : mgr_null_block m = null_block p;
  fm_blocks : req_to_blocks m = ∅;
  fm_cached : num_cached_block m = ∅;
}.

Lemma manager_init_inv R own p fl spec caching gid dcp pcp m p' :
  PoolInv R own p fl → 0 < block_size spec → 1 ≤ dcp → 1 ≤ pcp →
  manager_init spec p caching gid dcp pcp = Ok (m, p') →
  ∃ R' fl', PoolInv R' own p' fl' ∧ same_pool p p' ∧ fresh_manager p spec gid m.
Proof.
  intros H Hb Hd Hp Hm. unfold manager_init in Hm. destruct (spec_manager_map spec) as [cls|]; [|done].
  set (bs := if 1 <? dcp * pcp then block_size spec * (dcp * pcp) else block_size spec) in *. assert (0 < bs).
  { unfold bs. destruct (1 <? dcp * pcp); [|exact Hb]. apply Z.mul_pos_pos; nia. }
  assert (∀ m0, m0 = mkManager spec bs caching [] ∅ ∅ gid (null_block p) ∅ ∅ ∅ [] →
    Ok (m0, p) = Ok (m, p') → ∃ R' fl', PoolInv R' own p' fl' ∧ same_pool p p' ∧ fresh_manager p spec gid m)
    as Hplain.
  { intros m0 -> [= <- <-]. exists R, fl. split; [exact H|]. by split. }
  destruct cls, spec; cbn in Hm; try (by eapply Hplain); try done.
  destruct sink_len as [n|]; [|done]. unfold py_mod in Hm. inv_ok. to_prop. inv_ok. to_prop. subst.
  destruct a1 as [sink q]. inv_ok.
  assert (0 ≤ n / bs) by (apply Z.div_pos; lia). pose proof (free_count _ _ _ _ H) as Hfc.
  destruct (decide (n / bs ≤ zlen fl)).
  - destruct (popleft_n_rep _ _ (n / bs) (pi_rep _ _ _ _ H)) as (q' & Eq & Hq & Hs); [lia|].
    rewrite Eq in Hb1. injection Hb1 as <- <-.
    eexists _, _. split; [by apply pop_free|]. split; [by apply same_pool_queue|]. done.
  - rewrite popleft_n_short in Hb1; [done|pose proof (zlen_nonneg fl); lia|].
    unfold get_num_free_blocks in Hfc. lia.
Qed.

Lemma init_managers_inv i R own p fl specs caching dcp pcp ms p' :
  PoolInv R own p fl → Forall (λ s, 0 < block_size s) specs → 1 ≤ dcp → 1 ≤ pcp →
  init_managers i specs caching dcp pcp p = Ok (ms, p') →
  ∃ R' fl', PoolInv R' own p' fl' ∧ same_pool p p' ∧ length ms = length specs
    ∧ ∀ j s, specs !! j = Some s → ∃ m, ms !! j = Some m ∧ fresh_manager p s (i + Z.of_nat j) m.
Proof.
  intros H Hs Hd Hp. revert i R p fl ms H. induction Hs as [|s specs Hb _ IH]; intros i R p fl ms H E.
  { injection E as <- <-. by exists R, fl. }
  cbn in E. inv_ok. destruct a as [m p1]. inv_ok. destruct a as [ms1 p2]. inv_ok.
  destruct (manager_init_inv R own p fl s caching i dcp pcp m p1 H Hb Hd Hp Hb0)
    as (R1 & fl1 & H1 & Hs1 & Hf).
  destruct (IH (i + 1) R1 p1 fl1 ms1 H1 Hb1) as (R2 & fl2 & H2 & Hs2 & Hl & Hms).
  exists R2, fl2. split; [done|]. split; [by etrans|]. split; [cbn; by rewrite Hl|].
  intros [|j] s' Hj; cbn in Hj.
  - injection Hj as <-. exists m. rewrite Z.add_0_r. done.
  - destruct (Hms j s' Hj) as (m' & ? & []). exists m'. split; [done|].
    split; try done; [by rewrite fm_gid0; lia|]. by rewrite fm_null0, (sp_null _ _ Hs1).
Qed.

(** The window, chunk and block sizes a hybrid model may use. *)
Definition hybrid_spec_ok (al : Z) (spec : LayerSpec) : Prop :=
  0 < block_size spec ∧
  match spec with
  | SlidingWindowSpec _ sw => 1 < sw
  | ChunkedLocalAttentionSpec a chunk => a_block_size a = al ∧ 0 < chunk ∧ (a_block_size a | chunk)
  | EncoderOnlyAttentionSpec _ | CrossAttentionSpec _ => False
  | _ => True
  end.

Lemma zrange_NoDup a b : NoDup (zrange a b).
Proof. unfold zrange. apply NoDup_fmap_2; [intros ? ? ?; lia|apply NoDup_seq]. Qed.

Lemma hybrid_init_groups c specs :
  attention_groups c = full_first (split_groups specs) → co_groups c = specs →
  zlen specs ≤ 2 ^ 32 →
  NoDup (concat (attention_groups c).*2)
  ∧ ∀ g, g ∈ attention_groups c → groups_ok g.2 ∧ ids_ok (length specs) g.2
      ∧ (g ∈ split_groups specs) ∧ g.1 ∈ specs.
Proof.
  intros Ea Ec H32. destruct (split_groups_inv specs) as [I1 I2 I3 I4].
  assert (Hperm : concat (attention_groups c).*2 ≡ₚ zrange 0 (zlen specs)).
  { rewrite Ea, <- I1. assert ((full_first (split_groups specs)).*2 ≡ₚ (split_groups specs).*2) as Hp
      by (by rewrite full_first_perm).
    by apply Permutation_concat. }
  split; [rewrite Hperm; apply zrange_NoDup|]. intros [s ids] Hg. cbn [fst snd].
  assert ((s, ids) ∈ split_groups specs) as Hg' by (by rewrite <- full_first_perm, <- Ea).
  pose proof (proj1 (Forall_forall _ _) I2 _ Hg') as Hne. cbn in Hne.
  assert (∀ i, i ∈ ids → 0 ≤ i < zlen specs) as Hr.
  { intros i Hi. apply elem_of_zrange. rewrite <- Hperm. eapply elem_of_concat; [exact Hi|].
    apply list_elem_of_fmap. by exists (s, ids). }
  split; [split; [done|]; apply Forall_forall; intros i Hi%Hr; cbn beta; lia|].
  split; [apply Forall_forall; intros i Hi%Hr; cbn beta; unfold zlen in Hi; lia|].
  split; [done|]. destruct ids as [|i ids]; [done|].
  eapply list_elem_of_lookup_2, I3; [exact Hg'|by left].
Qed.

(** The attention groups: every KV cache group occurs in exactly one of them, under its own
    spec; equal specs share one and different specs do not; full attention comes first; and
    hits are aligned to the least common multiple of the block sizes. *)
Record grouped (c : Coordinator) : Prop := {
  gp_ids : concat (attention_groups c).*2 ≡ₚ zrange 0 (zlen (co_groups c));
  gp_spec : ∀ g i, g ∈ attention_groups c → i ∈ g.2 → co_groups c !! Z.to_nat i = Some g.1;
  gp_distinct : NoDup (attention_groups c).*1;
  gp_several : 1 < zlen (attention_groups c);
  gp_full : ∃ l1 l2, attention_groups c = l1 ++ l2
    ∧ Forall (λ g, is_full g.1 = true) l1 ∧ Forall (λ g, is_full g.1 = false) l2;
  gp_multiple : ∀ g, g ∈ attention_groups c → (block_size g.1 | lcm_block_size c);
  gp_least : ∀ n, (∀ g, g ∈ attention_groups c → (block_size g.1 | n)) → (lcm_block_size c | n);
}.

Lemma lcm_all_least l n : (∀ x, x ∈ l → (x | n)) → (lcm_all l | n).
Proof.
  induction l as [|x l IH]; intros Hn; cbn; [apply Z.divide_1_l|]. apply Z.lcm_least; [apply Hn; left|].
  apply IH. intros y Hy. apply Hn. by right.
Qed.

Lemma split_grouped c specs :
  attention_groups c = full_first (split_groups specs) → co_groups c = specs → 1 < zlen (split_groups specs) →
  lcm_block_size c = lcm_all ((λ g, block_size g.1) <$> split_groups specs) → grouped c.
Proof.
  intros Ea Eg Hl El. destruct (split_groups_inv specs) as [I1 I2 I3 I4].
  pose proof (full_first_perm (split_groups specs)) as Hff. split; rewrite ?Ea, ?Eg, ?El.
  - rewrite <- I1. apply Permutation_concat. by rewrite Hff.
  - intros [s ids] i Hg Hi. rewrite Hff in Hg. by eapply I3.
  - by rewrite Hff.
  - unfold zlen in *. by rewrite Hff.
  - eexists _, _. split; [reflexivity|]. split; apply Forall_forall; intros g [? _]%list_elem_of_filter; done.
  - intros g Hg. rewrite Hff in Hg. apply lcm_all_divide, list_elem_of_fmap. by exists g.
  - intros n Hn. apply lcm_all_least. intros x (g & -> & Hg)%list_elem_of_fmap. apply Hn. by rewrite Hff.
Qed.

Lemma hybrid_init_spec cfg eagle caching events dcp pcp hash_bs coll c :
  coordinator_init HybridKVCacheCoordinator cfg eagle caching events dcp pcp hash_bs coll = Ok c →
  0 < hash_bs → Forall (λ s, 0 < block_size s) (co_groups c) →
  grouped c
  ∧ length (single_type_managers c) = length (co_groups c)
  ∧ (∀ j s, co_groups c !! j = Some s → ∃ m, single_type_managers c !! j = Some m ∧ mgr_spec m = s
       ∧ kv_cache_group_id m = Z.of_nat j ∧ req_to_blocks m = ∅)
  ∧ (eagle = false → zlen (co_groups c) ≤ 2 ^ 32 →
     Forall (hybrid_spec_ok (lcm_block_size c)) (co_groups c) → hybrid_wf c).
Proof.
  intros E Hh Hpos. unfold coordinator_init in E. cbv zeta in E. inv_ok. to_prop.
  destruct a0 as [ms p]. inv_ok. to_prop. subst.
  set (specs := kv_cache_spec <$> kv_cache_groups cfg) in *.
  cbn [co_groups lcm_block_size attention_groups single_type_managers] in *.
  assert (0 < num_blocks cfg) as Hn.
  { unfold pool_init in Hb. inv_ok. by to_prop. }
  destruct (pool_init_spec (num_blocks cfg) caching hash_bs events coll Hn) as (p0 & E0 & H0 & _).
  rewrite E0 in Hb. injection Hb as <-.
  destruct (init_managers_inv 0 ∅ ∅ p0 _ specs caching 1 1 ms p H0 Hpos ltac:(lia) ltac:(lia) Hb0)
    as (R' & fl' & Hinv & _ & Hlen & Hms).
  set (c := mkCoordinator _ _ _ _ _ _ _ _ _ _ _ _).
  assert (grouped c) as Hg by (by apply (split_grouped c specs)). split; [done|]. split; [done|]. split.
  { intros j s Hj. destruct (Hms j s Hj) as (m & ? & []). exists m. split_and!; try done. }
  intros -> H32 Hok. destruct (hybrid_init_groups c specs eq_refl eq_refl H32) as [Hnd Hgs]. split; cbn.
  - by eapply PoolInv_indexed.
  - done.
  - done.
  - apply lcm_all_pos, Forall_fmap. apply Forall_forall. intros g Hin.
    rewrite <- (full_first_perm (split_groups specs)) in Hin. destruct (Hgs g Hin) as (_ & _ & _ & Hs).
    by apply (proj1 (Forall_forall _ _) Hpos).
  - intros Hnil. pose proof (gp_several c Hg) as Hs. cbn in Hs. by rewrite Hnil in Hs.
  - apply Forall_forall. intros g Hin. destruct (Hgs g Hin) as (Hgo & Hid & _ & Hs).
    destruct (proj1 (Forall_forall _ _) Hok _ Hs) as [Hb Hw]. split; [|split; [|done]].
    + split; [done|]. split; [|done]. by apply (gp_multiple c Hg).
    + match goal with H : forallb _ _ = true |- _ => rewrite forallb_forall in H;
        specialize (H g.1 ltac:(by apply list_elem_of_In)) end. by to_prop.
  - exact Hnd.
Qed.

(** C30: a hybrid coordinator that was built without an exception, with or without EAGLE, over
    positive block sizes, partitions its KV cache groups by spec: every group id occurs in
    exactly one attention group, under its own spec, no two attention groups have the same
    spec, full attention comes first, and the alignment is the least common multiple of
    the block sizes; each group has a manager of its spec without requests.  Without
    EAGLE and with the specs a hybrid model may combine, the search of cache hits is well
    defined. *)
Theorem hybrid_init_wf cfg eagle caching events dcp pcp hash_bs coll c :
  coordinator_init HybridKVCacheCoordinator cfg eagle caching events dcp pcp hash_bs coll = Ok c →
  0 < hash_bs → Forall (λ s, 0 < block_size s) (co_groups c) →
  grouped c
  ∧ length (single_type_managers c) = length (co_groups c)
  ∧ (∀ j s, co_groups c !! j = Some s → ∃ m, single_type_managers c !! j = Some m ∧ mgr_spec m = s
       ∧ kv_cache_group_id m = Z.of_nat j ∧ req_to_blocks m = ∅)
  ∧ (eagle = false → zlen (co_groups c) ≤ 2 ^ 32 →
     Forall (hybrid_spec_ok (lcm_block_size c)) (co_groups c) → hybrid_wf c).
Proof. apply hybrid_init_spec. Qed.

(** ** Example *)

(** Full attention over blocks of four tokens and a sliding window over blocks of
    two. *)
Definition wide_attention : AttentionSpec := mkAttention 4 1 1 "float16" None.
Definition hybrid_config : KVCacheConfig :=
  mkKVCacheConfig 5 []
    [mkGroup ["full"] (FullAttentionSpec wide_attention (full_fields wide_attention None None None));
     mkGroup ["window"] (window_spec 5)].
Definition blank_coordinator : Coordinator :=
  mkCoordinator HybridKVCacheCoordinator [] true false 1 1 2 0 [] 0 [] blank_pool.
Definition hybrid_coordinator : Coordinator :=
  get_ok blank_coordinator
    (coordinator_init HybridKVCacheCoordinator hybrid_config false true false 1 1 2 None).
(** The same coordinator over the pool that caches the blocks of [request_h]. *)
Definition hybrid_cached : Coordinator :=
  with_state hybrid_coordinator (single_type_managers hybrid_coordinator) cached_pool.

Lemma get_ok_Ok {A} (d : A) (m : res A) :
  match m with Ok _ => true | Err _ => false end = true → m = Ok (get_ok d m).
Proof. by destruct m. Qed.

Lemma hybrid_coordinator_eq :
  coordinator_init HybridKVCacheCoordinator hybrid_config false true false 1 1 2 None
    = Ok hybrid_coordinator.
Proof. apply get_ok_Ok. vm_compute. reflexivity. Qed.

Lemma hybrid_example_specs :
  Forall (hybrid_spec_ok (lcm_block_size hybrid_coordinator)) (co_groups hybrid_coordinator).
Proof.
  change (Forall (hybrid_spec_ok 4)
    [FullAttentionSpec wide_attention (full_fields wide_attention None None None); window_spec 5]).
  repeat constructor.
Qed.

Lemma hybrid_example_sizes : Forall (λ s, 0 < block_size s) (co_groups hybrid_coordinator).
Proof. eapply Forall_impl; [exact hybrid_example_specs|]. by intros s [? _]. Qed.

Lemma hybrid_init_wf_witness :
  grouped hybrid_coordinator ∧ hybrid_wf hybrid_coordinator ∧ lcm_block_size hybrid_coordinator = 4.
Proof.
  destruct (hybrid_init_wf hybrid_config false true false 1 1 2 None hybrid_coordinator) as (Hg & _ & _ & Hw).
  - exact hybrid_coordinator_eq.
  - lia.
  - exact hybrid_example_sizes.
  - split; [exact Hg|]. split; [|vm_compute; reflexivity]. apply Hw; [reflexivity|vm_compute; discriminate|].
    exact hybrid_example_specs.
Defined.

Lemma hybrid_wf_with_state c ms p : hybrid_wf c → indexed p → hybrid_wf (with_state c ms p).
Proof. intros [] Hp. by split. Qed.

Lemma hybrid_cached_wf : hybrid_wf hybrid_cached.
Proof.
  apply hybrid_wf_with_state; [|eapply PoolInv_indexed, cached_pool_inv].
  destruct (hybrid_init_spec hybrid_config false true false 1 1 2 None hybrid_coordinator) as (_ & _ & _ & Hw).
  - exact hybrid_coordinator_eq.
  - lia.
  - exact hybrid_example_sizes.
  - apply Hw; [done|vm_compute; discriminate|exact hybrid_example_specs].
Qed.

Lemma hybrid_hit_is_longest_witness :
  ∃ hits t, hybrid_find_longest_cache_hit hybrid_cached hs 8 = Ok (hits, t) ∧ length hits = 2%nat.
Proof.
  destruct (hybrid_hit_is_longest hybrid_cached hs 8 hybrid_cached_wf) as (hits & t & E & H & _).
  - vm_compute. split; [discriminate|reflexivity].
  - exists hits, t. split; [exact E|exact H].
Defined.
