(* ===== verification/KVCacheManager.v ===== *)
(** * The KV-cache manager

    vllm/v1/core/kv_cache_manager.py: the interface between the scheduler and
    the KV cache. *)

From Stdlib Require Import QArith.
From S2P Require Import Prelude Blocks FreeQueue Request BlockHash Metrics HashMap BlockPool.
From S2P Require Import KVCacheSpec CacheHit SingleTypeManager Coordinator.
#[local] Open Scope Z_scope.

(** [KVCacheBlocks]: the pre-built empty object of the manager, which the code
    recognises by identity, or another object with one list per group. *)
Inductive KVCacheBlocks :=
  | EmptyBlocks
  | Blocks (l : list (list ref)).

(** [PrefixCacheStats] of vllm/v1/metrics/stats.py. *)
Record PrefixCacheStats := mkStats {
  st_reset : bool;
  st_requests : Z;
  st_queries : Z;
  st_hits : Z;
  preempted_requests : Z;
  preempted_queries : Z;
  preempted_hits : Z;
}.

Definition new_stats : PrefixCacheStats := mkStats false 0 0 0 0 0 0.

Definition record_stats (s : PrefixCacheStats) (num_tokens num_hits : Z) (preempted : bool)
    : PrefixCacheStats :=
  if preempted then
    mkStats (st_reset s) (st_requests s) (st_queries s) (st_hits s)
      (preempted_requests s + 1) (preempted_queries s + num_tokens) (preempted_hits s + num_hits)
  else
    mkStats (st_reset s) (st_requests s + 1) (st_queries s + num_tokens) (st_hits s + num_hits)
      (preempted_requests s) (preempted_queries s) (preempted_hits s).

(** [prefix_cache_stats] is [Some] exactly when [log_stats] is set. *)
Record KVCacheManager := mkKVCacheManager {
  km_max_model_len : Z;
  km_enable_caching : bool;
  prefix_cache_stats : option PrefixCacheStats;
  num_kv_cache_groups : Z;
  coordinator : Coordinator;
}.

Definition with_coordinator (k : KVCacheManager) (c : Coordinator) : KVCacheManager :=
  mkKVCacheManager (km_max_model_len k) (km_enable_caching k) (prefix_cache_stats k)
    (num_kv_cache_groups k) c.
Definition with_stats (k : KVCacheManager) (s : option PrefixCacheStats) : KVCacheManager :=
  mkKVCacheManager (km_max_model_len k) (km_enable_caching k) s (num_kv_cache_groups k)
    (coordinator k).
Definition pool_of (k : KVCacheManager) : BlockPool := block_pool (coordinator k).
Definition with_pool (k : KVCacheManager) (p : BlockPool) : KVCacheManager :=
  with_coordinator k (with_state (coordinator k) (single_type_managers (coordinator k)) p).

(** ** [KVCacheBlocks] *)

(** [.blocks]; the empty object has an empty tuple per group. *)
Definition kb_blocks (k : KVCacheManager) (b : KVCacheBlocks) : list (list ref) :=
  match b with EmptyBlocks => zreplicate (num_kv_cache_groups k) [] | Blocks l => l end.

Definition kb_add (k : KVCacheManager) (a b : KVCacheBlocks) : KVCacheBlocks :=
  Blocks (zip_with app (kb_blocks k a) (kb_blocks k b)).

Definition kb_get_block_ids (k : KVCacheManager) (b : KVCacheBlocks) (allow_none : bool)
    : option (list (list Z)) :=
  if allow_none && forallb (λ g, zlen g =? 0) (kb_blocks k b) then None
  else Some ((λ g : list ref, (λ r, block_id (p_store (pool_of k) r)) <$> g) <$> kb_blocks k b).

Definition kb_get_unhashed_block_ids (k : KVCacheManager) (b : KVCacheBlocks) : res (list Z) :=
  match kb_blocks k b with
  | [g] => Ok ((λ r, block_id (p_store (pool_of k) r)) <$>
                 filter (λ r, block_hash (p_store (pool_of k) r) = None) g)
  | _ => Err AssertionError
  end.

Definition kb_get_unhashed_block_ids_all_groups (k : KVCacheManager) (b : KVCacheBlocks)
    : list (list Z) :=
  (λ g : list ref, (λ r, block_id (p_store (pool_of k) r)) <$>
     filter (λ r, block_hash (p_store (pool_of k) r) = None
                ∧ is_null (p_store (pool_of k) r) = false) g) <$> kb_blocks k b.

Definition kb_new_empty (k : KVCacheManager) (b : KVCacheBlocks) : KVCacheBlocks :=
  Blocks (replicate (length (kb_blocks k b)) []).

(** [KVCacheBlocks(blocks) if any(blocks) else self.empty_kv_cache_blocks] *)
Definition create_kv_cache_blocks (l : list (list ref)) : KVCacheBlocks :=
  if existsb (λ g, negb (zlen g =? 0)) l then Blocks l else EmptyBlocks.

(** ** Construction and accessors *)

Definition kv_cache_manager_init (cfg : KVCacheConfig) (max_model_len hash_bs : Z)
    (caching use_eagle log_stats events : bool) (dcp pcp : Z)
    (collector : option KVCacheMetricsCollector) : res KVCacheManager :=
  c ← get_kv_cache_coordinator cfg use_eagle caching events dcp pcp hash_bs collector;
  Ok (mkKVCacheManager max_model_len caching (if log_stats then Some new_stats else None)
        (zlen (kv_cache_groups cfg)) c).

Definition usage (k : KVCacheManager) : Q := get_usage (pool_of k).

Definition make_prefix_cache_stats (k : KVCacheManager) : option PrefixCacheStats * KVCacheManager :=
  match prefix_cache_stats k with
  | None => (None, k)
  | Some s => (Some s, with_stats k (Some new_stats))
  end.

Definition km_take_events (k : KVCacheManager) : list KVCacheEvent * KVCacheManager :=
  let '(ev, p) := take_events (pool_of k) in (ev, with_pool k p).

Definition get_blocks (k : KVCacheManager) (rid : string) : KVCacheBlocks :=
  create_kv_cache_blocks (coord_get_blocks (coordinator k) rid).

Definition get_block_ids (k : KVCacheManager) (rid : string) : option (list (list Z)) :=
  kb_get_block_ids k (get_blocks k rid) false.

Definition km_num_common_prefix_blocks (k : KVCacheManager) (rid : string)
    : res (list Z * KVCacheManager) :=
  '(l, c) ← coord_num_common_prefix_blocks (coordinator k) rid;
  Ok (l, with_coordinator k c).

(** Drains the new block ids of every manager. *)
Definition km_take_new_block_ids (k : KVCacheManager) : list Z * KVCacheManager :=
  let ms := single_type_managers (coordinator k) in
  (concat ((λ m, (take_new_block_ids m).1) <$> ms),
   with_coordinator k (with_state (coordinator k) ((λ m, (take_new_block_ids m).2) <$> ms)
                         (pool_of k))).

Definition km_new_step_starts (k : KVCacheManager) : KVCacheManager :=
  with_coordinator k (coord_new_step_starts (coordinator k)).

(** ** Cache hits *)

Definition get_computed_blocks (k : KVCacheManager) (r : Request)
    : res (KVCacheBlocks * Z * KVCacheManager) :=
  if negb (km_enable_caching k) || skip_reading_prefix_cache r then Ok (EmptyBlocks, 0, k) else
  let max_cache_hit_length := num_tokens r - 1 in
  '(computed_blocks, num_new_computed_tokens) ←
    coord_find_longest_cache_hit (coordinator k) (Request.block_hashes r) max_cache_hit_length;
  let k :=
    with_stats k ((λ s, record_stats s (num_tokens r) num_new_computed_tokens
                          (0 <? num_preemptions r)) <$> prefix_cache_stats k) in
  Ok (create_kv_cache_blocks computed_blocks, num_new_computed_tokens, k).

(** ** Capacity and allocation *)

(** [new_computed_blocks is not None] and its blocks; the flag says whether they
    are the manager's own empty object. *)
Definition computed_list (k : KVCacheManager) (new_computed_blocks : option KVCacheBlocks)
    : list (list ref) * bool :=
  match new_computed_blocks with
  | None | Some EmptyBlocks => (kb_blocks k EmptyBlocks, true)
  | Some (Blocks l) => (l, false)
  end.

Definition can_fit_full_sequence (k : KVCacheManager) (r : Request) (num_new_computed_tokens : Z)
    (new_computed_blocks : option KVCacheBlocks)
    (num_external_computed_tokens num_encoder_tokens : Z) : res (bool * KVCacheManager) :=
  let '(blks, _) := computed_list k new_computed_blocks in
  let num_local_computed_tokens := num_computed_tokens r + num_new_computed_tokens in
  let total_computed_tokens :=
    Z.min (num_local_computed_tokens + num_external_computed_tokens) (km_max_model_len k) in
  let full_num_tokens := Z.min (num_tokens r) (km_max_model_len k) in
  '(n, c) ← coord_num_blocks_to_allocate (coordinator k) (request_id r) full_num_tokens blks
              num_encoder_tokens total_computed_tokens full_num_tokens;
  Ok (n <=? get_num_free_blocks (block_pool c), with_coordinator k c).

Section manager.
Context (use_int : bool) (sha256 : bytes → bytes).

(** [None] is returned when the free blocks do not suffice. *)
Definition allocate_slots (k : KVCacheManager) (r : Request)
    (num_new_tokens num_new_computed_tokens : Z) (new_computed_blocks : option KVCacheBlocks)
    (num_lookahead_tokens num_external_computed_tokens : Z) (delay_cache_blocks : bool)
    (num_encoder_tokens : Z) : res (option KVCacheBlocks * KVCacheManager * Request) :=
  RAISE ValueError IF (num_new_tokens =? 0) && (num_external_computed_tokens =? 0);
  let '(blks, is_empty_object) := computed_list k new_computed_blocks in
  let rid := request_id r in
  let num_local_computed_tokens := num_computed_tokens r + num_new_computed_tokens in
  let total_computed_tokens :=
    Z.min (num_local_computed_tokens + num_external_computed_tokens) (km_max_model_len k) in
  let num_tokens_main_model := total_computed_tokens + num_new_tokens in
  let num_tokens_need_slot :=
    Z.min (num_tokens_main_model + num_lookahead_tokens) (km_max_model_len k) in
  c ← coord_remove_skipped_blocks (coordinator k) rid total_computed_tokens;
  '(num_blocks_to_allocate, c) ←
    coord_num_blocks_to_allocate c rid num_tokens_need_slot blks num_encoder_tokens
      (num_local_computed_tokens + num_external_computed_tokens) num_tokens_main_model;
  if get_num_free_blocks (block_pool c) <? num_blocks_to_allocate then
    Ok (None, with_coordinator k c, r)
  else
  c ← (if negb is_empty_object || (0 <? num_external_computed_tokens) then
         coord_allocate_new_computed_blocks use_int c rid blks num_local_computed_tokens
           num_external_computed_tokens
       else Ok c);
  '(new_blocks, c) ← coord_allocate_new_blocks use_int c rid num_tokens_need_slot
                       num_tokens_main_model num_encoder_tokens;
  if negb (km_enable_caching k) || delay_cache_blocks then
    Ok (Some (create_kv_cache_blocks new_blocks), with_coordinator k c, r)
  else
  let num_tokens_to_cache := Z.min (total_computed_tokens + num_new_tokens) (num_tokens r) in
  '(c, r) ← coord_cache_blocks use_int sha256 c r num_tokens_to_cache;
  Ok (Some (create_kv_cache_blocks new_blocks), with_coordinator k c, r).

Definition km_cache_blocks (k : KVCacheManager) (r : Request) (num_computed_tokens : Z)
    : res (KVCacheManager * Request) :=
  if km_enable_caching k then
    '(c, r) ← coord_cache_blocks use_int sha256 (coordinator k) r num_computed_tokens;
    Ok (with_coordinator k c, r)
  else Ok (k, r).

Definition km_free (k : KVCacheManager) (r : Request) : res KVCacheManager :=
  with_coordinator k <$> coord_free (coordinator k) (request_id r).

Definition km_remove_skipped_blocks (k : KVCacheManager) (rid : string) (total_computed_tokens : Z)
    : res KVCacheManager :=
  with_coordinator k <$> coord_remove_skipped_blocks (coordinator k) rid total_computed_tokens.

Definition km_evict_blocks (k : KVCacheManager) (block_ids : list Z) : res KVCacheManager :=
  with_pool k <$> evict_blocks use_int (pool_of k) block_ids.

Definition km_reset_prefix_cache (k : KVCacheManager) : bool * KVCacheManager :=
  let '(ok, p) := reset_prefix_cache (pool_of k) in
  let k := with_pool k p in
  if negb ok then (false, k) else
  (true, with_stats k ((λ s, mkStats true (st_requests s) (st_queries s) (st_hits s)
                               (preempted_requests s) (preempted_queries s) (preempted_hits s))
                         <$> prefix_cache_stats k)).
End manager.
