(* ===== verification/EncoderCache.v ===== *)
(** * The encoder cache

    vllm/v1/core/encoder_cache_manager.py: the bookkeeping of cached encoder
    outputs of multi-modal inputs, shared by requests with the same input. *)

From S2P Require Import Prelude Request BlockHash.

(** [mm_hash], the identifier of a multi-modal input. *)
Abbreviation mm_key := (option string).

(** ** [EncoderCacheManager] *)

Record EncoderCacheManager := mkEncoder {
  cache_size : Z;
  num_free_slots : Z;
  num_freeable_slots : Z;
  cached_refs : gmap mm_key (gset string);
  freeable : list (mm_key * Z);
  freed : list mm_key;
}.

Definition encoder_init (size : Z) : EncoderCacheManager := mkEncoder size size size ∅ [] [].

Definition encoder_reset (e : EncoderCacheManager) : EncoderCacheManager :=
  mkEncoder (cache_size e) (cache_size e) (cache_size e) ∅ [] [].

(** [request.mm_features[input_id].identifier] *)
Definition mm_hash (r : Request) (input_id : Z) : res mm_key :=
  f ← py_index (mm_features r) input_id; Ok (identifier f).

Definition check_and_update_cache (e : EncoderCacheManager) (r : Request) (input_id : Z)
    : res (bool * EncoderCacheManager) :=
  h ← mm_hash r input_id;
  match cached_refs e !! h with
  | None => Ok (false, e)
  | Some refs =>
      '(n, fr) ← (if decide (refs = ∅) then od_pop (freeable e) h else Ok (0, freeable e));
      Ok (true, mkEncoder (cache_size e) (num_free_slots e) (num_freeable_slots e - n)
                  (<[h := {[request_id r]} ∪ refs]> (cached_refs e)) fr (freed e))
  end.

(** [while num_embeds > self.num_free_slots]: every turn evicts one entry. *)
Fixpoint evict_loop (fuel : nat) (num_embeds : Z) (e : EncoderCacheManager)
    : res EncoderCacheManager :=
  if num_embeds <=? num_free_slots e then Ok e else
  match fuel, freeable e with
  | O, _ => Err OutOfFuel
  | _, [] => Err KeyError
  | S fuel, (h, n) :: fr =>
      match cached_refs e !! h with
      | None => Err KeyError
      | Some _ =>
          evict_loop fuel num_embeds
            (mkEncoder (cache_size e) (num_free_slots e + n) (num_freeable_slots e)
               (delete h (cached_refs e)) fr (freed e ++ [h]))
      end
  end.

Definition can_allocate (e : EncoderCacheManager) (r : Request)
    (input_id encoder_compute_budget num_embeds_to_schedule : Z)
    : res (bool * EncoderCacheManager) :=
  num_embeds ← get_num_encoder_embeds r input_id;
  if encoder_compute_budget <? num_embeds then Ok (false, e) else
  let num_embeds := num_embeds + num_embeds_to_schedule in
  if num_embeds <=? num_free_slots e then Ok (true, e) else
  if num_freeable_slots e <? num_embeds then Ok (false, e) else
  e ← evict_loop (S (length (freeable e))) num_embeds e;
  Ok (true, e).

Definition allocate (e : EncoderCacheManager) (r : Request) (input_id : Z)
    : res EncoderCacheManager :=
  h ← mm_hash r input_id;
  let refs := default ∅ (cached_refs e !! h) in
  n ← get_num_encoder_embeds r input_id;
  ASSERT n <=? num_free_slots e;
  ASSERT n <=? num_freeable_slots e;
  Ok (mkEncoder (cache_size e) (num_free_slots e - n) (num_freeable_slots e - n)
        (<[h := {[request_id r]} ∪ refs]> (cached_refs e)) (freeable e) (freed e)).

Definition get_cached_input_ids (e : EncoderCacheManager) (r : Request) : list Z :=
  fst <$> filter (λ x : Z * MultiModalFeatureSpec, is_Some (cached_refs e !! identifier x.2))
            (zip (zrange 0 (zlen (mm_features r))) (mm_features r)).

Definition free_encoder_input (e : EncoderCacheManager) (r : Request) (input_id : Z)
    : res EncoderCacheManager :=
  h ← mm_hash r input_id;
  let refs := default ∅ (cached_refs e !! h) in
  if decide (refs = ∅) then Ok e else
  let refs := refs ∖ {[request_id r]} in
  let c := <[h := refs]> (cached_refs e) in
  if decide (refs = ∅) then
    n ← get_num_encoder_embeds r input_id;
    Ok (mkEncoder (cache_size e) (num_free_slots e) (num_freeable_slots e + n) c
          (od_set (freeable e) h n) (freed e))
  else Ok (mkEncoder (cache_size e) (num_free_slots e) (num_freeable_slots e) c (freeable e) (freed e)).

(** The set of ids is iterated in increasing order. *)
Definition encoder_free (e : EncoderCacheManager) (r : Request) : res EncoderCacheManager :=
  rfold (λ e i, free_encoder_input e r i) e (get_cached_input_ids e r).

Definition get_freed_mm_hashes (e : EncoderCacheManager) : list mm_key * EncoderCacheManager :=
  (freed e, mkEncoder (cache_size e) (num_free_slots e) (num_freeable_slots e) (cached_refs e)
              (freeable e) []).

(** [mm_max_toks_per_item]: the maximal token counts by modality. *)
Definition compute_mm_encoder_budget (disable_chunked_mm_input : bool)
    (max_num_batched_tokens max_num_encoder_input_tokens encoder_cache_size : Z)
    (mm_max_toks_per_item : list Z) : res (Z * Z) :=
  match mm_max_toks_per_item with
  | [] => Ok (0, 0)
  | x :: l =>
      let m := foldr Z.max x l in
      RAISE ValueError IF disable_chunked_mm_input && (max_num_batched_tokens <? m);
      Ok (Z.max max_num_encoder_input_tokens m, Z.max encoder_cache_size m)
  end.

(** ** [EncoderDecoderCacheManager] *)

Record EncoderDecoderCacheManager := mkEncDec {
  ed_cache_size : Z;
  ed_num_free_slots : Z;
  allocated : list mm_key;
  to_free : list mm_key;
}.

Definition encdec_init (size : Z) : EncoderDecoderCacheManager := mkEncDec size size [] [].
Definition encdec_reset (e : EncoderDecoderCacheManager) : EncoderDecoderCacheManager :=
  mkEncDec (ed_cache_size e) (ed_cache_size e) [] [].

Definition encdec_can_allocate (e : EncoderDecoderCacheManager) (r : Request)
    (input_id encoder_compute_budget num_embeds_to_schedule : Z) : res bool :=
  n ← get_num_encoder_embeds r input_id;
  if encoder_compute_budget <? n then Ok false
  else Ok (n + num_embeds_to_schedule <=? ed_num_free_slots e).

Definition encdec_allocate (e : EncoderDecoderCacheManager) (r : Request) (input_id : Z)
    : res EncoderDecoderCacheManager :=
  n ← get_num_encoder_embeds r input_id;
  h ← mm_hash r input_id;
  Ok (mkEncDec (ed_cache_size e) (ed_num_free_slots e - n) (allocated e ++ [h]) (to_free e)).

Definition encdec_free_encoder_input (e : EncoderDecoderCacheManager) (r : Request) (input_id : Z)
    : res EncoderDecoderCacheManager :=
  n ← get_num_encoder_embeds r input_id;
  Ok (mkEncDec (ed_cache_size e) (ed_num_free_slots e + n) (allocated e) (to_free e)).

Definition encdec_free (e : EncoderDecoderCacheManager) (r : Request)
    : res EncoderDecoderCacheManager :=
  rfold (λ e i, encdec_free_encoder_input e r i) e (zrange 0 (zlen (mm_features r))).

Definition encdec_get_cached_input_ids (r : Request) : list Z := zrange 0 (zlen (mm_features r)).

Definition encdec_get_freed_mm_hashes (e : EncoderDecoderCacheManager)
    : list mm_key * EncoderDecoderCacheManager :=
  (to_free e, mkEncDec (ed_cache_size e) (ed_num_free_slots e) [] (allocated e)).

(** ** Invariant *)

(** The sum of [f] over the cached entries. *)
Definition weight (f : mm_key → gset string → Z) (M : gmap mm_key (gset string)) : Z :=
  map_fold (λ h refs acc, f h refs + acc) 0 M.

Lemma weight_insert f M h refs :
  M !! h = None → weight f (<[h := refs]> M) = f h refs + weight f M.
Proof. intros. unfold weight. rewrite map_fold_insert_L; [done|lia|done]. Qed.

Lemma weight_split f M h :
  weight f M = from_option (f h) 0 (M !! h) + weight f (delete h M).
Proof.
  destruct (M !! h) as [refs|] eqn:E; cbn [from_option].
  - rewrite <- (insert_delete_id M h refs E) at 1. rewrite weight_insert; [done|].
    apply lookup_delete_eq.
  - by rewrite delete_id.
Qed.

Lemma weight_set f M h refs :
  weight f (<[h := refs]> M) = f h refs + weight f (delete h M).
Proof.
  rewrite (weight_split f _ h), lookup_insert_eq. cbn. by rewrite delete_insert_eq.
Qed.

Lemma weight_ext f g M :
  (∀ h refs, M !! h = Some refs → f h refs = g h refs) → weight f M = weight g M.
Proof.
  induction M as [|h refs M Hh IH] using map_ind; intros H; [done|].
  rewrite !weight_insert by done. rewrite (H h refs) by apply lookup_insert_eq.
  rewrite IH; [done|]. intros h' refs' Hl. apply H. rewrite lookup_insert_ne; [done|congruence].
Qed.

Section invariant.
(** The number of embeddings of each input: requests that share an identifier
    share the input. *)
Context (sz : mm_key → Z) (Hsz : ∀ h, 0 ≤ sz h).

Definition all_size (h : mm_key) (refs : gset string) : Z := sz h.
Definition used_size (h : mm_key) (refs : gset string) : Z := if decide (refs = ∅) then 0 else sz h.

Definition sized (r : Request) : Prop :=
  ∀ f, f ∈ mm_features r → get_num_embeds (mm_position f) = Ok (sz (identifier f)).

(** Free slots are those no entry takes; reclaimable slots those no referenced
    entry takes; the eviction queue lists the unreferenced entries. *)
Record EncoderInv (e : EncoderCacheManager) : Prop := {
  ei_free : num_free_slots e = cache_size e - weight all_size (cached_refs e);
  ei_freeable : num_freeable_slots e = cache_size e - weight used_size (cached_refs e);
  ei_nonneg : 0 ≤ num_free_slots e;
  ei_queue : ∀ h n, (h, n) ∈ freeable e ↔ cached_refs e !! h = Some ∅ ∧ n = sz h;
  ei_nodup : NoDup (freeable e).*1;
}.

Lemma used_le_all M : 0 ≤ weight used_size M ≤ weight all_size M.
Proof using Hsz.
  induction M as [|h refs M Hh IH] using map_ind; [done|].
  rewrite !weight_insert by done. unfold used_size at 1 3, all_size at 1.
  pose proof (Hsz h). case_decide; lia.
Qed.

Lemma encoder_slots e :
  EncoderInv e → 0 ≤ num_free_slots e ≤ num_freeable_slots e ∧ num_freeable_slots e ≤ cache_size e.
Proof using Hsz. intros [-> -> ? _ _]. pose proof (used_le_all (cached_refs e)). lia. Qed.

(** With nothing to evict, every reclaimable slot is free. *)
Lemma no_freeable e : EncoderInv e → freeable e = [] → num_freeable_slots e = num_free_slots e.
Proof.
  intros [-> -> _ Hq _] Hf. f_equal. apply weight_ext. intros h refs Hl.
  unfold used_size, all_size. case_decide; [|done]. subst.
  assert ((h, sz h) ∈ freeable e) as Hin by (by apply Hq). rewrite Hf in Hin. by apply elem_of_nil in Hin.
Qed.

Lemma od_pop_spec (d : list (mm_key * Z)) h n :
  NoDup d.*1 → (h, n) ∈ d →
  ∃ d', od_pop d h = Ok (n, d') ∧ NoDup d'.*1
    ∧ ∀ h' n', (h', n') ∈ d' ↔ (h', n') ∈ d ∧ h' ≠ h.
Proof.
  induction d as [|[k v] d IH]; [by intros _ ?%elem_of_nil|]. cbn. intros [Hk Hnd]%NoDup_cons Hin.
  assert (∀ v', (k, v') ∈ d → k ∈ d.*1) as Hfst by (intros v' ?; by apply list_elem_of_fmap; exists (k, v')).
  destruct (decide (k = h)) as [->|Hne].
  - apply elem_of_cons in Hin as [[= ->]|Hin]; [|by destruct Hk; eauto].
    exists d. split; [done|]. split; [done|]. intros h' n'. rewrite elem_of_cons. split.
    + intros Hd. split; [by right|]. intros ->. by destruct Hk; eauto.
    + intros [[[= -> ->]|?] ?]; done.
  - apply elem_of_cons in Hin as [[= -> ->]|Hin]; [done|].
    destruct (IH Hnd Hin) as (d' & -> & Hnd' & Hd'). cbn. eexists. split; [done|]. split.
    + cbn. apply NoDup_cons. split; [|done]. intros ([k' v'] & -> & Hv)%list_elem_of_fmap. cbn in *.
      apply Hd' in Hv as [? _]. by destruct Hk; eauto.
    + intros h' n'. rewrite !elem_of_cons, Hd'. naive_solver.
Qed.

(** [input_id] is a valid index and names an input of the known size. *)
Definition valid_input (r : Request) (i : Z) (h : mm_key) : Prop :=
  mm_hash r i = Ok h ∧ get_num_encoder_embeds r i = Ok (sz h).

Lemma valid_input_intro r i :
  sized r → 0 ≤ i < zlen (mm_features r) → ∃ h, valid_input r i h.
Proof.
  intros Hs Hi. destruct (lookup_lt_is_Some_2 (mm_features r) (Z.to_nat i)) as [f Hf];
    [unfold zlen in Hi; lia|].
  assert (py_index (mm_features r) i = Ok f) as E by (apply py_index_nonneg; [lia|done]).
  exists (identifier f). unfold valid_input, mm_hash, get_num_encoder_embeds. rewrite E. cbn.
  rewrite (proj2 (Z.ltb_lt _ _)) by lia. split; [done|]. apply Hs. by eapply list_elem_of_lookup_2.
Qed.

Lemma refs_union_ne (rid : string) (refs : gset string) : {[rid]} ∪ refs ≠ ∅.
Proof. set_solver. Qed.

(** Adding a reference to an entry that has [refs]. *)
Lemma weight_used_ref M h refs rid :
  M !! h = Some refs →
  weight used_size (<[h := {[rid]} ∪ refs]> M)
    = weight used_size M + (if decide (refs = ∅) then sz h else 0).
Proof.
  intros Hl. rewrite weight_set, (weight_split _ M h), Hl. cbn. unfold used_size.
  rewrite decide_False by apply refs_union_ne. case_decide; lia.
Qed.

Lemma weight_all_ref M h refs refs' :
  M !! h = Some refs → weight all_size (<[h := refs']> M) = weight all_size M.
Proof. intros Hl. rewrite weight_set, (weight_split _ M h), Hl. done. Qed.

Lemma check_spec e r i h :
  EncoderInv e → valid_input r i h →
  ∃ b e', check_and_update_cache e r i = Ok (b, e') ∧ EncoderInv e'
    ∧ (b = true ↔ is_Some (cached_refs e !! h))
    ∧ (b = true → ∃ refs, cached_refs e' !! h = Some refs ∧ request_id r ∈ refs)
    ∧ (b = false → e' = e).
Proof.
  intros [H1 H2 H3 H4 H5] [Hh _]. unfold check_and_update_cache. rewrite Hh. cbn [mbind res_bind].
  destruct (cached_refs e !! h) as [refs|] eqn:El.
  2: { exists false, e. split; [done|]. split; [done|]. split; [|done]. split; [done|by intros []]. }
  assert (∃ n fr, (if decide (refs = ∅) then od_pop (freeable e) h else Ok (0, freeable e)) = Ok (n, fr)
    ∧ n = (if decide (refs = ∅) then sz h else 0) ∧ NoDup fr.*1
    ∧ ∀ h' n', (h', n') ∈ fr ↔ (h', n') ∈ freeable e ∧ h' ≠ h) as (n & fr & -> & Hn & Hnd & Hfr).
  { case_decide as E.
    - destruct (od_pop_spec (freeable e) h (sz h) H5) as (d & -> & ? & ?); [apply H4; by subst|].
      by exists (sz h), d.
    - exists 0, (freeable e). split_and!; try done. intros h' n'. split; [|by intros [? _]].
      intros Hin. split; [done|]. intros ->. apply H4 in Hin as [? _]. congruence. }
  cbn [mbind res_bind]. eexists true, _. split; [done|]. split.
  - split; cbn.
    + by rewrite H1, (weight_all_ref _ h refs).
    + rewrite H2, (weight_used_ref _ h refs) by done. lia.
    + done.
    + intros h' n'. rewrite Hfr, H4. destruct (decide (h' = h)) as [->|].
      * rewrite lookup_insert_eq. pose proof (refs_union_ne (request_id r) refs). naive_solver.
      * rewrite lookup_insert_ne by done. naive_solver.
    + done.
  - split; [by split|]. split; [|done]. intros _. cbn. rewrite lookup_insert_eq.
    eexists. split; [done|]. set_solver.
Qed.

Lemma evict_one e h n fr :
  EncoderInv e → freeable e = (h, n) :: fr →
  cached_refs e !! h = Some ∅ ∧
  EncoderInv (mkEncoder (cache_size e) (num_free_slots e + n) (num_freeable_slots e)
                (delete h (cached_refs e)) fr (freed e ++ [h])).
Proof using Hsz.
  intros [H1 H2 H3 H4 H5] Ef. destruct (proj1 (H4 h n)) as [Hl ->]; [rewrite Ef; by left|].
  split; [done|]. rewrite Ef in H5. cbn in H5. apply NoDup_cons in H5 as [Hh Hnd]. split; cbn.
  - rewrite H1, (weight_split _ _ h), Hl. unfold all_size at 1. cbn. lia.
  - rewrite H2, (weight_split _ _ h), Hl. unfold used_size at 1. cbn. rewrite decide_True by done. lia.
  - specialize (Hsz h). lia.
  - intros h' n'. destruct (decide (h' = h)) as [->|].
    + rewrite lookup_delete_eq. split; [|naive_solver]. intros Hin. destruct Hh.
      apply list_elem_of_fmap. by exists (h, n').
    + rewrite lookup_delete_ne, <- H4, Ef, elem_of_cons by done. naive_solver.
  - done.
Qed.

(** Eviction ends with enough free slots, and only drops unreferenced entries,
    oldest first. *)
Lemma evict_loop_spec fuel num e :
  EncoderInv e → num ≤ num_freeable_slots e → (length (freeable e) < fuel)%nat →
  ∃ e' k, evict_loop fuel num e = Ok e' ∧ EncoderInv e' ∧ num ≤ num_free_slots e'
    ∧ freeable e' = drop k (freeable e) ∧ freed e' = freed e ++ (take k (freeable e)).*1
    ∧ num_freeable_slots e' = num_freeable_slots e ∧ cache_size e' = cache_size e
    ∧ (∀ h refs, refs ≠ ∅ → cached_refs e' !! h = Some refs ↔ cached_refs e !! h = Some refs)
    ∧ (∀ h, cached_refs e !! h = None → cached_refs e' !! h = None).
Proof using Hsz.
  revert e. induction fuel as [|fuel IH]; intros e He Hn Hf; [lia|]. cbn [evict_loop].
  destruct (_ <=? _) eqn:E; to_prop.
  { exists e, 0%nat. rewrite app_nil_r. by split_and!. }
  destruct (freeable e) as [|[h n] fr] eqn:Ef.
  { rewrite (no_freeable e) in Hn by done. lia. }
  destruct (evict_one e h n fr He Ef) as [Hl He']. rewrite Hl.
  destruct (IH _ He') as (e' & k & -> & H1 & H2 & H3 & H4 & H5 & H6 & H7 & H8); [done|cbn in *; lia|].
  cbn in *. exists e', (S k). split_and!; try done.
  - rewrite H4. cbn. by rewrite <- app_assoc.
  - intros h' refs Hne. rewrite H7 by done. destruct (decide (h' = h)) as [->|].
    + rewrite lookup_delete_eq, Hl. naive_solver.
    + by rewrite lookup_delete_ne.
  - intros h' Hn'. apply H8. destruct (decide (h' = h)) as [->|]; [apply lookup_delete_eq|].
    by rewrite lookup_delete_ne.
Qed.

Lemma can_allocate_spec e r i h budget sched :
  EncoderInv e → valid_input r i h →
  ∃ b e' k, can_allocate e r i budget sched = Ok (b, e') ∧ EncoderInv e'
    ∧ (b = true ↔ sz h ≤ budget ∧ sz h + sched ≤ num_freeable_slots e)
    ∧ (b = true → sz h + sched ≤ num_free_slots e')
    ∧ freeable e' = drop k (freeable e) ∧ freed e' = freed e ++ (take k (freeable e)).*1
    ∧ (∀ h refs, refs ≠ ∅ → cached_refs e' !! h = Some refs ↔ cached_refs e !! h = Some refs)
    ∧ (∀ h, cached_refs e !! h = None → cached_refs e' !! h = None).
Proof using Hsz.
  intros He [_ Hn]. unfold can_allocate. rewrite Hn. cbn [mbind res_bind].
  destruct (encoder_slots e He) as [Hsl _].
  assert (∀ b : bool, (b = true ↔ sz h ≤ budget ∧ sz h + sched ≤ num_freeable_slots e) →
    (b = true → sz h + sched ≤ num_free_slots e) →
    ∃ b' e' k, Ok (b, e) = Ok (b', e') ∧ EncoderInv e'
    ∧ (b' = true ↔ sz h ≤ budget ∧ sz h + sched ≤ num_freeable_slots e)
    ∧ (b' = true → sz h + sched ≤ num_free_slots e')
    ∧ freeable e' = drop k (freeable e) ∧ freed e' = freed e ++ (take k (freeable e)).*1
    ∧ (∀ h refs, refs ≠ ∅ → cached_refs e' !! h = Some refs ↔ cached_refs e !! h = Some refs)
    ∧ (∀ h, cached_refs e !! h = None → cached_refs e' !! h = None)) as Hsame.
  { intros b Hb Hb'. exists b, e, 0%nat. rewrite app_nil_r. by split_and!. }
  destruct (budget <? sz h) eqn:E1; to_prop; [apply Hsame; [|done]; split; [done|lia]|].
  destruct (_ <=? num_free_slots e) eqn:E2; to_prop; [apply Hsame; [|done]; split; [|done]; lia|].
  destruct (num_freeable_slots e <? _) eqn:E3; to_prop; [apply Hsame; [|done]; split; [done|lia]|].
  destruct (evict_loop_spec (S (length (freeable e))) (sz h + sched) e He)
    as (e' & k & -> & H1 & H2 & H3 & H4 & _ & _ & H7 & H8); [lia|lia|].
  cbn [mbind res_bind]. exists true, e', k. by split_and!.
Qed.

Lemma allocate_spec e r i h :
  EncoderInv e → valid_input r i h → cached_refs e !! h = None → sz h ≤ num_free_slots e →
  ∃ e', allocate e r i = Ok e' ∧ EncoderInv e'
    ∧ cached_refs e' = <[h := {[request_id r]}]> (cached_refs e)
    ∧ num_free_slots e' = num_free_slots e - sz h.
Proof using Hsz.
  intros He [Hh Hn] Hnone Hfree. unfold allocate. rewrite Hh. cbn [mbind res_bind]. rewrite Hn.
  cbn [mbind res_bind]. destruct (encoder_slots e He) as [Hsl _].
  rewrite !(proj2 (Z.leb_le _ _)) by lia. rewrite Hnone. cbn [default].
  rewrite (right_id_L ∅ (∪)). eexists. split; [done|]. split; [|done].
  destruct He as [H1 H2 H3 H4 H5]. split; cbn.
  - rewrite H1, weight_insert by done. unfold all_size at 2. lia.
  - rewrite H2, weight_insert by done. unfold used_size at 2. rewrite decide_False by set_solver. lia.
  - lia.
  - intros h' n. rewrite H4. destruct (decide (h' = h)) as [->|].
    + rewrite lookup_insert_eq, Hnone. split; [naive_solver|]. by intros [[= E] _].
    + by rewrite lookup_insert_ne.
  - done.
Qed.

Lemma free_input_spec e r i h :
  EncoderInv e → valid_input r i h →
  ∃ e', free_encoder_input e r i = Ok e' ∧ EncoderInv e' ∧ num_free_slots e' = num_free_slots e
    ∧ (∀ refs, cached_refs e' !! h = Some refs → request_id r ∉ refs)
    ∧ (∀ h', h' ≠ h → cached_refs e' !! h' = cached_refs e !! h')
    ∧ dom (cached_refs e') = dom (cached_refs e).
Proof using Hsz.
  intros He [Hh Hn]. destruct (He) as [H1 H2 H3 H4 H5]. unfold free_encoder_input. rewrite Hh.
  cbn [mbind res_bind]. destruct (cached_refs e !! h) as [refs|] eqn:El; cbn [default from_option id].
  2: { rewrite decide_True by done. exists e. split_and!; try done. rewrite El. by intros ? ?. }
  case_decide as Er.
  { exists e. split_and!; try done. rewrite El. intros ? [= <-]. set_solver. }
  set (refs' := refs ∖ {[request_id r]}). set (c := <[h := refs']> (cached_refs e)).
  assert (dom c = dom (cached_refs e)) as Hdom.
  { unfold c. apply dom_insert_lookup_L. by rewrite El. }
  assert (∀ refs0, c !! h = Some refs0 → request_id r ∉ refs0) as Hout.
  { unfold c. rewrite lookup_insert_eq. intros ? [= <-]. set_solver. }
  assert (∀ h', h' ≠ h → c !! h' = cached_refs e !! h') as Hoth.
  { intros. unfold c. by rewrite lookup_insert_ne. }
  assert (weight used_size c = weight used_size (cached_refs e) - sz h + used_size h refs') as Hw.
  { unfold c. rewrite weight_set, (weight_split _ (cached_refs e) h), El. cbn.
    unfold used_size at 3. rewrite decide_False by done. lia. }
  assert (weight all_size c = weight all_size (cached_refs e)) as Hall.
  { unfold c. by rewrite (weight_all_ref _ h refs). }
  assert (c !! h = Some refs') as Hc by apply lookup_insert_eq.
  cbv zeta. fold refs'. fold c. clearbody c. clearbody refs'. case_decide as Er'.
  - rewrite Hn. cbn [mbind res_bind]. eexists. split; [done|]. split; [|by split_and!].
    assert (h ∉ (freeable e).*1) as Hnf.
    { intros ([h' n] & -> & Hin)%list_elem_of_fmap. cbn in *. apply H4 in Hin as [Hin _]. congruence. }
    rewrite od_set_fresh by done. split; cbn.
    + by rewrite H1, Hall.
    + rewrite H2, Hw, Er'. unfold used_size at 3. rewrite decide_True by done. lia.
    + done.
    + intros h' n. rewrite elem_of_app, list_elem_of_singleton, H4. destruct (decide (h' = h)) as [->|].
      * rewrite El, Hc, Er'. naive_solver.
      * rewrite Hoth by done. naive_solver.
    + rewrite fmap_app. apply NoDup_app. split; [done|]. split; [|apply NoDup_singleton].
      intros x Hx ->%list_elem_of_singleton. done.
  - eexists. split; [done|]. split; [|by split_and!]. split; cbn.
    + by rewrite H1, Hall.
    + rewrite H2, Hw. unfold used_size at 3. rewrite decide_False by done. lia.
    + done.
    + intros h' n. rewrite H4. destruct (decide (h' = h)) as [->|]; [|by rewrite Hoth].
      rewrite El, Hc. naive_solver.
    + done.
Qed.

Lemma cached_ids_range e r i : i ∈ get_cached_input_ids e r → 0 ≤ i < zlen (mm_features r).
Proof.
  unfold get_cached_input_ids. intros ([j f] & -> & [_ Hin]%list_elem_of_filter)%list_elem_of_fmap.
  cbn. apply elem_of_zrange. by eapply elem_of_zip_l.
Qed.

Lemma cached_ids_all e r i h :
  0 ≤ i → mm_hash r i = Ok h → is_Some (cached_refs e !! h) → i ∈ get_cached_input_ids e r.
Proof.
  intros Hi Hh Hs. unfold mm_hash in Hh. inv_ok. apply py_index_nonneg in Hb; [|done].
  assert (Z.to_nat i < length (mm_features r))%nat by (by eapply lookup_lt_Some).
  unfold get_cached_input_ids. apply list_elem_of_fmap. exists (i, a). split; [done|].
  apply list_elem_of_filter. split; [done|]. apply list_elem_of_lookup. exists (Z.to_nat i).
  rewrite lookup_zip_with, zrange_lookup by (unfold zlen; lia). cbn. rewrite Hb. cbn. do 2 f_equal. lia.
Qed.

(** Freeing a request drops all its references. *)
Lemma encoder_free_spec e r :
  EncoderInv e → sized r →
  ∃ e', encoder_free e r = Ok e' ∧ EncoderInv e' ∧ num_free_slots e' = num_free_slots e
    ∧ dom (cached_refs e') = dom (cached_refs e)
    ∧ ∀ i h refs, 0 ≤ i → mm_hash r i = Ok h → cached_refs e' !! h = Some refs → request_id r ∉ refs.
Proof using Hsz.
  intros He Hs. unfold encoder_free.
  destruct (rfold_total (λ done e', EncoderInv e' ∧ num_free_slots e' = num_free_slots e
      ∧ dom (cached_refs e') = dom (cached_refs e)
      ∧ ∀ i h refs, i ∈ done → mm_hash r i = Ok h → cached_refs e' !! h = Some refs → request_id r ∉ refs)
    (λ e i, free_encoder_input e r i) (get_cached_input_ids e r) e) as (e' & -> & H1 & H2 & H3 & H4).
  - split_and!; try done. by intros i h refs ?%elem_of_nil.
  - intros done i rest e1 Hl (I1 & I2 & I3 & I4).
    assert (i ∈ get_cached_input_ids e r) as Hi by (rewrite Hl; set_solver).
    destruct (valid_input_intro r i Hs (cached_ids_range e r i Hi)) as (h & Hv).
    destruct (free_input_spec e1 r i h I1 Hv) as (e2 & E & J1 & J2 & J3 & J4 & J5).
    exists e2. split; [done|]. split; [done|]. split; [congruence|]. split; [congruence|].
    intros i' h' refs [Hi'|Heq%list_elem_of_singleton]%elem_of_app Hh' Hl'.
    + destruct (decide (h' = h)) as [->|]; [by eapply J3|]. rewrite J4 in Hl' by done. by eapply I4.
    + subst i'. destruct Hv as [Hv _]. rewrite Hv in Hh'. injection Hh' as <-. by eapply J3.
  - exists e'. split; [done|]. split; [done|]. split; [done|]. split; [done|].
    intros i h refs Hi Hh Hl. eapply H4; [|exact Hh|exact Hl]. eapply cached_ids_all; [done|exact Hh|].
    apply elem_of_dom. rewrite <- H3. apply elem_of_dom. by exists refs.
Qed.

(** ** Runs *)

Inductive enc_op :=
  | OpCheck (r : Request) (i : Z)
  | OpCanAllocate (r : Request) (i budget sched : Z)
  | OpAllocate (r : Request) (i : Z)
  | OpFreeInput (r : Request) (i : Z)
  | OpFreeRequest (r : Request)
  | OpGetFreed
  | OpResetCache.

(** One call; results other than the state are dropped. *)
Definition enc_run (e : EncoderCacheManager) (o : enc_op) : res EncoderCacheManager :=
  match o with
  | OpCheck r i => snd <$> check_and_update_cache e r i
  | OpCanAllocate r i budget sched => snd <$> can_allocate e r i budget sched
  | OpAllocate r i => allocate e r i
  | OpFreeInput r i => free_encoder_input e r i
  | OpFreeRequest r => encoder_free e r
  | OpGetFreed => Ok (get_freed_mm_hashes e).2
  | OpResetCache => Ok (encoder_reset e)
  end.

(** What the scheduler keeps to: inputs exist, and an input is allocated only when it is
    not cached and fits the free slots, as [can_allocate] has ensured. *)
Definition enc_legal (e : EncoderCacheManager) (o : enc_op) : Prop :=
  match o with
  | OpCheck r i | OpCanAllocate r i _ _ | OpFreeInput r i => sized r ∧ 0 ≤ i < zlen (mm_features r)
  | OpAllocate r i => sized r ∧ 0 ≤ i < zlen (mm_features r)
      ∧ ∀ h, mm_hash r i = Ok h → cached_refs e !! h = None ∧ sz h ≤ num_free_slots e
  | OpFreeRequest r => sized r
  | OpGetFreed | OpResetCache => True
  end.

(** Every call is legal in the state the calls before it have left. *)
Fixpoint enc_legal_run (e : EncoderCacheManager) (ops : list enc_op) : Prop :=
  match ops with
  | [] => True
  | o :: ops => enc_legal e o ∧ ∀ e', enc_run e o = Ok e' → enc_legal_run e' ops
  end.

Lemma empty_inv size : 0 ≤ size → EncoderInv (encoder_init size).
Proof.
  intros. assert (∀ f, weight f ∅ = 0) as Hw by (intros; unfold weight; by rewrite map_fold_empty).
  split; cbn; rewrite ?Hw; try lia; [|constructor].
  intros h n. rewrite lookup_empty. split; [by intros ?%elem_of_nil|naive_solver].
Qed.

Lemma enc_run_ok e o : EncoderInv e → enc_legal e o → ∃ e', enc_run e o = Ok e' ∧ EncoderInv e'.
Proof using Hsz.
  intros He. destruct o as [r i|r i bu sc|r i|r i|r| |]; cbn [enc_legal enc_run].
  - intros [Hs Hi]. destruct (valid_input_intro r i Hs Hi) as (h & Hv).
    destruct (check_spec e r i h He Hv) as (b & e' & -> & ? & _). by exists e'.
  - intros [Hs Hi]. destruct (valid_input_intro r i Hs Hi) as (h & Hv).
    destruct (can_allocate_spec e r i h bu sc He Hv) as (b & e' & k & -> & ? & _). by exists e'.
  - intros (Hs & Hi & Ha). destruct (valid_input_intro r i Hs Hi) as (h & Hv). destruct (Ha h (proj1 Hv)) as [Hn Hf].
    destruct (allocate_spec e r i h He Hv Hn Hf) as (e' & ? & ? & _). by exists e'.
  - intros [Hs Hi]. destruct (valid_input_intro r i Hs Hi) as (h & Hv).
    destruct (free_input_spec e r i h He Hv) as (e' & ? & ? & _). by exists e'.
  - intros Hs. destruct (encoder_free_spec e r He Hs) as (e' & ? & ? & _). by exists e'.
  - intros _. eexists. split; [done|]. destruct He. by split.
  - intros _. eexists. split; [done|]. apply (empty_inv (cache_size e)). pose proof (encoder_slots e He). lia.
Qed.

Lemma enc_runs_ok e ops :
  EncoderInv e → enc_legal_run e ops → ∃ e', rfold enc_run e ops = Ok e' ∧ EncoderInv e'.
Proof using Hsz.
  revert e. induction ops as [|o ops IH]; intros e He Hl; [by exists e|]. destruct Hl as [Ho Hl].
  destruct (enc_run_ok e o He Ho) as (e1 & E & He1). cbn [rfold]. rewrite E. cbn [mbind res_bind]. auto.
Qed.

(** C31: no sequence of the scheduler's calls raises, from a fresh encoder cache on: lookups,
    capacity checks with their evictions, allocations of inputs that are not cached and
    fit, freeing of inputs and of requests, reading the evicted hashes and resets.  In every
    state reached, free slots, reclaimable slots and capacity are ordered and
    non-negative, the slot counters equal what the entries take, and the eviction queue
    lists exactly the unreferenced entries, each once and with its size. *)
Theorem encoder_cache_invariant size ops :
  0 ≤ size → enc_legal_run (encoder_init size) ops →
  ∃ e, rfold enc_run (encoder_init size) ops = Ok e ∧ EncoderInv e
    ∧ 0 ≤ num_free_slots e ≤ num_freeable_slots e ∧ num_freeable_slots e ≤ cache_size e.
Proof using Hsz.
  intros Hsize Hl. destruct (enc_runs_ok _ ops (empty_inv size Hsize) Hl) as (e & E & He).
  exists e. split; [done|]. split; [done|]. by apply encoder_slots.
Qed.

(** C32: in a consistent state [can_allocate] never raises.  For an input within the compute
    budget it answers no only when the input exceeds the free and reclaimable slots, as
    documented, and an input beyond the budget is refused without any change.  When it
    answers yes there are enough free slots, after the eviction of the oldest unreferenced
    entries, whose hashes are reported, and of none that a request references. *)
Theorem can_allocate_contract e r i h budget sched :
  EncoderInv e → valid_input r i h →
  ∃ b e' k, can_allocate e r i budget sched = Ok (b, e') ∧ EncoderInv e'
    ∧ (sz h ≤ budget → b = false ↔ num_freeable_slots e < sz h + sched)
    ∧ (budget < sz h → b = false ∧ e' = e)
    ∧ (b = true → sz h + sched ≤ num_free_slots e')
    ∧ freeable e' = drop k (freeable e) ∧ freed e' = freed e ++ (take k (freeable e)).*1
    ∧ (∀ h refs, refs ≠ ∅ → cached_refs e' !! h = Some refs ↔ cached_refs e !! h = Some refs).
Proof using Hsz.
  intros He Hv. destruct (can_allocate_spec e r i h budget sched He Hv)
    as (b & e' & k & E & ? & Hb & ? & ? & ? & ? & _). exists b, e', k. split; [done|]. split; [done|]. split_and!; try done.
  - intros Hle. destruct b; [|split; [intros _|done]].
    + split; [done|]. destruct (proj1 Hb eq_refl). lia.
    + destruct (decide (num_freeable_slots e < sz h + sched)) as [?|Hn]; [done|]. exfalso.
      assert (false = true) by (apply Hb; lia). done.
  - intros Hlt. destruct Hv as [_ Hn]. unfold can_allocate in E. rewrite Hn in E. cbn [mbind res_bind] in E.
    rewrite (proj2 (Z.ltb_lt _ _)) in E by done. by injection E as <- <-.
Qed.

(** Freeing a request never fails, drops every reference the request holds,
    keeps all entries cached, and leaves the number of free slots as it was. *)
Theorem encoder_free_contract e r :
  EncoderInv e → sized r →
  ∃ e', encoder_free e r = Ok e' ∧ EncoderInv e' ∧ num_free_slots e' = num_free_slots e
    ∧ dom (cached_refs e') = dom (cached_refs e)
    ∧ ∀ i h refs, 0 ≤ i → mm_hash r i = Ok h → cached_refs e' !! h = Some refs → request_id r ∉ refs.
Proof using Hsz. apply encoder_free_spec. Qed.
End invariant.

(** ** Examples *)

Definition image_request : Request :=
  mkRequest "r" 0 0 0 None None None false 0 WAITING None 0 None None ∅ 0 [] [] 0 [] 0 None
    [feature "img" 0 3] (-1) 0 0 [] false false [] 0 false false None.
Definition image_size (h : mm_key) : Z := 3.

Lemma image_size_nonneg h : 0 ≤ image_size h.
Proof. unfold image_size. lia. Qed.

Lemma image_sized : sized image_size image_request.
Proof. intros f ->%list_elem_of_singleton. reflexivity. Qed.

Definition image_cached : EncoderCacheManager :=
  mkEncoder 4 1 1 {[Some "img" := {["r"]}]} [] [].

(** A lookup, the allocation, and the end of the request, whose entry stays until another
    input needs its slots. *)
Definition image_ops : list enc_op :=
  [OpCheck image_request 0; OpCanAllocate image_request 0 8 0; OpAllocate image_request 0;
   OpFreeRequest image_request; OpCanAllocate image_request 0 8 0; OpGetFreed].

Lemma image_input : sized image_size image_request ∧ 0 ≤ 0 < zlen (mm_features image_request).
Proof. split; [exact image_sized|]. vm_compute. split; [discriminate|reflexivity]. Qed.

Lemma image_legal : enc_legal_run image_size (encoder_init 4) image_ops.
Proof.
  split; [exact image_input|]. intros e1 E1. vm_compute in E1. injection E1 as <-.
  split; [exact image_input|]. intros e2 E2. vm_compute in E2. injection E2 as <-.
  split; [split; [apply image_input|]; split; [apply image_input|]|].
  { intros h Eh. vm_compute in Eh. injection Eh as <-. split; [reflexivity|vm_compute; discriminate]. }
  intros e3 E3. vm_compute in E3. injection E3 as <-. split; [exact image_sized|]. intros e4 E4. vm_compute in E4.
  injection E4 as <-. split; [exact image_input|]. by intros.
Qed.

Lemma encoder_cache_invariant_witness :
  ∃ e, rfold enc_run (encoder_init 4) image_ops = Ok e ∧ num_free_slots e = 4 ∧ EncoderInv image_size e.
Proof.
  destruct (encoder_cache_invariant image_size image_size_nonneg 4 image_ops) as (e & E & H & _).
  - lia.
  - exact image_legal.
  - exists e. split; [exact E|]. split; [|exact H]. vm_compute in E. injection E as <-. reflexivity.
Defined.

Lemma image_cached_inv : EncoderInv image_size image_cached.
Proof.
  destruct (enc_run_ok image_size image_size_nonneg (encoder_init 4) (OpAllocate image_request 0)) as (e & E & He).
  - apply empty_inv. lia.
  - split; [apply image_input|]. split; [apply image_input|]. intros h Eh. vm_compute in Eh. injection Eh as <-.
    split; [reflexivity|vm_compute; discriminate].
  - vm_compute in E. injection E as <-. exact He.
Qed.

Lemma can_allocate_contract_witness :
  ∃ b e', can_allocate image_cached image_request 0 8 0 = Ok (b, e') ∧ EncoderInv image_size e'.
Proof.
  destruct (can_allocate_contract image_size image_size_nonneg image_cached image_request 0 (Some "img") 8 0)
    as (b & e' & k & E & H & _).
  - exact image_cached_inv.
  - split; reflexivity.
  - exists b, e'. split; [exact E|exact H].
Defined.

Lemma encoder_free_contract_witness :
  ∃ e', encoder_free image_cached image_request = Ok e' ∧ num_free_slots e' = 1.
Proof.
  destruct (encoder_free_contract image_size image_size_nonneg image_cached image_request)
    as (e' & E & _ & H & _).
  - exact image_cached_inv.
  - exact image_sized.
  - exists e'. split; [exact E|exact H].
Defined.

(** The encoder-decoder variant loses count: freeing one allocated input
    twice, as the scheduler does once per step and again when the request ends,
    leaves more free slots than the cache has. *)
Theorem encdec_free_slots_exceed_size :
  ∃ e1 e2, encdec_allocate (encdec_init 4) image_request 0 = Ok e1
    ∧ (e ← encdec_free_encoder_input e1 image_request 0; encdec_free e image_request) = Ok e2
    ∧ ed_cache_size e2 < ed_num_free_slots e2.
Proof. eexists _, _. split; [vm_compute; reflexivity|]. split; vm_compute; reflexivity. Qed.

(** The capacity check also answers no when the input exceeds the compute budget, although
    the cache is empty and large enough. *)
Theorem budget_refuses_despite_capacity :
  can_allocate (encoder_init 4) image_request 0 2 0 = Ok (false, encoder_init 4)
  ∧ image_size (Some "img") ≤ num_free_slots (encoder_init 4).
Proof. split; [vm_compute; reflexivity|vm_compute; discriminate]. Qed.
