(* ===== verification/HeapQueue.v ===== *)
(** * Binary heaps

    The [heapq] module of the Python standard library, which the priority queue
    of vllm/v1/core/sched/request_queue.py is built on: a list whose element [i]
    is not greater than its children [2 i + 1] and [2 i + 2]. *)

From S2P Require Import Prelude.

Section heap.
Context {A : Type} (lt : A → A → bool).

Definition parent (i : nat) : nat := (i - 1) / 2.

(** [heap[i]] *)
Definition at_ (heap : list A) (i : nat) : res A :=
  match heap !! i with Some x => Ok x | None => Err IndexError end.

(** [_siftdown]: follow the path to the root, moving parents down until the
    place of [newitem] is found. *)
Fixpoint siftdown_loop (fuel : nat) (heap : list A) (startpos pos : nat) (newitem : A)
    : res (list A) :=
  match fuel with
  | O => Err OutOfFuel
  | S fuel =>
      if (startpos <? pos)%nat then
        p ← at_ heap (parent pos);
        if lt newitem p
        then siftdown_loop fuel (<[pos := p]> heap) startpos (parent pos) newitem
        else Ok (<[pos := newitem]> heap)
      else Ok (<[pos := newitem]> heap)
  end.

Definition siftdown (heap : list A) (startpos pos : nat) : res (list A) :=
  newitem ← at_ heap pos;
  siftdown_loop (S pos) heap startpos pos newitem.

(** [_siftup]: bubble the smaller child up until a leaf is hit. *)
Fixpoint siftup_loop (fuel : nat) (heap : list A) (pos : nat) : res (list A * nat) :=
  match fuel with
  | O => Err OutOfFuel
  | S fuel =>
      let childpos := (2 * pos + 1)%nat in
      if (childpos <? length heap)%nat then
        c ← at_ heap childpos;
        '(child, childpos) ←
          (if (S childpos <? length heap)%nat then
             r ← at_ heap (S childpos);
             Ok (if negb (lt c r) then (r, S childpos) else (c, childpos))
           else Ok (c, childpos));
        siftup_loop fuel (<[pos := child]> heap) childpos
      else Ok (heap, pos)
  end.

Definition siftup (heap : list A) (pos : nat) : res (list A) :=
  newitem ← at_ heap pos;
  '(heap, leaf) ← siftup_loop (S (length heap)) heap pos;
  siftdown (<[leaf := newitem]> heap) pos leaf.

Definition heappush (heap : list A) (item : A) : res (list A) :=
  siftdown (heap ++ [item]) 0 (length heap).

Definition heappop (heap : list A) : res (A * list A) :=
  match last heap with
  | None => Err IndexError
  | Some lastelt =>
      let heap := removelast heap in
      match heap with
      | [] => Ok (lastelt, [])
      | returnitem :: _ => heap ← siftup (<[0%nat := lastelt]> heap) 0; Ok (returnitem, heap)
      end
  end.

(** [for i in reversed(range(n // 2)): _siftup(x, i)] *)
Fixpoint heapify_loop (k : nat) (heap : list A) : res (list A) :=
  match k with
  | O => Ok heap
  | S i => heap ← siftup heap i; heapify_loop i heap
  end.

Definition heapify (heap : list A) : res (list A) := heapify_loop (length heap / 2) heap.

(** ** Correctness *)

(** [y] may stand above [x]. *)
Definition le (y x : A) : Prop := lt x y = false.

Class HeapOrder : Prop := {
  lt_asym : ∀ x y, lt x y = true → lt y x = false;
  le_trans : ∀ x y z, le x y → le y z → le x z;
}.

Context `{!HeapOrder}.

Lemma le_refl x : le x x.
Proof using All. unfold le. destruct (lt x x) eqn:E; [|done]. by rewrite (lt_asym _ _ E) in E. Qed.

Lemma lt_le x y : lt x y = true → le x y.
Proof using All. apply lt_asym. Qed.

(** The order holds between [i] and its parent. *)
Definition ordered_at (l : list A) (i : nat) : Prop :=
  ∀ x y, l !! i = Some x → l !! parent i = Some y → le y x.

(** The order holds for all nodes whose parent is at [s] or beyond. *)
Definition heap_from (s : nat) (l : list A) : Prop :=
  ∀ i, (0 < i)%nat → (s ≤ parent i)%nat → ordered_at l i.
Definition is_heap (l : list A) : Prop := heap_from 0 l.

Inductive desc (s : nat) : nat → Prop :=
  | desc_refl : desc s s
  | desc_child i : (0 < i)%nat → desc s (parent i) → desc s i.

Lemma parent_lt i : (0 < i)%nat → (parent i < i)%nat.
Proof. intros. unfold parent. apply Nat.Div0.div_lt_upper_bound. lia. Qed.

Lemma parent_child i c : (c = 2 * i + 1 ∨ c = 2 * i + 2)%nat → parent c = i.
Proof.
  unfold parent. intros [->| ->].
  - replace (2 * i + 1 - 1)%nat with (i * 2)%nat by lia. by rewrite Nat.div_mul.
  - replace (2 * i + 2 - 1)%nat with (1 + i * 2)%nat by lia. rewrite Nat.div_add by lia. done.
Qed.

Lemma child_of i c : (0 < c)%nat → parent c = i → (c = 2 * i + 1 ∨ c = 2 * i + 2)%nat.
Proof. unfold parent. intros Hc <-. pose proof (Nat.div_mod_eq (c - 1) 2).
  pose proof (Nat.mod_upper_bound (c - 1) 2). lia. Qed.

Lemma desc_le s i : desc s i → (s ≤ i)%nat.
Proof. induction 1 as [|i Hi _ IH]; [done|]. pose proof (parent_lt i Hi). lia. Qed.

Lemma desc_0 i : desc 0 i.
Proof.
  induction (lt_wf i) as [i _ IH]. destruct i as [|i]; [constructor|].
  apply desc_child; [lia|]. apply IH, parent_lt. lia.
Qed.

Lemma desc_parent s i : desc s i → (s < i)%nat → desc s (parent i) ∧ (s ≤ parent i)%nat ∧ (0 < i)%nat.
Proof. intros Hd Hlt. inversion Hd; subst; [lia|]. split; [done|]. split; [by apply desc_le|done]. Qed.

(** ** Moving an item up *)

(** [v] is a heap from [s], except that the item at [pos] may be too small. *)
Record rising (s : nat) (v : list A) (pos : nat) : Prop := {
  ri_order : ∀ i, (0 < i)%nat → i ≠ pos → (s ≤ parent i)%nat → ordered_at v i;
  ri_skip : ∀ i x y, (0 < i)%nat → parent i = pos → (0 < pos)%nat → (s ≤ parent pos)%nat →
    v !! i = Some x → v !! parent pos = Some y → le y x;
}.

Lemma rising_done s v pos :
  rising s v pos → ((0 < pos)%nat → (s ≤ parent pos)%nat → ordered_at v pos) → heap_from s v.
Proof. intros [Ho _] Hp i Hi Hs. destruct (decide (i = pos)) as [->|]; auto. Qed.

Lemma rising_step s v pos x p :
  rising s v pos → (0 < pos)%nat → (s ≤ parent pos)%nat →
  v !! pos = Some x → v !! parent pos = Some p → lt x p = true →
  rising s (<[parent pos := x]> (<[pos := p]> v)) (parent pos).
Proof using All.
  intros [Ho Hsk] Hpos Hs Hx Hp Hlt. pose proof (parent_lt pos Hpos) as Hpp.
  assert (pos < length v)%nat by (by eapply lookup_lt_Some).
  set (v' := <[parent pos := x]> (<[pos := p]> v)).
  assert (v' !! parent pos = Some x) as V1.
  { unfold v'. apply list_lookup_insert_eq. rewrite length_insert. lia. }
  assert (v' !! pos = Some p) as V2.
  { unfold v'. rewrite list_lookup_insert_ne by lia. by apply list_lookup_insert_eq. }
  assert (∀ i, i ≠ pos → i ≠ parent pos → v' !! i = v !! i) as V3.
  { intros. unfold v'. by rewrite !list_lookup_insert_ne. }
  split.
  - intros i Hi Hne Hsi a b Ha Hb.
    destruct (decide (i = pos)) as [->|].
    { rewrite V2 in Ha. rewrite V1 in Hb. simplify_eq. by apply lt_le. }
    rewrite V3 in Ha by done. destruct (decide (parent i = pos)) as [Hpi|].
    { rewrite Hpi, V2 in Hb. injection Hb as <-. by apply (Hsk i a p Hi Hpi). }
    destruct (decide (parent i = parent pos)) as [Hpi|].
    { rewrite Hpi, V1 in Hb. injection Hb as <-. apply (le_trans _ p); [by apply lt_le|].
      apply (Ho i); [done..|]. by rewrite Hpi. }
    rewrite V3 in Hb by done. by apply (Ho i).
  - intros i a b Hi Hpi Hp0 Hsp Ha Hb. pose proof (parent_lt _ Hp0).
    rewrite V3 in Hb by lia. assert (le b p) as Hbp by (apply (Ho (parent pos)); [done|lia|done..]).
    destruct (decide (i = pos)) as [->|]; [rewrite V2 in Ha; by injection Ha as <-|].
    pose proof (parent_lt i Hi).
    rewrite V3 in Ha by lia. apply (le_trans _ p); [done|]. apply (Ho i); [done..|lia|done|]. by rewrite Hpi.
Qed.

Lemma insert_same (l : list A) i x y : <[i := x]> (<[i := y]> l) = <[i := x]> l.
Proof. apply list_insert_insert_eq. Qed.

Lemma siftdown_loop_spec fuel heap s pos x :
  (pos < fuel)%nat → (pos < length heap)%nat → desc s pos →
  rising s (<[pos := x]> heap) pos →
  ∃ heap', siftdown_loop fuel heap s pos x = Ok heap' ∧ heap' ≡ₚ <[pos := x]> heap ∧ heap_from s heap'.
Proof using All.
  revert heap pos. induction fuel as [|fuel IH]; intros heap pos Hf Hl Hd Hr; [lia|].
  cbn [siftdown_loop]. pose proof (desc_le _ _ Hd).
  assert ((<[pos := x]> heap) !! pos = Some x) as Hx by (by apply list_lookup_insert_eq).
  destruct (s <? pos)%nat eqn:E.
  - apply Nat.ltb_lt in E. destruct (desc_parent s pos Hd E) as (Hd' & Hsp & Hp0).
    pose proof (parent_lt pos Hp0). destruct (lookup_lt_is_Some_2 heap (parent pos)) as [p Hp]; [lia|].
    unfold at_. rewrite Hp. cbn [mbind res_bind].
    assert ((<[pos := x]> heap) !! parent pos = Some p) as Hp' by (by rewrite list_lookup_insert_ne by lia).
    destruct (lt x p) eqn:Elt.
    + pose proof (rising_step s _ pos x p Hr Hp0 Hsp Hx Hp' Elt) as Hr'. rewrite insert_same in Hr'.
      destruct (IH (<[pos := p]> heap) (parent pos)) as (h' & -> & Hperm & Hh);
        [lia|rewrite length_insert; lia|done|done|].
      exists h'. split; [done|]. split; [|done]. rewrite Hperm.
      rewrite <- (insert_same heap pos p x). by apply Permutation_insert_swap.
    + eexists. split; [done|]. split; [done|]. apply (rising_done s _ pos Hr).
      intros _ _ a b Ha Hb. by simplify_eq.
  - apply Nat.ltb_ge in E. assert (pos = s) as -> by lia. eexists. split; [done|]. split; [done|].
    apply (rising_done s _ s Hr). intros Hp0 Hs. pose proof (parent_lt s Hp0). lia.
Qed.

Lemma siftdown_spec heap s pos :
  (pos < length heap)%nat → desc s pos → rising s heap pos →
  ∃ heap', siftdown heap s pos = Ok heap' ∧ heap' ≡ₚ heap ∧ heap_from s heap'.
Proof using All.
  intros Hl Hd Hr. unfold siftdown. destruct (lookup_lt_is_Some_2 heap pos Hl) as [x Hx].
  unfold at_. rewrite Hx. cbn [mbind res_bind].
  destruct (siftdown_loop_spec (S pos) heap s pos x) as (h & -> & Hp & Hh);
    [lia|done|done|by rewrite list_insert_id|]. rewrite list_insert_id in Hp by done. by exists h.
Qed.

(** ** Moving a hole down *)

(** [heap] is ordered from [s], whatever item the hole at [pos] gets. *)
Record sinking (s : nat) (heap : list A) (pos : nat) : Prop := {
  sk_order : ∀ i, (0 < i)%nat → i ≠ pos → parent i ≠ pos → (s ≤ parent i)%nat → ordered_at heap i;
  sk_skip : ∀ i x y, (0 < i)%nat → parent i = pos → (0 < pos)%nat → (s ≤ parent pos)%nat →
    heap !! i = Some x → heap !! parent pos = Some y → le y x;
}.

Lemma sinking_start s heap : heap_from (S s) heap → sinking s heap s.
Proof.
  intros Hh. split.
  - intros i Hi Hne Hp Hs. apply Hh; [done|lia].
  - intros i x y Hi Hp Hs0 Hs. pose proof (parent_lt s Hs0). lia.
Qed.

(** The smaller child [c] of the hole moves up. *)
Lemma sinking_step s heap pos c x :
  sinking s heap pos → (s ≤ pos)%nat → (0 < c)%nat → parent c = pos → heap !! c = Some x →
  (∀ i y, (0 < i)%nat → parent i = pos → heap !! i = Some y → le x y) →
  sinking s (<[pos := x]> heap) c.
Proof using All.
  intros [Ho Hsk] Hs Hc Hpc Hx Hmin. pose proof (parent_lt c Hc) as Hlt.
  assert (c < length heap)%nat by (by eapply lookup_lt_Some).
  set (h' := <[pos := x]> heap).
  assert (h' !! pos = Some x) as V1 by (apply list_lookup_insert_eq; lia).
  assert (∀ i, i ≠ pos → h' !! i = heap !! i) as V2 by (intros; by apply list_lookup_insert_ne).
  split.
  - intros i Hi Hne Hp Hsi a b Ha Hb. destruct (decide (i = pos)) as [->|].
    { rewrite V1 in Ha. injection Ha as <-. pose proof (parent_lt pos Hi).
      rewrite V2 in Hb by lia. by apply (Hsk c x b). }
    rewrite V2 in Ha by done. destruct (decide (parent i = pos)) as [Hpi|].
    { rewrite Hpi, V1 in Hb. injection Hb as <-. by apply (Hmin i). }
    rewrite V2 in Hb by done. by apply (Ho i).
  - intros i a b Hi Hpi _ Hsp Ha Hb. rewrite Hpc, V1 in Hb. injection Hb as <-.
    pose proof (parent_lt i Hi). rewrite V2 in Ha by lia.
    apply (Ho i); [done|lia|lia|lia|done|]. by rewrite Hpi.
Qed.

(** A hole at a leaf can take any item. *)
Lemma sinking_leaf s heap pos x :
  sinking s heap pos → (length heap ≤ 2 * pos + 1)%nat → rising s (<[pos := x]> heap) pos.
Proof.
  intros [Ho _] Hleaf.
  assert (∀ i a, (0 < i)%nat → parent i = pos → (<[pos := x]> heap) !! i = Some a → False) as Hno.
  { intros i a Hi Hp Ha. apply lookup_lt_Some in Ha. rewrite length_insert in Ha.
    destruct (child_of pos i Hi Hp); lia. }
  split.
  - intros i Hi Hne Hs a b Ha Hb. destruct (decide (parent i = pos)) as [Hp|Hp]; [by destruct (Hno i a)|].
    rewrite list_lookup_insert_ne in Ha, Hb by done. by apply (Ho i).
  - intros i a b Hi Hp _ _ Ha. by destruct (Hno i a).
Qed.

(** The choice of the smaller child. *)
Lemma smaller_child heap pos c0 :
  heap !! (2 * pos + 1)%nat = Some c0 →
  ∃ x c, (if (S (2 * pos + 1) <? length heap)%nat then
            r ← at_ heap (S (2 * pos + 1));
            Ok (if negb (lt c0 r) then (r, S (2 * pos + 1)) else (c0, (2 * pos + 1)%nat))
          else Ok (c0, (2 * pos + 1)%nat)) = Ok (x, c)
    ∧ heap !! c = Some x ∧ (0 < c)%nat ∧ parent c = pos ∧ (pos < c)%nat
    ∧ ∀ i y, (0 < i)%nat → parent i = pos → heap !! i = Some y → le x y.
Proof using All.
  intros Hc. destruct (_ <? _)%nat eqn:E.
  - apply Nat.ltb_lt in E. destruct (lookup_lt_is_Some_2 heap _ E) as [r Hr].
    unfold at_. rewrite Hr. cbn [mbind res_bind]. destruct (lt c0 r) eqn:Elt; cbn [negb].
    + eexists _, _. split; [done|]. split; [done|]. split; [lia|].
      split; [apply parent_child; lia|]. split; [lia|]. intros i y Hi Hp Hy.
      destruct (child_of pos i Hi Hp) as [->| ->].
      * rewrite Hc in Hy. injection Hy as <-. apply le_refl.
      * replace (2 * pos + 2)%nat with (S (2 * pos + 1)) in Hy by lia.
        rewrite Hr in Hy. injection Hy as <-. by apply lt_le.
    + eexists _, _. split; [done|]. split; [done|]. split; [lia|].
      split; [apply parent_child; lia|]. split; [lia|]. intros i y Hi Hp Hy.
      destruct (child_of pos i Hi Hp) as [->| ->].
      * rewrite Hc in Hy. by injection Hy as <-.
      * replace (2 * pos + 2)%nat with (S (2 * pos + 1)) in Hy by lia.
        rewrite Hr in Hy. injection Hy as <-. apply le_refl.
  - apply Nat.ltb_ge in E. eexists _, _. split; [done|]. split; [done|]. split; [lia|].
    split; [apply parent_child; lia|]. split; [lia|]. intros i y Hi Hp Hy.
    destruct (child_of pos i Hi Hp) as [->| ->].
    * rewrite Hc in Hy. injection Hy as <-. apply le_refl.
    * apply lookup_lt_Some in Hy. lia.
Qed.

Lemma siftup_loop_spec fuel heap s pos x :
  (length heap < fuel + pos)%nat → (pos < length heap)%nat → desc s pos → sinking s heap pos →
  ∃ heap' leaf, siftup_loop fuel heap pos = Ok (heap', leaf)
    ∧ (leaf < length heap')%nat ∧ desc s leaf ∧ sinking s heap' leaf
    ∧ (length heap' ≤ 2 * leaf + 1)%nat ∧ <[leaf := x]> heap' ≡ₚ <[pos := x]> heap.
Proof using All.
  revert heap pos. induction fuel as [|fuel IH]; intros heap pos Hf Hl Hd Hs; [lia|].
  cbn [siftup_loop]. destruct (_ <? _)%nat eqn:E.
  2: { apply Nat.ltb_ge in E. exists heap, pos. by split_and!. }
  apply Nat.ltb_lt in E. destruct (lookup_lt_is_Some_2 heap _ E) as [c0 Hc0].
  assert (at_ heap (2 * pos + 1) = Ok c0) as -> by (unfold at_; by rewrite Hc0). cbn [mbind res_bind].
  destruct (smaller_child heap pos c0 Hc0) as (y & c & -> & Hy & Hc & Hp & Hlt & Hmin).
  cbn [mbind res_bind]. pose proof (desc_le _ _ Hd).
  assert (c < length heap)%nat by (by eapply lookup_lt_Some).
  destruct (IH (<[pos := y]> heap) c) as (h' & leaf & E' & L1 & L2 & L3 & L4 & L5).
  - rewrite length_insert. lia.
  - by rewrite length_insert.
  - apply desc_child; [done|]. by rewrite Hp.
  - by apply (sinking_step s heap pos c y).
  - exists h', leaf. split_and!; try done. rewrite L5.
    rewrite <- (insert_same heap pos y x). apply Permutation_insert_swap.
    + by apply list_lookup_insert_eq.
    + by rewrite list_lookup_insert_ne by lia.
Qed.

Lemma siftup_spec heap pos :
  (pos < length heap)%nat → heap_from (S pos) heap →
  ∃ heap', siftup heap pos = Ok heap' ∧ heap' ≡ₚ heap ∧ heap_from pos heap'.
Proof using All.
  intros Hl Hh. unfold siftup. destruct (lookup_lt_is_Some_2 heap pos Hl) as [x Hx].
  assert (at_ heap pos = Ok x) as -> by (unfold at_; by rewrite Hx). cbn [mbind res_bind].
  destruct (siftup_loop_spec (S (length heap)) heap pos pos x) as (h & leaf & -> & H1 & H2 & H3 & H4 & H5);
    [lia|done|constructor|by apply sinking_start|]. cbn [mbind res_bind].
  destruct (siftdown_spec (<[leaf := x]> h) pos leaf) as (h' & -> & Hp & Hh');
    [by rewrite length_insert|done|by apply sinking_leaf|].
  exists h'. split; [done|]. split; [|done]. rewrite Hp, H5. by rewrite list_insert_id.
Qed.

(** ** The interface *)

Lemma heappush_spec heap x :
  is_heap heap → ∃ heap', heappush heap x = Ok heap' ∧ heap' ≡ₚ x :: heap ∧ is_heap heap'.
Proof using All.
  intros Hh. unfold heappush.
  destruct (siftdown_spec (heap ++ [x]) 0 (length heap)) as (h' & -> & Hp & Hh').
  - rewrite length_app. cbn. lia.
  - apply desc_0.
  - assert (∀ i a, (0 < i)%nat → (heap ++ [x]) !! i = Some a → i ≠ length heap → heap !! i = Some a) as Hl.
    { intros i a Hi Ha Hne. apply lookup_lt_Some in Ha as Hlt. rewrite length_app in Hlt. cbn in Hlt.
      by rewrite lookup_app_l in Ha by lia. }
    split.
    + intros i Hi Hne _ a b Ha Hb. apply (Hl i a Hi) in Ha; [|done].
      apply lookup_lt_Some in Ha as Hlt. pose proof (parent_lt i Hi).
      rewrite lookup_app_l in Hb by lia. apply (Hh i); [done|lia|done|done].
    + intros i a b Hi Hp _ _ Ha. apply lookup_lt_Some in Ha. rewrite length_app in Ha. cbn in Ha.
      pose proof (parent_lt i Hi). lia.
  - exists h'. split; [done|]. split; [|done]. by rewrite Hp, Permutation_app_comm.
Qed.

(** The first element of a heap is a least one. *)
Lemma heap_head_least heap x : is_heap heap → head heap = Some x → ∀ y, y ∈ heap → le x y.
Proof using All.
  intros Hh Hx y (i & Hy)%list_elem_of_lookup. revert y Hy. induction (lt_wf i) as [i _ IH]. intros y Hy.
  destruct i as [|i].
  - destruct heap; [done|]. cbn in *. simplify_eq. apply le_refl.
  - pose proof (parent_lt (S i) ltac:(lia)). apply lookup_lt_Some in Hy as Hlt.
    destruct (lookup_lt_is_Some_2 heap (parent (S i))) as [z Hz]; [lia|].
    apply (le_trans _ z); [by eapply IH|]. by apply (Hh (S i)); [lia|lia|..].
Qed.

Lemma heappop_spec heap x rest :
  is_heap heap → heap = x :: rest →
  ∃ heap', heappop heap = Ok (x, heap') ∧ heap ≡ₚ x :: heap' ∧ is_heap heap'.
Proof using All.
  intros Hh ->. unfold heappop. destruct (@exists_last _ (x :: rest)) as (l & z & E); [done|].
  rewrite E, last_snoc, removelast_last. destruct l as [|x' l].
  { injection E as -> ->. exists []. split; [done|]. split; [done|]. by intros [|i] _ _ ? ? ?. }
  injection E as <- ->. cbn [insert list_insert].
  destruct (siftup_spec (z :: l) 0) as (h & -> & Hp & Hh').
  - cbn. lia.
  - intros i Hi Hs a b Ha Hb. apply (Hh i); [done|lia| |].
    + destruct i as [|i]; [lia|]. change (l !! i = Some a) in Ha.
      change ((l ++ [z]) !! i = Some a). by apply lookup_app_l_Some.
    + destruct (parent i) as [|j]; [lia|]. change (l !! j = Some b) in Hb.
      change ((l ++ [z]) !! j = Some b). by apply lookup_app_l_Some.
  - cbn [mbind res_bind]. exists h. split; [done|]. split; [|done]. rewrite Hp.
    cbn [app]. apply Permutation_skip. by rewrite Permutation_app_comm.
Qed.

Lemma heappop_nil : heappop [] = Err IndexError.
Proof. done. Qed.

Lemma heapify_loop_spec k heap :
  (k ≤ length heap)%nat → heap_from k heap →
  ∃ heap', heapify_loop k heap = Ok heap' ∧ heap' ≡ₚ heap ∧ is_heap heap'.
Proof using All.
  revert heap. induction k as [|k IH]; intros heap Hk Hh; cbn [heapify_loop]; [by exists heap|].
  destruct (siftup_spec heap k) as (h & -> & Hp & Hh'); [lia|done|]. cbn [mbind res_bind].
  destruct (IH h) as (h' & -> & Hp' & ?); [rewrite Hp; lia|done|].
  exists h'. split; [done|]. split; [by rewrite Hp'|done].
Qed.

Lemma heapify_spec l : ∃ heap, heapify l = Ok heap ∧ heap ≡ₚ l ∧ is_heap heap.
Proof using All.
  unfold heapify. apply heapify_loop_spec.
  - apply Nat.Div0.div_le_upper_bound. lia.
  - intros i Hi Hp a b Ha _. apply lookup_lt_Some in Ha. exfalso.
    pose proof (Nat.div_mod_eq (length l) 2). pose proof (Nat.mod_upper_bound (length l) 2).
    unfold parent in Hp. pose proof (Nat.div_mod_eq (i - 1) 2). lia.
Qed.
End heap.
