(* ===== verification/RequestQueue.v ===== *)
(** * Request queues

    vllm/v1/core/sched/request_queue.py: the first-come-first-served queue and the
    priority queue of waiting requests, behind one interface.  Two requests are
    the same object when their [object_id]s agree. *)

From Stdlib Require Import String Ascii Sorted.
From stdpp Require Import sorting.
From S2P Require Import Prelude Request BlockHash HeapQueue.

Inductive SchedulingPolicy := FCFS | PRIORITY.

(** ** The interface *)

(** The methods of the abstract class; [q_iter] lists the requests the iterator
    yields. *)
Class RequestQueue (Q : Type) := {
  add_request : Q → Request → res Q;
  pop_request : Q → res (Request * Q);
  peek_request : Q → res Request;
  prepend_request : Q → Request → res Q;
  prepend_requests : Q → list Request → res Q;
  remove_request : Q → Request → res Q;
  remove_requests : Q → list Request → res Q;
  queue_len : Q → Z;
  queue_iter : Q → res (list Request);
}.

(** [x in requests] for a list or set of objects. *)
Definition in_requests (x : Request) (l : list Request) : Prop := object_id x ∈ object_id <$> l.
#[export] Instance in_requests_dec x l : Decision (in_requests x l).
Proof. unfold in_requests. apply _. Defined.

(** [l.remove(x)] *)
Fixpoint list_remove (l : list Request) (x : Request) : res (list Request) :=
  match l with
  | [] => Err ValueError
  | y :: l => if object_id y =? object_id x then Ok l else l' ← list_remove l x; Ok (y :: l')
  end.

(** ** First come, first served *)

Record FCFSRequestQueue := mkFCFS { fcfs_items : list Request }.

Definition fcfs_pop (q : FCFSRequestQueue) : res (Request * FCFSRequestQueue) :=
  match fcfs_items q with [] => Err IndexError | x :: l => Ok (x, mkFCFS l) end.

Definition fcfs_peek (q : FCFSRequestQueue) : res Request :=
  match fcfs_items q with [] => Err IndexError | x :: _ => Ok x end.

#[export] Instance FCFSRequestQueue_queue : RequestQueue FCFSRequestQueue := {
  add_request q r := Ok (mkFCFS (fcfs_items q ++ [r]));
  pop_request := fcfs_pop;
  peek_request := fcfs_peek;
  prepend_request q r := Ok (mkFCFS (r :: fcfs_items q));
  prepend_requests q l := Ok (mkFCFS (fold_left (λ acc r, r :: acc) l (fcfs_items q)));
  remove_request q r := mkFCFS <$> list_remove (fcfs_items q) r;
  remove_requests q l := Ok (mkFCFS (filter (λ r, ¬ in_requests r l) (fcfs_items q)));
  queue_len q := zlen (fcfs_items q);
  queue_iter q := Ok (fcfs_items q);
}.

(** ** Priority *)

Record PriorityRequestQueue := mkPriority { pq_heap : list Request }.

Definition priority_add (q : PriorityRequestQueue) (r : Request) : res PriorityRequestQueue :=
  mkPriority <$> heappush request_lt (pq_heap q) r.

Definition priority_pop (q : PriorityRequestQueue) : res (Request * PriorityRequestQueue) :=
  match pq_heap q with
  | [] => Err IndexError
  | _ => '(x, h) ← heappop request_lt (pq_heap q); Ok (x, mkPriority h)
  end.

Definition priority_peek (q : PriorityRequestQueue) : res Request :=
  match pq_heap q with [] => Err IndexError | x :: _ => Ok x end.

Definition priority_remove (q : PriorityRequestQueue) (r : Request) : res PriorityRequestQueue :=
  h ← list_remove (pq_heap q) r;
  mkPriority <$> heapify request_lt h.

Definition priority_remove_all (q : PriorityRequestQueue) (l : list Request)
    : res PriorityRequestQueue :=
  mkPriority <$> heapify request_lt (filter (λ r, ¬ in_requests r l) (pq_heap q)).

(** [while heap_copy: yield heapq.heappop(heap_copy)] *)
Fixpoint drain_heap (fuel : nat) (heap : list Request) : res (list Request) :=
  match heap, fuel with
  | [], _ => Ok []
  | _, O => Err OutOfFuel
  | _, S fuel => '(x, h) ← heappop request_lt heap; l ← drain_heap fuel h; Ok (x :: l)
  end.

#[export] Instance PriorityRequestQueue_queue : RequestQueue PriorityRequestQueue := {
  add_request := priority_add;
  pop_request := priority_pop;
  peek_request := priority_peek;
  prepend_request := priority_add;
  prepend_requests q l := rfold priority_add q l;
  remove_request := priority_remove;
  remove_requests := priority_remove_all;
  queue_len q := zlen (pq_heap q);
  queue_iter q := drain_heap (List.length (pq_heap q)) (pq_heap q);
}.

Definition create_request_queue (policy : SchedulingPolicy)
    : PriorityRequestQueue + FCFSRequestQueue :=
  match policy with PRIORITY => inl (mkPriority []) | FCFS => inr (mkFCFS []) end.

(** ** [Request.__lt__] is a total order *)

Lemma ascii_lt_trans a b c :
  Ascii.compare a b = Lt → Ascii.compare b c = Lt → Ascii.compare a c = Lt.
Proof. unfold Ascii.compare. rewrite !N.compare_lt_iff. lia. Qed.

Lemma string_lt_trans s1 s2 s3 :
  String.compare s1 s2 = Lt → String.compare s2 s3 = Lt → String.compare s1 s3 = Lt.
Proof.
  revert s2 s3. induction s1 as [|a s1 IH]; intros [|b s2] [|c s3]; cbn; try done.
  destruct (Ascii.compare a b) eqn:E1; [|intros _|done].
  - apply Ascii.compare_eq_iff in E1 as ->. destruct (Ascii.compare b c); [apply IH|done|done].
  - destruct (Ascii.compare b c) eqn:E2; [|by rewrite (ascii_lt_trans a b c)|done].
    apply Ascii.compare_eq_iff in E2 as ->. by rewrite E1.
Qed.

Lemma string_compare_refl s : String.compare s s = Eq.
Proof.
  pose proof (String.compare_antisym s s) as H. by destruct (String.compare s s).
Qed.

(** The keys [__lt__] looks at. *)
Definition request_key (r : Request) : Z * Z * string * Z :=
  (priority r, arrival_time r, request_id r, object_id r).

Definition key_lt (a b : Z * Z * string * Z) : Prop :=
  let '(p, t, s, o) := a in
  let '(p', t', s', o') := b in
  p < p' ∨ p = p' ∧ (t < t' ∨ t = t' ∧ (String.compare s s' = Lt ∨ s = s' ∧ o < o')).

Lemma request_lt_iff a b : request_lt a b = true ↔ key_lt (request_key a) (request_key b).
Proof.
  unfold request_lt, key_lt, request_key. destruct (priority a =? priority b) eqn:E1; to_prop; cbn [negb].
  2: { rewrite Z.ltb_lt. naive_solver. }
  destruct (arrival_time a =? arrival_time b) eqn:E2; to_prop; cbn [negb].
  2: { rewrite Z.ltb_lt. split; [tauto|]. intros [?|[_ [?|[? _]]]]; lia. }
  destruct (String.eqb_spec (request_id a) (request_id b)) as [E3|E3]; cbn [negb].
  - rewrite Z.ltb_lt, E3, string_compare_refl. split; [tauto|].
    intros [?|[_ [?|[_ [?|[_ ?]]]]]]; (lia || done).
  - unfold String.ltb. split.
    + destruct (String.compare _ _); [done|tauto|done].
    + intros [?|[_ [?|[_ [->|[? _]]]]]]; (lia || done).
Qed.

Lemma key_lt_trans a b c : key_lt a b → key_lt b c → key_lt a c.
Proof.
  destruct a as [[[p1 t1] s1] o1], b as [[[p2 t2] s2] o2], c as [[[p3 t3] s3] o3]. unfold key_lt.
  intros [?|[-> [?|[-> [H1|[-> ?]]]]]] [?|[-> [?|[-> [H2|[-> ?]]]]]];
    try (left; lia); right; (split; [lia|]); try (left; lia); right; (split; [lia|]); try (by left).
  - left. by eapply string_lt_trans.
  - right. split; [done|lia].
Qed.

Lemma key_lt_total a b : key_lt a b ∨ a = b ∨ key_lt b a.
Proof.
  destruct a as [[[p1 t1] s1] o1], b as [[[p2 t2] s2] o2]. unfold key_lt.
  destruct (Z.lt_trichotomy p1 p2) as [?|[->|?]]; [tauto| |tauto].
  destruct (Z.lt_trichotomy t1 t2) as [?|[->|?]]; [tauto| |tauto].
  pose proof (String.compare_antisym s2 s1) as Ha.
  destruct (String.compare s1 s2) eqn:E; cbn in Ha; [|tauto|tauto].
  apply String.compare_eq_iff in E as ->.
  destruct (Z.lt_trichotomy o1 o2) as [?|[->|?]]; tauto.
Qed.

Lemma key_lt_irrefl a : ¬ key_lt a a.
Proof.
  destruct a as [[[p t] s] o]. unfold key_lt. rewrite string_compare_refl.
  intros [?|[_ [?|[_ [?|[_ ?]]]]]]; (lia || done).
Qed.

#[export] Instance request_order : HeapOrder request_lt.
Proof.
  split.
  - intros x y Hxy. destruct (request_lt y x) eqn:E; [|done]. apply request_lt_iff in Hxy, E.
    by destruct (key_lt_irrefl (request_key x)); eapply key_lt_trans.
  - unfold le. intros x y z Hyx Hzy. destruct (request_lt z x) eqn:E; [|done]. exfalso.
    apply request_lt_iff in E.
    assert (¬ key_lt (request_key y) (request_key x)) by (rewrite <- request_lt_iff; congruence).
    assert (¬ key_lt (request_key z) (request_key y)) by (rewrite <- request_lt_iff; congruence).
    destruct (key_lt_total (request_key y) (request_key z)) as [Hyz|[Heq|?]]; [|by rewrite Heq in *|done].
    by apply H, (key_lt_trans _ (request_key z)).
Qed.

(** ** The laws of a queue *)

(** What the scheduler may rely on, whichever policy is configured: the
    iterator shows the order of service, the other methods change the multiset
    of waiting requests as their names say, and the errors are those of an empty
    queue or an absent request. *)
Class RequestQueueLaws (Q : Type) `{RequestQueue Q} := {
  queue_ok : Q → Prop;
  law_iter : ∀ q, queue_ok q → ∃ l, queue_iter q = Ok l ∧ zlen l = queue_len q;
  law_pop : ∀ q x l, queue_ok q → queue_iter q = Ok (x :: l) →
    peek_request q = Ok x ∧ ∃ q', pop_request q = Ok (x, q') ∧ queue_ok q' ∧ queue_iter q' = Ok l;
  law_empty : ∀ q, queue_ok q → queue_iter q = Ok [] →
    pop_request q = Err IndexError ∧ peek_request q = Err IndexError;
  law_add : ∀ q r l, queue_ok q → queue_iter q = Ok l →
    ∃ q' l', add_request q r = Ok q' ∧ queue_ok q' ∧ queue_iter q' = Ok l' ∧ l' ≡ₚ r :: l;
  law_prepend : ∀ q r l, queue_ok q → queue_iter q = Ok l →
    ∃ q' l', prepend_request q r = Ok q' ∧ queue_ok q' ∧ queue_iter q' = Ok l' ∧ l' ≡ₚ r :: l;
  law_prepend_all : ∀ q rs l, queue_ok q → queue_iter q = Ok l →
    ∃ q' l', prepend_requests q rs = Ok q' ∧ queue_ok q' ∧ queue_iter q' = Ok l' ∧ l' ≡ₚ rs ++ l;
  law_remove : ∀ q r l, queue_ok q → queue_iter q = Ok l →
    match remove_request q r with
    | Ok q' => queue_ok q' ∧ ∃ l' y, queue_iter q' = Ok l' ∧ l ≡ₚ y :: l' ∧ object_id y = object_id r
    | Err e => e = ValueError ∧ ¬ in_requests r l
    end;
  law_remove_all : ∀ q rs l, queue_ok q → queue_iter q = Ok l →
    ∃ q' l', remove_requests q rs = Ok q' ∧ queue_ok q' ∧ queue_iter q' = Ok l'
      ∧ l' ≡ₚ filter (λ r, ¬ in_requests r rs) l;
}.

Lemma list_remove_spec l r :
  match list_remove l r with
  | Ok l' => ∃ y, l ≡ₚ y :: l' ∧ object_id y = object_id r
  | Err e => e = ValueError ∧ ¬ in_requests r l
  end.
Proof.
  induction l as [|x l IH]; cbn [list_remove].
  { split; [done|]. unfold in_requests. cbn. apply not_elem_of_nil. }
  destruct (_ =? _) eqn:E; to_prop; [by exists x|].
  destruct (list_remove l r) as [l'|e]; cbn [mbind res_bind].
  - destruct IH as (y & Hp & Hy). exists y. split; [|done]. rewrite Hp. apply Permutation_swap.
  - destruct IH as [-> Hn]. split; [done|]. unfold in_requests in *. cbn.
    rewrite not_elem_of_cons. split; [congruence|done].
Qed.

Lemma in_requests_perm r l l' : l ≡ₚ l' → in_requests r l ↔ in_requests r l'.
Proof. intros Hp. unfold in_requests. by rewrite Hp. Qed.

Lemma extendleft_perm (rs l : list Request) : fold_left (λ acc r, r :: acc) rs l ≡ₚ rs ++ l.
Proof.
  revert l. induction rs as [|r rs IH]; intros l; cbn; [done|]. rewrite IH.
  by rewrite <- Permutation_middle.
Qed.

#[export] Instance FCFSRequestQueue_laws : RequestQueueLaws FCFSRequestQueue.
Proof.
  refine {| queue_ok _ := True |}; cbn.
  - intros q _. by eexists.
  - intros [l0] x l _ [= ->]. split; [done|]. eexists. by split_and!.
  - intros [l0] _ [= ->]. done.
  - intros q r l _ [= <-]. eexists _, _. split_and!; try done. cbn. by rewrite Permutation_app_comm.
  - intros q r l _ [= <-]. eexists _, _. by split_and!.
  - intros q rs l _ [= <-]. eexists _, _. split_and!; try done. apply extendleft_perm.
  - intros q r l _ [= <-]. pose proof (list_remove_spec (fcfs_items q) r) as H.
    destruct (list_remove _ r) as [l'|e]; cbn; [|done]. split; [done|].
    destruct H as (y & Hp & Hy). by exists l', y.
  - intros q rs l _ [= <-]. eexists _, _. by split_and!.
Defined.

(** ** The priority queue *)

Abbreviation not_after := (λ a b, request_lt b a = false).

Lemma drain_heap_spec n heap :
  is_heap request_lt heap → List.length heap = n →
  ∃ l, drain_heap n heap = Ok l ∧ l ≡ₚ heap ∧ StronglySorted not_after l.
Proof.
  revert heap. induction n as [|n IH]; intros heap Hh Hl.
  { destruct heap; [|done]. exists []. split_and!; [done|done|constructor]. }
  destruct heap as [|x rest] eqn:E; [done|]. rewrite <- E in *.
  destruct (heappop_spec request_lt heap x rest Hh E) as (h & Ep & Hp & Hh').
  assert (List.length h = n) as Hn.
  { apply Permutation_length in Hp. cbn in Hp. lia. }
  destruct (IH h Hh' Hn) as (l & Ed & Hpl & Hs). exists (x :: l). split_and!.
  - cbn [drain_heap]. rewrite E in Ep |- *. rewrite Ep. cbn [mbind res_bind]. by rewrite Ed.
  - by rewrite Hpl, Hp.
  - constructor; [done|]. apply Forall_forall. intros y Hy.
    apply (heap_head_least request_lt heap x Hh); [by rewrite E|]. rewrite Hp. right. by rewrite <- Hpl.
Qed.

Definition priority_ok (q : PriorityRequestQueue) : Prop := is_heap request_lt (pq_heap q).

Lemma priority_iter_spec q :
  priority_ok q → ∃ l, queue_iter q = Ok l ∧ l ≡ₚ pq_heap q ∧ StronglySorted not_after l.
Proof. intros Hq. by apply drain_heap_spec. Qed.

Lemma priority_pop_spec q x l :
  priority_ok q → queue_iter q = Ok (x :: l) →
  priority_peek q = Ok x ∧ ∃ q', priority_pop q = Ok (x, q') ∧ priority_ok q' ∧ queue_iter q' = Ok l.
Proof.
  intros Hq. destruct q as [heap]. unfold priority_ok, queue_iter, priority_peek, priority_pop in *.
  cbn [PriorityRequestQueue_queue pq_heap] in *.
  destruct heap as [|y rest] eqn:E; [done|]. rewrite <- E in *.
  destruct (heappop_spec request_lt heap y rest Hq E) as (h & Ep & Hp & Hh').
  assert (List.length heap = S (List.length h)) as Hn by (by apply Permutation_length in Hp).
  rewrite Hn. cbn [drain_heap]. rewrite E in Ep |- *. rewrite Ep. cbn [mbind res_bind]. intros Hd. inv_ok.
  split; [done|]. exists (mkPriority h). by split_and!.
Qed.

Lemma priority_add_spec q r :
  priority_ok q → ∃ q', priority_add q r = Ok q' ∧ priority_ok q' ∧ pq_heap q' ≡ₚ r :: pq_heap q.
Proof.
  intros Hq. unfold priority_add.
  destruct (heappush_spec request_lt (pq_heap q) r Hq) as (h & -> & Hp & Hh). by exists (mkPriority h).
Qed.

Lemma priority_add_all q rs :
  priority_ok q → ∃ q', rfold priority_add q rs = Ok q' ∧ priority_ok q' ∧ pq_heap q' ≡ₚ rs ++ pq_heap q.
Proof.
  revert q. induction rs as [|r rs IH]; intros q Hq; cbn [rfold]; [by exists q|].
  destruct (priority_add_spec q r Hq) as (q1 & -> & Hq1 & Hp1). cbn [mbind res_bind].
  destruct (IH q1 Hq1) as (q2 & -> & Hq2 & Hp2). exists q2. split_and!; try done.
  rewrite Hp2, Hp1. by rewrite <- Permutation_middle.
Qed.

(** A queue with the given items has an iteration over them. *)
Lemma priority_view q l' : priority_ok q → pq_heap q ≡ₚ l' → ∃ l, queue_iter q = Ok l ∧ l ≡ₚ l'.
Proof.
  intros Hq Hp. destruct (priority_iter_spec q Hq) as (l & ? & ? & _). exists l. split; [done|].
  by rewrite <- Hp.
Qed.

Lemma priority_iter_perm q l : priority_ok q → queue_iter q = Ok l → l ≡ₚ pq_heap q.
Proof. intros Hq E. destruct (priority_iter_spec q Hq) as (l' & E' & ? & _). congruence. Qed.

#[export] Instance PriorityRequestQueue_laws : RequestQueueLaws PriorityRequestQueue.
Proof.
  refine {| queue_ok := priority_ok |}.
  - intros q Hq. destruct (priority_iter_spec q Hq) as (l & E & Hp & _). exists l. split; [done|].
    cbn. unfold zlen. by rewrite Hp.
  - intros q x l. apply priority_pop_spec.
  - intros q Hq E. apply priority_iter_perm in E; [|done]. symmetry in E. apply Permutation_nil_r in E.
    cbn. unfold priority_pop, priority_peek. by rewrite E.
  - intros q r l Hq E. apply priority_iter_perm in E; [|done].
    destruct (priority_add_spec q r Hq) as (q' & ? & Hq' & Hp).
    destruct (priority_view q' (r :: l) Hq') as (l' & ? & ?); [by rewrite Hp, E|]. by exists q', l'.
  - intros q r l Hq E. apply priority_iter_perm in E; [|done].
    destruct (priority_add_spec q r Hq) as (q' & ? & Hq' & Hp).
    destruct (priority_view q' (r :: l) Hq') as (l' & ? & ?); [by rewrite Hp, E|]. by exists q', l'.
  - intros q rs l Hq E. apply priority_iter_perm in E; [|done].
    destruct (priority_add_all q rs Hq) as (q' & ? & Hq' & Hp).
    destruct (priority_view q' (rs ++ l) Hq') as (l' & ? & ?); [by rewrite Hp, E|]. by exists q', l'.
  - intros q r l Hq E. apply priority_iter_perm in E; [|done]. cbn. unfold priority_remove.
    pose proof (list_remove_spec (pq_heap q) r) as Hr. destruct (list_remove _ r) as [h|e]; cbn [mbind res_bind].
    + destruct (heapify_spec request_lt h) as (h' & -> & Hp & Hh). cbn. split; [done|].
      destruct Hr as (y & Hy & Hid). destruct (priority_view (mkPriority h') h Hh Hp) as (l' & ? & Hl').
      exists l', y. split_and!; try done. by rewrite E, Hy, Hl'.
    + destruct Hr as [-> Hn]. split; [done|]. by rewrite (in_requests_perm r l (pq_heap q)).
  - intros q rs l Hq E. apply priority_iter_perm in E; [|done].
    change (remove_requests q rs) with (priority_remove_all q rs). unfold priority_remove_all.
    destruct (heapify_spec request_lt (filter (λ r, ¬ in_requests r rs) (pq_heap q))) as (h & -> & Hp & Hh).
    destruct (priority_view (mkPriority h) (filter (λ r, ¬ in_requests r rs) l) Hh) as (l' & ? & ?);
      [cbn; by rewrite Hp, E|]. by exists (mkPriority h), l'.
Defined.

(** ** The order of service *)

(** The calls of a client. *)
Inductive queue_op :=
  | QAdd (r : Request)
  | QPrepend (r : Request)
  | QPrependAll (rs : list Request)
  | QPop
  | QPeek
  | QRemove (r : Request)
  | QRemoveAll (rs : list Request).

(** A call that raises leaves the queue as it is; the request or exception it ends
    with. *)
Definition after {Q A} (q : Q) (f : A → option Request * Q) (x : res A) : res (option Request) * Q :=
  match x with Ok a => (Ok (f a).1, (f a).2) | Err e => (Err e, q) end.

Definition queue_step {Q} `{RequestQueue Q} (q : Q) (o : queue_op) : res (option Request) * Q :=
  match o with
  | QAdd r => after q (λ q', (None, q')) (add_request q r)
  | QPrepend r => after q (λ q', (None, q')) (prepend_request q r)
  | QPrependAll rs => after q (λ q', (None, q')) (prepend_requests q rs)
  | QPop => after q (λ x, (Some x.1, x.2)) (pop_request q)
  | QPeek => after q (λ r, (Some r, q)) (peek_request q)
  | QRemove r => after q (λ q', (None, q')) (remove_request q r)
  | QRemoveAll rs => after q (λ q', (None, q')) (remove_requests q rs)
  end.

(** Calls in sequence, by the step of one call. *)
Fixpoint run_ops {S} (step : S → queue_op → res (option Request) * S) (q : S) (ops : list queue_op)
    : list (res (option Request)) * S :=
  match ops with
  | [] => ([], q)
  | o :: ops => let '(x, q) := step q o in let '(l, q) := run_ops step q ops in (x :: l, q)
  end.

(** The reference: the requests in the order of service.  A policy says where a request is
    put. *)
Fixpoint insert_ordered (l : list Request) (r : Request) : list Request :=
  match l with
  | [] => [r]
  | x :: l' => if request_lt r x then r :: l else x :: insert_ordered l' r
  end.

Definition put_last (policy : SchedulingPolicy) (l : list Request) (r : Request) : list Request :=
  match policy with FCFS => l ++ [r] | PRIORITY => insert_ordered l r end.
Definition put_first (policy : SchedulingPolicy) (l : list Request) (r : Request) : list Request :=
  match policy with FCFS => r :: l | PRIORITY => insert_ordered l r end.

Definition order_step (policy : SchedulingPolicy) (l : list Request) (o : queue_op)
    : res (option Request) * list Request :=
  match o with
  | QAdd r => (Ok None, put_last policy l r)
  | QPrepend r => (Ok None, put_first policy l r)
  | QPrependAll rs => (Ok None, fold_left (put_first policy) rs l)
  | QPop => match l with [] => (Err IndexError, l) | x :: l' => (Ok (Some x), l') end
  | QPeek => match l with [] => (Err IndexError, l) | x :: _ => (Ok (Some x), l) end
  | QRemove r => after l (λ l', (None, l')) (list_remove l r)
  | QRemoveAll rs => (Ok None, filter (λ r, ¬ in_requests r rs) l)
  end.

(** The requests that are added are new objects. *)
Definition op_new (l : list Request) (o : queue_op) : Prop :=
  match o with
  | QAdd r | QPrepend r => ¬ in_requests r l
  | QPrependAll rs => NoDup (object_id <$> rs ++ l)
  | _ => True
  end.

Fixpoint ops_new (policy : SchedulingPolicy) (l : list Request) (ops : list queue_op) : Prop :=
  match ops with
  | [] => True
  | o :: ops => op_new l o ∧ ops_new policy (order_step policy l o).2 ops
  end.

(** A simulation of the reference by a queue carries over to sequences of calls. *)
Lemma run_ops_sim {Q} `{RequestQueue Q} policy (R : Q → list Request → Prop) :
  (∀ q l o, R q l → op_new l o →
     (queue_step q o).1 = (order_step policy l o).1 ∧ R (queue_step q o).2 (order_step policy l o).2) →
  ∀ ops q l, R q l → ops_new policy l ops →
    (run_ops queue_step q ops).1 = (run_ops (order_step policy) l ops).1
    ∧ R (run_ops queue_step q ops).2 (run_ops (order_step policy) l ops).2.
Proof.
  intros Hstep ops. induction ops as [|o ops IH]; intros q l Hr Hn; [done|]. destruct Hn as [Ho Hn].
  destruct (Hstep q l o Hr Ho) as [E1 Hr1]. cbn [run_ops].
  destruct (queue_step q o) as [x q1], (order_step policy l o) as [y l1]. cbn in *. subst y.
  destruct (IH q1 l1 Hr1 Hn) as [E2 Hr2].
  destruct (run_ops queue_step q1 ops), (run_ops (order_step policy) l1 ops). cbn in *. by subst.
Qed.

Lemma fcfs_step_sim (q : FCFSRequestQueue) l o :
  fcfs_items q = l →
  (queue_step q o).1 = (order_step FCFS l o).1 ∧ fcfs_items (queue_step q o).2 = (order_step FCFS l o).2.
Proof.
  intros <-. destruct q as [l], o as [r|r|rs| | |r|rs]; cbn; try done.
  - by destruct l.
  - by destruct l.
  - by destruct (list_remove l r).
Qed.

(** *** The sorted list of a heap *)

Lemma insert_ordered_perm l r : insert_ordered l r ≡ₚ r :: l.
Proof.
  induction l as [|x l IH]; cbn; [done|]. destruct (request_lt r x); [done|]. rewrite IH. apply Permutation_swap.
Qed.

Lemma insert_ordered_sorted l r : StronglySorted not_after l → StronglySorted not_after (insert_ordered l r).
Proof.
  induction 1 as [|x l Hs IH Hx]; cbn; [by repeat constructor|]. destruct (request_lt r x) eqn:E.
  - apply (lt_asym request_lt) in E. constructor; [by constructor|]. apply Forall_cons. split; [done|].
    eapply Forall_impl; [exact Hx|]. intros y Hy. by apply (le_trans request_lt r x y).
  - constructor; [done|]. apply Forall_forall. intros y Hy. rewrite insert_ordered_perm in Hy.
    apply elem_of_cons in Hy as [->|Hy]; [done|]. by apply (proj1 (Forall_forall _ _) Hx).
Qed.

Lemma put_all_perm rs l : fold_left insert_ordered rs l ≡ₚ rs ++ l.
Proof.
  revert l. induction rs as [|r rs IH]; intros l; cbn; [done|]. rewrite IH, insert_ordered_perm.
  by rewrite <- Permutation_middle.
Qed.

Lemma put_all_sorted rs l : StronglySorted not_after l → StronglySorted not_after (fold_left insert_ordered rs l).
Proof. revert l. induction rs as [|r rs IH]; intros l Hl; cbn; [done|]. by apply IH, insert_ordered_sorted. Qed.

(** Distinct objects in the same order make the same list. *)
Lemma sorted_unique l l' :
  StronglySorted not_after l → StronglySorted not_after l' → l ≡ₚ l' → NoDup (object_id <$> l) → l = l'.
Proof.
  intros H1 H2 Hp Hnd. eapply (StronglySorted_unique_strong not_after); [|done..].
  intros x y Hx Hy Hxy Hyx. cbv beta in *. rewrite <- Hp in Hy.
  assert (request_key x = request_key y) as E.
  { destruct (key_lt_total (request_key x) (request_key y)) as [Hk|[Hk|Hk]]; [|done|]; apply request_lt_iff in Hk; congruence. }
  injection E as _ _ _ E. apply list_elem_of_lookup_1 in Hx as [i Hi], Hy as [j Hj].
  assert (i = j) as ->; [|congruence]. apply (NoDup_lookup (object_id <$> l) i j (object_id x) Hnd).
  - by rewrite list_lookup_fmap, Hi.
  - by rewrite list_lookup_fmap, Hj, E.
Qed.

(** The heap holds the requests of the list, which are distinct objects in the order of
    service. *)
Record priority_rep (q : PriorityRequestQueue) (l : list Request) : Prop := {
  pr_ok : priority_ok q;
  pr_items : pq_heap q ≡ₚ l;
  pr_sorted : StronglySorted not_after l;
  pr_nodup : NoDup (object_id <$> l);
}.

Lemma rep_iter q l : priority_rep q l → queue_iter q = Ok l.
Proof.
  intros []. destruct (priority_iter_spec q) as (l' & -> & Hp & Hs); [done|]. f_equal.
  apply sorted_unique; [done|done|by etrans|]. by rewrite Hp, pr_items0.
Qed.

Lemma list_remove_sorted l r l' : StronglySorted not_after l → list_remove l r = Ok l' → StronglySorted not_after l'.
Proof.
  intros Hs. revert l'. induction Hs as [|x l Hs IH Hx]; intros l' E; cbn in E; [done|].
  destruct (_ =? _); inv_ok; [done|]. constructor; [by apply IH|].
  pose proof (list_remove_spec l r) as Hr. rewrite Hb in Hr. destruct Hr as (y & Hp & _).
  rewrite Hp in Hx. by apply Forall_cons in Hx as [_ ?].
Qed.

(** Removing an object from the heap or from the list removes the same request. *)
Lemma list_remove_same h l r :
  h ≡ₚ l → NoDup (object_id <$> l) →
  match list_remove h r, list_remove l r with
  | Ok h', Ok l' => h' ≡ₚ l' ∧ NoDup (object_id <$> l')
  | Err e, Err e' => e = e'
  | _, _ => False
  end.
Proof.
  intros Hp Hnd. pose proof (list_remove_spec h r) as H1. pose proof (list_remove_spec l r) as H2.
  destruct (list_remove h r) as [h'|e], (list_remove l r) as [l'|e'].
  - destruct H1 as (x & Hx & Ex), H2 as (y & Hy & Ey). rewrite Hy in Hnd. cbn in Hnd. apply NoDup_cons in Hnd as [Hn Hnd].
    split; [|done]. assert (x :: h' ≡ₚ y :: l') as Hxy by (by rewrite <- Hx, <- Hy).
    assert (x ∈ y :: l') as [->|Hin]%elem_of_cons by (rewrite <- Hxy; by left); [by apply (Permutation_cons_inv Hxy)|].
    exfalso. apply Hn. apply list_elem_of_fmap. exists x. split; [congruence|done].
  - destruct H1 as (x & Hx & Ex), H2 as [_ H2]. apply H2. unfold in_requests. rewrite <- Hp, Hx. cbn. rewrite Ex. left.
  - destruct H2 as (y & Hy & Ey), H1 as [_ H1]. apply H1. unfold in_requests. rewrite Hp, Hy. cbn. rewrite Ey. left.
  - destruct H1 as [-> _], H2 as [-> _]. done.
Qed.

Lemma filter_sorted rs l :
  StronglySorted not_after l → StronglySorted not_after (filter (λ r, ¬ in_requests r rs) l).
Proof.
  induction 1 as [|x l Hs IH Hx]; [constructor|]. rewrite filter_cons. case_decide; [|done]. constructor; [done|].
  apply Forall_forall. intros y [_ Hy]%list_elem_of_filter. by apply (proj1 (Forall_forall _ _) Hx).
Qed.

Lemma priority_step_sim (q : PriorityRequestQueue) l o :
  priority_rep q l → op_new l o →
  (queue_step q o).1 = (order_step PRIORITY l o).1 ∧ priority_rep (queue_step q o).2 (order_step PRIORITY l o).2.
Proof.
  intros Hr Hn. pose proof (rep_iter q l Hr) as Ei. destruct (Hr) as [Hok Hp Hs Hnd].
  assert (∀ r, ¬ in_requests r l → ∃ q', priority_add q r = Ok q' ∧ priority_rep q' (insert_ordered l r)) as Hadd.
  { intros r Hnew. destruct (priority_add_spec q r Hok) as (q' & E & Hok' & Hp'). exists q'. split; [done|].
    split; [done|by rewrite Hp', Hp, insert_ordered_perm|by apply insert_ordered_sorted|].
    rewrite insert_ordered_perm. cbn. by apply NoDup_cons. }
  destruct o as [r|r|rs| | |r|rs]; cbn [queue_step order_step op_new] in *.
  - destruct (Hadd r Hn) as (q' & E & Hr'). change (add_request q r) with (priority_add q r). by rewrite E.
  - destruct (Hadd r Hn) as (q' & E & Hr'). change (prepend_request q r) with (priority_add q r). by rewrite E.
  - change (prepend_requests q rs) with (rfold priority_add q rs). change (put_first PRIORITY) with insert_ordered.
    destruct (priority_add_all q rs Hok) as (q' & -> & Hok' & Hp'). split; [done|].
    split; [done|cbn; by rewrite Hp', Hp, put_all_perm|by apply put_all_sorted|by rewrite put_all_perm].
  - destruct l as [|x l].
    + destruct (law_empty (RequestQueueLaws := PriorityRequestQueue_laws) q Hok Ei) as [-> _]. done.
    + destruct (law_pop (RequestQueueLaws := PriorityRequestQueue_laws) q x l Hok Ei) as (_ & q' & -> & Hok' & Ei'). split; [done|]. cbn.
      apply StronglySorted_inv in Hs as [Hs _]. cbn in Hnd. apply NoDup_cons in Hnd as [_ Hnd].
      split; [done| |done|done]. symmetry. by apply priority_iter_perm.
  - destruct l as [|x l].
    + destruct (law_empty (RequestQueueLaws := PriorityRequestQueue_laws) q Hok Ei) as [_ ->]. done.
    + destruct (law_pop (RequestQueueLaws := PriorityRequestQueue_laws) q x l Hok Ei) as (-> & _). done.
  - change (remove_request q r) with (priority_remove q r). unfold priority_remove.
    pose proof (list_remove_same (pq_heap q) l r Hp Hnd) as Hrem.
    destruct (list_remove (pq_heap q) r) as [h|e], (list_remove l r) as [l'|e'] eqn:El; try done; cbn [mbind res_bind].
    + destruct (heapify_spec request_lt h) as (h' & -> & Hp' & Hh). destruct Hrem as [Hp1 Hnd1]. split; [done|]. cbn.
      split; [done|cbn; by rewrite Hp'|by apply (list_remove_sorted l r)|done].
    + by subst.
  - change (remove_requests q rs) with (priority_remove_all q rs). unfold priority_remove_all.
    destruct (heapify_spec request_lt (filter (λ r, ¬ in_requests r rs) (pq_heap q))) as (h & -> & Hp' & Hh).
    split; [done|]. cbn. split; [done|cbn; by rewrite Hp', Hp|by apply filter_sorted|].
    eapply sublist_NoDup; [exact Hnd|]. apply fmap_sublist, sublist_filter.
Qed.

(** C34: both queues serve their requests in the order of their policy, whatever a client
    calls.  For every sequence of insertions at either end, bulk insertions, pops, peeks
    and removals, from the queue that [create_request_queue] makes, each call returns the
    request, or raises the IndexError or ValueError, that it does on the list of the
    waiting requests in order, first come first served or sorted by priority, arrival
    time, id and identity; and the iterator and the length of the queue at the end are
    those of the list.  The requests that are added are not in the queue already. *)
Theorem queue_runs_in_order policy ops :
  ops_new policy [] ops →
  let '(outs, l) := run_ops (order_step policy) [] ops in
  match create_request_queue policy with
  | inl q => (run_ops queue_step q ops).1 = outs ∧ queue_iter (run_ops queue_step q ops).2 = Ok l
      ∧ queue_len (run_ops queue_step q ops).2 = zlen l ∧ StronglySorted not_after l
  | inr q => (run_ops queue_step q ops).1 = outs ∧ queue_iter (run_ops queue_step q ops).2 = Ok l
      ∧ queue_len (run_ops queue_step q ops).2 = zlen l
  end.
Proof.
  intros Hn. destruct (run_ops (order_step policy) [] ops) as [outs l] eqn:E. destruct policy; cbn [create_request_queue].
  - destruct (run_ops_sim FCFS (λ q l, fcfs_items q = l) (λ q l o Hr _, fcfs_step_sim q l o Hr) ops (mkFCFS []) [] eq_refl Hn)
      as [E1 E2]. rewrite E in E1, E2. cbn in *. by rewrite E2.
  - destruct (run_ops_sim PRIORITY priority_rep priority_step_sim ops (mkPriority []) []) as [E1 Hr]; [|done|].
    { split; [by intros [|i] _ _ ? ? ?|done|constructor|constructor]. }
    rewrite E in E1, Hr. cbn in *. split; [done|]. split; [by apply rep_iter|]. split; [|apply Hr].
    unfold zlen. by rewrite (pr_items _ _ Hr).
Qed.

(** C33: a priority queue never raises while requests are inserted, removed in
    bulk and inserted again, and then serves exactly the remaining requests,
    sorted: never one that another waiting request precedes by priority, arrival
    time, id and identity. *)
Theorem priority_queue_sorted rs1 rs2 rs3 :
  ∃ q l, (q ← rfold priority_add (mkPriority []) rs1;
          q ← priority_remove_all q rs2;
          rfold priority_add q rs3) = Ok q
    ∧ queue_iter q = Ok l
    ∧ l ≡ₚ rs3 ++ filter (λ r, ¬ in_requests r rs2) rs1
    ∧ StronglySorted not_after l
    ∧ ∀ x l', l = x :: l' → ∃ q', priority_pop q = Ok (x, q') ∧ priority_ok q' ∧ queue_iter q' = Ok l'.
Proof.
  assert (priority_ok (mkPriority [])) as H0 by (by intros [|i] _ _ ? ? ?).
  destruct (priority_add_all _ rs1 H0) as (q1 & -> & Hq & Hp). cbn [mbind res_bind].
  cbn in Hp. rewrite app_nil_r in Hp. unfold priority_remove_all.
  destruct (heapify_spec request_lt (filter (λ r, ¬ in_requests r rs2) (pq_heap q1))) as (h & -> & Hph & Hh).
  cbn [fmap res_fmap mbind res_bind].
  destruct (priority_add_all (mkPriority h) rs3 Hh) as (q3 & -> & Hq3 & Hp3).
  destruct (priority_iter_spec q3 Hq3) as (l & E & Hl & Hs). exists q3, l. split_and!; try done.
  - rewrite Hl, Hp3. cbn. by rewrite Hph, Hp.
  - intros x l' ->. by apply priority_pop_spec.
Qed.

(** ** Examples *)

Definition waiting (id : string) (prio arrival oid : Z) : Request :=
  mkRequest id 0 prio oid None None None false arrival WAITING None 0 None None ∅ 0 [] [] 0 [] 0 None []
    (-1) 0 0 [] false false [] 0 false false None.
Definition requests3 : list Request := [waiting "a" 2 0 1; waiting "b" 1 5 2; waiting "c" 1 3 3].
Definition queue3 : PriorityRequestQueue := get_ok (mkPriority []) (rfold priority_add (mkPriority []) requests3).

(** Two insertions, one at the front, a pop, and the removal of a request that was not
    added. *)
Definition ops3 : list queue_op :=
  [QAdd (waiting "a" 2 0 1); QAdd (waiting "b" 1 5 2); QPrepend (waiting "c" 1 3 3); QPop; QRemove (waiting "d" 0 0 4)].

Lemma queue_runs_in_order_witness :
  (run_ops queue_step (mkPriority []) ops3).1 = [Ok None; Ok None; Ok None; Ok (Some (waiting "c" 1 3 3)); Err ValueError]
  ∧ queue_iter (run_ops queue_step (mkPriority []) ops3).2 = Ok [waiting "b" 1 5 2; waiting "a" 2 0 1].
Proof.
  destruct (queue_runs_in_order PRIORITY ops3) as (E1 & E2 & _).
  - repeat split; eapply bool_decide_eq_true_1; vm_compute; reflexivity.
  - split; [exact E1|exact E2].
Defined.

(** Three requests in the order of service. *)
Example queue3_order : (λ l, request_id <$> (l : list Request)) <$> queue_iter queue3 = Ok ["c"; "b"; "a"].
Proof. vm_compute. reflexivity. Qed.
