(* ===== verification/SchedUtils.v ===== *)
(** * Scheduler helpers

    vllm/v1/core/sched/utils.py: repetition detection, removal of finished
    requests and the stop check. *)

From Stdlib Require Import String.
From S2P Require Import Prelude Request BlockHash.

(** ** Repetition *)

Section tokens.
Context (token_ids : list Z).

(** [for m in range(1, repetition_min_count)] *)
Fixpoint same_in_repetitions (target pattern_len n : Z) (ms : list Z) : res bool :=
  match ms with
  | [] => Ok true
  | m :: ms =>
      t ← py_index token_ids (- (pattern_len * m + n));
      if t =? target then same_in_repetitions target pattern_len n ms else Ok false
  end.

(** [for n in range(1, pattern_len + 1)] *)
Fixpoint pattern_loop (pattern_len repetition_min_count : Z) (ns : list Z) : res bool :=
  match ns with
  | [] => Ok true
  | n :: ns =>
      target_token ← py_index token_ids (- n);
      b ← same_in_repetitions target_token pattern_len n (zrange 1 repetition_min_count);
      if b : bool then pattern_loop pattern_len repetition_min_count ns else Ok false
  end.

Definition has_repeating_pattern (pattern_len repetition_min_count : Z) : res bool :=
  pattern_loop pattern_len repetition_min_count (zrange 1 (pattern_len + 1)).

(** [for pattern_len in range(min_pattern_size, max_pattern_size + 1)] *)
Fixpoint repetition_loop (min_count : Z) (lens : list Z) : res bool :=
  match lens with
  | [] => Ok false
  | pattern_len :: lens =>
      if zlen token_ids <? pattern_len * min_count then Ok false else
      b ← has_repeating_pattern pattern_len min_count;
      if b : bool then Ok true else repetition_loop min_count lens
  end.

Definition check_sequence_repetition (params : RepetitionDetectionParams) : res bool :=
  let max_size := max_pattern_size params in
  let min_size := if min_pattern_size params <=? 0 then 1 else min_pattern_size params in
  if (max_size <=? 0) || (min_count params <? 2) || (max_size <? min_size) then Ok false else
  repetition_loop (min_count params) (zrange min_size (max_size + 1)).
End tokens.

(** ** Removal *)

Section remove_all.
Context {A : Type} `{Countable A}.

(** [lst.remove(item)] with [ValueError] suppressed. *)
Fixpoint remove_first (l : list A) (x : A) : list A :=
  match l with [] => [] | y :: l => if decide (y = x) then l else y :: remove_first l x end.

Definition remove_all (lst : list A) (items_to_remove : gset A) : list A :=
  match elements items_to_remove with
  | [] => lst
  | [item] => remove_first lst item
  | _ => filter (λ x, x ∉ items_to_remove) lst
  end.
End remove_all.

(** ** Stopping *)

Definition check_stop (r : Request) (max_model_len : Z) : res (bool * Request) :=
  ASSERT bool_decide (pooling_params r = None);
  match sampling_params r with
  | None => Err AssertionError
  | Some sp =>
      if num_output_tokens r <? sp_min_tokens sp then Ok (false, r) else
      last_token_id ← py_index (output_token_ids r) (-1);
      if bool_decide (eos_token_id sp = Some last_token_id) then
        Ok (true, with_status r FINISHED_STOPPED)
      else if bool_decide (last_token_id ∈ default [] (stop_token_ids sp)) then
        Ok (true, with_stop_reason (with_status r FINISHED_STOPPED) (Some (StopToken last_token_id)))
      else if (max_model_len <=? num_tokens r) || (max_tokens r <=? num_output_tokens r) then
        Ok (true, with_status r FINISHED_LENGTH_CAPPED)
      else
        rep ← match repetition_detection sp with
              | None => Ok false
              | Some params => check_sequence_repetition (output_token_ids r) params
              end;
        if rep : bool then
          Ok (true, with_stop_reason (with_status r FINISHED_REPETITION)
                      (Some (StopString "repetition_detected")))
        else Ok (false, r)
  end.

(** ** Correctness of the repetition check *)

(** The list ends in [c] copies of a pattern of length [n]. *)
Definition ends_in_repetition (l : list Z) (n c : nat) : Prop :=
  ∃ pre pat, l = pre ++ concat (replicate c pat) ∧ List.length pat = n.

Lemma length_concat_replicate (c : nat) (pat : list Z) :
  List.length (concat (replicate c pat)) = (c * List.length pat)%nat.
Proof. induction c as [|c IH]; cbn; [done|]. rewrite length_app, IH. done. Qed.

(** Reading a list from its end. *)
Lemma py_index_neg (l : list Z) (k : nat) :
  (0 < k)%nat → (k ≤ List.length l)%nat →
  py_index l (- Z.of_nat k) = match reverse l !! (k - 1)%nat with Some x => Ok x | None => Err IndexError end.
Proof.
  intros Hk Hl. unfold py_index. rewrite (proj2 (Z.ltb_lt _ _)) by lia. unfold zlen.
  rewrite (proj2 (Z.leb_le _ _)), (proj2 (Z.ltb_lt _ _)) by lia. cbn [andb].
  rewrite reverse_lookup by lia. by replace (Z.to_nat (Z.of_nat (List.length l) + - Z.of_nat k))
    with (List.length l - S (k - 1))%nat by lia.
Qed.

Lemma lookup_concat_replicate (c : nat) (pat : list Z) (m i : nat) :
  (m < c)%nat → (i < List.length pat)%nat →
  concat (replicate c pat) !! (List.length pat * m + i)%nat = pat !! i.
Proof.
  revert m. induction c as [|c IH]; intros m Hm Hi; [lia|]. cbn. destruct m as [|m].
  - rewrite Nat.mul_0_r, lookup_app_l by lia. done.
  - rewrite lookup_app_r by lia. rewrite <- (IH m) by lia. f_equal. lia.
Qed.

(** Periodicity read from the end. *)
Definition periodic (r : list Z) (n c : nat) : Prop :=
  ∀ i m, (i < n)%nat → (m < c)%nat → r !! (n * m + i)%nat = r !! i.

Lemma periodic_prefix (r : list Z) (n c : nat) :
  (0 < n)%nat → (n * c ≤ List.length r)%nat → periodic r n c →
  take (n * c) r = concat (replicate c (take n r)).
Proof.
  intros Hn Hl Hp. destruct c as [|c]; [by rewrite Nat.mul_0_r|].
  assert (List.length (take n r) = n) as Ht by (rewrite length_take; nia).
  apply list_eq_same_length with (n * S c)%nat.
  - by rewrite length_concat_replicate, Ht, Nat.mul_comm.
  - rewrite length_take. lia.
  - intros j x y Hj Hx Hy. rewrite lookup_take_lt in Hx by done.
    pose proof (Nat.div_mod_eq j n) as Ej. pose proof (Nat.mod_upper_bound j n ltac:(lia)) as Hm.
    assert (j / n < S c)%nat as Hd by (apply Nat.Div0.div_lt_upper_bound; lia).
    rewrite Ej in Hx, Hy. rewrite Hp in Hx by done.
    rewrite <- Ht in Hy at 1. rewrite lookup_concat_replicate in Hy by (rewrite ?Ht; done).
    rewrite lookup_take_lt in Hy by done. congruence.
Qed.

Lemma reverse_concat_replicate (c : nat) (pat : list Z) :
  reverse (concat (replicate c pat)) = concat (replicate c (reverse pat)).
Proof.
  induction c as [|c IH]; [done|]. replace (S c) with (c + 1)%nat by lia.
  rewrite !replicate_add, !concat_app. cbn. rewrite !app_nil_r, reverse_app, IH.
  clear IH. induction c as [|c IH]; cbn; [by rewrite app_nil_r|]. by rewrite <- app_assoc, <- IH.
Qed.

Lemma ends_in_repetition_periodic (l : list Z) (n c : nat) :
  (0 < n)%nat → (0 < c)%nat → (n * c ≤ List.length l)%nat →
  ends_in_repetition l n c ↔ periodic (reverse l) n c.
Proof.
  intros Hn Hc Hl. split.
  - intros (pre & pat & -> & Hp). rewrite reverse_app, reverse_concat_replicate.
    assert (List.length (reverse pat) = n) as Hr by (by rewrite length_reverse).
    intros i m Hi Hm.
    assert (List.length (concat (replicate c (reverse pat))) = c * n)%nat as Hlen
      by (by rewrite length_concat_replicate, Hr).
    rewrite !lookup_app_l by (rewrite Hlen; nia).
    rewrite <- Hr at 1. rewrite lookup_concat_replicate by (rewrite ?Hr; done).
    replace i with (List.length (reverse pat) * 0 + i)%nat at 2 by lia.
    by rewrite lookup_concat_replicate by (rewrite ?Hr; done).
  - intros Hp. apply periodic_prefix in Hp; [|done|by rewrite length_reverse].
    exists (reverse (drop (n * c) (reverse l))), (reverse (take n (reverse l))). split.
    + rewrite <- reverse_concat_replicate, <- Hp, <- reverse_app, take_drop. by rewrite reverse_involutive.
    + rewrite length_reverse, length_take, length_reverse. nia.
Qed.

Section check.
Context (toks : list Z) (n c : nat) (Hn : (0 < n)%nat) (Hc : (0 < c)%nat).
Context (Hl : (n * c ≤ List.length toks)%nat).
Abbreviation r := (reverse toks).

Lemma index_from_end (m i : nat) :
  (m < c)%nat → (i < n)%nat →
  ∃ x, r !! (n * m + i)%nat = Some x ∧ py_index toks (- (Z.of_nat n * Z.of_nat m + Z.of_nat (S i))) = Ok x.
Proof using All.
  intros Hm Hi. destruct (lookup_lt_is_Some_2 r (n * m + i)) as [x Hx]; [rewrite length_reverse; nia|].
  exists x. split; [done|]. replace (Z.of_nat n * Z.of_nat m + Z.of_nat (S i)) with (Z.of_nat (n * m + S i)) by lia.
  rewrite py_index_neg by nia. by replace (n * m + S i - 1)%nat with (n * m + i)%nat by lia; rewrite Hx.
Qed.

Lemma same_in_repetitions_spec target i ms :
  (i < n)%nat → (∀ m, m ∈ ms → 0 ≤ m < Z.of_nat c) →
  ∃ b, same_in_repetitions toks target (Z.of_nat n) (Z.of_nat (S i)) ms = Ok b
    ∧ (b = true ↔ ∀ m, m ∈ ms → r !! (n * Z.to_nat m + i)%nat = Some target).
Proof using All.
  intros Hi. induction ms as [|m ms IH]; intros Hms; cbn [same_in_repetitions].
  { exists true. split; [done|]. split; [|done]. by intros _ m ?%elem_of_nil. }
  destruct (Hms m) as [H0 H1]; [by left|].
  destruct (index_from_end (Z.to_nat m) i) as (x & Hx & E); [lia|done|].
  rewrite Z2Nat.id in E by done. rewrite E. cbn [mbind res_bind].
  destruct (x =? target) eqn:Et; to_prop.
  - subst x. destruct IH as (b & -> & Hb); [intros m' Hm'; apply Hms; by right|].
    exists b. split; [done|]. rewrite Hb. split.
    + intros H m' [->|Hm']%elem_of_cons; [done|by apply H].
    + intros H m' Hm'. apply H. by right.
  - exists false. split; [done|]. split; [done|]. intros H. specialize (H m ltac:(by left)). congruence.
Qed.

Lemma pattern_loop_spec ns :
  (∀ k, k ∈ ns → 1 ≤ k ≤ Z.of_nat n) →
  ∃ b, pattern_loop toks (Z.of_nat n) (Z.of_nat c) ns = Ok b
    ∧ (b = true ↔ ∀ k m, k ∈ ns → (m < c)%nat →
         r !! (n * m + (Z.to_nat k - 1))%nat = r !! (Z.to_nat k - 1)%nat).
Proof using All.
  induction ns as [|k ns IH]; intros Hns; cbn [pattern_loop].
  { exists true. split; [done|]. split; [|done]. by intros _ k m ?%elem_of_nil. }
  destruct (Hns k) as [H1 H2]; [by left|]. set (i := (Z.to_nat k - 1)%nat).
  assert (k = Z.of_nat (S i)) as Ek by lia.
  destruct (index_from_end 0 i) as (x & Hx & E); [lia|lia|]. rewrite Nat.mul_0_r in Hx. cbn [Nat.add] in Hx.
  rewrite Z.mul_0_r, Z.add_0_l, <- Ek in E. rewrite E. cbn [mbind res_bind].
  destruct (same_in_repetitions_spec x i (zrange 1 (Z.of_nat c))) as (b & Es & Hb); [lia| |].
  { intros m Hm%elem_of_zrange. lia. }
  rewrite <- Ek in Es. rewrite Es. cbn [mbind res_bind]. destruct b.
  - destruct IH as (b & -> & IH); [intros k' Hk'; apply Hns; by right|]. exists b. split; [done|].
    rewrite IH. split.
    + intros H k' m [->|Hk']%elem_of_cons Hm; [|by apply H]. fold i. rewrite Hx.
      destruct m as [|m]; [by rewrite Nat.mul_0_r|].
      rewrite <- (Nat2Z.id (S m)). apply Hb; [done|]. apply elem_of_zrange. lia.
    + intros H k' m Hk'. apply H. by right.
  - exists false. split; [done|]. split; [done|]. intros H. apply Hb. intros m Hm%elem_of_zrange.
    rewrite <- Hx. apply (H k); [by left|lia].
Qed.

Lemma has_repeating_pattern_spec :
  ∃ b, has_repeating_pattern toks (Z.of_nat n) (Z.of_nat c) = Ok b
    ∧ (b = true ↔ ends_in_repetition toks n c).
Proof using All.
  unfold has_repeating_pattern.
  destruct (pattern_loop_spec (zrange 1 (Z.of_nat n + 1))) as (b & E & Hb).
  { intros k Hk%elem_of_zrange. lia. }
  exists b. split; [done|]. rewrite Hb, ends_in_repetition_periodic by done. split.
  - intros H i m Hi Hm. specialize (H (Z.of_nat (S i)) m).
    replace (Z.to_nat (Z.of_nat (S i)) - 1)%nat with i in H by lia.
    apply H; [|done]. apply elem_of_zrange. lia.
  - intros H k m Hk%elem_of_zrange Hm. apply H; [lia|done].
Qed.
End check.

Lemma repetition_loop_spec toks (c : nat) (lens : list Z) a b :
  (0 < c)%nat → 1 ≤ a → lens = zrange a b →
  ∃ res, repetition_loop toks (Z.of_nat c) lens = Ok res
    ∧ (res = true ↔ ∃ n : nat, a ≤ Z.of_nat n < b ∧ (n * c ≤ List.length toks)%nat
         ∧ ends_in_repetition toks n c).
Proof.
  intros Hc. revert a. induction lens as [|x lens IH]; intros a Ha E; cbn [repetition_loop].
  { exists false. split; [done|]. split; [done|]. intros (n & Hn & _).
    assert (a ∈ zrange a b) as H by (apply elem_of_zrange; lia). rewrite <- E in H. by apply elem_of_nil in H. }
  assert (a < b) as Hab.
  { destruct (decide (a < b)); [done|]. rewrite zrange_nil in E by lia. done. }
  rewrite zrange_cons in E by done. injection E as -> E.
  destruct (_ <? _) eqn:El; to_prop.
  - exists false. split; [done|]. split; [done|]. intros (n & Hn & Hl & _). unfold zlen in El. nia.
  - assert (a = Z.of_nat (Z.to_nat a)) as Ea by lia. unfold zlen in El.
    destruct (has_repeating_pattern_spec toks (Z.to_nat a) c) as (res & Eh & Hres); [lia|lia|nia|].
    rewrite <- Ea in Eh. rewrite Eh. cbn [mbind res_bind]. destruct res.
    + exists true. split; [done|]. split; [|done]. intros _. exists (Z.to_nat a).
      split; [lia|]. split; [nia|by apply Hres].
    + destruct (IH (a + 1) ltac:(lia) E) as (res & -> & IHres). exists res. split; [done|]. rewrite IHres.
      split; intros (n & Hn & Hl & He); exists n; (split; [|done]).
      * lia.
      * destruct (decide (Z.of_nat n = a)) as [<-|]; [|lia]. rewrite Nat2Z.id in Hres.
        by apply Hres in He.
Qed.

Lemma check_repetition_spec toks params :
  ∃ b, check_sequence_repetition toks params = Ok b
    ∧ (b = true ↔ 2 ≤ min_count params ∧ ∃ n : nat,
         Z.max 1 (min_pattern_size params) ≤ Z.of_nat n ≤ max_pattern_size params
         ∧ ends_in_repetition toks n (Z.to_nat (min_count params))).
Proof.
  unfold check_sequence_repetition. set (lo := if _ <=? 0 then _ else _).
  assert (lo = Z.max 1 (min_pattern_size params)) as -> by (unfold lo; case_match; to_prop; lia).
  destruct (_ || _) eqn:E.
  { exists false. split; [done|]. split; [done|]. intros (H2 & n & Hn & _).
    rewrite !orb_true_iff in E. destruct E as [[E|E]|E]; to_prop; lia. }
  to_prop. assert (min_count params = Z.of_nat (Z.to_nat (min_count params))) as Ec by lia.
  destruct (repetition_loop_spec toks (Z.to_nat (min_count params)) _
    (Z.max 1 (min_pattern_size params)) (max_pattern_size params + 1) ltac:(lia) ltac:(lia) eq_refl)
    as (b & Eb & Hb). rewrite <- Ec in Eb. exists b. split; [done|]. rewrite Hb. split.
  - intros (n & Hn & _ & He). split; [lia|]. exists n. split; [lia|done].
  - intros (_ & n & Hn & He). exists n. split; [lia|]. split; [|done].
    destruct He as (pre & pat & -> & Hp). rewrite length_app, length_concat_replicate, Hp. lia.
Qed.

(** C35: the repetition check never raises and answers yes exactly when the
    tokens end in at least the configured number of copies of a pattern whose
    length is within the configured bounds. *)
Theorem repetition_check_exact toks params :
  ∃ b, check_sequence_repetition toks params = Ok b
    ∧ (b = true ↔ 2 ≤ min_count params ∧ ∃ n : nat,
         Z.max 1 (min_pattern_size params) ≤ Z.of_nat n ≤ max_pattern_size params
         ∧ ends_in_repetition toks n (Z.to_nat (min_count params))).
Proof. apply check_repetition_spec. Qed.

(** ** Removal *)

Lemma remove_first_nodup {A} `{Countable A} (l : list A) x :
  NoDup l → remove_first l x = filter (λ y, y ∉ ({[x]} : gset A)) l.
Proof.
  induction 1 as [|y l Hy Hnd IH]; [done|]. cbn [remove_first]. rewrite filter_cons.
  destruct (decide (y = x)) as [->|Hne].
  - rewrite decide_False by set_solver. rewrite list_filter_all; [done|].
    apply Forall_forall. intros z Hz. set_solver.
  - rewrite decide_True by set_solver. by rewrite IH.
Qed.

(** On a list without duplicates, as the scheduler's lists of requests are,
    all three paths of [remove_all] keep exactly the items outside the set, in
    order. *)
Theorem remove_all_filters {A} `{Countable A} (lst : list A) (items : gset A) :
  NoDup lst → remove_all lst items = filter (λ x, x ∉ items) lst.
Proof.
  intros Hnd. unfold remove_all. destruct (elements items) as [|x [|y l]] eqn:E; [| |done].
  - assert (items = ∅) as -> by (apply set_eq; intros z; rewrite <- elem_of_elements, E; set_solver).
    rewrite list_filter_all; [done|].
    apply Forall_forall. set_solver.
  - assert (items = {[x]}) as ->.
    { apply set_eq. intros z. rewrite <- elem_of_elements, E. set_solver. }
    by apply remove_first_nodup.
Qed.

(** On a list with a repeated item, removing a single item leaves the later
    copies, while removing it with another item does not. *)
Theorem remove_all_duplicates :
  remove_all [1; 2; 1] {[1]} = [2; 1] ∧ remove_all [1; 2; 1] {[1; 7]} = [2].
Proof. vm_compute. done. Qed.

(** ** Stopping *)

(** The conditions under which a request stops, in the order of precedence. *)
Definition repeats (r : Request) (sp : SamplingParams) : Prop :=
  ∃ params, repetition_detection sp = Some params
    ∧ check_sequence_repetition (output_token_ids r) params = Ok true.

(** What the stop check reports for a request whose last token is [t]. *)
Definition stop_outcome (r : Request) (sp : SamplingParams) (max_model_len t : Z)
    (o : option (RequestStatus * option StopReason)) : Prop :=
  if num_output_tokens r <? sp_min_tokens sp then o = None else
  if decide (eos_token_id sp = Some t) then o = Some (FINISHED_STOPPED, stop_reason r) else
  if decide (t ∈ default [] (stop_token_ids sp)) then o = Some (FINISHED_STOPPED, Some (StopToken t)) else
  if decide (max_model_len ≤ num_tokens r ∨ max_tokens r ≤ num_output_tokens r)
  then o = Some (FINISHED_LENGTH_CAPPED, stop_reason r) else
  (repeats r sp → o = Some (FINISHED_REPETITION, Some (StopString "repetition_detected")))
  ∧ (¬ repeats r sp → o = None).

Lemma check_stop_spec r sp max_model_len t :
  pooling_params r = None → sampling_params r = Some sp → last (output_token_ids r) = Some t →
  ∃ b r', check_stop r max_model_len = Ok (b, r')
    ∧ is_finished r' = (if b then true else is_finished r)
    ∧ (b = false → r' = r)
    ∧ r' = (if b then with_stop_reason (with_status r (status r')) (stop_reason r') else r)
    ∧ stop_outcome r sp max_model_len t (if b then Some (status r', stop_reason r') else None).
Proof.
  intros Hp Hs Ht. unfold check_stop. rewrite bool_decide_eq_true_2, Hs by done.
  unfold stop_outcome. destruct (_ <? _); [by exists false, r|].
  assert (py_index (output_token_ids r) (-1) = Ok t) as ->.
  { rewrite last_lookup in Ht. apply lookup_lt_Some in Ht as Hl.
    change (-1) with (- Z.of_nat 1). rewrite py_index_neg by lia.
    rewrite reverse_lookup by lia.
    replace (List.length (output_token_ids r) - S (1 - 1))%nat
      with (pred (List.length (output_token_ids r))) by lia. by rewrite Ht. }
  cbn [mbind res_bind]. destruct (decide (eos_token_id sp = Some t)) as [He|He].
  { rewrite bool_decide_eq_true_2 by done. by exists true, (with_status r FINISHED_STOPPED). }
  rewrite (bool_decide_eq_false_2 (eos_token_id sp = Some t)) by done.
  destruct (decide (t ∈ _)) as [Hin|Hin].
  { rewrite bool_decide_eq_true_2 by done.
    by exists true, (with_stop_reason (with_status r FINISHED_STOPPED) (Some (StopToken t))). }
  rewrite (bool_decide_eq_false_2 (t ∈ _)) by done.
  destruct (decide (max_model_len ≤ num_tokens r ∨ max_tokens r ≤ num_output_tokens r)) as [Hcap|Hcap];
    destruct (_ || _) eqn:Eo; rewrite ?orb_true_iff, ?Z.leb_le in Eo; to_prop; try lia; try done.
  { by exists true, (with_status r FINISHED_LENGTH_CAPPED). }
  destruct (repetition_detection sp) as [params|] eqn:Er.
  - destruct (check_repetition_spec (output_token_ids r) params) as (b & Eb & _). rewrite Eb.
    assert (repeats r sp ↔ b = true) as Hr.
    { unfold repeats. rewrite Er. split; [intros (? & [= <-] & E); congruence|]. intros ->. by exists params. }
    cbn [mbind res_bind]. destruct b.
    + eexists true, _. split; [done|]. split; [done|]. split; [done|]. split; [done|].
      split; [done|]. intros Hn. by destruct Hn; apply Hr.
    + exists false, r. split_and!; try done. by intros ?%Hr.
  - cbn [mbind res_bind]. exists false, r. split_and!; try done. intros (? & E & _). congruence.
Qed.

(** ** What the parameters promise *)

(** The minimum is compatible with the limits: [SamplingParams] checks the first part,
    the second says that the prompt leaves room for the minimal output. *)
Definition minimum_ok (r : Request) (sp : SamplingParams) (max_len : Z) : Prop :=
  sp_min_tokens sp ≤ max_tokens r
  ∧ num_tokens r - num_output_tokens r + sp_min_tokens sp ≤ max_len.

(** The last token [t] ends the output, once the minimum is generated. *)
Definition ended_by_token (r : Request) (sp : SamplingParams) (t : Z) : Prop :=
  sp_min_tokens sp ≤ num_output_tokens r
  ∧ (eos_token_id sp = Some t ∨ t ∈ default [] (stop_token_ids sp)).

(** A length limit is reached, whatever the minimum. *)
Definition ended_by_length (r : Request) (max_len : Z) : Prop :=
  max_len ≤ num_tokens r ∨ max_tokens r ≤ num_output_tokens r.

(** The output, no shorter than the minimum, ends in copies of a short pattern. *)
Definition ended_by_repetition (r : Request) (sp : SamplingParams) : Prop :=
  sp_min_tokens sp ≤ num_output_tokens r
  ∧ ∃ params, repetition_detection sp = Some params ∧ 2 ≤ min_count params
      ∧ ∃ n : nat, Z.max 1 (min_pattern_size params) ≤ Z.of_nat n ≤ max_pattern_size params
          ∧ ends_in_repetition (output_token_ids r) n (Z.to_nat (min_count params)).

Lemma ended_by_repetition_iff r sp :
  sp_min_tokens sp ≤ num_output_tokens r → ended_by_repetition r sp ↔ repeats r sp.
Proof.
  intros Hm. unfold ended_by_repetition, repeats. split.
  - intros (_ & params & E & Hc). exists params. split; [done|].
    destruct (check_repetition_spec (output_token_ids r) params) as (b & -> & Hb). f_equal. by apply Hb.
  - intros (params & E & Hc). split; [done|]. exists params. split; [done|].
    destruct (check_repetition_spec (output_token_ids r) params) as (b & Eb & Hb). apply Hb. congruence.
Qed.

(** The status and the reason of a request that has stopped. *)
Record stopped_with (r : Request) (sp : SamplingParams) (max_len t : Z) (r' : Request) : Prop := {
  sw_frame : r' = with_stop_reason (with_status r (status r')) (stop_reason r');
  sw_token : status r' = FINISHED_STOPPED ↔ ended_by_token r sp t;
  sw_length : status r' = FINISHED_LENGTH_CAPPED ↔ ended_by_length r max_len ∧ ¬ ended_by_token r sp t;
  sw_repetition : status r' = FINISHED_REPETITION ↔ ¬ ended_by_length r max_len ∧ ¬ ended_by_token r sp t;
  sw_reason : stop_reason r' =
    if decide (status r' = FINISHED_REPETITION) then Some (StopString "repetition_detected")
    else if decide (status r' = FINISHED_STOPPED ∧ eos_token_id sp ≠ Some t) then Some (StopToken t)
    else stop_reason r;
}.

Lemma stopped_with_spec r sp max_len t st reason :
  sp_min_tokens sp ≤ num_output_tokens r →
  stop_outcome r sp max_len t (Some (st, reason)) →
  stopped_with r sp max_len t (with_stop_reason (with_status r st) reason)
  ∧ (ended_by_token r sp t ∨ ended_by_length r max_len ∨ ended_by_repetition r sp).
Proof.
  intros Hm. unfold stop_outcome. rewrite (proj2 (Z.ltb_ge _ _)) by done.
  rewrite (ended_by_repetition_iff r sp Hm).
  destruct (decide (eos_token_id sp = Some t)) as [He|He].
  { intros [= -> ->]. split; [|left; by split; [|left]].
    assert (ended_by_token r sp t) by (by split; [|left]).
    split; cbn; try done; [naive_solver..|]. repeat case_decide; naive_solver. }
  destruct (decide (t ∈ _)) as [Hin|Hin].
  { intros [= -> ->]. assert (ended_by_token r sp t) by (by split; [|right]). split; [|by left].
    split; cbn; try done; [naive_solver..|]. repeat case_decide; naive_solver. }
  assert (¬ ended_by_token r sp t) as Ht by (intros [_ [?|?]]; done).
  destruct (decide (max_len ≤ num_tokens r ∨ max_tokens r ≤ num_output_tokens r)) as [Hl|Hl].
  { intros [= -> ->]. split; [|right; by left].
    split; cbn; try done; [naive_solver..|]. repeat case_decide; naive_solver. }
  intros [Hy Hn]. assert (repeats r sp) as Hr.
  { destruct (repetition_detection sp) as [params|] eqn:Er.
    - destruct (check_repetition_spec (output_token_ids r) params) as (b & Eb & _).
      destruct b; [by exists params|]. exfalso. assert (¬ repeats r sp) as Hr by (intros (p & E & Ep); congruence). by specialize (Hn Hr).
    - assert (¬ repeats r sp) as Hr by (intros (p & E & _); congruence). by specialize (Hn Hr). }
  specialize (Hy Hr). injection Hy as -> ->. split; [|auto]. split; cbn; try done; naive_solver.
Qed.

(** C36: for a generation request with at least one output token and a minimum that fits
    its limits, the stop check never raises and stops exactly when the parameters say:
    on the EOS token or a stop token once [min_tokens] are generated, at [max_tokens]
    or the length of the model, and on a repetition no shorter than the minimum.  A
    stop token decides the status before the length, and the length before a
    repetition; the stop reason is the stop token or the repetition.  A request that goes
    on is left untouched. *)
Theorem check_stop_contract r sp max_model_len t :
  pooling_params r = None → sampling_params r = Some sp → last (output_token_ids r) = Some t →
  minimum_ok r sp max_model_len →
  ∃ b r', check_stop r max_model_len = Ok (b, r')
    ∧ (b = true ↔ ended_by_token r sp t ∨ ended_by_length r max_model_len ∨ ended_by_repetition r sp)
    ∧ if b then is_finished r' = true ∧ stopped_with r sp max_model_len t r' else r' = r.
Proof.
  intros Hp Hs Ht [Hm1 Hm2].
  destruct (check_stop_spec r sp max_model_len t Hp Hs Ht) as (b & r' & E & Hf & Hb & Hr' & Ho).
  exists b, r'. split; [done|]. destruct b.
  - assert (sp_min_tokens sp ≤ num_output_tokens r) as Hm.
    { unfold stop_outcome in Ho. destruct (_ <? _) eqn:El; [done|]. by to_prop. }
    destruct (stopped_with_spec r sp max_model_len t _ _ Hm Ho) as [Hw He]. rewrite <- Hr' in Hw. by split.
  - split; [|by apply Hb]. split; [done|]. intros He. exfalso. unfold stop_outcome in Ho.
    destruct (_ <? _) eqn:El; to_prop.
    { destruct He as [[? _]|[[?|?]|[? _]]]; lia. }
    rewrite (ended_by_repetition_iff r sp El) in He.
    repeat case_decide; try done. destruct Ho as [Hy _].
    destruct He as [[_ [?|?]]|[?|?]]; try done. by specialize (Hy H2).
Qed.

(** ** Examples *)

Definition talking_sampling : SamplingParams :=
  mkSampling (Some 16) 1 (Some 0) (Some [9]) (Some (mkRepetition 2 1 3)) None false.
Definition talking_request (out : list Z) : Request :=
  mkRequest "r" 0 0 0 (Some talking_sampling)
    None None false 0 RUNNING None 16 None None ∅ 0 out out 0 [] 0 None [] (-1) 0 0 [] false false
    [] 0 false false None.

Lemma check_stop_contract_witness :
  ∃ b r', check_stop (talking_request [4; 5; 4; 5; 4; 5]) 100 = Ok (b, r')
    ∧ if b then is_finished r' = true else r' = talking_request [4; 5; 4; 5; 4; 5].
Proof.
  destruct (check_stop_contract (talking_request [4; 5; 4; 5; 4; 5]) talking_sampling 100 5) as (b & r' & E & _ & H).
  - reflexivity.
  - reflexivity.
  - reflexivity.
  - split; vm_compute; discriminate.
  - exists b, r'. split; [exact E|]. destruct b; [apply H|exact H].
Defined.

Lemma remove_all_filters_witness :
  remove_all [1; 2; 3] {[2]} = [1; 3].
Proof.
  rewrite (remove_all_filters [1; 2; 3] {[2]}).
  - vm_compute. reflexivity.
  - eapply bool_decide_eq_true_1. vm_compute. reflexivity.
Defined.

(** Three copies of a pattern of two tokens stop the request. *)
Example repetition_stops :
  (λ x : bool * Request, (x.1, status x.2)) <$> check_stop (talking_request [4; 5; 4; 5; 4; 5]) 100
    = Ok (true, FINISHED_REPETITION)
  ∧ (λ x : bool * Request, x.1) <$> check_stop (talking_request [4; 5; 4; 4; 5]) 100 = Ok false.
Proof. vm_compute. done. Qed.
