(* ===== verification/Scheduler.v ===== *)
(** * The scheduler: state and interfaces

    vllm/v1/core/sched/scheduler.py and output.py.  [Request] objects are shared
    by the [requests] dictionary, the running list and the waiting queues, and
    are mutated in place: [objs] is the store of objects by identity, the
    containers hold identities, and a queue compares the current attributes of
    the objects it holds.  The KV-cache manager, the encoder-cache manager, the
    waiting queues and the connectors are behind interfaces. *)

From Stdlib Require Import String QArith.
From S2P Require Import Prelude Blocks FreeQueue Request BlockHash Metrics HashMap BlockPool.
From S2P Require Import KVCacheSpec CacheHit SingleTypeManager Coordinator KVCacheManager.
From S2P Require Import EncoderCache HeapQueue RequestQueue SchedUtils.
#[local] Open Scope Z_scope.

(** ** Outputs: output.py *)

Record NewRequestData := mkNewRequestData {
  nr_req_id : string;
  nr_prompt_token_ids : option (list Z);
  nr_mm_features : list MultiModalFeatureSpec;
  nr_sampling_params : option SamplingParams;
  nr_pooling_params : option PoolingParams;
  nr_block_ids : list (list Z);
  nr_num_computed_tokens : Z;
  nr_lora_request : option LoRARequest;
  nr_prompt_embeds : option (list bytes);
  nr_prefill_token_ids : option (list Z);
}.

Definition new_request_data (r : Request) (block_ids : list (list Z)) (prefill : option (list Z))
    : NewRequestData :=
  mkNewRequestData (request_id r) (prompt_token_ids r) (mm_features r) (sampling_params r)
    (pooling_params r) block_ids (num_computed_tokens r) (lora_request r) (prompt_embeds r) prefill.

Record CachedRequestData := mkCachedRequestData {
  cr_req_ids : list string;
  resumed_req_ids : gset string;
  cr_new_token_ids : list (list Z);
  cr_all_token_ids : list (string * list Z);
  cr_new_block_ids : list (option (list (list Z)));
  cr_num_computed_tokens : list Z;
  cr_num_output_tokens : list Z;
}.

Record SchedulerOutput := mkOutput {
  so_scheduled_new_reqs : list NewRequestData;
  so_scheduled_cached_reqs : CachedRequestData;
  so_num_scheduled_tokens : list (string * Z);
  so_total_num_scheduled_tokens : Z;
  so_scheduled_spec_decode_tokens : list (string * list Z);
  so_scheduled_encoder_inputs : list (string * list Z);
  so_num_common_prefix_blocks : list Z;
  so_finished_req_ids : gset string;
  so_free_encoder_mm_hashes : list mm_key;
  so_preempted_req_ids : gset string;
  has_structured_output_requests : bool;
  pending_structured_output_tokens : bool;
  num_invalid_spec_tokens : option (list (string * Z));
  new_block_ids_to_zero : option (list Z);
}.

Definition with_structured (o : SchedulerOutput) (has pending : bool) : SchedulerOutput :=
  mkOutput (so_scheduled_new_reqs o) (so_scheduled_cached_reqs o) (so_num_scheduled_tokens o)
    (so_total_num_scheduled_tokens o) (so_scheduled_spec_decode_tokens o)
    (so_scheduled_encoder_inputs o) (so_num_common_prefix_blocks o) (so_finished_req_ids o)
    (so_free_encoder_mm_hashes o) (so_preempted_req_ids o) has pending
    (num_invalid_spec_tokens o) (new_block_ids_to_zero o).
Definition with_drafts (o : SchedulerOutput) (spec : list (string * list Z))
    (invalid : list (string * Z)) : SchedulerOutput :=
  mkOutput (so_scheduled_new_reqs o) (so_scheduled_cached_reqs o) (so_num_scheduled_tokens o)
    (so_total_num_scheduled_tokens o) spec
    (so_scheduled_encoder_inputs o) (so_num_common_prefix_blocks o) (so_finished_req_ids o)
    (so_free_encoder_mm_hashes o) (so_preempted_req_ids o) (has_structured_output_requests o)
    (pending_structured_output_tokens o) (Some invalid) (new_block_ids_to_zero o).

(** ** Interfaces *)

(** What the scheduler calls of [KVCacheManager]. *)
Class KVManager (K : Type) := {
  kv_new_step_starts : K → K;
  kv_get_computed_blocks : K → Request → res (KVCacheBlocks * Z * K);
  kv_can_fit_full_sequence : K → Request → Z → option KVCacheBlocks → Z → Z → res (bool * K);
  kv_allocate_slots : K → Request → Z → Z → option KVCacheBlocks → Z → Z → bool → Z →
    res (option KVCacheBlocks * K * Request);
  kv_cache_blocks : K → Request → Z → res (K * Request);
  kv_free : K → Request → res K;
  kv_remove_skipped_blocks : K → string → Z → res K;
  kv_evict_blocks : K → list Z → res K;
  kv_reset_prefix_cache : K → bool * K;
  kv_get_blocks : K → string → KVCacheBlocks;
  kv_block_ids : K → KVCacheBlocks → bool → option (list (list Z));
  kv_num_common_prefix_blocks : K → string → res (list Z * K);
  kv_take_new_block_ids : K → list Z * K;
  kv_take_events : K → list KVCacheEvent * K;
  kv_make_prefix_cache_stats : K → option PrefixCacheStats * K;
  kv_drain_eviction_events : K → list KVCacheEvictionEvent * K;
  kv_usage : K → Q;
}.

(** The collector is shared by the scheduler and the block pool. *)
Definition km_drain_eviction_events (k : KVCacheManager) : list KVCacheEvictionEvent * KVCacheManager :=
  match metrics_collector (pool_of k) with
  | None => ([], k)
  | Some c => let '(l, c) := drain_events c in (l, with_pool k (with_collector (pool_of k) (Some c)))
  end.

Definition KVCacheManager_ops (use_int : bool) (sha256 : bytes → bytes) : KVManager KVCacheManager := {|
  kv_new_step_starts := km_new_step_starts;
  kv_get_computed_blocks := get_computed_blocks;
  kv_can_fit_full_sequence := can_fit_full_sequence;
  kv_allocate_slots := allocate_slots use_int sha256;
  kv_cache_blocks := km_cache_blocks use_int sha256;
  kv_free := km_free;
  kv_remove_skipped_blocks := km_remove_skipped_blocks;
  kv_evict_blocks := km_evict_blocks use_int;
  kv_reset_prefix_cache := km_reset_prefix_cache;
  kv_get_blocks := get_blocks;
  kv_block_ids := kb_get_block_ids;
  kv_num_common_prefix_blocks := km_num_common_prefix_blocks;
  kv_take_new_block_ids := km_take_new_block_ids;
  kv_take_events := km_take_events;
  kv_make_prefix_cache_stats := make_prefix_cache_stats;
  kv_drain_eviction_events := km_drain_eviction_events;
  kv_usage := usage;
|}.

(** What the scheduler calls of the encoder-cache managers. *)
Class EncoderCacheOps (E : Type) := {
  ec_check_and_update_cache : E → Request → Z → res (bool * E);
  ec_can_allocate : E → Request → Z → Z → Z → res (bool * E);
  ec_allocate : E → Request → Z → res E;
  ec_get_cached_input_ids : E → Request → list Z;
  ec_free_encoder_input : E → Request → Z → res E;
  ec_free : E → Request → res E;
  ec_get_freed_mm_hashes : E → list mm_key * E;
  ec_reset : E → E;
  ec_cache_size : E → Z;
  ec_num_free_slots : E → Z;
}.

#[export] Instance EncoderCacheManager_ops : EncoderCacheOps EncoderCacheManager := {
  ec_check_and_update_cache := check_and_update_cache;
  ec_can_allocate := can_allocate;
  ec_allocate := allocate;
  ec_get_cached_input_ids := get_cached_input_ids;
  ec_free_encoder_input := free_encoder_input;
  ec_free := encoder_free;
  ec_get_freed_mm_hashes := get_freed_mm_hashes;
  ec_reset := encoder_reset;
  ec_cache_size := cache_size;
  ec_num_free_slots := num_free_slots;
}.

(** [EncoderDecoderCacheManager] has no [cached] attribute, so the inherited
    [check_and_update_cache] raises. *)
#[export] Instance EncoderDecoderCacheManager_ops : EncoderCacheOps EncoderDecoderCacheManager := {
  ec_check_and_update_cache _ _ _ := Err AttributeError;
  ec_can_allocate e r i b n := ok ← encdec_can_allocate e r i b n; Ok (ok, e);
  ec_allocate := encdec_allocate;
  ec_get_cached_input_ids _ r := encdec_get_cached_input_ids r;
  ec_free_encoder_input := encdec_free_encoder_input;
  ec_free := encdec_free;
  ec_get_freed_mm_hashes := encdec_get_freed_mm_hashes;
  ec_reset := encdec_reset;
  ec_cache_size := ed_cache_size;
  ec_num_free_slots := ed_num_free_slots;
}.

(** The fields of [KVConnectorOutput] the scheduler reads. *)
Record KVConnectorOutput := mkConnectorOutput {
  finished_sending : option (list string);
  finished_recving : option (list string);
  invalid_block_ids : gset Z;
}.

(** The scheduler side of a KV connector with state [C]; [P] is the type of the
    transfer parameters it returns for a finished request.  The metadata it
    builds for the workers is opaque to the scheduler and left out. *)
Class KVConnector (C P : Type) := {
  kc_supports_hma : bool;
  kc_get_num_new_matched_tokens : C → Request → Z → option Z * bool * C;
  kc_update_state_after_alloc : C → Request → KVCacheBlocks → Z → C;
  kc_request_finished : C → Request → list Z → bool * option P * C;
  kc_request_finished_all_groups : C → Request → list (list Z) → bool * option P * C;
  kc_build_connector_meta : C → SchedulerOutput → C;
  kc_update_connector_output : C → KVConnectorOutput → C;
  kc_take_events : C → list KVCacheEvent * C;
  kc_reset_cache : C → option bool * C;
}.

(** The scheduler side of an encoder-cache connector. *)
Class ECConnector (EC : Type) := {
  ecc_has_cache_item : EC → mm_key → bool;
  ecc_update_state_after_alloc : EC → Request → Z → EC;
  ecc_build_connector_meta : EC → SchedulerOutput → EC;
}.

(** A configuration without connectors: the state types are empty. *)
#[export] Instance no_kv_connector : KVConnector Empty_set unit := {
  kc_supports_hma := false;
  kc_get_num_new_matched_tokens c _ _ := match c with end;
  kc_update_state_after_alloc c _ _ _ := c;
  kc_request_finished c _ _ := match c with end;
  kc_request_finished_all_groups c _ _ := match c with end;
  kc_build_connector_meta c _ := c;
  kc_update_connector_output c _ := c;
  kc_take_events c := match c with end;
  kc_reset_cache c := match c with end;
}.
#[export] Instance no_ec_connector : ECConnector Empty_set := {
  ecc_has_cache_item c _ := match c with end;
  ecc_update_state_after_alloc c _ _ := c;
  ecc_build_connector_meta c _ := c;
}.

(** What a queue implementation adds to its interface: the objects it holds, in
    its own layout, and replacing them in place. *)
Class QueueImpl (Q : Type) := {
  impl_policy : SchedulingPolicy;
  new_queue : Q;
  queue_items : Q → list Request;
  queue_map : (Request → Request) → Q → Q;
}.

#[export] Instance FCFS_impl : QueueImpl FCFSRequestQueue := {
  impl_policy := FCFS;
  new_queue := mkFCFS [];
  queue_items := fcfs_items;
  queue_map f q := mkFCFS (f <$> fcfs_items q);
}.

#[export] Instance Priority_impl : QueueImpl PriorityRequestQueue := {
  impl_policy := PRIORITY;
  new_queue := mkPriority [];
  queue_items := pq_heap;
  queue_map f q := mkPriority (f <$> pq_heap q);
}.

(** ** Configuration and state *)

Inductive PauseState := UNPAUSED | PAUSED_NEW | PAUSED_ALL.

#[export] Instance PauseState_eq_dec : EqDecision PauseState.
Proof. solve_decision. Defined.

(** The attributes fixed by the constructor.  [max_loras] is that of
    [lora_config], [None] without LoRA. *)
Record SchedConfig := mkSchedConfig {
  max_num_running_reqs : Z;
  max_num_scheduled_tokens : Z;
  max_model_len : Z;
  long_prefill_token_threshold : Z;
  enable_chunked_prefill : bool;
  disable_chunked_mm_input : bool;
  max_num_encoder_input_tokens : Z;
  is_encoder_decoder : bool;
  num_spec_tokens : Z;
  num_lookahead_tokens : Z;
  use_eagle : bool;
  sched_block_size : Z;
  cache_block_size : Z;
  need_mamba_block_aligned_split : bool;
  max_loras : option Z;
  scheduler_reserve_full_isl : bool;
  log_stats : bool;
  use_pp : bool;
  async_scheduling : bool;
  use_v2_model_runner : bool;
  needs_kv_cache_zeroing : bool;
  recompute_kv_load_failures : bool;
  num_kv_groups : Z;
}.

Section state.
Context {K E W C EC : Type}.

Record Scheduler := mkScheduler {
  cfg : SchedConfig;
  objs : Z → Request;
  requests : list (string * Z);
  waiting_q : W;
  skipped_waiting : W;
  running : list Z;
  finished_req_ids : gset string;
  finished_req_ids_dict : option (gmap Z (gset string));
  prev_step_scheduled_req_ids : gset string;
  num_waiting_for_streaming_input : Z;
  finished_recving_kv_req_ids : gset string;
  failed_recving_kv_req_ids : gset string;
  kv_cache_manager : K;
  encoder_cache_manager : E;
  connector : option C;
  connector_prefix_cache_stats : option PrefixCacheStats;
  ec_connector : option EC;
  pause_state : PauseState;
}.

Definition with_objs (s : Scheduler) (v : Z → Request) : Scheduler :=
  mkScheduler (cfg s) v (requests s) (waiting_q s) (skipped_waiting s) (running s) (finished_req_ids s)
    (finished_req_ids_dict s) (prev_step_scheduled_req_ids s)
    (num_waiting_for_streaming_input s) (finished_recving_kv_req_ids s)
    (failed_recving_kv_req_ids s) (kv_cache_manager s) (encoder_cache_manager s) (connector s)
    (connector_prefix_cache_stats s) (ec_connector s) (pause_state s).
Definition with_requests (s : Scheduler) (v : list (string * Z)) : Scheduler :=
  mkScheduler (cfg s) (objs s) v (waiting_q s) (skipped_waiting s) (running s) (finished_req_ids s)
    (finished_req_ids_dict s) (prev_step_scheduled_req_ids s)
    (num_waiting_for_streaming_input s) (finished_recving_kv_req_ids s)
    (failed_recving_kv_req_ids s) (kv_cache_manager s) (encoder_cache_manager s) (connector s)
    (connector_prefix_cache_stats s) (ec_connector s) (pause_state s).
Definition with_waiting (s : Scheduler) (v : W) : Scheduler :=
  mkScheduler (cfg s) (objs s) (requests s) v (skipped_waiting s) (running s) (finished_req_ids s)
    (finished_req_ids_dict s) (prev_step_scheduled_req_ids s)
    (num_waiting_for_streaming_input s) (finished_recving_kv_req_ids s)
    (failed_recving_kv_req_ids s) (kv_cache_manager s) (encoder_cache_manager s) (connector s)
    (connector_prefix_cache_stats s) (ec_connector s) (pause_state s).
Definition with_skipped (s : Scheduler) (v : W) : Scheduler :=
  mkScheduler (cfg s) (objs s) (requests s) (waiting_q s) v (running s) (finished_req_ids s)
    (finished_req_ids_dict s) (prev_step_scheduled_req_ids s)
    (num_waiting_for_streaming_input s) (finished_recving_kv_req_ids s)
    (failed_recving_kv_req_ids s) (kv_cache_manager s) (encoder_cache_manager s) (connector s)
    (connector_prefix_cache_stats s) (ec_connector s) (pause_state s).
Definition with_running (s : Scheduler) (v : list Z) : Scheduler :=
  mkScheduler (cfg s) (objs s) (requests s) (waiting_q s) (skipped_waiting s) v (finished_req_ids s)
    (finished_req_ids_dict s) (prev_step_scheduled_req_ids s)
    (num_waiting_for_streaming_input s) (finished_recving_kv_req_ids s)
    (failed_recving_kv_req_ids s) (kv_cache_manager s) (encoder_cache_manager s) (connector s)
    (connector_prefix_cache_stats s) (ec_connector s) (pause_state s).
Definition with_finished (s : Scheduler) (v0 : gset string) (v1 : option (gmap Z (gset string))) : Scheduler :=
  mkScheduler (cfg s) (objs s) (requests s) (waiting_q s) (skipped_waiting s) (running s) v0 v1
    (prev_step_scheduled_req_ids s) (num_waiting_for_streaming_input s)
    (finished_recving_kv_req_ids s) (failed_recving_kv_req_ids s) (kv_cache_manager s)
    (encoder_cache_manager s) (connector s) (connector_prefix_cache_stats s) (ec_connector s)
    (pause_state s).
Definition with_prev_step (s : Scheduler) (v : gset string) : Scheduler :=
  mkScheduler (cfg s) (objs s) (requests s) (waiting_q s) (skipped_waiting s) (running s)
    (finished_req_ids s) (finished_req_ids_dict s) v (num_waiting_for_streaming_input s)
    (finished_recving_kv_req_ids s) (failed_recving_kv_req_ids s) (kv_cache_manager s)
    (encoder_cache_manager s) (connector s) (connector_prefix_cache_stats s) (ec_connector s)
    (pause_state s).
Definition with_streaming_count (s : Scheduler) (v : Z) : Scheduler :=
  mkScheduler (cfg s) (objs s) (requests s) (waiting_q s) (skipped_waiting s) (running s)
    (finished_req_ids s) (finished_req_ids_dict s) (prev_step_scheduled_req_ids s) v
    (finished_recving_kv_req_ids s) (failed_recving_kv_req_ids s) (kv_cache_manager s)
    (encoder_cache_manager s) (connector s) (connector_prefix_cache_stats s) (ec_connector s)
    (pause_state s).
Definition with_recving (s : Scheduler) (v0 : gset string) (v1 : gset string) : Scheduler :=
  mkScheduler (cfg s) (objs s) (requests s) (waiting_q s) (skipped_waiting s) (running s)
    (finished_req_ids s) (finished_req_ids_dict s) (prev_step_scheduled_req_ids s)
    (num_waiting_for_streaming_input s) v0 v1 (kv_cache_manager s) (encoder_cache_manager s)
    (connector s) (connector_prefix_cache_stats s) (ec_connector s) (pause_state s).
Definition with_kv (s : Scheduler) (v : K) : Scheduler :=
  mkScheduler (cfg s) (objs s) (requests s) (waiting_q s) (skipped_waiting s) (running s)
    (finished_req_ids s) (finished_req_ids_dict s) (prev_step_scheduled_req_ids s)
    (num_waiting_for_streaming_input s) (finished_recving_kv_req_ids s)
    (failed_recving_kv_req_ids s) v (encoder_cache_manager s) (connector s)
    (connector_prefix_cache_stats s) (ec_connector s) (pause_state s).
Definition with_encoder (s : Scheduler) (v : E) : Scheduler :=
  mkScheduler (cfg s) (objs s) (requests s) (waiting_q s) (skipped_waiting s) (running s)
    (finished_req_ids s) (finished_req_ids_dict s) (prev_step_scheduled_req_ids s)
    (num_waiting_for_streaming_input s) (finished_recving_kv_req_ids s)
    (failed_recving_kv_req_ids s) (kv_cache_manager s) v (connector s)
    (connector_prefix_cache_stats s) (ec_connector s) (pause_state s).
Definition with_connector (s : Scheduler) (v : option C) : Scheduler :=
  mkScheduler (cfg s) (objs s) (requests s) (waiting_q s) (skipped_waiting s) (running s)
    (finished_req_ids s) (finished_req_ids_dict s) (prev_step_scheduled_req_ids s)
    (num_waiting_for_streaming_input s) (finished_recving_kv_req_ids s)
    (failed_recving_kv_req_ids s) (kv_cache_manager s) (encoder_cache_manager s) v
    (connector_prefix_cache_stats s) (ec_connector s) (pause_state s).
Definition with_connector_stats (s : Scheduler) (v : option PrefixCacheStats) : Scheduler :=
  mkScheduler (cfg s) (objs s) (requests s) (waiting_q s) (skipped_waiting s) (running s)
    (finished_req_ids s) (finished_req_ids_dict s) (prev_step_scheduled_req_ids s)
    (num_waiting_for_streaming_input s) (finished_recving_kv_req_ids s)
    (failed_recving_kv_req_ids s) (kv_cache_manager s) (encoder_cache_manager s) (connector s)
    v (ec_connector s) (pause_state s).
Definition with_ec_connector (s : Scheduler) (v : option EC) : Scheduler :=
  mkScheduler (cfg s) (objs s) (requests s) (waiting_q s) (skipped_waiting s) (running s)
    (finished_req_ids s) (finished_req_ids_dict s) (prev_step_scheduled_req_ids s)
    (num_waiting_for_streaming_input s) (finished_recving_kv_req_ids s)
    (failed_recving_kv_req_ids s) (kv_cache_manager s) (encoder_cache_manager s) (connector s)
    (connector_prefix_cache_stats s) v (pause_state s).
Definition with_pause (s : Scheduler) (v : PauseState) : Scheduler :=
  mkScheduler (cfg s) (objs s) (requests s) (waiting_q s) (skipped_waiting s) (running s)
    (finished_req_ids s) (finished_req_ids_dict s) (prev_step_scheduled_req_ids s)
    (num_waiting_for_streaming_input s) (finished_recving_kv_req_ids s)
    (failed_recving_kv_req_ids s) (kv_cache_manager s) (encoder_cache_manager s) (connector s)
    (connector_prefix_cache_stats s) (ec_connector s) v.
End state.

Arguments Scheduler : clear implicits.

(** The variables of one call of [schedule]. *)
Record Step := mkStep {
  scheduled_new_reqs : list Z;
  scheduled_resumed_reqs : list Z;
  scheduled_running_reqs : list Z;
  preempted_reqs : list Z;
  req_to_new_blocks : list (string * KVCacheBlocks);
  num_scheduled_tokens : list (string * Z);
  token_budget : Z;
  scheduled_encoder_inputs : list (string * list Z);
  encoder_compute_budget : Z;
  scheduled_spec_decode_tokens : list (string * list Z);
  scheduled_loras : gset Z;
}.

Definition with_new (t : Step) (v : list Z) : Step :=
  mkStep v (scheduled_resumed_reqs t) (scheduled_running_reqs t) (preempted_reqs t)
    (req_to_new_blocks t) (num_scheduled_tokens t) (token_budget t)
    (scheduled_encoder_inputs t) (encoder_compute_budget t) (scheduled_spec_decode_tokens t)
    (scheduled_loras t).
Definition with_resumed (t : Step) (v : list Z) : Step :=
  mkStep (scheduled_new_reqs t) v (scheduled_running_reqs t) (preempted_reqs t)
    (req_to_new_blocks t) (num_scheduled_tokens t) (token_budget t)
    (scheduled_encoder_inputs t) (encoder_compute_budget t) (scheduled_spec_decode_tokens t)
    (scheduled_loras t).
Definition with_running_reqs (t : Step) (v : list Z) : Step :=
  mkStep (scheduled_new_reqs t) (scheduled_resumed_reqs t) v (preempted_reqs t)
    (req_to_new_blocks t) (num_scheduled_tokens t) (token_budget t)
    (scheduled_encoder_inputs t) (encoder_compute_budget t) (scheduled_spec_decode_tokens t)
    (scheduled_loras t).
Definition with_preempted (t : Step) (v : list Z) : Step :=
  mkStep (scheduled_new_reqs t) (scheduled_resumed_reqs t) (scheduled_running_reqs t) v
    (req_to_new_blocks t) (num_scheduled_tokens t) (token_budget t)
    (scheduled_encoder_inputs t) (encoder_compute_budget t) (scheduled_spec_decode_tokens t)
    (scheduled_loras t).
Definition with_new_blocks (t : Step) (v : list (string * KVCacheBlocks)) : Step :=
  mkStep (scheduled_new_reqs t) (scheduled_resumed_reqs t) (scheduled_running_reqs t)
    (preempted_reqs t) v (num_scheduled_tokens t) (token_budget t)
    (scheduled_encoder_inputs t) (encoder_compute_budget t) (scheduled_spec_decode_tokens t)
    (scheduled_loras t).
Definition with_scheduled (t : Step) (v0 : list (string * Z)) (v1 : Z) : Step :=
  mkStep (scheduled_new_reqs t) (scheduled_resumed_reqs t) (scheduled_running_reqs t)
    (preempted_reqs t) (req_to_new_blocks t) v0 v1 (scheduled_encoder_inputs t)
    (encoder_compute_budget t) (scheduled_spec_decode_tokens t) (scheduled_loras t).
Definition with_encoder_inputs (t : Step) (v0 : list (string * list Z)) (v1 : Z) : Step :=
  mkStep (scheduled_new_reqs t) (scheduled_resumed_reqs t) (scheduled_running_reqs t)
    (preempted_reqs t) (req_to_new_blocks t) (num_scheduled_tokens t) (token_budget t) v0 v1
    (scheduled_spec_decode_tokens t) (scheduled_loras t).
Definition with_spec_tokens (t : Step) (v : list (string * list Z)) : Step :=
  mkStep (scheduled_new_reqs t) (scheduled_resumed_reqs t) (scheduled_running_reqs t)
    (preempted_reqs t) (req_to_new_blocks t) (num_scheduled_tokens t) (token_budget t)
    (scheduled_encoder_inputs t) (encoder_compute_budget t) v (scheduled_loras t).
Definition with_loras (t : Step) (v : gset Z) : Step :=
  mkStep (scheduled_new_reqs t) (scheduled_resumed_reqs t) (scheduled_running_reqs t)
    (preempted_reqs t) (req_to_new_blocks t) (num_scheduled_tokens t) (token_budget t)
    (scheduled_encoder_inputs t) (encoder_compute_budget t) (scheduled_spec_decode_tokens t) v.

(** The end of a loop body: [continue] or [break]. *)
Inductive flow (A : Type) := Next (a : A) | Break (a : A).
Arguments Next {A} a.
Arguments Break {A} a.

(** ** Objects and queues *)

Section operations.
Context {K E W C EC P : Type}.
Context `{KVManager K, EncoderCacheOps E, RequestQueue W, QueueImpl W, KVConnector C P, ECConnector EC}.
#[local] Abbreviation sched := (Scheduler K E W C EC).

(** The object [i] after an assignment to its attributes. *)
Definition put (s : sched) (i : Z) (r : Request) : sched :=
  with_objs s (λ j, if j =? i then r else objs s j).
Definition modify (s : sched) (i : Z) (f : Request → Request) : sched := put s i (f (objs s i)).

(** A queue as it is seen by its methods: the objects have their current
    attributes. *)
Definition current (s : sched) (q : W) : W := queue_map (λ r, objs s (object_id r)) q.

Definition q_empty (q : W) : bool := queue_len q =? 0.
Definition q_add (s : sched) (q : W) (i : Z) : res W := add_request (current s q) (objs s i).
Definition q_prepend (s : sched) (q : W) (i : Z) : res W := prepend_request (current s q) (objs s i).
Definition q_peek (s : sched) (q : W) : res Z := object_id <$> peek_request (current s q).
Definition q_pop (s : sched) (q : W) : res (Z * W) :=
  '(r, q) ← pop_request (current s q); Ok (object_id r, q).
(** [q.prepend_requests(other)] *)
Definition q_prepend_all (s : sched) (q other : W) : res W :=
  rs ← queue_iter (current s other); prepend_requests (current s q) rs.
Definition q_remove_all (s : sched) (q : W) (ids : list Z) : res W :=
  remove_requests (current s q) (objs s <$> ids).

(** [l.remove(i)] *)
Fixpoint ids_remove (l : list Z) (i : Z) : res (list Z) :=
  match l with
  | [] => Err ValueError
  | j :: l => if j =? i then Ok l else l' ← ids_remove l i; Ok (j :: l')
  end.

(** ** Waiting queues *)

Definition _is_blocked_waiting_status (st : RequestStatus) : bool :=
  match st with
  | WAITING_FOR_STRUCTURED_OUTPUT_GRAMMAR | WAITING_FOR_REMOTE_KVS | WAITING_FOR_STREAMING_REQ => true
  | _ => false
  end.

Definition _enqueue_waiting_request (s : sched) (i : Z) : res sched :=
  if _is_blocked_waiting_status (status (objs s i)) then
    with_skipped s <$> q_add s (skipped_waiting s) i
  else with_waiting s <$> q_add s (waiting_q s) i.

Inductive which_queue := Waiting | Skipped.

Definition _select_waiting_queue_for_scheduling (s : sched) : res (option which_queue) :=
  match impl_policy with
  | FCFS =>
      Ok (if negb (q_empty (skipped_waiting s)) then Some Skipped
          else if negb (q_empty (waiting_q s)) then Some Waiting else None)
  | PRIORITY =>
      if negb (q_empty (waiting_q s)) && negb (q_empty (skipped_waiting s)) then
        waiting_req ← q_peek s (waiting_q s);
        skipped_req ← q_peek s (skipped_waiting s);
        Ok (Some (if request_lt (objs s waiting_req) (objs s skipped_req) then Waiting else Skipped))
      else
        Ok (if negb (q_empty (waiting_q s)) then Some Waiting
            else if negb (q_empty (skipped_waiting s)) then Some Skipped else None)
  end.

Definition queue_of (s : sched) (w : which_queue) : W :=
  match w with Waiting => waiting_q s | Skipped => skipped_waiting s end.
Definition with_queue_of (s : sched) (w : which_queue) (q : W) : sched :=
  match w with Waiting => with_waiting s q | Skipped => with_skipped s q end.

Definition get_request_counts (s : sched) : Z * Z :=
  (zlen (running s), queue_len (waiting_q s) + queue_len (skipped_waiting s)).

Definition get_num_unfinished_requests (s : sched) : Z :=
  match pause_state s with
  | PAUSED_ALL => 0
  | PAUSED_NEW => zlen (running s)
  | UNPAUSED =>
      queue_len (waiting_q s) + queue_len (skipped_waiting s)
        - num_waiting_for_streaming_input s + zlen (running s)
  end.

Definition has_finished_requests (s : sched) : bool := bool_decide (finished_req_ids s ≠ ∅).

Definition has_unfinished_requests (s : sched) : bool := 0 <? get_num_unfinished_requests s.
Definition has_requests (s : sched) : bool := has_unfinished_requests s || has_finished_requests s.

Definition set_pause_state (s : sched) (p : PauseState) : sched := with_pause s p.

Definition reset_encoder_cache (s : sched) : sched :=
  with_encoder s (ec_reset (encoder_cache_manager s)).

(** ** Block-aligned chunks *)

Definition _mamba_block_aligned_split (c : SchedConfig) (r : Request)
    (num_new_tokens num_new_local_computed_tokens num_external_computed_tokens : Z) : res Z :=
  ASSERT num_external_computed_tokens =? 0;
  let computed :=
    num_computed_tokens r + num_new_local_computed_tokens + num_external_computed_tokens in
  if computed <? Z.max (num_prompt_tokens r) (num_tokens r - 1) then
    let bs := cache_block_size c in
    rem ← py_mod (num_tokens r) bs;
    let last_cache_position := num_tokens r - rem in
    let last_cache_position :=
      if use_eagle c then Z.max (last_cache_position - bs) 0 else last_cache_position in
    let computed_after_sched := computed + num_new_tokens in
    if computed_after_sched <? last_cache_position then Ok (num_new_tokens / bs * bs)
    else if (computed <? last_cache_position) && (last_cache_position <? computed_after_sched) then
      Ok (last_cache_position - computed)
    else Ok num_new_tokens
  else Ok num_new_tokens.

(** ** Freeing and preemption *)

Definition _preempt_request (s : sched) (i : Z) (timestamp : Z) : res sched :=
  ASSERT bool_decide (status (objs s i) = RUNNING);
  k ← kv_free (kv_cache_manager s) (objs s i);
  let s := with_kv s k in
  e ← ec_free (encoder_cache_manager s) (objs s i);
  let s := with_encoder s e in
  let s := modify s i (λ r,
    let r := with_num_computed_tokens (with_status r PREEMPTED) 0 in
    let r := if bool_decide (spec_token_ids r = []) then r else with_spec_token_ids r [] in
    let r := with_num_preemptions r (num_preemptions r + 1) in
    if log_stats (cfg s) then record_event r EVENT_PREEMPTED timestamp else r) in
  with_waiting s <$> q_prepend s (waiting_q s) i.

Definition _free_encoder_inputs (s : sched) (i : Z) : res sched :=
  let r := objs s i in
  e ← rfold (λ e input_id,
        f ← py_index (mm_features r) input_id;
        let start_pos := pr_offset (mm_position f) in
        let n := pr_length (mm_position f) in
        if is_encoder_decoder (cfg s) && (0 <? num_computed_tokens r) then
          ec_free_encoder_input e r input_id
        else if start_pos + n <=? num_computed_tokens r then ec_free_encoder_input e r input_id
        else Ok e)
      (encoder_cache_manager s) (ec_get_cached_input_ids (encoder_cache_manager s) r);
  Ok (with_encoder s e).

(** ** Encoder inputs *)

(** [PlaceholderRange.get_embeds_indices_in_range]; [embeds_cumsum] is the running
    sum of the mask. *)
Definition embeds_cumsum (mask : list bool) (j : Z) : res Z :=
  _ ← py_index mask j;
  let j := if j <? 0 then zlen mask + j else j in
  Ok (zlen (filter (λ b : bool, b = true) (take (S (Z.to_nat j)) mask))).

Definition get_embeds_indices_in_range (p : PlaceholderRange) (start_idx end_idx : Z) : res (Z * Z) :=
  match is_embed p with
  | None => Ok (start_idx, end_idx)
  | Some mask =>
      a ← (if 0 <? start_idx then embeds_cumsum mask (start_idx - 1) else Ok 0);
      b ← embeds_cumsum mask (end_idx - 1);
      Ok (a, b)
  end.

(** The variables of the loop over the inputs of a request. *)
Record EncoderLoop := mkLoop {
  el_cache : E;
  el_num_new_tokens : Z;
  el_budget : Z;
  el_to_schedule : list Z;
  el_external : list Z;
  el_hashes : gset mm_key;
  el_num_embeds : Z;
}.

Definition el_set_cache (l : EncoderLoop) (e : E) : EncoderLoop :=
  mkLoop e (el_num_new_tokens l) (el_budget l) (el_to_schedule l) (el_external l) (el_hashes l)
    (el_num_embeds l).
Definition el_set_tokens (l : EncoderLoop) (n : Z) : EncoderLoop :=
  mkLoop (el_cache l) n (el_budget l) (el_to_schedule l) (el_external l) (el_hashes l)
    (el_num_embeds l).

Section encoder_inputs.
Context (c : SchedConfig) (has_item : mm_key → bool) (r : Request) (computed shift : Z).

(** The body of [for i, mm_feature in enumerate(mm_features)]. *)
Definition encoder_step (l : EncoderLoop) (i : Z) (f : MultiModalFeatureSpec) : res (flow EncoderLoop) :=
  let start_pos := pr_offset (mm_position f) in
  let num_encoder_tokens := pr_length (mm_position f) in
  num_encoder_embeds ← get_num_embeds (mm_position f);
  let h := identifier f in
  let new := el_num_new_tokens l in
  if computed + new + shift <=? start_pos then Ok (Break l) else
  if is_encoder_decoder c && (0 <? computed) then ASSERT start_pos =? 0; Ok (Next l) else
  if start_pos + num_encoder_tokens <=? computed then Ok (Next l) else
  if negb (is_encoder_decoder c) && bool_decide (h ∈ el_hashes l) then Ok (Next l) else
  '(cached, e) ← (if negb (is_encoder_decoder c) then ec_check_and_update_cache (el_cache l) r i
                  else Ok (false, el_cache l));
  let l := el_set_cache l e in
  if cached : bool then Ok (Next l) else
  if disable_chunked_mm_input c && (computed <? start_pos)
     && (computed + new <? start_pos + num_encoder_tokens) then
    Ok (Break (el_set_tokens l (Z.max 0 (start_pos - (computed + shift)))))
  else
  '(room, e) ← ec_can_allocate (el_cache l) r i (el_budget l) (el_num_embeds l);
  let l := el_set_cache l e in
  if negb room then
    Ok (Break (el_set_tokens l
      (if computed + shift <? start_pos then start_pos - (computed + shift) else 0)))
  else
  let start_idx_rel := Z.max 0 (computed - start_pos) in
  let end_idx_rel := Z.min num_encoder_tokens (computed + new - start_pos) in
  '(a, b) ← get_embeds_indices_in_range (mm_position f) start_idx_rel end_idx_rel;
  if b - a =? 0 then Ok (Next l) else
  if has_item h then
    Ok (Next (mkLoop (el_cache l) new (el_budget l) (el_to_schedule l) (el_external l ++ [i])
                ({[h]} ∪ el_hashes l) (el_num_embeds l + num_encoder_embeds)))
  else
    Ok (Next (mkLoop (el_cache l) new (el_budget l - num_encoder_embeds) (el_to_schedule l ++ [i])
                (el_external l) ({[h]} ∪ el_hashes l) (el_num_embeds l + num_encoder_embeds))).

Fixpoint encoder_loop (l : EncoderLoop) (i : Z) (fs : list MultiModalFeatureSpec) : res EncoderLoop :=
  match fs with
  | [] => Ok l
  | f :: fs =>
      x ← encoder_step l i f;
      match x with Next l => encoder_loop l (i + 1) fs | Break l => Ok l end
  end.
End encoder_inputs.

(** The inputs to run, the tokens to schedule, the remaining budget and the inputs
    to load from the connector. *)
Definition _try_schedule_encoder_inputs (s : sched) (i computed num_new_tokens budget shift : Z)
    : res (list Z * Z * Z * list Z * sched) :=
  let r := objs s i in
  if (num_new_tokens =? 0) || negb (has_encoder_inputs r) then Ok ([], num_new_tokens, budget, [], s) else
  ASSERT 0 <? zlen (mm_features r);
  l ← encoder_loop (cfg s) (λ h, match ec_connector s with Some ec => ecc_has_cache_item ec h | None => false end)
        r computed shift
        (mkLoop (encoder_cache_manager s) num_new_tokens budget [] [] ∅ 0) 0 (mm_features r);
  Ok (el_to_schedule l, el_num_new_tokens l, el_budget l, el_external l, with_encoder s (el_cache l)).

(** [for i in inputs: self.encoder_cache_manager.allocate(request, i); ...] *)
Definition allocate_encoder_inputs (s : sched) (i : Z) (inputs : list Z) : res sched :=
  rfold (λ s input_id,
    e ← ec_allocate (encoder_cache_manager s) (objs s i) input_id;
    let s := with_encoder s e in
    Ok (with_ec_connector s
          ((λ c, ecc_update_state_after_alloc c (objs s i) input_id) <$> ec_connector s))) s inputs.
End operations.

(** ** Construction *)

(** The parts of [VllmConfig] that the constructor reads. *)
Record VllmFields := mkVllmFields {
  vf_max_num_seqs : Z;
  vf_max_num_scheduled_tokens : option Z;
  vf_max_num_batched_tokens : Z;
  vf_max_model_len : Z;
  vf_long_prefill_token_threshold : Z;
  vf_enable_chunked_prefill : bool;
  vf_disable_chunked_mm_input : bool;
  vf_is_encoder_decoder : bool;
  (** [num_speculative_tokens], [use_eagle()] and [uses_draft_model()] *)
  vf_speculative : option (Z * bool * bool);
  vf_num_gpu_blocks : option Z;
  vf_cache_block_size : Z;
  vf_enable_prefix_caching : bool;
  vf_mamba_cache_mode : string;
  vf_max_loras : option Z;
  vf_reserve_full_isl : bool;
  vf_pipeline_parallel_size : Z;
  vf_dcp : Z;
  vf_pcp : Z;
  vf_async_scheduling : bool;
  vf_use_v2_model_runner : bool;
  vf_enable_kv_cache_events : bool;
  (** [kv_cache_metrics_sample], when metrics are on *)
  vf_metrics_sample : option Q;
  (** [kv_transfer_config.kv_load_failure_policy == "recompute"] *)
  vf_recompute : option bool;
  (** [encoder_compute_budget], [encoder_cache_size] and
      [len(mm_max_toks_per_item)] of [MultiModalBudget] *)
  vf_mm_budget : option (Z * Z * Z);
}.

(** [x if x else y] *)
Definition py_or (x : option Z) (y : Z) : Z :=
  match x with Some v => if v =? 0 then y else v | None => y end.

Definition scheduler_config (v : VllmFields) (kvc : KVCacheConfig) (block_size : Z) (log : bool)
    : SchedConfig :=
  let '(spec, eagle, draft) := default (0, false, false) (vf_speculative v) in
  mkSchedConfig (vf_max_num_seqs v)
    (py_or (vf_max_num_scheduled_tokens v) (vf_max_num_batched_tokens v)) (vf_max_model_len v)
    (vf_long_prefill_token_threshold v) (vf_enable_chunked_prefill v) (vf_disable_chunked_mm_input v)
    (match vf_mm_budget v with Some (compute, _, _) => compute | None => 0 end)
    (vf_is_encoder_decoder v) spec (if eagle || draft then spec else 0) eagle block_size
    (vf_cache_block_size v)
    (has_mamba_layers kvc && String.eqb (vf_mamba_cache_mode v) "align") (vf_max_loras v)
    (vf_reserve_full_isl v) log (1 <? vf_pipeline_parallel_size v) (vf_async_scheduling v)
    (vf_use_v2_model_runner v) (KVCacheSpec.needs_kv_cache_zeroing kvc)
    (default true (vf_recompute v)) (zlen (kv_cache_groups kvc)).

(** [new_encoder] is the constructor of the encoder-cache class, [conn] and
    [ec_conn] the connectors that the factories return, [blank] the store before
    any request exists. *)
Definition scheduler_init {E W C EC : Type} `{QueueImpl W} (v : VllmFields) (kvc : KVCacheConfig)
    (block_size : Z) (include_finished_set log : bool) (new_encoder : Z → E) (conn : option C)
    (ec_conn : option EC) (clock : nat → Z) (draws : nat → Q) (blank : Z → Request)
    : res (Scheduler KVCacheManager E W C EC) :=
  collector ← match vf_metrics_sample v with
              | None => Ok None
              | Some q => Some <$> collector_init clock draws q
              end;
  ASSERT negb (bool_decide (is_Some conn) && vf_is_encoder_decoder v);
  ASSERT match vf_num_gpu_blocks v with Some n => 0 <? n | None => false end;
  ASSERT negb (vf_is_encoder_decoder v)
         || match vf_mm_budget v with Some (_, _, n) => n <=? 1 | None => false end;
  let c := scheduler_config v kvc block_size log in
  let size := match vf_mm_budget v with Some (_, size, _) => size | None => 0 end in
  k ← kv_cache_manager_init kvc (vf_max_model_len v) block_size (vf_enable_prefix_caching v)
        (use_eagle c) log (vf_enable_kv_cache_events v) (vf_dcp v) (vf_pcp v) collector;
  Ok (mkScheduler c blank [] new_queue new_queue [] ∅ (if include_finished_set then Some ∅ else None) ∅ 0
        ∅ ∅ k (new_encoder size) conn (if bool_decide (is_Some conn) && log then Some new_stats else None)
        ec_conn UNPAUSED).
