(* ===== verification/Schedule.v ===== *)
(** * One scheduling step

    [Scheduler.schedule] of vllm/v1/core/sched/scheduler.py and what it calls:
    the loop over the running requests with preemption, the loop over the
    waiting queues, and the construction of the step's output. *)

From Stdlib Require Import String.
From S2P Require Import Prelude Request BlockHash BlockPool KVCacheManager EncoderCache.
From S2P Require Import RequestQueue SchedUtils Scheduler.
#[local] Open Scope Z_scope.

Section schedule.
Context {K E W C EC P : Type}.
Context `{KVManager K, EncoderCacheOps E, RequestQueue W, QueueImpl W, KVConnector C P, ECConnector EC}.
#[local] Abbreviation sched := (Scheduler K E W C EC).

(** [time.monotonic()] of this step, and whether the grammar of a request has
    been compiled. *)
Context (now : Z) (grammar_ready : Z → bool).

(** ** Preemption *)

(** [(a.priority, a.arrival_time) < (b.priority, b.arrival_time)] *)
Definition preemption_key_lt (a b : Request) : bool :=
  (priority a <? priority b) || ((priority a =? priority b) && (arrival_time a <? arrival_time b)).

Fixpoint max_by_key (s : sched) (best : Z) (l : list Z) : Z :=
  match l with
  | [] => best
  | j :: l => max_by_key s (if preemption_key_lt (objs s best) (objs s j) then j else best) l
  end.

(** [max(self.running, key=lambda r: (r.priority, r.arrival_time))] *)
Definition lowest_priority (s : sched) : res Z :=
  match running s with [] => Err ValueError | i :: l => Ok (max_by_key s i l) end.

(** A preempted request that was already scheduled in this step gives its tokens
    and its encoder budget back. *)
Definition unschedule (s : sched) (t : Step) (victim : Z) : res Step :=
  let id := request_id (objs s victim) in
  rl ← ids_remove (scheduled_running_reqs t) victim;
  '(n, toks) ← od_pop (num_scheduled_tokens t) id;
  '(_, blks) ← od_pop (req_to_new_blocks t) id;
  let '(_, spec) := od_discard (scheduled_spec_decode_tokens t) id in
  let '(enc, inputs) := od_discard (scheduled_encoder_inputs t) id in
  restore ← rmap (get_num_encoder_embeds (objs s victim)) (default [] enc);
  let t := with_running_reqs t rl in
  let t := with_scheduled t toks (token_budget t + n) in
  let t := with_new_blocks t blks in
  let t := with_spec_tokens t spec in
  Ok (with_encoder_inputs t inputs (encoder_compute_budget t + foldr Z.add 0 restore)).

(** Removes the request to preempt from the running list. *)
Definition take_victim (s : sched) (t : Step) (req_index : Z) : res (Z * sched * Step * Z) :=
  match impl_policy with
  | PRIORITY =>
      victim ← lowest_priority s;
      l ← ids_remove (running s) victim;
      let s := with_running s l in
      if bool_decide (victim ∈ scheduled_running_reqs t) then
        t ← unschedule s t victim;
        Ok (victim, s, t, req_index - 1)
      else Ok (victim, s, t, req_index)
  | FCFS =>
      victim ← py_index (running s) (-1);
      Ok (victim, with_running s (py_upto (running s) (-1)), t, req_index)
  end.

(** [while True: allocate_slots ...]: every repetition preempts one request. *)
Fixpoint allocate_loop (fuel : nat) (s : sched) (t : Step) (req_index i num_new_tokens : Z)
    : res (option KVCacheBlocks * sched * Step * Z) :=
  match fuel with
  | O => Err OutOfFuel
  | S fuel =>
      '(new_blocks, k, r) ←
        kv_allocate_slots (kv_cache_manager s) (objs s i) num_new_tokens 0 None
          (num_lookahead_tokens (cfg s)) 0 false 0;
      let s := put (with_kv s k) i r in
      match new_blocks with
      | Some b => Ok (Some b, s, t, req_index)
      | None =>
          '(victim, s, t, req_index) ← take_victim s t req_index;
          s ← _preempt_request s victim now;
          let t := with_preempted t (preempted_reqs t ++ [victim]) in
          if victim =? i then Ok (None, s, t, req_index)
          else allocate_loop fuel s t req_index i num_new_tokens
      end
  end.

(** ** Running requests *)

(** The draft tokens that fit into this step. *)
Definition schedule_spec_tokens (s : sched) (t : Step) (i num_new_tokens : Z) : sched * Step :=
  let r := objs s i in
  if bool_decide (spec_token_ids r = []) then (s, t) else
  let n := num_new_tokens + num_computed_tokens r - num_tokens r - num_output_placeholders r in
  let t :=
    if 0 <? n then
      with_spec_tokens t (od_set (scheduled_spec_decode_tokens t) (request_id r)
        (if n <? zlen (spec_token_ids r) then py_upto (spec_token_ids r) n else spec_token_ids r))
    else t in
  (modify s i (λ r, with_spec_token_ids r []), t).

(** The encoder inputs chosen for a request become allocated. *)
Definition schedule_encoder (s : sched) (t : Step) (i : Z) (inputs : list Z) (new_budget : Z)
    (external : list Z) : res (sched * Step) :=
  '(s, t) ← (if bool_decide (inputs = []) then Ok (s, t) else
             let id := request_id (objs s i) in
             s ← allocate_encoder_inputs s i inputs;
             Ok (s, with_encoder_inputs t (od_set (scheduled_encoder_inputs t) id inputs) new_budget));
  s ← allocate_encoder_inputs s i external;
  Ok (s, t).

(** How many tokens of a running request may be computed, before encoder inputs
    and alignment. *)
Definition running_tokens (c : SchedConfig) (r : Request) (budget : Z) : Z :=
  let n := num_tokens_with_spec r + num_output_placeholders r - num_computed_tokens r in
  let th := long_prefill_token_threshold c in
  let n := if (0 <? th) && (th <? n) then th else n in
  let n := Z.min n budget in
  Z.min n (max_model_len c - 1 - num_computed_tokens r).

Definition schedule_running_one (s : sched) (t : Step) (req_index : Z)
    : res (flow (sched * Step * Z)) :=
  i ← py_index (running s) req_index;
  let r := objs s i in
  if (0 <? num_output_placeholders r)
     && (num_prompt_tokens r + max_tokens r
           <=? num_computed_tokens r + 2 - num_output_placeholders r) then
    Ok (Next (s, t, req_index + 1))
  else
  let n := running_tokens (cfg s) r (token_budget t) in
  '(inputs, n, new_budget, external, s) ←
    (if has_encoder_inputs r then
       _try_schedule_encoder_inputs s i (num_computed_tokens r) n (encoder_compute_budget t)
         (if use_eagle (cfg s) then 1 else 0)
     else Ok ([], n, encoder_compute_budget t, [], s));
  n ← (if need_mamba_block_aligned_split (cfg s)
       then _mamba_block_aligned_split (cfg s) r n 0 0 else Ok n);
  if n =? 0 then Ok (Next (s, t, req_index + 1)) else
  '(new_blocks, s, t, req_index) ← allocate_loop (S (length (running s))) s t req_index i n;
  match new_blocks with
  | None => Ok (Break (s, t, req_index))
  | Some b =>
      let id := request_id (objs s i) in
      let t := with_running_reqs t (scheduled_running_reqs t ++ [i]) in
      let t := with_new_blocks t (od_set (req_to_new_blocks t) id b) in
      let t := with_scheduled t (od_set (num_scheduled_tokens t) id n) (token_budget t - n) in
      let '(s, t) := schedule_spec_tokens s t i n in
      '(s, t) ← schedule_encoder s t i inputs new_budget external;
      Ok (Next (s, t, req_index + 1))
  end.

(** [while req_index < len(self.running) and token_budget > 0] *)
Fixpoint running_loop (fuel : nat) (s : sched) (t : Step) (req_index : Z) : res (sched * Step) :=
  if (req_index <? zlen (running s)) && (0 <? token_budget t) then
    match fuel with
    | O => Err OutOfFuel
    | S fuel =>
        x ← schedule_running_one s t req_index;
        match x with
        | Next (s, t, req_index) => running_loop fuel s t req_index
        | Break (s, t, _) => Ok (s, t)
        end
    end
  else Ok (s, t).

(** ** Blocked requests *)

Definition _update_waiting_for_remote_kv (s : sched) (i : Z) : res sched :=
  ASSERT bool_decide (is_Some (connector s));
  let id := request_id (objs s i) in
  s ← (if bool_decide (id ∈ failed_recving_kv_req_ids s) then
         s ← (if negb (num_computed_tokens (objs s i) =? 0) then
                '(k, r) ← kv_cache_blocks (kv_cache_manager s) (objs s i) (num_computed_tokens (objs s i));
                Ok (put (with_kv s k) i r)
              else with_kv s <$> kv_free (kv_cache_manager s) (objs s i));
         Ok (with_recving s (finished_recving_kv_req_ids s) (failed_recving_kv_req_ids s ∖ {[id]}))
       else
         '(k, r) ← kv_cache_blocks (kv_cache_manager s) (objs s i) (num_computed_tokens (objs s i));
         let r := if num_computed_tokens r =? num_tokens r
                  then with_num_computed_tokens r (num_tokens r - 1) else r in
         let r := if num_cached_tokens r <? 0
                  then with_num_cached_tokens r (num_computed_tokens r) else r in
         Ok (put (with_kv s k) i r));
  RAISE KeyError IF bool_decide (id ∉ finished_recving_kv_req_ids s);
  Ok (with_recving s (finished_recving_kv_req_ids s ∖ {[id]}) (failed_recving_kv_req_ids s)).

Definition _try_promote_blocked_waiting_request (s : sched) (i : Z) : res (bool * sched) :=
  let r := objs s i in
  match status r with
  | WAITING_FOR_REMOTE_KVS =>
      if bool_decide (request_id r ∉ finished_recving_kv_req_ids s) then Ok (false, s) else
      s ← _update_waiting_for_remote_kv s i;
      Ok (true, modify s i (λ r,
            with_status r (if num_preemptions r =? 0 then WAITING else PREEMPTED)))
  | WAITING_FOR_STRUCTURED_OUTPUT_GRAMMAR =>
      if negb (structured_output_request r && grammar_ready i) then Ok (false, s)
      else Ok (true, modify s i (λ r, with_status r WAITING))
  | WAITING_FOR_STREAMING_REQ =>
      ASSERT match streaming_queue r with None | Some [] => true | _ => false end;
      Ok (false, s)
  | _ => Err AssertionError
  end.

(** ** Waiting requests *)

(** [request_queue.pop_request(); step_skipped_waiting.prepend_request(request)] *)
Definition skip_request (s : sched) (w : which_queue) (skipped : W) (i : Z) : res (sched * W) :=
  '(_, q) ← q_pop s (queue_of s w);
  let s := with_queue_of s w q in
  skipped ← q_prepend s skipped i;
  Ok (s, skipped).

(** The cached tokens of a waiting request. *)
Record Computed := mkComputed {
  co_blocks : KVCacheBlocks;
  co_local : Z;
  co_external : Z;
  co_load_async : bool;
  co_total : Z;
  co_queries : Z;
}.

(** [None] when the connector cannot tell how many tokens it has. *)
Definition find_computed (s : sched) (i : Z) : res (option Computed * sched) :=
  let r := objs s i in
  if negb (num_computed_tokens r =? 0) then
    Ok (Some (mkComputed EmptyBlocks 0 0 false (num_computed_tokens r) 0), s)
  else
  '(blks, local, k) ← kv_get_computed_blocks (kv_cache_manager s) r;
  let s := with_kv s k in
  match connector s with
  | None =>
      ASSERT local <=? num_tokens r;
      Ok (Some (mkComputed blks local 0 false local 0), s)
  | Some c =>
      let '(ext, async, c) := kc_get_num_new_matched_tokens c r local in
      let s := with_connector s (Some c) in
      match ext with
      | None => Ok (None, s)
      | Some ext =>
          let s := modify s i (λ r, with_num_external_computed_tokens r ext) in
          ASSERT local + ext <=? num_tokens r;
          Ok (Some (mkComputed blks local ext async (local + ext) (num_tokens r - local)), s)
      end
  end.

(** The tokens to compute and the encoder inputs; [None] ends the loop. *)
Definition waiting_tokens (s : sched) (t : Step) (i : Z) (c : Computed)
    : res (option (list Z * Z * Z * list Z) * sched) :=
  let r := objs s i in
  if co_load_async c then
    ASSERT 0 <? co_external c;
    Ok (Some ([], 0, encoder_compute_budget t, []), s)
  else
  let n := num_tokens r - co_total c in
  let th := long_prefill_token_threshold (cfg s) in
  let n := if (0 <? th) && (th <? n) then th else n in
  if negb (enable_chunked_prefill (cfg s)) && (token_budget t <? n) then Ok (None, s) else
  let n := Z.min n (token_budget t) in
  ASSERT 0 <? n;
  if has_encoder_inputs r then
    '(inputs, n, budget, external, s) ←
      _try_schedule_encoder_inputs s i (co_total c) n (encoder_compute_budget t)
        (if use_eagle (cfg s) then 1 else 0);
    if n =? 0 then Ok (None, s) else Ok (Some (inputs, n, budget, external), s)
  else Ok (Some ([], n, encoder_compute_budget t, []), s).

(** Untouches the encoder cache of a request that cannot be scheduled. *)
Definition drop_encoder_refs (s : sched) (i : Z) : res sched :=
  if has_encoder_inputs (objs s i) then
    with_encoder s <$> ec_free (encoder_cache_manager s) (objs s i)
  else Ok s.

(** The capacity checks and the allocation; [false] ends the loop. *)
Definition allocate_waiting (s : sched) (i : Z) (c : Computed) (n : Z) (inputs : list Z)
    : res (bool * sched) :=
  let r := objs s i in
  let effective_lookahead_tokens :=
    if num_computed_tokens r =? 0 then 0 else num_lookahead_tokens (cfg s) in
  num_encoder_tokens ←
    (if is_encoder_decoder (cfg s) && has_encoder_inputs r then
       l ← rmap (get_num_encoder_embeds r) inputs; Ok (foldr Z.add 0 l)
     else Ok 0);
  '(fits, s) ← (if scheduler_reserve_full_isl (cfg s) then
                  '(b, k) ← kv_can_fit_full_sequence (kv_cache_manager s) r (co_local c)
                              (Some (co_blocks c)) (co_external c) num_encoder_tokens;
                  Ok (b, with_kv s k)
                else Ok (true, s));
  if negb fits then s ← drop_encoder_refs s i; Ok (false, s) else
  '(new_blocks, k, r) ←
    kv_allocate_slots (kv_cache_manager s) r n (co_local c) (Some (co_blocks c))
      effective_lookahead_tokens (co_external c) (co_load_async c) num_encoder_tokens;
  let s := put (with_kv s k) i r in
  match new_blocks with
  | None => s ← drop_encoder_refs s i; Ok (false, s)
  | Some _ =>
      match connector s with
      | None => Ok (true, s)
      | Some cn =>
          let cn := kc_update_state_after_alloc cn (objs s i)
                      (kv_get_blocks (kv_cache_manager s) (request_id r)) (co_external c) in
          let s := with_connector s (Some cn) in
          Ok (true,
              if co_queries c =? 0 then s else
              with_connector_stats s ((λ st, record_stats st (co_queries c) (co_external c)
                                         (0 <? num_preemptions r)) <$> connector_prefix_cache_stats s))
      end
  end.

(** The request moves to the running list. *)
Definition start_request (s : sched) (t : Step) (i : Z) (id : string) (c : Computed) (n : Z)
    : res (sched * Step) :=
  let s := with_running s (running s ++ [i]) in
  let s := if log_stats (cfg s) then modify s i (λ r, record_event r SCHEDULED now) else s in
  t ← match status (objs s i) with
      | WAITING => Ok (with_new t (scheduled_new_reqs t ++ [i]))
      | PREEMPTED => Ok (with_resumed t (scheduled_resumed_reqs t ++ [i]))
      | _ => Err RuntimeError
      end;
  let t := match max_loras (cfg s), lora_request (objs s i) with
           | Some _, Some l => with_loras t ({[lora_int_id l]} ∪ scheduled_loras t)
           | _, _ => t
           end in
  let t := with_new_blocks t (od_set (req_to_new_blocks t) id (kv_get_blocks (kv_cache_manager s) id)) in
  let t := with_scheduled t (od_set (num_scheduled_tokens t) id n) (token_budget t - n) in
  let s := modify s i (λ r,
    let r := with_num_computed_tokens (with_status r RUNNING) (co_total c) in
    if num_cached_tokens r <? 0 then with_num_cached_tokens r (co_total c) else r) in
  Ok (s, t).

(** Adding the request would exceed [max_loras]. *)
Definition lora_blocked (s : sched) (t : Step) (i : Z) : bool :=
  match max_loras (cfg s), lora_request (objs s i) with
  | Some m, Some l =>
      (Z.of_nat (size (scheduled_loras t)) =? m) && bool_decide (lora_int_id l ∉ scheduled_loras t)
  | _, _ => false
  end.

(** The turn of the ready request [i] at the head of queue [w]; [id] is its
    [request_id]. *)
Definition serve_waiting (s : sched) (t : Step) (skipped : W) (w : which_queue) (i : Z) (id : string)
    : res (flow (sched * Step * W)) :=
  '(c, s) ← find_computed s i;
  match c with
  | None => '(s, skipped) ← skip_request s w skipped i; Ok (Next (s, t, skipped))
  | Some c =>
      '(x, s) ← waiting_tokens s t i c;
      match x with
      | None => Ok (Break (s, t, skipped))
      | Some (inputs, n, new_budget, external) =>
          n ← (if need_mamba_block_aligned_split (cfg s)
               then _mamba_block_aligned_split (cfg s) (objs s i) n (co_local c) (co_external c)
               else Ok n);
          if need_mamba_block_aligned_split (cfg s) && (n =? 0) then Ok (Break (s, t, skipped))
          else
          '(allocated, s) ← allocate_waiting s i c n inputs;
          if negb allocated then Ok (Break (s, t, skipped)) else
          '(i, q) ← q_pop s (queue_of s w);
          let s := with_queue_of s w q in
          if co_load_async c then
            let s := modify s i (λ r, with_status r WAITING_FOR_REMOTE_KVS) in
            skipped ← q_prepend s skipped i;
            Ok (Next (modify s i (λ r, with_num_computed_tokens r (co_total c)), t, skipped))
          else
          '(s, t) ← start_request s t i id c n;
          '(s, t) ← schedule_encoder s t i inputs new_budget external;
          Ok (Next (s, t, skipped))
      end
  end.

Definition schedule_waiting_one (s : sched) (t : Step) (skipped : W)
    : res (flow (sched * Step * W)) :=
  if zlen (running s) =? max_num_running_reqs (cfg s) then Ok (Break (s, t, skipped)) else
  w ← _select_waiting_queue_for_scheduling s;
  match w with
  | None => Err AssertionError
  | Some w =>
      i ← q_peek s (queue_of s w);
      let id := request_id (objs s i) in
      '(ready, s) ← (if _is_blocked_waiting_status (status (objs s i))
                     then _try_promote_blocked_waiting_request s i else Ok (true, s));
      if negb ready || lora_blocked s t i then
        '(s, skipped) ← skip_request s w skipped i; Ok (Next (s, t, skipped))
      else
      serve_waiting s t skipped w i id
  end.

(** [while (self.waiting or self.skipped_waiting) and token_budget > 0]: every
    repetition but the last pops a request. *)
Fixpoint waiting_loop (fuel : nat) (s : sched) (t : Step) (skipped : W) : res (sched * Step * W) :=
  if (negb (q_empty (waiting_q s)) || negb (q_empty (skipped_waiting s))) && (0 <? token_budget t) then
    match fuel with
    | O => Err OutOfFuel
    | S fuel =>
        x ← schedule_waiting_one s t skipped;
        match x with
        | Next (s, t, skipped) => waiting_loop fuel s t skipped
        | Break x => Ok x
        end
    end
  else Ok (s, t, skipped).

Definition waiting_fuel (s : sched) : nat :=
  Z.to_nat (queue_len (waiting_q s) + queue_len (skipped_waiting s)).

(** ** The step's output *)

Fixpoint _make_cached_request_data (s : sched) (t : Step) (num_running_reqs : Z) (idx : Z)
    (reqs : list Z) (acc : CachedRequestData) : res CachedRequestData :=
  match reqs with
  | [] => Ok acc
  | i :: reqs =>
      let r := objs s i in
      let id := request_id r in
      toks ← (if use_pp (cfg s) && negb (async_scheduling (cfg s)) then
                n ← od_index (num_scheduled_tokens t) id;
                let n := n - zlen (default [] (od_get (scheduled_spec_decode_tokens t) id)) in
                Ok (cr_new_token_ids acc
                      ++ [py_slice (all_token_ids r) (num_computed_tokens r) (num_computed_tokens r + n)])
              else Ok (cr_new_token_ids acc));
      let scheduled_in_prev_step := bool_decide (id ∈ prev_step_scheduled_req_ids s) in
      ASSERT negb ((num_running_reqs <=? idx) && scheduled_in_prev_step);
      blks ← od_index (req_to_new_blocks t) id;
      _make_cached_request_data s t num_running_reqs (idx + 1) reqs
        (mkCachedRequestData (cr_req_ids acc ++ [id])
           (if num_running_reqs <=? idx then {[id]} ∪ resumed_req_ids acc else resumed_req_ids acc)
           toks
           (if scheduled_in_prev_step then cr_all_token_ids acc
            else od_set (cr_all_token_ids acc) id (all_token_ids r))
           (cr_new_block_ids acc ++ [kv_block_ids (kv_cache_manager s) blks true])
           (cr_num_computed_tokens acc ++ [num_computed_tokens r])
           (cr_num_output_tokens acc ++ [num_output_tokens r + num_output_placeholders r]))
  end.

Definition make_new_reqs_data (s : sched) (t : Step) (reqs : list Z) : res (list NewRequestData) :=
  rmap (λ i,
    let r := objs s i in
    blks ← od_index (req_to_new_blocks t) (request_id r);
    Ok (new_request_data r (default [] (kv_block_ids (kv_cache_manager s) blks false))
          (if use_v2_model_runner (cfg s) then Some (all_token_ids r) else None))) reqs.

(** The body of the loop of [_update_after_schedule]. *)
Definition after_schedule_step (x : sched * SchedulerOutput) (e : string * Z)
    : res (sched * SchedulerOutput) :=
  let '(s, o) := x in
  let '(id, n) := e in
  i ← od_index (requests s) id;
  let s := modify s i (λ r,
    let r := with_num_computed_tokens r (num_computed_tokens r + n) in
    with_is_prefill_chunk r
      (num_computed_tokens r <? num_tokens r + num_output_placeholders r)) in
  let r := objs s i in
  let o := with_structured o
             (has_structured_output_requests o
              || (use_structured_output r && negb (is_prefill_chunk r)))
             (pending_structured_output_tokens o) in
  s ← (if has_encoder_inputs r then _free_encoder_inputs s i else Ok s);
  Ok (s, o).

Definition _update_after_schedule (s : sched) (o : SchedulerOutput) : res (sched * SchedulerOutput) :=
  '(s, o) ← rfold after_schedule_step (s, o) (so_num_scheduled_tokens o);
  Ok (with_finished s ∅ (finished_req_ids_dict s), o).

(** The LoRAs of the scheduled running requests. *)
Definition running_loras (s : sched) (t : Step) : gset Z :=
  list_to_set (omap (λ i, l ← lora_request (objs s i);
                          if 0 <? lora_int_id l then Some (lora_int_id l) else None)
                 (scheduled_running_reqs t)).

Definition empty_step (budget encoder_budget : Z) : Step :=
  mkStep [] [] [] [] [] [] budget [] encoder_budget [] ∅.

(** The requests chosen in this step: both loops. *)
Definition select_requests (s : sched) : res (sched * Step) :=
  let budget := match pause_state s with PAUSED_ALL => 0 | _ => max_num_scheduled_tokens (cfg s) end in
  let t := empty_step budget (max_num_encoder_input_tokens (cfg s)) in
  let s := with_kv s (kv_new_step_starts (kv_cache_manager s)) in
  '(s, t) ← running_loop (length (running s)) s t 0;
  t ← match max_loras (cfg s) with
      | None => Ok t
      | Some m =>
          ASSERT Z.of_nat (size (running_loras s t)) <=? m;
          Ok (with_loras t (running_loras s t))
      end;
  if bool_decide (preempted_reqs t = []) && bool_decide (pause_state s = UNPAUSED) then
    '(s, t, skipped) ← waiting_loop (waiting_fuel s) s t new_queue;
    s ← (if q_empty skipped then Ok s
         else with_skipped s <$> q_prepend_all s (skipped_waiting s) skipped);
    Ok (s, t)
  else Ok (s, t).

(** The final assertions of the step. *)
Definition constraints_hold (s : sched) (t : Step) : bool :=
  (foldr Z.add 0 (num_scheduled_tokens t).*2 <=? max_num_scheduled_tokens (cfg s))
  && (0 <=? token_budget t)
  && (zlen (running s) <=? max_num_running_reqs (cfg s))
  && (zlen (scheduled_new_reqs t) + zlen (scheduled_resumed_reqs t) + zlen (scheduled_running_reqs t)
        <=? zlen (running s)).

Definition build_output (s : sched) (t : Step) : res (SchedulerOutput * sched) :=
  '(common, s) ← match running s with
                 | [] => Ok (zreplicate (num_kv_groups (cfg s)) 0, s)
                 | i :: _ =>
                     '(l, k) ← kv_num_common_prefix_blocks (kv_cache_manager s) (request_id (objs s i));
                     Ok (l, with_kv s k)
                 end;
  let t := if use_v2_model_runner (cfg s)
           then with_resumed (with_new t (scheduled_new_reqs t ++ scheduled_resumed_reqs t)) [] else t in
  new_reqs_data ← make_new_reqs_data s t (scheduled_new_reqs t);
  cached_reqs_data ←
    _make_cached_request_data s t (zlen (scheduled_running_reqs t)) 0
      (scheduled_running_reqs t ++ scheduled_resumed_reqs t)
      (mkCachedRequestData [] ∅ [] [] [] [] []);
  let s := with_prev_step s (list_to_set (num_scheduled_tokens t).*1) in
  let '(zero, s) :=
    if needs_kv_cache_zeroing (cfg s) then
      let '(l, k) := kv_take_new_block_ids (kv_cache_manager s) in
      (if bool_decide (l = []) then None else Some l, with_kv s k)
    else (None, s) in
  let '(freed, e) := ec_get_freed_mm_hashes (encoder_cache_manager s) in
  let s := with_encoder s e in
  let o := mkOutput new_reqs_data cached_reqs_data (num_scheduled_tokens t)
             (foldr Z.add 0 (num_scheduled_tokens t).*2) (scheduled_spec_decode_tokens t)
             (scheduled_encoder_inputs t) common (finished_req_ids s) freed
             (list_to_set ((λ i, request_id (objs s i)) <$> preempted_reqs t)) false false None zero in
  let s := with_connector s ((λ c, kc_build_connector_meta c o) <$> connector s) in
  let s := with_ec_connector s ((λ c, ecc_build_connector_meta c o) <$> ec_connector s) in
  Ok (o, s).

(** [update_after] is the method of the class of the scheduler. *)
Definition schedule (update_after : sched → SchedulerOutput → res (sched * SchedulerOutput))
    (s : sched) : res (SchedulerOutput * sched) :=
  '(s, t) ← select_requests s;
  ASSERT constraints_hold s t;
  '(o, s) ← build_output s t;
  '(s, o) ← update_after s o;
  Ok (o, s).
End schedule.
