(* ===== verification/SchedUpdate.v ===== *)
(** * Requests entering, progressing and leaving

    The other methods of [Scheduler]: adding and finishing requests, streaming
    sessions, processing the model's output, draft tokens, KV transfers and
    their failures, cache resets and statistics; and the overrides of
    [AsyncScheduler] (async_scheduler.py). *)

From Stdlib Require Import String QArith.
From S2P Require Import Prelude Request BlockHash Metrics BlockPool KVCacheManager EncoderCache.
From S2P Require Import RequestQueue SchedUtils Scheduler Schedule.
#[local] Open Scope Z_scope.

(** [SpecDecodingStats] of vllm/v1/spec_decode/metrics.py. *)
Record SpecDecodingStats := mkSpecStats {
  sd_num_spec_tokens : Z;
  num_drafts : Z;
  num_draft_tokens : Z;
  num_accepted_tokens : Z;
  num_accepted_tokens_per_pos : list Z;
}.

Definition spec_stats_new (n : Z) : SpecDecodingStats := mkSpecStats n 0 0 0 (zreplicate n 0).

Definition observe_draft (d : SpecDecodingStats) (drafted accepted : Z) : res SpecDecodingStats :=
  ASSERT accepted <=? sd_num_spec_tokens d;
  pos ← rfold (λ l i, x ← py_index l i; py_set l i (x + 1)) (num_accepted_tokens_per_pos d)
          (zrange 0 accepted);
  Ok (mkSpecStats (sd_num_spec_tokens d) (num_drafts d + 1) (num_draft_tokens d + drafted)
        (num_accepted_tokens d + accepted) pos).

(** The fields of [SchedulerStats] the scheduler fills from its own state. *)
Record SchedulerStats := mkSchedulerStats {
  ss_num_running_reqs : Z;
  ss_num_waiting_reqs : Z;
  ss_kv_cache_usage : Q;
  ss_encoder_cache_usage : Q;
  ss_prefix_cache_stats : PrefixCacheStats;
  ss_connector_prefix_cache_stats : option PrefixCacheStats;
  ss_kv_cache_eviction_events : list KVCacheEvictionEvent;
  ss_spec_decoding_stats : option SpecDecodingStats;
}.

(** The fields of [ModelRunnerOutput] that decide what happens to a request.
    Tensors are left out: [has_pooler_output] and [has_prompt_logprobs] say
    where there is one. *)
Record ModelRunnerOutput := mkModelOutput {
  req_id_to_index : list (string * Z);
  sampled_token_ids : list (list Z);
  has_pooler_output : list bool;
  has_prompt_logprobs : gset string;
  mo_num_nans_in_logits : option (list (string * Z));
  kv_connector_output : option KVConnectorOutput;
}.

(** [EngineCoreOutput] without its tensors. *)
Record EngineCoreOutput (P : Type) := mkEngineOutput {
  eo_request_id : string;
  eo_new_token_ids : list Z;
  eo_finish_reason : option FinishReason;
  eo_stop_reason : option StopReason;
  eo_events : option (list (EngineCoreEventType * Z));
  eo_kv_transfer_params : option P;
  eo_num_cached_tokens : Z;
  eo_num_external_computed_tokens : Z;
  eo_num_nans_in_logits : Z;
}.
Arguments mkEngineOutput {P}.
Arguments eo_request_id {P}.
Arguments eo_new_token_ids {P}.
Arguments eo_finish_reason {P}.
Arguments eo_stop_reason {P}.
Arguments eo_kv_transfer_params {P}.

(** [EngineCoreOutputs] of one client. *)
Record EngineCoreOutputs (P : Type) := mkEngineOutputs {
  eos_outputs : list (EngineCoreOutput P);
  eos_finished_requests : option (gset string);
  eos_scheduler_stats : option SchedulerStats;
}.
Arguments mkEngineOutputs {P}.
Arguments eos_outputs {P}.
Arguments eos_finished_requests {P}.

Section update.
Context {K E W C EC P : Type}.
Context `{KVManager K, EncoderCacheOps E, RequestQueue W, QueueImpl W, KVConnector C P, ECConnector EC}.
#[local] Abbreviation sched := (Scheduler K E W C EC).

(** The block hasher of the requests, whether the grammar of a request advances,
    the longest prefix of draft tokens a grammar accepts, and the clock. *)
Context (hasher : option block_hasher) (should_advance : Request → bool)
        (validate_tokens : Request → list Z → list Z) (now : Z).

(** ** Finishing *)

(** Whether the connector delays the release of the blocks, and its parameters. *)
Definition _connector_finished (s : sched) (i : Z) : res (bool * option P * sched) :=
  match connector s with
  | None => Ok (false, None, s)
  | Some c =>
      let r := objs s i in
      k ← kv_remove_skipped_blocks (kv_cache_manager s) (request_id r) (num_tokens r);
      let s := with_kv s k in
      let ids := default [] (kv_block_ids k (kv_get_blocks k (request_id r)) false) in
      if negb kc_supports_hma then
        ASSERT num_kv_groups (cfg s) =? 1;
        ids0 ← py_index ids 0;
        let '(delay, params, c) := kc_request_finished c r ids0 in
        Ok (delay, params, with_connector s (Some c))
      else
        let '(delay, params, c) := kc_request_finished_all_groups c r ids in
        Ok (delay, params, with_connector s (Some c))
  end.

Definition _free_blocks (s : sched) (i : Z) : res sched :=
  ASSERT is_finished (objs s i);
  k ← kv_free (kv_cache_manager s) (objs s i);
  '(_, d) ← od_pop (requests s) (request_id (objs s i));
  Ok (with_requests (with_kv s k) d).

Definition _free_request (s : sched) (i : Z) (delay_free_blocks : bool) : res (option P * sched) :=
  ASSERT is_finished (objs s i);
  '(connector_delay, params, s) ← _connector_finished s i;
  e ← ec_free (encoder_cache_manager s) (objs s i);
  let s := with_encoder s e in
  let id := request_id (objs s i) in
  let client := client_index (objs s i) in
  let s := with_finished s ({[id]} ∪ finished_req_ids s)
             ((λ d : gmap Z (gset string), <[client := {[id]} ∪ default ∅ (d !! client)]> d)
                <$> finished_req_ids_dict s) in
  s ← (if negb (delay_free_blocks || connector_delay) then _free_blocks s i else Ok s);
  Ok (params, s).

(** [self.requests.get(id)] when it is neither [None] nor finished. *)
Definition live_request (s : sched) (id : string) : option Z :=
  i ← od_get (requests s) id;
  if is_finished (objs s i) then None else Some i.

(** The first pass of [finish_requests]: the requests to remove from the running
    list, those to remove from the queues, and all of them. *)
Fixpoint collect_requests (s : sched) (ids : list string) : list Z * list Z * list Z * Z :=
  match ids with
  | [] => ([], [], [], num_waiting_for_streaming_input s)
  | id :: ids =>
      match live_request s id with
      | None => collect_requests s ids
      | Some i =>
          let '(run, wait, valid, n) := collect_requests s ids in
          if bool_decide (status (objs s i) = RUNNING) then (i :: run, wait, i :: valid, n)
          else (run, i :: wait, i :: valid,
                if bool_decide (status (objs s i) = WAITING_FOR_STREAMING_REQ) then n - 1 else n)
      end
  end.

(** The second pass. *)
Definition finish_one (finished_status : RequestStatus) (s : sched) (i : Z) : res sched :=
  let id := request_id (objs s i) in
  let '(delay, s) :=
    if bool_decide (status (objs s i) = WAITING_FOR_REMOTE_KVS) then
      (bool_decide (id ∉ finished_recving_kv_req_ids s),
       with_recving s (finished_recving_kv_req_ids s ∖ {[id]}) (failed_recving_kv_req_ids s ∖ {[id]}))
    else (false, s) in
  let s := modify s i (λ r, with_status r finished_status) in
  '(_, s) ← _free_request s i delay;
  Ok s.

(** [request_ids] lists the ids in the order in which the set is iterated;
    [None] stands for all requests. *)
Definition finish_requests (s : sched) (request_ids : option (list string))
    (finished_status : RequestStatus) : res (list (string * Z) * sched) :=
  ASSERT status_is_finished finished_status;
  let ids := match request_ids with Some l => l | None => (requests s).*1 end in
  let '(run, wait, valid, n) := collect_requests s ids in
  let s := with_streaming_count s n in
  let s := with_running s (remove_all (running s) (list_to_set run)) in
  s ← (if bool_decide (wait = []) then Ok s else
       q1 ← q_remove_all s (waiting_q s) wait;
       let s := with_waiting s q1 in
       with_skipped s <$> q_remove_all s (skipped_waiting s) wait);
  s ← rfold (finish_one finished_status) s valid;
  Ok ((λ i, (request_id (objs s i), client_index (objs s i))) <$> valid, s).

(** ** Streaming sessions *)

Definition shift_feature (base : Z) (f : MultiModalFeatureSpec) : MultiModalFeatureSpec :=
  mkFeature (identifier f)
    (mkRange (pr_offset (mm_position f) + base) (pr_length (mm_position f)) (is_embed (mm_position f))).

(** The session's next input chunk; the last sampled token is discarded. *)
Definition session_request (r : Request) (u : StreamingUpdate) : res Request :=
  let computed := num_computed_tokens r in
  let kept := py_slice (all_token_ids r) (num_prompt_tokens r) computed in
  let r := with_tokens r [] (py_upto (all_token_ids r) computed) in
  match prompt_token_ids r with
  | None => Err AssertionError
  | Some prompt =>
      let r := match su_mm_features u with
               | None | Some [] => r
               | Some fs => with_mm_features r (mm_features r ++ (shift_feature (num_tokens r) <$> fs))
               end in
      let new := default [] (su_prompt_token_ids u) in
      let prompt := prompt ++ kept ++ new in
      let r := with_tokens r [] (all_token_ids r ++ new) in
      let r := with_prompt r (Some prompt) (num_prompt_tokens r) in
      r ← update_block_hashes hasher r;
      let r := with_prompt r (Some prompt) (zlen prompt) in
      Ok (with_arrival r (su_arrival_time u) (su_sampling_params u))
  end.

Definition _update_request_as_session (s : sched) (i : Z) (u : StreamingUpdate) : res sched :=
  r ← session_request (objs s i) u;
  let s := if bool_decide (status r = WAITING_FOR_STREAMING_REQ)
           then with_streaming_count s (num_waiting_for_streaming_input s - 1) else s in
  let r := with_status r WAITING in
  Ok (put s i (if log_stats (cfg s) then record_event r QUEUED now else r)).

(** Returns whether the request is finished. *)
Definition _handle_stopped_request (s : sched) (i : Z) : res (bool * sched) :=
  let r := objs s i in
  if negb (resumable r) then Ok (true, s) else
  match streaming_queue r with
  | Some (None :: q) => Ok (true, modify s i (λ r, with_streaming_queue r (Some q)))
  | Some (Some u :: q) =>
      s ← _update_request_as_session (modify s i (λ r, with_streaming_queue r (Some q))) i u;
      s ← _enqueue_waiting_request s i;
      Ok (false, s)
  | Some [] | None =>
      let s := modify s i (λ r, with_status r WAITING_FOR_STREAMING_REQ) in
      let s := with_streaming_count s (num_waiting_for_streaming_input s + 1) in
      s ← _enqueue_waiting_request s i;
      Ok (false, s)
  end.

Definition sched_add_request (s : sched) (i : Z) : res sched :=
  let r := objs s i in
  match od_get (requests s) (request_id r) with
  | Some j =>
      let update := update_from_request r in
      if bool_decide (status (objs s j) ≠ WAITING_FOR_STREAMING_REQ) then
        match streaming_queue (objs s j) with
        | None => Err AssertionError
        | Some q => Ok (modify s j (λ x, with_streaming_queue x (Some (q ++ [update]))))
        end
      else
        match update with
        | Some u => _update_request_as_session s j u
        | None => '(_, s) ← finish_requests s (Some [request_id r]) FINISHED_ABORTED; Ok s
        end
  | None =>
      let s := if resumable r then modify s i (λ x, with_streaming_queue x (Some [])) else s in
      s ← _enqueue_waiting_request s i;
      let s := with_requests s (od_set (requests s) (request_id r) i) in
      Ok (if log_stats (cfg s) then modify s i (λ x, record_event x QUEUED now) else s)
  end.

(** ** The model's output *)

(** [for num_new, output_token_id in enumerate(new_token_ids, 1)] *)
Fixpoint append_until_stop (r : Request) (max_len : Z) (done todo : list Z)
    : res (list Z * bool * Request) :=
  match todo with
  | [] => Ok (done, false, r)
  | t :: todo =>
      r ← append_output_token_ids hasher r [t];
      '(stopped, r) ← check_stop r max_len;
      if stopped : bool then Ok (done ++ [t], true, r)
      else append_until_stop r max_len (done ++ [t]) todo
  end.

Definition _update_request_with_output (s : sched) (i : Z) (new_token_ids : list Z)
    : res (list Z * bool * sched) :=
  '(toks, stopped, r) ← append_until_stop (objs s i) (max_model_len (cfg s)) [] new_token_ids;
  Ok (toks, stopped, put s i r).

Definition make_spec_decoding_stats (s : sched) (d : option SpecDecodingStats)
    (drafted accepted : Z) (invalid : option (list (string * Z))) (id : string)
    : res (option SpecDecodingStats) :=
  if negb (log_stats (cfg s)) || (drafted =? 0) then Ok None else
  let d := default (spec_stats_new (num_spec_tokens (cfg s))) d in
  let drafted := match invalid with
                 | None | Some [] => drafted
                 | Some l => drafted - default 0 (od_get l id)
                 end in
  Some <$> observe_draft d drafted accepted.

(** Rejected draft tokens are taken back. *)
Definition account_rejected (s : sched) (i : Z) (rejected : Z) : sched :=
  modify s i (λ r,
    let r := if 0 <? num_computed_tokens r
             then with_num_computed_tokens r (num_computed_tokens r - rejected) else r in
    if 0 <? num_output_placeholders r
    then with_num_output_placeholders r (num_output_placeholders r - rejected) else r).

(** The state of the loop of [update_from_output]. *)
Record UpdateLoop := mkUpdateLoop {
  ul_outputs : list (Z * EngineCoreOutput P);
  ul_spec : option SpecDecodingStats;
  ul_running : list Z;
  ul_preempted : list Z;
}.

(** A dispatched method: [update_output] is [_update_request_with_output] of the
    class of the scheduler. *)
Context (update_output : sched → Z → list Z → res (list Z * bool * sched)).

(** A request that stopped leaves the scheduler unless its session goes on. *)
Definition finish_stopped (s : sched) (i : Z) : res (option FinishReason * option P * sched) :=
  let reason := get_finished_reason (status (objs s i)) in
  '(finished, s) ← _handle_stopped_request s i;
  '(params, s) ← (if finished : bool then _free_request s i false else Ok (None, s));
  Ok (reason, params, s).

(** The output of one scheduled request. *)
Definition update_one (o : SchedulerOutput) (m : ModelRunnerOutput) (failed : gset string)
    (sl : sched * UpdateLoop) (x : string * Z) : res (sched * UpdateLoop) :=
  let '(s, l) := sl in
  let '(id, num_tokens_scheduled) := x in
  ASSERT 0 <? num_tokens_scheduled;
  if bool_decide (id ∈ failed) then Ok (s, l) else
  match live_request s id with
  | None => Ok (s, l)
  | Some i =>
      req_index ← od_index (req_id_to_index m) id;
      generated ← (if bool_decide (sampled_token_ids m = []) then Ok []
                   else py_index (sampled_token_ids m) req_index);
      let drafts := default [] (od_get (so_scheduled_spec_decode_tokens o) id) in
      '(s, spec) ←
        (if bool_decide (drafts = []) || bool_decide (generated = []) then Ok (s, ul_spec l) else
         let accepted := zlen generated - 1 in
         let s := account_rejected s i (zlen drafts - accepted) in
         spec ← make_spec_decoding_stats s (ul_spec l) (zlen drafts) accepted
                  (num_invalid_spec_tokens o) id;
         Ok (s, spec));
      pooled ← (if bool_decide (has_pooler_output m = []) then Ok false
                else py_index (has_pooler_output m) req_index);
      let status_before_stop := status (objs s i) in
      '(toks, stopped, s) ←
        (if negb (bool_decide (generated = [])) then update_output s i generated
         else if bool_decide (is_Some (pooling_params (objs s i))) && (pooled : bool) then
           Ok (generated, true, modify s i (λ r, with_status r FINISHED_STOPPED))
         else Ok (generated, false, s));
      '(reason, params, s) ← (if stopped : bool then finish_stopped s i else Ok (None, None, s));
      let l := mkUpdateLoop (ul_outputs l) spec
                 (if stopped && bool_decide (status_before_stop = RUNNING)
                  then ul_running l ++ [i] else ul_running l)
                 (if stopped && negb (bool_decide (status_before_stop = RUNNING))
                  then ul_preempted l ++ [i] else ul_preempted l) in
      let s := match mo_num_nans_in_logits m ≫= λ d, od_get d id with
               | Some n => modify s i (λ r, with_num_nans_in_logits r n)
               | None => s
               end in
      if negb (bool_decide (toks = [])) || pooled || bool_decide (is_Some params) || stopped then
        let '(events, r) := take_request_events (objs s i) in
        let s := put s i r in
        Ok (s, mkUpdateLoop
                 (ul_outputs l ++ [(client_index r,
                    mkEngineOutput id toks reason (stop_reason r) events params
                      (num_cached_tokens r) (num_external_computed_tokens r) (num_nans_in_logits r))])
                 (ul_spec l) (ul_running l) (ul_preempted l))
      else
        ASSERT bool_decide (id ∉ has_prompt_logprobs m);
        Ok (s, l)
  end.

(** ** KV transfers *)

Definition _update_from_kv_xfer_finished (s : sched) (ko : KVConnectorOutput) : res sched :=
  let s := with_connector s ((λ c, kc_update_connector_output c ko) <$> connector s) in
  s ← rfold (λ s id,
        match od_get (requests s) id with
        | None => Err AssertionError
        | Some i =>
            if bool_decide (status (objs s i) = WAITING_FOR_REMOTE_KVS) then
              Ok (with_recving s ({[id]} ∪ finished_recving_kv_req_ids s) (failed_recving_kv_req_ids s))
            else ASSERT is_finished (objs s i); _free_blocks s i
        end) s (default [] (finished_recving ko));
  rfold (λ s id,
    match od_get (requests s) id with
    | None => Err AssertionError
    | Some i => _free_blocks s i
    end) s (default [] (finished_sending ko)).

(** The variables of the scan of one request's blocks. *)
Record InvalidScan := mkScan {
  is_affected : bool;
  marked_invalid_block : bool;
  marked_invalid_block_ids : gset Z;
  total_affected_tokens : Z;
  blocks_to_evict : gset Z;
  scan_request : Request;
}.

Definition scan_block (bs computed : Z) (block_ids : list Z) (invalid : gset Z) (evict : bool)
    (c : InvalidScan) (x : Z * Z) : InvalidScan :=
  let '(idx, b) := x in
  if negb (bool_decide (b ∈ invalid)) then c else
  if bool_decide (b ∈ marked_invalid_block_ids c) then
    mkScan true (marked_invalid_block c) (marked_invalid_block_ids c) (total_affected_tokens c)
      (blocks_to_evict c) (scan_request c)
  else
  let marked := {[b]} ∪ marked_invalid_block_ids c in
  if marked_invalid_block c then
    mkScan true true marked (total_affected_tokens c) (blocks_to_evict c) (scan_request c)
  else
  let r := with_num_computed_tokens (scan_request c) (idx * bs) in
  let affected := computed - num_computed_tokens r in
  mkScan true true marked (total_affected_tokens c + affected)
    (if evict then list_to_set (py_from block_ids idx) ∪ blocks_to_evict c else blocks_to_evict c)
    (with_num_external_computed_tokens r (num_external_computed_tokens r - affected)).

(** One request of [_update_requests_with_invalid_blocks]; the accumulators are the
    marked blocks, the affected ids, the affected tokens and the blocks to evict. *)
Definition invalidate_one (invalid : gset Z) (scheduled : list (string * Z)) (evict : bool)
    (acc : sched * gset Z * gset string * Z * gset Z) (i : Z)
    : res (sched * gset Z * gset string * Z * gset Z) :=
  let '(s, marked, ids, total, blks) := acc in
  let r := objs s i in
  let id := request_id r in
  match default [] (kv_block_ids (kv_cache_manager s) (kv_get_blocks (kv_cache_manager s) id) false) with
  | [block_ids] =>
      let computed := num_computed_tokens r - default 0 (od_get scheduled id) in
      n ← py_div (computed + sched_block_size (cfg s) - 1) (sched_block_size (cfg s));
      let c := foldl (scan_block (sched_block_size (cfg s)) computed block_ids invalid evict)
                 (mkScan false false marked total blks r) (zip (zrange 0 n) block_ids) in
      if negb (is_affected c) then
        Ok (s, marked_invalid_block_ids c, ids, total_affected_tokens c, blocks_to_evict c)
      else
      let r := scan_request c in
      let '(total, r) :=
        if marked_invalid_block c then (total_affected_tokens c, r)
        else (total_affected_tokens c + (num_computed_tokens r - computed),
              with_num_computed_tokens r computed) in
      Ok (put s i r, marked_invalid_block_ids c, {[id]} ∪ ids, total, blocks_to_evict c)
  | _ => Err ValueError
  end.

Definition _update_requests_with_invalid_blocks (s : sched) (reqs : list Z) (invalid : gset Z)
    (scheduled : list (string * Z)) (evict : bool) : res (gset string * Z * gset Z * sched) :=
  '(s, _, ids, total, blks) ←
    rfold (invalidate_one invalid scheduled evict) (s, ∅, ∅, 0, ∅) reqs;
  Ok (ids, total, blks, s).

Definition _handle_invalid_blocks (s : sched) (invalid : gset Z) (scheduled : list (string * Z))
    : res (gset string * sched) :=
  waiting ← queue_iter (current s (skipped_waiting s));
  let async_reqs := object_id <$> filter (λ r, status r = WAITING_FOR_REMOTE_KVS) waiting in
  '(async_failed, _, _, s) ←
    _update_requests_with_invalid_blocks s async_reqs invalid scheduled false;
  '(sync_failed, _, to_evict, s) ←
    _update_requests_with_invalid_blocks s (running s) invalid scheduled true;
  if bool_decide (async_failed = ∅) && bool_decide (sync_failed = ∅) then Ok (∅, s) else
  let recompute := recompute_kv_load_failures (cfg s) in
  s ← (if negb (bool_decide (to_evict = ∅)) && negb recompute
       then with_kv s <$> kv_evict_blocks (kv_cache_manager s) (elements to_evict) else Ok s);
  if negb recompute then Ok (async_failed ∪ sync_failed, s)
  else Ok (sync_failed,
           with_recving s (finished_recving_kv_req_ids s) (failed_recving_kv_req_ids s ∪ async_failed)).

(** ** Statistics *)

Definition _get_encoder_cache_usage (s : sched) : Q :=
  let e := encoder_cache_manager s in
  if ec_cache_size e =? 0 then 0%Q
  else (inject_Z (ec_cache_size e - ec_num_free_slots e) / inject_Z (ec_cache_size e))%Q.

Definition make_stats (s : sched) (spec : option SpecDecodingStats)
    : res (option SchedulerStats * sched) :=
  if negb (log_stats (cfg s)) then Ok (None, s) else
  let '(prefix, k) := kv_make_prefix_cache_stats (kv_cache_manager s) in
  match prefix with
  | None => Err AssertionError
  | Some prefix =>
      let conn := connector_prefix_cache_stats s in
      let s := with_connector_stats s ((λ _, new_stats) <$> conn) in
      let '(ev, k) := kv_drain_eviction_events k in
      let s := with_kv s k in
      Ok (Some (mkSchedulerStats (zlen (running s))
                  (queue_len (waiting_q s) + queue_len (skipped_waiting s))
                  (kv_usage k) (_get_encoder_cache_usage s) prefix conn ev spec), s)
  end.

(** ** [update_from_output] *)

(** The outputs of each client, in the order of the requests. *)
Fixpoint group_outputs (l : list (Z * EngineCoreOutput P)) (acc : list (Z * EngineCoreOutputs P))
    : list (Z * EngineCoreOutputs P) :=
  match l with
  | [] => acc
  | (c, o) :: l =>
      let old := default (mkEngineOutputs [] None None) (od_get acc c) in
      group_outputs l (od_set acc c (mkEngineOutputs (eos_outputs old ++ [o]) None None))
  end.

(** The ids of the requests that finished since the last output are added for
    their clients; the dictionary is iterated in some order. *)
Definition add_finished (outs : list (Z * EngineCoreOutputs P)) (d : gmap Z (gset string))
    : list (Z * EngineCoreOutputs P) :=
  foldl (λ outs '(c, ids),
    let old := default (mkEngineOutputs [] None None) (od_get outs c) in
    od_set outs c (mkEngineOutputs (eos_outputs old) (Some ids) None)) outs (map_to_list d).

Definition add_stats (outs : list (Z * EngineCoreOutputs P)) (st : option SchedulerStats)
    : list (Z * EngineCoreOutputs P) :=
  match st with
  | None => outs
  | Some st =>
      match outs with
      | [] => [(0, mkEngineOutputs [] None (Some st))]
      | (c, o) :: outs => (c, mkEngineOutputs (eos_outputs o) (eos_finished_requests o) (Some st)) :: outs
      end
  end.

(** The requests whose KV load failed are finished with an error; the outputs
    read the objects fetched before they were removed. *)
Definition fail_requests (s : sched) (failed : gset string)
    : res (list (Z * EngineCoreOutput P) * sched) :=
  ids ← rmap (od_index (requests s)) (elements failed);
  '(_, s) ← finish_requests s (Some (elements failed)) FINISHED_ERROR;
  let outs := (λ i, let r := objs s i in
     (client_index r,
      mkEngineOutput (request_id r) [] (get_finished_reason (status r)) None
        (take_request_events r).1 None (num_cached_tokens r) 0 0)) <$> ids in
  Ok (outs, foldl (λ s i, modify s i (λ r, (take_request_events r).2)) s ids).

(** Also returns the KV-cache events to publish. *)
Definition update_from_output (s : sched) (o : SchedulerOutput) (m : ModelRunnerOutput)
    : res (list (Z * EngineCoreOutputs P) * list KVCacheEvent * sched) :=
  '(failed, s) ← match kv_connector_output m with
                 | Some ko =>
                     if bool_decide (invalid_block_ids ko = ∅) then Ok (∅, s)
                     else _handle_invalid_blocks s (invalid_block_ids ko) (so_num_scheduled_tokens o)
                 | None => Ok (∅, s)
                 end;
  '(s, l) ← rfold (update_one o m failed) (s, mkUpdateLoop [] None [] []) (so_num_scheduled_tokens o);
  let s := with_running s (remove_all (running s) (list_to_set (ul_running l))) in
  s ← (if bool_decide (ul_preempted l = []) then Ok s
       else with_waiting s <$> q_remove_all s (waiting_q s) (ul_preempted l));
  '(outs, s) ← (if negb (bool_decide (failed = ∅)) && negb (recompute_kv_load_failures (cfg s))
                then fail_requests s failed else Ok ([], s));
  s ← match kv_connector_output m with
      | Some ko => _update_from_kv_xfer_finished s ko
      | None => Ok s
      end;
  let '(events, k) := kv_take_events (kv_cache_manager s) in
  let s := with_kv s k in
  let '(events, s) := match connector s with
                      | Some c => let '(l, c) := kc_take_events c in (events ++ l, with_connector s (Some c))
                      | None => (events, s)
                      end in
  let outputs := group_outputs (ul_outputs l ++ outs) [] in
  let '(outputs, s) :=
    match finished_req_ids_dict s with
    | Some d => (add_finished outputs d, with_finished s (finished_req_ids s) (Some ∅))
    | None => (outputs, s)
    end in
  '(st, s) ← make_stats s (ul_spec l);
  Ok (add_stats outputs st, events, s).

(** ** Draft tokens *)

Definition update_draft_token_ids (s : sched) (req_ids : list string) (drafts : list (list Z)) : sched :=
  foldl (λ s '(id, toks),
    match live_request s id with
    | None => s
    | Some i =>
        modify s i (λ r,
          if is_prefill_chunk r then with_spec_token_ids r []
          else with_spec_token_ids r (if should_advance r then validate_tokens r toks else toks))
    end) s (zip req_ids drafts).

Definition update_draft_token_ids_in_output (s : sched) (req_ids : list string)
    (drafts : list (list Z)) (o : SchedulerOutput) : SchedulerOutput :=
  let '(spec, invalid) :=
    foldl (λ '(spec, invalid) '(id, toks),
      match live_request s id, od_get spec id with
      | Some i, Some (t :: ts) =>
          let orig := zlen (t :: ts) in
          let toks := py_upto toks orig in
          let toks := if should_advance (objs s i) then validate_tokens (objs s i) toks else toks in
          let num_invalid := orig - zlen toks in
          if num_invalid =? 0 then (od_set spec id toks, invalid)
          else (od_set spec id (toks ++ zreplicate num_invalid (-1)), od_set invalid id num_invalid)
      | _, _ => (spec, invalid)
      end) (so_scheduled_spec_decode_tokens o, []) (zip req_ids drafts) in
  with_drafts o spec invalid.

(** The requests whose grammar masks the sampled tokens, in the order of the
    mask's rows; [None] when there is no mask. *)
Definition structured_output_request_ids (s : sched) (o : SchedulerOutput) : option (list string) :=
  if negb (has_structured_output_requests o) then None else
  let ids := filter (λ id, match od_get (requests s) id with
                           | Some i => use_structured_output (objs s i) && negb (is_prefill_chunk (objs s i))
                           | None => false
                           end = true) (so_num_scheduled_tokens o).*1 in
  if bool_decide (ids = []) then None else Some ids.

(** ** Resetting the caches *)

(** [while self.running: ...]: the newest request is preempted first. *)
Fixpoint preempt_all (fuel : nat) (s : sched) : res sched :=
  match running s, fuel with
  | [], _ => Ok s
  | _, O => Err OutOfFuel
  | _, S fuel =>
      i ← py_index (running s) (-1);
      s ← _preempt_request (with_running s (py_upto (running s) (-1))) i now;
      preempt_all fuel (modify s i (λ r,
        with_discard_latest_async_tokens (with_num_output_placeholders r 0) true))
  end.

Definition reset_connector_cache (s : sched) : res (bool * sched) :=
  match connector s with
  | None => Ok (false, s)
  | Some c =>
      let '(ok, c) := kc_reset_cache c in
      let s := with_connector s (Some c) in
      if bool_decide (ok = Some false) then Ok (false, s) else
      if log_stats (cfg s) then
        match connector_prefix_cache_stats s with
        | None => Err AssertionError
        | Some st =>
            Ok (true, with_connector_stats s
              (Some (mkStats true (st_requests st) (st_queries st) (st_hits st)
                       (preempted_requests st) (preempted_queries st) (preempted_hits st))))
        end
      else Ok (true, s)
  end.

Definition sched_reset_prefix_cache (s : sched) (reset_running_requests reset_connector : bool)
    : res (bool * sched) :=
  s ← (if reset_running_requests then
         s ← preempt_all (length (running s)) s; Ok (with_prev_step s ∅)
       else Ok s);
  let '(ok, k) := kv_reset_prefix_cache (kv_cache_manager s) in
  let s := with_kv s k in
  RAISE RuntimeError IF reset_running_requests && negb ok;
  if reset_connector then
    '(b, s) ← reset_connector_cache s; Ok (b && ok, s)
  else Ok (ok, s).

(** ** [AsyncScheduler] *)

Definition async_update_after_schedule (s : sched) (o : SchedulerOutput)
    : res (sched * SchedulerOutput) :=
  '(s, o) ← _update_after_schedule s o;
  rfold (λ '(s, o) '(id, _),
    i ← od_index (requests s) id;
    let r := objs s i in
    if is_prefill_chunk r then Ok (s, o) else
    let o := with_structured o (has_structured_output_requests o)
               (pending_structured_output_tokens o
                || (use_structured_output r && (0 <? num_output_placeholders r))) in
    let n := zlen (default [] (od_get (so_scheduled_spec_decode_tokens o) id)) in
    Ok (modify s i (λ r,
          with_spec_token_ids (with_num_output_placeholders r (num_output_placeholders r + (1 + n)))
            (zreplicate (num_spec_tokens (cfg s)) (-1))), o))
    (s, o) (so_num_scheduled_tokens o).

Definition async_update_request_with_output (s : sched) (i : Z) (new_token_ids : list Z)
    : res (list Z * bool * sched) :=
  if discard_latest_async_tokens (objs s i) then
    Ok ([], false, modify s i (λ r, with_discard_latest_async_tokens r false))
  else
  let status_before_update := status (objs s i) in
  '(toks, stopped, s) ← _update_request_with_output s i new_token_ids;
  let s := modify s i (λ r, with_num_output_placeholders r (num_output_placeholders r - zlen toks)) in
  ASSERT 0 <=? num_output_placeholders (objs s i);
  if bool_decide (status_before_update = RUNNING) then
    let r := objs s i in
    '(k, r) ← kv_cache_blocks (kv_cache_manager s) r (num_computed_tokens r - num_output_placeholders r);
    Ok (toks, stopped, put (with_kv s k) i r)
  else Ok (toks, stopped, s).
End update.
