(* ===== verification/EncoderSched.v ===== *)
(** * Chunk alignment and encoder scheduling

    [_mamba_block_aligned_split] keeps chunks on block boundaries;
    [_try_schedule_encoder_inputs] provides every encoder output the workers
    read in the step. *)

From Stdlib Require Import String.
From S2P Require Import Prelude Request BlockHash EncoderCache RequestQueue Scheduler.
#[local] Open Scope Z_scope.

(** ** Block-aligned chunks *)

Lemma mod_add_mult a b n : 0 < b → a `mod` b = 0 → (a + n * b) `mod` b = 0.
Proof. intros. by rewrite Z.mod_add by lia. Qed.

(** The position up to which a prefill is cached. *)
Definition last_cache_position (c : SchedConfig) (r : Request) : Z :=
  let p := num_tokens r - num_tokens r `mod` cache_block_size c in
  if use_eagle c then Z.max (p - cache_block_size c) 0 else p.

Lemma last_cache_position_aligned c r :
  0 < cache_block_size c → last_cache_position c r `mod` cache_block_size c = 0.
Proof.
  intros Hb. unfold last_cache_position.
  assert ((num_tokens r - num_tokens r `mod` cache_block_size c) `mod` cache_block_size c = 0) as H.
  { rewrite Zminus_mod_idemp_r, Z.sub_diag. by apply Z.mod_0_l; lia. }
  destruct (use_eagle c); [|done].
  destruct (Z.max_spec (num_tokens r - num_tokens r `mod` cache_block_size c - cache_block_size c) 0)
    as [[_ ->]|[_ ->]]; [by apply Z.mod_0_l; lia|].
  replace (_ - _ - cache_block_size c)
    with (num_tokens r - num_tokens r `mod` cache_block_size c + (-1) * cache_block_size c) by lia.
  by apply mod_add_mult.
Qed.

(** C38: splitting a chunk for block-aligned Mamba caching fails its assertion exactly
    when there are external tokens.  Otherwise it never schedules more tokens than
    asked for and never a negative number; during prefill, a chunk that starts on a block
    boundary and does not reach the last cached position also ends on a block boundary,
    one that would cross that position stops exactly there, and any other chunk is
    unchanged; after prefill no chunk changes. *)
Theorem mamba_split_aligned c r n local ext :
  0 < cache_block_size c → 0 ≤ n →
  let computed := num_computed_tokens r + local in
  let last := last_cache_position c r in
  if decide (ext = 0) then
    ∃ n', _mamba_block_aligned_split c r n local ext = Ok n' ∧ 0 ≤ n' ≤ n
    ∧ (computed < Z.max (num_prompt_tokens r) (num_tokens r - 1) →
         (computed + n < last → computed `mod` cache_block_size c = 0 →
            (computed + n') `mod` cache_block_size c = 0)
         ∧ (computed < last < computed + n → computed + n' = last)
         ∧ (last ≤ computed ∨ computed + n = last → n' = n))
    ∧ (Z.max (num_prompt_tokens r) (num_tokens r - 1) ≤ computed → n' = n)
  else _mamba_block_aligned_split c r n local ext = Err AssertionError.
Proof.
  intros Hb Hn computed last. unfold _mamba_block_aligned_split. case_decide as He.
  2: { by rewrite (proj2 (Z.eqb_neq _ _)). }
  subst ext. cbn [Z.eqb].
  rewrite Z.add_0_r. fold computed. destruct (_ <? Z.max _ _) eqn:E; to_prop.
  2: { exists n. split_and!; try done; lia. }
  unfold py_mod. rewrite (proj2 (Z.eqb_neq _ _)) by lia. cbn [mbind res_bind].
  fold (last_cache_position c r). fold last.
  pose proof (Z.mul_div_le n (cache_block_size c) Hb).
  pose proof (Z.div_pos n (cache_block_size c) Hn Hb).
  destruct (computed + n <? last) eqn:E1; to_prop.
  { exists (n / cache_block_size c * cache_block_size c). split_and!; try done; try nia.
    intros _. split_and!; try lia. intros _ ?. by apply mod_add_mult. }
  destruct (computed <? last) eqn:E2; cbn [andb]; to_prop.
  - destruct (last <? computed + n) eqn:E3; to_prop; eexists; split_and!; try done; try lia.
  - exists n. split_and!; try done; lia.
Qed.

(** ** Embeddings of a placeholder range *)

(** The number of embeddings in the first [k] placeholder positions. *)
Definition embeds_before (p : PlaceholderRange) (k : Z) : Z :=
  match is_embed p with
  | None => k
  | Some mask => zlen (filter (λ b : bool, b = true) (take (Z.to_nat k) mask))
  end.

(** A non-empty range whose mask, if any, covers it. *)
Definition range_ok (p : PlaceholderRange) : Prop :=
  0 < pr_length p ∧ ∀ mask, is_embed p = Some mask → zlen mask = pr_length p.

Lemma embeds_before_mono p a b : 0 ≤ a ≤ b → embeds_before p a ≤ embeds_before p b.
Proof.
  intros. unfold embeds_before. destruct (is_embed p) as [m|]; [|lia].
  replace (Z.to_nat b) with (Z.to_nat a + Z.to_nat (b - a))%nat by lia.
  rewrite <- take_take_drop, filter_app, zlen_app.
  pose proof (zlen_nonneg (filter (λ b : bool, b = true) (take (Z.to_nat (b - a)) (drop (Z.to_nat a) m)))).
  lia.
Qed.

Lemma embeds_cumsum_spec mask j :
  0 ≤ j < zlen mask →
  embeds_cumsum mask j = Ok (zlen (filter (λ b : bool, b = true) (take (Z.to_nat (j + 1)) mask))).
Proof.
  intros Hj. unfold embeds_cumsum.
  destruct (lookup_lt_is_Some_2 mask (Z.to_nat j)) as [b Hb]; [unfold zlen in Hj; lia|].
  rewrite (proj2 (py_index_nonneg mask j b ltac:(lia)) Hb). cbn [mbind res_bind].
  rewrite (proj2 (Z.ltb_ge _ _)) by lia. by replace (S (Z.to_nat j)) with (Z.to_nat (j + 1)) by lia.
Qed.

Lemma indices_spec p a b :
  range_ok p → 0 ≤ a < b → b ≤ pr_length p →
  get_embeds_indices_in_range p a b = Ok (embeds_before p a, embeds_before p b).
Proof.
  intros [_ Hm] Ha Hb. unfold get_embeds_indices_in_range, embeds_before.
  destruct (is_embed p) as [m|]; [|done]. specialize (Hm m eq_refl).
  rewrite (embeds_cumsum_spec m (b - 1)) by lia. rewrite Z.sub_add.
  destruct (0 <? a) eqn:E; to_prop.
  - rewrite embeds_cumsum_spec by lia. by rewrite Z.sub_add.
  - by replace a with 0 by lia.
Qed.

(** ** What the workers read *)

(** The inputs whose encoder output [_gather_mm_embeddings] of
    vllm/v1/worker/gpu_model_runner.py looks up when it computes the tokens
    [computed, computed + n); a missing output is an assertion failure. *)
Fixpoint gather_needed (computed n : Z) (fs : list MultiModalFeatureSpec) : res (list mm_key) :=
  match fs with
  | [] => Ok []
  | f :: fs =>
      let start_pos := pr_offset (mm_position f) in
      let num_encoder_tokens := pr_length (mm_position f) in
      if computed + n <=? start_pos then Ok [] else
      if start_pos + num_encoder_tokens <=? computed then gather_needed computed n fs else
      let start_idx := Z.max (computed - start_pos) 0 in
      let end_idx := Z.min (computed - start_pos + n) num_encoder_tokens in
      ASSERT start_idx <? end_idx;
      '(a, b) ← get_embeds_indices_in_range (mm_position f) start_idx end_idx;
      rest ← gather_needed computed n fs;
      Ok (if a =? b then rest else identifier f :: rest)
  end.

(** ** The scheduling loop *)

Section encoder.
Context (sz : mm_key → Z) (r : Request) (computed budget : Z).
#[local] Abbreviation loop := (@EncoderLoop EncoderCacheManager).

Definition sum_sizes (hs : list mm_key) : Z := foldr (λ h acc, sz h + acc) 0 hs.

Lemma sum_sizes_app l k : sum_sizes (l ++ k) = sum_sizes l + sum_sizes k.
Proof. unfold sum_sizes. induction l as [|h l IH]; cbn; lia. Qed.

(** The request holds a reference to the cached output. *)
Definition referenced (e : EncoderCacheManager) (h : mm_key) : Prop :=
  ∃ refs, cached_refs e !! h = Some refs ∧ request_id r ∈ refs.

(** The chosen inputs, [hs1] to run and [hs2] to load, are distinct, not cached,
    within the budget, and the cache has room for all of them. *)
Record Picked (l : loop) (hs1 hs2 : list mm_key) : Prop := {
  pk_inv : EncoderInv sz (el_cache l);
  pk_run : Forall2 (valid_input sz r) (el_to_schedule l) hs1;
  pk_ext : Forall2 (valid_input sz r) (el_external l) hs2;
  pk_nodup : NoDup (hs1 ++ hs2);
  pk_hashes : el_hashes l = list_to_set (hs1 ++ hs2);
  pk_embeds : el_num_embeds l = sum_sizes (hs1 ++ hs2);
  pk_budget : el_budget l = budget - sum_sizes hs1;
  pk_nonneg : 0 ≤ el_budget l;
  pk_uncached : ∀ h, h ∈ hs1 ++ hs2 → cached_refs (el_cache l) !! h = None;
  pk_room : el_num_embeds l ≤ num_free_slots (el_cache l);
}.

(** A later loop state keeps the choices and the references. *)
Definition later (l l' : loop) : Prop :=
  el_hashes l ⊆ el_hashes l' ∧ ∀ h, referenced (el_cache l) h → referenced (el_cache l') h.

#[local] Instance later_preorder : PreOrder later.
Proof. split; [by intros l|]. intros l1 l2 l3 [H1 H2] [H3 H4]. split; [by transitivity (el_hashes l2)|intros h ?; by apply H4, H2]. Qed.

Lemma check_frame e i b e' :
  check_and_update_cache e r i = Ok (b, e') →
  num_free_slots e' = num_free_slots e
  ∧ (∀ h, referenced e h → referenced e' h)
  ∧ (∀ h, cached_refs e !! h = None → cached_refs e' !! h = None).
Proof.
  unfold check_and_update_cache. intros H. inv_ok. rename a into k.
  destruct (cached_refs e !! k) as [refs|] eqn:El; inv_ok; [|done].
  destruct a as [x fr]. inv_ok. cbn. split_and!; [done| |].
  - intros h (refs' & Hl & Hin). unfold referenced. cbn. destruct (decide (h = k)) as [->|].
    + rewrite lookup_insert_eq. eexists. split; [done|]. set_solver.
    + rewrite lookup_insert_ne by done. eauto.
  - intros h Hn. rewrite lookup_insert_ne; [done|]. congruence.
Qed.

Lemma can_allocate_false e i b n e' : can_allocate e r i b n = Ok (false, e') → e' = e.
Proof.
  unfold can_allocate. intros H. inv_ok. repeat (case_match; inv_ok; try done).
Qed.

Lemma can_allocate_referenced e h e' :
  (∀ h refs, refs ≠ ∅ → cached_refs e' !! h = Some refs ↔ cached_refs e !! h = Some refs) →
  referenced e h → referenced e' h.
Proof. intros Hk (refs & Hl & Hin). exists refs. split; [|done]. apply Hk; [set_solver|done]. Qed.

(** Replacing the cache by one with at least the room keeps the choices. *)
Lemma Picked_cache l hs1 hs2 e :
  Picked l hs1 hs2 → EncoderInv sz e →
  (∀ h, cached_refs (el_cache l) !! h = None → cached_refs e !! h = None) →
  el_num_embeds l ≤ num_free_slots e → Picked (el_set_cache l e) hs1 hs2.
Proof. intros [] ? ? ?. split; cbn; eauto. Qed.

Lemma Picked_tokens l hs1 hs2 n : Picked l hs1 hs2 → Picked (el_set_tokens l n) hs1 hs2.
Proof. intros []. split; cbn; eauto. Qed.

(** The output of [f] is not read, or it is chosen or cached. *)
Definition served (n : Z) (l : loop) (f : MultiModalFeatureSpec) : Prop :=
  let p := mm_position f in
  pr_offset p + pr_length p ≤ computed
  ∨ identifier f ∈ el_hashes l ∨ referenced (el_cache l) (identifier f)
  ∨ embeds_before p (Z.max 0 (computed - pr_offset p))
    = embeds_before p (Z.min (pr_length p) (computed + n - pr_offset p)).

Lemma served_later n l l' f : later l l' → served n l f → served n l' f.
Proof. intros [Hh Hl] [?|[?|[?|?]]]; unfold served; [tauto|set_solver|eauto|tauto]. Qed.

(** What the loop knows after one input: it goes on and the input is served, or
    it stops before the input. *)
Definition step_ok (l : loop) (f : MultiModalFeatureSpec) (x : flow loop) : Prop :=
  match x with
  | Next l' => later l l' ∧ el_num_new_tokens l' = el_num_new_tokens l
               ∧ served (el_num_new_tokens l) l' f ∧ ∃ hs1 hs2, Picked l' hs1 hs2
  | Break l' => later l l' ∧ 0 ≤ el_num_new_tokens l' ≤ el_num_new_tokens l
                ∧ (0 < el_num_new_tokens l' → computed + el_num_new_tokens l' ≤ pr_offset (mm_position f))
                ∧ ∃ hs1 hs2, Picked l' hs1 hs2
  end.

(** The input is chosen. *)
Lemma Picked_add l hs1 hs2 i h (ext : bool) :
  Picked l hs1 hs2 → valid_input sz r i h → h ∉ el_hashes l →
  cached_refs (el_cache l) !! h = None → sz h ≤ el_budget l →
  sz h + el_num_embeds l ≤ num_free_slots (el_cache l) →
  let l' := mkLoop (el_cache l) (el_num_new_tokens l) (if ext then el_budget l else el_budget l - sz h)
              (if ext then el_to_schedule l else el_to_schedule l ++ [i])
              (if ext then el_external l ++ [i] else el_external l)
              ({[h]} ∪ el_hashes l) (el_num_embeds l + sz h) in
  Picked l' (if ext then hs1 else hs1 ++ [h]) (if ext then hs2 ++ [h] else hs2).
Proof.
  intros [H1 H2 H3 H4 H5 H6 H7 H8 H9 H10] Hv Hnew Hnone Hbud Hroom.
  rewrite H5, elem_of_list_to_set in Hnew.
  assert (NoDup ((hs1 ++ hs2) ++ [h])) as Hnd.
  { apply NoDup_app. split; [done|]. split; [set_solver|apply NoDup_singleton]. }
  assert ((hs1 ++ [h]) ++ hs2 ≡ₚ (hs1 ++ hs2) ++ [h]) as Hp.
  { rewrite <- !app_assoc. apply Permutation_app_head, Permutation_app_comm. }
  assert (∀ k, k ∈ (hs1 ++ hs2) ++ [h] → cached_refs (el_cache l) !! k = None) as Hun.
  { intros k [?| ->%list_elem_of_singleton]%elem_of_app; auto. }
  destruct ext; split; cbn; try done; try (rewrite ?app_assoc; done).
  - apply Forall2_app; [done|by apply Forall2_cons_2; [|apply Forall2_nil_2]].
  - rewrite H5, app_assoc. set_solver.
  - rewrite H6, app_assoc, (sum_sizes_app _ [h]). cbn. lia.
  - lia.
  - apply Forall2_app; [done|by apply Forall2_cons_2; [|apply Forall2_nil_2]].
  - by rewrite Hp.
  - rewrite H5. set_solver.
  - rewrite H6, !sum_sizes_app. cbn. lia.
  - rewrite H7, sum_sizes_app. cbn. lia.
  - lia.
  - intros k. rewrite Hp. apply Hun.
  - lia.
Qed.

Context (Hsz : ∀ h, 0 ≤ sz h) (Hr : sized sz r).
Context (c : SchedConfig) (Hc : is_encoder_decoder c = false) (has_item : mm_key → bool).
#[local] Abbreviation step := (encoder_step c has_item r computed 0).

Lemma feature_valid i f :
  0 ≤ i → mm_features r !! Z.to_nat i = Some f → valid_input sz r i (identifier f).
Proof using Hr.
  intros Hi Hf. assert (py_index (mm_features r) i = Ok f) as E by (by apply py_index_nonneg).
  unfold valid_input, mm_hash, get_num_encoder_embeds. rewrite E. cbn.
  apply lookup_lt_Some in Hf as Hl. rewrite (proj2 (Z.ltb_lt _ _)) by (unfold zlen; lia).
  split; [done|]. apply Hr. by eapply list_elem_of_lookup_2.
Qed.

(** The choice of an input that is neither computed, chosen nor cached. *)
Lemma choose_step l hs1 hs2 i f :
  Picked l hs1 hs2 → 0 < el_num_new_tokens l → range_ok (mm_position f) →
  valid_input sz r i (identifier f) → identifier f ∉ el_hashes l →
  cached_refs (el_cache l) !! identifier f = None →
  pr_offset (mm_position f) < computed + el_num_new_tokens l →
  computed < pr_offset (mm_position f) + pr_length (mm_position f) →
  ∃ x, ('(room, e) ← can_allocate (el_cache l) r i (el_budget l) (el_num_embeds l);
        let l := el_set_cache l e in
        if negb room then
          Ok (Break (el_set_tokens l
            (if computed + 0 <? pr_offset (mm_position f)
             then pr_offset (mm_position f) - (computed + 0) else 0)))
        else
        '(a, b) ← get_embeds_indices_in_range (mm_position f)
            (Z.max 0 (computed - pr_offset (mm_position f)))
            (Z.min (pr_length (mm_position f))
               (computed + el_num_new_tokens l - pr_offset (mm_position f)));
        if b - a =? 0 then Ok (Next l) else
        if has_item (identifier f) then
          Ok (Next (mkLoop (el_cache l) (el_num_new_tokens l) (el_budget l) (el_to_schedule l)
                      (el_external l ++ [i]) ({[identifier f]} ∪ el_hashes l)
                      (el_num_embeds l + sz (identifier f))))
        else
          Ok (Next (mkLoop (el_cache l) (el_num_new_tokens l) (el_budget l - sz (identifier f))
                      (el_to_schedule l ++ [i]) (el_external l) ({[identifier f]} ∪ el_hashes l)
                      (el_num_embeds l + sz (identifier f))))) = Ok x
    ∧ step_ok l f x.
Proof using Hsz Hr Hc.
  intros Hp Hn Hok Hv Hnew Hnone Hs He. pose proof Hok as [Hlen _].
  destruct (can_allocate_spec sz Hsz (el_cache l) r i (identifier f) (el_budget l) (el_num_embeds l)
    (pk_inv _ _ _ Hp) Hv) as (b & e' & k & E & Hi & Hiff & Hroom & _ & _ & Hkeep & Hun).
  rewrite E. cbn [mbind res_bind].
  assert (el_num_embeds l ≤ num_free_slots e') as Hfree.
  { destruct b; [specialize (Hroom eq_refl); pose proof (Hsz (identifier f)); lia|].
    apply can_allocate_false in E as ->. apply (pk_room _ _ _ Hp). }
  pose proof (Picked_cache l hs1 hs2 e' Hp Hi Hun Hfree) as Hp'.
  assert (later l (el_set_cache l e')) as Hlat.
  { split; [done|]. intros h. by apply can_allocate_referenced. }
  destruct b; cbn [negb].
  2: { eexists. split; [done|]. unfold step_ok. rewrite Z.add_0_r.
       split; [exact Hlat|]. cbn [el_num_new_tokens el_set_tokens].
       destruct (computed <? _) eqn:Ec; to_prop; (split; [lia|]; split; [lia|]); eauto using Picked_tokens. }
  rewrite indices_spec by (done || cbn; lia). cbn [mbind res_bind].
  destruct (_ - _ =? 0) eqn:Ed; to_prop.
  { eexists. split; [done|]. split; [done|]. split; [done|]. split; [|eauto].
    unfold served. right; right; right. cbn in Ed. lia. }
  assert (∀ ext : bool, Picked (mkLoop e' (el_num_new_tokens l)
      (if ext then el_budget l else el_budget l - sz (identifier f))
      (if ext then el_to_schedule l else el_to_schedule l ++ [i])
      (if ext then el_external l ++ [i] else el_external l)
      ({[identifier f]} ∪ el_hashes l) (el_num_embeds l + sz (identifier f)))
      (if ext then hs1 else hs1 ++ [identifier f]) (if ext then hs2 ++ [identifier f] else hs2)) as Hadd.
  { intros ext. apply (Picked_add (el_set_cache l e')); try done; [by apply Hun|by apply Hiff|by apply Hroom]. }
  destruct (has_item _); eexists; (split; [done|]).
  - split; [|split; [done|]; split; [|exact (ex_intro _ _ (ex_intro _ _ (Hadd true)))]].
    + destruct Hlat. split; [set_solver|done].
    + unfold served. cbn. set_solver.
  - split; [|split; [done|]; split; [|exact (ex_intro _ _ (ex_intro _ _ (Hadd false)))]].
    + destruct Hlat. split; [set_solver|done].
    + unfold served. cbn. set_solver.
Qed.

Lemma encoder_step_spec l hs1 hs2 i f :
  Picked l hs1 hs2 → 0 < el_num_new_tokens l → range_ok (mm_position f) →
  0 ≤ i → mm_features r !! Z.to_nat i = Some f →
  ∃ x, step l i f = Ok x ∧ step_ok l f x.
Proof using Hsz Hr Hc.
  intros Hp Hn Hok Hi Hf. pose proof (feature_valid i f Hi Hf) as Hv. unfold encoder_step.
  rewrite (Hr f) by (by eapply list_elem_of_lookup_2). cbn [mbind res_bind]. rewrite Hc. cbn [andb negb].
  rewrite !Z.add_0_r.
  destruct (_ <=? pr_offset _) eqn:E1; to_prop.
  { exists (Break l). split; [done|]. split; [reflexivity|]. split; [lia|]. split; [lia|eauto]. }
  destruct (_ <=? computed) eqn:E2; to_prop.
  { exists (Next l). split; [done|]. split; [reflexivity|]. split; [done|].
    split; [by left|eauto]. }
  destruct (bool_decide _) eqn:E3; to_prop.
  { exists (Next l). split; [done|]. split; [reflexivity|]. split; [done|].
    split; [by right; left|eauto]. }
  destruct (check_spec sz Hsz (el_cache l) r i (identifier f) (pk_inv _ _ _ Hp) Hv)
    as (b & e & E & Hei & Hiff & Ht & Hf').
  change (ec_check_and_update_cache (el_cache l) r i) with (check_and_update_cache (el_cache l) r i).
  rewrite E. cbn [mbind res_bind]. destruct (check_frame _ _ _ _ E) as (Hfree & Href & Hun).
  assert (Picked (el_set_cache l e) hs1 hs2) as Hp'.
  { apply Picked_cache; try done. rewrite Hfree. apply (pk_room _ _ _ Hp). }
  assert (later l (el_set_cache l e)) as Hlat by done.
  destruct b.
  { exists (Next (el_set_cache l e)). split; [done|]. split; [done|]. split; [done|].
    split; [right; right; left; by apply Ht|eauto]. }
  destruct (disable_chunked_mm_input c && _ && _) eqn:E4; to_prop.
  { eexists. split; [done|]. split; [done|]. cbn [el_num_new_tokens el_set_tokens el_set_cache].
    split; [lia|]. split; [lia|]. eauto using Picked_tokens. }
  assert (cached_refs e !! identifier f = None) as Hnone.
  { destruct (cached_refs e !! identifier f) eqn:El; [|done].
    rewrite (Hf' eq_refl) in El. by destruct Hiff as [_ Hx]; specialize (Hx (mk_is_Some _ _ El)). }
  destruct (choose_step (el_set_cache l e) hs1 hs2 i f Hp') as (x & Ex & Hx); try done.
  exists x. rewrite !Z.add_0_r in Ex. split; [exact Ex|].
  destruct x; cbn in Hx |- *; destruct Hx as (? & ? & ? & ?); (split; [by etrans|]); eauto.
Qed.

(** Either all inputs are served, or the scheduled range ends before the first
    one that is not. *)
Definition covered_by (n : Z) (l : loop) (fs : list MultiModalFeatureSpec) : Prop :=
  ∃ k, Forall (served n l) (take k fs) ∧ el_num_new_tokens l ≤ n
    ∧ ∀ f, fs !! k = Some f → 0 < el_num_new_tokens l →
        computed + el_num_new_tokens l ≤ pr_offset (mm_position f).

Lemma encoder_loop_spec pre fs l hs1 hs2 :
  mm_features r = pre ++ fs → Picked l hs1 hs2 → 0 < el_num_new_tokens l →
  Forall (λ f, range_ok (mm_position f)) fs →
  ∃ l', encoder_loop c has_item r computed 0 l (zlen pre) fs = Ok l' ∧ later l l'
    ∧ 0 ≤ el_num_new_tokens l' ∧ covered_by (el_num_new_tokens l) l' fs
    ∧ ∃ hs1 hs2, Picked l' hs1 hs2.
Proof using Hsz Hr Hc.
  revert pre l hs1 hs2. induction fs as [|f fs IH]; intros pre l hs1 hs2 Hfs Hp Hn Hok.
  { exists l. split; [done|]. split; [reflexivity|]. split; [lia|]. split; [|eauto].
    exists 0%nat. split_and!; [constructor|done|done]. }
  apply Forall_cons in Hok as [Hf Hok]. cbn [encoder_loop].
  destruct (encoder_step_spec l hs1 hs2 (zlen pre) f Hp Hn Hf) as (x & -> & Hx).
  { apply zlen_nonneg. }
  { unfold zlen. rewrite Nat2Z.id, Hfs. by rewrite list_lookup_middle. }
  cbn [mbind res_bind]. destruct x as [l1|l1]; cbn in Hx.
  - destruct Hx as (Hlat & En & Hserved & hs1' & hs2' & Hp').
    destruct (IH (pre ++ [f]) l1 hs1' hs2') as (l' & E & Hlat' & Hn' & (k & Hk & Hle & Hbrk) & Hp'');
      [by rewrite <- app_assoc|done|lia|done|].
    exists l'. replace (zlen (pre ++ [f])) with (zlen pre + 1) in E
      by (unfold zlen; rewrite length_app; cbn; lia). split; [exact E|].
    split; [by etrans|]. split; [done|]. split; [|done].
    exists (S k). rewrite En in Hk, Hle. split_and!; [|done|done]. cbn. constructor; [|done].
    eapply served_later; [exact Hlat'|done].
  - destruct Hx as (Hlat & Hle & Hbrk & Hp'). exists l1. split; [done|]. split; [done|]. split; [lia|].
    split; [|done]. exists 0%nat. split_and!; [constructor|lia|]. by intros ? [= <-].
Qed.

(** Every output the workers read is chosen or referenced. *)
Lemma gather_covered n l fs :
  Forall (λ f, range_ok (mm_position f)) fs → 0 < el_num_new_tokens l → covered_by n l fs →
  ∃ needed, gather_needed computed (el_num_new_tokens l) fs = Ok needed
    ∧ ∀ h, h ∈ needed → h ∈ el_hashes l ∨ referenced (el_cache l) h.
Proof using Type.
  induction fs as [|f fs IH]; intros Hok Hn (k & Hk & Hle & Hbrk); cbn [gather_needed].
  { exists []. split; [done|]. by intros h ?%elem_of_nil. }
  apply Forall_cons in Hok as [Hf Hok]. destruct k as [|k].
  { rewrite (proj2 (Z.leb_le _ _)) by (by apply Hbrk). exists []. split; [done|]. by intros h ?%elem_of_nil. }
  cbn [take] in Hk. apply Forall_cons in Hk as [Hs Hk].
  destruct (IH Hok Hn) as (needed & E & Hin); [by exists k|].
  destruct (_ <=? pr_offset _) eqn:E1; to_prop; [by exists []; split; [done|intros h ?%elem_of_nil]|].
  destruct (_ <=? computed) eqn:E2; to_prop; [by exists needed|].
  pose proof Hf as [Hlen _]. rewrite (proj2 (Z.ltb_lt _ _)) by lia.
  rewrite indices_spec by (done || lia). cbn [mbind res_bind]. rewrite E. cbn [mbind res_bind].
  destruct (_ =? _) eqn:E3; to_prop; [by exists needed|]. eexists. split; [done|].
  intros h [->|?]%elem_of_cons; [|by apply Hin]. destruct Hs as [?|[?|[?|Heq]]]; [lia|tauto|tauto|].
  destruct E3. apply Z.le_antisymm.
  - apply embeds_before_mono. lia.
  - rewrite (Z.max_comm _ 0), Heq. apply embeds_before_mono. lia.
Qed.

(** Allocating the chosen inputs cannot fail. *)
Lemma allocate_all_spec ids hs e :
  EncoderInv sz e → Forall2 (valid_input sz r) ids hs → NoDup hs →
  (∀ h, h ∈ hs → cached_refs e !! h = None) → sum_sizes hs ≤ num_free_slots e →
  ∃ e', rfold (λ e i, allocate e r i) e ids = Ok e' ∧ EncoderInv sz e'
    ∧ num_free_slots e' = num_free_slots e - sum_sizes hs
    ∧ (∀ h, h ∈ hs ∨ referenced e h → referenced e' h)
    ∧ (∀ h, h ∉ hs → cached_refs e' !! h = cached_refs e !! h).
Proof using Hsz Hr Hc has_item.
  intros He Hv. revert e He. induction Hv as [|i h ids hs Hi Hv IH]; intros e He Hnd Hun Hfree.
  { exists e. cbn. split_and!; try done; [lia|]. by intros h [?%elem_of_nil|?]. }
  apply NoDup_cons in Hnd as [Hh Hnd]. change (sum_sizes (h :: hs)) with (sz h + sum_sizes hs) in *.
  assert (0 ≤ sum_sizes hs) as Hpos.
  { clear -Hsz. unfold sum_sizes. induction hs as [|h hs IH]; cbn; [lia|]. specialize (Hsz h). lia. }
  destruct (allocate_spec sz Hsz e r i h He Hi) as (e1 & E & He1 & Ec & Ef);
    [apply Hun; by left|lia|].
  cbn [rfold]. rewrite E. cbn [mbind res_bind].
  destruct (IH e1 He1 Hnd) as (e' & E' & He' & Ef' & Href & Hsame).
  { intros h' Hin. rewrite Ec, lookup_insert_ne by (by intros ->). apply Hun. by right. }
  { lia. }
  exists e'. split_and!; [done|done|lia| |].
  - intros h' [[->|?]%elem_of_cons|(refs & Hl & Hin)]; [|by apply Href; left|].
    + apply Href. right. exists {[request_id r]}. rewrite Ec, lookup_insert_eq. set_solver.
    + apply Href. destruct (decide (h' = h)) as [->|].
      { rewrite Hun in Hl by (by left). done. }
      right. exists refs. by rewrite Ec, lookup_insert_ne by done.
  - intros h' [? ?]%not_elem_of_cons. rewrite Hsame, Ec, lookup_insert_ne by done. done.
Qed.
End encoder.

(** ** The step as a whole *)

Section theorem.
Context {K W C EC P : Type}.
Context `{KVManager K, RequestQueue W, QueueImpl W, KVConnector C P, ECConnector EC}.

(** C37: for a decoder-only model without draft-token shift, choosing the encoder
    inputs of a request never raises; the number of tokens does not grow and the
    encoder budget is charged exactly for the inputs to run and not overdrawn;
    allocating the chosen inputs then succeeds and keeps the encoder cache
    consistent; and if the request is scheduled at all, every encoder output the
    workers read for the scheduled tokens is in the cache and referenced by the
    request. *)
Theorem encoder_outputs_available (sz : mm_key → Z) (s : Scheduler K EncoderCacheManager W C EC)
    (i computed n budget : Z) :
  let r := objs s i in
  (∀ h, 0 ≤ sz h) → sized sz r → EncoderInv sz (encoder_cache_manager s) →
  is_encoder_decoder (cfg s) = false → Forall (λ f, range_ok (mm_position f)) (mm_features r) →
  0 < n → 0 ≤ budget →
  ∃ inputs n' budget' external s' e,
    _try_schedule_encoder_inputs s i computed n budget 0 = Ok (inputs, n', budget', external, s')
    ∧ 0 ≤ n' ≤ n
    ∧ (∃ hs, Forall2 (valid_input sz r) inputs hs ∧ budget' = budget - sum_sizes sz hs) ∧ 0 ≤ budget'
    ∧ objs s' = objs s
    ∧ rfold (λ e j, allocate e r j) (encoder_cache_manager s') (inputs ++ external) = Ok e
    ∧ EncoderInv sz e
    ∧ (0 < n' → ∃ needed, gather_needed computed n' (mm_features r) = Ok needed
         ∧ ∀ h, h ∈ needed → referenced r e h).
Proof.
  intros r Hsz Hr He Hc Hok Hn Hb. unfold _try_schedule_encoder_inputs. fold r.
  rewrite (proj2 (Z.eqb_neq n 0)) by lia. cbn [orb]. unfold has_encoder_inputs, num_encoder_inputs.
  destruct (0 <? zlen (mm_features r)) eqn:Ef; cbn [negb]; to_prop.
  2: { assert (mm_features r = []) as Enil.
       { pose proof (zlen_nonneg (mm_features r)). apply zlen_0. lia. }
       eexists _, _, _, _, s, _. split; [reflexivity|]. split; [lia|]. split.
       { exists []. split; [constructor|]. cbn. lia. }
       split; [done|]. split; [done|]. split; [reflexivity|]. split; [done|]. rewrite Enil.
       intros _. exists []. split; [done|]. by intros h ?%elem_of_nil. }
  destruct (encoder_loop_spec sz r computed budget Hsz Hr (cfg s) Hc
    (λ h, match ec_connector s with Some ec => ecc_has_cache_item ec h | None => false end)
    [] (mm_features r) (mkLoop (encoder_cache_manager s) n budget [] [] ∅ 0) [] [])
    as (l & El & _ & Hn' & Hcov & hs1 & hs2 & Hp); [done| |done|done|].
  { split; cbn; try done; try lia; try (by constructor); try set_solver.
    apply (encoder_slots sz Hsz) in He. lia. }
  change (zlen (@nil MultiModalFeatureSpec)) with 0 in El. rewrite El.
  cbn [mbind res_bind el_num_new_tokens] in *.
  destruct (allocate_all_spec sz r Hsz Hr (cfg s) Hc (λ _, false)
    (el_to_schedule l ++ el_external l) (hs1 ++ hs2) (el_cache l))
    as (e & Ea & Hei & _ & Href & _); try apply Hp.
  { apply Forall2_app; apply Hp. }
  { rewrite <- (pk_embeds _ _ _ _ _ _ Hp). apply Hp. }
  eexists _, _, _, _, _, e. split; [reflexivity|]. destruct Hcov as (k & Hk & Hle & Hbrk).
  split; [lia|]. split; [exists hs1; split; apply Hp|]. split; [apply Hp|]. split; [done|].
  split; [exact Ea|]. split; [done|]. intros Hpos.
  destruct (gather_covered r computed n l (mm_features r)) as (needed & Eg & Hin);
    [done|done|by exists k|].
  exists needed. split; [done|]. intros h Hh. apply Href. destruct (Hin h Hh) as [Hx|Hx]; [left|by right].
  rewrite (pk_hashes _ _ _ _ _ _ Hp), elem_of_list_to_set in Hx. done.
Qed.

(** With draft tokens the drafter also reads the encoder output one position
    past the scheduled tokens, and the scheduler widens its test by that shift;
    but an input without mask that starts exactly there has an empty range in
    the scheduled tokens and is skipped: nothing is chosen to run, the tokens
    are scheduled, and the workers look up an output that is not cached. *)
Theorem eagle_chunk_misses_next_input (sz : mm_key → Z)
    (s : Scheduler K EncoderCacheManager W C EC) (i computed n budget : Z) f :
  (∀ h, 0 ≤ sz h) → mm_features (objs s i) = [f] → sized sz (objs s i) →
  EncoderInv sz (encoder_cache_manager s) →
  is_encoder_decoder (cfg s) = false → disable_chunked_mm_input (cfg s) = false →
  is_embed (mm_position f) = None → 0 < pr_length (mm_position f) →
  0 < n → pr_offset (mm_position f) = computed + n →
  cached_refs (encoder_cache_manager s) !! identifier f = None →
  sz (identifier f) ≤ budget → sz (identifier f) ≤ num_freeable_slots (encoder_cache_manager s) →
  ∃ s', _try_schedule_encoder_inputs s i computed n budget 1 = Ok ([], n, budget, [], s')
    ∧ gather_needed (computed + 1) n (mm_features (objs s i)) = Ok [identifier f]
    ∧ cached_refs (encoder_cache_manager s') !! identifier f = None.
Proof.
  intros Hsz Hfs Hr He Hc Hd Hm Hlen Hn Hoff Hun Hbud Hroom.
  unfold _try_schedule_encoder_inputs, has_encoder_inputs, num_encoder_inputs.
  rewrite Hfs, (proj2 (Z.eqb_neq n 0)) by lia.
  assert (valid_input sz (objs s i) 0 (identifier f)) as Hv
    by (apply feature_valid; [done|done|by rewrite Hfs]).
  change (0 <? zlen [f]) with true. cbn [orb negb encoder_loop]. unfold encoder_step. cbn [el_num_new_tokens].
  rewrite (Hr f) by (rewrite Hfs; by left). cbn [mbind res_bind]. rewrite Hc, Hd. cbn [andb negb].
  rewrite (proj2 (Z.leb_gt _ (pr_offset _))), (proj2 (Z.leb_gt _ computed)) by lia.
  rewrite bool_decide_false by (cbn; set_solver).
  destruct (check_spec sz Hsz (encoder_cache_manager s) (objs s i) 0 (identifier f) He Hv)
    as (b & e & E & He' & Hiff & _ & Hf'). cbn [el_cache].
  change (ec_check_and_update_cache (encoder_cache_manager s) (objs s i) 0)
    with (check_and_update_cache (encoder_cache_manager s) (objs s i) 0).
  rewrite E. cbn [mbind res_bind]. destruct b; [destruct (proj1 Hiff eq_refl); congruence|].
  rewrite (Hf' eq_refl). cbn [el_cache el_set_cache el_budget el_num_embeds].
  destruct (can_allocate_spec sz Hsz (encoder_cache_manager s) (objs s i) 0 (identifier f) budget 0 He Hv)
    as (b & e1 & k & E1 & _ & Hiff1 & _ & _ & _ & _ & Hun1).
  change (ec_can_allocate (encoder_cache_manager s) (objs s i) 0 budget 0)
    with (can_allocate (encoder_cache_manager s) (objs s i) 0 budget 0).
  rewrite E1. cbn [mbind res_bind]. rewrite (proj2 Hiff1) by lia. cbn [negb].
  unfold get_embeds_indices_in_range. rewrite Hm. cbn [mbind res_bind].
  rewrite (proj2 (Z.eqb_eq _ 0)) by lia. eexists. split; [reflexivity|]. split; [|by apply Hun1].
  cbn [gather_needed]. rewrite (proj2 (Z.leb_gt _ (pr_offset _))), (proj2 (Z.leb_gt _ (computed + 1))) by lia.
  rewrite (proj2 (Z.ltb_lt _ _)) by lia. unfold get_embeds_indices_in_range. rewrite Hm. cbn [mbind res_bind].
  by rewrite (proj2 (Z.eqb_neq _ _)) by lia.
Qed.
End theorem.

(** ** Examples *)

Definition example_config : SchedConfig :=
  mkSchedConfig 4 8 64 0 true false 16 false 0 0 false 2 2 false None false false false false false
    false true 1.

(** An image of three placeholders behind four text tokens. *)
Definition captioned_request : Request :=
  with_mm_features (with_tokens image_request [] [1; 2; 3; 4; 0; 0; 0]) [feature "img" 4 3].

Definition image_sched : Scheduler unit EncoderCacheManager FCFSRequestQueue Empty_set Empty_set :=
  mkScheduler example_config (λ _, captioned_request) [] (mkFCFS []) (mkFCFS []) [] ∅ None ∅ 0 ∅ ∅ tt
    (encoder_init 10) None None None UNPAUSED.

Lemma captioned_sized : sized image_size captioned_request.
Proof. intros f ->%list_elem_of_singleton. reflexivity. Qed.

Lemma encoder_outputs_available_witness :
  ∃ inputs n' budget' external s',
    _try_schedule_encoder_inputs image_sched 0 0 7 16 0 = Ok (inputs, n', budget', external, s') ∧ 0 ≤ n' ≤ 7.
Proof.
  destruct (encoder_outputs_available image_size image_sched 0 0 7 16)
    as (inputs & n' & b & ext & s' & e & E & Hn & _).
  - exact image_size_nonneg.
  - exact captioned_sized.
  - apply empty_inv. lia.
  - reflexivity.
  - constructor; [|constructor]. split; [cbn; lia|]. intros mask Hm. discriminate Hm.
  - lia.
  - lia.
  - exists inputs, n', b, ext, s'. split; [exact E|exact Hn].
Defined.

(** The image is run, and the seven tokens are scheduled. *)
Example image_scheduled :
  (λ x, (x.1.1.1.1, x.1.1.1.2, x.1.1.2)) <$> _try_schedule_encoder_inputs image_sched 0 0 7 16 0
    = Ok ([0], 7, 13).
Proof. vm_compute. reflexivity. Qed.

Lemma eagle_chunk_misses_next_input_witness :
  ∃ s', _try_schedule_encoder_inputs image_sched 0 0 4 16 1 = Ok ([], 4, 16, [], s')
    ∧ gather_needed 1 4 (mm_features captioned_request) = Ok [Some "img"%string].
Proof.
  destruct (eagle_chunk_misses_next_input image_size image_sched 0 0 4 16 (feature "img" 4 3))
    as (s' & E & Hg & _).
  - exact image_size_nonneg.
  - reflexivity.
  - exact captioned_sized.
  - apply empty_inv. lia.
  - reflexivity.
  - reflexivity.
  - reflexivity.
  - cbn. lia.
  - lia.
  - reflexivity.
  - reflexivity.
  - cbn. unfold image_size. lia.
  - cbn. unfold image_size. lia.
  - exists s'. split; [exact E|exact Hg].
Defined.

Lemma mamba_split_aligned_witness :
  ∃ n', _mamba_block_aligned_split example_config captioned_request 5 0 0 = Ok n' ∧ 0 ≤ n' ≤ 5.
Proof.
  destruct (mamba_split_aligned example_config captioned_request 5 0 0) as (n' & E & Hn & _).
  - cbn. lia.
  - lia.
  - exists n'. split; [exact E|exact Hn].
Defined.
