(* ===== verification/OutputProps.v ===== *)
(** * Generated tokens and streaming sessions

    What happens to a request's tokens and block hashes when the model's output
    arrives and when a streaming session continues. *)

From Stdlib Require Import String.
From S2P Require Import Prelude Request BlockHash EncoderCache SchedUtils RequestQueue Scheduler Schedule SchedUpdate.
From S2P Require Import EncoderSched CoordinatorProps KVCacheManager.
#[local] Open Scope Z_scope.

(** ** Streaming sessions *)

Section session.
Context (sha256 : bytes → bytes) (hash_fn : hash_input → bytes) (NONE_HASH : bytes).
#[local] Abbreviation hasher bs := (Some (request_block_hasher sha256 hash_fn NONE_HASH bs)).
#[local] Abbreviation ref_hashes := (ref_hashes sha256 hash_fn NONE_HASH).

(** The tokens of a session after an update: the computed ones and the new input. *)
Definition session_tokens (r : Request) (u : StreamingUpdate) : list Z :=
  take (Z.to_nat (num_computed_tokens r)) (all_token_ids r) ++ default [] (su_prompt_token_ids u).

Lemma full_blocks_truncated bs r n :
  0 < bs → num_tokens r / bs * bs ≤ n ≤ num_tokens r → n / bs = num_tokens r / bs.
Proof.
  intros Hb Hn. apply Z.le_antisymm; [by apply Z.div_le_mono; lia|].
  apply Z.div_le_lower_bound; lia.
Qed.

(** Dropping tokens behind the last full block keeps the hashes. *)
Lemma truncated_hashes bs r n :
  0 < bs → block_hashes r = ref_hashes bs r → zlen (block_hashes r) * bs ≤ n ≤ num_tokens r →
  let r0 := with_tokens r [] (take (Z.to_nat n) (all_token_ids r)) in
  num_full_blocks bs r0 = num_full_blocks bs r ∧ ref_hashes bs r0 = ref_hashes bs r.
Proof.
  intros Hb Hh Hn r0. pose proof (zlen_nonneg (block_hashes r)) as Hnn.
  assert (zlen (block_hashes r) = num_tokens r / bs) as Ek.
  { rewrite Hh. unfold zlen. rewrite length_ref_hashes. unfold num_full_blocks, num_tokens, zlen.
    apply Z2Nat.id. apply Z.div_pos; lia. }
  assert (num_tokens r0 = n) as E0.
  { unfold num_tokens, r0, zlen. cbn [all_token_ids with_tokens]. rewrite length_take.
    unfold num_tokens, zlen in *. nia. }
  assert (num_full_blocks bs r0 = num_full_blocks bs r) as Efb.
  { unfold num_full_blocks. f_equal. rewrite E0. apply full_blocks_truncated; [done|]. rewrite <- Ek. lia. }
  split; [done|].
  pose proof (ref_hashes_extend sha256 hash_fn NONE_HASH bs r0 (output_token_ids r)
    (drop (Z.to_nat n) (all_token_ids r)) Hb) as Hx.
  unfold r0 in Hx at 3 4. cbn [all_token_ids with_tokens] in Hx. rewrite take_drop in Hx.
  rewrite Hx, Efb. apply take_ge. rewrite length_ref_hashes. done.
Qed.

(** A session between two inputs: its tokens are the prompt and the outputs, all computed
    but the last sampled one, its hashes are those of its tokens, and no hashed block
    contains a token that is not computed. *)
Record session_ready (bs : Z) (r : Request) (prompt : list Z) : Prop := {
  sr_prompt : prompt_token_ids r = Some prompt;
  sr_tokens : all_token_ids r = prompt ++ output_token_ids r;
  sr_length : num_prompt_tokens r = zlen prompt;
  sr_computed : zlen prompt ≤ num_computed_tokens r ≤ num_tokens r;
  sr_inputs : mm_wf (mm_features r);
  sr_embeds : embed_cache_ok sha256 r;
  sr_hashes : block_hashes r = ref_hashes bs r;
  sr_hashed : zlen (block_hashes r) * bs ≤ num_computed_tokens r;
  sr_open : block_hashes r ≠ [] → only_last_open (mm_features r) (zlen (block_hashes r) * bs);
}.

Lemma session_request_spec bs r u prompt :
  0 < bs → session_ready bs r prompt → su_mm_features u = None →
  ∃ r', session_request (hasher bs) r u = Ok r'
    ∧ all_token_ids r' = session_tokens r u ∧ prompt_token_ids r' = Some (session_tokens r u)
    ∧ num_prompt_tokens r' = zlen (session_tokens r u) ∧ output_token_ids r' = []
    ∧ block_hashes r' = ref_hashes bs r'
    ∧ sampling_params r' = su_sampling_params u ∧ status r' = status r.
Proof.
  intros Hb [Hp Hall Hnp Hc Hwf Hce Hh Hlen Hopen] Hmm. unfold session_request.
  cbn [prompt_token_ids with_tokens]. rewrite Hp, Hmm.
  assert (prompt ++ py_slice (all_token_ids r) (num_prompt_tokens r) (num_computed_tokens r)
    ++ default [] (su_prompt_token_ids u) = session_tokens r u) as Ep.
  { pose proof (zlen_nonneg prompt). unfold session_tokens. rewrite Hnp, py_slice_nonneg by lia.
    rewrite app_assoc. f_equal. rewrite Hall. unfold zlen in *. rewrite Nat2Z.id, drop_app_length, take_app.
    rewrite (take_ge prompt) by lia. do 2 f_equal. lia. }
  rewrite Ep. cbn [all_token_ids with_tokens with_prompt num_prompt_tokens].
  pose proof (zlen_nonneg prompt). rewrite py_upto_nonneg by lia. fold (session_tokens r u).
  set (r1 := with_prompt _ _ _). set (r0 := with_tokens r [] (take (Z.to_nat (num_computed_tokens r)) (all_token_ids r))).
  destruct (truncated_hashes bs r (num_computed_tokens r) Hb Hh ltac:(lia)) as [Efb Er0]. fold r0 in Efb, Er0.
  pose proof (ref_hashes_extend sha256 hash_fn NONE_HASH bs r0 [] (default [] (su_prompt_token_ids u)) Hb) as Hpre.
  change (ref_hashes bs (with_tokens r0 [] (all_token_ids r0 ++ default [] (su_prompt_token_ids u))))
    with (ref_hashes bs r1) in Hpre.
  destruct (update_hashes_spec sha256 hash_fn NONE_HASH bs r1 (num_full_blocks bs r0))
    as (r' & E & Hr' & Ht & _ & _); try done.
  - change (block_hashes r1) with (block_hashes r). by rewrite Hh, length_ref_hashes.
  - apply (f_equal length) in Hpre. rewrite length_take, !length_ref_hashes in Hpre. lia.
  - change (block_hashes r1) with (block_hashes r). by rewrite Hh, <- Er0.
  - intros Hpos. change (mm_features r1) with (mm_features r).
    assert (Z.of_nat (num_full_blocks bs r0) = zlen (block_hashes r)) as ->.
    { rewrite Efb, Hh. unfold zlen. by rewrite length_ref_hashes. }
    apply Hopen. rewrite Hh. intros En. apply (f_equal length) in En.
    rewrite length_ref_hashes, <- Efb in En. cbn in En. lia.
  - rewrite E. cbn [mbind res_bind]. eexists. split; [reflexivity|].
    cbn [all_token_ids with_arrival with_prompt prompt_token_ids num_prompt_tokens output_token_ids
         block_hashes sampling_params status].
    split; [by rewrite Ht|]. split; [done|]. split; [done|].
    apply update_hashes_frame in E. rewrite E in Hr' |- *. done.
Qed.

(** C40: when no hashed block contains the discarded last token and the next input has no
    multi-modal part, a session update never raises: it keeps the computed tokens,
    turns them and the new input into the prompt, takes over the sampling parameters,
    leaves the request with exactly the hashes of its tokens and puts it back among the
    waiting ones; a session that waited for input is counted off, and no other
    request changes. *)
Theorem session_update_hashes {K E W C EC} now (s : Scheduler K E W C EC) i bs u prompt :
  0 < bs → session_ready bs (objs s i) prompt → su_mm_features u = None →
  ∃ s', _update_request_as_session (hasher bs) now s i u = Ok s'
    ∧ all_token_ids (objs s' i) = session_tokens (objs s i) u
    ∧ prompt_token_ids (objs s' i) = Some (session_tokens (objs s i) u)
    ∧ num_prompt_tokens (objs s' i) = zlen (session_tokens (objs s i) u) ∧ output_token_ids (objs s' i) = []
    ∧ block_hashes (objs s' i) = ref_hashes bs (objs s' i)
    ∧ sampling_params (objs s' i) = su_sampling_params u ∧ status (objs s' i) = WAITING
    ∧ num_waiting_for_streaming_input s' = num_waiting_for_streaming_input s
        - (if decide (status (objs s i) = WAITING_FOR_STREAMING_REQ) then 1 else 0)
    ∧ ∀ j, j ≠ i → objs s' j = objs s j.
Proof.
  intros Hb Hr Hu. destruct (session_request_spec bs (objs s i) u prompt Hb Hr Hu)
    as (r' & Er & H1 & H2 & H3 & H4 & H5 & H6 & H7).
  unfold _update_request_as_session. rewrite Er. cbn [mbind res_bind]. rewrite H7. eexists. split; [done|].
  set (r1 := if log_stats _ then _ else _).
  assert (objs (put (if bool_decide (status (objs s i) = WAITING_FOR_STREAMING_REQ)
    then with_streaming_count s (num_waiting_for_streaming_input s - 1) else s) i r1) i = r1) as ->
    by (cbn; by rewrite Z.eqb_refl).
  assert (∃ l, r1 = with_events (with_status r' WAITING) l) as [l ->].
  { unfold r1. destruct (log_stats _); [by eexists|]. exists (events r'). by destruct r'. }
  split_and!; try done.
  - cbn. case_bool_decide; case_decide; try done; cbn; lia.
  - intros j Hj. cbn. rewrite (proj2 (Z.eqb_neq _ _)) by done. by case_bool_decide.
Qed.

(** The token limit of the update is not used: the session keeps its own. *)
Theorem session_ignores_max_tokens bs r u r' :
  session_request (hasher bs) r u = Ok r' → max_tokens r' = max_tokens r.
Proof.
  unfold session_request. cbn [prompt_token_ids with_tokens]. destruct (prompt_token_ids r); [|done].
  intros E. inv_ok. apply update_hashes_frame in Hb. cbn. rewrite Hb. cbn. by repeat case_match.
Qed.

(** ** An update that replaces the last token of a hashed block *)

(** A text request with the given tokens and their hashes. *)
Definition text_request (toks : list Z) : Request :=
  get_ok blank_request
    (example_request (request_block_hasher sha256 hash_fn NONE_HASH 2) toks [] None None).
(** Three prompt tokens and one sampled token fill two blocks of two. *)
Definition streamed_request : Request :=
  get_ok blank_request
    (append_output_token_ids (hasher 2) (with_num_computed_tokens (text_request [5; 6; 7]) 3) [8]).
Definition chunk_update : StreamingUpdate := mkUpdate None (Some [9]) 4 1 (Some example_sampling).

(** When the discarded sampled token completed a hashed block, the session
    keeps the hash of that block: whatever the hash function, the request then
    has the tokens 5 6 7 9 and the block hashes of the tokens 5 6 7 8, so its
    block is registered in the prefix cache under the hash of other tokens. *)
Theorem session_keeps_stale_hash :
  block_hashes streamed_request = ref_hashes 2 streamed_request
  ∧ num_computed_tokens streamed_request = num_tokens streamed_request - 1
  ∧ ∃ r', session_request (hasher 2) streamed_request chunk_update = Ok r'
      ∧ all_token_ids r' = [5; 6; 7; 9] ∧ zlen (block_hashes r') = 2
      ∧ block_hashes r' = block_hashes (text_request [5; 6; 7; 8]).
Proof.
  split; [vm_compute; reflexivity|]. split; [vm_compute; reflexivity|].
  eexists. split; [vm_compute; reflexivity|]. split_and!; vm_compute; reflexivity.
Qed.
End session.


(** ** The model's output *)

Section output.
Context (sha256 : bytes → bytes) (hash_fn : hash_input → bytes) (NONE_HASH : bytes).

(** The hasher of the requests: that of the prefix cache for blocks of [bs] tokens, or
    none. *)
Context (hashing : option Z).
#[local] Abbreviation hasher := (request_block_hasher sha256 hash_fn NONE_HASH <$> hashing).
#[local] Abbreviation ref_hashes := (ref_hashes sha256 hash_fn NONE_HASH).

(** A request whose hashes are those of its tokens, and whose multi-modal inputs are
    ordered, within its tokens, and all but the last within the blocks hashed so far. *)
Definition hash_ready (r : Request) : Prop :=
  match hashing with
  | None => True
  | Some bs => 0 < bs ∧ mm_wf (mm_features r) ∧ embed_cache_ok sha256 r ∧ block_hashes r = ref_hashes bs r
      ∧ Forall (λ f, feat_end f ≤ num_tokens r) (mm_features r)
      ∧ (block_hashes r ≠ [] → only_last_open (mm_features r) (zlen (block_hashes r) * bs))
  end.

Lemma hash_ready_status r st reason :
  hash_ready r → hash_ready (with_stop_reason (with_status r st) reason).
Proof. unfold hash_ready. by destruct hashing. Qed.

(** [r'] is [r] with the tokens [out] appended, up to hashes, status and stop reason. *)
Record grown (r : Request) (out : list Z) (r' : Request) : Prop := {
  gr_output : output_token_ids r' = output_token_ids r ++ out;
  gr_all : all_token_ids r' = all_token_ids r ++ out;
  gr_sampling : sampling_params r' = sampling_params r;
  gr_pooling : pooling_params r' = pooling_params r;
  gr_max : max_tokens r' = max_tokens r;
  gr_computed : num_computed_tokens r' = num_computed_tokens r;
  gr_id : request_id r' = request_id r;
  gr_oid : object_id r' = object_id r;
}.

Lemma grown_nil r : grown r [] r.
Proof. split; rewrite ?app_nil_r; done. Qed.

Lemma grown_trans r o1 r1 o2 r2 : grown r o1 r1 → grown r1 o2 r2 → grown r (o1 ++ o2) r2.
Proof. intros [] []. split; try congruence; rewrite app_assoc; congruence. Qed.

(** Longer requests have all inputs but the last within their hashed blocks. *)
Lemma last_open_longer bs r r' :
  0 < bs → block_hashes r = ref_hashes bs r → block_hashes r' = ref_hashes bs r' → num_tokens r ≤ num_tokens r' →
  mm_features r' = mm_features r → Forall (λ f, feat_end f ≤ num_tokens r) (mm_features r) →
  (block_hashes r ≠ [] → only_last_open (mm_features r) (zlen (block_hashes r) * bs)) →
  block_hashes r' ≠ [] → only_last_open (mm_features r') (zlen (block_hashes r') * bs).
Proof.
  intros Hb Hh Hh' Hle Em Hin Hopen Hne. rewrite Em.
  assert (∀ r0, zlen (ref_hashes bs r0) = num_tokens r0 / bs) as Hlen.
  { intros r0. unfold zlen. rewrite length_ref_hashes. unfold num_full_blocks.
    pose proof (zlen_nonneg (all_token_ids r0)). unfold num_tokens. rewrite Z2Nat.id; [done|]. apply Z.div_pos; lia. }
  rewrite Hh', Hlen. destruct (decide (block_hashes r = [])) as [E|E].
  - apply Forall_take. eapply Forall_impl; [exact Hin|]. intros f Hf. cbv beta in *.
    assert (num_tokens r / bs = 0) as E0 by (by rewrite <- Hlen, <- Hh, E).
    assert (num_tokens r' / bs ≠ 0) by (rewrite <- Hlen, <- Hh'; by rewrite zlen_0).
    pose proof (zlen_nonneg (all_token_ids r')) as Hn. pose proof (Z.div_pos (num_tokens r') bs Hn Hb).
    pose proof (Z.mul_succ_div_gt (num_tokens r) bs Hb). rewrite E0 in *. nia.
  - eapply Forall_impl; [apply (Hopen E)|]. intros f Hf. cbv beta in *. rewrite Hh, Hlen in Hf.
    pose proof (Z.div_le_mono _ _ bs Hb Hle). nia.
Qed.

Lemma append_grown r toks :
  hash_ready r →
  ∃ r', append_output_token_ids hasher r toks = Ok r' ∧ grown r toks r'
    ∧ status r' = status r ∧ stop_reason r' = stop_reason r ∧ hash_ready r'.
Proof.
  unfold hash_ready. destruct hashing as [bs|]; cbn [fmap option_fmap option_map].
  - intros (Hb & Hw & Hc & Hh & Hin & Hopen).
    destruct (append_hashes_spec sha256 hash_fn NONE_HASH bs r toks Hb Hw Hc Hh Hopen) as (r' & E & Et & Hh' & Hc').
    exists r'. split; [done|]. unfold append_output_token_ids in E. apply update_hashes_frame in E.
    assert (mm_features r' = mm_features r) as Em by (by rewrite E).
    assert (num_tokens r ≤ num_tokens r') as Hle.
    { unfold num_tokens. rewrite Et, zlen_app. pose proof (zlen_nonneg toks). lia. }
    split_and!; try done; try (rewrite E; by split); try (by rewrite Em); [|by apply (last_open_longer bs r r')].
    rewrite Em. eapply Forall_impl; [exact Hin|]. intros f ?. cbv beta in *. lia.
  - intros _. eexists. split; [done|]. by split; [split|].
Qed.

(** Room for another token. *)
Definition below_limits (r : Request) (max_len : Z) : Prop :=
  num_output_tokens r < max_tokens r ∧ num_tokens r < max_len.

(** A request that has reached a limit stops. *)
Lemma stop_at_limit r sp max_len t o :
  stop_outcome r sp max_len t o → minimum_ok r sp max_len → ¬ below_limits r max_len → o ≠ None.
Proof.
  unfold stop_outcome, minimum_ok, below_limits. intros Ho [Hm1 Hm2] Hlim.
  destruct (_ <? _) eqn:E; to_prop; [lia|]. repeat case_decide; try (by subst). lia.
Qed.

Lemma append_until_stop_spec r sp max_len pre toks :
  hash_ready r → pooling_params r = None → sampling_params r = Some sp →
  below_limits r max_len → minimum_ok r sp max_len →
  ∃ k stopped r', append_until_stop hasher r max_len pre toks = Ok (pre ++ take k toks, stopped, r')
    ∧ grown r (take k toks) r' ∧ hash_ready r'
    ∧ num_output_tokens r' ≤ max_tokens r' ∧ num_tokens r' ≤ max_len
    ∧ if stopped : bool then is_finished r' = true ∧ (0 < k ≤ List.length toks)%nat
      else k = List.length toks ∧ status r' = status r ∧ below_limits r' max_len.
Proof.
  revert r pre. induction toks as [|t toks IH]; intros r pre Hd Hp Hs Hlim Hmin; cbn [append_until_stop].
  { exists 0%nat, false, r. rewrite app_nil_r. unfold below_limits in Hlim.
    split_and!; try done; try lia. apply grown_nil. }
  destruct (append_grown r [t] Hd) as (r1 & -> & Hg & Est & Esr & Hd1). cbn [mbind res_bind].
  assert (last (output_token_ids r1) = Some t) as Hlast by (rewrite (gr_output _ _ _ Hg); apply last_snoc).
  destruct (check_stop_spec r1 sp max_len t) as (b & r2 & -> & Hfin & Hsame & Hr2 & Hout);
    [by rewrite (gr_pooling _ _ _ Hg)|by rewrite (gr_sampling _ _ _ Hg)|done|].
  cbn [mbind res_bind].
  assert (num_output_tokens r1 = num_output_tokens r + 1 ∧ num_tokens r1 = num_tokens r + 1) as [En Et].
  { unfold num_output_tokens, num_tokens. rewrite (gr_output _ _ _ Hg), (gr_all _ _ _ Hg), !zlen_app. done. }
  assert (grown r [t] r2) as Hg2 by (rewrite Hr2; destruct b; [|done]; destruct Hg; by split).
  destruct b.
  - exists 1%nat, true, r2. split; [done|]. split; [done|].
    split; [rewrite Hr2; by apply hash_ready_status|]. rewrite Hr2. unfold below_limits in Hlim. cbn. pose proof (gr_max _ _ _ Hg).
    unfold num_output_tokens, num_tokens in *. cbn. rewrite Hr2 in Hfin. cbn in Hfin.
    split_and!; [lia|lia|done|lia|lia].
  - rewrite Hsame by done. assert (below_limits r1 max_len) as Hlim1.
    { destruct (decide (num_output_tokens r1 < max_tokens r1 ∧ num_tokens r1 < max_len)) as [?|Hn]; [done|].
      exfalso. eapply (stop_at_limit r1 sp max_len t None); [exact Hout| |exact Hn|done].
      unfold minimum_ok in *. rewrite (gr_max _ _ _ Hg). lia. }
    destruct (IH r1 (pre ++ [t]) Hd1) as (k & stopped & r' & E & Hg' & Hd' & Ho & Ha & Hrest).
    { by rewrite (gr_pooling _ _ _ Hg). }
    { by rewrite (gr_sampling _ _ _ Hg). }
    { done. }
    { unfold minimum_ok in *. rewrite (gr_max _ _ _ Hg). lia. }
    exists (S k), stopped, r'. rewrite E, <- app_assoc. split; [done|].
    split; [apply (grown_trans r [t] r1 (take k toks) r' Hg Hg')|]. split; [done|]. split; [done|]. split; [done|].
    destruct stopped; cbn [List.length]; [destruct Hrest; split; [done|lia]|].
    destruct Hrest as (-> & Hst & ?). split; [done|]. split; [congruence|done].
Qed.

Context {K E W C EC : Type}.

(** C39: for a generation request below its token limits whose minimum fits under them, with
    the block hasher of the prefix cache or without one, processing the sampled tokens
    never raises: a prefix of them is appended, all of them unless the request stops at
    the last one kept; its hashes stay those of its tokens; the request never has more
    outputs than [max_tokens] nor more tokens than the model length, and one that does not
    stop is still below both limits. *)
Theorem update_output_limits (s : Scheduler K E W C EC) i sp toks :
  let r := objs s i in
  let max_len := max_model_len (cfg s) in
  hash_ready r → pooling_params r = None → sampling_params r = Some sp →
  below_limits r max_len → minimum_ok r sp max_len →
  ∃ k stopped r', _update_request_with_output hasher s i toks = Ok (take k toks, stopped, put s i r')
    ∧ grown r (take k toks) r' ∧ hash_ready r'
    ∧ num_output_tokens r' ≤ max_tokens r' ∧ num_tokens r' ≤ max_len
    ∧ if stopped : bool then is_finished r' = true ∧ (0 < k ≤ List.length toks)%nat
      else k = List.length toks ∧ status r' = status r ∧ below_limits r' max_len.
Proof.
  intros r max_len Hd Hp Hs Hlim Hmin. unfold _update_request_with_output.
  destruct (append_until_stop_spec r sp max_len [] toks Hd Hp Hs Hlim Hmin) as (k & st & r' & Eq & Hrest).
  fold r. fold max_len. rewrite Eq. cbn [mbind res_bind]. by exists k, st, r'.
Qed.
End output.

(** ** A minimum beyond the model length *)

(** The last token the model can take has been computed, and the minimum number
    of outputs is not reached. *)
Record starved (c : SchedConfig) (r : Request) (sp : SamplingParams) : Prop := {
  sv_full : num_tokens r = max_model_len c;
  sv_computed : num_computed_tokens r = max_model_len c - 1;
  sv_drafts : spec_token_ids r = [];
  sv_placeholders : num_output_placeholders r = 0;
  sv_minimum : num_output_tokens r < sp_min_tokens sp;
}.

Section starvation.
Context {K E W C EC P : Type}.
Context `{KVManager K, EncoderCacheOps E, RequestQueue W, QueueImpl W, KVConnector C P, ECConnector EC}.

(** A text request whose [min_tokens] exceeds what fits into the model length
    neither stops nor runs once the model length is reached: the stop check
    ignores the length limit until the minimum is reached, and the scheduler
    passes over the request without changing anything, in every step. *)
Theorem minimum_beyond_length_starves (now : Z) (s : Scheduler K E W C EC) (t : Step) idx i sp :
  py_index (running s) idx = Ok i →
  pooling_params (objs s i) = None → sampling_params (objs s i) = Some sp →
  mm_features (objs s i) = [] → need_mamba_block_aligned_split (cfg s) = false →
  0 < token_budget t → starved (cfg s) (objs s i) sp →
  check_stop (objs s i) (max_model_len (cfg s)) = Ok (false, objs s i)
  ∧ schedule_running_one now s t idx = Ok (Next (s, t, idx + 1)).
Proof.
  intros Hi Hp Hs Hmm Hm Hb [Hf Hc Hd Hpl Hmin]. split.
  - unfold check_stop. rewrite bool_decide_eq_true_2, Hs by done. by rewrite (proj2 (Z.ltb_lt _ _)).
  - unfold schedule_running_one. rewrite Hi. cbn [mbind res_bind]. rewrite Hpl. cbn [Z.ltb Z.compare andb].
    assert (has_encoder_inputs (objs s i) = false) as -> by (unfold has_encoder_inputs, num_encoder_inputs; by rewrite Hmm).
    cbn [mbind res_bind]. rewrite Hm. cbn [mbind res_bind].
    assert (running_tokens (cfg s) (objs s i) (token_budget t) = 0) as ->; [|done].
    unfold running_tokens, num_tokens_with_spec. rewrite Hd, Hpl, Hc.
    change (zlen (all_token_ids (objs s i))) with (num_tokens (objs s i)). rewrite Hf.
    change (zlen (@nil Z)) with 0. case_match eqn:Et; to_prop; lia.
Qed.
End starvation.

(** ** Examples *)

Definition chatty_sampling : SamplingParams := mkSampling (Some 100) 80 None None None None false.

(** One prompt token and 63 outputs under a model length of 64. *)
Definition chatty_request : Request :=
  with_status (with_num_computed_tokens
    (with_tokens (with_arrival (with_prompt blank_request (Some [1]) 1) 0 (Some chatty_sampling))
       (zreplicate 63 5) (1 :: zreplicate 63 5)) 63) RUNNING.

Definition chatty_sched : Scheduler KVCacheManager EncoderCacheManager FCFSRequestQueue Empty_set Empty_set :=
  mkScheduler example_config (λ _, chatty_request) [("", 0)] (mkFCFS []) (mkFCFS []) [0] ∅ None ∅ 0 ∅ ∅
    (mkKVCacheManager 64 true None 1 blank_coordinator) (encoder_init 10) None None None UNPAUSED.

Lemma minimum_beyond_length_starves_witness :
  check_stop chatty_request 64 = Ok (false, chatty_request)
  ∧ schedule_running_one (H := KVCacheManager_ops true (λ b, b)) 0 chatty_sched (empty_step 8 0) 0
      = Ok (Next (chatty_sched, empty_step 8 0, 1)).
Proof.
  apply (minimum_beyond_length_starves (H := KVCacheManager_ops true (λ b, b)) 0 chatty_sched (empty_step 8 0) 0 0 chatty_sampling).
  - reflexivity.
  - reflexivity.
  - reflexivity.
  - reflexivity.
  - reflexivity.
  - reflexivity.
  - split; reflexivity.
Defined.

(** A request over hashed blocks of two tokens, with one image. *)
Definition answering_request : Request :=
  with_arrival (get_ok blank_request (example_request example_hasher [5; 6; 7] [feature "img" 1 2] None None))
    0 (Some talking_sampling).
Definition answering_sched : Scheduler KVCacheManager EncoderCacheManager FCFSRequestQueue Empty_set Empty_set :=
  with_objs chatty_sched (λ _, answering_request).

Lemma update_output_limits_witness :
  ∃ k stopped r', _update_request_with_output (Some example_hasher) answering_sched 0 [5; 0; 7]
    = Ok (take k [5; 0; 7], stopped, put answering_sched 0 r')
    ∧ block_hashes r' = ref_hashes (λ b, b) example_hash [] 2 r'.
Proof.
  destruct (update_output_limits (λ b, b) example_hash [] (Some 2) answering_sched 0 talking_sampling [5; 0; 7])
    as (k & st & r' & E & _ & (_ & _ & _ & Hh & _) & _).
  - split; [done|]. split; [by apply mm_wf_single|]. split; [intros ? ? ? Hl; vm_compute in Hl; discriminate Hl|].
    split; [vm_compute; reflexivity|]. split; [|intros _; constructor].
    constructor; [vm_compute; discriminate|constructor].
  - reflexivity.
  - reflexivity.
  - split; reflexivity.
  - split; vm_compute; discriminate.
  - exists k, st, r'. split; [exact E|exact Hh].
Defined.

(** A session whose input of three tokens is computed and that waits for the next one. *)
Definition session_sched : Scheduler KVCacheManager EncoderCacheManager FCFSRequestQueue Empty_set Empty_set :=
  with_streaming_count (with_objs chatty_sched (λ _, with_status
    (with_num_computed_tokens (text_request (λ b, b) example_hash [] [5; 6; 7]) 3) WAITING_FOR_STREAMING_REQ)) 1.

Lemma session_update_hashes_witness :
  ∃ s', _update_request_as_session (Some example_hasher) 7 session_sched 0 chunk_update = Ok s'
    ∧ all_token_ids (objs s' 0) = [5; 6; 7; 9] ∧ status (objs s' 0) = WAITING
    ∧ num_waiting_for_streaming_input s' = 0.
Proof.
  destruct (session_update_hashes (λ b, b) example_hash [] 7 session_sched 0 2 chunk_update [5; 6; 7])
    as (s' & E & Et & _ & _ & _ & _ & _ & Est & En & _).
  - lia.
  - split.
    + vm_compute. reflexivity.
    + vm_compute. reflexivity.
    + vm_compute. reflexivity.
    + vm_compute. split; discriminate.
    + vm_compute. split; constructor.
    + intros s e h Hl. vm_compute in Hl. discriminate Hl.
    + vm_compute. reflexivity.
    + vm_compute. discriminate.
    + intros _. vm_compute. constructor.
  - reflexivity.
  - exists s'. split; [exact E|]. split; [rewrite Et; vm_compute; reflexivity|]. split; [exact Est|].
    rewrite En. vm_compute. reflexivity.
Defined.
