(* ===== verification/SchedLaws.v ===== *)
(** * What the scheduler relies on

    The laws of the interfaces of Scheduler.v, with the instances that the queues
    and the encoder caches discharge, and the lemmas about queues of shared
    objects derived from them. *)

From Stdlib Require Import String.
From S2P Require Import Prelude Request BlockHash KVCacheManager EncoderCache HeapQueue.
From S2P Require Import RequestQueue SchedUtils Scheduler.
#[local] Open Scope Z_scope.

(** ** The KV-cache manager *)

(** [kv_ok] is the manager's invariant, [kv_slots k id] the number of tokens a
    request has slots for, [kv_logs] whether it keeps statistics, [kv_hashing] the
    size of a hashed block with prefix caching, [kv_request_ok k r] what the
    manager needs of the request object, and [kv_hits k r b n] says that [b] is the prefix hit of [n]
    tokens found for [r] in [k]. *)
Class KVManagerView (K : Type) := {
  kv_ok : K → Prop;
  kv_slots : K → string → Z;
  kv_max_len : K → Z;
  kv_logs : K → bool;
  kv_hashing : K → option Z;
  kv_request_ok : K → Request → Prop;
  kv_hits : K → Request → KVCacheBlocks → Z → Prop;
}.

(** What never changes. *)
Definition kv_params `{KVManagerView K} (k : K) : Z * bool * option Z :=
  (kv_max_len k, kv_logs k, kv_hashing k).

(** Only the slots of request [id] differ. *)
Definition kv_frame `{KVManagerView K} (id : string) (k k' : K) : Prop :=
  kv_params k' = kv_params k ∧ (∀ id', id' ≠ id → kv_slots k' id' = kv_slots k id')
  ∧ ∀ r, kv_request_ok k r → kv_request_ok k' r.

(** No slots differ. *)
Definition kv_quiet `{KVManagerView K} (k k' : K) : Prop :=
  kv_params k' = kv_params k ∧ (∀ id, kv_slots k' id = kv_slots k id)
  ∧ ∀ r, kv_request_ok k r → kv_request_ok k' r.

#[export] Instance kv_quiet_preorder `{KVManagerView K} : PreOrder (kv_quiet (K := K)).
Proof.
  split; [done|]. intros k1 k2 k3 (E1 & S1 & R1) (E2 & S2 & R2). split_and!; [congruence| |auto].
  intros. by rewrite S2, S1.
Qed.

#[export] Instance kv_frame_preorder `{KVManagerView K} id : PreOrder (kv_frame (K := K) id).
Proof.
  split; [done|]. intros k1 k2 k3 (E1 & S1 & R1) (E2 & S2 & R2). split_and!; [congruence| |auto].
  intros. by rewrite S2, S1.
Qed.

Class KVManagerLaws (K : Type) `{KVManager K, KVManagerView K} := {
  kv_slots_nonneg : ∀ k id, kv_ok k → 0 ≤ kv_slots k id;
  (** It depends on the tokens, their hashes and the parameters of the request only. *)
  kv_request_tokens : ∀ k r r', all_token_ids r' = all_token_ids r → block_hashes r' = block_hashes r →
    mm_features r' = mm_features r → prompt_embeds r' = prompt_embeds r →
    prompt_embeds_per_block_hashes r' = prompt_embeds_per_block_hashes r →
    lora_request r' = lora_request r → cache_salt r' = cache_salt r →
    output_token_ids r' = output_token_ids r → num_prompt_tokens r' = num_prompt_tokens r →
    sampling_params r' = sampling_params r → pooling_params r' = pooling_params r → resumable r' = resumable r →
    num_output_placeholders r' = num_output_placeholders r →
    kv_request_ok k r → kv_request_ok k r';
  law_new_step : ∀ k, kv_ok k → kv_ok (kv_new_step_starts k) ∧ kv_quiet k (kv_new_step_starts k);
  law_common_prefix : ∀ k id, kv_ok k →
    ∃ l k', kv_num_common_prefix_blocks k id = Ok (l, k') ∧ kv_ok k' ∧ kv_quiet k k';
  law_take_new : ∀ k, kv_ok k →
    kv_ok (kv_take_new_block_ids k).2 ∧ kv_quiet k (kv_take_new_block_ids k).2;
  law_take_events : ∀ k, kv_ok k → kv_ok (kv_take_events k).2 ∧ kv_quiet k (kv_take_events k).2;
  law_drain : ∀ k, kv_ok k →
    kv_ok (kv_drain_eviction_events k).2 ∧ kv_quiet k (kv_drain_eviction_events k).2;
  law_stats : ∀ k, kv_ok k →
    kv_ok (kv_make_prefix_cache_stats k).2 ∧ kv_quiet k (kv_make_prefix_cache_stats k).2
    ∧ (kv_logs k = true → is_Some (kv_make_prefix_cache_stats k).1);
  (** Slots for [n] more tokens of a request that holds its computed ones. *)
  law_allocate : ∀ k r n blks look,
    kv_ok k → kv_request_ok k r → blks = None ∨ blks = Some EmptyBlocks →
    0 < n → 0 ≤ look → 0 ≤ num_computed_tokens r ≤ kv_slots k (request_id r) →
    num_computed_tokens r + n ≤ kv_max_len k →
    ∃ o k' r', kv_allocate_slots k r n 0 blks look 0 false 0 = Ok (o, k', r')
      ∧ kv_ok k' ∧ kv_frame (request_id r) k k' ∧ same_request r r' ∧ kv_request_ok k' r'
      ∧ match o with
        | Some _ => num_computed_tokens r + n ≤ kv_slots k' (request_id r)
        | None => kv_slots k' (request_id r) = kv_slots k (request_id r)
        end;
  law_free : ∀ k r, kv_ok k →
    ∃ k', kv_free k r = Ok k' ∧ kv_ok k' ∧ kv_frame (request_id r) k k' ∧ kv_slots k' (request_id r) = 0;
  (** A prefix hit for a request without slots. *)
  law_computed : ∀ k r,
    kv_ok k → kv_request_ok k r → kv_slots k (request_id r) = 0 → 0 < num_tokens r →
    ∃ blks n k', kv_get_computed_blocks k r = Ok (blks, n, k') ∧ kv_ok k' ∧ kv_frame (request_id r) k k'
      ∧ kv_slots k' (request_id r) = 0 ∧ 0 ≤ n < num_tokens r ∧ kv_hits k' r blks n;
  law_can_fit : ∀ k r blks n, kv_ok k → kv_request_ok k r → kv_hits k r blks n →
    num_computed_tokens r = 0 →
    ∃ b k', kv_can_fit_full_sequence k r n (Some blks) 0 0 = Ok (b, k') ∧ kv_ok k'
      ∧ kv_frame (request_id r) k k' ∧ kv_slots k' (request_id r) = kv_slots k (request_id r)
      ∧ kv_hits k' r blks n;
  (** The same without a hit, for a request that holds slots. *)
  law_can_fit_empty : ∀ k r, kv_ok k → kv_request_ok k r →
    0 ≤ num_computed_tokens r ≤ kv_slots k (request_id r) →
    ∃ b k', kv_can_fit_full_sequence k r 0 (Some EmptyBlocks) 0 0 = Ok (b, k') ∧ kv_ok k'
      ∧ kv_frame (request_id r) k k' ∧ kv_slots k' (request_id r) = kv_slots k (request_id r);
  law_allocate_hit : ∀ k r n blks local,
    kv_ok k → kv_request_ok k r → kv_hits k r blks local → num_computed_tokens r = 0 →
    0 < n → local + n ≤ kv_max_len k →
    ∃ o k' r', kv_allocate_slots k r n local (Some blks) 0 0 false 0 = Ok (o, k', r')
      ∧ kv_ok k' ∧ kv_frame (request_id r) k k' ∧ same_request r r' ∧ kv_request_ok k' r'
      ∧ match o with
        | Some _ => local + n ≤ kv_slots k' (request_id r)
        | None => kv_slots k' (request_id r) = kv_slots k (request_id r)
        end;
}.

(** ** The encoder cache, for text *)

Class EncoderTextLaws (E : Type) `{EncoderCacheOps E} := {
  law_free_text : ∀ e r, mm_features r = [] → ec_free e r = Ok e;
}.

#[export] Instance EncoderCacheManager_text : EncoderTextLaws EncoderCacheManager.
Proof.
  split. intros e r Hr. cbn. unfold encoder_free, get_cached_input_ids. by rewrite Hr.
Qed.
#[export] Instance EncoderDecoderCacheManager_text : EncoderTextLaws EncoderDecoderCacheManager.
Proof. split. intros e r Hr. cbn. unfold encdec_free. by rewrite Hr. Qed.

(** ** Queues of shared objects *)

(** The layout of a queue: replacing objects keeps it, as long as the attributes
    that order them are the same. *)
Class QueueImplLaws (W : Type) `{RequestQueueLaws W, QueueImpl W} := {
  qi_new : queue_ok new_queue ∧ queue_items new_queue = [];
  qi_map : ∀ f q, queue_items (queue_map f q) = f <$> queue_items q;
  qi_map_map : ∀ f g q, queue_map f (queue_map g q) = queue_map (f ∘ g) q;
  qi_map_ext : ∀ f g q, (∀ r, r ∈ queue_items q → f r = g r) → queue_map f q = queue_map g q;
  qi_map_ok : ∀ f q, (∀ r, r ∈ queue_items q → request_key (f r) = request_key r) →
    queue_ok q → queue_ok (queue_map f q);
  qi_iter : ∀ q l, queue_ok q → queue_iter q = Ok l → l ≡ₚ queue_items q;
  qi_len : ∀ q, queue_len q = zlen (queue_items q);
  qi_peek : ∀ f q, peek_request (queue_map f q) = f <$> peek_request q;
}.

#[export] Instance FCFS_impl_laws : QueueImplLaws FCFSRequestQueue.
Proof.
  split; try done.
  - intros f g [l]. cbn. f_equal. by rewrite list_fmap_compose.
  - intros f g [l] Hfg. cbn in *. f_equal. apply list_fmap_ext. intros i x Hx.
    apply Hfg. by eapply list_elem_of_lookup_2.
  - intros q l _ [= <-]. done.
  - by intros f [[|r l]].
Qed.

Lemma request_lt_key a b a' b' :
  request_key a' = request_key a → request_key b' = request_key b → request_lt a' b' = request_lt a b.
Proof.
  intros Ha Hb. apply eq_true_iff_eq. rewrite !request_lt_iff. by rewrite Ha, Hb.
Qed.

Lemma priority_map_ok f q :
  (∀ r, r ∈ pq_heap q → request_key (f r) = request_key r) → priority_ok q →
  priority_ok (mkPriority (f <$> pq_heap q)).
Proof.
  intros Hf Hok i Hi Hs x y. cbn [pq_heap]. rewrite !list_lookup_fmap.
  intros Hx Hy. apply fmap_Some in Hx as (x0 & Hx & ->), Hy as (y0 & Hy & ->).
  specialize (Hok i Hi Hs x0 y0 Hx Hy). unfold le in *.
  rewrite (request_lt_key x0 y0); [done|..]; apply Hf; by eapply list_elem_of_lookup_2.
Qed.

#[export] Instance Priority_impl_laws : QueueImplLaws PriorityRequestQueue.
Proof.
  split.
  - split; [|done]. by intros [|i] _ _ ? ? ?.
  - done.
  - intros f g [l]. cbn. f_equal. by rewrite list_fmap_compose.
  - intros f g [l] Hfg. cbn in *. f_equal. apply list_fmap_ext. intros i x Hx.
    apply Hfg. by eapply list_elem_of_lookup_2.
  - intros f q. apply priority_map_ok.
  - intros q l Hq E. by apply priority_iter_perm.
  - done.
  - by intros f [[|r l]].
Qed.

Section queues.
Context {K E W C EC : Type} `{QueueImplLaws W}.
#[local] Abbreviation sched := (Scheduler K E W C EC).
Implicit Types (s : sched) (q : W).

(** The identities of the requests in a queue. *)
Definition ids (q : W) : list Z := object_id <$> queue_items q.

(** The store of objects is indexed by identity. *)
Definition objs_ok (s : sched) : Prop := ∀ i, object_id (objs s i) = i.

(** The queue is in order for the current attributes of its objects. *)
Definition q_ok (s : sched) (q : W) : Prop := queue_ok (current s q).

Lemma current_items s q : queue_items (current s q) = objs s <$> ids q.
Proof. unfold current, ids. rewrite qi_map, <- list_fmap_compose. done. Qed.

Lemma ids_current s q : objs_ok s → ids (current s q) = ids q.
Proof.
  intros Ho. unfold ids at 1. rewrite current_items, <- list_fmap_compose.
  rewrite <- (list_fmap_id (ids q)) at 2. apply list_fmap_ext. intros i x _. apply Ho.
Qed.

Lemma q_empty_iff q : q_empty q = true ↔ ids q = [].
Proof.
  unfold q_empty. rewrite Z.eqb_eq, qi_len, zlen_0. unfold ids.
  destruct (queue_items q); cbn; split; congruence.
Qed.

Lemma queue_len_ids q : queue_len q = zlen (ids q).
Proof. rewrite qi_len. unfold ids, zlen. by rewrite length_fmap. Qed.

(** A queue of current objects. *)
Lemma q_ok_fresh s q :
  objs_ok s → queue_ok q → (∀ r, r ∈ queue_items q → ∃ i, r = objs s i) → q_ok s q.
Proof.
  intros Ho Hq Hf. apply qi_map_ok; [|done]. intros r (i & ->)%Hf. by rewrite Ho.
Qed.

Lemma q_ok_change s s' q :
  objs_ok s → (∀ i, i ∈ ids q → request_key (objs s' i) = request_key (objs s i)) →
  q_ok s q → q_ok s' q.
Proof.
  intros Ho Hk Hq. unfold q_ok, current.
  rewrite (qi_map_ext _ ((λ r, objs s' (object_id r)) ∘ (λ r, objs s (object_id r)))).
  - rewrite <- qi_map_map. apply qi_map_ok; [|exact Hq]. intros r Hr. fold (current s q) in Hr.
    rewrite current_items in Hr. apply list_elem_of_fmap in Hr as (i & -> & Hi). rewrite Ho. by apply Hk.
  - intros r _. cbn. by rewrite Ho.
Qed.

Lemma oid_objs s (l : list Z) : objs_ok s → object_id <$> (objs s <$> l) = l.
Proof. intros Ho. induction l as [|i l IH]; [done|]. cbn. by rewrite Ho, IH. Qed.

(** The order of service of a consistent queue. *)
Lemma q_view s q :
  objs_ok s → q_ok s q → ∃ l, queue_iter (current s q) = Ok (objs s <$> l) ∧ l ≡ₚ ids q.
Proof.
  intros Ho Hq. destruct (law_iter _ Hq) as (rs & E0 & _). pose proof (qi_iter _ _ Hq E0) as Hp.
  rewrite current_items in Hp. exists (object_id <$> rs).
  assert (∀ r, r ∈ rs → objs s (object_id r) = r) as Hfix.
  { intros r Hr. rewrite Hp in Hr. apply list_elem_of_fmap in Hr as (i & -> & _). by rewrite Ho. }
  split.
  - rewrite E0, <- list_fmap_compose. f_equal. rewrite <- (list_fmap_id rs) at 1. apply list_fmap_ext.
    intros j r Hr. symmetry. apply Hfix. by eapply list_elem_of_lookup_2.
  - by rewrite Hp, oid_objs.
Qed.

(** The result of a method, from its iteration. *)
Lemma q_result s q l : objs_ok s → queue_ok q → queue_iter q = Ok l → (∃ l0, l ≡ₚ objs s <$> l0) →
  q_ok s q ∧ ids q ≡ₚ object_id <$> l.
Proof.
  intros Ho Hq E0 (l0 & Hl). pose proof (qi_iter _ _ Hq E0) as Hp. split.
  - apply q_ok_fresh; [done..|]. intros r Hr. rewrite <- Hp, Hl in Hr.
    apply list_elem_of_fmap in Hr as (i & -> & _). eauto.
  - unfold ids. by rewrite Hp.
Qed.

Lemma q_add_spec s q i :
  objs_ok s → q_ok s q → ∃ q', q_add s q i = Ok q' ∧ q_ok s q' ∧ ids q' ≡ₚ i :: ids q.
Proof.
  intros Ho Hq. destruct (q_view s q Ho Hq) as (l & E0 & Hl).
  destruct (law_add _ (objs s i) _ Hq E0) as (q' & l' & Ea & Hq' & E1 & Hp).
  destruct (q_result s q' l' Ho Hq' E1) as [? Hi]; [by exists (i :: l)|].
  exists q'. split_and!; [done..|]. rewrite Hi, Hp. cbn. by rewrite Ho, oid_objs, Hl.
Qed.

Lemma q_prepend_spec s q i :
  objs_ok s → q_ok s q → ∃ q', q_prepend s q i = Ok q' ∧ q_ok s q' ∧ ids q' ≡ₚ i :: ids q.
Proof.
  intros Ho Hq. destruct (q_view s q Ho Hq) as (l & E0 & Hl).
  destruct (law_prepend _ (objs s i) _ Hq E0) as (q' & l' & Ea & Hq' & E1 & Hp).
  destruct (q_result s q' l' Ho Hq' E1) as [? Hi]; [by exists (i :: l)|].
  exists q'. split_and!; [done..|]. rewrite Hi, Hp. cbn. by rewrite Ho, oid_objs, Hl.
Qed.

Lemma q_pop_spec s q :
  objs_ok s → q_ok s q → ids q ≠ [] →
  ∃ i q', q_peek s q = Ok i ∧ q_pop s q = Ok (i, q') ∧ q_ok s q' ∧ ids q ≡ₚ i :: ids q'.
Proof.
  intros Ho Hq Hne. destruct (q_view s q Ho Hq) as ([|i l] & E0 & Hl).
  { by apply Permutation_nil_l in Hl. }
  rewrite fmap_cons in E0. destruct (law_pop _ _ _ Hq E0) as (Epk & q' & Epop & Hq' & E1).
  destruct (q_result s q' _ Ho Hq' E1) as [? Hi]; [by exists l|].
  exists i, q'. unfold q_peek, q_pop. rewrite Epk, Epop. cbn. rewrite Ho. split_and!; [done..|].
  by rewrite Hi, oid_objs, <- Hl by done.
Qed.

Lemma q_prepend_all_spec s q other :
  objs_ok s → q_ok s q → q_ok s other →
  ∃ q', q_prepend_all s q other = Ok q' ∧ q_ok s q' ∧ ids q' ≡ₚ ids other ++ ids q.
Proof.
  intros Ho Hq Hq2. unfold q_prepend_all. destruct (q_view s q Ho Hq) as (l & E0 & Hl).
  destruct (q_view s other Ho Hq2) as (l2 & -> & Hl2). cbn [mbind res_bind].
  destruct (law_prepend_all _ (objs s <$> l2) _ Hq E0) as (q' & l' & Ea & Hq' & E1 & Hp).
  destruct (q_result s q' l' Ho Hq' E1) as [? Hi]; [exists (l2 ++ l); by rewrite Hp, fmap_app|].
  exists q'. split_and!; [done..|]. rewrite Hi, Hp, fmap_app, !oid_objs by done. by rewrite Hl, Hl2.
Qed.

Lemma q_remove_all_spec s q js :
  objs_ok s → q_ok s q →
  ∃ q', q_remove_all s q js = Ok q' ∧ q_ok s q' ∧ ids q' ≡ₚ filter (λ i, i ∉ js) (ids q).
Proof.
  intros Ho Hq. destruct (q_view s q Ho Hq) as (l & E0 & Hl).
  destruct (law_remove_all _ (objs s <$> js) _ Hq E0) as (q' & l' & Ea & Hq' & E1 & Hp).
  assert (filter (λ r, ¬ in_requests r (objs s <$> js)) (objs s <$> l)
    = objs s <$> filter (λ i, i ∉ js) l) as Ef.
  { clear -Ho. induction l as [|i l IH]; [done|]. rewrite fmap_cons, !filter_cons, IH.
    assert (in_requests (objs s i) (objs s <$> js) ↔ i ∈ js) as Hiff.
    { unfold in_requests. by rewrite (oid_objs s js Ho), Ho. }
    repeat case_decide; tauto || done. }
  rewrite Ef in Hp. destruct (q_result s q' l' Ho Hq' E1) as [? Hi]; [by eexists|].
  exists q'. split_and!; [done..|]. rewrite Hi, Hp, oid_objs by done. by rewrite Hl.
Qed.
End queues.
