(* ===== verification/SchedWF.v ===== *)
(** * The scheduler's invariant

    Well-formed scheduler states, for text requests without connectors: every
    request is in exactly one of the running list and the two waiting queues,
    with the status that belongs there, and holds slots for its computed
    tokens.  The lemmas say which updates keep it. *)

From Stdlib Require Import String.
From S2P Require Import Prelude Request BlockHash KVCacheManager EncoderCache.
From S2P Require Import RequestQueue SchedUtils Scheduler Schedule SchedLaws.
#[local] Open Scope Z_scope.

(** ** Lists and dictionaries *)

Lemma ids_remove_spec l1 v l2 :
  v ∉ l1 → ids_remove (l1 ++ v :: l2) v = Ok (l1 ++ l2).
Proof.
  induction l1 as [|x l1 IH]; cbn [ids_remove app]; [by rewrite Z.eqb_refl|].
  intros [Hx Hl]%not_elem_of_cons. rewrite (proj2 (Z.eqb_neq _ _)) by congruence.
  by rewrite IH.
Qed.

Lemma py_index_last {A} (l : list A) x : py_index (l ++ [x]) (-1) = Ok x.
Proof.
  unfold py_index, zlen. rewrite length_app. cbn [length Z.ltb Z.compare].
  rewrite (proj2 (Z.leb_le _ _)), (proj2 (Z.ltb_lt _ _)) by lia. cbn [andb].
  replace (Z.to_nat _) with (length l) by lia. by rewrite list_lookup_middle.
Qed.

Lemma py_upto_last {A} (l : list A) x : py_upto (l ++ [x]) (-1) = l.
Proof.
  unfold py_upto, py_clamp, zlen. rewrite length_app. cbn [length Z.ltb Z.compare].
  replace (Z.to_nat _) with (length l) by lia. apply take_app_length.
Qed.

(** Removing one element of a list without duplicates. *)
Lemma nodup_middle {A} (l1 l2 : list A) x :
  NoDup (l1 ++ x :: l2) → (x ∉ l1) ∧ (x ∉ l2) ∧ NoDup (l1 ++ l2).
Proof.
  rewrite NoDup_app, NoDup_cons, NoDup_app. intros (H1 & H2 & H3 & H4). split_and!; try done.
  - intros Hx. apply (H2 x Hx). left.
  - intros y Hy Hy2. apply (H2 y Hy). by right.
Qed.

Lemma take_remove {A} (l1 l2 : list A) v k x :
  x ≠ v → x ∈ take k (l1 ++ v :: l2) → x ∈ take k (l1 ++ l2).
Proof.
  intros Hne. destruct (decide (k ≤ length l1)%nat).
  - by rewrite !take_app_le.
  - rewrite !take_app_ge by lia. rewrite !elem_of_app.
    destruct (k - length l1)%nat as [|j] eqn:E; [lia|]. cbn [take]. rewrite elem_of_cons.
    intros [?|[?|Hx]]; [by left|done|]. right.
    assert (∃ m, take (S j) l2 = take j l2 ++ m) as (m & ->).
    { exists (take 1 (drop j l2)). by rewrite take_take_drop, Nat.add_1_r. }
    apply elem_of_app. by left.
Qed.

Lemma elem_of_take_S {A} (l : list A) k x : x ∈ take k l → x ∈ take (S k) l.
Proof.
  intros Hx. rewrite <- (Nat.add_1_r k), <- take_take_drop. apply elem_of_app. by left.
Qed.

(** The removed element was among the first [k]. *)
Lemma take_remove_before {A} (l1 l2 : list A) v k x :
  NoDup (l1 ++ v :: l2) → v ∈ take k (l1 ++ v :: l2) → x ≠ v →
  x ∈ take k (l1 ++ v :: l2) → x ∈ take (k - 1) (l1 ++ l2).
Proof.
  intros Hnd Hv Hne. apply nodup_middle in Hnd as (H1 & H2 & _).
  destruct (decide (k ≤ length l1)%nat).
  { rewrite take_app_le in Hv by done. destruct H1. by apply elem_of_take in Hv as (? & ? & _);
      eapply list_elem_of_lookup_2. }
  rewrite !take_app_ge by lia. rewrite !elem_of_app.
  destruct (k - length l1)%nat as [|j] eqn:E; [lia|]. cbn [take]. rewrite elem_of_cons.
  replace (k - 1 - length l1)%nat with j by lia. tauto.
Qed.

(** ** Well-formed states *)

Section wf.
Context {K E W C EC P : Type}.
Context `{KVManagerLaws K} `{EncoderTextLaws E} `{QueueImplLaws W} `{KVConnector C P} `{ECConnector EC}.
#[local] Abbreviation sched := (Scheduler K E W C EC).
Implicit Types (s : sched).

(** A text request that the scheduler and the KV-cache manager agree on. *)
Record req_ok (k : K) (c : SchedConfig) (d : list (string * Z)) (i : Z) (r : Request) : Prop := {
  ro_kv : kv_request_ok k r;
  ro_text : mm_features r = [];
  ro_computed : 0 ≤ num_computed_tokens r ≤ kv_slots k (request_id r);
  ro_tokens : 1 ≤ num_tokens r ≤ max_model_len c;
  ro_placeholders : 0 ≤ num_output_placeholders r;
  ro_drafts : num_spec_tokens c = 0 → spec_token_ids r = [];
  ro_dict : od_get d (request_id r) = Some i;
}.

(** A request that is not running has work to do; without computed tokens it
    holds no slots. *)
Definition idle_ok (k : K) (r : Request) : Prop :=
  num_computed_tokens r < num_tokens r
  ∧ (num_computed_tokens r = 0 → kv_slots k (request_id r) = 0).

Definition waiting_ok (r : Request) : Prop := status r = WAITING ∨ status r = PREEMPTED.

(** Without a connector nothing waits for remote blocks. *)
Definition skipped_ok (r : Request) : Prop :=
  match status r with
  | WAITING | PREEMPTED | WAITING_FOR_STRUCTURED_OUTPUT_GRAMMAR => True
  | WAITING_FOR_STREAMING_REQ => streaming_queue r = None ∨ streaming_queue r = Some []
  | _ => False
  end.

Definition all_ids (s : sched) : list Z :=
  running s ++ ids (waiting_q s) ++ ids (skipped_waiting s).

Record WF (s : sched) : Prop := {
  wf_objs : objs_ok s;
  wf_nodup : NoDup (all_ids s);
  wf_req : ∀ i, i ∈ all_ids s →
    req_ok (kv_cache_manager s) (cfg s) (requests s) i (objs s i);
  wf_running : ∀ i, i ∈ running s → status (objs s i) = RUNNING;
  wf_waiting : ∀ i, i ∈ ids (waiting_q s) → waiting_ok (objs s i);
  wf_skipped : ∀ i, i ∈ ids (skipped_waiting s) → skipped_ok (objs s i);
  wf_idle : ∀ i, i ∈ ids (waiting_q s) ++ ids (skipped_waiting s) → idle_ok (kv_cache_manager s) (objs s i);
  wf_wq : q_ok s (waiting_q s);
  wf_sq : q_ok s (skipped_waiting s);
  wf_kv : kv_ok (kv_cache_manager s);
  wf_len : kv_max_len (kv_cache_manager s) = max_model_len (cfg s);
  wf_logs : kv_logs (kv_cache_manager s) = log_stats (cfg s);
  wf_unknown : ∀ id, od_get (requests s) id = None → kv_slots (kv_cache_manager s) id = 0;
}.

(** Requests with different identities have different ids. *)
Lemma wf_distinct s i j :
  WF s → j ∈ all_ids s → od_get (requests s) (request_id (objs s i)) = Some i → j ≠ i →
  request_id (objs s j) ≠ request_id (objs s i).
Proof.
  intros Hwf Hj Hi Hne Heq. apply Hne. pose proof (ro_dict _ _ _ _ _ (wf_req s Hwf j Hj)) as Hd.
  rewrite Heq in Hd. congruence.
Qed.

Lemma req_ok_frame k k' max d i r id :
  kv_frame id k k' → request_id r ≠ id → req_ok k max d i r → req_ok k' max d i r.
Proof.
  intros Hf Hne []. destruct Hf as (_ & Hs & Hr). split; auto. by rewrite Hs.
Qed.

Lemma idle_ok_frame k k' r id :
  kv_frame id k k' → request_id r ≠ id → idle_ok k r → idle_ok k' r.
Proof.
  intros Hf Hne [? Hz]. destruct Hf as (_ & Hs & _).
  split; [done|]. rewrite Hs by done. done.
Qed.

Lemma put_ne s k i r j : j ≠ i → objs (put (with_kv s k) i r) j = objs s j.
Proof. intros. cbn. by rewrite (proj2 (Z.eqb_neq _ _)). Qed.
Lemma put_eq s k i r : objs (put (with_kv s k) i r) i = r.
Proof. cbn. by rewrite Z.eqb_refl. Qed.

(** Updating the object of one request together with its slots. *)
Lemma WF_put s i k r :
  WF s → od_get (requests s) (request_id (objs s i)) = Some i →
  kv_ok k → kv_frame (request_id (objs s i)) (kv_cache_manager s) k →
  request_key r = request_key (objs s i) →
  (i ∈ all_ids s → req_ok k (cfg s) (requests s) i r) →
  (i ∈ running s → status r = RUNNING) →
  (i ∈ ids (waiting_q s) → waiting_ok r) → (i ∈ ids (skipped_waiting s) → skipped_ok r) →
  (i ∈ ids (waiting_q s) ++ ids (skipped_waiting s) → idle_ok k r) →
  WF (put (with_kv s k) i r).
Proof.
  intros Hwf Hd Hk Hf Hkey Hreq Hrun Hwait Hskip Hidle.
  assert (∀ j, j ∈ all_ids s → j ≠ i → request_id (objs s j) ≠ request_id (objs s i)) as Hdist.
  { intros j Hj Hne. by apply wf_distinct. }
  assert (object_id r = i) as Hoid.
  { unfold request_key in Hkey. injection Hkey as _ _ _ ->. apply (wf_objs s Hwf). }
  assert (∀ j, request_key (objs (put (with_kv s k) i r) j) = request_key (objs s j)) as Hkeys.
  { intros j. destruct (decide (j = i)) as [->|]; [by rewrite put_eq|by rewrite put_ne]. }
  split; try (cbn [waiting_q skipped_waiting running put with_kv with_objs]).
  - intros j. destruct (decide (j = i)) as [->|]; [by rewrite put_eq|rewrite put_ne by done; apply (wf_objs s Hwf)].
  - apply (wf_nodup s Hwf).
  - intros j Hj. change (all_ids (put (with_kv s k) i r)) with (all_ids s) in Hj.
    destruct (decide (j = i)) as [->|Hne]; [rewrite put_eq; by apply Hreq|]. rewrite put_ne by done.
    eapply req_ok_frame; [exact Hf|by apply Hdist|by apply (wf_req s Hwf)].
  - intros j Hj. destruct (decide (j = i)) as [->|Hne]; [rewrite put_eq; by apply Hrun|].
    rewrite put_ne by done. by apply (wf_running s Hwf).
  - intros j Hj. destruct (decide (j = i)) as [->|Hne]; [rewrite put_eq; by apply Hwait|].
    rewrite put_ne by done. by apply (wf_waiting s Hwf).
  - intros j Hj. destruct (decide (j = i)) as [->|Hne]; [rewrite put_eq; by apply Hskip|].
    rewrite put_ne by done. by apply (wf_skipped s Hwf).
  - intros j Hj. destruct (decide (j = i)) as [->|Hne]; [rewrite put_eq; by apply Hidle|].
    rewrite put_ne by done. eapply idle_ok_frame; [exact Hf| |by apply (wf_idle s Hwf)].
    apply Hdist; [|done]. unfold all_ids. apply elem_of_app. by right.
  - eapply q_ok_change; [apply (wf_objs s Hwf)| |apply (wf_wq s Hwf)]. intros j _. apply Hkeys.
  - eapply q_ok_change; [apply (wf_objs s Hwf)| |apply (wf_sq s Hwf)]. intros j _. apply Hkeys.
  - exact Hk.
  - cbn. destruct Hf as ([= -> _ _] & _ & _). apply (wf_len s Hwf).
  - cbn. destruct Hf as ([= _ -> _] & _ & _). apply (wf_logs s Hwf).
  - cbn. intros id Hid. destruct Hf as (_ & -> & _); [by apply (wf_unknown s Hwf)|]. intros ->. congruence.
Qed.

(** Dropping a request from the running list. *)
Lemma WF_drop_running s l1 v l2 :
  WF s → running s = l1 ++ v :: l2 →
  WF (with_running s (l1 ++ l2)) ∧ v ∉ all_ids (with_running s (l1 ++ l2)).
Proof.
  intros Hwf Hr. assert (NoDup (l1 ++ v :: (l2 ++ ids (waiting_q s) ++ ids (skipped_waiting s)))) as Hnd.
  { pose proof (wf_nodup s Hwf) as Hn. unfold all_ids in Hn. rewrite Hr, <- app_assoc in Hn. exact Hn. }
  apply nodup_middle in Hnd as (H1' & H2' & Hnd). split.
  - assert (∀ i, i ∈ all_ids (with_running s (l1 ++ l2)) → i ∈ all_ids s) as Hsub.
    { unfold all_ids. cbn. rewrite Hr. intros i. rewrite !elem_of_app, elem_of_cons. tauto. }
    destruct Hwf. split; try done.
    + unfold all_ids. cbn. by rewrite <- app_assoc.
    + intros i Hi. by apply wf_req0, Hsub.
    + intros i Hi. apply wf_running0. rewrite Hr. cbn in Hi. rewrite elem_of_app in *. rewrite elem_of_cons. tauto.
  - unfold all_ids. cbn. rewrite !elem_of_app in *. tauto.
Qed.

(** Adding a request to the waiting queue. *)
Lemma WF_add_waiting s i q :
  WF s → i ∉ all_ids s →
  req_ok (kv_cache_manager s) (cfg s) (requests s) i (objs s i) →
  waiting_ok (objs s i) → idle_ok (kv_cache_manager s) (objs s i) →
  q_ok s q → ids q ≡ₚ i :: ids (waiting_q s) →
  WF (with_waiting s q).
Proof.
  intros Hwf Hi Hreq Hw Hidle Hq Hids.
  assert (all_ids (with_waiting s q) ≡ₚ i :: all_ids s) as Hall.
  { unfold all_ids. cbn. rewrite Hids. cbn. by rewrite <- Permutation_middle. }
  destruct Hwf. split; try done.
  - rewrite Hall. by apply NoDup_cons.
  - intros j. rewrite Hall. intros [->|Hj]%elem_of_cons; [done|by apply wf_req0].
  - intros j Hj. cbn in Hj. rewrite Hids in Hj. apply elem_of_cons in Hj as [->|Hj]; [done|by apply wf_waiting0].
  - intros j Hj. cbn in Hj. rewrite Hids in Hj. apply elem_of_cons in Hj as [->|Hj]; [done|by apply wf_idle0].
Qed.

(** The object of a preempted request. *)
Definition preempted_request (log : bool) (now : Z) (r : Request) : Request :=
  let r := with_num_computed_tokens (with_status r PREEMPTED) 0 in
  let r := if bool_decide (spec_token_ids r = []) then r else with_spec_token_ids r [] in
  let r := with_num_preemptions r (num_preemptions r + 1) in
  if log then record_event r EVENT_PREEMPTED now else r.

Lemma preempted_fields log now r :
  let r' := preempted_request log now r in
  status r' = PREEMPTED ∧ num_computed_tokens r' = 0 ∧ spec_token_ids r' = []
  ∧ request_key r' = request_key r ∧ request_id r' = request_id r ∧ num_tokens r' = num_tokens r
  ∧ mm_features r' = mm_features r ∧ num_output_placeholders r' = num_output_placeholders r
  ∧ (∀ k, kv_request_ok k r → kv_request_ok k r').
Proof.
  cbn zeta. unfold preempted_request, record_event. cbn [spec_token_ids with_num_computed_tokens with_status].
  destruct (bool_decide (spec_token_ids r = [])) eqn:Es; to_prop; destruct log; cbn;
    (split_and!; try done; intros k; by apply kv_request_tokens).
Qed.

(** Preempting a request that was just dropped from the running list. *)
Lemma preempt_spec s i now :
  WF s → i ∉ all_ids s →
  req_ok (kv_cache_manager s) (cfg s) (requests s) i (objs s i) →
  status (objs s i) = RUNNING →
  ∃ s', _preempt_request s i now = Ok s' ∧ WF s'
    ∧ running s' = running s ∧ ids (waiting_q s') ≡ₚ i :: ids (waiting_q s)
    ∧ skipped_waiting s' = skipped_waiting s ∧ cfg s' = cfg s ∧ requests s' = requests s
    ∧ connector s' = connector s ∧ pause_state s' = pause_state s
    ∧ prev_step_scheduled_req_ids s' = prev_step_scheduled_req_ids s
    ∧ objs s' i = preempted_request (log_stats (cfg s)) now (objs s i)
    ∧ (∀ j, j ≠ i → objs s' j = objs s j)
    ∧ kv_frame (request_id (objs s i)) (kv_cache_manager s) (kv_cache_manager s')
    ∧ kv_slots (kv_cache_manager s') (request_id (objs s i)) = 0.
Proof.
  intros Hwf Hi Hreq Hst. unfold _preempt_request. rewrite bool_decide_eq_true_2 by done.
  destruct (law_free (kv_cache_manager s) (objs s i) (wf_kv s Hwf)) as (k & -> & Hk & Hf & Hz).
  cbn [mbind res_bind]. cbn [encoder_cache_manager with_kv objs].
  rewrite law_free_text by apply Hreq. cbn [mbind res_bind].
  set (r := preempted_request (log_stats (cfg s)) now (objs s i)).
  destruct (preempted_fields (log_stats (cfg s)) now (objs s i))
    as (F1 & F2 & F3 & F4 & F5 & F6 & F7 & F8 & F9). fold r in F1, F2, F3, F4, F5, F6, F7, F8, F9.
  assert (WF (put (with_kv s k) i r)) as Hwf1.
  { apply WF_put; try done; try apply Hreq; intros Hin; destruct Hi; unfold all_ids;
      rewrite ?elem_of_app in *; tauto. }
  change (modify (with_encoder (with_kv s k) (encoder_cache_manager s)) i _) with
    (with_encoder (put (with_kv s k) i r) (encoder_cache_manager s)).
  destruct (q_prepend_spec (put (with_kv s k) i r) (waiting_q s) i (wf_objs _ Hwf1) (wf_wq _ Hwf1))
    as (q & Eq & Hq & Hids).
  change (q_prepend _ (waiting_q _) i) with (q_prepend (put (with_kv s k) i r) (waiting_q s) i).
  rewrite Eq. cbn [fmap res_fmap]. eexists. split; [reflexivity|].
  assert (WF (with_waiting (put (with_kv s k) i r) q)) as Hwf2.
  { eapply WF_add_waiting; [done| | | | |done|done].
    - exact Hi.
    - rewrite put_eq. cbn. destruct Hreq. split; try (rewrite ?F5, ?F6, ?F7, ?F8; done).
      + apply F9. by apply Hf.
      + rewrite F2, F5, Hz. lia.
    - rewrite put_eq. by right.
    - rewrite put_eq. cbn. split; [|by rewrite F5]. rewrite F2, F6. destruct Hreq. lia. }
  split; [exact Hwf2|].
  split_and!; try done; [apply put_eq|].
  intros j Hj. apply (put_ne s k i r j Hj).
Qed.

(** ** Further updates *)

Lemma WF_ext s s' :
  WF s → (∀ j, objs s' j = objs s j) → running s' = running s → waiting_q s' = waiting_q s →
  skipped_waiting s' = skipped_waiting s → kv_cache_manager s' = kv_cache_manager s →
  cfg s' = cfg s → requests s' = requests s → WF s'.
Proof.
  intros [] Ho Er Ew Es Ek Ec Eq. assert (all_ids s' = all_ids s) as Ea by (unfold all_ids; congruence).
  split; rewrite ?Ea, ?Er, ?Ew, ?Es, ?Ek, ?Ec, ?Eq; try done; try (intros j Hj; rewrite Ho; auto).
  - intros j. rewrite Ho. apply wf_objs0.
  - eapply q_ok_change; [exact wf_objs0| |done]. intros j _. by rewrite Ho.
  - eapply q_ok_change; [exact wf_objs0| |done]. intros j _. by rewrite Ho.
Qed.

(** The manager changed, but nobody's slots. *)
Lemma WF_quiet s k : WF s → kv_ok k → kv_quiet (kv_cache_manager s) k → WF (with_kv s k).
Proof.
  intros [] Hk ([= Hm Hm' _] & Hs & Hr). split; try done; [| |cbn; congruence..|cbn; intros; rewrite Hs; auto]; intros j Hj.
  - destruct (wf_req0 j Hj). split; try done; [by apply Hr|]. cbn. by rewrite Hs.
  - destruct (wf_idle0 j Hj) as [? Hz]. split; [done|]. cbn. by rewrite Hs.
Qed.

(** The manager changed, but not its slots. *)
Lemma WF_kv s i k :
  WF s → i ∈ all_ids s → kv_ok k → kv_frame (request_id (objs s i)) (kv_cache_manager s) k →
  kv_slots k (request_id (objs s i)) = kv_slots (kv_cache_manager s) (request_id (objs s i)) →
  WF (with_kv s k).
Proof.
  intros Hwf Hi Hk Hf Hslots. pose proof (wf_req s Hwf i Hi) as Hreq.
  apply (WF_ext (put (with_kv s k) i (objs s i))); try done.
  - apply WF_put; try done; [apply Hreq|..].
    + intros _. destruct Hreq. split; try done; [by apply Hf|by rewrite Hslots].
    + apply (wf_running s Hwf).
    + apply (wf_waiting s Hwf).
    + apply (wf_skipped s Hwf).
    + intros Hin. destruct (wf_idle s Hwf i Hin). split; [done|]. by rewrite Hslots.
  - intros j. cbn. destruct (j =? i) eqn:Ej; to_prop; by subst.
Qed.

Lemma queue_of_all s w i : i ∈ ids (queue_of s w) → i ∈ ids (waiting_q s) ++ ids (skipped_waiting s).
Proof. intros. apply elem_of_app. destruct w; [by left|by right]. Qed.

Lemma waiting_all s i : i ∈ ids (waiting_q s) ++ ids (skipped_waiting s) → i ∈ all_ids s.
Proof. intros. unfold all_ids. apply elem_of_app. by right. Qed.

(** A request leaves its waiting queue. *)
Lemma WF_pop s w q i :
  WF s → q_ok s q → ids (queue_of s w) ≡ₚ i :: ids q →
  WF (with_queue_of s w q) ∧ all_ids s ≡ₚ i :: all_ids (with_queue_of s w q).
Proof.
  intros Hwf Hq Hids.
  assert (all_ids s ≡ₚ i :: all_ids (with_queue_of s w q)) as Hall.
  { unfold all_ids. destruct w; cbn in *; rewrite Hids; cbn;
      by rewrite <- ?Permutation_middle. }
  split; [|done].
  assert (∀ j, j ∈ ids q → j ∈ ids (queue_of s w)) as Hsub by (intros j Hj; rewrite Hids; by right).
  assert (∀ j, j ∈ all_ids (with_queue_of s w q) → j ∈ all_ids s) as Hsub' by (intros j Hj; rewrite Hall; by right).
  pose proof (wf_nodup s Hwf) as Hnd. rewrite Hall in Hnd. apply NoDup_cons in Hnd as [_ Hnd].
  destruct Hwf, w; cbn in *; split; cbn; try done; auto; intros j Hj;
    apply wf_idle0; rewrite elem_of_app in *; naive_solver.
Qed.

(** A request starts to run. *)
Lemma WF_add_running s i :
  WF s → i ∉ all_ids s →
  req_ok (kv_cache_manager s) (cfg s) (requests s) i (objs s i) →
  status (objs s i) = RUNNING →
  WF (with_running s (running s ++ [i])).
Proof.
  intros Hwf Hi Hreq Hst.
  assert (all_ids (with_running s (running s ++ [i])) ≡ₚ i :: all_ids s) as Hall.
  { unfold all_ids. cbn. rewrite <- app_assoc. cbn. by rewrite <- Permutation_middle. }
  destruct Hwf. split; try done.
  - rewrite Hall. by apply NoDup_cons.
  - intros j. rewrite Hall. intros [->|Hj]%elem_of_cons; [done|by apply wf_req0].
  - intros j. cbn. rewrite elem_of_app, list_elem_of_singleton. intros [Hj| ->]; [by apply wf_running0|done].
Qed.
End wf.
