(* ===== verification/Preemption.v ===== *)
(** * Preemption

    The allocation loop of a scheduling step, for text requests without
    connectors, over any KV-cache manager that obeys its laws: it ends, and the
    requests it preempts go back to the waiting queue and give up what they were
    scheduled for. *)

From Stdlib Require Import String.
From S2P Require Import Prelude Request BlockHash KVCacheManager EncoderCache.
From S2P Require Import RequestQueue SchedUtils Scheduler Schedule SchedLaws SchedWF.
#[local] Open Scope Z_scope.

Definition sumZ (l : list Z) : Z := foldr Z.add 0 l.

Lemma sumZ_app l k : sumZ (l ++ k) = sumZ l + sumZ k.
Proof. unfold sumZ. induction l as [|x l IH]; cbn; lia. Qed.

Section props.
Context {K E W C EC P : Type}.
Context `{KVManagerLaws K} `{EncoderTextLaws E} `{QueueImplLaws W} `{KVConnector C P} `{ECConnector EC}.
#[local] Abbreviation sched := (Scheduler K E W C EC).
Implicit Types (s : sched) (t : Step).

(** ** The variables of a step *)

Definition rid (s : sched) (i : Z) : string := request_id (objs s i).

(** The requests scheduled so far. *)
Definition scheduled (t : Step) : list Z :=
  scheduled_running_reqs t ++ scheduled_new_reqs t ++ scheduled_resumed_reqs t.

(** Every scheduled request is running, has a positive number of tokens, new
    blocks and slots for these tokens; the tokens and the remaining budget add
    up to [B]. *)
Record StepInv (B : Z) (s : sched) (t : Step) : Prop := {
  st_nodup : NoDup (scheduled t);
  st_sub : ∀ i, i ∈ scheduled t → i ∈ running s;
  st_tokens : (num_scheduled_tokens t).*1 ≡ₚ rid s <$> scheduled t;
  st_blocks : (req_to_new_blocks t).*1 ≡ₚ rid s <$> scheduled t;
  st_budget : sumZ (num_scheduled_tokens t).*2 + token_budget t = B;
  st_nonneg : 0 ≤ token_budget t;
  st_pos : ∀ x n, (x, n) ∈ num_scheduled_tokens t → 0 < n;
  st_slots : ∀ i n, i ∈ scheduled t → (rid s i, n) ∈ num_scheduled_tokens t →
    num_computed_tokens (objs s i) + n ≤ kv_slots (kv_cache_manager s) (rid s i);
  st_encoder : scheduled_encoder_inputs t = [];
  (** Without speculative decoding no more than the request's tokens are computed. *)
  st_within : num_spec_tokens (cfg s) = 0 → ∀ i n, i ∈ scheduled t → (rid s i, n) ∈ num_scheduled_tokens t →
    num_computed_tokens (objs s i) + n ≤ num_tokens (objs s i) + num_output_placeholders (objs s i);
  st_drafts : num_spec_tokens (cfg s) = 0 → scheduled_spec_decode_tokens t = [];
}.

Lemma rid_inj s i j : WF s → i ∈ all_ids s → j ∈ all_ids s → rid s i = rid s j → i = j.
Proof.
  intros Hwf Hi Hj Heq. destruct (decide (i = j)); [done|].
  destruct (wf_distinct s j i Hwf Hi); [|done|done]. apply (wf_req s Hwf j Hj).
Qed.

Lemma running_all s i : i ∈ running s → i ∈ all_ids s.
Proof. intros. unfold all_ids. apply elem_of_app. by left. Qed.

Lemma keys_nodup B s t : WF s → StepInv B s t → NoDup (rid s <$> scheduled t).
Proof.
  intros Hwf Hst. apply NoDup_fmap_2_strong; [|apply Hst].
  intros i j Hi Hj. apply rid_inj; [done|apply running_all; by apply (st_sub _ _ _ Hst)..].
Qed.

(** What the step reads of a request. *)
Definition same_tokens (r r' : Request) : Prop :=
  request_id r' = request_id r ∧ num_computed_tokens r' = num_computed_tokens r ∧ num_tokens r' = num_tokens r
  ∧ num_output_placeholders r' = num_output_placeholders r.

Lemma same_request_tokens r r' : same_request r r' → same_tokens r r'.
Proof. by intros ->. Qed.

(** The step's variables depend on the scheduled requests only. *)
Lemma StepInv_change B s s' t :
  StepInv B s t → (∀ i, i ∈ scheduled t → i ∈ running s') → cfg s' = cfg s →
  (∀ i, i ∈ scheduled t → same_tokens (objs s i) (objs s' i)
     ∧ kv_slots (kv_cache_manager s') (rid s i) = kv_slots (kv_cache_manager s) (rid s i)) →
  StepInv B s' t.
Proof.
  intros [] Hsub Ec Hsame. assert (∀ i, i ∈ scheduled t → rid s' i = rid s i) as Hrid by (intros i Hi; apply Hsame, Hi).
  assert (rid s' <$> scheduled t = rid s <$> scheduled t) as Hmap.
  { apply list_fmap_ext. intros j i Hi. apply Hrid. by eapply list_elem_of_lookup_2. }
  split; try done; try (by rewrite Hmap); intros Hi; rewrite ?Ec in *; [| |auto].
  - intros n Hn. rewrite Hrid by done. destruct (Hsame _ Hn) as [(_ & -> & _) ->]. by apply st_slots0.
  - intros i n Hn. rewrite Hrid by done. destruct (Hsame _ Hn) as [(_ & -> & -> & ->) _]. by apply st_within0.
Qed.

(** One entry of a dictionary of the step, and its removal. *)
Lemma pop_entry {V} s (d : list (string * V)) l v rest :
  NoDup (rid s <$> l) → d.*1 ≡ₚ rid s <$> l → l ≡ₚ v :: rest →
  ∃ x d1 d2, d = d1 ++ (rid s v, x) :: d2 ∧ od_pop d (rid s v) = Ok (x, d1 ++ d2)
    ∧ (d1 ++ d2).*1 ≡ₚ rid s <$> rest.
Proof.
  intros Hnd Hd Hl.
  assert (rid s v ∈ d.*1) as Hin by (rewrite Hd, Hl; cbn; left).
  apply list_elem_of_fmap in Hin as ([k x] & Hk & Hin). cbn in Hk. subst k.
  apply list_elem_of_split in Hin as (d1 & d2 & ->). exists x, d1, d2.
  rewrite fmap_app in Hd. cbn in Hd. rewrite Hl in Hd. cbn in Hd.
  assert (NoDup (d1.*1 ++ rid s v :: d2.*1)) as Hnd' by (rewrite Hd, <- fmap_cons, <- Hl; done).
  apply nodup_middle in Hnd' as (Hx1 & Hx2 & _). split; [done|]. split; [by apply od_pop_split|].
  rewrite <- Permutation_middle in Hd. apply Permutation_cons_inv in Hd. by rewrite fmap_app.
Qed.

(** ** Preemption *)

(** The position of the loop: [i] is the request at hand, and what is scheduled
    lies before it. *)
Record Visiting (s : sched) (t : Step) (idx : nat) (i : Z) : Prop := {
  vi_before : ∀ j, j ∈ scheduled_running_reqs t → j ∈ take idx (running s);
  vi_here : i ∈ take (S idx) (running s);
  vi_new : i ∉ scheduled t;
  vi_fcfs : impl_policy = FCFS → running s !! idx = Some i;
}.

(** Nothing was taken from the waiting queues yet. *)
Definition first_phase (t : Step) : Prop := scheduled_new_reqs t = [] ∧ scheduled_resumed_reqs t = [].

Lemma scheduled_first t : first_phase t → scheduled t = scheduled_running_reqs t.
Proof. intros [E1 E2]. unfold scheduled. by rewrite E1, E2, !app_nil_r. Qed.

Lemma max_by_key_elem s best l : max_by_key s best l ∈ best :: l.
Proof.
  revert best. induction l as [|j l IH]; intros best; cbn [max_by_key]; [left|].
  specialize (IH (if preemption_key_lt (objs s best) (objs s j) then j else best)).
  apply elem_of_cons in IH as [->|?]; [|right; by right]. case_match; [right; left|left].
Qed.

Lemma unschedule_spec B s t v :
  WF s → StepInv B s t → first_phase t → v ∈ scheduled_running_reqs t →
  ∃ t1 r1 r2 n, unschedule s t v = Ok t1 ∧ first_phase t1
    ∧ scheduled_running_reqs t = r1 ++ v :: r2 ∧ scheduled_running_reqs t1 = r1 ++ r2
    ∧ StepInv B s t1 ∧ token_budget t1 = token_budget t + n ∧ 0 < n
    ∧ preempted_reqs t1 = preempted_reqs t.
Proof.
  intros Hwf Hst Hph Hv. pose proof (keys_nodup B s t Hwf Hst) as Hnd.
  pose proof (scheduled_first t Hph) as Es. destruct (Hst) as [S1 S2 S3 S4 S5 S6 S7 S8 S9 S10 S11].
  rewrite Es in *. apply list_elem_of_split in Hv as (r1 & r2 & Er). rewrite Er in S1.
  apply nodup_middle in S1 as (Hv1 & Hv2 & Hrest).
  assert (scheduled_running_reqs t ≡ₚ v :: (r1 ++ r2)) as Hp by (rewrite Er; by rewrite <- Permutation_middle).
  destruct (pop_entry s (num_scheduled_tokens t) _ v (r1 ++ r2) Hnd S3 Hp) as (n & d1 & d2 & Ed & Epop & Hd).
  destruct (pop_entry s (req_to_new_blocks t) _ v (r1 ++ r2) Hnd S4 Hp) as (b & b1 & b2 & Eb & Epopb & Hbk).
  unfold unschedule. rewrite Er, ids_remove_spec by done. cbn [mbind res_bind].
  fold (rid s v). rewrite Epop. cbn [mbind res_bind]. rewrite Epopb. cbn [mbind res_bind].
  destruct (od_discard (scheduled_spec_decode_tokens t) (rid s v)) as [x spec] eqn:Ex.
  rewrite S9. cbn [od_discard od_pop default from_option rmap mbind res_bind].
  assert (0 < n) as Hn by (apply (S7 (rid s v)); rewrite Ed; set_solver).
  eexists _, r1, r2, n. split; [reflexivity|]. destruct Hph as [P1 P2].
  split; [done|]. split; [done|]. split; [done|]. split; [|done].
  assert (∀ y, y ∈ d1 ++ d2 → y ∈ num_scheduled_tokens t) as Hsub by (rewrite Ed; set_solver).
  split; cbn; unfold scheduled; cbn; rewrite ?P1, ?P2, ?app_nil_r; try done.
  - intros i Hi. apply S2. rewrite Er. set_solver.
  - rewrite Ed in S5. rewrite fmap_app, sumZ_app in *. cbn in S5. unfold sumZ in *. cbn in S5. lia.
  - lia.
  - intros y m Hy. by eapply S7, Hsub.
  - intros i m Hi Hy. apply S8; [rewrite Er; set_solver|by apply Hsub].
  - intros Hspec i m Hi Hy. apply S10; [done|rewrite Er; set_solver|by apply Hsub].
  - intros Hspec. rewrite (S11 Hspec) in Ex. by injection Ex as _ <-.
Qed.

Lemma max_by_key_head s i l : running s = i :: l → max_by_key s i l ∈ running s.
Proof. intros ->. apply max_by_key_elem. Qed.

(** What the loop knows after one request left the running list. *)
Record victim_taken (B : Z) (s : sched) (t : Step) (idx : nat) (i v : Z) (s' : sched) (t' : Step)
    (idx' : nat) : Prop := {
  vt_running : ∃ l1 l2, running s = l1 ++ v :: l2 ∧ s' = with_running s (l1 ++ l2);
  vt_inv : StepInv B s' t';
  vt_phase : first_phase t';
  vt_unscheduled : v ∉ scheduled t';
  vt_kept : ∀ j, j ∈ scheduled t → j = v ∨ j ∈ scheduled t';
  vt_budget : token_budget t ≤ token_budget t';
  vt_preempted : preempted_reqs t' = preempted_reqs t;
  vt_visit : v ≠ i → Visiting s' t' idx' i;
  vt_measure : (length (running s') - idx' ≤ length (running s) - idx)%nat;
}.

Lemma StepInv_drop B s t l1 v l2 :
  StepInv B s t → running s = l1 ++ v :: l2 → v ∉ scheduled t →
  StepInv B (with_running s (l1 ++ l2)) t.
Proof.
  intros Hst Hr Hv. eapply StepInv_change; [done| |done|done].
  intros j Hj. pose proof (st_sub _ _ _ Hst j Hj) as Hin. rewrite Hr in Hin. cbn. set_solver.
Qed.

(** FCFS preempts the last running request, which is not scheduled yet. *)
Lemma take_victim_fcfs B s t idx i :
  impl_policy = FCFS → WF s → StepInv B s t → first_phase t → Visiting s t idx i →
  ∃ v s' t' idx', take_victim s t (Z.of_nat idx) = Ok (v, s', t', Z.of_nat idx')
    ∧ victim_taken B s t idx i v s' t' idx'.
Proof.
  intros Hp Hwf Hst Hph [V1 V2 V3 V4]. specialize (V4 Hp). unfold take_victim. rewrite Hp.
  destruct (exists_last (l := running s)) as (l & v & Er).
  { intros E0. by rewrite E0 in V4. }
  rewrite Er, py_index_last, py_upto_last. cbn [mbind res_bind].
  assert (v ∉ l) as Hvl.
  { pose proof (wf_nodup s Hwf) as Hn. unfold all_ids in Hn. rewrite Er in Hn.
    rewrite <- app_assoc in Hn. by apply nodup_middle in Hn as (? & _). }
  assert (idx ≤ length l)%nat as Hidx.
  { apply lookup_lt_Some in V4. rewrite Er, length_app in V4. cbn in V4. lia. }
  assert (v ∉ scheduled t) as Hv.
  { rewrite (scheduled_first t Hph). intros Hin%V1. rewrite Er, take_app_le in Hin by done.
    by apply elem_of_take_1 in Hin. }
  eexists v, _, t, idx. split; [reflexivity|].
  split; try done; [| |by right|..].
  - exists l, []. by rewrite app_nil_r.
  - rewrite <- (app_nil_r l) at 1. by eapply StepInv_drop.
  - intros Hne. split; try done.
    + intros j Hj. specialize (V1 j Hj). rewrite Er, take_app_le in V1 by done. done.
    + cbn. rewrite <- (app_nil_r l). eapply take_remove; [|by rewrite <- Er]. done.
    + intros _. cbn. rewrite Er in V4. apply lookup_snoc_Some in V4 as [[_ ?]|[_ ?]]; done.
  - cbn. rewrite Er, length_app. lia.
Qed.

(** PRIORITY preempts a request of the lowest priority and gives back what it
    was scheduled for. *)
Lemma take_victim_priority B s t idx i :
  impl_policy = PRIORITY → WF s → StepInv B s t → first_phase t → Visiting s t idx i →
  ∃ v s' t' idx', take_victim s t (Z.of_nat idx) = Ok (v, s', t', Z.of_nat idx')
    ∧ victim_taken B s t idx i v s' t' idx'.
Proof.
  intros Hp Hwf Hst Hph [V1 V2 V3 V4]. unfold take_victim, lowest_priority. rewrite Hp.
  destruct (running s) as [|i0 l0] eqn:Er0; [by rewrite take_nil in V2; apply elem_of_nil in V2|].
  cbn [mbind res_bind]. pose proof (max_by_key_head s i0 l0 Er0) as Hv. set (v := max_by_key s i0 l0) in *.
  rewrite <- Er0 in *. apply list_elem_of_split in Hv as (l1 & l2 & Er).
  assert (NoDup (l1 ++ v :: l2)) as Hnd.
  { pose proof (wf_nodup s Hwf) as Hn. unfold all_ids in Hn. rewrite Er in Hn. by apply NoDup_app in Hn as (? & _). }
  rewrite Er, ids_remove_spec by (by apply nodup_middle in Hnd as (? & _)). cbn [mbind res_bind].
  destruct (bool_decide (v ∈ scheduled_running_reqs t)) eqn:Eb; to_prop.
  - destruct (unschedule_spec B s t v Hwf Hst Hph Eb)
      as (t1 & r1 & r2 & n & Eu & Hph1 & Es & Es1 & Hst1 & Hbud & Hn & Hpre).
    change (unschedule (with_running s (l1 ++ l2)) t v) with (unschedule s t v). rewrite Eu. cbn [mbind res_bind].
    pose proof (V1 v Eb) as Hvt. rewrite Er in Hvt.
    assert (1 ≤ idx)%nat as Hidx by (destruct idx; [by apply elem_of_nil in Hvt|lia]).
    assert (v ∉ scheduled t1) as Hvs.
    { rewrite (scheduled_first t1 Hph1), Es1. pose proof (st_nodup _ _ _ Hst) as Hn1.
      rewrite (scheduled_first t Hph), Es in Hn1. apply nodup_middle in Hn1 as (? & ? & _). by rewrite not_elem_of_app. }
    assert (∀ j, j ∈ scheduled_running_reqs t1 → j ∈ scheduled_running_reqs t ∧ j ≠ v) as Hsub.
    { intros j Hj. split; [rewrite Es; rewrite Es1 in Hj; set_solver|]. intros ->.
      by rewrite (scheduled_first t1 Hph1) in Hvs. }
    eexists v, _, t1, (idx - 1)%nat. split; [by replace (Z.of_nat (idx - 1)) with (Z.of_nat idx - 1) by lia|].
    split; try done; [by exists l1, l2|by eapply StepInv_drop| |lia| |].
    + intros j. rewrite (scheduled_first t Hph), (scheduled_first t1 Hph1), Es, Es1. set_solver.
    + intros Hne. split; try done; [| | |by rewrite Hp].
      * intros j Hj. destruct (Hsub j Hj) as [Hj' ?]. cbn.
        apply (take_remove_before _ _ v); [done..|]. rewrite <- Er. by apply V1.
      * cbn. replace (S (idx - 1)) with (S idx - 1)%nat by lia.
        apply (take_remove_before _ _ v); [done|by eapply elem_of_take_S|done|by rewrite <- Er].
      * rewrite (scheduled_first t Hph) in V3. rewrite (scheduled_first t1 Hph1). intros Hi. by destruct (Hsub i Hi).
    + cbn. rewrite Er, !length_app. cbn. lia.
  - assert (v ∉ scheduled t) as Hvs by (by rewrite (scheduled_first t Hph)).
    eexists v, _, t, idx. split; [reflexivity|].
    split; try done; [by exists l1, l2|by eapply StepInv_drop|by right| |].
    + intros Hne. split; try done; [| |by rewrite Hp].
      * intros j Hj. cbn. apply (take_remove _ _ v); [set_solver|]. rewrite <- Er. by apply V1.
      * cbn. apply (take_remove _ _ v); [done|]. by rewrite <- Er.
    + cbn. rewrite Er, !length_app. cbn. lia.
Qed.

Lemma take_victim_spec B s t idx i :
  WF s → StepInv B s t → first_phase t → Visiting s t idx i →
  ∃ v s' t' idx', take_victim s t (Z.of_nat idx) = Ok (v, s', t', Z.of_nat idx')
    ∧ victim_taken B s t idx i v s' t' idx'.
Proof.
  destruct impl_policy eqn:Hp; [by apply take_victim_fcfs|by apply take_victim_priority].
Qed.

(** ** The allocation loop *)

(** [s'] is [s] with the requests [vs] preempted; the other objects changed as
    [R] allows. *)
Record evicted (R : relation Request) (s : sched) (vs : list Z) (s' : sched) : Prop := {
  ev_cfg : cfg s' = cfg s;
  ev_requests : requests s' = requests s;
  ev_connector : connector s' = connector s;
  ev_pause : pause_state s' = pause_state s;
  ev_prev : prev_step_scheduled_req_ids s' = prev_step_scheduled_req_ids s;
  ev_skipped : skipped_waiting s' = skipped_waiting s;
  ev_running : running s ≡ₚ vs ++ running s';
  ev_waiting : ids (waiting_q s') ≡ₚ vs ++ ids (waiting_q s);
  ev_same : ∀ j, j ∉ vs → R (objs s j) (objs s' j);
  ev_status : ∀ j, j ∈ vs → status (objs s' j) = PREEMPTED ∧ num_computed_tokens (objs s' j) = 0;
}.

(** A relation between objects that lets the loops go on. *)
Class Harmless (R : relation Request) := {
  harmless_preorder :: PreOrder R;
  harmless_fields : ∀ r r', R r r' →
    status r' = status r ∧ num_computed_tokens r' = num_computed_tokens r;
}.

#[export] Instance same_request_harmless : Harmless same_request.
Proof. split; [apply _|]. by intros r r' ->. Qed.

Lemma evicted_trans R s1 s2 s3 vs ws :
  Harmless R → evicted R s1 vs s2 → evicted R s2 ws s3 → evicted R s1 (vs ++ ws) s3.
Proof.
  intros HR [] []. split; try congruence.
  - rewrite ev_running0, ev_running1. by rewrite app_assoc.
  - rewrite ev_waiting1, ev_waiting0, !app_assoc. by rewrite (Permutation_app_comm ws vs).
  - intros j [? ?]%not_elem_of_app. etrans; eauto.
  - intros j Hj. destruct (decide (j ∈ ws)); [eauto|]. apply elem_of_app in Hj as [Hj|?]; [|done].
    destruct (ev_status0 j Hj), (harmless_fields _ _ (ev_same1 j n)). split; congruence.
Qed.

Lemma evicted_sub R s vs s' : evicted R s vs s' → ∀ j, j ∈ running s' → j ∈ running s.
Proof. intros Hev j Hj. rewrite (ev_running _ _ _ _ Hev). set_solver. Qed.

Lemma running_nodup s : WF s → NoDup (running s).
Proof. intros Hwf. pose proof (wf_nodup s Hwf) as Hn. by apply NoDup_app in Hn as (? & _). Qed.

Lemma same_key r r' : same_request r r' → request_key r' = request_key r.
Proof. intros ->. done. Qed.

Lemma req_ok_same k k' max d i r r' :
  kv_frame (request_id r) k k' → same_request r r' → kv_request_ok k' r' →
  num_computed_tokens r ≤ kv_slots k' (request_id r) →
  req_ok k max d i r → req_ok k' max d i r'.
Proof.
  intros Hf Hs Hk Hslots []. rewrite Hs. split; try done.
  - by rewrite <- Hs.
  - cbn. lia.
Qed.

(** Slots of a running request were added, or not. *)
Lemma put_running s t B i k r idx :
  WF s → StepInv B s t → Visiting s t idx i → i ∈ running s → kv_ok k →
  kv_frame (request_id (objs s i)) (kv_cache_manager s) k → same_request (objs s i) r →
  kv_request_ok k r → num_computed_tokens (objs s i) ≤ kv_slots k (request_id (objs s i)) →
  let s' := put (with_kv s k) i r in
  WF s' ∧ StepInv B s' t ∧ Visiting s' t idx i ∧ evicted same_request s [] s'.
Proof.
  intros Hwf Hst Hvi Hi Hk Hf Hs Hkr Hslots s'.
  pose proof (wf_req s Hwf i (running_all s i Hi)) as Hreq.
  assert (∀ j, i = j → j ∈ ids (waiting_q s) ++ ids (skipped_waiting s) → False) as Hnot.
  { intros j <- Hj. pose proof (wf_nodup s Hwf) as Hn. apply NoDup_app in Hn as (_ & Hn & _). by apply (Hn i Hi). }
  split_and!.
  - apply WF_put; try done.
    + apply Hreq.
    + by apply same_key.
    + intros _. by eapply req_ok_same.
    + intros _. rewrite Hs. by apply (wf_running s Hwf).
    + intros Hin. exfalso. apply (Hnot i); [done|]. apply elem_of_app. by left.
    + intros Hin. exfalso. apply (Hnot i); [done|]. apply elem_of_app. by right.
    + intros Hin. exfalso. by apply (Hnot i).
  - eapply StepInv_change; [done|apply Hst|done|]. intros j Hj.
    assert (j ≠ i) as Hne by (intros ->; by apply (vi_new _ _ _ _ Hvi)).
    unfold rid, s'. rewrite put_ne by done. split; [done|]. cbn.
    destruct Hf as (_ & Hframe & _). apply Hframe.
    eapply wf_distinct; [done|by apply running_all, (st_sub _ _ _ Hst)|apply Hreq|done].
  - destruct Hvi. by split.
  - split; try done; [|by intros j ?%elem_of_nil]. intros j _. unfold s'.
    destruct (decide (j = i)) as [->|]; [by rewrite put_eq|by rewrite put_ne].
Qed.

Context (now : Z).

(** Preempting the request that was taken from the running list. *)
Lemma preempt_victim B s t idx i v s1 t1 idx1 :
  WF s → victim_taken B s t idx i v s1 t1 idx1 →
  ∃ s2, _preempt_request s1 v now = Ok s2 ∧ WF s2 ∧ evicted same_request s [v] s2
    ∧ StepInv B s2 (with_preempted t1 (preempted_reqs t1 ++ [v]))
    ∧ (v ≠ i → Visiting s2 (with_preempted t1 (preempted_reqs t1 ++ [v])) idx1 i)
    ∧ running s2 = running s1.
Proof.
  intros Hwf []. destruct vt_running0 as (l1 & l2 & Er & ->).
  destruct (WF_drop_running s l1 v l2 Hwf Er) as [Hwf1 Hv].
  assert (v ∈ running s) as Hin by (rewrite Er; set_solver).
  pose proof (wf_req s Hwf v (running_all s v Hin)) as Hreq.
  destruct (preempt_spec (with_running s (l1 ++ l2)) v now Hwf1 Hv Hreq (wf_running s Hwf v Hin))
    as (s2 & E2 & Hwf2 & F1 & F2 & F3 & F4 & F5 & F6 & F7 & F7' & F8 & F9 & F10 & F11).
  exists s2. split; [exact E2|]. split; [done|].
  destruct (preempted_fields (log_stats (cfg s)) now (objs s v)) as (G1 & G2 & _).
  split; [split; try done|split; [|split; [|done]]].
  - rewrite Er, F1. cbn. by rewrite Permutation_middle.
  - intros j Hj%not_elem_of_cons. destruct Hj as [Hj _]. by rewrite (F9 j Hj).
  - intros j ->%list_elem_of_singleton. by rewrite F8.
  - eapply (StepInv_change _ (with_running s (l1 ++ l2))); [by destruct vt_inv0| |by rewrite F4|].
    + intros j Hj. rewrite F1. apply (st_sub _ _ _ vt_inv0 j Hj).
    + intros j Hj. assert (j ≠ v) as Hne by (intros ->; by apply vt_unscheduled0).
      unfold rid. rewrite (F9 j Hne). split; [done|]. cbn.
      destruct F10 as (_ & Hframe & _). apply Hframe.
      eapply (wf_distinct (with_running s (l1 ++ l2))); [done| |apply Hreq|done].
      apply running_all. apply (st_sub _ _ _ vt_inv0 j Hj).
  - intros Hne. destruct (vt_visit0 Hne). split; rewrite ?F1; done.
Qed.

Record allocated (B : Z) (s : sched) (t : Step) (idx : nat) (i n : Z) (o : option KVCacheBlocks)
    (s' : sched) (t' : Step) (idx' : nat) (vs : list Z) : Prop := {
  al_wf : WF s';
  al_inv : StepInv B s' t';
  al_phase : first_phase t';
  al_evicted : evicted same_request s vs s';
  al_kept : ∀ j, j ∈ scheduled t → j ∈ vs ∨ j ∈ scheduled t';
  al_preempted : preempted_reqs t' = preempted_reqs t ++ vs;
  al_budget : token_budget t ≤ token_budget t';
  al_measure : (length (running s') - idx' ≤ length (running s) - idx)%nat;
  al_result : match o with
    | Some _ => Visiting s' t' idx' i
        ∧ num_computed_tokens (objs s i) + n ≤ kv_slots (kv_cache_manager s') (rid s i)
    | None => i ∈ vs
    end;
}.

(** The loop ends: every repetition preempts a request. *)
Lemma allocate_loop_spec B fuel s t idx i n :
  WF s → StepInv B s t → first_phase t → Visiting s t idx i →
  0 < n → num_computed_tokens (objs s i) + n ≤ max_model_len (cfg s) →
  0 ≤ num_lookahead_tokens (cfg s) → (length (running s) < fuel)%nat →
  ∃ o s' t' idx' vs, allocate_loop now fuel s t (Z.of_nat idx) i n = Ok (o, s', t', Z.of_nat idx')
    ∧ allocated B s t idx i n o s' t' idx' vs.
Proof.
  revert s t idx. induction fuel as [|fuel IH]; intros s t idx Hwf Hst Hph Hvi Hn Hmax Hlook Hfuel; [lia|].
  cbn [allocate_loop]. assert (i ∈ running s) as Hi by (eapply elem_of_take_1, vi_here; exact Hvi).
  pose proof (wf_req s Hwf i (running_all s i Hi)) as Hreq.
  destruct (law_allocate (kv_cache_manager s) (objs s i) n None (num_lookahead_tokens (cfg s)))
    as (o & k & r & -> & Hk & Hf & Hsame & Hkr & Ho); try done; try apply Hreq; [apply (wf_kv s Hwf)|by left|
      by rewrite (wf_len s Hwf)|].
  cbn [mbind res_bind].
  destruct (put_running s t B i k r idx Hwf Hst Hvi Hi Hk Hf Hsame Hkr) as (Hwf1 & Hst1 & Hvi1 & Hev1).
  { destruct Hreq, o; lia. }
  set (s1 := put (with_kv s k) i r) in *.
  destruct o as [b|].
  { exists (Some b), s1, t, idx, []. split; [done|]. split; try done; [by right|by rewrite app_nil_r]. }
  destruct (take_victim_spec B s1 t idx i Hwf1 Hst1 Hph Hvi1) as (v & s2 & t2 & idx2 & -> & Hvt).
  cbn [mbind res_bind].
  destruct (preempt_victim B s1 t idx i v s2 t2 idx2 Hwf1 Hvt) as (s3 & -> & Hwf3 & Hev3 & Hst3 & Hvi3 & Hr3).
  cbn [mbind res_bind]. set (t3 := with_preempted t2 (preempted_reqs t2 ++ [v])) in *.
  assert (preempted_reqs t3 = preempted_reqs t ++ [v]) as Hpre.
  { unfold t3. cbn. by rewrite (vt_preempted _ _ _ _ _ _ _ _ _ Hvt). }
  assert (evicted same_request s [v] s3) as Hev by (by eapply (evicted_trans _ s s1 s3 [] [v] _)).
  pose proof (vt_budget _ _ _ _ _ _ _ _ _ Hvt) as Hbud.
  pose proof (vt_measure _ _ _ _ _ _ _ _ _ Hvt) as Hmeas.
  destruct (v =? i) eqn:Evi; to_prop.
  - subst v. exists None, s3, t3, idx2, [i]. split; [done|]. split; try done.
    + apply Hvt.
    + intros j [->|?]%(vt_kept _ _ _ _ _ _ _ _ _ Hvt); [left; left|by right].
    + by rewrite Hr3.
    + apply list_elem_of_singleton. done.
  - assert (i ∉ [v]) as Hiv by (intros ->%list_elem_of_singleton; done).
    pose proof (ev_same _ _ _ _ Hev i Hiv) as Hobj.
    destruct (IH s3 t3 idx2) as (o & s' & t' & idx' & vs & E' & []); try done; try (by rewrite ?(ev_cfg _ _ _ _ Hev)).
    + apply Hvt.
    + by apply Hvi3.
    + rewrite (ev_cfg _ _ _ _ Hev), Hobj. done.
    + pose proof (Permutation_length (ev_running _ _ _ _ Hev)) as Hl. cbn in Hl. lia.
    + exists o, s', t', idx', (v :: vs). split; [exact E'|]. split; try done.
      * by apply (evicted_trans _ s s3 s' [v] vs _).
      * intros j [->|Hj]%(vt_kept _ _ _ _ _ _ _ _ _ Hvt); [left; left|].
        destruct (al_kept0 j Hj); [left; by right|by right].
      * rewrite al_preempted0, Hpre. by rewrite <- app_assoc.
      * cbn in al_budget0. lia.
      * rewrite Hr3 in al_measure0. cbn in Hmeas. unfold s1 in Hmeas. cbn in Hmeas. lia.
      * destruct o; [|by right]. destruct al_result0 as [Hv' Hs']. split; [done|].
        unfold rid in *. rewrite Hobj in Hs'. exact Hs'.
Qed.
End props.
