(* ===== verification/RunningLoop.v ===== *)
(** * The loop over the running requests

    The first half of a scheduling step, for text requests: it never raises, ends,
    respects the token budget and loses no request. *)

From Stdlib Require Import String.
From S2P Require Import Prelude Request BlockHash KVCacheManager EncoderCache.
From S2P Require Import RequestQueue SchedUtils Scheduler Schedule SchedLaws SchedWF Preemption.
#[local] Open Scope Z_scope.

(** Only the draft tokens and the cache of embedding hashes may differ. *)
Definition same_but_drafts (r r' : Request) : Prop := ∃ l, same_request (with_spec_token_ids r l) r'.

#[export] Instance same_but_drafts_harmless : Harmless same_but_drafts.
Proof.
  split; [split|].
  - intros r. exists (spec_token_ids r). by destruct r.
  - intros r1 r2 r3 [l ->] [l' ->]. by exists l'.
  - intros r r' [l ->]. done.
Qed.

Section running.
Context {K E W C EC P : Type}.
Context `{KVManagerLaws K} `{EncoderTextLaws E} `{QueueImplLaws W} `{KVConnector C P} `{ECConnector EC}.
#[local] Abbreviation sched := (Scheduler K E W C EC).
Implicit Types (s : sched) (t : Step).
Context (now : Z).

Lemma evicted_weaken s vs s' : evicted same_request s vs s' → evicted same_but_drafts s vs s'.
Proof.
  intros []. split; try done. intros j Hj. rewrite (ev_same j Hj).
  exists (spec_token_ids (objs s j)). by destruct (objs s j).
Qed.

(** A request becomes scheduled. *)
Lemma StepInv_add B s t t' i n b :
  WF s → StepInv B s t → i ∈ running s → i ∉ scheduled t → 0 < n ≤ token_budget t →
  num_computed_tokens (objs s i) + n ≤ kv_slots (kv_cache_manager s) (rid s i) →
  (num_spec_tokens (cfg s) = 0 → num_computed_tokens (objs s i) + n ≤ num_tokens (objs s i) + num_output_placeholders (objs s i)) →
  scheduled t' ≡ₚ i :: scheduled t →
  num_scheduled_tokens t' = od_set (num_scheduled_tokens t) (rid s i) n →
  req_to_new_blocks t' = od_set (req_to_new_blocks t) (rid s i) b →
  token_budget t' = token_budget t - n →
  scheduled_encoder_inputs t' = scheduled_encoder_inputs t →
  scheduled_spec_decode_tokens t' = scheduled_spec_decode_tokens t →
  StepInv B s t'.
Proof.
  intros Hwf Hst Hi Hnew Hn Hslots Hwithin Es En Eb Et Ee Ed.
  assert (rid s i ∉ rid s <$> scheduled t) as Hfresh.
  { intros (j & Hj & Hin)%list_elem_of_fmap. apply Hnew. replace i with j; [done|].
    apply (rid_inj s); [done|..|done]; apply running_all; [by apply (st_sub _ _ _ Hst)|done]. }
  destruct Hst as [S1 S2 S3 S4 S5 S6 S7 S8 S9 S10 S11].
  rewrite od_set_fresh in En by (by rewrite S3). rewrite od_set_fresh in Eb by (by rewrite S4).
  assert (∀ x m, (x, m) ∈ num_scheduled_tokens t' → (x, m) ∈ num_scheduled_tokens t ∨ x = rid s i ∧ m = n) as Hin.
  { intros x m. rewrite En, elem_of_app, list_elem_of_singleton. naive_solver. }
  split.
  - rewrite Es. by apply NoDup_cons.
  - intros j. rewrite Es, elem_of_cons. naive_solver.
  - rewrite En, Es, fmap_app, S3. cbn. by rewrite Permutation_app_comm.
  - rewrite Eb, Es, fmap_app, S4. cbn. by rewrite Permutation_app_comm.
  - rewrite En, fmap_app, sumZ_app, Et. cbn. lia.
  - lia.
  - intros x m [?|[_ ->]]%Hin; [by eapply S7|lia].
  - intros j m. rewrite Es. intros [->|Hj]%elem_of_cons [Hm|[Hx ->]]%Hin; try done.
    + destruct Hfresh. rewrite <- S3. apply list_elem_of_fmap. by exists (rid s i, m).
    + by apply S8.
    + destruct Hfresh. rewrite <- Hx. by apply list_elem_of_fmap_2.
  - by rewrite Ee.
  - intros Hspec j m. rewrite Es. intros [->|Hj]%elem_of_cons [Hm|[Hx ->]]%Hin; auto.
    + destruct Hfresh. rewrite <- S3. apply list_elem_of_fmap. by exists (rid s i, m).
    + destruct Hfresh. rewrite <- Hx. by apply list_elem_of_fmap_2.
  - by rewrite Ed.
Qed.

(** The step's variables that the invariant reads. *)
Lemma StepInv_same B s t t' :
  scheduled t' = scheduled t → num_scheduled_tokens t' = num_scheduled_tokens t →
  req_to_new_blocks t' = req_to_new_blocks t → token_budget t' = token_budget t →
  scheduled_encoder_inputs t' = scheduled_encoder_inputs t →
  (num_spec_tokens (cfg s) = 0 → scheduled_spec_decode_tokens t' = scheduled_spec_decode_tokens t) →
  StepInv B s t → StepInv B s t'.
Proof. intros E1 E2 E3 E4 E5 E6 []. split; rewrite ?E1, ?E2, ?E3, ?E4, ?E5; try done. intros H'. rewrite E6; auto. Qed.

(** The draft tokens of a scheduled request are used up. *)
Lemma drop_drafts B s t i :
  WF s → StepInv B s t → i ∈ running s →
  let s' := modify s i (λ r, with_spec_token_ids r []) in
  WF s' ∧ StepInv B s' t ∧ evicted same_but_drafts s [] s'.
Proof.
  intros Hwf Hst Hi s'. pose proof (wf_req s Hwf i (running_all s i Hi)) as Hreq.
  assert (∀ j, ∃ l, objs s' j = with_spec_token_ids (objs s j) l ∧ (spec_token_ids (objs s j) = [] → l = [])) as Hobj.
  { intros j. unfold s', modify. cbn. destruct (j =? i) eqn:Eji; to_prop; [subst; by exists []|].
    exists (spec_token_ids (objs s j)). by destruct (objs s j). }
  split_and!.
  - destruct Hwf. split; try done.
    + intros j. destruct (Hobj j) as (? & -> & _). cbn. apply wf_objs.
    + intros j Hj. destruct (Hobj j) as (l & -> & Hl). destruct (wf_req j Hj). split; try done; [|cbn; auto].
      by apply (kv_request_tokens _ (objs s j)).
    + intros j Hj. destruct (Hobj j) as (? & -> & _). by apply wf_running.
    + intros j Hj. destruct (Hobj j) as (? & -> & _). by apply wf_waiting.
    + intros j Hj. destruct (Hobj j) as (? & -> & _). by apply wf_skipped.
    + intros j Hj. destruct (Hobj j) as (? & -> & _). by apply wf_idle.
    + eapply q_ok_change; [exact wf_objs| |exact wf_wq]. intros j _. by destruct (Hobj j) as (? & -> & _).
    + eapply q_ok_change; [exact wf_objs| |exact wf_sq]. intros j _. by destruct (Hobj j) as (? & -> & _).
  - eapply StepInv_change; [done|apply Hst|done|]. intros j _. unfold rid. by destruct (Hobj j) as (? & -> & _).
  - split; try done; [|by intros j ?%elem_of_nil]. intros j _. destruct (Hobj j) as (l' & -> & _). by exists l'.
Qed.

Lemma spec_tokens_spec B s t i n :
  WF s → StepInv B s t → i ∈ running s →
  ∃ s' t', schedule_spec_tokens s t i n = (s', t') ∧ WF s' ∧ StepInv B s' t'
    ∧ evicted same_but_drafts s [] s' ∧ running s' = running s
    ∧ (∀ j, j ≠ i → objs s' j = objs s j)
    ∧ scheduled_running_reqs t' = scheduled_running_reqs t ∧ (first_phase t → first_phase t')
    ∧ preempted_reqs t' = preempted_reqs t ∧ token_budget t' = token_budget t.
Proof.
  intros Hwf Hst Hi. unfold schedule_spec_tokens. case_bool_decide as Es.
  { exists s, t. split_and!; try done. split; try done; by intros j ?%elem_of_nil. }
  destruct (drop_drafts B s t i Hwf Hst Hi) as (Hwf' & Hst' & Hev).
  eexists _, _. split; [reflexivity|].
  split_and!; try done; try (by destruct (0 <? _)).
  - eapply StepInv_same; [..|exact Hst']; try (by destruct (0 <? _)).
    intros H0'. destruct Es. by apply (wf_req s Hwf i (running_all s i Hi)).
  - intros j Hj. cbn. by rewrite (proj2 (Z.eqb_neq _ _)).
Qed.

(** ** The loop *)

(** A running request may get a non-negative number of tokens. *)
Definition pending (c : SchedConfig) (r : Request) : Prop :=
  num_computed_tokens r ≤ num_tokens_with_spec r + num_output_placeholders r
  ∧ num_computed_tokens r < max_model_len c.

(** The running requests that the step leaves out. *)
Definition unscheduled_pending (s : sched) (t : Step) : Prop :=
  ∀ j, j ∈ running s → j ∉ scheduled t → pending (cfg s) (objs s j).

(** The configurations that the theorems cover. *)
Record cfg_ok (c : SchedConfig) : Prop := {
  co_lookahead : 0 ≤ num_lookahead_tokens c;
  co_budget : 0 ≤ max_num_scheduled_tokens c;
  co_loras : max_loras c = None;
  co_mamba : need_mamba_block_aligned_split c = false;
}.

Record LoopInv (B : Z) (s : sched) (t : Step) (idx : nat) : Prop := {
  li_wf : WF s;
  li_cfg : cfg_ok (cfg s);
  li_step : StepInv B s t;
  li_phase : first_phase t;
  li_before : ∀ j, j ∈ scheduled_running_reqs t → j ∈ take idx (running s);
  li_pending : unscheduled_pending s t;
}.

Lemma running_tokens_bounds c r b :
  pending c r → 0 < b →
  0 ≤ running_tokens c r b ≤ b ∧ num_computed_tokens r + running_tokens c r b < max_model_len c
  ∧ num_computed_tokens r + running_tokens c r b ≤ num_tokens_with_spec r + num_output_placeholders r.
Proof.
  intros [Hp1 Hp2] Hb. unfold running_tokens. destruct (_ && _) eqn:Et; to_prop; lia.
Qed.

Lemma visiting_here B s t idx i :
  LoopInv B s t idx → running s !! idx = Some i → Visiting s t idx i.
Proof.
  intros [] Hi. assert (i ∉ scheduled_running_reqs t) as Hnew.
  { intros (k & Hk & Hlt)%li_before0%elem_of_take. pose proof (NoDup_lookup _ _ _ _ (running_nodup s li_wf0) Hi Hk). lia. }
  split; try done.
  - apply elem_of_take. exists idx. split; [done|lia].
  - by rewrite scheduled_first.
Qed.

(** The position of the loop moves on without a change. *)
Lemma LoopInv_skip B s t idx : LoopInv B s t idx → LoopInv B s t (S idx).
Proof. intros []. split; try done. intros j Hj. by apply elem_of_take_S, li_before0. Qed.

(** A request that got slots is scheduled. *)
Lemma schedule_allocated B s t idx i n b s1 t1 idx1 vs :
  LoopInv B s t idx → 0 < n ≤ token_budget t →
  num_computed_tokens (objs s i) + n ≤ num_tokens_with_spec (objs s i) + num_output_placeholders (objs s i) →
  allocated B s t idx i n (Some b) s1 t1 idx1 vs →
  let t2 := with_running_reqs t1 (scheduled_running_reqs t1 ++ [i]) in
  let t2 := with_new_blocks t2 (od_set (req_to_new_blocks t2) (rid s1 i) b) in
  let t2 := with_scheduled t2 (od_set (num_scheduled_tokens t2) (rid s1 i) n) (token_budget t2 - n) in
  ∃ s3 t3, schedule_spec_tokens s1 t2 i n = (s3, t3) ∧ LoopInv B s3 t3 (S idx1)
    ∧ evicted same_but_drafts s vs s3 ∧ preempted_reqs t3 = preempted_reqs t ++ vs
    ∧ running s3 = running s1.
Proof.
  intros [] Hn Hwithin [] t2' t2'' t2. subst t2' t2''. destruct al_result as [Hvi Hslots].
  assert (i ∈ running s1) as Hi by (eapply elem_of_take_1, vi_here; exact Hvi).
  pose proof (running_nodup s li_wf0) as Hnd. rewrite (ev_running _ _ _ _ al_evicted) in Hnd.
  apply NoDup_app in Hnd as (_ & Hdisj & _).
  assert (∀ j, j ∈ running s1 → same_request (objs s j) (objs s1 j)) as Hobj.
  { intros j Hj. apply (ev_same _ _ _ _ al_evicted). intros Hv. by apply (Hdisj j). }
  assert (scheduled t2 = scheduled t1 ++ [i]) as Es.
  { rewrite (scheduled_first t1 al_phase). destruct al_phase as [P1 P2]. unfold scheduled. cbn. by rewrite P1, P2, !app_nil_r. }
  assert (StepInv B s1 t2) as Hst2.
  { apply (StepInv_add B s1 t1 t2 i n b); try done; [apply Hvi|lia| | |by rewrite Es, Permutation_app_comm].
    - unfold rid in *. rewrite (Hobj i Hi). exact Hslots.
    - intros Hspec. pose proof (ro_drafts _ _ _ _ _ (wf_req s1 al_wf i (running_all s1 i Hi)) Hspec) as Hnil.
      rewrite (Hobj i Hi) in Hnil |- *. unfold num_tokens_with_spec in Hwithin. cbn in Hnil. rewrite Hnil in Hwithin. unfold num_tokens, zlen in *. cbn in *. lia. }
  destruct (spec_tokens_spec B s1 t2 i n al_wf Hst2 Hi)
    as (s3 & t3 & E3 & Hwf3 & Hst3 & Hev3 & Hr3 & Hobj3 & Hrun3 & Hph3 & Hpre3 & Hbud3).
  exists s3, t3. split; [exact E3|].
  assert (first_phase t2) as Hph2 by exact al_phase.
  assert (evicted same_but_drafts s vs s3) as Hev.
  { rewrite <- (app_nil_r vs). apply (evicted_trans _ s s1 s3 vs [] _); [by apply evicted_weaken|done]. }
  split_and!; try done; [|rewrite Hpre3; exact al_preempted].
  split; try done.
  - by rewrite (ev_cfg _ _ _ _ Hev).
  - by apply Hph3.
  - intros j. rewrite Hrun3, Hr3. cbn. rewrite elem_of_app, list_elem_of_singleton.
    intros [Hj| ->]; [|apply Hvi]. apply elem_of_take_S. by apply Hvi.
  - intros j Hj Hnew. rewrite (ev_cfg _ _ _ _ Hev). rewrite Hr3 in Hj.
    rewrite (scheduled_first t3), Hrun3 in Hnew by (by apply Hph3). cbn in Hnew.
    apply not_elem_of_app in Hnew as [Hnew Hne]. assert (j ≠ i) as Hji by set_solver.
    rewrite (Hobj3 j Hji), (Hobj j Hj). apply li_pending0.
    + rewrite (ev_running _ _ _ _ al_evicted). set_solver.
    + intros [Hv|Hs]%al_kept; [by apply (Hdisj j)|]. by rewrite (scheduled_first t1) in Hs.
Qed.

(** What one turn of the loop does. *)
Definition turn_ok (B : Z) (s : sched) (t : Step) (idx : nat) (x : flow (sched * Step * Z)) : Prop :=
  match x with
  | Next (s', t', z) => ∃ idx' vs, z = Z.of_nat idx' ∧ LoopInv B s' t' idx'
      ∧ evicted same_but_drafts s vs s' ∧ preempted_reqs t' = preempted_reqs t ++ vs
      ∧ (length (running s') - idx' < length (running s) - idx)%nat
  | Break (s', t', _) => ∃ vs, WF s' ∧ StepInv B s' t' ∧ first_phase t' ∧ unscheduled_pending s' t'
      ∧ evicted same_but_drafts s vs s' ∧ preempted_reqs t' = preempted_reqs t ++ vs
  end.

Lemma running_one_spec B s t idx :
  LoopInv B s t idx → (idx < length (running s))%nat → 0 < token_budget t →
  ∃ x, schedule_running_one now s t (Z.of_nat idx) = Ok x ∧ turn_ok B s t idx x.
Proof.
  intros Hinv Hidx Hbud. apply lookup_lt_is_Some_2 in Hidx as (i & Hi).
  assert (turn_ok B s t idx (Next (s, t, Z.of_nat idx + 1))) as Hskip.
  { apply lookup_lt_Some in Hi. exists (S idx), []. split; [lia|]. split; [by apply LoopInv_skip|].
    split; [|rewrite app_nil_r; split; [done|lia]]. split; try done. by intros j ?%elem_of_nil. }
  pose proof (visiting_here B s t idx i Hinv Hi) as Hvi. destruct (Hinv) as [].
  assert (i ∈ running s) as Hin by (by eapply list_elem_of_lookup_2).
  pose proof (wf_req s li_wf0 i (running_all s i Hin)) as Hreq.
  unfold schedule_running_one.
  rewrite (proj2 (py_index_nonneg _ _ i (Zle_0_nat idx))) by (by rewrite Nat2Z.id). cbn [mbind res_bind].
  destruct (_ && _) eqn:Eskip; [by eexists|].
  assert (has_encoder_inputs (objs s i) = false) as ->.
  { unfold has_encoder_inputs, num_encoder_inputs. by rewrite (ro_text _ _ _ _ _ Hreq). }
  cbn [mbind res_bind]. rewrite (co_mamba _ li_cfg0). cbn [mbind res_bind].
  destruct (running_tokens_bounds (cfg s) (objs s i) (token_budget t)) as (Hn & Hmax & Hwithin); [|done|].
  { apply li_pending0; [done|apply Hvi]. }
  set (n := running_tokens _ _ _) in *. destruct (n =? 0) eqn:En; to_prop; [by eexists|].
  destruct (allocate_loop_spec now B (S (length (running s))) s t idx i n)
    as (o & s1 & t1 & idx1 & vs & -> & Hal); try done; try lia; [apply li_cfg0|].
  cbn [mbind res_bind]. destruct o as [b|].
  - destruct (schedule_allocated B s t idx i n b s1 t1 idx1 vs Hinv ltac:(lia) Hwithin Hal)
      as (s3 & t3 & E3 & Hinv3 & Hev3 & Hpre3 & Hr3).
    unfold rid in E3. rewrite E3. cbn. eexists. split; [reflexivity|]. apply lookup_lt_Some in Hi.
    exists (S idx1), vs. split; [lia|]. split_and!; try done. rewrite Hr3. destruct Hal. lia.
  - eexists. split; [reflexivity|]. destruct Hal. exists vs. split_and!; try done; [|by apply evicted_weaken].
    intros j Hj Hnew. pose proof (running_nodup s li_wf0) as Hnd. rewrite (ev_running _ _ _ _ al_evicted) in Hnd.
    apply NoDup_app in Hnd as (_ & Hdisj & _). assert (j ∉ vs) as Hv by (intros Hv; by apply (Hdisj j)).
    rewrite (ev_cfg _ _ _ _ al_evicted), (ev_same _ _ _ _ al_evicted j Hv). apply li_pending0; [by eapply evicted_sub|].
    intros [?|?]%al_kept; done.
Qed.

Lemma running_loop_spec B fuel s t idx :
  LoopInv B s t idx → (length (running s) - idx ≤ fuel)%nat →
  ∃ s' t' vs, running_loop now fuel s t (Z.of_nat idx) = Ok (s', t')
    ∧ WF s' ∧ StepInv B s' t' ∧ first_phase t' ∧ unscheduled_pending s' t' ∧ evicted same_but_drafts s vs s'
    ∧ preempted_reqs t' = preempted_reqs t ++ vs.
Proof.
  revert s t idx. induction fuel as [|fuel IH]; intros s t idx Hinv Hfuel; cbn [running_loop].
  all: destruct (_ && _) eqn:Eg; to_prop; last first.
  1,3: exists s, t, []; destruct Hinv; rewrite app_nil_r; split_and!; try done;
    (split; try done; by intros j ?%elem_of_nil).
  { unfold zlen in *. lia. }
  destruct (running_one_spec B s t idx Hinv ltac:(unfold zlen in *; lia) ltac:(done)) as ([[[s1 t1] z]|[[s1 t1] z]] & -> & Hx); cbn [mbind res_bind].
  - destruct Hx as (idx1 & vs & -> & Hinv1 & Hev & Hpre & Hm).
    destruct (IH s1 t1 idx1 Hinv1) as (s2 & t2 & ws & E2 & Hwf2 & Hst2 & Hph2 & Hpe2 & Hev2 & Hpre2); [lia|].
    exists s2, t2, (vs ++ ws). split_and!; try done.
    + by apply (evicted_trans _ s s1 s2 vs ws _).
    + by rewrite Hpre2, Hpre, app_assoc.
  - destruct Hx as (vs & ? & ? & ? & ? & ? & ?). by exists s1, t1, vs.
Qed.
End running.
