(* ===== verification/WaitingLoop.v ===== *)
(** * The loop over the waiting queues

    The second half of a scheduling step, for text requests: it never raises, ends,
    respects the budgets and loses no request. *)

From Stdlib Require Import String.
From S2P Require Import Prelude Request BlockHash KVCacheManager EncoderCache.
From S2P Require Import RequestQueue SchedUtils Scheduler Schedule SchedLaws SchedWF Preemption RunningLoop.
#[local] Open Scope Z_scope.

Section waiting.
Context {K E W C EC P : Type}.
Context `{KVManagerLaws K} `{EncoderTextLaws E} `{QueueImplLaws W} `{KVConnector C P} `{ECConnector EC}.
#[local] Abbreviation sched := (Scheduler K E W C EC).
Implicit Types (s : sched) (t : Step) (skipped : W).
Context (now : Z) (grammar_ready : Z → bool).

(** The requests set aside in this step. *)
Record Aside (s : sched) (skipped : W) : Prop := {
  as_nodup : NoDup (all_ids s ++ ids skipped);
  as_req : ∀ i, i ∈ ids skipped →
    req_ok (kv_cache_manager s) (cfg s) (requests s) i (objs s i);
  as_status : ∀ i, i ∈ ids skipped → skipped_ok (objs s i);
  as_idle : ∀ i, i ∈ ids skipped → idle_ok (kv_cache_manager s) (objs s i);
  as_queue : q_ok s skipped;
}.

(** Only the slots and the object of one other request change. *)
Lemma Aside_change s s' skipped i :
  WF s → i ∈ all_ids s → Aside s skipped →
  kv_frame (request_id (objs s i)) (kv_cache_manager s) (kv_cache_manager s') →
  (∀ j, j ≠ i → objs s' j = objs s j) → cfg s' = cfg s → requests s' = requests s →
  all_ids s' ≡ₚ all_ids s → Aside s' skipped.
Proof.
  intros Hwf Hi [] Hf Hobj Ec Er Hall.
  assert (∀ j, j ∈ ids skipped → j ≠ i) as Hne.
  { intros j Hj ->. apply NoDup_app in as_nodup0 as (_ & Hd & _). by apply (Hd i). }
  assert (∀ j, j ∈ ids skipped → request_id (objs s j) ≠ request_id (objs s i)) as Hid.
  { intros j Hj Heq. apply (Hne j Hj). pose proof (ro_dict _ _ _ _ _ (as_req0 j Hj)) as Hd.
    rewrite Heq, (ro_dict _ _ _ _ _ (wf_req s Hwf i Hi)) in Hd. congruence. }
  split; rewrite ?Ec, ?Er.
  - by rewrite Hall.
  - intros j Hj. rewrite Hobj by auto. eapply req_ok_frame; eauto.
  - intros j Hj. rewrite Hobj by auto. auto.
  - intros j Hj. rewrite Hobj by auto. eapply idle_ok_frame; eauto.
  - eapply q_ok_change; [apply (wf_objs s Hwf)| |done]. intros j Hj. rewrite Hobj by auto. done.
Qed.

(** The head of a queue is its first object, whatever its attributes. *)
Lemma q_peek_head s q : objs_ok s → q_peek s q = object_id <$> peek_request q.
Proof.
  intros Ho. unfold q_peek, current. rewrite qi_peek. destruct (peek_request q); [|done]. cbn. by rewrite Ho.
Qed.

Lemma q_peek_elem s q i : objs_ok s → q_ok s q → ids q ≠ [] → q_peek s q = Ok i → i ∈ ids q.
Proof.
  intros Ho Hq Hne Ep. destruct (q_pop_spec s q Ho Hq Hne) as (j & q' & Ej & _ & _ & Hids).
  rewrite Ej in Ep. injection Ep as <-. rewrite Hids. left.
Qed.

Lemma select_queue_spec s :
  WF s → ids (waiting_q s) ++ ids (skipped_waiting s) ≠ [] →
  ∃ w, _select_waiting_queue_for_scheduling s = Ok (Some w) ∧ ids (queue_of s w) ≠ [].
Proof.
  intros Hwf Hne. pose proof (wf_objs s Hwf) as Ho. unfold _select_waiting_queue_for_scheduling.
  pose proof (q_empty_iff (waiting_q s)) as Iw. pose proof (q_empty_iff (skipped_waiting s)) as Is.
  assert (q_empty (waiting_q s) = false → ids (waiting_q s) ≠ []) as Nw by (intros E0 E1%Iw; congruence).
  assert (q_empty (skipped_waiting s) = false → ids (skipped_waiting s) ≠ []) as Ns by (intros E0 E1%Is; congruence).
  destruct (q_empty (waiting_q s)) eqn:Ew, (q_empty (skipped_waiting s)) eqn:Es; cbn [negb andb].
  - destruct Hne. by rewrite (proj1 Iw), (proj1 Is).
  - exists Skipped. by destruct impl_policy; auto.
  - exists Waiting. by destruct impl_policy; auto.
  - destruct impl_policy; [exists Skipped; auto|].
    destruct (q_pop_spec s _ Ho (wf_wq s Hwf) (Nw eq_refl)) as (i & ? & -> & _).
    destruct (q_pop_spec s _ Ho (wf_sq s Hwf) (Ns eq_refl)) as (j & ? & -> & _). cbn [mbind res_bind].
    destruct (request_lt _ _); [exists Waiting|exists Skipped]; auto.
Qed.

(** ** The invariant of the loop *)

Record WaitInv (B : Z) (s : sched) (t : Step) (skipped : W) : Prop := {
  wi_wf : WF s;
  wi_cfg : cfg_ok (cfg s);
  wi_step : StepInv B s t;
  wi_aside : Aside s skipped;
  wi_connector : connector s = None;
  wi_running : zlen (running s) ≤ max_num_running_reqs (cfg s);
  wi_pending : unscheduled_pending s t;
}.

(** Only request [i] and its slots changed. *)
Record touched (i : Z) (s s' : sched) : Prop := {
  to_running : running s' = running s;
  to_waiting : waiting_q s' = waiting_q s;
  to_skipped : skipped_waiting s' = skipped_waiting s;
  to_cfg : cfg s' = cfg s;
  to_requests : requests s' = requests s;
  to_connector : connector s' = connector s;
  to_pause : pause_state s' = pause_state s;
  to_prev : prev_step_scheduled_req_ids s' = prev_step_scheduled_req_ids s;
  to_others : ∀ j, j ≠ i → objs s' j = objs s j;
  to_key : request_key (objs s' i) = request_key (objs s i);
  to_frame : kv_frame (rid s i) (kv_cache_manager s) (kv_cache_manager s');
}.

Lemma touched_rid i s s' j : touched i s s' → rid s' j = rid s j.
Proof.
  intros []. unfold rid. destruct (decide (j = i)) as [->|]; [|by rewrite to_others0].
  unfold request_key in to_key0. congruence.
Qed.

#[export] Instance touched_preorder i : PreOrder (touched i).
Proof.
  split; [by split|]. intros s1 s2 s3 T1 T2. pose proof (touched_rid i s1 s2 i T1) as Er.
  destruct T1, T2. split; try congruence.
  - intros j Hj. by rewrite to_others1, to_others0.
  - rewrite Er in to_frame1. by etrans.
Qed.

Lemma touched_all i s s' : touched i s s' → all_ids s' = all_ids s.
Proof. intros []. unfold all_ids. congruence. Qed.

Lemma not_running s i : WF s → i ∈ ids (waiting_q s) ++ ids (skipped_waiting s) → i ∉ running s.
Proof.
  intros Hwf Hi Hr. pose proof (wf_nodup s Hwf) as Hn. apply NoDup_app in Hn as (_ & Hn & _). by apply (Hn i).
Qed.

Lemma StepInv_touched B s s' t i :
  WF s → i ∈ ids (waiting_q s) ++ ids (skipped_waiting s) → touched i s s' →
  StepInv B s t → StepInv B s' t.
Proof.
  intros Hwf Hi Ht Hst. pose proof (touched_rid i s s') as Hrid.
  eapply StepInv_change; [done|by rewrite (to_running _ _ _ Ht); apply Hst|apply Ht|].
  intros j Hj%(st_sub _ _ _ Hst). assert (j ≠ i) as Hne by (intros ->; by apply (not_running s i)).
  rewrite (to_others _ _ _ Ht) by done. split; [done|].
  apply (to_frame _ _ _ Ht). eapply wf_distinct; [done|by apply running_all| |done].
  apply (wf_req s Hwf i). by apply waiting_all.
Qed.

Lemma WaitInv_touched B s s' t skipped i :
  i ∈ ids (waiting_q s) ++ ids (skipped_waiting s) → touched i s s' → WF s' →
  WaitInv B s t skipped → WaitInv B s' t skipped.
Proof.
  intros Hi Ht Hwf' []. pose proof (touched_all i s s' Ht) as Hall. split; try done.
  - by rewrite (to_cfg _ _ _ Ht).
  - by eapply StepInv_touched.
  - apply (Aside_change s _ _ i); try done; try apply Ht; [by apply waiting_all|by rewrite Hall].
  - by rewrite (to_connector _ _ _ Ht).
  - by rewrite (to_running _ _ _ Ht), (to_cfg _ _ _ Ht).
  - intros j. rewrite (to_running _ _ _ Ht), (to_cfg _ _ _ Ht). intros Hj. rewrite (to_others _ _ _ Ht); [by apply wi_pending0|].
    intros ->. by apply (not_running s i).
Qed.

(** ** The stages of a turn *)

(** A blocked request is promoted, or not. *)
Definition try_promote (s : sched) (i : Z) : res (bool * sched) :=
  if _is_blocked_waiting_status (status (objs s i))
  then _try_promote_blocked_waiting_request grammar_ready s i else Ok (true, s).

Lemma waiting_status s i :
  WF s → i ∈ ids (waiting_q s) ++ ids (skipped_waiting s) → skipped_ok (objs s i).
Proof.
  intros Hwf [Hi|Hi]%elem_of_app; [|by apply (wf_skipped s Hwf)].
  unfold skipped_ok. by destruct (wf_waiting s Hwf i Hi) as [-> | ->].
Qed.

Lemma promote_spec s i :
  WF s → i ∈ ids (waiting_q s) ++ ids (skipped_waiting s) →
  ∃ ready s', try_promote s i = Ok (ready, s') ∧ WF s' ∧ touched i s s'
    ∧ (ready = true → waiting_ok (objs s' i)).
Proof.
  intros Hwf Hi. pose proof (waiting_status s i Hwf Hi) as Hst. unfold skipped_ok in Hst. unfold try_promote, waiting_ok.
  destruct (status (objs s i)) eqn:Es; try done; cbn [_is_blocked_waiting_status];
    try (exists true, s; split_and!; [done..|by auto]).
  - unfold _try_promote_blocked_waiting_request. cbn zeta. rewrite Es. destruct (negb _); [by eexists _, s; split_and!|].
    eexists true, _. split; [done|]. pose proof (wf_req s Hwf i (waiting_all s i Hi)) as Hreq.
    set (r := with_status (objs s i) WAITING).
    assert (WF (put (with_kv s (kv_cache_manager s)) i r)) as Hwf'.
    { apply WF_put; try done; try apply Hreq; try apply Hwf.
      - intros _. destruct Hreq. split; try done. by apply (kv_request_tokens _ (objs s i)).
      - intros Hr. by destruct (not_running s i Hwf Hi).
      - intros _. by left. }
    split; [by eapply WF_ext|]. split; [|intros _; left; cbn; by rewrite Z.eqb_refl].
    split; try done; cbn; [intros j Hj; by rewrite (proj2 (Z.eqb_neq _ _))|by rewrite Z.eqb_refl].
  - unfold _try_promote_blocked_waiting_request. cbn zeta. rewrite Es.
    destruct Hst as [-> | ->]; cbn; by eexists false, s.
Qed.

(** What was found in the cache for request [i]. *)
Record computed_ok (s : sched) (i : Z) (c : Computed) : Prop := {
  cp_external : co_external c = 0;
  cp_async : co_load_async c = false;
  cp_total : 0 ≤ co_total c < num_tokens (objs s i);
  cp_source :
    num_computed_tokens (objs s i) = 0 ∧ co_total c = co_local c
      ∧ kv_hits (kv_cache_manager s) (objs s i) (co_blocks c) (co_local c)
    ∨ num_computed_tokens (objs s i) ≠ 0 ∧ co_total c = num_computed_tokens (objs s i)
      ∧ co_blocks c = EmptyBlocks ∧ co_local c = 0;
}.

(** The manager changed, but not its slots. *)
Lemma touched_kv s i k :
  WF s → i ∈ all_ids s → kv_ok k → kv_frame (rid s i) (kv_cache_manager s) k →
  kv_slots k (rid s i) = kv_slots (kv_cache_manager s) (rid s i) →
  WF (with_kv s k) ∧ touched i s (with_kv s k).
Proof. intros. split; [by eapply WF_kv|by split]. Qed.

Lemma find_computed_spec s i :
  WF s → i ∈ ids (waiting_q s) ++ ids (skipped_waiting s) → connector s = None →
  ∃ c s', find_computed s i = Ok (Some c, s') ∧ WF s' ∧ touched i s s' ∧ objs s' = objs s
    ∧ computed_ok s' i c.
Proof.
  intros Hwf Hi Hconn. pose proof (wf_req s Hwf i (waiting_all s i Hi)) as Hreq.
  destruct (wf_idle s Hwf i Hi) as [Hlt Hz]. unfold find_computed.
  destruct (num_computed_tokens (objs s i) =? 0) eqn:E0; to_prop; cbn [negb].
  - destruct (law_computed (kv_cache_manager s) (objs s i)) as (b & n & k & -> & Hk & Hf & Hs & Hn & Hh);
      [apply Hwf|apply Hreq|auto|destruct Hreq; lia|].
    cbn [mbind res_bind]. cbn [connector with_kv]. rewrite Hconn. rewrite (proj2 (Z.leb_le _ _)) by lia.
    destruct (touched_kv s i k) as [Hwf' Ht]; try done; [by apply waiting_all|unfold rid; rewrite Hs; symmetry; auto|].
    eexists _, _. split; [done|]. split_and!; try done. split; try done. by left.
  - eexists _, s. split; [done|]. split_and!; try done. split; try done; cbn; (by right) || (destruct Hreq; lia).
Qed.

(** The number of tokens to compute, or no room for the whole prompt. *)
Lemma waiting_tokens_spec B s t skipped i c :
  WaitInv B s t skipped → i ∈ ids (waiting_q s) ++ ids (skipped_waiting s) → 0 < token_budget t →
  computed_ok s i c →
  ∃ x, waiting_tokens s t i c = Ok (x, s) ∧
    (x = None ∨ ∃ n, x = Some ([], n, encoder_compute_budget t, [])
       ∧ 0 < n ≤ token_budget t ∧ co_total c + n ≤ num_tokens (objs s i)).
Proof.
  intros [] Hi Hb []. pose proof (wf_req s wi_wf0 i (waiting_all s i Hi)) as Hreq.
  unfold waiting_tokens. rewrite cp_async0. cbn zeta.
  assert (has_encoder_inputs (objs s i) = false) as ->.
  { unfold has_encoder_inputs, num_encoder_inputs. by rewrite (ro_text _ _ _ _ _ Hreq). }
  set (n := if (0 <? _) && _ then _ else _ : Z).
  assert (0 < n ≤ num_tokens (objs s i) - co_total c) as Hn.
  { unfold n. destruct (_ && _) eqn:Et; to_prop; lia. }
  destruct (negb _ && _); [exists None; auto|].
  rewrite (proj2 (Z.ltb_lt _ _)) by lia. eexists. split; [done|]. right. eexists. split; [done|]. lia.
Qed.

(** The capacity check changes no slots. *)
Lemma fits_spec s i c :
  WF s → i ∈ all_ids s → computed_ok s i c →
  ∃ b k, kv_can_fit_full_sequence (kv_cache_manager s) (objs s i) (co_local c) (Some (co_blocks c)) 0 0
      = Ok (b, k)
    ∧ WF (with_kv s k) ∧ touched i s (with_kv s k) ∧ computed_ok (with_kv s k) i c.
Proof.
  intros Hwf Hi []. pose proof (wf_req s Hwf i Hi) as Hreq.
  destruct cp_source0 as [(E0 & Et & Hh)|(E0 & Et & Eb & El)].
  - destruct (law_can_fit (kv_cache_manager s) (objs s i) (co_blocks c) (co_local c))
      as (b & k & E1 & Hk & Hf & Hs & Hh'); try done; [apply Hwf|apply Hreq|].
    exists b, k. destruct (touched_kv s i k); try done. split_and!; try done. split; try done. by left.
  - rewrite Eb, El. destruct (law_can_fit_empty (kv_cache_manager s) (objs s i))
      as (b & k & E1 & Hk & Hf & Hs); [apply Hwf|apply Hreq..|].
    exists b, k. destruct (touched_kv s i k); try done. split_and!; try done. split; try done. by right.
Qed.

Lemma waiting_slots_spec s i c n :
  WF s → i ∈ all_ids s → cfg_ok (cfg s) → computed_ok s i c →
  0 < n → co_total c + n ≤ num_tokens (objs s i) →
  ∃ o k r, kv_allocate_slots (kv_cache_manager s) (objs s i) n (co_local c) (Some (co_blocks c))
      (if num_computed_tokens (objs s i) =? 0 then 0 else num_lookahead_tokens (cfg s)) 0 false 0
      = Ok (o, k, r)
    ∧ kv_ok k ∧ kv_frame (rid s i) (kv_cache_manager s) k ∧ same_request (objs s i) r ∧ kv_request_ok k r
    ∧ match o with
      | Some _ => co_total c + n ≤ kv_slots k (rid s i)
      | None => kv_slots k (rid s i) = kv_slots (kv_cache_manager s) (rid s i)
      end.
Proof.
  intros Hwf Hi Hcfg [] Hn Hmax. pose proof (wf_req s Hwf i Hi) as Hreq.
  assert (co_total c + n ≤ kv_max_len (kv_cache_manager s)) as Hlen.
  { rewrite (wf_len s Hwf). destruct Hreq. lia. }
  destruct cp_source0 as [(E0 & Et & Hh)|(E0 & Et & Eb & El)].
  - rewrite (proj2 (Z.eqb_eq _ _)) by done. rewrite Et in *.
    destruct (law_allocate_hit (kv_cache_manager s) (objs s i) n (co_blocks c) (co_local c))
      as (o & k & r & E1 & Hk & Hf & Hs & Hkr & Ho); try done; [apply Hwf|apply Hreq|].
    by exists o, k, r.
  - rewrite (proj2 (Z.eqb_neq _ _)) by done. rewrite Eb, El, Et in *.
    destruct (law_allocate (kv_cache_manager s) (objs s i) n (Some EmptyBlocks) (num_lookahead_tokens (cfg s)))
      as (o & k & r & E1 & Hk & Hf & Hs & Hkr & Ho); try done; [apply Hwf|apply Hreq|by right|apply Hcfg|apply Hreq|].
    by exists o, k, r.
Qed.

(** A failed allocation. *)
Lemma touched_put s i k r :
  WF s → i ∈ ids (waiting_q s) ++ ids (skipped_waiting s) → kv_ok k →
  kv_frame (rid s i) (kv_cache_manager s) k → same_request (objs s i) r → kv_request_ok k r →
  kv_slots k (rid s i) = kv_slots (kv_cache_manager s) (rid s i) →
  WF (put (with_kv s k) i r) ∧ touched i s (put (with_kv s k) i r).
Proof.
  intros Hwf Hi Hk Hf Hs Hkr Hslots. pose proof (wf_req s Hwf i (waiting_all s i Hi)) as Hreq.
  unfold rid in *. split.
  - apply WF_put; try done; [apply Hreq|by apply same_key|..].
    + intros _. eapply req_ok_same; try done. rewrite Hslots. apply Hreq.
    + intros Hr. by destruct (not_running s i Hwf Hi).
    + rewrite Hs. apply (wf_waiting s Hwf).
    + rewrite Hs. apply (wf_skipped s Hwf).
    + intros Hin. rewrite Hs. destruct (wf_idle s Hwf i Hin). split; [done|]. cbn. by rewrite Hslots.
  - split; try done; [intros j Hj; by apply put_ne|]. rewrite put_eq. by apply same_key.
Qed.

(** Allocation for a waiting request: it stays in the queue when it fails. *)
Lemma allocate_waiting_spec B s t skipped i c n :
  WaitInv B s t skipped → i ∈ ids (waiting_q s) ++ ids (skipped_waiting s) → computed_ok s i c →
  0 < n → co_total c + n ≤ num_tokens (objs s i) →
  ∃ ok s', allocate_waiting s i c n [] = Ok (ok, s') ∧
    if ok then ∃ k r, s' = put (with_kv s k) i r ∧ kv_ok k ∧ kv_frame (rid s i) (kv_cache_manager s) k
      ∧ same_request (objs s i) r ∧ kv_request_ok k r ∧ co_total c + n ≤ kv_slots k (rid s i)
    else WF s' ∧ touched i s s'.
Proof.
  intros Hinv Hi Hc Hn Hmax. destruct (Hinv) as [].
  pose proof (wf_req s wi_wf0 i (waiting_all s i Hi)) as Hreq.
  assert (∀ s', mm_features (objs s' i) = [] → drop_encoder_refs s' i = Ok s') as Hdrop.
  { intros s' Ho. unfold drop_encoder_refs, has_encoder_inputs, num_encoder_inputs. by rewrite Ho. }
  assert (has_encoder_inputs (objs s i) = false) as Htext.
  { unfold has_encoder_inputs, num_encoder_inputs. by rewrite (ro_text _ _ _ _ _ Hreq). }
  unfold allocate_waiting. destruct (Hc) as [-> -> _ _]. rewrite Htext, andb_false_r. cbn [mbind res_bind].
  set (fits := if scheduler_reserve_full_isl _ then _ else _).
  assert (∃ b k, fits = Ok (b, with_kv s k) ∧ WF (with_kv s k) ∧ touched i s (with_kv s k)
    ∧ computed_ok (with_kv s k) i c) as (b & k & -> & Hwf1 & Ht1 & Hc1).
  { unfold fits. destruct (scheduler_reserve_full_isl (cfg s)).
    - destruct (fits_spec s i c) as (b & k & -> & ?); [done|by apply waiting_all|done|]. by exists b, k.
    - exists true, (kv_cache_manager s). by destruct s. }
  cbn [mbind res_bind]. destruct b; cbn [negb]; [|rewrite Hdrop by apply Hreq; by eexists false, _].
  destruct (waiting_slots_spec (with_kv s k) i c n Hwf1 (waiting_all s i Hi) wi_cfg0 Hc1 Hn Hmax)
    as (o & k2 & r & E2 & Hk2 & Hf2 & Hs2 & Hkr2 & Ho2).
  cbn [objs with_kv kv_cache_manager cfg] in E2. cbn [kv_cache_manager with_kv]. rewrite E2. cbn [mbind res_bind].
  destruct o as [b2|].
  - cbn [connector put with_kv with_objs]. rewrite wi_connector0. eexists true, _. split; [done|].
    exists k2, r. split_and!; try done. etrans; [apply Ht1|exact Hf2].
  - rewrite (Hdrop (put _ _ _)) by (rewrite put_eq, Hs2; apply Hreq). cbn [mbind res_bind]. eexists false, _. split; [done|].
    destruct (touched_put (with_kv s k) i k2 r) as [? ?]; try done. split; [done|by etrans].
Qed.

(** ** A turn of the loop *)

Definition queued (s : sched) : list Z := ids (waiting_q s) ++ ids (skipped_waiting s).

(** No request is lost and nothing is preempted. *)
Record waited (s : sched) (t : Step) (skipped : W) (s' : sched) (t' : Step) (skipped' : W) : Prop := {
  wa_all : all_ids s' ++ ids skipped' ≡ₚ all_ids s ++ ids skipped;
  wa_cfg : cfg s' = cfg s;
  wa_requests : requests s' = requests s;
  wa_pause : pause_state s' = pause_state s;
  wa_prev : prev_step_scheduled_req_ids s' = prev_step_scheduled_req_ids s;
  wa_sub : ∀ i, i ∈ queued s' → i ∈ queued s;
  wa_fresh : ∀ i, i ∈ scheduled_new_reqs t' ++ scheduled_resumed_reqs t' →
    i ∈ scheduled_new_reqs t ++ scheduled_resumed_reqs t ∨ i ∈ queued s;
  wa_rid : ∀ i, rid s' i = rid s i;
  wa_preempted : preempted_reqs t' = preempted_reqs t;
  wa_running_reqs : scheduled_running_reqs t' = scheduled_running_reqs t;
}.

Lemma waited_refl s t skipped : waited s t skipped s t skipped.
Proof. split; auto. Qed.

Lemma waited_trans s1 t1 q1 s2 t2 q2 s3 t3 q3 :
  waited s1 t1 q1 s2 t2 q2 → waited s2 t2 q2 s3 t3 q3 → waited s1 t1 q1 s3 t3 q3.
Proof.
  intros [] []. split; try congruence; auto.
  - by rewrite wa_all1.
  - intros i Hi. destruct (wa_fresh1 i Hi); auto.
Qed.

Lemma touched_queued i s s' : touched i s s' → queued s' = queued s.
Proof. intros []. unfold queued. congruence. Qed.

Lemma waited_touched i s s' t skipped : touched i s s' → waited s t skipped s' t skipped.
Proof.
  intros Ht. split; try apply Ht; try done; [by rewrite (touched_all i s s' Ht)| |by left|].
  - by rewrite (touched_queued i s s' Ht).
  - intros j. by eapply touched_rid.
Qed.

(** The request at the head of the chosen queue. *)
Lemma head_spec s w i :
  WF s → ids (queue_of s w) ≠ [] → q_peek s (queue_of s w) = Ok i →
  ∃ q, q_pop s (queue_of s w) = Ok (i, q) ∧ q_ok s q ∧ ids (queue_of s w) ≡ₚ i :: ids q.
Proof.
  intros Hwf Hne Hpk. assert (q_ok s (queue_of s w)) as Hq by (destruct w; apply Hwf).
  destruct (q_pop_spec s (queue_of s w) (wf_objs s Hwf) Hq Hne) as (j & q & Ej & Epop & Hq' & Hids).
  rewrite Ej in Hpk. injection Hpk as <-. by exists q.
Qed.

Lemma queued_pop s w q i :
  ids (queue_of s w) ≡ₚ i :: ids q → queued s ≡ₚ i :: queued (with_queue_of s w q).
Proof. intros Hids. unfold queued. destruct w; cbn in *; rewrite Hids; cbn; by rewrite <- ?Permutation_middle. Qed.

Lemma skip_spec B s t skipped w i :
  WaitInv B s t skipped → ids (queue_of s w) ≠ [] → q_peek s (queue_of s w) = Ok i →
  ∃ s' skipped', skip_request s w skipped i = Ok (s', skipped') ∧ WaitInv B s' t skipped'
    ∧ waited s t skipped s' t skipped' ∧ length (queued s) = S (length (queued s')).
Proof.
  intros [] Hne Hpk. destruct (head_spec s w i wi_wf0 Hne Hpk) as (q & Epop & Hq & Hids).
  unfold skip_request. rewrite Epop. cbn [mbind res_bind].
  destruct (WF_pop s w q i wi_wf0 Hq Hids) as [Hwf' Hall]. set (s' := with_queue_of s w q) in *.
  assert (objs s' = objs s ∧ running s' = running s ∧ cfg s' = cfg s ∧ kv_cache_manager s' = kv_cache_manager s
    ∧ requests s' = requests s ∧ connector s' = connector s ∧ pause_state s' = pause_state s)
    as (Eo & Er & Ec & Ek & Eq & En & Ep) by (unfold s'; by destruct w).
  assert (i ∈ queued s) as Hi by (rewrite (queued_pop s w q i Hids); left).
  assert (q_ok s' skipped) as Hqs by (unfold q_ok, current; rewrite Eo; apply wi_aside0).
  destruct (q_prepend_spec s' skipped i (wf_objs _ Hwf') Hqs) as (sk & -> & Hsk & Hskids).
  cbn [mbind res_bind]. exists s', sk. split; [done|].
  assert (all_ids s' ++ ids sk ≡ₚ all_ids s ++ ids skipped) as Hperm.
  { rewrite Hall, Hskids. cbn. by rewrite <- Permutation_middle. }
  assert (∀ j, j ∈ ids sk → j = i ∨ j ∈ ids skipped) as Hcase by (intros j; rewrite Hskids; apply elem_of_cons).
  split_and!.
  - split; try done.
    + by rewrite Ec.
    + apply (StepInv_change _ s); [done|by rewrite Er; apply wi_step0|done|]. unfold rid. by rewrite Eo, Ek.
    + destruct wi_aside0. split; rewrite ?Eo, ?Ek, ?Ec, ?Eq; [| | | |done].
      * by rewrite Hperm.
      * intros j [->|Hj]%Hcase; [by apply wi_wf0, waiting_all|auto].
      * intros j [->|Hj]%Hcase; [by apply waiting_status|auto].
      * intros j [->|Hj]%Hcase; [by apply wi_wf0|auto].
    + by rewrite En.
    + by rewrite Er, Ec.
    + unfold unscheduled_pending. by rewrite Er, Ec, Eo.
  - split; try done; [by destruct w| |by left|by intros j; unfold rid; rewrite Eo].
    intros j. rewrite (queued_pop s w q i Hids). by right.
  - by rewrite (Permutation_length (queued_pop s w q i Hids)).
Qed.

(** The object of a request that starts. *)
Definition started_request (log : bool) (total : Z) (r : Request) : Request :=
  let r := if log then record_event r SCHEDULED now else r in
  let r := with_num_computed_tokens (with_status r RUNNING) total in
  if num_cached_tokens r <? 0 then with_num_cached_tokens r total else r.

Lemma started_fields log total r :
  let r' := started_request log total r in
  status r' = RUNNING ∧ num_computed_tokens r' = total ∧ request_key r' = request_key r
  ∧ request_id r' = request_id r ∧ num_tokens r' = num_tokens r ∧ mm_features r' = mm_features r
  ∧ num_output_placeholders r' = num_output_placeholders r ∧ spec_token_ids r' = spec_token_ids r
  ∧ (∀ k, kv_request_ok k r → kv_request_ok k r').
Proof.
  cbn zeta. unfold started_request, record_event. destruct log; cbn [num_cached_tokens with_events with_num_computed_tokens with_status];
    destruct (_ <? 0); split_and!; try done; intros k; by apply kv_request_tokens.
Qed.

(** The state after the request at the head of queue [w] got its slots [k] and
    started to run. *)
Definition started (s : sched) (w : which_queue) (q : W) (k : K) (i total : Z) (r : Request) : sched :=
  let s' := put (with_kv (with_queue_of s w q) k) i (started_request (log_stats (cfg s)) total r) in
  with_running s' (running s' ++ [i]).

Lemma started_wf s w q k i total r :
  WF s → q_ok s q → ids (queue_of s w) ≡ₚ i :: ids q →
  kv_ok k → kv_frame (rid s i) (kv_cache_manager s) k → same_request (objs s i) r → kv_request_ok k r →
  0 ≤ total ≤ kv_slots k (rid s i) →
  WF (started s w q k i total r) ∧ all_ids (started s w q k i total r) ≡ₚ all_ids s.
Proof.
  intros Hwf Hq Hids Hk Hf Hs Hkr Htot. destruct (WF_pop s w q i Hwf Hq Hids) as [Hwf' Hall].
  destruct (started_fields (log_stats (cfg s)) total r) as (F1 & F2 & F3 & F4 & F5 & F6 & F7 & F8 & F9).
  assert (i ∈ all_ids s) as Hi by (rewrite Hall; left). pose proof (wf_req s Hwf i Hi) as Hreq.
  assert (i ∉ all_ids (with_queue_of s w q)) as Hnew.
  { pose proof (wf_nodup s Hwf) as Hnd. rewrite Hall in Hnd. by apply NoDup_cons in Hnd as [? _]. }
  assert (objs (with_queue_of s w q) = objs s ∧ kv_cache_manager (with_queue_of s w q) = kv_cache_manager s
    ∧ requests (with_queue_of s w q) = requests s ∧ cfg (with_queue_of s w q) = cfg s) as (Eo & Ek & Eq & Ec) by (by destruct w).
  unfold started. set (r' := started_request _ total r) in *. split.
  - apply WF_add_running; [apply WF_put; rewrite ?Eo, ?Ek, ?Eq; try done|exact Hnew| |].
    + apply Hreq.
    + rewrite F3. by apply same_key.
    + intros Hin. destruct Hnew. apply waiting_all, elem_of_app. by left.
    + intros Hin. destruct Hnew. apply waiting_all, elem_of_app. by right.
    + intros Hin. destruct Hnew. by apply waiting_all.
    + rewrite put_eq. cbn [kv_cache_manager cfg requests put with_kv with_objs]. rewrite Ec, Eq.
      rewrite Hs in F4, F5, F6, F7, F8. destruct Hreq. split; try (rewrite ?F4, ?F5, ?F6, ?F7, ?F8; done).
      * by apply F9.
      * by rewrite F2, F4.
    + by rewrite put_eq.
  - rewrite Hall. unfold all_ids. cbn [running waiting_q skipped_waiting put with_kv with_objs with_running].
    rewrite <- app_assoc. cbn. by rewrite <- Permutation_middle.
Qed.

Lemma start_request_spec s w q k i total r t id c n :
  waiting_ok (objs s i) → same_request (objs s i) r → max_loras (cfg s) = None → co_total c = total →
  ∃ s' t', start_request now (with_queue_of (put (with_kv s k) i r) w q) t i id c n = Ok (s', t')
    ∧ (∀ j, objs s' j = objs (started s w q k i total r) j)
    ∧ s' = with_objs (started s w q k i total r) (objs s')
    ∧ scheduled t' ≡ₚ i :: scheduled t
    ∧ num_scheduled_tokens t' = od_set (num_scheduled_tokens t) id n
    ∧ req_to_new_blocks t' = od_set (req_to_new_blocks t) id (kv_get_blocks k id)
    ∧ token_budget t' = token_budget t - n
    ∧ scheduled_encoder_inputs t' = scheduled_encoder_inputs t
    ∧ preempted_reqs t' = preempted_reqs t ∧ scheduled_running_reqs t' = scheduled_running_reqs t
    ∧ scheduled_spec_decode_tokens t' = scheduled_spec_decode_tokens t.
Proof.
  intros Hst Hs Hlora <-. unfold start_request.
  set (s1 := with_running _ _). set (s2 := if log_stats (cfg s1) then _ else _).
  assert (∃ r', s2 = with_objs s1 (objs s2) ∧ objs s2 i = r' ∧ (∀ j, j ≠ i → objs s2 j = objs s j)
    ∧ r' = (if log_stats (cfg s) then record_event r SCHEDULED now else r)) as (r' & E2 & Ei & Hne & Er).
  { unfold s2, s1. replace (log_stats _) with (log_stats (cfg s)) by (by destruct w).
    destruct (log_stats (cfg s)), w; eexists; split_and!; try reflexivity; cbn; rewrite ?Z.eqb_refl; try done;
      intros j Hj; cbn; by rewrite !(proj2 (Z.eqb_neq _ _)). }
  clearbody s2.
  assert (cfg s2 = cfg s ∧ kv_cache_manager s2 = k) as [Ec Ek] by (rewrite E2; by destruct w).
  assert (status r' = status (objs s i)) as Est by (rewrite Er, Hs; by destruct (log_stats _)).
  assert (∀ j, objs (modify s2 i (λ r0, let r1 := with_num_computed_tokens (with_status r0 RUNNING) (co_total c) in
    if num_cached_tokens r1 <? 0 then with_num_cached_tokens r1 (co_total c) else r1)) j
    = objs (started s w q k i (co_total c) r) j) as Hobj.
  { intros j. unfold started, modify. cbn. destruct (j =? i) eqn:Eji; to_prop; [|rewrite Hne by done; by destruct w].
    rewrite Ei, Er. done. }
  assert (∀ o, modify s2 i o = with_objs (started s w q k i (co_total c) r) (objs (modify s2 i o))) as Hform.
  { intros o. unfold modify, put. rewrite E2. by destruct w. }
  rewrite Ei, Est, Ec, Ek, Hlora. unfold scheduled.
  destruct Hst as [-> | ->]; cbn [mbind res_bind]; (eexists _, _; split; [reflexivity|]);
    (split; [exact Hobj|]); (split; [apply Hform|]); split_and!; try done; cbn.
  - rewrite <- !app_assoc, Permutation_middle. cbn. by rewrite <- !Permutation_middle.
  - rewrite !app_assoc. by rewrite (Permutation_app_comm _ [i]).
Qed.

(** A request that got its slots leaves the queue and runs. *)
Lemma start_spec B s t skipped w i c n k r :
  WaitInv B s t skipped → ids (queue_of s w) ≠ [] → q_peek s (queue_of s w) = Ok i →
  waiting_ok (objs s i) → 0 ≤ co_total c → 0 < n ≤ token_budget t → co_total c + n ≤ num_tokens (objs s i) →
  zlen (running s) < max_num_running_reqs (cfg s) →
  kv_ok k → kv_frame (rid s i) (kv_cache_manager s) k → same_request (objs s i) r → kv_request_ok k r →
  co_total c + n ≤ kv_slots k (rid s i) →
  let s4 := put (with_kv s k) i r in
  ∃ q s' t', q_pop s4 (queue_of s4 w) = Ok (i, q)
    ∧ start_request now (with_queue_of s4 w q) t i (rid s i) c n = Ok (s', t')
    ∧ WaitInv B s' t' skipped ∧ waited s t skipped s' t' skipped
    ∧ length (queued s) = S (length (queued s')).
Proof.
  intros [] Hne Hpk Hst Htot Hn Hmax Hrun Hk Hf Hs Hkr Hslots s4.
  pose proof (wf_objs s wi_wf0) as Ho.
  assert (∀ j, request_key (objs s4 j) = request_key (objs s j)) as Hkey.
  { intros j. unfold s4. destruct (decide (j = i)) as [->|]; [rewrite put_eq; by apply same_key|by rewrite put_ne]. }
  assert (objs_ok s4) as Ho4 by (intros j; specialize (Hkey j); unfold request_key in Hkey; rewrite <- (Ho j) at 2; congruence).
  assert (queue_of s4 w = queue_of s w) as Eqw by (by destruct w).
  assert (q_ok s (queue_of s w)) as Hqw by (destruct w; apply wi_wf0).
  assert (q_ok s4 (queue_of s w)) as Hqw4 by (eapply q_ok_change; [exact Ho|by intros|done]).
  destruct (q_pop_spec s4 (queue_of s w) Ho4 Hqw4 Hne) as (i' & q & Epk & Epop & Hq4 & Hids).
  assert (i' = i) as -> by (rewrite q_peek_head in Epk, Hpk by done; congruence).
  assert (q_ok s q) as Hq by (eapply q_ok_change; [exact Ho4|by intros|done]).
  destruct (started_wf s w q k i (co_total c) r) as [Hwf' Hall]; try done; [lia|].
  destruct (start_request_spec s w q k i (co_total c) r t (rid s i) c n)
    as (s' & t' & Es & Hobj & Hform & G1 & G2 & G3 & G4 & G5 & G6 & G7 & G8); try done; [apply wi_cfg0|].
  set (s1 := started s w q k i (co_total c) r) in *.
  exists q, s', t'. rewrite Eqw. split; [done|]. split; [done|].
  destruct (started_fields (log_stats (cfg s)) (co_total c) r) as (F1 & F2 & F3 & F4 & F5 & _ & F7 & _).
  assert (running s' = running s ++ [i] ∧ cfg s' = cfg s ∧ kv_cache_manager s' = k ∧ requests s' = requests s
    ∧ connector s' = connector s ∧ pause_state s' = pause_state s
    ∧ prev_step_scheduled_req_ids s' = prev_step_scheduled_req_ids s
    ∧ all_ids s' = all_ids s1 ∧ queued s' = queued (with_queue_of s w q))
    as (Er & Ec & Ek & Eq & En & Ep & Epv & Ea & Equ) by (rewrite Hform; by destruct w).
  assert (objs s' i = started_request (log_stats (cfg s)) (co_total c) r) as Hoi.
  { rewrite Hobj. unfold s1, started. cbn. by rewrite Z.eqb_refl. }
  assert (∀ j, j ≠ i → objs s' j = objs s j) as Hoj.
  { intros j Hj. rewrite Hobj. unfold s1, started. cbn. rewrite (proj2 (Z.eqb_neq _ _)) by done. by destruct w. }
  assert (rid s' i = rid s i) as Hrid by (unfold rid; rewrite Hoi, F4; by rewrite Hs).
  assert (i ∈ ids (waiting_q s) ++ ids (skipped_waiting s)) as Hi.
  { apply (queue_of_all s w). rewrite Hids. left. }
  assert (WF s') as Hwf2 by (eapply WF_ext; [exact Hwf'|exact Hobj|rewrite Hform; by destruct w..]).
  assert (StepInv B s' t) as Hst2.
  { eapply StepInv_change; [exact wi_step0| |done|]; intros j Hj%(st_sub _ _ _ wi_step0).
    - rewrite Er. apply elem_of_app. by left.
    - assert (j ≠ i) as Hji by (intros ->; by apply (not_running s i)). unfold rid. rewrite Hoj, Ek by done.
      split; [done|]. apply Hf. eapply wf_distinct; [done|by apply running_all| |done].
      apply (wf_req s wi_wf0 i). by apply waiting_all. }
  split_and!.
  - split; try done.
    + by rewrite Ec.
    + eapply (StepInv_add B s' t t' i n); try done; try (by rewrite Hrid).
      * rewrite Er. set_solver.
      * intros Hin%(st_sub _ _ _ wi_step0). by apply (not_running s i).
      * rewrite Hrid, Hoi, F2, Ek. done.
      * intros _. rewrite Hoi, F2, F5, F7, Hs. pose proof (ro_placeholders _ _ _ _ _ (wf_req s wi_wf0 i (waiting_all s i Hi))). unfold num_tokens in *. cbn in *. lia.
    + apply (Aside_change s _ _ i); try done; [by apply waiting_all|by rewrite Ek|by rewrite Ea].
    + by rewrite En.
    + rewrite Er, Ec, zlen_app. cbn. unfold zlen in *. cbn. lia.
    + intros j. rewrite Er, Ec, G1, not_elem_of_cons, elem_of_app, list_elem_of_singleton. intros Hj [Hji Hnew].
      rewrite Hoj by done. destruct Hj; [by apply wi_pending0|done].
  - assert (scheduled_new_reqs t' ++ scheduled_resumed_reqs t'
      ≡ₚ i :: scheduled_new_reqs t ++ scheduled_resumed_reqs t) as Hfresh.
    { unfold scheduled in G1. rewrite G7, Permutation_middle in G1. by apply Permutation_app_inv_l in G1. }
    split; try done; [by rewrite Ea, Hall|..].
    + intros j. rewrite Equ, (queued_pop s w q i Hids). by right.
    + intros j. rewrite Hfresh. intros [->|Hj]%elem_of_cons; [by right|by left].
    + intros j. destruct (decide (j = i)) as [->|Hj]; [done|]. unfold rid. by rewrite Hoj.
  - rewrite Equ. by rewrite (Permutation_length (queued_pop s w q i Hids)).
Qed.

Definition wait_turn_ok (B : Z) (s : sched) (t : Step) (skipped : W) (x : flow (sched * Step * W)) : Prop :=
  match x with
  | Next (s', t', skipped') => WaitInv B s' t' skipped' ∧ waited s t skipped s' t' skipped'
      ∧ length (queued s) = S (length (queued s'))
  | Break (s', t', skipped') => WaitInv B s' t' skipped' ∧ waited s t skipped s' t' skipped'
  end.

Lemma wait_turn_touched B i s s' t skipped x :
  touched i s s' → wait_turn_ok B s' t skipped x → wait_turn_ok B s t skipped x.
Proof.
  intros Ht. pose proof (waited_touched i s s' t skipped Ht) as Hw.
  pose proof (touched_queued i s s' Ht) as Eq.
  destruct x as [[[s2 t2] q2]|[[s2 t2] q2]]; cbn.
  - intros (? & ? & ?). rewrite <- Eq. split_and!; try done. by eapply waited_trans.
  - intros (? & ?). split; try done. by eapply waited_trans.
Qed.

(** The same request stays at the head of the queue. *)
Lemma touched_head i s s' w :
  WF s → WF s' → touched i s s' → q_peek s (queue_of s w) = Ok i → ids (queue_of s w) ≠ [] →
  q_peek s' (queue_of s' w) = Ok i ∧ ids (queue_of s' w) ≠ [].
Proof.
  intros Hwf Hwf' Ht Hpk Hne.
  assert (queue_of s' w = queue_of s w) as -> by (destruct w; apply Ht).
  split; [|done]. rewrite q_peek_head in * by apply wf_objs, Hwf || apply wf_objs, Hwf'. done.
Qed.

Lemma serve_waiting_spec B s t skipped w i :
  WaitInv B s t skipped → 0 < token_budget t → ids (queue_of s w) ≠ [] →
  q_peek s (queue_of s w) = Ok i → i ∈ queued s → waiting_ok (objs s i) →
  zlen (running s) < max_num_running_reqs (cfg s) →
  ∃ x, serve_waiting now s t skipped w i (rid s i) = Ok x ∧ wait_turn_ok B s t skipped x.
Proof.
  intros Hinv Hb Hw Hpk Hi Hst Hrun. unfold serve_waiting. destruct (Hinv) as [].
  destruct (find_computed_spec s i wi_wf0 Hi wi_connector0) as (c & s1 & -> & Hwf1 & Ht1 & Eo & Hc).
  cbn [mbind res_bind].
  pose proof (WaitInv_touched B s s1 t skipped i Hi Ht1 Hwf1 Hinv) as Hinv1.
  destruct (touched_head i s s1 w wi_wf0 Hwf1 Ht1 Hpk Hw) as [Hpk1 Hw1].
  assert (i ∈ queued s1) as Hi1 by (by rewrite (touched_queued i s s1 Ht1)).
  assert (∀ x, wait_turn_ok B s1 t skipped x → wait_turn_ok B s t skipped x) as Hback
    by (intros x; by eapply wait_turn_touched).
  destruct (waiting_tokens_spec B s1 t skipped i c Hinv1 Hi1 Hb Hc) as (x & -> & [->|(n & -> & Hn & Hmax)]);
    cbn [mbind res_bind]; [eexists; split; [done|]; apply Hback; split; [done|apply waited_refl]|].
  rewrite (co_mamba _ (wi_cfg _ _ _ _ Hinv1)). cbn [mbind res_bind andb].
  destruct (allocate_waiting_spec B s1 t skipped i c n Hinv1 Hi1 Hc) as (ok & s2 & -> & Hok); [lia|done|].
  cbn [mbind res_bind]. destruct ok; cbn [negb].
  - destruct Hok as (k & r & -> & Hk & Hf & Hs & Hkr & Hslots). destruct Hc.
    destruct (start_spec B s1 t skipped w i c n k r) as (q & s3 & t3 & -> & E3 & Hinv3 & Hwa3 & Hlen);
      try done; [by rewrite Eo|lia|by rewrite (to_running _ _ _ Ht1), (to_cfg _ _ _ Ht1)|].
    cbn [mbind res_bind]. rewrite cp_async0. rewrite <- (touched_rid i s s1 i Ht1), E3. cbn.
    eexists. split; [done|]. by apply Hback.
  - destruct Hok as [Hwf2 Ht2]. eexists. split; [done|]. apply Hback.
    split; [by eapply WaitInv_touched|by eapply waited_touched].
Qed.

Lemma waiting_one_spec B s t skipped :
  WaitInv B s t skipped → queued s ≠ [] → 0 < token_budget t →
  ∃ x, schedule_waiting_one now grammar_ready s t skipped = Ok x ∧ wait_turn_ok B s t skipped x.
Proof.
  intros Hinv Hne Hb. destruct (Hinv) as [Hwf Hcfg Hst Has Hconn Hrun]. unfold schedule_waiting_one.
  destruct (zlen (running s) =? _) eqn:Emax; to_prop; [eexists; split; [done|]; split; [done|apply waited_refl]|].
  destruct (select_queue_spec s Hwf Hne) as (w & -> & Hw). cbn [mbind res_bind].
  assert (q_ok s (queue_of s w)) as Hq by (destruct w; apply Hwf).
  destruct (q_pop_spec s _ (wf_objs s Hwf) Hq Hw) as (i & _ & Hpk & _). rewrite Hpk. cbn [mbind res_bind].
  assert (i ∈ queued s) as Hi by (by apply (queue_of_all s w), (q_peek_elem s _ _ (wf_objs s Hwf) Hq)).
  destruct (promote_spec s i Hwf Hi) as (ready & s1 & Epr & Hwf1 & Ht1 & Hready).
  unfold try_promote in Epr. rewrite Epr. cbn [mbind res_bind].
  destruct (touched_head i s s1 w Hwf Hwf1 Ht1 Hpk Hw) as [Hpk1 Hw1].
  pose proof (WaitInv_touched B s s1 t skipped i Hi Ht1 Hwf1 Hinv) as Hinv1.
  assert (lora_blocked s1 t i = false) as ->.
  { unfold lora_blocked. by rewrite (co_loras _ (wi_cfg _ _ _ _ Hinv1)). }
  rewrite orb_false_r. assert (rid s1 i = rid s i) as Hrid by (by eapply touched_rid).
  unfold rid in Hrid. rewrite <- Hrid. assert (i ∈ queued s1) as Hi1 by (by rewrite (touched_queued i s s1 Ht1)).
  assert (zlen (running s1) < max_num_running_reqs (cfg s1)) as Hrun1.
  { rewrite (to_running _ _ _ Ht1), (to_cfg _ _ _ Ht1). lia. }
  destruct ready; cbn [negb].
  { destruct (serve_waiting_spec B s1 t skipped w i) as (x & Ex & Hx); try done; [by apply Hready|].
    exists x. split; [exact Ex|by eapply wait_turn_touched]. }
  destruct (skip_spec B s1 t skipped w i Hinv1 Hw1 Hpk1) as (s2 & sk & -> & ? & ? & ?). cbn [mbind res_bind].
  eexists. split; [done|]. by eapply wait_turn_touched.
Qed.

Lemma waiting_loop_spec B fuel s t skipped :
  WaitInv B s t skipped → (length (queued s) ≤ fuel)%nat →
  ∃ s' t' skipped', waiting_loop now grammar_ready fuel s t skipped = Ok (s', t', skipped')
    ∧ WaitInv B s' t' skipped' ∧ waited s t skipped s' t' skipped'.
Proof.
  revert s t skipped. induction fuel as [|fuel IH]; intros s t skipped Hinv Hfuel; cbn [waiting_loop].
  all: destruct (_ && (0 <? _)) eqn:Eg; to_prop; last (exists s, t, skipped; split_and!; [done..|apply waited_refl]).
  all: assert (queued s ≠ []) as Hne by
    (unfold queued; intros [E1%q_empty_iff E2%q_empty_iff]%app_eq_nil; rewrite E1, E2 in *; done).
  { by destruct (queued s); cbn in Hfuel; [|lia]. }
  destruct (waiting_one_spec B s t skipped Hinv Hne ltac:(done)) as ([[[s1 t1] q1]|[[s1 t1] q1]] & -> & Hx);
    cbn [mbind res_bind].
  - destruct Hx as (Hinv1 & Hw1 & Hl). destruct (IH s1 t1 q1 Hinv1) as (s2 & t2 & q2 & E2 & Hinv2 & Hw2); [lia|].
    exists s2, t2, q2. split_and!; try done. by eapply waited_trans.
  - destruct Hx as (Hinv1 & Hw1). by exists s1, t1, q1.
Qed.
End waiting.
