(* ===== verification/StepProps.v ===== *)
(** * Correctness of a scheduling step

    For text requests without connectors and LoRA, over any KV-cache manager that
    obeys its laws: choosing the requests of a step never raises, its final
    assertions hold, and no request is lost. *)

From Stdlib Require Import String.
From S2P Require Import Prelude Request BlockHash KVCacheManager EncoderCache.
From S2P Require Import RequestQueue SchedUtils Scheduler Schedule SchedLaws SchedWF Preemption.
From S2P Require Import RunningLoop WaitingLoop.
#[local] Open Scope Z_scope.

Section step.
Context {K E W C EC P : Type}.
Context `{KVManagerLaws K} `{EncoderTextLaws E} `{QueueImplLaws W} `{KVConnector C P} `{ECConnector EC}.
#[local] Abbreviation sched := (Scheduler K E W C EC).
Implicit Types (s : sched) (t : Step).
Context (now : Z) (grammar_ready : Z → bool).

(** The states between steps. *)
Record Ready (s : sched) : Prop := {
  rd_wf : WF s;
  rd_cfg : cfg_ok (cfg s);
  rd_connector : connector s = None;
  rd_running : zlen (running s) ≤ max_num_running_reqs (cfg s);
  rd_pending : ∀ i, i ∈ running s → pending (cfg s) (objs s i);
  rd_prev : ∀ i, i ∈ queued s → rid s i ∉ prev_step_scheduled_req_ids s;
}.

(** The token budget of a step. *)
Definition step_budget (s : sched) : Z :=
  match pause_state s with PAUSED_ALL => 0 | _ => max_num_scheduled_tokens (cfg s) end.

(** What a step decides. *)
Record selected (s : sched) (s' : sched) (t : Step) : Prop := {
  se_wf : WF s';
  se_inv : StepInv (step_budget s) s' t;
  se_all : all_ids s' ≡ₚ all_ids s;
  se_cfg : cfg s' = cfg s;
  se_requests : requests s' = requests s;
  se_running : zlen (running s') ≤ max_num_running_reqs (cfg s);
  se_preempted : preempted_reqs t ≠ [] →
    scheduled_new_reqs t = [] ∧ scheduled_resumed_reqs t = [];
  se_victims : ∀ v, v ∈ preempted_reqs t →
    v ∈ ids (waiting_q s') ∧ status (objs s' v) = PREEMPTED ∧ num_computed_tokens (objs s' v) = 0;
  se_connector : connector s' = None;
  se_prev : prev_step_scheduled_req_ids s' = prev_step_scheduled_req_ids s;
  se_pending : unscheduled_pending s' t;
  se_fresh : ∀ i, i ∈ scheduled_new_reqs t ++ scheduled_resumed_reqs t →
    i ∈ queued s ∧ rid s' i = rid s i;
}.

Lemma first_budget s : cfg_ok (cfg s) → 0 ≤ step_budget s ≤ max_num_scheduled_tokens (cfg s).
Proof. intros []. unfold step_budget. destruct (pause_state s); lia. Qed.

Lemma empty_step_inv s b e : 0 ≤ b → StepInv b s (empty_step b e).
Proof. intros Hb. split; cbn; try done; try (by intros ? ?%elem_of_nil); try constructor; try lia. all: intros; set_solver. Qed.

Lemma evicted_all R s vs s' : evicted R s vs s' → all_ids s' ≡ₚ all_ids s.
Proof.
  intros []. unfold all_ids. rewrite ev_skipped, ev_waiting, ev_running. rewrite <- !app_assoc.
  rewrite (app_assoc (running s')), (Permutation_app_comm (running s') vs). by rewrite <- !app_assoc.
Qed.

Lemma new_queue_spec s : q_ok s new_queue ∧ ids (W := W) new_queue = [].
Proof.
  destruct (qi_new (W := W)) as [Hok Hits]. unfold ids. rewrite Hits. split; [|done].
  apply qi_map_ok; [|done]. rewrite Hits. by intros r ?%elem_of_nil.
Qed.

(** The requests set aside return to the queue of skipped requests. *)
Lemma WF_restore s skipped q :
  WF s → Aside s skipped → q_ok s q → ids q ≡ₚ ids skipped ++ ids (skipped_waiting s) →
  WF (with_skipped s q) ∧ all_ids (with_skipped s q) ≡ₚ all_ids s ++ ids skipped.
Proof.
  intros Hwf [] Hq Hids.
  assert (all_ids (with_skipped s q) ≡ₚ all_ids s ++ ids skipped) as Hall.
  { unfold all_ids. cbn. rewrite Hids, <- !app_assoc. by rewrite (Permutation_app_comm (ids skipped)). }
  split; [|done]. destruct Hwf. split; try done.
  - by rewrite Hall.
  - intros j. rewrite Hall. intros [Hj|Hj]%elem_of_app; auto.
  - intros j. cbn. rewrite Hids. intros [Hj|Hj]%elem_of_app; auto.
  - intros j. cbn. rewrite Hids, !elem_of_app. intros [Hj|[Hj|Hj]]; auto; apply wf_idle; rewrite elem_of_app; auto.
Qed.

Lemma waiting_fuel_spec s : waiting_fuel s = length (queued s).
Proof. unfold waiting_fuel, queued. rewrite !queue_len_ids, length_app. unfold zlen. lia. Qed.

(** The waiting phase, with the skipped requests put back. *)
Lemma waiting_phase s t B :
  WF s → cfg_ok (cfg s) → connector s = None → StepInv B s t →
  zlen (running s) ≤ max_num_running_reqs (cfg s) → unscheduled_pending s t →
  ∃ s' t', ('(s, t, skipped) ← waiting_loop now grammar_ready (waiting_fuel s) s t new_queue;
            s ← (if q_empty skipped then Ok s
                 else with_skipped s <$> q_prepend_all s (skipped_waiting s) skipped);
            Ok (s, t)) = Ok (s', t')
    ∧ WF s' ∧ StepInv B s' t' ∧ all_ids s' ≡ₚ all_ids s ∧ cfg s' = cfg s
    ∧ requests s' = requests s ∧ zlen (running s') ≤ max_num_running_reqs (cfg s) ∧ preempted_reqs t' = preempted_reqs t
    ∧ connector s' = None ∧ prev_step_scheduled_req_ids s' = prev_step_scheduled_req_ids s
    ∧ (∀ i, rid s' i = rid s i) ∧ unscheduled_pending s' t'
    ∧ (∀ i, i ∈ scheduled_new_reqs t' ++ scheduled_resumed_reqs t' →
         i ∈ scheduled_new_reqs t ++ scheduled_resumed_reqs t ∨ i ∈ queued s).
Proof.
  intros Hwf Hcfg Hconn Hst Hrun Hpend. destruct (new_queue_spec s) as [Hq0 Hi0].
  assert (WaitInv B s t new_queue) as Hinv.
  { split; try done. split; rewrite ?Hi0, ?app_nil_r; try done; try (by intros i ?%elem_of_nil). apply Hwf. }
  destruct (waiting_loop_spec now grammar_ready B (waiting_fuel s) s t new_queue Hinv)
    as (s1 & t1 & sk & -> & [] & []); [by rewrite waiting_fuel_spec|]. cbn [mbind res_bind].
  rewrite Hi0, app_nil_r in wa_all. rewrite wa_cfg in wi_running.
  destruct (q_empty sk) eqn:Esk.
  - apply q_empty_iff in Esk. rewrite Esk, app_nil_r in wa_all. by eexists _, _.
  - destruct (q_prepend_all_spec s1 (skipped_waiting s1) sk) as (q & -> & Hq & Hids);
      [apply wi_wf|apply wi_wf|apply wi_aside|]. cbn [fmap res_fmap mbind res_bind].
    destruct (WF_restore s1 sk q wi_wf wi_aside Hq Hids) as [Hwf2 Hall].
    eexists _, _. split; [reflexivity|]. split_and!; try done; [|by rewrite Hall].
    eapply StepInv_change; [exact wi_step|apply wi_step|done|done].
Qed.

Lemma select_spec s :
  Ready s → ∃ s' t, select_requests now grammar_ready s = Ok (s', t) ∧ selected s s' t.
Proof.
  intros []. unfold select_requests. fold (step_budget s).
  pose proof (first_budget s rd_cfg0) as Hb.
  destruct (law_new_step (kv_cache_manager s) (wf_kv s rd_wf0)) as [Hk Hquiet].
  set (s0 := with_kv s _). set (t0 := empty_step _ _).
  assert (LoopInv (step_budget s) s0 t0 0) as Hinv.
  { split; try done; [by apply WF_quiet|apply empty_step_inv; lia|].
    intros j Hj _. by apply rd_pending0. }
  destruct (running_loop_spec now (step_budget s) (length (running s0)) s0 t0 0 Hinv)
    as (s1 & t1 & vs & E1 & Hwf1 & Hst1 & Hph1 & Hpe1 & Hev & Hpre); [lia|].
  change (Z.of_nat 0) with 0 in E1. rewrite E1. cbn [mbind res_bind].
  pose proof (ev_cfg _ _ _ _ Hev) as Ec. cbn in Ec, Hpre.
  assert (zlen (running s1) ≤ max_num_running_reqs (cfg s)) as Hrun1.
  { pose proof (Permutation_length (ev_running _ _ _ _ Hev)) as Hl. rewrite length_app in Hl.
    cbn in Hl. unfold zlen in *. lia. }
  pose proof (evicted_all _ _ _ _ Hev) as Hall. change (all_ids s0) with (all_ids s) in Hall.
  rewrite Ec, (co_loras _ rd_cfg0). cbn [mbind res_bind].
  destruct (bool_decide (preempted_reqs t1 = []) && _) eqn:Eg.
  - to_prop. destruct (waiting_phase s1 t1 (step_budget s)) as (s2 & t2 & E2 & Hwf2 & Hst2 & Hall2 & Ec2 & Eq2 & Hr2 & Hp2 & Hc2 & Hpv2 & Hrid2 & Hpe2 & Hf2);
      try done; [by rewrite Ec|by rewrite (ev_connector _ _ _ _ Hev)|by rewrite Ec|].
    exists s2, t2. split; [exact E2|]. assert (preempted_reqs t2 = []) as Hnone by congruence.
    assert (vs = []) as -> by congruence.
    rewrite Ec in Hr2. split; try done; try congruence; [by rewrite Hall2|rewrite Eq2; apply Hev|..].
    + rewrite Hnone. by intros v ?%elem_of_nil.
    + rewrite Hpv2. apply Hev.
    + intros i Hi. split.
      * destruct (Hf2 i Hi) as [Hin|Hin]; [destruct Hph1 as [P1 P2]; rewrite P1, P2 in Hin; by apply elem_of_nil in Hin|].
        unfold queued in *. rewrite (ev_skipped _ _ _ _ Hev), (ev_waiting _ _ _ _ Hev) in Hin. exact Hin.
      * rewrite Hrid2. unfold rid. destruct (ev_same _ _ _ _ Hev i ltac:(set_solver)) as [l ->]. done.
  - exists s1, t1. split; [done|]. destruct (Hph1) as [P1 P2].
    split; try done; [apply Hev| |by rewrite (ev_connector _ _ _ _ Hev)|by rewrite (ev_prev _ _ _ _ Hev)|
      rewrite P1, P2; by intros i ?%elem_of_nil]. rewrite Hpre. intros v Hv.
    destruct (ev_status _ _ _ _ Hev v Hv). split; [|done]. rewrite (ev_waiting _ _ _ _ Hev). set_solver.
Qed.

(** The assertions at the end of the step hold. *)
Lemma constraints_spec s s' t : Ready s → selected s s' t → constraints_hold s' t = true.
Proof.
  intros [] []. pose proof (first_budget s rd_cfg0) as Hb. destruct se_inv0 as [S1 S2 S3 S4 S5 S6 S7 S8 S9 S10 S11].
  unfold constraints_hold. rewrite se_cfg0. change (foldr Z.add 0) with sumZ.
  assert (length (scheduled t) ≤ length (running s'))%nat as Hlen.
  { apply submseteq_length, NoDup_submseteq; [done|exact S2]. }
  unfold scheduled in Hlen. rewrite !length_app in Hlen. unfold zlen in *.
  rewrite !andb_true_iff, !Z.leb_le. lia.
Qed.

(** C6: the choice of a step preempts safely.  For text requests without
    connectors it never raises and loses no request; a preempted request is back
    in the waiting queue with no computed tokens and no KV-cache slots and is not
    scheduled in the step, and a step that preempts admits no waiting request. *)
Theorem preemption_step s :
  Ready s →
  ∃ s' t, select_requests now grammar_ready s = Ok (s', t) ∧ all_ids s' ≡ₚ all_ids s
    ∧ (preempted_reqs t ≠ [] → scheduled_new_reqs t = [] ∧ scheduled_resumed_reqs t = [])
    ∧ ∀ v, v ∈ preempted_reqs t →
        (v ∈ ids (waiting_q s')) ∧ (v ∉ scheduled t) ∧ status (objs s' v) = PREEMPTED
        ∧ num_computed_tokens (objs s' v) = 0 ∧ kv_slots (kv_cache_manager s') (rid s' v) = 0.
Proof.
  intros Hr. destruct (select_spec s Hr) as (s' & t & E1 & []). exists s', t. split_and!; try done.
  intros v Hv. destruct (se_victims0 v Hv) as (Hw & Hst & Hc).
  assert (v ∈ ids (waiting_q s') ++ ids (skipped_waiting s')) as Hq by (apply elem_of_app; by left).
  split_and!; try done.
  - intros Hs%(st_sub _ _ _ se_inv0). by apply (not_running s' v se_wf0 Hq).
  - by apply (wf_idle s' se_wf0 v Hq).
Qed.
End step.
