(* ===== verification/StepOutput.v ===== *)
(** * The output of a scheduling step

    Building the output of a step and advancing the counters of the scheduled
    requests: for text requests without connectors, [Scheduler.schedule] as a
    whole never raises and leads to a well-formed state. *)

From Stdlib Require Import String.
From S2P Require Import Prelude Request BlockHash KVCacheManager EncoderCache.
From S2P Require Import RequestQueue SchedUtils Scheduler Schedule SchedLaws SchedWF Preemption.
From S2P Require Import RunningLoop WaitingLoop StepProps.
#[local] Open Scope Z_scope.

Lemma od_index_elem {V} (d : list (string * V)) k : k ∈ d.*1 → ∃ v, od_index d k = Ok v.
Proof.
  unfold od_index. induction d as [|[x v] d IH]; cbn; [by intros ?%elem_of_nil|].
  intros Hk. case_decide as Ex; [by eexists|]. apply elem_of_cons in Hk as [->|Hk]; [done|auto].
Qed.

Lemma rmap_total {A B} (f : A → res B) l : (∀ x, x ∈ l → ∃ y, f x = Ok y) → ∃ ys, rmap f l = Ok ys.
Proof.
  induction l as [|x l IH]; intros Hf; cbn; [by eexists|].
  destruct (Hf x ltac:(left)) as (y & ->). destruct IH as (ys & ->); [intros; apply Hf; by right|]. by eexists.
Qed.

Section output.
Context {K E W C EC P : Type}.
Context `{KVManagerLaws K} `{EncoderTextLaws E} `{QueueImplLaws W} `{KVConnector C P} `{ECConnector EC}.
#[local] Abbreviation sched := (Scheduler K E W C EC).
Implicit Types (s : sched) (t : Step).
Context (now : Z) (grammar_ready : Z → bool).

(** ** Building the output *)

Lemma cached_data_total s t num reqs idx acc :
  (∀ i, i ∈ reqs → rid s i ∈ (num_scheduled_tokens t).*1 ∧ rid s i ∈ (req_to_new_blocks t).*1) →
  (∀ j i, reqs !! j = Some i → num ≤ idx + Z.of_nat j → rid s i ∉ prev_step_scheduled_req_ids s) →
  ∃ x, _make_cached_request_data s t num idx reqs acc = Ok x.
Proof.
  revert idx acc. induction reqs as [|i reqs IH]; intros idx acc Hk Hp; cbn [_make_cached_request_data]; [by eexists|].
  destruct (Hk i ltac:(left)) as [K1 K2]. fold (rid s i).
  set (toks := if use_pp _ && _ then _ else _).
  assert (∃ x, toks = Ok x) as (x & ->).
  { unfold toks. destruct (_ && _); [|by eexists]. destruct (od_index_elem _ _ K1) as (n & ->). by eexists. }
  cbn [mbind res_bind].
  assert (negb ((num <=? idx) && bool_decide (rid s i ∈ prev_step_scheduled_req_ids s)) = true) as ->.
  { destruct (num <=? idx) eqn:En; [|done]. to_prop. rewrite bool_decide_eq_false_2; [done|].
    apply (Hp 0%nat); [done|lia]. }
  destruct (od_index_elem _ _ K2) as (b & ->). cbn [mbind res_bind]. apply IH.
  - intros j Hj. apply Hk. by right.
  - intros j i' Hj Hn. apply (Hp (S j)); [done|lia].
Qed.

(** The state after the output was built. *)
Record emitted (s s' : sched) (t : Step) : Prop := {
  em_objs : objs s' = objs s;
  em_running : running s' = running s;
  em_waiting : waiting_q s' = waiting_q s;
  em_skipped : skipped_waiting s' = skipped_waiting s;
  em_cfg : cfg s' = cfg s;
  em_requests : requests s' = requests s;
  em_connector : connector s = None → connector s' = None;
  em_prev : prev_step_scheduled_req_ids s' = list_to_set (num_scheduled_tokens t).*1;
  em_quiet : kv_quiet (kv_cache_manager s) (kv_cache_manager s');
  em_kv : kv_ok (kv_cache_manager s');
}.

Lemma emitted_wf s s' t : WF s → emitted s s' t → WF s'.
Proof.
  intros Hwf []. apply (WF_ext (with_kv s (kv_cache_manager s'))); try done; [by apply WF_quiet|].
  intros j. by rewrite em_objs0.
Qed.

Lemma build_output_spec B s t :
  WF s → StepInv B s t →
  (∀ i, i ∈ scheduled_resumed_reqs t → rid s i ∉ prev_step_scheduled_req_ids s) →
  ∃ o s', build_output s t = Ok (o, s') ∧ emitted s s' t
    ∧ so_num_scheduled_tokens o = num_scheduled_tokens t
    ∧ so_total_num_scheduled_tokens o = sumZ (num_scheduled_tokens t).*2
    ∧ so_scheduled_spec_decode_tokens o = scheduled_spec_decode_tokens t.
Proof.
  intros Hwf Hst Hprev. unfold build_output.
  set (common := match running s with [] => _ | _ => _ end).
  assert (∃ l k, common = Ok (l, with_kv s k) ∧ kv_ok k ∧ kv_quiet (kv_cache_manager s) k)
    as (l & k & -> & Hk & Hq).
  { unfold common. destruct (running s) as [|i rs].
    - eexists _, (kv_cache_manager s). split; [by destruct s|]. split; [apply Hwf|done].
    - destruct (law_common_prefix (kv_cache_manager s) (request_id (objs s i)) (wf_kv s Hwf))
        as (l & k & -> & ? & ?). by eexists _, k. }
  cbn [mbind res_bind]. set (t' := if use_v2_model_runner _ then _ else _).
  assert (num_scheduled_tokens t' = num_scheduled_tokens t ∧ req_to_new_blocks t' = req_to_new_blocks t
    ∧ scheduled_running_reqs t' = scheduled_running_reqs t
    ∧ scheduled_spec_decode_tokens t' = scheduled_spec_decode_tokens t
    ∧ (∀ i, i ∈ scheduled_new_reqs t' → i ∈ scheduled t)
    ∧ (∀ i, i ∈ scheduled_resumed_reqs t' → i ∈ scheduled_resumed_reqs t)
    ∧ (∀ i, i ∈ scheduled_running_reqs t ++ scheduled_resumed_reqs t' → i ∈ scheduled t))
    as (T1 & T2 & T3 & T0 & T4 & T5 & T6).
  { unfold t', scheduled. destruct (use_v2_model_runner _); cbn; split_and!; try done; set_solver. }
  assert (∀ i, i ∈ scheduled t → rid s i ∈ (num_scheduled_tokens t').*1 ∧ rid s i ∈ (req_to_new_blocks t').*1) as Hkeys.
  { intros i Hi. rewrite T1, T2, (st_tokens _ _ _ Hst), (st_blocks _ _ _ Hst).
    split; by apply list_elem_of_fmap_2. }
  destruct (rmap_total (λ i : Z, blks ← od_index (req_to_new_blocks t') (request_id (objs (with_kv s k) i));
    Ok (new_request_data (objs (with_kv s k) i) (default [] (kv_block_ids (kv_cache_manager (with_kv s k)) blks false))
      (if use_v2_model_runner (cfg (with_kv s k)) then Some (all_token_ids (objs (with_kv s k) i)) else None)))
    (scheduled_new_reqs t')) as (new & Enew).
  { intros i Hi%T4. destruct (Hkeys i Hi) as [_ K2]. destruct (od_index_elem _ _ K2) as (b & Eb).
    unfold rid in Eb. cbn [objs with_kv]. rewrite Eb. by eexists. }
  unfold make_new_reqs_data. rewrite Enew. cbn [mbind res_bind].
  destruct (cached_data_total (with_kv s k) t' (zlen (scheduled_running_reqs t'))
    (scheduled_running_reqs t' ++ scheduled_resumed_reqs t') 0 (mkCachedRequestData [] ∅ [] [] [] [] [])) as (cached & ->).
  { intros i Hi. apply Hkeys. rewrite T3 in Hi. by apply T6. }
  { intros j i Hj Hn. apply Hprev, T5. rewrite lookup_app_r in Hj by (unfold zlen in Hn; lia).
    by eapply list_elem_of_lookup_2. }
  cbn [mbind res_bind]. rewrite T1, T0.
  destruct (law_take_new k Hk) as [Hk2 Hq2]. cbn [cfg with_kv with_prev_step needs_kv_cache_zeroing].
  assert (kv_quiet (kv_cache_manager s) (kv_take_new_block_ids k).2) as Hq3.
  { destruct Hq as (Q1 & Q2 & Q3), Hq2 as (R1 & R2 & R3). split_and!; [congruence| |auto].
    intros id. by rewrite R2. }
  destruct (needs_kv_cache_zeroing (cfg s)).
  - cbn [kv_cache_manager with_prev_step with_kv]. destruct (kv_take_new_block_ids k) as [ids k'].
    destruct (ec_get_freed_mm_hashes _) as [fr e]. eexists _, _. split; [reflexivity|].
    split; [|done]. split; try done; cbn; by intros ->.
  - destruct (ec_get_freed_mm_hashes _) as [fr e]. eexists _, _. split; [reflexivity|].
    split; [|done]. split; try done; cbn; by intros ->.
Qed.

(** ** Advancing the counters *)

(** The tokens a request was given. *)
Definition given (d : list (string * Z)) (id : string) : Z := default 0 (od_get d id).

(** [s'] is [s] with the tokens of [d] computed. *)
Record advanced (s : sched) (d : list (string * Z)) (s' : sched) : Prop := {
  ad_running : running s' = running s;
  ad_waiting : waiting_q s' = waiting_q s;
  ad_skipped : skipped_waiting s' = skipped_waiting s;
  ad_cfg : cfg s' = cfg s;
  ad_requests : requests s' = requests s;
  ad_connector : connector s' = connector s;
  ad_prev : prev_step_scheduled_req_ids s' = prev_step_scheduled_req_ids s;
  ad_kv : kv_cache_manager s' = kv_cache_manager s;
  ad_others : ∀ j, (j ∉ running s) ∨ rid s j ∉ d.*1 → objs s' j = objs s j;
  ad_rid : ∀ j, rid s' j = rid s j;
  ad_computed : ∀ j, j ∈ running s →
    num_computed_tokens (objs s' j) = num_computed_tokens (objs s j) + given d (rid s j)
    ∧ num_tokens (objs s' j) = num_tokens (objs s j)
    ∧ num_output_placeholders (objs s' j) = num_output_placeholders (objs s j);
}.

(** One request moves on. *)
Lemma advance_one s i n :
  WF s → i ∈ running s → 0 < n →
  num_computed_tokens (objs s i) + n ≤ kv_slots (kv_cache_manager s) (rid s i) →
  let s' := modify s i (λ r,
      let r := with_num_computed_tokens r (num_computed_tokens r + n) in
      with_is_prefill_chunk r (num_computed_tokens r <? num_tokens r + num_output_placeholders r)) in
  WF s' ∧ advanced s [(rid s i, n)] s' ∧ has_encoder_inputs (objs s' i) = false.
Proof.
  intros Hwf Hi Hn Hslots s'. pose proof (wf_req s Hwf i (running_all s i Hi)) as Hreq.
  set (r := objs s' i).
  assert (r = with_is_prefill_chunk (with_num_computed_tokens (objs s i) (num_computed_tokens (objs s i) + n))
    (num_computed_tokens (objs s i) + n <? num_tokens (objs s i) + num_output_placeholders (objs s i))) as Er.
  { unfold r, s', modify. cbn. by rewrite Z.eqb_refl. }
  assert (∀ j, j ≠ i → objs s' j = objs s j) as Hne.
  { intros j Hj. unfold s', modify. cbn. by rewrite (proj2 (Z.eqb_neq _ _)). }
  assert (∀ j, j = i → j ∈ ids (waiting_q s) ++ ids (skipped_waiting s) → False) as Hnot.
  { intros j -> Hj. by apply (not_running s i Hwf Hj). }
  assert (∀ j, j ∈ running s → j ≠ i → rid s j ≠ rid s i) as Hdist.
  { intros j Hj Hji Heq. apply Hji. apply (rid_inj s); auto using running_all. }
  split_and!.
  - apply (WF_ext (put (with_kv s (kv_cache_manager s)) i r)); try done.
    + apply WF_put; try done; try (by rewrite Er); try apply (wf_kv s Hwf).
      * apply Hreq.
      * intros _. rewrite Er. destruct Hreq. split; try done; [by apply (kv_request_tokens _ (objs s i))|].
        unfold rid in Hslots. cbn. lia.
      * intros _. rewrite Er. by apply (wf_running s Hwf).
      * intros Hin. exfalso. apply (Hnot i); [done|]. apply elem_of_app. by left.
      * intros Hin. exfalso. apply (Hnot i); [done|]. apply elem_of_app. by right.
      * intros Hin. exfalso. by apply (Hnot i).
    + intros j. destruct (decide (j = i)) as [->|Hj]; [by rewrite put_eq|]. rewrite put_ne by done. by apply Hne.
  - split; try done.
    + intros j Hj. apply Hne. intros ->. destruct Hj as [|Hj]; [done|]. apply Hj. cbn. left.
    + intros j. unfold rid. destruct (decide (j = i)) as [->|Hj]; [|by rewrite Hne]. fold r. by rewrite Er.
    + intros j Hj. destruct (decide (j = i)) as [->|Hji].
      * fold r. rewrite Er. unfold given. cbn. by rewrite decide_True.
      * rewrite Hne by done. unfold given. cbn. rewrite decide_False by (by apply not_eq_sym, Hdist). cbn. lia.
  - unfold has_encoder_inputs, num_encoder_inputs. fold r. rewrite Er. cbn. by rewrite (ro_text _ _ _ _ _ Hreq).
Qed.

Lemma advanced_trans s1 s2 s3 x d :
  x.1 ∉ d.*1 → advanced s1 [x] s2 → advanced s2 d s3 → advanced s1 (x :: d) s3.
Proof.
  destruct x as [id n]. cbn [fst]. intros Hx [] []. split; try congruence.
  - intros j Hj. rewrite ad_others1, ad_others0; [done|..]; rewrite ?ad_running0, ?ad_rid0; cbn in *; set_solver.
  - intros j Hj. rewrite ad_running0 in ad_computed1. destruct (ad_computed0 j Hj) as (A1 & A2 & A3), (ad_computed1 j Hj) as (B1 & B2 & B3).
    rewrite B1, A1, B2, A2, B3, A3, ad_rid0. split; [|done]. unfold given. cbn. case_decide as Ex; cbn; [|lia].
    subst id. assert (od_get d (rid s1 j) = None) as ->; [|cbn; lia].
    destruct (od_get d (rid s1 j)) eqn:Eg; [|done]. destruct Hx. apply list_elem_of_fmap. eexists. split; [|by apply od_get_elem]. done.
Qed.

Lemma advanced_nil s : advanced s [] s.
Proof. split; try done. intros j Hj. unfold given. cbn. split; [lia|done]. Qed.

(** The entries of the output that can be applied. *)
Definition applicable (s : sched) (d : list (string * Z)) : Prop :=
  NoDup d.*1 ∧ ∀ id n, (id, n) ∈ d → ∃ i, i ∈ running s ∧ rid s i = id ∧ 0 < n
    ∧ num_computed_tokens (objs s i) + n ≤ kv_slots (kv_cache_manager s) id.

Lemma applicable_next s id n d i s' :
  WF s → i ∈ running s → rid s i = id → applicable s ((id, n) :: d) → advanced s [(id, n)] s' → applicable s' d.
Proof.
  intros Hwf Hi Hid [Hnd Ha] []. cbn in Hnd. apply NoDup_cons in Hnd as [Hfresh Hnd]. split; [done|].
  intros id' n' Hin. destruct (Ha id' n') as (j & Hj & Hr & Hn & Hs); [by right|].
  assert (id' ≠ id) as Hne. { intros ->. apply Hfresh, list_elem_of_fmap. by exists (id, n'). }
  exists j. rewrite ad_running0, ad_rid0, ad_kv0. split_and!; try done.
  rewrite ad_others0; [done|]. right. rewrite Hr. cbn. intros [=]%list_elem_of_singleton. done.
Qed.

Lemma update_after_spec s o :
  WF s → applicable s (so_num_scheduled_tokens o) →
  ∃ s' o', _update_after_schedule s o = Ok (s', o') ∧ WF s'
    ∧ advanced s (so_num_scheduled_tokens o) s' ∧ so_num_scheduled_tokens o' = so_num_scheduled_tokens o
    ∧ so_total_num_scheduled_tokens o' = so_total_num_scheduled_tokens o
    ∧ so_scheduled_spec_decode_tokens o' = so_scheduled_spec_decode_tokens o.
Proof.
  intros Hwf Happ. unfold _update_after_schedule.
  set (d := so_num_scheduled_tokens o).
  assert (∀ d s o, WF s → applicable s d → ∃ s' o', rfold after_schedule_step (s, o) d = Ok (s', o') ∧ WF s' ∧ advanced s d s'
    ∧ so_num_scheduled_tokens o' = so_num_scheduled_tokens o
    ∧ so_total_num_scheduled_tokens o' = so_total_num_scheduled_tokens o
    ∧ so_scheduled_spec_decode_tokens o' = so_scheduled_spec_decode_tokens o) as Hloop.
  { clear d Hwf Happ s o. intros d. induction d as [|[id n] d IH]; intros s o Hwf Happ; cbn [rfold].
    { exists s, o. split_and!; try done. apply advanced_nil. }
    destruct (proj2 Happ id n ltac:(left)) as (i & Hi & Hid & Hn & Hs). subst id.
    destruct (advance_one s i n Hwf Hi Hn Hs) as (Hwf1 & Had & Henc). set (s1 := modify s i _) in *.
    assert (∃ b, after_schedule_step (s, o) (rid s i, n)
      = Ok (s1, with_structured o b (pending_structured_output_tokens o))) as (b & ->).
    { cbn [after_schedule_step]. unfold od_index.
      assert (od_get (requests s) (rid s i) = Some i) as -> by apply (wf_req s Hwf i (running_all s i Hi)).
      cbn [mbind res_bind]. fold s1. rewrite Henc. by eexists. }
    cbn [mbind res_bind]. set (o1 := with_structured o b _).
    destruct (IH s1 o1 Hwf1) as (s2 & o2 & E2 & Hwf2 & Had2 & Eo2 & Et2 & Es2).
    { by apply (applicable_next s (rid s i) n d i s1). }
    exists s2, o2. split_and!; try done.
    apply (advanced_trans s s1 s2 (rid s i, n) d); try done. destruct Happ as [Hnd _].
    by apply NoDup_cons in Hnd as [? _]. }
  destruct (Hloop d s o Hwf Happ) as (s' & o' & -> & Hwf' & Had & Eo & Et & Es). cbn [mbind res_bind].
  eexists _, o'. split; [reflexivity|]. split_and!; try done; [|by destruct Had].
  by apply (WF_ext s').
Qed.

(** ** The step as a whole *)

(** What [schedule] promises. *)
Record scheduled_step (s : sched) (o : SchedulerOutput) (s' : sched) : Prop := {
  ss_wf : WF s';
  ss_all : all_ids s' ≡ₚ all_ids s;
  ss_total : so_total_num_scheduled_tokens o = sumZ (so_num_scheduled_tokens o).*2;
  ss_budget : so_total_num_scheduled_tokens o ≤ step_budget s;
  ss_running : zlen (running s') ≤ max_num_running_reqs (cfg s);
  ss_keys : NoDup (so_num_scheduled_tokens o).*1;
  ss_given : ∀ id n, (id, n) ∈ so_num_scheduled_tokens o → ∃ i, i ∈ running s' ∧ rid s' i = id ∧ 0 < n
    ∧ n ≤ num_computed_tokens (objs s' i) ≤ kv_slots (kv_cache_manager s') id;
  ss_prev : ∀ i, i ∈ queued s' → rid s' i ∉ prev_step_scheduled_req_ids s';
  ss_scheduled : prev_step_scheduled_req_ids s' = list_to_set (so_num_scheduled_tokens o).*1;
  ss_cfg : cfg s' = cfg s;
  ss_requests : requests s' = requests s;
  ss_drafts : num_spec_tokens (cfg s) = 0 → so_scheduled_spec_decode_tokens o = [];
  ss_connector : connector s' = None;
  (** The requests left out can be scheduled later; without speculative decoding the
      others have computed at most their tokens. *)
  ss_pending : ∀ i, i ∈ running s' → rid s' i ∉ (so_num_scheduled_tokens o).*1 → RunningLoop.pending (cfg s') (objs s' i);
  ss_within : num_spec_tokens (cfg s) = 0 → ∀ i, i ∈ running s' → rid s' i ∈ (so_num_scheduled_tokens o).*1 →
    num_computed_tokens (objs s' i) ≤ num_tokens (objs s' i) + num_output_placeholders (objs s' i);
}.

Lemma schedule_spec s :
  Ready s → ∃ o s', schedule now grammar_ready _update_after_schedule s = Ok (o, s') ∧ scheduled_step s o s'.
Proof.
  intros Hready. destruct (select_spec now grammar_ready s Hready) as (s1 & t & Esel & Hsel).
  unfold schedule. rewrite Esel. cbn [mbind res_bind]. rewrite (constraints_spec s s1 t Hready Hsel).
  destruct Hsel, Hready.
  destruct (build_output_spec (step_budget s) s1 t se_wf se_inv) as (o & s2 & -> & Hem & Eo & Etot & Esp).
  { intros i Hi. destruct (se_fresh i ltac:(set_solver)) as [Hq Hr]. rewrite Hr, se_prev. by apply rd_prev. }
  cbn [mbind res_bind]. pose proof (emitted_wf s1 s2 t se_wf Hem) as Hwf2.
  pose proof (keys_nodup _ _ _ se_wf se_inv) as Hnd. destruct se_inv as [S1 S2 S3 S4 S5 S6 S7 S8 S9 S10 S11].
  destruct Hem as [M1 M2 M3 M4 M5 M6 M7 M8 M9 M10].
  assert (∀ i, rid s2 i = rid s1 i) as Mr by (intros i; unfold rid; by rewrite M1).
  assert (applicable s2 (so_num_scheduled_tokens o)) as Happ.
  { rewrite Eo. split; [by rewrite S3|]. intros id n Hin.
    assert (id ∈ rid s1 <$> scheduled t) as Hid by (rewrite <- S3; apply list_elem_of_fmap; by exists (id, n)).
    apply list_elem_of_fmap in Hid as (i & -> & Hi). exists i. rewrite M2, Mr, M1. split_and!; try done; auto.
    - by eapply S7.
    - rewrite (proj1 (proj2 M9)). by apply S8. }
  destruct (update_after_spec s2 o Hwf2 Happ) as (s3 & o3 & E3 & Hwf3 & Had & Eo3 & Et3 & Es3).
  rewrite E3. cbn [mbind res_bind]. exists o3, s3. split; [done|]. destruct Had.
  assert (all_ids s3 = all_ids s1) as Ha.
  { unfold all_ids. by rewrite ad_running0, ad_waiting0, ad_skipped0, M2, M3, M4. }
  assert (∀ i, rid s3 i = rid s1 i) as Hrid by (intros i; by rewrite ad_rid0).
  split; rewrite ?Et3, ?Eo3, ?Etot, ?Eo, ?Ha; try done.
  - lia.
  - by rewrite ad_running0, M2.
  - by rewrite S3.
  - intros id n Hin. rewrite <- Eo in Hin. destruct (proj2 Happ id n Hin) as (i & Hi & Hid & Hn & Hs).
    exists i. rewrite ad_running0, ad_rid0, ad_kv0. split_and!; try done.
    + destruct (ad_computed0 i Hi) as (-> & _ & _).
      rewrite Hid. unfold given. rewrite (od_get_nodup _ _ _ (proj1 Happ) Hin). cbn.
      pose proof (ro_computed _ _ _ _ _ (wf_req s2 Hwf2 i (running_all s2 i Hi))). lia.
    + destruct (ad_computed0 i Hi) as (-> & _ & _).
      rewrite Hid. unfold given. rewrite (od_get_nodup _ _ _ (proj1 Happ) Hin). cbn. done.
  - intros i Hi. rewrite ad_prev0, M8, elem_of_list_to_set, Hrid, S3. intros (j & Hj & Hin)%list_elem_of_fmap.
    assert (i ∈ queued s1) as Hi1 by (unfold queued in *; by rewrite ad_waiting0, ad_skipped0, M3, M4 in Hi).
    apply (not_running s1 i se_wf Hi1). replace i with j; [by apply S2|].
    apply (rid_inj s1); [done|by apply running_all, S2|by apply waiting_all|done].
  - by rewrite ad_prev0, M8.
  - by rewrite ad_cfg0, M5, se_cfg.
  - rewrite ad_requests0. congruence.
  - intros Hspec. rewrite Es3, Esp. apply S11. by rewrite se_cfg.
  - rewrite ad_connector0. by apply M7.
  - intros i. rewrite ad_running0, Hrid, ad_cfg0. intros Hi Hn. rewrite <- Eo in Hn. rewrite ad_others0 by (right; by rewrite Mr).
    rewrite M1, M5. rewrite M2 in Hi. apply se_pending; [done|]. intros Hin. apply Hn. rewrite Eo, S3. by apply list_elem_of_fmap_2.
  - intros Hspec i. rewrite ad_running0, Hrid. intros Hi Hin. destruct (ad_computed0 i Hi) as (-> & -> & ->). rewrite Mr.
    apply list_elem_of_fmap in Hin as ([id n] & Eid & Hin). cbn in Eid. subst id. unfold given. rewrite <- Eo in Hin. rewrite (od_get_nodup _ _ _ (proj1 Happ) Hin). cbn [default].
    rewrite M1. rewrite Eo in Hin. apply S10; [by rewrite se_cfg| |done].
    assert (rid s1 i ∈ rid s1 <$> scheduled t) as (j & Ej & Hj)%list_elem_of_fmap by (rewrite <- S3; apply list_elem_of_fmap; by exists (rid s1 i, n)).
    replace i with j; [done|]. apply (rid_inj s1); [done|by apply running_all, S2|apply running_all; by rewrite <- M2|done].
Qed.

(** C5: for text requests without connectors [Scheduler.schedule] returns: none
    of its loops, assertions and calls raises.  The tokens it hands out are
    counted exactly and stay within the budget of the step; each goes to a
    running request, once, and has a KV-cache slot; the number of running
    requests stays within its limit, and no request is lost or duplicated. *)
Theorem schedule_returns s :
  Ready s → ∃ o s', schedule now grammar_ready _update_after_schedule s = Ok (o, s') ∧ scheduled_step s o s'.
Proof. apply schedule_spec. Qed.
End output.
