(* ===== verification/Admission.v ===== *)
(** * Admission of requests

    [Scheduler.__init__] and [Scheduler.add_request]: a new scheduler, and a
    scheduler that takes in a text request, are ready for a scheduling step. *)

From Stdlib Require Import String.
From S2P Require Import Prelude Request BlockHash KVCacheManager EncoderCache RequestQueue SchedUtils.
From S2P Require Import Scheduler Schedule SchedUpdate SchedLaws SchedWF Preemption RunningLoop WaitingLoop.
From S2P Require Import StepProps StepOutput.
#[local] Open Scope Z_scope.

Section admission.
Context {K E W C EC P : Type}.
Context `{KVManagerLaws K} `{EncoderTextLaws E} `{QueueImplLaws W} `{KVConnector C P} `{ECConnector EC}.
#[local] Abbreviation sched := (Scheduler K E W C EC).
Implicit Types (s : sched).

(** A text request the scheduler has not seen: ready to run, or waiting for its
    grammar. *)
Record newcomer (s : sched) (i : Z) : Prop := {
  nc_unknown : od_get (requests s) (rid s i) = None;
  nc_apart : i ∉ all_ids s;
  nc_status : status (objs s i) = WAITING ∨ status (objs s i) = WAITING_FOR_STRUCTURED_OUTPUT_GRAMMAR;
  nc_text : mm_features (objs s i) = [];
  nc_computed : num_computed_tokens (objs s i) = 0;
  nc_placeholders : 0 ≤ num_output_placeholders (objs s i);
  nc_drafts : num_spec_tokens (cfg s) = 0 → spec_token_ids (objs s i) = [];
  nc_tokens : 1 ≤ num_tokens (objs s i) ≤ max_model_len (cfg s);
  nc_kv : kv_request_ok (kv_cache_manager s) (objs s i);
  nc_prev : rid s i ∉ prev_step_scheduled_req_ids s;
}.

(** The object as the scheduler keeps it. *)
Definition taken_in (log : bool) (now : Z) (r : Request) : Request :=
  let r := if resumable r then with_streaming_queue r (Some []) else r in
  if log then record_event r QUEUED now else r.

Lemma taken_in_fields log now r :
  let r' := taken_in log now r in
  request_key r' = request_key r ∧ status r' = status r ∧ mm_features r' = mm_features r
  ∧ num_computed_tokens r' = num_computed_tokens r ∧ num_tokens r' = num_tokens r
  ∧ num_output_placeholders r' = num_output_placeholders r ∧ spec_token_ids r' = spec_token_ids r
  ∧ ∀ k, kv_request_ok k r → kv_request_ok k r'.
Proof.
  cbn zeta. unfold taken_in. destruct (resumable r), log; split_and!; try done;
    intros k Hk; apply (kv_request_tokens k r); try done.
Qed.

(** A new object is placed in the store. *)
Lemma place_others s i r j : i ∉ all_ids s → j ∈ all_ids s → objs (put s i r) j = objs s j.
Proof. intros Hi Hj. cbn. rewrite (proj2 (Z.eqb_neq _ _)); [done|]. by intros ->. Qed.

Lemma WF_place s i r : WF s → i ∉ all_ids s → object_id r = i → WF (put s i r).
Proof.
  intros Hwf Hi Hoid. pose proof (λ j, place_others s i r j Hi) as Ho.
  assert (∀ j, j ∈ queued s → j ∈ all_ids s) as Hw by apply waiting_all.
  assert (∀ q, (∀ j, j ∈ ids q → j ∈ all_ids s) → q_ok s q → q_ok (put s i r) q) as Hq.
  { intros q Hin. apply q_ok_change; [apply Hwf|]. intros j Hj. by rewrite Ho by auto. }
  destruct Hwf. unfold queued in Hw. split; try done.
  - intros j. cbn. destruct (Z.eqb_spec j i) as [->|]; [done|apply wf_objs].
  - intros j Hj. change (j ∈ all_ids s) in Hj. rewrite Ho by done. by apply wf_req.
  - intros j Hj. rewrite Ho; [auto|]. by apply running_all.
  - intros j Hj. rewrite Ho; [auto|]. apply Hw. set_solver.
  - intros j Hj. rewrite Ho; [auto|]. apply Hw. set_solver.
  - intros j Hj. rewrite Ho; [auto|]. by apply Hw.
  - apply Hq; [|done]. intros j Hj. apply Hw. set_solver.
  - apply Hq; [|done]. intros j Hj. apply Hw. set_solver.
Qed.

Lemma Ready_place s i r : Ready s → i ∉ all_ids s → object_id r = i → Ready (put s i r).
Proof.
  intros [Hwf Hc Hconn Hrun Hpend Hprev] Hi Hoid. split; try done.
  - by apply WF_place.
  - intros j Hj. rewrite place_others; [by apply Hpend|done|]. by apply running_all.
  - intros j Hj. change (j ∈ queued s) in Hj. unfold rid. rewrite place_others; [by apply Hprev|done|by apply waiting_all].
Qed.

(** The request is known, but in no queue yet. *)
Lemma WF_register s i r :
  WF s → od_get (requests s) (rid s i) = None → i ∉ all_ids s → request_key r = request_key (objs s i) →
  WF (with_requests (put s i r) (od_set (requests s) (rid s i) i)).
Proof.
  intros Hwf Hu Hi Hk. assert (object_id r = i) as Hoid.
  { pose proof (wf_objs s Hwf i). unfold request_key in Hk. congruence. }
  destruct (WF_place s i r Hwf Hi Hoid). split; try done.
  - intros j Hj. destruct (wf_req j Hj). split; try done. cbn in *. rewrite od_get_set_ne; [done|]. unfold rid in *. congruence.
  - cbn. intros id Hid. apply wf_unknown. rewrite od_get_set_ne in Hid; [done|]. intros ->. by rewrite od_get_set_eq in Hid.
Qed.

Lemma WF_add_skipped s i q :
  WF s → i ∉ all_ids s →
  req_ok (kv_cache_manager s) (cfg s) (requests s) i (objs s i) →
  skipped_ok (objs s i) → idle_ok (kv_cache_manager s) (objs s i) →
  q_ok s q → ids q ≡ₚ i :: ids (skipped_waiting s) →
  WF (with_skipped s q).
Proof.
  intros Hwf Hi Hreq Hw Hidle Hq Hids.
  assert (all_ids (with_skipped s q) ≡ₚ i :: all_ids s) as Hall.
  { unfold all_ids. cbn. rewrite Hids. by rewrite <- !Permutation_middle. }
  destruct Hwf. split; try done.
  - rewrite Hall. by apply NoDup_cons.
  - intros j. rewrite Hall. intros [->|Hj]%elem_of_cons; [done|by apply wf_req].
  - intros j Hj. cbn in Hj. rewrite Hids in Hj. apply elem_of_cons in Hj as [->|Hj]; [done|by apply wf_skipped].
  - intros j Hj. cbn in Hj. rewrite Hids, <- Permutation_middle in Hj.
    apply elem_of_cons in Hj as [->|Hj]; [done|by apply wf_idle].
Qed.

Context (hasher : option block_hasher) (now : Z).

(** The state after the request has joined the queue [w]. *)
Definition joined (s : sched) (i : Z) (w : which_queue) (q : W) : sched :=
  with_queue_of (with_requests (put s i (taken_in (log_stats (cfg s)) now (objs s i)))
    (od_set (requests s) (rid s i) i)) w q.

Lemma add_request_joins s i :
  objs_ok s → q_ok s (waiting_q s) → q_ok s (skipped_waiting s) → newcomer s i →
  ∃ w q s', sched_add_request hasher now s i = Ok s'
    ∧ (w = Waiting ∧ status (objs s i) = WAITING
       ∨ w = Skipped ∧ status (objs s i) = WAITING_FOR_STRUCTURED_OUTPUT_GRAMMAR)
    ∧ (∀ j, objs s' j = objs (joined s i w q) j)
    ∧ s' = with_objs (joined s i w q) (objs s')
    ∧ q_ok (joined s i w q) q ∧ ids q ≡ₚ i :: ids (queue_of s w).
Proof.
  intros Ho Hw Hs [Hu Ha Hst]. unfold sched_add_request. fold (rid s i). rewrite Hu.
  set (s1 := if resumable (objs s i) then _ else s).
  assert (∀ j, request_key (objs s1 j) = request_key (objs s j) ∧ object_id (objs s1 j) = object_id (objs s j)
    ∧ status (objs s1 j) = status (objs s j)) as Hs1.
  { intros j. unfold s1. destruct (resumable _); [|done]. cbn. by destruct (Z.eqb_spec j i) as [->|]. }
  assert (objs_ok s1) as Ho1 by (intros j; by rewrite (proj1 (proj2 (Hs1 j)))).
  assert (∀ q, q_ok s q → q_ok s1 q) as Hq1.
  { intros q. apply q_ok_change; [done|]. intros j _. apply Hs1. }
  unfold _enqueue_waiting_request. rewrite (proj2 (proj2 (Hs1 i))).
  assert (∃ w, (w = Waiting ∧ status (objs s i) = WAITING
       ∨ w = Skipped ∧ status (objs s i) = WAITING_FOR_STRUCTURED_OUTPUT_GRAMMAR)
    ∧ (if _is_blocked_waiting_status (status (objs s i))
       then with_skipped s1 <$> q_add s1 (skipped_waiting s1) i
       else with_waiting s1 <$> q_add s1 (waiting_q s1) i)
      = with_queue_of s1 w <$> q_add s1 (queue_of s1 w) i ∧ queue_of s1 w = queue_of s w ∧ q_ok s (queue_of s w))
    as (w & Hcase & -> & Eq & Hqw).
  { destruct Hst as [E1|E1]; rewrite E1; [exists Waiting|exists Skipped]; (split; [naive_solver|]);
      (split; [done|]); unfold s1; by destruct (resumable _). }
  rewrite Eq. destruct (q_add_spec s1 (queue_of s w) i Ho1 (Hq1 _ Hqw)) as (q & -> & Hq & Hids).
  cbn [fmap res_fmap mbind res_bind]. exists w, q. eexists. split; [done|]. split; [done|].
  assert (∀ s', (∀ j, objs s' j = objs (joined s i w q) j) → ∀ j, request_key (objs s' j) = request_key (objs s1 j)) as Hk.
  { intros s' Hs' j. rewrite Hs'. unfold joined, s1, taken_in, record_event, with_queue_of, with_requests.
    destruct w; cbn; destruct (resumable _), (log_stats _); cbn; by destruct (Z.eqb_spec j i) as [->|]. }
  split_and!.
  - intros j. unfold joined, s1, taken_in, modify, with_queue_of.
    destruct w, (resumable _) eqn:Er; cbn; destruct (log_stats _); cbn; rewrite ?Z.eqb_refl;
      by destruct (Z.eqb_spec j i) as [->|].
  - unfold joined, s1, taken_in, modify, with_queue_of.
    destruct w, (resumable _) eqn:Er; cbn; destruct (log_stats _); cbn; try done; by destruct s.
  - eapply q_ok_change; [exact Ho1| |exact Hq]. intros j _. by apply Hk.
  - done.
Qed.

Lemma joined_wf s i w q :
  WF s → newcomer s i →
  (w = Waiting ∧ status (objs s i) = WAITING
   ∨ w = Skipped ∧ status (objs s i) = WAITING_FOR_STRUCTURED_OUTPUT_GRAMMAR) →
  q_ok (joined s i w q) q → ids q ≡ₚ i :: ids (queue_of s w) → WF (joined s i w q).
Proof.
  intros Hwf Hn Hcase Hq Hids. destruct (taken_in_fields (log_stats (cfg s)) now (objs s i))
    as (F1 & F2 & F3 & F4 & F5 & F6 & F8 & F7). set (r := taken_in _ _ _) in *.
  pose proof (WF_register s i r Hwf (nc_unknown _ _ Hn) (nc_apart _ _ Hn) F1) as Hreg.
  unfold joined in *. fold r in Hq |- *. set (s1 := with_requests _ _) in *.
  assert (objs s1 i = r) as Ei by (cbn; by rewrite Z.eqb_refl).
  assert (request_id r = rid s i) as Er by (unfold request_key, rid in *; congruence).
  pose proof (wf_unknown s Hwf _ (nc_unknown _ _ Hn)) as Hslots.
  destruct Hn. assert (req_ok (kv_cache_manager s1) (cfg s1) (requests s1) i (objs s1 i)) as Hreq.
  { rewrite Ei. split; rewrite ?F3, ?F4, ?F5, ?F6, ?F8, ?Er; try done; [by apply F7| |apply od_get_set_eq].
    cbn. unfold rid in *. lia. }
  assert (idle_ok (kv_cache_manager s1) (objs s1 i)) as Hidle.
  { rewrite Ei. split; [lia|]. intros _. by rewrite Er. }
  destruct Hcase as [[-> Est]|[-> Est]].
  - apply (WF_add_waiting s1 i); try done. rewrite Ei. left. congruence.
  - apply (WF_add_skipped s1 i); try done. rewrite Ei. unfold skipped_ok. by rewrite F2, Est.
Qed.

(** What taking in the request [i] changes. *)
Record took_in (s : sched) (i : Z) (s' : sched) : Prop := {
  ti_ready : Ready s';
  ti_all : all_ids s' ≡ₚ i :: all_ids s;
  ti_running : running s' = running s;
  ti_objs : ∀ j, objs s' j = if j =? i then taken_in (log_stats (cfg s)) now (objs s i) else objs s j;
  ti_requests : requests s' = od_set (requests s) (rid s i) i;
  ti_kv : kv_cache_manager s' = kv_cache_manager s;
  ti_cfg : cfg s' = cfg s;
  ti_prev : prev_step_scheduled_req_ids s' = prev_step_scheduled_req_ids s;
  ti_pause : pause_state s' = pause_state s;
}.

Lemma took_rid s i s' j : took_in s i s' → rid s' j = rid s j.
Proof.
  intros []. unfold rid. rewrite ti_objs0. destruct (Z.eqb_spec j i) as [->|]; [|done].
  destruct (taken_in_fields (log_stats (cfg s)) now (objs s i)) as (F1 & _). unfold request_key in F1. congruence.
Qed.

Lemma add_request_spec s i :
  Ready s → newcomer s i → ∃ s', sched_add_request hasher now s i = Ok s' ∧ took_in s i s'.
Proof.
  intros [Hwf Hc Hconn Hrun Hpend Hprev] Hn.
  destruct (add_request_joins s i (wf_objs s Hwf) (wf_wq s Hwf) (wf_sq s Hwf) Hn)
    as (w & q & s' & E1 & Hcase & Hobj & Es & Hq & Hids).
  pose proof (joined_wf s i w q Hwf Hn Hcase Hq Hids) as Hwf'. exists s'. split; [done|].
  assert (WF s') as Hw' by (apply (WF_ext (joined s i w q)); [done|done|rewrite Es; by destruct w..]).
  assert (∀ j, objs s' j = if j =? i then taken_in (log_stats (cfg s)) now (objs s i) else objs s j) as Ho.
  { intros j. rewrite Hobj. unfold joined. by destruct w. }
  assert (∀ j, rid s' j = rid s j) as Hrid.
  { intros j. unfold rid. rewrite Ho. destruct (Z.eqb_spec j i) as [->|]; [|done].
    destruct (taken_in_fields (log_stats (cfg s)) now (objs s i)) as (F1 & _). unfold request_key in F1. congruence. }
  assert (running s' = running s ∧ cfg s' = cfg s ∧ connector s' = connector s
    ∧ prev_step_scheduled_req_ids s' = prev_step_scheduled_req_ids s
    ∧ queued s' ≡ₚ i :: queued s ∧ all_ids s' ≡ₚ i :: all_ids s ∧ kv_cache_manager s' = kv_cache_manager s
    ∧ requests s' = od_set (requests s) (rid s i) i ∧ pause_state s' = pause_state s)
    as (R1 & R2 & R3 & R4 & R5 & R6 & R7 & R8 & R9).
  { rewrite Es. unfold all_ids, queued. destruct w; cbn; cbn in Hids; rewrite Hids; split_and!; try done;
      cbn [app]; rewrite <- ?Permutation_middle; done. }
  split; try done. split; rewrite ?R1, ?R2, ?R3, ?R4; try done.
  - intros j Hj. rewrite Ho, (proj2 (Z.eqb_neq _ _)); [by apply Hpend|].
    intros ->. by apply (nc_apart _ _ Hn), running_all.
  - intros j Hj. rewrite R5 in Hj. rewrite Hrid. apply elem_of_cons in Hj as [->|Hj]; [apply Hn|by apply Hprev].
Qed.

(** The other new requests stay new. *)
Lemma newcomer_stays s i s' j :
  took_in s i s' → newcomer s j → j ≠ i → rid s j ≠ rid s i → newcomer s' j.
Proof.
  intros Ht [] Hne Hr. pose proof (took_rid s i s' j Ht) as Hrid. destruct Ht.
  assert (objs s' j = objs s j) as Ej by (rewrite ti_objs0; by rewrite (proj2 (Z.eqb_neq _ _))).
  split; rewrite ?Hrid, ?Ej, ?ti_kv0, ?ti_cfg0, ?ti_prev0, ?ti_all0; try done.
  - by rewrite ti_requests0, od_get_set_ne.
  - rewrite not_elem_of_cons. done.
Qed.

Definition add_requests (s : sched) (l : list Z) : res sched :=
  rfold (sched_add_request hasher now) s l.

Lemma add_requests_spec s l :
  Ready s → NoDup l → NoDup (rid s <$> l) → (∀ i, i ∈ l → newcomer s i) →
  ∃ s', add_requests s l = Ok s' ∧ Ready s' ∧ all_ids s' ≡ₚ l ++ all_ids s ∧ running s' = running s
    ∧ cfg s' = cfg s ∧ kv_cache_manager s' = kv_cache_manager s ∧ pause_state s' = pause_state s.
Proof.
  unfold add_requests. revert s. induction l as [|i l IH]; intros s Hr Hnd Hnr Hn; cbn [rfold]; [by exists s|].
  apply NoDup_cons in Hnd as [Hi Hnd]. rewrite fmap_cons in Hnr. apply NoDup_cons in Hnr as [Hri Hnr].
  destruct (add_request_spec s i Hr) as (s1 & -> & Ht); [apply Hn; left|]. cbn [mbind res_bind].
  destruct (IH s1) as (s' & E1 & Hr' & Ha & Er & Ec & Ek & Ep); [apply Ht|done| | |].
  - erewrite list_fmap_ext; [exact Hnr|]. intros. by apply (took_rid s i).
  - intros j Hj. apply (newcomer_stays s i); [done|apply Hn; by right|by intros ->|].
    intros Eq. apply Hri. rewrite <- Eq. by apply list_elem_of_fmap_2.
  - exists s'. destruct Ht. split; [done|]. split; [done|]. split_and!; try congruence.
    by rewrite Ha, ti_all0, <- Permutation_middle.
Qed.

(** C8: taking in text requests never raises, whatever their number and the
    state of the queues: all join a waiting queue, the running requests and the
    KV cache are untouched, and the scheduler is ready for the next step. *)
Theorem add_requests_ready s l :
  Ready s → NoDup l → NoDup (rid s <$> l) → (∀ i, i ∈ l → newcomer s i) →
  ∃ s', add_requests s l = Ok s' ∧ Ready s' ∧ all_ids s' ≡ₚ l ++ all_ids s ∧ running s' = running s
    ∧ kv_cache_manager s' = kv_cache_manager s.
Proof. intros ? ? ? ?. destruct (add_requests_spec s l) as (s' & ?); [done..|]. exists s'. naive_solver. Qed.
End admission.
