(* ===== verification/Generation.v ===== *)
(** * Processing the model's output

    [Scheduler.update_from_output] for requests that generate text, without
    connectors and speculative decoding: sampled tokens are appended, requests that
    stop leave the scheduler with their slots, and the others can be scheduled
    again. *)

From Stdlib Require Import String.
From S2P Require Import Prelude Request BlockHash Metrics KVCacheManager EncoderCache RequestQueue SchedUtils.
From S2P Require Import Scheduler Schedule SchedUpdate SchedLaws SchedWF Preemption RunningLoop WaitingLoop.
From S2P Require Import StepProps StepOutput Admission.
#[local] Open Scope Z_scope.

(** ** Requests that generate *)

(** A request that generates to its end without further input, and whose minimal
    length fits the model. *)
Record generates (max_len : Z) (r : Request) : Prop := {
  ge_once : resumable r = false;
  ge_pooling : pooling_params r = None;
  ge_sync : num_output_placeholders r = 0;
  ge_counts : num_tokens r = num_prompt_tokens r + num_output_tokens r;
  ge_sampling : ∃ sp, sampling_params r = Some sp ∧ num_prompt_tokens r + sp_min_tokens sp ≤ max_len;
}.

(** The request [r] with the token [t] appended, its caches of hashes updated. *)
Definition extended (r : Request) (t : Z) (embeds : gmap (Z * Z) bytes) (hashes : list bytes) : Request :=
  with_block_hashes (with_embed_hashes
    (with_tokens r (output_token_ids r ++ [t]) (all_token_ids r ++ [t])) embeds) hashes.

(** What the manager accepts stays acceptable when a token is appended and
    hashed. *)
Class GenerationLaws (K : Type) `{KVManagerView K} (hasher : option block_hasher) := {
  law_generates : ∀ k r, kv_request_ok k r → generates (kv_max_len k) r;
  law_append : ∀ k r t, kv_request_ok k r →
    ∃ embeds hashes, append_output_token_ids hasher r [t] = Ok (extended r t embeds hashes)
      ∧ kv_request_ok k (extended r t embeds hashes);
}.

(** ** One token *)

(** What appending [toks] to the request leaves as it is. *)
Record appended (r : Request) (toks : list Z) (r' : Request) : Prop := {
  ap_key : request_key r' = request_key r;
  ap_text : mm_features r' = mm_features r;
  ap_computed : num_computed_tokens r' = num_computed_tokens r;
  ap_placeholders : num_output_placeholders r' = num_output_placeholders r;
  ap_drafts : spec_token_ids r' = spec_token_ids r;
  ap_resumable : resumable r' = resumable r;
  ap_tokens : all_token_ids r' = all_token_ids r ++ toks;
}.

Lemma appended_trans r1 r2 r3 toks : appended r1 toks r2 → appended r2 [] r3 → appended r1 toks r3.
Proof. intros [] []. split; try congruence. by rewrite ap_tokens1, app_nil_r. Qed.

Lemma appended_rid r toks r' : appended r toks r' → request_id r' = request_id r.
Proof. intros []. unfold request_key in *. congruence. Qed.

Lemma appended_num r toks r' : appended r toks r' → num_tokens r' = num_tokens r + zlen toks.
Proof. intros []. unfold num_tokens. by rewrite ap_tokens0, zlen_app. Qed.

Section generation.
Context {K E W C EC P : Type}.
Context `{KVManagerLaws K} `{EncoderTextLaws E} `{QueueImplLaws W} `{KVConnector C P} `{ECConnector EC}.
#[local] Abbreviation sched := (Scheduler K E W C EC).
Implicit Types (s : sched).

(** ** Requests that leave *)

Lemma WF_leave s i k r d :
  WF s → i ∉ all_ids s → od_get (requests s) (rid s i) = Some i → object_id r = i →
  kv_ok k → kv_frame (rid s i) (kv_cache_manager s) k → kv_slots k (rid s i) = 0 →
  (∀ id, id ≠ rid s i → od_get d id = od_get (requests s) id) →
  WF (with_requests (put (with_kv s k) i r) d).
Proof.
  intros Hwf Hi Hd Hoid Hk Hf Hz Hget. set (s' := with_requests _ _).
  assert (∀ j, j ∈ all_ids s → objs s' j = objs s j) as Ho.
  { intros j Hj. cbn. rewrite (proj2 (Z.eqb_neq _ _)); [done|]. by intros ->. }
  assert (∀ j, j ∈ all_ids s → request_id (objs s j) ≠ rid s i) as Hne.
  { intros j Hj. apply wf_distinct; [done..|]. by intros ->. }
  assert (∀ q, (∀ j, j ∈ ids q → j ∈ all_ids s) → q_ok s q → q_ok s' q) as Hq.
  { intros q Hin. apply q_ok_change; [apply Hwf|]. intros j Hj. by rewrite Ho by auto. }
  assert (∀ j, j ∈ queued s → j ∈ all_ids s) as Hw by apply waiting_all.
  destruct Hwf. unfold queued in Hw. split; try done.
  - intros j. cbn. destruct (Z.eqb_spec j i) as [->|]; [done|apply wf_objs].
  - intros j Hj. change (j ∈ all_ids s) in Hj. rewrite Ho by done.
    destruct (req_ok_frame _ _ _ _ _ _ _ Hf (Hne j Hj) (wf_req j Hj)). split; try done.
    cbn. rewrite Hget; auto.
  - intros j Hj. rewrite Ho; [auto|]. by apply running_all.
  - intros j Hj. rewrite Ho; [auto|]. apply Hw. set_solver.
  - intros j Hj. rewrite Ho; [auto|]. apply Hw. set_solver.
  - intros j Hj. rewrite Ho; [|auto]. eapply idle_ok_frame; [exact Hf|by apply Hne, Hw|auto].
  - apply Hq; [|done]. intros j Hj. apply Hw. set_solver.
  - apply Hq; [|done]. intros j Hj. apply Hw. set_solver.
  - cbn. destruct Hf as ([= -> _ _] & _). done.
  - cbn. destruct Hf as ([= _ -> _] & _). done.
  - cbn. intros id Hid. destruct (decide (id = rid s i)) as [->|Hx]; [done|]. rewrite Hget in Hid by done.
    destruct Hf as (_ & -> & _); auto.
Qed.
(** ** The sampled token *)

Context (hasher : option block_hasher) `{!GenerationLaws K hasher}.

(** The sampled token is appended; the request stops, or goes on within the
    length of the model. *)
Lemma sampled_token k r t max_len :
  kv_request_ok k r → kv_max_len k = max_len →
  ∃ b r', append_until_stop hasher r max_len [] [t] = Ok ([t], b, r') ∧ appended r [t] r'
    ∧ if b then is_finished r' = true
      else status r' = status r ∧ kv_request_ok k r' ∧ num_tokens r' ≤ max_len.
Proof.
  intros Hr Hm. destruct (law_append k r t Hr) as (em & hs & Ea & Hr'). set (r1 := extended r t em hs) in *.
  cbn [append_until_stop]. rewrite Ea. cbn [mbind res_bind].
  destruct (law_generates k r1 Hr') as [G1 G2 G3 G4 (sp & G5 & G6)].
  destruct (check_stop_spec r1 sp max_len t) as (b & r2 & -> & Hfin & Hsame & Heq & Hout); [done|done| |].
  { unfold r1, extended. cbn. by rewrite last_snoc. }
  cbn [mbind res_bind]. exists b, r2. destruct b.
  - split; [done|]. split; [|done]. rewrite Heq. by split.
  - rewrite (Hsame eq_refl) in *. split; [done|]. split; [by split|]. split_and!; [done..|].
    unfold stop_outcome in Hout. destruct (Z.ltb_spec (num_output_tokens r1) (sp_min_tokens sp)); [lia|].
    repeat case_decide; done || lia.
Qed.

(** ** The loop over the scheduled requests *)

(** The tokens the model sampled for a request. *)
Definition row (m : ModelRunnerOutput) (id : string) : res (list Z) :=
  idx ← od_index (req_id_to_index m) id;
  if bool_decide (sampled_token_ids m = []) then Ok [] else py_index (sampled_token_ids m) idx.

(** Nothing is sampled while the prompt is computed, then one token. *)
Definition row_ok (m : ModelRunnerOutput) (r : Request) (x : list Z) : Prop :=
  if num_computed_tokens r <? num_tokens r then x = [] ∧ request_id r ∉ has_prompt_logprobs m
  else ∃ t, x = [t].

(** The output of a model for the step [o]. *)
Record model_answers (s : sched) (o : SchedulerOutput) (m : ModelRunnerOutput) : Prop := {
  ma_pooler : has_pooler_output m = [];
  ma_transfers : kv_connector_output m = None;
  ma_rows : ∀ i, i ∈ running s → rid s i ∈ (so_num_scheduled_tokens o).*1 →
    ∃ x, row m (rid s i) = Ok x ∧ row_ok m (objs s i) x;
}.

(** The tokens the requests [d] get. *)
Definition answer (m : ModelRunnerOutput) (d : list string) (id : string) : list Z :=
  if decide (id ∈ d) then match row m id with Ok x => x | Err _ => [] end else [].

(** Nothing but objects, blocks and the table of requests differs. *)
Record same_queues (s s' : sched) : Prop := {
  sq_running : running s' = running s;
  sq_waiting : waiting_q s' = waiting_q s;
  sq_skipped : skipped_waiting s' = skipped_waiting s;
  sq_cfg : cfg s' = cfg s;
  sq_prev : prev_step_scheduled_req_ids s' = prev_step_scheduled_req_ids s;
  sq_connector : connector s' = connector s;
  sq_pause : pause_state s' = pause_state s;
}.

#[export] Instance same_queues_preorder : PreOrder same_queues.
Proof. split; [by split|]. intros s1 s2 s3 [] []. split; congruence. Qed.

(** The running requests that have not stopped. *)
Definition live (s : sched) (l : UpdateLoop (P := P)) : list Z := filter (λ i, i ∉ ul_running l) (running s).

(** The loop has yet to see the requests [rest] of [d]. *)
Record updating (s0 : sched) (m : ModelRunnerOutput) (d rest : list string) (s : sched) (l : UpdateLoop (P := P))
    : Prop := {
  up_wf : WF (with_running s (live s l));
  up_queues : same_queues s0 s;
  up_preempted : ul_preempted l = [];
  up_rid : ∀ i, rid s i = rid s0 i;
  up_gone : ∀ i, i ∈ ul_running l → i ∈ running s0 ∧ (rid s0 i ∉ rest) ∧ is_finished (objs s i) = true;
  up_todo : ∀ i, i ∈ running s0 → rid s0 i ∈ rest → objs s i = objs s0 i;
  up_pending : ∀ i, i ∈ live s l → rid s0 i ∉ rest → pending (cfg s0) (objs s i);
  up_tokens : ∀ i, i ∈ running s0 → rid s0 i ∉ rest →
    all_token_ids (objs s i) = all_token_ids (objs s0 i) ++ answer m d (rid s0 i);
  up_others : ∀ i, i ∉ running s0 → objs s i = objs s0 i;
  up_known : ∀ id i, od_get (requests s) id = Some i → od_get (requests s0) id = Some i;
  up_keys : NoDup (requests s).*1;
  up_dropped : ∀ i, i ∈ ul_running l → od_get (requests s) (rid s0 i) = None;
}.

Lemma elem_of_live s l i : i ∈ live s l ↔ i ∈ running s ∧ i ∉ ul_running l.
Proof. unfold live. rewrite list_elem_of_filter. tauto. Qed.

(** Nobody else has the id of the request at hand. *)
Lemma updating_rest s0 i j id rest :
  WF s0 → i ∈ running s0 → rid s0 i = id → j ∈ running s0 → j ≠ i → rid s0 j ∉ rest → rid s0 j ∉ id :: rest.
Proof.
  intros Hwf Hi <- Hj Hne Hr. apply not_elem_of_cons. split; [|done]. intros Eq. apply Hne.
  by apply (rid_inj s0); [|apply running_all..|].
Qed.

(** The request at hand goes on. *)
Lemma updating_stay s0 m d id rest s l s' l' i r toks :
  updating s0 m d (id :: rest) s l → WF s0 → i ∈ running s0 → rid s0 i = id → id ∉ rest →
  s' = with_objs s (objs s') → objs s' i = r → (∀ j, j ≠ i → objs s' j = objs s j) →
  appended (objs s i) toks r → answer m d id = toks → status r = RUNNING →
  kv_request_ok (kv_cache_manager s) r → num_tokens r ≤ max_model_len (cfg s) → num_computed_tokens r < num_tokens r →
  ul_running l' = ul_running l → ul_preempted l' = ul_preempted l →
  updating s0 m d rest s' l'.
Proof.
  intros Hup Hwf0 Hi Hid Hfresh Es Er Ho Hap Hans Hst Hkv Hmax Hlt El Ep.
  pose proof (λ j, updating_rest s0 i j id rest Hwf0 Hi Hid) as Hrest.
  destruct Hup. pose proof (sq_running _ _ up_queues0) as Erun.
  assert (i ∉ ul_running l) as Hin by (intros (_ & Hn & _)%up_gone0; destruct Hn; rewrite Hid; left).
  assert (live s' l' = live s l) as Elive by (unfold live; by rewrite El, Es).
  assert (i ∈ live s l) as Hlive by (apply elem_of_live; by rewrite Erun).
  assert (objs s i = objs s0 i) as Ei by (apply up_todo0; [done|rewrite Hid; left]).
  assert (rid s' i = rid s i) as Erid by (unfold rid; rewrite Er; by apply (appended_rid _ toks)).
  set (u := with_running s (live s l)) in *. assert (i ∈ all_ids u) as Hall by (by apply running_all).
  assert (WF (put (with_kv u (kv_cache_manager u)) i r)) as Hwf'.
  { apply WF_put; try done.
    - apply (wf_req u up_wf0 i Hall).
    - apply up_wf0.
    - apply Hap.
    - intros _. destruct (wf_req u up_wf0 i Hall). change (objs u i) with (objs s i) in *.
      pose proof (appended_num _ _ _ Hap) as Hn. pose proof (zlen_nonneg toks).
      pose proof (appended_rid _ _ _ Hap) as Hr. destruct Hap.
      split; rewrite ?Hr, ?ap_text0, ?ap_computed0, ?ap_placeholders0, ?ap_drafts0; try done. cbn in *. lia.
    - intros Hw. destruct (not_running u i up_wf0); [|done]. apply elem_of_app. by left.
    - intros Hw. destruct (not_running u i up_wf0); [|done]. apply elem_of_app. by right.
    - intros Hw. by destruct (not_running u i up_wf0). }
  split; rewrite ?Elive; try done.
  - apply (WF_ext _ _ Hwf'); try (by rewrite Es). intros j. cbn. destruct (Z.eqb_spec j i) as [->|]; auto.
  - etrans; [done|]. rewrite Es. by split.
  - by rewrite Ep.
  - intros j. destruct (decide (j = i)) as [->|]; [by rewrite Erid|]. unfold rid. rewrite Ho by done. apply up_rid0.
  - intros j. rewrite El. intros Hj. destruct (up_gone0 j Hj) as (? & [? ?]%not_elem_of_cons & ?).
    rewrite Ho by (by intros ->). done.
  - intros j Hj Hr. rewrite Ho; [apply up_todo0; [done|by right]|]. intros ->. by rewrite Hid in Hr.
  - intros j Hj Hr. destruct (decide (j = i)) as [->|].
    + rewrite Er. split; [|rewrite <- (sq_cfg _ _ up_queues0); lia].
      destruct (wf_req u up_wf0 i Hall). change (objs u i) with (objs s i) in *.
      rewrite (ap_placeholders _ _ _ Hap). unfold num_tokens_with_spec, num_tokens in *.
      pose proof (zlen_nonneg (spec_token_ids r)). lia.
    + rewrite Ho by done. apply up_pending0; [done|]. apply elem_of_live in Hj as [Hj _]. rewrite Erun in Hj. auto.
  - intros j Hj Hr. destruct (decide (j = i)) as [->|]; [|rewrite Ho by done; auto].
    rewrite Er, (ap_tokens _ _ _ Hap), Ei, Hid. by rewrite Hans.
  - intros j Hj. rewrite Ho; [auto|]. by intros ->.
  - rewrite Es. apply up_known0.
  - rewrite Es. apply up_keys0.
  - rewrite El, Es. apply up_dropped0.
Qed.

Lemma filter_middle (l1 l2 : list Z) i :
  i ∉ l1 → i ∉ l2 → filter (λ j, j ≠ i) (l1 ++ i :: l2) = l1 ++ l2.
Proof.
  intros H1' H2'. rewrite filter_app, filter_cons, decide_False by naive_solver.
  rewrite !list_filter_all; [done|apply Forall_forall; intros j Hj ->; naive_solver..].
Qed.

(** The running list without a request that stopped. *)
Lemma live_without s l s' l' i :
  NoDup (running s) → i ∈ live s l → running s' = running s → ul_running l' = ul_running l ++ [i] →
  ∃ l1 l2, live s l = l1 ++ i :: l2 ∧ live s' l' = l1 ++ l2.
Proof.
  intros Hnd Hi Er El. destruct (list_elem_of_split (live s l) i Hi) as (l1 & l2 & Eq).
  exists l1, l2. split; [done|].
  assert (NoDup (live s l)) as Hn by (by apply NoDup_filter). rewrite Eq in Hn.
  apply nodup_middle in Hn as (? & ? & _).
  rewrite <- (filter_middle l1 l2 i), <- Eq by done. unfold live. rewrite Er, El, list_filter_filter.
  apply list_filter_iff. intros j. rewrite not_elem_of_app, list_elem_of_singleton. tauto.
Qed.

(** The request at hand leaves. *)
Lemma updating_leave s0 m d id rest s l s' l' i :
  updating s0 m d (id :: rest) s l → WF s0 → i ∈ running s0 → rid s0 i = id → id ∉ rest →
  same_queues s s' → (∀ j, j ≠ i → objs s' j = objs s j) → request_key (objs s' i) = request_key (objs s i) →
  is_finished (objs s' i) = true → all_token_ids (objs s' i) = all_token_ids (objs s i) ++ answer m d id →
  kv_ok (kv_cache_manager s') → kv_frame (rid s i) (kv_cache_manager s) (kv_cache_manager s') →
  kv_slots (kv_cache_manager s') (rid s i) = 0 → requests s ≡ₚ (rid s i, i) :: requests s' →
  (∀ x, x ≠ rid s i → od_get (requests s') x = od_get (requests s) x) →
  ul_running l' = ul_running l ++ [i] → ul_preempted l' = ul_preempted l →
  updating s0 m d rest s' l'.
Proof.
  intros Hup Hwf0 Hi Hid Hfresh Hsq Ho Hkey Hfin Htok Hk Hf Hz Hperm Hget El Ep.
  pose proof (λ j, updating_rest s0 i j id rest Hwf0 Hi Hid) as Hrest.
  destruct Hup. pose proof (sq_running _ _ up_queues0) as Erun.
  assert (i ∉ ul_running l) as Hin by (intros (_ & Hn & _)%up_gone0; destruct Hn; rewrite Hid; left).
  assert (i ∈ live s l) as Hlive by (apply elem_of_live; by rewrite Erun).
  assert (objs s i = objs s0 i) as Ei by (apply up_todo0; [done|rewrite Hid; left]).
  assert (NoDup (running s)) as Hnd.
  { rewrite Erun. pose proof (wf_nodup s0 Hwf0) as Hn. unfold all_ids in Hn. by apply NoDup_app in Hn as [? _]. }
  destruct (live_without s l s' l' i Hnd Hlive (sq_running _ _ Hsq) El) as (l1 & l2 & E1 & E2).
  set (u := with_running s (live s l)) in *.
  destruct (WF_drop_running u l1 i l2 up_wf0 E1) as [Hwf1 Hout].
  assert (od_get (requests s) (rid s i) = Some i) as Hd by apply (wf_req u up_wf0 i), running_all, Hlive.
  assert (rid s i = id) as Eid by (by rewrite up_rid0).
  assert (∀ j, j ∈ live s' l' → j ∈ live s l ∧ j ≠ i) as Hsub.
  { intros j. rewrite !elem_of_live, (sq_running _ _ Hsq), El, not_elem_of_app, list_elem_of_singleton. tauto. }
  assert (NoDup (requests s').*1 ∧ rid s i ∉ (requests s').*1) as [Hnk Hnot].
  { pose proof up_keys0 as Hn. rewrite Hperm, fmap_cons in Hn. by apply NoDup_cons in Hn as [? ?]. }
  split; try done.
  - apply (WF_ext (with_requests (put (with_kv (with_running u (l1 ++ l2)) (kv_cache_manager s')) i (objs s' i)) (requests s')));
      try done; try (by apply Hsq).
    + apply WF_leave; try done. unfold request_key in Hkey. pose proof (wf_objs u up_wf0 i) as Hoi. cbn in Hoi. congruence.
    + intros j. cbn. destruct (Z.eqb_spec j i) as [->|]; auto.
  - by etrans.
  - by rewrite Ep.
  - intros j. destruct (decide (j = i)) as [->|]; [|unfold rid; rewrite Ho by done; apply up_rid0].
    rewrite <- up_rid0. unfold rid, request_key in *. congruence.
  - intros j. rewrite El. intros [Hj| ->%list_elem_of_singleton]%elem_of_app; [|by rewrite Hid].
    destruct (up_gone0 j Hj) as (? & [? ?]%not_elem_of_cons & ?). rewrite Ho by (by intros ->). done.
  - intros j Hj Hr. rewrite Ho; [apply up_todo0; [done|by right]|]. intros ->. by rewrite Hid in Hr.
  - intros j [Hj Hne]%Hsub Hr. rewrite Ho by done. apply up_pending0; [done|].
    apply elem_of_live in Hj as [Hj _]. rewrite Erun in Hj. auto.
  - intros j Hj Hr. destruct (decide (j = i)) as [->|]; [|rewrite Ho by done; auto]. by rewrite Htok, Ei, Hid.
  - intros j Hj. rewrite Ho; [auto|]. by intros ->.
  - intros x j Hx. apply up_known0. rewrite <- Hget; [done|]. intros ->. apply Hnot, list_elem_of_fmap.
    exists (rid s i, j). split; [done|by apply od_get_elem].
  - intros j. rewrite El. intros [Hj| ->%list_elem_of_singleton]%elem_of_app.
    + rewrite Hget; [by apply up_dropped0|]. destruct (up_gone0 j Hj) as (Hj0 & Hn & _).
      rewrite Eid. intros Eq. apply Hn. rewrite Eq. left.
    + rewrite Hid, <- Eid. by apply od_get_None.
Qed.

(** ** One scheduled request *)

(** Fields that nobody but the output reads. *)
Record cosmetic (r r' : Request) : Prop := {
  cs_appended : appended r [] r';
  cs_status : status r' = status r;
  cs_kv : ∀ k, kv_request_ok k r → kv_request_ok k r';
}.

Lemma cosmetic_refl r : cosmetic r r.
Proof. split; [|done..]. split; try done. by rewrite app_nil_r. Qed.

Lemma nans_cosmetic r n : cosmetic r (with_num_nans_in_logits r n).
Proof.
  split; [|done|intros k; by apply kv_request_tokens]. split; try done. by rewrite app_nil_r.
Qed.

Lemma events_cosmetic r : cosmetic r (take_request_events r).2.
Proof.
  unfold take_request_events. destruct (events r); [apply cosmetic_refl|].
  split; [|done|intros k; by apply kv_request_tokens]. split; try done. cbn. by rewrite app_nil_r.
Qed.

Lemma cosmetic_trans r1 r2 r3 : cosmetic r1 r2 → cosmetic r2 r3 → cosmetic r1 r3.
Proof. intros [] []. split; [by eapply appended_trans|congruence|auto]. Qed.

(** The object [i] changed so. *)
Record retouched (s : sched) (i : Z) (s' : sched) : Prop := {
  rt_shape : s' = with_objs s (objs s');
  rt_others : ∀ j, j ≠ i → objs s' j = objs s j;
  rt_object : cosmetic (objs s i) (objs s' i);
}.

Lemma put_retouched s i r : cosmetic (objs s i) r → retouched s i (put s i r).
Proof.
  intros Hc. split; [done| |cbn; by rewrite Z.eqb_refl].
  intros j Hj. cbn. by rewrite (proj2 (Z.eqb_neq _ _)).
Qed.

Lemma retouched_trans s1 i s2 s3 : retouched s1 i s2 → retouched s2 i s3 → retouched s1 i s3.
Proof.
  intros [E1 O1 C1] [E2 O2 C2]. split; [by rewrite E2, E1| |by eapply cosmetic_trans].
  intros j Hj. by rewrite O2, O1.
Qed.

Lemma nans_retouched s i (o : option Z) :
  retouched s i (match o with Some n => modify s i (λ r, with_num_nans_in_logits r n) | None => s end).
Proof.
  destruct o as [n|]; [apply put_retouched, nans_cosmetic|]. split; [by destruct s|done|apply cosmetic_refl].
Qed.

Context (now : Z).

(** The request [i] gave up its slots and is forgotten. *)
Record released (s : sched) (i : Z) (s' : sched) : Prop := {
  rl_queues : same_queues s s';
  rl_objs : objs s' = objs s;
  rl_kv : kv_ok (kv_cache_manager s');
  rl_frame : kv_frame (rid s i) (kv_cache_manager s) (kv_cache_manager s');
  rl_slots : kv_slots (kv_cache_manager s') (rid s i) = 0;
  rl_requests : requests s ≡ₚ (rid s i, i) :: requests s';
  rl_get : ∀ x, x ≠ rid s i → od_get (requests s') x = od_get (requests s) x;
}.

Lemma free_request_spec s i :
  is_finished (objs s i) = true → mm_features (objs s i) = [] → connector s = None →
  kv_ok (kv_cache_manager s) → od_get (requests s) (rid s i) = Some i →
  ∃ s', _free_request s i false = Ok (None, s') ∧ released s i s'.
Proof.
  intros Hfin Hmm Hconn Hk Hd. unfold _free_request, _connector_finished. rewrite Hfin, Hconn. cbn [mbind res_bind].
  rewrite law_free_text by done. cbn [mbind res_bind negb orb].
  unfold _free_blocks. cbn [objs with_finished with_encoder]. rewrite Hfin.
  destruct (law_free (kv_cache_manager s) (objs s i) Hk) as (k & Ek & Hk' & Hf & Hz).
  cbn [kv_cache_manager with_finished with_encoder requests]. rewrite Ek. cbn [mbind res_bind].
  destruct (od_pop_get _ _ _ Hd) as (d & Ed & Hp & Hg). unfold rid in Ed. rewrite Ed. cbn [mbind res_bind].
  eexists. split; [done|]. by split.
Qed.

(** A request that stopped gives up its blocks. *)
Lemma finish_stopped_spec s i :
  is_finished (objs s i) = true → resumable (objs s i) = false → mm_features (objs s i) = [] →
  connector s = None → kv_ok (kv_cache_manager s) → od_get (requests s) (rid s i) = Some i →
  ∃ reason s', finish_stopped hasher now s i = Ok (reason, None, s') ∧ released s i s'.
Proof.
  intros Hfin Hres Hmm Hconn Hk Hd. unfold finish_stopped, _handle_stopped_request. rewrite Hres.
  cbn [negb mbind res_bind]. destruct (free_request_spec s i) as (s' & -> & ?); [done..|].
  by eexists _, s'.
Qed.

#[local] Abbreviation update_one := (update_one hasher now (_update_request_with_output hasher)).

(** The end of the turn: statistics, and the output with the events. *)
Definition turn_end (m : ModelRunnerOutput) (id : string) (i : Z) (stopped : bool) (toks : list Z)
    (reason : option FinishReason) (s : sched) (l : UpdateLoop (P := P)) : res (sched * UpdateLoop (P := P)) :=
  let s := match mo_num_nans_in_logits m ≫= λ d, od_get d id with
           | Some n => modify s i (λ r, with_num_nans_in_logits r n)
           | None => s
           end in
  if negb (bool_decide (toks = [])) || false || bool_decide (is_Some (None (A := P))) || stopped then
    let '(events, r) := take_request_events (objs s i) in
    let s := put s i r in
    Ok (s, mkUpdateLoop
             (ul_outputs l ++ [(client_index r,
                mkEngineOutput id toks reason (stop_reason r) events None
                  (num_cached_tokens r) (num_external_computed_tokens r) (num_nans_in_logits r))])
             (ul_spec l) (ul_running l) (ul_preempted l))
  else
    ASSERT bool_decide (id ∉ has_prompt_logprobs m);
    Ok (s, l).

Lemma turn_end_spec m id i stopped toks reason s l :
  (toks = [] → id ∉ has_prompt_logprobs m) →
  ∃ s' l', turn_end m id i stopped toks reason s l = Ok (s', l') ∧ retouched s i s'
    ∧ ul_running l' = ul_running l ∧ ul_preempted l' = ul_preempted l.
Proof.
  intros Hp. unfold turn_end. set (s1 := match _ with Some _ => _ | None => _ end).
  pose proof (nans_retouched s i (mo_num_nans_in_logits m ≫= λ d, od_get d id)) as H1'. fold s1 in H1'.
  destruct (_ || stopped) eqn:Eo.
  - pose proof (events_cosmetic (objs s1 i)) as Hc. destruct (take_request_events (objs s1 i)) as [ev r].
    eexists _, _. split; [done|]. split; [|done]. eapply retouched_trans; [done|]. by apply put_retouched.
  - rewrite bool_decide_eq_true_2; [by eexists _, _|]. apply Hp. by destruct toks.
Qed.

(** What the loop knows of the request at hand. *)
Lemma updating_at s0 m d id rest s l i :
  updating s0 m d (id :: rest) s l → WF s0 → i ∈ running s0 → rid s0 i = id →
  objs s i = objs s0 i ∧ rid s i = id ∧ live_request s id = Some i ∧ od_get (requests s) id = Some i
  ∧ req_ok (kv_cache_manager s) (cfg s) (requests s) i (objs s i) ∧ status (objs s i) = RUNNING
  ∧ kv_ok (kv_cache_manager s) ∧ kv_max_len (kv_cache_manager s) = max_model_len (cfg s).
Proof.
  intros [] Hwf0 Hi Hid.
  assert (i ∉ ul_running l) as Hin by (intros (_ & Hn & _)%up_gone0; destruct Hn; rewrite Hid; left).
  assert (i ∈ live s l) as Hlive by (apply elem_of_live; by rewrite (sq_running _ _ up_queues0)).
  assert (req_ok (kv_cache_manager s) (cfg s) (requests s) i (objs s i)) as Hreq.
  { apply (wf_req _ up_wf0 i). by apply running_all. }
  assert (status (objs s i) = RUNNING) as Hst by by apply (wf_running _ up_wf0 i).
  assert (rid s i = id) as Er by (by rewrite up_rid0).
  assert (od_get (requests s) id = Some i) as Hd by (rewrite <- Er; apply Hreq).
  split_and!; try done; [apply up_todo0; [done|rewrite Hid; left]| |apply up_wf0|apply up_wf0].
  unfold live_request. rewrite Hd. cbn. unfold is_finished. by rewrite Hst.
Qed.

Lemma row_inv m id x :
  row m id = Ok x → ∃ idx, od_index (req_id_to_index m) id = Ok idx
    ∧ (if bool_decide (sampled_token_ids m = []) then Ok [] else py_index (sampled_token_ids m) idx) = Ok x.
Proof. unfold row. intros (idx & ? & ?)%bind_Ok. eauto. Qed.

(** The request at hand stops after its last token. *)
Lemma sampled_stop s0 m d id rest s l i r toks :
  updating s0 m d (id :: rest) s l → WF s0 → connector s0 = None → i ∈ running s0 → rid s0 i = id → id ∉ rest →
  answer m d id = toks → appended (objs s i) toks r → is_finished r = true →
  ∃ reason s2, finish_stopped hasher now (put s i r) i = Ok (reason, None, s2)
    ∧ ∀ s' l', retouched s2 i s' → ul_running l' = ul_running l ++ [i] → ul_preempted l' = ul_preempted l →
        updating s0 m d rest s' l'.
Proof.
  intros Hup Hwf0 Hconn Hi Hid Hfresh Hans Hap Hfin.
  destruct (updating_at _ _ _ _ _ _ _ i Hup Hwf0 Hi Hid) as (_ & Er & _ & Hd & Hreq & _ & Hk & _).
  pose proof (law_generates _ _ (ro_kv _ _ _ _ _ Hreq)) as Hge.
  set (s1 := put s i r). assert (objs s1 i = r) as E1 by (cbn; by rewrite Z.eqb_refl).
  assert (rid s1 i = id) as Er1 by (unfold rid; rewrite E1, (appended_rid _ _ _ Hap); done).
  destruct (finish_stopped_spec s1 i) as (reason & s2 & -> & [Hsq Eo Hk2 Hf2 Hz2 Hp2 Hg2]); rewrite ?E1, ?Er1; try done.
  { rewrite (ap_resumable _ _ _ Hap). apply Hge. }
  { rewrite (ap_text _ _ _ Hap). apply Hreq. }
  { change (connector s = None). by rewrite (sq_connector _ _ (up_queues _ _ _ _ _ _ Hup)). }
  exists reason, s2. split; [done|]. intros s' l' [Rs Ro [Ra Rst _]] El Ep.
  rewrite Er1 in Hf2, Hz2, Hp2, Hg2. rewrite Eo, E1 in Ra, Rst.
  assert (same_queues s s') as Hsq' by (etrans; [|etrans; [exact Hsq|]]; [by split|rewrite Rs; by split]).
  apply (updating_leave s0 m d id rest s l s' l' i); try done; rewrite ?Er; try (by rewrite Rs).
  - intros j Hj. rewrite Ro, Eo by done. cbn. by rewrite (proj2 (Z.eqb_neq _ _)).
  - by rewrite (ap_key _ _ _ Ra), (ap_key _ _ _ Hap).
  - unfold is_finished in *. by rewrite Rst.
  - by rewrite (ap_tokens _ _ _ Ra), (ap_tokens _ _ _ Hap), app_nil_r, Hans.
Qed.

(** The request at hand goes on with more tokens. *)
Lemma sampled_stay s0 m d id rest s l i r toks s' l' :
  updating s0 m d (id :: rest) s l → WF s0 → i ∈ running s0 → rid s0 i = id → id ∉ rest →
  answer m d id = toks → appended (objs s i) toks r → status r = RUNNING → kv_request_ok (kv_cache_manager s) r →
  num_tokens r ≤ max_model_len (cfg s) → num_computed_tokens r < num_tokens r →
  retouched (put s i r) i s' → ul_running l' = ul_running l → ul_preempted l' = ul_preempted l →
  updating s0 m d rest s' l'.
Proof.
  intros Hup Hwf0 Hi Hid Hfresh Hans Hap Hst Hkv Hmax Hlt [Rs Ro [Ra Rst Rk]] El Ep.
  assert (objs (put s i r) i = r) as E1 by (cbn; by rewrite Z.eqb_refl). rewrite E1 in Ra, Rst, Rk.
  assert (num_tokens (objs s' i) = num_tokens r) as En by (by rewrite (appended_num _ _ _ Ra), zlen_nil, Z.add_0_r).
  eapply (updating_stay s0 m d id rest s l s' l' i _ toks); try done; rewrite ?En; try done.
  - intros j Hj. rewrite Ro by done. cbn. by rewrite (proj2 (Z.eqb_neq _ _)).
  - by eapply appended_trans.
  - congruence.
  - by apply Rk.
  - by rewrite (ap_computed _ _ _ Ra).
Qed.

Lemma update_one_spec s0 o m d id rest n s l i x :
  updating s0 m d (id :: rest) s l → WF s0 → connector s0 = None → i ∈ running s0 → rid s0 i = id → id ∉ rest →
  id ∈ d → 0 < n → row m id = Ok x → row_ok m (objs s0 i) x → num_computed_tokens (objs s0 i) ≤ num_tokens (objs s0 i) →
  so_scheduled_spec_decode_tokens o = [] → has_pooler_output m = [] →
  ∃ s' l', update_one o m ∅ (s, l) (id, n) = Ok (s', l') ∧ updating s0 m d rest s' l'.
Proof.
  intros Hup Hwf0 Hconn Hi Hid Hfresh Hin Hn Hrow Hok Hle Hspec Hpool.
  destruct (updating_at _ _ _ _ _ _ _ i Hup Hwf0 Hi Hid) as (Ei & Er & Hlive & Hd & Hreq & Hst & Hk & Hlen).
  assert (answer m d id = x) as Hans by (unfold answer; rewrite decide_True, Hrow by done; done).
  destruct (row_inv m id x Hrow) as (idx & Eidx & Egen).
  unfold SchedUpdate.update_one. rewrite (proj2 (Z.ltb_lt _ _)) by done.
  rewrite (bool_decide_eq_false_2 (id ∈ ∅)) by set_solver. rewrite Hlive, Eidx. cbn [mbind res_bind].
  rewrite Egen, Hspec, Hpool. cbn [mbind res_bind od_get default from_option].
  rewrite !(bool_decide_eq_true_2 ([] = [])) by done. cbn [orb mbind res_bind].
  unfold row_ok in Hok. rewrite <- Ei in Hok, Hle.
  set (upd := mkUpdateLoop (ul_outputs l) (ul_spec l)).
  destruct (Z.ltb_spec (num_computed_tokens (objs s i)) (num_tokens (objs s i))) as [Hlt|Hge].
  - destruct Hok as [-> Hlp]. rewrite bool_decide_eq_true_2, andb_false_r by done. cbn [negb mbind res_bind andb].
    destruct (turn_end_spec m id i false [] None s (upd (ul_running l) (ul_preempted l)))
      as (s' & l' & Eend & Hre & El & Ep); [intros _; by rewrite <- Er|]. exists s', l'. split; [exact Eend|].
    eapply (updating_stay s0 m d id rest s l s' l' i _ []); try done; destruct Hre as [Rs Ro [Ra Rst Rk]]; try done;
      rewrite ?(appended_num _ _ _ Ra), ?zlen_nil, ?Z.add_0_r, ?(ap_computed _ _ _ Ra); [congruence|by apply Rk, Hreq|apply Hreq|done].
  - destruct Hok as [t ->]. rewrite (bool_decide_eq_false_2 ([t] = [])) by done. cbn [negb].
    unfold _update_request_with_output.
    destruct (sampled_token (kv_cache_manager s) (objs s i) t (max_model_len (cfg s)) (ro_kv _ _ _ _ _ Hreq) Hlen)
      as (b & r & -> & Hap & Hb). cbn [mbind res_bind]. destruct b.
    + destruct (sampled_stop s0 m d id rest s l i r [t]) as (reason & s2 & -> & Hnext); try done.
      cbn [mbind res_bind]. rewrite (bool_decide_eq_true_2 (status (objs s i) = RUNNING)) by done.
      destruct (turn_end_spec m id i true [t] reason s2 (upd (ul_running l ++ [i]) (ul_preempted l)))
        as (s' & l' & Eend & Hre & El & Ep); [done|]. exists s', l'. split; [exact Eend|]. by apply Hnext.
    + destruct Hb as (Hb1 & Hb2 & Hb3). cbn [mbind res_bind andb].
      destruct (turn_end_spec m id i false [t] None (put s i r) (upd (ul_running l) (ul_preempted l)))
        as (s' & l' & Eend & Hre & El & Ep); [done|]. exists s', l'. split; [exact Eend|].
      eapply (sampled_stay s0 m d id rest s l i r [t]); try done; [congruence|].
      rewrite (appended_num _ _ _ Hap), (ap_computed _ _ _ Hap). change (zlen [t]) with 1. lia.
Qed.

(** ** The loop and what follows it *)

(** A request that was aborted in the meantime is skipped. *)
Lemma updating_skip s0 o m d id rest n s l :
  updating s0 m d (id :: rest) s l → od_get (requests s0) id = None → (∀ i, i ∈ running s0 → rid s0 i ≠ id) → 0 < n →
  update_one o m ∅ (s, l) (id, n) = Ok (s, l) ∧ updating s0 m d rest s l.
Proof.
  intros [] Hd Hno Hn. assert (∀ i, i ∈ running s0 → rid s0 i ∉ rest → rid s0 i ∉ id :: rest) as Hrest.
  { intros i Hi Hr. apply not_elem_of_cons. auto. }
  split.
  - unfold SchedUpdate.update_one. rewrite (proj2 (Z.ltb_lt _ _)) by done.
    rewrite (bool_decide_eq_false_2 (id ∈ ∅)) by set_solver. unfold live_request.
    destruct (od_get (requests s) id) as [i|] eqn:Ei; [|done]. apply up_known0 in Ei. congruence.
  - split; try done.
    + intros i Hi. destruct (up_gone0 i Hi) as (? & [? ?]%not_elem_of_cons & ?). done.
    + intros i Hi Hr. apply up_todo0; [done|by right].
    + intros i Hi Hr. apply up_pending0; [done|]. apply elem_of_live in Hi as [Hi _].
      rewrite (sq_running _ _ up_queues0) in Hi. auto.
    + intros i Hi Hr. apply up_tokens0; auto.
Qed.

Lemma update_loop_spec s0 o m d todo s l :
  updating s0 m d todo.*1 s l → WF s0 → connector s0 = None → NoDup todo.*1 →
  (∀ id n, (id, n) ∈ todo → 0 < n ∧ id ∈ d
     ∧ ((od_get (requests s0) id = None ∧ ∀ i, i ∈ running s0 → rid s0 i ≠ id)
        ∨ ∃ i, i ∈ running s0 ∧ rid s0 i = id ∧ num_computed_tokens (objs s0 i) ≤ num_tokens (objs s0 i)
            ∧ ∃ x, row m id = Ok x ∧ row_ok m (objs s0 i) x)) →
  so_scheduled_spec_decode_tokens o = [] → has_pooler_output m = [] →
  ∃ s' l', rfold (update_one o m ∅) (s, l) todo = Ok (s', l') ∧ updating s0 m d [] s' l'.
Proof.
  intros Hup Hwf0 Hconn Hnd Htodo Hspec Hpool. revert s l Hup Hnd Htodo.
  induction todo as [|[id n] todo IH]; intros s l Hup Hnd Htodo; [by exists s, l|].
  cbn [fmap list_fmap fst] in Hup, Hnd. apply NoDup_cons in Hnd as [Hfresh Hnd].
  assert (∃ s1 l1, update_one o m ∅ (s, l) (id, n) = Ok (s1, l1) ∧ updating s0 m d todo.*1 s1 l1) as (s1 & l1 & E1 & Hup1).
  { destruct (Htodo id n ltac:(left)) as (Hn & Hd & [[Hu Hno]|(i & Hi & Hid & Hle & x & Hrow & Hok)]).
    - exists s, l. by apply updating_skip.
    - by apply (update_one_spec s0 o m d id todo.*1 n s l i x). }
  cbn [rfold]. rewrite E1. cbn [mbind res_bind]. apply IH; [done..|]. intros id' n' Hin. apply Htodo. by right.
Qed.

(** Nothing but the manager's records and the outputs differs. *)
Record settled (s s' : sched) : Prop := {
  st_wf : WF s';
  st_queues : same_queues s s';
  st_objs : objs s' = objs s;
  st_requests : requests s' = requests s;
}.

Lemma settled_refl s : WF s → settled s s.
Proof. by split. Qed.

Lemma settled_trans s1 s2 s3 : settled s1 s2 → settled s2 s3 → settled s1 s3.
Proof. intros [] []. split; [done|by etrans|congruence..]. Qed.

Lemma make_stats_spec s d : WF s → ∃ st s', make_stats s d = Ok (st, s') ∧ settled s s'.
Proof.
  intros Hwf. unfold make_stats. destruct (log_stats (cfg s)) eqn:El; cbn [negb].
  2: { eexists _, _. split; [done|by apply settled_refl]. }
  destruct (law_stats (kv_cache_manager s) (wf_kv s Hwf)) as (Hk1 & Hq1 & Hsome).
  rewrite <- (wf_logs s Hwf) in El. specialize (Hsome El).
  destruct (kv_make_prefix_cache_stats (kv_cache_manager s)) as [p k1]. destruct Hsome as [st Est].
  cbn in Est, Hk1, Hq1. subst p. destruct (law_drain k1 Hk1) as [Hk2 Hq2].
  destruct (kv_drain_eviction_events k1) as [ev k2]. cbn in Hk2, Hq2. eexists _, _. split; [done|].
  assert (WF (with_kv s k2)) as Hwf2 by (apply WF_quiet; [done..|by etrans]).
  split; try done. by apply (WF_ext (with_kv s k2)).
Qed.

(** The known requests are those in the queues. *)
Record registered (s : sched) : Prop := {
  rg_keys : NoDup (requests s).*1;
  rg_known : ∀ id i, od_get (requests s) id = Some i → i ∈ all_ids s ∧ rid s i = id;
}.

(** The step [o] was scheduled and awaits the model's output; some of its
    requests may have been aborted since. *)
Record outstanding (o : SchedulerOutput) (s : sched) : Prop := {
  os_wf : WF s;
  os_cfg : cfg_ok (cfg s);
  os_registered : registered s;
  os_connector : connector s = None;
  os_running : zlen (running s) ≤ max_num_running_reqs (cfg s);
  os_keys : NoDup (so_num_scheduled_tokens o).*1;
  os_positive : ∀ id n, (id, n) ∈ so_num_scheduled_tokens o → 0 < n;
  os_queued : ∀ i, i ∈ queued s → rid s i ∉ (so_num_scheduled_tokens o).*1;
  os_prev : ∀ i, i ∈ queued s → rid s i ∉ prev_step_scheduled_req_ids s;
  os_pending : ∀ i, i ∈ running s → rid s i ∉ (so_num_scheduled_tokens o).*1 → pending (cfg s) (objs s i);
  os_within : ∀ i, i ∈ running s → rid s i ∈ (so_num_scheduled_tokens o).*1 →
    num_computed_tokens (objs s i) ≤ num_tokens (objs s i);
  os_drafts : so_scheduled_spec_decode_tokens o = [];
}.

Lemma scheduled_registered s o s1 : registered s → scheduled_step s o s1 → registered s1.
Proof.
  intros [Hk Hg] Hs. split; rewrite (ss_requests _ _ _ Hs); [done|]. intros id i Hi. destruct (Hg id i Hi) as [Hin Hid].
  assert (i ∈ all_ids s1) as Hin1 by (by rewrite (ss_all _ _ _ Hs)). split; [done|].
  pose proof (ro_dict _ _ _ _ _ (wf_req s1 (ss_wf _ _ _ Hs) i Hin1)) as Hd. rewrite (ss_requests _ _ _ Hs) in Hd.
  destruct (Hg _ i Hd) as [_ Hd']. unfold rid in *. congruence.
Qed.

Lemma scheduled_outstanding s o s1 :
  cfg_ok (cfg s) → num_spec_tokens (cfg s) = 0 → registered s → scheduled_step s o s1 → outstanding o s1.
Proof.
  intros Hcfg Hspec Hreg Hs. pose proof (scheduled_registered s o s1 Hreg Hs) as Hreg1. destruct Hs.
  split; rewrite ?ss_cfg; try done; auto.
  - intros id n Hin. destruct (ss_given id n Hin) as (i & _ & _ & ? & _). done.
  - intros i Hi ([id n] & Ei & Hin)%list_elem_of_fmap. destruct (ss_given id n Hin) as (j & Hj & Hid & _).
    apply (not_running s1 i ss_wf Hi). replace i with j; [done|].
    apply (rid_inj s1); [done|by apply running_all|by apply waiting_all|]. by rewrite Hid, Ei.
  - by rewrite <- ss_cfg.
  - intros i Hi Hk. specialize (ss_within Hspec i Hi Hk).
    pose proof (law_generates _ _ (ro_kv _ _ _ _ _ (wf_req s1 ss_wf i (running_all s1 i Hi)))) as Hge.
    pose proof (ge_sync _ _ Hge). lia.
Qed.

(** What [update_from_output] promises. *)
Record output_processed (s : sched) (o : SchedulerOutput) (m : ModelRunnerOutput) (s' : sched) : Prop := {
  op_ready : Ready s';
  op_registered : registered s';
  op_left : ∃ gone, all_ids s ≡ₚ gone ++ all_ids s' ∧ ∀ i, i ∈ gone → is_finished (objs s' i) = true;
  op_tokens : ∀ i, i ∈ all_ids s →
    all_token_ids (objs s' i) = all_token_ids (objs s i) ++ answer m (so_num_scheduled_tokens o).*1 (rid s i);
  op_cfg : cfg s' = cfg s;
  op_rid : ∀ i, rid s' i = rid s i;
  op_prev : prev_step_scheduled_req_ids s' = prev_step_scheduled_req_ids s;
  op_pause : pause_state s' = pause_state s;
}.

(** The state before the first turn. *)
Lemma updating_start o s1 m :
  outstanding o s1 →
  let d := (so_num_scheduled_tokens o).*1 in updating s1 m d d s1 (mkUpdateLoop [] None [] []).
Proof.
  intros [] d. assert (live s1 (mkUpdateLoop [] None [] []) = running s1) as El.
  { unfold live. cbn. apply list_filter_all, Forall_forall. intros i _. apply not_elem_of_nil. }
  split; rewrite ?El; try done.
  - by apply (WF_ext s1).
  - by intros i ?%elem_of_nil.
  - intros i _ Hi. unfold answer. by rewrite decide_False, app_nil_r.
  - apply os_registered0.
  - by intros i ?%elem_of_nil.
Qed.

(** The state after the last turn. *)
Lemma updating_end o s1 m s2 l s3 :
  outstanding o s1 →
  updating s1 m (so_num_scheduled_tokens o).*1 [] s2 l → settled (with_running s2 (live s2 l)) s3 →
  output_processed s1 o m s3.
Proof.
  intros [] [] [Hwf Hsq Eo Eq]. cbn in Eo, Eq. destruct os_registered0 as [rg_keys0 rg_known0]. pose proof (not_elem_of_nil (A := string)) as Hnil.
  assert (cfg s3 = cfg s1 ∧ connector s3 = connector s1 ∧ pause_state s3 = pause_state s1
    ∧ prev_step_scheduled_req_ids s3 = prev_step_scheduled_req_ids s1 ∧ queued s3 = queued s1 ∧ running s3 = live s2 l)
    as (E1 & E2 & E3 & E4 & Equ & Er).
  { destruct up_queues0, Hsq. unfold queued. cbn in *. split_and!; congruence. }
  assert (∀ i, rid s3 i = rid s1 i) as Hrid by (intros i; unfold rid; rewrite Eo; apply up_rid0).
  set (gone := filter (λ i, i ∈ ul_running l) (running s1)).
  assert (running s1 ≡ₚ gone ++ live s2 l) as Hrun.
  { unfold gone, live. rewrite (sq_running _ _ up_queues0). symmetry. apply filter_app_complement. }
  assert (all_ids s1 ≡ₚ gone ++ all_ids s3) as Hall.
  { unfold all_ids. fold (queued s1) (queued s3). by rewrite Er, Equ, Hrun, app_assoc. }
  assert (∀ i, i ∈ gone → i ∈ ul_running l) as Hgone by (intros i [? _]%list_elem_of_filter; done).
  split; try done.
  - split; rewrite ?E1, ?E2, ?E4; try done.
    + pose proof (Permutation_length Hrun) as Hl. rewrite length_app in Hl. unfold zlen in *. rewrite Er. lia.
    + intros i. rewrite Er, Eo. intros Hi. by apply up_pending0.
    + intros i. rewrite Equ, Hrid. apply os_prev0.
  - split; rewrite Eq; [done|]. intros id i Hi. destruct (rg_known0 id i (up_known0 id i Hi)) as [Hin Hr].
    split; [|by rewrite Hrid]. rewrite Hall in Hin. apply elem_of_app in Hin as [Hin%Hgone%up_dropped0|]; [|done].
    rewrite Hr in Hin. congruence.
  - exists gone. split; [done|]. intros i Hi%Hgone. rewrite Eo. by apply up_gone0.
  - intros i Hi. rewrite Eo. destruct (decide (i ∈ running s1)) as [Hr|Hr]; [by apply up_tokens0|].
    rewrite up_others0 by done. unfold answer. rewrite decide_False, app_nil_r; [done|].
    apply os_queued0. unfold all_ids in Hi. apply elem_of_app in Hi as [?|?]; done.
Qed.

(** The turns ahead: a scheduled request is running, or it was aborted. *)
Lemma outstanding_todo o s1 m id n :
  outstanding o s1 → model_answers s1 o m → (id, n) ∈ so_num_scheduled_tokens o →
  0 < n ∧ id ∈ (so_num_scheduled_tokens o).*1
  ∧ ((od_get (requests s1) id = None ∧ ∀ i, i ∈ running s1 → rid s1 i ≠ id)
     ∨ ∃ i, i ∈ running s1 ∧ rid s1 i = id ∧ num_computed_tokens (objs s1 i) ≤ num_tokens (objs s1 i)
         ∧ ∃ x, row m id = Ok x ∧ row_ok m (objs s1 i) x).
Proof.
  intros [] [_ _ Hrows] Hin.
  assert (id ∈ (so_num_scheduled_tokens o).*1) as Hk by (apply list_elem_of_fmap; by exists (id, n)).
  split; [by eapply os_positive0|]. split; [done|]. destruct (od_get (requests s1) id) as [i|] eqn:Ed.
  - right. destruct (rg_known s1 os_registered0 id i Ed) as [Hi <-]. exists i.
    assert (i ∈ running s1) as Hr.
    { unfold all_ids in Hi. apply elem_of_app in Hi as [?|Hq]; [done|]. by destruct (os_queued0 i Hq). }
    auto.
  - left. split; [done|]. intros i Hi Hid.
    pose proof (ro_dict _ _ _ _ _ (wf_req s1 os_wf0 i (running_all s1 i Hi))) as Hd. unfold rid in Hid. congruence.
Qed.

Lemma update_from_output_spec o s1 m :
  outstanding o s1 → model_answers s1 o m →
  ∃ outs evs s2, update_from_output hasher now (_update_request_with_output hasher) s1 o m = Ok (outs, evs, s2)
    ∧ output_processed s1 o m s2.
Proof.
  intros Hos Hma. pose proof (os_wf _ _ Hos) as Hwf1.
  unfold update_from_output. rewrite (ma_transfers _ _ _ Hma). cbn [mbind res_bind].
  destruct (update_loop_spec s1 o m (so_num_scheduled_tokens o).*1 (so_num_scheduled_tokens o) s1 (mkUpdateLoop [] None [] []))
    as (s2 & l & -> & Hup); try done; [by apply updating_start|apply Hos|apply Hos| |apply Hos|apply Hma|].
  { intros id n. by apply outstanding_todo. }
  cbn [mbind res_bind]. rewrite (up_preempted _ _ _ _ _ _ Hup), (bool_decide_eq_true_2 ([] = [])) by done.
  rewrite bool_decide_eq_true_2 by done. cbn [negb andb mbind res_bind].
  assert (NoDup (running s2)) as Hnd.
  { rewrite (sq_running _ _ (up_queues _ _ _ _ _ _ Hup)). pose proof (wf_nodup s1 Hwf1) as Hn. by apply NoDup_app in Hn as [? _]. }
  assert (remove_all (running s2) (list_to_set (ul_running l)) = live s2 l) as ->.
  { rewrite remove_all_filters by done. apply list_filter_iff. intros i. by rewrite elem_of_list_to_set. }
  pose proof (up_wf _ _ _ _ _ _ Hup) as Hwf3. set (s3 := with_running s2 (live s2 l)) in *.
  destruct (law_take_events (kv_cache_manager s3) (wf_kv _ Hwf3)) as [Hk Hq].
  destruct (kv_take_events (kv_cache_manager s3)) as [evs k]. cbn [snd] in Hk, Hq.
  pose proof (WF_quiet s3 k Hwf3 Hk Hq) as Hwf4.
  assert (connector (with_kv s3 k) = None) as ->.
  { change (connector s2 = None). rewrite (sq_connector _ _ (up_queues _ _ _ _ _ _ Hup)). apply Hos. }
  set (fin := match finished_req_ids_dict _ with Some _ => _ | None => _ end).
  assert (settled s3 fin.2) as Hfin.
  { unfold fin. destruct (finished_req_ids_dict _); split; try done. by apply (WF_ext (with_kv s3 k)). }
  destruct fin as [outs s4]. destruct (make_stats_spec s4 (ul_spec l) (st_wf _ _ Hfin)) as (st & s5 & -> & Hst).
  cbn [mbind res_bind]. eexists _, _, s5. split; [done|]. eapply updating_end; [done..|]. by eapply settled_trans.
Qed.

End generation.
