(* ===== verification/Abort.v ===== *)
(** * Finishing requests from outside

    [Scheduler.finish_requests], which clients use to abort requests: whatever
    their state, the requests named leave the running list or their queue and
    give up their slots, and the scheduler stays ready. *)

From Stdlib Require Import String.
From S2P Require Import Prelude Request BlockHash KVCacheManager EncoderCache RequestQueue SchedUtils.
From S2P Require Import Scheduler Schedule SchedUpdate SchedLaws SchedWF Preemption RunningLoop WaitingLoop.
From S2P Require Import StepProps StepOutput Admission Generation.
#[local] Open Scope Z_scope.

Section abort.
Context {K E W C EC P : Type}.
Context `{KVManagerLaws K} `{EncoderTextLaws E} `{QueueImplLaws W} `{KVConnector C P} `{ECConnector EC}.
#[local] Abbreviation sched := (Scheduler K E W C EC).
Implicit Types (s : sched).

(** ** The first pass *)

Lemma collect_spec s l :
  ∃ n, collect_requests s l =
    let valid := omap (live_request s) l in
    (filter (λ i, status (objs s i) = RUNNING) valid, filter (λ i, status (objs s i) ≠ RUNNING) valid, valid, n).
Proof.
  induction l as [|id l (n & IH)]; [by eexists|]. cbn. rewrite IH. cbn zeta.
  destruct (live_request s id) as [i|]; [|by exists n].
  destruct (decide (status (objs s i) = RUNNING)) as [Hr|Hr].
  - rewrite bool_decide_eq_true_2, !filter_cons, decide_True, decide_False by (done || tauto). by eexists.
  - rewrite bool_decide_eq_false_2, !filter_cons, decide_False, decide_True by done. by eexists.
Qed.

(** The requests named are known and in a queue. *)
Lemma live_known s id i :
  registered s → live_request s id = Some i → i ∈ all_ids s ∧ rid s i = id ∧ od_get (requests s) id = Some i.
Proof.
  intros Hg. unfold live_request. destruct (od_get (requests s) id) as [j|] eqn:Ed; [|done]. cbn.
  destruct (is_finished _); [done|]. intros [= ->]. destruct (rg_known s Hg id i Ed). done.
Qed.

Lemma valid_nodup s l : registered s → NoDup l → NoDup (omap (live_request s) l).
Proof.
  intros Hg. induction 1 as [|id l Hid _ IH]; cbn; [constructor|].
  destruct (live_request s id) as [i|] eqn:Ei; [|done]. apply NoDup_cons. split; [|done].
  intros (id' & Hin & Ei')%list_elem_of_omap. apply Hid. replace id with id'; [done|].
  destruct (live_known s id i Hg Ei) as (_ & <- & _), (live_known s id' i Hg Ei') as (_ & <- & _). done.
Qed.

(** ** Leaving the queues *)

Lemma WF_shrink s s' :
  WF s → objs s' = objs s → kv_cache_manager s' = kv_cache_manager s → cfg s' = cfg s → requests s' = requests s →
  (∀ i, i ∈ running s' → i ∈ running s) → (∀ i, i ∈ ids (waiting_q s') → i ∈ ids (waiting_q s)) →
  (∀ i, i ∈ ids (skipped_waiting s') → i ∈ ids (skipped_waiting s)) → NoDup (all_ids s') →
  q_ok s (waiting_q s') → q_ok s (skipped_waiting s') → WF s'.
Proof.
  intros [] Eo Ek Ec Er Hr Hw Hs Hnd Hq1 Hq2.
  assert (∀ i, i ∈ all_ids s' → i ∈ all_ids s) as Ha.
  { intros i. unfold all_ids. rewrite !elem_of_app. naive_solver. }
  split; rewrite ?Eo, ?Ek, ?Ec, ?Er; auto.
  - intros i. rewrite Eo. apply wf_objs.
  - intros i Hi. apply wf_idle. rewrite elem_of_app in *. naive_solver.
  - unfold q_ok, current. by rewrite Eo.
  - unfold q_ok, current. by rewrite Eo.
Qed.

Lemma WF_released s i s' :
  WF s → i ∉ all_ids s → od_get (requests s) (rid s i) = Some i → released s i s' → WF s'.
Proof.
  intros Hwf Hi Hd []. apply (WF_ext (with_requests (put (with_kv s (kv_cache_manager s')) i (objs s i)) (requests s')));
    try done; try apply rl_queues.
  - apply WF_leave; try done. apply Hwf.
  - intros j. rewrite rl_objs. cbn. by destruct (Z.eqb_spec j i) as [->|].
Qed.

(** ** The second pass *)

(** The requests [todo] have left the queues and are about to be released. *)
Record leaving (s : sched) (todo : list Z) : Prop := {
  lv_wf : WF s;
  lv_connector : connector s = None;
  lv_nodup : NoDup todo;
  lv_out : ∀ i, i ∈ todo → i ∉ all_ids s;
  lv_dict : ∀ i, i ∈ todo → od_get (requests s) (rid s i) = Some i;
  lv_text : ∀ i, i ∈ todo → mm_features (objs s i) = [];
  lv_local : ∀ i, i ∈ todo → status (objs s i) ≠ WAITING_FOR_REMOTE_KVS;
}.

(** What releasing the requests [l] changes. *)
Record finished_all (st : RequestStatus) (s : sched) (l : list Z) (s' : sched) : Prop := {
  fa_wf : WF s';
  fa_queues : same_queues s s';
  fa_rid : ∀ i, rid s' i = rid s i;
  fa_others : ∀ i, i ∉ l → objs s' i = objs s i;
  fa_status : ∀ i, i ∈ l → status (objs s' i) = st;
  fa_requests : requests s ≡ₚ ((λ i, (rid s i, i)) <$> l) ++ requests s';
}.

Lemma finish_one_spec st s i todo :
  status_is_finished st = true → leaving s (i :: todo) →
  ∃ s', finish_one st s i = Ok s' ∧ leaving s' todo ∧ finished_all st s [i] s'.
Proof.
  intros Hst [Hwf Hconn Hnd Hout Hd Hmm Hlocal]. apply NoDup_cons in Hnd as [Hi Hnd].
  unfold finish_one. rewrite bool_decide_eq_false_2 by (apply Hlocal; left).
  set (s1 := modify s i _). assert (objs s1 i = with_status (objs s i) st) as E1 by (cbn; by rewrite Z.eqb_refl).
  assert (∀ j, j ≠ i → objs s1 j = objs s j) as Ho by (intros j Hj; cbn; by rewrite (proj2 (Z.eqb_neq _ _))).
  assert (∀ j, rid s1 j = rid s j) as Hr1.
  { intros j. unfold rid. destruct (decide (j = i)) as [->|]; [by rewrite E1|by rewrite Ho]. }
  destruct (free_request_spec s1 i) as (s2 & -> & Hrel); rewrite ?E1, ?Hr1; try done.
  { apply Hmm. left. }
  { apply Hwf. }
  { apply (Hd i). left. }
  cbn [mbind res_bind]. exists s2. split; [done|].
  assert (i ∉ all_ids s1) as Hx by (apply Hout; left).
  assert (WF s1) as Hwf1 by (apply WF_place; [done|apply Hx|apply Hwf]).
  assert (WF s2) as Hwf2 by (eapply WF_released; [exact Hwf1|done|rewrite Hr1; apply Hd; left|done]).
  destruct Hrel as [Q1 Q2 Q3 Q4 Q5 Q6 Q7]. rewrite Hr1 in Q6, Q7. cbn in Q6, Q7.
  assert (same_queues s s2) as Hsq by (etrans; [|exact Q1]; by split).
  assert (∀ j, rid s2 j = rid s j) as Hr2 by (intros j; rewrite <- Hr1; unfold rid; by rewrite Q2).
  assert (all_ids s2 = all_ids s) as Ea by (destruct Hsq; unfold all_ids; congruence).
  assert (∀ j, j ∈ todo → j ≠ i) as Hne by (intros j Hj ->; done).
  split; [split|split]; try done.
  - by rewrite (sq_connector _ _ Hsq).
  - intros j Hj. rewrite Ea. apply Hout. by right.
  - intros j Hj. rewrite Hr2, Q7; [apply Hd; by right|]. intros Eq. apply (Hne j Hj).
    pose proof (Hd j ltac:(by right)) as D1. pose proof (Hd i ltac:(left)) as D2. congruence.
  - intros j Hj. rewrite Q2, Ho by auto. apply Hmm. by right.
  - intros j Hj. rewrite Q2, Ho by auto. apply Hlocal. by right.
  - intros j Hj. rewrite Q2, Ho by set_solver. done.
  - intros j ->%list_elem_of_singleton. by rewrite Q2, E1.
Qed.

Lemma finish_all_spec st s l :
  status_is_finished st = true → leaving s l → ∃ s', rfold (finish_one st) s l = Ok s' ∧ finished_all st s l s'.
Proof.
  intros Hst. revert s. induction l as [|i l IH]; intros s Hl.
  - exists s. split; [done|]. split; try done; [apply Hl|by intros i ?%elem_of_nil].
  - destruct (finish_one_spec st s i l Hst Hl) as (s1 & E1 & Hl1 & [A1 A2 A3 A4 A5 A6]). cbn [rfold]. rewrite E1. cbn [mbind res_bind].
    destruct (IH s1 Hl1) as (s' & E2 & [B1 B2 B3 B4 B5 B6]). exists s'. split; [done|].
    pose proof (lv_nodup _ _ Hl) as Hnd. apply NoDup_cons in Hnd as [Hi _].
    split; [done|by etrans|..].
    + intros j. by rewrite B3.
    + intros j [? ?]%not_elem_of_cons. rewrite B4, A4; set_solver.
    + intros j [->|Hj]%elem_of_cons; [|auto]. rewrite B4 by done. apply A5. by left.
    + assert ((λ j, (rid s1 j, j)) <$> l = (λ j, (rid s j, j)) <$> l) as El
        by (apply list_fmap_ext; intros ? j _; by rewrite A3).
      by rewrite A6, B6, El.
Qed.

(** ** The whole method *)

(** The requests that [finish_requests] is asked to finish. *)
Definition named (s : sched) (request_ids : option (list string)) : list Z :=
  omap (live_request s) (match request_ids with Some l => l | None => (requests s).*1 end).

(** What [finish_requests] promises. *)
Record aborted (st : RequestStatus) (s : sched) (l : list Z) (s' : sched) : Prop := {
  ab_wf : WF s';
  ab_registered : registered s';
  ab_all : all_ids s ≡ₚ l ++ all_ids s';
  ab_status : ∀ i, i ∈ l → status (objs s' i) = st;
  ab_others : ∀ i, i ∈ all_ids s' → objs s' i = objs s i;
  ab_rid : ∀ i, rid s' i = rid s i;
  ab_unknown : ∀ i, i ∈ l → od_get (requests s') (rid s i) = None;
  ab_running : ∀ i, i ∈ running s' → i ∈ running s;
  ab_length : zlen (running s') ≤ zlen (running s);
  ab_queued : ∀ i, i ∈ queued s' → i ∈ queued s;
  ab_cfg : cfg s' = cfg s;
  ab_connector : connector s' = connector s;
  ab_prev : prev_step_scheduled_req_ids s' = prev_step_scheduled_req_ids s;
}.

Lemma named_spec s request_ids :
  registered s → (∀ l, request_ids = Some l → NoDup l) →
  NoDup (named s request_ids)
  ∧ ∀ i, i ∈ named s request_ids → i ∈ all_ids s ∧ od_get (requests s) (rid s i) = Some i.
Proof.
  intros Hg Hnd. unfold named. split.
  - apply valid_nodup; [done|]. destruct request_ids as [l|]; [by apply Hnd|apply Hg].
  - intros i (id & _ & Hi)%list_elem_of_omap. destruct (live_known s id i Hg Hi) as (? & -> & ?). done.
Qed.

(** A list and what remains without it. *)
Lemma split_off (l all : list Z) :
  NoDup l → NoDup all → (∀ i, i ∈ l → i ∈ all) → all ≡ₚ l ++ filter (λ i, i ∉ l) all.
Proof.
  intros Hl Ha Hin. rewrite <- (filter_app_complement (λ i, i ∈ l) all) at 1. f_equiv.
  apply NoDup_Permutation; [by apply NoDup_filter|done|]. intros i. rewrite list_elem_of_filter. naive_solver.
Qed.

Lemma remove_queues s wait :
  objs_ok s → q_ok s (waiting_q s) → q_ok s (skipped_waiting s) →
  ∃ q1 q2, (if bool_decide (wait = []) then Ok s else
            q1 ← q_remove_all s (waiting_q s) wait;
            let s := with_waiting s q1 in
            with_skipped s <$> q_remove_all s (skipped_waiting s) wait) = Ok (with_skipped (with_waiting s q1) q2)
    ∧ q_ok s q1 ∧ q_ok s q2 ∧ ids q1 ≡ₚ filter (λ i, i ∉ wait) (ids (waiting_q s))
    ∧ ids q2 ≡ₚ filter (λ i, i ∉ wait) (ids (skipped_waiting s)).
Proof.
  intros Ho Hw Hs. case_bool_decide as Ew.
  - exists (waiting_q s), (skipped_waiting s). subst wait. split; [by destruct s|]. split; [done|]. split; [done|].
    by rewrite !list_filter_all by (apply Forall_forall; intros; apply not_elem_of_nil).
  - destruct (q_remove_all_spec s (waiting_q s) wait Ho Hw) as (q1 & -> & Hq1 & Hi1). cbn [mbind res_bind].
    destruct (q_remove_all_spec (with_waiting s q1) (skipped_waiting s) wait Ho Hs) as (q2 & E2 & Hq2 & Hi2).
    cbn [skipped_waiting with_waiting] in E2 |- *. rewrite E2. by exists q1, q2.
Qed.

(** Where a request of a given status is. *)
Lemma status_running s i : WF s → i ∈ all_ids s → (status (objs s i) = RUNNING ↔ i ∈ running s).
Proof.
  intros [] Hi. split; [|by apply wf_running]. intros Hs. unfold all_ids in Hi. rewrite !elem_of_app in Hi.
  destruct Hi as [?|[Hi|Hi]]; [done|destruct (wf_waiting i Hi); congruence|].
  specialize (wf_skipped i Hi). unfold skipped_ok in wf_skipped. by rewrite Hs in wf_skipped.
Qed.

Lemma status_local s i : WF s → i ∈ all_ids s → status (objs s i) ≠ WAITING_FOR_REMOTE_KVS.
Proof.
  intros [] Hi Hs. unfold all_ids in Hi. rewrite !elem_of_app in Hi.
  destruct Hi as [Hi|[Hi|Hi]]; [specialize (wf_running i Hi); congruence|destruct (wf_waiting i Hi); congruence|].
  specialize (wf_skipped i Hi). unfold skipped_ok in wf_skipped. by rewrite Hs in wf_skipped.
Qed.

(** The named requests leave the running list and the queues. *)
Lemma leave_queues s l n :
  WF s → NoDup l → (∀ i, i ∈ l → i ∈ all_ids s ∧ od_get (requests s) (rid s i) = Some i) → connector s = None →
  let run := filter (λ i, status (objs s i) = RUNNING) l in
  let wait := filter (λ i, status (objs s i) ≠ RUNNING) l in
  let s1 := with_running (with_streaming_count s n) (remove_all (running s) (list_to_set run)) in
  ∃ s2, (if bool_decide (wait = []) then Ok s1 else
         q1 ← q_remove_all s1 (waiting_q s1) wait;
         let s := with_waiting s1 q1 in
         with_skipped s <$> q_remove_all s (skipped_waiting s) wait) = Ok s2
    ∧ leaving s2 l ∧ all_ids s ≡ₚ l ++ all_ids s2 ∧ objs s2 = objs s ∧ requests s2 = requests s ∧ cfg s2 = cfg s
    ∧ prev_step_scheduled_req_ids s2 = prev_step_scheduled_req_ids s
    ∧ (∀ i, i ∈ running s2 → i ∈ running s) ∧ zlen (running s2) ≤ zlen (running s)
    ∧ (∀ i, i ∈ queued s2 → i ∈ queued s).
Proof.
  intros Hwf Hnd Hin Hconn run wait s1.
  assert (NoDup (running s)) as Hnr by (pose proof (wf_nodup s Hwf) as Hn; by apply NoDup_app in Hn as [? _]).
  assert (∀ i, i ∈ all_ids s → (i ∈ run ↔ i ∈ running s ∧ i ∈ l) ∧ (i ∈ wait ↔ (i ∉ running s) ∧ i ∈ l)) as Hcase.
  { intros i Hi. unfold run, wait. rewrite !list_elem_of_filter, (status_running s i Hwf Hi). tauto. }
  destruct (remove_queues s1 wait (wf_objs s Hwf) (wf_wq s Hwf) (wf_sq s Hwf)) as (q1 & q2 & E2 & Hq1 & Hq2 & Hi1 & Hi2).
  set (s2 := with_skipped (with_waiting s1 q1) q2) in *. exists s2. split; [exact E2|].
  cbn [waiting_q skipped_waiting s1 with_running with_streaming_count] in Hi1, Hi2.
  assert (running s2 = filter (λ i, i ∉ l) (running s)) as Er.
  { cbn. rewrite remove_all_filters by done. apply list_filter_iff'. intros i Hi. rewrite elem_of_list_to_set.
    rewrite (proj1 (Hcase i (running_all s i Hi))). tauto. }
  assert (∀ i, i ∈ queued s → (i ∉ wait ↔ i ∉ l)) as Hq.
  { intros i Hi. rewrite (proj2 (Hcase i (waiting_all s i Hi))). pose proof (not_running s i Hwf Hi). tauto. }
  assert (all_ids s2 ≡ₚ filter (λ i, i ∉ l) (all_ids s)) as Ha.
  { unfold all_ids. rewrite Er, !filter_app. cbn. rewrite Hi1, Hi2. f_equiv. apply reflexive_eq.
    f_equal; apply list_filter_iff'; intros i Hi; apply Hq; unfold queued; set_solver. }
  assert (NoDup (all_ids s2)) as Hnd2 by (rewrite Ha; apply NoDup_filter, Hwf).
  assert (∀ i, i ∈ ids q1 → i ∈ ids (waiting_q s)) as Hs1 by (intros i; rewrite Hi1, list_elem_of_filter; tauto).
  assert (∀ i, i ∈ ids q2 → i ∈ ids (skipped_waiting s)) as Hs2 by (intros i; rewrite Hi2, list_elem_of_filter; tauto).
  assert (∀ i, i ∈ running s2 → i ∈ running s) as Hs3 by (intros i; rewrite Er, list_elem_of_filter; tauto).
  split_and!; try done.
  - split; try done.
    + by apply (WF_shrink s).
    + intros i Hi. rewrite Ha, list_elem_of_filter. tauto.
    + intros i Hi. apply (Hin i Hi).
    + intros i Hi. apply (wf_req s Hwf i), (Hin i Hi).
    + intros i Hi. apply (status_local s i); [done|apply (Hin i Hi)].
  - rewrite Ha. apply split_off; [done|apply Hwf|]. intros i Hi. apply (Hin i Hi).
  - rewrite Er. unfold zlen. pose proof (length_filter (λ i, i ∉ l) (running s)). lia.
  - intros i. unfold queued. cbn. rewrite !elem_of_app. naive_solver.
Qed.

(** The table after the requests [l] were forgotten. *)
Lemma registered_without s l s' :
  registered s → requests s ≡ₚ ((λ i, (rid s i, i)) <$> l) ++ requests s' → all_ids s ≡ₚ l ++ all_ids s' →
  (∀ i, rid s' i = rid s i) → registered s' ∧ ∀ i, i ∈ l → od_get (requests s') (rid s i) = None.
Proof.
  intros [Hk Hg] Hp Ha Hr. pose proof Hk as Hk'. rewrite Hp, fmap_app in Hk'.
  apply NoDup_app in Hk' as (_ & Hout & Hk'). rewrite <- list_fmap_compose in Hout.
  assert (∀ i, i ∈ l → rid s i ∉ (requests s').*1) as Hn.
  { intros i Hi. apply Hout. apply list_elem_of_fmap. by exists i. }
  split; [split; [done|]|intros i Hi; apply od_get_None; by apply Hn].
  intros id i Hi%od_get_elem. destruct (Hg id i) as [Hin Hid].
  { apply od_get_nodup; [done|]. rewrite Hp. set_solver. }
  split; [|by rewrite Hr]. rewrite Ha in Hin. apply elem_of_app in Hin as [Hl|]; [|done].
  destruct (Hn i Hl). rewrite Hid. apply list_elem_of_fmap. by exists (id, i).
Qed.

Lemma finish_requests_spec st s request_ids :
  status_is_finished st = true → WF s → connector s = None → registered s →
  (∀ l, request_ids = Some l → NoDup l) →
  ∃ outs s', finish_requests s request_ids st = Ok (outs, s') ∧ aborted st s (named s request_ids) s'.
Proof.
  intros Hst Hwf Hconn Hg Hnd. destruct (named_spec s request_ids Hg Hnd) as [Hn Hin].
  unfold finish_requests. rewrite Hst.
  set (l := match request_ids with Some l => l | None => (requests s).*1 end).
  destruct (collect_spec s l) as (n & ->). cbn zeta. change (omap (live_request s) l) with (named s request_ids).
  set (valid := named s request_ids) in *.
  destruct (leave_queues s valid n Hwf Hn Hin Hconn) as (s2 & E2 & Hl & Ha & Eo & Eq & Ec & Ep & Hsr & Hlen & Hsq).
  cbn [running with_streaming_count] in E2 |- *. rewrite E2. cbn [mbind res_bind].
  destruct (finish_all_spec st s2 valid Hst Hl) as (s3 & -> & [F1 F2 F3 F4 F5 F6]). cbn [mbind res_bind].
  eexists _, s3. split; [done|].
  assert (∀ i, rid s3 i = rid s i) as Hr by (intros i; rewrite F3; unfold rid; by rewrite Eo).
  assert (all_ids s3 = all_ids s2 ∧ queued s3 = queued s2) as [Ea Eu] by (destruct F2; unfold all_ids, queued; split; congruence).
  destruct (registered_without s valid s3) as [Hg3 Hu]; [done| |by rewrite Ea|done|].
  { rewrite <- Eq, F6. f_equiv. apply reflexive_eq, list_fmap_ext. intros ? i _. unfold rid. by rewrite Eo. }
  split; rewrite ?(sq_cfg _ _ F2), ?(sq_running _ _ F2), ?(sq_prev _ _ F2), ?(sq_connector _ _ F2), ?Ea, ?Eu; try done.
  - intros i Hi. rewrite F4, Eo; [done|]. intros Hv. by apply (lv_out _ _ Hl i Hv).
  - by rewrite (lv_connector _ _ Hl).
Qed.

Lemma aborted_ready st s l s' : Ready s → aborted st s l s' → Ready s'.
Proof.
  intros [] []. split; rewrite ?ab_cfg0, ?ab_connector0, ?ab_prev0; try done; [lia| |].
  - intros i Hi. rewrite ab_others0 by (by apply running_all). auto.
  - intros i Hi. rewrite ab_rid0. auto.
Qed.

Lemma aborted_outstanding st o s l s' : outstanding o s → aborted st s l s' → outstanding o s'.
Proof.
  intros [] []. split; rewrite ?ab_cfg0, ?ab_connector0, ?ab_prev0; try done; try lia; intros i Hi; rewrite ?ab_rid0; auto;
    rewrite ab_others0 by (by apply running_all); auto.
Qed.

Lemma aborted_answers st o m s l s' : model_answers s o m → aborted st s l s' → model_answers s' o m.
Proof.
  intros [] []. split; try done. intros i Hi. rewrite ab_rid0, ab_others0 by (by apply running_all). auto.
Qed.
End abort.
