(* ===== verification/EngineCore.v ===== *)
(** * The engine core

    The part of [EngineCore] (vllm/v1/engine/core.py) between its clients and the
    scheduler: requests become objects and are added, aborts are collected and
    passed on, and a step schedules, runs the model, processes the aborts that came
    in meanwhile and then the model's output.  The executor that runs the model is
    a parameter. *)

From Stdlib Require Import String.
From S2P Require Import Prelude Request BlockHash KVCacheManager EncoderCache RequestQueue SchedUtils.
From S2P Require Import Scheduler Schedule SchedUpdate.
#[local] Open Scope Z_scope.

(** [EngineCoreRequest] of vllm/v1/engine/__init__.py, without the attributes that only
    the front end and data parallelism read. *)
Record EngineCoreRequest := mkCoreRequest {
  ecr_request_id : string;
  ecr_prompt_token_ids : option (list Z);
  ecr_mm_features : option (list MultiModalFeatureSpec);
  ecr_sampling_params : option SamplingParams;
  ecr_pooling_params : option PoolingParams;
  ecr_arrival_time : Z;
  ecr_lora_request : option LoRARequest;
  ecr_cache_salt : option string;
  ecr_prompt_embeds : option (list bytes);
  ecr_client_index : Z;
  ecr_priority : Z;
  ecr_resumable : bool;
}.

(** [Request.from_engine_core_request]; [oid] is the identity of the new object. *)
Definition from_engine_core_request (hasher : option block_hasher) (oid : Z) (q : EngineCoreRequest) : res Request :=
  new_request hasher (ecr_request_id q) oid (ecr_prompt_token_ids q) (ecr_sampling_params q) (ecr_pooling_params q)
    (ecr_client_index q) (ecr_arrival_time q) (ecr_priority q) (ecr_prompt_embeds q) (ecr_mm_features q)
    (ecr_lora_request q) (ecr_cache_salt q) (ecr_resumable q).

Section engine.
Context {K E W C EC P : Type}.
Context `{KVManager K, EncoderCacheOps E, RequestQueue W, QueueImpl W, KVConnector C P, ECConnector EC}.
#[local] Abbreviation sched := (Scheduler K E W C EC).

(** The block hasher of the requests, and whether the model supports the task of
    a pooling request. *)
Context (hasher : option block_hasher) (supported : PoolingParams → bool).

(** Places a new object in the store and adds it: [preprocess_add_request] without
    the cache of multi-modal inputs and the compilation of a grammar, whose end
    [grammar_ready] tells the scheduler; then [EngineCore.add_request]. *)
Definition engine_add_request (now : Z) (s : sched) (oid : Z) (q : EngineCoreRequest) : res sched :=
  r ← from_engine_core_request hasher oid q;
  RAISE ValueError IF match pooling_params r with Some p => negb (supported p) | None => false end;
  sched_add_request hasher now (put s oid r) oid.

(** [finish_requests] turns the list into a set; it is iterated in some order. *)
Definition abort_requests (s : sched) (request_ids : list string) : res sched :=
  '(_, s) ← finish_requests s (Some (elements (list_to_set (C := gset string) request_ids))) FINISHED_ABORTED;
  Ok s.

(** [aborts] holds the messages in the queue. *)
Definition _process_aborts_queue (s : sched) (aborts : list (list string)) : res sched :=
  if bool_decide (aborts = []) then Ok s else abort_requests s (concat aborts).

(** [EngineCore.step]: [execute_model] runs the model, during which the messages
    [aborts] come in.  The outputs, and whether the model was executed. *)
Definition engine_step (now now' : Z) (grammar_ready : Z → bool) (execute_model : SchedulerOutput → ModelRunnerOutput)
    (aborts : list (list string)) (s : sched) : res (list (Z * EngineCoreOutputs P) * bool * sched) :=
  if negb (has_requests s) then Ok ([], false, s) else
  '(o, s) ← schedule now grammar_ready _update_after_schedule s;
  let m := execute_model o in
  s ← _process_aborts_queue s aborts;
  '(outs, _, s) ← update_from_output hasher now' (_update_request_with_output hasher) s o m;
  Ok (outs, 0 <? so_total_num_scheduled_tokens o, s).
End engine.
