(* ===== verification/GroupInv.v ===== *)
(** * The invariant of one manager and its pool

    A KV cache with one group: what the manager of the group and the block pool
    satisfy between two calls, and that every operation of the manager keeps it.
    The manager is one of full attention, sliding windows or chunked local
    attention; prefix caching is on only for full attention. *)

From S2P Require Import Prelude Blocks FreeQueue Request BlockHash Metrics HashMap BlockPool PoolInv.
From S2P Require Import PoolProps KVCacheSpec CacheHit HitProps SingleTypeManager ManagerInv.
Import FreeKVCacheBlockQueue.

(** ** Accounting across managers *)

Lemma held_by_empty M : (∀ k, default [] (M !! k) = []) → held_by M = ∅.
Proof.
  induction M as [|k l M Hk IH] using map_ind; intros He; [done|].
  rewrite held_by_insert by done. pose proof (He k) as E. rewrite lookup_insert_eq in E. cbn in E.
  subst l. rewrite IH; [multiset_solver|]. intros k'. destruct (decide (k' = k)) as [->|].
  - by rewrite Hk.
  - specialize (He k'). by rewrite lookup_insert_ne in He.
Qed.

(** A missing entry counts as an empty one. *)
Lemma held_by_ext M M' :
  (∀ k, default [] (M' !! k) = default [] (M !! k)) → held_by M' = held_by M.
Proof.
  revert M'. induction M as [|k l M Hk IH] using map_ind; intros M' He.
  { rewrite held_by_empty; [done|]. intros k. by rewrite He, lookup_empty. }
  rewrite (held_by_split M' k), He, lookup_insert_eq, held_by_insert by done. cbn [default].
  f_equal. apply IH. intros k'. destruct (decide (k' = k)) as [->|].
  - by rewrite lookup_delete_eq, Hk.
  - by rewrite lookup_delete_ne, He, lookup_insert_ne.
Qed.

Lemma held_ext m m' : (∀ rid, req_blocks m' rid = req_blocks m rid) → held m' = held m.
Proof. apply held_by_ext. Qed.

(** The blocks of one request changed. *)
Lemma held_same rid m m' :
  same_mgr rid m m' → held m' ⊎ mset (req_blocks m rid) = held m ⊎ mset (req_blocks m' rid).
Proof.
  intros Hs. rewrite (held_split m rid), (held_split m' rid).
  rewrite (held_by_ext (delete rid (req_to_blocks m)) (delete rid (req_to_blocks m'))); [multiset_solver|].
  intros k. destruct (decide (k = rid)) as [->|]; [by rewrite !lookup_delete_eq|].
  rewrite !lookup_delete_ne by done. by apply (sm_others _ _ _ Hs).
Qed.

Lemma held_in m rid b : b ∈ req_blocks m rid → b ∈ held m.
Proof. intros Hb. rewrite (held_split m rid). apply elem_of_list_to_set_disj in Hb. multiset_solver. Qed.

(** A block of two requests is counted twice. *)
Lemma held_twice m rid rid' b :
  rid' ≠ rid → b ∈ req_blocks m rid → b ∈ req_blocks m rid' → (1 < multiplicity b (held m))%nat.
Proof.
  intros Hne Hb Hb'. rewrite (held_split m rid), (held_by_split _ rid'), lookup_delete_ne by done.
  change (default [] (req_to_blocks m !! rid')) with (req_blocks m rid').
  apply elem_of_list_to_set_disj in Hb, Hb'. rewrite elem_of_multiplicity in Hb, Hb'.
  rewrite !multiplicity_disj_union. lia.
Qed.

Lemma free_unowned R own p fl b : PoolInv R own p fl → b ∈ fl → multiplicity b own = 0%nat.
Proof. intros [_ Hf Hd] (Hb & Hn & _ & Hz)%Hf. rewrite (pd_cnt _ _ _ Hd) in Hz by done. lia. Qed.

(** ** The invariant *)

Definition plain (s : LayerSpec) : bool :=
  match spec_manager_map s with
  | Some (FullAttentionManager | SlidingWindowManager | ChunkedLocalAttentionManager) => true
  | _ => false
  end.

(** The blocks of a request with prefix caching: the ones counted as cached come
    first, the others have no hash and belong to this request alone. *)
Record counted (m : Manager) (p : BlockPool) (rid : string) : Prop := {
  ct_range : 0 ≤ default 0 (num_cached_block m !! rid) ≤ zlen (req_blocks m rid);
  ct_new : req_blocks m rid = [] → num_cached_block m !! rid = None;
  ct_real : null_block p ∉ req_blocks m rid;
  ct_fresh : ∀ i b, req_blocks m rid !! i = Some b →
    default 0 (num_cached_block m !! rid) ≤ Z.of_nat i →
    block_hash (p_store p b) = None ∧ multiplicity b (held m) = 1%nat;
}.

Definition cache_mode (m : Manager) (p : BlockPool) : Prop :=
  if enable_caching p then
    is_full (mgr_spec m) = true ∧ kv_cache_group_id m = 0 ∧ mgr_block_size m = hash_block_size p
    ∧ ∀ rid, counted m p rid
  else ∀ rid, num_cached_block m !! rid = None.

Record group_ok (m : Manager) (p : BlockPool) (fl : list ref) : Prop := {
  go_pool : PoolInv ∅ (held m ⊎ ∅) p fl;
  go_null : mgr_null_block m = null_block p;
  go_bs : 0 < mgr_block_size m;
  go_plain : plain (mgr_spec m) = true;
  go_window : window_ok (mgr_spec m);
  go_caching : mgr_enable_caching m = enable_caching p;
  go_nodup : ∀ rid, real_nodup p (req_blocks m rid);
  go_nulls : ∀ rid, null_prefix (null_block p) (req_blocks m rid);
  go_mode : cache_mode m p;
}.

Create HintDb kv.
#[export] Hint Resolve go_pool go_null go_bs go_plain go_window go_nodup go_nulls : kv.

(** The invariant depends on the fields of the manager below only. *)
Lemma group_ok_ext m m' p fl :
  mgr_spec m' = mgr_spec m → mgr_block_size m' = mgr_block_size m →
  mgr_enable_caching m' = mgr_enable_caching m → kv_cache_group_id m' = kv_cache_group_id m →
  mgr_null_block m' = mgr_null_block m → num_cached_block m' = num_cached_block m →
  (∀ rid, req_blocks m' rid = req_blocks m rid) → group_ok m p fl → group_ok m' p fl.
Proof.
  intros E1 E2 E3 E4 E5 E6 Eb []. split; unfold cache_mode in *; rewrite ?(held_ext m m'), ?E1, ?E2, ?E3, ?E4, ?E5, ?E6;
    try done; [intros rid; rewrite Eb; auto..|].
  case_match; [|done]. destruct go_mode0 as (? & ? & ? & Hc). split_and!; [done..|]. intros rid.
  destruct (Hc rid). split; rewrite ?(held_ext m m'), ?E6, ?Eb; done.
Qed.

Lemma group_touch m p fl rid : group_ok m p fl → group_ok (touch_key m rid) p fl.
Proof. apply group_ok_ext; try done. intros. apply req_blocks_touch. Qed.

(** Operations on a request: what the others keep, and what is left to show for
    this one. *)
Lemma group_ok_step rid m m' p p' fl fl' :
  group_ok m p fl → PoolInv ∅ (held m' ⊎ ∅) p' fl' → same_pool p p' → same_mgr rid m m' →
  real_nodup p (req_blocks m' rid) → null_prefix (null_block p) (req_blocks m' rid) →
  (enable_caching p = false → num_cached_block m' !! rid = None) →
  (enable_caching p = true → counted m' p' rid
     ∧ ∀ rid' b, rid' ≠ rid → b ∈ req_blocks m rid' → block_hash (p_store p b) = None →
         multiplicity b (held m) = 1%nat →
         block_hash (p_store p' b) = None ∧ multiplicity b (held m') = 1%nat) →
  group_ok m' p' fl'.
Proof.
  intros [] H' Hp Hm Hnd Hpre Hoff Hon. unfold real_nodup in *. split; unfold real_nodup, cache_mode in *;
    rewrite ?(sm_null _ _ _ Hm), ?(sm_bs _ _ _ Hm), ?(sm_spec _ _ _ Hm), ?(sm_caching _ _ _ Hm),
      ?(sm_gid _ _ _ Hm), ?(sp_null _ _ Hp), ?(sp_caching _ _ Hp), ?(sp_hash_bs _ _ Hp); try done.
  1, 2: intros rid'; destruct (decide (rid' = rid)) as [->|]; [done|]; rewrite (sm_others _ _ _ Hm) by done; auto.
  case_match.
  - destruct go_mode0 as (? & ? & ? & Hc). split_and!; [done..|]. destruct (Hon eq_refl) as [Hr Ho].
    intros rid'. destruct (decide (rid' = rid)) as [->|Hne]; [done|]. destruct (Hc rid') as [C1 C2 C3 C4].
    split; rewrite ?(sm_others _ _ _ Hm), ?(sm_cached _ _ _ Hm), ?(sp_null _ _ Hp) by done; [done..|].
    intros i b Hi Hi'. destruct (C4 i b Hi Hi'). apply (Ho rid'); [done| |done..].
    by eapply list_elem_of_lookup_2.
  - intros rid'. destruct (decide (rid' = rid)) as [->|]; [by apply Hoff|].
    by rewrite (sm_cached _ _ _ Hm).
Qed.

Lemma full_skips_nothing m t : is_full (mgr_spec m) = true → get_num_skipped_tokens m t = 0.
Proof. unfold get_num_skipped_tokens. by destruct (mgr_spec m). Qed.

Lemma full_skips_no_block m t : is_full (mgr_spec m) = true → num_skipped_blocks m t = 0.
Proof. intros H. unfold num_skipped_blocks. by rewrite full_skips_nothing. Qed.

Lemma group_full m p fl : group_ok m p fl → enable_caching p = true → is_full (mgr_spec m) = true.
Proof. intros H E. pose proof (go_mode _ _ _ H) as Hm. unfold cache_mode in Hm. rewrite E in Hm. apply Hm. Qed.

Lemma group_counted m p fl rid : group_ok m p fl → enable_caching p = true → counted m p rid.
Proof. intros H E. pose proof (go_mode _ _ _ H) as Hm. unfold cache_mode in Hm. rewrite E in Hm. apply Hm. Qed.

Lemma group_uncounted m p fl rid :
  group_ok m p fl → enable_caching p = false → num_cached_block m !! rid = None.
Proof. intros H E. pose proof (go_mode _ _ _ H) as Hm. unfold cache_mode in Hm. by rewrite E in Hm. Qed.

(** Blocks of the pool only. *)
Lemma group_blocks m p fl rid b : group_ok m p fl → b ∈ req_blocks m rid → b ∈ blocks p ∧ b ∉ fl.
Proof.
  intros H Hb%held_in. pose proof (go_pool _ _ _ H) as Hp.
  assert (b ∈ held m ⊎ ∅) as Ho by multiset_solver.
  split; [by apply (pd_own _ _ _ (pi_data _ _ _ _ Hp))|]. intros Hf%(free_unowned _ _ _ _ _ Hp).
  rewrite elem_of_multiplicity in Ho. lia.
Qed.

(** ** Dropping blocks out of the window *)

Lemma null_prefix_skip null s l :
  null_prefix null l → null_prefix null (replicate s null ++ drop s l).
Proof.
  intros (k & l' & -> & Hl). destruct (decide (s ≤ k)%nat).
  - exists k, l'. split; [|done]. rewrite drop_app_le by (rewrite length_replicate; lia).
    rewrite drop_replicate, app_assoc, <- replicate_add. do 2 f_equal. lia.
  - exists s, (drop (s - k) l'). rewrite drop_app_ge by (rewrite length_replicate; lia).
    rewrite length_replicate. split; [done|]. by intros ?%elem_of_drop_1.
Qed.

Lemma real_nodup_skip p s l :
  real_nodup p l → real_nodup p (replicate s (null_block p) ++ drop s l).
Proof.
  unfold real_nodup. intros Hl. rewrite filter_app, list_filter_none.
  - rewrite <- (take_drop s l), filter_app in Hl. by apply NoDup_app in Hl as (_ & _ & ?).
  - apply Forall_forall. intros x [-> _]%elem_of_replicate. naive_solver.
Qed.

Lemma group_skip m p fl rid t :
  group_ok m p fl →
  ∃ m' p' fl', remove_skipped_blocks m p rid t = Ok (m', p') ∧ group_ok m' p' fl'
    ∧ same_pool p p' ∧ same_mgr rid m m' ∧ zlen (req_blocks m' rid) = zlen (req_blocks m rid)
    ∧ (enable_caching p = true → m' = m ∧ p' = p ∧ fl' = fl).
Proof.
  intros H. assert (remove_skipped_blocks m p rid t = base_remove_skipped_blocks m p rid t) as ->.
  { unfold remove_skipped_blocks. pose proof (go_plain _ _ _ H). by destruct (mgr_spec m). }
  destruct (enable_caching p) eqn:Ec.
  { exists m, p, fl. unfold base_remove_skipped_blocks.
    by rewrite (full_skips_nothing m t (group_full _ _ _ H Ec)). }
  pose proof (go_nulls _ _ _ H rid) as Hpre. rewrite <- (go_null _ _ _ H) in Hpre.
  destruct (base_skip_spec ∅ ∅ m p fl rid t) as (m' & p' & fl' & E & H' & Hp & Hm & Hb & Hc & _);
    [eauto with kv..|]. exists m', p', (fl ++ fl'). split; [done|].
  rewrite (go_null _ _ _ H) in Hpre. split; [|split_and!; [done|done| |congruence]].
  - apply (group_ok_step rid m m' p p' fl); [done..| | | |].
    + rewrite Hb. by eapply real_nodup_skip, go_nodup.
    + rewrite Hb. by apply null_prefix_skip.
    + intros _. rewrite Hc. by apply (group_uncounted m p fl).
    + congruence.
  - rewrite Hb. unfold zlen. rewrite length_app, length_replicate, length_drop.
    pose proof (zlen_nonneg (req_blocks m rid)). unfold zlen in *. lia.
Qed.

(** ** Capacity and new blocks *)

(** Nothing to add for tokens that have blocks. *)
Lemma capacity_running m p rid n total :
  num_skipped_blocks m total ≤ zlen (req_blocks m rid) →
  base_num_blocks_to_allocate m p rid n [] total = Ok (missing_blocks m rid n).
Proof.
  intros Hs. unfold base_num_blocks_to_allocate, missing_blocks, num_skipped_blocks in *.
  destruct (num_cached_block m !! rid); [cbn [zlen length Z.eqb]; f_equal; lia|].
  assert (get_num_evictable_blocks p (py_from [] (Z.max 0
    (get_num_skipped_tokens m total / mgr_block_size m - zlen (req_blocks m rid)))) = 0) as ->.
  { rewrite py_from_nonneg by lia. by rewrite drop_nil. }
  rewrite zlen_nil. f_equal. lia.
Qed.

Lemma skipped_within m t rid :
  0 < mgr_block_size m → window_ok (mgr_spec m) →
  0 ≤ t ≤ zlen (req_blocks m rid) * mgr_block_size m →
  num_skipped_blocks m t ≤ zlen (req_blocks m rid).
Proof.
  intros Hb Hw Ht. etrans; [apply skipped_blocks_le; lia || done|].
  apply Z.div_le_upper_bound; lia.
Qed.

(** With prefix caching, blocks taken from the free list are the request's own. *)
Lemma counted_grow m m' p p' fl rid new :
  group_ok m p fl → enable_caching p = true → same_pool p p' →
  NoDup new → (∀ b, b ∈ new → b ∈ fl) →
  req_blocks m' rid = req_blocks m rid ++ new → num_cached_block m' = num_cached_block m →
  held m' = held m ⊎ mset new →
  (∀ b, b ∈ new → block_hash (p_store p' b) = None) →
  (∀ r, r ∉ new → block_hash (p_store p' r) = block_hash (p_store p r)) →
  counted m' p' rid
  ∧ ∀ rid' b, rid' ≠ rid → b ∈ req_blocks m rid' → block_hash (p_store p b) = None →
      multiplicity b (held m) = 1%nat →
      block_hash (p_store p' b) = None ∧ multiplicity b (held m') = 1%nat.
Proof.
  intros H Ec Hs Hnd Hfl Hb Hc Hh' Hh Ho. pose proof (go_pool _ _ _ H) as Hp.
  assert (∀ rid' b, b ∈ req_blocks m rid' → block_hash (p_store p b) = None →
    multiplicity b (held m) = 1%nat →
    block_hash (p_store p' b) = None ∧ multiplicity b (held m') = 1%nat) as Hold.
  { intros rid' b Hi Hn1 Hm1. destruct (group_blocks m p fl rid' b H Hi) as [_ Hf].
    assert (b ∉ new) as Hnt by (by intros ?%Hfl). rewrite Ho by done. split; [done|].
    by rewrite Hh', multiplicity_disj_union, Hm1, not_in_multiplicity_0. }
  split; [|naive_solver]. destruct (group_counted m p fl rid H Ec) as [C1 C2 C3 C4].
  split; rewrite ?Hb, ?Hc, ?(sp_null _ _ Hs).
  - rewrite zlen_app. pose proof (zlen_nonneg new). lia.
  - intros [? _]%app_nil. auto.
  - rewrite elem_of_app. intros [?|Hi%Hfl]; [done|]. apply (pi_free _ _ _ _ Hp) in Hi as (_ & ? & _). done.
  - intros i b Hi Hci. apply lookup_app_Some in Hi as [Hi|[_ Hi]].
    { destruct (C4 i b Hi Hci). apply (Hold rid); [by eapply list_elem_of_lookup_2|done..]. }
    apply list_elem_of_lookup_2 in Hi. split; [auto|].
    assert (multiplicity b (held m ⊎ ∅) = 0%nat) as Hz by eauto using free_unowned.
    rewrite multiplicity_disj_union in Hz.
    rewrite Hh', multiplicity_disj_union, NoDup_multiplicity_1 by done. lia.
Qed.

Section ops.
Context (use_int : bool) (sha256 : bytes → bytes).

Lemma group_grow m p fl rid n nm :
  group_ok m p fl → missing_blocks m rid n ≤ zlen fl →
  ∃ m' p' fl' new, allocate_new_blocks use_int m p rid n nm = Ok (new, m', p')
    ∧ group_ok m' p' fl' ∧ same_pool p p' ∧ same_mgr rid m m'
    ∧ num_cached_block m' = num_cached_block m
    ∧ zlen (req_blocks m' rid) = Z.max (zlen (req_blocks m rid)) (cdiv n (mgr_block_size m))
    ∧ req_blocks m rid `prefix_of` req_blocks m' rid.
Proof.
  intros H Hn. pose proof (go_pool _ _ _ H) as Hp.
  assert (allocate_new_blocks use_int m p rid n nm = base_allocate_new_blocks use_int m p rid n) as ->.
  { unfold allocate_new_blocks. pose proof (go_plain _ _ _ H). by destruct (mgr_spec m). }
  destruct (base_allocate_spec use_int ∅ ∅ m p fl rid n Hp Hn)
    as (m' & p' & E & H' & Hs & Hm & Hb & Hc & Hh & Ho).
  set (k := Z.to_nat (missing_blocks m rid n)) in *.
  exists m', p', (drop k fl), (take k fl). split; [done|].
  assert (∀ b, b ∈ take k fl → b ∈ fl) as Htk by (intros b; apply elem_of_take_1).
  assert (null_block p ∉ take k fl) as Hnn.
  { intros Hi%Htk. apply (pi_free _ _ _ _ Hp) in Hi as (_ & ? & _). done. }
  assert (∀ b, b ∈ req_blocks m rid → b ∉ take k fl) as Hd.
  { intros b Hi Hi'%Htk. by destruct (group_blocks m p fl rid b H Hi). }
  assert (NoDup (take k fl)) as Hnd.
  { eapply sublist_NoDup; [apply (fr_nodup _ _ (pi_rep _ _ _ _ Hp))|apply sublist_take]. }
  pose proof (held_same rid m m' Hm) as Hheld. rewrite Hb, list_to_set_disj_app in Hheld.
  assert (held m' = held m ⊎ mset (take k fl)) as Hh' by multiset_solver.
  split; [|split_and!; [done..| |]].
  - apply (group_ok_step rid m m' p p' fl); [done..| | | |].
    + rewrite Hb. unfold real_nodup. rewrite filter_app. apply NoDup_app. split_and!.
      * eapply go_nodup, H.
      * intros b [_ Hi]%list_elem_of_filter [_ Hi']%list_elem_of_filter. by apply (Hd b).
      * by apply NoDup_filter.
    + rewrite Hb. destruct (go_nulls _ _ _ H rid) as (j & l & -> & Hl). exists j, (l ++ take k fl).
      rewrite <- app_assoc. split; [done|]. rewrite elem_of_app. tauto.
    + intros Ec. rewrite Hc. by eapply group_uncounted.
    + intros Ec. by apply (counted_grow m m' p p' fl rid (take k fl)); auto.
  - rewrite Hb. unfold zlen, missing_blocks, zlen in *. rewrite length_app, length_take. lia.
  - rewrite Hb. by apply prefix_app_r.
Qed.

(** ** Prefix hits *)

(** The blocks of a hit: registered in the prefix cache, and distinct. *)
Definition hit_ok (p : BlockPool) (hits : list ref) : Prop :=
  NoDup hits ∧ ∀ b, b ∈ hits → b ∈ blocks p ∧ is_Some (block_hash (p_store p b)).

(** The evictable blocks of a hit are its blocks in the free list. *)
Lemma evictable_exact own p fl hits :
  PoolInv ∅ own p fl → hit_ok p hits →
  zlen (filter (λ x, x ∉ hits) fl) = zlen fl - get_num_evictable_blocks p hits.
Proof.
  intros Hp [Hnd Hhit]. pose proof (evictable_bound ∅ _ _ _ hits Hp) as Hle.
  pose proof Hp as [Hr Hf Hd]. unfold get_num_evictable_blocks, zlen in *.
  assert (length (filter (evictable p) hits) ≤ length (filter (λ x, x ∈ hits) fl))%nat.
  { apply NoDup_incl_length; [by apply NoDup_ListNoDup, NoDup_filter|].
    intros x. rewrite <- !list_elem_of_In, !list_elem_of_filter. intros [[Hz Hn] Hx].
    destruct (Hhit x Hx) as [Hb [h Eh]]. split; [done|]. apply Hf. split_and!; [done| |set_solver|done].
    intros ->. by rewrite (pd_null_hash _ _ _ Hd) in Eh. }
  assert (length fl = length (filter (λ x, x ∈ hits) fl) + length (filter (λ x, x ∉ hits) fl))%nat.
  { rewrite <- length_app. by rewrite filter_app_complement. }
  lia.
Qed.

Lemma group_hit m p fl rid hits local :
  group_ok m p fl → enable_caching p = true → req_blocks m rid = [] → hit_ok p hits → hits ≠ [] →
  ∃ m' p', allocate_new_computed_blocks use_int m p rid hits local 0 = Ok (m', p')
    ∧ group_ok m' p' (filter (λ x, x ∉ hits) fl) ∧ same_pool p p' ∧ same_mgr rid m m'
    ∧ req_blocks m' rid = hits.
Proof.
  intros H Ec Hr [Hnd Hhit] Hne. pose proof (group_full m p fl H Ec) as Hf.
  pose proof (group_counted m p fl rid H Ec) as [_ C2 _ _]. pose proof (C2 Hr) as Hc.
  assert (allocate_new_computed_blocks use_int m p rid hits local 0
    = base_allocate_new_computed_blocks use_int m p rid hits local 0) as ->.
  { unfold allocate_new_computed_blocks. pose proof (go_plain _ _ _ H). by destruct (mgr_spec m). }
  pose proof (computed_spec use_int ∅ ∅ m p fl rid hits local 0 (go_pool _ _ _ H) (go_null _ _ _ H) Hc Hr)
    as Hspec. cbv zeta in Hspec. unfold external_blocks, hit_blocks in Hspec.
  rewrite (full_skips_no_block m _ Hf) in Hspec. cbn [Z.ltb Z.compare zreplicate app] in Hspec.
  change (drop (Z.to_nat 0) hits) with hits in Hspec. change (zreplicate 0 (mgr_null_block m)) with (@nil ref) in Hspec.
  cbn [app] in Hspec. set (fl1 := filter _ fl) in *.
  destruct Hspec as (m' & p' & E & H' & Hs & Hm & Hb & Hc' & _ & Hh).
  { intros b Hb. split; [by apply Hhit|set_solver]. }
  { rewrite (go_caching _ _ _ H), Ec. done. }
  { pose proof (zlen_nonneg fl1). lia. }
  change (take (Z.to_nat 0) fl1) with (@nil ref) in *. change (drop (Z.to_nat 0) fl1) with fl1 in *.
  rewrite app_nil_r in Hb.
  exists m', p'. split; [done|]. split; [|done].
  pose proof (held_same rid m m' Hm) as Hheld. rewrite Hr, Hb, list_to_set_disj_nil in Hheld.
  assert (held m' = held m ⊎ mset hits) as Hh' by multiset_solver.
  assert (null_block p ∉ hits) as Hnn.
  { intros Hi. destruct (Hhit _ Hi) as [_ [h Eh]].
    by rewrite (pd_null_hash _ _ _ (pi_data _ _ _ _ (go_pool _ _ _ H))) in Eh. }
  apply (group_ok_step rid m m' p p' fl); [done..| | | |].
  - rewrite Hb. by apply NoDup_filter.
  - rewrite Hb. by exists 0%nat, hits.
  - congruence.
  - intros _. split.
    + split; rewrite ?Hb, ?Hc', ?(sp_null _ _ Hs); [cbn; pose proof (zlen_nonneg hits); lia|done|done|].
      intros i b Hi%lookup_lt_Some Hge. cbn in Hge. unfold zlen in Hge. lia.
    + intros rid' b _ Hi Hn1 Hm1. rewrite Hh by apply not_elem_of_nil. split; [done|].
      rewrite Hh', multiplicity_disj_union, Hm1, not_in_multiplicity_0; [done|].
      intros Hin. destruct (Hhit _ Hin) as [_ [h Eh]]. congruence.
Qed.

(** ** Registering full blocks *)

Lemma elem_of_window {A} (l : list A) a b x :
  x ∈ take b (drop a l) → ∃ i, l !! i = Some x ∧ (a ≤ i < a + b)%nat.
Proof.
  intros [i Hi]%list_elem_of_lookup_1. pose proof (lookup_lt_Some _ _ _ Hi) as Hl.
  rewrite length_take in Hl. rewrite lookup_take_lt, lookup_drop in Hi by lia.
  exists (a + i)%nat. split; [done|lia].
Qed.

Lemma counted_nodup m p rid : counted m p rid → real_nodup p (req_blocks m rid) → NoDup (req_blocks m rid).
Proof.
  intros [_ _ C3 _] Hnd. unfold real_nodup in Hnd. rewrite list_filter_all in Hnd; [done|].
  apply Forall_forall. by intros x Hx ->.
Qed.

(** The blocks past the cached ones may be registered. *)
Lemma window_cacheable m p fl rid nc nf hs :
  group_ok m p fl → enable_caching p = true → nc = default 0 (num_cached_block m !! rid) →
  nf ≤ zlen hs →
  cacheable p hs (Z.to_nat nc) (take (Z.to_nat (nf - nc)) (drop (Z.to_nat nc) (req_blocks m rid))).
Proof.
  intros H Ec Hnc Hlh. pose proof (group_counted m p fl rid H Ec) as Hct. pose proof Hct as [C1 _ _ C4].
  rewrite <- Hnc in C1, C4. split.
  - apply NoDup_filter. eapply sublist_NoDup; [eapply counted_nodup; eauto with kv|].
    etrans; [apply sublist_take|apply sublist_drop].
  - intros j b Hj. destruct (elem_of_window (req_blocks m rid) (Z.to_nat nc) (Z.to_nat (nf - nc)) b)
      as (i & Hi & Hr); [by eapply list_elem_of_lookup_2|]. split.
    { apply (group_blocks m p fl rid); [done|]. by eapply list_elem_of_lookup_2. }
    intros _. destruct (C4 i b Hi) as [? _]; [lia|]. split; [done|]. apply lookup_lt_is_Some.
    pose proof (lookup_lt_Some _ _ _ Hj) as Hlt. rewrite length_take in Hlt. unfold zlen in Hlh. lia.
Qed.

(** What registering blocks needs of a request. *)
Definition hashable (r : Request) : Prop := mm_wf (mm_features r) ∧ embed_cache_ok sha256 r.

Lemma group_cache m p fl r n :
  group_ok m p fl → enable_caching p = true → hashable r →
  n / mgr_block_size m ≤ zlen (req_blocks m (request_id r)) →
  n / mgr_block_size m ≤ zlen (Request.block_hashes r) →
  ∃ m' p' r', cache_blocks use_int sha256 m p r n = Ok (m', p', r') ∧ group_ok m' p' fl
    ∧ same_pool p p' ∧ same_mgr (request_id r) m m' ∧ same_request r r' ∧ hashable r'
    ∧ req_blocks m' (request_id r) = req_blocks m (request_id r).
Proof.
  intros H Ec [Hmm Hemb] Hlb Hlh. set (rid := request_id r) in *.
  assert (cache_blocks use_int sha256 m p r n = base_cache_blocks use_int sha256 m p r n) as ->.
  { unfold cache_blocks. pose proof (go_plain _ _ _ H). by destruct (mgr_spec m). }
  unfold base_cache_blocks, py_div. pose proof (go_bs _ _ _ H) as Hbs.
  rewrite (proj2 (Z.eqb_neq _ 0)) by lia. cbn [mbind res_bind].
  set (nf := n / mgr_block_size m) in *. fold rid. set (nc := default 0 (num_cached_block m !! rid)).
  destruct (nf <=? nc) eqn:E; to_prop; [by exists m, p, r|].
  pose proof (group_counted m p fl rid H Ec) as Hct. pose proof Hct as [C1 C2 C3 C4]. fold nc in C1, C4.
  assert (NoDup (req_blocks m rid)) as Hnd by (eapply counted_nodup; eauto with kv).
  pose proof (go_mode _ _ _ H) as Hmode. unfold cache_mode in Hmode. rewrite Ec in Hmode.
  destruct Hmode as (_ & Hg & Hhb & _).
  rewrite req_blocks_touch. change (mgr_block_size (touch_key m rid)) with (mgr_block_size m).
  change (kv_cache_group_id (touch_key m rid)) with (kv_cache_group_id m). rewrite Hg.
  set (l := take (Z.to_nat (nf - nc)) (drop (Z.to_nat nc) (req_blocks m rid))).
  assert (∀ b, b ∈ l → ∃ i, req_blocks m rid !! i = Some b ∧ (nc ≤ Z.of_nat i < nf)) as Hl.
  { intros b (i & Hi & ?)%elem_of_window. exists i. split; [done|lia]. }
  destruct (cache_full_blocks_spec use_int sha256 ∅ (held m ⊎ ∅) p fl r (req_blocks m rid) nc nf (mgr_block_size m) 0)
    as (p' & r' & -> & H' & Hs & Hsr & Hemb' & [_ Hkeep] & _); [by apply H|lia|lia| |lia|done|done|lia|lia|lia| | |].
  { rewrite Hhb. apply Z.mod_same. lia. }
  { unfold group_hashes. rewrite (proj2 (Z.eqb_eq _ _) Hhb). lia. }
  { unfold group_hashes. rewrite (proj2 (Z.eqb_eq _ _) Hhb). by apply (window_cacheable m p fl). }
  cbn [mbind res_bind]. eexists _, p', r'. split; [done|]. fold l in Hkeep.
  set (m' := with_cached _ _).
  assert (∀ rid', req_blocks m' rid' = req_blocks m rid') as Hb' by (intros; apply (req_blocks_touch m)).
  assert (same_mgr rid m m') as Hm'.
  { split; auto. intros. cbn. by rewrite lookup_insert_ne. }
  assert (held m' = held m) as Hheld by (by apply held_ext).
  split; [|split_and!; [done..| |done]; split; [by rewrite Hsr|done]].
  apply (group_ok_step rid m m' p p' fl); rewrite ?Hheld, ?Hb'; eauto with kv; [congruence|].
  intros _. split.
  - assert (num_cached_block m' !! rid = Some nf) as Hc' by apply lookup_insert_eq.
    split; rewrite ?Hb', ?Hheld, ?Hc', ?(sp_null _ _ Hs); cbn [default id]; [lia| |done|].
    { intros Hnil. rewrite Hnil, zlen_nil in Hlb. lia. }
    intros i b Hi Hge. destruct (C4 i b Hi) as [? ?]; [lia|]. split; [|done]. rewrite Hkeep; [done|].
    left. intros (j & Hj & ?)%Hl. pose proof (NoDup_lookup _ _ _ _ Hnd Hi Hj). lia.
  - intros rid' b Hne Hi Hn1 Hm1. split; [|done]. rewrite Hkeep; [done|]. left.
    intros (j & Hj & _)%Hl. apply list_elem_of_lookup_2 in Hj. pose proof (held_twice m rid rid' b Hne Hj Hi). lia.
Qed.

(** ** Freeing *)

Lemma group_free m p fl rid :
  group_ok m p fl →
  ∃ m' p' fl', free m p rid = Ok (m', p') ∧ group_ok m' p' fl' ∧ same_pool p p' ∧ same_mgr rid m m'
    ∧ req_blocks m' rid = [].
Proof.
  intros H. assert (free m p rid = base_free m p rid) as ->.
  { unfold free. pose proof (go_plain _ _ _ H). by destruct (mgr_spec m). }
  destruct (base_free_spec ∅ ∅ m p fl rid) as (m' & p' & E & H' & Hs & Hm & Hb & Hc & Hh); [eauto with kv..|].
  eexists m', p', _. split; [done|]. split; [|done].
  apply (group_ok_step rid m m' p p' fl); [done..| | | |].
  - rewrite Hb. constructor.
  - rewrite Hb. exists 0%nat, []. split; [done|apply not_elem_of_nil].
  - done.
  - intros Ec. split.
    + split; rewrite ?Hb, ?Hc; [done|done|apply not_elem_of_nil|done].
    + intros rid' b Hne Hi Hn1 Hm1. rewrite Hh. split; [done|].
      pose proof (f_equal (multiplicity b) (held_same rid m m' Hm)) as Hheld. rewrite Hb in Hheld.
      rewrite !multiplicity_disj_union, Hm1, list_to_set_disj_nil, multiplicity_empty in Hheld.
      assert (b ∈ held m') as Hin by (apply (held_in m' rid'); by rewrite (sm_others _ _ _ Hm)).
      rewrite elem_of_multiplicity in Hin. lia.
Qed.
End ops.
