(* ===== verification/KVManagerProps.v ===== *)
(** * The KV-cache manager as the scheduler uses it

    The laws [KVManagerLaws] of SchedLaws.v for the manager of
    KVCacheManager.v, when the KV cache has one group: every call of a scheduling
    step succeeds, keeps the accounting of blocks and changes only the slots of
    its request. *)

From Stdlib Require Import String.
From S2P Require Import Prelude Blocks FreeQueue Request BlockHash Metrics HashMap BlockPool PoolInv.
From S2P Require Import PoolProps KVCacheSpec CacheHit HitProps SingleTypeManager ManagerInv Coordinator.
From S2P Require Import KVCacheManager EncoderCache HeapQueue RequestQueue SchedUtils Scheduler SchedLaws GroupInv.
#[local] Open Scope Z_scope.

(** ** One group *)

Definition update (k : KVCacheManager) (m : Manager) (p : BlockPool) : KVCacheManager :=
  with_coordinator k (with_state (coordinator k) [m] p).

Lemma run_managers_one {A} (f : Z → Manager → BlockPool → res (A * Manager * BlockPool)) c m a m' p' :
  single_type_managers c = [m] → f 0 m (block_pool c) = Ok (a, m', p') →
  run_managers f c = Ok ([a], with_state c [m'] p').
Proof. intros E Ef. unfold run_managers. rewrite E. cbn. rewrite Ef. done. Qed.

(** The state of a KV-cache manager with one group. *)
Record kv_state (k : KVCacheManager) (m : Manager) (fl : list ref) : Prop := {
  ks_managers : single_type_managers (coordinator k) = [m];
  ks_groups : num_kv_cache_groups k = 1;
  ks_caching : km_enable_caching k = enable_caching (pool_of k);
  ks_group : group_ok m (pool_of k) fl;
  ks_kind : co_kind (coordinator k)
    = if km_enable_caching k then UnitaryKVCacheCoordinator else KVCacheCoordinatorNoPrefixCache;
  ks_block_size : km_enable_caching k = true →
    co_block_size (coordinator k) = mgr_block_size m
    ∧ scaled_block_size (mgr_spec m) (co_dcp (coordinator k)) (co_pcp (coordinator k)) = mgr_block_size m;
}.
#[export] Hint Resolve ks_group : kv.

Definition manager_of (k : KVCacheManager) : option Manager :=
  match single_type_managers (coordinator k) with [m] => Some m | _ => None end.

Section instance.
Context (use_int : bool) (sha256 : bytes → bytes).
#[local] Instance kv_cache_manager_ops : KVManager KVCacheManager := KVCacheManager_ops use_int sha256.

(** With prefix caching a request carries a hash for every full block, and no
    hash twice. *)
Definition cacheable_request (k : KVCacheManager) (r : Request) : Prop :=
  km_enable_caching k = true →
  hashable sha256 r ∧ NoDup (Request.block_hashes r)
  ∧ num_tokens r / hash_block_size (pool_of k) ≤ zlen (Request.block_hashes r).

(** The hit found for a request without blocks. *)
Definition hit_found (k : KVCacheManager) (r : Request) (b : KVCacheBlocks) (n : Z) : Prop :=
  match b with
  | EmptyBlocks => n = 0
  | Blocks l => ∃ m hits, manager_of k = Some m ∧ km_enable_caching k = true ∧ l = [hits] ∧ hits ≠ []
      ∧ hit_ok (pool_of k) hits ∧ n = zlen hits * mgr_block_size m ∧ req_blocks m (request_id r) = []
  end.

#[local] Instance KVCacheManager_view : KVManagerView KVCacheManager := {|
  kv_ok k := ∃ m fl, kv_state k m fl;
  kv_slots k id :=
    match manager_of k with Some m => zlen (req_blocks m id) * mgr_block_size m | None => 0 end;
  kv_max_len := km_max_model_len;
  kv_logs k := bool_decide (is_Some (prefix_cache_stats k));
  kv_hashing k := if km_enable_caching k then Some (hash_block_size (pool_of k)) else None;
  kv_request_ok := cacheable_request;
  kv_hits := hit_found;
|}.

Lemma slots_state k m fl id : kv_state k m fl → kv_slots k id = zlen (req_blocks m id) * mgr_block_size m.
Proof. intros H. cbn. unfold manager_of. by rewrite (ks_managers _ _ _ H). Qed.

Lemma slots_update k m p id : kv_slots (update k m p) id = zlen (req_blocks m id) * mgr_block_size m.
Proof. done. Qed.

(** One request's blocks change. *)
Lemma update_ok k m fl rid m' p' fl' :
  kv_state k m fl → group_ok m' p' fl' → same_pool (pool_of k) p' → same_mgr rid m m' →
  kv_state (update k m' p') m' fl' ∧ kv_frame rid k (update k m' p').
Proof.
  intros H Hg Hp Hm. split.
  - split; try done; try apply H.
    + cbn. rewrite (sp_caching _ _ Hp). apply H.
    + intros E. destruct (ks_block_size _ _ _ H E) as [E1 E2]. cbn.
      by rewrite (sm_bs _ _ _ Hm), (sm_spec _ _ _ Hm).
  - split_and!; [unfold kv_params; cbn; by rewrite (sp_hash_bs _ _ Hp)| |].
    + intros id Hid. rewrite slots_update, (slots_state k m fl) by done.
      by rewrite (sm_bs _ _ _ Hm), (sm_others _ _ _ Hm).
    + intros r Hr E. destruct (Hr E) as (? & ? & ?). split_and!; [done..|]. cbn.
      by rewrite (sp_hash_bs _ _ Hp).
Qed.

Lemma update_id k m fl : kv_state k m fl → update k m (pool_of k) = k.
Proof.
  intros H. pose proof (ks_managers _ _ _ H) as E. unfold update, with_coordinator, with_state, pool_of.
  rewrite <- E. by destruct k as [? ? ? ? []].
Qed.

(** ** The calls of a step *)

Lemma quiet_update k m fl m' :
  kv_state k m fl → group_ok m' (pool_of k) fl → mgr_spec m' = mgr_spec m →
  mgr_block_size m' = mgr_block_size m →
  (∀ id, req_blocks m' id = req_blocks m id) →
  (∃ m fl, kv_state (update k m' (pool_of k)) m fl) ∧ kv_quiet k (update k m' (pool_of k)).
Proof.
  intros H Hg Es Eb Er. split.
  - exists m', fl. split; try done; try apply H. intros E.
    destruct (ks_block_size _ _ _ H E) as [E1 E2]. cbn. by rewrite Es, Eb.
  - split_and!; [done| |done]. intros id. by rewrite slots_update, (slots_state k m fl), Eb, Er.
Qed.

Lemma new_step_ok k m fl :
  kv_state k m fl → (∃ m fl, kv_state (km_new_step_starts k) m fl) ∧ kv_quiet k (km_new_step_starts k).
Proof.
  intros H. unfold km_new_step_starts, coord_new_step_starts. rewrite (ks_managers _ _ _ H). cbn [fmap list_fmap].
  assert (new_step_starts m = m) as ->.
  { unfold new_step_starts. pose proof (go_plain _ _ _ (ks_group _ _ _ H)). by destruct (mgr_spec m). }
  apply (quiet_update k m fl); eauto with kv.
Qed.

Lemma take_new_ok k m fl :
  kv_state k m fl →
  (∃ m fl, kv_state (km_take_new_block_ids k).2 m fl) ∧ kv_quiet k (km_take_new_block_ids k).2.
Proof.
  intros H. unfold km_take_new_block_ids. rewrite (ks_managers _ _ _ H). cbn [fmap list_fmap snd].
  apply (quiet_update k m fl); try done. apply (group_ok_ext m); try done. by apply ks_group.
Qed.

Lemma common_prefix_ok k m fl rid :
  kv_state k m fl →
  ∃ l k', km_num_common_prefix_blocks k rid = Ok (l, k')
    ∧ (∃ m fl, kv_state k' m fl) ∧ kv_quiet k k'.
Proof.
  intros H. unfold km_num_common_prefix_blocks, coord_num_common_prefix_blocks. rewrite (ks_kind _ _ _ H).
  destruct (km_enable_caching k) eqn:Ec.
  - destruct (get_num_common_prefix_blocks m (block_pool (coordinator k)) rid) as [n m'] eqn:En.
    erewrite run_managers_one; [|apply H|by rewrite En]. cbn [mbind res_bind]. eexists _, _. split; [done|].
    unfold get_num_common_prefix_blocks in En.
    assert (m' = m ∨ m' = touch_key m rid) as Hm by (destruct (mgr_spec m); naive_solver).
    apply (quiet_update k m fl); try done; destruct Hm as [->| ->]; eauto using group_touch with kv.
    intros. apply req_blocks_touch.
  - cbn [mbind res_bind]. eexists _, _. split; [done|].
    replace (with_coordinator k (coordinator k)) with k by (by destruct k). split; [eauto|done].
Qed.

Lemma free_ok k m fl r :
  kv_state k m fl →
  ∃ k', km_free k r = Ok k' ∧ (∃ m fl, kv_state k' m fl) ∧ kv_frame (request_id r) k k'
    ∧ kv_slots k' (request_id r) = 0.
Proof.
  intros H. destruct (group_free m (pool_of k) fl (request_id r)) as (m' & p' & fl' & E & Hg & Hp & Hm & Hb);
    [eauto with kv|].
  unfold km_free, coord_free. erewrite run_managers_one; [|apply H|unfold pool_of in E; by rewrite E].
  cbn [mbind res_bind fmap res_fmap]. eexists. split; [done|].
  destruct (update_ok k m fl (request_id r) m' p' fl') as [? ?]; [done..|]. split; [eauto|]. split; [done|].
  change (kv_slots (update k m' p') (request_id r) = 0). by rewrite slots_update, Hb.
Qed.

(** Reading the logs of the pool changes no block. *)
Lemma pool_logs_ok k m fl p' :
  kv_state k m fl → p' = with_events (pool_of k) [] ∨ (∃ c, p' = with_collector (pool_of k) c) →
  (∃ m fl, kv_state (with_pool k p') m fl) ∧ kv_quiet k (with_pool k p').
Proof.
  intros H Hp. assert (with_pool k p' = update k m p') as ->.
  { unfold update. rewrite <- (ks_managers _ _ _ H). by destruct k as [? ? ? ? []]. }
  assert (group_ok m p' fl) as Hg.
  { assert (cache_mode m p') as Hm.
    { pose proof (go_mode _ _ _ (ks_group _ _ _ H)) as Hm. unfold cache_mode in *.
      destruct Hp as [-> |[c ->]]; cbn; destruct (enable_caching _); try done;
        (split_and!; [apply Hm..|]; intros id; by destruct (proj2 (proj2 (proj2 Hm)) id)). }
    destruct (ks_group _ _ _ H). destruct Hp as [-> |[c ->]]; split; try done; eauto with py. }
  assert (same_pool (pool_of k) p') as Hs by (destruct Hp as [-> |[c ->]]; by split).
  destruct (update_ok k m fl EmptyString m p' fl H Hg Hs) as [H' (F1 & F2 & F3)]; [done|].
  split; [eauto|]. split_and!; [done| |done]. intros id. by rewrite slots_update, (slots_state k m fl).
Qed.

Lemma take_events_ok k m fl :
  kv_state k m fl → (∃ m fl, kv_state (km_take_events k).2 m fl) ∧ kv_quiet k (km_take_events k).2.
Proof.
  intros H. unfold km_take_events, take_events. destruct (negb _).
  - cbn. replace (with_pool k (pool_of k)) with k by (by destruct k as [? ? ? ? []]). split; [eauto|done].
  - apply (pool_logs_ok k m fl); auto.
Qed.

Lemma drain_ok k m fl :
  kv_state k m fl →
  (∃ m fl, kv_state (km_drain_eviction_events k).2 m fl) ∧ kv_quiet k (km_drain_eviction_events k).2.
Proof.
  intros H. unfold km_drain_eviction_events. destruct (metrics_collector _) as [c|].
  - destruct (drain_events c) as [l c']. apply (pool_logs_ok k m fl); eauto.
  - split; [eauto|done].
Qed.

(** ** Prefix hits *)

Lemma stats_state k m fl st : kv_state k m fl → kv_state (with_stats k st) m fl.
Proof. by intros []. Qed.

(** One group: the columns of the lookup are single blocks. *)
Lemma hit_column p h c :
  indexed p → hit_of [0] p h = Some c →
  ∃ b, c = [b] ∧ b ∈ blocks p ∧ block_hash (p_store p b) = Some (h ++ be_encode 4 0).
Proof.
  intros Hp Hc. destruct (lookup_hash_spec [0] p h Hp) as [_ Hf].
  { split; [done|]. by repeat constructor. }
  rewrite Hc in Hf. unfold blocks_for in Hf. apply Forall2_cons_inv_l in Hf as (b & l & [? ?] & Hn & ->).
  apply Forall2_nil_inv_l in Hn as ->. by exists b.
Qed.

Lemma hit_blocks_ok p L cols :
  indexed p → NoDup L → cols_ok 1 cols → holds [0] p L cols 0 (length cols) →
  hit_ok p (omap (λ c : list ref, c !! 0%nat) cols).
Proof.
  intros Hp Hnd Hc Hh.
  assert (∀ i b, omap (λ c : list ref, c !! 0%nat) cols !! i = Some b →
    ∃ h, L !! i = Some h ∧ b ∈ blocks p ∧ block_hash (p_store p b) = Some (h ++ be_encode 4 0)) as Hi.
  { intros i b Hi. rewrite (omap_cols 1) in Hi by (done || lia). apply bind_Some in Hi as (c & Hci & Hb).
    destruct (Hh i) as (c' & Hc' & h & HL & Hhit). { apply lookup_lt_Some in Hci. lia. }
    simplify_eq. destruct (hit_column p h c Hp Hhit) as (b' & -> & ? & ?). cbn in Hb. simplify_eq. by exists h. }
  split.
  - apply NoDup_alt. intros i j b Hib Hjb. destruct (Hi i b Hib) as (h & HL & _ & E1).
    destruct (Hi j b Hjb) as (h' & HL' & _ & E2). rewrite E1 in E2. injection E2 as E2.
    apply app_inv_tail in E2 as ->. by eapply NoDup_lookup.
  - intros b [i Hb]%list_elem_of_lookup_1. destruct (Hi i b Hb) as (h & _ & ? & E). eauto.
Qed.

Lemma computed_ok k m fl r :
  kv_state k m fl → cacheable_request k r → req_blocks m (request_id r) = [] → 0 < num_tokens r →
  ∃ blks n st, get_computed_blocks k r = Ok (blks, n, with_stats k st)
    ∧ (is_Some st ↔ is_Some (prefix_cache_stats k)) ∧ 0 ≤ n < num_tokens r ∧ hit_found k r blks n.
Proof.
  intros H Hr Hb Hn. unfold get_computed_blocks.
  destruct (negb (km_enable_caching k) || skip_reading_prefix_cache r) eqn:E.
  { exists EmptyBlocks, 0, (prefix_cache_stats k). by destruct k. }
  apply orb_false_iff in E as [Ec%negb_false_iff _]. destruct (Hr Ec) as (_ & Hnd & _).
  pose proof (ks_group _ _ _ H) as Hg. pose proof (ks_caching _ _ _ H) as Ep. rewrite Ec in Ep.
  destruct (ks_block_size _ _ _ H Ec) as [Eb Es]. pose proof (go_bs _ _ _ Hg) as Hbs.
  pose proof (PoolInv_indexed _ _ _ _ (go_pool _ _ _ Hg)) as Hix.
  unfold coord_find_longest_cache_hit. rewrite (ks_kind _ _ _ H), Ec, (ks_managers _ _ _ H).
  cbn [py_index mbind res_bind]. change (py_index [m] 0) with (Ok m). cbn [mbind res_bind].
  assert (∀ hs n gs p e a d q, find_longest_cache_hit hs n gs p (mgr_spec m) e a d q
    = full_find_longest_cache_hit hs n gs p (mgr_spec m) e a d q) as ->.
  { intros. unfold find_longest_cache_hit. pose proof (go_plain _ _ _ Hg).
    pose proof (group_full _ _ _ Hg (eq_sym Ep)). by destruct (mgr_spec m). }
  destruct (full_hit_spec (PlainHashes (Request.block_hashes r)) (num_tokens r - 1) [0] (pool_of k) (mgr_spec m)
    (co_use_eagle (coordinator k)) (co_block_size (coordinator k)) (co_dcp (coordinator k))
    (co_pcp (coordinator k)) (Request.block_hashes r)) as (cols & Ef & Hc & Hh & _ & Hle & _ & _);
    [done|split; [done|by apply Forall_singleton]|apply plain_views| |lia|lia|lia|].
  { by rewrite (group_full _ _ _ Hg (eq_sym Ep)). }
  unfold pool_of in Ef. rewrite Ef. cbn [mbind res_bind].
  rewrite first_cols by (done || cbn; lia). cbn [mbind res_bind]. rewrite Es in Hle.
  eexists _, _, _. split; [done|]. split; [apply fmap_is_Some|]. rewrite Eb.
  pose proof (hit_blocks_ok (pool_of k) _ _ Hix Hnd Hc Hh) as Hok. unfold per_group. cbn [seq fmap list_fmap length].
  assert (zlen (omap (λ c : list ref, c !! 0%nat) cols) = zlen cols) as El.
  { unfold zlen. f_equal. apply (length_omap_cols 1); [done|lia]. }
  rewrite El. split; [pose proof (zlen_nonneg cols); nia|].
  set (first := omap _ cols) in *. unfold create_kv_cache_blocks. cbn [existsb].
  destruct (decide (first = [])) as [E0|E0].
  - rewrite E0 in *. rewrite <- El. done.
  - rewrite (proj2 (Z.eqb_neq _ _)). 2: { by rewrite zlen_0. }
    cbn. exists m, first. unfold manager_of. rewrite (ks_managers _ _ _ H), El. done.
Qed.

(** ** Capacity *)

(** The check of the coordinator, for the hits [hits]. *)
Lemma capacity_one k m fl rid n hits enc total nm :
  kv_state k m fl → (hits = [] ∨ num_cached_block m !! rid = None) →
  ∃ need, base_num_blocks_to_allocate m (pool_of k) rid n hits total = Ok need
    ∧ coord_num_blocks_to_allocate (coordinator k) rid n [hits] enc total nm = Ok (need, coordinator k).
Proof.
  intros H Hh. assert (∃ need, base_num_blocks_to_allocate m (pool_of k) rid n hits total = Ok need) as [need E].
  { unfold base_num_blocks_to_allocate. destruct Hh as [-> | ->]; [|by eexists].
    destruct (num_cached_block m !! rid); by eexists. }
  exists need. split; [done|]. unfold coord_num_blocks_to_allocate.
  erewrite (run_managers_one _ _ m need m (pool_of k)); [|apply H|].
  - cbn. rewrite Z.add_0_r. do 2 f_equal. pose proof (ks_managers _ _ _ H) as E0. unfold pool_of.
    rewrite <- E0. by destruct (coordinator k).
  - pose proof (go_plain _ _ _ (ks_group _ _ _ H)) as Hpl. unfold pool_of in E.
    unfold is_cross, get_num_blocks_to_allocate. destruct (mgr_spec m); try done;
    change (py_index [hits] 0) with (Ok hits); cbn [mbind res_bind]; by rewrite E.
Qed.

Lemma with_same k : with_coordinator k (coordinator k) = k.
Proof. by destruct k. Qed.

Lemma empty_list k m fl : kv_state k m fl → kb_blocks k EmptyBlocks = [[]].
Proof. intros H. cbn. by rewrite (ks_groups _ _ _ H). Qed.

Lemma can_fit_ok k m fl r n blks :
  kv_state k m fl → hit_found k r blks n →
  ∃ b, can_fit_full_sequence k r n (Some blks) 0 0 = Ok (b, k).
Proof.
  intros H Hh. unfold can_fit_full_sequence.
  assert (∃ hits e, computed_list k (Some blks) = ([hits], e)
    ∧ (hits = [] ∨ num_cached_block m !! request_id r = None)) as (hits & e & -> & Hhits).
  { destruct blks as [|l]; cbn [computed_list].
    - rewrite (empty_list _ _ _ H). eauto.
    - destruct Hh as (m0 & hits & Em & Ec & -> & _ & _ & _ & Hb). eexists _, _. split; [done|]. right.
      unfold manager_of in Em. rewrite (ks_managers _ _ _ H) in Em. injection Em as <-.
      rewrite (ks_caching _ _ _ H) in Ec. by apply (group_counted _ _ _ _ (ks_group _ _ _ H) Ec). }
  edestruct (capacity_one k m fl (request_id r)) as (need & _ & E); [done|exact Hhits|].
  rewrite E. cbn [mbind res_bind]. rewrite with_same. eauto.
Qed.

(** ** Allocation *)

Lemma cacheable_same k k' r r' :
  km_enable_caching k' = km_enable_caching k → hash_block_size (pool_of k') = hash_block_size (pool_of k) →
  same_request r r' → hashable sha256 r' → cacheable_request k r → cacheable_request k' r'.
Proof. intros E1 E2 Hs Hh Hr E. rewrite E1 in E. destruct (Hr E) as (_ & ? & ?). split_and!; [done| |rewrite E2]; by rewrite Hs. Qed.

(** The end of [allocate_slots]: the new blocks, and the registration of the full
    ones. *)
Lemma finish_ok k m fl r need main enc delay cache :
  kv_state k m fl → cacheable_request k r → missing_blocks m (request_id r) need ≤ zlen fl →
  cache ≤ need → cache ≤ num_tokens r →
  ∃ o k' r',
    ('(new_blocks, c) ← coord_allocate_new_blocks use_int (coordinator k) (request_id r) need main enc;
     if negb (km_enable_caching k) || delay then
       Ok (Some (create_kv_cache_blocks new_blocks), with_coordinator k c, r)
     else
     '(c, r) ← coord_cache_blocks use_int sha256 c r cache;
     Ok (Some (create_kv_cache_blocks new_blocks), with_coordinator k c, r)) = Ok (Some o, k', r')
    ∧ (∃ m' fl', kv_state k' m' fl' ∧ same_mgr (request_id r) m m'
         ∧ req_blocks m (request_id r) `prefix_of` req_blocks m' (request_id r))
    ∧ kv_frame (request_id r) k k' ∧ same_request r r' ∧ cacheable_request k' r'
    ∧ need ≤ kv_slots k' (request_id r).
Proof.
  intros H Hr Hn Hc Hcn. set (rid := request_id r) in *. pose proof (ks_group _ _ _ H) as Hg.
  destruct (group_grow use_int m (pool_of k) fl rid need main Hg Hn)
    as (m1 & p1 & fl1 & new & E1 & Hg1 & Hp1 & Hm1 & _ & Hl1 & Hpre).
  unfold coord_allocate_new_blocks. erewrite run_managers_one; [|apply H|].
  2: { unfold pool_of in E1. pose proof (go_plain _ _ _ Hg). unfold is_cross. destruct (mgr_spec m); done. }
  cbn [mbind res_bind]. pose proof (go_bs _ _ _ Hg) as Hbs.
  destruct (update_ok k m fl rid m1 p1 fl1) as [H1 F1]; [done..|].
  assert (need ≤ zlen (req_blocks m1 rid) * mgr_block_size m1) as Hneed.
  { rewrite Hl1, (sm_bs _ _ _ Hm1). pose proof (cdiv_bounds need (mgr_block_size m) Hbs). nia. }
  destruct (negb (km_enable_caching k) || delay) eqn:Ec.
  { eexists _, _, r. split; [done|]. split; [by exists m1, fl1|]. split; [done|]. split; [done|].
    split; [|exact Hneed]. by destruct F1 as (_ & _ & F1); apply F1. }
  apply orb_false_iff in Ec as [Ec%negb_false_iff _].
  destruct (Hr Ec) as (Hh & _ & Hlen). pose proof (ks_caching _ _ _ H) as Ep. rewrite Ec in Ep.
  pose proof (go_mode _ _ _ Hg) as Hmode. unfold cache_mode in Hmode. rewrite <- Ep in Hmode.
  destruct Hmode as (_ & _ & Ehb & _).
  destruct (group_cache use_int sha256 m1 p1 fl1 r cache) as (m2 & p2 & r2 & E2 & Hg2 & Hp2 & Hm2 & Hs2 & Hh2 & Hb2).
  { done. }
  { by rewrite (sp_caching _ _ Hp1). }
  { done. }
  { fold rid. rewrite (sm_bs _ _ _ Hm1) in *. apply Z.div_le_upper_bound; lia. }
  { rewrite (sm_bs _ _ _ Hm1). etrans; [|exact Hlen]. rewrite Ehb. apply Z.div_le_mono; lia. }
  unfold coord_cache_blocks. cbn [single_type_managers with_state each_cache block_pool]. rewrite E2.
  cbn [mbind res_bind]. eexists _, _, r2. split; [done|].
  destruct (update_ok k m fl rid m2 p2 fl1) as [H2 F2]; [done|done|by etrans|by etrans|].
  split; [exists m2, fl1; split_and!; [done|by etrans|by fold rid in Hb2; rewrite Hb2]|].
  split; [done|]. split; [done|]. split.
  - apply (cacheable_same k _ r); [done| |done..]. cbn.
    by rewrite (sp_hash_bs _ _ Hp2), (sp_hash_bs _ _ Hp1).
  - change (need ≤ zlen (req_blocks m2 rid) * mgr_block_size m2). fold rid in Hb2. by rewrite Hb2, (sm_bs _ _ _ Hm2).
Qed.

(** The start of [allocate_slots]: blocks out of the window go. *)
Lemma skip_ok k m fl rid t :
  kv_state k m fl →
  ∃ m1 p1 fl1, coord_remove_skipped_blocks (coordinator k) rid t = Ok (coordinator (update k m1 p1))
    ∧ kv_state (update k m1 p1) m1 fl1 ∧ kv_frame rid k (update k m1 p1) ∧ same_mgr rid m m1
    ∧ zlen (req_blocks m1 rid) = zlen (req_blocks m rid)
    ∧ (km_enable_caching k = true → m1 = m ∧ p1 = pool_of k ∧ fl1 = fl).
Proof.
  intros H. destruct (group_skip m (pool_of k) fl rid t (ks_group _ _ _ H))
    as (m1 & p1 & fl1 & E1 & Hg1 & Hp1 & Hm1 & Hl1 & Hsame). rewrite <- (ks_caching _ _ _ H) in Hsame.
  exists m1, p1, fl1. destruct (update_ok k m fl rid m1 p1 fl1) as [H1 F1]; [done..|].
  split; [|done]. unfold coord_remove_skipped_blocks.
  erewrite run_managers_one; [|apply H|unfold pool_of in E1; by rewrite E1]. done.
Qed.

Lemma free_blocks_count k m fl : kv_state k m fl → get_num_free_blocks (pool_of k) = zlen fl.
Proof. intros H. apply (free_count _ _ _ _ (go_pool _ _ _ (ks_group _ _ _ H))). Qed.

Lemma cacheable_frame rid k k' r : kv_frame rid k k' → cacheable_request k r → cacheable_request k' r.
Proof. intros (_ & _ & Hf). apply Hf. Qed.

(** Tokens for a request whose computed tokens have slots. *)
Lemma allocate_ok k m fl r n blks look delay enc :
  kv_state k m fl → cacheable_request k r → blks = None ∨ blks = Some EmptyBlocks →
  0 < n → 0 ≤ look → 0 ≤ num_computed_tokens r ≤ kv_slots k (request_id r) →
  num_computed_tokens r + n ≤ km_max_model_len k →
  ∃ o k' r', allocate_slots use_int sha256 k r n 0 blks look 0 delay enc = Ok (o, k', r')
    ∧ (∃ m' fl', kv_state k' m' fl' ∧ same_mgr (request_id r) m m'
         ∧ (o = None → zlen fl' < missing_blocks m' (request_id r)
         (Z.min (num_computed_tokens r + n + look) (km_max_model_len k))))
    ∧ kv_frame (request_id r) k k' ∧ same_request r r' ∧ cacheable_request k' r'
    ∧ match o with
      | Some _ => num_computed_tokens r + n ≤ kv_slots k' (request_id r)
      | None => kv_slots k' (request_id r) = kv_slots k (request_id r)
      end.
Proof.
  intros H Hr Hb Hn Hlook Hc Hmax. rewrite (slots_state k m fl) in Hc by done.
  set (rid := request_id r) in *. set (done_ := num_computed_tokens r) in *.
  unfold allocate_slots. rewrite (proj2 (Z.eqb_neq n 0)) by lia. cbn [andb].
  assert (computed_list k blks = ([[]], true)) as ->.
  { destruct Hb as [-> | ->]; cbn [computed_list]; by rewrite (empty_list _ _ _ H). }
  fold rid done_. rewrite !Z.add_0_r, (Z.min_l done_) by lia.
  destruct (skip_ok k m fl rid done_ H) as (m1 & p1 & fl1 & -> & H1 & F1 & Hm1 & Hl1 & _). cbn [mbind res_bind].
  set (need := Z.min (done_ + n + look) (km_max_model_len k)). set (k1 := update k m1 p1) in *.
  pose proof (ks_group _ _ _ H1) as Hg1.
  destruct (capacity_one k1 m1 fl1 rid need [] enc done_ (done_ + n) H1) as (nb & En & ->); [by left|].
  rewrite capacity_running in En.
  2: { apply skipped_within; eauto with kv. by rewrite Hl1, (sm_bs _ _ _ Hm1). }
  injection En as <-. cbn [mbind res_bind]. change (block_pool (coordinator k1)) with (pool_of k1).
  rewrite (free_blocks_count _ _ _ H1).
  destruct (_ <? _) eqn:Ef; to_prop.
  { eexists None, k1, r. split; [done|]. split; [by exists m1, fl1|]. split; [done|]. split; [done|].
    split; [by apply (cacheable_frame rid k)|].
    by rewrite (slots_state k1 m1 fl1), (slots_state k m fl), Hl1, (sm_bs _ _ _ Hm1). }
  cbn [negb orb Z.ltb Z.compare mbind res_bind].
  destruct (finish_ok k1 m1 fl1 r need (done_ + n) enc delay (Z.min (done_ + n) (num_tokens r)))
    as (o & k' & r' & E & Hk' & F' & Hs & Hr' & Hslots);
    [done|by apply (cacheable_frame rid k)|done|lia..|].
  exists (Some o), k', r'. split; [exact E|].
  split; [destruct Hk' as (m' & fl' & ? & ? & _); exists m', fl'; split_and!; [done|by etrans|done]|]. split; [by etrans|].
  split; [done|]. split; [done|]. unfold need in Hslots. fold rid in Hslots. lia.
Qed.

(** Tokens after a prefix hit. *)
Lemma allocate_blocks_ok k m fl r n hits local look delay enc :
  kv_state k m fl → cacheable_request k r → hit_found k r (Blocks [hits]) local → num_computed_tokens r = 0 →
  0 < n → 0 ≤ look → local + n ≤ km_max_model_len k →
  ∃ o k' r', allocate_slots use_int sha256 k r n local (Some (Blocks [hits])) look 0 delay enc = Ok (o, k', r')
    ∧ (∃ m' fl', kv_state k' m' fl' ∧ same_mgr (request_id r) m m'
         ∧ match o with
           | Some _ => hits `prefix_of` req_blocks m' (request_id r)
           | None => m' = m
               ∧ zlen hits + zlen (filter (λ b, b ∉ hits) fl')
                 < cdiv (Z.min (local + n + look) (km_max_model_len k)) (mgr_block_size m)
           end)
    ∧ kv_frame (request_id r) k k' ∧ same_request r r' ∧ cacheable_request k' r'
    ∧ match o with
      | Some _ => local + n ≤ kv_slots k' (request_id r)
      | None => kv_slots k' (request_id r) = kv_slots k (request_id r)
      end.
Proof.
  intros H Hr (m0 & hits0 & Em & Ec & [= <-] & Hne & Hok & El & Hb) Hz Hn Hlook Hmax. set (rid := request_id r) in *.
  unfold manager_of in Em. rewrite (ks_managers _ _ _ H) in Em. injection Em as <-.
  pose proof (ks_group _ _ _ H) as Hg. pose proof (go_bs _ _ _ Hg) as Hbs.
  pose proof (ks_caching _ _ _ H) as Ep. rewrite Ec in Ep.
  assert (num_cached_block m !! rid = None) as Hcn by (by apply (group_counted _ _ _ _ Hg (eq_sym Ep))).
  pose proof (zlen_nonneg hits) as Hhn. pose proof (evictable_exact _ _ _ hits (go_pool _ _ _ Hg) Hok) as Hev.
  unfold allocate_slots. rewrite (proj2 (Z.eqb_neq n 0)) by lia. cbn [andb computed_list].
  rewrite Hz. fold rid. rewrite !Z.add_0_r, !Z.add_0_l, (Z.min_l local) by lia.
  set (need := Z.min (local + n + look) (km_max_model_len k)).
  destruct (skip_ok k m fl rid local H) as (m1 & p1 & fl1 & -> & H1 & F1 & _ & _ & Hsame). cbn [mbind res_bind].
  destruct (Hsame Ec) as (-> & -> & ->). rewrite (update_id k m fl) in * by done.
  destruct (capacity_one k m fl rid need hits enc local (local + n) H) as (nb & En & ->); [by right|].
  rewrite capacity_new in En by done. rewrite zlen_hit_blocks in En.
  rewrite (full_skips_no_block m local (group_full _ _ _ Hg (eq_sym Ep))) in En.
  change (drop (Z.to_nat 0) hits) with hits in En. injection En as <-. cbn [mbind res_bind].
  change (block_pool (coordinator k)) with (pool_of k). rewrite (free_blocks_count _ _ _ H).
  destruct (_ <? _) eqn:Ef; to_prop.
  { eexists None, k, r. rewrite with_same. split; [done|]. split; [|by split_and!].
    exists m, fl. split_and!; [done..|]. pose proof (zlen_nonneg (filter (λ b, b ∉ hits) fl)). lia. }
  cbn [negb orb mbind res_bind].
  destruct (group_hit use_int m (pool_of k) fl rid hits local) as (m2 & p2 & E2 & Hg2 & Hp2 & Hm2 & Hb2); [done..|].
  unfold coord_allocate_new_computed_blocks. erewrite run_managers_one; [|apply H|].
  2: { change (py_index [hits] 0) with (Ok hits). unfold pool_of in E2. cbn [mbind res_bind]. by rewrite E2. }
  cbn [mbind res_bind]. destruct (update_ok k m fl rid m2 p2 _ H Hg2 Hp2 Hm2) as [H2 F2].
  destruct (finish_ok (update k m2 p2) m2 _ r need (local + n) enc delay (Z.min (local + n) (num_tokens r)) H2)
    as (o & k' & r' & E & (m' & fl' & Hk' & Hm' & Hpre) & F' & Hs & Hr' & Hslots);
    [by apply (cacheable_frame rid k)| |lia..|].
  { unfold missing_blocks. fold rid. rewrite Hb2, (sm_bs _ _ _ Hm2). lia. }
  exists (Some o), k', r'. split; [exact E|]. split.
  { exists m', fl'. fold rid in Hpre. rewrite Hb2 in Hpre. split_and!; [done|by etrans|done]. }
  split; [by etrans|]. split; [done|]. split; [done|]. fold rid in Hslots. lia.
Qed.

(** The manager of one group keeps the scheduler's laws. *)
#[export] Instance KVCacheManager_laws : KVManagerLaws KVCacheManager.
Proof.
  split.
  - intros k id (m & fl & H). rewrite (slots_state k m fl) by done.
    pose proof (go_bs _ _ _ (ks_group _ _ _ H)). pose proof (zlen_nonneg (req_blocks m id)). nia.
  - intros k r r' E1 E2 E3 E4 E5 _ _ _ _ _ _ _ _ Hr Ec. destruct (Hr Ec) as ([Hm He] & Hn & Hl).
    unfold hashable, embed_cache_ok, num_tokens in *. by rewrite E1, E2, E3, E4, E5.
  - intros k (m & fl & H). by apply (new_step_ok k m fl).
  - intros k id (m & fl & H). by apply (common_prefix_ok k m fl).
  - intros k (m & fl & H). by apply (take_new_ok k m fl).
  - intros k (m & fl & H). by apply (take_events_ok k m fl).
  - intros k (m & fl & H). by apply (drain_ok k m fl).
  - intros k (m & fl & H). cbn [kv_make_prefix_cache_stats kv_cache_manager_ops KVCacheManager_ops].
    unfold make_prefix_cache_stats. destruct (prefix_cache_stats k) as [st|] eqn:Est.
    + split_and!; [exists m, fl; by apply stats_state| |by eexists]. split_and!; [|done..].
      unfold kv_params. cbn. by rewrite Est.
    + split_and!; [by exists m, fl|done|]. cbn. rewrite Est. done.
  - intros k r n blks look (m & fl & H) Hr Hb Hn Hl Hc Hm.
    destruct (allocate_ok k m fl r n blks look false 0) as (o & k' & r' & E & (m' & fl' & H' & _) & ?); [done..|].
    exists o, k', r'. split; [done|]. split; [by exists m', fl'|done].
  - intros k r (m & fl & H). by apply (free_ok k m fl).
  - intros k r (m & fl & H) Hr Hs Hn. rewrite (slots_state k m fl) in Hs by done.
    pose proof (go_bs _ _ _ (ks_group _ _ _ H)).
    assert (req_blocks m (request_id r) = []) as Hb by (apply zlen_0; nia).
    destruct (computed_ok k m fl r) as (blks & n & st & E & Hst & Hn' & Hh); [done..|].
    exists blks, n, (with_stats k st). split; [done|]. split; [by exists m, fl; apply stats_state|].
    split; [split; [|done]; unfold kv_params; cbn; do 2 f_equal; by apply bool_decide_ext|].
    split; [|done]. rewrite (slots_state _ m fl), Hb by (by apply stats_state). done.
  - intros k r blks n (m & fl & H) _ Hh _. destruct (can_fit_ok k m fl r n blks) as [b E]; [done..|].
    exists b, k. split; [done|]. split; [by exists m, fl|]. done.
  - intros k r (m & fl & H) _ _. destruct (can_fit_ok k m fl r 0 EmptyBlocks) as [b E]; [done..|].
    exists b, k. split; [done|]. split; [by exists m, fl|]. done.
  - intros k r n [|l] local (m & fl & H) Hr Hh Hz Hn Hmax.
    + cbn in Hh, Hmax. subst local. destruct (allocate_ok k m fl r n (Some EmptyBlocks) 0 false 0)
        as (o & k' & r' & E & (m' & fl' & H' & _) & ?); [done|done|by right|done|done| |lia|].
      { rewrite (slots_state k m fl) by done. pose proof (go_bs _ _ _ (ks_group _ _ _ H)).
        pose proof (zlen_nonneg (req_blocks m (request_id r))). nia. }
      rewrite Hz in *. exists o, k', r'. split; [done|]. split; [by exists m', fl'|done].
    + pose proof Hh as (_ & hits & _ & _ & -> & _).
      destruct (allocate_blocks_ok k m fl r n hits local 0 false 0)
        as (o & k' & r' & E & (m' & fl' & H' & _) & ?); [done..|].
      exists o, k', r'. split; [done|]. split; [by exists m', fl'|done].
Qed.
End instance.

(** The calls of [allocate_slots] for a group: for a request whose computed
    tokens have slots, or for a request without blocks, with the answer
    [get_computed_blocks] gave for it just before. *)
Inductive slots_call sha256 (k : KVCacheManager) (m : Manager) (fl : list ref) (r : Request)
    : option KVCacheBlocks → Z → Prop :=
  | call_continue :
      kv_state k m fl → cacheable_request sha256 k r →
      num_computed_tokens r ≤ zlen (req_blocks m (request_id r)) * mgr_block_size m →
      slots_call sha256 k m fl r None 0
  | call_start k0 blks local :
      kv_state k0 m fl → cacheable_request sha256 k0 r →
      num_computed_tokens r = 0 → 0 < num_tokens r → req_blocks m (request_id r) = [] →
      get_computed_blocks k0 r = Ok (blks, local, k) →
      slots_call sha256 k m fl r (Some blks) local.

(** The blocks of the hit passed to the call. *)
Definition hit_list (blks : option KVCacheBlocks) : list ref :=
  match blks with Some (Blocks [hits]) => hits | _ => [] end.

(** What a call leaves, for the hit [hits] of [local] tokens. *)
Definition slots_outcome sha256 (k : KVCacheManager) (m : Manager) (r : Request) (hits : list ref)
    (local n look : Z) (o : option KVCacheBlocks) (k' : KVCacheManager) (r' : Request)
    (m' : Manager) (fl' : list ref) : Prop :=
  kv_state k' m' fl' ∧ same_request r r' ∧ cacheable_request sha256 k' r'
  ∧ (∀ id, id ≠ request_id r → req_blocks m' id = req_blocks m id)
  ∧ mgr_block_size m' = mgr_block_size m
  ∧ match o with
    | Some _ => num_computed_tokens r + local + n ≤ zlen (req_blocks m' (request_id r)) * mgr_block_size m
        ∧ hits `prefix_of` req_blocks m' (request_id r)
    | None => zlen (req_blocks m' (request_id r)) = zlen (req_blocks m (request_id r))
        ∧ (zlen (req_blocks m (request_id r)) + zlen hits + zlen (filter (λ b, b ∉ hits) fl')) * mgr_block_size m
          < Z.min (num_computed_tokens r + local + n + look) (km_max_model_len k)
    end.

Lemma cdiv_lt_mul x a b : 0 < b → x < cdiv a b → x * b < a.
Proof. intros Hb Hx. pose proof (cdiv_le a b x Hb). lia. Qed.

Section calls.
Context (use_int : bool) (sha256 : bytes → bytes).

Lemma plain_call_outcome k m fl r n blks look delay enc :
  kv_state k m fl → cacheable_request sha256 k r → blks = None ∨ blks = Some EmptyBlocks →
  0 < n → 0 ≤ look → 0 ≤ num_computed_tokens r ≤ zlen (req_blocks m (request_id r)) * mgr_block_size m →
  num_computed_tokens r + n ≤ km_max_model_len k →
  ∃ o k' r' m' fl', allocate_slots use_int sha256 k r n 0 blks look 0 delay enc = Ok (o, k', r')
    ∧ slots_outcome sha256 k m r [] 0 n look o k' r' m' fl'.
Proof.
  intros H Hr Hb Hn Hl Hc Hm. rewrite <- (slots_state sha256 k m fl) in Hc by done.
  destruct (allocate_ok use_int sha256 k m fl r n blks look delay enc)
    as (o & k' & r' & E & (m' & fl' & H' & Hsm & Hnone) & _ & Hs & Hr' & Ho); [done..|].
  exists o, k', r', m', fl'. split; [done|]. pose proof (sm_bs _ _ _ Hsm) as Ebs.
  split; [done|]. split; [done|]. split; [done|]. split; [apply Hsm|]. split; [done|].
  rewrite !Z.add_0_r. destruct o; rewrite (slots_state sha256 _ _ _ _ H') in Ho.
  - rewrite <- Ebs. split; [done|apply prefix_nil].
  - rewrite (slots_state sha256 _ _ _ _ H) in Ho. pose proof (go_bs _ _ _ (ks_group _ _ _ H)) as Hbs.
    assert (zlen (req_blocks m' (request_id r)) = zlen (req_blocks m (request_id r))) as El.
    { rewrite Ebs in Ho. by apply Z.mul_reg_r in Ho; [|lia]. }
    split; [done|]. specialize (Hnone eq_refl). unfold missing_blocks in Hnone. rewrite El, Ebs in Hnone.
    rewrite list_filter_all by (apply Forall_forall; intros x _; apply not_elem_of_nil).
    apply cdiv_lt_mul; [done|]. change (zlen (@nil ref)) with 0. pose proof (zlen_nonneg fl'). lia.
Qed.

Lemma hit_call_outcome k m fl r n hits local look delay enc :
  kv_state k m fl → cacheable_request sha256 k r → hit_found k r (Blocks [hits]) local →
  num_computed_tokens r = 0 → req_blocks m (request_id r) = [] →
  0 < n → 0 ≤ look → local + n ≤ km_max_model_len k →
  ∃ o k' r' m' fl', allocate_slots use_int sha256 k r n local (Some (Blocks [hits])) look 0 delay enc = Ok (o, k', r')
    ∧ slots_outcome sha256 k m r hits local n look o k' r' m' fl'.
Proof.
  intros H Hr Hh Hz Hb Hn Hl Hm.
  destruct (allocate_blocks_ok use_int sha256 k m fl r n hits local look delay enc)
    as (o & k' & r' & E & (m' & fl' & H' & Hsm & Hout) & _ & Hs & Hr' & Ho); [done..|].
  exists o, k', r', m', fl'. split; [done|]. pose proof (sm_bs _ _ _ Hsm) as Ebs.
  split; [done|]. split; [done|]. split; [done|]. split; [apply Hsm|]. split; [done|].
  rewrite Hz, Z.add_0_l. destruct o.
  - rewrite (slots_state sha256 _ _ _ _ H'), Ebs in Ho. done.
  - destruct Hout as [-> Hlt]. split; [done|].
    apply cdiv_lt_mul; [apply (go_bs _ _ _ (ks_group _ _ _ H))|]. by rewrite Hb, zlen_nil.
Qed.

(** [get_computed_blocks] answers no block or the hit of the one group. *)
Lemma hit_found_list k r b n :
  hit_found k r b n → (b = EmptyBlocks ∧ n = 0) ∨ ∃ hits, b = Blocks [hits].
Proof. destruct b; [by left|]. intros (m & hits & _ & _ & -> & _). right. by exists hits. Qed.
End calls.

(** C7: in a KV cache with one group of full, sliding-window or chunked local
    attention, with prefix caching only for full attention, [allocate_slots]
    without external tokens never raises for a request whose computed tokens
    have slots, nor for a request without blocks that is given the answer of
    [get_computed_blocks], whatever the lookahead, encoder tokens and delay of
    caching.  It gives the request slots for the computed, the hit and the new
    tokens, the blocks of the hit first, or it answers [None]: then the request
    keeps its number of slots, and its blocks, the blocks of the hit and the
    other free blocks together have too few slots for the new and the lookahead
    tokens.  In both cases the accounting of blocks holds and the other requests
    keep their blocks. *)
Theorem allocate_slots_contract use_int sha256 k m fl r n blks local look delay enc :
  slots_call sha256 k m fl r blks local → 0 < n → 0 ≤ look → 0 ≤ num_computed_tokens r →
  num_computed_tokens r + local + n ≤ km_max_model_len k →
  ∃ o k' r' m' fl', allocate_slots use_int sha256 k r n local blks look 0 delay enc = Ok (o, k', r')
    ∧ slots_outcome sha256 k m r (hit_list blks) local n look o k' r' m' fl'.
Proof.
  intros [H Hr Hc|k0 blks0 local0 H Hr Hz Ht Hb E] Hn Hl H0 Hm.
  - apply (plain_call_outcome use_int sha256 k m fl); auto. lia.
  - destruct (computed_ok sha256 k0 m fl r H Hr Hb Ht) as (b & i & st & E' & _ & _ & Hh).
    rewrite E in E'. injection E' as -> -> ->. apply (stats_state k0 m fl st) in H.
    destruct (hit_found_list _ _ _ _ Hh) as [[-> ->]|[hits ->]].
    + apply (plain_call_outcome use_int sha256 _ m fl); auto; [|lia].
      rewrite Hz. pose proof (go_bs _ _ _ (ks_group _ _ _ H)).
      pose proof (zlen_nonneg (req_blocks m (request_id r))). nia.
    + apply (hit_call_outcome use_int sha256 _ m fl); auto. lia.
Qed.

(** ** Construction *)

(** The block size a coordinator of one group uses. *)
Lemma unitary_block_size b dcp pcp :
  0 < dcp → 0 < pcp →
  (let bs := if 1 <? dcp then b * dcp else b in if 1 <? pcp then bs * pcp else bs)
  = if 1 <? dcp * pcp then b * (dcp * pcp) else b.
Proof.
  intros Hd Hp. cbv zeta. destruct (Z.ltb_spec 1 dcp), (Z.ltb_spec 1 pcp), (Z.ltb_spec 1 (dcp * pcp));
    try (assert (dcp = 1) by lia); try (assert (pcp = 1) by lia); subst; try lia; nia.
Qed.

Lemma group_ok_fresh p fl spec bs :
  PoolInv ∅ ∅ p fl → plain spec = true → window_ok spec → 0 < bs →
  (enable_caching p = true → is_full spec = true ∧ bs = hash_block_size p) →
  group_ok (mkManager spec bs (enable_caching p) [] ∅ ∅ 0 (null_block p) ∅ ∅ ∅ []) p fl.
Proof.
  intros Hp Hpl Hw Hb Hc. split; try done.
  - intros rid. constructor.
  - intros rid. exists 0%nat, []. split; [done|apply not_elem_of_nil].
  - unfold cache_mode. destruct (enable_caching p); [|done]. destruct (Hc eq_refl). split_and!; [done..|].
    intros rid. split; [done|done|apply not_elem_of_nil|done].
Qed.

(** Constructing the KV-cache manager for one group of full, sliding-window
    or chunked attention succeeds, with a free list of all blocks but the null
    block and no slots in use; with prefix caching the group is one of full
    attention and the hash block size is the block size scaled by the context
    parallelism. *)
Lemma manager_init_state cfg spec max_len hbs caching eagle log events dcp pcp coll :
  kv_cache_spec <$> kv_cache_groups cfg = [spec] → plain spec = true → window_ok spec →
  0 < block_size spec → 0 < num_blocks cfg → 0 < dcp → 0 < pcp →
  (caching = true → is_full spec = true ∧ hbs = scaled_block_size spec dcp pcp) →
  ∃ k m, kv_cache_manager_init cfg max_len hbs caching eagle log events dcp pcp coll = Ok k
    ∧ kv_state k m (RBlk <$> seq 1 (Z.to_nat (num_blocks cfg) - 1))
    ∧ km_max_model_len k = max_len ∧ km_enable_caching k = caching
    ∧ (is_Some (prefix_cache_stats k) ↔ log = true)
    ∧ hash_block_size (pool_of k) = hbs ∧ ∀ id, req_blocks m id = [].
Proof.
  intros Hgs Hpl Hw Hbs Hn Hd Hp Hc.
  destruct (pool_init_spec (num_blocks cfg) caching hbs events coll Hn) as (p & Ep & Hinv & _ & Ec & Eh & _).
  assert (zlen (kv_cache_groups cfg) = 1) as Hl.
  { pose proof (f_equal length Hgs) as Hl. rewrite length_fmap in Hl. unfold zlen. by rewrite Hl. }
  unfold kv_cache_manager_init, get_kv_cache_coordinator, coordinator_init. rewrite Hl, Hgs, Ep.
  set (bs := scaled_block_size spec dcp pcp) in *.
  set (m := mkManager spec bs caching [] ∅ ∅ 0 (null_block p) ∅ ∅ ∅ []).
  assert (init_managers 0 [spec] caching dcp pcp p = Ok ([m], p)) as Em.
  { cbn [init_managers]. unfold manager_init, plain in *. destruct spec; cbn in Hpl; done. }
  assert (0 < bs) as Hb by (unfold bs, scaled_block_size; case_match; nia).
  assert (group_ok m p (RBlk <$> seq 1 (Z.to_nat (num_blocks cfg) - 1))) as Hg.
  { unfold m. rewrite <- Ec. apply group_ok_fresh; [done..|]. rewrite Ec, Eh. intros E. destruct (Hc E). done. }
  cbn [mbind res_bind]. rewrite Em. cbn [mbind res_bind]. destruct caching; cbn [negb Z.eqb orb].
  - destruct (Hc eq_refl) as [_ Ehb]. change (1 =? 1) with true. cbn [Z.eqb Pos.eqb].
    rewrite unitary_block_size by done. change (if 1 <? dcp * pcp then _ else _) with bs.
    rewrite Ehb, Z.eqb_refl. cbn. eexists _, m. split; [done|]. split; [by split|]. rewrite <- Ehb.
    split_and!; try done. cbn. destruct log; split; (done || by intros []).
  - cbn. eexists _, m. split; [done|]. split; [by split|].
    split_and!; try done. cbn. destruct log; split; (done || by intros []).
Qed.
