(* ===== verification/Contracts.v ===== *)
(** * What is kept of a request while it is served

    A KV-cache manager relies on some attributes of the requests it is given
    ([kv_request_ok] of SchedLaws.v).  Whatever else depends only on attributes that a
    scheduling step leaves alone can be carried along: the laws of the manager
    hold for the stronger condition too.  Used for requests that generate text and
    carry the hashes of exactly their tokens. *)

From Stdlib Require Import String.
From S2P Require Import Prelude Request BlockHash KVCacheManager EncoderCache RequestQueue SchedUtils Scheduler.
From S2P Require Import Schedule SchedUpdate OutputProps SchedLaws Generation GroupInv KVManagerProps.
#[local] Open Scope Z_scope.

(** ** Carrying a condition along *)

(** [r'] has the attributes of [r] that a scheduling step leaves alone. *)
Record same_terms (r r' : Request) : Prop := {
  te_all : all_token_ids r' = all_token_ids r;
  te_hashes : block_hashes r' = block_hashes r;
  te_mm : mm_features r' = mm_features r;
  te_embeds : prompt_embeds r' = prompt_embeds r;
  te_lora : lora_request r' = lora_request r;
  te_salt : cache_salt r' = cache_salt r;
  te_output : output_token_ids r' = output_token_ids r;
  te_prompt : num_prompt_tokens r' = num_prompt_tokens r;
  te_sampling : sampling_params r' = sampling_params r;
  te_pooling : pooling_params r' = pooling_params r;
  te_resumable : resumable r' = resumable r;
  te_placeholders : num_output_placeholders r' = num_output_placeholders r;
}.

Lemma same_request_terms r r' : same_request r r' → same_terms r r'.
Proof. intros ->. by split. Qed.

Section carry.
Context {K : Type} `{L : KVManagerLaws K} (h : option Z) (Q : Z * bool * option Z → Request → Prop).
Context (HQ : ∀ p r r', same_terms r r' → Q p r → Q p r').

Definition carrying_view : KVManagerView K := {|
  kv_ok k := kv_ok k ∧ kv_hashing k = h;
  kv_slots := kv_slots;
  kv_max_len := kv_max_len;
  kv_logs := kv_logs;
  kv_hashing := kv_hashing;
  kv_request_ok k r := kv_request_ok k r ∧ Q (kv_params k) r;
  kv_hits := kv_hits;
|}.

Lemma carry_quiet k k' : kv_quiet k k' → @kv_quiet K carrying_view k k'.
Proof.
  intros (E1 & Hs & Hr). split_and!; [exact E1|exact Hs|]. intros r [H1 H2]. split; [by apply Hr|]. by rewrite E1.
Qed.

Lemma carry_frame id k k' : kv_frame id k k' → @kv_frame K carrying_view id k k'.
Proof.
  intros (E1 & Hs & Hr). split_and!; [exact E1|exact Hs|]. intros r [H1 H2]. split; [by apply Hr|]. by rewrite E1.
Qed.

Lemma carry_request k k' id r r' :
  kv_frame id k k' → same_request r r' → Q (kv_params k) r → Q (kv_params k') r'.
Proof. intros (E1 & _) Hs. rewrite E1. by apply HQ, same_request_terms. Qed.

Lemma carry_ok_quiet k k' : kv_quiet k k' → kv_hashing k = h → kv_hashing k' = h.
Proof. intros ([= _ _ ->] & _). done. Qed.

Lemma carry_ok_frame id k k' : kv_frame id k k' → kv_hashing k = h → kv_hashing k' = h.
Proof. intros ([= _ _ ->] & _). done. Qed.

#[local] Hint Resolve carry_quiet carry_frame carry_request carry_ok_quiet carry_ok_frame : core.

Lemma carrying_laws : @KVManagerLaws K _ carrying_view.
Proof.
  destruct L. split; cbn [carrying_view SchedLaws.kv_ok SchedLaws.kv_slots SchedLaws.kv_request_ok SchedLaws.kv_hits SchedLaws.kv_max_len SchedLaws.kv_logs].
  - intros k id [Hk _]. by apply kv_slots_nonneg.
  - intros k r r' E1 E2 E3 E4 E5 E6 E7 E8 E9 E10 E11 E12 E13 [H1 H2]. split; [by eapply kv_request_tokens|].
    by apply (HQ _ r).
  - intros k [Hk Hh]. destruct (law_new_step k Hk). eauto.
  - intros k id [Hk Hh]. destruct (law_common_prefix k id Hk) as (l & k' & ? & ? & ?). exists l, k'. split_and!; eauto.
  - intros k [Hk Hh]. destruct (law_take_new k Hk). eauto.
  - intros k [Hk Hh]. destruct (law_take_events k Hk). eauto.
  - intros k [Hk Hh]. destruct (law_drain k Hk). eauto.
  - intros k [Hk Hh]. destruct (law_stats k Hk) as (? & ? & ?). split_and!; eauto.
  - intros k r n blks look [Hk Hh] [Hr Hq] H1 H2 H3 H4 H5.
    destruct (law_allocate k r n blks look) as (o & k' & r' & ? & ? & ? & ? & ? & ?); [done..|].
    exists o, k', r'. split_and!; eauto.
  - intros k r [Hk Hh]. destruct (law_free k r Hk) as (k' & ? & ? & ? & ?). exists k'. split_and!; eauto.
  - intros k r [Hk Hh] [Hr Hq] H1 H2. destruct (law_computed k r) as (b & n & k' & ? & ? & ? & ? & [? ?] & ?); [done..|].
    exists b, n, k'. split_and!; eauto.
  - intros k r blks n [Hk Hh] [Hr Hq] H1 H2. destruct (law_can_fit k r blks n) as (b & k' & ? & ? & ? & ? & ?); [done..|].
    exists b, k'. split_and!; eauto.
  - intros k r [Hk Hh] [Hr Hq] H1. destruct (law_can_fit_empty k r) as (b & k' & ? & ? & ? & ?); [done..|].
    exists b, k'. split_and!; eauto.
  - intros k r n blks local [Hk Hh] [Hr Hq] H1 H2 H3 H4.
    destruct (law_allocate_hit k r n blks local) as (o & k' & r' & ? & ? & ? & ? & ? & ?); [done..|].
    exists o, k', r'. split_and!; eauto.
Qed.
End carry.

(** ** Generating requests with their hashes *)

Section generating.
Context (use_int : bool) (sha256 : bytes → bytes) (hash_fn : hash_input → bytes) (NONE_HASH : bytes).

(** No two inputs have the same hash, and no hash is the seed or empty. *)
Record ideal_hash : Prop := {
  ih_inj : ∀ x y, hash_fn x = hash_fn y → x = y;
  ih_seed : ∀ x, hash_fn x ≠ NONE_HASH;
  ih_nonempty : ∀ x, hash_fn x ≠ [];
}.

(** The hasher [get_request_block_hasher] gives to requests when hashed blocks
    have [bs] tokens; there is none without prefix caching. *)
Definition hasher_for (hashing : option Z) : option block_hasher :=
  request_block_hasher sha256 hash_fn NONE_HASH <$> hashing.

(** The request carries the hashes of exactly its tokens. *)
Definition hashed (hashing : option Z) (r : Request) : Prop :=
  match hashing with
  | Some bs => 0 < bs ∧ Request.block_hashes r = ref_hashes sha256 hash_fn NONE_HASH bs r
  | None => True
  end.

Lemma ideal_collision_free X Y : ideal_hash → collision_free hash_fn NONE_HASH X Y.
Proof. intros []. split; auto. Qed.

Lemma hashed_nodup bs r : ideal_hash → hashed (Some bs) r → NoDup (Request.block_hashes r).
Proof.
  intros Hi [Hb Hh]. apply NoDup_alt. intros i j h Ei Ej.
  by apply (shared_hash sha256 hash_fn NONE_HASH bs r r i j h Hb Hh Hh (ideal_collision_free _ _ Hi) Ei Ej).
Qed.

Lemma hashed_length bs r : hashed (Some bs) r → num_tokens r / bs ≤ zlen (Request.block_hashes r).
Proof.
  intros [Hb ->]. unfold zlen. rewrite length_ref_hashes. unfold num_full_blocks.
  pose proof (zlen_nonneg (all_token_ids r)). rewrite Z2Nat.id; [done|]. apply Z.div_pos; unfold num_tokens; lia.
Qed.

Lemma hashed_terms h r r' : same_terms r r' → hashed h r → hashed h r'.
Proof.
  intros [] Hh. destruct h as [bs|]; [|done]. destruct Hh as [Hb Hh]. split; [done|]. rewrite te_hashes0, Hh.
  unfold ref_hashes, contents, num_full_blocks, num_tokens, block_content, extra_keys, gen_lora_extra_hash_keys,
    cache_salt_keys, embeds_keys. by rewrite te_all0, te_mm0, te_embeds0, te_lora0, te_salt0.
Qed.

(** A request the scheduler serves to its end. *)
Record served (hasher : option block_hasher) (p : Z * bool * option Z) (r : Request) : Prop := {
  sv_generates : generates p.1.1 r;
  sv_hasher : hasher = hasher_for p.2;
  sv_hashed : hashed p.2 r;
  sv_text : mm_features r = [];
}.

Lemma served_terms hasher p r r' : same_terms r r' → served hasher p r → served hasher p r'.
Proof.
  intros Ht []. split; [|done|by eapply hashed_terms|by rewrite (te_mm _ _ Ht)].
  destruct sv_generates0, Ht. unfold num_tokens, num_output_tokens in *.
  split; unfold num_tokens, num_output_tokens;
    by rewrite ?te_all0, ?te_output0, ?te_prompt0, ?te_sampling0, ?te_pooling0, ?te_resumable0, ?te_placeholders0.
Qed.

#[local] Instance served_ops : KVManager KVCacheManager := KVCacheManager_ops use_int sha256.
Definition served_view (h : option Z) : KVManagerView KVCacheManager :=
  carrying_view (K := KVCacheManager) (H0 := KVCacheManager_view sha256) h (served (hasher_for h)).
#[export] Instance served_laws h : @KVManagerLaws KVCacheManager _ (served_view h).
Proof. apply (carrying_laws (L := KVCacheManager_laws use_int sha256)). apply served_terms. Qed.

(** The hasher keeps a request cacheable. *)
Lemma append_cacheable bs k r t :
  ideal_hash → kv_hashing (KVManagerView := KVCacheManager_view sha256) k = Some bs →
  cacheable_request sha256 k r → hashed (Some bs) r → mm_features r = [] →
  ∃ embeds hashes, append_output_token_ids (hasher_for (Some bs)) r [t] = Ok (extended r t embeds hashes)
    ∧ cacheable_request sha256 k (extended r t embeds hashes) ∧ hashed (Some bs) (extended r t embeds hashes).
Proof.
  intros Hi Ek Hr Hh Hmm. cbn in Ek. destruct (km_enable_caching k) eqn:Ec; [|done]. injection Ek as Eb.
  destruct (Hr Ec) as ([Hw He] & _). destruct (Hh) as [Hb Hh'].
  destruct (append_hashes_spec sha256 hash_fn NONE_HASH bs r [t] Hb Hw He Hh') as (r' & E & Et & Hh2 & He2).
  { intros _. rewrite Hmm. constructor. }
  exists (prompt_embeds_per_block_hashes r'), (Request.block_hashes r').
  assert (r' = extended r t (prompt_embeds_per_block_hashes r') (Request.block_hashes r')) as Er.
  { unfold append_output_token_ids in E. by apply (update_hashes_frame sha256 hash_fn NONE_HASH) in E. }
  rewrite <- Er. assert (hashed (Some bs) r') as Hhr by done. split_and!; try done. intros _. rewrite Eb.
  split_and!; [|by eapply hashed_nodup|by apply hashed_length]. split; [|done]. rewrite Er. by cbn.
Qed.

Lemma generates_extended max_len r t embeds hashes :
  generates max_len r → generates max_len (extended r t embeds hashes).
Proof.
  intros []. split; try done. unfold extended, num_tokens, num_output_tokens in *. cbn. rewrite !zlen_app. lia.
Qed.

Lemma served_generation h :
  ideal_hash → @GenerationLaws KVCacheManager (served_view h) (hasher_for h).
Proof.
  intros Hi. split; [intros k r [_ []]; done|]. intros k r t [Hr [Hg Eh Hh Ht]].
  assert (∃ embeds hashes, append_output_token_ids (hasher_for h) r [t] = Ok (extended r t embeds hashes)
    ∧ cacheable_request sha256 k (extended r t embeds hashes)
    ∧ hashed (kv_params (H := KVCacheManager_view sha256) k).2 (extended r t embeds hashes)) as (em & hs & E & Hc & Hx).
  { set (h' := (kv_params k).2) in *. assert (kv_hashing (KVManagerView := KVCacheManager_view sha256) k = h') as Ek by done.
    rewrite Eh. destruct h' as [bs|]; [by apply append_cacheable|]. cbn in Ek. destruct (km_enable_caching k) eqn:Ec; [done|].
    exists (prompt_embeds_per_block_hashes r), (Request.block_hashes r). split; [by destruct r|].
    split; [|done]. intros E1. congruence. }
  exists em, hs. split; [done|]. split; [done|]. split; [by apply generates_extended|done|done|done].
Qed.
End generating.
