(* ===== verification/Serving.v ===== *)
(** * A scheduler and an engine core in service

    The composition of the components: a scheduler built by its constructor over
    the KV-cache manager of one group takes in requests and schedules them.  Then
    the whole life of the engine core around it: requests arrive and are aborted at any
    time, and steps of the engine follow one another.  None of the calls ever raises. *)

From Stdlib Require Import String QArith.
From stdpp Require Import relations.
From S2P Require Import Prelude Blocks FreeQueue Request BlockHash Metrics HashMap BlockPool PoolInv KVCacheSpec.
From S2P Require Import CacheHit SingleTypeManager ManagerInv Coordinator KVCacheManager EncoderCache HeapQueue.
From S2P Require Import RequestQueue SchedUtils Scheduler Schedule SchedUpdate OutputProps SchedLaws SchedWF Preemption.
From S2P Require Import RunningLoop WaitingLoop StepProps StepOutput Admission Generation Abort EngineCore GroupInv KVManagerProps.
From S2P Require Import Contracts.
#[local] Open Scope Z_scope.

Section serving.
Context {E W C EC P : Type}.
Context `{EncoderTextLaws E} `{QueueImplLaws W} `{KVConnector C P} `{ECConnector EC}.
Context (use_int : bool) (sha256 : bytes → bytes).
#[local] Instance serving_ops : KVManager KVCacheManager := KVCacheManager_ops use_int sha256.
#[local] Instance serving_view : KVManagerView KVCacheManager := KVCacheManager_view sha256.
#[local] Instance serving_laws : KVManagerLaws KVCacheManager := KVCacheManager_laws use_int sha256.
#[local] Abbreviation sched := (Scheduler KVCacheManager E W C EC).

(** A configuration for text models with one KV-cache group of full, sliding-window or
    chunked attention, without LoRA and without a metrics collector; prefix caching only
    with full attention, with hash blocks of the size of the scaled blocks. *)
Record one_group (v : VllmFields) (kvc : KVCacheConfig) (hash_bs : Z) (spec : LayerSpec) : Prop := {
  og_group : kv_cache_spec <$> kv_cache_groups kvc = [spec];
  og_plain : plain spec = true;
  og_window : window_ok spec;
  og_block : 0 < block_size spec;
  og_blocks : 0 < num_blocks kvc;
  og_parallel : 0 < vf_dcp v ∧ 0 < vf_pcp v;
  og_caching : vf_enable_prefix_caching v = true →
    is_full spec = true ∧ hash_bs = scaled_block_size spec (vf_dcp v) (vf_pcp v);
  og_gpu : ∃ n, vf_num_gpu_blocks v = Some n ∧ 0 < n;
  og_decoder : vf_is_encoder_decoder v = false;
  og_seqs : 0 ≤ vf_max_num_seqs v;
  og_tokens : 0 ≤ py_or (vf_max_num_scheduled_tokens v) (vf_max_num_batched_tokens v);
  og_spec : 0 ≤ (default (0, false, false) (vf_speculative v)).1.1;
  og_loras : vf_max_loras v = None;
  og_metrics : vf_metrics_sample v = None;
}.

Lemma init_ready v kvc hash_bs spec fin log new_encoder ec clock draws blank :
  one_group v kvc hash_bs spec → (∀ i, object_id (blank i) = i) →
  ∃ s : sched, scheduler_init v kvc hash_bs fin log new_encoder None ec clock draws blank = Ok s
    ∧ Ready s ∧ all_ids s = [] ∧ objs s = blank ∧ requests s = [] ∧ cfg s = scheduler_config v kvc hash_bs log
    ∧ prev_step_scheduled_req_ids s = ∅ ∧ pause_state s = UNPAUSED
    ∧ km_enable_caching (kv_cache_manager s) = vf_enable_prefix_caching v
    ∧ hash_block_size (pool_of (kv_cache_manager s)) = hash_bs
    ∧ ∀ id, kv_slots (kv_cache_manager s) id = 0.
Proof.
  intros [] Hb. unfold scheduler_init. rewrite og_metrics0, og_decoder0. cbn [mbind res_bind].
  destruct og_gpu0 as (n & -> & Hn). rewrite (proj2 (Z.ltb_lt _ _)) by done.
  cbn [negb orb andb bool_decide mbind res_bind].
  set (c := scheduler_config v kvc hash_bs log).
  destruct (manager_init_state kvc spec (vf_max_model_len v) hash_bs (vf_enable_prefix_caching v) (use_eagle c) log
    (vf_enable_kv_cache_events v) (vf_dcp v) (vf_pcp v) None) as (k & m & -> & Hk & Hlen & Hca & Hlog & Hhb & Hreq); try done;
    [apply og_parallel0..|]. cbn [mbind res_bind]. eexists. split; [done|].
  destruct qi_new as [Hq Hi]. assert (ids (new_queue : W) = []) as Hids by (unfold ids; by rewrite Hi).
  set (s := mkScheduler _ _ _ _ _ _ _ _ _ _ _ _ _ _ _ _ _ _).
  assert (all_ids s = []) as Ha by (unfold all_ids; cbn; by rewrite Hids).
  assert (q_ok s new_queue) as Hqok.
  { apply q_ok_fresh; [done|done|]. rewrite Hi. by intros r ?%elem_of_nil. }
  assert (∀ id, kv_slots k id = 0) as Hslots.
  { intros id. etrans; [apply (slots_state sha256 k m _ id Hk)|]. by rewrite Hreq. }
  split; [|by split_and!]. split.
  - split; rewrite ?Ha; cbn; rewrite ?Hids; try done; try (by intros j ?%elem_of_nil); [constructor|by eexists _, _|..].
    + unfold c, scheduler_config. rewrite Hlen. by destruct (default _ _) as [[] ?].
    + rewrite (bool_decide_ext _ _ Hlog). unfold c, scheduler_config.
      destruct (default _ _) as [[] ?]. by destruct log.
    + intros id _. apply Hslots.
  - cbn. unfold c, scheduler_config. destruct (default _ _) as [[n0 b1] b2]. split; cbn in *; try done.
    + destruct (b1 || b2); lia.
    + assert (has_mamba_layers kvc = false) as ->; [|done]. unfold has_mamba_layers.
      destruct (kv_cache_groups kvc) as [|g [|]]; simplify_eq/=. by destruct (kv_cache_spec g).
  - done.
  - cbn. unfold c, scheduler_config. by destruct (default _ _) as [[] ?].
  - cbn. by intros j ?%elem_of_nil.
  - unfold queued. cbn. rewrite Hids. by intros j ?%elem_of_nil.
Qed.

(** New text requests: object [i] of the store for every [i] in [l]. *)
Record arrivals (v : VllmFields) (hash_bs : Z) (blank : Z → Request) (l : list Z) : Prop := {
  ar_nodup : NoDup l;
  ar_ids : NoDup ((λ i, request_id (blank i)) <$> l);
  ar_status : ∀ i, i ∈ l →
    status (blank i) = WAITING ∨ status (blank i) = WAITING_FOR_STRUCTURED_OUTPUT_GRAMMAR;
  ar_text : ∀ i, i ∈ l → mm_features (blank i) = [];
  ar_fresh : ∀ i, i ∈ l → num_computed_tokens (blank i) = 0 ∧ num_output_placeholders (blank i) = 0 ∧ spec_token_ids (blank i) = [];
  ar_tokens : ∀ i, i ∈ l → 1 ≤ num_tokens (blank i) ≤ vf_max_model_len v;
  ar_hashes : ∀ i, i ∈ l → vf_enable_prefix_caching v = true →
    embed_cache_ok sha256 (blank i) ∧ NoDup (Request.block_hashes (blank i))
    ∧ num_tokens (blank i) / hash_bs ≤ zlen (Request.block_hashes (blank i));
}.

Lemma arrivals_new v kvc hash_bs blank l log (s : sched) i :
  arrivals v hash_bs blank l → i ∈ l → all_ids s = [] → objs s = blank → requests s = [] →
  cfg s = scheduler_config v kvc hash_bs log → prev_step_scheduled_req_ids s = ∅ →
  km_enable_caching (kv_cache_manager s) = vf_enable_prefix_caching v →
  hash_block_size (pool_of (kv_cache_manager s)) = hash_bs → newcomer s i.
Proof.
  intros [] Hi Ha Eo Er Ec Ep Ek Eh. split; unfold rid; rewrite ?Eo, ?Er, ?Ha, ?Ep, ?Ec; auto.
  - apply not_elem_of_nil.
  - by apply ar_fresh0.
  - by rewrite (proj1 (proj2 (ar_fresh0 i Hi))).
  - intros _. by apply ar_fresh0.
  - unfold scheduler_config. destruct (default _ _) as [[] ?]. by apply ar_tokens0.
  - intros E1. rewrite Ek in E1. destruct (ar_hashes0 i Hi E1) as (? & ? & ?). rewrite Eh.
    split_and!; [|done..]. split; [rewrite ar_text0 by done; split; constructor|done].
  - apply not_elem_of_empty.
Qed.

(** From the constructor to the first step. *)
Lemma started v kvc hash_bs spec fin log new_encoder ec clock draws blank l hasher now :
  one_group v kvc hash_bs spec → (∀ i, object_id (blank i) = i) → arrivals v hash_bs blank l →
  ∃ s0 s1 : sched, scheduler_init v kvc hash_bs fin log new_encoder None ec clock draws blank = Ok s0
    ∧ add_requests hasher now s0 l = Ok s1 ∧ Ready s1 ∧ all_ids s1 ≡ₚ l
    ∧ step_budget s1 = py_or (vf_max_num_scheduled_tokens v) (vf_max_num_batched_tokens v)
    ∧ max_num_running_reqs (cfg s1) = vf_max_num_seqs v.
Proof.
  intros Hv Hb Hl.
  destruct (init_ready v kvc hash_bs spec fin log new_encoder ec clock draws blank Hv Hb)
    as (s0 & E0 & R0 & A0 & O0 & Q0 & C0 & P0 & U0 & K0 & H0' & S0).
  destruct (add_requests_spec hasher now s0 l R0) as (s1 & E1 & R1 & A1 & _ & C1 & _ & U1).
  - apply Hl.
  - unfold rid. rewrite O0. apply Hl.
  - intros i Hi. by eapply arrivals_new.
  - exists s0, s1. rewrite A0, app_nil_r in A1. split_and!; try done.
    + unfold step_budget. rewrite U1, U0, C1, C0. unfold scheduler_config. by destruct (default _ _) as [[] ?].
    + rewrite C1, C0. unfold scheduler_config. by destruct (default _ _) as [[] ?].
Qed.

(** A new scheduler over one KV-cache group takes in any text requests and
    completes its first step without raising: the tokens scheduled stay within
    the configured budget, each has a KV-cache slot, at most [max_num_seqs]
    requests run, and every request is still running or waiting. *)
Theorem first_step_served v kvc hash_bs spec fin log new_encoder ec clock draws blank l hasher now grammar_ready :
  one_group v kvc hash_bs spec → (∀ i, object_id (blank i) = i) → arrivals v hash_bs blank l →
  ∃ (s0 s1 : sched) o s2, scheduler_init v kvc hash_bs fin log new_encoder None ec clock draws blank = Ok s0
    ∧ add_requests hasher now s0 l = Ok s1
    ∧ schedule now grammar_ready _update_after_schedule s1 = Ok (o, s2)
    ∧ scheduled_step s1 o s2 ∧ all_ids s2 ≡ₚ l
    ∧ so_total_num_scheduled_tokens o
        ≤ py_or (vf_max_num_scheduled_tokens v) (vf_max_num_batched_tokens v)
    ∧ zlen (running s2) ≤ vf_max_num_seqs v.
Proof.
  intros Hv Hb Hl. destruct (started v kvc hash_bs spec fin log new_encoder ec clock draws blank l hasher now)
    as (s0 & s1 & E0 & E1 & R1 & A1 & B1 & M1); [done..|].
  destruct (schedule_spec now grammar_ready s1 R1) as (o & s2 & E2 & Hs). exists s0, s1, o, s2.
  split_and!; try done.
  - by rewrite (ss_all _ _ _ Hs).
  - rewrite <- B1. apply Hs.
  - rewrite <- M1. apply Hs.
Qed.
End serving.

(** ** Arriving requests *)

(** A request for text whose prompt and minimal output fit the model. *)
Record fits (max_len : Z) (q : EngineCoreRequest) (prompt : list Z) (sp : SamplingParams) : Prop := {
  fi_tokens : ecr_prompt_token_ids q = Some prompt;
  fi_sampling : ecr_sampling_params q = Some sp;
  fi_pooling : ecr_pooling_params q = None;
  fi_text : default [] (ecr_mm_features q) = [];
  fi_embeds : ecr_prompt_embeds q = None;
  fi_once : ecr_resumable q = false;
  fi_limit : is_Some (sp_max_tokens sp);
  fi_prompt : 1 ≤ zlen prompt ≤ max_len;
  fi_minimum : zlen prompt + sp_min_tokens sp ≤ max_len;
}.

(** The object of a new request. *)
Record new_object (q : EngineCoreRequest) (oid : Z) (prompt : list Z) (r : Request) : Prop := {
  no_id : request_id r = ecr_request_id q;
  no_object : object_id r = oid;
  no_status : status r = WAITING ∨ status r = WAITING_FOR_STRUCTURED_OUTPUT_GRAMMAR;
  no_text : mm_features r = [];
  no_computed : num_computed_tokens r = 0;
  no_drafts : spec_token_ids r = [];
  no_tokens : all_token_ids r = prompt;
}.

Section arriving.
Context (use_int : bool) (sha256 : bytes → bytes) (hash_fn : hash_input → bytes) (NONE_HASH : bytes).
#[local] Abbreviation hasher_for := (hasher_for sha256 hash_fn NONE_HASH).
#[local] Abbreviation served := (served sha256 hash_fn NONE_HASH).

Definition arrival_fields (q : EngineCoreRequest) (oid : Z) (prompt : list Z) (sp : SamplingParams) (limit : Z) : Request :=
  mkRequest (ecr_request_id q) (ecr_client_index q) (ecr_priority q) oid (Some sp) None (ecr_lora_request q)
    (sp_structured sp) (ecr_arrival_time q)
    (if sp_structured sp then WAITING_FOR_STRUCTURED_OUTPUT_GRAMMAR else WAITING) None limit
    (Some prompt) None ∅ (zlen prompt) [] prompt 0 [] 0 (ecr_cache_salt q) [] (-1) 0 0 []
    (get_skip_reading_prefix_cache (Some sp) None) false [] 0 false false None.

Lemma arrival_built max_len hashing q oid prompt sp :
  (∀ bs, hashing = Some bs → 0 < bs) → fits max_len q prompt sp →
  ∃ r limit embeds hashes, from_engine_core_request (hasher_for hashing) oid q = Ok r
    ∧ r = with_block_hashes (with_embed_hashes (arrival_fields q oid prompt sp limit) embeds) hashes
    ∧ hashed sha256 hash_fn NONE_HASH hashing r ∧ embed_cache_ok sha256 r.
Proof.
  intros Hb [Et Es Ep Em Ee Eo [limit El] Hp Hm]. unfold from_engine_core_request, new_request. rewrite Et, Es, Ep, Ee, Eo.
  assert (request_fields (ecr_request_id q) oid (Some prompt) (Some sp) None (ecr_client_index q)
    (ecr_arrival_time q) (ecr_priority q) None (ecr_mm_features q) (ecr_lora_request q) (ecr_cache_salt q) false
    = Ok (arrival_fields q oid prompt sp limit)) as Ef.
  { unfold request_fields. rewrite El. cbn. by rewrite Em. }
  rewrite Ef. cbn [mbind res_bind]. destruct hashing as [bs|].
  - assert (mm_wf (default [] (ecr_mm_features q))) as Hw by (rewrite Em; split; constructor).
    destruct (new_hashes_spec sha256 hash_fn NONE_HASH bs _ _ _ _ _ _ _ _ _ _ _ _ _ _ (Hb bs eq_refl) Hw Ef)
      as (r & E & Hh & _ & _ & Hc). unfold new_request in E. rewrite Ef in E. cbn [mbind res_bind] in E.
    exists r, limit. eexists _, _. split; [exact E|]. split; [by apply (update_hashes_frame sha256 hash_fn NONE_HASH bs)|].
    split; [|done]. split; [by apply Hb|done].
  - exists (arrival_fields q oid prompt sp limit), limit, ∅, []. by split_and!.
Qed.

Lemma arrival_new max_len hashing q oid prompt sp :
  (∀ bs, hashing = Some bs → 0 < bs) → fits max_len q prompt sp →
  ∃ r, from_engine_core_request (hasher_for hashing) oid q = Ok r ∧ new_object q oid prompt r
    ∧ hashed sha256 hash_fn NONE_HASH hashing r ∧ embed_cache_ok sha256 r ∧ generates max_len r.
Proof.
  intros Hb Hf. destruct (arrival_built max_len hashing q oid prompt sp Hb Hf) as (r & limit & em & hs & E & -> & Hh & Hc).
  eexists. split; [exact E|]. split; [split; try done; cbn; destruct (sp_structured _); auto|]. split; [done|].
  split; [done|]. split; try done; [unfold num_tokens, num_output_tokens; cbn; by rewrite zlen_nil, Z.add_0_r|]. eexists. split; [done|].
  apply Hf.
Qed.
End arriving.

(** ** The engine *)

Section rounds.
Context {E W C EC P : Type}.
Context `{EncoderTextLaws E} `{QueueImplLaws W} `{KVConnector C P} `{ECConnector EC}.
Context (use_int : bool) (sha256 : bytes → bytes) (hash_fn : hash_input → bytes) (NONE_HASH : bytes).
#[local] Instance rounds_ops : KVManager KVCacheManager := KVCacheManager_ops use_int sha256.
#[local] Abbreviation sched := (Scheduler KVCacheManager E W C EC).

(** The configuration: text models with one KV-cache group, without speculative
    decoding. *)
Context (v : VllmFields) (kvc : KVCacheConfig) (hash_bs : Z) (spec : LayerSpec).

(** The hasher of the requests. *)
Definition hashing : option Z := if vf_enable_prefix_caching v then Some hash_bs else None.
Definition hasher : option block_hasher := hasher_for sha256 hash_fn NONE_HASH hashing.

#[local] Instance rounds_view : KVManagerView KVCacheManager := served_view sha256 hash_fn NONE_HASH hashing.
#[local] Instance rounds_laws : KVManagerLaws KVCacheManager := served_laws use_int sha256 hash_fn NONE_HASH hashing.

Context (supported : PoolingParams → bool).
#[local] Abbreviation engine_add_request := (engine_add_request hasher supported).
#[local] Abbreviation engine_step := (engine_step hasher).

(** Its id and the identity of its object are not in use. *)
Record acceptable (s : sched) (oid : Z) (q : EngineCoreRequest) : Prop := {
  ac_fits : ∃ prompt sp, fits (vf_max_model_len v) q prompt sp;
  ac_unknown : od_get (requests s) (ecr_request_id q) = None;
  ac_prev : ecr_request_id q ∉ prev_step_scheduled_req_ids s;
  ac_object : oid ∉ all_ids s;
}.

(** The states between the calls of the engine. *)
Record InService (s : sched) : Prop := {
  is_ready : Ready s;
  is_registered : registered s;
  is_spec : num_spec_tokens (cfg s) = 0;
  is_len : max_model_len (cfg s) = vf_max_model_len v;
}.

(** ** Each call succeeds *)

Lemma init_in_service fin log new_encoder ec clock draws blank :
  one_group v kvc hash_bs spec → vf_speculative v = None → (∀ i, object_id (blank i) = i) →
  ∃ s : sched, scheduler_init v kvc hash_bs fin log new_encoder None ec clock draws blank = Ok s
    ∧ InService s ∧ all_ids s = [].
Proof.
  intros Hv Hs Hb. destruct (init_ready (E := E) (W := W) (C := C) (EC := EC) sha256 v kvc hash_bs spec fin log new_encoder ec clock draws blank Hv Hb)
    as (s & E0 & [Hwf R1 R2 R3 R4 R5] & A0 & _ & Q0 & C0 & _ & _ & K0 & H0' & _).
  exists s. split; [exact E0|]. split; [|exact A0].
  assert (WF s) as Hwf'.
  { destruct Hwf. split; try done.
    - rewrite A0. by intros i ?%elem_of_nil.
    - split; [done|]. unfold hashing. cbn. by rewrite K0, H0'. }
  split; try (rewrite C0; unfold scheduler_config; by rewrite Hs); [by split|].
  split; rewrite Q0; [constructor|done].
Qed.

Lemma hashing_pos bs : one_group v kvc hash_bs spec → hashing = Some bs → 0 < bs.
Proof.
  intros [] E1. unfold hashing in E1. destruct (vf_enable_prefix_caching v); [|done]. injection E1 as <-.
  destruct (og_caching0 eq_refl) as [_ ->]. unfold scaled_block_size. destruct og_parallel0. case_match; nia.
Qed.

(** The manager accepts a new request. *)
Lemma arrived_ok k q oid prompt r :
  kv_hashing k = hashing → kv_max_len k = vf_max_model_len v → new_object q oid prompt r →
  hashed sha256 hash_fn NONE_HASH hashing r → embed_cache_ok sha256 r → generates (vf_max_model_len v) r →
  ideal_hash hash_fn NONE_HASH → kv_request_ok k r.
Proof.
  intros Hk Hl [] Hh Hc Hge Hi. split.
  - intros Ec. cbn in Hk. rewrite Ec in Hk. rewrite <- Hk in Hh. split_and!.
    + split; [|done]. rewrite no_text0. split; constructor.
    + by eapply hashed_nodup.
    + by apply hashed_length in Hh.
  - split; try done.
    + change (generates (kv_max_len k) r). by rewrite Hl.
    + change (hasher = hasher_for sha256 hash_fn NONE_HASH (kv_hashing k)). by rewrite Hk.
    + change (hashed sha256 hash_fn NONE_HASH (kv_hashing k) r). by rewrite Hk.
Qed.

Lemma add_spec now s oid q :
  ideal_hash hash_fn NONE_HASH → one_group v kvc hash_bs spec → InService s → acceptable s oid q →
  ∃ s', engine_add_request now s oid q = Ok s' ∧ InService s' ∧ all_ids s' ≡ₚ oid :: all_ids s ∧ running s' = running s.
Proof.
  intros Hi Hv [Hr Hg Hsp Hlen] [(prompt & sp & Hf) Hu Hp Ho]. unfold EngineCore.engine_add_request.
  destruct (arrival_new sha256 hash_fn NONE_HASH (vf_max_model_len v) hashing q oid prompt sp) as (r & E1 & Hno & Hh & Hc & Hge);
    [intros bs; by apply hashing_pos|done|].
  destruct (Hno). change (from_engine_core_request hasher oid q = Ok r) in E1. rewrite E1. cbn [mbind res_bind].
  rewrite (ge_pooling _ _ Hge).
  pose proof (Ready_place s oid r Hr Ho no_object0) as Hr1. set (s1 := put s oid r) in *.
  assert (objs s1 oid = r) as Ei by (cbn; by rewrite Z.eqb_refl).
  assert (rid s1 oid = ecr_request_id q) as Erid by (unfold rid; by rewrite Ei).
  pose proof (wf_len _ (rd_wf _ Hr)) as Hl. destruct (wf_kv _ (rd_wf _ Hr)) as [_ Hk].
  destruct (add_request_spec hasher now s1 oid Hr1) as (s' & E2 & Ht).
  { split; rewrite ?Erid, ?Ei; try done.
    - by rewrite (ge_sync _ _ Hge).
    - unfold num_tokens. rewrite no_tokens0. rewrite <- Hlen in Hf. apply Hf.
    - apply (arrived_ok _ q oid prompt); try done. by rewrite <- Hlen. }
  assert (∀ j, rid s' j = rid s1 j) as Hrid by (intros j; by eapply took_rid).
  exists s'. split; [done|]. destruct Ht. split; [|done]. split; [done| |by rewrite ti_cfg..]. split.
  - rewrite ti_requests, Erid, od_set_fresh by (by apply od_get_None). rewrite fmap_app. apply NoDup_app.
    split_and!; [apply Hg| |apply NoDup_singleton]. intros x Hx ->%list_elem_of_singleton. by apply od_get_None in Hx.
  - intros id j. rewrite ti_requests, Erid, ti_all. destruct (decide (id = ecr_request_id q)) as [->|Hne].
    + rewrite od_get_set_eq. intros [= <-]. split; [left|by rewrite Hrid].
    + rewrite od_get_set_ne by done. intros Hj. destruct (rg_known _ Hg id j Hj) as [Hin Hid]. split; [by right|].
      rewrite Hrid. unfold rid, s1. cbn. by rewrite (proj2 (Z.eqb_neq _ _)) by (by intros ->).
Qed.

(** The requests a list of ids names. *)
Definition ids_of (request_ids : list string) : option (list string) :=
  Some (elements (list_to_set (C := gset string) request_ids)).

Lemma abort_spec (s : sched) request_ids :
  WF s → connector s = None → registered s →
  ∃ s', abort_requests s request_ids = Ok s' ∧ aborted FINISHED_ABORTED s (named s (ids_of request_ids)) s'.
Proof.
  intros Hwf Hc Hg. unfold abort_requests.
  destruct (finish_requests_spec FINISHED_ABORTED s (ids_of request_ids)) as (outs & s' & E1 & Ha); [done..| |].
  { intros l [= <-]. apply NoDup_elements. }
  unfold ids_of in E1. rewrite E1. by exists s'.
Qed.

Lemma aborted_service (s : sched) l s' : InService s → aborted FINISHED_ABORTED s l s' → InService s'.
Proof.
  intros [] Ha. split; rewrite ?(ab_cfg _ _ _ _ Ha); try done; [by eapply aborted_ready|apply Ha].
Qed.

(** The messages that came in while the model ran. *)
Lemma aborts_spec (s : sched) aborts :
  WF s → connector s = None → registered s →
  ∃ s', _process_aborts_queue s aborts = Ok s' ∧ aborted FINISHED_ABORTED s (named s (ids_of (concat aborts))) s'.
Proof.
  intros Hwf Hc Hg. unfold _process_aborts_queue. case_bool_decide as Ea; [|by apply abort_spec].
  exists s. subst aborts. split; [done|]. unfold named, ids_of. cbn. rewrite elements_empty. cbn.
  split; try done; by intros i ?%elem_of_nil.
Qed.

(** The model answers the step that [s] schedules. *)
Definition answering (now : Z) (grammar_ready : Z → bool) (s : sched)
    (execute_model : SchedulerOutput → ModelRunnerOutput) : Prop :=
  ∀ o s1, schedule now grammar_ready _update_after_schedule s = Ok (o, s1) → model_answers s1 o (execute_model o).

(** What a step of the engine does. *)
Inductive stepped (execute_model : SchedulerOutput → ModelRunnerOutput) (aborts : list (list string)) (s : sched)
    : bool → sched → Prop :=
  | stepped_idle : has_requests s = false → stepped execute_model aborts s false s
  | stepped_busy o s1 s2 s3 :
      has_requests s = true → scheduled_step s o s1 →
      aborted FINISHED_ABORTED s1 (named s1 (ids_of (concat aborts))) s2 →
      output_processed s2 o (execute_model o) s3 →
      stepped execute_model aborts s (0 <? so_total_num_scheduled_tokens o) s3.

Lemma step_spec now now' grammar_ready execute_model aborts (s : sched) :
  ideal_hash hash_fn NONE_HASH → InService s → answering now grammar_ready s execute_model →
  ∃ outs b s', engine_step now now' grammar_ready execute_model aborts s = Ok (outs, b, s')
    ∧ stepped execute_model aborts s b s' ∧ InService s'.
Proof.
  intros Hi Hs Hans. unfold EngineCore.engine_step. destruct (has_requests s) eqn:Eh; cbn [negb].
  2: { eexists _, _, s. split; [done|]. split; [by constructor|done]. }
  destruct (Hs) as [Hr Hg Hsp Hlen]. destruct (schedule_spec now grammar_ready s Hr) as (o & s1 & E1 & Hst).
  specialize (Hans o s1 E1). rewrite E1. cbn [mbind res_bind].
  pose proof (served_generation sha256 hash_fn NONE_HASH hashing Hi) as HG.
  pose proof (scheduled_outstanding hasher s o s1 (rd_cfg _ Hr) Hsp Hg Hst) as Ho.
  destruct (aborts_spec s1 aborts) as (s2 & E2 & Ha); [apply Ho..|]. rewrite E2. cbn [mbind res_bind].
  destruct (update_from_output_spec hasher now' o s2 (execute_model o)) as (outs & evs & s3 & E3 & Hp);
    [by eapply aborted_outstanding|by eapply aborted_answers|].
  rewrite E3. cbn [mbind res_bind]. exists outs. eexists _, s3. split; [done|]. split; [by econstructor|].
  assert (cfg s3 = cfg s) as Ec by (by rewrite (op_cfg _ _ _ _ Hp), (ab_cfg _ _ _ _ Ha), (ss_cfg _ _ _ Hst)).
  split; [apply Hp|apply Hp|by rewrite Ec..].
Qed.

(** What happens to an engine in service: a request arrives, requests are aborted,
    the scheduler is paused or resumed, or a step is taken. *)
Inductive service : sched → sched → Prop :=
  | service_add now s oid q s' : acceptable s oid q → engine_add_request now s oid q = Ok s' → service s s'
  | service_abort s request_ids s' : abort_requests s request_ids = Ok s' → service s s'
  | service_pause s p : service s (set_pause_state s p)
  | service_step now now' grammar_ready execute_model aborts s outs b s' :
      answering now grammar_ready s execute_model →
      engine_step now now' grammar_ready execute_model aborts s = Ok (outs, b, s') → service s s'.

Lemma service_keeps (s s' : sched) :
  ideal_hash hash_fn NONE_HASH → one_group v kvc hash_bs spec → InService s → service s s' → InService s'.
Proof.
  intros Hi Hv Hs Hstep. revert Hs. destruct Hstep as [now s oid q s' Ha E1|s l s' E1|s p|now now' g ex ab s outs b s' Hm E1]; intros Hs.
  - destruct (add_spec now s oid q Hi Hv Hs Ha) as (? & ? & ? & _). congruence.
  - destruct (abort_spec s l) as (s2 & E2 & Ha); [apply Hs..|]. rewrite E1 in E2. injection E2 as <-.
    by eapply aborted_service.
  - destruct Hs as [[] [] ? ?]. split; try done. split; try done. by apply (WF_ext s).
  - destruct (step_spec now now' g ex ab s Hi Hs Hm) as (? & ? & ? & ? & _ & ?). congruence.
Qed.

(** C1: an engine core over one KV-cache group never fails.  The configuration is that of
    a decoder ([one_group]): the group is of full, sliding-window or chunked attention,
    prefix caching is on only with full attention and a hash block of the scaled block
    size, and there is no LoRA, no metrics collector and no speculative decoding.  After its
    construction and any number of arrivals, aborts, pauses and steps, however they are
    mixed and whatever the model samples: the known requests are those in the
    queues, each in one; every acceptable request is taken in; any requests can
    be aborted; and the next step returns, with aborts at any point during the run of
    the model.  Its tokens stay within the budget and each has a KV-cache slot,
    each request gets exactly its sampled tokens, those that stopped or were aborted
    leave with their slots, and the scheduler is ready for the step after. *)
Theorem engine_never_fails fin log new_encoder ec clock draws blank (s0 s : sched) :
  ideal_hash hash_fn NONE_HASH → one_group v kvc hash_bs spec → vf_speculative v = None →
  (∀ i, object_id (blank i) = i) →
  scheduler_init v kvc hash_bs fin log new_encoder None ec clock draws blank = Ok s0 → rtc service s0 s →
  registered s
  ∧ (∀ now oid q, acceptable s oid q →
       ∃ s', engine_add_request now s oid q = Ok s' ∧ all_ids s' ≡ₚ oid :: all_ids s)
  ∧ (∀ l, ∃ s', abort_requests s l = Ok s' ∧ aborted FINISHED_ABORTED s (named s (ids_of l)) s')
  ∧ ∀ now now' grammar_ready execute_model aborts, answering now grammar_ready s execute_model →
      ∃ outs b s', engine_step now now' grammar_ready execute_model aborts s = Ok (outs, b, s')
        ∧ stepped execute_model aborts s b s'.
Proof.
  intros Hi Hv Hsp Hb E0 Hr.
  destruct (init_in_service fin log new_encoder ec clock draws blank Hv Hsp Hb) as (s0' & E0' & Hs0 & _).
  rewrite E0 in E0'. injection E0' as <-.
  assert (InService s) as Hs.
  { clear E0. induction Hr as [|s1 s2 s3 H12 _ IH]; [done|]. apply IH. by eapply service_keeps. }
  split; [apply Hs|]. split_and!.
  - intros now oid q Ha. destruct (add_spec now s oid q Hi Hv Hs Ha) as (s' & ? & _ & ? & _). by exists s'.
  - intros l. apply abort_spec; apply Hs.
  - intros now now' g ex ab Hm. destruct (step_spec now now' g ex ab s Hi Hs Hm) as (outs & b & s' & ? & ? & _). by exists outs, b, s'.
Qed.
End rounds.
