(* ===== verification/ServingExamples.v ===== *)
(** * A scheduler at work

    Two requests over four blocks: the first step schedules both, and after one
    generated token each the second step preempts one of them. *)

From Stdlib Require Import String QArith.
From S2P Require Import Prelude Blocks FreeQueue Request BlockHash Metrics HashMap BlockPool PoolInv KVCacheSpec.
From S2P Require Import CacheHit HitExamples SingleTypeManager ManagerInv Coordinator KVCacheManager EncoderCache.
From S2P Require Import HeapQueue RequestQueue SchedUtils Scheduler Schedule SchedUpdate SchedLaws SchedWF.
From S2P Require Import Preemption RunningLoop WaitingLoop StepProps StepOutput Admission GroupInv.
From S2P Require Import KVManagerProps Serving.
#[local] Open Scope Z_scope.

(** ** The configuration *)

Definition demo_fields : VllmFields :=
  mkVllmFields 4 None 8 16 0 true false false None (Some 5) 2 true "none" None false 1 1 1 false false
    false None None None.
Definition demo_cache : KVCacheConfig := mkKVCacheConfig 5 [] [mkGroup ["layer"%string] full_spec].
Definition demo_sampling : SamplingParams := mkSampling (Some 8) 0 None None None None false.

Definition demo_request (i : Z) (id : string) (tokens : list Z) (hashes : list bytes) : Request :=
  mkRequest id 0 0 i (Some demo_sampling) None None false i WAITING None 8 (Some tokens) None ∅
    (zlen tokens) [] tokens 0 [] 0 None [] (-1) 0 0 hashes false false [] 0 false false None.

Definition demo_store (i : Z) : Request :=
  if i =? 0 then demo_request 0 "a" [1; 2; 3; 4] [[1]; [2]]
  else if i =? 1 then demo_request 1 "b" [5; 6; 7; 8] [[3]; [4]]
  else demo_request i "none" [] [].

#[local] Instance demo_ops : KVManager KVCacheManager := KVCacheManager_ops false (λ b, b).
#[local] Instance demo_view : KVManagerView KVCacheManager := KVCacheManager_view (λ b, b).
#[local] Instance demo_laws : KVManagerLaws KVCacheManager := KVCacheManager_laws false (λ b, b).

Abbreviation demo_sched := (Scheduler KVCacheManager EncoderCacheManager FCFSRequestQueue Empty_set Empty_set).
Abbreviation no_grammar := (λ _ : Z, false).

Definition demo_init : res demo_sched :=
  scheduler_init demo_fields demo_cache 2 false true encoder_init None None (λ _, 0) (λ _, 0%Q) demo_store.

Lemma demo_one_group : one_group demo_fields demo_cache 2 full_spec.
Proof. split; try done. by exists 5. Qed.

Lemma demo_objects i : object_id (demo_store i) = i.
Proof. unfold demo_store. destruct (Z.eqb_spec i 0) as [->|]; [done|]. by destruct (Z.eqb_spec i 1) as [->|]. Qed.

Lemma demo_arrivals : arrivals (λ b, b) demo_fields 2 demo_store [0; 1].
Proof.
  split; try (intros i Hi; assert (i = 0 ∨ i = 1) as [-> | ->] by set_solver); try done; try (by left).
  - eapply bool_decide_eq_true_1. reflexivity.
  - eapply bool_decide_eq_true_1. reflexivity.
  - intros _. split_and!; [done| |done]. eapply bool_decide_eq_true_1. reflexivity.
  - intros _. split_and!; [done| |done]. eapply bool_decide_eq_true_1. reflexivity.
Qed.

Definition demo_first : res (SchedulerOutput * demo_sched) :=
  s ← demo_init; s ← add_requests None 7 s [0; 1]; schedule 7 no_grammar _update_after_schedule s.

Lemma demo_run s0 s1 x :
  demo_init = Ok s0 → add_requests None 7 s0 [0; 1] = Ok s1 →
  schedule 7 no_grammar _update_after_schedule s1 = Ok x → demo_first = Ok x.
Proof. intros E0 E1 E2. unfold demo_first. rewrite E0. cbn [mbind res_bind]. by rewrite E1. Qed.

Lemma first_step_served_witness :
  ∃ (s0 s1 : demo_sched) o s2, demo_init = Ok s0 ∧ add_requests None 7 s0 [0; 1] = Ok s1
    ∧ schedule 7 no_grammar _update_after_schedule s1 = Ok (o, s2)
    ∧ so_num_scheduled_tokens o = [("a"%string, 4); ("b"%string, 4)] ∧ running s2 = [0; 1]
    ∧ so_total_num_scheduled_tokens o ≤ 8.
Proof.
  destruct (first_step_served (E := EncoderCacheManager) (W := FCFSRequestQueue) (C := Empty_set) (EC := Empty_set)
    false (λ b, b) demo_fields demo_cache 2 full_spec false true encoder_init None (λ _, 0) (λ _, 0%Q) demo_store
    [0; 1] None 7 no_grammar demo_one_group demo_objects demo_arrivals) as (s0 & s1 & o & s2 & E0 & E1 & E2 & _ & _ & Hb & _).
  exists s0, s1, o, s2. split; [exact E0|]. split; [exact E1|]. split; [exact E2|].
  assert (demo_first = Ok (o, s2)) as E by (exact (demo_run s0 s1 (o, s2) E0 E1 E2)).
  split; [|split; [|exact Hb]].
  - pose proof (f_equal (λ x, match x with Ok (o, _) => so_num_scheduled_tokens o | Err _ => [] end) E) as Eo.
    cbn beta iota in Eo. rewrite <- Eo. vm_compute. reflexivity.
  - pose proof (f_equal (λ x, match x with Ok (_, s) => running s | Err _ => [] end) E) as Eo.
    cbn beta iota in Eo. rewrite <- Eo. vm_compute. reflexivity.
Defined.

(** ** The first step, through its parts *)

Lemma demo_started :
  ∃ s0 s1 : demo_sched, demo_init = Ok s0 ∧ add_requests None 7 s0 [0; 1] = Ok s1 ∧ Ready s1 ∧ all_ids s1 ≡ₚ [0; 1].
Proof.
  destruct (started (E := EncoderCacheManager) (W := FCFSRequestQueue) (C := Empty_set) (EC := Empty_set)
    false (λ b, b) demo_fields demo_cache 2 full_spec false true encoder_init None (λ _, 0) (λ _, 0%Q) demo_store
    [0; 1] None 7 demo_one_group demo_objects demo_arrivals) as (s0 & s1 & E0 & E1 & R1 & A1 & _).
  exists s0, s1. split_and!; [exact E0|exact E1|exact R1|exact A1].
Qed.

Lemma schedule_returns_witness :
  ∃ (s1 : demo_sched) o s2, Ready s1 ∧ schedule 7 no_grammar _update_after_schedule s1 = Ok (o, s2)
    ∧ so_num_scheduled_tokens o = [("a"%string, 4); ("b"%string, 4)] ∧ scheduled_step s1 o s2.
Proof.
  destruct demo_started as (s0 & s1 & E0 & E1 & R1 & _).
  destruct (schedule_returns 7 no_grammar s1 R1) as (o & s2 & E2 & Hs).
  exists s1, o, s2. split; [exact R1|]. split; [exact E2|]. split; [|exact Hs].
  pose proof (f_equal (λ x, match x with Ok (o, _) => so_num_scheduled_tokens o | Err _ => [] end)
    (demo_run s0 s1 (o, s2) E0 E1 E2)) as Eo.
  cbn beta iota in Eo. rewrite <- Eo. vm_compute. reflexivity.
Defined.

Lemma demo_fresh :
  ∃ s0 : demo_sched, demo_init = Ok s0 ∧ Ready s0 ∧ all_ids s0 = [] ∧ objs s0 = demo_store
    ∧ ∀ i, i ∈ [0; 1] → newcomer s0 i.
Proof.
  destruct (init_ready (E := EncoderCacheManager) (W := FCFSRequestQueue) (C := Empty_set) (EC := Empty_set)
    (λ b, b) demo_fields demo_cache 2 full_spec false true encoder_init None (λ _, 0) (λ _, 0%Q) demo_store
    demo_one_group demo_objects) as (s0 & E0 & R0 & A0 & O0 & Q0 & C0 & P0 & U0 & K0 & H0 & S0).
  exists s0. split; [exact E0|]. split; [exact R0|]. split; [exact A0|]. split; [exact O0|].
  intros i Hi. by eapply (arrivals_new (λ b, b)); eauto using demo_arrivals.
Qed.

Lemma add_requests_ready_witness :
  ∃ s0 s1 : demo_sched, demo_init = Ok s0 ∧ add_requests None 7 s0 [0; 1] = Ok s1 ∧ Ready s1 ∧ all_ids s1 ≡ₚ [0; 1].
Proof.
  destruct demo_fresh as (s0 & E0 & R0 & A0 & O0 & Hn).
  destruct (add_requests_ready None 7 s0 [0; 1] R0) as (s1 & E1 & R1 & A1 & _).
  - eapply bool_decide_eq_true_1. reflexivity.
  - unfold rid. rewrite O0. eapply bool_decide_eq_true_1. reflexivity.
  - exact Hn.
  - exists s0, s1. rewrite A0, app_nil_r in A1. split; [exact E0|]. split; [exact E1|]. split; [exact R1|exact A1].
Defined.

(** ** The second step preempts *)

Definition observe {A} (f : demo_sched → A) (d : A) : A :=
  match demo_first with Ok (_, s) => f s | Err _ => d end.

Lemma observed {A} (f : demo_sched → A) d o s : demo_first = Ok (o, s) → f s = observe f d.
Proof. intros E. unfold observe. by rewrite E. Qed.

(** A generated token. *)
Definition with_token (r : Request) : Request :=
  with_tokens r (output_token_ids r ++ [9]) (all_token_ids r ++ [9]).
Definition generated (s : demo_sched) : demo_sched := modify (modify s 0 with_token) 1 with_token.

Lemma WF_token (s : demo_sched) i :
  WF s → i ∈ running s → num_tokens (objs s i) + 1 ≤ max_model_len (cfg s) →
  num_tokens (with_token (objs s i)) / hash_block_size (pool_of (kv_cache_manager s))
    ≤ zlen (Request.block_hashes (objs s i)) →
  WF (modify s i with_token).
Proof.
  intros Hwf Hi Hn Hh. pose proof (running_all s i Hi) as Hall. pose proof (wf_req s Hwf i Hall) as Hr.
  assert (i ∉ ids (waiting_q s) ++ ids (skipped_waiting s)) as Hq.
  { intros Hq. by apply (not_running s i Hwf Hq). }
  unfold modify. apply (WF_ext (put (with_kv s (kv_cache_manager s)) i (with_token (objs s i)))); try done.
  assert (num_tokens (with_token (objs s i)) = num_tokens (objs s i) + 1) as En.
  { unfold num_tokens. cbn. rewrite zlen_app. done. }
  apply WF_put; try done; try (intros; set_solver).
  - apply Hr.
  - apply Hwf.
  - intros _. destruct Hr as [R1 R2 R3 R4 R5 R6]. split; try done; [|lia].
    intros Ec. by destruct (R1 Ec) as ([? ?] & ? & _).
  - intros _. by apply Hwf.
Qed.

(** A fact about the state after the first step, by evaluating the step. *)
Lemma observed_fact {A} (f : demo_sched → A) d v o s : observe f d = v → demo_first = Ok (o, s) → f s = v.
Proof. intros <- E. by eapply observed. Qed.

Lemma demo_facts o s :
  demo_first = Ok (o, s) →
  running s = [0; 1] ∧ fcfs_items (waiting_q s) = [] ∧ fcfs_items (skipped_waiting s) = [] ∧ connector s = None
  ∧ cfg s = scheduler_config demo_fields demo_cache 2 true
  ∧ hash_block_size (pool_of (kv_cache_manager s)) = 2
  ∧ ∀ i, i = 0 ∨ i = 1 → num_tokens (objs s i) = 4 ∧ num_computed_tokens (objs s i) = 4
      ∧ zlen (Request.block_hashes (objs s i)) = 2 ∧ num_output_placeholders (objs s i) = 0.
Proof.
  intros E. split_and!.
  - eapply (observed_fact running []); [vm_compute; reflexivity|exact E].
  - eapply (observed_fact (λ s, fcfs_items (waiting_q s)) []); [vm_compute; reflexivity|exact E].
  - eapply (observed_fact (λ s, fcfs_items (skipped_waiting s)) []); [vm_compute; reflexivity|exact E].
  - eapply (observed_fact connector None); [vm_compute; reflexivity|exact E].
  - eapply (observed_fact cfg (scheduler_config demo_fields demo_cache 0 true)); [vm_compute; reflexivity|exact E].
  - eapply (observed_fact (λ s, hash_block_size (pool_of (kv_cache_manager s))) 0); [vm_compute; reflexivity|exact E].
  - intros i Hi. set (f i (s : demo_sched) := (num_tokens (objs s i), num_computed_tokens (objs s i),
      zlen (Request.block_hashes (objs s i)), num_output_placeholders (objs s i))).
    cut (f i s = (4, 4, 2, 0)); [clear; intros Hf; injection Hf; auto|].
    destruct Hi as [-> | ->].
    + apply (observed_fact (f 0) (0, 0, 0, 0) (4, 4, 2, 0) o); [vm_compute; reflexivity|exact E].
    + apply (observed_fact (f 1) (0, 0, 0, 0) (4, 4, 2, 0) o); [vm_compute; reflexivity|exact E].
Qed.

Lemma demo_ready o s : demo_first = Ok (o, s) → WF s → Ready (generated s).
Proof.
  intros E Hwf. destruct (demo_facts o s E) as (Er & Ew & Es & Ec & Eg & Eh & Ht). clear E.
  assert (∀ i, i ∈ running s → i = 0 ∨ i = 1) as Hin by (rewrite Er; set_solver).
  assert (∀ i, objs (generated s) i = if (i =? 0) || (i =? 1) then with_token (objs s i) else objs s i) as Ho.
  { intros i. unfold generated. cbn. destruct (Z.eqb_spec i 0) as [->|]; [done|].
    by destruct (Z.eqb_spec i 1) as [->|]. }
  split.
  - unfold generated. apply WF_token; [apply WF_token|..]; try done.
    + rewrite Er. set_solver.
    + rewrite Eg. destruct (Ht 0) as (-> & _); [by left|]. done.
    + rewrite Eh. destruct (Ht 0) as (E1 & _ & -> & _); [by left|]. unfold num_tokens in *. cbn.
      rewrite zlen_app, E1. done.
    + cbn. rewrite Er. set_solver.
    + cbn. rewrite Eg. destruct (Ht 1) as (-> & _); [by right|]. done.
    + cbn. rewrite Eh. destruct (Ht 1) as (E1 & _ & -> & _); [by right|]. unfold num_tokens in *. cbn.
      rewrite zlen_app, E1. done.
  - cbn. rewrite Eg. split; done.
  - cbn. exact Ec.
  - cbn. rewrite Er, Eg. done.
  - intros i Hi. destruct (Ht i (Hin i Hi)) as (E1 & E2 & _ & E3). cbn [cfg generated modify put with_objs].
    assert (objs (generated s) i = with_token (objs s i)) as ->.
    { rewrite Ho. by destruct (Hin i Hi) as [-> | ->]. }
    unfold num_tokens in E1. unfold pending, num_tokens_with_spec. cbn [all_token_ids num_computed_tokens
      spec_token_ids num_output_placeholders with_token with_tokens].
    rewrite zlen_app, E1, E2, E3. pose proof (zlen_nonneg (spec_token_ids (objs s i))).
    change (zlen [9]) with 1. split; [lia|]. change (cfg (generated s)) with (cfg s). rewrite Eg. done.
  - unfold queued, ids. cbn. rewrite Ew, Es. set_solver.
Qed.

Lemma demo_first_step : ∃ o s, demo_first = Ok (o, s) ∧ WF s.
Proof.
  destruct demo_started as (s0 & s1 & E0 & E1 & R1 & _).
  destruct (schedule_spec 7 no_grammar s1 R1) as (o & s2 & E2 & Hs). exists o, s2.
  split; [exact (demo_run s0 s1 (o, s2) E0 E1 E2)|apply Hs].
Qed.

Lemma preemption_step_witness :
  ∃ (s s' : demo_sched) t, Ready s ∧ select_requests 8 no_grammar s = Ok (s', t)
    ∧ preempted_reqs t = [1] ∧ status (objs s' 1) = PREEMPTED
    ∧ kv_slots (kv_cache_manager s') (rid s' 1) = 0.
Proof.
  destruct demo_first_step as (o & s & E & Hwf). pose proof (demo_ready o s E Hwf) as Hr.
  destruct (preemption_step 8 no_grammar (generated s) Hr) as (s' & t & Es & _ & _ & Hv).
  exists (generated s), s', t. split; [exact Hr|]. split; [exact Es|].
  assert (preempted_reqs t = [1]) as Ep.
  { pose proof (observed_fact (λ s, match select_requests 8 no_grammar (generated s) with
      Ok (_, t) => preempted_reqs t | Err _ => [] end) [] [1] o s) as Hf. cbv beta in Hf. rewrite Es in Hf.
    apply Hf; [vm_compute; reflexivity|exact E]. }
  split; [exact Ep|]. destruct (Hv 1) as (_ & _ & H1 & _ & H2).
  - rewrite Ep. left.
  - split; [exact H1|exact H2].
Defined.

(** ** Slots for a new request that shares a block *)

Definition demo_manager : res KVCacheManager :=
  kv_cache_manager_init demo_cache 16 2 true false true false 1 1 None.

(** The cache after the prompt of the first request. *)
Definition demo_prefill : res KVCacheManager :=
  k ← demo_manager;
  '(_, k, _) ← allocate_slots false (λ b, b) k (demo_store 0) 4 0 None 0 0 false 0;
  Ok k.

(** What a computation answered, seen through [f]. *)
Lemma result_fact {A B} (f : A → B) d (c : res A) a v :
  match c with Ok a => f a | Err _ => d end = v → c = Ok a → f a = v.
Proof. by intros <- ->. Qed.

Lemma failure_fact {A} (c : res A) e : c = Err e → match c with Ok _ => true | Err _ => false end = false.
Proof. by intros ->. Qed.

(** A request with the same first block. *)
Definition demo_again : Request := demo_request 2 "c" [1; 2; 3; 9] [[1]; [7]].

Definition demo_lookup : res (KVCacheBlocks * Z * KVCacheManager) :=
  k ← demo_prefill; get_computed_blocks k demo_again.

Definition demo_allocation : res (option KVCacheBlocks) :=
  '(blks, local, k) ← demo_lookup;
  '(o, _, _) ← allocate_slots false (λ b, b) k demo_again 2 local (Some blks) 0 0 false 0;
  Ok o.

Lemma demo_cacheable k r :
  r = demo_store 0 ∨ r = demo_again → hash_block_size (pool_of k) = 2 → cacheable_request (λ b, b) k r.
Proof.
  intros Hr Hh _. rewrite Hh. destruct Hr as [-> | ->]; split_and!.
  all: try (split; [split; constructor|]; intros s e h Hx; discriminate Hx).
  all: try (eapply bool_decide_eq_true_1; reflexivity).
  all: vm_compute; discriminate.
Qed.

Lemma demo_prefill_state :
  ∃ k m fl, demo_prefill = Ok k ∧ kv_state k m fl ∧ req_blocks m "c" = [].
Proof.
  destruct (manager_init_state demo_cache full_spec 16 2 true false true false 1 1 None)
    as (k & m & Ek & Hk & Hlen & Hc & _ & Hh & Hreq); [done..|].
  destruct (plain_call_outcome false (λ b, b) k m _ (demo_store 0) 4 None 0 false 0 Hk)
    as (o & k' & r' & m' & fl' & E & Hk' & _ & _ & Ho & _); [by apply demo_cacheable; [left|]|by left|lia|lia| | |].
  { rewrite Hreq. vm_compute. split; discriminate. }
  { rewrite Hlen. vm_compute. discriminate. }
  exists k', m', fl'. split_and!; [|done|by rewrite Ho].
  unfold demo_prefill, demo_manager. rewrite Ek. cbn [mbind res_bind]. by rewrite E.
Qed.

Lemma allocate_slots_contract_witness :
  ∃ k0 k o k' r' m' fl', demo_prefill = Ok k0
    ∧ get_computed_blocks k0 demo_again = Ok (Blocks [[RBlk 1]], 2, k)
    ∧ allocate_slots false (λ b, b) k demo_again 2 2 (Some (Blocks [[RBlk 1]])) 0 0 false 0 = Ok (Some o, k', r')
    ∧ kv_state k' m' fl' ∧ 4 ≤ zlen (req_blocks m' "c") * mgr_block_size m' ∧ [RBlk 1] `prefix_of` req_blocks m' "c".
Proof.
  destruct demo_prefill_state as (k0 & m & fl & E0 & H0 & Hb).
  assert (hash_block_size (pool_of k0) = 2) as Hh.
  { apply (result_fact (λ k, hash_block_size (pool_of k)) 0 demo_prefill); [vm_compute; reflexivity|exact E0]. }
  destruct (get_computed_blocks k0 demo_again) as [[[blks local] k]|e] eqn:Eg.
  2: { assert (demo_lookup = Err e) as El by (unfold demo_lookup; rewrite E0; exact Eg).
       pose proof (failure_fact demo_lookup e El) as Ef. vm_compute in Ef. discriminate Ef. }
  assert (demo_lookup = Ok (blks, local, k)) as El by (unfold demo_lookup; rewrite E0; exact Eg).
  pose proof (result_fact (λ '(b, n, k), (b, n, km_max_model_len k)) (EmptyBlocks, 0, 0) demo_lookup _
    (Blocks [[RBlk 1]], 2, 16) ltac:(vm_compute; reflexivity) El) as Eb. cbn beta iota in Eb.
  assert (blks = Blocks [[RBlk 1]]) as -> by exact (f_equal (λ x, x.1.1) Eb).
  assert (local = 2) as -> by exact (f_equal (λ x, x.1.2) Eb).
  assert (km_max_model_len k = 16) as Hlen by exact (f_equal snd Eb).
  destruct (allocate_slots_contract false (λ b, b) k m fl demo_again 2 (Some (Blocks [[RBlk 1]])) 2 0 false 0)
    as (o & k' & r' & m' & fl' & E & Hk' & _ & _ & _ & Hbs & Ho).
  - apply (call_start _ _ _ _ _ k0); [exact H0|apply demo_cacheable; [right; reflexivity|exact Hh]|reflexivity|
      reflexivity|exact Hb|exact Eg].
  - lia.
  - lia.
  - vm_compute. discriminate.
  - rewrite Hlen. vm_compute. discriminate.
  - assert (demo_allocation = Ok o) as Ea.
    { unfold demo_allocation. rewrite El. cbn [mbind res_bind]. rewrite E. reflexivity. }
    vm_compute in Ea. destruct o as [b|]; [|discriminate Ea].
    exists k0, k, b, k', r', m', fl'. split; [exact E0|]. split; [exact Eg|]. split; [exact E|].
    split; [exact Hk'|]. rewrite Hbs. exact Ho.
Defined.
