(* ===== verification/RoundExamples.v ===== *)
(** * An engine core at work

    Two requests arrive; while the model computes their prompts, one of them is
    aborted. *)

From Stdlib Require Import String QArith.
From stdpp Require Import relations.
From S2P Require Import Prelude Blocks FreeQueue Request BlockHash Metrics HashMap BlockPool PoolInv KVCacheSpec.
From S2P Require Import CacheHit HitExamples SingleTypeManager ManagerInv Coordinator KVCacheManager EncoderCache.
From S2P Require Import HeapQueue RequestQueue SchedUtils Scheduler Schedule SchedUpdate SchedLaws SchedWF.
From S2P Require Import Preemption RunningLoop WaitingLoop StepProps StepOutput Admission Generation Abort EngineCore.
From S2P Require Import GroupInv KVManagerProps Contracts Serving ServingExamples.
#[local] Open Scope Z_scope.

(** ** A hash without collisions *)

#[local] Instance ExtraKey_countable : Countable ExtraKey.
Proof.
  refine (inj_countable' (λ k, match k with KStr s => inl s | KMM s o => inr (inl (s, o)) | KBytes b => inr (inr b) end)
    (λ x, match x with inl s => KStr s | inr (inl (s, o)) => KMM s o | inr (inr b) => KBytes b end) _).
  by intros [].
Defined.

Definition coding_hash (x : hash_input) : bytes := [Z.pos (encode x)].
Definition coding_seed : bytes := [0].

Lemma coding_ideal : ideal_hash coding_hash coding_seed.
Proof.
  split; [|done|done]. intros x y [= E]. by apply (inj encode).
Qed.

(** ** The run *)

Definition run_request (id : string) (tokens : list Z) : EngineCoreRequest :=
  mkCoreRequest id (Some tokens) None (Some demo_sampling) None 0 None None None 0 0 false.

#[local] Abbreviation run_hasher := (Serving.hasher (λ b, b) coding_hash coding_seed demo_fields 2).
#[local] Abbreviation run_ops := (rounds_ops false (λ b, b)).
#[local] Abbreviation run_add := (engine_add_request (H := run_ops) run_hasher (λ _, false)).
#[local] Abbreviation run_engine := (engine_step (P := unit) (H := run_ops) run_hasher).
#[local] Abbreviation run_schedule := (schedule (H := run_ops) 3 no_grammar _update_after_schedule).

(** The model samples the token 7 for every request. *)
Definition sampler (o : SchedulerOutput) : ModelRunnerOutput :=
  let keys := (so_num_scheduled_tokens o).*1 in
  mkModelOutput (zip keys (zrange 0 (zlen keys))) ((λ _, [7]) <$> keys) [] ∅ None None.

#[local] Abbreviation run_init := (scheduler_init (E := EncoderCacheManager) (W := FCFSRequestQueue)
  (C := Empty_set) (EC := Empty_set)
  demo_fields demo_cache 2 false true encoder_init None None (λ _, 0) (λ _, 0%Q) demo_store).
#[local] Abbreviation run_first := (mbind (M := res) (λ s : demo_sched, run_add 1 s 0 (run_request "a" [1; 2; 3; 4])) run_init).
#[local] Abbreviation run_second := (mbind (M := res) (λ s : demo_sched, run_add 2 s 1 (run_request "b" [5; 6; 7; 8])) run_first).
#[local] Abbreviation run_step := (mbind (M := res)
  (λ s : demo_sched, run_engine 3 4 no_grammar sampler [["b"%string]] s) run_second).

Example run_step_result :
  (λ x, let '(outs, b, s) := x in
     (b, running s, (requests s).*1, all_token_ids (objs s 0), status (objs s 1))) <$> run_step
  = Ok (true, [0], ["a"%string], [1; 2; 3; 4; 7], FINISHED_ABORTED).
Proof. vm_compute. reflexivity. Qed.

(** ** Observing the run *)

Lemma seen {A B} (f : A → B) (d : B) (x : res A) a v :
  match x with Ok a => f a | Err _ => d end = v → x = Ok a → f a = v.
Proof. by intros <- ->. Qed.

Lemma run_fits id tokens :
  1 ≤ zlen tokens ≤ 16 → ∃ prompt sp, fits (vf_max_model_len demo_fields) (run_request id tokens) prompt sp.
Proof. intros Ht. exists tokens, demo_sampling. split; try done. cbn. lia. Qed.

Definition unused (s : demo_sched) (oid : Z) (id : string) : bool :=
  bool_decide (od_get (requests s) id = None) && bool_decide (id ∉ prev_step_scheduled_req_ids s)
  && bool_decide (oid ∉ all_ids s).

Lemma bind_seen {A B} (f : A → res B) (x : res A) a b : x = Ok a → x ≫= f = Ok b → f a = Ok b.
Proof. by intros ->. Qed.

Lemma seen_bind {A B} (f : A → res B) (x : res A) a b : x = Ok a → f a = Ok b → x ≫= f = Ok b.
Proof. by intros ->. Qed.

Lemma run_acceptable s oid id tokens :
  1 ≤ zlen tokens ≤ 16 → unused s oid id = true → acceptable demo_fields s oid (run_request id tokens).
Proof. intros Ht Hu. unfold unused in Hu. to_prop. split; [by apply run_fits|done..]. Qed.

(** The answers of the sampler, decided. *)
Definition answers_rows (s : demo_sched) (o : SchedulerOutput) (m : ModelRunnerOutput) : bool :=
  forallb (λ i, if bool_decide (rid s i ∈ (so_num_scheduled_tokens o).*1) then
                  match row m (rid s i) with
                  | Ok [t] => num_tokens (objs s i) <=? num_computed_tokens (objs s i)
                  | _ => false
                  end
                else true) (running s).

Lemma sampler_answers (s : demo_sched) o : answers_rows s o (sampler o) = true → model_answers s o (sampler o).
Proof.
  intros Hb. split; [done|done|]. intros i Hi Hk. unfold answers_rows in Hb. rewrite forallb_forall in Hb.
  specialize (Hb i (proj1 (list_elem_of_In _ _) Hi)). cbv beta in Hb. rewrite bool_decide_eq_true_2 in Hb by done.
  destruct (row (sampler o) (rid s i)) as [[|t [|]]|]; try done. exists [t]. split; [done|].
  unfold row_ok. rewrite (proj2 (Z.ltb_ge _ _)); [by exists t|]. by apply Z.leb_le.
Qed.

Lemma run_answering s : run_second = Ok s → answering (P := unit) false (λ b, b) 3 no_grammar s sampler.
Proof.
  intros E o s1 E1. apply sampler_answers.
  pose proof (seen_bind (λ s : demo_sched, run_schedule s) _ _ _ E E1) as E2.
  refine (seen (λ x : SchedulerOutput * demo_sched, answers_rows x.2 x.1 (sampler x.1)) false _ (o, s1) true _ E2).
  vm_compute. reflexivity.
Qed.

Lemma succeeds {A} (x : res A) : match x with Ok _ => true | Err _ => false end = true → ∃ a, x = Ok a.
Proof. destruct x as [a|]; [by exists a|done]. Qed.

Lemma run_arrivals :
  ∃ s0 s2 : demo_sched, run_init = Ok s0 ∧ run_second = Ok s2
    ∧ rtc (service (P := unit) false (λ b, b) coding_hash coding_seed demo_fields 2 (λ _, false)) s0 s2.
Proof.
  destruct (succeeds run_init) as [s0 E0]; [vm_compute; reflexivity|].
  destruct (succeeds run_first) as [s1 E1]; [vm_compute; reflexivity|].
  destruct (succeeds run_second) as [s2 E2]; [vm_compute; reflexivity|].
  exists s0, s2. split; [done|]. split; [done|]. apply (rtc_l _ _ s1); [|apply rtc_once].
  - apply (service_add _ _ _ _ _ _ _ 1 s0 0 (run_request "a" [1; 2; 3; 4])).
    + apply run_acceptable; [vm_compute; split; discriminate|].
      apply (seen (λ s, unused s 0 "a") false run_init s0 true); [vm_compute; reflexivity|done].
    + exact (bind_seen _ _ _ _ E0 E1).
  - apply (service_add _ _ _ _ _ _ _ 2 s1 1 (run_request "b" [5; 6; 7; 8])).
    + apply run_acceptable; [vm_compute; split; discriminate|].
      apply (seen (λ s, unused s 1 "b") false run_first s1 true); [vm_compute; reflexivity|done].
    + exact (bind_seen _ _ _ _ E1 E2).
Qed.

(** What the step leaves behind. *)
Lemma run_stepped s2 outs b s3 :
  run_second = Ok s2 → run_engine 3 4 no_grammar sampler [["b"%string]] s2 = Ok (outs, b, s3) →
  b = true ∧ running s3 = [0] ∧ all_token_ids (objs s3 0) = [1; 2; 3; 4; 7] ∧ status (objs s3 1) = FINISHED_ABORTED.
Proof.
  intros E2 E3. pose proof (seen_bind _ _ _ _ E2 E3) as E.
  assert ((b, running s3, all_token_ids (objs s3 0), status (objs s3 1))
    = (true, [0], [1; 2; 3; 4; 7], FINISHED_ABORTED)) as Hs.
  { refine (seen (λ x : list (Z * EngineCoreOutputs unit) * bool * demo_sched,
      let '(_, b, s) := x in (b, running s, all_token_ids (objs s 0), status (objs s 1)))
      (false, [], [], WAITING) run_step (outs, b, s3) _ _ E). vm_compute. reflexivity. }
  injection Hs as H1 H2 H3 H4. exact (conj H1 (conj H2 (conj H3 H4))).
Qed.

Lemma engine_never_fails_witness :
  ∃ (s0 s2 : demo_sched) outs s3, run_init = Ok s0
    ∧ rtc (service (P := unit) false (λ b, b) coding_hash coding_seed demo_fields 2 (λ _, false)) s0 s2
    ∧ run_engine 3 4 no_grammar sampler [["b"%string]] s2 = Ok (outs, true, s3)
    ∧ running s3 = [0] ∧ all_token_ids (objs s3 0) = [1; 2; 3; 4; 7] ∧ status (objs s3 1) = FINISHED_ABORTED.
Proof.
  destruct run_arrivals as (s0 & s2 & E0 & E2 & Hr).
  destruct (engine_never_fails (P := unit) false (λ b, b) coding_hash coding_seed demo_fields demo_cache 2 full_spec (λ _, false)
    false true encoder_init None (λ _, 0) (λ _, 0%Q) demo_store s0 s2 coding_ideal demo_one_group eq_refl demo_objects E0 Hr)
    as (_ & _ & _ & Hstep).
  destruct (Hstep 3 4 no_grammar sampler [["b"%string]] (run_answering s2 E2)) as (outs & b & s3 & E3 & _).
  destruct (run_stepped s2 outs b s3 E2 E3) as (-> & H1 & H2 & H3).
  exists s0, s2, outs, s3. split; [exact E0|]. split; [exact Hr|]. split; [exact E3|].
  split; [exact H1|]. split; [exact H2|exact H3].
Defined.
