(* ===== verification/PairProtocol.v ===== *)
(** * The pair scheduler's shared-memory protocol

    scheduler/src/vllm_pair_scheduler/native/pair_sched.c: two vLLM instances on one
    host take turns in running their execution rounds.  The workers of an instance
    meet at a barrier, a coordinator thread of the primary grants one instance at a
    time, and the workers meet again before the next round.

    Every access to an atomic variable is one step, and the steps of all threads
    interleave arbitrarily.  A thread is its program counter with the values it has
    loaded; a futex wait is a return to the head of its loop.  Sequence numbers,
    grants and nanosecond clocks do not overflow.  Each rank is opened once in the
    life of a shared-memory file. *)

From S2P Require Import Prelude.
#[local] Open Scope Z_scope.

(** ** Constants *)

Definition PS_INITIALIZING : Z := 0.
Definition PS_RUNNING : Z := 1.
Definition PS_FAILED : Z := 2.
Definition PS_SHUTDOWN : Z := 3.

Definition ROUND_OFFLINE : Z := 0.
Definition ROUND_IDLE : Z := 1.
Definition ROUND_INITIALIZING : Z := 2.
Definition ROUND_COLLECTING : Z := 3.
Definition ROUND_READY : Z := 4.
Definition ROUND_RUNNING : Z := 5.
Definition ROUND_COMPLETE : Z := 6.
Definition ROUND_DRAINING : Z := 7.

Definition FAIL_GENERIC : Z := 1.
Definition FAIL_FORWARD_TIMEOUT : Z := 102.
Definition FAIL_PRIMARY_DEAD : Z := 103.
Definition FAIL_WORKER_DEAD : Z := 104.
Definition FAIL_CORRUPT_OWNER : Z := 108.
Definition FAIL_CORRUPT_STATE : Z := 109.
Definition FAIL_FENCING : Z := 110.
Definition FAIL_DUPLICATE_RANK : Z := 111.
Definition FAIL_BARRIER_TIMEOUT : Z := 112.

Definition PS_NO_OWNER : Z := -1.
Definition PS_MAX_WORKERS : Z := 64.

(** ** Words of 32 and 64 bits *)

Definition u32 (x : Z) : Z := Z.land x (Z.ones 32).
Definition u64 (x : Z) : Z := Z.land x (Z.ones 64).
(** The conversion of an unsigned word to [int]. *)
Definition s32 (x : Z) : Z := if u32 x <? 2 ^ 31 then u32 x else u32 x - 2 ^ 32.

Definition make_status (state reason : Z) : Z := Z.lor (u64 (Z.shiftl (u32 state) 32)) (u32 reason).
Definition status_state (status : Z) : Z := s32 (Z.shiftr status 32).
Definition status_reason (status : Z) : Z := s32 status.

(** [UINT64_C(1) << rank] and the mask of all ranks. *)
Definition bit (rank : Z) : Z := u64 (Z.shiftl 1 rank).
Definition expected_mask_of (worker_count : Z) : Z :=
  if worker_count =? 64 then Z.ones 64 else u64 (Z.shiftl 1 worker_count) - 1.

(** ** Shared memory *)

Record worker_slot := mkSlot {
  slot_pid : Z;
  slot_session : Z;
  slot_last_seq : Z;
  slot_heartbeat_ns : Z;
}.

Record instance_group := mkInstance {
  g_state : Z;
  forward_seq : Z;
  grant_id : Z;
  ready_mask : Z;
  complete_mask : Z;
  exit_mask : Z;
  online_mask : Z;
  publish_ns : Z;
  workers : Z → worker_slot;
}.

Record shared_state := mkShared {
  peer_timeout_ms : Z;
  forward_timeout_ms : Z;
  worker_count : Z;
  sh_status : Z;
  owner : Z;
  last_owner : Z;
  deadline_ns : Z;
  primary_heartbeat_ns : Z;
  next_grant_id : Z;
  groups : Z → instance_group;
}.

(** [expected_mask] is written once, when the file is created. *)
Definition expected_mask (sh : shared_state) : Z := expected_mask_of (worker_count sh).

Definition upd {A} (f : Z → A) (k : Z) (v : A) : Z → A := λ x, if x =? k then v else f x.

Section stores.
Context (sh : shared_state).
Definition set_status v := mkShared (peer_timeout_ms sh) (forward_timeout_ms sh) (worker_count sh) v (owner sh)
  (last_owner sh) (deadline_ns sh) (primary_heartbeat_ns sh) (next_grant_id sh) (groups sh).
Definition set_owner v := mkShared (peer_timeout_ms sh) (forward_timeout_ms sh) (worker_count sh) (sh_status sh) v
  (last_owner sh) (deadline_ns sh) (primary_heartbeat_ns sh) (next_grant_id sh) (groups sh).
Definition set_last_owner v := mkShared (peer_timeout_ms sh) (forward_timeout_ms sh) (worker_count sh) (sh_status sh)
  (owner sh) v (deadline_ns sh) (primary_heartbeat_ns sh) (next_grant_id sh) (groups sh).
Definition set_deadline v := mkShared (peer_timeout_ms sh) (forward_timeout_ms sh) (worker_count sh) (sh_status sh)
  (owner sh) (last_owner sh) v (primary_heartbeat_ns sh) (next_grant_id sh) (groups sh).
Definition set_primary_heartbeat v := mkShared (peer_timeout_ms sh) (forward_timeout_ms sh) (worker_count sh)
  (sh_status sh) (owner sh) (last_owner sh) (deadline_ns sh) v (next_grant_id sh) (groups sh).
Definition set_next_grant v := mkShared (peer_timeout_ms sh) (forward_timeout_ms sh) (worker_count sh)
  (sh_status sh) (owner sh) (last_owner sh) (deadline_ns sh) (primary_heartbeat_ns sh) v (groups sh).
Definition set_group (i : Z) (g : instance_group) := mkShared (peer_timeout_ms sh) (forward_timeout_ms sh)
  (worker_count sh) (sh_status sh) (owner sh) (last_owner sh) (deadline_ns sh) (primary_heartbeat_ns sh)
  (next_grant_id sh) (upd (groups sh) i g).
End stores.

Section group_stores.
Context (g : instance_group).
Definition g_set_state v := mkInstance v (forward_seq g) (grant_id g) (ready_mask g) (complete_mask g) (exit_mask g)
  (online_mask g) (publish_ns g) (workers g).
Definition g_set_seq v := mkInstance (g_state g) v (grant_id g) (ready_mask g) (complete_mask g) (exit_mask g)
  (online_mask g) (publish_ns g) (workers g).
Definition g_set_grant v := mkInstance (g_state g) (forward_seq g) v (ready_mask g) (complete_mask g) (exit_mask g)
  (online_mask g) (publish_ns g) (workers g).
Definition g_set_ready v := mkInstance (g_state g) (forward_seq g) (grant_id g) v (complete_mask g) (exit_mask g)
  (online_mask g) (publish_ns g) (workers g).
Definition g_set_complete v := mkInstance (g_state g) (forward_seq g) (grant_id g) (ready_mask g) v (exit_mask g)
  (online_mask g) (publish_ns g) (workers g).
Definition g_set_exit v := mkInstance (g_state g) (forward_seq g) (grant_id g) (ready_mask g) (complete_mask g) v
  (online_mask g) (publish_ns g) (workers g).
Definition g_set_online v := mkInstance (g_state g) (forward_seq g) (grant_id g) (ready_mask g) (complete_mask g)
  (exit_mask g) v (publish_ns g) (workers g).
Definition g_set_publish v := mkInstance (g_state g) (forward_seq g) (grant_id g) (ready_mask g) (complete_mask g)
  (exit_mask g) (online_mask g) v (workers g).
Definition g_set_slot (r : Z) (s : worker_slot) := mkInstance (g_state g) (forward_seq g) (grant_id g) (ready_mask g)
  (complete_mask g) (exit_mask g) (online_mask g) (publish_ns g) (upd (workers g) r s).
End group_stores.

Definition on_group (sh : shared_state) (i : Z) (f : instance_group → instance_group) : shared_state :=
  set_group sh i (f (groups sh i)).
Definition on_slot (sh : shared_state) (i r : Z) (f : worker_slot → worker_slot) : shared_state :=
  on_group sh i (λ g, g_set_slot g r (f (workers g r))).

Definition s_set_pid (s : worker_slot) v := mkSlot v (slot_session s) (slot_last_seq s) (slot_heartbeat_ns s).
Definition s_set_session (s : worker_slot) v := mkSlot (slot_pid s) v (slot_last_seq s) (slot_heartbeat_ns s).
Definition s_set_last_seq (s : worker_slot) v := mkSlot (slot_pid s) (slot_session s) v (slot_heartbeat_ns s).
Definition s_set_heartbeat (s : worker_slot) v := mkSlot (slot_pid s) (slot_session s) (slot_last_seq s) v.

(** ** Helpers of the source *)

Definition heartbeat_expired (heartbeat now timeout_ms : Z) : bool :=
  (heartbeat =? 0) || ((heartbeat <? now) && (timeout_ms * 1000000 <? now - heartbeat)).

Definition valid_round_state (state : Z) : bool := (ROUND_OFFLINE <=? state) && (state <=? ROUND_DRAINING).

Definition is_running (status : Z) : bool := status_state status =? PS_RUNNING.

(** The compare-and-exchange of [fail_pair]. *)
Definition fail_pair (sh : shared_state) (reason : Z) : shared_state :=
  if sh_status sh =? make_status PS_RUNNING 0 then
    set_status sh (make_status PS_FAILED (if reason =? 0 then FAIL_GENERIC else reason))
  else sh.

(** ** Workers *)

Inductive pc :=
  (* ps_open and register_worker *)
  | PClosed
  | POpen
  | POpenStatus (primary_hb : Z)
  | PSession
  | PHeartbeat (now old_session : Z)
  | PSetPid (now : Z)
  | PSetSeq (now : Z)
  | PSetHeartbeat (now : Z)
  | PSetSession
  | PSetOnline
  | PState
  | PToIdle
  | PNextSeq
  (* outside of a call *)
  | PIdle
  (* fail_pair and the return of an error *)
  | PFail (reason : Z)
  (* ps_enter_forward *)
  | ECheck
  | ELoop
  | EClaim
  | EInit (k : nat)
  | ESeq (state : Z)
  | ELast
  | EReady
  | EPublish
  | EWait
  | EPrimary
  | EState
  | ESeqW (state : Z)
  | EGrantW (state seq : Z)
  | EOwnerW (state seq grant : Z)
  | EValid (k : nat) (grant : Z)
  (* ps_leave_forward *)
  | LDeadline (seq grant : Z)
  | LCheck (seq grant deadline : Z)
  | LOwner (seq grant : Z)
  | LSeq (seq grant : Z)
  | LGrant (seq grant : Z)
  | LState (seq : Z)
  | LValid (k : nat) (seq : Z)
  | LComplete
  | LPublish
  | LWait
  | LStateW
  | LSeqW (state : Z)
  | LExit
  | LClear (k : nat).

(** A context.  [c_forward]: the caller runs the model, from the return of
    [ps_enter_forward] to the call of [ps_leave_forward]; [c_failed]: some call has
    returned or is about to return an error. *)
Record ps_context := mkCtx {
  c_pc : pc;
  c_pid : Z;
  c_session : Z;
  next_seq : Z;
  active_seq : Z;
  active_grant_id : Z;
  c_forward : bool;
  c_failed : bool;
}.

Section context.
Context (c : ps_context).
Definition goto (p : pc) := mkCtx p (c_pid c) (c_session c) (next_seq c) (active_seq c) (active_grant_id c)
  (c_forward c) (c_failed c).
Definition with_next_seq n := mkCtx (c_pc c) (c_pid c) (c_session c) n (active_seq c) (active_grant_id c)
  (c_forward c) (c_failed c).
Definition with_active s g := mkCtx (c_pc c) (c_pid c) (c_session c) (next_seq c) s g (c_forward c) (c_failed c).
Definition with_forward b := mkCtx (c_pc c) (c_pid c) (c_session c) (next_seq c) (active_seq c) (active_grant_id c)
  b (c_failed c).
Definition with_failed := mkCtx (c_pc c) (c_pid c) (c_session c) (next_seq c) (active_seq c) (active_grant_id c)
  (c_forward c) true.
End context.

(** [return -1] without and after [fail_pair]. *)
Definition ret_error (c : ps_context) : ps_context := with_failed (goto c PIdle).
Definition fail_with (c : ps_context) (reason : Z) : ps_context := with_failed (goto c (PFail reason)).

(** [validate_local_worker]: the loads of session, pid and last sequence. *)
Definition slot_matches (c : ps_context) (s : worker_slot) (seq : Z) (k : nat) : bool :=
  match k with
  | O => slot_session s =? c_session c
  | 1%nat => slot_pid s =? c_pid c
  | _ => slot_last_seq s =? seq
  end.

(** The stores of the worker that opens a round, and of the last one that leaves it. *)
Definition init_store (now seq : Z) (k : nat) (g : instance_group) : instance_group :=
  match k with
  | 0%nat => g_set_seq g seq
  | 1%nat => g_set_grant g 0
  | 2%nat => g_set_ready g 0
  | 3%nat => g_set_complete g 0
  | 4%nat => g_set_exit g 0
  | 5%nat => g_set_publish g now
  | _ => g_set_state g ROUND_COLLECTING
  end.
Definition clear_store (k : nat) (g : instance_group) : instance_group :=
  match k with
  | 0%nat => g_set_ready g 0
  | 1%nat => g_set_complete g 0
  | 2%nat => g_set_grant g 0
  | 3%nat => g_set_publish g 0
  | _ => g_set_state g ROUND_IDLE
  end.

Section worker.
Context (now i r : Z) (sh : shared_state) (c : ps_context).
Abbreviation g := (groups sh i).
Abbreviation slot := (workers (groups sh i) r).
Abbreviation E := (expected_mask sh).

(** [ps_open] after the file is mapped, and [register_worker]. *)
Definition open_step : shared_state * ps_context :=
  match c_pc c with
  | POpen => (sh, goto c (POpenStatus (primary_heartbeat_ns sh)))
  | POpenStatus hb =>
      (sh, if negb (is_running (sh_status sh)) || heartbeat_expired hb now (peer_timeout_ms sh)
           then goto c PClosed else goto c PSession)
  | PSession => (sh, goto c (PHeartbeat now (slot_session slot)))
  | PHeartbeat t old =>
      (sh, if negb (old =? 0) && negb (heartbeat_expired (slot_heartbeat_ns slot) t (peer_timeout_ms sh))
           then goto c PClosed else goto c (PSetPid t))
  | PSetPid t => (on_slot sh i r (λ s, s_set_pid s (c_pid c)), goto c (PSetSeq t))
  | PSetSeq t => (on_slot sh i r (λ s, s_set_last_seq s 0), goto c (PSetHeartbeat t))
  | PSetHeartbeat t => (on_slot sh i r (λ s, s_set_heartbeat s t), goto c PSetSession)
  | PSetSession => (on_slot sh i r (λ s, s_set_session s (c_session c)), goto c PSetOnline)
  | PSetOnline => (on_group sh i (λ g, g_set_online g (Z.lor (online_mask g) (bit r))), goto c PState)
  | PState => (sh, if g_state g =? ROUND_OFFLINE then goto c PToIdle else goto c PNextSeq)
  | PToIdle =>
      (if g_state g =? ROUND_OFFLINE then on_group sh i (λ g, g_set_state g ROUND_IDLE) else sh, goto c PNextSeq)
  | PNextSeq => (sh, goto (with_next_seq c (forward_seq g)) PIdle)
  | _ => (sh, c)
  end.

(** [ps_enter_forward] after [++ctx->next_seq]. *)
Definition enter_step : shared_state * ps_context :=
  match c_pc c with
  | ECheck => (sh, if is_running (sh_status sh) then goto c ELoop else ret_error c)
  | ELoop =>
      let st := g_state g in
      (sh, if st =? ROUND_IDLE then goto c EClaim
           else if (st =? ROUND_INITIALIZING) || (st =? ROUND_DRAINING) then c
           else goto c (ESeq st))
  | EClaim =>
      if g_state g =? ROUND_IDLE then (on_group sh i (λ g, g_set_state g ROUND_INITIALIZING), goto c (EInit 0))
      else (sh, goto c ELoop)
  | EInit k =>
      (on_group sh i (init_store now (next_seq c) k), if (6 <=? k)%nat then goto c ELast else goto c (EInit (S k)))
  | ESeq st =>
      (sh, if (st =? ROUND_COLLECTING) && (forward_seq g =? next_seq c) then goto c ELast
           else fail_with c FAIL_FENCING)
  | ELast => (on_slot sh i r (λ s, s_set_last_seq s (next_seq c)), goto c EReady)
  | EReady =>
      let previous := ready_mask g in
      (on_group sh i (λ g, g_set_ready g (Z.lor previous (bit r))),
       if negb (Z.land previous (bit r) =? 0) then fail_with c FAIL_DUPLICATE_RANK
       else if Z.lor previous (bit r) =? E then goto c EPublish else goto c EWait)
  | EPublish =>
      if g_state g =? ROUND_COLLECTING then (on_group sh i (λ g, g_set_state g ROUND_READY), goto c EWait)
      else (sh, fail_with c FAIL_FENCING)
  | EWait => (sh, if is_running (sh_status sh) then goto c EPrimary else ret_error c)
  | EPrimary =>
      (sh, if heartbeat_expired (primary_heartbeat_ns sh) now (peer_timeout_ms sh)
           then fail_with c FAIL_PRIMARY_DEAD else goto c EState)
  | EState => (sh, goto c (ESeqW (g_state g)))
  | ESeqW st => (sh, goto c (EGrantW st (forward_seq g)))
  | EGrantW st sq => (sh, goto c (EOwnerW st sq (grant_id g)))
  | EOwnerW st sq gr =>
      (sh, if (st =? ROUND_RUNNING) && (owner sh =? i) && (sq =? next_seq c) && negb (gr =? 0)
           then goto c (EValid 0 gr)
           else if negb (sq =? next_seq c)
                   || negb ((st =? ROUND_COLLECTING) || (st =? ROUND_READY) || (st =? ROUND_RUNNING))
           then fail_with c FAIL_FENCING
           else goto c EWait)
  | EValid k gr =>
      (sh, if slot_matches c slot (next_seq c) k then
             if (2 <=? k)%nat then with_forward (with_active (goto c PIdle) (next_seq c) gr) true
             else goto c (EValid (S k) gr)
           else fail_with c FAIL_FENCING)
  | _ => (sh, c)
  end.

(** [ps_leave_forward]. *)
Definition leave_step : shared_state * ps_context :=
  match c_pc c with
  | LDeadline sq gr => (sh, goto c (LCheck sq gr (deadline_ns sh)))
  | LCheck sq gr deadline =>
      (sh, if negb (is_running (sh_status sh)) then ret_error c
           else if negb (deadline =? 0) && (deadline <? now) then fail_with c FAIL_FORWARD_TIMEOUT
           else if (active_seq c =? sq) && (active_grant_id c =? gr) then goto c (LOwner sq gr)
           else fail_with c FAIL_FENCING)
  | LOwner sq gr => (sh, if owner sh =? i then goto c (LSeq sq gr) else fail_with c FAIL_FENCING)
  | LSeq sq gr => (sh, if forward_seq g =? sq then goto c (LGrant sq gr) else fail_with c FAIL_FENCING)
  | LGrant sq gr => (sh, if grant_id g =? gr then goto c (LState sq) else fail_with c FAIL_FENCING)
  | LState sq => (sh, if g_state g =? ROUND_RUNNING then goto c (LValid 0 sq) else fail_with c FAIL_FENCING)
  | LValid k sq =>
      (sh, if slot_matches c slot sq k then
             if (2 <=? k)%nat then goto c LComplete else goto c (LValid (S k) sq)
           else fail_with c FAIL_FENCING)
  | LComplete =>
      let previous := complete_mask g in
      (on_group sh i (λ g, g_set_complete g (Z.lor previous (bit r))),
       if negb (Z.land previous (bit r) =? 0) then fail_with c FAIL_DUPLICATE_RANK
       else if Z.lor previous (bit r) =? E then goto c LPublish else goto c LWait)
  | LPublish =>
      if g_state g =? ROUND_RUNNING then (on_group sh i (λ g, g_set_state g ROUND_COMPLETE), goto c LWait)
      else (sh, fail_with c FAIL_FENCING)
  | LWait => (sh, if is_running (sh_status sh) then goto c LStateW else ret_error c)
  | LStateW => (sh, goto c (LSeqW (g_state g)))
  | LSeqW st =>
      (sh, if (st =? ROUND_DRAINING) && (forward_seq g =? active_seq c) then goto c LExit
           else if negb (forward_seq g =? active_seq c)
                   || negb ((st =? ROUND_RUNNING) || (st =? ROUND_COMPLETE) || (st =? ROUND_DRAINING))
           then fail_with c FAIL_FENCING
           else goto c LWait)
  | LExit =>
      let exited := Z.lor (exit_mask g) (bit r) in
      (on_group sh i (λ g, g_set_exit g exited),
       if exited =? E then goto c (LClear 0) else with_active (goto c PIdle) 0 0)
  | LClear k =>
      (on_group sh i (clear_store k), if (4 <=? k)%nat then with_active (goto c PIdle) 0 0 else goto c (LClear (S k)))
  | _ => (sh, c)
  end.

Definition worker_step : shared_state * ps_context :=
  match c_pc c with
  | PFail reason => (fail_pair sh reason, goto c PIdle)
  | PClosed | POpen | POpenStatus _ | PSession | PHeartbeat _ _ | PSetPid _ | PSetSeq _ | PSetHeartbeat _
  | PSetSession | PSetOnline | PState | PToIdle | PNextSeq | PIdle => open_step
  | ECheck | ELoop | EClaim | EInit _ | ESeq _ | ELast | EReady | EPublish | EWait | EPrimary | EState | ESeqW _
  | EGrantW _ _ | EOwnerW _ _ _ | EValid _ _ => enter_step
  | _ => leave_step
  end.
End worker.

(** The calls; [++ctx->next_seq] and the test of [active_seq] are local. *)
Definition call_enter (c : ps_context) : ps_context :=
  let c := with_next_seq c (next_seq c + 1) in
  if active_seq c =? 0 then goto c ECheck else fail_with c FAIL_FENCING.
Definition call_leave (c : ps_context) (seq grant : Z) : ps_context :=
  with_forward (goto c (LDeadline seq grant)) false.

(** ** The coordinator *)

(** What the scan over the workers of a group is for: the owner of the running round,
    the barrier of a group that waits for too long, or the readiness of a group.
    [acc] holds readiness and publication time of the groups already examined. *)
Inductive scan_for :=
  | ForOwner (o : Z)
  | ForBarrier (acc : list (bool * Z)) (state ready online publish : Z)
  | ForReady (acc : list (bool * Z)) (publish : Z).

Inductive cpc :=
  | CStatus
  | CVOwner
  | CValid (i : Z) (k : nat) (bad : bool)
  | CFail (reason : Z) (next : cpc)
  | CBeat
  | COwner (now : Z)
  | CRState (now o : Z)
  | CRComplete (now o state : Z)
  | CRDeadline (now o state complete : Z)
  | CRecycle (now o : Z) (k : nat)
  | CScan (now : Z) (f : scan_for) (rank : Z)
  | CScanSession (now : Z) (f : scan_for) (rank pid : Z)
  | CScanBeat (now : Z) (f : scan_for) (rank pid session : Z)
  | CStatus2 (now : Z)
  | COwner2 (now : Z)
  | CDOwner (now : Z)
  | CDState (now : Z) (acc : list (bool * Z))
  | CDReady (now : Z) (acc : list (bool * Z)) (state : Z)
  | CDOnline (now : Z) (acc : list (bool * Z)) (state ready : Z)
  | CDPublish (now : Z) (acc : list (bool * Z)) (state ready online : Z)
  | CDLast (now : Z)
  | CDTake (now selected : Z)
  | CDGrant (now selected : Z)
  | CDSetGrant (now selected grant : Z)
  | CDDeadline (now selected : Z)
  | CDSetOwner (selected : Z).

Section coordinator.
Context (now : Z) (sh : shared_state).
Abbreviation E := (expected_mask sh).

(** The five loads of [validate_shared] for one group. *)
Definition field_bad (i : Z) (k : nat) : bool :=
  let g := groups sh i in
  let outside m := negb (Z.ldiff m E =? 0) in
  match k with
  | 0%nat => negb (valid_round_state (g_state g))
  | 1%nat => outside (ready_mask g)
  | 2%nat => outside (complete_mask g)
  | 3%nat => outside (exit_mask g)
  | _ => outside (online_mask g)
  end.

(** The choice between ready groups, [None] when their publication times are equal. *)
Definition select (r0 r1 : bool) (p0 p1 : Z) : option Z :=
  if r0 && r1 then if p0 <? p1 then Some 0 else if p1 <? p0 then Some 1 else None
  else if r0 then Some 0 else Some 1.

(** After the groups are examined. *)
Definition chosen (t : Z) (acc : list (bool * Z)) : cpc :=
  match acc with
  | [(r0, p0); (r1, p1)] =>
      if negb r0 && negb r1 then CStatus
      else match select r0 r1 p0 p1 with Some s => CDTake t s | None => CDLast t end
  | _ => CStatus
  end.

Definition examined (t : Z) (acc : list (bool * Z)) (ready : bool) (publish : Z) : cpc :=
  let acc := acc ++ [(ready, publish)] in
  if (2 <=? length acc)%nat then chosen t acc else CDState t acc.

(** [ready[i] = ...] before the scan of the workers. *)
Definition check_ready (t : Z) (acc : list (bool * Z)) (state ready online publish : Z) : cpc :=
  if (state =? ROUND_READY) && (ready =? E) && (online =? E) then CScan t (ForReady acc publish) 0
  else examined t acc false publish.

(** The body of the loop of [dispatch_next] after its loads. *)
Definition examine (t : Z) (acc : list (bool * Z)) (state ready online publish : Z) : cpc :=
  if ((state =? ROUND_COLLECTING) || (state =? ROUND_READY)) && negb (publish =? 0) && (publish <? t)
     && (peer_timeout_ms sh * 1000000 <? t - publish) then
    if negb (ready =? E) || negb (online =? E) then CFail FAIL_BARRIER_TIMEOUT CStatus
    else CScan t (ForBarrier acc state ready online publish) 0
  else check_ready t acc state ready online publish.

Definition scan_group (f : scan_for) : Z :=
  match f with ForOwner o => o | ForBarrier acc _ _ _ _ | ForReady acc _ => zlen acc end.
Definition scan_mask (f : scan_for) : Z := match f with ForBarrier _ _ ready _ _ => ready | _ => E end.

(** What follows a scan that found all workers alive, or a dead one. *)
Definition scan_alive (t : Z) (f : scan_for) : cpc :=
  match f with
  | ForOwner _ => CStatus2 t
  | ForBarrier acc st rd on pb => check_ready t acc st rd on pb
  | ForReady acc pb => examined t acc true pb
  end.
Definition scan_dead (t : Z) (f : scan_for) : cpc :=
  match f with
  | ForOwner _ => CFail FAIL_WORKER_DEAD (CStatus2 t)
  | ForBarrier _ _ _ _ _ => CFail FAIL_BARRIER_TIMEOUT CStatus
  | ForReady acc pb => examined t acc false pb
  end.

(** The stores of [recycle_complete]. *)
Definition recycle_store (o : Z) (k : nat) : shared_state :=
  match k with
  | 0%nat => on_group sh o (λ g, g_set_exit g 0)
  | 1%nat => on_group sh o (λ g, g_set_state g ROUND_DRAINING)
  | 2%nat => set_last_owner sh o
  | 3%nat => set_deadline sh 0
  | _ => set_owner sh PS_NO_OWNER
  end.

(** One step of [coordinator_main]. *)
Definition coordinator_step (p : cpc) : shared_state * cpc :=
  match p with
  | CStatus => (sh, if is_running (sh_status sh) then CVOwner else CStatus)
  | CVOwner =>
      (sh, if negb (owner sh =? PS_NO_OWNER) && ((owner sh <? 0) || (2 <=? owner sh))
           then CFail FAIL_CORRUPT_OWNER CStatus else CValid 0 0 false)
  | CValid i k bad =>
      let bad := bad || field_bad i k in
      (sh, if (4 <=? k)%nat then
             if bad then CFail FAIL_CORRUPT_STATE CStatus
             else if i =? 0 then CValid 1 0 false else CBeat
           else CValid i (S k) bad)
  | CFail reason next => (fail_pair sh reason, next)
  | CBeat => (set_primary_heartbeat sh now, COwner now)
  | COwner t => (sh, if owner sh =? PS_NO_OWNER then CStatus2 t else CRState t (owner sh))
  | CRState t o => (sh, CRComplete t o (g_state (groups sh o)))
  | CRComplete t o st => (sh, CRDeadline t o st (complete_mask (groups sh o)))
  | CRDeadline t o st cm =>
      let deadline := deadline_ns sh in
      (sh, if negb (deadline =? 0) && (deadline <? t) then CFail FAIL_FORWARD_TIMEOUT (CStatus2 t)
           else if negb (st =? ROUND_COMPLETE) || negb (cm =? E) then
             if (st =? ROUND_RUNNING) || (st =? ROUND_COMPLETE) then CScan t (ForOwner o) 0 else CStatus2 t
           else CRecycle t o 0)
  | CRecycle t o k => (recycle_store o k, if (4 <=? k)%nat then CStatus2 t else CRecycle t o (S k))
  | CScan t f rank =>
      if worker_count sh <=? rank then (sh, scan_alive t f)
      else if Z.land (scan_mask f) (bit rank) =? 0 then (sh, CScan t f (rank + 1))
      else (sh, CScanSession t f rank (slot_pid (workers (groups sh (scan_group f)) rank)))
  | CScanSession t f rank pid =>
      (sh, CScanBeat t f rank pid (slot_session (workers (groups sh (scan_group f)) rank)))
  | CScanBeat t f rank pid session =>
      let hb := slot_heartbeat_ns (workers (groups sh (scan_group f)) rank) in
      (sh, if (0 <? pid) && negb (session =? 0) && negb (heartbeat_expired hb t (peer_timeout_ms sh))
           then CScan t f (rank + 1) else scan_dead t f)
  | CStatus2 t => (sh, if is_running (sh_status sh) then COwner2 t else CStatus)
  | COwner2 t => (sh, if owner sh =? PS_NO_OWNER then CDOwner t else CStatus)
  | CDOwner t => (sh, if owner sh =? PS_NO_OWNER then CDState t [] else CStatus)
  | CDState t acc => (sh, CDReady t acc (g_state (groups sh (zlen acc))))
  | CDReady t acc st => (sh, CDOnline t acc st (ready_mask (groups sh (zlen acc))))
  | CDOnline t acc st rd => (sh, CDPublish t acc st rd (online_mask (groups sh (zlen acc))))
  | CDPublish t acc st rd on => (sh, examine t acc st rd on (publish_ns (groups sh (zlen acc))))
  | CDLast t => (sh, CDTake t (if last_owner sh =? 0 then 1 else 0))
  | CDTake t s =>
      if g_state (groups sh s) =? ROUND_READY
      then (on_group sh s (λ g, g_set_state g ROUND_RUNNING), CDGrant t s) else (sh, CStatus)
  | CDGrant t s => (set_next_grant sh (next_grant_id sh + 1), CDSetGrant t s (next_grant_id sh + 1))
  | CDSetGrant t s grant => (on_group sh s (λ g, g_set_grant g grant), CDDeadline t s)
  | CDDeadline t s => (set_deadline sh (t + forward_timeout_ms sh * 1000000), CDSetOwner s)
  | CDSetOwner s => (set_owner sh s, CStatus)
  end.
End coordinator.

(** ** The system *)

Record world := mkWorld {
  memory : shared_state;
  ctxs : Z → Z → ps_context;
  coord : cpc;
  clock : Z;
}.

Definition set_ctx (f : Z → Z → ps_context) (i r : Z) (c : ps_context) : Z → Z → ps_context :=
  upd f i (upd (f i) r c).

(** The ranks of a file with [n] workers per instance. *)
Definition rank_of (n i r : Z) : Prop := (i = 0 ∨ i = 1) ∧ 0 ≤ r < n.

(** [ps_open] has returned the context. *)
Definition opened (c : ps_context) : bool :=
  match c_pc c with
  | PClosed | POpen | POpenStatus _ | PSession | PHeartbeat _ _ | PSetPid _ | PSetSeq _ | PSetHeartbeat _
  | PSetSession | PSetOnline | PState | PToIdle | PNextSeq => false
  | _ => true
  end.

(** One step of a worker's call, of the coordinator, of a heartbeat thread or of the
    clock; the start of a call; and [ps_fail]. *)
Inductive step (w : world) : world → Prop :=
  | step_worker i r sh c :
      rank_of (worker_count (memory w)) i r →
      worker_step (clock w) i r (memory w) (ctxs w i r) = (sh, c) →
      step w (mkWorld sh (set_ctx (ctxs w) i r c) (coord w) (clock w))
  | step_coordinator sh p :
      coordinator_step (clock w) (memory w) (coord w) = (sh, p) →
      step w (mkWorld sh (ctxs w) p (clock w))
  | step_open i r :
      rank_of (worker_count (memory w)) i r → c_pc (ctxs w i r) = PClosed →
      step w (mkWorld (memory w) (set_ctx (ctxs w) i r (goto (ctxs w i r) POpen)) (coord w) (clock w))
  | step_enter i r :
      rank_of (worker_count (memory w)) i r → c_pc (ctxs w i r) = PIdle →
      step w (mkWorld (memory w) (set_ctx (ctxs w) i r (call_enter (ctxs w i r))) (coord w) (clock w))
  | step_leave i r seq grant :
      rank_of (worker_count (memory w)) i r → c_pc (ctxs w i r) = PIdle →
      step w (mkWorld (memory w) (set_ctx (ctxs w) i r (call_leave (ctxs w i r) seq grant)) (coord w) (clock w))
  | step_fail i r reason :
      rank_of (worker_count (memory w)) i r → opened (ctxs w i r) = true →
      step w (mkWorld (fail_pair (memory w) reason) (ctxs w) (coord w) (clock w))
  | step_heartbeat i r :
      rank_of (worker_count (memory w)) i r → opened (ctxs w i r) = true →
      step w (mkWorld (on_slot (memory w) i r (λ s, s_set_heartbeat s (clock w))) (ctxs w) (coord w) (clock w))
  | step_clock t :
      clock w ≤ t → step w (mkWorld (memory w) (ctxs w) (coord w) t).

(** The shared memory that the primary's rank 0 creates. *)
Definition empty_instance : instance_group :=
  mkInstance ROUND_OFFLINE 0 0 0 0 0 0 0 (λ _, mkSlot 0 0 0 0).
Definition created (peer forward n now : Z) : shared_state :=
  mkShared peer forward n (make_status PS_RUNNING 0) PS_NO_OWNER PS_NO_OWNER 0 now 0 (λ _, empty_instance).

(** Contexts before [ps_open], with the pid and the session they will use. *)
Definition closed (ids : Z → Z → Z * Z) (i r : Z) : ps_context :=
  mkCtx (if (i =? 0) && (r =? 0) then PSession else PClosed) (ids i r).1 (ids i r).2 0 0 0 false false.

Definition initial (peer forward n now : Z) (ids : Z → Z → Z * Z) : world :=
  mkWorld (created peer forward n now) (closed ids) CStatus now.

Definition reachable (w : world) : Prop :=
  ∃ peer forward n now ids, 1 ≤ n ≤ PS_MAX_WORKERS ∧ rtc step (initial peer forward n now ids) w.
