(* ===== verification/PairInv.v ===== *)
(** * The invariant of the pair protocol

    What holds in every reachable state of PairProtocol.v, whatever the callers do:
    the phase of every worker agrees with the state of its group and with the
    owner.  A worker counts as joined from setting its ready bit to setting its exit
    bit. *)

From S2P Require Import Prelude PairProtocol.
#[local] Open Scope Z_scope.

(** ** Bits *)

Lemma land_ones_mod x n : 0 ≤ n → Z.land x (Z.ones n) = x mod 2 ^ n.
Proof. apply Z.land_ones. Qed.

Lemma bit_pow r : 0 ≤ r < 64 → bit r = 2 ^ r.
Proof.
  intros Hr. unfold bit, u64. rewrite Z.shiftl_1_l, Z.land_ones by lia. apply Z.mod_small. split; [lia|].
  apply Z.pow_lt_mono_r; lia.
Qed.

Lemma expected_ones n : 1 ≤ n ≤ 64 → expected_mask_of n = Z.ones n.
Proof.
  intros Hn. unfold expected_mask_of. destruct (n =? 64) eqn:E; to_prop; [by subst|].
  fold (bit n). rewrite bit_pow by lia. rewrite Z.ones_equiv. lia.
Qed.

Lemma testbit_expected n r : 1 ≤ n ≤ 64 → 0 ≤ r < n → Z.testbit (expected_mask_of n) r = true.
Proof. intros Hn Hr. rewrite expected_ones by done. apply Z.ones_spec_low. lia. Qed.

Lemma testbit_lor_bit m r q : 0 ≤ r < 64 → 0 ≤ q → Z.testbit (Z.lor m (bit r)) q = Z.testbit m q || (q =? r).
Proof.
  intros Hr Hq. rewrite Z.lor_spec, bit_pow by done. f_equal. rewrite Z.pow2_bits_eqb by lia. apply Z.eqb_sym.
Qed.

Lemma land_bit m r : 0 ≤ r < 64 → (Z.land m (bit r) =? 0) = negb (Z.testbit m r).
Proof.
  intros Hr. rewrite bit_pow by done. destruct (Z.testbit m r) eqn:E; cbn [negb].
  - apply Z.eqb_neq. intros H0. assert (Z.testbit (Z.land m (2 ^ r)) r = false) as H by (by rewrite H0, Z.bits_0).
    rewrite Z.land_spec, E, Z.pow2_bits_true in H by lia. done.
  - apply Z.eqb_eq. apply Z.bits_inj'. intros q Hq. rewrite Z.land_spec, Z.bits_0, Z.pow2_bits_eqb by lia.
    destruct (r =? q) eqn:Er; to_prop; [subst; by rewrite E|apply andb_false_r].
Qed.

(** ** The status word *)

Lemma status_state_make s r : 0 ≤ s < 2 ^ 31 → status_state (make_status s r) = s.
Proof.
  intros Hs. unfold status_state, make_status, s32, u32, u64. rewrite !Z.shiftr_lor.
  assert (Z.shiftr (Z.land r (Z.ones 32)) 32 = 0) as ->.
  { rewrite Z.land_ones, Z.shiftr_div_pow2 by lia. apply Z.div_small. apply Z.mod_pos_bound. lia. }
  rewrite Z.lor_0_r. rewrite (Z.land_ones s 32), (Z.mod_small s) by lia.
  rewrite Z.shiftl_mul_pow2, (Z.land_ones (s * 2 ^ 32)), (Z.mod_small (s * 2 ^ 32)) by lia.
  rewrite Z.shiftr_div_pow2, Z.div_mul by lia. rewrite Z.land_ones, Z.mod_small by lia.
  rewrite (proj2 (Z.ltb_lt _ _)); lia.
Qed.

Lemma status_reason_make s r : 0 ≤ r < 2 ^ 31 → status_reason (make_status s r) = r.
Proof.
  intros Hr. unfold status_reason, make_status, s32, u32, u64. set (hi := Z.land (Z.shiftl _ 32) _).
  assert (Z.land (Z.lor hi (Z.land r (Z.ones 32))) (Z.ones 32) = r) as ->.
  { rewrite (Z.land_ones r), (Z.mod_small r) by lia. apply Z.bits_inj'. intros q Hq.
    rewrite Z.land_spec, Z.lor_spec. unfold hi. rewrite Z.land_spec. destruct (Z.lt_ge_cases q 32).
    - rewrite Z.shiftl_spec_low, !Z.ones_spec_low by lia. cbn. by rewrite andb_true_r.
    - rewrite (Z.ones_spec_high 32) by lia. rewrite andb_false_r. symmetry.
      apply (Z.testbit_false r); [lia|]. rewrite Z.div_small; [done|]. split; [lia|].
      assert (2 ^ 31 ≤ 2 ^ q) by (apply Z.pow_le_mono_r; lia). lia. }
  rewrite (proj2 (Z.ltb_lt _ _)); lia.
Qed.

Lemma running_status : is_running (make_status PS_RUNNING 0) = true.
Proof. done. Qed.

Lemma failed_status r : is_running (make_status PS_FAILED r) = false.
Proof. unfold is_running. rewrite status_state_make by (unfold PS_FAILED; lia). done. Qed.

(** ** Phases of a worker *)

Definition joined (c : ps_context) : bool :=
  match c_pc c with
  | EPublish | EWait | EPrimary | EState | ESeqW _ | EGrantW _ _ | EOwnerW _ _ _ | EValid _ _ => true
  | PIdle | LDeadline _ _ | LCheck _ _ _ | LOwner _ _ | LSeq _ _ | LGrant _ _ | LState _ | LValid _ _ | LComplete
  | LPublish | LWait | LStateW | LSeqW _ | LExit => negb (active_seq c =? 0)
  | _ => false
  end.

Definition initialising (c : ps_context) : bool := match c_pc c with EInit _ => true | _ => false end.
Definition clearing (c : ps_context) : bool := match c_pc c with LClear _ => true | _ => false end.

(** The part of the shared memory that the phases of one instance depend on. *)
Record view := mkView {
  v_mask : Z;      (* expected mask *)
  v_state : Z;
  v_seq : Z;
  v_ready : Z;
  v_complete : Z;
  v_exit : Z;
  v_own : bool;    (* the instance is the owner *)
  v_run : bool;    (* the pair is running *)
}.

Definition view_of (sh : shared_state) (i : Z) : view :=
  let g := groups sh i in
  mkView (expected_mask sh) (g_state g) (forward_seq g) (ready_mask g) (complete_mask g) (exit_mask g)
    (owner sh =? i) (is_running (sh_status sh)).

(** The worker of rank [r] is between grant and completion of a round. *)
Definition granted (v : view) (r seq : Z) : Prop :=
  v_state v = ROUND_RUNNING ∧ v_own v = true ∧ v_seq v = seq ∧ Z.testbit (v_complete v) r = false.

(** It has joined and waits for the grant. *)
Definition waits (v : view) (r seq : Z) : Prop :=
  ROUND_COLLECTING ≤ v_state v ≤ ROUND_RUNNING ∧ v_seq v = seq ∧ Z.testbit (v_complete v) r = false.

(** It has completed and waits for the others. *)
Definition completed (v : view) (r seq : Z) : Prop :=
  ROUND_RUNNING ≤ v_state v ≤ ROUND_DRAINING ∧ v_seq v = seq
  ∧ (v_state v = ROUND_DRAINING → Z.testbit (v_exit v) r = false).

Definition phase (v : view) (r : Z) (c : ps_context) : Prop :=
  let a := active_seq c in let n := next_seq c in
  match c_pc c with
  | PFail _ => False
  | PIdle | LDeadline _ _ | LCheck _ _ _ => a ≠ 0 → granted v r a
  | ECheck | ELoop | EClaim => a = 0 ∧ 1 ≤ n
  | EInit k => a = 0 ∧ 1 ≤ n ∧ v_state v = ROUND_INITIALIZING ∧ ((1 ≤ k)%nat → v_seq v = n)
      ∧ ((3 ≤ k)%nat → v_ready v = 0) ∧ ((4 ≤ k)%nat → v_complete v = 0)
  | ESeq st => a = 0 ∧ 1 ≤ n ∧ (st = ROUND_COLLECTING → v_state v = ROUND_COLLECTING)
  | ELast | EReady => a = 0 ∧ 1 ≤ n ∧ v_state v = ROUND_COLLECTING ∧ v_seq v = n
  | EPublish => a = 0 ∧ 1 ≤ n ∧ waits v r n ∧ v_ready v = v_mask v
  | EWait | EPrimary | EState => a = 0 ∧ 1 ≤ n ∧ waits v r n
  | ESeqW st | EGrantW st _ | EOwnerW st _ _ =>
      a = 0 ∧ 1 ≤ n ∧ waits v r n ∧ (st = ROUND_RUNNING → v_state v = ROUND_RUNNING)
  | EValid _ _ => a = 0 ∧ 1 ≤ n ∧ granted v r n
  | LOwner sq _ => a = sq ∧ (a ≠ 0 → granted v r a)
  | LSeq sq _ => a = sq ∧ 1 ≤ v_seq v ∧ (a ≠ 0 → granted v r a)
  | LGrant sq _ | LState sq | LValid _ sq => a = sq ∧ a ≠ 0 ∧ granted v r a
  | LComplete => a ≠ 0 ∧ granted v r a
  | LPublish => a ≠ 0 ∧ completed v r a ∧ v_complete v = v_mask v
  | LWait | LStateW => a ≠ 0 ∧ completed v r a
  | LSeqW st => a ≠ 0 ∧ completed v r a ∧ (st = ROUND_DRAINING → v_state v = ROUND_DRAINING)
  | LExit => a ≠ 0 ∧ completed v r a ∧ v_state v = ROUND_DRAINING
  | LClear _ => a ≠ 0 ∧ v_state v = ROUND_DRAINING ∧ v_exit v = v_mask v
  | _ => a = 0
  end.

(** The program counters of a worker that has got an error. *)
Definition stuck (p : pc) : bool :=
  match p with PFail _ | PIdle | ECheck | LDeadline _ _ | LCheck _ _ _ => true | _ => false end.
Definition failing (p : pc) : bool := match p with PFail _ => true | _ => false end.

Record worker_ok (v : view) (r : Z) (c : ps_context) : Prop := {
  wo_next : 0 ≤ next_seq c;
  wo_apart : joined c = false → c_failed c = false →
    ROUND_COLLECTING ≤ v_state v ≤ ROUND_COMPLETE → Z.testbit (v_ready v) r = false;
  wo_forward : c_forward c = true → active_seq c ≠ 0 ∧ granted v r (active_seq c);
  wo_stuck : c_failed c = true → stuck (c_pc c) = true ∧ (failing (c_pc c) = false → v_run v = false);
  wo_phase : c_failed c = false → phase v r c;
  wo_in : c_forward c = true → c_pc c = PIdle ∨ failing (c_pc c) = true;
}.

Record group_ok (v : view) : Prop := {
  go_state : ROUND_OFFLINE ≤ v_state v ≤ ROUND_DRAINING;
  go_ready : ROUND_READY ≤ v_state v ≤ ROUND_COMPLETE → v_ready v = v_mask v;
  go_fresh : ROUND_COLLECTING ≤ v_state v ≤ ROUND_READY → v_complete v = 0;
  go_complete : v_state v = ROUND_COMPLETE → v_complete v = v_mask v;
  go_seq : ROUND_COLLECTING ≤ v_state v ∨ v_own v = true → 1 ≤ v_seq v;
  go_seq0 : 0 ≤ v_seq v;
}.

(** ** What other threads may do *)

Section changes.
Context (v : view).
Definition v_set_state x := mkView (v_mask v) x (v_seq v) (v_ready v) (v_complete v) (v_exit v) (v_own v) (v_run v).
Definition v_set_seq x := mkView (v_mask v) (v_state v) x (v_ready v) (v_complete v) (v_exit v) (v_own v) (v_run v).
Definition v_set_ready x := mkView (v_mask v) (v_state v) (v_seq v) x (v_complete v) (v_exit v) (v_own v) (v_run v).
Definition v_set_complete x := mkView (v_mask v) (v_state v) (v_seq v) (v_ready v) x (v_exit v) (v_own v) (v_run v).
Definition v_set_exit x := mkView (v_mask v) (v_state v) (v_seq v) (v_ready v) (v_complete v) x (v_own v) (v_run v).
Definition v_set_own x := mkView (v_mask v) (v_state v) (v_seq v) (v_ready v) (v_complete v) (v_exit v) x (v_run v).
Definition v_set_run x := mkView (v_mask v) (v_state v) (v_seq v) (v_ready v) (v_complete v) (v_exit v) (v_own v) x.
End changes.

(** The changes of the view of an instance, as its worker [c] of rank [r] sees them
    when it is not the one that acts. *)
Inductive change (r : Z) (c : ps_context) (v : view) : view → Prop :=
  | ch_none : change r c v v
  | ch_fail : change r c v (v_set_run v false)
  | ch_idle : v_state v = ROUND_OFFLINE → change r c v (v_set_state v ROUND_IDLE)
  | ch_claim : v_state v = ROUND_IDLE → change r c v (v_set_state v ROUND_INITIALIZING)
  | ch_init_seq x : v_state v = ROUND_INITIALIZING → initialising c = false → 1 ≤ x → change r c v (v_set_seq v x)
  | ch_init_ready : v_state v = ROUND_INITIALIZING → initialising c = false → change r c v (v_set_ready v 0)
  | ch_init_complete : v_state v = ROUND_INITIALIZING → initialising c = false → change r c v (v_set_complete v 0)
  | ch_init_exit : v_state v = ROUND_INITIALIZING → initialising c = false → change r c v (v_set_exit v 0)
  | ch_collect : v_state v = ROUND_INITIALIZING → initialising c = false → v_ready v = 0 →
      change r c v (v_set_state v ROUND_COLLECTING)
  | ch_ready m : v_state v = ROUND_COLLECTING → Z.testbit m r = Z.testbit (v_ready v) r →
      (v_ready v = v_mask v → m = v_mask v) → change r c v (v_set_ready v m)
  | ch_publish : v_state v = ROUND_COLLECTING → v_ready v = v_mask v → change r c v (v_set_state v ROUND_READY)
  | ch_take : v_state v = ROUND_READY → change r c v (v_set_state v ROUND_RUNNING)
  | ch_own : v_own v = false → change r c v (v_set_own v true)
  | ch_complete m : v_state v = ROUND_RUNNING → Z.testbit m r = Z.testbit (v_complete v) r →
      (v_complete v = v_mask v → m = v_mask v) → change r c v (v_set_complete v m)
  | ch_completed : v_state v = ROUND_RUNNING → v_complete v = v_mask v → change r c v (v_set_state v ROUND_COMPLETE)
  | ch_recycle_exit : v_state v = ROUND_COMPLETE → change r c v (v_set_exit v 0)
  | ch_drain : v_state v = ROUND_COMPLETE → v_exit v = 0 → change r c v (v_set_state v ROUND_DRAINING)
  | ch_disown : v_state v ≠ ROUND_RUNNING → change r c v (v_set_own v false)
  | ch_exit m : v_state v = ROUND_DRAINING → Z.testbit m r = Z.testbit (v_exit v) r →
      (v_exit v = v_mask v → m = v_mask v) → change r c v (v_set_exit v m)
  | ch_clear_ready : v_state v = ROUND_DRAINING → v_exit v = v_mask v → change r c v (v_set_ready v 0)
  | ch_clear_complete : v_state v = ROUND_DRAINING → v_exit v = v_mask v → change r c v (v_set_complete v 0)
  | ch_clear : v_state v = ROUND_DRAINING → v_exit v = v_mask v → clearing c = false →
      change r c v (v_set_state v ROUND_IDLE).

Ltac consts := unfold ROUND_OFFLINE, ROUND_IDLE, ROUND_INITIALIZING, ROUND_COLLECTING, ROUND_READY, ROUND_RUNNING,
  ROUND_COMPLETE, ROUND_DRAINING in *.
Ltac phases := unfold phase, granted, waits, completed in *; cbn in *; consts.

(** Changes by other threads keep what a worker relies on. *)
Lemma worker_change v v' r c :
  0 ≤ r → Z.testbit (v_mask v) r = true → group_ok v → worker_ok v r c → change r c v v' → worker_ok v' r c.
Proof.
  intros Hr Hbit [G1 G2 G3 G4 G5 G6] [H1 H2 H3 H4 H5 H6] Hch.
  assert (Z.testbit 0 r = false) as H0 by apply Z.bits_0.
  assert (v_ready v = v_mask v → Z.testbit (v_ready v) r = true) as B1 by congruence.
  assert (v_complete v = v_mask v → Z.testbit (v_complete v) r = true) as B2 by congruence.
  assert (v_exit v = v_mask v → Z.testbit (v_exit v) r = true) as B3 by congruence.
  destruct Hch; split; try done; phases; try (intuition (try congruence; try lia); fail);
    try (intros Hj Hf _; apply H2; [done..|lia]);
    intros Hf; specialize (H5 Hf); specialize (λ Hj, H2 Hj Hf); unfold joined, initialising, clearing in *;
    destruct (c_pc c); cbn in *; try done; intuition (try congruence; try lia);
    (match goal with H : _ → _ → Z.testbit (v_ready v) r = false |- _ =>
       assert (Z.testbit (v_ready v) r = false) by (apply H; lia); congruence end).
Qed.
