(* ===== verification/PairSteps.v ===== *)
(** * Steps of the pair protocol

    Every step of PairProtocol.v keeps the invariant of PairInv.v: the acting worker
    reaches a phase that fits the new state, and what it does is a change the other
    threads can rely on. *)

From S2P Require Import Prelude PairProtocol PairInv.
#[local] Open Scope Z_scope.

(** ** Views after stores *)

Definition group_view (sh : shared_state) (i : Z) (g : instance_group) : view :=
  mkView (expected_mask sh) (g_state g) (forward_seq g) (ready_mask g) (complete_mask g) (exit_mask g)
    (owner sh =? i) (is_running (sh_status sh)).

(** Re-establishes [group_ok] after a store. *)
Ltac group_solve Hg :=
  destruct Hg as [?G1 ?G2 ?G3 ?G4 ?G5 ?G6]; split; unfold view_of, group_view in *; cbn in *; consts;
    intuition (try congruence; try lia).

Lemma view_on_group sh i f : view_of (on_group sh i f) i = group_view sh i (f (groups sh i)).
Proof. unfold view_of, on_group, set_group, upd. cbn. by rewrite Z.eqb_refl. Qed.

Lemma view_on_other sh i j f : j ≠ i → view_of (on_group sh i f) j = view_of sh j.
Proof. intros Hj. unfold view_of, on_group, set_group, upd. cbn. by rewrite (proj2 (Z.eqb_neq _ _)). Qed.

Lemma view_on_slot sh i r f j : view_of (on_slot sh i r f) j = view_of sh j.
Proof.
  unfold on_slot. destruct (decide (j = i)) as [->|Hj]; [by rewrite view_on_group|by apply view_on_other].
Qed.

Definition status_ok (sh : shared_state) : Prop :=
  sh_status sh = make_status PS_RUNNING 0 ∨ is_running (sh_status sh) = false.

Lemma view_fail sh reason i :
  status_ok sh → view_of (fail_pair sh reason) i = v_set_run (view_of sh i) false ∧ status_ok (fail_pair sh reason).
Proof.
  intros Hs. unfold fail_pair. destruct (sh_status sh =? make_status PS_RUNNING 0) eqn:E.
  - unfold view_of, v_set_run, set_status. cbn. rewrite failed_status. split; [done|]. right. apply failed_status.
  - to_prop. destruct Hs as [Hs|Hs]; [done|]. split; [|by right]. unfold view_of, v_set_run. cbn. by rewrite Hs.
Qed.

Lemma group_ok_fail v : group_ok v → group_ok (v_set_run v false).
Proof. by intros []. Qed.

(** ** One step of a worker *)

(** What the coordinator relies on while workers act. *)
Record keeps (v v' : view) : Prop := {
  kp_complete : v_state v = ROUND_COMPLETE → v_state v' = ROUND_COMPLETE ∧ v_exit v' = v_exit v;
  kp_busy : v_state v ≠ ROUND_RUNNING → v_state v ≠ ROUND_COMPLETE →
    v_state v' ≠ ROUND_RUNNING ∧ v_state v' ≠ ROUND_COMPLETE;
  kp_seq : 1 ≤ v_seq v → 1 ≤ v_seq v';
}.

Lemma keeps_refl v : keeps v v.
Proof. by split. Qed.

(** What a step of worker [r] of instance [i] does to its instance. *)
Record acts (n i r : Z) (sh sh' : shared_state) (c c' : ps_context) : Prop := {
  ac_worker : worker_ok (view_of sh' i) r c';
  ac_group : group_ok (view_of sh' i);
  ac_change q d : q ≠ r → 0 ≤ q < n → (initialising c = true → initialising d = false) →
    (clearing c = true → clearing d = false) → change q d (view_of sh i) (view_of sh' i);
  ac_init : initialising c' = true → initialising c = true ∨ v_state (view_of sh i) = ROUND_IDLE;
  ac_clear : clearing c' = true → clearing c = true ∨ Z.testbit (v_exit (view_of sh i)) r = false;
  ac_keeps : keeps (view_of sh i) (view_of sh' i);
}.

Lemma acts_local n i r sh c c' :
  group_ok (view_of sh i) → worker_ok (view_of sh i) r c' → initialising c' = false → clearing c' = false →
  acts n i r sh sh c c'.
Proof. intros Hg Hw Hi Hc. split; try done; [intros; constructor|congruence|congruence]. Qed.

Lemma acts_same_view n i r sh sh' c c' :
  view_of sh' i = view_of sh i →
  group_ok (view_of sh i) → worker_ok (view_of sh i) r c' → initialising c' = false → clearing c' = false →
  acts n i r sh sh' c c'.
Proof. intros Hv Hg Hw Hi Hc. split; rewrite ?Hv; try done; [intros; constructor|congruence|congruence]. Qed.

(** ** Opening *)

Lemma not_opened_forward v r c : worker_ok v r c → opened c = false → c_forward c = false.
Proof.
  intros [_ _ _ _ _ H6] Ho. destruct (c_forward c); [|done]. unfold opened in Ho.
  destruct (H6 eq_refl) as [Hp|Hp]; destruct (c_pc c); done.
Qed.

Lemma not_opened_joined c : opened c = false → joined c = false.
Proof. unfold opened, joined. by destruct (c_pc c). Qed.

Lemma not_opened_phase v r c : opened c = false → c_failed c = false → worker_ok v r c → active_seq c = 0.
Proof. intros Ho Hf Hw. pose proof (wo_phase _ _ _ Hw Hf) as H. unfold phase, opened in *. by destruct (c_pc c). Qed.

Lemma open_goto v r c p :
  worker_ok v r c → c_failed c = false → opened c = false → opened (goto c p) = false → worker_ok v r (goto c p).
Proof.
  intros Hw Hf Ho Hp. pose proof (not_opened_forward _ _ _ Hw Ho) as Hfw.
  pose proof (not_opened_phase _ _ _ Ho Hf Hw) as Ha. destruct Hw as [H1 H2 H3 H4 H5 H6].
  split; cbn; rewrite ?Hfw, ?Hf; try done.
  - intros _ _. apply H2; [by apply not_opened_joined|done].
  - intros _. unfold phase, opened in *. by destruct p.
Qed.

Lemma opened_next_seq v r c :
  worker_ok v r c → group_ok v → c_failed c = false → c_pc c = PNextSeq →
  worker_ok v r (goto (with_next_seq c (v_seq v)) PIdle).
Proof.
  intros Hw Hg Hf Hp. assert (opened c = false) as Ho by (unfold opened; by rewrite Hp).
  pose proof (not_opened_forward _ _ _ Hw Ho) as Hfw. pose proof (not_opened_phase _ _ _ Ho Hf Hw) as Ha.
  pose proof (go_seq0 _ Hg). destruct Hw as [H1 H2 H3 H4 H5 H6]. split; cbn; rewrite ?Hfw, ?Hf; try done.
  intros _ _. apply H2; [by apply not_opened_joined|done].
Qed.

Lemma not_opened_init c : opened c = false → initialising c = false ∧ clearing c = false.
Proof. unfold opened, initialising, clearing. by destruct (c_pc c). Qed.

Ltac keeps_solve := split; unfold view_of, group_view in *; cbn in *; consts; intuition (try congruence; try lia).

(** A group changes and its acting worker goes on. *)
Lemma acts_group n i r sh f c c' :
  group_ok (group_view sh i (f (groups sh i))) → worker_ok (group_view sh i (f (groups sh i))) r c' →
  (∀ q d, q ≠ r → 0 ≤ q < n → (initialising c = true → initialising d = false) →
     (clearing c = true → clearing d = false) → change q d (view_of sh i) (group_view sh i (f (groups sh i)))) →
  (initialising c' = true → initialising c = true ∨ v_state (view_of sh i) = ROUND_IDLE) →
  (clearing c' = true → clearing c = true ∨ Z.testbit (v_exit (view_of sh i)) r = false) →
  keeps (view_of sh i) (group_view sh i (f (groups sh i))) →
  acts n i r sh (on_group sh i f) c c'.
Proof. intros. split; rewrite ?view_on_group; done. Qed.

Lemma open_acts n now i r sh c :
  0 ≤ r → Z.testbit (expected_mask sh) r = true →
  c_failed c = false → group_ok (view_of sh i) → worker_ok (view_of sh i) r c →
  opened c = false → acts n i r sh (open_step now i r sh c).1 c (open_step now i r sh c).2.
Proof.
  intros Hr Hbit Hf Hg Hw Ho.
  assert (∀ p, opened (goto c p) = false → acts n i r sh sh c (goto c p)) as Hload.
  { intros p Hp. destruct (not_opened_init _ Hp). apply acts_local; [exact Hg|exact (open_goto _ _ _ _ Hw Hf Ho Hp)|done|done]. }
  assert (∀ f p, opened (goto c p) = false → acts n i r sh (on_slot sh i r f) c (goto c p)) as Hslot.
  { intros f p Hp. destruct (not_opened_init _ Hp).
    apply acts_same_view; [apply view_on_slot|exact Hg|exact (open_goto _ _ _ _ Hw Hf Ho Hp)|done|done]. }
  unfold open_step. destruct (c_pc c) eqn:Ep; cbn [fst snd];
    try (exfalso; unfold opened in Ho; rewrite Ep in Ho; discriminate Ho).
  - apply acts_local; [done|done| |]; unfold initialising, clearing; by rewrite Ep.
  - by apply Hload.
  - destruct (_ || _); by apply Hload.
  - by apply Hload.
  - destruct (_ && _); by apply Hload.
  - by apply Hslot.
  - by apply Hslot.
  - by apply Hslot.
  - by apply Hslot.
  - apply acts_same_view; [by rewrite view_on_group|done|apply open_goto; unfold opened; by rewrite ?Ep|done|done].
  - destruct (_ =? _); by apply Hload.
  - destruct (_ =? _) eqn:Es; [|by apply Hload]. to_prop.
    assert (∀ q d, change q d (view_of sh i) (group_view sh i (g_set_state (groups sh i) ROUND_IDLE))) as Hch.
    { intros q d. by apply (ch_idle q d (view_of sh i)). }
    apply acts_group; try done.
    + group_solve Hg.
    + apply (worker_change (view_of sh i)); [done|done|done| |done]. apply open_goto; unfold opened; by rewrite ?Ep.
    + clear Hch. keeps_solve.
  - apply acts_local; [done|by apply opened_next_seq|done|done].
Qed.

(** ** Errors *)

Lemma inside_forward v r c : worker_ok v r c → c_pc c ≠ PIdle → failing (c_pc c) = false → c_forward c = false.
Proof.
  intros [_ _ _ _ _ H6] Hp Hf. destruct (c_forward c); [|done]. destruct (H6 eq_refl); [done|congruence].
Qed.

Lemma fail_with_ok v r c reason : worker_ok v r c → worker_ok v r (fail_with c reason).
Proof. intros [H1 H2 H3 H4 H5 H6]. split; cbn; try done. intros _. by right. Qed.

Lemma ret_error_ok v r c : worker_ok v r c → v_run v = false → worker_ok v r (ret_error c).
Proof. intros [H1 H2 H3 H4 H5 H6] Hv. split; cbn; try done. intros _. by left. Qed.

Lemma fail_with_acts n i r sh c reason :
  group_ok (view_of sh i) → worker_ok (view_of sh i) r c → acts n i r sh sh c (fail_with c reason).
Proof. intros Hg Hw. apply acts_local; [done|by apply fail_with_ok|done|done]. Qed.

Lemma ret_error_acts n i r sh c :
  group_ok (view_of sh i) → worker_ok (view_of sh i) r c → is_running (sh_status sh) = false →
  acts n i r sh sh c (ret_error c).
Proof. intros Hg Hw Hr. apply acts_local; [done|by apply ret_error_ok|done|done]. Qed.

(** A worker that goes on without joining or leaving a round. *)
Lemma moves v r c c' :
  worker_ok v r c → c_failed c' = c_failed c → c_failed c = false → c_forward c' = false →
  (joined c' = false → joined c = false) → 0 ≤ next_seq c' → phase v r c' → worker_ok v r c'.
Proof.
  intros [H1 H2 H3 H4 H5 H6] Hf Hf0 Hfw Hj Hn Hp. split; rewrite ?Hfw, ?Hf, ?Hf0; try done.
  intros Hj' _. apply H2; [by apply Hj|done].
Qed.

Lemma load_acts n i r sh c c' :
  group_ok (view_of sh i) → worker_ok (view_of sh i) r c → c_failed c' = c_failed c → c_failed c = false →
  c_forward c' = false → (joined c' = false → joined c = false) → 0 ≤ next_seq c' →
  phase (view_of sh i) r c' → initialising c' = false → clearing c' = false → acts n i r sh sh c c'.
Proof. intros. apply acts_local; [done|by eapply moves|done|done]. Qed.

(** ** Entering *)

Section calls.
Context (n now i r : Z) (sh : shared_state) (c : ps_context).
Hypothesis Hn : 1 ≤ n ≤ 64.
Hypothesis Hr : 0 ≤ r < n.
Hypothesis Hmask : expected_mask sh = expected_mask_of n.
Hypothesis Hf : c_failed c = false.
Hypothesis Hg : group_ok (view_of sh i).
Hypothesis Hw : worker_ok (view_of sh i) r c.
Abbreviation v := (view_of sh i).

Lemma my_bit : Z.testbit (expected_mask sh) r = true.
Proof. rewrite Hmask. by apply testbit_expected. Qed.

Lemma inside p : c_pc c = p → p ≠ PIdle → failing p = false → c_forward c = false.
Proof. intros <- H1 H2. by apply (inside_forward v r c). Qed.

Lemma enter_load_acts c' :
  c_pc c ≠ PIdle → failing (c_pc c) = false → c_failed c' = c_failed c → c_forward c' = c_forward c →
  (joined c' = false → joined c = false) → next_seq c' = next_seq c →
  phase v r c' → initialising c' = false → clearing c' = false → acts n i r sh sh c c'.
Proof.
  intros Hp Hfl Hf' Hfw Hj Hns Hph Hi Hc. pose proof (inside_forward _ _ _ Hw Hp Hfl).
  apply load_acts; try done; [congruence|]. rewrite Hns. apply Hw.
Qed.

Lemma claim_acts : c_pc c = EClaim → acts n i r sh (enter_step now i r sh c).1 c (enter_step now i r sh c).2.
Proof.
  intros Hp. unfold enter_step. rewrite Hp. pose proof (wo_phase _ _ _ Hw Hf) as Hph. unfold phase in Hph. rewrite Hp in Hph.
  pose proof (inside _ Hp ltac:(done) eq_refl) as Hfw.
  destruct (_ =? _) eqn:Es; cbn [fst snd]; to_prop.
  - apply acts_group; try done.
    + group_solve Hg.
    + destruct Hw as [H1 H2 H3 H4 H5 H6]. split; cbn; rewrite ?Hfw, ?Hf; try done; phases; intuition lia.
    + intros q d _ _ _ _. by apply (ch_claim q d v).
    + intros _. by right.
    + keeps_solve.
  - apply enter_load_acts; rewrite ?Hp; try done. unfold joined. by rewrite Hp.
Qed.

Lemma init_acts k : c_pc c = EInit k → acts n i r sh (enter_step now i r sh c).1 c (enter_step now i r sh c).2.
Proof.
  intros Hp. unfold enter_step. rewrite Hp. pose proof (wo_phase _ _ _ Hw Hf) as Hph. unfold phase in Hph. rewrite Hp in Hph.
  destruct Hph as (Ha & Hns & Hst & Hk1 & Hk3 & Hk4). pose proof (inside _ Hp ltac:(done) eq_refl) as Hfw.
  assert (initialising c = true ∧ clearing c = false) as [Hi Hc] by (unfold initialising, clearing; by rewrite Hp).
  assert (joined c = false) as Hj by (unfold joined; by rewrite Hp).
  cbn [fst snd]. apply acts_group.
  - do 6 (destruct k as [|k]; [group_solve Hg|]). specialize (Hk1 ltac:(lia)). specialize (Hk4 ltac:(lia)).
    group_solve Hg.
  - destruct Hw as [H1 H2 H3 H4 _ H6]. destruct Hg as [G1 G2 G3 G4 G5 G6].
    do 6 (destruct k as [|k]; [split; cbn; rewrite ?Hfw, ?Hf; try done; phases; intuition (try congruence; try lia)|]).
    rewrite (proj2 (Nat.leb_le _ _)) by lia. pose proof (Z.bits_0 r). specialize (Hk1 ltac:(lia)).
    specialize (Hk3 ltac:(lia)). split; cbn; rewrite ?Hfw, ?Hf; try done; phases; intuition (try congruence; try lia).
  - intros q d Hq _ Hd _. specialize (Hd Hi).
    destruct k as [|[|[|[|[|[|k]]]]]]; cbn.
    + by apply (ch_init_seq q d v).
    + apply (ch_none q d v).
    + by apply (ch_init_ready q d v).
    + by apply (ch_init_complete q d v).
    + by apply (ch_init_exit q d v).
    + apply (ch_none q d v).
    + apply (ch_collect q d v); [done..|]. apply Hk3. lia.
  - intros _. by left.
  - destruct (6 <=? k)%nat; done.
  - do 6 (destruct k as [|k]; [keeps_solve|]). keeps_solve.
Qed.

Lemma ready_acts : c_pc c = EReady → acts n i r sh (enter_step now i r sh c).1 c (enter_step now i r sh c).2.
Proof.
  intros Hp. unfold enter_step. rewrite Hp. pose proof (wo_phase _ _ _ Hw Hf) as Hph. unfold phase in Hph. rewrite Hp in Hph.
  destruct Hph as (Ha & Hns & Hst & Hsq). pose proof (inside _ Hp ltac:(done) eq_refl) as Hfw.
  assert (joined c = false) as Hj by (unfold joined; by rewrite Hp).
  assert (Z.testbit (ready_mask (groups sh i)) r = false) as Hb.
  { apply (wo_apart _ _ _ Hw Hj Hf). cbn in *. rewrite Hst. consts. lia. }
  pose proof (go_fresh _ Hg) as Hcm. cbn in Hst, Hcm. rewrite Hst in Hcm. specialize (Hcm ltac:(consts; lia)).
  rewrite land_bit, Hb by lia. cbn [fst snd negb].
  assert (Z.testbit (complete_mask (groups sh i)) r = false) as Hcb by (rewrite Hcm; apply Z.bits_0).
  apply acts_group.
  - group_solve Hg.
  - destruct Hw as [H1 H2 H3 H4 H5 H6].
    destruct (_ =? expected_mask sh) eqn:Em; to_prop; split; cbn; rewrite ?Hfw, ?Hf; try done; phases; intuition lia.
  - intros q d Hq Hqn _ _. apply (ch_ready q d v).
    + done.
    + cbn. rewrite testbit_lor_bit by lia. rewrite (proj2 (Z.eqb_neq _ _)) by done. apply orb_false_r.
    + cbn. intros ->. apply Z.bits_inj'. intros k Hk. rewrite testbit_lor_bit by lia.
      destruct (k =? r) eqn:Ek; to_prop; [subst; by rewrite my_bit|apply orb_false_r].
  - by destruct (_ =? expected_mask sh).
  - by destruct (_ =? expected_mask sh).
  - keeps_solve.
Qed.

Lemma publish_acts : c_pc c = EPublish → acts n i r sh (enter_step now i r sh c).1 c (enter_step now i r sh c).2.
Proof.
  intros Hp. unfold enter_step. rewrite Hp. pose proof (wo_phase _ _ _ Hw Hf) as Hph. unfold phase in Hph. rewrite Hp in Hph.
  destruct Hph as (Ha & Hns & Hwt & Hrd). pose proof (inside _ Hp ltac:(done) eq_refl) as Hfw.
  destruct (_ =? _) eqn:Es; cbn [fst snd]; to_prop; [|by apply fail_with_acts].
  apply acts_group; try done.
  - group_solve Hg.
  - destruct Hw as [H1 H2 H3 H4 H5 H6]. split; cbn; rewrite ?Hfw, ?Hf; try done; phases; intuition lia.
  - intros q d _ _ _ _. by apply (ch_publish q d v).
  - keeps_solve.
Qed.

Lemma valid_acts k gr : c_pc c = EValid k gr → acts n i r sh (enter_step now i r sh c).1 c (enter_step now i r sh c).2.
Proof.
  intros Hp. unfold enter_step. rewrite Hp. pose proof (wo_phase _ _ _ Hw Hf) as Hph. unfold phase in Hph. rewrite Hp in Hph.
  destruct Hph as (Ha & Hns & Hgr). cbn [fst snd].
  destruct (slot_matches _ _ _ _); [|by apply fail_with_acts]. destruct (2 <=? k)%nat.
  - apply acts_local; [done| |done|done]. destruct Hw as [H1 H2 H3 H4 H5 H6].
    split; cbn; rewrite ?Hf; try done.
    + unfold joined. cbn. rewrite (proj2 (Z.eqb_neq _ _)) by lia. done.
    + intros _. split; [lia|done].
    + intros _. by left.
  - apply enter_load_acts; rewrite ?Hp; try done.
Qed.

Definition is_enter (p : pc) : bool :=
  match p with
  | ECheck | ELoop | EClaim | EInit _ | ESeq _ | ELast | EReady | EPublish | EWait | EPrimary | EState | ESeqW _
  | EGrantW _ _ | EOwnerW _ _ _ | EValid _ _ => true
  | _ => false
  end.

Lemma enter_acts :
  is_enter (c_pc c) = true → acts n i r sh (enter_step now i r sh c).1 c (enter_step now i r sh c).2.
Proof.
  intros Hset. pose proof (wo_phase _ _ _ Hw Hf) as Hph.
  destruct (c_pc c) eqn:Hp; try discriminate Hset; clear Hset.
  3: by apply claim_acts.
  3: by eapply init_acts.
  5: by apply ready_acts.
  5: by apply publish_acts.
  all: try (eapply valid_acts; eassumption).
  all: assert (∀ p, (joined (goto c p) = false → joined c = false) → phase v r (goto c p) →
      initialising (goto c p) = false → clearing (goto c p) = false → acts n i r sh sh c (goto c p)) as Hload
    by (intros; apply enter_load_acts; rewrite ?Hp; done).
  all: unfold phase in Hph; rewrite Hp in Hph; unfold enter_step; rewrite Hp; cbn [fst snd].
  - destruct (is_running _) eqn:Er; [|by apply ret_error_acts]. apply Hload; [|done|done|done].
    unfold joined. by rewrite Hp.
  - destruct (_ =? ROUND_IDLE); [apply Hload; [unfold joined; by rewrite Hp|done|done|done]|].
    destruct (_ || _).
    + apply acts_local; [done|done| |]; unfold initialising, clearing; by rewrite Hp.
    + apply Hload; [unfold joined; by rewrite Hp| |done|done]. unfold phase. cbn. naive_solver.
  - destruct (_ && _) eqn:Eb; [|by apply fail_with_acts]. apply andb_true_iff in Eb as [E1%Z.eqb_eq E2%Z.eqb_eq].
    apply Hload; [unfold joined; by rewrite Hp| |done|done]. unfold phase. cbn. naive_solver.
  - apply acts_same_view; [apply view_on_slot|done| |done|done].
    apply (moves v r c); try done; [by apply (inside _ Hp)|unfold joined; by rewrite Hp|apply Hw].
  - destruct (is_running _) eqn:Er; [|by apply ret_error_acts]. by apply Hload.
  - destruct (heartbeat_expired _ _ _); [by apply fail_with_acts|]. by apply Hload.
  - apply Hload; try done. unfold phase. cbn. naive_solver.
  - by apply Hload.
  - by apply Hload.
  - destruct (_ && _ && _ && _) eqn:Eb.
    + apply Hload; try done. rewrite !andb_true_iff, !Z.eqb_eq in Eb. destruct Eb as [[[-> E2] E3] E4].
      unfold phase, granted. cbn. unfold waits in Hph. destruct Hph as (? & ? & (? & ? & ?) & Hst).
      specialize (Hst eq_refl). split_and!; try done. by apply Z.eqb_eq.
    + destruct (_ || _); [by apply fail_with_acts|]. apply Hload; try done. unfold phase. cbn. naive_solver.
Qed.

(** ** Leaving *)

Lemma set_bit m : m = expected_mask sh → Z.lor m (bit r) = expected_mask sh.
Proof.
  intros ->. apply Z.bits_inj'. intros k Hk. rewrite testbit_lor_bit by lia.
  destruct (k =? r) eqn:Ek; to_prop; [subst; by rewrite my_bit|apply orb_false_r].
Qed.

Lemma other_bit m q : q ≠ r → 0 ≤ q → Z.testbit (Z.lor m (bit r)) q = Z.testbit m q.
Proof. intros Hq Hq0. rewrite testbit_lor_bit by lia. rewrite (proj2 (Z.eqb_neq _ _)) by done. apply orb_false_r. Qed.

Lemma complete_acts : c_pc c = LComplete → acts n i r sh (leave_step now i r sh c).1 c (leave_step now i r sh c).2.
Proof.
  intros Hp. unfold leave_step. rewrite Hp. pose proof (wo_phase _ _ _ Hw Hf) as Hph. unfold phase in Hph. rewrite Hp in Hph.
  destruct Hph as (Ha & Hst & Ho & Hsq & Hb). assert ((active_seq c =? 0) = false) as Ea by (by apply Z.eqb_neq). pose proof (inside _ Hp ltac:(done) eq_refl) as Hfw. cbn in Hb, Hst, Ho, Hsq.
  rewrite land_bit, Hb by lia. cbn [fst snd negb]. apply acts_group.
  - group_solve Hg.
  - pose proof (go_state _ Hg) as Hs7. destruct Hw as [H1 H2 H3 H4 _ H6].
    destruct (_ =? expected_mask sh) eqn:Em; to_prop; split; cbn; rewrite ?Hfw, ?Hf; try done;
      unfold joined; cbn; rewrite ?Ea; try done; phases; intuition (try congruence; try lia).
  - intros q d Hq Hqn _ _. apply (ch_complete q d v); [done|cbn; by rewrite other_bit by lia|cbn; apply set_bit].
  - by destruct (_ =? expected_mask sh).
  - by destruct (_ =? expected_mask sh).
  - keeps_solve.
Qed.

Lemma completed_acts : c_pc c = LPublish → acts n i r sh (leave_step now i r sh c).1 c (leave_step now i r sh c).2.
Proof.
  intros Hp. unfold leave_step. rewrite Hp. pose proof (wo_phase _ _ _ Hw Hf) as Hph. unfold phase in Hph. rewrite Hp in Hph.
  destruct Hph as (Ha & Hc & Hcm). assert ((active_seq c =? 0) = false) as Ea by (by apply Z.eqb_neq). pose proof (inside _ Hp ltac:(done) eq_refl) as Hfw.
  destruct (_ =? ROUND_RUNNING) eqn:Es; cbn [fst snd]; to_prop; [|by apply fail_with_acts].
  apply acts_group; try done.
  - group_solve Hg.
  - destruct Hw as [H1 H2 H3 H4 _ H6]. split; cbn; rewrite ?Hfw, ?Hf; try done;
      unfold joined; cbn; rewrite ?Ea; try done; phases; intuition (try congruence; try lia).
  - intros q d _ _ _ _. by apply (ch_completed q d v).
Qed.

Lemma exit_acts : c_pc c = LExit → acts n i r sh (leave_step now i r sh c).1 c (leave_step now i r sh c).2.
Proof.
  intros Hp. unfold leave_step. rewrite Hp. pose proof (wo_phase _ _ _ Hw Hf) as Hph. unfold phase in Hph. rewrite Hp in Hph.
  destruct Hph as (Ha & Hc & Hst). pose proof (inside _ Hp ltac:(done) eq_refl) as Hfw.
  destruct Hc as (_ & _ & Hex). specialize (Hex Hst). cbn in Hst, Hex. cbn [fst snd]. apply acts_group.
  - group_solve Hg.
  - destruct Hw as [H1 H2 H3 H4 _ H6].
    destruct (_ =? expected_mask sh) eqn:Em; to_prop; split; cbn; rewrite ?Hfw, ?Hf; try done; phases;
      intuition (try congruence; try lia).
  - intros q d Hq Hqn _ _. apply (ch_exit q d v); [done|cbn; by rewrite other_bit by lia|cbn; apply set_bit].
  - by destruct (_ =? expected_mask sh).
  - intros _. by right.
  - keeps_solve.
Qed.

Lemma clear_acts k : c_pc c = LClear k → acts n i r sh (leave_step now i r sh c).1 c (leave_step now i r sh c).2.
Proof.
  intros Hp. unfold leave_step. rewrite Hp. pose proof (wo_phase _ _ _ Hw Hf) as Hph. unfold phase in Hph. rewrite Hp in Hph.
  destruct Hph as (Ha & Hst & Hex). pose proof (inside _ Hp ltac:(done) eq_refl) as Hfw.
  assert (initialising c = false ∧ clearing c = true) as [Hi Hc] by (unfold initialising, clearing; by rewrite Hp).
  cbn [fst snd]. apply acts_group.
  - do 4 (destruct k as [|k]; [group_solve Hg|]). group_solve Hg.
  - destruct Hw as [H1 H2 H3 H4 _ H6]. cbn in Hst, Hex.
    do 4 (destruct k as [|k]; [split; cbn; rewrite ?Hfw, ?Hf; try done; phases; intuition (try congruence; try lia)|]).
    rewrite (proj2 (Nat.leb_le _ _)) by lia.
    split; cbn; rewrite ?Hfw, ?Hf; try done; phases; intuition (try congruence; try lia).
  - intros q d Hq _ _ Hd. specialize (Hd Hc). destruct k as [|[|[|[|k]]]]; cbn.
    + by apply (ch_clear_ready q d v).
    + by apply (ch_clear_complete q d v).
    + apply (ch_none q d v).
    + apply (ch_none q d v).
    + by apply (ch_clear q d v).
  - by destruct (4 <=? k)%nat.
  - intros _. by left.
  - do 4 (destruct k as [|k]; [keeps_solve|]). keeps_solve.
Qed.

Definition is_leave (p : pc) : bool :=
  match p with
  | LDeadline _ _ | LCheck _ _ _ | LOwner _ _ | LSeq _ _ | LGrant _ _ | LState _ | LValid _ _ | LComplete
  | LPublish | LWait | LStateW | LSeqW _ | LExit | LClear _ => true
  | _ => false
  end.

Lemma leave_acts :
  is_leave (c_pc c) = true → acts n i r sh (leave_step now i r sh c).1 c (leave_step now i r sh c).2.
Proof.
  intros Hset. pose proof (wo_phase _ _ _ Hw Hf) as Hph.
  destruct (c_pc c) eqn:Hp; try discriminate Hset; clear Hset.
  8: by apply complete_acts.
  8: by apply completed_acts.
  11: by apply exit_acts.
  11: by eapply clear_acts.
  all: assert (∀ p, (joined (goto c p) = false → joined c = false) → phase v r (goto c p) →
      initialising (goto c p) = false → clearing (goto c p) = false → acts n i r sh sh c (goto c p)) as Hload
    by (intros; apply enter_load_acts; rewrite ?Hp; done).
  all: unfold phase in Hph; rewrite Hp in Hph; unfold leave_step; rewrite Hp; cbn [fst snd].
  - apply Hload; try done. unfold joined. by rewrite Hp.
  - destruct (is_running _) eqn:Er; [|by apply ret_error_acts]. cbn [negb].
    destruct (_ && _); [by apply fail_with_acts|]. destruct (_ && _) eqn:Eb; [|by apply fail_with_acts].
    apply andb_true_iff in Eb as [E1%Z.eqb_eq _]. apply Hload; try done. unfold joined. by rewrite Hp.
  - destruct (owner sh =? i) eqn:Eo; [|by apply fail_with_acts].
    apply Hload; try done; [unfold joined; by rewrite Hp|]. unfold phase. cbn. destruct Hph as [H1 H2].
    split_and!; [done| |done]. apply (go_seq _ Hg). by right.
  - destruct (_ =? seq) eqn:Eo; [|by apply fail_with_acts]. to_prop.
    apply Hload; try done; [unfold joined; by rewrite Hp|]. unfold phase. cbn. destruct Hph as (H1 & H2 & H3).
    cbn in H2. split_and!; [done|lia|]. apply H3. lia.
  - destruct (_ =? grant) eqn:Eo; [|by apply fail_with_acts]. apply Hload; try done. unfold joined. by rewrite Hp.
  - destruct (_ =? _) eqn:Eo; [|by apply fail_with_acts]. apply Hload; try done. unfold joined. by rewrite Hp.
  - destruct (slot_matches _ _ _ _); [|by apply fail_with_acts].
    destruct (2 <=? k)%nat; apply Hload; try done; try (unfold joined; by rewrite Hp).
    unfold phase. cbn. naive_solver.
  - destruct (is_running _) eqn:Er; [|by apply ret_error_acts]. apply Hload; try done. unfold joined. by rewrite Hp.
  - apply Hload; try done; [unfold joined; by rewrite Hp|]. unfold phase. cbn. naive_solver.
  - destruct (_ && _) eqn:Eb.
    + apply andb_true_iff in Eb as [E1%Z.eqb_eq E2]. apply Hload; try done; [unfold joined; by rewrite Hp|].
      unfold phase. cbn. naive_solver.
    + destruct (_ || _); [by apply fail_with_acts|]. apply Hload; try done; [unfold joined; by rewrite Hp|].
      unfold phase. cbn. naive_solver.
Qed.
End calls.


(** ** Any step of a worker *)

Lemma failed_acts n now i r sh c :
  status_ok sh → c_failed c = true → group_ok (view_of sh i) → worker_ok (view_of sh i) r c →
  acts n i r sh (worker_step now i r sh c).1 c (worker_step now i r sh c).2.
Proof.
  intros Hs Hf Hg Hw. destruct (wo_stuck _ _ _ Hw Hf) as [Hst Hrun]. cbn in Hrun.
  unfold worker_step. destruct (c_pc c) eqn:Hp; try discriminate Hst; cbn [fst snd].
  - unfold open_step. rewrite Hp. cbn [fst snd].
    apply acts_local; [done|done| |]; unfold initialising, clearing; by rewrite Hp.
  - destruct (view_fail sh reason i Hs) as [Hv _]. destruct Hw as [H1 H2 H3 H4 H5 H6].
    split; rewrite ?Hv; cbn; try done.
    + split; cbn; rewrite ?Hf; try done. intros _. by left.
    + by apply group_ok_fail.
    + intros. apply ch_fail.
  - unfold enter_step. rewrite Hp, (Hrun eq_refl). cbn [fst snd]. by apply ret_error_acts, Hrun.
  - unfold leave_step. rewrite Hp. cbn [fst snd]. apply acts_local; [done| |done|done].
    pose proof (inside_forward _ _ _ Hw ltac:(by rewrite Hp) ltac:(by rewrite Hp)) as Hfw.
    destruct Hw as [H1 H2 H3 H4 H5 H6]. split; cbn; rewrite ?Hf, ?Hfw; try done.
  - unfold leave_step. rewrite Hp, (Hrun eq_refl). cbn [fst snd negb]. by apply ret_error_acts, Hrun.
Qed.

Lemma worker_acts n now i r sh c :
  1 ≤ n ≤ 64 → 0 ≤ r < n → expected_mask sh = expected_mask_of n → status_ok sh →
  group_ok (view_of sh i) → worker_ok (view_of sh i) r c →
  acts n i r sh (worker_step now i r sh c).1 c (worker_step now i r sh c).2.
Proof.
  intros Hn Hr Hm Hs Hg Hw. destruct (c_failed c) eqn:Hf; [by apply failed_acts|].
  destruct (opened c) eqn:Ho.
  - destruct (is_enter (c_pc c)) eqn:He.
    { replace (worker_step now i r sh c) with (enter_step now i r sh c); [by apply enter_acts|].
      unfold worker_step. by destruct (c_pc c). }
    destruct (is_leave (c_pc c)) eqn:Hl.
    { replace (worker_step now i r sh c) with (leave_step now i r sh c); [by apply leave_acts|].
      unfold worker_step. by destruct (c_pc c). }
    pose proof (wo_phase _ _ _ Hw Hf) as Hph. unfold phase in Hph. unfold worker_step, opened in *.
    destruct (c_pc c) eqn:Hp; try done. unfold open_step. rewrite Hp. cbn [fst snd].
    apply acts_local; [done|done| |]; unfold initialising, clearing; by rewrite Hp.
  - replace (worker_step now i r sh c) with (open_step now i r sh c).
    2: { unfold worker_step, opened in *. by destruct (c_pc c). }
    apply open_acts; try done; [lia|]. rewrite Hm. by apply testbit_expected.
Qed.

(** ** Starting a call *)

Lemma call_enter_ok v r c : worker_ok v r c → c_pc c = PIdle → worker_ok v r (call_enter c).
Proof.
  intros Hw Hp. unfold call_enter. destruct Hw as [H1 H2 H3 H4 H5 H6]. cbn.
  destruct (active_seq c =? 0) eqn:Ea; to_prop.
  - assert (c_forward c = false) as Hfw by (destruct (c_forward c); [by destruct (H3 eq_refl)|done]).
    split; cbn; rewrite ?Hfw; try done; try lia.
    + intros _. apply H2. unfold joined. rewrite Hp, Ea. done.
    + intros Hf. split; [done|]. intros _. apply H4; [done|by rewrite Hp].
  - split; cbn; try done; try lia.
Qed.

Lemma call_leave_ok v r c seq grant : worker_ok v r c → c_pc c = PIdle → worker_ok v r (call_leave c seq grant).
Proof.
  intros [H1 H2 H3 H4 H5 H6] Hp. split; cbn; try done.
  - unfold joined in *. rewrite Hp in H2. done.
  - intros Hf. split; [done|]. intros _. apply H4; [done|by rewrite Hp].
  - intros Hf. specialize (H5 Hf). unfold phase in *. by rewrite Hp in H5.
Qed.

Lemma call_open_ok v r c : worker_ok v r c → c_pc c = PClosed → worker_ok v r (goto c POpen).
Proof.
  intros [H1 H2 H3 H4 H5 H6] Hp. split; cbn; try done.
  - intros _. apply H2. unfold joined. by rewrite Hp.
  - intros Hf. destruct (H4 Hf) as [Hst _]. by rewrite Hp in Hst.
  - intros Hf. specialize (H5 Hf). unfold phase in *. by rewrite Hp in H5.
  - intros Hfw. destruct (H6 Hfw) as [E|E]; rewrite Hp in E; done.
Qed.
