(* ===== verification/PairSafe.v ===== *)
(** * Mutual exclusion of the pair protocol

    The invariant of PairInv.v holds in every reachable state, so two instances never
    run the model at the same time, and a running instance has all its workers in
    the round. *)

From S2P Require Import Prelude PairProtocol PairInv PairSteps.
#[local] Open Scope Z_scope.

Definition instance (i : Z) : Prop := i = 0 ∨ i = 1.

(** ** The coordinator *)

Definition scan_ok (sh : shared_state) (f : scan_for) : Prop :=
  match f with ForOwner _ => True | _ => owner sh = PS_NO_OWNER end.

Definition coord_ok (sh : shared_state) (p : cpc) : Prop :=
  match p with
  | CFail _ next => next = CStatus ∨ ∃ t, next = CStatus2 t
  | CRState _ o => owner sh = o ∧ instance o
  | CRComplete _ o st | CRDeadline _ o st _ =>
      owner sh = o ∧ instance o ∧ (st = ROUND_COMPLETE → v_state (view_of sh o) = ROUND_COMPLETE)
  | CRecycle _ o k =>
      owner sh = o ∧ instance o ∧ ((k ≤ 1)%nat → v_state (view_of sh o) = ROUND_COMPLETE)
      ∧ (k = 1%nat → v_exit (view_of sh o) = 0)
      ∧ ((2 ≤ k)%nat → v_state (view_of sh o) ≠ ROUND_RUNNING ∧ v_state (view_of sh o) ≠ ROUND_COMPLETE)
  | CScan _ f _ | CScanSession _ f _ _ | CScanBeat _ f _ _ _ => scan_ok sh f
  | CDState _ _ | CDReady _ _ _ | CDOnline _ _ _ _ | CDPublish _ _ _ _ _ | CDLast _ => owner sh = PS_NO_OWNER
  | CDTake _ s => owner sh = PS_NO_OWNER ∧ instance s
  | CDGrant _ s | CDSetGrant _ s _ | CDDeadline _ s | CDSetOwner s =>
      owner sh = PS_NO_OWNER ∧ instance s ∧ 1 ≤ v_seq (view_of sh s)
  | _ => True
  end.

Lemma chosen_ok sh t acc : owner sh = PS_NO_OWNER → coord_ok sh (chosen t acc).
Proof.
  intros Ho. unfold chosen. destruct acc as [|[r0 p0] [|[r1 p1] [|]]]; try done.
  destruct (_ && _); [done|]. unfold select. destruct (r0 && r1).
  - destruct (p0 <? p1); [by split; [|left]|]. destruct (p1 <? p0); [by split; [|right]|done].
  - destruct r0; [by split; [|left]|by split; [|right]].
Qed.

Lemma examined_ok sh t acc b pb : owner sh = PS_NO_OWNER → coord_ok sh (examined t acc b pb).
Proof. intros Ho. unfold examined. destruct (_ <=? _)%nat; [by apply chosen_ok|done]. Qed.

Lemma check_ready_ok sh t acc st rd on pb : owner sh = PS_NO_OWNER → coord_ok sh (check_ready sh t acc st rd on pb).
Proof. intros Ho. unfold check_ready. destruct (_ && _); [done|by apply examined_ok]. Qed.

Lemma examine_ok sh t acc st rd on pb : owner sh = PS_NO_OWNER → coord_ok sh (examine sh t acc st rd on pb).
Proof.
  intros Ho. unfold examine. destruct (_ && _ && _ && _); [|by apply check_ready_ok].
  destruct (_ || _); [by left|done].
Qed.

(** What a step of the coordinator does. *)
Record coord_acts (sh sh' : shared_state) (p' : cpc) : Prop := {
  ca_status : status_ok sh';
  ca_owner : owner sh' = PS_NO_OWNER ∨ instance (owner sh');
  ca_group j : instance j → group_ok (view_of sh' j);
  ca_change j q d : instance j → change q d (view_of sh j) (view_of sh' j);
  ca_coord : coord_ok sh' p';
  ca_count : worker_count sh' = worker_count sh;
}.

Section coordinator.
Context (now : Z) (sh : shared_state).
Hypothesis Hs : status_ok sh.
Hypothesis Ho : owner sh = PS_NO_OWNER ∨ instance (owner sh).
Hypothesis Hg : ∀ j, instance j → group_ok (view_of sh j).

Lemma coord_local p' : coord_ok sh p' → coord_acts sh sh p'.
Proof. intros Hp. split; try done. intros. apply ch_none. Qed.

Lemma coord_same_view sh' p' :
  (∀ j, view_of sh' j = view_of sh j) → sh_status sh' = sh_status sh → owner sh' = owner sh →
  worker_count sh' = worker_count sh → coord_ok sh' p' → coord_acts sh sh' p'.
Proof.
  intros Hv Hst How Hc Hp. split; try done.
  - unfold status_ok. by rewrite Hst.
  - by rewrite How.
  - intros j Hj. rewrite Hv. auto.
  - intros. rewrite Hv. apply ch_none.
Qed.

Lemma coord_group s f p' :
  group_ok (group_view sh s (f (groups sh s))) →
  (∀ q d, change q d (view_of sh s) (group_view sh s (f (groups sh s)))) →
  coord_ok (on_group sh s f) p' → coord_acts sh (on_group sh s f) p'.
Proof.
  intros Hgs Hch Hp. split; try done.
  - intros j Hj. destruct (decide (j = s)) as [->|Hne]; [by rewrite view_on_group|]. rewrite view_on_other by done. auto.
  - intros j q d Hj. destruct (decide (j = s)) as [->|Hne]; [by rewrite view_on_group|].
    rewrite view_on_other by done. apply ch_none.
Qed.

Lemma view_set_owner x j : view_of (set_owner sh x) j = v_set_own (view_of sh j) (x =? j).
Proof. done. Qed.

Lemma recycle_acts t o k :
  coord_ok sh (CRecycle t o k) →
  coord_acts sh (recycle_store sh o k) (if (4 <=? k)%nat then CStatus2 t else CRecycle t o (S k)).
Proof.
  intros (How & Hin & H1 & H2 & H3). pose proof (Hg o Hin) as Hgo.
  destruct k as [|[|[|[|k]]]]; cbn [recycle_store Nat.leb].
  - specialize (H1 ltac:(lia)). apply coord_group.
    + group_solve Hgo.
    + intros q d. by apply (ch_recycle_exit q d (view_of sh o)).
    + cbn [coord_ok]. rewrite view_on_group. cbn in *. naive_solver lia.
  - specialize (H1 ltac:(lia)). specialize (H2 eq_refl). apply coord_group.
    + group_solve Hgo.
    + intros q d. by apply (ch_drain q d (view_of sh o)).
    + cbn [coord_ok]. rewrite view_on_group. cbn in *. consts. split_and!; try done; lia.
  - apply coord_same_view; try done. cbn in *. split_and!; try done; try lia; intros _; apply H3; lia.
  - apply coord_same_view; try done. cbn in *. split_and!; try done; try lia; intros _; apply H3; lia.
  - specialize (H3 ltac:(lia)). split; try done.
    + by left.
    + intros j Hj. rewrite view_set_owner. assert ((PS_NO_OWNER =? j) = false) as -> by (destruct Hj as [-> | ->]; done).
      pose proof (Hg j Hj) as Hgj. group_solve Hgj.
    + intros j q d Hj. rewrite view_set_owner. assert ((PS_NO_OWNER =? j) = false) as -> by (destruct Hj as [-> | ->]; done).
      destruct (decide (j = o)) as [->|Hne]; [by apply ch_disown, H3|].
      assert (v_set_own (view_of sh j) false = view_of sh j) as ->; [|apply ch_none].
      unfold view_of, v_set_own. cbn. by rewrite How, (proj2 (Z.eqb_neq o j)).
Qed.

Lemma set_owner_acts s :
  coord_ok sh (CDSetOwner s) → coord_acts sh (set_owner sh s) CStatus.
Proof.
  intros (How & Hin & Hsq). split; try done.
  - by right.
  - intros j Hj. rewrite view_set_owner. pose proof (Hg j Hj) as Hgj. destruct (s =? j) eqn:E; to_prop; subst.
    + destruct Hgj as [G1 G2 G3 G4 G5 G6]. by split.
    + group_solve Hgj.
  - intros j q d Hj. rewrite view_set_owner. assert (v_own (view_of sh j) = false) as Hv.
    { unfold view_of. cbn. rewrite How. destruct Hj as [-> | ->]; done. }
    destruct (s =? j) eqn:E; [by apply ch_own|].
    assert (v_set_own (view_of sh j) false = view_of sh j) as ->; [|apply ch_none]. by rewrite <- Hv.
Qed.

Lemma fail_acts reason next :
  next = CStatus ∨ (∃ t, next = CStatus2 t) → coord_acts sh (fail_pair sh reason) next.
Proof.
  intros Hn. assert (∀ sh', coord_ok sh' next) as Hc by (intros sh'; destruct Hn as [-> | [t ->]]; done).
  pose proof (λ j, view_fail sh reason j Hs) as Hv. split.
  - apply (Hv 0).
  - unfold fail_pair. by destruct (_ =? _).
  - intros j Hj. rewrite (proj1 (Hv j)). by apply group_ok_fail, Hg.
  - intros j q d Hj. rewrite (proj1 (Hv j)). apply ch_fail.
  - apply Hc.
  - unfold fail_pair. by destruct (_ =? _).
Qed.

Lemma coordinator_acts p :
  coord_ok sh p → coord_acts sh (coordinator_step now sh p).1 (coordinator_step now sh p).2.
Proof.
  intros Hp. destruct p; cbn [coordinator_step fst snd].
  - apply coord_local. by destruct (is_running _).
  - apply coord_local. destruct (_ && _); [by left|done].
  - apply coord_local. destruct (4 <=? k)%nat; [|done]. destruct (_ || _); [by left|]. by destruct (i =? 0).
  - by apply fail_acts.
  - by apply coord_same_view.
  - apply coord_local. destruct (owner sh =? PS_NO_OWNER) eqn:E; [done|]. to_prop. split; [done|]. by destruct Ho.
  - apply coord_local. destruct Hp as [Hp1 Hp2]. by split_and!.
  - by apply coord_local.
  - destruct Hp as (Hp1 & Hp2 & Hp3). apply coord_local. destruct (_ && _); [right; by eexists|].
    destruct (_ || _) eqn:Eb; [clear Eb; destruct (_ || _); exact I|]. apply orb_false_iff in Eb as [E1%negb_false_iff%Z.eqb_eq _].
    cbn [coord_ok]. split_and!; try done; [intros _; by apply Hp3|lia].
  - by apply recycle_acts.
  - destruct (worker_count sh <=? rank).
    + apply coord_local. destruct f; cbn in *; [done|by apply check_ready_ok|by apply examined_ok].
    + destruct (_ =? 0); by apply coord_local.
  - by apply coord_local.
  - apply coord_local. destruct (_ && _); [done|]. destruct f; cbn in *; [right; by eexists|by left|by apply examined_ok].
  - apply coord_local. by destruct (is_running _).
  - apply coord_local. by destruct (owner sh =? PS_NO_OWNER).
  - apply coord_local. destruct (owner sh =? PS_NO_OWNER) eqn:E; [|done]. to_prop. done.
  - by apply coord_local.
  - by apply coord_local.
  - by apply coord_local.
  - apply coord_local. by apply examine_ok.
  - apply coord_local. split; [done|]. destruct (_ =? 0); [by right|by left].
  - destruct Hp as [Hp1 Hp2]. pose proof (Hg selected Hp2) as Hgs.
    destruct (_ =? ROUND_READY) eqn:E; [|by apply coord_local]. cbn [fst snd]. to_prop. apply coord_group.
    + group_solve Hgs.
    + intros q d. by apply (ch_take q d (view_of sh selected)).
    + cbn [coord_ok]. rewrite view_on_group. split_and!; try done. apply (go_seq _ Hgs). left. cbn. rewrite E. consts. lia.
  - by apply coord_same_view.
  - destruct Hp as (Hp1 & Hp2 & Hp3). apply coord_group.
    + pose proof (Hg selected Hp2) as Hgs. group_solve Hgs.
    + intros q d. apply (ch_none q d (view_of sh selected)).
    + cbn [coord_ok]. rewrite view_on_group. by split_and!.
  - by apply coord_same_view.
  - by apply set_owner_acts.
Qed.
End coordinator.

(** Steps of workers keep what the coordinator knows. *)
Lemma coord_keeps sh sh' p :
  coord_ok sh p → owner sh' = owner sh → (∀ j, instance j → keeps (view_of sh j) (view_of sh' j)) → coord_ok sh' p.
Proof.
  intros Hp Ho Hk. destruct p; cbn [coord_ok] in *; try done; rewrite ?Ho; try done.
  - destruct Hp as (H1 & H2 & H3). split_and!; try done. intros H. by apply (kp_complete _ _ (Hk o H2)), H3.
  - destruct Hp as (H1 & H2 & H3). split_and!; try done. intros H. by apply (kp_complete _ _ (Hk o H2)), H3.
  - destruct Hp as (H1 & H2 & H3 & H4 & H5). destruct (Hk o H2) as [K1 K2 K3]. split_and!; try done.
    + intros H. by apply K1, H3.
    + intros ->. destruct K1 as [_ ->]; [apply H3; lia|by apply H4].
    + intros H. destruct (H5 H). by apply K2.
  - by destruct f; cbn in *; rewrite ?Ho.
  - by destruct f; cbn in *; rewrite ?Ho.
  - by destruct f; cbn in *; rewrite ?Ho.
  - destruct Hp as (H1 & H2 & H3). split_and!; try done. by apply (kp_seq _ _ (Hk _ H2)).
  - destruct Hp as (H1 & H2 & H3). split_and!; try done. by apply (kp_seq _ _ (Hk _ H2)).
  - destruct Hp as (H1 & H2 & H3). split_and!; try done. by apply (kp_seq _ _ (Hk _ H2)).
  - destruct Hp as (H1 & H2 & H3). split_and!; try done. by apply (kp_seq _ _ (Hk _ H2)).
Qed.

(** ** Frames *)

(** What a step of a worker of instance [i] does to the rest of the memory. *)
Record frame (i : Z) (sh sh' : shared_state) : Prop := {
  fr_owner : owner sh' = owner sh;
  fr_count : worker_count sh' = worker_count sh;
  fr_status : status_ok sh → status_ok sh';
  fr_other j : status_ok sh → j ≠ i → view_of sh' j = view_of sh j ∨ view_of sh' j = v_set_run (view_of sh j) false;
}.

Lemma frame_refl i sh : frame i sh sh.
Proof. split; try done. intros. by left. Qed.

Lemma frame_group i sh f : frame i sh (on_group sh i f).
Proof. split; try done. intros j _ Hj. left. by apply view_on_other. Qed.

Lemma frame_slot i r sh f : frame i sh (on_slot sh i r f).
Proof. apply frame_group. Qed.

Lemma frame_fail i sh reason : frame i sh (fail_pair sh reason).
Proof.
  split.
  - unfold fail_pair. by destruct (_ =? _).
  - unfold fail_pair. by destruct (_ =? _).
  - intros Hs. apply (view_fail sh reason 0 Hs).
  - intros j Hs _. right. apply (view_fail sh reason j Hs).
Qed.

#[local] Hint Resolve frame_refl frame_group frame_slot frame_fail : core.

Lemma worker_frame now i r sh c : frame i sh (worker_step now i r sh c).1.
Proof.
  unfold worker_step, open_step, enter_step, leave_step.
  destruct (c_pc c); cbn [fst]; auto; destruct (_ =? _); cbn [fst]; auto.
Qed.

(** ** The invariant of the system *)

(** At most one worker of each instance satisfies [P]. *)
Definition alone (n : Z) (f : Z → Z → ps_context) (P : ps_context → bool) : Prop :=
  ∀ i r q, rank_of n i r → rank_of n i q → q ≠ r → P (f i r) = true → P (f i q) = false.

Record Inv (w : world) : Prop := {
  inv_count : 1 ≤ worker_count (memory w) ≤ 64;
  inv_status : status_ok (memory w);
  inv_owner : owner (memory w) = PS_NO_OWNER ∨ instance (owner (memory w));
  inv_group j : instance j → group_ok (view_of (memory w) j);
  inv_worker i r : rank_of (worker_count (memory w)) i r → worker_ok (view_of (memory w) i) r (ctxs w i r);
  inv_init : alone (worker_count (memory w)) (ctxs w) initialising;
  inv_clear : alone (worker_count (memory w)) (ctxs w) clearing;
  inv_coord : coord_ok (memory w) (coord w);
}.

Lemma set_ctx_same f i r c : set_ctx f i r c i r = c.
Proof. unfold set_ctx, upd. by rewrite !Z.eqb_refl. Qed.

Lemma set_ctx_other f i r c j q : ¬ (j = i ∧ q = r) → set_ctx f i r c j q = f j q.
Proof.
  intros Hne. unfold set_ctx, upd. destruct (j =? i) eqn:E1; [|done]. destruct (q =? r) eqn:E2; [|by to_prop; subst].
  to_prop. subst. by destruct Hne.
Qed.

(** A worker that initialises or clears a round fixes the state of the group. *)
Lemma initialising_state v q d : worker_ok v q d → initialising d = true → v_state v = ROUND_INITIALIZING.
Proof.
  intros Hw Hi. unfold initialising in Hi. destruct (c_failed d) eqn:Hf.
  - destruct (wo_stuck _ _ _ Hw Hf) as [Hst _]. by destruct (c_pc d).
  - pose proof (wo_phase _ _ _ Hw Hf) as Hph. unfold phase in Hph. destruct (c_pc d); try done. by destruct Hph as (_ & _ & ? & _).
Qed.

Lemma clearing_exit v q d : worker_ok v q d → clearing d = true → v_exit v = v_mask v.
Proof.
  intros Hw Hi. unfold clearing in Hi. destruct (c_failed d) eqn:Hf.
  - destruct (wo_stuck _ _ _ Hw Hf) as [Hst _]. by destruct (c_pc d).
  - pose proof (wo_phase _ _ _ Hw Hf) as Hph. unfold phase in Hph. destruct (c_pc d); try done. by destruct Hph as (_ & _ & ?).
Qed.

Lemma alone_set n f P i r c :
  alone n f P → rank_of n i r →
  (P c = true → P (f i r) = true ∨ ∀ q, rank_of n i q → q ≠ r → P (f i q) = false) → alone n (set_ctx f i r c) P.
Proof.
  intros Hal Hir Hc j p q Hp Hq Hpq.
  assert (P c = true → ∀ q, rank_of n i q → q ≠ r → P (f i q) = false) as Hrest.
  { intros H k Hk Hne. destruct (Hc H) as [H1|H1]; [by apply (Hal i r k)|by apply H1]. }
  destruct (decide (j = i ∧ p = r)) as [[-> ->]|H1].
  - rewrite set_ctx_same, set_ctx_other by naive_solver. auto.
  - rewrite (set_ctx_other _ _ _ _ j p) by done. destruct (decide (j = i ∧ q = r)) as [[-> ->]|H2].
    + rewrite set_ctx_same. intros Hi. destruct (P c) eqn:E; [|done]. by rewrite (Hrest eq_refl p) in Hi.
    + rewrite set_ctx_other by done. by apply Hal.
Qed.

(** A step of one worker, with what it does to its own instance. *)
Lemma inv_acts w i r sh c :
  Inv w → rank_of (worker_count (memory w)) i r →
  acts (worker_count (memory w)) i r (memory w) sh (ctxs w i r) c → frame i (memory w) sh →
  Inv (mkWorld sh (set_ctx (ctxs w) i r c) (coord w) (clock w)).
Proof.
  intros HI Hir [A1 A2 A3 A4 A5 A6] [F1 F2 F3 F4]. destruct HI as [I1 I2 I3 I4 I5 I6 I7 I8].
  assert (∀ j, instance j → j ≠ i → ∀ q d, change q d (view_of (memory w) j) (view_of sh j)) as Hch.
  { intros j Hj Hne q d. destruct (F4 j I2 Hne) as [-> | ->]; [apply ch_none|apply ch_fail]. }
  split; cbn [memory ctxs coord]; rewrite ?F2; auto.
  - by rewrite F1.
  - intros j Hj. destruct (decide (j = i)) as [->|Hne]; [done|]. destruct (F4 j I2 Hne) as [-> | ->]; auto.
    by apply group_ok_fail, I4.
  - intros j q Hjq. destruct (decide (j = i)) as [->|Hne].
    + destruct (decide (q = r)) as [->|Hq]; [by rewrite set_ctx_same|]. rewrite set_ctx_other by naive_solver.
      apply (worker_change (view_of (memory w) i)); auto; [apply Hjq|by apply testbit_expected; [|apply Hjq]|apply I4, Hjq|].
      apply A3; [done|apply Hjq| |]; [by apply (I6 i r q)|by apply (I7 i r q)].
    + rewrite set_ctx_other by naive_solver.
      apply (worker_change (view_of (memory w) j)); auto; [apply Hjq|by apply testbit_expected; [|apply Hjq]|apply I4, Hjq|].
      apply Hch; [apply Hjq|done].
  - apply alone_set; [done..|]. intros Hi. destruct (A4 Hi) as [Hc|Hc]; [by left|right]. intros q Hq _.
    destruct (initialising (ctxs w i q)) eqn:E; [|done]. pose proof (initialising_state _ _ _ (I5 _ _ Hq) E). consts. lia.
  - apply alone_set; [done..|]. intros Hi. destruct (A5 Hi) as [Hc|Hc]; [by left|right]. intros q Hq _.
    destruct (clearing (ctxs w i q)) eqn:E; [|done]. rewrite (clearing_exit _ _ _ (I5 _ _ Hq) E) in Hc.
    unfold view_of in Hc. cbn in Hc. unfold expected_mask in Hc. by rewrite testbit_expected in Hc by (done || apply Hir).
  - apply (coord_keeps (memory w)); auto. intros j Hj. destruct (decide (j = i)) as [->|Hne]; [done|].
    destruct (F4 j I2 Hne) as [-> | ->]; by split.
Qed.

(** A step that leaves the contexts alone. *)
Lemma inv_memory w sh p t :
  Inv w → coord_acts (memory w) sh p → Inv (mkWorld sh (ctxs w) p t).
Proof.
  intros [I1 I2 I3 I4 I5 I6 I7 I8] [A1 A2 A3 A4 A5 A6].
  split; cbn [memory ctxs coord]; rewrite ?A6; auto.
  intros j q Hjq. apply (worker_change (view_of (memory w) j)); auto; [apply Hjq| |apply I4, Hjq|apply A4, Hjq].
  by apply testbit_expected; [|apply Hjq].
Qed.

(** A step of a worker's heartbeat thread, or [ps_fail]. *)
Lemma inv_quiet w i sh :
  Inv w → frame i (memory w) sh →
  (∀ j, view_of sh j = view_of (memory w) j ∨ view_of sh j = v_set_run (view_of (memory w) j) false) →
  Inv (mkWorld sh (ctxs w) (coord w) (clock w)).
Proof.
  intros HI [F1 F2 F3 _] Hv. pose proof HI as [I1 I2 I3 I4 I5 I6 I7 I8]. apply inv_memory; [done|]. split; auto.
  - by rewrite F1.
  - intros j Hj. destruct (Hv j) as [-> | ->]; [by apply I4|by apply group_ok_fail, I4].
  - intros j q d _. destruct (Hv j) as [-> | ->]; [apply ch_none|apply ch_fail].
  - apply (coord_keeps (memory w)); auto. intros j _. destruct (Hv j) as [-> | ->]; by split.
Qed.

(** A call that starts. *)
Lemma inv_call w i r c :
  Inv w → rank_of (worker_count (memory w)) i r → worker_ok (view_of (memory w) i) r c →
  initialising c = false → clearing c = false →
  Inv (mkWorld (memory w) (set_ctx (ctxs w) i r c) (coord w) (clock w)).
Proof.
  intros HI Hir Hw Hi Hc. apply inv_acts; [done..| |apply frame_refl]. apply acts_local; try done. apply HI, Hir.
Qed.

Lemma step_inv w w' : Inv w → step w w' → Inv w'.
Proof.
  intros HI [i r sh c Hir Hst|sh p Hst|i r Hir Hp|i r Hir Hp|i r seq grant Hir Hp|i r reason Hir _|i r Hir _|t _].
  - pose proof (worker_acts _ (clock w) i r (memory w) (ctxs w i r) (inv_count _ HI) (proj2 Hir) eq_refl
      (inv_status _ HI) (inv_group _ HI i (proj1 Hir)) (inv_worker _ HI i r Hir)) as Ha.
    pose proof (worker_frame (clock w) i r (memory w) (ctxs w i r)) as Hfr. rewrite Hst in Ha, Hfr. by apply inv_acts.
  - apply inv_memory; [done|].
    pose proof (coordinator_acts (clock w) (memory w) (inv_status _ HI) (inv_owner _ HI) (inv_group _ HI) _ (inv_coord _ HI)) as Ha.
    by rewrite Hst in Ha.
  - apply inv_call; try done. apply call_open_ok; [by apply HI|done].
  - apply inv_call; try done; [apply call_enter_ok; [by apply HI|done]|unfold call_enter; by destruct (_ =? 0)..].
  - apply inv_call; try done. apply call_leave_ok; [by apply HI|done].
  - apply (inv_quiet w i); [done|apply frame_fail|]. intros j. right. apply (view_fail (memory w) reason j (inv_status _ HI)).
  - apply (inv_quiet w i); [done|apply frame_slot|]. intros j. left. apply view_on_slot.
  - apply inv_memory; [done|]. apply coord_local; apply HI.
Qed.

Lemma initial_inv peer forward n now ids : 1 ≤ n ≤ 64 → Inv (initial peer forward n now ids).
Proof.
  intros Hn. split; cbn [initial memory ctxs coord]; try done.
  - by left.
  - by left.
  - intros j [-> | ->]; split; cbn; consts; lia.
  - intros i r Hir. unfold closed. split; cbn; try done; try (consts; lia). by destruct (_ && _).
  - intros i r q _ _ _. unfold closed, initialising. cbn. by destruct (_ && _).
  - intros i r q _ _ _. unfold closed, clearing. cbn. by destruct (_ && _).
Qed.

Lemma reachable_inv w : reachable w → Inv w.
Proof.
  intros (peer & forward & n & now & ids & Hn & Hrtc). pose proof (initial_inv peer forward n now ids Hn) as HI.
  revert HI. induction Hrtc as [|w1 w2 w3 Hst _ IH]; [done|]. intros HI. by apply IH, (step_inv w1).
Qed.

(** ** Exclusion and barrier *)

(** The caller of rank [r] of instance [i] is running the model: its
    [ps_enter_forward] has returned a grant that it has not yet handed back. *)
Definition in_model (w : world) (i r : Z) : Prop :=
  rank_of (worker_count (memory w)) i r ∧ c_forward (ctxs w i r) = true.

Lemma in_model_granted w i r :
  Inv w → in_model w i r → active_seq (ctxs w i r) ≠ 0 ∧ granted (view_of (memory w) i) r (active_seq (ctxs w i r)).
Proof. intros HI [Hir Hf]. by apply (wo_forward _ _ _ (inv_worker _ HI i r Hir)). Qed.

(** C9: whatever the interleaving of all threads of both instances, whatever their
    callers pass to the library and whichever calls fail, workers that run the
    model at the same time belong to the same instance and to the same round. *)
Theorem rounds_exclude w i r j q :
  reachable w → in_model w i r → in_model w j q →
  i = j ∧ active_seq (ctxs w i r) = active_seq (ctxs w j q).
Proof.
  intros HI%reachable_inv H1 H2. destruct (in_model_granted _ _ _ HI H1) as (_ & _ & O1 & S1 & _).
  destruct (in_model_granted _ _ _ HI H2) as (_ & _ & O2 & S2 & _). cbn in *. to_prop.
  assert (i = j) as -> by congruence. split; [done|congruence].
Qed.

(** The round that a worker has joined: the number it waits with in
    [ps_enter_forward], or the one it was granted. *)
Definition round_of (c : ps_context) : Z := if active_seq c =? 0 then next_seq c else active_seq c.

Lemma joined_round sh i r c :
  phase (view_of sh i) r c → joined c = true → round_of c = forward_seq (groups sh i).
Proof.
  unfold phase, joined, round_of. intros Hph Hj.
  destruct (c_pc c); try discriminate Hj; destruct (active_seq c =? 0) eqn:E; to_prop; try discriminate Hj;
    unfold granted, waits, completed in Hph; cbn in Hph; naive_solver.
Qed.

(** C10: while a worker runs the model its instance owns the pair and is in state
    RUNNING with the worker's sequence number, all ready bits are set and its own
    completion bit is not, and every worker of the instance has joined this very round
    (it is in the call that waits for the grant, in the model or in the call that
    leaves) or has had an error. *)
Theorem round_barrier w i r :
  reachable w → in_model w i r →
  owner (memory w) = i ∧ g_state (groups (memory w) i) = ROUND_RUNNING
  ∧ forward_seq (groups (memory w) i) = active_seq (ctxs w i r)
  ∧ ready_mask (groups (memory w) i) = expected_mask (memory w)
  ∧ Z.testbit (complete_mask (groups (memory w) i)) r = false
  ∧ ∀ q, 0 ≤ q < worker_count (memory w) →
      c_failed (ctxs w i q) = true
      ∨ joined (ctxs w i q) = true ∧ round_of (ctxs w i q) = active_seq (ctxs w i r).
Proof.
  intros HI%reachable_inv Hin. pose proof Hin as [Hir Hfw].
  destruct (in_model_granted _ _ _ HI Hin) as (_ & Hst & Ho & Hsq & Hc). cbn in Hst, Ho, Hsq, Hc. to_prop.
  pose proof (inv_group _ HI i (proj1 Hir)) as Hg.
  assert (ready_mask (groups (memory w) i) = expected_mask (memory w)) as Hr.
  { apply (go_ready _ Hg). cbn. rewrite Hst. consts. lia. }
  split_and!; try done. intros q Hq. destruct (c_failed (ctxs w i q)) eqn:Hf; [by left|right].
  assert (rank_of (worker_count (memory w)) i q) as Hiq by (split; [apply Hir|done]).
  pose proof (inv_worker _ HI i q Hiq) as Hw. destruct (joined (ctxs w i q)) eqn:Hj.
  - split; [done|]. pose proof (wo_phase _ _ _ Hw Hf) as Hph. rewrite <- Hsq. by apply (joined_round (memory w)) in Hph.
  - pose proof (wo_apart _ _ _ Hw Hj Hf) as Hb. cbn in Hb. rewrite Hst, Hr in Hb.
    unfold expected_mask in Hb. rewrite testbit_expected in Hb by (done || apply HI). discriminate Hb. consts. lia.
Qed.
