(* ===== verification/PairFence.v ===== *)
(** * The pair protocol raises no false alarm

    When the callers of the library follow its rules - all ranks of an instance are
    opened before one of them enters, a caller enters only outside of a round and
    leaves with the tokens it was given - then no interleaving makes a consistency
    check of pair_sched.c fail: a pair that has failed has met a deadline, a dead
    process or a request of a caller. *)

From S2P Require Import Prelude PairProtocol PairInv PairSteps PairSafe.
#[local] Open Scope Z_scope.

(** ** Callers that follow the rules *)

(** The reasons that are not consistency checks. *)
Definition genuine (reason : Z) : bool :=
  negb ((reason =? FAIL_CORRUPT_OWNER) || (reason =? FAIL_CORRUPT_STATE)
        || (reason =? FAIL_FENCING) || (reason =? FAIL_DUPLICATE_RANK)).

(** What a call must satisfy; after a failure anything may be called. *)
Definition may_enter (w : world) (i r : Z) : Prop :=
  is_running (sh_status (memory w)) = false
  ∨ active_seq (ctxs w i r) = 0
    ∧ ∀ q, rank_of (worker_count (memory w)) i q → opened (ctxs w i q) = true.
Definition may_leave (w : world) (i r seq grant : Z) : Prop :=
  is_running (sh_status (memory w)) = false
  ∨ c_forward (ctxs w i r) = true ∧ seq = active_seq (ctxs w i r) ∧ grant = active_grant_id (ctxs w i r).

Inductive ruled_step (w : world) : world → Prop :=
  | ru_worker i r sh c :
      rank_of (worker_count (memory w)) i r →
      worker_step (clock w) i r (memory w) (ctxs w i r) = (sh, c) →
      ruled_step w (mkWorld sh (set_ctx (ctxs w) i r c) (coord w) (clock w))
  | ru_coordinator sh p :
      coordinator_step (clock w) (memory w) (coord w) = (sh, p) →
      ruled_step w (mkWorld sh (ctxs w) p (clock w))
  | ru_open i r :
      rank_of (worker_count (memory w)) i r → c_pc (ctxs w i r) = PClosed →
      ruled_step w (mkWorld (memory w) (set_ctx (ctxs w) i r (goto (ctxs w i r) POpen)) (coord w) (clock w))
  | ru_enter i r :
      rank_of (worker_count (memory w)) i r → c_pc (ctxs w i r) = PIdle → may_enter w i r →
      ruled_step w (mkWorld (memory w) (set_ctx (ctxs w) i r (call_enter (ctxs w i r))) (coord w) (clock w))
  | ru_leave i r seq grant :
      rank_of (worker_count (memory w)) i r → c_pc (ctxs w i r) = PIdle → may_leave w i r seq grant →
      ruled_step w (mkWorld (memory w) (set_ctx (ctxs w) i r (call_leave (ctxs w i r) seq grant)) (coord w) (clock w))
  | ru_fail i r reason :
      rank_of (worker_count (memory w)) i r → opened (ctxs w i r) = true → genuine reason = true →
      ruled_step w (mkWorld (fail_pair (memory w) reason) (ctxs w) (coord w) (clock w))
  | ru_heartbeat i r :
      rank_of (worker_count (memory w)) i r → opened (ctxs w i r) = true →
      ruled_step w (mkWorld (on_slot (memory w) i r (λ s, s_set_heartbeat s (clock w))) (ctxs w) (coord w) (clock w))
  | ru_clock t :
      clock w ≤ t → ruled_step w (mkWorld (memory w) (ctxs w) (coord w) t).

Lemma ruled_is_step w w' : ruled_step w w' → step w w'.
Proof. destruct 1; by econstructor. Qed.

(** ** What a worker relies on *)

Definition entering (c : ps_context) : bool :=
  match c_pc c with ECheck | ELoop | EClaim | EInit _ | ESeq _ | ELast | EReady => true | _ => false end.

(** The rounds that the worker has finished. *)
Definition rounds_done (c : ps_context) : Z := next_seq c - (if joined c || entering c then 1 else 0).

(** The number of finished rounds agrees with the group. *)
Definition numbered (g : instance_group) (r : Z) (c : ps_context) : Prop :=
  (g_state g = ROUND_IDLE → rounds_done c = forward_seq g)
  ∧ (ROUND_COLLECTING ≤ g_state g ≤ ROUND_COMPLETE → rounds_done c = forward_seq g - 1)
  ∧ (g_state g = ROUND_DRAINING → rounds_done c = forward_seq g - (if Z.testbit (exit_mask g) r then 0 else 1)).

(** The tokens and loaded values of a call. *)
Definition tokens (g : instance_group) (c : ps_context) : Prop :=
  let a := active_seq c in let n := next_seq c in let ag := active_grant_id c in
  match c_pc c with
  | EInit k => (2 ≤ k)%nat → grant_id g = 0
  | ESeq st => st = ROUND_COLLECTING
  | EPublish => g_state g = ROUND_COLLECTING
  | ESeqW st => ROUND_COLLECTING ≤ st ≤ ROUND_RUNNING
  | EGrantW st sq => ROUND_COLLECTING ≤ st ≤ ROUND_RUNNING ∧ sq = n
  | EOwnerW st sq gr => ROUND_COLLECTING ≤ st ≤ ROUND_RUNNING ∧ sq = n ∧ (gr ≠ 0 → grant_id g = gr)
  | EValid _ gr => gr ≠ 0 ∧ grant_id g = gr
  | PIdle => a ≠ 0 → ag ≠ 0 ∧ grant_id g = ag
  | LDeadline sq gr | LCheck sq gr _ | LOwner sq gr | LSeq sq gr | LGrant sq gr =>
      a ≠ 0 ∧ sq = a ∧ gr = ag ∧ ag ≠ 0 ∧ grant_id g = ag
  | LState sq | LValid _ sq => sq = a
  | LPublish => g_state g = ROUND_RUNNING
  | LSeqW st => ROUND_RUNNING ≤ st ≤ ROUND_DRAINING
  | _ => True
  end.

(** The worker's slot holds its pid, its session and, from [ELast] on, its round. *)
Definition pid_set (p : pc) : bool :=
  match p with
  | PClosed | POpen | POpenStatus _ | PSession | PHeartbeat _ _ | PSetPid _ => false
  | _ => true
  end.
Definition session_set (p : pc) : bool :=
  pid_set p && match p with PSetSeq _ | PSetHeartbeat _ | PSetSession => false | _ => true end.
Definition seq_set (c : ps_context) : bool := joined c || match c_pc c with EReady => true | _ => false end.

Record slot_ok (s : worker_slot) (c : ps_context) : Prop := {
  so_pid : pid_set (c_pc c) = true → slot_pid s = c_pid c;
  so_session : session_set (c_pc c) = true → slot_session s = c_session c;
  so_seq : seq_set c = true → slot_last_seq s = next_seq c;
}.

Definition past_open (c : ps_context) : bool := opened c || match c_pc c with PNextSeq => true | _ => false end.

Record fits (g : instance_group) (r : Z) (c : ps_context) : Prop := {
  ft_tokens : tokens g c;
  ft_slot : slot_ok (workers g r) c;
  ft_active : active_seq c ≠ 0 → active_seq c = next_seq c;
  ft_online : past_open c = true → g_state g ≠ ROUND_OFFLINE;
  ft_closed : opened c = false → g_state g ≤ ROUND_IDLE;
  ft_number : opened c = true → numbered g r c;
}.

(** ** What other threads do to it *)

Definition publishing (c : ps_context) : bool := match c_pc c with EPublish | LPublish => true | _ => false end.

Record rely (q : Z) (d : ps_context) (v v' : view) (g g' : instance_group) : Prop := {
  rl_change : change q d v v';
  rl_grant : ROUND_COLLECTING ≤ g_state g ≤ ROUND_COMPLETE → grant_id g ≠ 0 → grant_id g' = grant_id g;
  rl_init : initialising d = true → grant_id g' = grant_id g;
  rl_publish : publishing d = true → g_state g' = g_state g;
  rl_collect : g_state g = ROUND_INITIALIZING → g_state g' = ROUND_COLLECTING → rounds_done d = forward_seq g' - 1;
  rl_closed : opened d = false → g_state g' ≤ ROUND_IDLE;
  rl_slot : slot_ok (workers g q) d → slot_ok (workers g' q) d;
}.

(** Reads a fact about two views as one about the groups. *)
Ltac as_groups H := unfold view_of in H; cbn in H.

Lemma change_online q d v v' : change q d v v' → v_state v ≠ ROUND_OFFLINE → v_state v' ≠ ROUND_OFFLINE.
Proof. intros Hch Hst. destruct Hch; cbn; try done. Qed.

Section relying.
Context (sh sh' : shared_state) (i q : Z) (d : ps_context).
Abbreviation g := (groups sh i).
Abbreviation g' := (groups sh' i).
Hypothesis Hq : 0 ≤ q.
Hypothesis Hbit : Z.testbit (expected_mask sh) q = true.
Hypothesis Hg : group_ok (view_of sh i).
Hypothesis Hw : worker_ok (view_of sh i) q d.
Hypothesis Hf : c_failed d = false.
Hypothesis Hr : rely q d (view_of sh i) (view_of sh' i) g g'.

Lemma number_rely : g_state g ≠ ROUND_OFFLINE → numbered g q d → numbered g' q d.
Proof.
  intros Hon (N1 & N2 & N3). pose proof (rl_collect _ _ _ _ _ _ Hr) as Hcol. pose proof (rl_change _ _ _ _ _ _ Hr) as Hch.
  assert (exit_mask g = expected_mask sh → Z.testbit (exit_mask g) q = true) as B1 by congruence.
  assert (Z.testbit 0 q = false) as H0 by apply Z.bits_0.
  pose proof (go_state _ Hg) as Hst. as_groups Hst.
  remember (view_of sh' i) as v' eqn:Ev.
  assert (g_state g' = v_state v' ∧ forward_seq g' = v_seq v' ∧ exit_mask g' = v_exit v') as (E1 & E2 & E3) by (by rewrite Ev).
  unfold numbered. rewrite E1, E2 in Hcol. rewrite E1, E2, E3. clear E1 E2 E3 Ev Hr.
  destruct Hch; cbn in *; consts; split_and!; intros Hs; try lia; try (apply N1; lia); try (apply N2; lia);
    try (rewrite N3 by lia; lia); try (apply Hcol; lia);
    try (rewrite N2 by lia; by rewrite ?H0);
    try (match goal with H : exit_mask g = 0 |- _ => rewrite H end; rewrite N2 by lia; by rewrite H0);
    try (rewrite N3 by lia; match goal with H : Z.testbit _ _ = _ |- _ => rewrite H end; lia).
  rewrite N3, B1 by done. lia.
Qed.

Lemma tokens_rely : tokens g d → tokens g' d.
Proof.
  pose proof (wo_phase _ _ _ Hw Hf) as Hph. destruct Hr as [R1 R2 R3 R4 R5 R6 R7].
  unfold tokens, phase, initialising, publishing, granted, waits in *. cbn in Hph. unfold ROUND_COMPLETE in R2.
  assert (g_state g = ROUND_RUNNING → grant_id g ≠ 0 → grant_id g' = grant_id g) as Hrun.
  { intros Hs. apply R2. rewrite Hs. consts. lia. }
  clear R1 R5 R6 R7.
  destruct (c_pc d); try done; try (intros H; specialize (R3 eq_refl); rewrite R3; exact H);
    try (intros H; specialize (R4 eq_refl); rewrite R4; exact H); clear R3 R4;
    try (clear R2; intuition (rewrite ?Hrun by congruence; congruence); fail).
  intros (H1 & H2 & H3). split_and!; try done; try lia. intros Hgr. rewrite R2; [by apply H3| |by rewrite H3].
  consts. lia.
Qed.

Lemma fits_rely : fits g q d → fits g' q d.
Proof.
  intros [F1 F2 F3 F4 F5 F6]. split.
  - by apply tokens_rely.
  - by apply (rl_slot _ _ _ _ _ _ Hr).
  - done.
  - intros Hp. pose proof (change_online _ _ _ _ (rl_change _ _ _ _ _ _ Hr) (F4 Hp)) as H. exact H.
  - apply (rl_closed _ _ _ _ _ _ Hr).
  - intros Ho. apply number_rely, F6; [|done]. apply F4. unfold past_open. by rewrite Ho.
Qed.
End relying.

(** ** Groups *)

Record tidy (E : Z) (g : instance_group) : Prop := {
  ti_ready : Z.ldiff (ready_mask g) E = 0;
  ti_complete : Z.ldiff (complete_mask g) E = 0;
  ti_exit : Z.ldiff (exit_mask g) E = 0;
  ti_online : Z.ldiff (online_mask g) E = 0;
  ti_grant : ROUND_COLLECTING ≤ g_state g ≤ ROUND_READY → grant_id g = 0;
}.

Lemma ldiff_lor_bit m E r : 0 ≤ r < 64 → Z.testbit E r = true → Z.ldiff m E = 0 → Z.ldiff (Z.lor m (bit r)) E = 0.
Proof.
  intros Hr Hb Hm. apply Z.bits_inj'. intros k Hk. rewrite Z.bits_0, Z.ldiff_spec, testbit_lor_bit by lia.
  assert (Z.testbit m k && negb (Z.testbit E k) = false) as H.
  { by rewrite <- Z.ldiff_spec, Hm, Z.bits_0. }
  destruct (k =? r) eqn:Ek; to_prop; [subst; rewrite Hb; apply andb_false_r|]. by rewrite orb_false_r.
Qed.

(** ** One step of a worker *)

Record fence_acts (i r : Z) (sh sh' : shared_state) (c c' : ps_context) : Prop := {
  fa_own : c_failed c' = false → fits (groups sh' i) r c';
  fa_fail reason : c_pc c' = PFail reason → genuine reason = true;
  fa_grant : ROUND_COLLECTING ≤ g_state (groups sh i) ≤ ROUND_COMPLETE → grant_id (groups sh' i) = grant_id (groups sh i);
  fa_init : g_state (groups sh i) = ROUND_INITIALIZING → initialising c = false → grant_id (groups sh' i) = grant_id (groups sh i);
  fa_publish : g_state (groups sh i) = ROUND_COLLECTING ∨ g_state (groups sh i) = ROUND_RUNNING →
    publishing c = false → g_state (groups sh' i) = g_state (groups sh i);
  fa_collect : g_state (groups sh i) = ROUND_INITIALIZING → g_state (groups sh' i) = ROUND_COLLECTING →
    initialising c = true ∧ forward_seq (groups sh' i) = next_seq c;
  fa_closed : ROUND_IDLE < g_state (groups sh' i) → ROUND_IDLE < g_state (groups sh i) ∨ entering c = true;
  fa_slot q : q ≠ r → workers (groups sh' i) q = workers (groups sh i) q;
  fa_enter : entering c' = true → entering c = true ∨ c_pc c = PIdle;
  fa_opened : opened c = true → opened c' = true;
  fa_done : g_state (groups sh i) = ROUND_INITIALIZING → opened c' = true → c_failed c' = false →
    opened c = true ∧ rounds_done c' = rounds_done c;
  fa_next : initialising c' = true → next_seq c' = next_seq c
    ∧ (initialising c = true ∨ g_state (groups sh i) = ROUND_IDLE ∧ forward_seq (groups sh i) = next_seq c - 1 ∧ entering c = true);
  fa_unfailed : c_failed c' = false → c_failed c = false;
  fa_tidy : tidy (expected_mask sh) (groups sh' i);
  fa_ready : c_pc c' = EPublish → c_pc c = EPublish ∨ Z.testbit (ready_mask (groups sh i)) r = false;
  fa_complete : c_pc c' = LPublish → c_pc c = LPublish ∨ Z.testbit (complete_mask (groups sh i)) r = false;
  fa_coord : g_state (groups sh i) = ROUND_RUNNING → owner sh ≠ i → complete_mask (groups sh i) = 0 →
    g_state (groups sh' i) = ROUND_RUNNING ∧ complete_mask (groups sh' i) = 0;
}.

Lemma opened_set c : opened c = true → pid_set (c_pc c) = true ∧ session_set (c_pc c) = true ∧ past_open c = true.
Proof. unfold past_open, opened, session_set, pid_set. by destruct (c_pc c). Qed.

Lemma past_open_opened c : opened c = true → past_open c = true.
Proof. unfold past_open. by intros ->. Qed.

Lemma slot_goto s c p :
  slot_ok s c → opened c = true → (seq_set (goto c p) = true → seq_set c = true) → slot_ok s (goto c p).
Proof. intros [S1 S2 S3] Ho Hs. destruct (opened_set c Ho) as (H1 & H2 & _). split; cbn; auto. Qed.

Lemma fits_goto g r c p :
  fits g r c → opened c = true → opened (goto c p) = true →
  (joined (goto c p) || entering (goto c p)) = (joined c || entering c) →
  (seq_set (goto c p) = true → seq_set c = true) → tokens g (goto c p) → fits g r (goto c p).
Proof.
  intros [F1 F2 F3 F4 F5 F6] Ho Ho' Hj Hs Ht. destruct (opened_set c Ho) as (H1 & H2 & H3). split; try done.
  - by apply slot_goto.
  - auto.
  - congruence.
  - intros _. specialize (F6 Ho). unfold numbered, rounds_done in *. rewrite Hj. exact F6.
Qed.

Lemma groups_on_group sh i f : groups (on_group sh i f) i = f (groups sh i).
Proof. unfold on_group, set_group, upd. cbn. by rewrite Z.eqb_refl. Qed.

Lemma groups_on_other sh i j f : j ≠ i → groups (on_group sh i f) j = groups sh j.
Proof. intros Hj. unfold on_group, set_group, upd. cbn. by rewrite (proj2 (Z.eqb_neq _ _)). Qed.

(** Case analysis on the tests of the goal. *)
Ltac tests := match goal with |- context [if ?b then _ else _] => destruct b eqn:? end.

Section acting.
Context (now i r : Z) (sh : shared_state) (c : ps_context).
Abbreviation g := (groups sh i).
Abbreviation E := (expected_mask sh).
Hypothesis Hr : 0 ≤ r < 64.
Hypothesis Hbit : Z.testbit E r = true.
Hypothesis Hg : group_ok (view_of sh i).
Hypothesis Hw : worker_ok (view_of sh i) r c.
Hypothesis Hf : c_failed c = false.
Hypothesis Hfit : fits g r c.
Hypothesis Ht : tidy E g.

(** Steps that only load. *)
Lemma fence_load c' :
  (c_failed c' = false → fits g r c') → (∀ reason, c_pc c' = PFail reason → genuine reason = true) →
  (entering c' = true → entering c = true ∨ c_pc c = PIdle) → (opened c = true → opened c' = true) →
  (g_state g = ROUND_INITIALIZING → opened c' = true → c_failed c' = false → opened c = true ∧ rounds_done c' = rounds_done c) →
  initialising c' = false → c_pc c' ≠ EPublish → c_pc c' ≠ LPublish → fence_acts i r sh sh c c'.
Proof.
  intros H1 H2 H3 H4 H5 H6 H7 H8. split; try done; try (consts; lia); try congruence.
Qed.

Lemma fence_goto p :
  opened c = true → opened (goto c p) = true → (joined (goto c p) || entering (goto c p)) = (joined c || entering c) →
  (entering (goto c p) = true → entering c = true) →
  (seq_set (goto c p) = true → seq_set c = true) → tokens g (goto c p) →
  initialising (goto c p) = false → p ≠ EPublish → p ≠ LPublish → (∀ reason, p ≠ PFail reason) →
  fence_acts i r sh sh c (goto c p).
Proof.
  intros Ho Ho' Hj He Hs Htk Hi Hp1 Hp2 Hp3. apply fence_load; auto.
  - intros _. by apply fits_goto.
  - intros reason Hp. by destruct (Hp3 reason).
  - intros _ _ _. split; [done|]. unfold rounds_done. by rewrite Hj.
Qed.

Lemma fence_fail reason : genuine reason = true → fence_acts i r sh sh c (fail_with c reason).
Proof. intros Hgn. apply fence_load; try done. cbn. intros ? [= ->]. done. Qed.

(** [ps_open]. *)
Lemma fence_open_load p :
  opened c = false → opened (goto c p) = false → (session_set p = true → session_set (c_pc c) = true) →
  (pid_set p = true → pid_set (c_pc c) = true) → (past_open (goto c p) = true → g_state g ≠ ROUND_OFFLINE) →
  tokens g (goto c p) → (∀ reason, p ≠ PFail reason) → fence_acts i r sh sh c (goto c p).
Proof.
  intros Ho Ho' Hss Hps Hon Htk Hp3. pose proof Hfit as [F1 [S1 S2 S3] F3 F4 F5 F6].
  assert (joined (goto c p) = false ∧ entering (goto c p) = false ∧ initialising (goto c p) = false
    ∧ p ≠ EPublish ∧ p ≠ LPublish ∧ seq_set (goto c p) = false) as (Hj & He & Hi & Hp1 & Hp2 & Hsq).
  { unfold opened in Ho'. unfold seq_set, joined, entering, initialising. cbn in *. by destruct p. }
  apply fence_load; auto; try congruence.
  - intros _. split; auto; [|congruence]. split; cbn; auto. congruence.
  - intros reason Hp. by destruct (Hp3 reason).
Qed.

(** A store to the worker's own slot. *)
Lemma fence_slot_store f p :
  (entering (goto c p) = true → entering c = true) → opened (goto c p) = opened c →
  (joined (goto c p) || entering (goto c p)) = (joined c || entering c) →
  (past_open (goto c p) = true → past_open c = true) → slot_ok (f (workers g r)) (goto c p) → tokens g (goto c p) →
  initialising (goto c p) = false → p ≠ EPublish → p ≠ LPublish → (∀ reason, p ≠ PFail reason) →
  fence_acts i r sh (on_slot sh i r f) c (goto c p).
Proof.
  intros He Ho Hj Hpo Hso Htk Hi Hp1 Hp2 Hp3. pose proof Hfit as [F1 F2 F3 F4 F5 F6]. unfold on_slot.
  split; rewrite ?groups_on_group; cbn [g_set_slot grant_id g_state workers forward_seq complete_mask];
    try done; try (consts; lia); try congruence; try (intros; left; auto; done).
  - intros _. split; rewrite ?Ho; auto; cbn; unfold upd; rewrite ?Z.eqb_refl; try done.
    intros H. specialize (F6 H). unfold numbered, rounds_done in *. rewrite Hj. exact F6.
  - intros reason Hp. by destruct (Hp3 reason).
  - intros q Hq. unfold upd. by rewrite (proj2 (Z.eqb_neq _ _)).
  - intros _ H _. split; [congruence|]. unfold rounds_done. by rewrite Hj.
  - by destruct Ht.
Qed.

(** A worker that does not move. *)
Lemma fence_same : initialising c = false → publishing c = false → fence_acts i r sh sh c c.
Proof.
  intros Hi Hpb. unfold publishing in Hpb. apply fence_load; try done; try (destruct (c_pc c); congruence); [|by left].
  intros reason Hp. pose proof (wo_phase _ _ _ Hw Hf) as Hph. unfold phase in Hph. by rewrite Hp in Hph.
Qed.

Lemma open_fence :
  opened c = false → fence_acts i r sh (open_step now i r sh c).1 c (open_step now i r sh c).2.
Proof.
  intros Ho. pose proof Hfit as [F1 [S1 S2 S3] F3 F4 F5 F6]. pose proof (wo_phase _ _ _ Hw Hf) as Hph. unfold phase in Hph.
  pose proof fence_open_load as Hload. pose proof fence_slot_store as Hslot. pose proof fence_same as Hsame.
  unfold open_step, opened, past_open, initialising, publishing, joined, entering, opened in *.
  destruct (c_pc c) eqn:Hp; try discriminate Ho; cbn [fst snd]; cbn in Hload, Hslot, S1, S2, S3;
    assert (opened c = false) as Hop by (unfold opened; by rewrite Hp).
  - by apply Hsame.
  - by apply Hload.
  - tests; by apply Hload.
  - by apply Hload.
  - tests; by apply Hload.
  - apply Hslot; try done; split; cbn; auto; done.
  - apply Hslot; try done; split; cbn; auto; done.
  - apply Hslot; try done; split; cbn; auto; done.
  - apply Hslot; try done; split; cbn; auto; done.
  - split; rewrite ?groups_on_group; cbn; try done; try (consts; lia); try congruence; try (by left).
    destruct Ht. split; cbn; auto. by apply ldiff_lor_bit.
  - tests; to_prop; by apply Hload.
  - specialize (F5 eq_refl). destruct (_ =? ROUND_OFFLINE) eqn:Es; to_prop.
    + split; rewrite ?groups_on_group; cbn; try done; try (consts; lia); try congruence; try (by left).
      destruct Ht. split; cbn; auto. consts. lia.
    + by apply Hload.
  - specialize (F4 eq_refl). specialize (F5 eq_refl). assert (g_state g = ROUND_IDLE) as Hst.
    { pose proof (go_state _ Hg) as H. as_groups H. consts. lia. }
    apply fence_load; cbn; try done; [|rewrite Hst; consts; lia]. intros _. split; cbn; try done.
    + split; cbn; auto. unfold seq_set, joined. cbn. rewrite Hph. done.
    + intros _. unfold numbered, rounds_done, joined, entering. cbn. rewrite Hph, Hst. consts. cbn. lia.
Qed.

(** [ps_enter_forward]. *)
Hypothesis Hrun : is_running (sh_status sh) = true.

Lemma not_joined_collecting :
  entering c = true → g_state g ≠ ROUND_IDLE → g_state g ≠ ROUND_INITIALIZING → g_state g ≠ ROUND_DRAINING →
  g_state g = ROUND_COLLECTING.
Proof.
  intros He H1 H2 H3. assert (joined c = false ∧ opened c = true) as [Hj Ho].
  { unfold entering, joined, opened in *. by destruct (c_pc c). }
  destruct (opened_set c Ho) as (_ & _ & Hpo). pose proof (ft_online _ _ _ Hfit Hpo) as H0.
  pose proof (go_state _ Hg) as Hst. as_groups Hst. consts.
  destruct (decide (g_state g = 3)) as [|H4]; [done|]. pose proof (wo_apart _ _ _ Hw Hj Hf) as Hb. as_groups Hb.
  pose proof (go_ready _ Hg) as Hrd. as_groups Hrd. consts. rewrite Hrd in Hb by lia. rewrite Hbit in Hb.
  discriminate Hb. lia.
Qed.

Lemma claim_fence : c_pc c = EClaim → fence_acts i r sh (enter_step now i r sh c).1 c (enter_step now i r sh c).2.
Proof.
  intros Hp. pose proof Hfit as [F1 F2 F3 F4 F5 F6]. unfold enter_step. rewrite Hp. tests; to_prop; cbn [fst snd].
  - split; rewrite ?groups_on_group; cbn; unfold entering, opened, initialising; rewrite ?Hp; try done; try (consts; lia); try (intros; left; done).
    + intros _. split; cbn; auto; try (consts; lia); try done.
      * apply slot_goto; try done. unfold opened. by rewrite Hp.
      * intros _. unfold numbered. cbn. consts. lia.
    + intros _. split; [done|]. right. split; [done|]. destruct F6 as (N1 & _); [unfold opened; by rewrite Hp|].
      specialize (N1 ltac:(done)). unfold rounds_done, joined, entering in N1. rewrite Hp in N1. cbn in N1. split; [lia|done].
    + destruct Ht. split; cbn; auto. consts. lia.
  - apply fence_goto; try done; unfold joined, entering, opened, seq_set; rewrite ?Hp; done.
Qed.

(** After a store of the worker that opens a round, other than the last one. *)
Lemma init_fence k : c_pc c = EInit k → fence_acts i r sh (enter_step now i r sh c).1 c (enter_step now i r sh c).2.
Proof.
  intros Hp. pose proof Hfit as [F1 F2 F3 F4 F5 F6]. pose proof (wo_phase _ _ _ Hw Hf) as Hph.
  unfold phase in Hph. rewrite Hp in Hph. destruct Hph as (Ha & Hn & Hst & Hsq & Hrd & Hcm). as_groups Hst. as_groups Hsq.
  unfold tokens in F1. rewrite Hp in F1. unfold enter_step. rewrite Hp. cbn [fst snd].
  assert (opened c = true ∧ initialising c = true ∧ entering c = true ∧ joined c = false) as (Ho & Hi & He & Hj)
    by (unfold opened, initialising, entering, joined; by rewrite Hp).
  assert (∀ p, (joined (goto c p) || entering (goto c p)) = true → rounds_done (goto c p) = rounds_done c) as Hd
    by (intros p H; unfold rounds_done; by rewrite H, Hj, He).
  assert (∀ s p, slot_ok s c → seq_set (goto c p) = false → slot_ok s (goto c p)) as Hsl
    by (intros s p H1 H2; apply slot_goto; [done..|congruence]).
  destruct (6 <=? k)%nat eqn:Ek.
  - assert (6 ≤ k)%nat as Hk by (by apply Nat.leb_le).
    assert (init_store now (next_seq c) k g = g_set_state g ROUND_COLLECTING) as Hstore
      by (do 6 (destruct k as [|k]; [lia|]); done).
    split; rewrite ?groups_on_group, ?Hstore; cbn; try done; try (consts; lia); try (intros; left; done).
    + intros _. split; cbn; auto; try done. intros _. unfold numbered. cbn. rewrite Hd by done.
      unfold rounds_done. rewrite Hj, He. cbn. consts. rewrite Hsq by lia. lia.
    + intros _ _. split; [done|]. apply Hsq. lia.
    + intros _ _ _. split; [done|]. by apply Hd.
    + destruct Ht. split; cbn; auto. intros _. apply F1. lia.
  - assert (k < 6)%nat as Hk by (by apply Nat.leb_gt).
    assert (g_state (init_store now (next_seq c) k g) = ROUND_INITIALIZING) as Hs' by (by destruct k as [|[|[|[|[|[|]]]]]]; try lia).
    assert (workers (init_store now (next_seq c) k g) = workers g) as Hwk by (by destruct k as [|[|[|[|[|[|]]]]]]; try lia).
    split; rewrite ?groups_on_group; rewrite ?Hs', ?Hwk; cbn; try done; try (consts; lia); try (intros; left; done).
    + intros _. split; rewrite ?Hs', ?Hwk; cbn; auto; try done.
      * destruct k as [|[|[|[|[|[|]]]]]]; try lia; cbn; intros; auto; try (apply F1; lia); lia.
      * intros _. unfold numbered. rewrite Hs'. consts. lia.
    + congruence.
    + intros _ _ _. split; [done|]. by apply Hd.
    + intros _. split; [done|by left].
    + destruct Ht. clear F4 F5. rewrite Hst in *.
      destruct k as [|[|[|[|[|[|]]]]]]; try lia; split; cbn; auto; try (apply Z.ldiff_0_l); rewrite ?Hst; consts; lia.
Qed.

Lemma ready_fence : c_pc c = EReady → fence_acts i r sh (enter_step now i r sh c).1 c (enter_step now i r sh c).2.
Proof.
  intros Hp. pose proof Hfit as [F1 F2 F3 F4 F5 F6]. pose proof (wo_phase _ _ _ Hw Hf) as Hph.
  unfold phase in Hph. rewrite Hp in Hph. destruct Hph as (Ha & Hn & Hst & Hsq). as_groups Hst. as_groups Hsq.
  assert (opened c = true ∧ entering c = true ∧ joined c = false) as (Ho & He & Hj)
    by (unfold opened, entering, joined; by rewrite Hp).
  destruct (opened_set c Ho) as (_ & _ & Hpo).
  assert (Z.testbit (ready_mask g) r = false) as Hb.
  { pose proof (wo_apart _ _ _ Hw Hj Hf) as H. as_groups H. apply H. rewrite Hst. consts. lia. }
  unfold enter_step. rewrite Hp. rewrite land_bit, Hb by done. cbn [fst snd negb].
  assert (∀ p, p = EPublish ∨ p = EWait → fits (g_set_ready g (Z.lor (ready_mask g) (bit r))) r (goto c p)) as Hown.
  { intros p Hq. assert (opened (goto c p) = true ∧ joined (goto c p) = true ∧ entering (goto c p) = false) as (Ho' & Hj' & He')
      by (destruct Hq as [-> | ->]; done).
    split; cbn; auto; [destruct Hq as [-> | ->]; done| | |].
    - apply slot_goto; try done. intros _. unfold seq_set. rewrite Hp. apply orb_true_r.
    - congruence.
    - intros _. specialize (F6 Ho). unfold numbered, rounds_done in *. rewrite Hj', He', Hj, He in *. exact F6. }
  assert (∀ p, p = EPublish ∨ p = EWait →
    fence_acts i r sh (on_group sh i (λ g, g_set_ready g (Z.lor (ready_mask (groups sh i)) (bit r)))) c (goto c p)) as Hall.
  { intros p Hq. split; rewrite ?groups_on_group; cbn; try done; try (consts; lia); auto.
    all: try (destruct Hq as [-> | ->]; done).
    destruct Ht. split; cbn; auto. by apply ldiff_lor_bit. }
  tests; apply Hall; auto.
Qed.

Lemma publish_fence : c_pc c = EPublish → fence_acts i r sh (enter_step now i r sh c).1 c (enter_step now i r sh c).2.
Proof.
  intros Hp. pose proof Hfit as [F1 F2 F3 F4 F5 F6]. unfold tokens in F1. rewrite Hp in F1.
  assert (opened c = true ∧ entering c = false ∧ joined c = true) as (Ho & He & Hj)
    by (unfold opened, entering, joined; by rewrite Hp).
  unfold enter_step. rewrite Hp, F1. cbn [Z.eqb fst snd]. cbn.
  split; rewrite ?groups_on_group; cbn; try done; try (consts; lia); try (intros; left; done).
  - intros _. split; cbn; auto; try done.
    + apply slot_goto; try done. intros _. unfold seq_set. by rewrite Hj.
    + intros _. destruct (F6 Ho) as (N1 & N2 & N3). unfold numbered, rounds_done in *. cbn. rewrite Hj, He in *. consts.
      split_and!; intros; try lia. apply N2. lia.
  - unfold publishing. by rewrite Hp.
  - destruct Ht. split; cbn; auto. intros _. apply ti_grant0. rewrite F1. consts. lia.
Qed.

Lemma valid_fence k gr : c_pc c = EValid k gr → fence_acts i r sh (enter_step now i r sh c).1 c (enter_step now i r sh c).2.
Proof.
  intros Hp. pose proof Hfit as [F1 F2 F3 F4 F5 F6]. unfold tokens in F1. rewrite Hp in F1. destruct F1 as [Hg0 Hgr].
  pose proof (wo_phase _ _ _ Hw Hf) as Hph. unfold phase in Hph. rewrite Hp in Hph. destruct Hph as (Ha & Hn & Hgrd).
  assert (opened c = true ∧ entering c = false ∧ joined c = true) as (Ho & He & Hj)
    by (unfold opened, entering, joined; by rewrite Hp).
  destruct F2 as [S1 S2 S3]. destruct (opened_set c Ho) as (H1 & H2 & _). specialize (S1 H1). specialize (S2 H2).
  assert (slot_last_seq (workers g r) = next_seq c) as Hls by (apply S3; unfold seq_set; by rewrite Hj).
  unfold enter_step. rewrite Hp. cbn [fst snd].
  assert (slot_matches c (workers g r) (next_seq c) k = true) as ->
    by (unfold slot_matches; destruct k as [|[|]]; by apply Z.eqb_eq).
  assert ((next_seq c =? 0) = false) as Hn0 by (apply Z.eqb_neq; lia). tests.
  - apply fence_load; cbn; try done.
    + intros _. split; cbn; auto; try done.
      * destruct (opened_set c Ho) as (_ & _ & Hpo). auto.
      * intros _. specialize (F6 Ho). unfold numbered, rounds_done, joined, entering in *. cbn. rewrite Hp, Hn0 in *. exact F6.
    + intros _ _ _. split; [done|]. unfold rounds_done. rewrite Hj. unfold joined. cbn. by rewrite Hn0.
  - apply fence_goto; try done; unfold seq_set; by rewrite ?Hj, ?He.
Qed.

(** A load within a call that keeps the worker's place in the round. *)
Definition placed (p : pc) : Prop :=
  opened (goto c p) = true ∧ (joined (goto c p) || entering (goto c p)) = (joined c || entering c)
  ∧ (entering (goto c p) = true → entering c = true) ∧ (seq_set (goto c p) = true → seq_set c = true)
  ∧ initialising (goto c p) = false ∧ p ≠ EPublish ∧ p ≠ LPublish ∧ (∀ reason, p ≠ PFail reason).

Ltac place Hp := unfold placed, seq_set, joined, entering; by rewrite Hp.

Lemma fence_placed p : opened c = true → placed p → tokens g (goto c p) → fence_acts i r sh sh c (goto c p).
Proof. intros Ho (H1 & H2 & H3 & H4 & H5 & H6 & H7 & H8) Htk. by apply fence_goto. Qed.

Lemma enter_fence :
  is_enter (c_pc c) = true → fence_acts i r sh (enter_step now i r sh c).1 c (enter_step now i r sh c).2.
Proof.
  intros Hset. pose proof Hfit as [F1 F2 F3 F4 F5 F6]. pose proof (wo_phase _ _ _ Hw Hf) as Hph.
  destruct (c_pc c) eqn:Hp; try discriminate Hset; clear Hset.
  3: by apply claim_fence.
  3: by eapply init_fence.
  5: by apply ready_fence.
  5: by apply publish_fence.
  all: try (eapply valid_fence; eassumption).
  all: assert (opened c = true) as Ho by (unfold opened; by rewrite Hp).
  all: unfold phase in Hph; unfold tokens in F1; rewrite Hp in Hph, F1; as_groups Hph; unfold enter_step; rewrite Hp; cbn [fst snd].
  - rewrite Hrun. apply fence_placed; [done|place Hp|done].
  - destruct (g_state g =? ROUND_IDLE) eqn:E1; to_prop.
    { apply fence_placed; [done|place Hp|done]. }
    destruct (_ || _) eqn:E2.
    { apply fence_same; unfold initialising, publishing; by rewrite Hp. }
    apply orb_false_iff in E2 as [E2%Z.eqb_neq E3%Z.eqb_neq].
    apply fence_placed; [done|place Hp|].
    apply not_joined_collecting; try done. unfold entering. by rewrite Hp.
  - rewrite F1 in *. destruct Hph as (Ha & Hn & Hst). specialize (Hst eq_refl). destruct (F6 Ho) as (_ & N2 & _).
    unfold rounds_done, joined, entering in N2. rewrite Hp in N2. cbn in N2. rewrite Hst in N2.
    rewrite (proj2 (Z.eqb_eq (forward_seq g) _)) by (consts; lia). cbn.
    apply fence_placed; [done|place Hp|done].
  - apply fence_slot_store; rewrite ?past_open_opened, ?Ho by done; unfold joined, entering; rewrite ?Hp; try done.
    destruct F2 as [S1 S2 S3]. rewrite Hp in S1, S2. by split.
  - rewrite Hrun. apply fence_placed; [done|place Hp|done].
  - tests; [by apply fence_fail|].
    apply fence_placed; [done|place Hp|done].
  - apply fence_placed; [done|place Hp|]. apply Hph.
  - apply fence_placed; [done|place Hp|].
    destruct Hph as (_ & _ & (_ & Hsq & _) & _). by split.
  - apply fence_placed; [done|place Hp|].
    destruct F1 as [H1 H2]. unfold tokens. cbn. tauto.
  - destruct F1 as (H1 & H2 & H3). destruct (_ && _) eqn:E1.
    + apply andb_true_iff in E1 as [_ E1%negb_true_iff%Z.eqb_neq].
      apply fence_placed; [done|place Hp|]. split; [done|by apply H3].
    + destruct (_ || _) eqn:E2.
      * exfalso. rewrite H2, Z.eqb_refl in E2. cbn in E2. apply negb_true_iff in E2. rewrite !orb_false_iff, !Z.eqb_neq in E2.
        consts. lia.
      * apply fence_placed; [done|place Hp|done].
Qed.

(** [ps_leave_forward]. *)
Lemma leave_flags : is_leave (c_pc c) = true → opened c = true ∧ entering c = false.
Proof. unfold opened, entering. by destruct (c_pc c). Qed.

Lemma complete_fence : c_pc c = LComplete → fence_acts i r sh (leave_step now i r sh c).1 c (leave_step now i r sh c).2.
Proof.
  intros Hp. pose proof Hfit as [F1 F2 F3 F4 F5 F6]. pose proof (wo_phase _ _ _ Hw Hf) as Hph.
  unfold phase in Hph. rewrite Hp in Hph. destruct Hph as (Ha & Hst & Hown & Hsq & Hb). as_groups Hst. as_groups Hown. as_groups Hsq. as_groups Hb.
  assert (opened c = true ∧ entering c = false) as (Ho & He) by (unfold opened, entering; by rewrite Hp).
  assert ((active_seq c =? 0) = false) as Ha0 by (by apply Z.eqb_neq).
  assert (joined c = true) as Hj by (unfold joined; by rewrite Hp, Ha0).
  unfold leave_step. rewrite Hp. rewrite land_bit, Hb by done. cbn [fst snd negb]. apply Z.eqb_eq in Hown.
  assert (∀ p, p = LPublish ∨ p = LWait →
    fence_acts i r sh (on_group sh i (λ g, g_set_complete g (Z.lor (complete_mask (groups sh i)) (bit r)))) c (goto c p)) as Hall.
  { intros p Hq. assert (opened (goto c p) = true ∧ joined (goto c p) = true ∧ entering (goto c p) = false) as (Ho' & Hj' & He')
      by (destruct Hq as [-> | ->]; unfold joined; cbn; by rewrite Ha0).
    split; rewrite ?groups_on_group; cbn; try done; try (consts; lia); auto;
      try (destruct Hq as [-> | ->]; done).
    - intros _. split; cbn; auto.
      + by destruct Hq as [-> | ->].
      + apply slot_goto; try done. intros _. unfold seq_set. by rewrite Hj.
      + intros _. apply F4. by apply past_open_opened.
      + congruence.
      + intros _. specialize (F6 Ho). unfold numbered, rounds_done in *. rewrite Hj', Hj in *. exact F6.
    - destruct Ht. split; cbn; auto. by apply ldiff_lor_bit. }
  tests; apply Hall; auto.
Qed.

Lemma completed_fence : c_pc c = LPublish → fence_acts i r sh (leave_step now i r sh c).1 c (leave_step now i r sh c).2.
Proof.
  intros Hp. pose proof Hfit as [F1 F2 F3 F4 F5 F6]. unfold tokens in F1. rewrite Hp in F1.
  pose proof (wo_phase _ _ _ Hw Hf) as Hph. unfold phase in Hph. rewrite Hp in Hph. destruct Hph as (Ha & _ & Hcm). as_groups Hcm.
  assert (opened c = true ∧ entering c = false) as (Ho & He) by (unfold opened, entering; by rewrite Hp).
  unfold leave_step. rewrite Hp, F1. cbn [Z.eqb fst snd]. cbn.
  split; rewrite ?groups_on_group; cbn; try done; try (consts; lia); try (intros; left; done).
  - intros _. split; cbn; auto; try done.
    + apply slot_goto; try done. unfold seq_set, joined. by rewrite Hp.
    + intros _. destruct (F6 Ho) as (N1 & N2 & N3). unfold numbered, rounds_done, joined, entering in *. cbn. rewrite Hp in *.
      consts. split_and!; intros; lia.
  - unfold publishing. by rewrite Hp.
  - destruct Ht. split; cbn; auto. consts. lia.
  - intros _ _ Hc0. rewrite Hc0 in Hcm. by rewrite <- Hcm, Z.bits_0 in Hbit.
Qed.

Lemma exit_fence : c_pc c = LExit → fence_acts i r sh (leave_step now i r sh c).1 c (leave_step now i r sh c).2.
Proof.
  intros Hp. pose proof Hfit as [F1 F2 F3 F4 F5 F6].
  pose proof (wo_phase _ _ _ Hw Hf) as Hph. unfold phase in Hph. rewrite Hp in Hph. destruct Hph as (Ha & (_ & Hsq & Hex) & Hst).
  specialize (Hex Hst). as_groups Hsq. as_groups Hst. as_groups Hex.
  assert (opened c = true ∧ entering c = false) as (Ho & He) by (unfold opened, entering; by rewrite Hp).
  assert ((active_seq c =? 0) = false) as Ha0 by (by apply Z.eqb_neq).
  assert (joined c = true) as Hj by (unfold joined; by rewrite Hp, Ha0).
  unfold leave_step. rewrite Hp. cbn [fst snd]. destruct F2 as [S1 S2 S3]. destruct (opened_set c Ho) as (P1 & P2 & _).
  assert (∀ c', c' = goto c (LClear 0) ∨ c' = with_active (goto c PIdle) 0 0 →
    fence_acts i r sh (on_group sh i (λ g, g_set_exit g (Z.lor (exit_mask (groups sh i)) (bit r)))) c c') as Hall.
  { intros c' Hq. assert (opened c' = true ∧ joined c' = false ∧ entering c' = false ∧ seq_set c' = false
      ∧ next_seq c' = next_seq c ∧ c_failed c' = false) as (Ho' & Hj' & He' & Hs' & Hn' & Hf') by (destruct Hq as [-> | ->]; done).
    split; rewrite ?groups_on_group; cbn; try done; try (consts; lia); auto;
      try (destruct Hq as [-> | ->]; done).
    - intros _. split; cbn; auto; try (destruct Hq as [-> | ->]; done).
      + split; [destruct Hq as [-> | ->]; auto..|congruence].
      + rewrite Hst. consts. lia.
      + intros _. destruct (F6 Ho) as (N1 & N2 & N3). specialize (N3 Hst). unfold numbered, rounds_done in *. cbn.
        rewrite Hj, Hj', He', Hn', Hst, Hex, testbit_lor_bit, Z.eqb_refl, orb_true_r in * by lia. cbn in *. consts. lia.
    - destruct Ht. split; cbn; auto. by apply ldiff_lor_bit. }
  tests; apply Hall; auto.
Qed.

Lemma clear_fence k : c_pc c = LClear k → fence_acts i r sh (leave_step now i r sh c).1 c (leave_step now i r sh c).2.
Proof.
  intros Hp. pose proof Hfit as [F1 F2 F3 F4 F5 F6].
  pose proof (wo_phase _ _ _ Hw Hf) as Hph. unfold phase in Hph. rewrite Hp in Hph. destruct Hph as (Ha & Hst & Hex).
  as_groups Hst. as_groups Hex. assert (opened c = true ∧ entering c = false ∧ joined c = false) as (Ho & He & Hj)
    by (unfold opened, entering, joined; by rewrite Hp).
  assert (rounds_done c = forward_seq g) as Hd.
  { destruct (F6 Ho) as (_ & _ & N3). rewrite N3, Hex, Hbit by done. lia. }
  unfold leave_step. rewrite Hp. cbn [fst snd]. destruct F2 as [S1 S2 S3]. destruct (opened_set c Ho) as (P1 & P2 & _).
  destruct (4 <=? k)%nat eqn:Ek.
  - assert (4 ≤ k)%nat as Hk by (by apply Nat.leb_le).
    assert (clear_store k g = g_set_state g ROUND_IDLE) as Hstore by (do 4 (destruct k as [|k]; [lia|]); done).
    split; rewrite ?groups_on_group, ?Hstore; cbn; try done; try (consts; lia); try (intros; left; done).
    + intros _. split; cbn; auto; try done; [split; cbn; auto; done|]. intros _. unfold numbered. cbn.
      unfold rounds_done in Hd. rewrite Hj, He in Hd. unfold rounds_done, joined, entering. cbn in *. consts. lia.
    + destruct Ht. split; cbn; auto. consts. lia.
  - assert (k < 4)%nat as Hk by (by apply Nat.leb_gt).
    assert (g_state (clear_store k g) = ROUND_DRAINING ∧ exit_mask (clear_store k g) = exit_mask g
      ∧ forward_seq (clear_store k g) = forward_seq g ∧ workers (clear_store k g) = workers g) as (Hs' & Hx' & Hq' & Hwk)
      by (destruct k as [|[|[|[|]]]]; try lia; done).
    split; rewrite ?groups_on_group; rewrite ?Hs', ?Hwk; cbn; try done; try (consts; lia); try (intros; left; done).
    + intros _. split; rewrite ?Hs', ?Hwk; cbn; auto; try done; [split; cbn; auto; done|]. intros _.
      unfold numbered, rounds_done in *. rewrite Hs', Hx', Hq', Hex, Hbit. rewrite Hj, He in Hd. cbn in *. consts. lia.
    + destruct Ht. clear F4 F5 F6 Hd. rewrite Hst in *.
      destruct k as [|[|[|[|]]]]; try lia; split; cbn; auto; try (apply Z.ldiff_0_l); rewrite ?Hst; consts; lia.
Qed.

Lemma leave_fence :
  is_leave (c_pc c) = true → fence_acts i r sh (leave_step now i r sh c).1 c (leave_step now i r sh c).2.
Proof.
  intros Hset. pose proof Hfit as [F1 F2 F3 F4 F5 F6]. pose proof (wo_phase _ _ _ Hw Hf) as Hph.
  destruct (leave_flags Hset) as [Ho _].
  destruct (c_pc c) eqn:Hp; try discriminate Hset; clear Hset.
  8: by apply complete_fence.
  8: by apply completed_fence.
  11: by apply exit_fence.
  11: by eapply clear_fence.
  all: unfold phase in Hph; unfold tokens in F1; rewrite Hp in Hph, F1; unfold granted, completed in Hph; as_groups Hph; unfold leave_step; rewrite Hp; cbn [fst snd].
  - apply fence_placed; [done|place Hp|done].
  - rewrite Hrun. cbn [negb]. destruct F1 as (T1 & T2 & T3 & T4 & T5). destruct (_ && _); [by apply fence_fail|].
    rewrite T2, T3, !Z.eqb_refl. apply fence_placed; [done|place Hp|]. by split_and!.
  - destruct F1 as (T1 & T2 & T3 & T4 & T5). destruct Hph as (_ & Hgr). destruct (Hgr T1) as (G1 & G2 & G3 & G4).
    rewrite G2. apply fence_placed; [done|place Hp|]. by split_and!.
  - destruct F1 as (T1 & T2 & T3 & T4 & T5). destruct Hph as (_ & _ & Hgr). destruct (Hgr T1) as (G1 & G2 & G3 & G4).
    rewrite G3, T2, Z.eqb_refl. apply fence_placed; [done|place Hp|]. by split_and!.
  - destruct F1 as (T1 & T2 & T3 & T4 & T5). rewrite T3, T5, Z.eqb_refl. by apply fence_placed; [done|place Hp|].
  - destruct Hph as (_ & _ & G1 & _). rewrite G1. by apply fence_placed; [done|place Hp|].
  - destruct Hph as (_ & Ha & _). destruct F2 as [S1 S2 S3]. destruct (opened_set c Ho) as (P1 & P2 & _).
    assert (slot_last_seq (workers g r) = seq) as Hls.
    { rewrite F1, F3 by done. apply S3. unfold seq_set, joined. rewrite Hp, (proj2 (Z.eqb_neq _ _)) by done. done. }
    assert (slot_matches c (workers g r) seq k = true) as ->
      by (unfold slot_matches; destruct k as [|[|]]; apply Z.eqb_eq; auto).
    tests; by apply fence_placed; [done|place Hp|].
  - rewrite Hrun. apply fence_placed; [done|place Hp|done].
  - apply fence_placed; [done|place Hp|]. apply Hph.
  - destruct Hph as (_ & (_ & Hsq & _) & _). rewrite Hsq, Z.eqb_refl, andb_true_r. cbn [negb orb].
    tests; [by apply fence_placed; [done|place Hp|]|]. to_prop. tests; [|by apply fence_placed; [done|place Hp|]].
    exfalso. match goal with H : negb _ = true |- _ => apply negb_true_iff in H; rewrite !orb_false_iff, !Z.eqb_neq in H end.
    consts. lia.
Qed.
End acting.

(** ** The system *)

Definition ready_publisher (c : ps_context) : bool := match c_pc c with EPublish => true | _ => false end.
Definition complete_publisher (c : ps_context) : bool := match c_pc c with LPublish => true | _ => false end.

(** The coordinator: it has found nothing wrong, and the group that it grants is untouched. *)
Definition ungranted (g : instance_group) : Prop :=
  g_state g = ROUND_RUNNING ∧ grant_id g = 0 ∧ complete_mask g = 0.
Definition calm (sh : shared_state) (p : cpc) : Prop :=
  match p with
  | CValid i _ bad => instance i ∧ bad = false
  | CFail reason _ => genuine reason = true
  | CDGrant _ s => ungranted (groups sh s)
  | CDSetGrant _ s gr => ungranted (groups sh s) ∧ 1 ≤ gr
  | _ => True
  end.

Record Fence (w : world) : Prop := {
  fc_worker i r : rank_of (worker_count (memory w)) i r → c_failed (ctxs w i r) = false →
    fits (groups (memory w) i) r (ctxs w i r);
  fc_fail i r reason : rank_of (worker_count (memory w)) i r → c_pc (ctxs w i r) = PFail reason → genuine reason = true;
  fc_open i r q : rank_of (worker_count (memory w)) i r → rank_of (worker_count (memory w)) i q →
    entering (ctxs w i r) = true → opened (ctxs w i q) = true;
  fc_init i r q : rank_of (worker_count (memory w)) i r → rank_of (worker_count (memory w)) i q →
    initialising (ctxs w i r) = true → c_failed (ctxs w i q) = false → rounds_done (ctxs w i q) = next_seq (ctxs w i r) - 1;
  fc_tidy i : instance i → tidy (expected_mask (memory w)) (groups (memory w) i);
  fc_ready : alone (worker_count (memory w)) (ctxs w) ready_publisher;
  fc_complete : alone (worker_count (memory w)) (ctxs w) complete_publisher;
  fc_coord : calm (memory w) (coord w);
  fc_next : 0 ≤ next_grant_id (memory w);
}.

Lemma worker_next_grant now i r sh c : next_grant_id (worker_step now i r sh c).1 = next_grant_id sh.
Proof.
  unfold worker_step, open_step, enter_step, leave_step, fail_pair, on_slot, on_group.
  destruct (c_pc c); cbn [fst]; try done; destruct (_ =? _); done.
Qed.

Lemma worker_groups now i r sh c j : j ≠ i → groups (worker_step now i r sh c).1 j = groups sh j.
Proof.
  intros Hj. unfold worker_step, open_step, enter_step, leave_step, fail_pair, on_slot.
  destruct (c_pc c); cbn [fst]; rewrite ?groups_on_other by done; try done; destruct (_ =? _); cbn [fst];
    rewrite ?groups_on_other by done; done.
Qed.

(** Any worker of the group that acts keeps the ranks of the others. *)
Lemma fence_rely w i r sh c q :
  Inv w → Fence w → rank_of (worker_count (memory w)) i r → rank_of (worker_count (memory w)) i q → q ≠ r →
  c_failed (ctxs w i q) = false →
  acts (worker_count (memory w)) i r (memory w) sh (ctxs w i r) c → fence_acts i r (memory w) sh (ctxs w i r) c →
  fits (groups sh i) q (ctxs w i q).
Proof.
  intros HI HF Hir Hiq Hne Hf HA HFA. pose proof (inv_worker _ HI i q Hiq) as Hwq. pose proof (fc_worker _ HF i q Hiq Hf) as Hfq.
  assert (initialising (ctxs w i r) = true → initialising (ctxs w i q) = false) as Hini by (by apply (inv_init _ HI)).
  apply (fits_rely (memory w)); try done; [apply testbit_expected; [apply HI|apply Hiq]|apply (inv_group _ HI), Hir|]. split.
  - apply (ac_change _ _ _ _ _ _ _ HA); try done; [apply Hiq|]. by apply (inv_clear _ HI).
  - intros Hst _. by apply (fa_grant _ _ _ _ _ _ HFA).
  - intros Hi. apply (fa_init _ _ _ _ _ _ HFA); [by apply (initialising_state (view_of (memory w) i) q (ctxs w i q))|].
    destruct (initialising (ctxs w i r)); [|done]. by rewrite Hini in Hi.
  - intros Hp. apply (fa_publish _ _ _ _ _ _ HFA).
    + pose proof (ft_tokens _ _ _ Hfq) as Htk. unfold publishing, tokens in *. destruct (c_pc (ctxs w i q)); auto; done.
    + destruct (publishing (ctxs w i r)) eqn:E; [|done]. exfalso.
      pose proof (fc_ready _ HF i q r Hiq Hir ltac:(done)) as H1. pose proof (fc_complete _ HF i q r Hiq Hir ltac:(done)) as H2.
      pose proof (ft_tokens _ _ _ Hfq) as Htk. assert (c_failed (ctxs w i r) = false) as Hfr.
      { destruct (c_failed (ctxs w i r)) eqn:Hfr; [|done]. destruct (wo_stuck _ _ _ (inv_worker _ HI i r Hir) Hfr) as [Hs _].
        unfold publishing in E. by destruct (c_pc (ctxs w i r)). }
      pose proof (ft_tokens _ _ _ (fc_worker _ HF i r Hir Hfr)) as Htr.
      unfold publishing, tokens, ready_publisher, complete_publisher in *.
      destruct (c_pc (ctxs w i q)), (c_pc (ctxs w i r)); try done; consts; first [lia|by (discriminate H1 || discriminate H2)|naive_solver].
  - intros H1 H2. destruct (fa_collect _ _ _ _ _ _ HFA H1 H2) as [Hi ->]. by apply (fc_init _ HF i r q).
  - intros Ho. pose proof (ft_closed _ _ _ Hfq Ho) as Hcl. destruct (Z.le_gt_cases (g_state (groups sh i)) ROUND_IDLE) as [|Hgt]; [done|].
    destruct (fa_closed _ _ _ _ _ _ HFA Hgt) as [|He]; [lia|]. by rewrite (fc_open _ HF i r q) in Ho.
  - by rewrite (fa_slot _ _ _ _ _ _ HFA q).
Qed.

Lemma publisher_full w i q :
  Inv w → rank_of (worker_count (memory w)) i q →
  (ready_publisher (ctxs w i q) = true → ready_mask (groups (memory w) i) = expected_mask (memory w))
  ∧ (complete_publisher (ctxs w i q) = true → complete_mask (groups (memory w) i) = expected_mask (memory w)).
Proof.
  intros HI Hiq. pose proof (inv_worker _ HI i q Hiq) as Hw. unfold ready_publisher, complete_publisher.
  destruct (c_failed (ctxs w i q)) eqn:Hf.
  - destruct (wo_stuck _ _ _ Hw Hf) as [Hs _]. by destruct (c_pc (ctxs w i q)).
  - pose proof (wo_phase _ _ _ Hw Hf) as Hph. unfold phase in Hph. destruct (c_pc (ctxs w i q)); naive_solver.
Qed.

(** The rounds finished by the others, as the worker that opens a round sees them. *)
Lemma init_acting w i r sh c p q :
  Inv w → Fence w → rank_of (worker_count (memory w)) i r → rank_of (worker_count (memory w)) i p →
  rank_of (worker_count (memory w)) i q → fence_acts i r (memory w) sh (ctxs w i r) c →
  let f := set_ctx (ctxs w) i r c in
  initialising (f i p) = true → c_failed (f i q) = false → rounds_done (f i q) = next_seq (f i p) - 1.
Proof.
  intros HI HF Hir Hip Hiq HFA f Hi Hf.
  assert (∀ d, initialising d = true → entering d = true ∧ rounds_done d = next_seq d - 1) as Hself.
  { intros d. unfold initialising, rounds_done, entering, joined. destruct (c_pc d); try done. }
  destruct (Hself _ Hi) as [He Hd]. unfold f in *. destruct (decide (q = p)) as [->|Hqp]; [done|]. clear Hd.
  destruct (decide (p = r)) as [->|Hpr].
  - rewrite set_ctx_same in *. rewrite set_ctx_other in * by naive_solver.
    destruct (fa_next _ _ _ _ _ _ HFA Hi) as [-> [Hi'|(Hst & Hsq & Hen)]]; [by apply (fc_init _ HF i r q)|].
    assert (opened (ctxs w i q) = true) as Ho by (by apply (fc_open _ HF i r q)).
    destruct (ft_number _ _ _ (fc_worker _ HF i q Hiq Hf) Ho) as (N1 & _). rewrite N1 by done. done.
  - rewrite (set_ctx_other _ _ _ _ i p) in * by naive_solver.
    pose proof (initialising_state _ _ _ (inv_worker _ HI i p Hip) Hi) as Hst. as_groups Hst.
    destruct (decide (q = r)) as [->|Hqr].
    + rewrite set_ctx_same in *. assert (opened (ctxs w i r) = true) as Ho by (by apply (fc_open _ HF i p r)).
      destruct (fa_done _ _ _ _ _ _ HFA Hst (fa_opened _ _ _ _ _ _ HFA Ho) Hf) as [_ ->].
      apply (fc_init _ HF i p r); try done. by apply (fa_unfailed _ _ _ _ _ _ HFA).
    + rewrite set_ctx_other in * by naive_solver. by apply (fc_init _ HF i p q).
Qed.

(** A step of a worker, or a call that starts, with its effect on its own instance. *)
Lemma fence_acting w i r sh c :
  Inv w → Fence w → rank_of (worker_count (memory w)) i r →
  acts (worker_count (memory w)) i r (memory w) sh (ctxs w i r) c → fence_acts i r (memory w) sh (ctxs w i r) c →
  frame i (memory w) sh → (∀ j, j ≠ i → groups sh j = groups (memory w) j) →
  next_grant_id sh = next_grant_id (memory w) →
  (c_pc (ctxs w i r) = PIdle → entering c = true →
   ∀ q, rank_of (worker_count (memory w)) i q → opened (ctxs w i q) = true) →
  Fence (mkWorld sh (set_ctx (ctxs w) i r c) (coord w) (clock w)).
Proof.
  intros HI HF Hir HA HFA [F1 F2 F3 F4] Hgs Hng Hstart.
  assert (Z.testbit (expected_mask (memory w)) r = true) as Hbit by (apply testbit_expected; [apply HI|apply Hir]).
  split; cbn [memory ctxs coord]; rewrite ?F2; try (by rewrite Hng; apply HF).
  - intros j q Hjq. destruct (decide (j = i ∧ q = r)) as [[-> ->]|Hne].
    + rewrite set_ctx_same. apply (fa_own _ _ _ _ _ _ HFA).
    + rewrite set_ctx_other by done. intros Hf. destruct (decide (j = i)) as [->|Hji].
      * apply (fence_rely w i r sh c); try done. naive_solver.
      * rewrite Hgs by done. by apply HF.
  - intros j q reason Hjq. destruct (decide (j = i ∧ q = r)) as [[-> ->]|Hne].
    + rewrite set_ctx_same. apply (fa_fail _ _ _ _ _ _ HFA).
    + rewrite set_ctx_other by done. by apply HF.
  - intros j p q Hjp Hjq. assert (opened (ctxs w j q) = true → opened (set_ctx (ctxs w) i r c j q) = true) as Hk.
    { destruct (decide (j = i ∧ q = r)) as [[-> ->]|Hne]; [rewrite set_ctx_same; apply HFA|by rewrite set_ctx_other]. }
    destruct (decide (j = i ∧ p = r)) as [[-> ->]|Hne].
    + rewrite set_ctx_same. intros He. apply Hk.
      destruct (fa_enter _ _ _ _ _ _ HFA He) as [He'|Hp]; [by apply (fc_open _ HF i r q)|by apply Hstart].
    + rewrite set_ctx_other by done. intros He. by apply Hk, (fc_open _ HF j p q).
  - intros j p q Hjp Hjq Hi Hf. destruct (decide (j = i)) as [->|Hji].
    2: { rewrite !set_ctx_other in * by naive_solver. by apply HF. }
    by apply (init_acting w i r sh c p q).
  - intros j Hj. unfold expected_mask. rewrite F2. fold (expected_mask (memory w)).
    destruct (decide (j = i)) as [->|Hji]; [apply HFA|]. rewrite Hgs by done. by apply HF.
  - apply alone_set; [apply HF|done|]. unfold ready_publisher at 1. intros H.
    destruct (fa_ready _ _ _ _ _ _ HFA) as [Hp|Hb]; [by destruct (c_pc c)|left; unfold ready_publisher; by rewrite Hp|right].
    intros q Hq _. destruct (ready_publisher (ctxs w i q)) eqn:E; [|done].
    rewrite (proj1 (publisher_full w i q HI Hq) E) in Hb. congruence.
  - apply alone_set; [apply HF|done|]. unfold complete_publisher at 1. intros H.
    destruct (fa_complete _ _ _ _ _ _ HFA) as [Hp|Hb]; [by destruct (c_pc c)|left; unfold complete_publisher; by rewrite Hp|right].
    intros q Hq _. destruct (complete_publisher (ctxs w i q)) eqn:E; [|done].
    rewrite (proj2 (publisher_full w i q HI Hq) E) in Hb. congruence.
  - pose proof (fc_coord _ HF) as Hc. pose proof (inv_coord _ HI) as Hco.
    assert (∀ s, instance s → owner (memory w) = PS_NO_OWNER → ungranted (groups (memory w) s) → ungranted (groups sh s)) as Hu.
    { intros s Hs Hno (U1 & U2 & U3). destruct (decide (s = i)) as [->|Hne]; [|by rewrite Hgs].
      destruct (fa_coord _ _ _ _ _ _ HFA U1) as [V1 V2]; [rewrite Hno; by destruct Hs as [-> | ->]|done|].
      split_and!; try done. rewrite (fa_grant _ _ _ _ _ _ HFA); [done|]. rewrite U1. consts. lia. }
    destruct (coord w); try done; cbn in *; naive_solver.
Qed.

(** ** The coordinator *)

(** What the coordinator and the heartbeat threads may do to a group. *)
Record gentle (g g' : instance_group) : Prop := {
  ge_grant : ROUND_COLLECTING ≤ g_state g ≤ ROUND_COMPLETE → grant_id g ≠ 0 → grant_id g' = grant_id g;
  ge_init : g_state g = ROUND_INITIALIZING → grant_id g' = grant_id g;
  ge_publish : g_state g = ROUND_COLLECTING ∨ g_state g = ROUND_RUNNING → g_state g' = g_state g;
  ge_collect : g_state g = ROUND_INITIALIZING → g_state g' ≠ ROUND_COLLECTING;
  ge_closed : ROUND_IDLE < g_state g' → ROUND_IDLE < g_state g;
  ge_slot q d : slot_ok (workers g q) d → slot_ok (workers g' q) d;
}.

Lemma gentle_refl g : gentle g g.
Proof. split; try done. consts. lia. Qed.

Lemma fence_memory w sh p t :
  Inv w → Fence w → coord_acts (memory w) sh p → (∀ j, instance j → gentle (groups (memory w) j) (groups sh j)) →
  (∀ j, instance j → tidy (expected_mask (memory w)) (groups sh j)) → calm sh p → 0 ≤ next_grant_id sh →
  Fence (mkWorld sh (ctxs w) p t).
Proof.
  intros HI HF [A1 A2 A3 A4 A5 A6] Hge Hti Hca Hng.
  split; cbn [memory ctxs coord]; rewrite ?A6; try apply HF; try done.
  - intros i r Hir Hf. pose proof (fc_worker _ HF i r Hir Hf) as Hfi. pose proof (inv_worker _ HI i r Hir) as Hw.
    destruct (Hge i (proj1 Hir)) as [G1 G2 G3 G4 G5 G6].
    apply (fits_rely (memory w)); try done;
      [apply testbit_expected; [apply HI|apply Hir]|apply (inv_group _ HI), Hir|]. split; auto.
    + apply A4, Hir.
    + intros Hi. apply G2. by apply (initialising_state (view_of (memory w) i) r (ctxs w i r)).
    + intros Hp. apply G3. pose proof (ft_tokens _ _ _ Hfi) as Htk. unfold publishing, tokens in *.
      destruct (c_pc (ctxs w i r)); auto; done.
    + intros H1 H2. by destruct (G4 H1).
    + intros Ho. pose proof (ft_closed _ _ _ Hfi Ho). destruct (Z.le_gt_cases (g_state (groups sh i)) ROUND_IDLE); [done|].
      specialize (G5 ltac:(done)). lia.
  - intros i Hi. unfold expected_mask. rewrite A6. by apply Hti.
Qed.

Section coordinator.
Context (w : world).
Hypothesis HI : Inv w.
Hypothesis HF : Fence w.
Abbreviation sh := (memory w).

Lemma field_fine i k : instance i → field_bad sh i k = false.
Proof.
  intros Hi. destruct (fc_tidy _ HF i Hi) as [T1 T2 T3 T4 _]. pose proof (go_state _ (inv_group _ HI i Hi)) as Hst. as_groups Hst.
  unfold field_bad, valid_round_state. destruct k as [|[|[|[|]]]]; rewrite ?T1, ?T2, ?T3, ?T4; try done.
  apply negb_false_iff, andb_true_iff. lia.
Qed.

Lemma calm_examined t acc b pb : calm sh (examined t acc b pb).
Proof.
  unfold examined, chosen. destruct (_ <=? _)%nat; [|done]. destruct (acc ++ _) as [|[r0 p0] [|[r1 p1] [|]]]; try done.
  destruct (_ && _); [done|]. by destruct (select r0 r1 p0 p1).
Qed.

Lemma calm_check t acc st rd on pb : calm sh (check_ready sh t acc st rd on pb).
Proof. unfold check_ready. destruct (_ && _); [done|apply calm_examined]. Qed.

Lemma calm_examine t acc st rd on pb : calm sh (examine sh t acc st rd on pb).
Proof. unfold examine. destruct (_ && _); [|apply calm_check]. by destruct (_ || _). Qed.

(** The loads of the coordinator. *)
Lemma coordinator_calm now : calm (coordinator_step now sh (coord w)).1 (coordinator_step now sh (coord w)).2.
Proof.
  pose proof (fc_coord _ HF) as Hc. pose proof (inv_coord _ HI) as Ho. pose proof (fc_next _ HF) as Hn.
  destruct (coord w); cbn [coordinator_step fst snd].
  - by destruct (is_running _).
  - destruct (_ && _) eqn:E; [|by split; [left|]]. exfalso. apply andb_true_iff in E as [E1%negb_true_iff%Z.eqb_neq E2].
    destruct (inv_owner _ HI) as [|[Ho' | Ho']]; [done|rewrite Ho' in E2; done..].
  - destruct Hc as [Hi ->]. rewrite field_fine by done. tests; [|done]. cbn [orb].
    tests; [by split; [right|]|done].
  - by destruct Ho as [-> | [t ->]].
  - done.
  - tests; done.
  - done.
  - done.
  - repeat tests; done.
  - tests; done.
  - tests; [|tests; done]. destruct f; cbn; [done|apply calm_check|apply calm_examined].
  - done.
  - tests; [done|]. destruct f; cbn; [done..|apply calm_examined].
  - tests; done.
  - tests; done.
  - tests; done.
  - done.
  - done.
  - done.
  - apply calm_examine.
  - done.
  - cbn in Ho. destruct Ho as [_ Hs]. tests; [|done]. to_prop. cbn [fst snd calm]. unfold ungranted. rewrite groups_on_group. cbn.
    split_and!; try done; [apply (fc_tidy _ HF _ Hs)|apply (go_fresh _ (inv_group _ HI _ Hs))]; cbn; rewrite ?Heqb; consts; lia.
  - cbn in *. split; [done|lia].
  - done.
  - done.
  - done.
Qed.

Lemma gentle_on_group s f :
  instance s → gentle (groups sh s) (f (groups sh s)) → tidy (expected_mask sh) (f (groups sh s)) →
  ∀ j, instance j → gentle (groups sh j) (groups (on_group sh s f) j) ∧ tidy (expected_mask sh) (groups (on_group sh s f) j).
Proof.
  intros Hs Hge Hti j Hj. destruct (decide (j = s)) as [->|Hne]; [by rewrite groups_on_group|].
  rewrite groups_on_other by done. split; [apply gentle_refl|by apply HF].
Qed.

Lemma coordinator_gentle now j :
  instance j → gentle (groups sh j) (groups (coordinator_step now sh (coord w)).1 j)
  ∧ tidy (expected_mask sh) (groups (coordinator_step now sh (coord w)).1 j).
Proof.
  assert (∀ sh', groups sh' = groups sh → ∀ j, instance j → gentle (groups sh j) (groups sh' j) ∧ tidy (expected_mask sh) (groups sh' j)) as Hsame.
  { intros sh' -> k Hk. split; [apply gentle_refl|by apply HF]. }
  pose proof (fc_coord _ HF) as Hc. pose proof (inv_coord _ HI) as Ho.
  revert j. destruct (coord w); cbn [coordinator_step]; try (by apply Hsame).
  - cbn [fst]. apply Hsame. unfold fail_pair. by destruct (_ =? _).
  - cbn [fst]. destruct Ho as (How & Hin & H1 & H2 & H3). destruct (fc_tidy _ HF o Hin) as [T1 T2 T3 T4 T5].
    destruct k as [|[|k]]; cbn [recycle_store].
    + apply gentle_on_group; try done; split; cbn; try done; auto; consts; lia.
    + specialize (H1 ltac:(lia)). as_groups H1. apply gentle_on_group; try done; split; cbn; rewrite ?H1; try done; consts; lia.
    + apply Hsame. by destruct k as [|[|]].
  - destruct (_ <=? rank); [by apply Hsame|]. destruct (_ =? 0); by apply Hsame.
  - destruct Ho as [_ Hs]. destruct (_ =? ROUND_READY) eqn:Er; [|by apply Hsame]. to_prop. cbn [fst].
    destruct (fc_tidy _ HF _ Hs) as [T1 T2 T3 T4 T5].
    apply gentle_on_group; try done; split; cbn; rewrite ?Er; try done; consts; lia.
  - cbn [fst]. destruct Ho as (_ & Hs & _). destruct Hc as [(U1 & U2 & U3) Hgr]. destruct (fc_tidy _ HF _ Hs) as [T1 T2 T3 T4 T5].
    apply gentle_on_group; try done; split; cbn; rewrite ?U1; try done; consts; lia.
Qed.

Lemma coordinator_next now : 0 ≤ next_grant_id (coordinator_step now sh (coord w)).1.
Proof.
  pose proof (fc_next _ HF) as Hn.
  destruct (coord w); cbn [coordinator_step fst]; try done; try (cbn; lia); try (tests; try tests; done).
  - unfold fail_pair. by destruct (_ =? _).
  - by destruct k as [|[|[|[|]]]].
Qed.

Lemma fence_coordinator sh' p' :
  coordinator_step (clock w) sh (coord w) = (sh', p') → Fence (mkWorld sh' (ctxs w) p' (clock w)).
Proof.
  intros Hst. pose proof (coordinator_acts (clock w) sh (inv_status _ HI) (inv_owner _ HI) (inv_group _ HI) _ (inv_coord _ HI)) as Ha.
  pose proof (coordinator_gentle (clock w)) as Hge. pose proof (coordinator_calm (clock w)) as Hc. pose proof (coordinator_next (clock w)) as Hn.
  rewrite Hst in Ha, Hge, Hc, Hn. apply fence_memory; try done; intros j Hj; by apply Hge.
Qed.
End coordinator.

(** ** Calls *)

Section calls.
Context (w : world) (i r : Z).
Hypothesis HI : Inv w.
Hypothesis HF : Fence w.
Hypothesis Hir : rank_of (worker_count (memory w)) i r.
Abbreviation c := (ctxs w i r).

Lemma fence_call c' :
  worker_ok (view_of (memory w) i) r c' → initialising c' = false → clearing c' = false →
  fence_acts i r (memory w) (memory w) c c' →
  (c_pc c = PIdle → entering c' = true → ∀ q, rank_of (worker_count (memory w)) i q → opened (ctxs w i q) = true) →
  Fence (mkWorld (memory w) (set_ctx (ctxs w) i r c') (coord w) (clock w)).
Proof.
  intros Hw Hi Hc HFA Hst. apply fence_acting; try done; [|apply frame_refl].
  apply acts_local; try done. apply HI, Hir.
Qed.

Hypothesis Hrun : is_running (sh_status (memory w)) = true.

Lemma not_failed : failing (c_pc c) = false → c_failed c = false.
Proof.
  intros Hp. destruct (c_failed c) eqn:Hf; [|done]. destruct (wo_stuck _ _ _ (inv_worker _ HI i r Hir) Hf) as [_ H].
  specialize (H Hp). cbn in H. congruence.
Qed.

Lemma fence_opening : c_pc c = PClosed → Fence (mkWorld (memory w) (set_ctx (ctxs w) i r (goto c POpen)) (coord w) (clock w)).
Proof.
  intros Hp. assert (c_failed c = false) as Hf by (apply not_failed; by rewrite Hp).
  assert (opened c = false) as Ho by (unfold opened; by rewrite Hp).
  apply fence_call; try done; [by apply call_open_ok, Hp; apply HI|].
  apply fence_open_load; try done; [by apply HF|by apply HF, Hir].
Qed.

Lemma fence_entering :
  c_pc c = PIdle → active_seq c = 0 → (∀ q, rank_of (worker_count (memory w)) i q → opened (ctxs w i q) = true) →
  Fence (mkWorld (memory w) (set_ctx (ctxs w) i r (call_enter c)) (coord w) (clock w)).
Proof.
  intros Hp Ha Hall. assert (c_failed c = false) as Hf by (apply not_failed; by rewrite Hp).
  assert (opened c = true ∧ joined c = false ∧ entering c = false) as (Ho & Hj & He)
    by (unfold opened, joined, entering; by rewrite Hp, Ha).
  pose proof (fc_worker _ HF i r Hir Hf) as [F1 [S1 S2 S3] F3 F4 F5 F6]. destruct (opened_set c Ho) as (P1 & P2 & P3).
  assert (call_enter c = goto (with_next_seq c (next_seq c + 1)) ECheck) as Hce by (unfold call_enter; cbn; by rewrite Ha).
  assert (rounds_done (call_enter c) = rounds_done c) as Hd.
  { unfold rounds_done. rewrite Hj, He, Hce. unfold joined, entering. cbn. lia. }
  apply fence_call; [apply call_enter_ok; [by apply HI|done]|by rewrite Hce|by rewrite Hce| |done].
  apply fence_load; rewrite ?Hce; try done; [by apply HF, Hir| |by right|by rewrite <- Hce].
  intros _. split; cbn; auto; try done.
  - split; cbn; auto; done.
  - intros _. specialize (F6 Ho). unfold numbered in *. by rewrite <- Hce, Hd.
Qed.

Lemma fence_leaving :
  c_pc c = PIdle → c_forward c = true →
  Fence (mkWorld (memory w) (set_ctx (ctxs w) i r (call_leave c (active_seq c) (active_grant_id c))) (coord w) (clock w)).
Proof.
  intros Hp Hfw. assert (c_failed c = false) as Hf by (apply not_failed; by rewrite Hp).
  destruct (wo_forward _ _ _ (inv_worker _ HI i r Hir) Hfw) as [Ha _].
  assert (opened c = true ∧ entering c = false) as (Ho & He) by (unfold opened, entering; by rewrite Hp).
  pose proof (fc_worker _ HF i r Hir Hf) as [F1 [S1 S2 S3] F3 F4 F5 F6]. destruct (opened_set c Ho) as (P1 & P2 & P3).
  unfold tokens in F1. rewrite Hp in F1. destruct (F1 Ha) as [T1 T2].
  apply fence_call; [apply call_leave_ok; [by apply HI|done]|done|done| |done].
  apply fence_load; cbn; try done; [by apply HF, Hir|..].
  - intros _. split; cbn; auto; try done.
    + split; cbn; auto. intros H. apply S3. unfold seq_set, joined in *. cbn in H. by rewrite Hp.
    + intros _. specialize (F6 Ho). unfold numbered, rounds_done, joined, entering in *. by rewrite Hp in F6.
  - intros _ _ _. split; [done|]. unfold rounds_done, joined, entering. by rewrite Hp.
Qed.
End calls.

(** ** No false alarm *)

Definition Sound (w : world) : Prop :=
  Inv w
  ∧ (is_running (sh_status (memory w)) = true → Fence w)
  ∧ (sh_status (memory w) = make_status PS_RUNNING 0
     ∨ ∃ reason, genuine reason = true ∧ sh_status (memory w) = make_status PS_FAILED reason).

Lemma fail_sound sh reason :
  genuine reason = true →
  (sh_status sh = make_status PS_RUNNING 0 ∨ ∃ rs, genuine rs = true ∧ sh_status sh = make_status PS_FAILED rs) →
  is_running (sh_status (fail_pair sh reason)) = false
  ∧ ∃ rs, genuine rs = true ∧ sh_status (fail_pair sh reason) = make_status PS_FAILED rs.
Proof.
  intros Hgn Hs. unfold fail_pair. destruct (sh_status sh =? make_status PS_RUNNING 0) eqn:E; to_prop; cbn.
  - rewrite failed_status. split; [done|]. eexists. split; [|done]. by destruct (reason =? 0).
  - destruct Hs as [|(rs & H1 & H2)]; [done|]. rewrite H2, failed_status. eauto.
Qed.

Lemma worker_fence w i r :
  Inv w → Fence w → is_running (sh_status (memory w)) = true → rank_of (worker_count (memory w)) i r →
  c_failed (ctxs w i r) = false →
  fence_acts i r (memory w) (worker_step (clock w) i r (memory w) (ctxs w i r)).1 (ctxs w i r)
    (worker_step (clock w) i r (memory w) (ctxs w i r)).2.
Proof.
  intros HI HF Hrun Hir Hf. pose proof (fc_worker _ HF i r Hir Hf) as Hfi. pose proof (inv_worker _ HI i r Hir) as Hw.
  pose proof (inv_group _ HI i (proj1 Hir)) as Hg. pose proof (fc_tidy _ HF i (proj1 Hir)) as Ht.
  assert (0 ≤ r < 64) as Hr by (pose proof (inv_count _ HI); destruct Hir; lia).
  assert (Z.testbit (expected_mask (memory w)) r = true) as Hbit by (apply testbit_expected; [apply HI|apply Hir]).
  pose proof (open_fence (clock w) i r (memory w) (ctxs w i r) Hr Hbit Hg Hw Hf Hfi Ht) as Hopen.
  pose proof (enter_fence (clock w) i r (memory w) (ctxs w i r) Hr Hbit Hg Hw Hf Hfi Ht Hrun) as Henter.
  assert (initialising (ctxs w i r) = false → publishing (ctxs w i r) = false →
    fence_acts i r (memory w) (memory w) (ctxs w i r) (ctxs w i r)) as Hsame by (by apply fence_same).
  assert (is_leave (c_pc (ctxs w i r)) = true → fence_acts i r (memory w)
    (leave_step (clock w) i r (memory w) (ctxs w i r)).1 (ctxs w i r) (leave_step (clock w) i r (memory w) (ctxs w i r)).2)
    as Hleave by (by apply leave_fence).
  pose proof (wo_phase _ _ _ Hw Hf) as Hph. unfold phase in Hph.
  unfold worker_step, opened, is_enter, is_leave, initialising, publishing in *.
  destruct (c_pc (ctxs w i r)) eqn:Hp; try (by apply Hopen); try (by apply Henter); try (by apply Hleave); [|done].
  unfold open_step. rewrite Hp. by apply Hsame.
Qed.

Lemma sound_worker w i r sh c :
  Sound w → rank_of (worker_count (memory w)) i r →
  worker_step (clock w) i r (memory w) (ctxs w i r) = (sh, c) →
  Sound (mkWorld sh (set_ctx (ctxs w) i r c) (coord w) (clock w)).
Proof.
  intros (HI & HF & Hs) Hir Hst. split; [by apply (step_inv w), (step_worker w i r sh c)|].
  assert (failing (c_pc (ctxs w i r)) = false → sh_status sh = sh_status (memory w)) as Hsame.
  { intros Hp. replace sh with (sh, c).1 by done. rewrite <- Hst. clear -Hp.
    unfold worker_step, open_step, enter_step, leave_step, on_slot, on_group.
    destruct (c_pc (ctxs w i r)); try discriminate Hp; cbn [fst]; try done; destruct (_ =? _); done. }
  destruct (is_running (sh_status (memory w))) eqn:Hrun.
  - specialize (HF eq_refl). destruct (failing (c_pc (ctxs w i r))) eqn:Hp.
    + destruct (c_pc (ctxs w i r)) eqn:Hpc; try discriminate Hp. pose proof (fc_fail _ HF i r reason Hir Hpc) as Hgn.
      unfold worker_step in Hst. rewrite Hpc in Hst. simplify_eq. cbn.
      destruct (fail_sound (memory w) reason Hgn Hs) as [H1 H2]. split; [congruence|by right].
    + cbn [memory]. rewrite Hsame by done. split; [|done]. intros _. assert (c_failed (ctxs w i r) = false) as Hf by (by apply not_failed).
      pose proof (worker_fence w i r HI HF Hrun Hir Hf) as HFA.
      pose proof (worker_acts _ (clock w) i r (memory w) (ctxs w i r) (inv_count _ HI) (proj2 Hir) eq_refl
        (inv_status _ HI) (inv_group _ HI i (proj1 Hir)) (inv_worker _ HI i r Hir)) as Ha.
      pose proof (worker_frame (clock w) i r (memory w) (ctxs w i r)) as Hfr.
      pose proof (worker_groups (clock w) i r (memory w) (ctxs w i r)) as Hgr.
      pose proof (worker_next_grant (clock w) i r (memory w) (ctxs w i r)) as Hng.
      assert (c_pc (ctxs w i r) = PIdle → c = ctxs w i r) as Hid.
      { intros Hpc. unfold worker_step, open_step in Hst. rewrite Hpc in Hst. by simplify_eq. }
      rewrite Hst in *. apply fence_acting; try done.
      intros Hpc. rewrite (Hid Hpc). unfold entering. by rewrite Hpc.
  - assert (sh_status sh = sh_status (memory w)) as Hss.
    { destruct (failing (c_pc (ctxs w i r))) eqn:Hp; [|by apply Hsame]. destruct (c_pc (ctxs w i r)) eqn:Hpc; try discriminate Hp.
      unfold worker_step in Hst. rewrite Hpc in Hst. simplify_eq. unfold fail_pair. destruct (_ =? _) eqn:E; [|done].
      to_prop. by rewrite E in Hrun. }
    cbn. rewrite Hss. split; [congruence|done].
Qed.

Lemma status_kept sh reason :
  is_running (sh_status sh) = false → sh_status (fail_pair sh reason) = sh_status sh.
Proof. intros H. unfold fail_pair. destruct (_ =? _) eqn:E; [|done]. to_prop. by rewrite E in H. Qed.

Lemma sound_coordinator w sh p :
  Sound w → coordinator_step (clock w) (memory w) (coord w) = (sh, p) → Sound (mkWorld sh (ctxs w) p (clock w)).
Proof.
  intros (HI & HF & Hs) Hst. split; [by apply (step_inv w), step_coordinator|].
  assert ((∃ reason next, coord w = CFail reason next) ∨ sh_status sh = sh_status (memory w)) as Hsame.
  { replace sh with (sh, p).1 by done. rewrite <- Hst. destruct (coord w); eauto; right; cbn [coordinator_step fst]; try done;
      try (by destruct k as [|[|[|[|]]]]); repeat (tests; cbn [fst]; try done). }
  destruct Hsame as [(reason & next & Hp)|Hss].
  - rewrite Hp in Hst. cbn in Hst. simplify_eq. cbn. destruct (is_running (sh_status (memory w))) eqn:Hrun.
    + pose proof (fc_coord _ (HF eq_refl)) as Hgn. rewrite Hp in Hgn.
      destruct (fail_sound (memory w) reason Hgn Hs) as [H1 H2]. split; [congruence|by right].
    + rewrite status_kept by done. split; [congruence|done].
  - cbn. rewrite Hss. split; [|done]. intros Hrun. by apply fence_coordinator; [| apply HF|].
Qed.

Lemma heartbeat_groups sh i r t j :
  let g' := groups (on_slot sh i r (λ s, s_set_heartbeat s t)) j in
  gentle (groups sh j) g' ∧ (∀ E, tidy E (groups sh j) → tidy E g') ∧ (ungranted (groups sh j) → ungranted g').
Proof.
  cbn zeta. unfold on_slot. destruct (decide (j = i)) as [->|Hne].
  - rewrite groups_on_group. split_and!; [|by intros E []|done]. split; cbn; try done; [consts; lia|].
    intros q d [S1 S2 S3]. unfold upd. destruct (q =? r) eqn:Eq; [|by split]. to_prop. subst. by split.
  - rewrite groups_on_other by done. split; [apply gentle_refl|done].
Qed.

Lemma sound_heartbeat w i r :
  Sound w → rank_of (worker_count (memory w)) i r → opened (ctxs w i r) = true →
  Sound (mkWorld (on_slot (memory w) i r (λ s, s_set_heartbeat s (clock w))) (ctxs w) (coord w) (clock w)).
Proof.
  intros (HI & HF & Hs) Hir Ho. split; [by apply (step_inv w), step_heartbeat|]. split; [|done]. intros Hrun. specialize (HF Hrun).
  pose proof (heartbeat_groups (memory w) i r (clock w)) as Hb. apply fence_memory; try done.
  - pose proof (view_on_slot (memory w) i r (λ s, s_set_heartbeat s (clock w))) as Hv.
    apply coord_same_view; try done; [apply HI..|]. apply (coord_keeps (memory w)); [apply HI|done|].
    intros j _. rewrite Hv. apply keeps_refl.
  - intros j _. apply Hb.
  - intros j Hj. apply Hb. by apply HF.
  - pose proof (fc_coord _ HF) as Hc. destruct (coord w); try done; cbn in *; [by apply Hb|]. destruct Hc as [Hc1 Hc2].
    split; [by apply Hb|done].
  - apply HF.
Qed.

Lemma sound_call w w' :
  Sound w → step w w' → sh_status (memory w') = sh_status (memory w) →
  (is_running (sh_status (memory w)) = true → Fence w → Fence w') → Sound w'.
Proof.
  intros (HI & HF & Hs) Hst Hss Hk. split; [by apply (step_inv w)|]. rewrite Hss. split; [|done].
  intros Hrun. by apply Hk, HF.
Qed.

Lemma ruled_sound w w' : Sound w → ruled_step w w' → Sound w'.
Proof.
  intros HS Hst. pose proof HS as (HI & HF & Hs). pose proof (ruled_is_step _ _ Hst) as Hstep.
  destruct Hst as [i r sh c Hir Hst|sh p Hst|i r Hir Hp|i r Hir Hp Hm|i r seq grant Hir Hp Hm|i r reason Hir Ho Hgn|i r Hir Ho|t Ht].
  - by apply sound_worker.
  - by apply sound_coordinator.
  - apply (sound_call w); try done. intros Hrun HF'. by apply fence_opening.
  - apply (sound_call w); try done. intros Hrun HF'. destruct Hm as [|[Ha Hall]]; [congruence|]. by apply fence_entering.
  - apply (sound_call w); try done. intros Hrun HF'. destruct Hm as [|(Hfw & -> & ->)]; [congruence|]. by apply fence_leaving.
  - split; [by apply (step_inv w)|]. cbn. destruct (is_running (sh_status (memory w))) eqn:Hrun.
    + destruct (fail_sound (memory w) reason Hgn Hs) as [H1 H2]. split; [congruence|by right].
    + rewrite status_kept by done. split; [congruence|done].
  - by apply sound_heartbeat.
  - apply (sound_call w); try done. intros _ [C1 C2 C3 C4 C5 C6 C7 C8 C9]. by split.
Qed.

Lemma initial_sound peer forward n now ids : 1 ≤ n ≤ 64 → Sound (initial peer forward n now ids).
Proof.
  intros Hn. split; [by apply initial_inv|]. split; [|by left]. intros _. split; cbn [initial memory ctxs coord]; try done.
  - intros i r Hir _. unfold closed. split; cbn; try done.
    + by destruct (_ && _).
    + split; cbn; destruct (_ && _); done.
    + unfold past_open, opened. cbn. by destruct (_ && _).
    + unfold opened. cbn. by destruct (_ && _).
  - intros i r reason Hir. unfold closed. cbn. by destruct (_ && _).
  - intros i r q _ _. unfold closed, entering. cbn. by destruct (_ && _).
  - intros i r q _ _. unfold closed, initialising. cbn. by destruct (_ && _).
  - intros i r q _ _ _. unfold closed, ready_publisher. cbn. by destruct (_ && _).
  - intros i r q _ _ _. unfold closed, complete_publisher. cbn. by destruct (_ && _).
Qed.

(** The states that callers who follow the rules can reach. *)
Definition ruled (w : world) : Prop :=
  ∃ peer forward n now ids, 1 ≤ n ≤ PS_MAX_WORKERS ∧ rtc ruled_step (initial peer forward n now ids) w.

Lemma ruled_reaches w : ruled w → Sound w.
Proof.
  intros (peer & forward & n & now & ids & Hn & Hrtc). pose proof (initial_sound peer forward n now ids Hn) as HS.
  revert HS. induction Hrtc as [|w1 w2 w3 Hst _ IH]; [done|]. intros HS. by apply IH, (ruled_sound w1).
Qed.

(** C11: when all callers follow the rules of the library, whatever the interleaving of
    all threads, the pair is running, or it has failed for a reason that is none of
    its consistency checks: no round number, grant, session, bit mask or owner is ever
    found wrong. *)
Theorem no_false_alarm w :
  ruled w →
  sh_status (memory w) = make_status PS_RUNNING 0
  ∨ ∃ reason, genuine reason = true ∧ sh_status (memory w) = make_status PS_FAILED reason.
Proof. intros (_ & _ & Hs)%ruled_reaches. exact Hs. Qed.
