(* ===== verification/PairRun.v ===== *)
(** * Runs of the pair protocol

    An executable schedule of PairProtocol.v with concrete runs, and two situations
    the library does not handle: a worker that dies while its round drains, and a
    rank that is opened after its instance has begun. *)

From S2P Require Import Prelude PairProtocol PairInv PairSteps PairSafe PairFence.
#[local] Open Scope Z_scope.

(** ** Schedules *)

Inductive action :=
  | AWorker (i r : Z)
  | ACoordinator
  | AOpen (i r : Z)
  | AEnter (i r : Z)
  | ALeave (i r : Z)
  | AHeartbeat (i r : Z)
  | AClock (t : Z).

Definition rank_ofb (n i r : Z) : bool := ((i =? 0) || (i =? 1)) && (0 <=? r) && (r <? n).

Lemma rank_ofb_spec n i r : rank_ofb n i r = true → rank_of n i r.
Proof. unfold rank_ofb, rank_of. rewrite !andb_true_iff, orb_true_iff, !Z.eqb_eq. lia. Qed.

Definition at_idle (c : ps_context) : bool := match c_pc c with PIdle => true | _ => false end.
Definition at_closed (c : ps_context) : bool := match c_pc c with PClosed => true | _ => false end.

(** The world after an action; a caller leaves with the tokens it was given. *)
Definition act (w : world) (a : action) : option world :=
  let sh := memory w in let n := worker_count sh in
  match a with
  | AWorker i r =>
      if rank_ofb n i r then
        let '(sh', c) := worker_step (clock w) i r sh (ctxs w i r) in
        Some (mkWorld sh' (set_ctx (ctxs w) i r c) (coord w) (clock w))
      else None
  | ACoordinator =>
      let '(sh', p) := coordinator_step (clock w) sh (coord w) in Some (mkWorld sh' (ctxs w) p (clock w))
  | AOpen i r =>
      if rank_ofb n i r && at_closed (ctxs w i r)
      then Some (mkWorld sh (set_ctx (ctxs w) i r (goto (ctxs w i r) POpen)) (coord w) (clock w)) else None
  | AEnter i r =>
      if rank_ofb n i r && at_idle (ctxs w i r)
      then Some (mkWorld sh (set_ctx (ctxs w) i r (call_enter (ctxs w i r))) (coord w) (clock w)) else None
  | ALeave i r =>
      let c := ctxs w i r in
      if rank_ofb n i r && at_idle c
      then Some (mkWorld sh (set_ctx (ctxs w) i r (call_leave c (active_seq c) (active_grant_id c))) (coord w) (clock w))
      else None
  | AHeartbeat i r =>
      if rank_ofb n i r && opened (ctxs w i r)
      then Some (mkWorld (on_slot sh i r (λ s, s_set_heartbeat s (clock w))) (ctxs w) (coord w) (clock w)) else None
  | AClock t => if clock w <=? t then Some (mkWorld sh (ctxs w) (coord w) t) else None
  end.

Fixpoint run_actions (w : world) (l : list action) : option world :=
  match l with
  | [] => Some w
  | a :: l => match act w a with Some w' => run_actions w' l | None => None end
  end.

Lemma act_step w a w' : act w a = Some w' → step w w'.
Proof.
  destruct a; cbn; intros H.
  - destruct (rank_ofb _ _ _) eqn:E; [|done]. destruct (worker_step _ _ _ _ _) as [sh c] eqn:Es. simplify_eq.
    apply (step_worker w i r sh c); [by apply rank_ofb_spec|done].
  - destruct (coordinator_step _ _ _) as [sh p] eqn:Es. simplify_eq. by apply step_coordinator.
  - destruct (_ && _) eqn:E; [|done]. apply andb_true_iff in E as [E1%rank_ofb_spec E2]. simplify_eq.
    apply step_open; [done|]. unfold at_closed in E2. by destruct (c_pc _).
  - destruct (_ && _) eqn:E; [|done]. apply andb_true_iff in E as [E1%rank_ofb_spec E2]. simplify_eq.
    apply step_enter; [done|]. unfold at_idle in E2. by destruct (c_pc _).
  - destruct (_ && _) eqn:E; [|done]. apply andb_true_iff in E as [E1%rank_ofb_spec E2]. simplify_eq.
    apply step_leave; [done|]. unfold at_idle in E2. by destruct (c_pc _).
  - destruct (_ && _) eqn:E; [|done]. apply andb_true_iff in E as [E1%rank_ofb_spec E2]. simplify_eq.
    by apply step_heartbeat.
  - destruct (_ <=? _) eqn:E; [|done]. to_prop. simplify_eq. by apply step_clock.
Qed.

Lemma run_steps l w w' : run_actions w l = Some w' → rtc step w w'.
Proof.
  revert w. induction l as [|a l IH]; cbn; intros w H; [by simplify_eq|].
  destruct (act w a) as [w1|] eqn:E; [|done]. apply (rtc_l _ _ w1); [by apply (act_step w a)|by apply IH].
Qed.

(** The rules for callers, for an action. *)
Definition follows (w : world) (a : action) : bool :=
  match a with
  | AEnter i r =>
      (active_seq (ctxs w i r) =? 0)
      && forallb (λ q, opened (ctxs w i q)) (seqZ 0 (worker_count (memory w)))
  | ALeave i r => c_forward (ctxs w i r)
  | _ => true
  end.

Fixpoint run_ruled (w : world) (l : list action) : option world :=
  match l with
  | [] => Some w
  | a :: l => if follows w a then match act w a with Some w' => run_ruled w' l | None => None end else None
  end.

Lemma follows_step w a w' : follows w a = true → act w a = Some w' → ruled_step w w'.
Proof.
  destruct a; cbn; intros Hf H.
  - destruct (rank_ofb _ _ _) eqn:E; [|done]. destruct (worker_step _ _ _ _ _) as [sh c] eqn:Es. simplify_eq.
    apply (ru_worker w i r sh c); [by apply rank_ofb_spec|done].
  - destruct (coordinator_step _ _ _) as [sh p] eqn:Es. simplify_eq. by apply ru_coordinator.
  - destruct (_ && _) eqn:E; [|done]. apply andb_true_iff in E as [E1%rank_ofb_spec E2]. simplify_eq.
    apply ru_open; [done|]. unfold at_closed in E2. by destruct (c_pc _).
  - apply andb_true_iff in Hf as [Ha%Z.eqb_eq Hall].
    destruct (rank_ofb _ _ _ && _) eqn:E; [|done]. apply andb_true_iff in E as [E1%rank_ofb_spec E2]. simplify_eq.
    apply ru_enter; [done|unfold at_idle in E2; by destruct (c_pc _)|]. right. split; [done|]. intros q [_ Hq].
    rewrite forallb_forall in Hall. apply Hall, list_elem_of_In, elem_of_seqZ. lia.
  - destruct (_ && _) eqn:E; [|done]. apply andb_true_iff in E as [E1%rank_ofb_spec E2]. simplify_eq.
    apply ru_leave; [done|unfold at_idle in E2; by destruct (c_pc _)|]. by right.
  - destruct (_ && _) eqn:E; [|done]. apply andb_true_iff in E as [E1%rank_ofb_spec E2]. simplify_eq.
    by apply ru_heartbeat.
  - destruct (_ <=? _) eqn:E; [|done]. to_prop. simplify_eq. by apply ru_clock.
Qed.

Lemma ruled_steps l w w' : run_ruled w l = Some w' → rtc ruled_step w w'.
Proof.
  revert w. induction l as [|a l IH]; cbn; intros w H; [by simplify_eq|].
  destruct (follows w a) eqn:Ef; [|done]. destruct (act w a) as [w1|] eqn:E; [|done].
  apply (rtc_l _ _ w1); [by apply (follows_step w a)|by apply IH].
Qed.

(** ** Concrete runs *)

(** Two workers per instance, timeouts of one second, pid 10 + r, session 7. *)
Definition demo_initial : world := initial 1000 1000 2 5 (λ i r, (10 + r, 7)).

(** [k] steps of one worker, of the coordinator. *)
Definition steps (k : nat) (i r : Z) : list action := replicate k (AWorker i r).
Definition ticks (k : nat) : list action := replicate k ACoordinator.

(** Both ranks of both instances are opened. *)
Definition open_all : list action :=
  steps 10 0 0 ++ AOpen 0 1 :: steps 12 0 1 ++ AOpen 1 0 :: steps 12 1 0 ++ AOpen 1 1 :: steps 12 1 1.

(** Both ranks of instance [i] enter, the coordinator grants, both calls return. *)
Definition grant_round (i : Z) : list action :=
  AEnter i 0 :: steps 14 i 0 ++ AEnter i 1 :: steps 14 i 1 ++ ticks 70 ++ steps 16 i 0 ++ steps 16 i 1.

Definition after (l : list action) : world := default demo_initial (run_actions demo_initial l).

Definition demo_model : world := after (open_all ++ grant_round 0).

Lemma after_reachable l : reachable (after l).
Proof.
  exists 1000, 1000, 2, 5, (λ i r, (10 + r, 7)). split; [unfold PS_MAX_WORKERS; lia|]. fold demo_initial.
  unfold after. destruct (run_actions demo_initial l) eqn:E; [by apply (run_steps l)|apply rtc_refl].
Qed.

Lemma rounds_exclude_witness :
  active_seq (ctxs demo_model 0 0) = active_seq (ctxs demo_model 0 1).
Proof.
  apply (rounds_exclude demo_model 0 0 0 1); [apply after_reachable| |];
    (split; [apply rank_ofb_spec|]; vm_compute; reflexivity).
Defined.

Lemma round_barrier_witness : ready_mask (groups (memory demo_model) 0) = 3.
Proof.
  destruct (round_barrier demo_model 0 1) as (_ & _ & _ & Hr & _); [apply after_reachable| |];
    [split; [apply rank_ofb_spec|]; vm_compute; reflexivity|]. rewrite Hr. vm_compute. reflexivity.
Defined.

(** Two rounds of instance 0 and one of instance 1, with a dead peer at the end: the
    callers follow the rules. *)
Definition leave_round (i : Z) : list action :=
  ALeave i 0 :: steps 12 i 0 ++ ALeave i 1 :: steps 12 i 1 ++ ticks 60 ++ steps 12 i 0 ++ steps 12 i 1.
Definition ruled_run : list action :=
  open_all ++ grant_round 0 ++ leave_round 0 ++ grant_round 1 ++ leave_round 1 ++ grant_round 0 ++ AClock (10 ^ 15) :: ticks 60.
Definition ruled_world : world := default demo_initial (run_ruled demo_initial ruled_run).

Lemma no_false_alarm_witness : status_reason (sh_status (memory ruled_world)) = FAIL_FORWARD_TIMEOUT.
Proof.
  destruct (no_false_alarm ruled_world) as [Hs|(reason & Hg & Hs)].
  - exists 1000, 1000, 2, 5, (λ i r, (10 + r, 7)). split; [unfold PS_MAX_WORKERS; lia|]. fold demo_initial.
    unfold ruled_world. destruct (run_ruled demo_initial ruled_run) eqn:E; [by apply (ruled_steps ruled_run)|apply rtc_refl].
  - vm_compute in Hs. discriminate Hs.
  - vm_compute. reflexivity.
Defined.

(** ** A worker that dies while its round drains *)

(** A step in which the worker [r] of instance [i] takes no part. *)
Definition others (i r : Z) (w w' : world) : Prop := step w w' ∧ ctxs w' i r = ctxs w i r.

(** The worker has completed and waits for the round to drain, or has seen it drain and
    has not yet set its exit bit. *)
Definition leaving (c : ps_context) : bool :=
  match c_pc c with LWait | LStateW | LSeqW _ | LExit => true | _ => false end.

Lemma leaving_exit v r c : worker_ok v r c → leaving c = true → v_state v = ROUND_DRAINING → Z.testbit (v_exit v) r = false.
Proof.
  intros Hw Hl Hst. unfold leaving in Hl. destruct (c_failed c) eqn:Hf.
  - destruct (wo_stuck _ _ _ Hw Hf) as [Hs _]. by destruct (c_pc c).
  - pose proof (wo_phase _ _ _ Hw Hf) as Hph. unfold phase, completed in Hph. destruct (c_pc c); naive_solver.
Qed.

Lemma change_draining r c v v' :
  change r c v v' → v_state v = ROUND_DRAINING → Z.testbit (v_mask v) r = true → Z.testbit (v_exit v) r = false →
  v_state v' = ROUND_DRAINING.
Proof. intros Hch Hst Hm He. destruct Hch; cbn in *; try done; consts; try lia. congruence. Qed.

Lemma leaving_moves now i r sh c : leaving c = true → (worker_step now i r sh c).2 ≠ c.
Proof.
  unfold leaving, worker_step, leave_step. intros Hl Hc. apply (f_equal c_pc) in Hc. revert Hc.
  destruct (c_pc c); try discriminate Hl; cbn [snd];
    repeat match goal with |- context [if ?b then _ else _] => destruct b end; cbn; congruence.
Qed.

Lemma others_change i r w w' :
  Inv w → rank_of (worker_count (memory w)) i r → leaving (ctxs w i r) = true → others i r w w' →
  change r (ctxs w i r) (view_of (memory w) i) (view_of (memory w') i).
Proof.
  intros HI Hir Hl [Hst Hsame].
  destruct Hst as [j q sh c Hjq Hst|sh p Hst|j q Hjq Hp|j q Hjq Hp|j q seq grant Hjq Hp|j q reason Hjq _|j q Hjq _|t _];
    cbn [memory ctxs] in *; try apply ch_none.
  - pose proof (worker_frame (clock w) j q (memory w) (ctxs w j q)) as Hfr. rewrite Hst in Hfr. cbn in Hfr.
    destruct (decide (i = j)) as [<-|Hne].
    + assert (r ≠ q) as Hrq.
      { intros <-. rewrite set_ctx_same in Hsame. apply (leaving_moves (clock w) i r (memory w) _ Hl). by rewrite Hst. }
      pose proof (worker_acts _ (clock w) i q (memory w) (ctxs w i q) (inv_count _ HI) (proj2 Hjq) eq_refl
        (inv_status _ HI) (inv_group _ HI i (proj1 Hjq)) (inv_worker _ HI i q Hjq)) as Ha. rewrite Hst in Ha.
      apply (ac_change _ _ _ _ _ _ _ Ha); [done|apply Hir| |]; [by apply (inv_init _ HI)|by apply (inv_clear _ HI)].
    + destruct (fr_other _ _ _ Hfr i (inv_status _ HI) Hne) as [-> | ->]; [apply ch_none|apply ch_fail].
  - pose proof (coordinator_acts (clock w) (memory w) (inv_status _ HI) (inv_owner _ HI) (inv_group _ HI) _ (inv_coord _ HI)) as Ha.
    rewrite Hst in Ha. apply (ca_change _ _ _ Ha), Hir.
  - destruct (view_fail (memory w) reason i (inv_status _ HI)) as [-> _]. apply ch_fail.
  - rewrite view_on_slot. apply ch_none.
Qed.

Lemma step_count w w' : step w w' → worker_count (memory w') = worker_count (memory w).
Proof.
  intros [i r sh c Hir Hst|sh p Hst|i r Hir Hp|i r Hir Hp|i r seq grant Hir Hp|i r reason Hir _|i r Hir _|t _]; cbn; try done.
  - pose proof (worker_frame (clock w) i r (memory w) (ctxs w i r)) as Hfr. rewrite Hst in Hfr. apply Hfr.
  - revert Hst. destruct (coord w); cbn; intros Hst; simplify_eq; try done;
      repeat case_match; simplify_eq; try done; unfold fail_pair; try (by destruct (_ =? _)).
    by destruct k as [|[|[|[|]]]].
  - unfold fail_pair. by destruct (_ =? _).
Qed.

(** A worker in the first loop of [ps_enter_forward] stays there while the round drains. *)
Lemma waits_in_loop w w' i q :
  step w w' → g_state (groups (memory w) i) = ROUND_DRAINING → c_pc (ctxs w i q) = ELoop → c_pc (ctxs w' i q) = ELoop.
Proof.
  intros [j p sh c Hir Hst|sh p Hst|j p Hir Hp|j p Hir Hp|j p seq grant Hir Hp|j p reason Hir _|j p Hir _|t _] Hd He; cbn; try done;
    (destruct (decide (i = j ∧ q = p)) as [[-> ->]|Hne]; [rewrite set_ctx_same|by rewrite set_ctx_other]); try congruence.
  unfold worker_step, enter_step in Hst. rewrite He, Hd in Hst. cbn in Hst. by simplify_eq.
Qed.

(** When a worker dies after it has completed a round and before it has set its exit bit,
    a worker of the same instance that has entered its next round never returns from
    [ps_enter_forward]: the round drains forever, and neither a failure of the pair nor
    the passing of time ends the wait. *)
Theorem draining_wait_hangs w w' i r q :
  reachable w → rank_of (worker_count (memory w)) i r → leaving (ctxs w i r) = true →
  g_state (groups (memory w) i) = ROUND_DRAINING → c_pc (ctxs w i q) = ELoop →
  rtc (others i r) w w' →
  g_state (groups (memory w') i) = ROUND_DRAINING ∧ c_pc (ctxs w' i q) = ELoop.
Proof.
  intros HI%reachable_inv Hir Hl Hd He Hrtc. revert HI Hir Hl Hd He.
  induction Hrtc as [|w1 w2 w3 Ho Hrtc IH]; [done|]. intros HI Hir Hl Hd He. pose proof Ho as [Hst Hsame].
  apply IH.
  - by apply (step_inv w1).
  - by rewrite (step_count w1).
  - by rewrite Hsame.
  - pose proof (others_change i r w1 w2 HI Hir Hl Ho) as Hch. apply (change_draining _ _ _ _ Hch); try done.
    + apply testbit_expected; [apply HI|apply Hir].
    + apply (leaving_exit _ _ (ctxs w1 i r)); [by apply HI|done..].
  - by apply (waits_in_loop w1).
Qed.

(** Rank 0 completes its round and dies in its wait; rank 1 completes, the coordinator
    lets the round drain without looking at rank 0, and rank 1 enters again. *)
Definition drain_run : list action :=
  open_all ++ grant_round 0 ++ ALeave 0 0 :: steps 10 0 0 ++ ALeave 0 1 :: steps 12 0 1 ++ ticks 60 ++ steps 5 0 1
  ++ AEnter 0 1 :: steps 1 0 1.

Lemma drain_run_hangs w' :
  rtc (others 0 0) (after drain_run) w' → c_pc (ctxs w' 0 1) = ELoop.
Proof.
  intros Hrtc. eapply (draining_wait_hangs (after drain_run) w' 0 0 1); [apply after_reachable|apply rank_ofb_spec| | | |done];
    vm_compute; reflexivity.
Qed.

(** The pair is still running in that state, long after every timeout has passed. *)
Lemma draining_not_detected :
  is_running (sh_status (memory (after (drain_run ++ AClock (10 ^ 15) :: AHeartbeat 0 1 :: AHeartbeat 1 0
    :: AHeartbeat 1 1 :: ticks 200)))) = true.
Proof. vm_compute. reflexivity. Qed.

(** A rank that is opened after its instance has begun its first round takes the running
    round's number as its last one, and its first call fails the pair. *)
Lemma late_open_fails :
  let w := after (steps 10 0 0 ++ AEnter 0 0 :: steps 14 0 0 ++ AOpen 0 1 :: steps 12 0 1 ++ AEnter 0 1 :: steps 5 0 1) in
  status_state (sh_status (memory w)) = PS_FAILED ∧ status_reason (sh_status (memory w)) = FAIL_FENCING.
Proof. vm_compute. done. Qed.
