(* ===== verification/PairGate.v ===== *)
(** * The gate of a worker

    scheduler/src/vllm_pair_scheduler/gate.py and config.py, and the two functions that
    patches/vllm-pair-elastic-scheduling.patch wraps around a worker's [execute_model]
    and [sample_tokens].  The native library, the model and the caller of the worker are
    arguments; [E] of a gate method is the library on its own, so every statement
    holds for whatever the calls return. *)

From stdpp Require Import strings.
From S2P Require Import Prelude PairProtocol PairInv PairSafe.
#[local] Open Scope Z_scope.

(** ** config.py *)

Record PairSchedulerConfig := mkConfig {
  mode : string;
  role : option string;
  instance_id : option string;
  pair_id : option string;
  init_timeout_ms : Z;
  cfg_forward_timeout_ms : Z;
  heartbeat_ms : Z;
  cfg_peer_timeout_ms : Z;
}.

Definition is_str (o : option string) (s : string) : bool := bool_decide (o = Some s).

(** [PairSchedulerConfig.__post_init__]. *)
Definition post_init (c : PairSchedulerConfig) : res unit :=
  RAISE ValueError IF negb (bool_decide (mode c = "off") || bool_decide (mode c = "elastic"))%string;
  if bool_decide (mode c = "off"%string) then Ok tt else
  RAISE ValueError IF negb (is_str (role c) "primary" || is_str (role c) "standby");
  RAISE ValueError IF negb (is_str (instance_id c) "A" || is_str (instance_id c) "B");
  RAISE ValueError IF bool_decide (default "" (pair_id c) = "")%string;
  RAISE ValueError IF is_str (role c) "primary" && negb (is_str (instance_id c) "A");
  RAISE ValueError IF is_str (role c) "standby" && negb (is_str (instance_id c) "B");
  RAISE ValueError IF (init_timeout_ms c <=? 0) || (cfg_forward_timeout_ms c <=? 0)
                      || (heartbeat_ms c <=? 0) || (cfg_peer_timeout_ms c <=? 0);
  RAISE ValueError IF cfg_peer_timeout_ms c <=? heartbeat_ms c * 2;
  Ok tt.

(** The constructor with the defaults of the class. *)
Definition make_config (m : string) (r i p : option string) : res PairSchedulerConfig :=
  let c := mkConfig m r i p 30000 30000 100 1000 in _ ← post_init c; Ok c.

(** [str.strip] and [str.lower] on ASCII text. *)
Definition code (a : Ascii.ascii) : Z := Z.of_N (Ascii.N_of_ascii a).
Definition is_space (a : Ascii.ascii) : bool :=
  ((9 <=? code a) && (code a <=? 13)) || ((28 <=? code a) && (code a <=? 32)).
Definition to_lower (a : Ascii.ascii) : Ascii.ascii :=
  if (65 <=? code a) && (code a <=? 90) then Ascii.ascii_of_N (Z.to_N (code a + 32)) else a.
Fixpoint lstrip (l : list Ascii.ascii) : list Ascii.ascii :=
  match l with a :: l' => if is_space a then lstrip l' else l | [] => [] end.
Definition strip (l : list Ascii.ascii) : list Ascii.ascii := reverse (lstrip (reverse (lstrip l))).
Definition decodable (l : list Ascii.ascii) : bool := forallb (λ a, code a <? 128) l.

(** [PairSchedulerConfig.from_install]: the text of the role file, [None] when there is none. *)
Definition from_install (role_file : option string) : res PairSchedulerConfig :=
  match role_file with
  | None => make_config "off" None None None
  | Some text =>
      RAISE ValueError IF negb (decodable (String.list_ascii_of_string text));
      let r := String.string_of_list_ascii (to_lower <$> strip (String.list_ascii_of_string text)) in
      RAISE ValueError IF negb (bool_decide (r = "primary") || bool_decide (r = "standby"))%string;
      make_config "elastic" (Some r) (Some (if bool_decide (r = "primary"%string) then "A" else "B")%string)
        (Some "default"%string)
  end.

(** The instance number that [_native_open] passes, and [self._creator]. *)
Definition native_instance (c : PairSchedulerConfig) : Z := if is_str (instance_id c) "A" then 0 else 1.
Definition is_creator (c : PairSchedulerConfig) (worker_rank : Z) : bool := is_str (role c) "primary" && (worker_rank =? 0).

(** The checks of [SharedMemoryForwardGate.__init__]. *)
Definition gate_init (c : PairSchedulerConfig) (worker_rank count : Z) : res unit :=
  RAISE ValueError IF negb (bool_decide (mode c = "elastic"%string));
  RAISE ValueError IF (count <? 1) || (64 <? count);
  RAISE ValueError IF (worker_rank <? 0) || (count <=? worker_rank);
  Ok tt.

(** What an accepted gate may rely on. *)
Lemma post_init_elastic c :
  post_init c = Ok tt → mode c = "elastic"%string →
  (role c = Some "primary" ∧ instance_id c = Some "A" ∨ role c = Some "standby" ∧ instance_id c = Some "B")%string
  ∧ 0 < heartbeat_ms c ∧ 2 * heartbeat_ms c < cfg_peer_timeout_ms c ∧ 0 < cfg_forward_timeout_ms c ∧ 0 < init_timeout_ms c.
Proof.
  unfold post_init, is_str. intros H Hm. rewrite Hm in H. cbn in H.
  repeat case_bool_decide; cbn in H; try done; simplify_eq;
    repeat (match goal with H : context [if ?b then _ else _] |- _ => destruct b eqn:? end; try done);
    rewrite ?orb_false_iff, ?Z.leb_gt in *; split_and!; try lia; auto; congruence.
Qed.

Lemma make_elastic r i p c :
  make_config "elastic" r i p = Ok c →
  c = mkConfig "elastic" r i p 30000 30000 100 1000 ∧ post_init c = Ok tt.
Proof. unfold make_config. destruct (post_init _) as [[]|] eqn:E; cbn; [|done]. intros [= <-]. done. Qed.

(** An accepted gate of an installed role satisfies what the protocol assumes of a rank:
    its instance and rank are in range, and it creates the shared memory exactly when it
    is rank 0 of instance 0. *)
Lemma install_profile text c worker_rank count :
  from_install (Some text) = Ok c → gate_init c worker_rank count = Ok tt →
  rank_of count (native_instance c) worker_rank ∧ 1 ≤ count ≤ PS_MAX_WORKERS
  ∧ (is_creator c worker_rank = true ↔ native_instance c = 0 ∧ worker_rank = 0)
  ∧ 2 * heartbeat_ms c < cfg_peer_timeout_ms c.
Proof.
  intros Hc Hg. unfold from_install in Hc. destruct (negb _); [done|].
  destruct (negb _); [done|]. apply make_elastic in Hc as [Hc Hp].
  assert (mode c = "elastic"%string) as Hm by (by rewrite Hc).
  destruct (post_init_elastic c Hp Hm) as (Hri & H1 & H2 & _).
  unfold gate_init in Hg. rewrite Hm in Hg. cbn in Hg.
  destruct ((count <? 1) || (64 <? count)) eqn:E1; [done|]. destruct ((worker_rank <? 0) || _) eqn:E2; [done|].
  apply orb_false_iff in E1 as [?%Z.ltb_ge ?%Z.ltb_ge]. apply orb_false_iff in E2 as [?%Z.ltb_ge ?%Z.leb_gt].
  unfold native_instance, is_creator, is_str, rank_of, PS_MAX_WORKERS.
  destruct Hri as [[-> ->]|[-> ->]]; rewrite ?bool_decide_eq_true_2 by done;
    rewrite ?(bool_decide_eq_false_2 (Some "B" = Some "A")%string), ?(bool_decide_eq_false_2 (Some "standby" = Some "primary")%string) by done;
    cbn; rewrite ?Z.eqb_eq; split_and!; try lia; try done.
Qed.

(** ** gate.py and the wrapped worker *)

(** The native library and the model, as functions of the state [S] of the world. *)
Record environment (S : Type) := mkEnv {
  lib_enter : S → (Z * (Z * Z)) * S;         (* rc, sequence and grant *)
  lib_leave : Z → Z → S → Z * S;
  lib_fail : Z → S → S;
  lib_close : S → S;
  execute_model : Z → S → res (option Z) * S;   (* a batch is its number of tokens *)
  sample_tokens : S → res Z * S;
}.
Arguments lib_enter {S}. Arguments lib_leave {S}. Arguments lib_fail {S}. Arguments lib_close {S}.
Arguments execute_model {S}. Arguments sample_tokens {S}.

(** The state of a worker: [_ctx is not None] and [_active_round] of its gate,
    [active_round] of the closures, and the world. *)
Record wstate (S : Type) := mkW {
  gate_open : bool;
  gate_active : option (Z * Z);
  active_round : option (Z * Z);
  env_state : S;
}.
Arguments mkW {S}. Arguments gate_open {S}. Arguments gate_active {S}. Arguments active_round {S}. Arguments env_state {S}.

Section gate.
Context {S : Type} (E : environment S).

Definition w_set_active (w : wstate S) (r : option (Z * Z)) := mkW (gate_open w) (gate_active w) r (env_state w).
Definition w_set_env (w : wstate S) (s : S) := mkW (gate_open w) (gate_active w) (active_round w) s.
Definition w_set_gate (w : wstate S) (r : option (Z * Z)) (s : S) := mkW (gate_open w) r (active_round w) s.

(** [SharedMemoryForwardGate.enter_forward]; all its errors are [RuntimeError]s. *)
Definition enter_forward (w : wstate S) : res (Z * Z) * wstate S :=
  if negb (gate_open w) then (Err RuntimeError, w)
  else
    let '((rc, token), s) := lib_enter E (env_state w) in
    if negb (rc =? 0) then (Err RuntimeError, w_set_env w s) else (Ok token, w_set_gate w (Some token) s).

(** [SharedMemoryForwardGate.leave_forward]. *)
Definition leave_forward (w : wstate S) (seq grant : Z) : res unit * wstate S :=
  if negb (gate_open w) then (Err RuntimeError, w)
  else
    let '(rc, s) := lib_leave E seq grant (env_state w) in
    if negb (rc =? 0) then (Err RuntimeError, w_set_env w s)
    else (Ok tt, w_set_gate w (if bool_decide (gate_active w = Some (seq, grant)) then None else gate_active w) s).

(** [SharedMemoryForwardGate.fail] and [close]. *)
Definition gate_fail (w : wstate S) (reason : Z) : wstate S :=
  if gate_open w then w_set_env w (lib_fail E reason (env_state w)) else w.
Definition gate_close (w : wstate S) : wstate S :=
  if gate_open w then mkW false (gate_active w) (active_round w) (lib_close E (env_state w)) else w.

(** The compatibility wrappers [acquire] and [complete]. *)
Definition acquire (w : wstate S) : res Z * wstate S :=
  let '(r, w) := enter_forward w in (snd <$> r, w).
Definition complete (w : wstate S) (grant : Z) : res unit * wstate S :=
  match gate_active w with
  | Some (seq, g) => if negb (g =? grant) then (Err RuntimeError, w) else leave_forward w seq grant
  | None => (Err RuntimeError, w)
  end.

(** [except Exception: active_round = None; gate.fail(reason); raise]. *)
Definition abandon {A} (w : wstate S) (e : pyexn) (reason : Z) : res A * wstate S :=
  (Err e, gate_fail (w_set_active w None) reason).

(** [gated_execute_model]. *)
Definition gated_execute_model (w : wstate S) (tokens : Z) : res (option Z) * wstate S :=
  if tokens <=? 0 then let '(r, s) := execute_model E tokens (env_state w) in (r, w_set_env w s)
  else if bool_decide (active_round w ≠ None) then (Err RuntimeError, gate_fail w 203)
  else
    match enter_forward w with
    | (Err e, w) => (Err e, w)
    | (Ok (seq, grant), w) =>
        let w := w_set_active w (Some (seq, grant)) in
        let '(r, s) := execute_model E tokens (env_state w) in
        let w := w_set_env w s in
        match r with
        | Err e => abandon w e 201
        | Ok None => (Ok None, w)
        | Ok (Some out) =>
            match leave_forward w seq grant with
            | (Err e, w) => abandon w e 201
            | (Ok _, w) => (Ok (Some out), w_set_active w None)
            end
        end
    end.

(** [gated_sample_tokens]. *)
Definition sample_in_round (w : wstate S) (seq grant : Z) : res Z * wstate S :=
  let '(r, s) := sample_tokens E (env_state w) in
  let w := w_set_env w s in
  match r with
  | Err e => abandon w e 202
  | Ok out =>
      match leave_forward w seq grant with
      | (Err e, w) => abandon w e 202
      | (Ok _, w) => (Ok out, w_set_active w None)
      end
  end.
Definition gated_sample_tokens (w : wstate S) : res Z * wstate S :=
  match active_round w with
  | Some (seq, grant) => sample_in_round w seq grant
  | None =>
      match enter_forward w with
      | (Err e, w) => (Err e, w)
      | (Ok (seq, grant), w) => sample_in_round (w_set_active w (Some (seq, grant))) seq grant
      end
  end.

(** The calls a worker receives; an exception leaves the worker in the state it has
    reached. *)
Inductive rpc := RExecute (tokens : Z) | RSample | RShutdown.
Definition serve (w : wstate S) (c : rpc) : wstate S :=
  match c with
  | RExecute tokens => (gated_execute_model w tokens).2
  | RSample => (gated_sample_tokens w).2
  | RShutdown => gate_close w
  end.
Definition serve_all (w : wstate S) (l : list rpc) : wstate S := foldl serve w l.
End gate.

(** ** The rules *)

(** What the library promises.  [holds] is the round a context holds, [running] is the
    status of the pair. *)
Class Library {S} (E : environment S) (holds : S → option (Z * Z)) (running : S → bool) := {
  li_enter s rc token s' : holds s = None → lib_enter E s = ((rc, token), s') →
    (rc = 0 → holds s' = Some token) ∧ (rc ≠ 0 → running s' = false);
  li_leave s seq grant rc s' : holds s = Some (seq, grant) → lib_leave E seq grant s = (rc, s') →
    (rc = 0 → holds s' = None) ∧ (rc ≠ 0 → running s' = false);
  li_fail s reason : running (lib_fail E reason s) = false;
  li_close s : holds s ≠ None → running (lib_close E s) = false;
  li_closed s : holds s = None → holds (lib_close E s) = None;
  li_execute s tokens : holds (execute_model E tokens s).2 = holds s;
  li_sample s : holds (sample_tokens E s).2 = holds s;
  li_down s tokens seq grant : running s = false →
    running (lib_enter E s).2 = false ∧ running (lib_leave E seq grant s).2 = false ∧ running (lib_close E s) = false
    ∧ running (execute_model E tokens s).2 = false ∧ running (sample_tokens E s).2 = false;
}.

(** A monitor of the environment: the library's context is alive, and no rule has been
    broken.  The rules are those of PairFence: a worker enters only outside of a round
    and leaves with the tokens of its round, unless the pair has failed; it does not use
    a context after closing it; and it runs the model on tokens, or samples, only in a
    round or in a failed pair. *)
Record monitored (S : Type) := mkMon { mon_state : S; alive : bool; clean : bool }.
Arguments mkMon {S}. Arguments mon_state {S}. Arguments alive {S}. Arguments clean {S}.

Section monitor.
Context {S : Type} (E : environment S) (holds : S → option (Z * Z)) (running : S → bool).

Definition watch (m : monitored S) (context rule : bool) (s' : S) : monitored S :=
  mkMon s' (alive m) (clean m && context && (rule || negb (running (mon_state m)))).

Definition monitor : environment (monitored S) := {|
  lib_enter m := let '(r, s) := lib_enter E (mon_state m) in
    (r, watch m (alive m) (bool_decide (holds (mon_state m) = None)) s);
  lib_leave seq grant m := let '(r, s) := lib_leave E seq grant (mon_state m) in
    (r, watch m (alive m) (bool_decide (holds (mon_state m) = Some (seq, grant))) s);
  lib_fail reason m := watch m (alive m) true (lib_fail E reason (mon_state m));
  lib_close m := mkMon (lib_close E (mon_state m)) false (clean m && alive m);
  execute_model tokens m := let '(r, s) := execute_model E tokens (mon_state m) in
    (r, watch m true ((tokens <=? 0) || bool_decide (holds (mon_state m) ≠ None)) s);
  sample_tokens m := let '(r, s) := sample_tokens E (mon_state m) in
    (r, watch m true (bool_decide (holds (mon_state m) ≠ None)) s);
|}.

Context `{!Library E holds running}.

(** The closures' round is the one the library holds, as long as the pair runs. *)
Record in_step (w : wstate (monitored S)) : Prop := {
  is_alive : gate_open w = alive (env_state w);
  is_clean : clean (env_state w) = true;
  is_round : running (mon_state (env_state w)) = false ∨ active_round w = holds (mon_state (env_state w));
  is_closed : gate_open w = false → running (mon_state (env_state w)) = false ∨ holds (mon_state (env_state w)) = None;
}.

Lemma rule_holds rule s : running s = false ∨ rule = true → rule || negb (running s) = true.
Proof. intros [-> | ->]; [apply orb_true_r|done]. Qed.

Lemma enter_in_step w :
  in_step w → active_round w = None →
  match enter_forward monitor w with
  | (Ok token, w') => in_step (w_set_active w' (Some token))
  | (Err _, w') => in_step w'
  end.
Proof.
  intros [H1 H2 H3 H4] Ha. unfold enter_forward. destruct (gate_open w) eqn:Eo; cbn [negb]; [|split; by rewrite ?Eo].
  cbn [lib_enter monitor]. destruct (lib_enter E (mon_state (env_state w))) as [[rc token] s] eqn:El.
  assert (clean (watch (env_state w) (alive (env_state w)) (bool_decide (holds (mon_state (env_state w)) = None)) s) = true) as Hc.
  { cbn. rewrite H2, <- H1. cbn. apply rule_holds. destruct H3 as [|H3]; [by left|right]. apply bool_decide_eq_true. by rewrite <- H3. }
  destruct H3 as [Hd|H3].
  - destruct (li_down (mon_state (env_state w)) 0 0 0 Hd) as (Hr & _). rewrite El in Hr.
    destruct (negb (rc =? 0)); cbn [negb]; split; cbn [gate_open env_state w_set_env w_set_gate w_set_active active_round]; rewrite ?Eo; try done; by left.
  - rewrite Ha in H3. destruct (li_enter _ _ _ _ (eq_sym H3) El) as [L1 L2].
    destruct (rc =? 0) eqn:Er; to_prop; cbn [negb]; split; cbn [gate_open env_state w_set_env w_set_gate w_set_active active_round]; rewrite ?Eo; try done.
    + right. cbn. by rewrite L1.
    + left. by apply L2.
Qed.

(** [leave_forward] with the round of the closures; [active_round = None] follows. *)
Lemma leave_in_step w seq grant :
  in_step w → active_round w = Some (seq, grant) →
  match leave_forward monitor w seq grant with
  | (Ok _, w') => in_step (w_set_active w' None)
  | (Err _, w') => gate_open w' = alive (env_state w') ∧ clean (env_state w') = true
      ∧ (gate_open w' = false → running (mon_state (env_state w')) = false ∨ holds (mon_state (env_state w')) = None)
  end.
Proof.
  intros [H1 H2 H3 H4] Ha. unfold leave_forward. destruct (gate_open w) eqn:Eo; cbn [negb]; [|by rewrite Eo; split_and!].
  cbn [lib_leave monitor]. destruct (lib_leave E seq grant (mon_state (env_state w))) as [rc s] eqn:El.
  assert (clean (watch (env_state w) (alive (env_state w)) (bool_decide (holds (mon_state (env_state w)) = Some (seq, grant))) s) = true) as Hc.
  { cbn. rewrite H2, <- H1. cbn. apply rule_holds. destruct H3 as [|H3]; [by left|right]. apply bool_decide_eq_true. by rewrite <- H3. }
  destruct (rc =? 0) eqn:Er; to_prop; cbn [negb].
  - split; cbn [gate_open env_state w_set_env w_set_gate w_set_active active_round]; rewrite ?Eo; try done.
    destruct H3 as [Hd|H3].
    + left. destruct (li_down (mon_state (env_state w)) 0 seq grant Hd) as (_ & Hr & _). by rewrite El in Hr.
    + right. rewrite Ha in H3. destruct (li_leave _ _ _ _ _ (eq_sym H3) El) as [L1 _]. cbn. by rewrite L1.
  - cbn. by rewrite Eo.
Qed.

Lemma abandon_in_step {A} w e reason :
  gate_open w = alive (env_state w) → clean (env_state w) = true →
  (gate_open w = false → running (mon_state (env_state w)) = false ∨ holds (mon_state (env_state w)) = None) →
  in_step (abandon (A := A) monitor w e reason).2.
Proof.
  intros H1 H2 H3. unfold abandon, gate_fail. cbn [snd]. cbn [gate_open w_set_active].
  destruct (gate_open w) eqn:Eo; split; cbn; rewrite ?Eo, ?H2, <- ?H1; try done; try (left; apply li_fail).
  destruct (H3 eq_refl) as [|H]; [by left|right; by rewrite H].
Qed.

(** A run of the model or of the sampler. *)
Lemma model_in_step w s :
  in_step w → clean s = true → alive s = alive (env_state w) → holds (mon_state s) = holds (mon_state (env_state w)) →
  (running (mon_state (env_state w)) = false → running (mon_state s) = false) → in_step (w_set_env w s).
Proof.
  intros [H1 H2 H3 H4] Hc Ha Hh Hd. split; cbn; rewrite ?Hh; try done; [by rewrite Ha|naive_solver..].
Qed.

Lemma execute_in_step w tokens :
  in_step w → tokens ≤ 0 ∨ active_round w ≠ None → in_step (w_set_env w (execute_model monitor tokens (env_state w)).2).
Proof.
  intros Hw Ht. pose proof (li_execute (mon_state (env_state w)) tokens) as He.
  pose proof (li_down (mon_state (env_state w)) tokens 0 0) as Hd. destruct Hw as [H1 H2 H3 H4].
  cbn [execute_model monitor]. destruct (execute_model E tokens _) as [r s] eqn:Ee. cbn [snd] in *.
  apply model_in_step; cbn; try done; [|naive_solver]. rewrite H2. cbn. apply rule_holds.
  destruct H3 as [|H3]; [by left|right]. rewrite <- H3. destruct Ht as [Ht|Ht]; [by rewrite (proj2 (Z.leb_le _ _))|].
  by rewrite bool_decide_eq_true_2, orb_true_r.
Qed.

Lemma sample_in_step w : in_step w → active_round w ≠ None → in_step (w_set_env w (sample_tokens monitor (env_state w)).2).
Proof.
  intros Hw Ht. pose proof (li_sample (mon_state (env_state w))) as He.
  pose proof (li_down (mon_state (env_state w)) 0 0 0) as Hd. destruct Hw as [H1 H2 H3 H4].
  cbn [sample_tokens monitor]. destruct (sample_tokens E _) as [r s] eqn:Ee. cbn [snd] in *.
  apply model_in_step; cbn; try done; [|naive_solver]. rewrite H2. cbn. apply rule_holds.
  destruct H3 as [|H3]; [by left|right]. rewrite <- H3. by apply bool_decide_eq_true.
Qed.

Lemma gated_execute_in_step w tokens : in_step w → in_step (gated_execute_model monitor w tokens).2.
Proof.
  intros Hw. unfold gated_execute_model. destruct (tokens <=? 0) eqn:Et; to_prop.
  { pose proof (execute_in_step w tokens Hw (or_introl Et)) as H. by destruct (execute_model monitor _ _). }
  case_bool_decide as Ha.
  { pose proof Hw as [H1 H2 H3 H4]. unfold gate_fail. cbn [snd]. destruct (gate_open w) eqn:Eo; [|done].
    split; cbn; rewrite ?Eo, ?H2, <- ?H1; try done; left; apply li_fail. }
  pose proof (enter_in_step w Hw Ha) as He. destruct (enter_forward monitor w) as [[[seq grant]|e] w1]; [|done].
  set (w2 := w_set_active w1 _) in *. assert (active_round w2 ≠ None) as Hw2 by done.
  pose proof (execute_in_step w2 tokens He (or_intror Hw2)) as H3.
  destruct (execute_model monitor tokens (env_state w2)) as [r s]. cbn [snd] in H3. set (w3 := w_set_env w2 s) in *.
  destruct r as [[out|]|e]; [|done|by apply abandon_in_step; apply H3].
  pose proof (leave_in_step w3 seq grant H3 eq_refl) as Hl. destruct (leave_forward monitor w3 seq grant) as [[[]|e] w4]; [done|].
  by apply abandon_in_step; apply Hl.
Qed.

Lemma sample_round_in_step w seq grant :
  in_step w → active_round w = Some (seq, grant) → in_step (sample_in_round monitor w seq grant).2.
Proof.
  intros Hw Ha. unfold sample_in_round. pose proof (sample_in_step w Hw ltac:(by rewrite Ha)) as H3.
  destruct (sample_tokens monitor (env_state w)) as [r s]. cbn [snd] in H3. set (w3 := w_set_env w s) in *.
  destruct r as [out|e]; [|by apply abandon_in_step; apply H3].
  pose proof (leave_in_step w3 seq grant H3 Ha) as Hl. destruct (leave_forward monitor w3 seq grant) as [[[]|e] w4]; [done|].
  by apply abandon_in_step; apply Hl.
Qed.

Lemma gated_sample_in_step w : in_step w → in_step (gated_sample_tokens monitor w).2.
Proof.
  intros Hw. unfold gated_sample_tokens. destruct (active_round w) as [[seq grant]|] eqn:Ha; [by apply sample_round_in_step|].
  pose proof (enter_in_step w Hw Ha) as He. destruct (enter_forward monitor w) as [[[seq grant]|e] w1]; [|done].
  by apply sample_round_in_step.
Qed.

Lemma serve_in_step w c : in_step w → in_step (serve monitor w c).
Proof.
  intros Hw. destruct c as [tokens| |]; cbn [serve]; [by apply gated_execute_in_step|by apply gated_sample_in_step|].
  pose proof Hw as [H1 H2 H3 H4]. unfold gate_close. destruct (gate_open w) eqn:Eo; [|done]. cbn [lib_close monitor].
  set (s := mon_state (env_state w)) in *. assert (running (lib_close E s) = false ∨ holds s = None) as Hcl.
  { destruct (holds s) eqn:Eh; [left; apply li_close; congruence|by right]. }
  split; cbn; rewrite ?H2, <- ?H1; try done.
  - destruct Hcl as [|Hh]; [by left|]. rewrite (li_closed s Hh). destruct H3 as [Hd|H3]; [left; by apply (li_down s 0 0 0 Hd)|right; congruence].
  - intros _. destruct Hcl as [|Hh]; [by left|right; by apply li_closed].
Qed.
End monitor.

(** A worker whose gate has just been created, with a monitor that has seen nothing. *)
Definition fresh_worker {S} (s : S) : wstate (monitored S) := mkW true None None (mkMon s true true).

(** C12: whatever requests a worker gets, whatever the model and the sampler return or
    raise, and whatever the library answers within its laws ([Library]), the wrapped worker follows the rules of the library: it
    enters only outside of a round and leaves with the tokens it was given, as long as
    the pair has not failed; it never uses the context after closing it; and every
    non-empty batch and every sampling run inside a granted round. *)
Theorem gated_calls_follow_rules {S} (E : environment S) (holds : S → option (Z * Z)) (running : S → bool)
  `{!Library E holds running} s l :
  holds s = None → clean (env_state (serve_all (monitor E holds running) (fresh_worker s) l)) = true.
Proof.
  intros Hs. assert (in_step holds running (serve_all (monitor E holds running) (fresh_worker s) l)) as Hl; [|apply Hl].
  assert (in_step holds running (fresh_worker s)) as H0 by (split; cbn; [done..|by right|done]).
  revert H0. generalize (fresh_worker s). induction l as [|c l IH]; intros w Hw; [done|].
  apply IH. by apply serve_in_step.
Qed.

(** The library keeps the promises of [Library]: a call of pair_sched.c that returns an
    error leaves a pair that has failed, and one that returns a grant holds it. *)
Lemma native_error w i r :
  reachable w → rank_of (worker_count (memory w)) i r → c_pc (ctxs w i r) = PIdle →
  c_failed (ctxs w i r) = true → is_running (sh_status (memory w)) = false.
Proof.
  intros HI%reachable_inv Hir Hp Hf. destruct (wo_stuck _ _ _ (inv_worker _ HI i r Hir) Hf) as [_ H].
  apply H. by rewrite Hp.
Qed.

Lemma native_grant w i r :
  reachable w → rank_of (worker_count (memory w)) i r → c_pc (ctxs w i r) = PIdle →
  c_failed (ctxs w i r) = false → active_seq (ctxs w i r) ≠ 0 →
  owner (memory w) = i ∧ g_state (groups (memory w) i) = ROUND_RUNNING.
Proof.
  intros HI%reachable_inv Hir Hp Hf Ha. pose proof (wo_phase _ _ _ (inv_worker _ HI i r Hir) Hf) as Hph.
  unfold phase in Hph. rewrite Hp in Hph. destruct (Hph Ha) as (H1 & H2 & _). cbn in *. to_prop. done.
Qed.

(** ** A sequential library *)

(** The round held, the number of grants so far, and whether the pair runs; a batch of
    13 tokens raises, and a batch with an even number of tokens is sampled later. *)
Definition demo_state : Type := option (Z * Z) * Z * bool.
Definition demo_env : environment demo_state := mkEnv demo_state
  (λ '(h, n, run), if run then ((0, (n + 1, n + 1)), (Some (n + 1, n + 1), n + 1, run)) else ((-1, (0, 0)), (h, n, run)))
  (λ seq grant '(h, n, run),
    if run && bool_decide (h = Some (seq, grant)) then (0, (None, n, run)) else (-1, (h, n, false)))
  (λ _ '(h, n, _), (h, n, false))
  (λ '(h, n, run), (h, n, run && bool_decide (h = None)))
  (λ tokens s,
    (if tokens =? 13 then Err RuntimeError else if Z.even tokens then Ok None else Ok (Some tokens), s))
  (λ s, (Ok 1, s)).
Definition demo_holds (s : demo_state) : option (Z * Z) := s.1.1.
Definition demo_running (s : demo_state) : bool := s.2.

#[export] Instance demo_library : Library demo_env demo_holds demo_running.
Proof.
  unfold demo_holds, demo_running. split; cbn.
  - intros [[h n] run] rc token s'. destruct run; intros _ [= <- <- <-]; by split.
  - intros [[h n] run] seq grant rc s'. cbn. intros ->. rewrite bool_decide_eq_true_2 by done.
    destruct run; intros [= <- <-]; by split.
  - by intros [[h n] run] reason.
  - intros [[h n] run] Hh. cbn in *. rewrite bool_decide_eq_false_2 by done. apply andb_false_r.
  - intros [[h n] run]. done.
  - done.
  - done.
  - intros [[h n] run] tokens seq grant. cbn. intros ->. done.
Qed.

Lemma gated_calls_follow_rules_witness :
  let l := [RExecute 4; RSample; RExecute 7; RSample; RExecute 0; RExecute 13; RExecute 4; RShutdown; RSample] in
  clean (env_state (serve_all (monitor demo_env demo_holds demo_running) (fresh_worker (None, 0, true)) l)) = true.
Proof. apply (gated_calls_follow_rules demo_env demo_holds demo_running). reflexivity. Defined.
