(* ===== verification/PairInspect.v ===== *)
(** * Inspection of a pair

    The snapshot that pair_sched.c copies out of the shared memory, and its reading by
    scheduler/src/vllm_pair_scheduler/inspect.py.  The two are written in different
    languages and share only the positions of 548 words.  The ages in milliseconds and
    what is derived from them ([stale], [registration_complete]) are left out. *)

From stdpp Require Import strings.
From S2P Require Import Prelude PairProtocol PairInv.
#[local] Open Scope Z_scope.

(** ** pair_sched.c *)

(** The fields of [shared_state] that the protocol does not use. *)
Record layout := mkLayout {
  magic : Z;
  version : Z;
  size : Z;
  epoch : Z;
  lay_heartbeat_ms : Z;
  g_error : Z → Z;
}.

(** [(uint64_t)(int64_t)x] for an [int] x. *)
Definition word (x : Z) : Z := u64 x.

Definition head_words (l : layout) (sh : shared_state) : list Z :=
  let status := sh_status sh in
  [magic l; version l; epoch l; word (status_state status); word (status_reason status); word (owner sh);
   word (last_owner sh); deadline_ns sh; primary_heartbeat_ns sh; lay_heartbeat_ms l; peer_timeout_ms sh;
   forward_timeout_ms sh; next_grant_id sh; size l; worker_count sh; 0].
Definition group_words (l : layout) (sh : shared_state) (i : Z) : list Z :=
  let g := groups sh i in
  [word (g_state g); forward_seq g; grant_id g; ready_mask g; complete_mask g; exit_mask g; online_mask g;
   expected_mask sh; publish_ns g; word (g_error l i)].
Definition slot_words (s : worker_slot) : list Z :=
  [word (slot_pid s); slot_session s; slot_last_seq s; slot_heartbeat_ns s].

(** [copy_snapshot] into a buffer that is large enough. *)
Definition copy_snapshot (l : layout) (sh : shared_state) : list Z :=
  head_words l sh ++ group_words l sh 0 ++ group_words l sh 1
  ++ flat_map (λ r, slot_words (workers (groups sh 0) r)) (zrange 0 PS_MAX_WORKERS)
  ++ flat_map (λ r, slot_words (workers (groups sh 1) r)) (zrange 0 PS_MAX_WORKERS).

(** ** inspect.py *)

Definition signed (value : Z) : Z := if 2 ^ 63 <=? value then value - 2 ^ 64 else value.

(** A name, or [INVALID(value)]. *)
Inductive label := Named (s : string) | Invalid (value : Z).
Definition pick (names : list string) (value : Z) : label :=
  if (0 <=? value) && (value <? zlen names) then Named (default ""%string (names !! Z.to_nat value)) else Invalid value.
Definition GLOBAL_STATES : list string := ["INITIALIZING"; "RUNNING"; "FAILED"; "SHUTDOWN"]%string.
Definition ROUND_STATES : list string :=
  ["OFFLINE"; "IDLE"; "INITIALIZING"; "COLLECTING"; "READY"; "RUNNING"; "COMPLETE"; "DRAINING"]%string.

Definition owner_label (index : Z) : option label := if index =? -1 then None else Some (pick ["A"; "B"]%string index).

Record worker_report := mkWorkerReport {
  wr_rank : Z; wr_pid : Z; wr_session : Z; wr_last_seq : Z; wr_heartbeat_ns : Z;
  wr_online : bool; wr_ready : bool; wr_complete : bool;
}.
Record group_report := mkGroupReport {
  gr_state : label; gr_forward_seq : Z; gr_grant_id : Z; gr_ready_mask : Z; gr_complete_mask : Z; gr_exit_mask : Z;
  gr_registration_mask : Z; gr_expected_worker_mask : Z; gr_publish_ns : Z; gr_error : Z; gr_workers : list worker_report;
}.
Record report := mkReport {
  rp_protocol_version : Z; rp_epoch : Z; rp_state : label; rp_failure_reason : Z; rp_owner : option label;
  rp_last_owner : option label; rp_deadline_ns : Z; rp_primary_heartbeat_ns : Z; rp_heartbeat_ms : Z;
  rp_peer_timeout_ms : Z; rp_forward_timeout_ms : Z; rp_next_grant_id : Z; rp_layout_size : Z; rp_worker_count : Z;
  rp_a : group_report; rp_b : group_report;
}.

(** [bool(mask & (1 << rank))]. *)
Definition has_bit (mask rank : Z) : bool := negb (Z.land mask (Z.shiftl 1 rank) =? 0).

Section inspect.
Context (raw : list Z).

Definition inspect_worker (index online_mask ready_mask complete_mask rank : Z) : res worker_report :=
  let offset := 16 + 2 * 10 + (index * 64 + rank) * 4 in
  heartbeat_ns ← py_index raw (offset + 3);
  pid ← py_index raw offset;
  session ← py_index raw (offset + 1);
  last_seq ← py_index raw (offset + 2);
  Ok (mkWorkerReport rank (signed pid) session last_seq heartbeat_ns
        (has_bit online_mask rank) (has_bit ready_mask rank) (has_bit complete_mask rank)).

Definition inspect_group (index count : Z) : res group_report :=
  let base := 16 + index * 10 in
  ready ← py_index raw (base + 3);
  comp ← py_index raw (base + 4);
  exited ← py_index raw (base + 5);
  online ← py_index raw (base + 6);
  expected ← py_index raw (base + 7);
  ws ← rmap (inspect_worker index online ready comp) (zrange 0 count);
  st ← py_index raw base;
  seq ← py_index raw (base + 1);
  grant ← py_index raw (base + 2);
  publish ← py_index raw (base + 8);
  err ← py_index raw (base + 9);
  Ok (mkGroupReport (pick ROUND_STATES st) seq grant ready comp exited online expected publish (signed err) ws).

(** [inspect_pair] after [ps_inspect] has filled [raw]. *)
Definition inspect_pair (expected_epoch : Z) : res report :=
  ep ← py_index raw 2;
  RAISE RuntimeError IF negb (ep =? expected_epoch);
  peer ← py_index raw 10;
  primary ← py_index raw 8;
  count ← py_index raw 14;
  a ← inspect_group 0 count;
  b ← inspect_group 1 count;
  own ← py_index raw 5;
  last ← py_index raw 6;
  ver ← py_index raw 1;
  st ← py_index raw 3;
  reason ← py_index raw 4;
  deadline ← py_index raw 7;
  hb ← py_index raw 9;
  fwd ← py_index raw 11;
  next ← py_index raw 12;
  sz ← py_index raw 13;
  Ok (mkReport ver ep (pick GLOBAL_STATES st) reason (owner_label (signed own)) (owner_label (signed last)) deadline
        primary hb peer fwd next sz count a b).
End inspect.

(** [exit_code] of the command, given what it calls stale. *)
Definition exit_code (r : report) (stale : bool) : Z :=
  match rp_state r with
  | Named "FAILED" => 2
  | Named "RUNNING" => if stale then 3 else 0
  | _ => 3
  end%string.

(** ** The report of a shared memory *)

Definition worker_of (sh : shared_state) (i r : Z) : worker_report :=
  let g := groups sh i in let s := workers g r in
  mkWorkerReport r (slot_pid s) (slot_session s) (slot_last_seq s) (slot_heartbeat_ns s)
    (Z.testbit (online_mask g) r) (Z.testbit (ready_mask g) r) (Z.testbit (complete_mask g) r).
Definition group_of (l : layout) (sh : shared_state) (i : Z) : group_report :=
  let g := groups sh i in
  mkGroupReport (pick ROUND_STATES (word (g_state g))) (forward_seq g) (grant_id g) (ready_mask g) (complete_mask g) (exit_mask g)
    (online_mask g) (expected_mask sh) (publish_ns g) (g_error l i) (worker_of sh i <$> zrange 0 (worker_count sh)).
Definition report_of (l : layout) (sh : shared_state) : report :=
  mkReport (version l) (epoch l) (pick GLOBAL_STATES (word (status_state (sh_status sh)))) (word (status_reason (sh_status sh)))
    (owner_label (owner sh)) (owner_label (last_owner sh)) (deadline_ns sh) (primary_heartbeat_ns sh) (lay_heartbeat_ms l)
    (peer_timeout_ms sh) (forward_timeout_ms sh) (next_grant_id sh) (size l) (worker_count sh)
    (group_of l sh 0) (group_of l sh 1).

(** The C types of the fields. *)
Definition int_range (x : Z) : Prop := - 2 ^ 31 ≤ x < 2 ^ 31.
Record typed (l : layout) (sh : shared_state) : Prop := {
  ty_count : 1 ≤ worker_count sh ≤ PS_MAX_WORKERS;
  ty_owner : int_range (owner sh);
  ty_last : int_range (last_owner sh);
  ty_error i : int_range (g_error l i);
  ty_pid i r : int_range (slot_pid (workers (groups sh i) r));
}.

Lemma signed_word x : int_range x → signed (word x) = x.
Proof.
  intros Hx. unfold signed, word, u64, int_range in *. rewrite Z.land_ones by lia. destruct (Z.lt_ge_cases x 0).
  - rewrite (Z.mod_eq x (2 ^ 64)) by lia. assert (x / 2 ^ 64 = -1) as -> by (symmetry; apply (Z.div_unique_pos _ _ _ (x + 2 ^ 64)); lia).
    rewrite (proj2 (Z.leb_le _ _)); lia.
  - rewrite Z.mod_small by lia. rewrite (proj2 (Z.leb_gt _ _)); lia.
Qed.

Lemma has_bit_spec mask r : 0 ≤ r < 64 → has_bit mask r = Z.testbit mask r.
Proof.
  intros Hr. unfold has_bit. replace (Z.shiftl 1 r) with (bit r); [|rewrite bit_pow, Z.shiftl_1_l by lia; done].
  rewrite land_bit by lia. apply negb_involutive.
Qed.

Lemma index_lookup {A} (l : list A) i x : 0 ≤ i → l !! Z.to_nat i = Some x → py_index l i = Ok x.
Proof. intros Hi Hl. by apply py_index_nonneg. Qed.

Lemma lookup_blocks {A B} (f : A → list B) n l r x k :
  (∀ y, length (f y) = n) → l !! r = Some x → (k < n)%nat → flat_map f l !! (n * r + k)%nat = f x !! k.
Proof.
  intros Hn. revert r. induction l as [|y l IH]; intros r Hl Hk; [done|]. cbn. destruct r as [|r].
  - cbn in Hl. simplify_eq. rewrite Nat.mul_0_r. cbn. apply lookup_app_l. rewrite Hn. lia.
  - rewrite lookup_app_r by (rewrite Hn; lia). rewrite Hn. replace (n * S r + k - n)%nat with (n * r + k)%nat by lia. by apply IH.
Qed.

Definition slots (sh : shared_state) (i : Z) : list Z :=
  flat_map (λ r, slot_words (workers (groups sh i) r)) (zrange 0 PS_MAX_WORKERS).

Lemma length_slots sh i : length (slots sh i) = 256%nat.
Proof. reflexivity. Qed.

Lemma slots_lookup sh i r k :
  0 ≤ r < PS_MAX_WORKERS → (k < 4)%nat → slots sh i !! (4 * Z.to_nat r + k)%nat = slot_words (workers (groups sh i) r) !! k.
Proof.
  intros Hr Hk. apply (lookup_blocks (λ r, slot_words (workers (groups sh i) r)) 4 _ (Z.to_nat r) r); [done| |done].
  rewrite zrange_lookup by lia. f_equal. lia.
Qed.

Lemma snapshot_slot l sh i r k :
  (i = 0 ∨ i = 1) → 0 ≤ r < PS_MAX_WORKERS → (k < 4)%nat →
  copy_snapshot l sh !! Z.to_nat (36 + (i * 64 + r) * 4 + Z.of_nat k) = slot_words (workers (groups sh i) r) !! k.
Proof.
  intros Hi Hr Hk. pose proof (slots_lookup sh i r k Hr Hk) as Hs. unfold copy_snapshot.
  change (flat_map _ (zrange 0 PS_MAX_WORKERS) ++ _) with (slots sh 0 ++ slots sh 1).
  unfold PS_MAX_WORKERS in Hr. rewrite !app_assoc. rewrite <- (app_assoc _ (slots sh 0)).
  rewrite lookup_app_r by (cbn; lia). cbn [length app head_words group_words].
  destruct Hi as [-> | ->].
  - rewrite lookup_app_l by (rewrite length_slots; lia). rewrite <- Hs. f_equal. lia.
  - rewrite lookup_app_r by (rewrite length_slots; lia). rewrite length_slots, <- Hs. f_equal. lia.
Qed.

(** One load of the reader. *)
Ltac word_at Hw k := rewrite (Hw k _ ltac:(lia) eq_refl); cbn [mbind res_bind].

Lemma inspect_worker_ok l sh i r :
  typed l sh → (i = 0 ∨ i = 1) → 0 ≤ r < PS_MAX_WORKERS →
  let g := groups sh i in
  inspect_worker (copy_snapshot l sh) i (online_mask g) (ready_mask g) (complete_mask g) r = Ok (worker_of sh i r).
Proof.
  intros Ht Hi Hr g. unfold inspect_worker. unfold PS_MAX_WORKERS in *.
  assert (∀ k x, 0 ≤ k < 4 → slot_words (workers (groups sh i) r) !! Z.to_nat k = Some x →
    py_index (copy_snapshot l sh) (16 + 2 * 10 + (i * 64 + r) * 4 + k) = Ok x) as Hw.
  { intros k x Hk Hx. apply index_lookup; [lia|]. rewrite <- Hx, <- (snapshot_slot l) by (done || lia). f_equal. lia. }
  word_at Hw 3.
  replace (py_index _ (16 + 2 * 10 + (i * 64 + r) * 4)) with (@Ok Z (word (slot_pid (workers (groups sh i) r)))).
  2: { symmetry. rewrite <- (Z.add_0_r (_ + _ * 4)). apply (Hw 0); [lia|done]. }
  cbn [mbind res_bind]. word_at Hw 1. word_at Hw 2.
  unfold worker_of. rewrite !has_bit_spec by lia. by rewrite signed_word by apply Ht.
Qed.

Lemma inspect_group_ok l sh i :
  typed l sh → (i = 0 ∨ i = 1) → inspect_group (copy_snapshot l sh) i (worker_count sh) = Ok (group_of l sh i).
Proof.
  intros Ht Hi. pose proof (ty_count _ _ Ht) as Hc. unfold inspect_group.
  assert (∀ k x, 0 ≤ k < 10 → group_words l sh i !! Z.to_nat k = Some x →
    py_index (copy_snapshot l sh) (16 + i * 10 + k) = Ok x) as Hw.
  { intros k x Hk Hx. apply index_lookup; [destruct Hi; lia|]. rewrite <- Hx. unfold copy_snapshot.
    rewrite lookup_app_r by (cbn; destruct Hi; lia). cbn [length head_words]. destruct Hi as [-> | ->].
    - rewrite lookup_app_l by (cbn; lia). f_equal. lia.
    - rewrite lookup_app_r by (cbn; lia). rewrite lookup_app_l by (cbn; lia). f_equal. cbn. lia. }
  assert (py_index (copy_snapshot l sh) (16 + i * 10) = Ok (word (g_state (groups sh i)))) as H0.
  { rewrite <- (Z.add_0_r (_ + _ * 10)). by apply (Hw 0); [lia|]. }
  word_at Hw 3. word_at Hw 4. word_at Hw 5. word_at Hw 6. word_at Hw 7.
  rewrite (rmap_Ok _ (worker_of sh i)).
  2: { intros r Hr%elem_of_zrange. apply inspect_worker_ok; try done. lia. }
  cbn [mbind res_bind]. rewrite H0. cbn [mbind res_bind].
  word_at Hw 1. word_at Hw 2. word_at Hw 8. word_at Hw 9.
  unfold group_of. by rewrite signed_word by apply Ht.
Qed.

(** C13: reading a snapshot gives back the shared memory it was copied from: every field
    of the pair, of both instances and of every worker is at the position where the
    other language puts it, with its sign. *)
Theorem inspect_reads_snapshot l sh :
  typed l sh → inspect_pair (copy_snapshot l sh) (epoch l) = Ok (report_of l sh).
Proof.
  intros Ht. unfold inspect_pair.
  assert (∀ k x, 0 ≤ k < 16 → head_words l sh !! Z.to_nat k = Some x → py_index (copy_snapshot l sh) k = Ok x) as Hw.
  { intros k x Hk Hx. apply index_lookup; [lia|]. rewrite <- Hx. unfold copy_snapshot.
    apply lookup_app_l. cbn. lia. }
  word_at Hw 2. rewrite Z.eqb_refl. cbn [negb].
  word_at Hw 10. word_at Hw 8. word_at Hw 14.
  rewrite !inspect_group_ok by auto. cbn [mbind res_bind].
  word_at Hw 5. word_at Hw 6. word_at Hw 1. word_at Hw 3. word_at Hw 4. word_at Hw 7. word_at Hw 9. word_at Hw 11. word_at Hw 12. word_at Hw 13.
  unfold report_of. by rewrite !signed_word by apply Ht.
Qed.

(** A pair that has failed, with an owner and a negative error code. *)
Definition demo_layout : layout := mkLayout 1347634500 4 10648 77 100 (λ i, if i =? 0 then -5 else 0).
Definition demo_shared : shared_state :=
  set_owner (set_status (on_slot (created 1000 30000 2 5) 1 1 (λ s, s_set_pid s 4242)) (make_status PS_FAILED FAIL_WORKER_DEAD)) 1.

Lemma inspect_reads_snapshot_witness :
  (λ r, (rp_state r, rp_failure_reason r, rp_owner r, rp_last_owner r, gr_error (rp_a r))) <$>
    inspect_pair (copy_snapshot demo_layout demo_shared) 77
  = Ok (Named "FAILED", FAIL_WORKER_DEAD, Some (Named "B"), None, -5)%string.
Proof.
  change 77 with (epoch demo_layout). rewrite (inspect_reads_snapshot demo_layout demo_shared); [reflexivity|].
  split; unfold int_range, PS_MAX_WORKERS, PS_NO_OWNER; cbn; unfold PS_NO_OWNER; try lia.
  - intros i. destruct (i =? 0); lia.
  - intros i r. unfold upd. destruct (i =? 1); cbn; [unfold upd; destruct (r =? 1)|]; cbn; lia.
Defined.

(** The exit status says in which state the pair was. *)
Lemma exit_code_spec l sh stale :
  let code := exit_code (report_of l sh) stale in
  (code = 0 ↔ word (status_state (sh_status sh)) = PS_RUNNING ∧ stale = false)
  ∧ (code = 2 ↔ word (status_state (sh_status sh)) = PS_FAILED).
Proof.
  cbn zeta. unfold exit_code, report_of, PS_RUNNING, PS_FAILED. cbn [rp_state]. unfold pick, zlen. cbn [length GLOBAL_STATES].
  set (v := word _). destruct (_ && _) eqn:E.
  - apply andb_true_iff in E as [E1%Z.leb_le E2%Z.ltb_lt].
    assert (v = 0 ∨ v = 1 ∨ v = 2 ∨ v = 3) as [-> | [-> | [-> | ->]]] by lia; cbn; destruct stale; naive_solver lia.
  - assert (v ≠ 1 ∧ v ≠ 2) as [H1 H2] by (split; intros Hv; by rewrite Hv in E). clearbody v.
    split; split; [done|by intros [? _]|done|done].
Qed.
