(* ===== verification/Ngram.v ===== *)
(** * The n-gram proposer

    [NgramProposer] of spec_decode/ngram_proposer.py drafts the tokens that followed an
    earlier occurrence of the last tokens of a request.  Its search is the
    Knuth-Morris-Pratt prefix function on the reversed tokens, capped at the longest
    n-gram; here it is shown to find the longest n-gram and its earliest occurrence.
    Positions and lengths of n-grams are natural numbers. *)

From S2P Require Import Prelude.
#[local] Open Scope nat_scope.

(** ** The search *)

Section search.
Context (tokens : list Z) (max_ngram : nat).

(** [tokens[j]] and [lps[j]]; an index out of range is an error. *)
Definition token_at (j : nat) : res Z := match tokens !! j with Some t => Ok t | None => Err IndexError end.
Definition lps_at (lps : list nat) (j : nat) : res nat := match lps !! j with Some v => Ok v | None => Err IndexError end.

Record search_state := mkSearch {
  longest_ngram : nat;
  position : nat;
  prev_lps : nat;
  si : nat;
  lps : list nat;
}.

(** One turn of the loop. *)
Definition search_step (s : search_state) : res search_state :=
  t1 ← token_at (prev_lps s);
  t2 ← token_at (si s);
  if (t1 =? t2)%Z then
    let p := S (prev_lps s) in
    let '(l, pos) := if (longest_ngram s <=? p)%nat then (p, si s) else (longest_ngram s, position s) in
    let table := if (si s <? max_ngram)%nat then <[si s := p]> (lps s) else lps s in
    p ← (if (p =? max_ngram)%nat then lps_at table (max_ngram - 1) else Ok p);
    Ok (mkSearch l pos p (S (si s)) table)
  else if negb (prev_lps s =? 0)%nat then
    p ← lps_at (lps s) (prev_lps s - 1);
    Ok (mkSearch (longest_ngram s) (position s) p (si s) (lps s))
  else Ok (mkSearch (longest_ngram s) (position s) (prev_lps s) (S (si s)) (lps s)).

Fixpoint search_loop (fuel : nat) (s : search_state) : res search_state :=
  if (si s <? length tokens)%nat then
    match fuel with
    | O => Err OutOfFuel
    | S fuel => s' ← search_step s; search_loop fuel s'
    end
  else Ok s.

Definition search_start : search_state := mkSearch 0 0 0 1 (replicate max_ngram 0%nat).
End search.

(** [_find_longest_matched_ngram_and_propose_tokens]. *)
Definition find_longest_matched_ngram_and_propose_tokens
    (origin_tokens : list Z) (min_ngram max_ngram : nat) (max_model_len k : Z) : res (list Z) :=
  let total_token := length origin_tokens in
  if (total_token <? min_ngram)%nat then Ok [] else
  let k := Z.min k (max_model_len - Z.of_nat total_token) in
  if (k <=? 0)%Z then Ok [] else
  s ← search_loop (reverse origin_tokens) max_ngram (2 * total_token) (search_start max_ngram);
  if (longest_ngram s <? min_ngram)%nat then Ok [] else
  let start_position := (total_token - 1 - position s + longest_ngram s)%nat in
  let k := Z.min k (Z.of_nat (total_token - start_position)) in
  Ok (take (Z.to_nat k) (drop start_position origin_tokens)).

(** ** Batches *)

(** The proposer with its buffers [valid_ngram_draft] and [valid_ngram_num_drafts]. *)
Record NgramProposer := mkProposer {
  min_n : nat;
  max_n : nat;
  num_k : nat;
  max_model_len : Z;
  valid_ngram_draft : list (list Z);
  valid_ngram_num_drafts : list nat;
}.

(** [NgramProposer.__init__]: buffers of zeros. *)
Definition proposer_init (min_n max_n k : nat) (max_model_len : Z) (max_num_seqs : nat) : NgramProposer :=
  mkProposer min_n max_n k max_model_len (replicate max_num_seqs (replicate k 0%Z)) (replicate max_num_seqs 0).

Definition at_index {A} (l : list A) (j : nat) : res A := match l !! j with Some x => Ok x | None => Err IndexError end.

(** [row[:n] = out]; a row that is too short cannot take it. *)
Definition write_row (row out : list Z) : res (list Z) :=
  RAISE ValueError IF (length row <? length out); Ok (out ++ drop (length out) row).

(** One turn of [batch_propose_numba]. *)
Definition propose_one (num_tokens_no_spec : list nat) (token_ids_cpu : list (list Z)) (p : NgramProposer) (idx : nat) : res NgramProposer :=
  num_tokens ← at_index num_tokens_no_spec idx;
  row ← at_index token_ids_cpu idx;
  out ← find_longest_matched_ngram_and_propose_tokens (take num_tokens row) (min_n p) (max_n p) (max_model_len p) (Z.of_nat (num_k p));
  _ ← at_index (valid_ngram_num_drafts p) idx;
  draft ← at_index (valid_ngram_draft p) idx;
  draft ← (if (length out =? 0) then Ok draft else write_row draft out);
  Ok (mkProposer (min_n p) (max_n p) (num_k p) (max_model_len p) (<[idx := draft]> (valid_ngram_draft p))
        (<[idx := length out]> (valid_ngram_num_drafts p))).

(** The drafts of request [i] after the batch. *)
Definition read_draft (p : NgramProposer) (valid : list nat) (i : nat) : res (list Z) :=
  if bool_decide (i ∈ valid) then
    n ← at_index (valid_ngram_num_drafts p) i;
    if (0 <? n) then row ← at_index (valid_ngram_draft p) i; Ok (take n row) else Ok []
  else Ok [].

(** [batch_propose]; the number of threads does not matter. *)
Definition batch_propose (p : NgramProposer) (num_requests : nat) (valid : list nat)
    (num_tokens_no_spec : list nat) (token_ids_cpu : list (list Z)) : res (list (list Z) * NgramProposer) :=
  p ← (if (length valid =? 0) then Ok p else rfold (propose_one num_tokens_no_spec token_ids_cpu) p valid);
  drafts ← rmap (read_draft p valid) (seq 0 num_requests);
  Ok (drafts, p).

(** One turn of the loop of [propose]: requests that sampled nothing, or are full, get no draft. *)
Definition scan_request (p : NgramProposer) (num_tokens_no_spec : list nat) (sampled : list (list Z)) (valid : list nat) (i : nat) : res (list nat) :=
  sampled_ids ← at_index sampled i;
  if (length sampled_ids =? 0) then Ok valid else
  num_tokens ← at_index num_tokens_no_spec i;
  if (max_model_len p <=? Z.of_nat num_tokens)%Z then Ok valid else Ok (valid ++ [i]).

(** [propose]. *)
Definition propose (p : NgramProposer) (sampled_token_ids : list (list Z)) (num_tokens_no_spec : list nat)
    (token_ids_cpu : list (list Z)) : res (list (list Z) * NgramProposer) :=
  let n := length sampled_token_ids in
  valid ← rfold (scan_request p num_tokens_no_spec sampled_token_ids) [] (seq 0 n);
  batch_propose p n valid num_tokens_no_spec token_ids_cpu.

(** ** The reference *)

(** The requests to draft for. *)
Definition wants_draft (p : NgramProposer) (sampled : list (list Z)) (num_tokens_no_spec : list nat) (i : nat) : bool :=
  negb (length (default [] (sampled !! i)) =? 0) && (Z.of_nat (default 0%nat (num_tokens_no_spec !! i)) <? max_model_len p)%Z.

(** The last [v] tokens also stand at [p], before the end. *)
Definition occurs (o : list Z) (v p : nat) : bool :=
  (p + v <? length o)%nat && bool_decide (take v (drop p o) = drop (length o - v) o).

(** The earliest such place for one length, and the longest length that has one. *)
Definition first_place (o : list Z) (v : nat) : option nat := List.find (occurs o v) (seq 0 (length o)).
Fixpoint longest_match (o : list Z) (min_ngram v : nat) : option (nat * nat) :=
  match v with
  | O => None
  | S v' => if (v <? min_ngram)%nat then None
            else match first_place o v with Some p => Some (v, p) | None => longest_match o min_ngram v' end
  end.

Definition proposal (o : list Z) (min_ngram max_ngram : nat) (max_model_len k : Z) : list Z :=
  match longest_match o min_ngram max_ngram with
  | Some (v, p) => take (Z.to_nat (Z.min k (max_model_len - Z.of_nat (length o)))) (drop (p + v) o)
  | None => []
  end.

(** ** Borders *)

Section borders.
Context (t : list Z) (cap : nat).
Hypothesis Hcap : 1 ≤ cap.

(** The first [v] tokens are the last [v] of the first [i + 1], and not all of them. *)
Definition border (i v : nat) : Prop := v ≤ i ∧ ∀ j, j < v → t !! j = t !! (i + 1 - v + j).

Lemma border_0 i : border i 0.
Proof. split; lia. Qed.

Lemma border_extend i v : border i v → t !! v = t !! (i + 1) → border (i + 1) (S v).
Proof.
  intros [Hv Hb] Ht. split; [lia|]. intros j Hj. destruct (decide (j = v)) as [->|Hne].
  - rewrite Ht. f_equal. lia.
  - rewrite Hb by lia. f_equal. lia.
Qed.

Lemma border_shrink i v : border (i + 1) (S v) → border i v ∧ t !! v = t !! (i + 1).
Proof.
  intros [Hv Hb]. split; [split; [lia|]|].
  - intros j Hj. rewrite Hb by lia. f_equal. lia.
  - rewrite Hb by lia. f_equal. lia.
Qed.

(** A border of a border is a border, and the other way round. *)
Lemma border_nest i v w : border i v → w < v → border (v - 1) w ↔ border i w.
Proof.
  intros [Hv Hb] Hw. split; intros [H1 H2]; (split; [lia|]); intros j Hj.
  - rewrite H2 by lia. rewrite Hb by lia. f_equal. lia.
  - rewrite H2 by lia. replace (i + 1 - w + j) with (i + 1 - v + (v - 1 + 1 - w + j)) by lia. rewrite <- Hb by lia. done.
Qed.

(** The invariant of the search before it looks at token [i]. *)
Record searching (s : search_state) : Prop := {
  se_range : 1 ≤ si s;
  se_end : si s ≤ Nat.max 1 (length t);
  se_border : border (si s - 1) (prev_lps s);
  se_below : prev_lps s < cap;
  se_failed w : prev_lps s < w < cap → border (si s - 1) w → si s < length t → t !! w ≠ t !! si s;
  se_length : length (lps s) = cap;
  se_table j : j < si s → j < cap → ∃ v, lps s !! j = Some v ∧ border j v ∧ ∀ w, border j w → w ≤ v;
  se_zero j : si s ≤ j → j < cap → lps s !! j = Some 0;
  se_longest j w : 1 ≤ j < si s → border j w → w ≤ cap → w ≤ longest_ngram s ∧ (w = longest_ngram s → 0 < w → j ≤ position s);
  se_found : 0 < longest_ngram s → border (position s) (longest_ngram s) ∧ 1 ≤ position s < si s ∧ longest_ngram s ≤ cap;
}.

Lemma searching_start : searching (search_start cap).
Proof.
  unfold search_start. split; cbn; try lia.
  - apply border_0.
  - intros w Hw [H _]. lia.
  - apply length_replicate.
  - intros j Hj Hjc. exists 0. rewrite lookup_replicate_2 by lia. split_and!; [done|apply border_0|]. intros w [H _]. lia.
  - intros j _ Hj. by rewrite lookup_replicate_2.
Qed.

(** The longest border at [i], when token [i] extends the one at hand. *)
Lemma longest_here s w :
  searching s → si s < length t → t !! prev_lps s = t !! si s → border (si s) w → w ≤ cap → w ≤ S (prev_lps s).
Proof.
  intros Hs Hi Ht Hb Hw. destruct w as [|w]; [lia|]. destruct (decide (w ≤ prev_lps s)) as [|Hgt]; [lia|]. exfalso.
  pose proof (se_range _ Hs) as H1. replace (si s) with (si s - 1 + 1) in Hb by lia. apply border_shrink in Hb as [Hb1 Hb2].
  apply (se_failed _ Hs w); [lia|done|done|]. rewrite Hb2. f_equal. lia.
Qed.

(** The table after token [i], whose longest border is [v]. *)
Lemma table_next s v :
  searching s → border (si s) v → (∀ w, border (si s) w → w ≤ cap → w ≤ v) → (si s < cap → v = 0 → lps s !! si s = Some 0) →
  let table := if (si s <? cap) && negb (v =? 0) then <[si s := v]> (lps s) else lps s in
  length table = cap
  ∧ (∀ j, j < S (si s) → j < cap → ∃ u, table !! j = Some u ∧ border j u ∧ ∀ w, border j w → w ≤ u)
  ∧ (∀ j, S (si s) ≤ j → j < cap → table !! j = Some 0).
Proof.
  intros Hs Hb Hmax H0 table. pose proof (se_length _ Hs) as Hl. unfold table.
  destruct (si s <? cap) eqn:Ec; cbn [andb].
  - apply Nat.ltb_lt in Ec. assert (∀ w, border (si s) w → w ≤ v) as Hm by (intros w Hw; apply Hmax; [done|destruct Hw; lia]).
    destruct (v =? 0) eqn:Ev; cbn [negb]; to_prop.
    + apply Nat.eqb_eq in Ev. subst v. split_and!; [done| |intros j Hj; apply (se_zero _ Hs); lia].
      intros j Hj Hjc. destruct (decide (j = si s)) as [->|Hne]; [|apply (se_table _ Hs); lia]. exists 0. auto.
    + split_and!; [by rewrite length_insert| |].
      * intros j Hj Hjc. destruct (decide (j = si s)) as [->|Hne].
        -- exists v. rewrite list_lookup_insert_eq by lia. auto.
        -- rewrite list_lookup_insert_ne by done. apply (se_table _ Hs); lia.
      * intros j Hj Hjc. rewrite list_lookup_insert_ne by lia. apply (se_zero _ Hs); lia.
  - apply Nat.ltb_ge in Ec. split_and!; [done| |]; intros j Hj Hjc; [apply (se_table _ Hs); lia|lia].
Qed.

(** What is found up to token [i]. *)
Lemma found_next s v :
  searching s → border (si s) v → v ≤ cap → (∀ w, border (si s) w → w ≤ cap → w ≤ v) →
  let '(l, pos) := if (longest_ngram s <=? v) && negb (v =? 0) then (v, si s) else (longest_ngram s, position s) in
  (∀ j w, 1 ≤ j < S (si s) → border j w → w ≤ cap → w ≤ l ∧ (w = l → 0 < w → j ≤ pos))
  ∧ (0 < l → border pos l ∧ 1 ≤ pos < S (si s) ∧ l ≤ cap).
Proof.
  intros Hs Hb Hv Hmax. pose proof (se_range _ Hs) as H1. pose proof (se_longest _ Hs) as HL. pose proof (se_found _ Hs) as HF.
  destruct ((longest_ngram s <=? v) && negb (v =? 0)) eqn:E.
  - apply andb_true_iff in E as [E1%Nat.leb_le E2%negb_true_iff%Nat.eqb_neq]. split; [|intros _; split_and!; auto; lia].
    intros j w Hj Hbw Hw. destruct (decide (j = si s)) as [->|Hne]; [split; [by apply Hmax|lia]|].
    destruct (HL j w ltac:(lia) Hbw Hw) as [L1 L2]. split; lia.
  - assert (v = 0 ∨ v < longest_ngram s) as Hlt.
    { apply andb_false_iff in E as [E%Nat.leb_gt|E%negb_false_iff%Nat.eqb_eq]; [by right|by left]. }
    split; [|intros Hl; destruct (HF Hl) as (? & ? & ?); split_and!; auto; lia].
    intros j w Hj Hbw Hw. destruct (decide (j = si s)) as [->|Hne]; [|apply HL; try done; lia].
    specialize (Hmax w Hbw Hw). lia.
Qed.

Definition measure (s : search_state) : nat := 2 * (length t - si s) + prev_lps s.

(** The longest border below the cap, from the table. *)
Lemma from_table s q i :
  searching s → border i q → 0 < q → q ≤ cap → q ≤ si s →
  ∃ v, lps s !! (q - 1) = Some v ∧ border i v ∧ v < q ∧ ∀ w, w < q → border i w → w ≤ v.
Proof.
  intros Hs Hb H0 Hq Hqs. destruct (se_table _ Hs (q - 1)) as (v & Hv & Hbv & Hmax); [lia..|].
  exists v. assert (v < q) as Hvq by (destruct Hbv; lia). split_and!; [done|by apply (border_nest i q)|done|].
  intros w Hw Hbw. apply Hmax. by apply (border_nest i q).
Qed.

Lemma search_step_ok s :
  searching s → si s < length t → ∃ s', search_step t cap s = Ok s' ∧ searching s' ∧ measure s' < measure s.
Proof.
  intros Hs Hi. pose proof (se_border _ Hs) as Hb. pose proof (se_range _ Hs) as H1. pose proof (se_below _ Hs) as Hq.
  unfold search_step, token_at. destruct (lookup_lt_is_Some_2 t (si s) Hi) as [b Eb].
  destruct (lookup_lt_is_Some_2 t (prev_lps s)) as [a Ea]; [destruct Hb; lia|]. rewrite Ea, Eb. cbn [mbind res_bind].
  destruct (a =? b)%Z eqn:Eab; to_prop.
  - subst b. assert (border (si s) (S (prev_lps s))) as Hb'.
    { replace (si s) with (si s - 1 + 1) by lia. apply border_extend; [done|]. replace (si s - 1 + 1) with (si s) by lia. congruence. }
    assert (∀ w, border (si s) w → w ≤ cap → w ≤ S (prev_lps s)) as Hmax by (intros w; apply longest_here; congruence).
    pose proof (table_next s _ Hs Hb' Hmax ltac:(lia)) as Ht. pose proof (found_next s _ Hs Hb' ltac:(lia) Hmax) as Hf.
    cbn [Nat.eqb negb] in Ht, Hf. rewrite andb_true_r in Ht, Hf.
    set (table := if si s <? cap then _ else _) in *. destruct Ht as (T1 & T2 & T3).
    destruct (if longest_ngram s <=? S (prev_lps s) then _ else _) as [l pos]. destruct Hf as [F1 F2].
    destruct (S (prev_lps s) =? cap) eqn:Ec.
    + apply Nat.eqb_eq in Ec. assert (table = lps s) as -> by (unfold table; rewrite (proj2 (Nat.ltb_ge _ _)); [done|destruct Hb'; lia]).
      destruct (from_table s cap (si s)) as (v & Hv & Hbv & Hvc & Hvm); [done|by rewrite <- Ec|lia|lia|destruct Hb'; lia|].
      unfold lps_at. rewrite Hv. cbn [mbind res_bind]. eexists. split; [done|]. split; [|unfold measure; cbn; lia].
      split; cbn; rewrite ?Nat.sub_0_r; try done; try lia. intros w Hw Hbw _. specialize (Hvm w ltac:(lia) Hbw). lia.
    + apply Nat.eqb_neq in Ec. cbn [mbind res_bind]. eexists. split; [done|]. split; [|unfold measure; cbn; lia].
      split; cbn; rewrite ?Nat.sub_0_r; try done; try lia. intros w Hw Hbw _. specialize (Hmax w Hbw ltac:(lia)). lia.
  - destruct (prev_lps s =? 0) eqn:Eq; cbn [negb].
    + apply Nat.eqb_eq in Eq. assert (∀ w, border (si s) w → w ≤ cap → w ≤ 0) as Hmax.
      { intros [|w] Hbw Hw; [lia|]. exfalso. replace (si s) with (si s - 1 + 1) in Hbw by lia.
        apply border_shrink in Hbw as [Hbw Htw]. replace (si s - 1 + 1) with (si s) in Htw by lia.
        destruct w as [|w]; [congruence|]. by apply (se_failed _ Hs (S w)); [lia|..]. }
      pose proof (table_next s 0 Hs (border_0 _) Hmax) as Ht.
      specialize (Ht (λ Hc _, se_zero _ Hs (si s) (Nat.le_refl _) Hc)).
      pose proof (found_next s 0 Hs (border_0 _) ltac:(lia) Hmax) as Hf. cbn [Nat.eqb negb] in Ht, Hf.
      rewrite andb_false_r in Ht, Hf. destruct Ht as (T1 & T2 & T3). destruct Hf as [F1 F2].
      eexists. split; [done|]. split; [|unfold measure; cbn; lia].
      split; cbn; rewrite ?Nat.sub_0_r, ?Eq; try done; try lia; [apply border_0|].
      intros w Hw Hbw _. specialize (Hmax w Hbw ltac:(lia)). lia.
    + apply Nat.eqb_neq in Eq.
      destruct (from_table s (prev_lps s) (si s - 1)) as (v & Hv & Hbv & Hvc & Hvm); [done|done|lia|lia|destruct Hb; lia|].
      unfold lps_at. rewrite Hv. cbn [mbind res_bind]. eexists. split; [done|]. split; [|unfold measure; cbn; lia].
      destruct Hs as [S1 S0 S2 S3 S4 S5 S6 S7 S8 S9]. split; cbn; try done; try lia.
      intros w Hw Hbw _. destruct (Nat.lt_trichotomy w (prev_lps s)) as [Hlt|[->|Hgt]].
      * specialize (Hvm w Hlt Hbw). lia.
      * congruence.
      * by apply S4; [lia|..].
Qed.

Lemma search_loop_ok fuel s :
  searching s → measure s ≤ fuel → ∃ s', search_loop t cap fuel s = Ok s' ∧ searching s' ∧ length t ≤ si s'.
Proof.
  revert s. induction fuel as [|fuel IH]; intros s Hs Hm.
  - exists s. cbn [search_loop]. assert (length t ≤ si s) as Hl by (unfold measure in Hm; lia). by rewrite (proj2 (Nat.ltb_ge _ _)).
  - cbn [search_loop]. destruct (si s <? length t) eqn:E; [|exists s; by apply Nat.ltb_ge in E].
    apply Nat.ltb_lt in E. destruct (search_step_ok s Hs E) as (s1 & -> & Hs1 & Hlt). cbn [mbind res_bind]. apply IH; [done|lia].
Qed.
End borders.

(** ** The reference finds the same *)

Lemma occurs_border o v i : i < length o → occurs o v (length o - 1 - i) = true ↔ border (reverse o) i v.
Proof.
  intros Hi. unfold occurs, border. rewrite andb_true_iff, Nat.ltb_lt, bool_decide_eq_true.
  assert (∀ j, j < length o → reverse o !! j = o !! (length o - 1 - j)) as Hrev.
  { intros j Hj. rewrite reverse_lookup by done. f_equal. lia. }
  split; intros [H1 H2]; (split; [lia|]).
  - intros j Hj. rewrite !Hrev by lia. apply (f_equal (.!! (v - 1 - j))) in H2.
    rewrite lookup_take_lt, !lookup_drop in H2 by lia.
    replace (length o - 1 - j) with (length o - v + (v - 1 - j)) by lia. rewrite <- H2. f_equal. lia.
  - apply list_eq. intros j. destruct (decide (j < v)) as [Hj|Hj].
    + rewrite lookup_take_lt, !lookup_drop by lia. specialize (H2 (v - 1 - j) ltac:(lia)). rewrite !Hrev in H2 by lia.
      replace (length o - v + j) with (length o - 1 - (v - 1 - j)) by lia. rewrite H2. f_equal. lia.
    + rewrite lookup_take_ge by lia. symmetry. apply lookup_ge_None_2. rewrite length_drop. lia.
Qed.

Lemma find_seq (f : nat → bool) n p b : f (b + p) = true → (∀ j, j < p → f (b + j) = false) → p < n → List.find f (seq b n) = Some (b + p).
Proof.
  revert b p. induction n as [|n IH]; intros b p Hp Hlt Hn; [lia|]. cbn. destruct p as [|p].
  - rewrite Nat.add_0_r in *. by rewrite Hp.
  - specialize (Hlt 0 ltac:(lia)) as H0. rewrite Nat.add_0_r in H0. rewrite H0.
    rewrite (IH (S b) p); [f_equal; lia| | |lia]; [by rewrite Nat.add_succ_comm|].
    intros j Hj. rewrite Nat.add_succ_comm. apply Hlt. lia.
Qed.

Lemma first_place_none o v : (∀ p, occurs o v p = false) → first_place o v = None.
Proof.
  intros H. unfold first_place. destruct (List.find _ _) eqn:E; [|done]. apply List.find_some in E as [_ E]. by rewrite H in E.
Qed.

Lemma longest_match_none o m v : (∀ l p, 1 ≤ l → m ≤ l ≤ v → occurs o l p = false) → longest_match o m v = None.
Proof.
  induction v as [|v IH]; intros H; [done|]. cbn [longest_match]. destruct (S v <? m) eqn:E; [done|]. apply Nat.ltb_ge in E.
  rewrite first_place_none by (intros p; apply H; lia). apply IH. intros l p H1 H2. apply H; lia.
Qed.

Lemma longest_match_some o m v l p :
  1 ≤ l → m ≤ l ≤ v → occurs o l p = true → (∀ p', p' < p → occurs o l p' = false) →
  (∀ l' p', l < l' ≤ v → occurs o l' p' = false) → longest_match o m v = Some (l, p).
Proof.
  intros H1. induction v as [|v IH]; intros Hl Hp Hfirst Hlong; [lia|]. cbn [longest_match].
  rewrite (proj2 (Nat.ltb_ge _ _)) by lia. destruct (decide (l = S v)) as [->|Hne].
  - unfold first_place. rewrite (find_seq (occurs o (S v)) (length o) p 0); [done..|].
    unfold occurs in Hp. apply andb_true_iff in Hp as [Hp%Nat.ltb_lt _]. lia.
  - rewrite first_place_none by (intros p'; apply Hlong; lia). apply IH; try done; [lia|]. intros l' p' Hl'. apply Hlong. lia.
Qed.

(** For n-grams of at least one token the search terminates without an index error
    and drafts what the reference does: the tokens that followed the earliest
    occurrence of the longest n-gram, up to the cap, that ends the request and stands
    before, within the number of drafts and the length of the model. *)
Lemma ngram_search_is_longest o min_ngram max_ngram max_model_len k :
  1 ≤ min_ngram ≤ max_ngram →
  find_longest_matched_ngram_and_propose_tokens o min_ngram max_ngram max_model_len k
  = Ok (proposal o min_ngram max_ngram max_model_len k).
Proof.
  intros Hn. unfold find_longest_matched_ngram_and_propose_tokens, proposal.
  destruct (length o <? min_ngram) eqn:E1.
  { apply Nat.ltb_lt in E1. rewrite longest_match_none; [done|]. intros l p Hl Hlm. unfold occurs.
    rewrite (proj2 (Nat.ltb_ge _ _)); [done|lia]. }
  apply Nat.ltb_ge in E1. set (k' := Z.min k _). destruct (k' <=? 0)%Z eqn:E2; to_prop.
  { replace (Z.to_nat k') with 0 by lia. by destruct (longest_match _ _ _) as [[v p]|]. }
  destruct (search_loop_ok (reverse o) max_ngram ltac:(lia) (2 * length o) (search_start max_ngram)) as (s & Hs & HI & Hend).
  { apply searching_start. lia. }
  { unfold measure. cbn. rewrite length_reverse. lia. }
  rewrite Hs. cbn [mbind res_bind]. rewrite length_reverse in Hend. pose proof (se_longest _ _ _ HI) as HL.
  assert (∀ l p, 1 ≤ l ≤ max_ngram → occurs o l p = true →
    l ≤ longest_ngram s ∧ (l = longest_ngram s → length o - 1 - p ≤ position s) ∧ p + l < length o) as Hocc.
  { intros l p Hl Hp. assert (p + l < length o) as Hpl by (unfold occurs in Hp; apply andb_true_iff in Hp as [Hp%Nat.ltb_lt _]; lia).
    replace p with (length o - 1 - (length o - 1 - p)) in Hp by lia. apply occurs_border in Hp; [|lia].
    destruct (HL (length o - 1 - p) l ltac:(lia) Hp ltac:(lia)) as [L1 L2]. split_and!; [done| |done]. intros Hll. apply L2; [done|lia]. }
  destruct (longest_ngram s <? min_ngram) eqn:E3.
  - apply Nat.ltb_lt in E3. rewrite longest_match_none; [done|]. intros l p Hl Hlm.
    destruct (occurs o l p) eqn:Eo; [|done]. destruct (Hocc l p ltac:(lia) Eo). lia.
  - apply Nat.ltb_ge in E3. destruct (se_found _ _ _ HI ltac:(lia)) as (Hb & Hpos & Hcap).
    pose proof (se_end _ _ _ HI) as He. rewrite length_reverse in He.
    rewrite (longest_match_some o min_ngram max_ngram (longest_ngram s) (length o - 1 - position s)); try lia.
    + f_equal. rewrite Z2Nat.inj_min, Nat2Z.id, <- take_take. by rewrite (take_ge (drop _ o)) by (rewrite length_drop; lia).
    + apply occurs_border; [lia|done].
    + intros p' Hp'. destruct (occurs o _ p') eqn:Eo; [|done]. destruct (Hocc (longest_ngram s) p' ltac:(lia) Eo) as (_ & H & Hlt).
      specialize (H eq_refl). lia.
    + intros l' p' Hl'. destruct (occurs o l' p') eqn:Eo; [|done]. destruct (Hocc l' p' ltac:(lia) Eo). lia.
Qed.

(** ** Batches *)

(** The shapes of the buffers for [size] requests. *)
Record shaped (size : nat) (p : NgramProposer) : Prop := {
  sp_ngram : 1 ≤ min_n p ≤ max_n p;
  sp_rows : length (valid_ngram_draft p) = size;
  sp_row i row : valid_ngram_draft p !! i = Some row → length row = num_k p;
  sp_counts : length (valid_ngram_num_drafts p) = size;
}.

Lemma shaped_init min_n max_n k max_model_len size :
  1 ≤ min_n ≤ max_n → shaped size (proposer_init min_n max_n k max_model_len size).
Proof.
  intros Hn. split; cbn; rewrite ?length_replicate; try done. intros i row [-> _]%lookup_replicate. apply length_replicate.
Qed.

Lemma at_index_Ok {A} (l : list A) j x : l !! j = Some x → at_index l j = Ok x.
Proof. unfold at_index. by intros ->. Qed.

Lemma proposal_length o m v len k : (0 ≤ k)%Z → length (proposal o m v len k) ≤ Z.to_nat k.
Proof.
  intros Hk. unfold proposal. destruct (longest_match o m v) as [[l p]|]; [|cbn; lia]. rewrite length_take. lia.
Qed.

Section batch.
Context (num_tokens : list nat) (token_ids : list (list Z)) (size : nat) (p0 : NgramProposer).
Hypothesis Hsize : length num_tokens = size ∧ length token_ids = size.

(** What the reference drafts for a request. *)
Definition reference_draft (i : nat) : list Z :=
  proposal (take (default 0 (num_tokens !! i)) (default [] (token_ids !! i))) (min_n p0) (max_n p0) (max_model_len p0) (Z.of_nat (num_k p0)).

(** The settings are those of [p0], and the drafts of the requests [done] are in the buffers. *)
Record batched (done : list nat) (p : NgramProposer) : Prop := {
  ba_shaped : shaped size p;
  ba_same : min_n p = min_n p0 ∧ max_n p = max_n p0 ∧ num_k p = num_k p0 ∧ max_model_len p = max_model_len p0;
  ba_done i : i ∈ done → valid_ngram_num_drafts p !! i = Some (length (reference_draft i))
    ∧ ∃ row, valid_ngram_draft p !! i = Some row ∧ take (length (reference_draft i)) row = reference_draft i;
}.

Lemma propose_one_ok done p i :
  batched done p → i < size → ∃ p', propose_one num_tokens token_ids p i = Ok p' ∧ batched (done ++ [i]) p'.
Proof.
  intros [[S1 S2 S3 S4] (M1 & M2 & M3 & M4) Hd] Hi. destruct Hsize as [H1 H2]. unfold propose_one.
  destruct (lookup_lt_is_Some_2 num_tokens i ltac:(lia)) as [n En]. destruct (lookup_lt_is_Some_2 token_ids i ltac:(lia)) as [row Er].
  destruct (lookup_lt_is_Some_2 (valid_ngram_num_drafts p) i ltac:(lia)) as [c Ec].
  destruct (lookup_lt_is_Some_2 (valid_ngram_draft p) i ltac:(lia)) as [d Ed]. pose proof (S3 i d Ed) as Hdl.
  rewrite (at_index_Ok _ _ _ En), (at_index_Ok _ _ _ Er). cbn [mbind res_bind]. rewrite ngram_search_is_longest by done.
  cbn [mbind res_bind]. rewrite M1, M2, M3, M4. assert (proposal (take n row) (min_n p0) (max_n p0) (max_model_len p0) (Z.of_nat (num_k p0)) = reference_draft i) as ->
    by (unfold reference_draft; by rewrite En, Er).
  rewrite (at_index_Ok _ _ _ Ec), (at_index_Ok _ _ _ Ed). cbn [mbind res_bind]. set (out := reference_draft i).
  assert (length out ≤ num_k p0) as Hlen by (unfold out, reference_draft; etrans; [apply proposal_length; lia|lia]).
  assert (∃ d', (if length out =? 0 then Ok d else write_row d out) = Ok d' ∧ length d' = num_k p0 ∧ take (length out) d' = out) as (d' & Hd' & Hl' & Ht').
  { destruct (length out =? 0) eqn:E0.
    - apply Nat.eqb_eq in E0. exists d. split_and!; [done|congruence|]. rewrite E0. by apply nil_length_inv in E0 as ->.
    - unfold write_row. rewrite (proj2 (Nat.ltb_ge _ _)) by lia. eexists. split_and!; [done| |].
      + rewrite length_app, length_drop. lia.
      + by rewrite take_app_length. }
  rewrite Hd'. cbn [mbind res_bind]. eexists. split; [done|]. split; cbn; [|done|].
  - split; cbn; [by rewrite <- M1, <- M2|by rewrite length_insert| |by rewrite length_insert].
    intros j rw Hj. destruct (decide (j = i)) as [->|Hne].
    + rewrite list_lookup_insert_eq in Hj by lia. by simplify_eq.
    + rewrite list_lookup_insert_ne in Hj by done. rewrite <- M3. by apply (S3 j).
  - intros j. rewrite elem_of_app, list_elem_of_singleton. intros Hj. destruct (decide (j = i)) as [->|Hne].
    + rewrite !list_lookup_insert_eq by lia. split; [done|]. by exists d'.
    + rewrite !list_lookup_insert_ne by done. apply Hd. by destruct Hj.
Qed.

Lemma propose_all_ok l done p :
  batched done p → (∀ i, i ∈ l → i < size) → ∃ p', rfold (propose_one num_tokens token_ids) p l = Ok p' ∧ batched (done ++ l) p'.
Proof.
  revert done p. induction l as [|i l IH]; intros done p Hb Hl; [exists p; by rewrite app_nil_r|].
  destruct (propose_one_ok done p i Hb) as (p1 & E1 & Hb1); [apply Hl; by left|]. cbn [rfold]. rewrite E1. cbn [mbind res_bind].
  destruct (IH (done ++ [i]) p1 Hb1) as (p2 & E2 & Hb2); [intros j Hj; apply Hl; by right|]. exists p2. split; [done|].
  by rewrite <- app_assoc in Hb2.
Qed.

Lemma read_draft_ok valid p i : batched valid p → read_draft p valid i = Ok (if bool_decide (i ∈ valid) then reference_draft i else []).
Proof.
  intros Hb. unfold read_draft. case_bool_decide as Hi; [|done]. destruct (ba_done _ _ Hb i Hi) as [Hc (row & Hr & Ht)].
  rewrite (at_index_Ok _ _ _ Hc). cbn [mbind res_bind]. destruct (0 <? length (reference_draft i)) eqn:E.
  - rewrite (at_index_Ok _ _ _ Hr). cbn [mbind res_bind]. by rewrite Ht.
  - apply Nat.ltb_ge in E. destruct (reference_draft i); [done|cbn in E; lia].
Qed.
End batch.

Lemma scan_requests_ok p num_tokens sampled l valid :
  (∀ i, i ∈ l → i < length sampled ∧ i < length num_tokens) →
  rfold (scan_request p num_tokens sampled) valid l = Ok (valid ++ List.filter (wants_draft p sampled num_tokens) l).
Proof.
  revert valid. induction l as [|i l IH]; intros valid Hl; cbn [rfold List.filter]; [by rewrite app_nil_r|].
  destruct (Hl i) as [H1 H2]; [by left|]. destruct (lookup_lt_is_Some_2 _ _ H1) as [ids Ei]. destruct (lookup_lt_is_Some_2 _ _ H2) as [n En].
  assert (scan_request p num_tokens sampled valid i = Ok (valid ++ if wants_draft p sampled num_tokens i then [i] else [])) as ->.
  { unfold scan_request, wants_draft. rewrite (at_index_Ok _ _ _ Ei), (at_index_Ok _ _ _ En), Ei, En. cbn.
    destruct (length ids =? 0); cbn; [by rewrite app_nil_r|].
    destruct (Z.leb_spec (max_model_len p) (Z.of_nat n)), (Z.ltb_spec (Z.of_nat n) (max_model_len p)); try lia; by rewrite ?app_nil_r. }
  cbn [mbind res_bind]. rewrite IH by (intros j Hj; apply Hl; by right). rewrite <- app_assoc. by destruct (wants_draft p sampled num_tokens i).
Qed.

(** C17: the proposer never raises and drafts for every request what the reference finds:
    for a request that sampled a token and is not full, the tokens that followed the
    earliest occurrence of the longest n-gram that ends it, limited by the number of
    drafts and by the model length; nothing for the others.  What earlier batches left
    in the buffers does not matter, and the buffers stay usable. *)
Theorem propose_drafts p sampled num_tokens token_ids size :
  shaped size p → length num_tokens = size → length token_ids = size → length sampled ≤ size →
  ∃ p', propose p sampled num_tokens token_ids =
    Ok ((λ i, if wants_draft p sampled num_tokens i then reference_draft num_tokens token_ids p i else []) <$> seq 0 (length sampled), p')
    ∧ shaped size p'.
Proof.
  intros Hp Hn Ht Hs. unfold propose, batch_propose. rewrite scan_requests_ok by (intros i Hi%elem_of_seq; lia).
  cbn [mbind res_bind app]. set (valid := List.filter _ _).
  assert (∀ i, i ∈ valid ↔ wants_draft p sampled num_tokens i = true ∧ i < length sampled) as Hv.
  { intros i. unfold valid. rewrite list_elem_of_In, List.filter_In, <- list_elem_of_In, elem_of_seq. naive_solver lia. }
  assert (batched num_tokens token_ids size p [] p) as H0 by (split; [done..|intros i Hi; by apply elem_of_nil in Hi]).
  destruct (propose_all_ok num_tokens token_ids size p (conj Hn Ht) valid [] p H0) as (p' & E & Hb).
  { intros i Hi%Hv. lia. }
  exists p'. split; [|apply Hb]. assert ((if length valid =? 0 then Ok p else rfold (propose_one num_tokens token_ids) p valid) = Ok p') as ->.
  { destruct valid; [|done]. cbn in E |- *. congruence. }
  cbn [mbind res_bind]. rewrite (rmap_Ok _ (λ i, if wants_draft p sampled num_tokens i then reference_draft num_tokens token_ids p i else [])); [done|].
  intros i Hi%elem_of_seq. rewrite (read_draft_ok num_tokens token_ids size p (conj Hn Ht) valid p') by done. f_equal.
  destruct (wants_draft p sampled num_tokens i) eqn:Ew.
  - rewrite bool_decide_eq_true_2; [done|]. apply Hv. split; [done|lia].
  - rewrite bool_decide_eq_false_2; [done|]. intros [H _]%Hv. congruence.
Qed.

(** Two requests; the second repeats itself, and the n-gram [5, 6] was followed by 7 first. *)
Definition demo_proposer : NgramProposer := proposer_init 2 3 2 20 2.
Definition demo_tokens : list (list Z) := [[1; 2; 3; 0; 0; 0; 0; 0; 0]; [5; 6; 7; 8; 5; 6; 9; 5; 6]]%Z.

Lemma propose_drafts_witness : ∃ p', propose demo_proposer [[3]; [6]]%Z [3; 9] demo_tokens = Ok ([[]; [7; 8]]%Z, p').
Proof.
  destruct (propose_drafts demo_proposer [[3]; [6]]%Z [3; 9] demo_tokens 2) as (p' & E & _); [|reflexivity|reflexivity|cbn; lia|].
  - apply (shaped_init 2 3 2 20 2). lia.
  - exists p'. rewrite E. reflexivity.
Defined.
