(* ===== verification/OffloadPolicy.v ===== *)
(** * Replacement policies of the CPU offloading cache

    kv_offload/cpu/policies: the status of an offloaded block, the interface
    [CachePolicy], its implementations [LRUCachePolicy] and [ARCCachePolicy], and the
    laws both obey.  A [BlockStatus] object lives under one key of one dictionary at a
    time, so a policy holds the status itself, and the changes the manager makes to a
    status that [get] returned go through [p_update]. *)

From Stdlib Require Import QArith_base Qreduction.
From S2P Require Import Prelude.
#[local] Open Scope Z_scope.

(** ** Numbers *)

(** [ctypes.c_int32]. *)
Definition int32 (z : Z) : Z := (z + 2 ^ 31) mod 2 ^ 32 - 2 ^ 31.

(** A Python float as the rational it stands for: the nearest with 53 bits, ties to
    even.  The sizes of caches are far from the ends of the exponent's range. *)
Definition round_half_even (n d : Z) : Z :=
  let q := n / d in
  let r := n mod d in
  if (2 * r <? d) || ((2 * r =? d) && Z.even q) then q else q + 1.
Definition scale_up (n e : Z) : Z := if 0 <=? e then n * 2 ^ e else n.
Definition fl (x : Q) : Q :=
  let n := Z.abs (Qnum x) in
  let d := Zpos (Qden x) in
  if n =? 0 then 0%Q else
  let e := Z.log2 n - Z.log2 d in
  let e := if scale_up n (- e) <? scale_up d e then e - 1 else e in
  let m := Z.sgn (Qnum x) * round_half_even (scale_up n (52 - e)) (scale_up d (e - 52)) in
  Qred (Qmake (scale_up m (e - 52)) (Z.to_pos (scale_up 1 (52 - e)))).

(** [<], [min] and [max] of Python: the first argument unless the second is strictly
    smaller (larger). *)
Definition qlt (x y : Q) : bool := negb (Qle_bool y x).
Definition q_min (x y : Q) : Q := if qlt y x then y else x.
Definition q_max (x y : Q) : Q := if qlt x y then y else x.
(** [int(x)]. *)
Definition py_int (x : Q) : Z := Z.quot (Qnum x) (Zpos (Qden x)).

(** ** Blocks and policies *)

Record BlockStatus := mkStatus { ref_cnt : Z; block_id : Z }.

(** [BlockStatus.__init__] and [is_ready]. *)
Definition new_status (id : Z) : BlockStatus := mkStatus (-1) id.
Definition is_ready (b : BlockStatus) : bool := 0 <=? ref_cnt b.
Definition set_ref_cnt (n : Z) (b : BlockStatus) : BlockStatus := mkStatus (int32 n) (block_id b).

Section policies.
Context `{Countable K}.

(** The interface of a policy; [p_items] are the resident blocks. *)
Class CachePolicy (P : Type) := {
  p_init : Z → P;
  p_items : P → list (K * BlockStatus);
  p_get : P → K → option BlockStatus;
  p_update : P → K → (BlockStatus → BlockStatus) → P;
  p_insert : P → K → BlockStatus → P;
  p_remove : P → K → res P;
  p_touch : P → list K → P;
  p_evict : P → Z → gset K → res (option (list (K * BlockStatus)) * P);
}.

(** A change of the object stored under [k]. *)
Definition od_update (d : list (K * BlockStatus)) (k : K) (f : BlockStatus → BlockStatus) : list (K * BlockStatus) :=
  match od_get d k with Some b => od_set d k (f b) | None => d end.

(** [if k in d: d.move_to_end(k)] *)
Definition od_move_to_end {V} (d : list (K * V)) (k : K) : list (K * V) :=
  match od_pop d k with Ok (v, d') => d' ++ [(k, v)] | Err _ => d end.

(** [k in d] *)
Definition od_mem {V} (d : list (K * V)) (k : K) : bool := match od_get d k with Some _ => true | None => false end.

Definition can_evict (protected : gset K) (kb : K * BlockStatus) : bool :=
  (ref_cnt kb.2 =? 0) && bool_decide (kb.1 ∉ protected).

(** ** LRU *)

Record LRUCachePolicy := mkLRU { blocks : list (K * BlockStatus) }.

Definition lru_touch (p : LRUCachePolicy) (block_hashes : list K) : LRUCachePolicy :=
  mkLRU (foldl od_move_to_end (blocks p) (reverse block_hashes)).

(** The loop of [evict] over the items. *)
Fixpoint lru_candidates (n : Z) (protected : gset K) (candidates items : list (K * BlockStatus)) : list (K * BlockStatus) :=
  match items with
  | [] => candidates
  | kb :: items =>
      if can_evict protected kb then
        let candidates := candidates ++ [kb] in
        if Z.of_nat (length candidates) =? n then candidates else lru_candidates n protected candidates items
      else lru_candidates n protected candidates items
  end.

Definition lru_delete (d : list (K * BlockStatus)) (kb : K * BlockStatus) : res (list (K * BlockStatus)) :=
  '(_, d) ← od_pop d kb.1; Ok d.

Definition lru_evict (p : LRUCachePolicy) (n : Z) (protected : gset K) : res (option (list (K * BlockStatus)) * LRUCachePolicy) :=
  if n =? 0 then Ok (Some [], p) else
  let candidates := lru_candidates n protected [] (blocks p) in
  if Z.of_nat (length candidates) <? n then Ok (None, p) else
  d ← rfold lru_delete (blocks p) candidates;
  Ok (Some candidates, mkLRU d).

#[export] Instance LRU_policy : CachePolicy LRUCachePolicy := {
  p_init _ := mkLRU [];
  p_items := blocks;
  p_get p h := od_get (blocks p) h;
  p_update p h f := mkLRU (od_update (blocks p) h f);
  p_insert p h b := mkLRU (od_set (blocks p) h b);
  p_remove p h := '(_, d) ← od_pop (blocks p) h; Ok (mkLRU d);
  p_touch := lru_touch;
  p_evict := lru_evict;
}.

(** ** ARC *)

Record ARCCachePolicy := mkARC {
  cache_capacity : Z;
  target_t1_size : Q;
  t1 : list (K * BlockStatus);
  t2 : list (K * BlockStatus);
  b1 : list (K * unit);
  b2 : list (K * unit);
}.

Definition arc_init (cache_capacity : Z) : ARCCachePolicy := mkARC cache_capacity 0%Q [] [] [] [].

Definition arc_get (p : ARCCachePolicy) (h : K) : option BlockStatus :=
  match od_get (t1 p) h with Some b => Some b | None => od_get (t2 p) h end.

(** A change of the object that [arc_get] returns. *)
Definition arc_update (p : ARCCachePolicy) (h : K) (f : BlockStatus → BlockStatus) : ARCCachePolicy :=
  if od_mem (t1 p) h then mkARC (cache_capacity p) (target_t1_size p) (od_update (t1 p) h f) (t2 p) (b1 p) (b2 p)
  else mkARC (cache_capacity p) (target_t1_size p) (t1 p) (od_update (t2 p) h f) (b1 p) (b2 p).

Definition arc_insert (p : ARCCachePolicy) (h : K) (b : BlockStatus) : ARCCachePolicy :=
  mkARC (cache_capacity p) (target_t1_size p) (od_set (t1 p) h b) (t2 p) (od_discard (b1 p) h).2 (od_discard (b2 p) h).2.

Definition arc_remove (p : ARCCachePolicy) (h : K) : ARCCachePolicy :=
  match od_discard (t1 p) h with
  | (Some _, d) => mkARC (cache_capacity p) (target_t1_size p) d (t2 p) (b1 p) (b2 p)
  | (None, _) => mkARC (cache_capacity p) (target_t1_size p) (t1 p) (od_discard (t2 p) h).2 (b1 p) (b2 p)
  end.

(** [max(1, len(x) / len(y))] *)
Definition arc_delta (x y : list (K * unit)) : Q :=
  q_max 1%Q (fl (Qdiv (inject_Z (Z.of_nat (length x))) (inject_Z (Z.of_nat (length y))))).

(** One turn of the loop of [touch]. *)
Definition arc_touch_one (p : ARCCachePolicy) (h : K) : ARCCachePolicy :=
  match od_pop (t1 p) h with
  | Ok (b, d) =>
      if is_ready b then mkARC (cache_capacity p) (target_t1_size p) d (od_set (t2 p) h b) (b1 p) (b2 p)
      else mkARC (cache_capacity p) (target_t1_size p) (od_set d h b) (t2 p) (b1 p) (b2 p)
  | Err _ =>
      if od_mem (t2 p) h then mkARC (cache_capacity p) (target_t1_size p) (t1 p) (od_move_to_end (t2 p) h) (b1 p) (b2 p)
      else if od_mem (b1 p) h then
        let target := q_min (fl (Qplus (target_t1_size p) (arc_delta (b2 p) (b1 p)))) (inject_Z (cache_capacity p)) in
        mkARC (cache_capacity p) target (t1 p) (t2 p) (od_move_to_end (b1 p) h) (b2 p)
      else if od_mem (b2 p) h then
        let target := q_max (fl (Qminus (target_t1_size p) (arc_delta (b1 p) (b2 p)))) 0%Q in
        mkARC (cache_capacity p) target (t1 p) (t2 p) (b1 p) (od_move_to_end (b2 p) h)
      else p
  end.

Definition arc_touch (p : ARCCachePolicy) (block_hashes : list K) : ARCCachePolicy :=
  foldl arc_touch_one p (reverse block_hashes).

(** The state of the selection: candidates with their source, their hashes, and the
    size T1 will have. *)
Record arc_selection := mkSelection {
  candidates : list (K * BlockStatus * bool);
  already_selected : gset K;
  virtual_t1_size : Z;
}.

Definition arc_first (protected selected : gset K) (d : list (K * BlockStatus)) : option (K * BlockStatus) :=
  List.find (λ kb, can_evict protected kb && bool_decide (kb.1 ∉ selected)) d.

Definition arc_select_one (p : ARCCachePolicy) (protected : gset K) (s : arc_selection) : option arc_selection :=
  let from_t1 := if py_int (target_t1_size p) <=? virtual_t1_size s then arc_first protected (already_selected s) (t1 p) else None in
  match from_t1 with
  | Some (h, b) => Some (mkSelection (candidates s ++ [(h, b, true)]) ({[h]} ∪ already_selected s) (virtual_t1_size s - 1))
  | None =>
      match arc_first protected (already_selected s) (t2 p) with
      | Some (h, b) => Some (mkSelection (candidates s ++ [(h, b, false)]) ({[h]} ∪ already_selected s) (virtual_t1_size s))
      | None => None
      end
  end.

Fixpoint arc_select (p : ARCCachePolicy) (protected : gset K) (n : nat) (s : arc_selection) : option arc_selection :=
  match n with
  | O => Some s
  | S n => s ← arc_select_one p protected s; arc_select p protected n s
  end.

(** Moves one candidate to its ghost list. *)
Definition arc_apply (p : ARCCachePolicy) (c : K * BlockStatus * bool) : res ARCCachePolicy :=
  let '(h, _, from_t1) := c in
  if from_t1 then
    '(_, d) ← od_pop (t1 p) h;
    Ok (mkARC (cache_capacity p) (target_t1_size p) d (t2 p) (od_set (b1 p) h ()) (b2 p))
  else
    '(_, d) ← od_pop (t2 p) h;
    Ok (mkARC (cache_capacity p) (target_t1_size p) (t1 p) d (b1 p) (od_set (b2 p) h ())).

Definition trim_ghost (p : ARCCachePolicy) (ghost : list (K * unit)) : list (K * unit) :=
  drop (Z.to_nat (Z.of_nat (length ghost) - cache_capacity p)) ghost.

Definition arc_evict (p : ARCCachePolicy) (n : Z) (protected : gset K) : res (option (list (K * BlockStatus)) * ARCCachePolicy) :=
  if n =? 0 then Ok (Some [], p) else
  match arc_select p protected (Z.to_nat n) (mkSelection [] ∅ (Z.of_nat (length (t1 p)))) with
  | None => Ok (None, p)
  | Some s =>
      p ← rfold arc_apply p (candidates s);
      Ok (Some ((candidates s).*1),
          mkARC (cache_capacity p) (target_t1_size p) (t1 p) (t2 p) (trim_ghost p (b1 p)) (trim_ghost p (b2 p)))
  end.

#[export] Instance ARC_policy : CachePolicy ARCCachePolicy := {
  p_init := arc_init;
  p_items p := t1 p ++ t2 p;
  p_get := arc_get;
  p_update := arc_update;
  p_insert := arc_insert;
  p_remove p h := Ok (arc_remove p h);
  p_touch := arc_touch;
  p_evict := arc_evict;
}.
End policies.

(** ** Dictionaries *)

Section dictionaries.
Context `{Countable K} {V : Type}.
Implicit Types (d : list (K * V)) (k : K).

Lemma od_pop_absent d k : od_get d k = None → od_pop d k = Err KeyError.
Proof.
  induction d as [|[x w] d IH]; cbn; [done|]. case_decide; [done|]. intros Hd. by rewrite IH.
Qed.

Lemma od_set_perm d k v w : od_get d k = Some v → ∃ r, d ≡ₚ (k, v) :: r ∧ od_set d k w ≡ₚ (k, w) :: r.
Proof.
  intros (d1 & d2 & -> & _ & _ & Hs)%od_split. exists (d1 ++ d2). rewrite Hs. by rewrite !Permutation_middle.
Qed.

Lemma od_move_to_end_perm d k : od_move_to_end d k ≡ₚ d.
Proof.
  unfold od_move_to_end. destruct (od_get d k) as [v|] eqn:E.
  - destruct (od_pop_perm d k v E) as (d' & -> & Hp). rewrite Hp. by rewrite Permutation_app_comm.
  - by rewrite od_pop_absent.
Qed.

Lemma od_move_to_end_all d l : foldl od_move_to_end d l ≡ₚ d.
Proof. revert d. induction l as [|k l IH]; intros d; cbn; [done|]. by rewrite IH, od_move_to_end_perm. Qed.

Lemma od_discard_length d k : (length (od_discard d k).2 ≤ length d)%nat.
Proof.
  unfold od_discard. destruct (od_get d k) as [v|] eqn:E.
  - destruct (od_pop_perm d k v E) as (d' & -> & Hp). cbn. rewrite Hp. cbn. lia.
  - by rewrite od_pop_absent.
Qed.
End dictionaries.

Section updates.
Context `{Countable K}.
Implicit Types (d : list (K * BlockStatus)) (k : K).

Lemma od_update_keys d k f : (od_update d k f).*1 = d.*1.
Proof.
  unfold od_update. destruct (od_get d k) as [b|] eqn:E; [|done].
  destruct (od_split d k b E) as (d1 & d2 & -> & _ & _ & Hs). by rewrite Hs, !fmap_app.
Qed.

Lemma od_update_app d1 d2 k f :
  od_update (d1 ++ d2) k f = if od_mem d1 k then od_update d1 k f ++ d2 else d1 ++ od_update d2 k f.
Proof.
  unfold od_update, od_mem. rewrite od_get_app. destruct (od_get d1 k) as [b|] eqn:E.
  - destruct (od_split d1 k b E) as (x & y & -> & Hk & _ & Hs). rewrite Hs, <- !app_assoc. cbn. clear -Hk.
    induction x as [|[u w] x IH]; cbn; [by rewrite decide_True|]. cbn in Hk. apply not_elem_of_cons in Hk as [Hu Hx].
    rewrite decide_False by congruence. by rewrite IH.
  - destruct (od_get d2 k); [|done]. apply od_get_None in E. induction d1 as [|[u w] d1 IH]; cbn; [done|].
    cbn in E. apply not_elem_of_cons in E as [Hu Hx]. rewrite decide_False by congruence. by rewrite IH.
Qed.

(** The object stored under [k] changes, the others stay. *)
Lemma od_update_perm d k b r f : NoDup d.*1 → d ≡ₚ (k, b) :: r → od_update d k f ≡ₚ (k, f b) :: r.
Proof.
  intros Hnd Hp. assert (od_get d k = Some b) as E by (apply od_get_nodup; [done|]; rewrite Hp; by left).
  unfold od_update. rewrite E. destruct (od_set_perm d k b (f b) E) as (r' & H1 & H2). rewrite H2.
  apply Permutation_cons; [done|]. apply (Permutation_cons_inv (a := (k, b))). by rewrite <- H1.
Qed.
End updates.

(** ** The laws *)

Section laws.
Context `{Countable K}.

Class CachePolicyLaws (P : Type) `{!CachePolicy (K := K) P} := {
  p_wf : P → Prop;
  p_init_ok c : 0 ≤ c → p_wf (p_init c) ∧ p_items (p_init c) = [];
  p_nodup p : p_wf p → NoDup (p_items p).*1;
  p_get_spec p h : p_wf p → p_get p h = od_get (p_items p) h;
  p_update_spec p h f : p_wf p → p_wf (p_update p h f) ∧ p_items (p_update p h f) = od_update (p_items p) h f;
  p_insert_spec p h b : p_wf p → p_get p h = None → p_wf (p_insert p h b) ∧ p_items (p_insert p h b) ≡ₚ (h, b) :: p_items p;
  p_remove_spec p h b : p_wf p → p_get p h = Some b →
    ∃ p', p_remove p h = Ok p' ∧ p_wf p' ∧ p_items p ≡ₚ (h, b) :: p_items p';
  p_touch_spec p hs : p_wf p → p_wf (p_touch p hs) ∧ p_items (p_touch p hs) ≡ₚ p_items p;
  p_evict_spec p n protected : p_wf p → 0 ≤ n →
    ∃ o p', p_evict p n protected = Ok (o, p') ∧ p_wf p' ∧
      match o with
      | None => p' = p
      | Some l => Z.of_nat (length l) = n ∧ Forall (λ kb, can_evict protected kb = true) l ∧ p_items p ≡ₚ l ++ p_items p'
      end;
}.

(** *** LRU *)

(** The candidates are the first items that can be evicted. *)
Lemma lru_candidates_spec n (protected : gset K) c items :
  Z.of_nat (length c) < n →
  lru_candidates n protected c items = c ++ take (Z.to_nat n - length c) (List.filter (can_evict protected) items).
Proof.
  revert c. induction items as [|kb items IH]; intros c Hc; cbn; [by rewrite take_nil, app_nil_r|].
  destruct (can_evict protected kb); [|by apply IH]. rewrite length_app. cbn [length].
  destruct (Z.to_nat n - length c)%nat as [|m] eqn:Em; [lia|]. cbn [take]. destruct (Z.of_nat (length c + 1) =? n) eqn:E.
  - apply Z.eqb_eq in E. assert (m = 0%nat) as -> by lia. done.
  - apply Z.eqb_neq in E. rewrite IH by (rewrite length_app; cbn; lia). rewrite length_app. cbn [length].
    rewrite <- app_assoc. cbn. do 3 f_equal. lia.
Qed.

Lemma lru_delete_all l (d : list (K * BlockStatus)) r : NoDup d.*1 → d ≡ₚ l ++ r → ∃ d', rfold lru_delete d l = Ok d' ∧ d' ≡ₚ r.
Proof.
  revert d. induction l as [|[k b] l IH]; intros d Hnd Hp; [by exists d|]. cbn [rfold].
  assert (od_get d k = Some b) as E by (apply od_get_nodup; [done|]; rewrite Hp; by left).
  destruct (od_pop_perm d k b E) as (d' & Ed & Hd). assert (lru_delete d (k, b) = Ok d') as -> by (unfold lru_delete; cbn [fst]; by rewrite Ed). cbn [mbind res_bind].
  apply IH.
  - rewrite Hd in Hnd. by apply NoDup_cons in Hnd as [_ ?].
  - apply (Permutation_cons_inv (a := (k, b))). by rewrite <- Hd, Hp.
Qed.

Lemma filter_perm {A} (f : A → bool) l n : ∃ r, l ≡ₚ take n (List.filter f l) ++ r.
Proof.
  assert (∃ r, l ≡ₚ List.filter f l ++ r) as [r Hr].
  { induction l as [|x l [r IH]]; [by exists []|]. cbn. destruct (f x).
    - exists r. cbn. by rewrite <- IH.
    - exists (x :: r). by rewrite <- Permutation_middle, <- IH. }
  exists (drop n (List.filter f l) ++ r). by rewrite app_assoc, take_drop.
Qed.

(** What [evict] of the LRU policy does: it fails when fewer than [n] blocks can go,
    otherwise the first [n] of them go. *)
Lemma lru_evict_exact (p : LRUCachePolicy (K := K)) n protected :
  NoDup (blocks p).*1 → 0 < n →
  let out := List.filter (can_evict protected) (blocks p) in
  if Z.of_nat (length out) <? n then lru_evict p n protected = Ok (None, p)
  else ∃ d, lru_evict p n protected = Ok (Some (take (Z.to_nat n) out), mkLRU d) ∧ blocks p ≡ₚ take (Z.to_nat n) out ++ d.
Proof.
  intros Hnd Hn out. unfold lru_evict. rewrite (proj2 (Z.eqb_neq _ _)) by lia.
  rewrite lru_candidates_spec by (cbn; lia). cbn [app length]. rewrite Nat.sub_0_r. fold out. rewrite length_take.
  destruct (Z.ltb_spec (Z.of_nat (length out)) n) as [Hlt|Hge].
  - by rewrite (proj2 (Z.ltb_lt _ _)) by lia.
  - rewrite (proj2 (Z.ltb_ge _ _)) by lia. destruct (filter_perm (can_evict protected) (blocks p) (Z.to_nat n)) as [r Hr]. fold out in Hr.
    destruct (lru_delete_all _ _ _ Hnd Hr) as (d & -> & Hd). exists d. split; [done|]. by rewrite Hd.
Qed.

#[export] Instance LRU_laws : CachePolicyLaws LRUCachePolicy.
Proof.
  refine {| p_wf p := NoDup (blocks p).*1 |}; cbn.
  - intros c _. split; [constructor|done].
  - done.
  - done.
  - intros p h f Hp. by rewrite od_update_keys.
  - intros p h b Hp Hh%od_get_None. rewrite od_set_fresh by done. assert (blocks p ++ [(h, b)] ≡ₚ (h, b) :: blocks p) as E
      by (by rewrite Permutation_app_comm). rewrite E. split; [|done]. by constructor.
  - intros p h b Hp Hb. destruct (od_pop_perm _ _ _ Hb) as (d & -> & Hd). exists (mkLRU d). split_and!; [done| |done].
    rewrite Hd in Hp. by apply NoDup_cons in Hp as [_ ?].
  - intros p hs Hp. rewrite od_move_to_end_all. done.
  - intros p n protected Hp Hn. destruct (decide (n = 0)) as [->|Hn0]; [by exists (Some []), p|].
    pose proof (lru_evict_exact p n protected Hp ltac:(lia)) as He. cbn in He. case_match eqn:El.
    + by exists None, p.
    + destruct He as (d & -> & Hd). eexists _, (mkLRU d). split; [done|]. split; [|split_and!; [|  |done]].
      * rewrite Hd, fmap_app in Hp. by apply NoDup_app in Hp as (_ & _ & ?).
      * apply Z.ltb_ge in El. rewrite length_take. lia.
      * apply Forall_take, List.Forall_forall. intros kb Hin%List.filter_In. apply Hin.
Defined.

(** *** ARC *)

Implicit Types (p : ARCCachePolicy (K := K)).

(** No hash is in both parts, and the ghost lists are bounded. *)
Record arc_wf p : Prop := {
  aw_nodup : NoDup (t1 p ++ t2 p).*1;
  aw_capacity : 0 ≤ cache_capacity p;
  aw_b1 : Z.of_nat (length (b1 p)) ≤ cache_capacity p;
  aw_b2 : Z.of_nat (length (b2 p)) ≤ cache_capacity p;
}.

Lemma arc_touch_one_ok p h : arc_wf p → arc_wf (arc_touch_one p h) ∧ t1 (arc_touch_one p h) ++ t2 (arc_touch_one p h) ≡ₚ t1 p ++ t2 p.
Proof.
  intros [Hnd Hc H1 H2]. enough (t1 (arc_touch_one p h) ++ t2 (arc_touch_one p h) ≡ₚ t1 p ++ t2 p ∧ cache_capacity (arc_touch_one p h) = cache_capacity p
    ∧ length (b1 (arc_touch_one p h)) = length (b1 p) ∧ length (b2 (arc_touch_one p h)) = length (b2 p)) as (E & Ec & E1 & E2).
  { split; [|done]. split; rewrite ?E, ?Ec, ?E1, ?E2; done. }
  unfold arc_touch_one. destruct (od_get (t1 p) h) as [b|] eqn:Eh.
  - destruct (od_pop_perm _ _ _ Eh) as (d & -> & Hd). rewrite Hd, fmap_app in Hnd.
    apply NoDup_app in Hnd as (Hn1 & Hn12 & Hn2). cbn in Hn1. apply NoDup_cons in Hn1 as [Hhd Hn1]. destruct (is_ready b); cbn; split_and!; try done.
    + rewrite od_set_fresh by (apply Hn12; by left). rewrite Hd, app_assoc, Permutation_app_comm. done.
    + rewrite od_set_fresh by done. rewrite Hd. by rewrite (Permutation_app_comm d).
  - rewrite od_pop_absent by done. repeat case_match; cbn; split_and!; rewrite ?od_move_to_end_perm; done.
Qed.

Lemma arc_touch_ok l p : arc_wf p → arc_wf (foldl arc_touch_one p l) ∧ t1 (foldl arc_touch_one p l) ++ t2 (foldl arc_touch_one p l) ≡ₚ t1 p ++ t2 p.
Proof.
  revert p. induction l as [|h l IH]; intros p Hp; [done|]. cbn. destruct (arc_touch_one_ok p h Hp) as [H1 H2].
  destruct (IH _ H1) as [H3 H4]. split; [done|]. by rewrite H4.
Qed.

(** The candidates of one part. *)
Definition from (x : bool) (l : list (K * BlockStatus * bool)) : list (K * BlockStatus) :=
  (List.filter (λ c, eqb c.2 x) l).*1.

Lemma from_snoc x l c : from x (l ++ [c]) = from x l ++ if eqb c.2 x then [c.1] else [].
Proof. unfold from. rewrite List.filter_app, fmap_app. cbn. by destruct (eqb c.2 x). Qed.

(** Distinct blocks that can be evicted, and how many were asked for. *)
Record arc_selected p (protected : gset K) (n : nat) (s : arc_selection) : Prop := {
  as_nodup : NoDup (candidates s).*1.*1;
  as_set h : h ∈ already_selected s ↔ h ∈ (candidates s).*1.*1;
  as_evictable : Forall (λ kb, can_evict protected kb = true) (candidates s).*1;
  as_from (x : bool) kb : (kb, x) ∈ candidates s → kb ∈ if x then t1 p else t2 p;
  as_length : length (candidates s) = n;
}.

Lemma arc_first_ok (protected selected : gset K) d h b :
  arc_first protected selected d = Some (h, b) → (h, b) ∈ d ∧ can_evict protected (h, b) = true ∧ h ∉ selected.
Proof.
  unfold arc_first. intros [Hin [He Hs%bool_decide_eq_true]%andb_true_iff]%List.find_some. by rewrite list_elem_of_In.
Qed.

Lemma arc_selected_snoc p protected n s h b (x : bool) v :
  arc_selected p protected n s → arc_first protected (already_selected s) (if x then t1 p else t2 p) = Some (h, b) →
  arc_selected p protected (S n) (mkSelection (candidates s ++ [(h, b, x)]) ({[h]} ∪ already_selected s) v).
Proof.
  intros [Hn Hs He Hf Hl] (Hin & Hev & Hns)%arc_first_ok. split; cbn; rewrite ?fmap_app; cbn.
  - apply NoDup_app. split_and!; [done| |by apply NoDup_singleton]. intros k Hk ->%list_elem_of_singleton. by rewrite Hs in Hns.
  - intros k. rewrite elem_of_app, list_elem_of_singleton, elem_of_union, elem_of_singleton, Hs. tauto.
  - apply Forall_app. split; [done|]. by constructor.
  - intros y kb. rewrite elem_of_app, list_elem_of_singleton. intros [Hk|[= -> ->]]; [by apply Hf|done].
  - rewrite length_app. cbn. lia.
Qed.

Lemma arc_select_ok n p protected m s s' :
  arc_selected p protected m s → arc_select p protected n s = Some s' → arc_selected p protected (m + n) s'.
Proof.
  revert m s. induction n as [|n IH]; intros m s Hs; cbn; [intros [= <-]; by rewrite Nat.add_0_r|].
  unfold arc_select_one. rewrite Nat.add_succ_r, <- Nat.add_succ_l.
  destruct (if _ <=? _ then arc_first protected (already_selected s) (t1 p) else None) as [[h b]|] eqn:E1; cbn.
  - case_match; [|done]. apply (IH (S m)). by apply (arc_selected_snoc p protected m s h b true).
  - destruct (arc_first protected (already_selected s) (t2 p)) as [[h b]|] eqn:E2; cbn; [|done].
    apply (IH (S m)). by apply (arc_selected_snoc p protected m s h b false).
Qed.

(** Moving the candidates to the ghost lists. *)
Lemma arc_apply_all l p r1 r2 :
  NoDup (t1 p ++ t2 p).*1 → t1 p ≡ₚ from true l ++ r1 → t2 p ≡ₚ from false l ++ r2 →
  ∃ p', rfold arc_apply p l = Ok p' ∧ t1 p' ≡ₚ r1 ∧ t2 p' ≡ₚ r2 ∧ cache_capacity p' = cache_capacity p.
Proof.
  revert p. induction l as [|[[h b] x] l IH]; intros p Hnd H1 H2; [by exists p|]. cbn [rfold].
  pose proof Hnd as Hsplit. rewrite fmap_app in Hsplit. apply NoDup_app in Hsplit as (Hn1 & _ & Hn2).
  destruct x; unfold from in H1, H2; cbn in H1, H2.
  - assert (od_get (t1 p) h = Some b) as E by (apply od_get_nodup; [done|]; rewrite H1; by left).
    destruct (od_pop_perm _ _ _ E) as (d & Ed & Hd). unfold arc_apply at 2. rewrite Ed. cbn [mbind res_bind].
    match goal with |- context [rfold arc_apply ?q l] => apply (IH q) end; cbn; [|by apply (Permutation_cons_inv (a := (h, b))); rewrite <- Hd|done].
    rewrite Hd in Hnd. by apply NoDup_cons in Hnd as [_ ?].
  - assert (od_get (t2 p) h = Some b) as E by (apply od_get_nodup; [done|]; rewrite H2; by left).
    destruct (od_pop_perm _ _ _ E) as (d & Ed & Hd). unfold arc_apply at 2. rewrite Ed. cbn [mbind res_bind].
    match goal with |- context [rfold arc_apply ?q l] => apply (IH q) end; cbn; [|done|by apply (Permutation_cons_inv (a := (h, b))); rewrite <- Hd].
    rewrite Hd, <- Permutation_middle in Hnd. by apply NoDup_cons in Hnd as [_ ?].
Qed.

(** Distinct elements of a list can be taken out of it. *)
Lemma sublist_perm {A} (l d : list A) : NoDup l → (∀ x, x ∈ l → x ∈ d) → ∃ r, d ≡ₚ l ++ r.
Proof.
  intros Hl Hin. destruct (submseteq_Permutation l d) as [r Hr]; [by apply NoDup_submseteq|]. by exists r.
Qed.

Lemma from_in p protected n s (x : bool) kb : arc_selected p protected n s → kb ∈ from x (candidates s) → kb ∈ if x then t1 p else t2 p.
Proof.
  intros Hs (c & -> & Hc)%list_elem_of_fmap. rewrite list_elem_of_In, List.filter_In, <- list_elem_of_In in Hc.
  destruct c as [kb y]. cbn in Hc. destruct Hc as [Hc ->%eqb_prop]. by apply (as_from _ _ _ _ Hs).
Qed.

Lemma from_nodup x l : NoDup l.*1.*1 → NoDup (from x l).
Proof.
  intros Hl. apply (NoDup_fmap_1 fst). unfold from. induction l as [|c l IH]; [done|]. cbn in Hl |- *.
  apply NoDup_cons in Hl as [Hc Hl]. destruct (eqb c.2 x); [|by apply IH]. cbn. constructor; [|by apply IH].
  intros Hin. apply Hc. clear -Hin. induction l as [|y l IH]; [done|]. cbn in *. destruct (eqb y.2 x); cbn in *; [|right; auto].
  apply elem_of_cons in Hin as [->|Hin]; [left|right; auto].
Qed.

Lemma from_perm l : from true l ++ from false l ≡ₚ l.*1.
Proof.
  induction l as [|[kb x] l IH]; [done|]. unfold from in *. destruct x; cbn; [by rewrite IH|].
  by rewrite <- Permutation_middle, IH.
Qed.

Lemma trim_ghost_length p g : 0 ≤ cache_capacity p → Z.of_nat (length (trim_ghost p g)) ≤ cache_capacity p.
Proof. intros Hc. unfold trim_ghost. rewrite length_drop. lia. Qed.

Lemma arc_evict_ok p n protected : arc_wf p → 0 ≤ n →
  ∃ o p', arc_evict p n protected = Ok (o, p') ∧ arc_wf p' ∧
    match o with
    | None => p' = p
    | Some l => Z.of_nat (length l) = n ∧ Forall (λ kb, can_evict protected kb = true) l ∧ t1 p ++ t2 p ≡ₚ l ++ t1 p' ++ t2 p'
    end.
Proof.
  intros Hp Hn. unfold arc_evict. destruct (n =? 0) eqn:En; [apply Z.eqb_eq in En; subst; by exists (Some []), p|].
  destruct (arc_select p protected (Z.to_nat n) _) as [s|] eqn:Es; [|by exists None, p].
  assert (arc_selected p protected (Z.to_nat n) s) as Hs.
  { eapply (arc_select_ok _ p protected 0); [|exact Es]. split; cbn; [constructor|set_solver|constructor|by intros x kb ?%elem_of_nil|done]. }
  destruct Hp as [Hnd Hc H1 H2].
  destruct (sublist_perm (from true (candidates s)) (t1 p)) as [r1 Hr1]; [apply from_nodup, Hs|intros kb; exact (from_in p protected _ s true kb Hs)|].
  destruct (sublist_perm (from false (candidates s)) (t2 p)) as [r2 Hr2]; [apply from_nodup, Hs|intros kb; exact (from_in p protected _ s false kb Hs)|].
  destruct (arc_apply_all _ p r1 r2 Hnd Hr1 Hr2) as (p' & -> & E1 & E2 & Ec). cbn [mbind res_bind].
  assert (t1 p ++ t2 p ≡ₚ (candidates s).*1 ++ t1 p' ++ t2 p') as Hall.
  { rewrite Hr1, Hr2, E1, E2, <- from_perm. solve_Permutation. }
  eexists _, _. split; [done|]. split; [|split_and!; [|apply Hs|done]].
  - split; cbn; rewrite ?Ec; [|done|rewrite <- Ec; apply trim_ghost_length; lia..].
    rewrite Hall, fmap_app in Hnd. by apply NoDup_app in Hnd as (_ & _ & ?).
  - rewrite length_fmap, (as_length _ _ _ _ Hs). lia.
Qed.

#[export] Instance ARC_laws : CachePolicyLaws ARCCachePolicy.
Proof.
  refine {| p_wf := arc_wf |}; cbn.
  - intros c Hc. split; [|done]. by split; cbn; [constructor|..].
  - intros p Hp. apply Hp.
  - intros p h _. unfold arc_get. by rewrite od_get_app.
  - intros p h f [Hnd Hc H1 H2]. unfold arc_update. rewrite od_update_app. destruct (od_mem (t1 p) h); (split; [split|]); cbn; try done;
      rewrite fmap_app, od_update_keys, <- fmap_app; done.
  - intros p h b [Hnd Hc H1 H2]. unfold arc_get. destruct (od_get (t1 p) h) eqn:E1; [done|]. intros E2. unfold arc_insert. rewrite od_set_fresh by (by apply od_get_None). cbn.
    assert ((t1 p ++ [(h, b)]) ++ t2 p ≡ₚ (h, b) :: t1 p ++ t2 p) as E by solve_Permutation. split; [|done].
    split; cbn; [rewrite E; constructor; [|done]|done|pose proof (od_discard_length (b1 p) h); lia|pose proof (od_discard_length (b2 p) h); lia].
    apply (od_get_None (t1 p ++ t2 p)). cbn. by rewrite od_get_app, E1.
  - intros p h b [Hnd Hc H1 H2] Hb. eexists. split; [done|]. unfold arc_get in Hb. unfold arc_remove, od_discard.
    destruct (od_get (t1 p) h) as [b'|] eqn:E1.
    + simplify_eq. destruct (od_pop_perm _ _ _ E1) as (d & -> & Hd). cbn. split; [split; cbn; [|done..]|by rewrite Hd].
      rewrite Hd in Hnd. by apply NoDup_cons in Hnd as [_ ?].
    + rewrite od_pop_absent by done. destruct (od_pop_perm _ _ _ Hb) as (d & -> & Hd). cbn. split; [split; cbn; [|done..]|by rewrite Hd, Permutation_middle].
      rewrite Hd, <- Permutation_middle in Hnd. by apply NoDup_cons in Hnd as [_ ?].
  - intros p hs Hp. by apply arc_touch_ok.
  - apply arc_evict_ok.
Defined.
End laws.
