(* ===== verification/Offload.v ===== *)
(** * The CPU offloading manager

    [CPUOffloadingManager] of kv_offload/cpu/manager.py over any [CachePolicy], and
    [FilterReusedOffloadingManager] of kv_offload/reuse_manager.py.  A
    [CPULoadStoreSpec] is the list of its block ids. *)

From S2P Require Import Prelude OffloadPolicy.
#[local] Open Scope Z_scope.

Section manager.
Context `{Countable K} {P : Type} `{!CachePolicy (K := K) P}.

Record OffloadingEvent := mkEvent {
  ev_block_hashes : list K;
  ev_block_size : Z;
  ev_medium : string;
  ev_removed : bool;
}.

Record CPUOffloadingManager := mkOffload {
  off_block_size : Z;
  off_num_blocks : Z;
  num_allocated_blocks : Z;
  free_list : list Z;
  events : option (list OffloadingEvent);
  policy : P;
}.

Record PrepareStoreOutput := mkPrepared {
  block_hashes_to_store : list K;
  store_spec : list Z;
  block_hashes_evicted : list K;
}.

Definition set_policy (m : CPUOffloadingManager) (p : P) : CPUOffloadingManager :=
  mkOffload (off_block_size m) (off_num_blocks m) (num_allocated_blocks m) (free_list m) (events m) p.
Definition set_free_list (m : CPUOffloadingManager) (l : list Z) : CPUOffloadingManager :=
  mkOffload (off_block_size m) (off_num_blocks m) (num_allocated_blocks m) l (events m) (policy m).
Definition set_allocated (m : CPUOffloadingManager) (n : Z) : CPUOffloadingManager :=
  mkOffload (off_block_size m) (off_num_blocks m) n (free_list m) (events m) (policy m).
Definition set_events (m : CPUOffloadingManager) (e : option (list OffloadingEvent)) : CPUOffloadingManager :=
  mkOffload (off_block_size m) (off_num_blocks m) (num_allocated_blocks m) (free_list m) e (policy m).

(** [__init__] for the class of policies that [cache_policy] names. *)
Definition offload_init (block_size num_blocks : Z) (enable_events : bool) : CPUOffloadingManager :=
  mkOffload block_size num_blocks 0 [] (if enable_events then Some [] else None) (p_init num_blocks).

(** ** The block pool *)

Definition off_num_free_blocks (m : CPUOffloadingManager) : Z :=
  Z.of_nat (length (free_list m)) + off_num_blocks m - num_allocated_blocks m.

(** The loop that takes fresh blocks. *)
Fixpoint take_fresh (n : nat) (m : CPUOffloadingManager) (blocks : list BlockStatus) : CPUOffloadingManager * list BlockStatus :=
  match n with
  | O => (m, blocks)
  | S n => take_fresh n (set_allocated m (num_allocated_blocks m + 1)) (blocks ++ [new_status (num_allocated_blocks m)])
  end.

(** The loop that takes blocks off the end of the free list. *)
Fixpoint take_reused (n : nat) (m : CPUOffloadingManager) (blocks : list BlockStatus) : res (CPUOffloadingManager * list BlockStatus) :=
  match n with
  | O => Ok (m, blocks)
  | S n =>
      match last (free_list m) with
      | Some id => take_reused n (set_free_list m (take (length (free_list m) - 1) (free_list m))) (blocks ++ [new_status id])
      | None => Err IndexError
      end
  end.

Definition allocate_blocks (m : CPUOffloadingManager) (block_hashes : list K) : res (CPUOffloadingManager * list BlockStatus) :=
  let n := Z.of_nat (length block_hashes) in
  let num_fresh := Z.min n (off_num_blocks m - num_allocated_blocks m) in
  let num_reused := n - num_fresh in
  ASSERT (num_reused <=? Z.of_nat (length (free_list m)));
  let '(m, blocks) := take_fresh (Z.to_nat num_fresh) m [] in
  take_reused (Z.to_nat num_reused) m blocks.

Definition free_block (m : CPUOffloadingManager) (b : BlockStatus) : CPUOffloadingManager :=
  set_free_list m (free_list m ++ [block_id b]).

(** ** The interface *)

(** [lookup]: the number of ready blocks before the first other one. *)
Fixpoint off_lookup (m : CPUOffloadingManager) (block_hashes : list K) : Z :=
  match block_hashes with
  | [] => 0
  | h :: block_hashes =>
      match p_get (policy m) h with
      | Some b => if is_ready b then 1 + off_lookup m block_hashes else 0
      | None => 0
      end
  end.

Definition prepare_load_one (s : CPUOffloadingManager * list Z) (h : K) : res (CPUOffloadingManager * list Z) :=
  let '(m, ids) := s in
  match p_get (policy m) h with
  | None => Err AssertionError
  | Some b =>
      ASSERT is_ready b;
      Ok (set_policy m (p_update (policy m) h (λ b, set_ref_cnt (ref_cnt b + 1) b)), ids ++ [block_id b])
  end.
Definition prepare_load (m : CPUOffloadingManager) (block_hashes : list K) : res (CPUOffloadingManager * list Z) :=
  rfold prepare_load_one (m, []) block_hashes.

Definition off_touch (m : CPUOffloadingManager) (block_hashes : list K) : CPUOffloadingManager :=
  set_policy m (p_touch (policy m) block_hashes).

Definition complete_load_one (m : CPUOffloadingManager) (h : K) : res CPUOffloadingManager :=
  match p_get (policy m) h with
  | None => Err AssertionError
  | Some b =>
      ASSERT (0 <? ref_cnt b);
      Ok (set_policy m (p_update (policy m) h (λ b, set_ref_cnt (ref_cnt b - 1) b)))
  end.
Definition complete_load (m : CPUOffloadingManager) (block_hashes : list K) : res CPUOffloadingManager :=
  rfold complete_load_one m block_hashes.

(** [if hashes and self.events is not None: self.events.append(...)] *)
Definition report_event (m : CPUOffloadingManager) (removed : bool) (hashes : list K) : CPUOffloadingManager :=
  match hashes, events m with
  | _ :: _, Some evs => set_events m (Some (evs ++ [mkEvent hashes (off_block_size m) "CPU" removed]))
  | _, _ => m
  end.

Definition is_absent (m : CPUOffloadingManager) (h : K) : bool :=
  match p_get (policy m) h with None => true | Some _ => false end.

(** The part of [prepare_store] that makes room. *)
Definition make_room (m : CPUOffloadingManager) (n : Z) (protected : list K) : res (option (list K) * CPUOffloadingManager) :=
  if 0 <? n then
    '(evicted, p) ← p_evict (policy m) n (list_to_set protected);
    match evicted with
    | None => Ok (None, set_policy m p)
    | Some evicted => Ok (Some evicted.*1, foldl free_block (set_policy m p) evicted.*2)
    end
  else Ok (Some [], m).

Definition insert_blocks (m : CPUOffloadingManager) (l : list (K * BlockStatus)) : CPUOffloadingManager :=
  foldl (λ m kb, set_policy m (p_insert (policy m) kb.1 kb.2)) m l.

Definition prepare_store (m : CPUOffloadingManager) (block_hashes : list K) : res (option PrepareStoreOutput * CPUOffloadingManager) :=
  let to_store := List.filter (is_absent m) block_hashes in
  if (length to_store =? 0)%nat then Ok (Some (mkPrepared [] [] []), m) else
  let num_blocks_to_evict := Z.of_nat (length to_store) - off_num_free_blocks m in
  '(evicted, m) ← make_room m num_blocks_to_evict block_hashes;
  match evicted with
  | None => Ok (None, m)
  | Some to_evict =>
      let m := report_event m true to_evict in
      '(m, blocks) ← allocate_blocks m to_store;
      ASSERT (length blocks =? length to_store)%nat;
      let m := insert_blocks m (zip to_store blocks) in
      Ok (Some (mkPrepared to_store (block_id <$> blocks) to_evict), m)
  end.

(** One turn of the loops of [complete_store]. *)
Definition store_succeeded (s : CPUOffloadingManager * list K) (h : K) : CPUOffloadingManager * list K :=
  let '(m, stored) := s in
  match p_get (policy m) h with
  | Some b => if is_ready b then s else (set_policy m (p_update (policy m) h (set_ref_cnt 0)), stored ++ [h])
  | None => s
  end.
Definition store_failed (m : CPUOffloadingManager) (h : K) : res CPUOffloadingManager :=
  match p_get (policy m) h with
  | Some b => if is_ready b then Ok m else p ← p_remove (policy m) h; Ok (free_block (set_policy m p) b)
  | None => Ok m
  end.
Definition complete_store (m : CPUOffloadingManager) (block_hashes : list K) (success : bool) : res CPUOffloadingManager :=
  if success then
    let '(m, stored) := foldl store_succeeded (m, []) block_hashes in Ok (report_event m false stored)
  else rfold store_failed m block_hashes.

(** [take_events], read to its end. *)
Definition off_take_events (m : CPUOffloadingManager) : list OffloadingEvent * CPUOffloadingManager :=
  match events m with Some evs => (evs, set_events m (Some [])) | None => ([], m) end.
End manager.
Arguments OffloadingEvent : clear implicits.
Arguments CPUOffloadingManager : clear implicits.
Arguments PrepareStoreOutput : clear implicits.

(** ** Blocks seen before *)

(** The counter of [FilterReusedOffloadingManager]. *)
Record FilterReused (K : Type) := mkFilter {
  store_threshold : Z;
  max_tracker_size : Z;
  counts : list (K * Z);
}.
Arguments mkFilter {K}.
Arguments store_threshold {K}.
Arguments max_tracker_size {K}.
Arguments counts {K}.

Section filter_reused.
Context `{Countable K} {P : Type} `{!CachePolicy (K := K) P}.

Definition filter_init (store_threshold max_tracker_size : Z) : res (FilterReused K) :=
  RAISE ValueError IF (store_threshold <? 2);
  RAISE ValueError IF (max_tracker_size <? 1);
  Ok (mkFilter store_threshold max_tracker_size []).

(** One turn of the loop of [lookup]. *)
Definition record_lookup (f : FilterReused K) (h : K) : FilterReused K :=
  mkFilter (store_threshold f) (max_tracker_size f)
    (match od_pop (counts f) h with
     | Ok (n, d) => d ++ [(h, n + 1)]
     | Err _ => (if max_tracker_size f <=? Z.of_nat (length (counts f)) then drop 1 (counts f) else counts f) ++ [(h, 1)]
     end).

Definition filtered_lookup (f : FilterReused K) (m : CPUOffloadingManager K P) (block_hashes : list K) : Z * FilterReused K :=
  (off_lookup m block_hashes, foldl record_lookup f block_hashes).

Definition eligible (f : FilterReused K) (h : K) : bool := store_threshold f <=? default 0 (od_get (counts f) h).

Definition filtered_prepare_store (f : FilterReused K) (m : CPUOffloadingManager K P) (block_hashes : list K)
    : res (option (PrepareStoreOutput K) * CPUOffloadingManager K P) :=
  prepare_store m (List.filter (eligible f) block_hashes).
End filter_reused.
