(* ===== verification/OffloadProps.v ===== *)
(** * Correctness of the CPU offloading manager

    The manager with its clients: transfers that read and write the slots of the CPU
    buffer at any time between the call that prepares and the call that completes them.
    A load always finds the block it asked for, and the events tell which blocks can be
    loaded.  The proofs use the laws of a policy only. *)

From S2P Require Import Prelude OffloadPolicy Offload.
#[local] Open Scope Z_scope.

(** ** The manager and its clients *)

Section world.
Context `{Countable K} {P : Type} `{!CachePolicy (K := K) P}.

(** The transfers under way, each the hash of a block and its slot, the hash of the
    block whose data a slot holds, and the events taken so far. *)
Record world := mkWorld {
  mgr : CPUOffloadingManager K P;
  loading : gmultiset (K * Z);
  storing : gset (K * Z);
  memory : gmap Z K;
  log : list (OffloadingEvent K);
}.

Inductive op :=
  | OpLookup (block_hashes : list K)
  | OpTouch (block_hashes : list K)
  | OpLoad (block_hashes : list K)
  | OpLoaded (transfers : list (K * Z))
  | OpStore (block_hashes : list K)
  | OpWrite (slot : Z) (content : option K)
  | OpStored (transfers : list (K * Z)) (success : bool)
  | OpEvents.

(** What the clients keep to.  Loads are prepared for blocks that [lookup] found, stores
    for distinct blocks, both are completed at most once; a transfer writes only to its
    own slot and is reported as successful when the block's data is there.  Fewer than
    [2 ^ 31] loads are under way. *)
Definition legal (w : world) (o : op) : Prop :=
  match o with
  | OpLookup _ | OpTouch _ | OpEvents => True
  | OpLoad hs => off_lookup (mgr w) hs = Z.of_nat (length hs) ∧ Z.of_nat (size (loading w) + length hs) < 2 ^ 31
  | OpLoaded js => list_to_set_disj js ⊆ loading w
  | OpStore hs => NoDup hs
  | OpWrite slot _ => ∃ h, (h, slot) ∈ storing w
  | OpStored js success => NoDup js ∧ (∀ x, x ∈ js → x ∈ storing w) ∧ (success = true → ∀ h s, (h, s) ∈ js → memory w !! s = Some h)
  end.

Definition run_op (w : world) (o : op) : res world :=
  match o with
  | OpLookup _ => Ok w
  | OpTouch hs => Ok (mkWorld (off_touch (mgr w) hs) (loading w) (storing w) (memory w) (log w))
  | OpLoad hs =>
      '(m, ids) ← prepare_load (mgr w) hs;
      Ok (mkWorld m (list_to_set_disj (zip hs ids) ⊎ loading w) (storing w) (memory w) (log w))
  | OpLoaded js =>
      m ← complete_load (mgr w) js.*1;
      Ok (mkWorld m (loading w ∖ list_to_set_disj js) (storing w) (memory w) (log w))
  | OpStore hs =>
      '(o, m) ← prepare_store (mgr w) hs;
      let started := match o with Some out => zip (block_hashes_to_store out) (store_spec out) | None => [] end in
      Ok (mkWorld m (loading w) (list_to_set started ∪ storing w) (memory w) (log w))
  | OpWrite slot content => Ok (mkWorld (mgr w) (loading w) (storing w) (partial_alter (λ _, content) slot (memory w)) (log w))
  | OpStored js success =>
      m ← complete_store (mgr w) js.*1 success;
      Ok (mkWorld m (loading w) (storing w ∖ list_to_set js) (memory w) (log w))
  | OpEvents => let '(evs, m) := off_take_events (mgr w) in Ok (mkWorld m (loading w) (storing w) (memory w) (log w ++ evs))
  end.

Fixpoint legal_run (w : world) (ops : list op) : Prop :=
  match ops with
  | [] => True
  | o :: ops => legal w o ∧ ∀ w', run_op w o = Ok w' → legal_run w' ops
  end.

Definition start (block_size num_blocks : Z) (enable_events : bool) : world :=
  mkWorld (offload_init block_size num_blocks enable_events) ∅ ∅ ∅ [].

(** The blocks that the events say are offloaded. *)
Definition replay_event (s : gset K) (e : OffloadingEvent K) : gset K :=
  if ev_removed e then s ∖ list_to_set (ev_block_hashes e) else s ∪ list_to_set (ev_block_hashes e).
Definition replay (evs : list (OffloadingEvent K)) : gset K := foldl replay_event ∅ evs.

(** ** The invariant *)

(** The resident blocks with their slots. *)
Definition slot_of (kb : K * BlockStatus) : K * Z := (kb.1, block_id kb.2).
Definition slots (m : CPUOffloadingManager K P) : list (K * Z) := slot_of <$> p_items (policy m).
End world.
Arguments replay : simpl never.

Section invariant.
Context `{Countable K} {P : Type} `{!CachePolicy (K := K) P} `{!CachePolicyLaws P}.
Implicit Types (w : world (K := K) (P := P)) (m : CPUOffloadingManager K P).

(** [transit] are the slots allocated but not yet inserted, [unreported] the blocks
    stored but not yet reported. *)
Record inv (transit : list Z) (unreported : list K) w : Prop := {
  i_wf : p_wf (policy (mgr w));
  i_allocated : 0 ≤ num_allocated_blocks (mgr w) ≤ off_num_blocks (mgr w);
  i_slots : transit ++ free_list (mgr w) ++ (slots (mgr w)).*2 ≡ₚ zrange 0 (num_allocated_blocks (mgr w));
  i_storing x : x ∈ storing w → x ∈ slots (mgr w);
  i_loading x : x ∈ loading w → x ∈ slots (mgr w) ∧ x ∉ storing w;
  i_refs h b : (h, b) ∈ p_items (policy (mgr w)) →
    ref_cnt b = if decide ((h, block_id b) ∈ storing w) then -1 else Z.of_nat (multiplicity (h, block_id b) (loading w));
  i_memory h s : (h, s) ∈ slots (mgr w) → (h, s) ∉ storing w → memory w !! s = Some h;
  i_events evs : events (mgr w) = Some evs →
    ∀ h, h ∈ replay (log w ++ evs) ∨ h ∈ unreported ↔ ∃ s, (h, s) ∈ slots (mgr w) ∧ (h, s) ∉ storing w;
  i_bound : Z.of_nat (size (loading w)) < 2 ^ 31;
}.

Lemma slots_nodup m : p_wf (policy m) → NoDup (slots m).*1.
Proof. intros Hp. unfold slots. rewrite <- list_fmap_compose. by apply (p_nodup (policy m)). Qed.

Lemma zrange_nodup n : NoDup (zrange 0 n).
Proof. unfold zrange. apply NoDup_fmap_2; [intros x y; lia|apply NoDup_seq]. Qed.

(** One hash has one slot, one slot one hash. *)
Lemma fst_inj {A B} (l : list (A * B)) x y z : NoDup l.*1 → (x, y) ∈ l → (x, z) ∈ l → y = z.
Proof.
  intros Hnd H1 H2. induction l as [|[u v] l IH]; [by apply elem_of_nil in H1|]. cbn in Hnd. apply NoDup_cons in Hnd as [Hu Hnd].
  rewrite elem_of_cons in H1, H2. destruct H1 as [[= -> ->]|H1], H2 as [[= ->]|H2]; auto; try done; destruct Hu; apply list_elem_of_fmap; eexists; by split; [|done].
Qed.

Lemma snd_inj {A B} (l : list (A * B)) x y z : NoDup l.*2 → (x, z) ∈ l → (y, z) ∈ l → x = y.
Proof.
  intros Hnd H1 H2. induction l as [|[u v] l IH]; [by apply elem_of_nil in H1|]. cbn in Hnd. apply NoDup_cons in Hnd as [Hu Hnd].
  rewrite elem_of_cons in H1, H2. destruct H1 as [[= -> ->]|H1], H2 as [[= ->]|H2]; auto; try done; destruct Hu; apply list_elem_of_fmap; eexists; by split; [|done].
Qed.

Lemma inv_slot_nodup transit unreported w : inv transit unreported w → NoDup (slots (mgr w)).*2.
Proof.
  intros Hi. pose proof (i_slots _ _ _ Hi) as Hp. pose proof (zrange_nodup (num_allocated_blocks (mgr w))) as Hnd. rewrite <- Hp in Hnd.
  apply NoDup_app in Hnd as (_ & _ & Hnd). by apply NoDup_app in Hnd as (_ & _ & Hnd).
Qed.

(** What [get] finds. *)
Lemma inv_get transit unreported w h b :
  inv transit unreported w → p_get (policy (mgr w)) h = Some b ↔ (h, b) ∈ p_items (policy (mgr w)).
Proof.
  intros Hi. rewrite p_get_spec by apply Hi. split; [apply od_get_elem|]. apply od_get_nodup, p_nodup, Hi.
Qed.

Lemma slots_elem m h s : (h, s) ∈ slots m ↔ ∃ b, (h, b) ∈ p_items (policy m) ∧ block_id b = s.
Proof.
  unfold slots. rewrite list_elem_of_fmap. split.
  - intros ([k b] & [= -> ->] & Hin). by exists b.
  - intros (b & Hin & <-). by exists (h, b).
Qed.

Lemma int32_id z : - 2 ^ 31 ≤ z < 2 ^ 31 → int32 z = z.
Proof. intros Hz. unfold int32. rewrite Z.mod_small; lia. Qed.

(** ** Changes of one block *)

Lemma od_update_slots (d : list (K * BlockStatus)) h f :
  (∀ b, block_id (f b) = block_id b) → slot_of <$> od_update d h f = slot_of <$> d.
Proof.
  intros Hf. unfold od_update. destruct (od_get d h) as [b|] eqn:E; [|done].
  destruct (od_split d h b E) as (d1 & d2 & -> & _ & _ & Hs). rewrite Hs, !fmap_app, !fmap_cons. unfold slot_of at 2 5. cbn. by rewrite Hf.
Qed.

Lemma od_update_elem (d : list (K * BlockStatus)) h f k c :
  NoDup d.*1 → (k, c) ∈ od_update d h f → (k ≠ h ∧ (k, c) ∈ d) ∨ (k = h ∧ ∃ b, od_get d h = Some b ∧ c = f b).
Proof.
  intros Hnd Hin. unfold od_update in Hin. destruct (od_get d h) as [b|] eqn:E.
  - destruct (decide (k = h)) as [->|Hne].
    + right. split; [done|]. exists b. split; [done|]. apply od_get_nodup in Hin; [|by pose proof (od_update_keys d h f) as Hk; unfold od_update in Hk; rewrite E in Hk; rewrite Hk].
      rewrite od_get_set_eq in Hin. by simplify_eq.
    + left. split; [done|]. destruct (od_split d h b E) as (d1 & d2 & -> & _ & _ & Hs). rewrite Hs in Hin.
      rewrite elem_of_app, elem_of_cons in Hin |- *. naive_solver.
  - left. split; [|done]. intros ->. apply od_get_None in E. apply E, list_elem_of_fmap. by exists (h, c).
Qed.

(** The status of one resident block changes, with its transfers. *)
Lemma inv_update transit u u' w h b f loading' storing' :
  inv transit u w → p_get (policy (mgr w)) h = Some b → (∀ b, block_id (f b) = block_id b) →
  let x := (h, block_id b) in
  (∀ y, y ≠ x → (y ∈ storing' ↔ y ∈ storing w) ∧ multiplicity y loading' = multiplicity y (loading w)) →
  (x ∈ storing' → x ∉ loading') →
  ref_cnt (f b) = (if decide (x ∈ storing') then -1 else Z.of_nat (multiplicity x loading')) →
  (x ∉ storing' → memory w !! block_id b = Some h) →
  (events (mgr w) ≠ None → ∀ k, k ∈ u' ↔ k ∈ u ∨ (k = h ∧ x ∈ storing w ∧ x ∉ storing')) →
  (x ∈ storing' → x ∈ storing w) → Z.of_nat (size loading') < 2 ^ 31 →
  inv transit u' (mkWorld (set_policy (mgr w) (p_update (policy (mgr w)) h f)) loading' storing' (memory w) (log w)).
Proof.
  intros Hi Hb Hf x Hfr Hsl Href Hmem Hu Hst Hbd. pose proof (proj1 (inv_get _ _ _ h b Hi) Hb) as Hin. destruct (p_update_spec (policy (mgr w)) h f (i_wf _ _ _ Hi)) as [Hwf Hit].
  set (w' := mkWorld _ _ _ _ _). assert (slots (mgr w') = slots (mgr w)) as Hs by (unfold slots; cbn; rewrite Hit; by apply od_update_slots).
  assert (x ∈ slots (mgr w)) as Hx by (apply slots_elem; by exists b). destruct Hi as [I1 I2 I3 I4 I5 I6 I7 I8 I9]. split; rewrite ?Hs; cbn; try done.
  - intros y Hy. destruct (decide (y = x)) as [->|Hne]; [done|]. apply I4. by apply Hfr.
  - intros y Hy. destruct (decide (y = x)) as [->|Hne]; [split; [done|]; intros ?; by apply Hsl|].
    destruct (Hfr y Hne) as [H1 H2]. rewrite H1. apply I5. rewrite elem_of_multiplicity in Hy |- *. by rewrite <- H2.
  - intros k c Hk. rewrite Hit in Hk. apply od_update_elem in Hk; [|by apply p_nodup]. destruct Hk as [[Hne Hk]|[-> (b' & Hb' & ->)]].
    + destruct (Hfr (k, block_id c)) as [H1 H2]; [unfold x; congruence|]. rewrite (I6 k c Hk), H2. clear Href. do 2 case_decide; done || tauto.
    + rewrite <- p_get_spec in Hb' by done. simplify_eq. by rewrite Hf.
  - intros k s Hk Hn. destruct (decide ((k, s) = x)) as [E|Hne]; [unfold x in E; simplify_eq; by apply Hmem|]. apply I7; [done|]. by rewrite <- (proj1 (Hfr _ Hne)).
  - intros evs He k. rewrite (Hu ltac:(congruence) k). pose proof (I8 evs He k) as E. assert (∀ A B C : Prop, A ∨ B ∨ C ↔ (A ∨ B) ∨ C) as Ho by tauto. rewrite Ho, E. split.
    + intros [(s & Hk & Hn)|(-> & _ & Hn)]; [|by exists (block_id b)]. exists s. split; [done|]. intros Hk'.
      destruct (decide ((k, s) = x)) as [Ex|Hne]; [rewrite Ex in *; auto|]. by apply Hn, (proj1 (Hfr _ Hne)).
    + intros (s & Hk & Hn). destruct (decide ((k, s) ∈ storing w)) as [Hin'|]; [|left; by exists s]. right.
      destruct (decide ((k, s) = x)) as [Ex|Hne]; [rewrite Ex in *; unfold x in Ex; simplify_eq; done|]. by rewrite (proj1 (Hfr _ Hne)) in Hn.
Qed.

Lemma multiplicity_le_size {A} `{Countable A} (x : A) (X : gmultiset A) : (multiplicity x X ≤ size X)%nat.
Proof.
  assert ((multiplicity x X) *: {[+ x +]} ⊆ X) as Hs.
  { intros y. rewrite multiplicity_scalar_mul. destruct (decide (y = x)) as [->|Hne].
    - rewrite multiplicity_singleton_eq. lia.
    - rewrite multiplicity_singleton_ne by done. lia. }
  rewrite (gmultiset_disj_union_difference _ _ Hs) at 2.
  rewrite gmultiset_size_disj_union, gmultiset_size_scalar_mul, gmultiset_size_singleton. lia.
Qed.

(** A ready block has a count of loads, the others are being stored. *)
Lemma inv_ready transit u w h b :
  inv transit u w → p_get (policy (mgr w)) h = Some b →
  (h, block_id b) ∈ slots (mgr w) ∧
  (if is_ready b then ((h, block_id b) ∉ storing w) ∧ ref_cnt b = Z.of_nat (multiplicity (h, block_id b) (loading w))
   else (h, block_id b) ∈ storing w).
Proof.
  intros Hi Hb. pose proof (proj1 (inv_get _ _ _ h b Hi) Hb) as Hin. split; [apply slots_elem; by exists b|].
  pose proof (i_refs _ _ _ Hi h b Hin) as Href. unfold is_ready. case_decide; destruct (Z.leb_spec 0 (ref_cnt b)); try lia; done.
Qed.

Lemma load_one_ok transit u w h b :
  inv transit u w → p_get (policy (mgr w)) h = Some b → is_ready b = true → Z.of_nat (size (loading w)) + 1 < 2 ^ 31 →
  inv transit u (mkWorld (set_policy (mgr w) (p_update (policy (mgr w)) h (λ b, set_ref_cnt (ref_cnt b + 1) b)))
    ({[+ (h, block_id b) +]} ⊎ loading w) (storing w) (memory w) (log w)).
Proof.
  intros Hi Hb Hr Hbd. destruct (inv_ready _ _ _ h b Hi Hb) as [Hx Hn]. rewrite Hr in Hn. destruct Hn as [Hs Href].
  apply inv_update with (u := u) (b := b); try done.
  - intros y Hy. split; [done|]. rewrite multiplicity_disj_union, multiplicity_singleton_ne by done. lia.
  - rewrite decide_False by done. unfold set_ref_cnt. cbn [ref_cnt]. pose proof (multiplicity_le_size (h, block_id b) (loading w)).
    rewrite multiplicity_disj_union, multiplicity_singleton_eq, int32_id by lia. lia.
  - intros _. by apply (i_memory _ _ _ Hi).
  - intros _ k. tauto.
  - rewrite gmultiset_size_disj_union, gmultiset_size_singleton. lia.
Qed.

Lemma unload_one_ok transit u w h s :
  inv transit u w → (h, s) ∈ loading w →
  ∃ m, complete_load_one (mgr w) h = Ok m ∧ inv transit u (mkWorld m (loading w ∖ {[+ (h, s) +]}) (storing w) (memory w) (log w)).
Proof.
  intros Hi Hl. destruct (i_loading _ _ _ Hi _ Hl) as [Hx Hs]. pose proof Hx as (b & Hin & <-)%slots_elem.
  pose proof (proj2 (inv_get _ _ _ h b Hi) Hin) as Hb. pose proof (i_refs _ _ _ Hi h b Hin) as Href. rewrite decide_False in Href by done.
  pose proof (proj1 (elem_of_multiplicity _ _) Hl) as Hm. unfold complete_load_one. rewrite Hb, (proj2 (Z.ltb_lt _ _)) by lia.
  eexists. split; [done|]. assert ({[+ (h, block_id b) +]} ⊆ loading w) as Hsub by multiset_solver.
  pose proof (multiplicity_le_size (h, block_id b) (loading w)). pose proof (i_bound _ _ _ Hi).
  apply inv_update with (u := u) (b := b); try done.
  - intros y Hy. split; [done|]. rewrite multiplicity_difference, multiplicity_singleton_ne by done. lia.
  - rewrite decide_False by done. unfold set_ref_cnt. cbn [ref_cnt]. rewrite multiplicity_difference, multiplicity_singleton_eq, int32_id by lia. lia.
  - intros _. by apply (i_memory _ _ _ Hi).
  - intros _ k. tauto.
  - rewrite gmultiset_size_difference, gmultiset_size_singleton by done. lia.
Qed.

Lemma stored_one_ok transit u w h s :
  inv transit u w → (h, s) ∈ storing w → memory w !! s = Some h →
  ∃ m, store_succeeded (mgr w, u) h = (m, u ++ [h]) ∧ inv transit (u ++ [h]) (mkWorld m (loading w) (storing w ∖ {[(h, s)]}) (memory w) (log w)).
Proof.
  intros Hi Hs Hm. pose proof (i_storing _ _ _ Hi _ Hs) as (b & Hin & <-)%slots_elem. pose proof (proj2 (inv_get _ _ _ h b Hi) Hin) as Hb.
  pose proof (i_refs _ _ _ Hi h b Hin) as Href. rewrite decide_True in Href by done. unfold store_succeeded. rewrite Hb. unfold is_ready. rewrite Href. cbn [Z.leb Z.compare].
  eexists. split; [done|]. assert ((h, block_id b) ∉ loading w) as Hl by (intros Hl; by apply (i_loading _ _ _ Hi) in Hl as [_ ?]).
  apply inv_update with (u := u) (b := b); try done.
  - set_solver.
  - rewrite decide_False by set_solver. apply not_elem_of_multiplicity in Hl. rewrite Hl. done.
  - intros _ k. rewrite elem_of_app, list_elem_of_singleton. set_solver.
  - apply Hi.
Qed.

(** ** Blocks that leave and enter *)

Lemma slots_perm m (p' : P) l : p_items (policy m) ≡ₚ l ++ p_items p' → slots m ≡ₚ (slot_of <$> l) ++ (slot_of <$> p_items p').
Proof. intros Hp. unfold slots. by rewrite Hp, fmap_app. Qed.

(** The blocks [l] leave the policy and their slots become free. *)
Lemma inv_remove transit u w (p' : P) l events' :
  inv transit u w → p_wf p' → p_items (policy (mgr w)) ≡ₚ l ++ p_items p' →
  (∀ x, x ∈ slot_of <$> l → x ∉ loading w) →
  let storing' := storing w ∖ list_to_set (slot_of <$> l) in
  (∀ evs, events' = Some evs → ∀ h, h ∈ replay (log w ++ evs) ∨ h ∈ u ↔ ∃ s, (h, s) ∈ slot_of <$> p_items p' ∧ (h, s) ∉ storing') →
  inv transit u (mkWorld (mkOffload (off_block_size (mgr w)) (off_num_blocks (mgr w)) (num_allocated_blocks (mgr w))
    (free_list (mgr w) ++ (block_id <$> l.*2)) events' p') (loading w) storing' (memory w) (log w)).
Proof.
  intros Hi Hp' Hl Hnl storing' Hev. pose proof (slots_perm _ _ _ Hl) as Hs. pose proof (slots_nodup (mgr w) (i_wf _ _ _ Hi)) as Hnd.
  rewrite Hs, fmap_app in Hnd. apply NoDup_app in Hnd as (_ & Hdis & _).
  assert (∀ x, x ∈ slot_of <$> p_items p' → x ∉ slot_of <$> l) as Hout.
  { intros x Hx Hx'. apply (Hdis x.1); by apply list_elem_of_fmap_2. }
  assert (∀ x, x ∈ slot_of <$> p_items p' → (x ∈ storing' ↔ x ∈ storing w)) as Hst.
  { intros x Hx%Hout. unfold storing'. rewrite elem_of_difference, elem_of_list_to_set. tauto. }
  destruct Hi as [I1 I2 I3 I4 I5 I6 I7 I8 I9]. split; cbn; try done.
  - rewrite <- I3, Hs, fmap_app. apply Permutation_app; [done|]. rewrite <- app_assoc. apply Permutation_app; [done|].
    unfold slots. cbn. by rewrite <- !list_fmap_compose.
  - intros x [Hx Hn%not_elem_of_list_to_set]%elem_of_difference. apply I4 in Hx. rewrite Hs in Hx. by apply elem_of_app in Hx as [?|?].
  - intros x Hx. destruct (I5 x Hx) as [H1 H2]. rewrite Hs in H1. apply elem_of_app in H1 as [H1|H1]; [by apply Hnl in H1|].
    split; [done|]. by rewrite Hst.
  - intros h b Hin. rewrite (I6 h b) by (rewrite Hl; apply elem_of_app; by right).
    assert ((h, block_id b) ∈ slot_of <$> p_items p') as Hx%Hst by (by apply (list_elem_of_fmap_2 slot_of _ (h, b))).
    do 2 case_decide; done || tauto.
  - intros h s Hin Hn. apply I7; [rewrite Hs; apply elem_of_app; by right|]. by rewrite <- Hst.
Qed.

(** A block enters, in one of the slots in transit. *)
Lemma inv_insert transit u w h s :
  inv (s :: transit) u w → p_get (policy (mgr w)) h = None →
  inv transit u (mkWorld (set_policy (mgr w) (p_insert (policy (mgr w)) h (new_status s))) (loading w) ({[(h, s)]} ∪ storing w) (memory w) (log w)).
Proof.
  intros Hi Hn. destruct (p_insert_spec (policy (mgr w)) h (new_status s) (i_wf _ _ _ Hi) Hn) as [Hwf Hp].
  rewrite p_get_spec in Hn by apply Hi. apply od_get_None in Hn. set (m' := set_policy _ _).
  assert (slots m' ≡ₚ (h, s) :: slots (mgr w)) as Hs by (unfold slots; cbn; by rewrite Hp).
  assert (policy m' = p_insert (policy (mgr w)) h (new_status s) ∧ free_list m' = free_list (mgr w) ∧ num_allocated_blocks m' = num_allocated_blocks (mgr w)
    ∧ off_num_blocks m' = off_num_blocks (mgr w) ∧ events m' = events (mgr w)) as (E1 & E2 & E3 & E4 & E5) by done. clearbody m'.
  assert (∀ k t, (k, t) ∈ slots (mgr w) → k ≠ h) as Hne.
  { intros k t (b & Hb & _)%slots_elem ->. apply Hn. apply list_elem_of_fmap. by exists (h, b). }
  destruct Hi as [I1 I2 I3 I4 I5 I6 I7 I8 I9]. split; cbn; rewrite ?E1, ?E2, ?E3, ?E4, ?E5; try done.
  - rewrite Hs. cbn. rewrite <- I3. cbn. rewrite <- Permutation_middle, <- Permutation_middle. done.
  - intros x. rewrite Hs, elem_of_union, elem_of_singleton, elem_of_cons. naive_solver.
  - intros [k t] Hx. destruct (I5 _ Hx) as [H1 H2]. rewrite Hs. split; [by right|]. pose proof (Hne _ _ H1). set_solver.
  - intros k b Hin. rewrite Hp in Hin. apply elem_of_cons in Hin as [[= -> ->]|Hin].
    + by rewrite decide_True by set_solver.
    + rewrite (I6 k b Hin). assert (k ≠ h) by (eapply Hne, slots_elem; by exists b). do 2 case_decide; set_solver.
  - intros k t. rewrite Hs, elem_of_cons. intros [[= -> ->]|Hin] Hout; [set_solver|]. apply I7; set_solver.
  - intros evs He k. rewrite (I8 evs He k). setoid_rewrite Hs. split.
    + intros (t & Hin & Hout). exists t. split; [by right|]. pose proof (Hne _ _ Hin). set_solver.
    + intros (t & [[= -> ->]|Hin]%elem_of_cons & Hout); [set_solver|]. exists t. split; [done|]. set_solver.
Qed.

(** ** Allocation *)

Lemma take_fresh_spec n m (blocks : list BlockStatus) :
  take_fresh n m blocks = (set_allocated m (num_allocated_blocks m + Z.of_nat n),
    blocks ++ (new_status <$> zrange (num_allocated_blocks m) (num_allocated_blocks m + Z.of_nat n))).
Proof.
  revert m blocks. induction n as [|n IH]; intros m blocks; cbn [take_fresh].
  - rewrite zrange_nil by lia. rewrite app_nil_r, Z.add_0_r. by destruct m.
  - rewrite IH. cbn. rewrite <- app_assoc. f_equal; [unfold set_allocated; cbn; f_equal; lia|]. f_equal. cbn.
    rewrite (zrange_cons (num_allocated_blocks m)) by lia. cbn. do 3 f_equal. lia.
Qed.

(** The blocks come off the end of the free list. *)
Lemma take_reused_spec n m (blocks : list BlockStatus) :
  (n ≤ length (free_list m))%nat →
  ∃ ids rest, take_reused n m blocks = Ok (set_free_list m rest, blocks ++ (new_status <$> ids)) ∧ length ids = n ∧ free_list m ≡ₚ ids ++ rest.
Proof.
  revert m blocks. induction n as [|n IH]; intros m blocks Hn; cbn [take_reused].
  - exists [], (free_list m). rewrite app_nil_r. by destruct m.
  - destruct (free_list m) as [|id l _] eqn:El using rev_ind; [cbn in Hn; lia|]. rewrite last_snoc, length_app. cbn [length].
    rewrite Nat.add_sub, take_app_length. rewrite length_app in Hn. cbn [length] in Hn.
    destruct (IH (set_free_list m l) (blocks ++ [new_status id])) as (ids & rest & E & Hlen & Hp); [cbn; lia|].
    exists (id :: ids), rest. rewrite E. split_and!; [|cbn; lia|].
    + cbn. by rewrite <- app_assoc.
    + cbn in Hp |- *. rewrite Permutation_app_comm. cbn. by rewrite Hp.
Qed.

Lemma zrange_extend a b c : a ≤ b ≤ c → zrange a c = zrange a b ++ zrange b c.
Proof.
  intros Hab. unfold zrange. replace (Z.to_nat (c - a)) with (Z.to_nat (b - a) + Z.to_nat (c - b))%nat by lia.
  rewrite seq_app, fmap_app. f_equal. replace (seq (0 + Z.to_nat (b - a)) (Z.to_nat (c - b))) with (Nat.add (Z.to_nat (b - a)) <$> seq 0 (Z.to_nat (c - b)))
    by (rewrite fmap_add_seq; f_equal; lia). rewrite <- list_fmap_compose.
  apply list_fmap_ext. intros _ i _. cbn. lia.
Qed.

(** There are enough blocks: they leave the free list or are fresh. *)
Lemma take_blocks_ok u w (hs : list K) :
  inv [] u w → Z.of_nat (length hs) ≤ off_num_free_blocks (mgr w) →
  ∃ m ids, allocate_blocks (mgr w) hs = Ok (m, new_status <$> ids) ∧ length ids = length hs ∧ policy m = policy (mgr w)
    ∧ inv ids u (mkWorld m (loading w) (storing w) (memory w) (log w)).
Proof.
  intros [I1 I2 I3 I4 I5 I6 I7 I8 I9] Hn. unfold off_num_free_blocks in Hn. unfold allocate_blocks. set (m := mgr w) in *. set (n := Z.of_nat (length hs)) in *.
  set (f := Z.min n (off_num_blocks m - num_allocated_blocks m)). rewrite (proj2 (Z.leb_le _ _)) by lia. rewrite take_fresh_spec, Z2Nat.id by lia. cbn [app].
  destruct (take_reused_spec (Z.to_nat (n - f)) (set_allocated m (num_allocated_blocks m + f)) (new_status <$> zrange (num_allocated_blocks m) (num_allocated_blocks m + f)))
    as (ids & rest & -> & Hlen & Hp); [cbn; lia|]. rewrite <- fmap_app. eexists _, _. split; [done|]. split; [|split; [done|]].
  - rewrite length_app, length_zrange. lia.
  - split; cbn; try done; [lia|]. rewrite (zrange_extend 0 (num_allocated_blocks m)), <- I3 by lia. cbn in Hp |- *. rewrite Hp.
    fold m. unfold slots. cbn. solve_Permutation.
Qed.


(** ** The operations *)

(** A block can be loaded. *)
Definition ready w (h : K) : Prop := ∃ s, (h, s) ∈ slots (mgr w) ∧ (h, s) ∉ storing w.

Lemma ready_get u w h : inv [] u w → ready w h → ∃ b, p_get (policy (mgr w)) h = Some b ∧ is_ready b = true.
Proof.
  intros Hi (s & (b & Hin & <-)%slots_elem & Hn). exists b. pose proof (proj2 (inv_get _ _ _ h b Hi) Hin) as Hb. split; [done|].
  destruct (inv_ready _ _ _ h b Hi Hb) as [_ Hr]. by destruct (is_ready b).
Qed.

Lemma lookup_ready w hs : inv [] [] w → off_lookup (mgr w) hs = Z.of_nat (length hs) ↔ Forall (ready w) hs.
Proof.
  intros Hi. assert (∀ l, off_lookup (mgr w) l ≤ Z.of_nat (length l)) as Hle.
  { intros l. induction l as [|h l IH]; cbn; [lia|]. repeat case_match; lia. }
  induction hs as [|h hs IH]; cbn [off_lookup length]; [split; [by constructor|done]|]. pose proof (Hle hs). split.
  - destruct (p_get (policy (mgr w)) h) as [b|] eqn:Eb; [|lia]. destruct (is_ready b) eqn:Er; [|lia]. intros E. constructor; [|apply IH; lia].
    destruct (inv_ready _ _ _ h b Hi Eb) as [H1 H2]. rewrite Er in H2. exists (block_id b). tauto.
  - intros [Hh Hhs]%Forall_cons. destruct (ready_get _ _ _ Hi Hh) as (b & -> & ->). apply IH in Hhs. lia.
Qed.

Lemma prepare_load_ok hs w ids :
  inv [] [] w → Forall (ready w) hs → Z.of_nat (size (loading w) + length hs) < 2 ^ 31 →
  ∃ m ids', rfold prepare_load_one (mgr w, ids) hs = Ok (m, ids ++ ids')
    ∧ inv [] [] (mkWorld m (list_to_set_disj (zip hs ids') ⊎ loading w) (storing w) (memory w) (log w)).
Proof.
  revert w ids. induction hs as [|h hs IH]; intros w ids Hi Hr Hbd.
  - exists (mgr w), []. rewrite app_nil_r. split; [done|]. cbn [zip_with]. rewrite list_to_set_disj_nil, (left_id_L ∅ (⊎)). by destruct w.
  - apply Forall_cons in Hr as [Hh Hr]. destruct (ready_get _ _ _ Hi Hh) as (b & Hb & Hrb). cbn [rfold]. unfold prepare_load_one at 2. rewrite Hb, Hrb. cbn [mbind res_bind].
    cbn [length] in Hbd. pose proof (load_one_ok _ _ w h b Hi Hb Hrb ltac:(lia)) as Hi1. set (w1 := mkWorld _ _ _ _ _) in Hi1.
    destruct (IH w1 (ids ++ [block_id b]) Hi1) as (m & ids' & E & Hi2).
    + eapply Forall_impl; [exact Hr|]. intros k (s & Hs & Hn). exists s. split; [|done]. unfold slots in *. cbn.
      rewrite (proj2 (p_update_spec _ _ _ (i_wf _ _ _ Hi))). by rewrite od_update_slots.
    + cbn [w1 loading]. rewrite gmultiset_size_disj_union, gmultiset_size_singleton. lia.
    + exists m, (block_id b :: ids'). split; [rewrite <- app_assoc in E; exact E|]. cbn [zip_with loading storing memory log w1] in Hi2 |- *.
      assert (list_to_set_disj ((h, block_id b) :: zip hs ids') ⊎ loading w = list_to_set_disj (zip hs ids') ⊎ ({[+ (h, block_id b) +]} ⊎ loading w)) as ->; [|done].
      rewrite list_to_set_disj_cons. multiset_solver.
Qed.

Lemma complete_load_ok js w :
  inv [] [] w → list_to_set_disj js ⊆ loading w →
  ∃ m, complete_load (mgr w) js.*1 = Ok m ∧ inv [] [] (mkWorld m (loading w ∖ list_to_set_disj js) (storing w) (memory w) (log w)).
Proof.
  unfold complete_load. revert w. induction js as [|[h s] js IH]; intros w Hi Hj.
  - exists (mgr w). split; [done|]. rewrite list_to_set_disj_nil. assert (loading w ∖ ∅ = loading w) as -> by multiset_solver. by destruct w.
  - rewrite list_to_set_disj_cons in Hj. destruct (unload_one_ok _ _ w h s Hi) as (m1 & E1 & Hi1); [multiset_solver|]. cbn [fmap list_fmap fst rfold]. rewrite E1. cbn [mbind res_bind].
    destruct (IH _ Hi1) as (m & E & Hi2); [cbn [loading]; multiset_solver|]. exists m. split; [done|].
    cbn [loading storing memory log] in Hi2. rewrite list_to_set_disj_cons. assert (loading w ∖ ({[+ (h, s) +]} ⊎ list_to_set_disj js) = loading w ∖ {[+ (h, s) +]} ∖ list_to_set_disj js) as -> by multiset_solver. done.
Qed.
End invariant.
