(* ===== verification/OffloadSafe.v ===== *)
(** * Safety of the CPU offloading manager

    Storing blocks, the invariant along every run of legal operations, and what follows
    from it for the transfers. *)

From S2P Require Import Prelude OffloadPolicy Offload OffloadProps.
#[local] Open Scope Z_scope.

Section stores.
Context `{Countable K} {P : Type} `{!CachePolicy (K := K) P} `{!CachePolicyLaws P}.
Implicit Types (w : world (K := K) (P := P)) (m : CPUOffloadingManager K P).

(** ** Events *)

Lemma replay_snoc (l : list (OffloadingEvent K)) e : replay (l ++ [e]) = replay_event (replay l) e.
Proof. unfold replay. by rewrite foldl_app. Qed.

(** The blocks stored are reported. *)
Lemma report_stored_ok u w :
  inv [] u w → inv [] [] (mkWorld (report_event (mgr w) false u) (loading w) (storing w) (memory w) (log w)).
Proof.
  intros [I1 I2 I3 I4 I5 I6 I7 I8 I9]. unfold report_event. destruct u as [|h u]; [by split|].
  destruct (events (mgr w)) as [evs|] eqn:E; split; cbn; try done; [|congruence].
  intros ? [= <-] k. rewrite (app_assoc (log w)), replay_snoc. unfold replay_event. cbn [ev_removed ev_block_hashes].
  rewrite elem_of_union, elem_of_list_to_set, elem_of_nil. rewrite <- (I8 evs eq_refl k). tauto.
Qed.

(** ** Completing a store *)

Lemma stored_all_ok js w u :
  inv [] u w → NoDup js → (∀ x, x ∈ js → x ∈ storing w) → (∀ h s, (h, s) ∈ js → memory w !! s = Some h) →
  ∃ m u', foldl store_succeeded (mgr w, u) js.*1 = (m, u') ∧ inv [] u' (mkWorld m (loading w) (storing w ∖ list_to_set js) (memory w) (log w)).
Proof.
  revert w u. induction js as [|[h s] js IH]; intros w u Hi Hnd Hs Hm.
  - exists (mgr w), u. split; [done|]. assert (storing w ∖ list_to_set [] = storing w) as -> by set_solver. by destruct w.
  - apply NoDup_cons in Hnd as [Hx Hnd]. destruct (stored_one_ok _ _ w h s Hi) as (m1 & E1 & Hi1); [apply Hs; by left|apply Hm; by left|].
    destruct (IH _ _ Hi1 Hnd) as (m & u' & E & Hi2).
    + cbn [storing]. intros x Hin. apply elem_of_difference. split; [apply Hs; by right|]. intros ->%elem_of_singleton. done.
    + cbn [memory]. intros k t Hin. apply Hm. by right.
    + exists m, u'. cbn [fmap list_fmap fst foldl]. rewrite E1. split; [done|]. cbn [loading storing memory log] in Hi2.
      assert (storing w ∖ list_to_set ((h, s) :: js) = storing w ∖ {[(h, s)]} ∖ list_to_set js) as -> by set_solver. done.
Qed.

Lemma failed_one_ok w h s :
  inv [] [] w → (h, s) ∈ storing w →
  ∃ m, store_failed (mgr w) h = Ok m ∧ inv [] [] (mkWorld m (loading w) (storing w ∖ {[(h, s)]}) (memory w) (log w)).
Proof.
  intros Hi Hs. pose proof (i_storing _ _ _ Hi _ Hs) as (b & Hin & <-)%slots_elem. pose proof (proj2 (inv_get _ _ _ h b Hi) Hin) as Hb.
  unfold store_failed. rewrite Hb. destruct (inv_ready _ _ _ h b Hi Hb) as [Hx Hr]. destruct (is_ready b) eqn:Er; [tauto|].
  destruct (p_remove_spec _ h b (i_wf _ _ _ Hi) Hb) as (p' & -> & Hwf & Hp). cbn [mbind res_bind]. eexists. split; [done|].
  assert (storing w ∖ {[(h, block_id b)]} = storing w ∖ list_to_set (slot_of <$> [(h, b)])) as -> by (unfold slot_of; cbn; set_solver).
  apply (inv_remove [] [] w p' [(h, b)] (events (mgr w)) Hi Hwf Hp).
  - cbn. intros x ->%list_elem_of_singleton Hl. by apply (i_loading _ _ _ Hi) in Hl as [_ ?].
  - intros evs He k. rewrite (i_events _ _ _ Hi evs He k). setoid_rewrite (slots_perm (mgr w) p' [(h, b)] Hp). cbn. unfold slot_of at 1. cbn.
    split.
    + intros (t & [[= -> ->]|Ht]%elem_of_cons & Hn); [done|]. exists t. split; [done|]. set_solver.
    + intros (t & Ht & Hn). exists t. split; [by right|]. intros Hk. apply Hn. apply elem_of_difference. split; [done|].
      intros Hkt. assert ((k, t) = slot_of (h, b)) as [= -> ->] by set_solver.
      pose proof (slots_nodup (mgr w) (i_wf _ _ _ Hi)) as Hnd. rewrite (slots_perm (mgr w) p' [(h, b)] Hp) in Hnd. cbn in Hnd. apply NoDup_cons in Hnd as [Hk' _].
      apply Hk'. apply list_elem_of_fmap. by exists (h, block_id b).
Qed.

Lemma failed_all_ok js w :
  inv [] [] w → NoDup js → (∀ x, x ∈ js → x ∈ storing w) →
  ∃ m, rfold store_failed (mgr w) js.*1 = Ok m ∧ inv [] [] (mkWorld m (loading w) (storing w ∖ list_to_set js) (memory w) (log w)).
Proof.
  revert w. induction js as [|[h s] js IH]; intros w Hi Hnd Hs.
  - exists (mgr w). split; [done|]. assert (storing w ∖ list_to_set [] = storing w) as -> by set_solver. by destruct w.
  - apply NoDup_cons in Hnd as [Hx Hnd]. destruct (failed_one_ok w h s Hi) as (m1 & E1 & Hi1); [apply Hs; by left|].
    destruct (IH _ Hi1 Hnd) as (m & E & Hi2).
    + cbn [storing]. intros x Hin. apply elem_of_difference. split; [apply Hs; by right|]. intros ->%elem_of_singleton. done.
    + exists m. cbn [fmap list_fmap fst rfold]. rewrite E1. split; [done|]. cbn [loading storing memory log] in Hi2.
      assert (storing w ∖ list_to_set ((h, s) :: js) = storing w ∖ {[(h, s)]} ∖ list_to_set js) as -> by set_solver. done.
Qed.

Lemma complete_store_ok js success w :
  inv [] [] w → legal w (OpStored js success) →
  ∃ m, complete_store (mgr w) js.*1 success = Ok m ∧ inv [] [] (mkWorld m (loading w) (storing w ∖ list_to_set js) (memory w) (log w)).
Proof.
  intros Hi (Hnd & Hs & Hm). unfold complete_store. destruct success; [|by apply failed_all_ok].
  destruct (stored_all_ok js w [] Hi Hnd Hs (Hm eq_refl)) as (m & u & -> & Hi'). eexists. split; [done|]. by apply report_stored_ok in Hi'.
Qed.

(** ** Preparing a store *)

Lemma foldl_free_block l m : foldl free_block m l = set_free_list m (free_list m ++ (block_id <$> l)).
Proof.
  revert m. induction l as [|b l IH]; intros m; cbn; [rewrite app_nil_r; by destruct m|]. rewrite IH. unfold set_free_list. cbn.
  by rewrite <- app_assoc.
Qed.

(** Eviction takes only blocks that no transfer uses. *)
Lemma evicted_idle u w protected l (p' : P) :
  inv [] u w → p_items (policy (mgr w)) ≡ₚ l ++ p_items p' → Forall (λ kb, can_evict protected kb = true) l →
  ∀ x, x ∈ slot_of <$> l → (x ∉ loading w) ∧ (x ∉ storing w) ∧ (x.1 ∉ protected).
Proof.
  intros Hi Hp Hl x ([h b] & -> & Hin)%list_elem_of_fmap. rewrite Forall_forall in Hl. pose proof (Hl _ Hin) as He.
  unfold can_evict in He. cbn in He. apply andb_true_iff in He as [Hr%Z.eqb_eq Hn%bool_decide_eq_true].
  pose proof (i_refs _ _ _ Hi h b) as Href. rewrite Hp, elem_of_app in Href. specialize (Href (or_introl Hin)). unfold slot_of. cbn.
  case_decide; [lia|]. split_and!; [|done|done]. apply not_elem_of_multiplicity. lia.
Qed.

Lemma evict_events w l (p' : P) evs :
  inv [] [] w → events (mgr w) = Some evs → p_items (policy (mgr w)) ≡ₚ l ++ p_items p' → (∀ x, x ∈ slot_of <$> l → x ∉ storing w) →
  ∀ h e, ev_removed e = true → ev_block_hashes e = l.*1 →
  h ∈ replay (log w ++ evs ++ [e]) ∨ h ∈ [] ↔ ∃ s, (h, s) ∈ slot_of <$> p_items p' ∧ (h, s) ∉ storing w.
Proof.
  intros Hi He Hp Hns h e Hrem Hh. rewrite (app_assoc (log w)), replay_snoc. unfold replay_event. rewrite Hrem, Hh, elem_of_difference, elem_of_list_to_set, elem_of_nil.
  pose proof (i_events _ _ _ Hi evs He h) as E. rewrite elem_of_nil in E. pose proof (slots_perm _ _ _ Hp) as Hs.
  pose proof (slots_nodup (mgr w) (i_wf _ _ _ Hi)) as Hnd. rewrite Hs, fmap_app in Hnd. apply NoDup_app in Hnd as (_ & Hdis & _).
  assert ((slot_of <$> l).*1 = l.*1) as El by (rewrite <- list_fmap_compose; by apply list_fmap_ext). rewrite El in Hdis. setoid_rewrite Hs in E. split.
  - intros [[Hin Hn]|[]]. destruct (proj1 E (or_introl Hin)) as (s & Hk & Hn'). apply elem_of_app in Hk as [Hk|Hk]; [|by exists s].
    destruct Hn. rewrite <- El. by apply (list_elem_of_fmap_2 fst _ (h, s)).
  - intros (s & Hk & Hn). left. split.
    + destruct (proj2 E) as [?|[]]; [|done]. exists s. split; [apply elem_of_app; by right|done].
    + intros Hin. apply (Hdis h Hin). by apply (list_elem_of_fmap_2 fst _ (h, s)).
Qed.

(** Making room: nothing happens, or as many idle blocks leave as were needed. *)
Lemma make_room_ok w n hs :
  inv [] [] w →
  ∃ o m, make_room (mgr w) n hs = Ok (o, m) ∧
    match o with
    | None => m = mgr w
    | Some evicted =>
        ∃ l p', evicted = l.*1 ∧ Forall (λ kb, can_evict (list_to_set hs) kb = true) l ∧ p_items (policy (mgr w)) ≡ₚ l ++ p_items p'
        ∧ policy (report_event m true evicted) = p' ∧ off_num_free_blocks (report_event m true evicted) = off_num_free_blocks (mgr w) + Z.max 0 n
        ∧ inv [] [] (mkWorld (report_event m true evicted) (loading w) (storing w) (memory w) (log w))
    end.
Proof.
  intros Hi. unfold make_room. destruct (Z.ltb_spec 0 n) as [Hn|Hn].
  - destruct (p_evict_spec (policy (mgr w)) n (list_to_set hs) (i_wf _ _ _ Hi)) as (o & p' & -> & Hwf & Ho); [lia|]. cbn [mbind res_bind].
    destruct o as [l|]; [|subst; eexists None, _; split; [done|]; by destruct (mgr w)]. destruct Ho as (Hlen & Hev & Hp).
    eexists (Some _), _. split; [done|]. exists l, p'. split_and!; try done.
    + unfold report_event. repeat case_match; cbn; by rewrite foldl_free_block.
    + unfold report_event, off_num_free_blocks. repeat case_match; rewrite foldl_free_block; cbn; rewrite length_app, !length_fmap; lia.
    + pose proof (evicted_idle [] w _ l p' Hi Hp Hev) as Hidle. rewrite foldl_free_block.
      assert (storing w = storing w ∖ list_to_set (slot_of <$> l)) as E.
      { apply set_eq. intros x. rewrite elem_of_difference, elem_of_list_to_set. split; [|tauto]. intros Hx. split; [done|]. intros [_ [? _]]%Hidle. done. }
      destruct l as [|kb l']; [cbn in Hlen; lia|]. set (l := kb :: l') in *. unfold report_event. change (l.*1) with (kb.1 :: l'.*1). cbv match beta. cbn [events set_free_list set_policy].
      destruct (events (mgr w)) as [evs|] eqn:Ev; rewrite E; apply (inv_remove [] [] w p' l _ Hi Hwf Hp); try exact (λ x Hx, proj1 (Hidle x Hx)); [|intros ? He; cbn in He; congruence].
      intros ? [= <-] h. rewrite <- E. apply (evict_events w l p' evs Hi Ev Hp); [|done|done]. intros x [_ [? _]]%Hidle. done.
  - eexists (Some []), _. split; [done|]. exists [], (policy (mgr w)). split_and!; try done; [unfold report_event, off_num_free_blocks; lia|]. by destruct w.
Qed.

Lemma get_insert (p : P) h b k : p_wf p → p_get p h = None → k ≠ h → p_get (p_insert p h b) k = p_get p k.
Proof.
  intros Hp Hn Hk. destruct (p_insert_spec p h b Hp Hn) as [Hwf Hi]. rewrite !p_get_spec by done.
  rewrite (od_get_perm _ ((h, b) :: p_items p)) by (by try apply p_nodup). cbn. by rewrite decide_False.
Qed.

(** The new blocks take the slots that were allocated for them. *)
Lemma insert_blocks_ok hs ids w :
  inv ids [] w → length ids = length hs → NoDup hs → Forall (λ h, p_get (policy (mgr w)) h = None) hs →
  inv [] [] (mkWorld (insert_blocks (mgr w) (zip hs (new_status <$> ids))) (loading w) (list_to_set (zip hs ids) ∪ storing w) (memory w) (log w)).
Proof.
  revert ids w. induction hs as [|h hs IH]; intros [|id ids] w Hi Hlen Hnd Hn; try done.
  - cbn. rewrite (left_id_L ∅ (∪)). by destruct w.
  - apply NoDup_cons in Hnd as [Hh Hnd]. apply Forall_cons in Hn as [Hn Hns]. pose proof (inv_insert ids [] w h id Hi Hn) as Hi1.
    specialize (IH ids _ Hi1 ltac:(cbn in Hlen; lia) Hnd). cbn [mgr policy set_policy loading storing memory log] in IH.
    assert (list_to_set (zip (h :: hs) (id :: ids)) ∪ storing w = list_to_set (zip hs ids) ∪ ({[(h, id)]} ∪ storing w)) as -> by (cbn; set_solver).
    apply IH. rewrite Forall_forall in Hns |- *. intros k Hk. rewrite get_insert; [by apply Hns|apply Hi|done|]. by intros ->.
Qed.

Lemma insert_blocks_slots hs ids m :
  length ids = length hs → NoDup hs → p_wf (policy m) → Forall (λ h, p_get (policy m) h = None) hs →
  slots (insert_blocks m (zip hs (new_status <$> ids))) ≡ₚ zip hs ids ++ slots m.
Proof.
  revert ids m. induction hs as [|h hs IH]; intros [|id ids] m Hlen Hnd Hwf Hn; try done.
  apply NoDup_cons in Hnd as [Hh Hnd]. apply Forall_cons in Hn as [Hn Hns]. destruct (p_insert_spec (policy m) h (new_status id) Hwf Hn) as [Hwf' Hp].
  cbn. unfold insert_blocks in IH. rewrite IH; [|cbn in Hlen; lia|done|done|].
  - unfold slots. cbn. rewrite Hp. cbn. unfold slot_of at 1. cbn. by rewrite Permutation_middle.
  - rewrite Forall_forall in Hns |- *. intros k Hk. cbn. rewrite get_insert; [by apply Hns|done|done|]. by intros ->.
Qed.

(** [prepare_store] never raises; it fails without a change, or starts to store exactly
    the absent blocks, which take the place of some that were resident. *)
Lemma prepare_store_ok hs w :
  inv [] [] w → NoDup hs →
  ∃ o m, prepare_store (mgr w) hs = Ok (o, m) ∧
    match o with
    | None => m = mgr w
    | Some out =>
        block_hashes_to_store out = List.filter (is_absent (mgr w)) hs ∧ length (store_spec out) = length (block_hashes_to_store out)
        ∧ (∃ old rest, slots (mgr w) ≡ₚ old ++ rest ∧ slots m ≡ₚ zip (block_hashes_to_store out) (store_spec out) ++ rest)
        ∧ inv [] [] (mkWorld m (loading w) (list_to_set (zip (block_hashes_to_store out) (store_spec out)) ∪ storing w) (memory w) (log w))
    end.
Proof.
  intros Hi Hnd. unfold prepare_store. set (new := List.filter (is_absent (mgr w)) hs). destruct (length new =? 0)%nat eqn:E0.
  { apply Nat.eqb_eq, nil_length_inv in E0. eexists (Some _), _. split; [done|]. cbn. rewrite E0. split_and!; [done|done|by exists [], (slots (mgr w))|].
    rewrite (left_id_L ∅ (∪)). by destruct w. }
  destruct (make_room_ok w (Z.of_nat (length new) - off_num_free_blocks (mgr w)) hs Hi) as (o & m1 & -> & Ho). cbn [mbind res_bind].
  destruct o as [evicted|]; [|by eexists None, _]. destruct Ho as (l & p' & -> & Hev & Hp & Hpol & Hfree & Hi1).
  destruct (take_blocks_ok [] _ new Hi1) as (m2 & ids & E2 & Hlen & Hpol2 & Hi2); [cbn [mgr]; lia|]. cbn [mgr] in E2, Hpol2. rewrite E2. cbn [mbind res_bind].
  rewrite length_fmap, Hlen, Nat.eqb_refl. eexists (Some _), _. split; [done|]. cbn. assert (block_id <$> (new_status <$> ids) = ids) as ->.
  { rewrite <- list_fmap_compose. rewrite <- (list_fmap_id ids) at 2. by apply list_fmap_ext. }
  assert (NoDup new) as Hnew by (by apply NoDup_ListNoDup, List.NoDup_filter, NoDup_ListNoDup).
  assert (p_wf p') as Hwf' by (rewrite <- Hpol; apply Hi1).
  assert (Forall (λ h, p_get (policy m2) h = None) new) as Habs.
  { apply Forall_forall. intros h [_ Hh]%list_elem_of_In%List.filter_In. rewrite Hpol2, Hpol. unfold is_absent in Hh.
    destruct (p_get (policy (mgr w)) h) eqn:Eh; [done|]. rewrite p_get_spec in Eh by apply Hi. rewrite p_get_spec by done. apply od_get_None in Eh. apply od_get_None.
    rewrite Hp, fmap_app, elem_of_app in Eh. tauto. }
  split_and!; [done|done| |by apply (insert_blocks_ok new ids _ Hi2 Hlen)].
  exists (slot_of <$> l), (slots m2). split; [unfold slots; by rewrite Hpol2, Hpol, Hp, fmap_app|].
  apply insert_blocks_slots; [done|done|by rewrite Hpol2, Hpol|done].
Qed.

(** ** Runs *)

Lemma touch_ok hs w : inv [] [] w → inv [] [] (mkWorld (off_touch (mgr w) hs) (loading w) (storing w) (memory w) (log w)).
Proof.
  intros [I1 I2 I3 I4 I5 I6 I7 I8 I9]. destruct (p_touch_spec (policy (mgr w)) hs I1) as [Hwf Hp]. set (m' := off_touch _ _).
  assert (slots m' ≡ₚ slots (mgr w)) as Hs by (unfold slots; cbn; by rewrite Hp).
  split; cbn [mgr loading storing memory log]; try setoid_rewrite Hs; try done. intros h b Hb. apply I6. by rewrite <- Hp.
Qed.

(** A transfer writes to its own slot only. *)
Lemma write_ok slot content w h :
  inv [] [] w → (h, slot) ∈ storing w → inv [] [] (mkWorld (mgr w) (loading w) (storing w) (partial_alter (λ _, content) slot (memory w)) (log w)).
Proof.
  intros Hi Hs. pose proof (inv_slot_nodup _ _ _ Hi) as Hnd. pose proof (i_storing _ _ _ Hi _ Hs) as Hin.
  destruct Hi as [I1 I2 I3 I4 I5 I6 I7 I8 I9]. split; try done. cbn. intros k s Hk Hn. rewrite lookup_partial_alter_ne; [by apply I7|].
  intros <-. apply Hn. by rewrite (snd_inj _ _ _ _ Hnd Hk Hin).
Qed.

Lemma events_ok w : inv [] [] w → let '(evs, m) := off_take_events (mgr w) in inv [] [] (mkWorld m (loading w) (storing w) (memory w) (log w ++ evs)).
Proof.
  intros [I1 I2 I3 I4 I5 I6 I7 I8 I9]. unfold off_take_events. destruct (events (mgr w)) as [evs|] eqn:E; split; cbn; try done.
  - intros ? [= <-]. rewrite app_nil_r. by apply I8.
  - congruence.
Qed.

Lemma run_op_ok w o : inv [] [] w → legal w o → ∃ w', run_op w o = Ok w' ∧ inv [] [] w'.
Proof.
  intros Hi Ho. destruct o as [hs|hs|hs|js|hs|slot content|js success|]; cbn [run_op].
  - by exists w.
  - eexists. split; [done|]. by apply touch_ok.
  - destruct Ho as [Hl Hb]. apply lookup_ready in Hl; [|done]. destruct (prepare_load_ok hs w [] Hi Hl Hb) as (m & ids & E & Hi').
    unfold prepare_load. rewrite E. cbn [mbind res_bind app]. by eexists.
  - destruct (complete_load_ok js w Hi Ho) as (m & -> & Hi'). by eexists.
  - destruct (prepare_store_ok hs w Hi Ho) as (o & m & -> & Hm). cbn [mbind res_bind]. eexists. split; [done|]. destruct o as [out|]; [apply Hm|].
    subst. assert (list_to_set [] ∪ storing w = storing w) as -> by set_solver. by destruct w.
  - destruct Ho as [h Hs]. eexists. split; [done|]. by apply (write_ok slot content w h).
  - destruct (complete_store_ok js success w Hi Ho) as (m & -> & Hi'). by eexists.
  - pose proof (events_ok w Hi) as Hi'. destruct (off_take_events (mgr w)) as [evs m]. by eexists.
Qed.

Lemma start_ok block_size num_blocks enable_events : 0 ≤ num_blocks → inv [] [] (start block_size num_blocks enable_events).
Proof.
  intros Hn. destruct (p_init_ok (P := P) num_blocks Hn) as [Hwf Hi]. split; cbn; unfold slots; cbn; rewrite ?Hi; try done.
  - intros x Hx. by apply gmultiset_elem_of_empty in Hx.
  - intros h b Hin%elem_of_nil. done.
  - intros h s Hin%elem_of_nil. done.
  - intros evs He h. split.
    + destruct enable_events; simplify_eq. unfold replay. cbn. set_solver.
    + intros (s & Hin%elem_of_nil & _). done.
Qed.

Lemma run_ops_ok ops w : inv [] [] w → legal_run w ops → ∃ w', rfold run_op w ops = Ok w' ∧ inv [] [] w'.
Proof.
  revert w. induction ops as [|o ops IH]; intros w Hi Hl; [by exists w|]. destruct Hl as [Ho Hl].
  destruct (run_op_ok w o Hi Ho) as (w1 & E & Hi1). cbn [rfold]. rewrite E. apply IH; [done|]. by apply Hl.
Qed.

(** Every load under way finds in its slot the block it asked for; no slot that is being
    written is used by another transfer; the slots are those of the buffer; and the
    events tell which blocks [lookup] finds. *)
Definition transfers_safe w : Prop :=
  (∀ h s, (h, s) ∈ loading w → memory w !! s = Some h)
  ∧ (∀ h k s, (h, s) ∈ storing w → ((k, s) ∉ loading w) ∧ ((k, s) ∈ storing w → k = h))
  ∧ (∀ h s, (h, s) ∈ loading w ∨ (h, s) ∈ storing w → 0 ≤ s < off_num_blocks (mgr w))
  ∧ (∀ evs, events (mgr w) = Some evs → ∀ h, h ∈ replay (log w ++ evs) ↔ off_lookup (mgr w) [h] = 1).

Lemma inv_safe w : inv [] [] w → transfers_safe w.
Proof.
  intros Hi. pose proof (inv_slot_nodup _ _ _ Hi) as Hnd. pose proof (i_loading _ _ _ Hi) as Hl. pose proof (i_storing _ _ _ Hi) as Hs. split_and!.
  - intros h s Hin. destruct (Hl _ Hin). by apply (i_memory _ _ _ Hi).
  - intros h k s Hin. split.
    + intros [Hk Hn]%Hl. apply Hn. rewrite (snd_inj _ k h s Hnd Hk); auto.
    + intros Hk. apply (snd_inj _ k h s Hnd); auto.
  - intros h s Hin. assert ((h, s) ∈ slots (mgr w)) as Hx by (destruct Hin; [by apply Hl|by apply Hs]).
    assert (s ∈ zrange 0 (num_allocated_blocks (mgr w))) as Hr%elem_of_zrange.
    { rewrite <- (i_slots _ _ _ Hi). rewrite !elem_of_app. right. right. by apply (list_elem_of_fmap_2 snd _ (h, s)). }
    pose proof (i_allocated _ _ _ Hi). lia.
  - intros evs He h. pose proof (i_events _ _ _ Hi evs He h) as E. rewrite elem_of_nil in E.
    rewrite (lookup_ready w [h] Hi), Forall_singleton. unfold ready. tauto.
Qed.
End stores.

(** C14: under every policy that obeys the laws, legal operations in any order never
    raise, every load under way finds the data of its block in its slot, whatever the
    stores under way write, slots in use are not handed out again, and the events
    reported tell exactly which blocks can be loaded. *)
Theorem offload_runs_safe `{Countable K} {P : Type} `{!CachePolicy (K := K) P} `{!CachePolicyLaws P} block_size num_blocks enable_events ops :
  0 ≤ num_blocks → legal_run (P := P) (start block_size num_blocks enable_events) ops →
  ∃ w, rfold run_op (start block_size num_blocks enable_events) ops = Ok w ∧ transfers_safe w.
Proof.
  intros Hn Hl. destruct (run_ops_ok ops _ (start_ok block_size num_blocks enable_events Hn) Hl) as (w & E & Hi).
  exists w. split; [done|]. by apply inv_safe.
Qed.

(** ** Legality as a test *)

Section test.
Context `{Countable K} {P : Type} `{!CachePolicy (K := K) P}.
Implicit Types (w : world (K := K) (P := P)).

Definition legal_test w (o : op) : bool :=
  match o with
  | OpLookup _ | OpTouch _ | OpEvents => true
  | OpLoad hs => (off_lookup (mgr w) hs =? Z.of_nat (length hs)) && (Z.of_nat (size (loading w) + length hs) <? 2 ^ 31)
  | OpLoaded js => bool_decide (list_to_set_disj js ⊆ loading w)
  | OpStore hs => bool_decide (NoDup hs)
  | OpWrite slot _ => existsb (λ x, x.2 =? slot) (elements (storing w))
  | OpStored js success =>
      bool_decide (NoDup js) && forallb (λ x, bool_decide (x ∈ storing w)) js
      && (negb success || forallb (λ x, bool_decide (memory w !! x.2 = Some x.1)) js)
  end.

Lemma legal_test_sound w o : legal_test w o = true → legal w o.
Proof.
  destruct o as [hs|hs|hs|js|hs|slot content|js success|]; cbn; try done.
  - intros [H1%Z.eqb_eq H2%Z.ltb_lt]%andb_true_iff. done.
  - apply bool_decide_eq_true.
  - apply bool_decide_eq_true.
  - intros ([h s] & Hin & E)%existsb_exists. cbn in E. apply Z.eqb_eq in E as ->. exists h. by apply elem_of_elements, list_elem_of_In.
  - rewrite !andb_true_iff, bool_decide_eq_true, !forallb_forall. intros [[Hnd Hs] Hm]. split_and!; [done| |].
    + intros x Hx%list_elem_of_In. apply Hs in Hx. by apply bool_decide_eq_true in Hx.
    + intros -> h s Hx. cbn in Hm. rewrite forallb_forall in Hm. apply list_elem_of_In, Hm in Hx. by apply bool_decide_eq_true in Hx.
Qed.

Fixpoint legal_run_test w (ops : list op) : bool :=
  match ops with
  | [] => true
  | o :: ops => legal_test w o && match run_op w o with Ok w' => legal_run_test w' ops | Err _ => true end
  end.

Lemma legal_run_test_sound ops w : legal_run_test w ops = true → legal_run w ops.
Proof.
  revert w. induction ops as [|o ops IH]; intros w; cbn; [done|]. intros [H1 H2]%andb_true_iff. split; [by apply legal_test_sound|].
  intros w' E. rewrite E in H2. by apply IH.
Qed.
End test.

(** ** Examples *)

(** Two blocks are stored in a buffer of two, the first is loaded while a third block
    takes the place of the second. *)
Definition demo_ops : list (op (K := Z)) :=
  [OpStore [1; 2]; OpWrite 0 (Some 1); OpWrite 1 (Some 2); OpStored [(1, 0); (2, 1)] true; OpLoad [1];
   OpStore [3]; OpWrite 1 None; OpTouch [1; 3]; OpEvents; OpWrite 1 (Some 3); OpStored [(3, 1)] true; OpLoaded [(1, 0)]].


Lemma offload_runs_safe_witness :
  ∃ w, rfold run_op (start (P := LRUCachePolicy (K := Z)) 16 2 true) demo_ops = Ok w ∧ transfers_safe w.
Proof. apply (offload_runs_safe (P := LRUCachePolicy (K := Z)) 16 2 true demo_ops); [lia|]. apply legal_run_test_sound. vm_compute. reflexivity. Defined.

(** The same operations under the adaptive policy. *)
Lemma demo_arc : ∃ w, rfold run_op (start (P := ARCCachePolicy (K := Z)) 16 2 true) demo_ops = Ok w ∧ log w ≠ [] ∧ off_lookup (mgr w) [1; 3] = 2.
Proof. vm_compute. eexists. split_and!; [reflexivity|done|reflexivity]. Qed.

(** Under the adaptive policy a store can be refused although every resident block is
    idle: two ghost hits raise the target for T1 to two, so after one candidate from T1
    the next is sought in T2 only, which is empty. *)
Definition refused_ops : list (op (K := Z)) :=
  [OpStore [1; 2]; OpWrite 0 (Some 1); OpWrite 1 (Some 2); OpStored [(1, 0); (2, 1)] true;
   OpStore [3]; OpWrite 0 (Some 3); OpStored [(3, 0)] true; OpTouch [1]; OpTouch [1]].

Lemma arc_refuses_idle_blocks :
  legal_run (start (P := ARCCachePolicy (K := Z)) 16 2 false) refused_ops ∧
  ∃ w, rfold run_op (start (P := ARCCachePolicy (K := Z)) 16 2 false) refused_ops = Ok w ∧ loading w = ∅ ∧ storing w = ∅
    ∧ List.filter (can_evict {[4; 5]}) (p_items (policy (mgr w))) = [(2, mkStatus 0 1); (3, mkStatus 0 0)]
    ∧ prepare_store (mgr w) [4; 5] = Ok (None, mgr w).
Proof.
  split; [apply legal_run_test_sound; vm_compute; reflexivity|]. eexists. split; [vm_compute; reflexivity|]. split_and!; vm_compute; reflexivity.
Qed.

(** ** The filter *)

Section filter_reused.
Context `{Countable K}.

(** How often a hash was looked up. *)
Definition seen (history : list K) (h : K) : Z := Z.of_nat (length (List.filter (λ k, bool_decide (k = h)) history)).

Lemma seen_snoc history k h : seen (history ++ [k]) h = seen history h + if bool_decide (k = h) then 1 else 0.
Proof. unfold seen. rewrite List.filter_app, length_app. cbn. case_bool_decide; cbn; lia. Qed.

(** No counter exceeds what was seen, and the tracker is bounded. *)
Record tracked (history : list K) (f : FilterReused K) : Prop := {
  tr_nodup : NoDup (counts f).*1;
  tr_seen h n : (h, n) ∈ counts f → n ≤ seen history h;
  tr_size : Z.of_nat (length (counts f)) ≤ max_tracker_size f;
}.

Lemma record_lookup_ok history f h : 1 ≤ max_tracker_size f → tracked history f → tracked (history ++ [h]) (record_lookup f h).
Proof.
  intros Hmax [Hnd Hs Hsz]. unfold record_lookup.
  assert (∀ k n, (k, n) ∈ counts f → n ≤ seen (history ++ [h]) k) as Hs'.
  { intros k n Hin%Hs. rewrite seen_snoc. case_bool_decide; lia. }
  destruct (od_get (counts f) h) as [n|] eqn:E.
  - destruct (od_pop_perm _ _ _ E) as (d & -> & Hp). rewrite Hp in Hnd. cbn in Hnd. apply NoDup_cons in Hnd as [Hh Hnd]. split; cbn.
    + rewrite fmap_app. apply NoDup_app. split_and!; [done| |by apply NoDup_singleton]. intros k Hk ->%list_elem_of_singleton. done.
    + intros k v [Hin|[= -> ->]%list_elem_of_singleton]%elem_of_app; [apply Hs'; rewrite Hp; by right|].
      rewrite seen_snoc, bool_decide_eq_true_2 by done. assert (n ≤ seen history h); [|lia]. apply Hs. rewrite Hp. by left.
    + rewrite Hp in Hsz. rewrite length_app. cbn in Hsz |- *. lia.
  - rewrite od_pop_absent by done. apply od_get_None in E. set (d := if _ <=? _ then drop 1 (counts f) else counts f).
    assert (∀ x, x ∈ d → x ∈ counts f) as Hd.
    { intros x. unfold d. case_match; [|done]. intros Hx. rewrite <- (take_drop 1 (counts f)). apply elem_of_app. by right. }
    split; cbn.
    + rewrite fmap_app. apply NoDup_app. split_and!; [| |by apply NoDup_singleton].
      * unfold d. case_match; [|done]. rewrite fmap_drop. rewrite <- (take_drop 1 (counts f).*1) in Hnd. by apply NoDup_app in Hnd as (_ & _ & ?).
      * cbn. intros k Hk Hkh%list_elem_of_singleton. subst k. apply E. apply list_elem_of_fmap in Hk as (x & Hxh & Hx). rewrite Hxh. by apply list_elem_of_fmap_2, Hd.
    + intros k v [Hin|[= -> ->]%list_elem_of_singleton]%elem_of_app; [by apply Hs', Hd|].
      rewrite seen_snoc, bool_decide_eq_true_2 by done. unfold seen. lia.
    + rewrite length_app. unfold d. cbn. destruct (Z.leb_spec (max_tracker_size f) (Z.of_nat (length (counts f)))); rewrite ?length_drop; lia.
Qed.

Lemma lookups_tracked hs history f :
  1 ≤ max_tracker_size f → tracked history f →
  tracked (history ++ hs) (foldl record_lookup f hs) ∧ store_threshold (foldl record_lookup f hs) = store_threshold f
    ∧ max_tracker_size (foldl record_lookup f hs) = max_tracker_size f.
Proof.
  revert history f. induction hs as [|h hs IH]; intros history f Hmax Ht; cbn; [by rewrite app_nil_r|].
  destruct (IH (history ++ [h]) (record_lookup f h)) as (H1 & H2 & H3); [done|by apply record_lookup_ok|]. rewrite <- app_assoc in H1. done.
Qed.

(** After any lookups the filter passes on only blocks that were looked up at least
    [store_threshold] times, and its tracker stays within its limit. *)
Lemma filter_passes_reused threshold limit f0 lookups :
  filter_init threshold limit = Ok f0 →
  let f := foldl record_lookup f0 lookups in
  Z.of_nat (length (counts f)) ≤ limit ∧ ∀ h, eligible f h = true → threshold ≤ seen lookups h.
Proof.
  unfold filter_init. destruct (Z.ltb_spec threshold 2); [done|]. destruct (Z.ltb_spec limit 1); [done|]. intros [= <-]. set (f := foldl record_lookup _ lookups).
  destruct (lookups_tracked lookups [] (mkFilter threshold limit [])) as ([T1 T2 T3] & T4 & T5); [done|split; cbn; [constructor|by intros h n ?%elem_of_nil|lia]|].
  fold f in T1, T2, T3, T4, T5. cbn in T4, T5. split; [lia|]. intros h He. unfold eligible in He. apply Z.leb_le in He. rewrite T4 in He.
  destruct (od_get (counts f) h) as [n|] eqn:E; cbn in He; [|lia]. apply od_get_elem, T2 in E. cbn in E. lia.
Qed.
End filter_reused.
