(* ===== verification/Transfers.v ===== *)
(** * Transfers between the device and host memory

    The load/store specs of kv_offload/mediums.py, the job queue of
    [SingleDirectionOffloadingHandler] (kv_offload/worker/cpu_gpu.py) and
    [OffloadingWorker] (kv_offload/worker/worker.py).  The copies run asynchronously: a
    transfer in the queue of a handler is carried out at any time after its submission,
    in the order of submission.  Of the data only its identity matters: a memory maps
    the index of a sub-block to the hash of the block whose data it holds.  The lemmas are about the pairs of
    sub-blocks that a transfer copies, what the copies leave in memory, and the progress
    of a queue of transfers. *)

From S2P Require Import Prelude.
#[local] Open Scope Z_scope.

(** What the language leaves open: the order in which a set is iterated, and what a new
    array holds. *)
Class PyRuntime := {
  set_iter : ∀ {A} `{Countable A}, gset A → list A;
  set_iter_perm : ∀ {A} `{Countable A} (X : gset A), set_iter X ≡ₚ elements X;
  np_empty : nat → list Z;
  np_empty_length : ∀ n, length (np_empty n) = n;
}.

(** ** Specs *)

Inductive LoadStoreSpec :=
  | GPULoadStoreSpec (ids group_sizes : list Z) (block_indices : option (list Z))
  | CPULoadStoreSpec (ids : list Z).
Abbreviation TransferSpec := (LoadStoreSpec * LoadStoreSpec)%type.

Definition spec_block_ids (s : LoadStoreSpec) : list Z :=
  match s with GPULoadStoreSpec ids _ _ | CPULoadStoreSpec ids => ids end.

Definition medium (s : LoadStoreSpec) : string :=
  match s with GPULoadStoreSpec _ _ _ => "GPU" | CPULoadStoreSpec _ => "CPU" end.

(** The constructor of [GPULoadStoreSpec]. *)
Definition gpu_spec (ids group_sizes : list Z) (block_indices : option (list Z)) : res LoadStoreSpec :=
  ASSERT (foldr Z.add 0 group_sizes =? zlen ids);
  ASSERT match block_indices with None => true | Some l => zlen l =? zlen group_sizes end;
  Ok (GPULoadStoreSpec ids group_sizes block_indices).

(** ** Sub-blocks *)

(** [output[a:b] = values] for an array and [a ≤ b]. *)
Definition np_assign (output : list Z) (a b : nat) (values : list Z) : res (list Z) :=
  let hole := take (b - a) (drop a output) in
  if (length hole =? length values)%nat then Ok (take a output ++ values ++ drop (a + length hole) output)
  else match values with
       | [v] => Ok (take a output ++ replicate (length hole) v ++ drop (a + length hole) output)
       | _ => Err ValueError
       end.

(** One turn of the loop of [expand_block_ids]. *)
Definition expand_one (block_size_factor : Z) (s : list Z * nat) (indices : list Z) (block_id : Z) : res (list Z * nat) :=
  let '(output, output_idx) := s in
  let output_end_idx := (output_idx + length indices)%nat in
  output ← np_assign output output_idx output_end_idx (Z.add (block_id * block_size_factor) <$> indices);
  Ok (output, output_end_idx).

Definition expand_block_ids (block_ids : list Z) (block_size_factor : Z) (output : list Z) (skip_count : Z) : res (list Z) :=
  ASSERT (skip_count <? block_size_factor);
  let first_range := zrange skip_count block_size_factor in
  let full_range := zrange 0 block_size_factor in
  match block_ids with
  | [] => Ok output
  | id :: ids =>
      s ← expand_one block_size_factor (output, 0%nat) first_range id;
      '(output, _) ← rfold (λ s id, expand_one block_size_factor s full_range id) s ids;
      Ok output
  end.

(** ** Handlers *)

(** A transfer: the copies queued on its stream, and whether its end event has occurred.
    Its spec is kept for the statements only. *)
Record Transfer := mkTransfer {
  t_job_id : Z;
  t_spec : TransferSpec;
  t_copies : list (Z * Z);
  t_done : bool;
}.
Definition set_done (t : Transfer) : Transfer := mkTransfer (t_job_id t) (t_spec t) (t_copies t) true.

Record SingleDirectionOffloadingHandler := mkHandler {
  gpu_to_cpu : bool;
  src_block_size_factor : Z;
  dst_block_size_factor : Z;
  transfers : list Transfer;
}.
Definition set_transfers (h : SingleDirectionOffloadingHandler) (l : list Transfer) : SingleDirectionOffloadingHandler :=
  mkHandler (gpu_to_cpu h) (src_block_size_factor h) (dst_block_size_factor h) l.

Definition handler_init (block_size_factor : Z) (gpu_to_cpu : bool) : SingleDirectionOffloadingHandler :=
  mkHandler gpu_to_cpu (if gpu_to_cpu then 1 else block_size_factor) (if gpu_to_cpu then block_size_factor else 1) [].

Record TransferResult := mkResult { tr_job_id : Z; tr_success : bool }.

Section handler.
Context `{PyRuntime}.

(** The pairs of source and destination sub-blocks that [transfer_async] passes to
    [swap_blocks]. *)
Definition src_to_dst (h : SingleDirectionOffloadingHandler) (src_blocks dst_blocks : list Z) : res (list (Z * Z)) :=
  let src_sub_block_count := zlen src_blocks * src_block_size_factor h in
  let dst_sub_block_count := zlen dst_blocks * dst_block_size_factor h in
  src_sub_blocks_to_skip ← py_mod (- zlen dst_blocks) (src_block_size_factor h);
  ASSERT (dst_sub_block_count =? src_sub_block_count - src_sub_blocks_to_skip);
  RAISE ValueError IF dst_sub_block_count <? 0;
  let n := Z.to_nat dst_sub_block_count in
  srcs ← expand_block_ids src_blocks (src_block_size_factor h) (np_empty n) src_sub_blocks_to_skip;
  dsts ← expand_block_ids dst_blocks (dst_block_size_factor h) (np_empty n) 0;
  Ok (zip srcs dsts).

Definition handler_transfer_async (h : SingleDirectionOffloadingHandler) (job_id : Z) (s : TransferSpec)
    : res SingleDirectionOffloadingHandler :=
  copies ← src_to_dst h (spec_block_ids s.1) (spec_block_ids s.2);
  Ok (set_transfers h (transfers h ++ [mkTransfer job_id s copies false])).
End handler.

(** [get_finished]: the transfers at the head of the queue that have ended. *)
Fixpoint pop_finished (l : list Transfer) : list TransferResult * list Transfer :=
  match l with
  | [] => ([], [])
  | t :: l' =>
      if t_done t then let '(results, rest) := pop_finished l' in (mkResult (t_job_id t) true :: results, rest)
      else ([], l)
  end.
Definition handler_get_finished (h : SingleDirectionOffloadingHandler) : list TransferResult * SingleDirectionOffloadingHandler :=
  let '(results, rest) := pop_finished (transfers h) in (results, set_transfers h rest).

(** ** The memories *)

Abbreviation Mem := (gmap Z bytes).

(** [swap_blocks]: every destination takes what its source holds. *)
Definition swap_blocks (src dst : Mem) (copies : list (Z * Z)) : Mem :=
  foldl (λ m c, partial_alter (λ _, src !! c.1) c.2 m) dst copies.

(** The memories of device and host. *)
Record Memories := mkMemories { gpu : Mem; cpu : Mem }.

Definition run_transfer (gpu_to_cpu : bool) (t : Transfer) (m : Memories) : Memories :=
  if gpu_to_cpu then mkMemories (gpu m) (swap_blocks (gpu m) (cpu m) (t_copies t))
  else mkMemories (swap_blocks (cpu m) (gpu m) (t_copies t)) (cpu m).

(** The first transfer that has not ended is carried out. *)
Fixpoint run_next (gpu_to_cpu : bool) (l : list Transfer) (m : Memories) : list Transfer * Memories :=
  match l with
  | [] => ([], m)
  | t :: l =>
      if t_done t then let '(l, m) := run_next gpu_to_cpu l m in (t :: l, m)
      else (set_done t :: l, run_transfer gpu_to_cpu t m)
  end.

(** [wait]: the end events of the jobs have occurred, and with them those of the
    transfers submitted before. *)
Fixpoint synchronize (gpu_to_cpu : bool) (job_ids : gset Z) (l : list Transfer) (m : Memories) : list Transfer * Memories :=
  match l with
  | [] => ([], m)
  | t :: l' =>
      if existsb (λ t, bool_decide (t_job_id t ∈ job_ids)) l then
        let '(l', m) := synchronize gpu_to_cpu job_ids l' (if t_done t then m else run_transfer gpu_to_cpu t m) in (set_done t :: l', m)
      else (l, m)
  end.

(** ** The worker *)

Abbreviation TransferType := (string * string)%type.

(** The handlers by the media they serve; [handlers] of the source holds the same
    objects. *)
Abbreviation OffloadingWorker := (gmap TransferType SingleDirectionOffloadingHandler).

Definition register_handler (w : OffloadingWorker) (src_cls dst_cls : string) (h : SingleDirectionOffloadingHandler) : res OffloadingWorker :=
  ASSERT bool_decide (w !! (src_cls, dst_cls) = None);
  Ok (<[(src_cls, dst_cls) := h]> w).

(** [get_handlers] of kv_offload/cpu/spec.py, registered by [_register_handlers]. *)
Definition register_handlers (w : OffloadingWorker) (block_size_factor : Z) : res OffloadingWorker :=
  w ← register_handler w "GPU" "CPU" (handler_init block_size_factor true);
  register_handler w "CPU" "GPU" (handler_init block_size_factor false).

Section offloading_worker.
Context `{PyRuntime}.

(** Exceptions of the handler are logged and turned into [False]. *)
Definition ow_transfer_async (w : OffloadingWorker) (job_id : Z) (s : TransferSpec) : res (bool * OffloadingWorker) :=
  let transfer_type := (medium s.1, medium s.2) in
  match w !! transfer_type with
  | None => Err AssertionError
  | Some h =>
      match handler_transfer_async h job_id s with
      | Ok h => Ok (true, <[transfer_type := h]> w)
      | Err _ => Ok (false, w)
      end
  end.

Definition ow_get_finished (w : OffloadingWorker) : list TransferResult * OffloadingWorker :=
  foldl (λ s k,
    match s.2 !! k with
    | Some h => let '(results, h) := handler_get_finished h in (s.1 ++ results, <[k := h]> s.2)
    | None => s
    end) ([], w) (set_iter (dom w)).

Definition ow_wait (job_ids : gset Z) (s : OffloadingWorker * Memories) : OffloadingWorker * Memories :=
  foldl (λ s k,
    match s.1 !! k with
    | Some h => let '(l, m) := synchronize (gpu_to_cpu h) job_ids (transfers h) s.2 in (<[k := set_transfers h l]> s.1, m)
    | None => s
    end) s (set_iter (dom s.1)).
End offloading_worker.

(** ** Sub-blocks *)

(** The sub-blocks of a block, and of blocks. *)
Definition subblocks_of (f s : Z) : list Z := Z.add (s * f) <$> zrange 0 f.
Definition subblocks (f : Z) (ids : list Z) : list Z := concat (subblocks_of f <$> ids).

Lemma length_subblocks_of f s : length (subblocks_of f s) = Z.to_nat f.
Proof. unfold subblocks_of. rewrite length_fmap, length_zrange. f_equal. lia. Qed.

Lemma subblocks_of_lookup f s (i : nat) : Z.of_nat i < f → subblocks_of f s !! i = Some (s * f + Z.of_nat i).
Proof. intros Hi. unfold subblocks_of. rewrite list_lookup_fmap, zrange_lookup by lia. done. Qed.

Lemma subblocks_cons f s ids : subblocks f (s :: ids) = subblocks_of f s ++ subblocks f ids.
Proof. done. Qed.

Lemma length_subblocks f ids : length (subblocks f ids) = (length ids * Z.to_nat f)%nat.
Proof. induction ids as [|s ids IH]; [done|]. rewrite subblocks_cons, length_app, length_subblocks_of, IH. cbn. lia. Qed.

Lemma subblocks_1 ids : subblocks 1 ids = ids.
Proof. induction ids as [|s ids IH]; [done|]. rewrite subblocks_cons, IH. change (subblocks_of 1 s) with [s * 1 + 0]. by rewrite Z.mul_1_r, Z.add_0_r. Qed.

(** The sub-block at a position. *)
Lemma subblocks_lookup f ids (n : nat) x :
  0 < f → subblocks f ids !! n = Some x ↔
  ∃ k i s, (n = k * Z.to_nat f + i)%nat ∧ Z.of_nat i < f ∧ ids !! k = Some s ∧ x = s * f + Z.of_nat i.
Proof.
  intros Hf. revert n. induction ids as [|s ids IH]; intros n.
  - cbn. rewrite lookup_nil. split; [done|]. intros (k & i & s & _ & _ & E & _). by rewrite lookup_nil in E.
  - rewrite subblocks_cons. destruct (decide (n < Z.to_nat f)%nat) as [Hn|Hn].
    + rewrite lookup_app_l by (by rewrite length_subblocks_of). rewrite subblocks_of_lookup by lia. split.
      * intros [= <-]. exists 0%nat, n, s. split_and!; (cbn in *; lia || done).
      * intros (k & i & s' & E & Hi & Hk & ->). destruct k as [|k]; [|lia]. cbn in Hk. injection Hk as <-. f_equal. lia.
    + rewrite lookup_app_r, length_subblocks_of, IH by (rewrite length_subblocks_of; lia). split.
      * intros (k & i & s' & E & Hi & Hk & ->). exists (S k), i, s'. split_and!; (cbn in *; lia || done).
      * intros (k & i & s' & E & Hi & Hk & ->). destruct k as [|k]; [lia|]. exists k, i, s'. split_and!; (cbn in *; lia || done).
Qed.

Lemma subblocks_elem f ids x : 0 < f → x ∈ subblocks f ids ↔ ∃ s i, s ∈ ids ∧ 0 ≤ i < f ∧ x = s * f + i.
Proof.
  intros Hf. induction ids as [|t ids IH]; [split; [by intros ?%elem_of_nil|intros (s & i & ?%elem_of_nil & _); done]|].
  rewrite subblocks_cons, elem_of_app, IH. unfold subblocks_of. rewrite list_elem_of_fmap. setoid_rewrite elem_of_zrange. setoid_rewrite elem_of_cons. split.
  - intros [(i & -> & Hi)|(s & i & Hs & Hi & ->)]; [exists t, i|exists s, i]; auto.
  - intros (s & i & [->|Hs] & Hi & ->); [left; by exists i|right; by exists s, i].
Qed.

(** Two sub-blocks are the same only when their blocks are. *)
Lemma subblock_inj f s s' i i' : 0 ≤ i < f → 0 ≤ i' < f → s * f + i = s' * f + i' → s = s' ∧ i = i'.
Proof. intros. assert (s = s') by nia. nia. Qed.

(** ** [expand_block_ids] *)

(** The part of the array that is written so far is a prefix. *)
Lemma np_assign_prefix pre post values :
  (length values ≤ length post)%nat →
  np_assign (pre ++ post) (length pre) (length pre + length values) values = Ok (pre ++ values ++ drop (length values) post).
Proof.
  intros Hl. unfold np_assign. replace (length pre + length values - length pre)%nat with (length values) by lia.
  rewrite drop_app_length, length_take_le, Nat.eqb_refl by done. by rewrite take_app_length, drop_app_add.
Qed.

Lemma expand_one_prefix f pre post indices id :
  (length indices ≤ length post)%nat →
  expand_one f (pre ++ post, length pre) indices id
  = Ok ((pre ++ (Z.add (id * f) <$> indices)) ++ drop (length indices) post, length (pre ++ (Z.add (id * f) <$> indices))).
Proof.
  intros Hl. unfold expand_one. pose proof (np_assign_prefix pre post (Z.add (id * f) <$> indices)) as E. rewrite length_fmap in E.
  rewrite E by done. cbn. by rewrite length_app, length_fmap, <- app_assoc.
Qed.

Lemma expand_rest f ids pre post :
  length post = (length ids * Z.to_nat f)%nat →
  rfold (λ s id, expand_one f s (zrange 0 f) id) (pre ++ post, length pre) ids = Ok (pre ++ subblocks f ids, length (pre ++ subblocks f ids)).
Proof.
  revert pre post. induction ids as [|id ids IH]; intros pre post Hl.
  - destruct post; [|done]. cbn. by rewrite app_nil_r.
  - cbn [rfold]. cbn in Hl. rewrite expand_one_prefix by (rewrite length_zrange; lia). cbn [mbind res_bind].
    rewrite IH by (rewrite length_drop, length_zrange; lia). rewrite subblocks_cons. unfold subblocks_of. by rewrite <- !app_assoc.
Qed.

Lemma drop_zrange a b : 0 ≤ a ≤ b → drop (Z.to_nat a) (zrange 0 b) = zrange a b.
Proof.
  intros Hab. apply list_eq. intros i. rewrite lookup_drop. destruct (decide (Z.of_nat i < b - a)) as [Hi|Hi].
  - rewrite !zrange_lookup by lia. f_equal. lia.
  - rewrite !lookup_ge_None_2; [done| |]; rewrite length_zrange; lia.
Qed.

Lemma expand_block_ids_spec ids f output skip :
  0 ≤ skip < f → zlen output = zlen ids * f - skip → expand_block_ids ids f output skip = Ok (drop (Z.to_nat skip) (subblocks f ids)).
Proof.
  intros Hs Hl. unfold expand_block_ids. rewrite (proj2 (Z.ltb_lt skip f)) by lia. unfold zlen in Hl. destruct ids as [|id ids].
  - cbn in Hl. destruct output; [|cbn in Hl; lia]. cbn. by rewrite drop_nil.
  - cbn [length] in Hl. assert (length output = Z.to_nat (f - skip) + length ids * Z.to_nat f)%nat as Hlen by nia. change output with ([] ++ output). change 0%nat with (length (@nil Z)).
    rewrite expand_one_prefix by (rewrite length_zrange; lia). cbn [mbind res_bind app]. rewrite expand_rest by (rewrite length_drop, length_zrange; lia).
    cbn [mbind res_bind]. f_equal. rewrite subblocks_cons, drop_app_le by (rewrite length_subblocks_of; lia). f_equal. unfold subblocks_of.
    rewrite <- (drop_zrange skip f) by lia. by rewrite fmap_drop.
Qed.

(** ** The copies of a transfer *)

Section copies.
Context `{PyRuntime}.

Lemma zlen_np_empty n : 0 ≤ n → zlen (np_empty (Z.to_nat n)) = n.
Proof. intros Hn. unfold zlen. rewrite np_empty_length. lia. Qed.

(** Stores write whole blocks. *)
Lemma store_copies l f srcs slots :
  0 < f → zlen srcs = zlen slots * f → src_to_dst (mkHandler true 1 f l) srcs slots = Ok (zip srcs (subblocks f slots)).
Proof.
  intros Hf Hl. unfold src_to_dst. cbn [src_block_size_factor dst_block_size_factor]. unfold py_mod. cbn [Z.eqb]. rewrite Z.mod_1_r. cbn [mbind res_bind].
  rewrite (proj2 (Z.eqb_eq _ _)) by lia. pose proof (zlen_nonneg srcs). rewrite (proj2 (Z.ltb_ge _ _)) by lia.
  rewrite !expand_block_ids_spec by (rewrite ?zlen_np_empty; lia). cbn [mbind res_bind]. rewrite !drop_0.
  by rewrite subblocks_1.
Qed.

(** Loads skip the head of the first block. *)
Lemma load_copies l f slots ids :
  0 < f → zlen ids = zlen slots * f - (- zlen ids) `mod` f →
  src_to_dst (mkHandler false f 1 l) slots ids = Ok (zip (drop (Z.to_nat ((- zlen ids) `mod` f)) (subblocks f slots)) ids).
Proof.
  intros Hf Hl. unfold src_to_dst. cbn [src_block_size_factor dst_block_size_factor]. unfold py_mod. rewrite (proj2 (Z.eqb_neq f 0)) by lia. cbn [mbind res_bind].
  rewrite (proj2 (Z.eqb_eq _ _)) by lia. pose proof (zlen_nonneg ids). rewrite (proj2 (Z.ltb_ge _ _)) by lia.
  pose proof (Z.mod_pos_bound (- zlen ids) f Hf). rewrite !expand_block_ids_spec by (rewrite ?zlen_np_empty; lia). cbn [mbind res_bind].
  by rewrite drop_0, subblocks_1.
Qed.
End copies.

(** ** What the copies leave *)

Lemma swap_blocks_other (src dst : Mem) copies x : x ∉ copies.*2 → swap_blocks src dst copies !! x = dst !! x.
Proof.
  unfold swap_blocks. revert dst. induction copies as [|[a b] copies IH]; intros dst; cbn; [done|]. intros [Hx Hn]%not_elem_of_cons.
  rewrite IH by done. by rewrite lookup_partial_alter_ne.
Qed.

(** Where the sources of a destination agree, it holds what they hold. *)
Lemma swap_blocks_at (src dst : Mem) copies x v :
  (∀ a, (a, x) ∈ copies → src !! a = v) → x ∈ copies.*2 → swap_blocks src dst copies !! x = v.
Proof.
  unfold swap_blocks. revert dst. induction copies as [|[a b] copies IH]; intros dst Hv; cbn; [by intros ?%elem_of_nil|]. intros Hx.
  destruct (decide (x ∈ copies.*2)) as [Hin|Hn].
  - apply IH; [|done]. intros a' Ha'. apply Hv. by right.
  - pose proof (swap_blocks_other src (partial_alter (λ _, src !! a) b dst) copies x Hn) as E. unfold swap_blocks in E. rewrite E.
    apply elem_of_cons in Hx as [->|Hx]; [|done]. rewrite lookup_partial_alter_eq. apply Hv. by left.
Qed.

(** ** Progress of a queue *)

(** One transfer of the queue is carried out. *)
Inductive progress (dir : bool) : list Transfer * Memories → list Transfer * Memories → Prop :=
  | progress_one l1 t l2 m : t_done t = false → progress dir (l1 ++ t :: l2, m) (l1 ++ set_done t :: l2, run_transfer dir t m).

Lemma progress_cons dir t s s' : progress dir s s' → progress dir (t :: s.1, s.2) (t :: s'.1, s'.2).
Proof. intros [l1 t' l2 m Ht]. cbn. by apply (progress_one dir (t :: l1)). Qed.

Lemma progress_tail dir t s s' : rtc (progress dir) s s' → rtc (progress dir) (t :: s.1, s.2) (t :: s'.1, s'.2).
Proof. induction 1 as [s|s1 s2 s3 H1 _ IH]; [done|]. eapply rtc_l; [by apply progress_cons|done]. Qed.

Lemma run_next_progress dir l m : rtc (progress dir) (l, m) (run_next dir l m).
Proof.
  induction l as [|t l IH]; cbn; [done|]. destruct (t_done t) eqn:E; [|by apply rtc_once, (progress_one dir [])].
  destruct (run_next dir l m) as [l' m'] eqn:El. by apply (progress_tail dir t _ (l', m')) in IH.
Qed.

Lemma set_done_id t : t_done t = true → set_done t = t.
Proof. destruct t. cbn. by intros ->. Qed.

Lemma synchronize_progress dir ids l m : rtc (progress dir) (l, m) (synchronize dir ids l m).
Proof.
  revert m. induction l as [|t l IH]; intros m; cbn [synchronize]; [done|]. destruct (existsb _ _); [|done].
  specialize (IH (if t_done t then m else run_transfer dir t m)). destruct (synchronize dir ids l _) as [l' m'].
  apply (progress_tail dir (set_done t)) in IH. cbn in IH. destruct (t_done t) eqn:E; [by rewrite set_done_id in * by done|].
  eapply rtc_l; [by apply (progress_one dir [])|done].
Qed.

(** The jobs waited for have ended. *)
Lemma synchronize_done dir ids l m t : t ∈ (synchronize dir ids l m).1 → t_job_id t ∈ ids → t_done t = true.
Proof.
  revert m. induction l as [|x l IH]; intros m; cbn [synchronize]; [by intros ?%elem_of_nil|]. destruct (existsb _ _) eqn:Ex.
  - specialize (IH (if t_done x then m else run_transfer dir x m)). destruct (synchronize dir ids l _) as [l' m']. cbn in *.
    intros [->|Hin]%elem_of_cons Hj; [done|]. by apply IH.
  - cbn [fst]. intros Hin Hj. exfalso. assert (existsb (λ t, bool_decide (t_job_id t ∈ ids)) (x :: l) = true) as Ht; [|congruence].
    apply existsb_exists. exists t. split; [by apply list_elem_of_In|by apply bool_decide_eq_true].
Qed.

(** Progress keeps the jobs, their specs and copies. *)
Lemma progress_same dir s s' : progress dir s s' → (λ t, (t_job_id t, t_spec t, t_copies t)) <$> s'.1 = (λ t, (t_job_id t, t_spec t, t_copies t)) <$> s.1.
Proof. intros [l1 t l2 m Ht]. cbn. by rewrite !fmap_app. Qed.

(** [get_finished] takes the transfers that have ended off the head of the queue. *)
Lemma pop_finished_spec l results rest :
  pop_finished l = (results, rest) →
  ∃ ended, l = ended ++ rest ∧ Forall (λ t, t_done t = true) ended ∧ results = (λ t, mkResult (t_job_id t) true) <$> ended.
Proof.
  revert results rest. induction l as [|t l IH]; intros results rest; cbn; [intros [= <- <-]; by exists []|].
  destruct (t_done t) eqn:E; [|intros [= <- <-]; by exists []]. destruct (pop_finished l) as [rs r]. intros [= <- <-].
  destruct (IH rs r eq_refl) as (ended & -> & Hd & ->). exists (t :: ended). split_and!; [done|by constructor|done].
Qed.

Lemma pop_finished_all l : Forall (λ t, t_done t = true) l → (pop_finished l).2 = [].
Proof. induction 1 as [|t l Ht _ IH]; [done|]. cbn. rewrite Ht. by destruct (pop_finished l). Qed.
