(* ===== verification/Connector.v ===== *)
(** * The offloading connector

    [OffloadingConnectorScheduler] and [OffloadingConnectorWorker] of
    kv_connector/v1/offloading, over any [OffloadingManager].  Requests are the objects
    of the scheduler, read through the store of objects by request id. *)

From S2P Require Import Prelude Blocks Request BlockHash BlockPool Scheduler OffloadPolicy Offload Transfers.
#[local] Open Scope Z_scope.

(** ** The interface of the manager *)

(** [OffloadingManager] of kv_offload/abstract.py, with the state of type [M]. *)
Class OffloadingManager (M : Type) := {
  om_lookup : M → list bytes → option Z * M;
  om_prepare_load : M → list bytes → res (M * list Z);
  om_touch : M → list bytes → M;
  om_complete_load : M → list bytes → res M;
  om_prepare_store : M → list bytes → res (option (PrepareStoreOutput bytes) * M);
  om_complete_store : M → list bytes → bool → res M;
  om_take_events : M → list (OffloadingEvent bytes) * M;
}.

#[export] Instance CPU_manager {P} `{!CachePolicy (K := bytes) P} : OffloadingManager (CPUOffloadingManager bytes P) := {
  om_lookup m hs := (Some (off_lookup m hs), m);
  om_prepare_load := prepare_load;
  om_touch := off_touch;
  om_complete_load := complete_load;
  om_prepare_store := prepare_store;
  om_complete_store := complete_store;
  om_take_events := off_take_events;
}.

(** The filter in front of a manager. *)
#[export] Instance filter_manager {P} `{!CachePolicy (K := bytes) P} : OffloadingManager (FilterReused bytes * CPUOffloadingManager bytes P) := {
  om_lookup fm hs := let '(n, f) := filtered_lookup fm.1 fm.2 hs in (Some n, (f, fm.2));
  om_prepare_load fm hs := '(m, ids) ← prepare_load fm.2 hs; Ok ((fm.1, m), ids);
  om_touch fm hs := (fm.1, off_touch fm.2 hs);
  om_complete_load fm hs := m ← complete_load fm.2 hs; Ok (fm.1, m);
  om_prepare_store fm hs := '(o, m) ← filtered_prepare_store fm.1 fm.2 hs; Ok (o, (fm.1, m));
  om_complete_store fm hs success := m ← complete_store fm.2 hs success; Ok (fm.1, m);
  om_take_events fm := let '(evs, m) := off_take_events fm.2 in (evs, (fm.1, m));
}.

(** ** The scheduler side *)

Record OffloadingConnectorScheduler (M : Type) := mkConnector {
  gpu_block_size : Z;
  offloaded_block_size : Z;
  block_size_factor : Z;
  manager : M;
  _requests : gset string;
  _request_block_ids : gmap string (list Z);
  _reqs_to_load : list (string * TransferSpec);
  _next_stored_block_idx : gmap string Z;
  _blocks_being_loaded : option (gset bytes);
  _reqs_being_stored : gmap string (gset bytes);
  _reqs_being_loaded : gmap string (gset bytes);
}.
Arguments mkConnector {M}.
Arguments gpu_block_size {M}.
Arguments offloaded_block_size {M}.
Arguments block_size_factor {M}.
Arguments manager {M}.
Arguments _requests {M}.
Arguments _request_block_ids {M}.
Arguments _reqs_to_load {M}.
Arguments _next_stored_block_idx {M}.
Arguments _blocks_being_loaded {M}.
Arguments _reqs_being_stored {M}.
Arguments _reqs_being_loaded {M}.

Record OffloadingConnectorMetadata := mkMeta {
  reqs_to_load : list (string * TransferSpec);
  reqs_to_store : list (string * TransferSpec);
  reqs_to_flush : gset string;
}.

(** [itertools.islice(l, start, stop, step)] *)
Definition islice {A} (l : list A) (start : Z) (stop : option Z) (step : Z) : res (list A) :=
  RAISE ValueError IF (start <? 0) || (step <? 1) || match stop with Some b => b <? 0 | None => false end;
  let last := match stop with Some b => Z.min b (zlen l) | None => zlen l end in
  Ok (omap (λ k, l !! Z.to_nat (start + k * step)) (zrange 0 (cdiv (last - start) step))).

(** [yield_req_data] of kv_connector/utils.py. *)
Definition yield_req_data (so : SchedulerOutput) : list (string * option (list (list Z)) * bool) :=
  ((λ r, (nr_req_id r, Some (nr_block_ids r), false)) <$> so_scheduled_new_reqs so)
  ++ (let c := so_scheduled_cached_reqs so in
      zip (zip (cr_req_ids c) (cr_new_block_ids c)) ((λ id, bool_decide (id ∈ resumed_req_ids c)) <$> cr_req_ids c)).

Section scheduler_side.
Context `{PyRuntime} {M : Type} `{!OffloadingManager M}.
Abbreviation conn := (OffloadingConnectorScheduler M).

(** [__init__]; [gpu_block_sizes] and [factor] are those of the spec. *)
Definition connector_init (gpu_block_sizes : list Z) (factor : Z) (m : M) (enable_prefix_caching : bool) : res conn :=
  ASSERT (zlen gpu_block_sizes =? 1);
  gbs ← py_index gpu_block_sizes 0;
  Ok (mkConnector gbs (gbs * factor) factor m ∅ ∅ [] ∅ (if enable_prefix_caching then Some ∅ else None) ∅ ∅).

Definition with_manager (c : conn) (m : M) : conn :=
  mkConnector (gpu_block_size c) (offloaded_block_size c) (block_size_factor c) m (_requests c) (_request_block_ids c)
    (_reqs_to_load c) (_next_stored_block_idx c) (_blocks_being_loaded c) (_reqs_being_stored c) (_reqs_being_loaded c).
Definition with_request_blocks (c : conn) (rs : gset string) (ids : gmap string (list Z)) : conn :=
  mkConnector (gpu_block_size c) (offloaded_block_size c) (block_size_factor c) (manager c) rs ids
    (_reqs_to_load c) (_next_stored_block_idx c) (_blocks_being_loaded c) (_reqs_being_stored c) (_reqs_being_loaded c).
Definition with_next_stored (c : conn) (idx : gmap string Z) : conn :=
  mkConnector (gpu_block_size c) (offloaded_block_size c) (block_size_factor c) (manager c) (_requests c) (_request_block_ids c)
    (_reqs_to_load c) idx (_blocks_being_loaded c) (_reqs_being_stored c) (_reqs_being_loaded c).
Definition with_being_stored (c : conn) (st : gmap string (gset bytes)) : conn :=
  mkConnector (gpu_block_size c) (offloaded_block_size c) (block_size_factor c) (manager c) (_requests c) (_request_block_ids c)
    (_reqs_to_load c) (_next_stored_block_idx c) (_blocks_being_loaded c) st (_reqs_being_loaded c).
Definition with_loads (c : conn) (to_load : list (string * TransferSpec)) (bl : option (gset bytes)) (ld : gmap string (gset bytes)) : conn :=
  mkConnector (gpu_block_size c) (offloaded_block_size c) (block_size_factor c) (manager c) (_requests c) (_request_block_ids c)
    to_load (_next_stored_block_idx c) bl (_reqs_being_stored c) ld.

Definition _get_block_hashes (c : conn) (r : Request) (start_idx : Z) (end_idx : option Z) : res (list bytes) :=
  let f := block_size_factor c in
  islice (block_hashes r) (f * start_idx + f - 1)
    (match end_idx with Some e => if e =? 0 then None else Some (f * e) | None => None end) f.

(** [self._blocks_being_loaded] is not [None], not empty, and has one of the hashes. *)
Definition being_loaded (c : conn) (hs : list bytes) : bool :=
  match _blocks_being_loaded c with
  | Some l => existsb (λ h, bool_decide (h ∈ l)) hs
  | None => false
  end.

Definition get_num_new_matched_tokens (c : conn) (r : Request) (num_computed : Z) : res (option Z * bool * conn) :=
  let obs := offloaded_block_size c in
  num_blocks ← py_div (num_tokens r) obs;
  n ← py_div (zlen (block_hashes r)) (block_size_factor c);
  ASSERT (n =? num_blocks);
  hs ← _get_block_hashes c r 0 None;
  let c := with_manager c (om_touch (manager c) hs) in
  let full_block_tokens := obs * num_blocks in
  if full_block_tokens - num_computed <? obs then Ok (Some 0, false, c) else
  start_block_idx ← py_div num_computed obs;
  hs ← _get_block_hashes c r start_block_idx None;
  let '(hits, m) := om_lookup (manager c) hs in
  let c := with_manager c m in
  match hits with
  | None => Ok (None, false, c)
  | Some hits =>
      if hits =? 0 then Ok (Some 0, false, c) else
      let num_hit_tokens := obs * (start_block_idx + hits) - num_computed in
      if num_hit_tokens <? obs then Ok (Some 0, false, c) else
      hs ← _get_block_hashes c r start_block_idx (Some (start_block_idx + hits));
      if being_loaded c hs then Ok (None, false, c) else Ok (Some num_hit_tokens, true, c)
  end.

(** [blocks] are the blocks of each group. *)
Definition update_state_after_alloc (c : conn) (r : Request) (blocks : list (list KVCacheBlock)) (num_external_tokens : Z) : res conn :=
  let id := request_id r in
  let c := with_request_blocks c ({[id]} ∪ _requests c) (<[id := []]> (_request_block_ids c)) in
  if num_external_tokens =? 0 then Ok c else
  group ← py_index blocks 0;
  let block_ids := Blocks.block_id <$> group in
  let num_computed_gpu_blocks := zlen (filter (λ b, is_Some (Blocks.block_hash b)) group) in
  let num_computed := num_computed_gpu_blocks * gpu_block_size c in
  let full_block_tokens := num_computed + num_external_tokens in
  rest ← py_mod full_block_tokens (offloaded_block_size c);
  ASSERT (rest =? 0);
  let num_pending_gpu_blocks := zlen block_ids - num_computed_gpu_blocks in
  ASSERT (num_external_tokens =? num_pending_gpu_blocks * gpu_block_size c);
  start_block_idx ← py_div num_computed (offloaded_block_size c);
  num_blocks ← py_div full_block_tokens (offloaded_block_size c);
  n ← py_div (zlen (block_hashes r)) (block_size_factor c);
  ASSERT (num_blocks <=? n);
  hs ← _get_block_hashes c r start_block_idx (Some num_blocks);
  '(m, src_ids) ← om_prepare_load (manager c) hs;
  let c := with_manager c m in
  dst_spec ← gpu_spec (py_from block_ids num_computed_gpu_blocks) [num_pending_gpu_blocks] (Some [num_computed_gpu_blocks]);
  hs ← _get_block_hashes c r start_block_idx (Some num_blocks);
  let req_blocks_being_loaded := default ∅ (_reqs_being_loaded c !! id) ∪ list_to_set hs in
  Ok (with_next_stored
        (with_loads c (od_set (_reqs_to_load c) id (CPULoadStoreSpec src_ids, dst_spec))
           ((λ l, l ∪ req_blocks_being_loaded) <$> _blocks_being_loaded c)
           (<[id := req_blocks_being_loaded]> (_reqs_being_loaded c)))
        (<[id := num_blocks]> (_next_stored_block_idx c))).

(** [self._request_block_ids] after the new blocks of a request. *)
Definition track_blocks (ids : gmap string (list Z)) (id : string) (groups : option (list (list Z))) (preempted : bool) : res (gmap string (list Z)) :=
  let ids := if preempted then <[id := []]> ids else ids in
  match groups with
  | Some ((_ :: _) as groups) =>
      new_block_ids ← py_index groups 0;
      match ids !! id with Some l => Ok (<[id := l ++ new_block_ids]> ids) | None => Err KeyError end
  | _ => Ok ids
  end.

(** The device blocks of the offloaded blocks to be stored. *)
Definition source_blocks (f start_block_idx : Z) (block_ids : list Z) (to_store : gset bytes) (new_block_hashes : list bytes) : res (list Z) :=
  l ← rmap (λ ih : nat * bytes,
        if bool_decide (ih.2 ∈ to_store) then
          rmap (λ i, py_index block_ids ((start_block_idx + Z.of_nat ih.1) * f + i)) (zrange 0 f)
        else Ok []) (imap pair new_block_hashes);
  Ok (concat l).

(** One turn of the loop of [_get_reqs_to_store]. *)
Definition store_request (objs : gmap string Request) (scheduled : list (string * Z))
    (s : conn * list (string * TransferSpec)) (x : string * option (list (list Z)) * bool) : res (conn * list (string * TransferSpec)) :=
  let '(c, out) := s in
  let '(id, groups, preempted) := x in
  let f := block_size_factor c in
  ids ← track_blocks (_request_block_ids c) id groups preempted;
  let c := with_request_blocks c (_requests c) ids in
  match ids !! id, (if bool_decide (id ∈ _requests c) then objs !! id else None) with
  | Some block_ids, Some r =>
      new_tokens ← od_index scheduled id;
      let total_tokens := Z.min (num_computed_tokens r + new_tokens) (num_tokens r) in
      num_blocks ← py_div total_tokens (offloaded_block_size c);
      let start_block_idx := default 0 (_next_stored_block_idx c !! id) in
      if num_blocks - start_block_idx <=? 0 then Ok (c, out) else
      ASSERT (num_blocks * f <=? zlen (block_hashes r));
      new_block_hashes ← _get_block_hashes c r start_block_idx (Some num_blocks);
      '(store_output, m) ← om_prepare_store (manager c) new_block_hashes;
      let c := with_manager c m in
      match store_output with
      | None => Ok (c, out)
      | Some store_output =>
          let c := with_next_stored c (<[id := num_blocks]> (_next_stored_block_idx c)) in
          if zlen (block_hashes_to_store store_output) =? 0 then Ok (c, out) else
          let to_store : gset bytes := list_to_set (block_hashes_to_store store_output) in
          hs ← _get_block_hashes c r 0 (Some num_blocks);
          let c := with_manager c (om_touch (manager c) hs) in
          new_block_hashes ← _get_block_hashes c r start_block_idx (Some num_blocks);
          src_block_ids ← source_blocks f start_block_idx block_ids to_store new_block_hashes;
          src_spec ← gpu_spec src_block_ids [zlen src_block_ids] None;
          Ok (with_being_stored c (<[id := default ∅ (_reqs_being_stored c !! id) ∪ to_store]> (_reqs_being_stored c)),
              od_set out id (src_spec, CPULoadStoreSpec (store_spec store_output)))
      end
  | _, _ => Err KeyError
  end.

Definition _get_reqs_to_store (objs : gmap string Request) (c : conn) (so : SchedulerOutput) : res (conn * list (string * TransferSpec)) :=
  rfold (store_request objs (so_num_scheduled_tokens so)) (c, []) (yield_req_data so).

(** The blocks of a preempted request count as stored: the worker waits for them. *)
Definition flush_request (c : conn) (id : string) : res conn :=
  match _reqs_being_stored c !! id with
  | Some hs =>
      if bool_decide (hs = ∅) then Ok c else
      m ← om_complete_store (manager c) (set_iter hs) true;
      Ok (with_being_stored (with_manager c m) (<[id := ∅]> (_reqs_being_stored c)))
  | None => Ok c
  end.

Definition build_connector_meta (objs : gmap string Request) (c : conn) (so : SchedulerOutput) : res (OffloadingConnectorMetadata * conn) :=
  let to_load := _reqs_to_load c in
  '(c, to_store) ← _get_reqs_to_store objs c so;
  let meta := mkMeta to_load to_store (so_preempted_req_ids so) in
  let c := with_loads c [] (_blocks_being_loaded c) (_reqs_being_loaded c) in
  c ← rfold flush_request c (set_iter (so_preempted_req_ids so));
  Ok (meta, c).

(** The two loops of [update_connector_output]. *)
Definition sending_finished (c : conn) (id : string) : res conn :=
  let hs := _reqs_being_stored c !! id in
  let c := with_being_stored c (delete id (_reqs_being_stored c)) in
  match hs with
  | Some hs => if bool_decide (hs = ∅) then Ok c else m ← om_complete_store (manager c) (set_iter hs) true; Ok (with_manager c m)
  | None => Ok c
  end.
Definition recving_finished (c : conn) (id : string) : res conn :=
  let hs := _reqs_being_loaded c !! id in
  let c := with_loads c (_reqs_to_load c) (_blocks_being_loaded c) (delete id (_reqs_being_loaded c)) in
  match hs with
  | Some hs =>
      if bool_decide (hs = ∅) then Ok c else
      let c := with_loads c (_reqs_to_load c) ((λ l, l ∖ hs) <$> _blocks_being_loaded c) (_reqs_being_loaded c) in
      m ← om_complete_load (manager c) (set_iter hs); Ok (with_manager c m)
  | None => Ok c
  end.
Definition update_connector_output (c : conn) (o : KVConnectorOutput) : res conn :=
  c ← rfold sending_finished c (default [] (finished_sending o));
  rfold recving_finished c (default [] (finished_recving o)).

(** Whether the release of the blocks is delayed. *)
Definition connector_request_finished (c : conn) (r : Request) : bool * conn :=
  let id := request_id r in
  let c := with_next_stored (with_request_blocks c (_requests c ∖ {[id]}) (delete id (_request_block_ids c))) (delete id (_next_stored_block_idx c)) in
  (bool_decide (is_Some (_reqs_being_stored c !! id)), c).

(** [take_events], read to its end; each event with its medium. *)
Definition connector_take_events (c : conn) : list (KVCacheEvent * string) * conn :=
  let '(evs, m) := om_take_events (manager c) in
  ((λ e, (if ev_removed e then BlockRemoved (HashBytes <$> ev_block_hashes e)
          else BlockStored (HashBytes <$> ev_block_hashes e) None [] (ev_block_size e) None None None, ev_medium e)) <$> evs,
   with_manager c m).
End scheduler_side.

(** ** The worker side *)

(** [_jobs] maps a job to its request and whether it is a store. *)
Record OffloadingConnectorWorker := mkConnWorker {
  _job_counter : Z;
  _jobs : gmap Z (string * bool);
  _load_job : gmap string Z;
  _store_jobs : gmap string (gset Z);
  _unsubmitted_store_jobs : list (Z * TransferSpec);
  _finished_reqs_waiting_for_store : gset string;
}.

Definition connector_worker_init : OffloadingConnectorWorker := mkConnWorker 0 ∅ ∅ ∅ [] ∅.

(** The connector worker with the copies under way and the memories. *)
Record Machine := mkMachine {
  cw : OffloadingConnectorWorker;
  ow : OffloadingWorker;
  mems : Memories;
}.
Definition with_cw (k : Machine) (w : OffloadingConnectorWorker) : Machine := mkMachine w (ow k) (mems k).
Definition with_ow (k : Machine) (o : OffloadingWorker) : Machine := mkMachine (cw k) o (mems k).

Definition with_store_state (w : OffloadingConnectorWorker) (jobs : gmap Z (string * bool)) (sj : gmap string (gset Z)) (waiting : gset string) : OffloadingConnectorWorker :=
  mkConnWorker (_job_counter w) jobs (_load_job w) sj (_unsubmitted_store_jobs w) waiting.
Definition with_load_state (w : OffloadingConnectorWorker) (jobs : gmap Z (string * bool)) (lj : gmap string Z) : OffloadingConnectorWorker :=
  mkConnWorker (_job_counter w) jobs lj (_store_jobs w) (_unsubmitted_store_jobs w) (_finished_reqs_waiting_for_store w).
Definition with_unsubmitted (w : OffloadingConnectorWorker) (l : list (Z * TransferSpec)) : OffloadingConnectorWorker :=
  mkConnWorker (_job_counter w) (_jobs w) (_load_job w) (_store_jobs w) l (_finished_reqs_waiting_for_store w).

(** [_generate_job_id], with the new entry of [_jobs]. *)
Definition new_job (w : OffloadingConnectorWorker) (id : string) (store : bool) : Z * OffloadingConnectorWorker :=
  (_job_counter w, mkConnWorker (_job_counter w + 1) (<[_job_counter w := (id, store)]> (_jobs w)) (_load_job w) (_store_jobs w)
                     (_unsubmitted_store_jobs w) (_finished_reqs_waiting_for_store w)).

Section worker_side.
Context `{PyRuntime}.

(** [success = self.worker.transfer_async(job_id, transfer_spec); assert success] *)
Definition submit (k : Machine) (job : Z * TransferSpec) : res Machine :=
  '(success, o) ← ow_transfer_async (ow k) job.1 job.2;
  ASSERT (success : bool);
  Ok (with_ow k o).

Definition submit_stores (k : Machine) : res Machine :=
  k ← rfold submit k (_unsubmitted_store_jobs (cw k));
  Ok (with_cw k (with_unsubmitted (cw k) [])).

Definition wait_for_request (k : Machine) (id : string) : Machine :=
  match _store_jobs (cw k) !! id with
  | Some job_ids =>
      if bool_decide (job_ids = ∅) then k
      else let '(o, m) := ow_wait job_ids (ow k, mems k) in mkMachine (cw k) o m
  | None => k
  end.

Definition handle_preemptions (k : Machine) (meta : OffloadingConnectorMetadata) : res Machine :=
  k ← submit_stores k;
  Ok (foldl wait_for_request k (set_iter (reqs_to_flush meta))).

Definition start_load (k : Machine) (x : string * TransferSpec) : res Machine :=
  let '(id, spec) := x in
  let '(job_id, w) := new_job (cw k) id false in
  ASSERT bool_decide (_load_job w !! id = None);
  let w := with_load_state w (_jobs w) (<[id := job_id]> (_load_job w)) in
  submit (with_cw k w) (job_id, spec).

Definition start_kv_transfers (k : Machine) (meta : OffloadingConnectorMetadata) : res Machine :=
  k ← submit_stores k;
  rfold start_load k (reqs_to_load meta).

Definition prepare_store_job (w : OffloadingConnectorWorker) (x : string * TransferSpec) : OffloadingConnectorWorker :=
  let '(id, spec) := x in
  let '(job_id, w) := new_job w id true in
  let w := with_store_state w (_jobs w) (<[id := default ∅ (_store_jobs w !! id) ∪ {[job_id]}]> (_store_jobs w)) (_finished_reqs_waiting_for_store w) in
  with_unsubmitted w (_unsubmitted_store_jobs w ++ [(job_id, spec)]).

Definition prepare_store_kv (w : OffloadingConnectorWorker) (meta : OffloadingConnectorMetadata) : OffloadingConnectorWorker :=
  foldl prepare_store_job w (reqs_to_store meta).

(** The sets of finished requests that [get_finished] builds. *)
Abbreviation finished := (gset string * gset string)%type.

(** One turn of the loop over the transfers that have ended; the statistics are left
    out. *)
Definition job_finished (s : OffloadingConnectorWorker * finished) (t : TransferResult) : res (OffloadingConnectorWorker * finished) :=
  let '(w, (sending, recving)) := s in
  let job_id := tr_job_id t in
  ASSERT tr_success t;
  match _jobs w !! job_id with
  | None => Err KeyError
  | Some (id, store) =>
      let jobs := delete job_id (_jobs w) in
      if (store : bool) then
        let req_jobs := default ∅ (_store_jobs w !! id) in
        RAISE KeyError IF negb (bool_decide (job_id ∈ req_jobs));
        let req_jobs := req_jobs ∖ {[job_id]} in
        if bool_decide (req_jobs = ∅) && bool_decide (id ∈ _finished_reqs_waiting_for_store w) then
          Ok (with_store_state w jobs (delete id (_store_jobs w)) (_finished_reqs_waiting_for_store w ∖ {[id]}), ({[id]} ∪ sending, recving))
        else Ok (with_store_state w jobs (<[id := req_jobs]> (_store_jobs w)) (_finished_reqs_waiting_for_store w), (sending, recving))
      else
        match _load_job w !! id with
        | None => Err KeyError
        | Some req_job =>
            ASSERT (job_id =? req_job);
            Ok (with_load_state w jobs (delete id (_load_job w)), (sending, {[id]} ∪ recving))
        end
  end.

(** One turn of the loop over the requests that have finished. *)
Definition request_done (s : OffloadingConnectorWorker * finished) (id : string) : OffloadingConnectorWorker * finished :=
  let '(w, (sending, recving)) := s in
  match _store_jobs w !! id with
  | Some pending_req_jobs =>
      if bool_decide (pending_req_jobs = ∅) then
        (with_store_state w (_jobs w) (delete id (_store_jobs w)) (_finished_reqs_waiting_for_store w), ({[id]} ∪ sending, recving))
      else (with_store_state w (_jobs w) (_store_jobs w) ({[id]} ∪ _finished_reqs_waiting_for_store w), (sending, recving))
  | None => s
  end.

Definition connector_get_finished (k : Machine) (finished_req_ids : gset string) : res (finished * Machine) :=
  let '(results, o) := ow_get_finished (ow k) in
  s ← rfold job_finished (cw k, (∅, ∅)) results;
  let '(w, fin) := foldl request_done s (set_iter finished_req_ids) in
  Ok (fin, mkMachine w o (mems k)).
End worker_side.
