(* ===== verification/ConnectorLaws.v ===== *)
(** * What a manager of offloaded blocks promises the connector

    The laws of an [OffloadingManager] in terms of the resident blocks with their slots
    and the transfers under way; the CPU manager obeys them under every policy that
    obeys its own laws, and so does the reuse filter in front of it. *)

From S2P Require Import Prelude OffloadPolicy Offload OffloadProps OffloadSafe Transfers Connector.
#[local] Open Scope Z_scope.

Abbreviation entry := (bytes * Z)%type.
Abbreviation entries := (gset entry).

(** A block that can be loaded: resident and not being stored. *)
Definition loadable (D S : entries) (h : bytes) : Prop := ∃ s, (h, s) ∈ D ∧ (h, s) ∉ S.

(** [om_rel m D L S]: the resident blocks are [D], those of [L] are being loaded, those
    of [S] stored. *)
Class OffloadingManagerLaws (M : Type) `{!OffloadingManager M} := {
  om_rel : M → entries → gmultiset entry → entries → Prop;
  om_injective m D L S h h' s s' : om_rel m D L S → (h, s) ∈ D → (h', s') ∈ D → h = h' ↔ s = s';
  om_slots m D L S h s : om_rel m D L S → (h, s) ∈ D → 0 ≤ s;
  om_storing m D L S : om_rel m D L S → S ⊆ D;
  om_loading m D L S x : om_rel m D L S → x ∈ L → x ∈ D ∧ x ∉ S;
  om_lookup_spec m D L S hs o m' : om_rel m D L S → om_lookup m hs = (o, m') →
    om_rel m' D L S ∧ ∀ n, o = Some n → 0 ≤ n ≤ zlen hs ∧ Forall (loadable D S) (take (Z.to_nat n) hs);
  om_touch_spec m D L S hs : om_rel m D L S → om_rel (om_touch m hs) D L S;
  om_prepare_load_spec m D L S hs : om_rel m D L S → Forall (loadable D S) hs → Z.of_nat (size L + length hs) < 2 ^ 31 →
    ∃ m' ids, om_prepare_load m hs = Ok (m', ids) ∧ length ids = length hs ∧ om_rel m' D (list_to_set_disj (zip hs ids) ⊎ L) S;
  om_complete_load_spec m D L S js : om_rel m D L S → list_to_set_disj js ⊆ L →
    ∃ m', om_complete_load m js.*1 = Ok m' ∧ om_rel m' D (L ∖ list_to_set_disj js) S;
  om_prepare_store_spec m D L S hs : om_rel m D L S → NoDup hs →
    ∃ o m', om_prepare_store m hs = Ok (o, m') ∧
      match o with
      | None => om_rel m' D L S
      | Some out =>
          let new := zip (block_hashes_to_store out) (store_spec out) in
          length (store_spec out) = length (block_hashes_to_store out) ∧ block_hashes_to_store out `sublist_of` hs
          ∧ (∀ h s, h ∈ block_hashes_to_store out → (h, s) ∉ D)
          ∧ ∃ D', D' ⊆ D ∧ om_rel m' (list_to_set new ∪ D') L (list_to_set new ∪ S)
      end;
  om_complete_store_spec m D L S js : om_rel m D L S → NoDup js → (∀ x, x ∈ js → x ∈ S) →
    ∃ m', om_complete_store m js.*1 true = Ok m' ∧ om_rel m' D L (S ∖ list_to_set js);
  om_take_events_spec m D L S : om_rel m D L S → om_rel (om_take_events m).2 D L S;
}.

(** ** The CPU manager *)

Section cpu_manager.
Context {P : Type} `{!CachePolicy (K := bytes) P} `{!CachePolicyLaws P}.
Implicit Types (m : CPUOffloadingManager bytes P).

(** The memory of the invariant is the one that the stores under way will leave. *)
Record cpu_rel m (D : entries) (L : gmultiset entry) (S : entries) : Prop := {
  cr_resident : D = list_to_set (slots m);
  cr_inv : ∃ mem log, inv [] [] (mkWorld m L S mem log) ∧ ∀ h s, (h, s) ∈ slots m → mem !! s = Some h;
}.

Lemma cpu_resident m D L S x : cpu_rel m D L S → x ∈ D ↔ x ∈ slots m.
Proof. intros [-> _]. apply elem_of_list_to_set. Qed.

Lemma cpu_loadable m D L S mem log h :
  inv [] [] (mkWorld m L S mem log) → D = list_to_set (slots m) → loadable D S h ↔ ready (mkWorld m L S mem log) h.
Proof. intros Hi ->. unfold loadable, ready. cbn. by setoid_rewrite elem_of_list_to_set. Qed.

Lemma off_lookup_bounds m hs : 0 ≤ off_lookup m hs ≤ zlen hs.
Proof. unfold zlen. induction hs as [|h hs IH]; cbn; [lia|]. destruct (p_get _ h) as [b|]; [destruct (is_ready b)|]; lia. Qed.

Lemma off_lookup_take m hs : off_lookup m (take (Z.to_nat (off_lookup m hs)) hs) = off_lookup m hs.
Proof.
  induction hs as [|h hs IH]; [by rewrite take_nil|]. cbn [off_lookup]. destruct (p_get (policy m) h) as [b|] eqn:E; [|done]. destruct (is_ready b) eqn:Er; [|done].
  pose proof (off_lookup_bounds m hs). replace (Z.to_nat (1 + off_lookup m hs)) with (S (Z.to_nat (off_lookup m hs))) by lia.
  cbn. by rewrite E, Er, IH.
Qed.

(** *** The slots *)

Lemma update_slots m h f :
  p_wf (policy m) → (∀ b, block_id (f b) = block_id b) →
  p_wf (p_update (policy m) h f) ∧ slots (set_policy m (p_update (policy m) h f)) = slots m.
Proof. intros Hp Hf. destruct (p_update_spec (policy m) h f Hp) as [Hwf E]. split; [done|]. unfold slots. cbn. rewrite E. by apply od_update_slots. Qed.

Lemma prepare_load_slots hs m m' ids : p_wf (policy m) → prepare_load m hs = Ok (m', ids) → slots m' = slots m ∧ length ids = length hs.
Proof.
  intros Hp E. cut (p_wf (policy m') ∧ slots m' = slots m ∧ length ids = length hs); [tauto|].
  refine (rfold_inv (λ done s, p_wf (policy s.1) ∧ slots s.1 = slots m ∧ length s.2 = length done) _ hs (m, []) (m', ids) _ _ E); [done|].
  intros l h rest [m1 l1] [m2 l2] _ (H1 & H2 & H3). cbn [fst snd] in *. unfold prepare_load_one. destruct (p_get _ h) as [b|]; [|done]. destruct (is_ready b); [|done].
  intros [= <- <-]. destruct (update_slots m1 h (λ b, set_ref_cnt (ref_cnt b + 1) b) H1) as [H4 H5]; [done|].
  split_and!; [done|by rewrite H5|]. rewrite !length_app. cbn. lia.
Qed.

Lemma complete_load_slots hs m m' : p_wf (policy m) → complete_load m hs = Ok m' → slots m' = slots m.
Proof.
  intros Hp E. cut (p_wf (policy m') ∧ slots m' = slots m); [tauto|].
  refine (rfold_inv (λ _ m', p_wf (policy m') ∧ slots m' = slots m) _ hs m m' _ _ E); [done|].
  intros l h rest m1 m2 _ (H1 & H2). unfold complete_load_one. destruct (p_get _ h) as [b|]; [|done]. destruct (0 <? ref_cnt b); [|done].
  intros [= <-]. destruct (update_slots m1 h (λ b, set_ref_cnt (ref_cnt b - 1) b) H1) as [H4 H5]; [done|]. split; [done|by rewrite H5].
Qed.

Lemma store_succeeded_slots hs m u m' u' : p_wf (policy m) → foldl store_succeeded (m, u) hs = (m', u') → slots m' = slots m.
Proof.
  revert m u. induction hs as [|h hs IH]; intros m u Hp; cbn [foldl]; [by intros [= <- _]|]. unfold store_succeeded at 2.
  destruct (p_get (policy m) h) as [b|]; [destruct (is_ready b)|]; [by apply IH| |by apply IH]. intros E.
  destruct (update_slots m h (set_ref_cnt 0) Hp) as [H1 H2]; [done|]. by rewrite (IH (set_policy m _) _ H1 E), H2.
Qed.

Lemma report_event_slots m r hs : slots (report_event m r hs) = slots m.
Proof. unfold report_event. destruct hs, (events m); done. Qed.

Lemma complete_store_slots hs m m' : p_wf (policy m) → complete_store m hs true = Ok m' → slots m' = slots m.
Proof.
  intros Hp. unfold complete_store. destruct (foldl store_succeeded (m, []) hs) as [m1 u] eqn:E. intros [= <-].
  rewrite report_event_slots. by apply store_succeeded_slots in E.
Qed.

(** *** The laws *)

(** The memory after the stores under way. *)
Lemma promised_ok l m L S mem log :
  inv [] [] (mkWorld m L S mem log) → (∀ x, x ∈ l → x ∈ S) →
  inv [] [] (mkWorld m L S (foldl (λ mem x, partial_alter (λ _, Some x.1) x.2 mem) mem l) log).
Proof.
  revert mem. induction l as [|[h s] l IH]; intros mem Hi Hl; [done|]. cbn. apply IH; [|intros x Hx; apply Hl; by right].
  apply (write_ok s (Some h) _ h Hi). apply Hl. by left.
Qed.

Lemma promised_lookup l (mem : gmap Z bytes) h s :
  foldl (λ mem x, partial_alter (λ _, Some x.1) x.2 mem) mem l !! s = Some h ∨ s ∈ l.*2 ∨ mem !! s ≠ Some h.
Proof.
  revert mem. induction l as [|[k t] l IH]; intros mem; cbn; [destruct (decide (mem !! s = Some h)); tauto|].
  destruct (IH (partial_alter (λ _, Some k) t mem)) as [H1|[H1|H1]]; [tauto|set_solver|]. destruct (decide (s = t)) as [->|Hne]; [set_solver|].
  rewrite lookup_partial_alter_ne in H1 by done. tauto.
Qed.

Lemma promised_new l (mem : gmap Z bytes) h s : NoDup l.*2 → (h, s) ∈ l → foldl (λ mem x, partial_alter (λ _, Some x.1) x.2 mem) mem l !! s = Some h.
Proof.
  revert mem. induction l as [|[k t] l IH]; intros mem; cbn; [by intros _ ?%elem_of_nil|]. intros [Ht Hnd]%NoDup_cons [[= -> ->]|Hin]%elem_of_cons; [|by apply IH].
  destruct (promised_lookup l (partial_alter (λ _, Some k) t mem) k t) as [?|[?|H1]]; [done|done|]. by rewrite lookup_partial_alter_eq in H1.
Qed.
End cpu_manager.

#[export] Program Instance CPU_laws {P} `{!CachePolicy (K := bytes) P} `{!CachePolicyLaws P} : OffloadingManagerLaws (CPUOffloadingManager bytes P) := {
  om_rel := cpu_rel;
}.
Next Obligation.
  intros P ? ? m D L S h h' s s' [-> (mem & log & Hi & _)]. rewrite !elem_of_list_to_set. intros H1 H2.
  pose proof (inv_slot_nodup _ _ _ Hi) as Hs. pose proof (slots_nodup m (i_wf _ _ _ Hi)) as Hh. split; intros ->.
  - by apply (fst_inj (slots m) h').
  - by apply (snd_inj (slots m) h h' s').
Qed.
Next Obligation.
  intros P ? ? m D L S h s [-> (mem & log & Hi & _)]. rewrite elem_of_list_to_set. intros H1.
  assert (s ∈ zrange 0 (num_allocated_blocks m)) as Hr%elem_of_zrange; [|lia].
  pose proof (i_slots _ _ _ Hi) as Hp. cbn in Hp. rewrite <- Hp, elem_of_app. right. by apply (list_elem_of_fmap_2 snd _ (h, s)).
Qed.
Next Obligation.
  intros P ? ? m D L S [-> (mem & log & Hi & _)] x Hx. apply elem_of_list_to_set. by apply (i_storing _ _ _ Hi).
Qed.
Next Obligation.
  intros P ? ? m D L S x [-> (mem & log & Hi & _)] Hx. rewrite elem_of_list_to_set. by apply (i_loading _ _ _ Hi).
Qed.
Next Obligation.
  intros P ? ? m D L S hs o m' Hr. cbn. intros [= <- <-]. split; [done|]. intros n [= <-]. split; [apply off_lookup_bounds|].
  destruct Hr as [HD (mem & log & Hi & _)]. eapply Forall_impl; [|intros h; by apply (cpu_loadable m D L S mem log h Hi HD)].
  apply lookup_ready; [done|]. cbn. rewrite off_lookup_take, length_take. pose proof (off_lookup_bounds m hs). unfold zlen in *. lia.
Qed.
Next Obligation.
  intros P ? ? m D L S hs [-> (mem & log & Hi & Hm)]. pose proof (touch_ok hs _ Hi) as Hi'. cbn in Hi'.
  assert (slots (off_touch m hs) ≡ₚ slots m) as Hs by (unfold slots; cbn; by rewrite (proj2 (p_touch_spec (policy m) hs (i_wf _ _ _ Hi)))).
  split; [apply set_eq; intros x; cbn; by rewrite !elem_of_list_to_set, Hs|]. exists mem, log. split; [done|]. intros h s. cbn. rewrite Hs. apply Hm.
Qed.
Next Obligation.
  intros P ? ? m D L S hs [-> (mem & log & Hi & Hm)] Hl Hb. assert (Forall (ready (mkWorld m L S mem log)) hs) as Hr.
  { eapply Forall_impl; [exact Hl|]. intros h. by apply (cpu_loadable m _ L S mem log h Hi). }
  destruct (prepare_load_ok hs _ [] Hi Hr Hb) as (m' & ids & E & Hi'). cbn in E, Hi'. exists m', ids. cbn.
  assert (prepare_load m hs = Ok (m', ids)) as E' by done. destruct (prepare_load_slots hs m m' ids (i_wf _ _ _ Hi) E') as [Hs Hlen].
  split_and!; [done|done|]. split; [by rewrite Hs|]. exists mem, log. rewrite Hs. done.
Qed.
Next Obligation.
  intros P ? ? m D L S js [-> (mem & log & Hi & Hm)] Hj. destruct (complete_load_ok js _ Hi Hj) as (m' & E & Hi'). cbn in E, Hi'. exists m'. cbn.
  pose proof (complete_load_slots _ m m' (i_wf _ _ _ Hi) E) as Hs. split; [done|]. split; [by rewrite Hs|]. exists mem, log. rewrite Hs. done.
Qed.
Next Obligation.
  intros P ? ? m D L S hs [-> (mem & log & Hi & Hm)] Hnd. destruct (prepare_store_ok hs _ Hi Hnd) as (o & m' & E & Ho). cbn in E, Ho. exists o, m'. cbn. split; [done|].
  destruct o as [out|]; [|subst m'; split; [done|]; by exists mem, log]. destruct Ho as (Hout & Hlen & (old & rest & Hs & Hs') & Hi').
  set (new := zip (block_hashes_to_store out) (store_spec out)) in *. split_and!; [done| | |].
  - rewrite Hout. clear. induction hs as [|h hs IH]; cbn; [done|]. destruct (is_absent m h); by constructor.
  - intros h s Hh. rewrite Hout in Hh. apply list_elem_of_In, List.filter_In in Hh as [_ Hh]. rewrite elem_of_list_to_set. intros (b & Hin & _)%slots_elem.
    unfold is_absent in Hh. pose proof (inv_get _ _ _ h b Hi) as Hg. cbn in Hg. by rewrite (proj2 Hg Hin) in Hh.
  - exists (list_to_set rest). split; [intros x; rewrite !elem_of_list_to_set, Hs, elem_of_app; by right|]. pose proof (inv_slot_nodup _ _ _ Hi') as Hnd'. cbn in Hnd'. rewrite Hs', fmap_app in Hnd'.
    apply NoDup_app in Hnd' as (Hn1 & Hn2 & _). split; [apply set_eq; intros x; rewrite elem_of_union, !elem_of_list_to_set, Hs'; by rewrite elem_of_app|].
    eexists _, log. split; [apply (promised_ok new _ _ _ _ _ Hi'); set_solver|]. intros h s. rewrite Hs'. intros [Hx|Hx]%elem_of_app; [by apply promised_new|].
    destruct (promised_lookup new mem h s) as [?|[Hin|Hin]]; [done| |].
    + exfalso. apply (Hn2 s Hin). by apply (list_elem_of_fmap_2 snd _ (h, s)).
    + exfalso. apply Hin, Hm. rewrite Hs. apply elem_of_app. by right.
Qed.
Next Obligation.
  intros P ? ? m D L S js [-> (mem & log & Hi & Hm)] Hnd Hj. destruct (complete_store_ok js true _ Hi) as (m' & E & Hi').
  { split_and!; [done|done|]. cbn. intros _ h s Hx. apply Hm. by apply (i_storing _ _ _ Hi), Hj. }
  cbn in E, Hi'. exists m'. cbn. pose proof (complete_store_slots _ m m' (i_wf _ _ _ Hi) E) as Hs. split; [done|]. split; [by rewrite Hs|]. exists mem, log. rewrite Hs. done.
Qed.
Next Obligation.
  intros P ? ? m D L S [-> (mem & log & Hi & Hm)]. cbn. pose proof (events_ok _ Hi) as Hi'. cbn in Hi'. unfold off_take_events in *.
  destruct (events m) as [evs|] eqn:E; cbn in *; split; try done; by eexists _, _.
Qed.

(** ** The filter *)

#[export] Program Instance filter_laws {P} `{!CachePolicy (K := bytes) P} `{!CachePolicyLaws P} : OffloadingManagerLaws (FilterReused bytes * CPUOffloadingManager bytes P) := {
  om_rel fm := om_rel fm.2;
}.
Next Obligation. intros P ? ? [f m]. apply (om_injective m). Qed.
Next Obligation. intros P ? ? [f m]. apply (om_slots m). Qed.
Next Obligation. intros P ? ? [f m]. apply (om_storing m). Qed.
Next Obligation. intros P ? ? [f m]. apply (om_loading m). Qed.
Next Obligation.
  intros P ? ? [f m] D L S hs o [f' m'] Hr. cbn. intros [= <- <- <-]. by apply (om_lookup_spec m D L S hs _ m Hr).
Qed.
Next Obligation. intros P ? ? [f m] D L S hs Hr. exact (om_touch_spec m D L S hs Hr). Qed.
Next Obligation.
  intros P ? ? [f m] D L S hs Hr Hl Hb. destruct (om_prepare_load_spec m D L S hs Hr Hl Hb) as (m' & ids & E & Ho). cbn in E |- *.
  rewrite E. cbn. by exists (f, m'), ids.
Qed.
Next Obligation.
  intros P ? ? [f m] D L S js Hr Hj. destruct (om_complete_load_spec m D L S js Hr Hj) as (m' & E & Ho). cbn in E |- *.
  rewrite E. cbn. by exists (f, m').
Qed.
Next Obligation.
  intros P ? ? [f m] D L S hs Hr Hnd. assert (List.filter (eligible f) hs `sublist_of` hs) as Hs.
  { clear. induction hs as [|h hs IH]; cbn; [done|]. destruct (eligible f h); by constructor. }
  destruct (om_prepare_store_spec m D L S (List.filter (eligible f) hs) Hr) as (o & m' & E & Ho); [by apply (sublist_NoDup _ hs)|].
  cbn in E |- *. unfold filtered_prepare_store. rewrite E. cbn. exists o, (f, m'). split; [done|]. destruct o as [out|]; [|done].
  destruct Ho as (H1 & H2 & H3 & H4). split_and!; [done|by etrans|done|done].
Qed.
Next Obligation.
  intros P ? ? [f m] D L S js Hr Hnd Hj. destruct (om_complete_store_spec m D L S js Hr Hnd Hj) as (m' & E & Ho). cbn in E |- *.
  rewrite E. cbn. by exists (f, m').
Qed.
Next Obligation.
  intros P ? ? [f m] D L S Hr. pose proof (om_take_events_spec m D L S Hr) as Ho. cbn in Ho |- *. destruct (off_take_events m). done.
Qed.

(** A new manager has no blocks. *)
Lemma cpu_start {P} `{!CachePolicy (K := bytes) P} `{!CachePolicyLaws P} block_size num_blocks enable_events :
  0 ≤ num_blocks → om_rel (offload_init (P := P) block_size num_blocks enable_events) ∅ ∅ ∅.
Proof.
  intros Hn. pose proof (start_ok (P := P) block_size num_blocks enable_events Hn) as Hi.
  assert (slots (offload_init (P := P) block_size num_blocks enable_events) = []) as Hs by (unfold slots; cbn; by rewrite (proj2 (p_init_ok num_blocks Hn))).
  split; [by rewrite Hs|]. exists ∅, []. split; [done|]. rewrite Hs. by intros h s ?%elem_of_nil.
Qed.
