(* ===== verification/ConnectorWorld.v ===== *)
(** * The offloading connector at work

    Both sides of the connector with the copies and the memories, driven by a scheduler
    and an engine: requests are matched and admitted, steps are scheduled, forward passes
    compute blocks, transfers make progress at any time, requests are preempted and
    finish.  The engine runs one step after the other. *)

From S2P Require Import Prelude Blocks Request Scheduler OffloadPolicy Offload Transfers Connector.
#[local] Open Scope Z_scope.

(** The handlers of the two directions. *)
Definition STORES : TransferType := ("GPU", "CPU").
Definition LOADS : TransferType := ("CPU", "GPU").

Record cworld (M : Type) := mkCWorld {
  sch : OffloadingConnectorScheduler M;
  mac : Machine;
  objs : gmap string Request;
  bound : option OffloadingConnectorMetadata;
}.
Arguments mkCWorld {M}.
Arguments sch {M}.
Arguments mac {M}.
Arguments objs {M}.
Arguments bound {M}.

(** What happens.  [CRequest] adds or updates a request object; [CMatch] asks for the
    tokens that can be loaded, [CAdmit] then allocates blocks for them; [CStep] builds
    the metadata of a step and the worker starts on it; [CSave] follows the forward pass
    and [CCollect] reports the requests whose transfers have ended.  [CTransfer] carries
    out the next transfer of a direction; before it ends a transfer may leave anything in
    its destinations ([CPartial]).  [CCompute] writes a device block. *)
Inductive cop :=
  | CRequest (r : Request)
  | CMatch (id : string) (num_computed : Z)
  | CAdmit (id : string) (num_computed : Z) (blocks : list (list KVCacheBlock))
  | CStep (so : SchedulerOutput)
  | CSave
  | CCollect (finished_req_ids : gset string)
  | CFinish (id : string)
  | CEvents
  | CTransfer (type : TransferType)
  | CPartial (type : TransferType) (x : Z) (content : option bytes)
  | CCompute (block : Z) (content : option bytes).

Definition queue (k : Machine) (type : TransferType) : list Transfer :=
  match ow k !! type with Some h => transfers h | None => [] end.

(** ** Runs *)

Section runs.
Context `{PyRuntime} {M : Type} `{!OffloadingManager M}.
Implicit Types (w : cworld M).

Definition with_sch w (c : OffloadingConnectorScheduler M) : cworld M := mkCWorld c (mac w) (objs w) (bound w).
Definition with_mems w (m : Memories) : cworld M := mkCWorld (sch w) (mkMachine (cw (mac w)) (ow (mac w)) m) (objs w) (bound w).

Definition obj w (id : string) : res Request := match objs w !! id with Some r => Ok r | None => Err KeyError end.

Definition cstart (gpu_block_size factor : Z) (m : M) (enable_prefix_caching : bool) : res (cworld M) :=
  c ← connector_init [gpu_block_size] factor m enable_prefix_caching;
  o ← register_handlers ∅ factor;
  Ok (mkCWorld c (mkMachine connector_worker_init o (mkMemories ∅ ∅)) ∅ None).

Definition run_cop w (o : cop) : res (cworld M) :=
  match o with
  | CRequest r => Ok (mkCWorld (sch w) (mac w) (<[request_id r := r]> (objs w)) (bound w))
  | CMatch id n => r ← obj w id; '(_, _, c) ← get_num_new_matched_tokens (sch w) r n; Ok (with_sch w c)
  | CAdmit id n blocks =>
      r ← obj w id;
      '(ext, _, c) ← get_num_new_matched_tokens (sch w) r n;
      match ext with
      | None => Ok (with_sch w c)
      | Some ext => c ← update_state_after_alloc c r blocks ext; Ok (with_sch w c)
      end
  | CStep so =>
      '(meta, c) ← build_connector_meta (objs w) (sch w) so;
      k ← handle_preemptions (mac w) meta;
      k ← start_kv_transfers k meta;
      Ok (mkCWorld c k (objs w) (Some meta))
  | CSave =>
      match bound w with
      | Some meta => Ok (mkCWorld (sch w) (with_cw (mac w) (prepare_store_kv (cw (mac w)) meta)) (objs w) None)
      | None => Ok w
      end
  | CCollect fin =>
      '(sending, recving, k) ← connector_get_finished (mac w) fin;
      c ← update_connector_output (sch w) (mkConnectorOutput (Some (set_iter sending)) (Some (set_iter recving)) ∅);
      Ok (mkCWorld c k (objs w) (bound w))
  | CFinish id => r ← obj w id; Ok (with_sch w (connector_request_finished (sch w) r).2)
  | CEvents => Ok (with_sch w (connector_take_events (sch w)).2)
  | CTransfer type =>
      match ow (mac w) !! type with
      | Some h =>
          let '(l, m) := run_next (gpu_to_cpu h) (transfers h) (mems (mac w)) in
          Ok (mkCWorld (sch w) (mkMachine (cw (mac w)) (<[type := set_transfers h l]> (ow (mac w))) m) (objs w) (bound w))
      | None => Ok w
      end
  | CPartial type x v =>
      let m := mems (mac w) in
      Ok (with_mems w (if decide (type = STORES) then mkMemories (gpu m) (partial_alter (λ _, v) x (cpu m))
                       else mkMemories (partial_alter (λ _, v) x (gpu m)) (cpu m)))
  | CCompute b v => let m := mems (mac w) in Ok (with_mems w (mkMemories (partial_alter (λ _, v) b (gpu m)) (cpu m)))
  end.

(** ** What the scheduler and the engine keep to *)

(** Device blocks that transfers still read or write. *)
Definition load_targets w : list Z :=
  concat ((λ t, spec_block_ids (t_spec t).2) <$> queue (mac w) LOADS) ++ concat ((λ x, spec_block_ids x.2.2) <$> _reqs_to_load (sch w)).
Definition store_sources w : list Z :=
  concat ((λ x, spec_block_ids x.2.1) <$> _unsubmitted_store_jobs (cw (mac w)))
  ++ concat ((λ t, spec_block_ids (t_spec t).1) <$> filter (λ t, t_done t = false) (queue (mac w) STORES)).

(** The number of loads under way. *)
Definition num_loads w : nat := map_fold (λ _ X n, (size X + n)%nat) 0%nat (_reqs_being_loaded (sch w)).

Section legality.
Context (group : bytes → list bytes).

(** Every full block of a request is hashed, with a hash of its own, and the hash of the
    last device block of an offloaded block determines those of the others. *)
Definition hashed (gbs f : Z) (r : Request) : Prop :=
  zlen (block_hashes r) = num_tokens r / gbs ∧ NoDup (block_hashes r)
  ∧ Forall (λ k, (group <$> block_hashes r !! Z.to_nat (k * f + f - 1)) = Some (take (Z.to_nat f) (drop (Z.to_nat (k * f)) (block_hashes r))))
      (zrange 0 (zlen (block_hashes r) / f)).

(** The blocks for the tokens computed, then those for the tokens to be loaded, which no
    transfer uses. *)
Definition admissible w (n ext : Z) (blocks : list (list KVCacheBlock)) : Prop :=
  match blocks with
  | [] => False
  | g :: _ =>
      let k := Z.to_nat (n / gpu_block_size (sch w)) in
      let new := Blocks.block_id <$> drop k g in
      n = Z.of_nat k * gpu_block_size (sch w) ∧ (k ≤ length g)%nat ∧ ext = zlen new * gpu_block_size (sch w)
      ∧ Forall (λ b, is_Some (Blocks.block_hash b)) (take k g) ∧ Forall (λ b, ¬ is_Some (Blocks.block_hash b)) (drop k g)
      ∧ NoDup new ∧ Forall (λ b, (b ∉ load_targets w) ∧ (b ∉ store_sources w)) new
  end.

(** The device blocks of a scheduled request. *)
Definition scheduled_block_ids (c : OffloadingConnectorScheduler M) (x : string * option (list (list Z)) * bool) : list Z :=
  let '(id, groups, preempted) := x in
  (if preempted then [] else default [] (_request_block_ids c !! id)) ++ match groups with Some (g :: _) => g | _ => [] end.

(** A scheduled request has blocks for its tokens, and none of them is still being
    loaded. *)
Definition schedulable w (so : SchedulerOutput) (x : string * option (list (list Z)) * bool) : Prop :=
  let id := x.1.1 in
  let l := scheduled_block_ids (sch w) x in
  match objs w !! id, od_get (so_num_scheduled_tokens so) id with
  | Some r, Some n =>
      id ∈ _requests (sch w) ∧ (id ∉ so_preempted_req_ids so)
      ∧ Z.min (num_computed_tokens r + n) (num_tokens r) / offloaded_block_size (sch w) * block_size_factor (sch w) ≤ zlen l
      ∧ Forall (λ b, b ∉ load_targets w) l
  | _, _ => False
  end.

(** The forward pass has computed the blocks of a request that are to be stored. *)
Definition blocks_computed w (id : string) : Prop :=
  match objs w !! id, _request_block_ids (sch w) !! id, _next_stored_block_idx (sch w) !! id with
  | Some r, Some l, Some n =>
      Forall (λ x : Z * bytes, gpu (mems (mac w)) !! x.1 = Some x.2) (take (Z.to_nat (n * block_size_factor (sch w))) (zip l (block_hashes r)))
  | _, _, _ => False
  end.

Definition clegal w (o : cop) : Prop :=
  match o with
  | CRequest r =>
      hashed (gpu_block_size (sch w)) (block_size_factor (sch w)) r
      ∧ match objs w !! request_id r with Some old => block_hashes old `prefix_of` block_hashes r | None => True end
  | CMatch id n => is_Some (objs w !! id) ∧ 0 ≤ n
  | CAdmit id n blocks =>
      match objs w !! id with
      | None => False
      | Some r =>
          0 ≤ n ∧ bound w = None ∧ _reqs_being_loaded (sch w) !! id = None
          ∧ (id ∈ _requests (sch w) ∨ _reqs_being_stored (sch w) !! id = None)
          ∧ Z.of_nat (num_loads w + length (block_hashes r)) < 2 ^ 31
          ∧ match get_num_new_matched_tokens (sch w) r n with
            | Ok (Some ext, _, _) => ext = 0 ∨ admissible w n ext blocks
            | _ => True
            end
      end
  | CStep so => bound w = None ∧ NoDup (yield_req_data so).*1.*1 ∧ Forall (schedulable w so) (yield_req_data so)
  | CSave => match bound w with Some meta => Forall (blocks_computed w) (reqs_to_store meta).*1 | None => True end
  | CCollect fin => Forall (λ id, id ∉ _requests (sch w)) (elements fin)
  | CFinish id => bound w = None ∧ is_Some (objs w !! id)
  | CEvents | CTransfer _ => True
  | CPartial type x _ => Exists (λ t, t_done t = false ∧ x ∈ (t_copies t).*2) (queue (mac w) type) ∧ (type = STORES ∨ type = LOADS)
  | CCompute b _ => (b ∉ load_targets w) ∧ (b ∉ store_sources w)
  end.

Fixpoint clegal_run w (ops : list cop) : Prop :=
  match ops with
  | [] => True
  | o :: ops => clegal w o ∧ match run_cop w o with Ok w' => clegal_run w' ops | Err _ => True end
  end.

#[export] Instance hashed_dec gbs f r : Decision (hashed gbs f r).
Proof. unfold hashed. apply _. Defined.
#[export] Instance admissible_dec w n ext blocks : Decision (admissible w n ext blocks).
Proof. unfold admissible. destruct blocks; apply _. Defined.
#[export] Instance schedulable_dec w so x : Decision (schedulable w so x).
Proof. unfold schedulable. repeat (case_match; try apply _). Defined.
#[export] Instance blocks_computed_dec w id : Decision (blocks_computed w id).
Proof. unfold blocks_computed. repeat (case_match; try apply _). Defined.
#[export] Instance clegal_dec w o : Decision (clegal w o).
Proof. destruct o; cbn; repeat (case_match; try apply _); apply _. Defined.
#[export] Instance clegal_run_dec w ops : Decision (clegal_run w ops).
Proof. revert w. induction ops as [|o ops IH]; intros w; cbn; [apply _|]. apply and_dec; [apply _|]. destruct (run_cop w o); [apply IH|apply _]. Defined.
End legality.
End runs.
