(* ===== verification/ConnectorInv.v ===== *)
(** * The invariant of the offloading connector

    The scheduler side, the keys that both sides share, the jobs of the worker and the
    data that the transfers move; and the steps of the transfers, which concern the data
    only. *)

From S2P Require Import Prelude Blocks Request Scheduler OffloadPolicy Offload Transfers Connector ConnectorLaws ConnectorWorld.
#[local] Open Scope Z_scope.

(** What the requests hold, per request. *)
Abbreviation holding := (gmap string entries).

(** All entries of a holding, with multiplicity. *)
Definition msum (held : holding) : gmultiset entry := map_fold (λ _ E L, list_to_set_disj (elements E) ⊎ L) ∅ held.

Definition part (own : holding) (id : string) : entries := default ∅ (own !! id).

Section invariant.
Context (group : bytes → list bytes) (gbs f : Z).

(** A slot holds the data of an offloaded block. *)
Definition holds (c : Mem) (h : bytes) (s : Z) : Prop :=
  ∀ (i : nat) d, Z.of_nat i < f → group h !! i = Some d → c !! (s * f + Z.of_nat i) = Some d.

(** A store writes the entries [E], from device blocks of which [lab] tells the data. *)
Definition store_ok (lab : Z → bytes → Prop) (E : entries) (s : TransferSpec) : Prop :=
  ∃ srcs slots, s = (GPULoadStoreSpec srcs [zlen srcs] None, CPULoadStoreSpec slots) ∧ zlen srcs = zlen slots * f
  ∧ ∀ k s, slots !! k = Some s → ∃ h, (h, s) ∈ E ∧
      ∀ (i : nat) d, Z.of_nat i < f → group h !! i = Some d → ∃ b, srcs !! (k * Z.to_nat f + i)%nat = Some b ∧ lab b d.

(** A load for the blocks of a request from number [k0] on reads the entries [E]. *)
Definition load_ok (hashes : list bytes) (E : entries) (slots ids : list Z) (k0 : Z) : Prop :=
  0 ≤ k0 ∧ zlen ids = zlen slots * f - k0 `mod` f
  ∧ ∀ k s (i : nat), slots !! k = Some s → Z.of_nat i < f →
      ∃ h d, (h, s) ∈ E ∧ group h !! i = Some d ∧ hashes !! ((Z.to_nat (k0 / f) + k) * Z.to_nat f + i)%nat = Some d.
Definition load_spec (slots ids : list Z) (k0 : Z) : TransferSpec := (CPULoadStoreSpec slots, GPULoadStoreSpec ids [zlen ids] (Some [k0])).

(** The transfers of a store and of a load. *)
Definition store_transfer (t : Transfer) : Prop :=
  t_copies t = zip (spec_block_ids (t_spec t).1) (subblocks f (spec_block_ids (t_spec t).2)).
Definition load_transfer (hashes : list bytes) (E : entries) (g : Mem) (t : Transfer) : Prop :=
  ∃ slots ids k0, t_spec t = load_spec slots ids k0 ∧ load_ok hashes E slots ids k0
  ∧ t_copies t = zip (drop (Z.to_nat (k0 `mod` f)) (subblocks f slots)) ids
  ∧ (t_done t = true → ∀ n b d, ids !! n = Some b → hashes !! (Z.to_nat k0 + n)%nat = Some d → g !! b = Some d).

(** The store of a request that is still to be carried out, the loads of the queue. *)
Definition out (w : OffloadingConnectorWorker) (sq : list Transfer) (id : string) (s : TransferSpec) : Prop :=
  ∃ j, _jobs w !! j = Some (id, true)
    ∧ ((j, s) ∈ _unsubmitted_store_jobs w ∨ ∃ t, t ∈ sq ∧ t_job_id t = j ∧ t_spec t = s ∧ t_done t = false).

(** The data.  [D] are the resident entries, [S] those being stored; [own] and [held] are
    what each request stores and loads, [X] what it stored when it was preempted, until
    the worker has waited for it.  [pend] are the stores of the step under way, [lds] the
    loads not yet started. *)
Record data_inv (D S : entries) (X own held : holding) (os : gmap string Request) (lab : string → Z → bytes → Prop)
    (pend lds : list (string * TransferSpec)) (w : OffloadingConnectorWorker) (sq lq : list Transfer) (m : Memories) : Prop := {
  d_own id : part own id ⊆ S;
  d_disjoint id id' x : x ∈ part own id ∪ part X id → x ∈ part own id' ∪ part X id' → id = id';
  d_held id x : x ∈ part held id → x ∈ D ∧ (x ∉ S) ∧ ∀ id', x ∉ part X id';
  d_flushed id x : x ∈ part X id → x ∈ D ∧ x ∉ S;
  d_mem h s : (h, s) ∈ D → (h, s) ∉ S → (∀ id, (h, s) ∉ part X id) → holds (cpu m) h s;
  d_out id s : out w sq id s → store_ok (λ b d, gpu m !! b = Some d) (part own id ∪ part X id) s;
  d_pend id s : (id, s) ∈ pend → store_ok (lab id) (part own id) s;
  d_cover id h s : (h, s) ∈ part own id ∪ part X id →
    holds (cpu m) h s ∨ ∃ sp, (out w sq id sp ∨ (id, sp) ∈ pend) ∧ s ∈ spec_block_ids sp.2;
  d_sources id s b : out w sq id s ∨ (id, s) ∈ pend → b ∈ spec_block_ids s.1 →
    b ∉ concat ((λ t, spec_block_ids (t_spec t).2) <$> lq) ++ concat ((λ x, spec_block_ids x.2.2) <$> lds);
  d_targets : NoDup (concat ((λ t, spec_block_ids (t_spec t).2) <$> lq) ++ concat ((λ x, spec_block_ids x.2.2) <$> lds));
  d_stores t : t ∈ sq → store_transfer t;
  d_lds id s : (id, s) ∈ lds → ∃ r slots ids k0, os !! id = Some r ∧ s = load_spec slots ids k0 ∧ load_ok (block_hashes r) (part held id) slots ids k0;
  d_loads t id : t ∈ lq → _jobs w !! t_job_id t = Some (id, false) →
    ∃ r, os !! id = Some r ∧ load_transfer (block_hashes r) (part held id) (gpu m) t;
}.

(** The jobs of the worker. *)
Record jobs_inv (w : OffloadingConnectorWorker) (sq lq : list Transfer) : Prop := {
  j_nodup : NoDup ((_unsubmitted_store_jobs w).*1 ++ (t_job_id <$> sq) ++ (t_job_id <$> lq));
  j_counter j : is_Some (_jobs w !! j) → j < _job_counter w;
  j_store j : j ∈ (_unsubmitted_store_jobs w).*1 ++ (t_job_id <$> sq) ↔ ∃ id, _jobs w !! j = Some (id, true);
  j_load j : j ∈ t_job_id <$> lq ↔ ∃ id, _jobs w !! j = Some (id, false);
  j_of j id : _jobs w !! j = Some (id, true) ↔ ∃ J, _store_jobs w !! id = Some J ∧ j ∈ J;
  j_ljob j id : _jobs w !! j = Some (id, false) ↔ _load_job w !! id = Some j;
}.

(** The handlers. *)
Definition handlers (sq lq : list Transfer) : OffloadingWorker :=
  <[STORES := mkHandler true 1 f sq]> (<[LOADS := mkHandler false f 1 lq]> ∅).

Section scheduler.
Context {M : Type} `{!OffloadingManager M} `{!OffloadingManagerLaws M}.

(** The scheduler side. *)
Record sched_inv (c : OffloadingConnectorScheduler M) (os : gmap string Request) (D S : entries) (own held : holding) : Prop := {
  s_factor : block_size_factor c = f;
  s_gbs : gpu_block_size c = gbs;
  s_obs : offloaded_block_size c = gbs * f;
  s_rel : om_rel (manager c) D (msum held) S;
  s_stored : _reqs_being_stored c = set_map fst <$> own;
  s_loaded : _reqs_being_loaded c = set_map fst <$> held;
  s_union x : x ∈ S ↔ ∃ id, x ∈ part own id;
  s_blocks : _requests c = dom (_request_block_ids c);
  s_objs id : id ∈ _requests c → is_Some (os !! id);
  s_hashed id r : os !! id = Some r → request_id r = id ∧ hashed group gbs f r;
  s_next id n : _next_stored_block_idx c !! id = Some n → 0 ≤ n;
}.

(** The requests that both sides know. *)
Record keys_inv (c : OffloadingConnectorScheduler M) (w : OffloadingConnectorWorker) (pend lds : list (string * TransferSpec)) : Prop := {
  k_stored : dom (_reqs_being_stored c) = dom (_store_jobs w) ∪ list_to_set pend.*1;
  k_loaded : dom (_reqs_being_loaded c) = dom (_load_job w) ∪ list_to_set lds.*1;
  k_lds : NoDup lds.*1;
  k_fresh id : id ∈ lds.*1 → _load_job w !! id = None;
  k_pend id : id ∈ pend.*1 → id ∈ _requests c;
  k_waiting id : id ∈ _finished_reqs_waiting_for_store w → (id ∉ _requests c) ∧ ∃ J, _store_jobs w !! id = Some J ∧ J ≠ ∅;
}.

(** The data of a block that is to be stored. *)
Definition to_be_computed (c : OffloadingConnectorScheduler M) (os : gmap string Request) (id : string) (b : Z) (d : bytes) : Prop :=
  ∃ r l n (i : nat), os !! id = Some r ∧ _request_block_ids c !! id = Some l ∧ _next_stored_block_idx c !! id = Some n
    ∧ l !! i = Some b ∧ block_hashes r !! i = Some d ∧ Z.of_nat i < n * f.

Definition pending (w : cworld M) : list (string * TransferSpec) := match bound w with Some meta => reqs_to_store meta | None => [] end.

Definition cinv (w : cworld M) : Prop := ∃ D S own held sq lq,
  sched_inv (sch w) (objs w) D S own held ∧ keys_inv (sch w) (cw (mac w)) (pending w) (_reqs_to_load (sch w))
  ∧ jobs_inv (cw (mac w)) sq lq ∧ ow (mac w) = handlers sq lq
  ∧ data_inv D S ∅ own held (objs w) (to_be_computed (sch w) (objs w)) (pending w) (_reqs_to_load (sch w)) (cw (mac w)) sq lq (mems (mac w)).
End scheduler.
End invariant.

Arguments d_own {group f D S X own held os lab pend lds w sq lq m} _.
Arguments d_disjoint {group f D S X own held os lab pend lds w sq lq m} _.
Arguments d_held {group f D S X own held os lab pend lds w sq lq m} _.
Arguments d_flushed {group f D S X own held os lab pend lds w sq lq m} _.
Arguments d_mem {group f D S X own held os lab pend lds w sq lq m} _.
Arguments d_out {group f D S X own held os lab pend lds w sq lq m} _.
Arguments d_pend {group f D S X own held os lab pend lds w sq lq m} _.
Arguments d_cover {group f D S X own held os lab pend lds w sq lq m} _.
Arguments d_sources {group f D S X own held os lab pend lds w sq lq m} _.
Arguments d_targets {group f D S X own held os lab pend lds w sq lq m} _.
Arguments d_stores {group f D S X own held os lab pend lds w sq lq m} _.
Arguments d_lds {group f D S X own held os lab pend lds w sq lq m} _.
Arguments d_loads {group f D S X own held os lab pend lds w sq lq m} _.
Arguments j_nodup {w sq lq} _.
Arguments j_counter {w sq lq} _.
Arguments j_store {w sq lq} _.
Arguments j_load {w sq lq} _.
Arguments j_of {w sq lq} _.
Arguments j_ljob {w sq lq} _.
Arguments s_factor {group gbs f M _ _ c os D S own held} _.
Arguments s_gbs {group gbs f M _ _ c os D S own held} _.
Arguments s_obs {group gbs f M _ _ c os D S own held} _.
Arguments s_rel {group gbs f M _ _ c os D S own held} _.
Arguments s_stored {group gbs f M _ _ c os D S own held} _.
Arguments s_loaded {group gbs f M _ _ c os D S own held} _.
Arguments s_union {group gbs f M _ _ c os D S own held} _.
Arguments s_blocks {group gbs f M _ _ c os D S own held} _.
Arguments s_objs {group gbs f M _ _ c os D S own held} _.
Arguments s_hashed {group gbs f M _ _ c os D S own held} _.
Arguments s_next {group gbs f M _ _ c os D S own held} _.
Arguments k_stored {M c w pend lds} _.
Arguments k_loaded {M c w pend lds} _.
Arguments k_lds {M c w pend lds} _.
Arguments k_fresh {M c w pend lds} _.
Arguments k_pend {M c w pend lds} _.
Arguments k_waiting {M c w pend lds} _.
