(* ===== verification/ConnectorData.v ===== *)
(** * Transfers keep the data of the offloading connector

    A store writes only to slots that nothing else uses, a load only to device blocks
    that wait for it, and each leaves in its destinations the data it was made for. *)

From S2P Require Import Prelude Request Transfers Connector ConnectorLaws ConnectorInv.
#[local] Open Scope Z_scope.

Section data.
Context (group : bytes → list bytes) (f : Z) (Hf : 0 < f).
Context (D S : entries) (X own held : holding) (os : gmap string Request) (lab : string → Z → bytes → Prop).
Context (pend lds : list (string * TransferSpec)) (w : OffloadingConnectorWorker).
Context (Hinj : ∀ h h' s s', (h, s) ∈ D → (h', s') ∈ D → h = h' ↔ s = s') (HS : S ⊆ D).
Abbreviation data := (data_inv group f D S X own held os lab pend lds w).

(** The entries that a request stores or stored are resident. *)
Lemma stored_resident sq lq m id x : data sq lq m → x ∈ part own id ∪ part X id → x ∈ D ∧ (x ∈ S ∨ x ∈ part X id).
Proof.
  intros Hd [Hx|Hx]%elem_of_union.
  - apply (d_own Hd) in Hx. split; [by apply HS|by left].
  - split; [by apply (d_flushed Hd) in Hx as [? _]|by right].
Qed.

Lemma holds_ext (c c' : Mem) h s : 0 < f → (∀ i, 0 ≤ i < f → c' !! (s * f + i) = c !! (s * f + i)) → holds group f c h s → holds group f c' h s.
Proof. intros _ He Hh i d Hi Hd. rewrite He by lia. by apply Hh. Qed.

(** The destinations of a store are the sub-blocks of its slots. *)
Lemma store_dst t x : store_transfer f t → x ∈ (t_copies t).*2 → ∃ s i, s ∈ spec_block_ids (t_spec t).2 ∧ 0 ≤ i < f ∧ x = s * f + i.
Proof.
  intros -> ([a b] & -> & Hab)%list_elem_of_fmap. apply elem_of_zip_r in Hab. cbn in Hab. by apply subblocks_elem in Hab.
Qed.

Lemma store_slot sq lq m t id s :
  data sq lq m → t ∈ sq → t_done t = false → _jobs w !! t_job_id t = Some (id, true) → s ∈ spec_block_ids (t_spec t).2 →
  ∃ h, (h, s) ∈ part own id ∪ part X id.
Proof.
  intros Hd Ht Hu Hj Hs. destruct (d_out Hd id (t_spec t)) as (srcs & slots & E & _ & Hk).
  { exists (t_job_id t). split; [done|]. right. by exists t. }
  rewrite E in Hs. cbn in Hs. apply list_elem_of_lookup in Hs as (k & Hs). destruct (Hk k s Hs) as (h & Hh & _). by exists h.
Qed.

(** A store that is not finished may leave anything in its slots. *)
Lemma store_partial sq lq m t id (c' : Mem) :
  data sq lq m → t ∈ sq → t_done t = false → _jobs w !! t_job_id t = Some (id, true) →
  (∀ x, x ∉ (t_copies t).*2 → c' !! x = cpu m !! x) → data sq lq (mkMemories (gpu m) c').
Proof.
  intros Hd Ht Hu Hj Hc. pose proof (λ s, store_slot sq lq m t id s Hd Ht Hu Hj) as Hslot.
  assert (∀ h s, (h, s) ∈ D → s ∉ spec_block_ids (t_spec t).2 → holds group f (cpu m) h s → holds group f c' h s) as Hkeep.
  { intros h s HD Hs. apply holds_ext; [done|]. intros i Hi. apply Hc. intros (s' & i' & Hs' & Hi' & E)%store_dst; [|by apply (d_stores Hd)].
    apply subblock_inj in E as [-> _]; done. }
  pose proof (λ id x, stored_resident sq lq m id x Hd) as Hres.
  destruct Hd as [d1 d1' d2 d3 d4 d5 d6 d7 d8 d9 d10 d11 d12]. split; try done.
  - intros h s HD HnS HnX. apply Hkeep; [done| |by apply d4]. intros (h' & Hh')%Hslot. destruct (Hres _ _ Hh') as [HD' Hor].
    assert (h = h') as -> by (by apply (Hinj h h' s s)). destruct Hor; [done|by apply (HnX id)].
  - intros id' h s Hx. destruct (Hres _ _ Hx) as [HD _]. destruct (decide (s ∈ spec_block_ids (t_spec t).2)) as [Hs|Hs].
    + right. destruct (Hslot s Hs) as (h' & Hh'). destruct (Hres _ _ Hh') as [HD' _]. assert (h = h') as <- by (by apply (Hinj h h' s s)).
      rewrite (d1' id' id _ Hx Hh'). exists (t_spec t). split; [|done]. left. exists (t_job_id t). split; [done|]. right. by exists t.
    + destruct (d7 id' h s Hx) as [Hh|Hh]; [left; by apply Hkeep|by right].
Qed.

(** The stores still to be carried out when one has ended. *)
Lemma out_done l1 t l2 id s : out w (l1 ++ set_done t :: l2) id s → out w (l1 ++ t :: l2) id s.
Proof.
  intros (j & Hj & [Hs|(t' & Ht & E1 & E2 & Hu)]); exists j; (split; [done|]); [by left|]. right. exists t'. split; [|done].
  rewrite elem_of_app, elem_of_cons in Ht |- *. destruct Ht as [Ht|[->|Ht]]; [by left| |auto]. done.
Qed.

Lemma done_out l1 t l2 id s : out w (l1 ++ t :: l2) id s → out w (l1 ++ set_done t :: l2) id s ∨ (_jobs w !! t_job_id t = Some (id, true) ∧ s = t_spec t).
Proof.
  intros (j & Hj & [Hs|(t' & Ht & E1 & E2 & Hu)]); [left; exists j; split; [done|by left]|].
  rewrite elem_of_app, elem_of_cons in Ht. destruct Ht as [Ht|[->|Ht]].
  - left. exists j. split; [done|]. right. exists t'. split; [|done]. rewrite elem_of_app. by left.
  - right. by subst.
  - left. exists j. split; [done|]. right. exists t'. split; [|done]. rewrite elem_of_app, elem_of_cons. auto.
Qed.

(** A store ends when its slots hold the data. *)
Lemma store_ended l1 t l2 lq m :
  data (l1 ++ t :: l2) lq m →
  (∀ id h s, _jobs w !! t_job_id t = Some (id, true) → (h, s) ∈ part own id ∪ part X id → s ∈ spec_block_ids (t_spec t).2 → holds group f (cpu m) h s) →
  data (l1 ++ set_done t :: l2) lq m.
Proof.
  intros [d1 d1' d2 d3 d4 d5 d6 d7 d8 d9 d10 d11 d12] He. split; try done.
  - intros id s Ho. by apply d5, out_done.
  - intros id h s Hx. destruct (d7 id h s Hx) as [Hh|(sp & Hsp & Hs)]; [by left|]. destruct Hsp as [[Ho|[Hj ->]]%done_out|Hp].
    + right. exists sp. auto.
    + left. by apply (He id).
    + right. exists sp. auto.
  - intros id s b [Ho%out_done|Hp]; eauto.
  - intros t' Ht. rewrite elem_of_app, elem_of_cons in Ht. destruct Ht as [Ht|[->|Ht]]; [apply d10|apply (d10 t)|apply d10]; rewrite elem_of_app, elem_of_cons; auto.
Qed.

(** A store is carried out. *)
Lemma store_run l1 t l2 lq m id :
  data (l1 ++ t :: l2) lq m → t_done t = false → _jobs w !! t_job_id t = Some (id, true) →
  data (l1 ++ set_done t :: l2) lq (run_transfer true t m).
Proof.
  intros Hd Hu Hj. assert (t ∈ l1 ++ t :: l2) as Ht by (apply elem_of_app; right; by left). apply store_ended.
  - apply (store_partial _ _ _ t id); [done..|]. intros x Hx. by apply swap_blocks_other.
  - intros id' h s Hj' Hx Hs. simplify_eq. destruct (stored_resident _ _ _ _ _ Hd Hx) as [HD _]. intros i d Hi Hg.
    pose proof (d_stores Hd t Ht) as Hc. destruct (d_out Hd id (t_spec t)) as (srcs & slots & E & Hl & Hk).
    { exists (t_job_id t). split; [done|]. right. by exists t. }
    unfold store_transfer in Hc. rewrite E in Hc, Hs. cbn in Hc, Hs. cbn. unfold zlen in Hl.
    assert (∀ k, slots !! k = Some s → ∃ b, srcs !! (k * Z.to_nat f + i)%nat = Some b ∧ gpu m !! b = Some d) as Hsrc.
    { intros k Hk'. destruct (Hk k s Hk') as (h' & Hh' & Hlab). destruct (stored_resident _ _ _ _ _ Hd Hh') as [HD' _].
      assert (h = h') as <- by (by apply (Hinj h h' s s)). by apply Hlab. }
    assert (∀ k b, slots !! k = Some s → srcs !! (k * Z.to_nat f + i)%nat = Some b → (b, s * f + Z.of_nat i) ∈ t_copies t) as Hin.
    { intros k b Hk' Hb. rewrite Hc. apply list_elem_of_lookup. exists (k * Z.to_nat f + i)%nat. apply lookup_zip_Some. split; [done|].
      apply subblocks_lookup; [done|]. by exists k, i, s. }
    apply swap_blocks_at.
    + intros a Ha. rewrite Hc in Ha. apply list_elem_of_lookup in Ha as (n & [Ha Hn]%lookup_zip_Some).
      apply subblocks_lookup in Hn as (k & i' & s' & -> & Hi' & Hk' & E'); [|done]. apply subblock_inj in E' as [<- ?]; [|lia..].
      assert (i' = i) as -> by lia. destruct (Hsrc k Hk') as (b & Hb & Hd'). by simplify_eq.
    + apply list_elem_of_lookup in Hs as (k & Hk'). destruct (Hsrc k Hk') as (b & Hb & _). apply (list_elem_of_fmap_2 snd _ (b, _)). by apply (Hin k).
Qed.

(** ** Loads *)

(** Device blocks change that no store reads and no load has written. *)
Lemma gpu_change sq lq m (g' : Mem) :
  data sq lq m →
  (∀ x, g' !! x = gpu m !! x ∨ ((∀ id s, out w sq id s → x ∉ spec_block_ids s.1) ∧ ∀ t, t ∈ lq → t_done t = true → x ∉ spec_block_ids (t_spec t).2)) →
  data sq lq (mkMemories g' (cpu m)).
Proof.
  intros [d1 d1' d2 d3 d4 d5 d6 d7 d8 d9 d10 d11 d12] Hg. split; try done.
  - intros id s Ho. destruct (d5 id s Ho) as (srcs & slots & -> & Hl & Hk). exists srcs, slots. split_and!; [done|done|]. intros k sl Hsl.
    destruct (Hk k sl Hsl) as (h & Hh & Hlab). exists h. split; [done|]. intros i d Hi Hd. destruct (Hlab i d Hi Hd) as (b & Hb & E). exists b. split; [done|].
    cbn. destruct (Hg b) as [->|[Hn _]]; [done|]. destruct (Hn id _ Ho). by eapply list_elem_of_lookup_2.
  - intros t id Ht Hj. destruct (d12 t id Ht Hj) as (r & Hr & slots & ids & k0 & E1 & E2 & E3 & Hdone). exists r. split; [done|].
    exists slots, ids, k0. split_and!; [done..|]. intros Hd n b d Hb Hh. cbn. destruct (Hg b) as [->|[_ Hn]]; [by apply (Hdone Hd n)|].
    destruct (Hn t Ht Hd). rewrite E1. cbn. by eapply list_elem_of_lookup_2.
Qed.

Lemma concat_apart {A B} (F : A → list B) l1 a l2 a' b :
  NoDup (concat (F <$> l1 ++ a :: l2)) → a' ∈ l1 ++ l2 → b ∈ F a → b ∉ F a'.
Proof.
  rewrite fmap_app, concat_app, fmap_cons. cbn. intros (_ & H1 & (_ & H2 & _)%NoDup_app)%NoDup_app Hin Hb Hb'.
  assert (∀ l, a' ∈ l → b ∈ concat (F <$> l)) as Hc.
  { intros l Hl. induction l as [|y l IH]; [by apply elem_of_nil in Hl|]. cbn. apply elem_of_app. apply elem_of_cons in Hl as [->|Hl]; auto. }
  apply elem_of_app in Hin as [Hin|Hin]; [|by apply (H2 b); auto]. apply (H1 b); [by apply Hc|]. apply elem_of_app. by left.
Qed.

(** The destinations of a load are its device blocks. *)
Lemma load_dst hashes E g t x : load_transfer group f hashes E g t → x ∈ (t_copies t).*2 → x ∈ spec_block_ids (t_spec t).2.
Proof.
  intros (slots & ids & k0 & -> & _ & -> & _) ([a b] & -> & Hab)%list_elem_of_fmap. by apply elem_of_zip_r in Hab.
Qed.

(** A load that is not finished may leave anything in its device blocks. *)
Lemma load_partial sq l1 t l2 m id (g' : Mem) :
  data sq (l1 ++ t :: l2) m → t_done t = false → _jobs w !! t_job_id t = Some (id, false) →
  (∀ x, x ∉ (t_copies t).*2 → g' !! x = gpu m !! x) → data sq (l1 ++ t :: l2) (mkMemories g' (cpu m)).
Proof.
  intros Hd Hu Hj Hg. assert (t ∈ l1 ++ t :: l2) as Ht by (apply elem_of_app; right; by left). apply gpu_change; [done|]. intros x.
  destruct (decide (x ∈ (t_copies t).*2)) as [Hx|Hx]; [right|left; by apply Hg].
  destruct (d_loads Hd t id Ht Hj) as (r & _ & Hl). apply (load_dst _ _ _ _ _ Hl) in Hx. split.
  - intros id' s Ho Hs. apply (d_sources Hd id' s x) in Hs; [|by left]. apply Hs. apply elem_of_app. left. rewrite fmap_app, concat_app. cbn. rewrite !elem_of_app. auto.
  - intros t' Ht' Hd'. apply (concat_apart (λ t, spec_block_ids (t_spec t).2) l1 t l2); [|rewrite elem_of_app, elem_of_cons in Ht'; rewrite elem_of_app|done].
    + pose proof (d_targets Hd) as Hnd. by apply NoDup_app in Hnd as [? _].
    + destruct Ht' as [?|[->|?]]; [by left| |by right]. congruence.
Qed.

Lemma targets_same (l1 : list Transfer) t l2 :
  (λ t, spec_block_ids (t_spec t).2) <$> l1 ++ set_done t :: l2 = (λ t, spec_block_ids (t_spec t).2) <$> l1 ++ t :: l2.
Proof. by rewrite !fmap_app. Qed.

(** A load ends when its device blocks hold the data. *)
Lemma load_ended sq l1 t l2 m id hashes slots ids k0 :
  data sq (l1 ++ t :: l2) m → _jobs w !! t_job_id t = Some (id, false) →
  block_hashes <$> os !! id = Some hashes → t_spec t = load_spec slots ids k0 →
  (∀ n b d, ids !! n = Some b → hashes !! (Z.to_nat k0 + n)%nat = Some d → gpu m !! b = Some d) →
  data sq (l1 ++ set_done t :: l2) m.
Proof.
  intros [d1 d1' d2 d3 d4 d5 d6 d7 d8 d9 d10 d11 d12] Hj Hh Hs He. split; try done; rewrite ?targets_same; [done..|].
  intros t' id' Ht Hj'. rewrite elem_of_app, elem_of_cons in Ht. destruct Ht as [Ht|[->|Ht]]; [apply d12; [|done]; rewrite elem_of_app; auto| |].
  - cbn in Hj'. simplify_eq. destruct (d12 t id) as (r & Hr & slots' & ids' & k0' & E1 & E2 & E3 & _); [rewrite elem_of_app, elem_of_cons; auto|done|].
    exists r. split; [done|]. exists slots', ids', k0'. split_and!; [done..|]. intros _. rewrite Hr in Hh. cbn in Hh. unfold load_spec in *. rewrite E1 in Hs. by simplify_eq.
  - apply d12; [|done]. rewrite elem_of_app, elem_of_cons. auto.
Qed.

(** What a load copies into a device block is the data of that block of the request. *)
Lemma load_copy sq lq m id hashes slots ids k0 n a b d :
  data sq lq m → load_ok group f hashes (part held id) slots ids k0 →
  zip (drop (Z.to_nat (k0 `mod` f)) (subblocks f slots)) ids !! n = Some (a, b) → hashes !! (Z.to_nat k0 + n)%nat = Some d → cpu m !! a = Some d.
Proof.
  intros Hd (Hk0 & Hl & Hk) [Ha Hb]%lookup_zip_Some Hh. rewrite lookup_drop in Ha. apply subblocks_lookup in Ha as (k & i & s & En & Hi & Hs & ->); [|done].
  destruct (Hk k s i Hs Hi) as (h & d' & Hx & Hg & Hd'). destruct (d_held Hd id (h, s) Hx) as (HD & HnS & HnX).
  apply (d_mem Hd h s HD HnS HnX i d Hi). rewrite Hg. rewrite <- Hh, <- Hd'. f_equal.
  pose proof (Z.div_mod k0 f ltac:(lia)). pose proof (Z.mod_pos_bound k0 f Hf). pose proof (Z.div_pos k0 f Hk0 Hf). nia.
Qed.

(** A load is carried out. *)
Lemma load_run sq l1 t l2 m id :
  data sq (l1 ++ t :: l2) m → t_done t = false → _jobs w !! t_job_id t = Some (id, false) →
  data sq (l1 ++ set_done t :: l2) (run_transfer false t m).
Proof.
  intros Hd Hu Hj. assert (t ∈ l1 ++ t :: l2) as Ht by (apply elem_of_app; right; by left).
  destruct (d_loads Hd t id Ht Hj) as (r & Hr & slots & ids & k0 & E1 & E2 & E3 & _).
  apply (load_ended _ _ _ _ _ id (block_hashes r) slots ids k0); [|done|by rewrite Hr|done|].
  - apply (load_partial _ _ _ _ _ id); [done..|]. intros x Hx. by apply swap_blocks_other.
  - assert (NoDup ids) as Hnd.
    { pose proof (d_targets Hd) as (Hn & _)%NoDup_app. rewrite fmap_app, concat_app, fmap_cons, E1 in Hn. cbn in Hn. apply NoDup_app in Hn as (_ & _ & Hn). by apply NoDup_app in Hn as [? _]. }
    assert (length (drop (Z.to_nat (k0 `mod` f)) (subblocks f slots)) = length ids) as Hlen.
    { destruct E2 as (Hk0 & Hl & _). rewrite length_drop, length_subblocks. unfold zlen in Hl. pose proof (Z.mod_pos_bound k0 f Hf). nia. }
    intros n b d Hb Hh. cbn. destruct (lookup_lt_is_Some_2 (drop (Z.to_nat (k0 `mod` f)) (subblocks f slots)) n) as [a Ha]; [rewrite Hlen; by eapply lookup_lt_Some|].
    assert ((zip (drop (Z.to_nat (k0 `mod` f)) (subblocks f slots)) ids) !! n = Some (a, b)) as Hz by (by apply lookup_zip_Some).
    apply swap_blocks_at.
    + intros a' Ha'. rewrite E3 in Ha'. apply list_elem_of_lookup in Ha' as (n' & Hn'). assert (n' = n) as ->; [|by eapply load_copy].
      apply lookup_zip_Some in Hn' as [_ Hn']. by eapply NoDup_lookup.
    + rewrite E3. apply (list_elem_of_fmap_2 snd _ (a, b)). by eapply list_elem_of_lookup_2.
Qed.
End data.
