(* ===== verification/ConnectorWorker.v ===== *)
(** * The worker side of the offloading connector

    The worker's operations keep the jobs and the data of the connector: submission of
    the stores, waiting for preempted requests, the start of the loads and the collection
    of the transfers that have ended. *)

From S2P Require Import Prelude Request Transfers Connector ConnectorLaws ConnectorWorld ConnectorInv ConnectorData.
#[local] Open Scope Z_scope.

Section worker.
Context `{PyRuntime} (group : bytes → list bytes) (f : Z) (Hf : 0 < f).
Implicit Types (w : OffloadingConnectorWorker) (m : Memories) (sq lq : list Transfer).

(** ** Handlers *)

Lemma handlers_stores sq lq : handlers f sq lq !! STORES = Some (mkHandler true 1 f sq).
Proof. apply lookup_insert_eq. Qed.
Lemma handlers_loads sq lq : handlers f sq lq !! LOADS = Some (mkHandler false f 1 lq).
Proof. unfold handlers. rewrite lookup_insert_ne by done. apply lookup_insert_eq. Qed.
Lemma set_stores sq lq l : <[STORES := mkHandler true 1 f l]> (handlers f sq lq) = handlers f l lq.
Proof. unfold handlers. by rewrite insert_insert_eq. Qed.
Lemma set_loads sq lq l : <[LOADS := mkHandler false f 1 l]> (handlers f sq lq) = handlers f sq l.
Proof. unfold handlers. by rewrite insert_insert_ne, insert_insert_eq. Qed.

Lemma handlers_iter sq lq : set_iter (dom (handlers f sq lq)) = [STORES; LOADS] ∨ set_iter (dom (handlers f sq lq)) = [LOADS; STORES].
Proof.
  clear Hf. assert (set_iter (dom (handlers f sq lq)) ≡ₚ [STORES; LOADS]) as Hp.
  { rewrite set_iter_perm. unfold handlers. rewrite !dom_insert_L, dom_empty_L, (right_id_L ∅ (∪)). rewrite elements_union_singleton by set_solver.
    by rewrite elements_singleton. }
  symmetry in Hp. by apply Permutation_length_2_inv in Hp.
Qed.

(** ** Jobs *)

Lemma jobs_same w sq lq sq' lq' : t_job_id <$> sq' = t_job_id <$> sq → t_job_id <$> lq' = t_job_id <$> lq → jobs_inv w sq lq → jobs_inv w sq' lq'.
Proof. intros E1 E2 [j1 j2 j3 j4 j5 j6]. split; rewrite ?E1, ?E2; done. Qed.

Lemma progress_jobs dir s s' : rtc (progress dir) s s' → t_job_id <$> s'.1 = t_job_id <$> s.1.
Proof.
  induction 1 as [s|s1 s2 s3 H1 _ IH]; [done|]. rewrite IH. pose proof (progress_same _ _ _ H1) as E.
  apply (f_equal (fmap (λ x : Z * TransferSpec * list (Z * Z), x.1.1))) in E. by rewrite <- !list_fmap_compose in E.
Qed.

Lemma job_of_store w sq lq t : jobs_inv w sq lq → t ∈ sq → ∃ id, _jobs w !! t_job_id t = Some (id, true).
Proof. intros Hj Ht. apply (j_store Hj). apply elem_of_app. right. by apply list_elem_of_fmap_2. Qed.
Lemma job_of_load w sq lq t : jobs_inv w sq lq → t ∈ lq → ∃ id, _jobs w !! t_job_id t = Some (id, false).
Proof. intros Hj Ht. apply (j_load Hj). by apply list_elem_of_fmap_2. Qed.

(** ** Progress *)

Section scheduled.
Context (D S : entries) (own held : holding) (os : gmap string Request) (lab : string → Z → bytes → Prop).
Context (Hinj : ∀ h h' s s', (h, s) ∈ D → (h', s') ∈ D → h = h' ↔ s = s') (HS : S ⊆ D).

(** The state of the worker under a given state of the scheduler. *)
Definition machine_inv (X : holding) (pend lds : list (string * TransferSpec)) w sq lq m : Prop :=
  jobs_inv w sq lq ∧ data_inv group f D S X own held os lab pend lds w sq lq m.

Lemma stores_progress X pend lds w sq lq m s' :
  machine_inv X pend lds w sq lq m → rtc (progress true) (sq, m) s' → machine_inv X pend lds w s'.1 lq s'.2.
Proof.
  intros Hm Hp. remember (sq, m) as s eqn:Es. assert (machine_inv X pend lds w s.1 lq s.2) as H' by (by subst). clear Hm Es.
  induction Hp as [s|s1 s2 s3 H1 _ IH]; [done|]. apply IH. destruct H' as [Hj Hd]. destruct H1 as [l1 t l2 m' Hu]. cbn in *.
  destruct (job_of_store _ _ _ t Hj) as [id Hid]; [set_solver|]. split; [|by eapply store_run].
  by apply (jobs_same w (l1 ++ t :: l2) lq); rewrite ?fmap_app.
Qed.

Lemma loads_progress X pend lds w sq lq m s' :
  machine_inv X pend lds w sq lq m → rtc (progress false) (lq, m) s' → machine_inv X pend lds w sq s'.1 s'.2.
Proof.
  intros Hm Hp. remember (lq, m) as s eqn:Es. assert (machine_inv X pend lds w sq s.1 s.2) as H' by (by subst). clear Hm Es.
  induction Hp as [s|s1 s2 s3 H1 _ IH]; [done|]. apply IH. destruct H' as [Hj Hd]. destruct H1 as [l1 t l2 m' Hu]. cbn in *.
  destruct (job_of_load _ _ _ t Hj) as [id Hid]; [set_solver|]. split; [|by eapply load_run].
  by apply (jobs_same w sq (l1 ++ t :: l2)); rewrite ?fmap_app.
Qed.

(** Waiting for jobs. *)
Lemma wait_ok X pend lds w sq lq m J :
  machine_inv X pend lds w sq lq m →
  ∃ sq' lq' m', ow_wait J (handlers f sq lq, m) = (handlers f sq' lq', m') ∧ machine_inv X pend lds w sq' lq' m'
    ∧ ∀ t, t ∈ sq' → t_job_id t ∈ J → t_done t = true.
Proof.
  intros Hm. unfold ow_wait. cbn [fst]. destruct (handlers_iter sq lq) as [-> | ->]; cbn [foldl fst snd].
  - rewrite handlers_stores. cbn [gpu_to_cpu transfers fst snd]. destruct (synchronize true J sq m) as [sq' m1] eqn:E1. pose proof (synchronize_progress true J sq m) as P1. rewrite E1 in P1.
    pose proof (stores_progress _ _ _ _ _ _ _ _ Hm P1) as Hm1. unfold set_transfers. cbn [gpu_to_cpu src_block_size_factor dst_block_size_factor fst snd]. rewrite set_stores, handlers_loads. cbn [gpu_to_cpu transfers fst snd].
    destruct (synchronize false J lq m1) as [lq' m2] eqn:E2. pose proof (synchronize_progress false J lq m1) as P2. rewrite E2 in P2.
    pose proof (loads_progress _ _ _ _ _ _ _ _ Hm1 P2) as Hm2. cbn [gpu_to_cpu src_block_size_factor dst_block_size_factor fst snd]. rewrite set_loads. exists sq', lq', m2. split_and!; [done|done|].
    intros t Ht. pose proof (synchronize_done true J sq m t) as Hd. rewrite E1 in Hd. by apply Hd.
  - rewrite handlers_loads. cbn [gpu_to_cpu transfers fst snd]. destruct (synchronize false J lq m) as [lq' m1] eqn:E1. pose proof (synchronize_progress false J lq m) as P1. rewrite E1 in P1.
    pose proof (loads_progress _ _ _ _ _ _ _ _ Hm P1) as Hm1. unfold set_transfers. cbn [gpu_to_cpu src_block_size_factor dst_block_size_factor fst snd]. rewrite set_loads, handlers_stores. cbn [gpu_to_cpu transfers fst snd].
    destruct (synchronize true J sq m1) as [sq' m2] eqn:E2. pose proof (synchronize_progress true J sq m1) as P2. rewrite E2 in P2.
    pose proof (stores_progress _ _ _ _ _ _ _ _ Hm1 P2) as Hm2. cbn [gpu_to_cpu src_block_size_factor dst_block_size_factor fst snd]. rewrite set_stores. exists sq', lq', m2. split_and!; [done|done|].
    intros t Ht. pose proof (synchronize_done true J sq m1 t) as Hd. rewrite E2 in Hd. by apply Hd.
Qed.

(** ** Stores *)

(** The data depends on the stores that are still to be carried out, and on the requests
    of the loads. *)
Lemma data_same X pend lds w w' sq sq' lq m :
  data_inv group f D S X own held os lab pend lds w sq lq m →
  (∀ id s, out w' sq' id s ↔ out w sq id s) → (∀ t, t ∈ sq' → store_transfer f t) →
  (∀ t id, t ∈ lq → _jobs w' !! t_job_id t = Some (id, false) → _jobs w !! t_job_id t = Some (id, false)) →
  data_inv group f D S X own held os lab pend lds w' sq' lq m.
Proof.
  intros [d1 d1' d2 d3 d4 d5 d6 d7 d8 d9 d10 d11 d12] Ho Hs Hj. split; try done.
  - intros id s Hx%Ho. by apply d5.
  - intros id h s Hx. destruct (d7 id h s Hx) as [?|(sp & [Hsp|Hsp] & ?)]; [by left|right; exists sp; split; [left; by apply Ho|done]|right; exists sp; auto].
  - intros id s b [Hx%Ho|Hx]; eauto.
  - intros t id Ht Hjob. by apply d12, Hj.
Qed.

Lemma submit_ok X pend lds w j s rest sq lq m :
  _unsubmitted_store_jobs w = (j, s) :: rest → machine_inv X pend lds w sq lq m →
  ∃ t, (∀ w0, submit (mkMachine w0 (handlers f sq lq) m) (j, s) = Ok (mkMachine w0 (handlers f (sq ++ [t]) lq) m))
    ∧ machine_inv X pend lds (with_unsubmitted w rest) (sq ++ [t]) lq m.
Proof.
  intros Hu [Hj Hd]. destruct (proj1 (j_store Hj j)) as [id Hid]; [rewrite Hu; by left|].
  assert (out w sq id s) as Ho by (exists j; split; [done|]; left; rewrite Hu; by left).
  destruct (d_out Hd id s Ho) as (srcs & slots & Es & Hl & _). set (t := mkTransfer j s (zip srcs (subblocks f slots)) false). exists t. split; [|split].
  - intros w0. unfold submit, ow_transfer_async. cbn [fst snd ow]. rewrite Es at 1 2. cbn [fst snd medium]. change ("GPU", "CPU") with STORES. rewrite handlers_stores.
    unfold handler_transfer_async. rewrite Es at 1 2. cbn [fst snd spec_block_ids]. rewrite store_copies by done. cbn [mbind res_bind]. unfold with_ow. cbn [cw mems].
    unfold set_transfers. cbn [gpu_to_cpu src_block_size_factor dst_block_size_factor transfers]. rewrite Es at 1 2. cbn [fst snd medium]. change ("GPU", "CPU") with STORES. by rewrite set_stores.
  - destruct Hj as [j1 j2 j3 j4 j5 j6]. split; try done; cbn [with_unsubmitted _unsubmitted_store_jobs _jobs]; rewrite Hu in *; cbn [fmap list_fmap fst] in *.
    + rewrite fmap_app. cbn. rewrite <- (app_assoc _ [j]). cbn. rewrite <- Permutation_middle. by rewrite <- Permutation_middle.
    + intros k. rewrite <- j3. rewrite fmap_app. cbn. rewrite !elem_of_app, !elem_of_cons, elem_of_app, elem_of_nil. tauto.
  - apply (data_same X pend lds w _ sq); [done| | |done].
    + intros id' s'. unfold out. cbn [with_unsubmitted _unsubmitted_store_jobs _jobs]. rewrite Hu. setoid_rewrite elem_of_cons. setoid_rewrite elem_of_app. setoid_rewrite elem_of_cons. split.
      * intros (k & Hk & [Hin|(t' & [Ht|[->|Ht%elem_of_nil]] & E1 & E2 & E3)]); [exists k; auto|exists k; split; [done|]; right; by exists t'| |done].
        exists k. split; [done|]. left. left. cbn in E1, E2. congruence.
      * intros (k & Hk & [[E|Hin]|(t' & Ht & E)]); exists k; (split; [done|]); [right; exists t; injection E as -> ->; auto|auto|right; exists t'; auto].
    + intros t' Ht. apply elem_of_app in Ht as [Ht|Ht]; [by apply (d_stores Hd)|]. apply list_elem_of_singleton in Ht as ->. unfold store_transfer, t. by rewrite Es.
Qed.

Lemma submit_all_ok X pend lds l w w0 sq lq m :
  machine_inv X pend lds (with_unsubmitted w l) sq lq m →
  ∃ sq', rfold submit (mkMachine w0 (handlers f sq lq) m) l = Ok (mkMachine w0 (handlers f sq' lq) m) ∧ machine_inv X pend lds (with_unsubmitted w []) sq' lq m.
Proof.
  revert sq. induction l as [|[j s] l IH]; intros sq Hm; [by exists sq|]. destruct (submit_ok X pend lds (with_unsubmitted w ((j, s) :: l)) j s l sq lq m eq_refl Hm) as (t & E & Hm').
  cbn [rfold]. rewrite E. cbn [mbind res_bind]. by apply IH.
Qed.

Lemma submit_stores_ok X pend lds w sq lq m :
  machine_inv X pend lds w sq lq m →
  ∃ sq', submit_stores (mkMachine w (handlers f sq lq) m) = Ok (mkMachine (with_unsubmitted w []) (handlers f sq' lq) m)
    ∧ machine_inv X pend lds (with_unsubmitted w []) sq' lq m.
Proof.
  intros Hm. unfold submit_stores. cbn [cw]. assert (with_unsubmitted w (_unsubmitted_store_jobs w) = w) as Ew by (by destruct w).
  destruct (submit_all_ok X pend lds (_unsubmitted_store_jobs w) w w sq lq m) as (sq' & -> & Hm'); [by rewrite Ew|]. by exists sq'.
Qed.

(** ** Waiting for preempted requests *)

Lemma part_delete (X : holding) id id' : part (delete id X) id' = if decide (id' = id) then ∅ else part X id'.
Proof. unfold part. case_decide; [subst; by rewrite lookup_delete_eq|by rewrite lookup_delete_ne]. Qed.

(** What a request stored is in its slots when none of its stores is left. *)
Lemma data_waited X pend lds w sq lq m id :
  data_inv group f D S X own held os lab pend lds w sq lq m → (∀ s, ¬ out w sq id s) → id ∉ pend.*1 →
  data_inv group f D S (delete id X) own held os lab pend lds w sq lq m.
Proof.
  clear Hinj HS Hf. intros [d1 d1' d2 d3 d4 d5 d6 d7 d8 d9 d10 d11 d12] Ho Hp.
  assert (∀ id' x, x ∈ part (delete id X) id' → x ∈ part X id') as Hsub by (intros id' x; rewrite part_delete; case_decide; [by intros ?%not_elem_of_empty|done]).
  split; try done.
  - intros a b x Ha Hb. apply (d1' a b x); set_solver.
  - intros a x Hx. destruct (d2 a x Hx) as (H1 & H2 & H3). split_and!; [done|done|]. intros b Hb%Hsub. by apply (H3 b).
  - intros a x Hx%Hsub. by apply (d3 a).
  - intros h s HD HS' HX. destruct (decide ((h, s) ∈ part X id)) as [Hin|Hn].
    + destruct (d7 id h s) as [?|(sp & [Hsp|Hsp] & _)]; [set_solver|done|by apply Ho in Hsp|]. destruct Hp. by apply (list_elem_of_fmap_2 fst _ (id, sp)).
    + apply d4; [done|done|]. intros a Ha. apply (HX a). rewrite part_delete. case_decide; [by subst|done].
  - intros a s Ha. pose proof (d5 a s Ha) as H'. rewrite part_delete. case_decide; [subst; by apply Ho in Ha|done].
  - intros a h s Hx. apply d7. set_solver.
Qed.

Lemma wait_for_request_ok X pend lds w sq lq m id :
  machine_inv X pend lds w sq lq m → _unsubmitted_store_jobs w = [] → id ∉ pend.*1 →
  ∃ sq' lq' m', wait_for_request (mkMachine w (handlers f sq lq) m) id = mkMachine w (handlers f sq' lq') m' ∧ machine_inv (delete id X) pend lds w sq' lq' m'.
Proof.
  intros Hm Hu Hp. unfold wait_for_request. cbn [cw ow mems].
  assert (∀ sq lq m J, machine_inv X pend lds w sq lq m → _store_jobs w !! id = Some J ∨ _store_jobs w !! id = None ∧ J = ∅ →
    (∀ t, t ∈ sq → t_job_id t ∈ J → t_done t = true) → machine_inv (delete id X) pend lds w sq lq m) as Hfin.
  { intros sq1 lq1 m1 J [Hj Hd] HJ Hdone. split; [done|]. apply data_waited; [done| |done]. intros s (j & Hjob & Hor). apply (j_of Hj) in Hjob as (J' & HJ' & Hin).
    rewrite Hu in Hor. destruct Hor as [?%elem_of_nil|(t & Ht & Hid & _ & Hun)]; [done|]. destruct HJ as [HJ|[HJ _]]; [|congruence]. rewrite HJ in HJ'. injection HJ' as <-. rewrite <- Hid in Hin. by rewrite (Hdone t Ht Hin) in Hun. }
  destruct (_store_jobs w !! id) as [J|] eqn:EJ.
  - case_bool_decide as He.
    + exists sq, lq, m. split; [done|]. apply (Hfin _ _ _ J); [done|by left|]. subst J. intros t _ Ht. by apply not_elem_of_empty in Ht.
    + destruct (wait_ok X pend lds w sq lq m J Hm) as (sq' & lq' & m' & -> & Hm' & Hd). exists sq', lq', m'. split; [done|]. apply (Hfin _ _ _ J); [done|by left|done].
  - exists sq, lq, m. split; [done|]. apply (Hfin _ _ _ ∅); [done|by right|]. intros t _ Ht. by apply not_elem_of_empty in Ht.
Qed.

Lemma waits_ok l X pend lds w sq lq m :
  machine_inv X pend lds w sq lq m → _unsubmitted_store_jobs w = [] → (∀ id, id ∈ l → id ∉ pend.*1) →
  ∃ sq' lq' m', foldl wait_for_request (mkMachine w (handlers f sq lq) m) l = mkMachine w (handlers f sq' lq') m'
    ∧ machine_inv (foldl (λ X id, delete id X) X l) pend lds w sq' lq' m'.
Proof.
  revert X sq lq m. induction l as [|id l IH]; intros X sq lq m Hm Hu Hp; [by exists sq, lq, m|]. cbn [foldl].
  destruct (wait_for_request_ok X pend lds w sq lq m id Hm Hu) as (sq1 & lq1 & m1 & -> & Hm1); [apply Hp; by left|].
  apply IH; [done|done|]. intros a Ha. apply Hp. by right.
Qed.

Lemma delete_all (l : list string) (X : holding) : (∀ id, is_Some (X !! id) → id ∈ l) → foldl (λ X id, delete id X) X l = ∅.
Proof.
  revert X. induction l as [|a l IH]; intros X Hl; cbn.
  - apply map_eq. intros id. rewrite lookup_empty. destruct (X !! id) eqn:E; [|done]. assert (id ∈ []) as ?%elem_of_nil by (apply Hl; by eexists). done.
  - apply IH. intros id [E He]. apply lookup_delete_Some in He as [Hne He]. assert (id ∈ a :: l) as Hin by (apply Hl; by eexists). by apply elem_of_cons in Hin as [->|?].
Qed.

(** ** Loads *)

Lemma start_load_ok X pend w id s rest sq lq m :
  machine_inv X pend ((id, s) :: rest) w sq lq m → _load_job w !! id = None →
  ∃ t, let w' := with_load_state (new_job w id false).2 (<[_job_counter w := (id, false)]> (_jobs w)) (<[id := _job_counter w]> (_load_job w)) in
    start_load (mkMachine w (handlers f sq lq) m) (id, s) = Ok (mkMachine w' (handlers f sq (lq ++ [t])) m)
    ∧ machine_inv X pend rest w' sq (lq ++ [t]) m.
Proof.
  intros [Hj Hd] Hl. destruct (d_lds Hd id s) as (r & slots & ids & k0 & Hr & Es & Hlo); [by left|].
  assert ((- zlen ids) `mod` f = k0 `mod` f) as Hmod.
  { destruct Hlo as (_ & -> & _). replace (- (zlen slots * f - k0 `mod` f)) with (k0 `mod` f + (- zlen slots) * f) by lia. rewrite Z_mod_plus_full. by apply Z.mod_mod; lia. }
  set (j := _job_counter w). assert (_jobs w !! j = None) as Hfresh.
  { destruct (_jobs w !! j) eqn:E; [|done]. assert (is_Some (_jobs w !! j)) as Hc%(j_counter Hj) by (by eexists). unfold j in Hc. lia. }
  set (t := mkTransfer j s (zip (drop (Z.to_nat (k0 `mod` f)) (subblocks f slots)) ids) false). exists t. cbn zeta.
  set (w' := with_load_state _ _ _). split; [|split].
  - unfold start_load, new_job. cbn [cw _load_job]. rewrite bool_decide_eq_true_2 by done. unfold submit, ow_transfer_async, with_cw. cbn [fst snd ow].
    rewrite Es at 1 2. cbn [fst snd medium load_spec]. change ("CPU", "GPU") with LOADS. rewrite handlers_loads. unfold handler_transfer_async.
    rewrite Es at 1 2. cbn [fst snd spec_block_ids load_spec]. rewrite load_copies, Hmod; [|done|rewrite Hmod; apply Hlo]. cbn [mbind res_bind]. unfold with_ow. cbn [cw mems].
    unfold set_transfers. cbn [gpu_to_cpu src_block_size_factor dst_block_size_factor transfers]. rewrite Es at 1 2. cbn [fst snd medium load_spec]. change ("CPU", "GPU") with LOADS. by rewrite set_loads.
  - destruct Hj as [j1 j2 j3 j4 j5 j6].
    assert (∀ k, k ∈ (_unsubmitted_store_jobs w).*1 ++ (t_job_id <$> sq) ++ (t_job_id <$> lq) → k ≠ j) as Hne.
    { intros k Hk ->. rewrite app_assoc in Hk. apply elem_of_app in Hk as [Hk|Hk]; [apply j3 in Hk as [? Hk]|apply j4 in Hk as [? Hk]]; congruence. }
    split; unfold w'; cbn [with_load_state new_job snd _unsubmitted_store_jobs _jobs _job_counter _store_jobs _load_job].
    + rewrite fmap_app. cbn. rewrite !app_assoc. apply NoDup_app. split_and!; [by rewrite <- app_assoc| |by apply NoDup_singleton].
      intros k Hk ->%list_elem_of_singleton. rewrite <- app_assoc in Hk. by apply Hne in Hk.
    + intros k. rewrite lookup_insert. case_decide; [unfold j; lia|]. intros Hk%j2. lia.
    + intros k. rewrite j3, lookup_insert. case_decide; [subst; split; [intros [? E]; congruence|intros [? E]; congruence]|done].
    + intros k. rewrite fmap_app, elem_of_app, j4. cbn. rewrite list_elem_of_singleton, lookup_insert. case_decide as E.
      * subst k. split; [intros _; by exists id|auto].
      * split; [intros [?|?]; [done|congruence]|auto].
    + intros k id'. rewrite <- j5, lookup_insert. case_decide; [subst; split; congruence|done].
    + intros k id'. rewrite (lookup_insert (_load_job w)), lookup_insert. case_decide as E1; case_decide as E2; subst; try congruence.
      * done.
      * rewrite <- j6. split; congruence.
      * rewrite j6. split; congruence.
      * apply j6.
  - destruct Hd as [d1 d1' d2 d3 d4 d5 d6 d7 d8 d9 d10 d11 d12].
    assert (∀ k b, k ≠ j → _jobs w' !! k = b ↔ _jobs w !! k = b) as Hjobs.
    { intros k b Hk. unfold w'. cbn [with_load_state _jobs]. by rewrite lookup_insert_ne. }
    assert (∀ id' s', out w' sq id' s' ↔ out w sq id' s') as Ho.
    { intros id' s'. unfold out, w'. cbn [with_load_state new_job snd _unsubmitted_store_jobs _jobs]. split; intros (k & Hk & Hor); exists k; (split; [|done]).
      - rewrite lookup_insert in Hk. by case_decide.
      - rewrite lookup_insert. case_decide; [subst; congruence|done]. }
    assert (concat ((λ t, spec_block_ids (t_spec t).2) <$> lq ++ [t]) ++ concat ((λ x : string * TransferSpec, spec_block_ids x.2.2) <$> rest)
      = concat ((λ t, spec_block_ids (t_spec t).2) <$> lq) ++ concat ((λ x : string * TransferSpec, spec_block_ids x.2.2) <$> (id, s) :: rest)) as Et.
    { rewrite fmap_app, concat_app. cbn. by rewrite app_nil_r, <- app_assoc. }
    split; rewrite ?Et; try done.
    + intros a b Hab%Ho. by apply d5.
    + intros a h b Hx. destruct (d7 a h b Hx) as [?|(sp & [Hsp|Hsp] & ?)]; [by left|right; exists sp; split; [left; by apply Ho|done]|right; exists sp; auto].
    + intros a b c [Hx%Ho|Hx]; eauto.
    + intros a b Hx. apply d11. by right.
    + intros t' a Ht. apply elem_of_app in Ht as [Ht|Ht].
      * assert (t_job_id t' ≠ j) as Hn. { intros E. apply (list_elem_of_fmap_2 t_job_id) in Ht. rewrite E in Ht. apply (j_load Hj) in Ht as [? ?]. congruence. }
        rewrite Hjobs by done. by apply d12.
      * apply list_elem_of_singleton in Ht as ->. cbn [t_job_id t]. unfold w'. cbn [with_load_state _jobs]. rewrite lookup_insert_eq. intros [= <-]. exists r. split; [done|].
        exists slots, ids, k0. done.
Qed.

Lemma start_loads_ok X pend l w sq lq m :
  machine_inv X pend l w sq lq m → NoDup l.*1 → (∀ id, id ∈ l.*1 → _load_job w !! id = None) →
  ∃ w' lq', rfold start_load (mkMachine w (handlers f sq lq) m) l = Ok (mkMachine w' (handlers f sq lq') m) ∧ machine_inv X pend [] w' sq lq' m
    ∧ dom (_load_job w') = dom (_load_job w) ∪ list_to_set l.*1 ∧ _store_jobs w' = _store_jobs w
    ∧ _finished_reqs_waiting_for_store w' = _finished_reqs_waiting_for_store w.
Proof.
  revert w lq. induction l as [|[id s] l IH]; intros w lq Hm Hnd Hl; [exists w, lq; split_and!; try done; cbn; set_solver|].
  apply NoDup_cons in Hnd as [Hid Hnd]. destruct (start_load_ok X pend w id s l sq lq m Hm) as (t & E & Hm1); [apply Hl; by left|].
  cbn [rfold]. rewrite E. cbn [mbind res_bind]. destruct (IH _ _ Hm1 Hnd) as (w' & lq' & E' & Hm' & Hdom & Hs & Hw).
  - cbn [with_load_state _load_job]. intros a Ha. rewrite lookup_insert_ne; [apply Hl; by right|]. by intros ->.
  - exists w', lq'. split_and!; [done|done| |done|done]. rewrite Hdom. cbn [with_load_state _load_job]. rewrite dom_insert_L. cbn. set_solver.
Qed.
End scheduled.
End worker.
