(* ===== verification/ConnectorCollect.v ===== *)
(** * The stores of a step, and the collection of what has ended

    [prepare_store_kv] turns the stores of the step into jobs once the forward pass has
    computed their blocks; [get_finished] reports exactly the requests that have no
    transfer left. *)

From S2P Require Import Prelude Request Transfers Connector ConnectorLaws ConnectorWorld ConnectorInv ConnectorData ConnectorWorker.
#[local] Open Scope Z_scope.

Section collect.
Context `{PyRuntime} (group : bytes → list bytes) (f : Z).
Context (D S : entries) (own held : holding) (os : gmap string Request) (lab : string → Z → bytes → Prop).
Implicit Types (w : OffloadingConnectorWorker) (m : Memories) (sq lq : list Transfer).
Abbreviation machine := (machine_inv group f D S own held os lab).

(** ** Saving *)

Lemma fresh_job w sq lq : jobs_inv w sq lq → _jobs w !! _job_counter w = None.
Proof.
  intros Hj. destruct (_jobs w !! _job_counter w) eqn:E; [|done]. assert (is_Some (_jobs w !! _job_counter w)) as Hc%(j_counter Hj) by (by eexists). lia.
Qed.

Lemma save_jobs w sq lq id s : jobs_inv w sq lq → jobs_inv (prepare_store_job w (id, s)) sq lq.
Proof.
  intros Hj. pose proof (fresh_job _ _ _ Hj) as Hfresh. destruct Hj as [j1 j2 j3 j4 j5 j6]. set (j := _job_counter w) in *.
  assert (∀ k, k ∈ (_unsubmitted_store_jobs w).*1 ++ (t_job_id <$> sq) ++ (t_job_id <$> lq) → k ≠ j) as Hne.
  { intros k Hk ->. rewrite app_assoc in Hk. apply elem_of_app in Hk as [Hk|Hk]; [apply j3 in Hk as [? Hk]|apply j4 in Hk as [? Hk]]; congruence. }
  unfold prepare_store_job, new_job. fold j.
  split; cbn [with_unsubmitted with_store_state _unsubmitted_store_jobs _jobs _job_counter _store_jobs _load_job]; rewrite ?fmap_app.
  - cbn. rewrite <- app_assoc. cbn. rewrite <- Permutation_middle. apply NoDup_cons. split; [by intros ?%Hne|done].
  - intros k. rewrite lookup_insert. case_decide; [lia|]. intros Hk%j2. lia.
  - intros k. cbn. rewrite lookup_insert. case_decide as E.
    + subst k. split; [intros _; by exists id|intros _]. rewrite !elem_of_app. left. right. by left.
    + rewrite <- j3, !elem_of_app, elem_of_cons, elem_of_nil. split; [intros [[?|[->|[]]]|?]; [by left|done|by right]|tauto].
  - intros k. rewrite j4, lookup_insert. case_decide; [subst; split; intros [? ?]; congruence|done].
  - intros k id'. rewrite (lookup_insert (_store_jobs w)), lookup_insert. case_decide as E1; case_decide as E2; subst.
    + split; [|done]. intros _. eexists. split; [done|]. set_solver.
    + split; [intros [=]; done|]. intros (J & HJ & Hin). assert (_jobs w !! j = Some (id', true)) by (apply j5; by exists J). congruence.
    + split.
      * intros (J & HJ & Hin)%j5. eexists. split; [done|]. rewrite HJ. set_solver.
      * intros (J & [= <-] & Hin). apply elem_of_union in Hin as [Hin|Hin%elem_of_singleton]; [|done]. apply j5. destruct (_store_jobs w !! id') as [J|]; [by exists J|by apply not_elem_of_empty in Hin].
    + apply j5.
  - intros k id'. rewrite <- j6, lookup_insert. case_decide; [subst; split; congruence|done].
Qed.

Lemma save_job_ok X pend lds w id s sq lq m :
  machine X ((id, s) :: pend) lds w sq lq m → (∀ b d, lab id b d → gpu m !! b = Some d) → machine X pend lds (prepare_store_job w (id, s)) sq lq m.
Proof.
  intros [Hj Hd] Hlab. pose proof (fresh_job _ _ _ Hj) as Hfresh. split; [by apply save_jobs|].
  set (w' := prepare_store_job w (id, s)). set (j := _job_counter w) in *.
  assert (∀ id' s', out w' sq id' s' ↔ out w sq id' s' ∨ (id' = id ∧ s' = s)) as Ho.
  { intros id' s'. unfold out, w', prepare_store_job, new_job. cbn [with_unsubmitted with_store_state _unsubmitted_store_jobs _jobs]. fold j. split.
    - intros (k & Hk & Hor). rewrite lookup_insert in Hk. case_decide as E.
      + subst k. right. injection Hk as <-. split; [done|]. destruct Hor as [Hin|(t & Ht & E & _)].
        * apply elem_of_app in Hin as [Hin|Hin%list_elem_of_singleton]; [|congruence]. apply (list_elem_of_fmap_2 fst) in Hin. cbn in Hin.
          destruct (proj1 (j_store Hj j)) as [? ?]; [apply elem_of_app; by left|congruence].
        * apply (list_elem_of_fmap_2 t_job_id) in Ht. rewrite E in Ht. destruct (proj1 (j_store Hj j)) as [? ?]; [apply elem_of_app; by right|congruence].
      + left. exists k. split; [done|]. destruct Hor as [Hin|?]; [|by right]. apply elem_of_app in Hin as [Hin|Hin%list_elem_of_singleton]; [by left|congruence].
    - intros [(k & Hk & Hor)|[-> ->]].
      + exists k. rewrite lookup_insert. case_decide; [congruence|]. split; [done|]. destruct Hor as [?|?]; [left; apply elem_of_app; by left|by right].
      + exists j. rewrite lookup_insert_eq. split; [done|]. left. apply elem_of_app. right. by left. }
  destruct Hd as [d1 d1' d2 d3 d4 d5 d6 d7 d8 d9 d10 d11 d12]. split; try done.
  - intros a b [Hab|[-> ->]]%Ho; [by apply d5|]. destruct (d6 id s) as (srcs & slots & -> & Hl & Hk); [by left|]. exists srcs, slots. split_and!; [done|done|].
    intros k sl Hsl. destruct (Hk k sl Hsl) as (h & Hh & Hi). exists h. split; [set_solver|]. intros i d Hif Hg. destruct (Hi i d Hif Hg) as (b & Hb & Hlb). exists b. auto.
  - intros a b Hab. apply d6. by right.
  - intros a h sl Hx. destruct (d7 a h sl Hx) as [?|(sp & [Hsp|Hsp] & Hin)]; [by left| |]; right; exists sp; (split; [|done]).
    + left. apply Ho. by left.
    + apply elem_of_cons in Hsp as [[= -> ->]|Hsp]; [left; apply Ho; by right|by right].
  - intros a b x [[Hx|[-> ->]]%Ho|Hx]; [apply (d8 a b); by left|apply (d8 id s); right; by left|apply (d8 a b); right; by right].
  - intros t a Ht Hja. apply d12; [done|]. revert Hja. unfold w', prepare_store_job, new_job. cbn [with_unsubmitted with_store_state _jobs]. rewrite lookup_insert. by case_decide.
Qed.

Lemma save_ok X l lds w sq lq m :
  machine X l lds w sq lq m → (∀ id b d, id ∈ l.*1 → lab id b d → gpu m !! b = Some d) →
  let w' := foldl prepare_store_job w l in
  machine X [] lds w' sq lq m ∧ dom (_store_jobs w') = dom (_store_jobs w) ∪ list_to_set l.*1 ∧ _load_job w' = _load_job w
  ∧ _finished_reqs_waiting_for_store w' = _finished_reqs_waiting_for_store w
  ∧ ∀ id J, _store_jobs w !! id = Some J → ∃ J', _store_jobs w' !! id = Some J' ∧ J ⊆ J'.
Proof.
  revert w. induction l as [|[id s] l IH]; intros w Hm Hlab; cbn [foldl]; [split_and!; try done; [cbn; set_solver|eauto]|].
  apply save_job_ok in Hm; [|intros b d; apply Hlab; by left]. destruct (IH _ Hm) as (H1 & H2 & H3 & H4 & H5); [intros a b d Ha; apply Hlab; by right|].
  split_and!; [done| |by rewrite H3|by rewrite H4|].
  - rewrite H2. unfold prepare_store_job, new_job. cbn [with_unsubmitted with_store_state _store_jobs]. rewrite dom_insert_L. cbn. set_solver.
  - intros a J HJ. destruct (decide (a = id)) as [->|Hne].
    + destruct (H5 id (J ∪ {[_job_counter w]})) as (J' & HJ' & Hs); [|exists J'; split; [done|set_solver]].
      unfold prepare_store_job, new_job. cbn [with_unsubmitted with_store_state _store_jobs]. by rewrite lookup_insert_eq, HJ.
    + apply H5. unfold prepare_store_job, new_job. cbn [with_unsubmitted with_store_state _store_jobs]. by rewrite lookup_insert_ne.
Qed.

(** ** Collecting *)

(** What [get_finished] has done so far: the requests it reports are no longer known to
    the worker; those reported as stored have finished. *)
Record collected (rq : gset string) (w0 w : OffloadingConnectorWorker) (sending recving : gset string) : Prop := {
  c_unsubmitted : _unsubmitted_store_jobs w = _unsubmitted_store_jobs w0;
  c_jobs j x : _jobs w !! j = Some x → _jobs w0 !! j = Some x;
  c_stores : dom (_store_jobs w0) = dom (_store_jobs w) ∪ sending;
  c_sending id : id ∈ sending → _store_jobs w !! id = None ∧ id ∉ rq;
  c_loads : dom (_load_job w0) = dom (_load_job w) ∪ recving;
  c_recving id : id ∈ recving → _load_job w !! id = None;
  c_waiting id : id ∈ _finished_reqs_waiting_for_store w → (id ∉ rq) ∧ ∃ J, _store_jobs w !! id = Some J ∧ J ≠ ∅;
  c_waited id : id ∈ _finished_reqs_waiting_for_store w0 → id ∈ sending ∪ _finished_reqs_waiting_for_store w;
}.

Lemma jobs_unstore w t sq lq sj wt :
  jobs_inv w (t :: sq) lq →
  (∀ id k, (∃ J, sj !! id = Some J ∧ k ∈ J) ↔ k ≠ t_job_id t ∧ ∃ J, _store_jobs w !! id = Some J ∧ k ∈ J) →
  jobs_inv (with_store_state w (delete (t_job_id t) (_jobs w)) sj wt) sq lq.
Proof.
  intros [j1 j2 j3 j4 j5 j6] Hsj. cbn in j1. rewrite <- Permutation_middle in j1. apply NoDup_cons in j1 as [Hn j1].
  rewrite !elem_of_app in Hn. split; cbn [with_store_state _unsubmitted_store_jobs _jobs _job_counter _store_jobs _load_job]; try done.
  - intros k [x Hk]. apply lookup_delete_Some in Hk as [_ Hk]. apply j2. by eexists.
  - intros k. setoid_rewrite lookup_delete_Some. specialize (j3 k). cbn in j3. rewrite elem_of_app, elem_of_cons in j3. rewrite elem_of_app. split.
    + intros Hk. destruct (proj1 j3) as [id Hid]; [tauto|]. exists id. split; [|done]. intros E. subst k. tauto.
    + intros (id & Hne & Hid). destruct (proj2 j3) as [?|[E|?]]; [by exists id|by left|by destruct Hne|by right].
  - intros k. rewrite j4. setoid_rewrite lookup_delete_Some. split; [|intros (id & _ & ?); by exists id]. intros [id Hid]. exists id. split; [|done].
    intros E. subst k. destruct (proj1 (j3 (t_job_id t))) as [? ?]; [apply elem_of_app; right; by left|congruence].
  - intros k id. rewrite lookup_delete_Some, Hsj, j5. split; [intros [? ?]; split; [congruence|done]|intros [? ?]; split; [congruence|done]].
  - intros k id. rewrite lookup_delete_Some, <- j6. split; [tauto|]. intros Hid. split; [|done]. intros E. subst k.
    destruct (proj1 (j3 (t_job_id t))) as [? ?]; [apply elem_of_app; right; by left|congruence].
Qed.

Lemma store_finished rq w0 w t sq lq sending recving :
  jobs_inv w (t :: sq) lq → collected rq w0 w sending recving →
  ∃ w' sending', job_finished (w, (sending, recving)) (mkResult (t_job_id t) true) = Ok (w', (sending', recving))
    ∧ jobs_inv w' sq lq ∧ collected rq w0 w' sending' recving.
Proof.
  intros Hj [c1 c2 c3 c4 c5 c6 c7 c8]. destruct (proj1 (j_store Hj (t_job_id t))) as [id Hid]; [apply elem_of_app; right; by left|].
  destruct (proj1 (j_of Hj _ _) Hid) as (J & HJ & Hin). unfold job_finished. cbn [tr_success tr_job_id]. rewrite Hid, HJ. change (default ∅ (Some J)) with J.
  rewrite bool_decide_eq_true_2 by done. cbn [negb]. destruct (bool_decide (J ∖ {[t_job_id t]} = ∅) && bool_decide (id ∈ _finished_reqs_waiting_for_store w)) eqn:E.
  - apply andb_true_iff in E as [E1%bool_decide_eq_true E2%bool_decide_eq_true]. destruct (c7 id) as [Hrq _]; [done|]. eexists _, _. split; [done|]. split.
    + apply jobs_unstore; [done|]. intros a k. split.
      * intros (J' & [Hne HJ']%lookup_delete_Some & Hk). split; [|by exists J']. intros ->. apply Hne. assert (_jobs w !! t_job_id t = Some (a, true)) by (apply (j_of Hj); by exists J'). congruence.
      * intros (Hne & J' & HJ' & Hk). exists J'. split; [|done]. apply lookup_delete_Some. split; [|done]. intros ->. rewrite HJ in HJ'. injection HJ' as <-. set_solver.
    + split; cbn [with_store_state _unsubmitted_store_jobs _jobs _job_counter _store_jobs _load_job _finished_reqs_waiting_for_store]; try done.
      * intros j x [_ Hx]%lookup_delete_Some. by apply c2.
      * rewrite c3, dom_delete_L. assert (id ∈ dom (_store_jobs w)) by (apply elem_of_dom; by eexists). apply set_eq. intros a. destruct (decide (a = id)); set_solver.
      * intros a Ha. destruct (decide (a = id)) as [->|Hne]; [split; [apply lookup_delete_eq|done]|]. rewrite lookup_delete_ne by done. apply c4. set_solver.
      * intros a [Ha Hne]%elem_of_difference. destruct (c7 a Ha) as (H1 & J' & HJ' & H2). split; [done|]. exists J'. split; [|done]. rewrite lookup_delete_ne; [done|set_solver].
      * intros a Ha%c8. destruct (decide (a = id)); set_solver.
  - eexists _, _. split; [done|]. split.
    + apply jobs_unstore; [done|]. intros a k. setoid_rewrite lookup_insert_Some. split.
      * intros (J' & [[<- <-]|[Hne HJ']] & Hk); [split; [set_solver|exists J; split; [done|set_solver]]|]. split; [|by exists J'].
        intros ->. apply Hne. assert (_jobs w !! t_job_id t = Some (a, true)) by (apply (j_of Hj); by exists J'). congruence.
      * intros (Hne & J' & HJ' & Hk). destruct (decide (id = a)) as [->|Hd]; [|exists J'; auto]. rewrite HJ in HJ'. injection HJ' as <-. exists (J ∖ {[t_job_id t]}). split; [by left|set_solver].
    + split; cbn [with_store_state _unsubmitted_store_jobs _jobs _job_counter _store_jobs _load_job _finished_reqs_waiting_for_store]; try done.
      * intros j x [_ Hx]%lookup_delete_Some. by apply c2.
      * rewrite c3, dom_insert_L. assert (id ∈ dom (_store_jobs w)) by (apply elem_of_dom; by eexists). set_solver.
      * intros a Ha. destruct (c4 a Ha) as [H1 H2]. split; [|done]. rewrite lookup_insert_ne; [done|congruence].
      * intros a Ha. destruct (c7 a Ha) as (H1 & J' & HJ' & H2). split; [done|]. destruct (decide (id = a)) as [->|Hne]; [|exists J'; by rewrite lookup_insert_ne].
        rewrite lookup_insert_eq. eexists. split; [done|]. apply andb_false_iff in E as [E|E]; to_prop; [done|by destruct E].
Qed.

Lemma load_finished rq w0 w t sq lq sending recving :
  jobs_inv w sq (t :: lq) → collected rq w0 w sending recving →
  ∃ w' recving', job_finished (w, (sending, recving)) (mkResult (t_job_id t) true) = Ok (w', (sending, recving'))
    ∧ jobs_inv w' sq lq ∧ collected rq w0 w' sending recving'.
Proof.
  intros Hj [c1 c2 c3 c4 c5 c6 c7 c8]. destruct (proj1 (j_load Hj (t_job_id t))) as [id Hid]; [by left|].
  pose proof (proj1 (j_ljob Hj _ _) Hid) as Hl. unfold job_finished. cbn [tr_success tr_job_id]. rewrite Hid, Hl, Z.eqb_refl. eexists _, _. split; [done|]. split.
  - destruct Hj as [j1 j2 j3 j4 j5 j6]. cbn in j1. rewrite app_assoc, <- Permutation_middle in j1. apply NoDup_cons in j1 as [Hn j1].
    rewrite elem_of_app in Hn. rewrite <- app_assoc in j1. split; cbn [with_load_state _unsubmitted_store_jobs _jobs _job_counter _store_jobs _load_job]; try done.
    + intros k [x Hk]. apply lookup_delete_Some in Hk as [_ Hk]. apply j2. by eexists.
    + intros k. rewrite j3. setoid_rewrite lookup_delete_Some. split; [|intros (a & _ & ?); by exists a]. intros [a Ha]. exists a. split; [|done]. intros E. subst k. congruence.
    + intros k. setoid_rewrite lookup_delete_Some. specialize (j4 k). cbn in j4. rewrite elem_of_cons in j4. split.
      * intros Hk. destruct (proj1 j4) as [a Ha]; [by right|]. exists a. split; [|done]. intros E. subst k. tauto.
      * intros (a & Hne & Ha). destruct (proj2 j4) as [E|?]; [by exists a|by destruct Hne|done].
    + intros k a. rewrite lookup_delete_Some, <- j5. split; [tauto|]. intros Ha. split; [|done]. intros E. subst k. congruence.
    + intros k a. rewrite !lookup_delete_Some, j6. split; intros [Hne Ha]; (split; [|done]); intros E; apply Hne; subst; [congruence|]. apply j6 in Ha. congruence.
  - split; cbn [with_load_state _unsubmitted_store_jobs _jobs _job_counter _store_jobs _load_job _finished_reqs_waiting_for_store]; try done.
    + intros j x [_ Hx]%lookup_delete_Some. by apply c2.
    + rewrite c5, dom_delete_L. assert (id ∈ dom (_load_job w)) by (apply elem_of_dom; by eexists). apply set_eq. intros a. destruct (decide (a = id)); set_solver.
    + intros a Ha. destruct (decide (a = id)) as [->|Hne]; [apply lookup_delete_eq|]. rewrite lookup_delete_ne by done. apply c6. set_solver.
Qed.

Lemma stores_finished es rq w0 w sq lq sending recving :
  jobs_inv w (es ++ sq) lq → collected rq w0 w sending recving →
  ∃ w' sending', rfold job_finished (w, (sending, recving)) ((λ t, mkResult (t_job_id t) true) <$> es) = Ok (w', (sending', recving))
    ∧ jobs_inv w' sq lq ∧ collected rq w0 w' sending' recving.
Proof.
  revert w sending. induction es as [|t es IH]; intros w sending Hj Hc; [by exists w, sending|].
  destruct (store_finished rq w0 w t (es ++ sq) lq sending recving Hj Hc) as (w1 & s1 & E & Hj1 & Hc1). cbn [fmap list_fmap rfold]. rewrite E. cbn [mbind res_bind]. by apply IH.
Qed.

Lemma loads_finished el rq w0 w sq lq sending recving :
  jobs_inv w sq (el ++ lq) → collected rq w0 w sending recving →
  ∃ w' recving', rfold job_finished (w, (sending, recving)) ((λ t, mkResult (t_job_id t) true) <$> el) = Ok (w', (sending, recving'))
    ∧ jobs_inv w' sq lq ∧ collected rq w0 w' sending recving'.
Proof.
  revert w recving. induction el as [|t el IH]; intros w recving Hj Hc; [by exists w, recving|].
  destruct (load_finished rq w0 w t sq (el ++ lq) sending recving Hj Hc) as (w1 & s1 & E & Hj1 & Hc1). cbn [fmap list_fmap rfold]. rewrite E. cbn [mbind res_bind]. by apply IH.
Qed.

(** A finished request that stores nothing, or that is waited for. *)
Definition settled (w : OffloadingConnectorWorker) (id : string) : Prop := _store_jobs w !! id = None ∨ id ∈ _finished_reqs_waiting_for_store w.

Lemma request_done_ok rq w0 w sq lq s r id :
  jobs_inv w sq lq → collected rq w0 w s r → id ∉ rq →
  ∃ w' s', request_done (w, (s, r)) id = (w', (s', r)) ∧ jobs_inv w' sq lq ∧ collected rq w0 w' s' r ∧ ∀ a, settled w a ∨ a = id → settled w' a.
Proof.
  intros Hj [c1 c2 c3 c4 c5 c6 c7 c8] Hid. unfold request_done, settled. destruct (_store_jobs w !! id) as [J|] eqn:EJ; [|exists w, s; split_and!; try done; intros a [?| ->]; auto]. case_bool_decide as E.
  - subst J. eexists _, _. split; [done|]. split_and!.
    + destruct Hj as [j1 j2 j3 j4 j5 j6]. split; try done. cbn [with_store_state _jobs _store_jobs]. intros k a. rewrite j5. split.
      * intros (J & HJ & Hk). exists J. split; [|done]. apply lookup_delete_Some. split; [|done]. intros ->. rewrite EJ in HJ. injection HJ as <-. by apply not_elem_of_empty in Hk.
      * intros (J & [_ HJ]%lookup_delete_Some & Hk). by exists J.
    + split; cbn [with_store_state _unsubmitted_store_jobs _jobs _job_counter _store_jobs _load_job _finished_reqs_waiting_for_store]; try done.
      * rewrite c3, dom_delete_L. assert (id ∈ dom (_store_jobs w)) by (apply elem_of_dom; by eexists). apply set_eq. intros a. destruct (decide (a = id)); set_solver.
      * intros a Ha. destruct (decide (a = id)) as [->|Hne]; [split; [apply lookup_delete_eq|done]|]. rewrite lookup_delete_ne by done. apply c4. set_solver.
      * intros a Ha. destruct (c7 a Ha) as (H1 & J' & HJ' & H2). split; [done|]. exists J'. split; [|done]. rewrite lookup_delete_ne; [done|]. intros ->. congruence.
      * intros a Ha%c8. set_solver.
    + cbn [with_store_state _store_jobs _finished_reqs_waiting_for_store]. intros a Ha. rewrite lookup_delete_None. destruct Ha as [[?|?]| ->]; auto.
  - eexists _, _. split; [done|]. split_and!; [by destruct Hj| |].
    + split; try done; cbn [with_store_state _store_jobs _finished_reqs_waiting_for_store].
      * intros a [->%elem_of_singleton|Ha]%elem_of_union; [|by apply c7]. split; [done|]. by exists J.
      * intros a Ha%c8. set_solver.
    + cbn [with_store_state _store_jobs _finished_reqs_waiting_for_store]. intros a Ha. rewrite elem_of_union, elem_of_singleton. tauto.
Qed.

Lemma requests_done_ok l rq w0 w sq lq s r :
  jobs_inv w sq lq → collected rq w0 w s r → (∀ id, id ∈ l → id ∉ rq) →
  ∃ w' s', foldl request_done (w, (s, r)) l = (w', (s', r)) ∧ jobs_inv w' sq lq ∧ collected rq w0 w' s' r ∧ ∀ a, settled w a ∨ a ∈ l → settled w' a.
Proof.
  revert w s. induction l as [|id l IH]; intros w s Hj Hc Hl; [exists w, s; split_and!; try done; by intros a [?|?%elem_of_nil]|]. cbn [foldl].
  destruct (request_done_ok rq w0 w sq lq s r id Hj Hc) as (w1 & s1 & -> & Hj1 & Hc1 & Hs1); [apply Hl; by left|].
  destruct (IH _ _ Hj1 Hc1) as (w2 & s2 & E & Hj2 & Hc2 & Hs2); [intros a Ha; apply Hl; by right|].
  exists w2, s2. split_and!; try done. intros a Ha. apply Hs2. rewrite elem_of_cons in Ha. destruct Ha as [?|[->|?]]; auto.
Qed.

(** The transfers that have ended leave the queues. *)
Lemma data_drop X pend lds w es sq el lq m :
  data_inv group f D S X own held os lab pend lds w (es ++ sq) (el ++ lq) m → Forall (λ t, t_done t = true) es →
  data_inv group f D S X own held os lab pend lds w sq lq m.
Proof.
  intros [d1 d1' d2 d3 d4 d5 d6 d7 d8 d9 d10 d11 d12] He. rewrite Forall_forall in He.
  assert (∀ id s, out w sq id s ↔ out w (es ++ sq) id s) as Ho.
  { intros id s. split; intros (j & Hj & Hor); exists j; (split; [done|]); (destruct Hor as [?|(t & Ht & E)]; [by left|right; exists t; split; [|done]]).
    - apply elem_of_app. by right.
    - apply elem_of_app in Ht as [Ht|?]; [|done]. destruct E as (_ & _ & E). rewrite (He t Ht) in E. done. }
  rewrite fmap_app, concat_app, <- app_assoc in d8, d9. split; try done.
  - intros a b Hab%Ho. by apply d5.
  - intros a h b Hx. destruct (d7 a h b Hx) as [?|(sp & [Hsp|Hsp] & ?)]; [by left|right; exists sp; split; [left; by apply Ho|done]|right; exists sp; auto].
  - intros a b x Hx Hb Hin. apply (d8 a b x); [destruct Hx as [Hx%Ho|Hx]; auto|done|]. apply elem_of_app. by right.
  - by apply NoDup_app in d9 as (_ & _ & ?).
  - intros t Ht. apply d10. apply elem_of_app. by right.
  - intros t a Ht. apply d12. apply elem_of_app. by right.
Qed.

Lemma get_finished_ok X pend lds w sq lq m rq fin :
  machine X pend lds w sq lq m → collected rq w w ∅ ∅ → (∀ id, id ∈ fin → id ∉ rq) →
  ∃ s r w' sq' lq', connector_get_finished (mkMachine w (handlers f sq lq) m) fin = Ok (s, r, mkMachine w' (handlers f sq' lq') m)
    ∧ machine X pend lds w' sq' lq' m ∧ collected rq w w' s r ∧ (∀ id, id ∈ fin → settled w' id) ∧ sq' = (pop_finished sq).2 ∧ lq' = (pop_finished lq).2.
Proof.
  intros [Hj Hd] Hc Hfin. unfold connector_get_finished. cbn [ow cw mems].
  destruct (pop_finished sq) as [rs sq'] eqn:Es. destruct (pop_finished lq) as [rl lq'] eqn:El.
  destruct (pop_finished_spec _ _ _ Es) as (es & Esq & He & Ers). destruct (pop_finished_spec _ _ _ El) as (el & Elq & _ & Erl).
  assert (∃ results, ow_get_finished (handlers f sq lq) = (results, handlers f sq' lq') ∧
    ∃ w1 s1 r1, rfold job_finished (w, (∅, ∅)) results = Ok (w1, (s1, r1)) ∧ jobs_inv w1 sq' lq' ∧ collected rq w w1 s1 r1) as (results & -> & w1 & s1 & r1 & -> & Hj1 & Hc1).
  { assert (∀ a b c, handler_get_finished (mkHandler a b c sq) = (rs, mkHandler a b c sq')) as Hs by (intros; unfold handler_get_finished; cbn [transfers]; by rewrite Es).
    assert (∀ a b c, handler_get_finished (mkHandler a b c lq) = (rl, mkHandler a b c lq')) as Hl by (intros; unfold handler_get_finished; cbn [transfers]; by rewrite El).
    unfold ow_get_finished. rewrite Esq, Elq in Hj. destruct (handlers_iter f sq lq) as [-> | ->]; cbn [foldl fst snd].
    - rewrite handlers_stores, Hs. cbn [fst snd]. rewrite set_stores, handlers_loads, Hl. cbn [app]. rewrite set_loads. eexists. split; [done|]. destruct (stores_finished es rq w w sq' (el ++ lq') ∅ ∅ Hj Hc) as (w1 & s1 & E1 & Hj1 & Hc1).
      destruct (loads_finished el rq w w1 sq' lq' s1 ∅ Hj1 Hc1) as (w2 & r2 & E2 & Hj2 & Hc2). exists w2, s1, r2. rewrite rfold_app, Ers, E1. cbn [mbind res_bind]. by rewrite Erl.
    - rewrite handlers_loads, Hl. cbn [fst snd]. rewrite set_loads, handlers_stores, Hs. cbn [app]. rewrite set_stores. eexists. split; [done|]. destruct (loads_finished el rq w w (es ++ sq') lq' ∅ ∅ Hj Hc) as (w1 & r1 & E1 & Hj1 & Hc1).
      destruct (stores_finished es rq w w1 sq' lq' ∅ r1 Hj1 Hc1) as (w2 & s2 & E2 & Hj2 & Hc2). exists w2, s2, r1. rewrite rfold_app, Erl, E1. cbn [mbind res_bind]. by rewrite Ers. }
  cbn [mbind res_bind]. destruct (requests_done_ok (set_iter fin) rq w w1 sq' lq' s1 r1 Hj1 Hc1) as (w2 & s2 & -> & Hj2 & Hc2 & Hset).
  { intros id Hid. apply Hfin. rewrite set_iter_perm in Hid. by apply elem_of_elements. }
  exists s2, r1, w2, sq', lq'. split; [done|]. split_and!; [split; [done|]|done| |done|done].
  2: { intros id Hid. apply Hset. right. rewrite set_iter_perm. by apply elem_of_elements. }
  rewrite Esq, Elq in Hd. apply data_drop in Hd; [|done].
  apply (data_same _ _ _ _ _ _ _ _ _ _ _ w w2 sq' sq' lq' m Hd); [| |intros t id _; apply (c_jobs _ _ _ _ _ Hc2)].
  - intros id sp. unfold out. rewrite (c_unsubmitted _ _ _ _ _ Hc2). split; intros (j & Hjob & Hor); exists j; (split; [|done]); [by apply (c_jobs _ _ _ _ _ Hc2)|].
    destruct (proj1 (j_store Hj2 j)) as [id' Hid'].
    + rewrite (c_unsubmitted _ _ _ _ _ Hc2). apply elem_of_app. destruct Hor as [Hin|(t & Ht & <- & _)]; [left; by apply (list_elem_of_fmap_2 fst _ (j, sp))|right; by apply list_elem_of_fmap_2].
    + pose proof (c_jobs _ _ _ _ _ Hc2 _ _ Hid'). congruence.
  - apply (d_stores Hd).
Qed.
End collect.
