(* ===== verification/ConnectorSched.v ===== *)
(** * The scheduler side of the offloading connector: loads

    The hashes of the offloaded blocks of a request, the tokens that can be loaded, and
    the loads that [update_state_after_alloc] prepares. *)

From S2P Require Import Prelude Blocks Request Scheduler OffloadPolicy Offload Transfers Connector ConnectorLaws ConnectorWorld ConnectorInv.
#[local] Open Scope Z_scope.

(** ** [islice] *)

Lemma omap_lookup_all {A B} (g : A → option B) (l : list A) (i : nat) : (∀ x, x ∈ l → is_Some (g x)) → omap g l !! i = l !! i ≫= g.
Proof.
  revert i. induction l as [|x l IH]; intros i Hl; [done|]. destruct (Hl x) as [y Hy]; [by left|]. cbn. rewrite Hy.
  destruct i as [|i]; cbn; [done|]. apply IH. intros z Hz. apply Hl. by right.
Qed.

Lemma islice_spec {A} (l : list A) a stop step :
  0 ≤ a → 1 ≤ step → 0 ≤ default 0 stop →
  let n := Z.to_nat (cdiv (match stop with Some b => Z.min b (zlen l) | None => zlen l end - a) step) in
  ∃ l', islice l a stop step = Ok l' ∧ length l' = n ∧ ∀ k : nat, (k < n)%nat → l' !! k = l !! Z.to_nat (a + Z.of_nat k * step).
Proof.
  intros Ha Hs Hb n. unfold islice. rewrite (proj2 (Z.ltb_ge a 0)), (proj2 (Z.ltb_ge step 1)) by lia. cbn [orb].
  assert (match stop with Some b => b <? 0 | None => false end = false) as -> by (destruct stop; cbn in Hb; [by apply Z.ltb_ge|done]).
  set (last := match stop with Some b => _ | None => _ end) in *. eexists. split; [done|].
  assert (last ≤ zlen l) as Hlast by (unfold last; destruct stop; lia).
  set (g := λ k, l !! Z.to_nat (a + k * step)). assert (∀ x, x ∈ zrange 0 (cdiv (last - a) step) → is_Some (g x)) as Hg.
  { intros x Hx%elem_of_zrange. apply lookup_lt_is_Some_2. pose proof (cdiv_bounds (last - a) step ltac:(lia)). unfold zlen in Hlast. nia. }
  assert (∀ k : nat, (k < n)%nat → omap g (zrange 0 (cdiv (last - a) step)) !! k = g (Z.of_nat k)) as Hk.
  { intros k Hk. rewrite omap_lookup_all by done. rewrite zrange_lookup by lia. done. }
  split; [|done]. assert (∀ xs, (∀ x, x ∈ xs → is_Some (g x)) → length (omap g xs) = length xs) as Hlen.
  { clear. intros xs Hx. induction xs as [|x xs IH]; [done|]. destruct (Hx x) as [y Hy]; [by left|]. cbn. rewrite Hy. cbn. rewrite IH; [done|]. intros z Hz. apply Hx. by right. }
  rewrite Hlen by done. rewrite length_zrange. unfold n. f_equal. lia.
Qed.

(** ** Loads under way *)

Abbreviation mset l := (list_to_set_disj l : gmultiset entry).

Lemma msum_insert (held : holding) id E : held !! id = None → msum (<[id := E]> held) = mset (elements E) ⊎ msum held.
Proof.
  intros Hn. apply (map_fold_insert_L (λ _ (E : entries) L, mset (elements E) ⊎ L) ∅ id E held); [|done].
  intros j1 j2 z1 z2 y _ _ _. multiset_solver.
Qed.
Lemma msum_delete (held : holding) id E : held !! id = Some E → msum held = mset (elements E) ⊎ msum (delete id held).
Proof. intros He. rewrite <- (msum_insert (delete id held) id E) by apply lookup_delete_eq. by rewrite insert_delete_id. Qed.

Lemma mset_length (l : list entry) : size (mset l) = length l.
Proof.
  induction l as [|x l IH]; [by rewrite list_to_set_disj_nil, gmultiset_size_empty|].
  by rewrite list_to_set_disj_cons, gmultiset_size_disj_union, gmultiset_size_singleton, IH.
Qed.

Lemma msum_elem (held : holding) id x : x ∈ part held id → x ∈ msum held.
Proof.
  unfold part. destruct (held !! id) as [E|] eqn:He; [|by intros ?%not_elem_of_empty]. cbn. intros Hx. rewrite (msum_delete _ _ _ He).
  apply gmultiset_elem_of_disj_union. left. by rewrite elem_of_list_to_set_disj, elem_of_elements.
Qed.

(** Hashes stand for entries where a hash has one slot. *)
Definition slots_unique (D : entries) : Prop := ∀ h h' s s', (h, s) ∈ D → (h', s') ∈ D → h = h' ↔ s = s'.

Lemma hashes_nodup (D E : entries) : slots_unique D → E ⊆ D → NoDup (elements E).*1.
Proof.
  intros Hu HE. assert (∀ x, x ∈ elements E → x ∈ D) as Hin by (intros x Hx%elem_of_elements; by apply HE).
  pose proof (NoDup_elements E) as Hnd. revert Hin Hnd. generalize (elements E) as l. intros l. induction l as [|[h s] l IH]; intros Hin Hnd; [constructor|].
  apply NoDup_cons in Hnd as [Hx Hnd]. cbn. apply NoDup_cons. split; [|apply IH; [intros x Hx'; apply Hin; by right|done]].
  intros ([h' s'] & E1 & Hin')%list_elem_of_fmap. cbn in E1. subst h'. apply Hx. assert (s = s') as ->; [|done].
  apply (Hu h h s s'); [apply Hin; by left|apply Hin; by right|done].
Qed.

Lemma hashes_elements (D E : entries) : slots_unique D → E ⊆ D → elements (set_map fst E : gset bytes) ≡ₚ (elements E).*1.
Proof.
  intros Hu HE. apply NoDup_Permutation; [apply NoDup_elements|by apply (hashes_nodup D)|]. intros h. rewrite elem_of_elements, elem_of_map, list_elem_of_fmap.
  by setoid_rewrite elem_of_elements.
Qed.

(** The entries of the hashes, in the order in which the set of hashes is iterated. *)
Lemma entries_of_hashes `{PyRuntime} (D E : entries) :
  slots_unique D → E ⊆ D → ∃ js, set_iter (set_map fst E : gset bytes) = js.*1 ∧ js ≡ₚ elements E.
Proof.
  intros Hu HE. pose proof (set_iter_perm (set_map fst E : gset bytes)) as Hp. rewrite (hashes_elements D E Hu HE) in Hp.
  apply Permutation_map_inv in Hp as (js & Ejs & Hjs). by exists js.
Qed.

Lemma size_hashes (D E : entries) : slots_unique D → E ⊆ D → size (set_map fst E : gset bytes) = size E.
Proof. intros Hu HE. unfold size, set_size. cbn. by rewrite (hashes_elements D E Hu HE), length_fmap. Qed.

(** ** The hashes of the offloaded blocks *)

Section scheduler.
Context `{PyRuntime} (group : bytes → list bytes) (gbs f : Z) (Hg : 0 < gbs) (Hf : 0 < f).
Context {M : Type} `{!OffloadingManager M} `{!OffloadingManagerLaws M}.
Implicit Types (c : OffloadingConnectorScheduler M) (r : Request).
Abbreviation sched := (sched_inv group gbs f).

(** The hash of an offloaded block. *)
Definition block_hash_at r (k : Z) : option bytes := block_hashes r !! Z.to_nat (k * f + f - 1).

Lemma get_hashes_upto c r start e :
  block_size_factor c = f → 0 ≤ start ≤ e → 0 < e → e * f ≤ zlen (block_hashes r) →
  ∃ hs, _get_block_hashes c r start (Some e) = Ok hs ∧ length hs = Z.to_nat (e - start)
    ∧ ∀ k : nat, (k < length hs)%nat → hs !! k = block_hash_at r (start + Z.of_nat k).
Proof.
  intros Ef Hse He Hl. unfold _get_block_hashes. rewrite Ef, (proj2 (Z.eqb_neq e 0)) by lia.
  destruct (islice_spec (block_hashes r) (f * start + f - 1) (Some (f * e)) f) as (hs & E & Hlen & Hk); [nia|lia|cbn; nia|].
  assert (cdiv (Z.min (f * e) (zlen (block_hashes r)) - (f * start + f - 1)) f = e - start) as Ec.
  { rewrite Z.min_l by lia. rewrite cdiv_eq by lia. replace (f * e - (f * start + f - 1) + f - 1) with ((e - start) * f) by lia. apply Z.div_mul. lia. }
  rewrite Ec in Hlen, Hk. exists hs. split_and!; [done|done|]. intros k Hlt. rewrite Hk by lia. unfold block_hash_at. do 2 f_equal. lia.
Qed.

Lemma get_hashes_all c r start :
  block_size_factor c = f → 0 ≤ start →
  ∃ hs, _get_block_hashes c r start None = Ok hs ∧ length hs = Z.to_nat (zlen (block_hashes r) / f - start)
    ∧ ∀ k : nat, (k < length hs)%nat → hs !! k = block_hash_at r (start + Z.of_nat k).
Proof.
  intros Ef Hs. unfold _get_block_hashes. rewrite Ef.
  destruct (islice_spec (block_hashes r) (f * start + f - 1) None f) as (hs & E & Hlen & Hk); [nia|lia|done|].
  assert (cdiv (zlen (block_hashes r) - (f * start + f - 1)) f = zlen (block_hashes r) / f - start) as Ec.
  { rewrite cdiv_eq by lia. replace (zlen (block_hashes r) - (f * start + f - 1) + f - 1) with (zlen (block_hashes r) + (- start) * f) by lia. rewrite Z.div_add by lia. lia. }
  rewrite Ec in Hlen, Hk. exists hs. split_and!; [done|done|]. intros k Hlt. rewrite Hk by lia. unfold block_hash_at. do 2 f_equal. lia.
Qed.

Lemma block_hash_at_Some r k : 0 ≤ k → (k + 1) * f ≤ zlen (block_hashes r) → is_Some (block_hash_at r k).
Proof. intros Hk Hl. apply lookup_lt_is_Some_2. unfold zlen in Hl. nia. Qed.

(** Different blocks of a request have different hashes. *)
Lemma hashes_distinct r (hs : list bytes) start :
  NoDup (block_hashes r) → 0 ≤ start → (∀ k : nat, (k < length hs)%nat → hs !! k = block_hash_at r (start + Z.of_nat k)) → NoDup hs.
Proof.
  intros Hnd Hs Hk. apply NoDup_alt. intros i j x Hi Hj. pose proof (lookup_lt_Some _ _ _ Hi). pose proof (lookup_lt_Some _ _ _ Hj).
  rewrite Hk in Hi, Hj by done. unfold block_hash_at in Hi, Hj. pose proof (NoDup_lookup _ _ _ _ Hnd Hi Hj). nia.
Qed.

(** The device blocks of an offloaded block. *)
Lemma hashed_group r k h (i : nat) :
  hashed group gbs f r → 0 ≤ k → (k + 1) * f ≤ zlen (block_hashes r) → block_hash_at r k = Some h → Z.of_nat i < f →
  group h !! i = block_hashes r !! (Z.to_nat k * Z.to_nat f + i)%nat.
Proof.
  intros (_ & _ & Hh) Hk Hl E Hi. rewrite Forall_forall in Hh. specialize (Hh k). rewrite elem_of_zrange in Hh.
  assert (k < zlen (block_hashes r) / f) as Hlt by (pose proof (Z.div_le_lower_bound (zlen (block_hashes r)) f (k + 1)); lia).
  specialize (Hh ltac:(lia)). unfold block_hash_at in E. rewrite E in Hh. injection Hh as ->. rewrite lookup_take_lt by lia. rewrite lookup_drop. f_equal. lia.
Qed.

(** ** Matching *)

Lemma sched_manager c os D S own held m' : sched c os D S own held → om_rel m' D (msum held) S → sched (with_manager c m') os D S own held.
Proof. intros [] Hm. by split. Qed.

Lemma match_ok c os D S own held id r n :
  sched c os D S own held → os !! id = Some r → 0 ≤ n →
  ∃ o b m', get_num_new_matched_tokens c r n = Ok (o, b, with_manager c m') ∧ om_rel m' D (msum held) S
    ∧ ∀ ext, o = Some ext → ext ≠ 0 → ∃ hits hs, let start := n / (gbs * f) in
        0 < hits ∧ ext = gbs * f * (start + hits) - n ∧ (start + hits) * f ≤ zlen (block_hashes r)
        ∧ _get_block_hashes c r start (Some (start + hits)) = Ok hs ∧ Forall (loadable D S) hs.
Proof.
  intros Hs Hr Hn. destruct (s_hashed Hs id r Hr) as [_ (Hl & _)]. pose proof (s_factor Hs) as Ef. pose proof (s_obs Hs) as Eo.
  unfold get_num_new_matched_tokens. rewrite Ef, Eo. unfold py_div. rewrite (proj2 (Z.eqb_neq (gbs * f) 0)), (proj2 (Z.eqb_neq f 0)) by nia. cbn [mbind res_bind].
  rewrite Hl, Z.div_div, Z.eqb_refl by lia. destruct (get_hashes_all c r 0 Ef ltac:(lia)) as (hs0 & -> & _). cbn [mbind res_bind].
  pose proof (om_touch_spec (manager c) _ _ _ hs0 (s_rel Hs)) as Hrel.
  destruct (_ <? gbs * f); [eexists _, _, _; split; [done|]; split; [done|]; intros ext [= <-]; done|].
  set (start := n / (gbs * f)). assert (0 ≤ start) as Hst by (apply Z.div_pos; nia).
  destruct (get_hashes_all (with_manager c (om_touch (manager c) hs0)) r start Ef Hst) as (hs1 & -> & Hlen1 & Hk1). cbn [mbind res_bind].
  destruct (om_lookup _ hs1) as [hits m1] eqn:El. apply (om_lookup_spec _ D (msum held) S) in El as [Hrel1 Hhits]; [|done].
  destruct hits as [hits|]; [|eexists _, _, _; split; [done|]; split; [done|]; intros ext [= <-]].
  destruct (Hhits hits eq_refl) as [Hb Hall].
  destruct (Z.eqb_spec hits 0) as [->|Hnz]; [eexists _, _, _; split; [done|]; split; [done|]; intros ext [= <-]; done|].
  destruct (_ <? gbs * f); [eexists _, _, _; split; [done|]; split; [done|]; intros ext [= <-]; done|].
  unfold zlen in Hb. assert ((start + hits) * f ≤ zlen (block_hashes r)) as Hfit.
  { pose proof (Z.mul_div_le (zlen (block_hashes r)) f ltac:(lia)). nia. }
  destruct (get_hashes_upto (with_manager (with_manager c (om_touch (manager c) hs0)) m1) r start (start + hits)) as (hs2 & E2 & Hlen2 & Hk2); [done|lia|lia|done|].
  rewrite E2. cbn [mbind res_bind]. destruct (being_loaded _ hs2); eexists _, _, m1; (split; [done|]); (split; [done|]); [done|].
  intros ext [= <-] _. exists hits, hs2. split_and!; [lia|done|lia|exact E2|].
  assert (hs2 = take (Z.to_nat hits) hs1) as ->; [|done]. apply list_eq. intros i. destruct (decide (i < Z.to_nat hits)%nat) as [Hi|Hi].
  - rewrite lookup_take_lt by done. rewrite Hk1, Hk2 by lia. done.
  - rewrite !lookup_ge_None_2; [done| |]; rewrite ?length_take; lia.
Qed.
End scheduler.
