(* ===== verification/ConnectorAdmit.v ===== *)
(** * Admission of requests by the offloading connector

    [update_state_after_alloc] prepares loads of exactly the blocks that the request is
    missing, from slots that hold them. *)

From S2P Require Import Prelude Blocks Request Scheduler OffloadPolicy Offload Transfers Connector ConnectorLaws ConnectorWorld ConnectorInv ConnectorSched.
#[local] Open Scope Z_scope.

Section admission.
Context `{PyRuntime} (group : bytes → list bytes) (gbs f : Z) (Hg : 0 < gbs) (Hf : 0 < f).
Context {M : Type} `{!OffloadingManager M} `{!OffloadingManagerLaws M}.
Implicit Types (c : OffloadingConnectorScheduler M) (r : Request).
Abbreviation sched := (sched_inv group gbs f).

(** The request is known, and its blocks are tracked anew. *)
Definition known c (id : string) : OffloadingConnectorScheduler M :=
  with_request_blocks c ({[id]} ∪ _requests c) (<[id := []]> (_request_block_ids c)).

Lemma sched_known c os D S own held id : sched c os D S own held → is_Some (os !! id) → sched (known c id) os D S own held.
Proof.
  intros [s1 s2 s3 s4 s5 s6 s7 s8 s9 s10 s11] Ho. split; try done; cbn [known with_request_blocks _requests _request_block_ids].
  - by rewrite s8, dom_insert_L.
  - intros a [->%elem_of_singleton|Ha]%elem_of_union; auto.
Qed.

(** The state after the allocation of blocks for a load. *)
Definition loading_state c (id : string) (m' : M) (hs : list bytes) (slots new : list Z) (k num_blocks : Z) : OffloadingConnectorScheduler M :=
  let c' := known c id in
  with_next_stored
    (with_loads (with_manager c' m') (od_set (_reqs_to_load c) id (load_spec slots new k))
       ((λ l, l ∪ (∅ ∪ list_to_set hs)) <$> _blocks_being_loaded c) (<[id := ∅ ∪ list_to_set hs]> (_reqs_being_loaded c)))
    (<[id := num_blocks]> (_next_stored_block_idx c)).

Lemma alloc_ok c os D S own held id r n ext g rest hits hs :
  sched c os D S own held → os !! id = Some r → _reqs_being_loaded c !! id = None →
  let k := Z.to_nat (n / gbs) in
  let new := Blocks.block_id <$> drop k g in
  let start := n / (gbs * f) in
  n = Z.of_nat k * gbs → (k ≤ length g)%nat → ext = zlen new * gbs →
  Forall (λ b, is_Some (Blocks.block_hash b)) (take k g) → Forall (λ b, ¬ is_Some (Blocks.block_hash b)) (drop k g) → ext ≠ 0 →
  0 < hits → ext = gbs * f * (start + hits) - n → (start + hits) * f ≤ zlen (block_hashes r) →
  _get_block_hashes c r start (Some (start + hits)) = Ok hs → Forall (loadable D S) hs → Z.of_nat (size (msum held) + length hs) < 2 ^ 31 →
  ∃ m' slots, update_state_after_alloc c r (g :: rest) ext = Ok (loading_state c id m' hs slots new (Z.of_nat k) (start + hits))
    ∧ length slots = length hs ∧ om_rel m' D (mset (zip hs slots) ⊎ msum held) S.
Proof.
  intros Hs Hr Hnl k new start En Hk Eext Hold Hnew Hext Hhits Eext' Hfit Ehs Hload Hbd.
  destruct (s_hashed Hs id r Hr) as [Eid _]. pose proof (s_factor Hs) as Ef. pose proof (s_obs Hs) as Eo. pose proof (s_gbs Hs) as Eg.
  destruct (om_prepare_load_spec (manager c) D (msum held) S hs (s_rel Hs) Hload Hbd) as (m' & slots & Em & Hlen & Hrel).
  exists m', slots. split; [|done]. unfold update_state_after_alloc. rewrite (proj2 (Z.eqb_neq ext 0)) by done. rewrite Eid.
  set (c1 := with_request_blocks c _ _). change (gpu_block_size c1) with (gpu_block_size c). change (offloaded_block_size c1) with (offloaded_block_size c).
  change (block_size_factor c1) with (block_size_factor c). rewrite Eg, Eo, Ef. change (py_index (g :: rest) 0) with (Ok g). cbn [mbind res_bind].
  assert (filter (λ b, is_Some (Blocks.block_hash b)) g = take k g) as ->.
  { rewrite <- (take_drop k g) at 1. rewrite filter_app, list_filter_all, list_filter_none by done. apply app_nil_r. }
  assert (zlen (take k g) = Z.of_nat k) as -> by (unfold zlen; rewrite length_take; lia). rewrite <- En.
  assert (n + ext = (start + hits) * (gbs * f)) as Efull by lia. rewrite Efull. unfold py_mod, py_div.
  rewrite (proj2 (Z.eqb_neq (gbs * f) 0)), (proj2 (Z.eqb_neq f 0)) by nia. cbn [mbind res_bind]. rewrite Z.mod_mul, Z.div_mul by nia. cbn [Z.eqb].
  assert (zlen (Blocks.block_id <$> g) - Z.of_nat k = zlen new) as Epend by (unfold zlen, new; rewrite !length_fmap, length_drop; lia).
  rewrite Epend, <- Eext, Z.eqb_refl. fold start. rewrite (proj2 (Z.leb_le _ _)) by (apply Z.div_le_lower_bound; lia).
  change (_get_block_hashes c1) with (_get_block_hashes c). rewrite Ehs. cbn [mbind res_bind]. change (manager c1) with (manager c). rewrite Em. cbn [mbind res_bind].
  assert (py_from (Blocks.block_id <$> g) (Z.of_nat k) = new) as -> by (rewrite py_from_nonneg, Nat2Z.id by lia; by rewrite <- fmap_drop).
  unfold gpu_spec. cbn [foldr]. rewrite Z.add_0_r, Z.eqb_refl. cbn [zlen length]. rewrite Z.eqb_refl. cbn [mbind res_bind].
  change (_get_block_hashes (with_manager c1 m')) with (_get_block_hashes c). rewrite Ehs. cbn [mbind res_bind].
  change (_reqs_being_loaded (with_manager c1 m')) with (_reqs_being_loaded c). rewrite Hnl. done.
Qed.

(** What is to be loaded is the data of the blocks of the request. *)
Lemma alloc_load_ok c (D S E : entries) os own held id r (n hits : Z) (hs : list bytes) (slots new : list Z) :
  sched c os D S own held → os !! id = Some r → 0 ≤ n →
  let k := Z.to_nat (n / gbs) in
  let start := n / (gbs * f) in
  n = Z.of_nat k * gbs → zlen new * gbs = gbs * f * (start + hits) - n → 0 < hits → (start + hits) * f ≤ zlen (block_hashes r) →
  _get_block_hashes c r start (Some (start + hits)) = Ok hs → length slots = length hs → (list_to_set (zip hs slots) : entries) ⊆ E →
  load_ok group f (block_hashes r) E slots new (Z.of_nat k).
Proof.
  intros Hs Hr Hn k start En Eext Hhits Hfit Ehs Hlen HE. destruct (s_hashed Hs id r Hr) as [_ Hh].
  assert (0 ≤ start) as Hst by (apply Z.div_pos; nia).
  destruct (get_hashes_upto f Hf c r start (start + hits) (s_factor Hs)) as (hs' & Ehs' & Hlen' & Hk'); [lia|lia|lia|]. rewrite Ehs in Ehs'. injection Ehs' as <-.
  assert (start = Z.of_nat k / f) as Est by (unfold start; rewrite En at 1; rewrite (Z.mul_comm gbs f), Z.div_mul_cancel_r; lia).
  split_and!; [lia| |].
  - unfold zlen at 2. rewrite Hlen, Hlen'. pose proof (Z.div_mod (Z.of_nat k) f ltac:(lia)). rewrite Z2Nat.id by lia. nia.
  - intros j s i Hj Hi. pose proof (lookup_lt_Some _ _ _ Hj) as Hjl. destruct (lookup_lt_is_Some_2 hs j) as [h Hhj]; [lia|].
    exists h. rewrite Hk' in Hhj by lia. assert (0 ≤ start + Z.of_nat j) as H1 by lia. assert ((start + Z.of_nat j + 1) * f ≤ zlen (block_hashes r)) as H2 by nia.
    pose proof (hashed_group group gbs f Hf r _ h i Hh H1 H2 Hhj Hi) as Egr. rewrite <- Est.
    replace (Z.to_nat start + j)%nat with (Z.to_nat (start + Z.of_nat j)) by lia.
    destruct (lookup_lt_is_Some_2 (block_hashes r) (Z.to_nat (start + Z.of_nat j) * Z.to_nat f + i)) as [d Hd]; [unfold zlen in H2; nia|].
    exists d. split_and!; [|by rewrite Egr|done]. apply HE, elem_of_list_to_set, list_elem_of_lookup. exists j. apply lookup_zip_Some. by rewrite Hk' by lia.
Qed.

(** ** The state *)

Lemma part_insert (X : holding) id E id' : part (<[id := E]> X) id' = if decide (id' = id) then E else part X id'.
Proof. unfold part. case_decide; [subst; by rewrite lookup_insert_eq|by rewrite lookup_insert_ne]. Qed.

Lemma zip_nodup (hs : list bytes) (slots : list Z) : NoDup hs → NoDup (zip hs slots).
Proof. intros Hnd. apply (NoDup_fmap_1 fst). apply (sublist_NoDup _ hs Hnd). clear. revert slots. induction hs as [|h hs IH]; intros [|s slots]; cbn; try done; [apply sublist_nil_l|by constructor]. Qed.

Lemma zip_fst (hs : list bytes) (slots : list Z) : length slots = length hs → (set_map fst (list_to_set (zip hs slots) : entries) : gset bytes) = list_to_set hs.
Proof.
  intros Hl. apply set_eq. intros h. rewrite elem_of_map, elem_of_list_to_set. setoid_rewrite elem_of_list_to_set. split.
  - intros ([h' s] & -> & Hin). by apply elem_of_zip_l in Hin.
  - intros (k & Hk)%list_elem_of_lookup. pose proof (lookup_lt_Some _ _ _ Hk). destruct (lookup_lt_is_Some_2 slots k) as [s Hs]; [lia|].
    exists (h, s). split; [done|]. apply list_elem_of_lookup. exists k. by apply lookup_zip_Some.
Qed.

Lemma sched_loading c os D S own held id m' hs slots new k num_blocks :
  sched c os D S own held → is_Some (os !! id) → held !! id = None → length slots = length hs → NoDup hs → 0 ≤ num_blocks →
  om_rel m' D (mset (zip hs slots) ⊎ msum held) S →
  sched (loading_state c id m' hs slots new k num_blocks) os D S own (<[id := list_to_set (zip hs slots)]> held).
Proof.
  intros Hs Ho Hid Hl Hnd Hb Hrel. pose proof (sched_known c os D S own held id Hs Ho) as [s1 s2 s3 s4 s5 s6 s7 s8 s9 s10 s11].
  split; try done; cbn [loading_state with_next_stored with_loads with_manager manager _reqs_being_loaded _next_stored_block_idx].
  - rewrite msum_insert by done. rewrite (elements_list_to_set (C := entries)); [done|]. by apply zip_nodup.
  - rewrite fmap_insert. cbn [known with_request_blocks _reqs_being_loaded] in s6. rewrite s6. f_equal. rewrite zip_fst by done. by rewrite (left_id_L ∅ (∪)).
  - intros a b. rewrite lookup_insert. case_decide; [by intros [= <-]|apply s11].
Qed.

Lemma admit_data (D S E : entries) own held os lab lab' lds w sq lq m id r slots new k :
  data_inv group f D S ∅ own held os lab [] lds w sq lq m → held !! id = None → id ∉ lds.*1 → (∀ t, t ∈ lq → _jobs w !! t_job_id t ≠ Some (id, false)) →
  os !! id = Some r → load_ok group f (block_hashes r) E slots new k → (∀ x, x ∈ E → x ∈ D ∧ x ∉ S) → NoDup new →
  (∀ b, b ∈ new → (b ∉ concat ((λ t, spec_block_ids (t_spec t).2) <$> lq) ++ concat ((λ x, spec_block_ids x.2.2) <$> lds))
    ∧ ∀ id s, out w sq id s → b ∉ spec_block_ids s.1) →
  data_inv group f D S ∅ own (<[id := E]> held) os lab' [] (lds ++ [(id, load_spec slots new k)]) w sq lq m.
Proof.
  intros [d1 d1' d2 d3 d4 d5 d6 d7 d8 d9 d10 d11 d12] Hid Hlds Hlq Hr Hlo HE Hnd Hnew.
  assert (concat ((λ x : string * TransferSpec, spec_block_ids x.2.2) <$> lds ++ [(id, load_spec slots new k)])
    = concat ((λ x : string * TransferSpec, spec_block_ids x.2.2) <$> lds) ++ new) as Et by (rewrite fmap_app, concat_app; cbn; by rewrite app_nil_r).
  split; rewrite ?Et; try done.
  - intros a x. rewrite part_insert. case_decide; [|apply d2]. intros Hx. destruct (HE x Hx) as [H1 H2]. split_and!; [done|done|]. intros b. unfold part. rewrite lookup_empty. apply not_elem_of_empty.
  - by intros a b ?%elem_of_nil.
  - intros a b x Hx Hb. rewrite app_assoc, elem_of_app. intros [Hin|Hin]; [by apply (d8 a b x Hx Hb)|].
    destruct Hx as [Hx|?%elem_of_nil]; [|done]. by apply (proj2 (Hnew x Hin) a b).
  - rewrite app_assoc. apply NoDup_app. split_and!; [done| |done]. intros b Hb Hb'. by apply (proj1 (Hnew b Hb')).
  - intros a s [Hin|Hin%list_elem_of_singleton]%elem_of_app.
    + destruct (d11 a s Hin) as (r' & sl & ids & k0 & H1 & H2 & H3). exists r', sl, ids, k0. split_and!; [done|done|]. rewrite part_insert, decide_False; [done|].
      intros ->. apply Hlds. by apply (list_elem_of_fmap_2 fst _ (id, s)).
    + injection Hin as -> ->. exists r, slots, new, k. split_and!; [done|done|]. by rewrite part_insert, decide_True.
  - intros t a Ht Hj. destruct (d12 t a Ht Hj) as (r' & H1 & H2). exists r'. split; [done|]. rewrite part_insert, decide_False; [done|]. intros ->. by apply (Hlq t Ht).
Qed.

(** Without stores under way the data does not depend on what is to be computed. *)
Lemma data_lab D S X own held os lab lab' lds w sq lq m :
  data_inv group f D S X own held os lab [] lds w sq lq m → data_inv group f D S X own held os lab' [] lds w sq lq m.
Proof. intros []. split; try done. by intros a b ?%elem_of_nil. Qed.

Lemma keys_known c w pend lds id :
  keys_inv c w pend lds → (id ∈ _requests c ∨ _reqs_being_stored c !! id = None) → keys_inv (known c id) w pend lds.
Proof.
  clear Hg Hf group gbs f.
  intros [k1 k2 k3 k4 k5 k6] Hid. split; try done; cbn [known with_request_blocks _requests].
  - intros a Ha%k5. set_solver.
  - intros a Ha. destruct (k6 a Ha) as (H1 & J & HJ & H2). split; [|by exists J]. intros [->%elem_of_singleton|?]%elem_of_union; [|done].
    destruct Hid as [?|Hn]; [done|]. assert (id ∈ dom (_reqs_being_stored c)) as Hd by (rewrite k1, elem_of_union; left; apply elem_of_dom; by eexists).
    apply elem_of_dom in Hd as [? ?]. congruence.
Qed.

Lemma keys_loading c w lds id m' hs slots new k num_blocks :
  keys_inv c w [] lds → (id ∈ _requests c ∨ _reqs_being_stored c !! id = None) → _reqs_being_loaded c !! id = None →
  keys_inv (loading_state c id m' hs slots new k num_blocks) w [] (lds ++ [(id, load_spec slots new k)]).
Proof.
  clear Hg Hf group gbs f.
  intros Hk Hid Hl. assert (id ∉ dom (_load_job w) ∪ list_to_set lds.*1) as Hn by (rewrite <- (k_loaded Hk); by apply not_elem_of_dom).
  apply (keys_known _ _ _ _ id) in Hk as [k1 k2 k3 k4 k5 k6]; [|done].
  split; try done; cbn [loading_state with_next_stored with_loads with_manager _reqs_being_loaded _reqs_being_stored]; rewrite ?fmap_app.
  - rewrite dom_insert_L. cbn [known with_request_blocks _reqs_being_loaded] in k2. rewrite k2, list_to_set_app_L. cbn. set_solver.
  - apply NoDup_app. split_and!; [done| |by apply NoDup_singleton]. intros a Ha ->%list_elem_of_singleton. apply Hn. set_solver.
  - intros a [Ha|Ha%list_elem_of_singleton]%elem_of_app; [by apply k4|]. cbn in Ha. subst a. apply not_elem_of_dom. set_solver.
Qed.
End admission.
