(* ===== verification/ConnectorStore.v ===== *)
(** * The scheduler side of the offloading connector: stores

    [_get_reqs_to_store] prepares stores of device blocks into slots that nothing else
    uses; stores are completed for preempted and for finished requests, loads for
    requests that have received their blocks. *)

From S2P Require Import Prelude Blocks Request Scheduler OffloadPolicy Offload Transfers Connector ConnectorLaws ConnectorWorld ConnectorInv ConnectorWorker ConnectorSched ConnectorAdmit.
#[local] Open Scope Z_scope.

Section store.
Context `{PyRuntime} (group : bytes → list bytes) (gbs f : Z) (Hg : 0 < gbs) (Hf : 0 < f).
Context {M : Type} `{!OffloadingManager M} `{!OffloadingManagerLaws M}.
Implicit Types (c : OffloadingConnectorScheduler M) (r : Request).
Abbreviation sched := (sched_inv group gbs f).
Abbreviation data := (data_inv group f).

(** ** The device blocks of a store *)

Lemma track_blocks_ok (ids : gmap string (list Z)) id groups (preempted : bool) old :
  ids !! id = Some old →
  ∃ ids', track_blocks ids id groups preempted = Ok ids'
    ∧ ids' !! id = Some ((if preempted then [] else old) ++ match groups with Some (g :: _) => g | _ => [] end)
    ∧ (∀ id', id' ≠ id → ids' !! id' = ids !! id') ∧ dom ids' = dom ids.
Proof.
  clear Hg Hf group gbs f.
  intros Hid. assert (id ∈ dom ids) as Hd by (apply elem_of_dom; by eexists). unfold track_blocks.
  set (ids1 := if preempted then <[id := []]> ids else ids). set (l1 := if preempted then [] else old).
  assert (ids1 !! id = Some l1 ∧ (∀ id', id' ≠ id → ids1 !! id' = ids !! id') ∧ dom ids1 = dom ids) as (H1 & H2 & H3).
  { unfold ids1, l1. destruct preempted; [|done]. rewrite lookup_insert_eq, dom_insert_L. split_and!; [done|intros; by rewrite lookup_insert_ne|set_solver]. }
  destruct groups as [[|g groups]|]; [exists ids1; rewrite app_nil_r; done| |exists ids1; rewrite app_nil_r; done].
  change (py_index (g :: groups) 0) with (Ok g). cbn [mbind res_bind]. rewrite H1. eexists. split; [done|]. rewrite lookup_insert_eq, dom_insert_L, H3.
  split_and!; [done|intros; rewrite lookup_insert_ne by done; by apply H2|set_solver].
Qed.

(** The blocks that are stored, in the order of the request. *)
Lemma sublist_is_filter (sub hs : list bytes) : sub `sublist_of` hs → NoDup hs → sub = filter (λ h, h ∈ sub) hs.
Proof.
  induction 1 as [|h sub hs Hs IH|h sub hs Hs IH]; intros Hnd; [done| |].
  - apply NoDup_cons in Hnd as [Hh Hnd]. rewrite filter_cons_True by (by left). f_equal. rewrite IH at 1 by done. apply list_filter_iff'.
    intros x Hx. rewrite elem_of_cons. split; [by right|]. intros [->|?]; done.
  - apply NoDup_cons in Hnd as [Hh Hnd]. rewrite filter_cons_False; [by apply IH|]. intros Hin. apply Hh. by apply (elem_of_sublist sub).
Qed.

Lemma index_blocks (l : list Z) start :
  0 ≤ start → (start + 1) * f ≤ zlen l →
  rmap (λ i, py_index l (start * f + i)) (zrange 0 f) = Ok (take (Z.to_nat f) (drop (Z.to_nat (start * f)) l)).
Proof.
  intros Hs Hl. unfold zlen in Hl. rewrite (rmap_Ok _ (λ i, default 0 (l !! Z.to_nat (start * f + i)))).
  - f_equal. apply list_eq. intros k. rewrite list_lookup_fmap. destruct (decide (Z.of_nat k < f)) as [Hk|Hk].
    + rewrite zrange_lookup by lia. cbn. rewrite lookup_take_lt, lookup_drop by lia. replace (Z.to_nat (start * f) + k)%nat with (Z.to_nat (start * f + (0 + Z.of_nat k))) by lia.
      destruct (lookup_lt_is_Some_2 l (Z.to_nat (start * f + (0 + Z.of_nat k)))) as [b ->]; [nia|done].
    + rewrite (lookup_ge_None_2 (zrange 0 f)) by (rewrite length_zrange; lia). cbn. symmetry. apply lookup_ge_None_2. rewrite length_take. lia.
  - intros i Hi%elem_of_zrange. apply py_index_nonneg; [nia|]. destruct (lookup_lt_is_Some_2 l (Z.to_nat (start * f + i))) as [b E]; [nia|]. by rewrite E.
Qed.

Lemma source_blocks_from (l : list Z) (to_store : gset bytes) hs start n :
  0 ≤ start → (start + Z.of_nat n + zlen hs) * f ≤ zlen l →
  ∃ ls, rmap (λ ih : nat * bytes, if bool_decide (ih.2 ∈ to_store) then rmap (λ i, py_index l ((start + Z.of_nat ih.1) * f + i)) (zrange 0 f) else Ok [])
          (imap (λ i h, ((n + i)%nat, h)) hs) = Ok ls
    ∧ length (concat ls) = (length (filter (λ h, h ∈ to_store) hs) * Z.to_nat f)%nat
    ∧ (∀ b, b ∈ concat ls → b ∈ l)
    ∧ ∀ j h, filter (λ h, h ∈ to_store) hs !! j = Some h → ∃ k, hs !! k = Some h ∧
        ∀ i : nat, Z.of_nat i < f → concat ls !! (j * Z.to_nat f + i)%nat = l !! (Z.to_nat (start + Z.of_nat (n + k)) * Z.to_nat f + i)%nat.
Proof.
  intros Hs. revert n. induction hs as [|h hs IH]; intros n Hl.
  - exists []. cbn. split_and!; [done|done|by intros b ?%elem_of_nil|]. intros j h E. by rewrite lookup_nil in E.
  - rewrite zlen_cons in Hl. destruct (IH (S n)) as (ls & E & Hlen & Hin & Hk); [lia|]. cbn [imap rmap fst snd].
    assert (imap ((λ i h, ((n + i)%nat, h)) ∘ S) hs = imap (λ i h, ((S n + i)%nat, h)) hs) as -> by (apply imap_ext; intros; cbn; f_equal; lia).
    rewrite E. pose proof (zlen_nonneg hs). rewrite Nat.add_0_r. case_bool_decide as Hh.
    + rewrite index_blocks by nia. cbn [mbind res_bind]. set (blk := take _ _). assert (length blk = Z.to_nat f) as Hblk by (unfold blk, zlen in *; rewrite length_take, length_drop; nia).
      exists (blk :: ls). rewrite filter_cons_True by done. cbn [concat]. split_and!; [done|rewrite length_app; cbn; lia| |].
      * intros b [Hb|Hb]%elem_of_app; [|by apply Hin]. unfold blk in Hb. eauto with py.
      * intros [|j] h' Hj; cbn in Hj.
        -- injection Hj as <-. exists 0%nat. split; [done|]. intros i Hi. rewrite lookup_app_l by lia. unfold blk. rewrite lookup_take_lt, lookup_drop by lia. f_equal. nia.
        -- destruct (Hk j h' Hj) as (k & Hk1 & Hk2). exists (S k). split; [done|]. intros i Hi. rewrite lookup_app_r by lia. rewrite Hblk.
           replace (S j * Z.to_nat f + i - Z.to_nat f)%nat with (j * Z.to_nat f + i)%nat by lia. rewrite Hk2 by done. do 3 f_equal. lia.
    + cbn [mbind res_bind]. exists ([] :: ls). rewrite filter_cons_False by done. cbn [concat app]. split_and!; [done|done|done|].
      intros j h' Hj. destruct (Hk j h' Hj) as (k & Hk1 & Hk2). exists (S k). split; [done|]. intros i Hi. rewrite Hk2 by done. do 3 f_equal. lia.
Qed.

Lemma source_blocks_ok (l : list Z) (sub hs : list bytes) start :
  0 ≤ start → (start + zlen hs) * f ≤ zlen l → sub `sublist_of` hs → NoDup hs →
  ∃ srcs, source_blocks f start l (list_to_set sub) hs = Ok srcs ∧ zlen srcs = zlen sub * f ∧ (∀ b, b ∈ srcs → b ∈ l)
    ∧ ∀ j h, sub !! j = Some h → ∃ k, hs !! k = Some h ∧
        ∀ i : nat, Z.of_nat i < f → srcs !! (j * Z.to_nat f + i)%nat = l !! (Z.to_nat (start + Z.of_nat k) * Z.to_nat f + i)%nat.
Proof.
  intros Hs Hl Hsub Hnd. destruct (source_blocks_from l (list_to_set sub) hs start 0 Hs) as (ls & E & Hlen & Hin & Hk); [lia|].
  assert (filter (λ h, h ∈ (list_to_set sub : gset bytes)) hs = sub) as Ef.
  { etrans; [|symmetry; by apply (sublist_is_filter sub hs)]. apply list_filter_iff'. intros x _. by rewrite elem_of_list_to_set. }
  rewrite Ef in Hlen, Hk. unfold source_blocks. cbn [Nat.add] in E.
  assert (imap pair hs = imap (λ i h, (i, h)) hs) as -> by done. rewrite E. cbn [mbind res_bind]. exists (concat ls).
  split_and!; [done|unfold zlen; nia|done|]. intros j h Hj. by apply Hk.
Qed.

(** ** New stores *)

Lemma store_ok_mono (lab lab' : Z → bytes → Prop) (E E' : entries) s :
  (∀ b d, lab b d → lab' b d) → E ⊆ E' → store_ok group f lab E s → store_ok group f lab' E' s.
Proof.
  intros Hlab HE (srcs & slots & -> & Hl & Hk). exists srcs, slots. split_and!; [done|done|]. intros k sl Hs. destruct (Hk k sl Hs) as (h & Hh & Hi).
  exists h. split; [by apply HE|]. intros i d Hif Hgr. destruct (Hi i d Hif Hgr) as (b & Hb & Hd). exists b. auto.
Qed.

Lemma data_lab_mono D S X own held os (lab lab' : string → Z → bytes → Prop) pend lds w sq lq m :
  data D S X own held os lab pend lds w sq lq m → (∀ id b d, id ∈ pend.*1 → lab id b d → lab' id b d) →
  data D S X own held os lab' pend lds w sq lq m.
Proof.
  intros [] Hlab. split; try done. intros id s Hin. eapply store_ok_mono; [| |by eauto]; [|done]. intros b d. apply Hlab. by apply (list_elem_of_fmap_2 fst _ (id, s)).
Qed.

Lemma part_empty id : part ∅ id = ∅.
Proof. unfold part. by rewrite lookup_empty. Qed.

(** Resident blocks that no transfer uses are evicted. *)
Lemma data_evict (D D' S : entries) own held os lab pend lds w sq lq m :
  data D S ∅ own held os lab pend lds w sq lq m → D' ⊆ D → (∀ id x, x ∈ part held id → x ∈ D') → data D' S ∅ own held os lab pend lds w sq lq m.
Proof.
  intros [d1 d1' d2 d3 d4 d5 d6 d7 d8 d9 d10 d11 d12] HD Hh. split; try done.
  - intros a x Hx. destruct (d2 a x Hx) as (_ & H1 & H2). by split_and!; [apply (Hh a)| |].
  - intros h s Hin. apply d4. by apply HD.
Qed.

(** A request stores further blocks. *)
Lemma data_store (D D' S N : entries) own held os lab pend lds w sq lq m id sp :
  data D S ∅ own held os lab pend lds w sq lq m → S ⊆ D → D' ⊆ D → (∀ h s s', (h, s) ∈ N → (h, s') ∉ D) →
  (∀ a x, x ∈ part held a → x ∈ N ∪ D' ∧ x ∉ N ∪ S) → store_ok group f (lab id) (part own id ∪ N) sp →
  (∀ h s, (h, s) ∈ N → s ∈ spec_block_ids sp.2) →
  (∀ b, b ∈ spec_block_ids sp.1 → b ∉ concat ((λ t, spec_block_ids (t_spec t).2) <$> lq) ++ concat ((λ x, spec_block_ids x.2.2) <$> lds)) →
  data (N ∪ D') (N ∪ S) ∅ (<[id := part own id ∪ N]> own) held os lab (pend ++ [(id, sp)]) lds w sq lq m.
Proof.
  clear Hg Hf gbs.
  intros [d1 d1' d2 d3 d4 d5 d6 d7 d8 d9 d10 d11 d12] HS HD HN Hh Hok Hsl Hsrc.
  assert (∀ a, part own a ⊆ part (<[id := part own id ∪ N]> own) a) as Hsub by (intros a; rewrite part_insert; case_decide; [subst|]; set_solver).
  assert (∀ a x, x ∈ part (<[id := part own id ∪ N]> own) a → x ∈ part own a ∨ (x ∈ N ∧ a = id)) as Hinv by (intros a x; rewrite part_insert; case_decide; [subst|]; set_solver).
  assert (∀ a x, x ∈ part own a → x ∈ N → False) as Hno by (intros a [h s] Ha Hx; apply (HN h s s Hx), HS, (d1 a), Ha).
  split; try done.
  - intros a x [Hx|[Hx _]]%Hinv; [apply d1 in Hx|]; set_solver.
  - intros a b x. rewrite !part_empty, !(right_id_L ∅ (∪)). intros Ha Hb. apply Hinv in Ha as [Ha|[Ha ->]], Hb as [Hb|[Hb ->]]; [apply (d1' a b x); set_solver| | |done].
    + by destruct (Hno a x).
    + by destruct (Hno b x).
  - intros a x Hx. destruct (Hh a x Hx). destruct (d2 a x Hx) as (_ & _ & ?). by split_and!.
  - intros h s Hin Hn _. apply d4; [set_solver|set_solver|]. intros a. rewrite part_empty. apply not_elem_of_empty.
  - intros a b Hab. eapply store_ok_mono; [| |by apply d5]; [done|]. pose proof (Hsub a). set_solver.
  - intros a b [Hab|Hab%list_elem_of_singleton]%elem_of_app; [eapply store_ok_mono; [|apply Hsub|by apply d6]; done|].
    injection Hab as -> ->. by rewrite part_insert, decide_True.
  - intros a h s. rewrite part_empty, (right_id_L ∅ (∪)). intros [Hx|[Hx ->]]%Hinv.
    + destruct (d7 a h s) as [?|(sp' & Hor & ?)]; [set_solver|by left|]. right. exists sp'. split; [|done]. destruct Hor as [?|?]; [by left|]. right. apply elem_of_app. by left.
    + right. exists sp. split; [|by apply (Hsl h)]. right. apply elem_of_app. right. by left.
  - intros a b x [Ho|[Hp|Hp%list_elem_of_singleton]%elem_of_app]; [apply (d8 a b x); by left|apply (d8 a b x); by right|]. injection Hp as -> ->. apply Hsrc.
Qed.

Lemma stored_part c os D S own held id : sched c os D S own held → default ∅ (_reqs_being_stored c !! id) = set_map fst (part own id).
Proof. intros Hs. rewrite (s_stored Hs), lookup_fmap. unfold part. destruct (own !! id); cbn; [done|]. by rewrite set_map_empty. Qed.

Lemma sched_store c (D D' S N : entries) os own held id m' :
  sched c os D S own held → om_rel m' (N ∪ D') (msum held) (N ∪ S) →
  sched (with_being_stored (with_manager c m') (<[id := default ∅ (_reqs_being_stored c !! id) ∪ set_map fst N]> (_reqs_being_stored c)))
    os (N ∪ D') (N ∪ S) (<[id := part own id ∪ N]> own) held.
Proof.
  clear Hg Hf.
  intros Hs Hrel. pose proof (stored_part _ _ _ _ _ _ id Hs) as Est. destruct Hs as [s1 s2 s3 s4 s5 s6 s7 s8 s9 s10 s11]. split; try done; cbn [with_being_stored with_manager _reqs_being_stored manager].
  - rewrite fmap_insert, Est, s5. f_equal. by rewrite set_map_union_L.
  - intros x. rewrite elem_of_union, s7. setoid_rewrite part_insert. split.
    + intros [Hx|[a Ha]]; [exists id; rewrite decide_True by done; set_solver|]. exists a. case_decide; [subst; set_solver|done].
    + intros [a Ha]. case_decide; [|right; by exists a]. apply elem_of_union in Ha as [Ha|Ha]; [right; by exists id|by left].
Qed.

(** ** Completing stores and loads *)

(** A preempted request: its stores count as done before they are. *)
Lemma data_flush (D S : entries) X own held os lab pend lds w sq lq m id :
  data D S X own held os lab pend lds w sq lq m → S ⊆ D → X !! id = None → id ∉ pend.*1 →
  data D (S ∖ part own id) (<[id := part own id]> X) (<[id := ∅]> own) held os lab pend lds w sq lq m.
Proof.
  clear Hg Hf gbs.
  intros [d1 d1' d2 d3 d4 d5 d6 d7 d8 d9 d10 d11 d12] HS HX Hp.
  assert (part X id = ∅) as EX by (unfold part; by rewrite HX).
  assert (∀ a, part (<[id := ∅]> own) a ∪ part (<[id := part own id]> X) a = part own a ∪ part X a) as Eu.
  { intros a. rewrite !part_insert. case_decide; [subst; rewrite EX; set_solver|done]. }
  split; try done; try setoid_rewrite Eu; try done.
  - intros a x. rewrite part_insert. case_decide; [by intros ?%not_elem_of_empty|]. intros Ha. apply elem_of_difference. split; [by apply (d1 a)|]. intros Hid.
    assert (a = id); [|done]. apply (d1' a id x); set_solver.
  - intros a x Hx. destruct (d2 a x Hx) as (H1 & H2 & H3). split_and!; [done|set_solver|]. intros b. rewrite part_insert. case_decide; [|apply H3]. intros Hb. by apply H2, (d1 id).
  - intros a x. rewrite part_insert. case_decide.
    + intros Hx. split; [by apply HS, (d1 id)|]. set_solver.
    + intros Hx. destruct (d3 a x Hx). split; [done|]. set_solver.
  - intros h s HD Hn HnX. apply d4; [done| |].
    + intros Hin. apply Hn, elem_of_difference. split; [done|]. specialize (HnX id). by rewrite part_insert, decide_True in HnX.
    + intros a Ha. apply (HnX a). rewrite part_insert. case_decide; [|done]. subst a. rewrite EX in Ha. by apply not_elem_of_empty in Ha.
  - intros a b Hab. rewrite part_insert, decide_False; [by apply d6|]. intros ->. apply Hp. by apply (list_elem_of_fmap_2 fst _ (id, b)).
Qed.

Lemma data_own_ext D S X own own' held os lab pend lds w sq lq m :
  (∀ a, part own' a = part own a) → data D S X own held os lab pend lds w sq lq m → data D S X own' held os lab pend lds w sq lq m.
Proof.
  intros E [d1 d1' d2 d3 d4 d5 d6 d7 d8 d9 d10 d11 d12]. split; try done; try setoid_rewrite E; done.
Qed.

(** A request whose stores have all been carried out. *)
Lemma data_stored (D S : entries) own held os lab pend lds w sq lq m id :
  data D S ∅ own held os lab pend lds w sq lq m → S ⊆ D → id ∉ pend.*1 → (∀ s, ¬ out w sq id s) →
  data D (S ∖ part own id) ∅ (delete id own) held os lab pend lds w sq lq m.
Proof.
  clear Hg Hf gbs.
  intros Hd HS Hp Ho. eapply (data_flush _ _ _ _ _ _ _ _ _ _ _ _ _ id) in Hd; [|done|done|done].
  apply (data_waited group f) with (id := id) in Hd; [|done|done]. rewrite delete_insert_id in Hd by done.
  eapply data_own_ext; [|done]. intros a. rewrite part_delete, part_insert. done.
Qed.

Lemma data_received (D S : entries) own held os lab pend lds w sq lq m id :
  data D S ∅ own held os lab pend lds w sq lq m → id ∉ lds.*1 → (∀ t, t ∈ lq → _jobs w !! t_job_id t ≠ Some (id, false)) →
  data D S ∅ own (delete id held) os lab pend lds w sq lq m.
Proof.
  intros [d1 d1' d2 d3 d4 d5 d6 d7 d8 d9 d10 d11 d12] Hl Ht. split; try done.
  - intros a x. rewrite part_delete. case_decide; [by intros ?%not_elem_of_empty|apply d2].
  - intros a s Hin. rewrite part_delete, decide_False; [by apply d11|]. intros ->. apply Hl. by apply (list_elem_of_fmap_2 fst _ (id, s)).
  - intros t a Hin Hj. rewrite part_delete, decide_False; [by apply d12|]. intros ->. by apply (Ht t).
Qed.
End store.
