(* ===== verification/ConnectorMeta.v ===== *)
(** * The metadata of a step, and the completion of transfers

    [build_connector_meta] and [update_connector_output] keep the invariant of the
    offloading connector. *)

From S2P Require Import Prelude Blocks Request Scheduler OffloadPolicy Offload Transfers Connector ConnectorLaws ConnectorWorld ConnectorInv ConnectorWorker ConnectorSched ConnectorAdmit ConnectorStore.
#[local] Open Scope Z_scope.

Section meta.
Context `{PyRuntime} (group : bytes → list bytes) (gbs f : Z) (Hg : 0 < gbs) (Hf : 0 < f).
Context {M : Type} `{!OffloadingManager M} `{!OffloadingManagerLaws M}.
Implicit Types (c : OffloadingConnectorScheduler M).
Context (os : gmap string Request) (w : OffloadingConnectorWorker) (sq lq : list Transfer) (m : Memories).
Abbreviation sched := (sched_inv group gbs f).

(** The state of the scheduler side under a given state of the worker. *)
Definition side_inv (X : holding) c (pend lds : list (string * TransferSpec)) : Prop := ∃ D S own held,
  sched c os D S own held ∧ keys_inv c w pend lds ∧ data_inv group f D S X own held os (to_be_computed f c os) pend lds w sq lq m.

Lemma sched_unique c D S own held : sched c os D S own held → slots_unique D.
Proof. intros Hs h h' s s'. by apply (om_injective _ _ _ _ _ _ _ _ (s_rel Hs)). Qed.
Lemma sched_stored_resident c D S own held : sched c os D S own held → S ⊆ D.
Proof. intros Hs. by apply (om_storing _ _ _ _ (s_rel Hs)). Qed.
Lemma sched_held c D S own held id x : sched c os D S own held → x ∈ part held id → x ∈ D ∧ x ∉ S.
Proof. intros Hs Hx. apply (om_loading _ _ _ _ _ (s_rel Hs)). by eapply msum_elem. Qed.

(** ** Stores of a step *)

(** The parts of the state that [_get_reqs_to_store] leaves alone. *)
Record store_frame c c' (id : string) : Prop := {
  f_requests : _requests c' = _requests c;
  f_loads : _reqs_to_load c' = _reqs_to_load c;
  f_obs : offloaded_block_size c' = offloaded_block_size c;
  f_factor : block_size_factor c' = block_size_factor c;
  f_blocks id' : id' ≠ id → _request_block_ids c' !! id' = _request_block_ids c !! id';
}.

(** A scheduled request, and the blocks it has. *)
Definition storable c (scheduled : list (string * Z)) (lds : list (string * TransferSpec)) (x : string * option (list (list Z)) * bool) : Prop :=
  ∃ r n, os !! x.1.1 = Some r ∧ od_get scheduled x.1.1 = Some n ∧ x.1.1 ∈ _requests c
    ∧ Z.min (num_computed_tokens r + n) (num_tokens r) / (gbs * f) * f ≤ zlen (scheduled_block_ids c x)
    ∧ ∀ b, b ∈ scheduled_block_ids c x → b ∉ concat ((λ t, spec_block_ids (t_spec t).2) <$> lq) ++ concat ((λ x, spec_block_ids x.2.2) <$> lds).

Lemma tracked_side c pend lds id ids' :
  side_inv ∅ c pend lds → id ∉ pend.*1 → (∀ id', id' ≠ id → ids' !! id' = _request_block_ids c !! id') → dom ids' = dom (_request_block_ids c) →
  ∃ D S own held, let c1 := with_request_blocks c (_requests c) ids' in
    sched c1 os D S own held ∧ keys_inv c1 w pend lds ∧ data_inv group f D S ∅ own held os (to_be_computed f c1 os) pend lds w sq lq m.
Proof.
  intros (D & S & own & held & Hs & Hk & Hd) Hid Hne Hdom. exists D, S, own, held. split_and!.
  - destruct Hs as [s1 s2 s3 s4 s5 s6 s7 s8 s9 s10 s11]. split; try done. cbn [with_request_blocks _requests _request_block_ids]. by rewrite Hdom.
  - by destruct Hk.
  - eapply data_lab_mono; [done|]. intros a b d Ha (r & l & n & i & H1 & H2 & H3). exists r, l, n, i. split_and!; [done| |tauto..].
    cbn [with_request_blocks _request_block_ids]. rewrite Hne; [done|]. by intros ->.
Qed.

(** The next block to be stored of a request moves on. *)
Lemma next_stored_lab c id n (pend : list (string * TransferSpec)) b d a :
  a ∈ pend.*1 → id ∉ pend.*1 → to_be_computed f c os a b d →
  to_be_computed (M := M) f (with_next_stored c (<[id := n]> (_next_stored_block_idx c))) os a b d.
Proof.
  intros Ha Hid (r & l & k & i & H1 & H2 & H3 & H4). exists r, l, k, i. split_and!; [done|done| |tauto..]. cbn [with_next_stored _next_stored_block_idx].
  rewrite lookup_insert_ne; [done|]. by intros ->.
Qed.

Lemma sched_next c D S own held id n : sched c os D S own held → 0 ≤ n → sched (with_next_stored c (<[id := n]> (_next_stored_block_idx c))) os D S own held.
Proof.
  intros [s1 s2 s3 s4 s5 s6 s7 s8 s9 s10 s11] Hn. split; try done. cbn [with_next_stored _next_stored_block_idx]. intros a k. rewrite lookup_insert.
  case_decide; [by intros [= <-]|apply s11].
Qed.

(** What is stored for a request is the data of its blocks. *)
Lemma store_spec_ok (E : entries) c D S own held id r l start num_blocks (hs sub : list bytes) (slots : list Z) :
  sched c os D S own held → os !! id = Some r → _request_block_ids c !! id = Some l → _next_stored_block_idx c !! id = Some num_blocks →
  0 ≤ start → start < num_blocks → num_blocks * f ≤ zlen (block_hashes r) → num_blocks * f ≤ zlen l →
  _get_block_hashes c r start (Some num_blocks) = Ok hs → sub `sublist_of` hs → length slots = length sub → (list_to_set (zip sub slots) : entries) ⊆ E →
  ∃ srcs, source_blocks f start l (list_to_set sub) hs = Ok srcs ∧ (∀ b, b ∈ srcs → b ∈ l)
    ∧ store_ok group f (to_be_computed f c os id) E (GPULoadStoreSpec srcs [zlen srcs] None, CPULoadStoreSpec slots).
Proof.
  intros Hs Hr Hl Hn Hst Hlt Hfit Hblk Ehs Hsub Hlen HE. destruct (s_hashed Hs id r Hr) as [_ Hh].
  destruct (get_hashes_upto f Hf c r start num_blocks (s_factor Hs)) as (hs' & Ehs' & Hlen' & Hk'); [lia|lia|done|]. rewrite Ehs in Ehs'. injection Ehs' as <-.
  assert (NoDup hs) as Hnd by (apply (hashes_distinct f Hf r hs start); [apply Hh|done|done]).
  destruct (source_blocks_ok f Hf l sub hs start Hst) as (srcs & E1 & E2 & E3 & E4); [unfold zlen at 1; rewrite Hlen', Z2Nat.id by lia; lia|done|done|].
  exists srcs. split_and!; [done|done|]. exists srcs, slots. split_and!; [done|unfold zlen in *; lia|]. intros k s Hk.
  pose proof (lookup_lt_Some _ _ _ Hk). destruct (lookup_lt_is_Some_2 sub k) as [h Hh']; [lia|]. exists h. split.
  { apply HE, elem_of_list_to_set, list_elem_of_lookup. exists k. by apply lookup_zip_Some. }
  destruct (E4 k h Hh') as (k' & Hhk & Hsrc). pose proof (lookup_lt_Some _ _ _ Hhk). rewrite Hk' in Hhk by done. intros i d Hi Hgr.
  assert ((start + Z.of_nat k' + 1) * f ≤ num_blocks * f) as Hb by nia.
  rewrite (hashed_group group gbs f Hf r (start + Z.of_nat k') h i Hh) in Hgr; [|lia|lia|done|done].
  destruct (lookup_lt_is_Some_2 l (Z.to_nat (start + Z.of_nat k') * Z.to_nat f + i)) as [b Hlb]; [unfold zlen in Hblk; nia|].
  exists b. split; [by rewrite Hsrc|]. exists r, l, num_blocks, (Z.to_nat (start + Z.of_nat k') * Z.to_nat f + i)%nat. split_and!; [done..|nia].
Qed.

(** A request with nothing to store, or whose blocks are all resident already. *)
Lemma nothing_stored (D D' S : entries) c pend lds id n m' own held :
  sched c os D S own held → keys_inv c w pend lds → data_inv group f D S ∅ own held os (to_be_computed f c os) pend lds w sq lq m →
  id ∉ pend.*1 → 0 ≤ n → D' ⊆ D → om_rel m' D' (msum held) S →
  side_inv ∅ (with_next_stored (with_manager c m') (<[id := n]> (_next_stored_block_idx c))) pend lds.
Proof.
  intros Hs Hk Hd Hid Hn HD Hrel. exists D', S, own, held. split_and!.
  - apply (sched_next (with_manager c m')); [|done]. destruct Hs. by split.
  - by destruct Hk.
  - eapply data_lab_mono; [|intros a b d Ha; by apply (next_stored_lab (with_manager c m') id n pend)].
    eapply data_evict; [exact Hd|done|]. intros a x Hx. apply (om_loading _ _ _ _ _ Hrel). by eapply msum_elem.
Qed.

(** The stores that a request starts. *)
Lemma blocks_stored (D D' S : entries) c pend lds id n m' own held (sub : list bytes) (slots srcs : list Z) :
  sched c os D S own held → keys_inv c w pend lds →
  let N : entries := list_to_set (zip sub slots) in
  let c1 := with_next_stored c (<[id := n]> (_next_stored_block_idx c)) in
  data_inv group f D S ∅ own held os (to_be_computed f c1 os) pend lds w sq lq m →
  id ∉ pend.*1 → id ∈ _requests c → 0 ≤ n → D' ⊆ D → length slots = length sub → (∀ h s, h ∈ sub → (h, s) ∉ D) →
  om_rel m' (N ∪ D') (msum held) (N ∪ S) →
  store_ok group f (to_be_computed f c1 os id) (part own id ∪ N) (GPULoadStoreSpec srcs [zlen srcs] None, CPULoadStoreSpec slots) →
  (∀ b, b ∈ srcs → b ∉ concat ((λ t, spec_block_ids (t_spec t).2) <$> lq) ++ concat ((λ x, spec_block_ids x.2.2) <$> lds)) →
  side_inv ∅ (with_being_stored (with_manager c1 m') (<[id := default ∅ (_reqs_being_stored c !! id) ∪ list_to_set sub]> (_reqs_being_stored c)))
    (pend ++ [(id, (GPULoadStoreSpec srcs [zlen srcs] None, CPULoadStoreSpec slots))]) lds.
Proof.
  intros Hs Hk N c1 Hd Hid Hrq Hn HD Hlen Habs Hrel Hok Hsrc. exists (N ∪ D'), (N ∪ S), (<[id := part own id ∪ N]> own), held. split_and!.
  - apply (sched_next _ _ _ _ _ id n) in Hs; [|done]. pose proof (sched_store group gbs f _ D D' S N _ _ _ id m' Hs Hrel) as Hs'. unfold N in Hs' at 1. rewrite zip_fst in Hs' by done. exact Hs'.
  - destruct Hk as [k1 k2 k3 k4 k5 k6]. split; try done; cbn [with_being_stored _reqs_being_stored with_next_stored with_manager].
    + rewrite dom_insert_L, k1, fmap_app, list_to_set_app_L. cbn. set_solver.
    + intros a. rewrite fmap_app, elem_of_app. intros [Ha|Ha%list_elem_of_singleton]; [by apply k5|]. by subst a.
  - eapply (data_store group f D D' S N); [exact Hd|by eapply sched_stored_resident|done| | |exact Hok| |exact Hsrc].
    + intros h s s' Hin%elem_of_list_to_set%elem_of_zip_l. by apply Habs.
    + intros a x Hx. apply (om_loading _ _ _ _ _ Hrel). by eapply msum_elem.
    + intros h s Hin%elem_of_list_to_set%elem_of_zip_r. done.
Qed.

Lemma store_request_ok c pend lds scheduled x :
  side_inv ∅ c pend lds → storable c scheduled lds x → x.1.1 ∉ pend.*1 →
  ∃ c' pend', store_request os scheduled (c, pend) x = Ok (c', pend') ∧ side_inv ∅ c' pend' lds ∧ store_frame c c' x.1.1
    ∧ ∀ id, id ∈ pend'.*1 → id ∈ pend.*1 ∨ id = x.1.1.
Proof.
  destruct x as [[id groups] preempted]. cbn [fst]. intros Hinv (r & n & Hr & Hsch & Hrq & Hblk & Htgt) Hid. cbn [fst] in *.
  assert (∃ old, _request_block_ids c !! id = Some old) as [old Hold].
  { destruct Hinv as (D & S & own & held & Hs & _ & _). rewrite (s_blocks Hs) in Hrq. by apply elem_of_dom in Hrq. }
  destruct (track_blocks_ok (_request_block_ids c) id groups preempted old Hold) as (ids' & Etr & Hl & Hne & Hdom).
  cbn [scheduled_block_ids] in Hblk, Htgt. rewrite Hold in Hblk, Htgt. cbn [default] in Hblk, Htgt. set (l := (if preempted then [] else old) ++ _) in *.
  destruct (tracked_side c pend lds id ids' Hinv Hid Hne Hdom) as (D & S & own & held & Hs & Hk & Hd). cbn zeta in Hs, Hk, Hd.
  set (c1 := with_request_blocks c (_requests c) ids') in *.
  assert (store_frame c c1 id) as Hfr by (by split). unfold store_request. rewrite Etr. cbn [mbind res_bind]. fold c1. change (_requests c1) with (_requests c). rewrite Hl, bool_decide_eq_true_2, Hr by done.
  unfold od_index. rewrite Hsch. cbn [mbind res_bind]. rewrite (s_obs Hs). unfold py_div. rewrite (proj2 (Z.eqb_neq (gbs * f) 0)) by nia. cbn [mbind res_bind].
  set (num_blocks := Z.min _ _ / (gbs * f)) in *. set (start := default 0 (_next_stored_block_idx c1 !! id)).
  assert (0 ≤ start) as Hst by (unfold start; destruct (_next_stored_block_idx c1 !! id) eqn:E; [by apply (s_next Hs) in E|done]).
  change (block_size_factor c) with (block_size_factor c1). rewrite (s_factor Hs).
  destruct (Z.leb_spec (num_blocks - start) 0) as [Hle|Hgt].
  { exists c1, pend. split; [done|]. split; [by exists D, S, own, held|]. split; [done|]. by left. }
  destruct (s_hashed Hs id r Hr) as [_ Hh]. assert (num_blocks * f ≤ zlen (block_hashes r)) as Hfit.
  { rewrite (proj1 Hh). assert (num_blocks ≤ num_tokens r / gbs / f) as Hle; [|pose proof (Z.mul_div_le (num_tokens r / gbs) f ltac:(lia)); nia].
    rewrite Z.div_div by lia. apply Z.div_le_mono; [nia|lia]. }
  rewrite (proj2 (Z.leb_le _ _)) by done. destruct (get_hashes_upto f Hf c1 r start num_blocks (s_factor Hs)) as (hs & Ehs & Hlen & Hkk); [lia|lia|done|].
  rewrite Ehs. cbn [mbind res_bind]. assert (NoDup hs) as Hnd by (apply (hashes_distinct f Hf r hs start); [apply Hh|done|done]).
  destruct (om_prepare_store_spec (manager c1) D (msum held) S hs (s_rel Hs) Hnd) as (o & m' & Ep & Ho). rewrite Ep. cbn [mbind res_bind].
  destruct o as [out|].
  2: { eexists _, pend. split; [done|]. split; [|split; [by split|by left]]. exists D, S, own, held. split_and!; [by apply sched_manager|by destruct Hk|done]. }
  destruct Ho as (Hol & Hsub & Habs & D' & HD & Hrel). set (sub := block_hashes_to_store out) in *. set (slots := store_spec out) in *.
  destruct (Z.eqb_spec (zlen sub) 0) as [Hz|Hnz].
  { eexists _, pend. split; [done|]. split; [|split; [by split|by left]]. apply zlen_0 in Hz. rewrite Hz in Hrel. cbn in Hrel. rewrite !(left_id_L ∅ (∪)) in Hrel.
    by apply (nothing_stored D D' S c1 pend lds id num_blocks m' own held); try lia. }
  set (c2 := with_next_stored (with_manager c1 m') _).
  destruct (get_hashes_upto f Hf c2 r 0 num_blocks (s_factor Hs)) as (hs0 & -> & _ & _); [lia|lia|done|]. cbn [mbind res_bind].
  change (_get_block_hashes (with_manager c2 (om_touch (manager c2) hs0))) with (_get_block_hashes c1). rewrite Ehs. cbn [mbind res_bind].
  set (c1n := with_next_stored c1 (<[id := num_blocks]> (_next_stored_block_idx c1))).
  destruct (store_spec_ok (part own id ∪ list_to_set (zip sub slots)) c1n D S own held id r l start num_blocks hs sub slots) as (srcs & Esrc & Hin & Hok);
    [by apply sched_next; [|lia]|done|done|apply lookup_insert_eq|done|lia|done|done|done|done|done|set_solver|].
  rewrite Esrc. cbn [mbind res_bind]. unfold gpu_spec. cbn [foldr]. rewrite Z.add_0_r, Z.eqb_refl. cbn [mbind res_bind].
  rewrite od_set_fresh by done. eexists _, _. split; [done|]. split; [|split; [by split|]].
  - apply (om_touch_spec _ _ _ _ hs0) in Hrel.
    apply (blocks_stored D D' S c1 pend lds id num_blocks (om_touch m' hs0) own held sub slots srcs); try done; try lia.
    + eapply data_lab_mono; [done|]. intros a b d Ha. by apply (next_stored_lab c1 id num_blocks pend).
    + intros b Hb. apply Htgt. by apply Hin.
  - intros a. rewrite fmap_app, elem_of_app. intros [?|?%list_elem_of_singleton]; [by left|by right].
Qed.

Lemma storable_frame c c' scheduled lds (x x' : string * option (list (list Z)) * bool) : store_frame c c' x.1.1 → x'.1.1 ≠ x.1.1 → storable c scheduled lds x' → storable c' scheduled lds x'.
Proof.
  intros Hfr Hne (r & n & H1 & H2 & H3 & H4). assert (scheduled_block_ids c' x' = scheduled_block_ids c x') as E.
  { destruct x' as [[id groups] preempted]. cbn [scheduled_block_ids]. by rewrite (f_blocks _ _ _ Hfr). }
  exists r, n. rewrite E, (f_requests _ _ _ Hfr). done.
Qed.

Lemma reqs_to_store_ok xs c pend lds scheduled :
  side_inv ∅ c pend lds → Forall (storable c scheduled lds) xs → NoDup xs.*1.*1 → (∀ x, x ∈ xs → x.1.1 ∉ pend.*1) →
  ∃ c' pend', rfold (store_request os scheduled) (c, pend) xs = Ok (c', pend') ∧ side_inv ∅ c' pend' lds
    ∧ _requests c' = _requests c ∧ _reqs_to_load c' = _reqs_to_load c ∧ ∀ id, id ∈ pend'.*1 → id ∈ pend.*1 ∨ id ∈ xs.*1.*1.
Proof.
  revert c pend. induction xs as [|x xs IH]; intros c pend Hinv Hst Hnd Hp; [exists c, pend; split_and!; auto|].
  apply Forall_cons in Hst as [Hx Hst]. cbn in Hnd. apply NoDup_cons in Hnd as [Hn Hnd].
  destruct (store_request_ok c pend lds scheduled x Hinv Hx) as (c1 & pend1 & E & Hinv1 & Hfr & Hp1); [apply Hp; by left|].
  assert (∀ y, y ∈ xs → y.1.1 ≠ x.1.1) as Hne by (intros y Hy Eq; apply Hn; rewrite <- Eq; by do 2 apply list_elem_of_fmap_2).
  cbn [rfold]. rewrite E. cbn [mbind res_bind]. destruct (IH c1 pend1 Hinv1) as (c' & pend' & E' & Hinv' & Hrq & Hlds & Hp'); [|done| |].
  - rewrite Forall_forall in Hst |- *. intros y Hy. eapply storable_frame; [done|by apply Hne|by apply Hst].
  - intros y Hy Hin. apply Hp1 in Hin as [Hin|Hin]; [by apply (Hp y); [by right|]|]. by apply (Hne y).
  - exists c', pend'. split_and!; [done|done|by rewrite Hrq, (f_requests _ _ _ Hfr)|by rewrite Hlds, (f_loads _ _ _ Hfr)|].
    intros id [Hid|Hid]%Hp'; [apply Hp1 in Hid as [?| ->]; [by left|]|]; right; cbn; [by left|by right].
Qed.

(** ** Completion *)

Lemma hashes_empty (E : entries) : (set_map fst E : gset bytes) = ∅ → E = ∅.
Proof.
  intros He. apply set_eq. intros x. split; [|by intros ?%not_elem_of_empty]. intros Hx. assert (x.1 ∈ (set_map fst E : gset bytes)) as Hin by (apply elem_of_map; by exists x).
  rewrite He in Hin. by apply not_elem_of_empty in Hin.
Qed.

(** The hashes of a request stand for its entries. *)
Lemma complete_entries c D S own held id : sched c os D S own held →
  ∃ js, set_iter (set_map fst (part own id) : gset bytes) = js.*1 ∧ NoDup js ∧ (∀ x, x ∈ js ↔ x ∈ part own id).
Proof.
  intros Hs. assert (part own id ⊆ D) as HE. { intros x Hx. eapply sched_stored_resident; [done|]. apply (s_union Hs). by exists id. }
  destruct (entries_of_hashes D (part own id) (sched_unique _ _ _ _ _ Hs) HE) as (js & E & Hp). exists js. split_and!; [done|rewrite Hp; apply NoDup_elements|].
  intros x. by rewrite Hp, elem_of_elements.
Qed.

Lemma complete_own c D S own held id : sched c os D S own held →
  ∃ m', om_complete_store (manager c) (set_iter (set_map fst (part own id) : gset bytes)) true = Ok m' ∧ om_rel m' D (msum held) (S ∖ part own id).
Proof.
  intros Hs. destruct (complete_entries _ _ _ _ _ id Hs) as (js & -> & Hnd & Hin).
  destruct (om_complete_store_spec (manager c) D (msum held) S js (s_rel Hs) Hnd) as (m' & E & Hrel); [intros x Hx%Hin; apply (s_union Hs); by exists id|].
  exists m'. split; [done|]. assert (S ∖ part own id = S ∖ list_to_set js) as ->; [|done]. apply set_eq. intros x. by rewrite !elem_of_difference, elem_of_list_to_set, Hin.
Qed.

(** A request stores nothing any more; it stays known with [own'] or is forgotten. *)
Lemma sched_completed c (D S : entries) own own' held id m' st :
  sched c os D S own held → (∀ x a b, x ∈ part own a → x ∈ part own b → a = b) → om_rel m' D (msum held) (S ∖ part own id) →
  (∀ a, part own' a = if decide (a = id) then ∅ else part own a) → st = set_map fst <$> own' →
  sched (with_being_stored (with_manager c m') st) os D (S ∖ part own id) own' held.
Proof.
  intros [s1 s2 s3 s4 s5 s6 s7 s8 s9 s10 s11] Hdis Hrel Hown ->. split; try done. intros x. rewrite elem_of_difference, s7. setoid_rewrite Hown. split.
  - intros [[a Ha] Hn]. exists a. case_decide; [by subst|done].
  - intros [a Ha]. case_decide as E; [by apply not_elem_of_empty in Ha|]. split; [by exists a|]. intros Hid. apply E. by apply (Hdis x).
Qed.

Lemma own_disjoint (D S : entries) X own held lab pend lds x a b :
  data_inv group f D S X own held os lab pend lds w sq lq m → x ∈ part own a → x ∈ part own b → a = b.
Proof. intros Hd Ha Hb. apply (d_disjoint Hd a b x); apply elem_of_union; by left. Qed.

Lemma stored_lookup c D S own held id : sched c os D S own held → _reqs_being_stored c !! id = set_map fst <$> own !! id.
Proof. intros Hs. by rewrite (s_stored Hs), lookup_fmap. Qed.

(** A preempted request. *)
Lemma flush_ok X c pend lds id :
  side_inv X c pend lds → X !! id = None → id ∉ pend.*1 →
  ∃ c' X', flush_request c id = Ok c' ∧ side_inv X' c' pend lds ∧ (∀ a, is_Some (X' !! a) → is_Some (X !! a) ∨ a = id)
    ∧ _requests c' = _requests c ∧ _reqs_to_load c' = _reqs_to_load c.
Proof.
  intros (D & S & own & held & Hs & Hk & Hd) HX Hid. unfold flush_request. rewrite (stored_lookup _ _ _ _ _ id Hs).
  destruct (own !! id) as [E|] eqn:EE; cbn [fmap option_fmap option_map]; [|exists c, X; split_and!; [done|by exists D, S, own, held|by left|done|done]].
  assert (part own id = E) as EP by (unfold part; by rewrite EE). case_bool_decide as Hemp; [exists c, X; split_and!; [done|by exists D, S, own, held|by left|done|done]|].
  destruct (complete_own _ _ _ _ _ id Hs) as (m' & Em & Hrel). rewrite EP in Em. rewrite Em. cbn [mbind res_bind].
  eexists _, (<[id := E]> X). split; [done|]. split; [|split_and!; [|done|done]].
  - exists D, (S ∖ part own id), (<[id := ∅]> own), held. split_and!.
    + apply sched_completed; [done| |done| |].
      * intros x a b. by apply (own_disjoint _ _ _ _ _ _ _ _ _ _ _ Hd).
      * intros a. apply part_insert.
      * rewrite fmap_insert, (s_stored Hs). done.
    + destruct Hk as [k1 k2 k3 k4 k5 k6]. split; try done. cbn [with_being_stored _reqs_being_stored with_manager]. rewrite dom_insert_L, <- k1.
      assert (id ∈ dom (_reqs_being_stored c)); [|set_solver]. apply elem_of_dom. rewrite (stored_lookup _ _ _ _ _ id Hs), EE. by eexists.
    + pose proof (data_flush group f D S X own held _ _ _ _ _ _ _ _ id Hd) as Hf'. rewrite EP in Hf' |- *. apply Hf'; [by eapply sched_stored_resident|done|done].
  - intros a. rewrite lookup_insert. case_decide; [by right|by left].
Qed.

Lemma flushes_ok l X c pend lds :
  side_inv X c pend lds → NoDup l → (∀ id, id ∈ l → X !! id = None ∧ id ∉ pend.*1) →
  ∃ c' X', rfold flush_request c l = Ok c' ∧ side_inv X' c' pend lds ∧ (∀ a, is_Some (X' !! a) → is_Some (X !! a) ∨ a ∈ l)
    ∧ _requests c' = _requests c ∧ _reqs_to_load c' = _reqs_to_load c.
Proof.
  revert X c. induction l as [|id l IH]; intros X c Hinv Hnd Hl; [exists c, X; split_and!; auto|]. apply NoDup_cons in Hnd as [Hn Hnd].
  destruct (Hl id) as [HX Hp]; [by left|]. destruct (flush_ok X c pend lds id Hinv HX Hp) as (c1 & X1 & E & Hinv1 & HX1 & Hrq & Hlds). cbn [rfold]. rewrite E. cbn [mbind res_bind].
  destruct (IH X1 c1 Hinv1 Hnd) as (c' & X' & E' & Hinv' & HX' & Hrq' & Hlds').
  - intros a Ha. destruct (Hl a) as [Ha1 Ha2]; [by right|]. split; [|done]. destruct (X1 !! a) eqn:Ea; [|done]. destruct (HX1 a) as [[? ?]| ->]; [by eexists|congruence|done].
  - exists c', X'. split_and!; [done|done| |by rewrite Hrq'|by rewrite Hlds']. intros a [Ha| ]%HX'; [|right; by right]. apply HX1 in Ha as [?| ->]; [by left|right; by left].
Qed.

(** A request whose stores have been collected. *)
Lemma sending_ok (D S : entries) c own held pend lds id :
  sched c os D S own held → data_inv group f D S ∅ own held os (to_be_computed f c os) pend lds w sq lq m → id ∉ pend.*1 → (∀ s, ¬ out w sq id s) →
  ∃ m', sending_finished c id = Ok (with_being_stored (with_manager c m') (delete id (_reqs_being_stored c)))
    ∧ sched (with_being_stored (with_manager c m') (delete id (_reqs_being_stored c))) os D (S ∖ part own id) (delete id own) held
    ∧ data_inv group f D (S ∖ part own id) ∅ (delete id own) held os (to_be_computed f c os) pend lds w sq lq m.
Proof.
  intros Hs Hd Hid Ho. pose proof (data_stored group f D S own held _ _ _ _ _ _ _ _ id Hd (sched_stored_resident _ _ _ _ _ Hs) Hid Ho) as Hd'.
  assert (∀ m', om_rel m' D (msum held) (S ∖ part own id) → sched (with_being_stored (with_manager c m') (delete id (_reqs_being_stored c))) os D (S ∖ part own id) (delete id own) held) as Hs'.
  { intros m' Hrel. apply sched_completed; [done| |done| |].
    - intros x a b. by apply (own_disjoint _ _ _ _ _ _ _ _ _ _ _ Hd).
    - intros a. apply part_delete.
    - by rewrite fmap_delete, (s_stored Hs). }
  unfold sending_finished. rewrite (stored_lookup _ _ _ _ _ id Hs). destruct (own !! id) as [E|] eqn:EE; cbn [fmap option_fmap option_map].
  - assert (part own id = E) as EP by (unfold part; by rewrite EE). case_bool_decide as Hemp.
    + exists (manager c). split; [by destruct c|]. split; [|done]. apply Hs'. rewrite EP, (hashes_empty E Hemp), difference_empty_L. apply (s_rel Hs).
    + destruct (complete_own _ _ _ _ _ id Hs) as (m' & Em & Hrel). rewrite EP in Em. exists m'. change (manager (with_being_stored c _)) with (manager c). rewrite Em. by split_and!; [|apply Hs'|].
  - exists (manager c). split; [by destruct c|]. split; [|done]. apply Hs'. unfold part. rewrite EE. cbn. rewrite difference_empty_L. apply (s_rel Hs).
Qed.

(** A request that has received its blocks. *)
Lemma recving_ok (D S : entries) c own held pend lds id :
  sched c os D S own held → data_inv group f D S ∅ own held os (to_be_computed f c os) pend lds w sq lq m →
  id ∉ lds.*1 → (∀ t, t ∈ lq → _jobs w !! t_job_id t ≠ Some (id, false)) →
  ∃ c', recving_finished c id = Ok c' ∧ sched c' os D S own (delete id held)
    ∧ data_inv group f D S ∅ own (delete id held) os (to_be_computed f c' os) pend lds w sq lq m
    ∧ _reqs_being_loaded c' = delete id (_reqs_being_loaded c) ∧ _reqs_being_stored c' = _reqs_being_stored c
    ∧ _requests c' = _requests c ∧ _reqs_to_load c' = _reqs_to_load c.
Proof.
  intros Hs Hd Hid Ht. apply (data_received group f D S own held _ _ _ _ _ _ _ _ id) in Hd; [|done|done].
  assert (∀ m' bl, om_rel m' D (msum (delete id held)) S →
    sched (with_manager (with_loads c (_reqs_to_load c) bl (delete id (_reqs_being_loaded c))) m') os D S own (delete id held)) as Hs'.
  { intros m' bl Hrel. destruct Hs as [s1 s2 s3 s4 s5 s6 s7 s8 s9 s10 s11]. split; try done. cbn [with_manager with_loads _reqs_being_loaded]. by rewrite fmap_delete, s6. }
  unfold recving_finished. rewrite (s_loaded Hs), lookup_fmap, <- (s_loaded Hs). destruct (held !! id) as [E|] eqn:EE; cbn [fmap option_fmap option_map].
  - pose proof (msum_delete _ _ _ EE) as EL. case_bool_decide as Hemp.
    + exists (with_loads c (_reqs_to_load c) (_blocks_being_loaded c) (delete id (_reqs_being_loaded c))). split; [done|].
      split; [|done]. apply (Hs' (manager c)). rewrite (hashes_empty E Hemp), elements_empty, list_to_set_disj_nil, (left_id_L ∅ (⊎)) in EL. rewrite <- EL. apply (s_rel Hs).
    + assert (E ⊆ D) as HE by (intros x Hx; eapply (sched_held _ _ _ _ _ id); [done|]; unfold part; by rewrite EE).
      destruct (entries_of_hashes D E (sched_unique _ _ _ _ _ Hs) HE) as (js & -> & Hp).
      destruct (om_complete_load_spec (manager c) D (msum held) S js (s_rel Hs)) as (m' & Em & Hrel); [rewrite Hp, EL; multiset_solver|].
      change (manager (with_loads (with_loads c _ _ _) _ _ _)) with (manager c). rewrite Em. cbn [mbind res_bind]. eexists. split; [done|]. split; [|done]. apply Hs'.
      assert (msum (delete id held) = msum held ∖ mset js) as ->; [|done]. rewrite Hp, EL. multiset_solver.
  - exists (with_loads c (_reqs_to_load c) (_blocks_being_loaded c) (delete id (_reqs_being_loaded c))). split; [done|].
    split; [|done]. apply (Hs' (manager c)). rewrite delete_id by done. apply (s_rel Hs).
Qed.
End meta.
