(* ===== verification/ConnectorOps.v ===== *)
(** * Every operation keeps the invariant of the offloading connector *)

From S2P Require Import Prelude Blocks Request Scheduler OffloadPolicy Offload Transfers Connector ConnectorLaws ConnectorWorld ConnectorInv ConnectorData ConnectorWorker ConnectorCollect ConnectorSched ConnectorAdmit ConnectorStore ConnectorMeta.
#[local] Open Scope Z_scope.

Section ops.
Context `{PyRuntime} (group : bytes → list bytes) (gbs f : Z) (Hg : 0 < gbs) (Hf : 0 < f).
Context {M : Type} `{!OffloadingManager M} `{!OffloadingManagerLaws M}.
Implicit Types (w : cworld M).
Abbreviation inv := (cinv group gbs f).
Abbreviation sched := (sched_inv group gbs f).

(** ** Request objects *)

(** The blocks of a load have hashes. *)
Lemma load_covered (E : entries) hashes slots ids k0 (n : nat) b :
  load_ok group f hashes E slots ids k0 → ids !! n = Some b → is_Some (hashes !! (Z.to_nat k0 + n)%nat).
Proof.
  intros (Hk0 & Hl & Hk) Hn. pose proof (lookup_lt_Some _ _ _ Hn) as Hlt. unfold zlen in Hl.
  pose proof (Z.div_mod k0 f ltac:(lia)). pose proof (Z.mod_pos_bound k0 f Hf). pose proof (Z.div_pos k0 f Hk0 Hf).
  set (q := Z.of_nat n + k0 `mod` f). assert (0 ≤ q) as Hq by lia. pose proof (Z.div_mod q f ltac:(lia)). pose proof (Z.mod_pos_bound q f Hf). pose proof (Z.div_pos q f Hq Hf).
  destruct (lookup_lt_is_Some_2 slots (Z.to_nat (q / f))) as [s Hs]; [assert (q < Z.of_nat (length slots) * f) by lia; nia|].
  destruct (Hk _ s (Z.to_nat (q `mod` f)) Hs) as (h & d & _ & _ & Hd); [lia|]. exists d. rewrite <- Hd. f_equal. nia.
Qed.

Lemma load_ok_prefix (E : entries) hashes hashes' slots ids k0 :
  hashes `prefix_of` hashes' → load_ok group f hashes E slots ids k0 → load_ok group f hashes' E slots ids k0.
Proof.
  intros Hp (Hk0 & Hl & Hk). split_and!; [done|done|]. intros k s i Hs Hi. destruct (Hk k s i Hs Hi) as (h & d & H1 & H2 & H3). exists h, d. split_and!; [done|done|].
  by apply (prefix_lookup_Some hashes).
Qed.

Lemma data_objs D S X own held os os' lab lab' pend lds k sq lq m :
  data_inv group f D S X own held os lab pend lds k sq lq m →
  (∀ id r, os !! id = Some r → ∃ r', os' !! id = Some r' ∧ block_hashes r `prefix_of` block_hashes r') →
  (∀ id b d, lab id b d → lab' id b d) →
  data_inv group f D S X own held os' lab' pend lds k sq lq m.
Proof.
  intros Hd Ho Hlab. eapply data_lab_mono in Hd; [|intros id b d _; apply Hlab]. destruct Hd as [d1 d1' d2 d3 d4 d5 d6 d7 d8 d9 d10 d11 d12]. split; try done.
  - intros id s Hin. destruct (d11 id s Hin) as (r & slots & ids & k0 & Hr & Es & Hl). destruct (Ho id r Hr) as (r' & Hr' & Hp).
    exists r', slots, ids, k0. split_and!; [done|done|]. by eapply load_ok_prefix.
  - intros t id Ht Hj. destruct (d12 t id Ht Hj) as (r & Hr & slots & ids & k0 & E1 & E2 & E3 & E4). destruct (Ho id r Hr) as (r' & Hr' & Hp).
    exists r'. split; [done|]. exists slots, ids, k0. split_and!; [done|by eapply load_ok_prefix|done|]. intros Hdone n b d Hb Hh. apply (E4 Hdone n b d Hb).
    destruct (load_covered _ _ _ _ _ n b E2 Hb) as [d' Hd']. rewrite (prefix_lookup_Some _ _ _ _ Hd' Hp) in Hh. by rewrite <- Hh.
Qed.

Lemma request_ok w r : inv w → clegal group w (CRequest r) → ∃ w', run_cop w (CRequest r) = Ok w' ∧ inv w'.
Proof.
  intros (D & S & own & held & sq & lq & Hs & Hk & Hj & Ho & Hd) [Hh Hp]. eexists. split; [done|]. exists D, S, own, held, sq, lq.
  rewrite (s_gbs Hs), (s_factor Hs) in Hh. cbn [sch mac objs bound].
  assert (∀ id r0, objs w !! id = Some r0 → ∃ r', <[request_id r := r]> (objs w) !! id = Some r' ∧ block_hashes r0 `prefix_of` block_hashes r') as Hpre.
  { intros id r0 Hr0. rewrite lookup_insert. case_decide as E; [subst id; rewrite Hr0 in Hp|]; by eexists. }
  split_and!; [|done|done|done|].
  - destruct Hs as [s1 s2 s3 s4 s5 s6 s7 s8 s9 s10 s11]. split; try done.
    + intros id Hid. destruct (s9 id Hid) as [r0 Hr0]. destruct (Hpre id r0 Hr0) as (r' & -> & _). by eexists.
    + intros id r0. rewrite lookup_insert. case_decide; [intros [= <-]; done|apply s10].
  - eapply data_objs; [done|done|]. intros id b d (r0 & l & n & i & H1 & H2 & H3 & H4 & H5 & H6). destruct (Hpre id r0 H1) as (r' & Hr' & Hpr).
    exists r', l, n, i. split_and!; [done..| |done]. by apply (prefix_lookup_Some (block_hashes r0)).
Qed.

(** ** Small steps *)

Lemma match_step w id n : inv w → clegal group w (CMatch id n) → ∃ w', run_cop w (CMatch id n) = Ok w' ∧ inv w'.
Proof.
  intros (D & S & own & held & sq & lq & Hs & Hk & Hj & Ho & Hd) [[r Hr] Hn]. cbn [run_cop]. unfold obj. rewrite Hr. cbn [mbind res_bind].
  destruct (match_ok group gbs f Hg Hf (sch w) _ _ _ _ _ id r n Hs Hr Hn) as (o & b & m' & -> & Hrel & _). cbn [mbind res_bind]. eexists. split; [done|].
  exists D, S, own, held, sq, lq. split_and!; [by apply sched_manager|by destruct Hk|done|done|done].
Qed.

Lemma events_step w : inv w → ∃ w', run_cop w CEvents = Ok w' ∧ inv w'.
Proof.
  intros (D & S & own & held & sq & lq & Hs & Hk & Hj & Ho & Hd). eexists. split; [done|]. exists D, S, own, held, sq, lq. unfold connector_take_events.
  pose proof (om_take_events_spec _ _ _ _ (s_rel Hs)) as Hrel. destruct (om_take_events (manager (sch w))) as [evs m']. cbn [snd] in *.
  split_and!; [by apply sched_manager|by destruct Hk|done|done|done].
Qed.

Lemma finish_step w id : inv w → clegal group w (CFinish id) → ∃ w', run_cop w (CFinish id) = Ok w' ∧ inv w'.
Proof.
  intros (D & S & own & held & sq & lq & Hs & Hk & Hj & Ho & Hd) [Hb [r Hr]]. cbn [run_cop]. unfold obj. rewrite Hr. cbn [mbind res_bind]. eexists. split; [done|].
  destruct (s_hashed Hs id r Hr) as [Eid _]. exists D, S, own, held, sq, lq. unfold pending in *. cbn [with_sch bound sch mac objs]. rewrite Hb in *.
  unfold connector_request_finished. rewrite Eid. cbn [snd]. split_and!; [| |done|done|].
  - destruct Hs as [s1 s2 s3 s4 s5 s6 s7 s8 s9 s10 s11]. split; try done; cbn [with_next_stored with_request_blocks _requests _request_block_ids _next_stored_block_idx].
    + by rewrite dom_delete_L, s8.
    + intros a [Ha _]%elem_of_difference. by apply s9.
    + intros a n [_ Hn]%lookup_delete_Some. by apply (s11 a).
  - destruct Hk as [k1 k2 k3 k4 k5 k6]. split; try done; [by intros a ?%elem_of_nil|]. cbn [with_next_stored with_request_blocks _requests]. intros a Ha. destruct (k6 a Ha) as [H1 H2]. split; [|done].
    intros [? _]%elem_of_difference. done.
  - by eapply data_lab.
Qed.

(** ** Copies and computation *)

Lemma queue_stores k sq lq : ow k = handlers f sq lq → queue k STORES = sq.
Proof. intros E. unfold queue. by rewrite E, handlers_stores. Qed.
Lemma queue_loads k sq lq : ow k = handlers f sq lq → queue k LOADS = lq.
Proof. intros E. unfold queue. by rewrite E, handlers_loads. Qed.

Lemma transfer_step w type : inv w → ∃ w', run_cop w (CTransfer type) = Ok w' ∧ inv w'.
Proof.
  intros (D & S & own & held & sq & lq & Hs & Hk & Hj & Ho & Hd). cbn [run_cop]. rewrite Ho.
  assert (∀ h h' s s', (h, s) ∈ D → (h', s') ∈ D → h = h' ↔ s = s') as Hinj by (by eapply sched_unique). assert (S ⊆ D) as HS by (by eapply sched_stored_resident).
  destruct (decide (type = STORES)) as [->|Hne]; [|destruct (decide (type = LOADS)) as [->|Hne']].
  - rewrite handlers_stores. cbn [gpu_to_cpu transfers]. destruct (run_next true sq (mems (mac w))) as [sq' m'] eqn:E. eexists. split; [done|].
    pose proof (run_next_progress true sq (mems (mac w))) as Hp. rewrite E in Hp.
    destruct (stores_progress group f Hf D S own held _ _ Hinj HS _ _ _ _ _ _ _ _ (conj Hj Hd) Hp) as [Hj' Hd'].
    exists D, S, own, held, sq', lq. split_and!; [done|done|done| |done]. cbn [mac ow]. by rewrite <- (set_stores f sq lq sq').
  - rewrite handlers_loads. cbn [gpu_to_cpu transfers]. destruct (run_next false lq (mems (mac w))) as [lq' m'] eqn:E. eexists. split; [done|].
    pose proof (run_next_progress false lq (mems (mac w))) as Hp. rewrite E in Hp.
    destruct (loads_progress group f Hf D S own held _ _ Hinj HS _ _ _ _ _ _ _ _ (conj Hj Hd) Hp) as [Hj' Hd'].
    exists D, S, own, held, sq, lq'. split_and!; [done|done|done| |done]. cbn [mac ow]. by rewrite <- (set_loads f sq lq lq').
  - unfold handlers. rewrite !lookup_insert_ne, lookup_empty by done. exists w. split; [done|]. by exists D, S, own, held, sq, lq.
Qed.

Lemma partial_step w type x v : inv w → clegal group w (CPartial type x v) → ∃ w', run_cop w (CPartial type x v) = Ok w' ∧ inv w'.
Proof.
  intros (D & S & own & held & sq & lq & Hs & Hk & Hj & Ho & Hd) [Hex Hty]. eexists. split; [done|]. apply Exists_exists in Hex as (t & Ht & Hu & Hx).
  assert (∀ h h' s s', (h, s) ∈ D → (h', s') ∈ D → h = h' ↔ s = s') as Hinj by (by eapply sched_unique). assert (S ⊆ D) as HS by (by eapply sched_stored_resident).
  exists D, S, own, held, sq, lq. destruct Hty as [-> | ->].
  - rewrite (queue_stores _ _ _ Ho) in Ht. destruct (job_of_store _ _ _ t Hj Ht) as [id Hid]. split_and!; [done|done|done|done|].
    apply (store_partial group f Hf D S _ _ _ _ _ _ _ _ Hinj HS sq lq _ t id); [done..|]. intros y Hy. apply lookup_partial_alter_ne. congruence.
  - rewrite (queue_loads _ _ _ Ho) in Ht. destruct (job_of_load _ _ _ t Hj Ht) as [id Hid]. split_and!; [done|done|done|done|].
    apply list_elem_of_split in Ht as (l1 & l2 & ->).
    apply (load_partial group f D S _ _ _ _ _ _ _ _ sq l1 t l2 _ id); [done..|]. intros y Hy. apply lookup_partial_alter_ne. congruence.
Qed.

(** The blocks that the stores under way read. *)
Lemma sources_out w sq lq id s b : ow (mac w) = handlers f sq lq → b ∉ store_sources w → out (cw (mac w)) sq id s → b ∉ spec_block_ids s.1.
Proof.
  intros Ho Hn (j & _ & Hor) Hb. apply Hn. unfold store_sources. rewrite (queue_stores _ _ _ Ho), elem_of_app. destruct Hor as [Hin|(t & Ht & _ & <- & Hu)].
  - left. apply list_elem_of_In, in_concat. exists (spec_block_ids s.1). split; [|by apply list_elem_of_In]. apply list_elem_of_In, list_elem_of_fmap. by exists (j, s).
  - right. apply list_elem_of_In, in_concat. exists (spec_block_ids (t_spec t).1). split; [|by apply list_elem_of_In]. apply list_elem_of_In, list_elem_of_fmap. exists t. split; [done|]. by apply list_elem_of_filter.
Qed.

Lemma compute_step w b v : inv w → clegal group w (CCompute b v) → ∃ w', run_cop w (CCompute b v) = Ok w' ∧ inv w'.
Proof.
  intros (D & S & own & held & sq & lq & Hs & Hk & Hj & Ho & Hd) [Hl Hso]. eexists. split; [done|]. exists D, S, own, held, sq, lq. split_and!; [done|done|done|done|].
  apply gpu_change; [done|]. intros x. destruct (decide (x = b)) as [->|Hne]; [right|left; apply lookup_partial_alter_ne; congruence]. split.
  - intros id s Hout. by eapply sources_out.
  - intros t Ht _ Hin. apply Hl. unfold load_targets. rewrite (queue_loads _ _ _ Ho), elem_of_app. left.
    apply list_elem_of_In, in_concat. exists (spec_block_ids (t_spec t).2). split; [|by apply list_elem_of_In]. apply list_elem_of_In, list_elem_of_fmap. by exists t.
Qed.
End ops.
