(* ===== verification/ConnectorRun.v ===== *)
(** * The steps of the offloading connector

    Admission, the start of a step, saving and collection keep the invariant. *)

From S2P Require Import Prelude Blocks Request Scheduler OffloadPolicy Offload Transfers Connector ConnectorLaws ConnectorWorld ConnectorInv ConnectorData ConnectorWorker ConnectorCollect ConnectorSched ConnectorAdmit ConnectorStore ConnectorMeta ConnectorOps.
#[local] Open Scope Z_scope.

Section run.
Context `{PyRuntime} (group : bytes → list bytes) (gbs f : Z) (Hg : 0 < gbs) (Hf : 0 < f).
Context {M : Type} `{!OffloadingManager M} `{!OffloadingManagerLaws M}.
Implicit Types (w : cworld M).
Abbreviation inv := (cinv group gbs f).
Abbreviation sched := (sched_inv group gbs f).

(** ** Admission *)

Lemma loads_size (D : entries) (held : holding) :
  slots_unique D → (∀ id E, held !! id = Some E → E ⊆ D) →
  map_fold (λ _ (X : gset bytes) n, (size X + n)%nat) 0%nat (set_map fst <$> held) = size (msum held).
Proof.
  intros Hu. induction held as [|id E held Hn IH] using map_ind; intros HE; [done|].
  rewrite fmap_insert, (map_fold_insert_L (λ _ (X : gset bytes) n, (size X + n)%nat)); [|intros; lia|by rewrite lookup_fmap, Hn].
  rewrite msum_insert, gmultiset_size_disj_union, mset_length by done. rewrite IH.
  - rewrite (size_hashes D); [done|done|]. apply (HE id). apply lookup_insert_eq.
  - intros a E' Ha. apply (HE a). rewrite lookup_insert_ne; [done|]. intros ->. congruence.
Qed.

Lemma admit_step w id n blocks : inv w → clegal group w (CAdmit id n blocks) → ∃ w', run_cop w (CAdmit id n blocks) = Ok w' ∧ inv w'.
Proof.
  intros (D & S & own & held & sq & lq & Hs & Hk & Hj & Ho & Hd) Hl. cbn [clegal] in Hl. destruct (objs w !! id) as [r|] eqn:Hr; [|done].
  destruct Hl as (Hn & Hb & Hnl & Hid & Hbd & Hext). cbn [run_cop]. unfold obj. rewrite Hr. cbn [mbind res_bind]. unfold pending in *. rewrite Hb in *.
  destruct (match_ok group gbs f Hg Hf (sch w) _ _ _ _ _ id r n Hs Hr Hn) as (o & b & m' & Em & Hrel & Hhit). rewrite Em in Hext. rewrite Em. cbn [mbind res_bind].
  pose proof (sched_manager group gbs f _ _ _ _ _ _ _ Hs Hrel) as Hs1. set (c1 := with_manager (sch w) m') in *.
  assert (keys_inv c1 (cw (mac w)) [] (_reqs_to_load (sch w))) as Hk1 by (by destruct Hk). destruct (s_hashed Hs id r Hr) as [Eid Hh].
  destruct o as [ext|]; [|eexists; split; [done|]; exists D, S, own, held, sq, lq; unfold pending; cbn [with_sch bound sch mac objs]; rewrite Hb; done].
  destruct (decide (ext = 0)) as [->|Hnz].
  { assert (update_state_after_alloc c1 r blocks 0 = Ok (known c1 id)) as -> by (unfold update_state_after_alloc; by rewrite Eid). cbn [mbind res_bind]. eexists. split; [done|].
    exists D, S, own, held, sq, lq. unfold pending. cbn [with_sch bound sch mac objs]. rewrite Hb. split_and!; [apply sched_known; [done|by eexists]|by apply keys_known|done|done|by eapply data_lab]. }
  destruct Hext as [?|Hadm]; [done|]. destruct (Hhit ext eq_refl Hnz) as (hits & hs & Hhits & Eext & Hfit & Ehs & Hload). cbn zeta in *.
  destruct blocks as [|g rest]; [done|]. cbn [admissible] in Hadm. rewrite (s_gbs Hs) in Hadm. set (k := Z.to_nat (n / gbs)) in *. set (new := Blocks.block_id <$> drop k g) in *.
  destruct Hadm as (En & Hkg & Enew & Hold & Hnew & Hnd & Hfree). rewrite Forall_forall in Hfree.
  assert (0 ≤ n / (gbs * f)) as Hst by (apply Z.div_pos; nia).
  destruct (get_hashes_upto f Hf (sch w) r (n / (gbs * f)) (n / (gbs * f) + hits) (s_factor Hs)) as (hs' & Ehs' & Hlen' & Hk'); [lia|lia|done|]. rewrite Ehs in Ehs'. injection Ehs' as <-.
  assert (NoDup hs) as Hndh by (apply (hashes_distinct f Hf r hs (n / (gbs * f))); [apply Hh|done|done]).
  assert (Z.of_nat (size (msum held) + length hs) < 2 ^ 31) as Hbd'.
  { rewrite <- (loads_size D held); [|by eapply sched_unique|]. 2: { intros a E Ha x Hx. eapply (sched_held _ _ _ _ _ _ _ _ _ a); [exact Hs|]. unfold part. by rewrite Ha. }
    unfold num_loads in Hbd. rewrite (s_loaded Hs) in Hbd. unfold zlen in Hfit. nia. }
  assert (held !! id = None) as Hheld by (rewrite (s_loaded Hs), lookup_fmap in Hnl; by apply fmap_None in Hnl).
  destruct (alloc_ok group gbs f Hg Hf c1 _ _ _ _ _ id r n ext g rest hits hs Hs1 Hr Hnl En Hkg Enew Hold Hnew Hnz Hhits Eext Hfit Ehs Hload Hbd') as (m2 & slots & Eu & Hlen & Hrel2).
  fold k new in Eu. rewrite Eu. cbn [mbind res_bind]. eexists. split; [done|].
  assert (id ∉ (_reqs_to_load (sch w)).*1) as Hlds. { intros Hin. assert (id ∈ dom (_reqs_being_loaded (sch w))) as [? ?]%elem_of_dom by (rewrite (k_loaded Hk); set_solver). congruence. }
  exists D, S, own, (<[id := list_to_set (zip hs slots)]> held), sq, lq. unfold pending. cbn [with_sch bound sch mac objs]. rewrite Hb.
  assert (_reqs_to_load (loading_state c1 id m2 hs slots new (Z.of_nat k) (n / (gbs * f) + hits)) = _reqs_to_load (sch w) ++ [(id, load_spec slots new (Z.of_nat k))]) as ->.
  { unfold loading_state. cbn [with_next_stored with_loads _reqs_to_load]. by apply od_set_fresh. }
  split_and!; [| |done|done|].
  - apply sched_loading; try done. lia.
  - by apply keys_loading.
  - apply (admit_data group f D S _ own held (objs w) (to_be_computed f (sch w) (objs w))) with (r := r); try done.
    + intros t Ht Ej. apply (j_ljob Hj) in Ej. assert (id ∈ dom (_reqs_being_loaded (sch w))) as [? ?]%elem_of_dom; [|congruence]. rewrite (k_loaded Hk), elem_of_union. left. apply elem_of_dom. by eexists.
    + eapply (alloc_load_ok group gbs f Hg Hf c1 D S); try done. by rewrite <- Enew.
    + intros x Hx%elem_of_list_to_set. apply (om_loading _ _ _ _ _ Hrel2). apply gmultiset_elem_of_disj_union. left. by apply elem_of_list_to_set_disj.
    + intros b' Hb'. destruct (Hfree b' Hb') as [H1 H2]. unfold load_targets in H1. rewrite (queue_loads f _ _ _ Ho) in H1. split; [done|]. intros a s Hout. by eapply sources_out.
Qed.

(** ** Saving *)

Lemma save_step w : inv w → clegal group w CSave → ∃ w', run_cop w CSave = Ok w' ∧ inv w'.
Proof.
  intros (D & S & own & held & sq & lq & Hs & Hk & Hj & Ho & Hd) Hl. cbn [run_cop clegal] in *. unfold pending in *.
  destruct (bound w) as [meta|] eqn:Hb; [|exists w; split; [done|]; exists D, S, own, held, sq, lq; unfold pending; by rewrite Hb].
  eexists. split; [done|]. rewrite Forall_forall in Hl.
  destruct (save_ok group f D S own held _ _ ∅ _ _ _ sq lq _ (conj Hj Hd)) as ((Hj' & Hd') & Hdom & Hload & Hw & HJ).
  { intros id b d Hid%Hl (r & l & n & i & H1 & H2 & H3 & H4 & H5 & H6). unfold blocks_computed in Hid. rewrite H1, H2, H3, Forall_forall in Hid. apply (Hid (b, d)).
    apply list_elem_of_lookup. exists i. rewrite (s_factor Hs), lookup_take_lt by lia. by apply lookup_zip_Some. }
  exists D, S, own, held, sq, lq. unfold pending. cbn [bound sch mac objs with_cw cw ow mems]. split_and!; [done| |done|done|by eapply data_lab].
  clear Hg Hf. unfold prepare_store_kv. destruct Hk as [k1 k2 k3 k4 k5 k6]. split; rewrite ?Hdom, ?Hload, ?Hw; try done.
  - rewrite k1. cbn. by rewrite (right_id_L ∅ (∪)).
  - by intros id ?%elem_of_nil.
  - intros id Hid. destruct (k6 id Hid) as (H1 & J & HJ1 & HJ2). split; [done|]. destruct (HJ id J HJ1) as (J' & HJ' & Hsub). exists J'. split; [done|set_solver].
Qed.

(** ** Collection *)

Section loops.
Context (os : gmap string Request) (k : OffloadingConnectorWorker) (sq lq : list Transfer) (m : Memories) (pend lds : list (string * TransferSpec)).
Implicit Types (c : OffloadingConnectorScheduler M).
Abbreviation data c D S own held := (data_inv group f D S ∅ own held os (to_be_computed f c os) pend lds k sq lq m).

Lemma sendings_ok l c D S own held :
  sched c os D S own held → data c D S own held → (∀ id, id ∈ l → (id ∉ pend.*1) ∧ ∀ s, ¬ out k sq id s) →
  ∃ c' S' own', rfold sending_finished c l = Ok c' ∧ sched c' os D S' own' held ∧ data c' D S' own' held
    ∧ dom (_reqs_being_stored c') = dom (_reqs_being_stored c) ∖ list_to_set l ∧ _reqs_being_loaded c' = _reqs_being_loaded c
    ∧ _requests c' = _requests c ∧ _reqs_to_load c' = _reqs_to_load c.
Proof.
  revert c S own. induction l as [|id l IH]; intros c S own Hs Hd Hl; [exists c, S, own; split_and!; try done; cbn; set_solver|].
  destruct (Hl id) as [H1 H2]; [by left|]. destruct (sending_ok group gbs f Hg Hf os k sq lq m D S c own held pend lds id Hs Hd H1 H2) as (m' & E & Hs1 & Hd1). cbn [rfold]. rewrite E. cbn [mbind res_bind].
  destruct (IH _ _ _ Hs1 Hd1) as (c' & S' & own' & E' & Hs' & Hd' & Hdom & Hload & Hrq & Hlds); [intros a Ha; apply Hl; by right|].
  exists c', S', own'. split_and!; try done. rewrite Hdom. cbn [with_being_stored _reqs_being_stored]. rewrite dom_delete_L. cbn. set_solver.
Qed.

Lemma recvings_ok l c D S own held :
  sched c os D S own held → data c D S own held → (∀ id, id ∈ l → (id ∉ lds.*1) ∧ ∀ t, t ∈ lq → _jobs k !! t_job_id t ≠ Some (id, false)) →
  ∃ c' held', rfold recving_finished c l = Ok c' ∧ sched c' os D S own held' ∧ data c' D S own held'
    ∧ dom (_reqs_being_loaded c') = dom (_reqs_being_loaded c) ∖ list_to_set l ∧ _reqs_being_stored c' = _reqs_being_stored c
    ∧ _requests c' = _requests c ∧ _reqs_to_load c' = _reqs_to_load c.
Proof.
  revert c held. induction l as [|id l IH]; intros c held Hs Hd Hl; [exists c, held; split_and!; try done; cbn; set_solver|].
  destruct (Hl id) as [H1 H2]; [by left|]. destruct (recving_ok group gbs f Hg Hf os k sq lq m D S c own held pend lds id Hs Hd H1 H2) as (c1 & E & Hs1 & Hd1 & El & Est & Erq & Elds). cbn [rfold]. rewrite E. cbn [mbind res_bind].
  destruct (IH _ _ Hs1 Hd1) as (c' & held' & E' & Hs' & Hd' & Hdom & Hst & Hrq & Hlds); [intros a Ha; apply Hl; by right|].
  exists c', held'. split_and!; [done|done|done| |congruence|congruence|congruence]. rewrite Hdom, El, dom_delete_L. cbn. set_solver.
Qed.
End loops.

Lemma elem_set_iter `{Countable A} (X : gset A) x : x ∈ set_iter X ↔ x ∈ X.
Proof. by rewrite set_iter_perm, elem_of_elements. Qed.
Lemma set_iter_set `{Countable A} (X : gset A) : (list_to_set (set_iter X) : gset A) = X.
Proof. apply set_eq. intros x. by rewrite elem_of_list_to_set, elem_set_iter. Qed.

(** Without transfers left no request waits for one. *)
Lemma nothing_left k lq : jobs_inv k [] lq → _unsubmitted_store_jobs k = [] → ∀ id J, _store_jobs k !! id = Some J → J = ∅.
Proof.
  clear Hg Hf. intros Hj Hu id J HJ. apply set_eq. intros j. split; [|by intros ?%not_elem_of_empty]. intros Hin.
  assert (_jobs k !! j = Some (id, true)) as Hjob by (apply (j_of Hj); by exists J).
  assert (j ∈ (_unsubmitted_store_jobs k).*1 ++ (t_job_id <$> [])) as Hin' by (apply (j_store Hj); by exists id). rewrite Hu in Hin'. by apply elem_of_nil in Hin'.
Qed.

Lemma no_load_left k sq : jobs_inv k sq [] → dom (_load_job k) = ∅.
Proof.
  clear Hg Hf. intros Hj. apply set_eq. intros id. split; [|by intros ?%not_elem_of_empty]. intros [j Hid]%elem_of_dom.
  apply (j_ljob Hj) in Hid. assert (j ∈ t_job_id <$> []) as Hin by (apply (j_load Hj); by exists id). by apply elem_of_nil in Hin.
Qed.

(** Collection; it reports every finished request or remembers it, reports it once its
    stores have ended, and reports every request whose loads have ended. *)
Lemma collect_full w fin : inv w → clegal group w (CCollect fin) → ∃ w', run_cop w (CCollect fin) = Ok w' ∧ inv w'
  ∧ (∀ id, id ∈ fin ∪ _finished_reqs_waiting_for_store (cw (mac w)) → _reqs_being_stored (sch w') !! id = None ∨ id ∈ _finished_reqs_waiting_for_store (cw (mac w')))
  ∧ (_unsubmitted_store_jobs (cw (mac w)) = [] → Forall (λ t, t_done t = true) (queue (mac w) STORES) →
     ∀ id, id ∈ fin ∪ _finished_reqs_waiting_for_store (cw (mac w)) → _reqs_being_stored (sch w') !! id = None)
  ∧ (Forall (λ t, t_done t = true) (queue (mac w) LOADS) → dom (_reqs_being_loaded (sch w')) = list_to_set (_reqs_to_load (sch w)).*1).
Proof.
  intros (D & S & own & held & sq & lq & Hs & Hk & Hj & Ho & Hd) Hl. cbn [run_cop clegal] in *. rewrite Forall_forall in Hl.
  rewrite (queue_stores f _ _ _ Ho), (queue_loads f _ _ _ Ho). destruct (mac w) as [k o m] eqn:Emac. cbn [cw ow mems] in *. subst o.
  destruct (get_finished_ok group f D S own held _ _ ∅ (pending w) _ k sq lq m (_requests (sch w)) fin (conj Hj Hd)) as (s & r & k' & sq' & lq' & -> & (Hj' & Hd') & [c1 c2 c3 c4 c5 c6 c7 c8] & Hset & Esq & Elq).
  { split; try done; try set_solver. apply (k_waiting Hk). }
  { intros id Hid. apply Hl. by apply elem_of_elements. }
  cbn [mbind res_bind]. unfold update_connector_output. cbn [finished_sending finished_recving].
  destruct (sendings_ok (objs w) k' sq' lq' m (pending w) (_reqs_to_load (sch w)) (set_iter s) (sch w) D S own held Hs Hd') as (ca & Sa & owna & Ea & Hsa & Hda & Hdoma & Hla & Hrqa & Hldsa).
  { intros id Hid%elem_set_iter. destruct (c4 id Hid) as [H1 H2]. split; [intros Hin; by apply H2, (k_pend Hk)|]. intros sp (j & Hjob & _). apply (j_of Hj') in Hjob as (J & HJ & _). congruence. }
  change (default [] (Some (set_iter s))) with (set_iter s). change (default [] (Some (set_iter r))) with (set_iter r). rewrite Ea. cbn [mbind res_bind].
  destruct (recvings_ok (objs w) k' sq' lq' m (pending w) (_reqs_to_load (sch w)) (set_iter r) ca D Sa owna held Hsa Hda) as (cb & heldb & Eb & Hsb & Hdb & Hdomb & Hstb & Hrqb & Hldsb).
  { intros id Hid%elem_set_iter. split.
    - intros Hin%(k_fresh Hk). assert (id ∈ dom (_load_job k)) as [? ?]%elem_of_dom by (rewrite c5; set_solver). congruence.
    - intros t Ht Ej. apply (j_ljob Hj') in Ej. rewrite (c6 id Hid) in Ej. done. }
  rewrite Eb. cbn [mbind res_bind]. rewrite set_iter_set in Hdoma, Hdomb.
  assert (∀ id, id ∈ fin ∪ _finished_reqs_waiting_for_store k → _reqs_being_stored cb !! id = None ∨ id ∈ _finished_reqs_waiting_for_store k') as Hrep.
  { intros id Hid. destruct (decide (id ∈ s)) as [Hin|Hns]; [left; apply not_elem_of_dom; rewrite Hstb, Hdoma; set_solver|].
    apply elem_of_union in Hid as [Hid|[?|?]%c8%elem_of_union]; [|done|by right]. destruct (Hset id Hid) as [Hn|?]; [left|by right].
    apply not_elem_of_dom. rewrite Hstb, Hdoma, (k_stored Hk), c3. intros [[[[? ?]%elem_of_dom|?]%elem_of_union|Hin%elem_of_list_to_set%(k_pend Hk)]%elem_of_union _]%elem_of_difference; [congruence|done|].
    by apply (Hl id); [apply elem_of_elements|]. }
  eexists. split; [done|]. cbn [sch mac cw]. split_and!.
  2: done.
  2: { intros Hu Hall id Hid. rewrite (pop_finished_all _ Hall) in Esq. subst sq'. rewrite <- c1 in Hu. destruct (Hrep id Hid) as [?|Hw]; [done|].
    destruct (c7 id Hw) as (_ & J & HJ & Hne). by destruct Hne; apply (nothing_left k' lq' Hj' Hu id). }
  2: { intros Hall. rewrite (pop_finished_all _ Hall) in Elq. subst lq'. rewrite Hdomb, Hla, (k_loaded Hk), c5, (no_load_left _ _ Hj'), (left_id_L ∅ (∪)).
    apply set_eq. intros id. rewrite elem_of_difference, elem_of_union, elem_of_list_to_set. split; [tauto|]. intros Hin. split; [tauto|]. intros Hr.
    apply (k_fresh Hk) in Hin. assert (id ∈ dom (_load_job k)) as [? ?]%elem_of_dom by (rewrite c5; set_solver). congruence. }
  exists D, Sa, owna, heldb, sq', lq'. unfold pending in *. cbn [bound sch mac objs cw ow mems]. rewrite Hldsb, Hldsa. split_and!; [done| |done|done|done].
  destruct Hk as [k1 k2 k3 k4 k5 k6].
  split; rewrite ?Hstb, ?Hdomb, ?Hdoma, ?Hla, ?Hrqb, ?Hrqa; try done.
  - rewrite k1, c3. apply set_eq. intros id. rewrite elem_of_difference, !elem_of_union, elem_of_list_to_set. split; [tauto|]. intros [Hin|Hin].
    + split; [tauto|]. intros [E _]%c4. apply elem_of_dom in Hin as [? ?]. congruence.
    + split; [tauto|]. intros [_ E]%c4. by apply E, k5.
  - rewrite k2, c5. apply set_eq. intros id. rewrite elem_of_difference, !elem_of_union, elem_of_list_to_set. split; [tauto|]. intros [Hin|Hin].
    + split; [tauto|]. intros E%c6. apply elem_of_dom in Hin as [? ?]. congruence.
    + split; [tauto|]. intros E. apply k4 in Hin. assert (id ∈ dom (_load_job k)) as [? ?]%elem_of_dom by (rewrite c5; set_solver). congruence.
  - intros id Hin%k4. apply not_elem_of_dom. intros Hd2. assert (id ∈ dom (_load_job k)) as [? ?]%elem_of_dom by (rewrite c5; set_solver). congruence.
Qed.

Lemma collect_step w fin : inv w → clegal group w (CCollect fin) → ∃ w', run_cop w (CCollect fin) = Ok w' ∧ inv w'.
Proof. intros Hi Hl. destruct (collect_full w fin Hi Hl) as (w' & E & Hi' & _). by exists w'. Qed.

(** ** The start of a step *)

(** The loads of the step are handed over. *)
Lemma loads_handed_over os k sq lq m c lds pend bl :
  side_inv group gbs f os k sq lq m ∅ c pend lds → side_inv group gbs f os k sq lq m ∅ (with_loads c [] bl (_reqs_being_loaded c)) pend lds.
Proof. intros (D & S & own & held & Hs & Hk & Hd). exists D, S, own, held. split_and!; [by destruct Hs|by destruct Hk|done]. Qed.

Lemma schedulable_storable w sq lq so x D S own held :
  sched (sch w) (objs w) D S own held → ow (mac w) = handlers f sq lq → schedulable w so x →
  storable gbs f (objs w) lq (sch w) (so_num_scheduled_tokens so) (_reqs_to_load (sch w)) x ∧ x.1.1 ∉ so_preempted_req_ids so.
Proof.
  intros Hs Ho Hx. unfold schedulable in Hx. destruct (objs w !! x.1.1) as [r|] eqn:Hr; [|done]. destruct (od_get _ x.1.1) as [n|] eqn:Hn; [|done].
  destruct Hx as (H1 & H2 & H3 & H4). split; [|done]. exists r, n. rewrite (s_obs Hs), (s_factor Hs) in H3. split_and!; [done..|].
  rewrite Forall_forall in H4. intros b Hb%H4. unfold load_targets in Hb. by rewrite (queue_loads f _ _ _ Ho) in Hb.
Qed.

(** The metadata of a step: the loads of the requests admitted, and the stores of the
    requests scheduled; what preempted requests store counts as stored. *)
Lemma meta_ok w sq lq so :
  side_inv group gbs f (objs w) (cw (mac w)) sq lq (mems (mac w)) ∅ (sch w) [] (_reqs_to_load (sch w)) → ow (mac w) = handlers f sq lq → clegal group w (CStep so) →
  ∃ pend c' X, build_connector_meta (objs w) (sch w) so = Ok (mkMeta (_reqs_to_load (sch w)) pend (so_preempted_req_ids so), c')
    ∧ side_inv group gbs f (objs w) (cw (mac w)) sq lq (mems (mac w)) X c' pend (_reqs_to_load (sch w)) ∧ _reqs_to_load c' = []
    ∧ (∀ id, is_Some (X !! id) → id ∈ so_preempted_req_ids so) ∧ (∀ id, id ∈ so_preempted_req_ids so → id ∉ pend.*1).
Proof.
  intros Hside Ho (_ & Hnd & Hall). rewrite Forall_forall in Hall.
  assert (∀ x, x ∈ yield_req_data so → storable gbs f (objs w) lq (sch w) (so_num_scheduled_tokens so) (_reqs_to_load (sch w)) x ∧ x.1.1 ∉ so_preempted_req_ids so) as Hst.
  { intros x Hx. destruct Hside as (D & S & own & held & Hs & _). eapply schedulable_storable; eauto. }
  destruct (reqs_to_store_ok group gbs f Hg Hf (objs w) (cw (mac w)) sq lq (mems (mac w)) (yield_req_data so) (sch w) [] (_reqs_to_load (sch w)) (so_num_scheduled_tokens so)) as (c1 & pend & E1 & Hs1 & Hrq & Hld & Hp);
    [done|apply Forall_forall; intros x Hx; by apply Hst|done|by intros x _ ?%elem_of_nil|].
  assert (∀ id, id ∈ so_preempted_req_ids so → id ∉ pend.*1) as Hpre.
  { intros id Hid [Hin|Hin]%Hp; [by apply elem_of_nil in Hin|]. apply list_elem_of_fmap in Hin as (y & -> & Hin). apply list_elem_of_fmap in Hin as (x & -> & Hin). by apply (Hst x Hin). }
  apply (loads_handed_over _ _ _ _ _ _ _ _ (_blocks_being_loaded c1)) in Hs1.
  destruct (flushes_ok group gbs f Hg Hf (objs w) (cw (mac w)) sq lq (mems (mac w)) (set_iter (so_preempted_req_ids so)) ∅ _ pend (_reqs_to_load (sch w)) Hs1) as (c2 & X & E2 & Hs2 & HX & Hrq2 & Hld2).
  { rewrite set_iter_perm. apply NoDup_elements. }
  { intros id Hid%elem_set_iter. split; [apply lookup_empty|by apply Hpre]. }
  exists pend, c2, X. unfold build_connector_meta, _get_reqs_to_store. rewrite E1. cbn [mbind res_bind]. rewrite E2. cbn [mbind res_bind]. split_and!; [done|done|done| |done].
  intros id [[? E]|Hid]%HX; [by rewrite lookup_empty in E|]. by apply elem_set_iter.
Qed.

(** The worker starts on the step. *)
Lemma step_started D S own held os lab X pend lds pre k sq lq m :
  machine_inv group f D S own held os lab X pend lds k sq lq m → slots_unique D → S ⊆ D → NoDup lds.*1 → (∀ id, id ∈ lds.*1 → _load_job k !! id = None) →
  (∀ id, is_Some (X !! id) → id ∈ pre) → (∀ id, id ∈ pre → id ∉ pend.*1) →
  ∃ k' sq' lq' m', (k1 ← handle_preemptions (mkMachine k (handlers f sq lq) m) (mkMeta lds pend pre); start_kv_transfers k1 (mkMeta lds pend pre)) = Ok (mkMachine k' (handlers f sq' lq') m')
    ∧ machine_inv group f D S own held os lab ∅ pend [] k' sq' lq' m'
    ∧ dom (_load_job k') = dom (_load_job k) ∪ list_to_set lds.*1 ∧ _store_jobs k' = _store_jobs k
    ∧ _finished_reqs_waiting_for_store k' = _finished_reqs_waiting_for_store k.
Proof.
  intros Hm Hu HS Hnd Hfr HX Hpre. unfold handle_preemptions, start_kv_transfers. cbn [reqs_to_flush reqs_to_load].
  destruct (submit_stores_ok group f Hf D S own held os lab X pend lds k sq lq m Hm) as (sq1 & -> & Hm1). cbn [mbind res_bind].
  destruct (waits_ok group f Hf D S own held os lab Hu HS (set_iter pre) X pend lds _ sq1 lq m Hm1 eq_refl) as (sq2 & lq2 & m2 & -> & Hm2); [intros id Hid%elem_set_iter; by apply Hpre|].
  rewrite delete_all in Hm2 by (intros id Hid; apply elem_set_iter; by apply HX).
  destruct (submit_stores_ok group f Hf D S own held os lab ∅ pend lds _ sq2 lq2 m2 Hm2) as (sq3 & -> & Hm3). cbn [mbind res_bind].
  destruct (start_loads_ok group f Hf D S own held os lab Hu HS ∅ pend lds _ sq3 lq2 m2 Hm3 Hnd) as (k' & lq' & -> & Hm' & H1 & H2 & H3); [done|].
  by exists k', sq3, lq', m2.
Qed.

Lemma step_step w so : inv w → clegal group w (CStep so) → ∃ w', run_cop w (CStep so) = Ok w' ∧ inv w'.
Proof.
  intros (D & S & own & held & sq & lq & Hs & Hk & Hj & Ho & Hd) Hl. pose proof (proj1 Hl) as Hb. unfold pending in *. rewrite Hb in *.
  destruct (meta_ok w sq lq so) as (pend & c' & X & Em & (D1 & S1 & own1 & held1 & Hs1 & Hk1 & Hd1) & Eld & HX & Hpre); [by exists D, S, own, held|done|done|].
  cbn [run_cop]. rewrite Em. cbn [mbind res_bind]. destruct (mac w) as [k o m] eqn:Emac. cbn [cw ow mems] in *. subst o.
  destruct (step_started D1 S1 own1 held1 _ _ X pend _ (so_preempted_req_ids so) k sq lq m (conj Hj Hd1)) as (k' & sq' & lq' & m' & E & (Hj' & Hd') & H1 & H2 & H3);
    [by eapply sched_unique|by eapply sched_stored_resident|apply (k_lds Hk)|apply (k_fresh Hk)|done|done|].
  destruct (handle_preemptions _ _) as [k1|] eqn:E1; cbn [mbind res_bind] in E |- *; [|done]. rewrite E. cbn [mbind res_bind]. eexists. split; [done|].
  exists D1, S1, own1, held1, sq', lq'. unfold pending. cbn [bound sch mac objs cw ow mems reqs_to_store]. rewrite Eld. split_and!; [done| |done|done|done].
  destruct Hk1 as [k1' k2 k3 k4 k5 k6]. split; rewrite ?H1, ?H2, ?H3; try done.
  - rewrite k2. cbn. by rewrite (right_id_L ∅ (∪)).
  - by apply NoDup_nil_2.
  - by intros id ?%elem_of_nil.
Qed.
End run.
