(* ===== verification/ConnectorSafe.v ===== *)
(** * Safety of the offloading connector

    Whatever the order of admissions, steps, preemptions, transfers and completions, no
    operation raises and every load brings the data that the request expects. *)

From S2P Require Import Prelude Blocks Request Scheduler OffloadPolicy Offload Transfers Connector ConnectorLaws ConnectorWorld ConnectorInv ConnectorWorker ConnectorSched ConnectorStore ConnectorMeta ConnectorOps ConnectorRun.
#[local] Open Scope Z_scope.

(** ** What is promised *)

Section promise.
Context {M : Type}.
Implicit Types (w : cworld M).

(** A load for the blocks of a request from number [k0] on: it writes the blocks [ids],
    one after the other; before it is carried out host memory holds the data of each
    block, afterwards the device does. *)
Definition load_right w (r : Request) (ids : list Z) (k0 : Z) (t : Transfer) : Prop :=
  0 ≤ k0 ∧ (t_copies t).*2 = ids
  ∧ ∀ n src dst, t_copies t !! n = Some (src, dst) → ∃ d, block_hashes r !! (Z.to_nat k0 + n)%nat = Some d
      ∧ if t_done t then gpu (mems (mac w)) !! dst = Some d else cpu (mems (mac w)) !! src = Some d.

(** Every load in the queue is one of a request that the scheduler waits for, and is
    right; a request of which a store is left to be collected, or that is about to
    store, is known to the scheduler, which does not free its blocks. *)
Record reloads_safe w : Prop := {
  loads_right t : t ∈ queue (mac w) LOADS → ∃ id r slots ids k0,
    _jobs (cw (mac w)) !! t_job_id t = Some (id, false) ∧ is_Some (_reqs_being_loaded (sch w) !! id)
    ∧ objs w !! id = Some r ∧ t_spec t = load_spec slots ids k0 ∧ load_right w r ids k0 t;
  stores_delay id j : _jobs (cw (mac w)) !! j = Some (id, true) ∨ id ∈ (pending w).*1 →
    ∀ r, objs w !! id = Some r → (connector_request_finished (sch w) r).1 = true;
  stores_known : bound w = None → dom (_reqs_being_stored (sch w)) = dom (_store_jobs (cw (mac w)));
}.

(** A collection: the requests that have finished, now or before, are reported as stored,
    so that their blocks are freed, or remembered; they are reported when the stores have
    ended, and the requests whose loads were started when the loads have ended. *)
Record all_reported w (finished_req_ids : gset string) (w' : cworld M) : Prop := {
  reported_or_remembered id : id ∈ finished_req_ids ∪ _finished_reqs_waiting_for_store (cw (mac w)) →
    _reqs_being_stored (sch w') !! id = None ∨ id ∈ _finished_reqs_waiting_for_store (cw (mac w'));
  stores_reported id : _unsubmitted_store_jobs (cw (mac w)) = [] → Forall (λ t, t_done t = true) (queue (mac w) STORES) →
    id ∈ finished_req_ids ∪ _finished_reqs_waiting_for_store (cw (mac w)) → _reqs_being_stored (sch w') !! id = None;
  loads_reported : Forall (λ t, t_done t = true) (queue (mac w) LOADS) → dom (_reqs_being_loaded (sch w')) = list_to_set (_reqs_to_load (sch w)).*1;
}.
End promise.

(** ** Every run *)

Section safe.
Context `{PyRuntime} (group : bytes → list bytes) (gbs f : Z) (Hg : 0 < gbs) (Hf : 0 < f).
Context {M : Type} `{!OffloadingManager M} `{!OffloadingManagerLaws M}.
Implicit Types (w : cworld M).
Abbreviation inv := (cinv group gbs f).

Lemma run_cop_ok w o : inv w → clegal group w o → ∃ w', run_cop w o = Ok w' ∧ inv w'.
Proof.
  intros Hi Hl. destruct o as [r|id n|id n blocks|so| |fin|id| |type|type x v|b v].
  - by apply request_ok.
  - by apply match_step.
  - by apply admit_step.
  - by apply step_step.
  - by apply save_step.
  - by apply collect_step.
  - by apply finish_step.
  - by apply events_step.
  - by apply transfer_step.
  - by apply partial_step.
  - by apply compute_step.
Qed.

Lemma run_cops_ok ops w : inv w → clegal_run group w ops → ∃ w', rfold run_cop w ops = Ok w' ∧ inv w'.
Proof.
  revert w. induction ops as [|o ops IH]; intros w Hi Hl; [by exists w|]. destruct Hl as [Ho Hl].
  destruct (run_cop_ok w o Hi Ho) as (w1 & E & Hi1). rewrite E in Hl. cbn [rfold]. rewrite E. by apply IH.
Qed.

(** Without requests there is nothing to keep. *)
Lemma data_start os lab m : data_inv group f ∅ ∅ ∅ ∅ ∅ os lab [] [] connector_worker_init [] [] m.
Proof.
  clear Hg Hf. assert (∀ id s, ¬ out connector_worker_init [] id s) as Ho by (intros id s (j & E & _); cbn in E; by rewrite lookup_empty in E).
  split; intros *; rewrite ?part_empty, ?(left_id_L ∅ (∪)); try (by intros ?%not_elem_of_empty); try (by intros ?%elem_of_nil); try done.
  - by intros ?%Ho.
  - by intros [?%Ho|?%elem_of_nil].
  - apply NoDup_nil_2.
Qed.

Lemma jobs_start : jobs_inv connector_worker_init [] [].
Proof.
  split; cbn.
  - apply NoDup_nil_2.
  - intros j [? E]. by rewrite lookup_empty in E.
  - intros j. split; [by intros ?%elem_of_nil|]. intros [? E]. by rewrite lookup_empty in E.
  - intros j. split; [by intros ?%elem_of_nil|]. intros [? E]. by rewrite lookup_empty in E.
  - intros j id. rewrite lookup_empty. split; [done|]. intros (? & E & _). by rewrite lookup_empty in E.
  - intros j id. by rewrite !lookup_empty.
Qed.

Lemma cstart_ok m prefix w : om_rel m ∅ ∅ ∅ → cstart gbs f m prefix = Ok w → inv w.
Proof.
  intros Hm [= <-]. exists ∅, ∅, ∅, ∅, [], []. unfold pending. cbn [bound sch mac objs cw ow mems _reqs_to_load].
  split_and!; [|split; cbn; try done; [apply NoDup_nil_2|by intros ? ?%elem_of_nil..]|apply jobs_start|done|apply data_start].
  split; cbn; try done.
  - intros x. split; [by intros ?%not_elem_of_empty|]. intros [id Hx]. by apply not_elem_of_empty in Hx.
Qed.

(** ** The promise *)

Lemma load_is_right w (E : entries) r t slots ids k0 :
  t_spec t = load_spec slots ids k0 → load_ok group f (block_hashes r) E slots ids k0 →
  t_copies t = zip (drop (Z.to_nat (k0 `mod` f)) (subblocks f slots)) ids →
  (t_done t = true → ∀ n b d, ids !! n = Some b → block_hashes r !! (Z.to_nat k0 + n)%nat = Some d → gpu (mems (mac w)) !! b = Some d) →
  (∀ h s, (h, s) ∈ E → holds group f (cpu (mems (mac w))) h s) → load_right w r ids k0 t.
Proof.
  intros Es Hl Ec Hdone Hh. pose proof Hl as (Hk0 & Hlen & Hk). pose proof (Z.mod_pos_bound k0 f Hf). pose proof (Z.div_mod k0 f ltac:(lia)). pose proof (Z.div_pos k0 f Hk0 Hf). split_and!; [done| |].
  - rewrite Ec. apply snd_zip. rewrite length_drop, length_subblocks. unfold zlen in Hlen. nia.
  - intros n src dst Hn. rewrite Ec in Hn. apply lookup_zip_Some in Hn as [Hsrc Hdst]. rewrite lookup_drop in Hsrc.
    apply (subblocks_lookup f) in Hsrc as (k & i & s & En & Hi & Hs & ->); [|done]. destruct (Hk k s i Hs Hi) as (h & d & HE & Hgr & Hd). exists d.
    assert (((Z.to_nat (k0 / f) + k) * Z.to_nat f + i = Z.to_nat k0 + n)%nat) as Ei by nia. rewrite Ei in Hd. split; [done|].
    destruct (t_done t); [by apply (Hdone eq_refl n)|]. by apply (Hh h s HE).
Qed.

Lemma inv_reloads_safe w : inv w → reloads_safe w.
Proof.
  intros (D & S & own & held & sq & lq & Hs & Hk & Hj & Ho & Hd). split.
  - rewrite (queue_loads f _ _ _ Ho). intros t Ht. destruct (job_of_load _ _ _ t Hj Ht) as [id Hid]. destruct (d_loads Hd t id Ht Hid) as (r & Hr & slots & ids & k0 & E1 & E2 & E3 & E4).
    exists id, r, slots, ids, k0. split_and!; [done| |done|done|].
    + apply elem_of_dom. rewrite (k_loaded Hk), elem_of_union. left. apply elem_of_dom. exists (t_job_id t). by apply (j_ljob Hj).
    + eapply load_is_right; [done..|]. intros h s Hx. destruct (d_held Hd id _ Hx) as (H1 & H2 & H3). by apply (d_mem Hd).
  - intros id j Hor r Hr. destruct (s_hashed Hs id r Hr) as [Eid _]. unfold connector_request_finished. cbn [fst with_next_stored with_request_blocks _reqs_being_stored]. rewrite Eid.
    apply bool_decide_eq_true, elem_of_dom. rewrite (k_stored Hk), elem_of_union, elem_of_list_to_set. destruct Hor as [Hjob|?]; [left|by right].
    apply (j_of Hj) in Hjob as (J & HJ & _). apply elem_of_dom. by exists J.
  - intros Hb. pose proof (k_stored Hk) as E. unfold pending in E. rewrite Hb in E. cbn in E. by rewrite (right_id_L ∅ (∪)) in E.
Qed.
End safe.

(** C15: both sides of the offloading connector, the transfers and the memories, with any
    manager that obeys its laws: under a scheduler and an engine that keep to their part,
    no operation raises, in any order and with any progress of the transfers; each load
    writes the blocks of its request, in order, and finds their data in host memory as
    long as it has not been carried out; and while a store of a request is not collected
    [request_finished] answers True for it: the scheduler is told to keep its blocks. *)
Theorem connector_runs_safe `{PyRuntime} (group : bytes → list bytes) {M : Type} `{!OffloadingManager M} `{!OffloadingManagerLaws M}
    (gbs f : Z) (m : M) (prefix : bool) (w0 : cworld M) (ops : list cop) :
  0 < gbs → 0 < f → om_rel m ∅ ∅ ∅ → cstart gbs f m prefix = Ok w0 → clegal_run group w0 ops →
  ∃ w, rfold run_cop w0 ops = Ok w ∧ reloads_safe w.
Proof.
  intros Hg Hf Hm E Hl. destruct (run_cops_ok group gbs f Hg Hf ops w0 (cstart_ok group gbs f m prefix w0 Hm E) Hl) as (w & Ew & Hi).
  exists w. split; [done|]. by apply (inv_reloads_safe group gbs f Hf).
Qed.

(** C16: after every legal run, a collection succeeds; it reports every finished request
    or remembers it, and when the transfers have ended it reports every finished request,
    the remembered ones included, and every request that loads: none is left waiting. *)
Theorem connector_reports `{PyRuntime} (group : bytes → list bytes) {M : Type} `{!OffloadingManager M} `{!OffloadingManagerLaws M}
    (gbs f : Z) (m : M) (prefix : bool) (w0 w : cworld M) (ops : list cop) (fin : gset string) :
  0 < gbs → 0 < f → om_rel m ∅ ∅ ∅ → cstart gbs f m prefix = Ok w0 → clegal_run group w0 ops → rfold run_cop w0 ops = Ok w →
  Forall (λ id, id ∉ _requests (sch w)) (elements fin) →
  ∃ w', run_cop w (CCollect fin) = Ok w' ∧ all_reported w fin w'.
Proof.
  intros Hg Hf Hm E Hl Ew Hfin. destruct (run_cops_ok group gbs f Hg Hf ops w0 (cstart_ok group gbs f m prefix w0 Hm E) Hl) as (w1 & Ew1 & Hi).
  rewrite Ew in Ew1. injection Ew1 as <-. destruct (collect_full group gbs f Hg Hf w fin Hi Hfin) as (w' & E' & _ & H0 & H1 & H2).
  exists w'. split; [done|]. split; auto.
Qed.

(** ** A run *)

(** A runtime that iterates sets in the order of their elements. *)
Program Definition plain_runtime : PyRuntime := {| set_iter A _ _ X := elements X; np_empty n := replicate n 0 |}.
Next Obligation. done. Qed.
Next Obligation. intros n. apply length_replicate. Qed.
#[local] Existing Instance plain_runtime.

Definition demo_request (id : string) (tokens : list Z) (hashes : list bytes) : Request :=
  mkRequest id 0 0 0 None None None false 0 WAITING None 16 (Some tokens) None ∅ (zlen tokens) [] tokens 0 [] 0 None [] (-1) 0 0 hashes false false [] 0 false false None.

Definition demo_step (news : list (string * list Z)) (scheduled : list (string * Z)) (preempted : gset string) : SchedulerOutput :=
  mkOutput ((λ x, mkNewRequestData x.1 None [] None None [x.2] 0 None None None) <$> news) (mkCachedRequestData [] ∅ [] [] [] [] [])
    scheduled 0 [] [] [] ∅ [] preempted false false None None.

(** Two device blocks to an offloaded block: the second names the first. *)
Definition demo_group (h : bytes) : list bytes := match h with [k] => [[k - 1]; [k]] | _ => [] end.

(** A request is computed and stored, preempted while its blocks are being copied, and
    finishes; another one, with its first block still on the device, loads the rest. *)
Definition demo_run : list cop :=
  [CRequest (demo_request "a" [1; 2; 3; 4; 5; 6; 7; 8] [[1]; [2]; [3]; [4]]); CMatch "a" 0; CAdmit "a" 0 [[]];
   CStep (demo_step [("a", [10; 11; 12; 13])] [("a", 8)] ∅);
   CCompute 10 (Some [1]); CCompute 11 (Some [2]); CCompute 12 (Some [3]); CCompute 13 (Some [4]); CSave; CCollect ∅;
   CStep (demo_step [] [] {["a"]}); CSave; CCollect ∅; CFinish "a"; CCollect {["a"]}; CEvents; CCompute 11 None;
   CRequest (demo_request "b" [1; 2; 3; 4; 5; 6; 7; 8; 9] [[1]; [2]; [3]; [4]]);
   CAdmit "b" 2 [[mkBlock 10 1 (Some [1]) None None false; new_block 20; new_block 21; new_block 22]];
   CStep (demo_step [] [] ∅); CPartial LOADS 21 (Some [99]); CTransfer LOADS].

Definition demo_manager : CPUOffloadingManager bytes LRUCachePolicy := offload_init 4 2 true.

Definition demo_start : cworld (CPUOffloadingManager bytes LRUCachePolicy) :=
  match cstart 2 2 demo_manager true with Ok w => w | Err _ => mkCWorld (mkConnector 0 0 0 demo_manager ∅ ∅ [] ∅ None ∅ ∅) (mkMachine connector_worker_init ∅ (mkMemories ∅ ∅)) ∅ None end.

Lemma connector_runs_safe_witness : ∃ w, rfold run_cop demo_start demo_run = Ok w ∧ reloads_safe w.
Proof.
  apply (connector_runs_safe demo_group 2 2 demo_manager true); [lia|lia|by apply cpu_start|reflexivity|].
  apply (bool_decide_eq_true_1 (clegal_run demo_group demo_start demo_run)). vm_compute. reflexivity.
Defined.

(** The load of that run. *)
Lemma demo_load : ∃ w, rfold run_cop demo_start demo_run = Ok w
  ∧ (λ t, (t_copies t, t_done t)) <$> queue (mac w) LOADS = [([(1, 20); (2, 21); (3, 22)], true)]
  ∧ (λ b, gpu (mems (mac w)) !! b) <$> [20; 21; 22] = [Some [2]; Some [3]; Some [4]].
Proof. vm_compute. eexists. split_and!; reflexivity. Qed.

Definition demo_end : cworld (CPUOffloadingManager bytes LRUCachePolicy) :=
  match rfold run_cop demo_start demo_run with Ok w => w | Err _ => demo_start end.

(** After that run request "b" is reported. *)
Lemma connector_reports_witness :
  dom (_reqs_being_loaded (sch demo_end)) = {["b"]} ∧ ∃ w', run_cop demo_end (CCollect ∅) = Ok w' ∧ all_reported demo_end ∅ w' ∧ dom (_reqs_being_loaded (sch w')) = ∅.
Proof.
  split; [vm_compute; reflexivity|]. destruct (connector_reports demo_group 2 2 demo_manager true demo_start demo_end demo_run ∅) as (w' & E' & Hr);
    [lia|lia|by apply cpu_start|reflexivity| |vm_compute; reflexivity|apply Forall_nil_2|].
  - apply (bool_decide_eq_true_1 (clegal_run demo_group demo_start demo_run)). vm_compute. reflexivity.
  - exists w'. split_and!; [done|done|]. rewrite (loads_reported _ _ _ Hr); [vm_compute; reflexivity|].
    apply (bool_decide_eq_true_1 (Forall (λ t, t_done t = true) (queue (mac demo_end) LOADS))). vm_compute. reflexivity.
Defined.
